(* ===== verification/_CoqProject ===== *)
-Q . S2P
Prelude.v
Reader.v
Common.v
Crypto.v
Pow.v
Serialization.v
Key.v
KeyManager.v
KeyStore.v
Event.v
Ledger.v
State.v
Decay.v
Gossip.v
Flood.v
LedgerSync.v
Reconcile.v
Floats.v
Doubles.v
RoutingTable.v
Router.v
Channel.v
Session.v
Network.v
Registry.v
Replication.v
TrustGraph.v
Reputation.v
Access.v
PoStake.v
Activity.v
Hybrid.v
Attack.v
Integrity.v
Storage.v
Thing.v
Onion.v
IpProtection.v
Revocation.v
TokenRevocation.v
Json.v
Identity.v
KeyRevocation.v
Text.v
PeerMessages.v
PeerDiscovery.v
Peer.v
Sanitizer.v
Renderer.v
Websocket.v
Gateway.v
Connection.v
Human.v
Runner.v
Stun.v
TimeUtils.v
HardwareKeys.v
Node.v
