(* ===== verification/Prelude.v ===== *)
(** * Cashew: ledger, state view, economy of keys, network, security and gateway

    A model of the Cashew node, a peer-to-peer hosting network
    without a currency, and theorems about it.  Paths below are relative to
    the source tree of the program (its [src/] and [include/] directories).

    ** The program

    Nodes earn _participation keys_ by proof of work, contribution or vouching
    (core/pow, core/keys); a key permits an activity (running a node, joining a
    network, hosting, routing) and decays when unused (core/decay).  What
    happens is recorded as hash-linked _events_ in each node's append-only
    _ledger_ (core/ledger/ledger.cpp), fed by the node itself and by gossip.
    From the events a _state view_ (core/ledger/state.cpp) is computed that
    answers who is active, who is a member of which network, who hosts which
    thing and who may do what; the decay scheduler consults it.  Nodes exchange
    events by an epidemic protocol (network/gossip.cpp); a bridge feeds what
    arrives into ledger and view and answers requests for past epochs
    (network/ledger_sync.cpp), diverged ledgers are merged
    (network/state_reconciliation.cpp), and content is found and fetched over
    several hops (network/router.cpp).  Two nodes talk through an encrypted
    session (network/session.cpp); nodes form networks that keep replicas of a
    thing (network/network.cpp).  Contributions are tracked and scored
    (network/activity_monitor.cpp, core/postake), nodes attest and vouch for
    each other (core/reputation), and both feed into access control
    (security/access.cpp).  Content is stored under its hash
    (storage/storage.cpp, core/thing/thing.cpp) and checked by Merkle trees
    (security/content_integrity.cpp).  Events, keys and payloads travel in packed
    little-endian formats, signed with Ed25519 and identified by BLAKE3 hashes.
    A node has an identity whose key can be rotated (core/node); people may have
    one too (identity/human_identity.cpp).  Peers are found, kept and banned over
    TCP connections (network/peer.cpp, network/connection.cpp) and find their own
    address by STUN (network/nat_traversal.cpp); traffic can be wrapped in onion
    circuits and cover traffic (security/onion_routing.cpp, ip_protection.cpp),
    and keys and tokens are revoked by signed messages (security/key_revocation.cpp,
    token_revocation.cpp).  A gateway serves things to browsers
    (gateway/gateway_server.cpp, content_renderer.cpp, websocket_handler.cpp).

    ** The files

    - [Prelude] (this file): machine integers, bytes, arrays, outcomes, map
      iteration order, tactics and hint databases, generic lemmas.
    - [Reader]: the byte-reader monad of all parsers, three compositional
      judgements about readers, and the [Codec]/[CodecLaws] interface.
    - [Common]: hexadecimal and base64 (common.cpp, crypto/blake3.cpp).
    - [Crypto]: the class [Crypto] of third-party primitives, the laws
      [SignatureLaws], and the wrappers Modules [Argon2] and [Ed25519]
      (crypto/argon2.cpp, crypto/ed25519.cpp).
    - [Pow]: puzzles, solver, verifier, difficulty (core/pow/pow.cpp).
    - [Serialization]: the self-describing value format
      (include/cashew/serialization.hpp, utils/serialization.cpp).
    - [Key]: [Key], [KeyTransfer], [KeyVouch] and their formats (core/keys).
    - [KeyManager]: the inventory class and, in Module [Interleaving], the
      steps of concurrent transfers (core/keys/key.cpp).
    - [KeyStore]: persistence over a map of files (core/keys/key.cpp).
    - [Event]: ledger events and payloads (core/ledger/ledger.cpp, first part).
    - [Ledger]: [LedgerIndex], [Ledger] (core/ledger/ledger.cpp).
    - [State]: [StateManager] (core/ledger/state.cpp).
    - [Decay]: [DecayScheduler] (core/decay/decay.cpp).
    - [Gossip]: announcements, messages, [GossipProtocol] and its scheduler
      (network/gossip.cpp).
    - [Flood]: a network of such nodes, with the packets in flight, as a step
      relation: one step delivers (or loses) one packet.
    - [LedgerSync]: [LedgerGossipBridge] and its scheduler, over [Gossip],
      [Ledger] and [State] (network/ledger_sync.cpp).
    - [Reconcile]: [StateReconciliation] (network/state_reconciliation.cpp).
    - [Floats], [Doubles]: binary32 and binary64 arithmetic from the Standard
      Library's specification of IEEE 754; order lemmas, rounding of ratios and
      conversions to integers, and the exactness of binary64 on whole numbers.
    - [RoutingTable]: the first half of network/router.cpp.
    - [Router]: its second half: content messages, requests, responses, onion
      layers.
    - [Channel]: the class [ChannelCrypto] of key exchange and authenticated
      encryption with the laws [ChannelLaws], and their wrappers
      (crypto/x25519.cpp, crypto/chacha20poly1305.cpp).
    - [Session]: handshake, frames, and the manager over shared sessions, which
      are cells of a heap (network/session.cpp).
    - [Network], [Registry], [Replication]: the three classes of
      network/network.cpp: members and invitations, the registry with its
      directory of files, the queue of replication jobs.
    - [TrustGraph], [Reputation]: the trust graph with its searches; scores,
      attestations, vouches and the vouching workflow (core/reputation).
    - [Access]: policies, decisions, capability tokens (security/access.cpp),
      over [State].
    - [PoStake], [Hybrid]: contribution tracker and engine, and key issuance by
      work and contribution (core/postake).
    - [Activity]: the monitor that reports to the tracker, and the monitored
      session (network/activity_monitor.cpp), over [PoStake] and [Session].
    - [Attack]: rate limits, Sybil and DDoS defences, fork detection
      (security/attack_prevention.cpp).
    - [Integrity]: hashes and Merkle trees (security/content_integrity.cpp).
    - [Storage], [Thing]: the content-addressed store and the things in it.
    - [Onion]: layers, circuits and their manager (security/onion_routing.cpp),
      over [Channel].
    - [IpProtection]: peer rotation, ephemeral identifiers, padding
      (security/ip_protection.cpp).
    - [Json]: the values of the JSON library, with its text format as the class
      [JsonText] and the laws [JsonTextLaws].
    - [Identity]: rotation certificates and identity files
      (core/node/node_identity.cpp).
    - [Node]: configuration and the life of a node (utils/config.cpp,
      core/node/node.cpp), over [Identity].
    - [Revocation], [TokenRevocation], [KeyRevocation]: what the two revocation
      lists share, and each of them (security/token_revocation.cpp,
      security/key_revocation.cpp).
    - [HardwareKeys]: the interface of key stores with its two implementations
      (security/hardware_key_storage.cpp).
    - [Text]: decimal numbers and the string functions of the program.
    - [PeerMessages], [PeerDiscovery], [Peer]: the five messages of
      network/peer.cpp, the database of known peers, the manager of connections
      over [Session].
    - [Connection]: addresses, bandwidth limiter, connections as shared cells and
      their manager (network/connection.cpp), and the monitored connections of
      network/activity_monitor.cpp.
    - [Stun]: messages, queries and the cached public address
      (network/nat_traversal.cpp).
    - [Human]: human identities and their manager (identity/human_identity.cpp).
    - [Sanitizer], [Renderer]: the cleaning of HTML with its loops, and the cache
      and responses around it (gateway/content_renderer.cpp).
    - [Websocket]: connections, subscriptions and broadcasts
      (gateway/websocket_handler.cpp).
    - [Gateway]: requests, sessions, rate limits, static files, with the mutexes
      the thread of a request holds (gateway/gateway_server.cpp), over [Renderer].
    - [Runner]: the periodic decay checks (core/decay/decay_runner.cpp), over
      [Decay].
    - [TimeUtils]: timestamps, epochs and the window limiter
      (include/cashew/time_utils.hpp, utils/time_utils.cpp).

    A class is a [Record] of its fields, a method a function of the same name
    on it; where one name serves two classes the second is qualified by its
    file or by a prefix ([key_], [transfer_], [index_], ...).  An exception or
    an empty [std::optional] is [Err], behaviour that C++ leaves undefined is
    [Undef], and an integer is a [Z] whose wrap-around is written at each
    operation that can reach it ([u32], [u64], [i64]).  Indeterminate
    members are [option]s.  The clock, random numbers, directory listings and
    the contents of uninitialised buffers are arguments.  Logging is omitted.

    ** What is shown

    - Ledger: from construction on, every sequence of local and external
      events keeps lookup table, index and links exact, the chain valid and
      conflict-free; recording and accepting are characterised on every
      branch; the log only grows; the index refines a scan of the events; a
      saved ledger loads back; conflict detection is exact.  Two defects: a
      far-future event can be reported accepted without being stored, and an
      empty file loaded over a history disables recording for good.
    - State view: a reachability invariant over the three maps; balances
      refine a fold over the events; agreement with the independently
      computed index; the capability checks; exactly which events overflow;
      what activity refresh and cleanup do; how repeated creation events make
      the views disagree.
    - Keys: the manager's invariant and the exactness of its queries;
      transfers and vouches on every branch; at most one of any number of
      interleaved transfers of a key succeeds; created transfers verify and
      execute; the store round trip; identifiers and the decay clock.  Defects:
      a transfer may change the type of the key, the vouch limit never
      resets, the history is appended without the lock.
    - Decay: one pass characterised for keys and things, and two cases in
      which recorded activity does not prevent decay.
    - Gossip: when a message is handled and forwarded, and to whom; every
      flood in a network ends, within a computed number of deliveries, and
      without losses reaches all nodes linked to its origin.
    - Synchronisation: a bridge keeps the view the fold of its ledger, and its
      runs are undefined exactly when an admitted event overflows a score; a node
      that lags behind and receives the missing suffix ends with the ledger
      and the view its peer holds; but messages without events are refused, so such
      suffixes are never asked for.
    - Reconciliation: every strategy keeps view and ledger in step; what
      automatic and quorum reconciliation decide.  Defects: identical
      histories count as a conflict, a quorum can only be adopted when two
      unrelated hashes agree, totals are read uninitialised.
    - Routing: the index of contents and the entries of nodes agree, the best
      host is a maximum of the score, requests and responses on every branch,
      onion layers.  Defects: the absence of a route is never noticed, routes
      of several hops do not forward, a response is not compared with what was
      asked for.
    - Sessions: the state machine, no nonce used twice, agreement of two honest
      ends; one session per peer in the manager.  Defects: the handshake
      authenticates nobody and frames can be replayed.
    - Networks: the invariant of members and invitations, the life of an
      invitation, what adjusting redundancy keeps, saving and loading a registry;
      the replication queue refines a line served by urgency, and is served.
      Defects: a member who was invited can never invite, a removed network
      comes back, identifiers are given twice after a restart.
    - Reputation: scores stay in range, and the one sum that can overflow is that of
      a change passed to [apply_score_delta]; the trust
      searches compute reachability, shortest distances and all simple paths;
      the vouching workflow step by step.  Defects: attestations need no
      signature and count as often as they are sent.
    - Access: decisions refine a table of entitlements; what the shortcuts skip.
      Defects: tokens prove nothing, anybody can become a founder.
    - Contribution: scores are bounded, and with the default rates too low for a
      single key; the monitor is a fold of reports to the tracker; the
      coordinator's books are sums over the records issued, within the epoch's
      limit unless a sum wraps.  Defects: work is only compared with its own
      claim, the rate limit lasts sixty nanoseconds.
    - Defences: the binary64 token bucket counts whole tokens and bounds the
      rate; the limit per address.  Defects: identities cost no work, forks are
      never reported to the detector.
    - Content: the Merkle root is the tree hash of the chunks and collision
      resistant for a given length; the store is a map; things load as saved.
      Defects: inner nodes pass for leaves, metadata keys collide, a thing is
      loaded under any hash.
    - Onion circuits and IP protection: each node of a circuit opens its own layer
      and learns the next hop, the last one the payload; when addresses and
      identifiers rotate.
    - Identity: a rotated identity is an unbroken chain of certificates from its
      first key, an identity file is read back, a node finds its identity again
      after a restart; keys in a store answer for what was stored last.  Defects:
      a machine with a TPM gets a store that refuses every call; a human identity
      can be taken over, since nothing ties its identifier to its key.
    - Revocation: stored revocations are found under every index, and no node fills
      a list beyond its share.
    - Peers and connections: the invariants of the two managers, who is connected
      to, what a limited connection can send over time; the public address is
      the one the server wrote.  Defects: attempts at a peer whose
      connection was closed fail as long as its session is kept, and ban it for good; a limiter can refuse for good, truncated
      announcements, peer lists and STUN answers are read out of bounds.
    - Gateway: static files stay inside the web root, rendered content is the
      content of its hash.  Defects: an unclosed tag makes the sanitizer loop for
      ever, some requests lock a mutex their thread already holds.
    - Decay runner: the pace of the checks.  Defect: each check condemns and
      counts what the one before it did.
    - Time: epochs partition the seconds, the window limiter admits no more than
      its maximum in any window.
    - Formats: every record is read back from its encoding with any bytes
      after it, accepted input is an encoding, and with 64-bit sizes no parser
      leaves its input, except three of gossip, two of the peers and that of STUN
      addresses, on exactly described inputs.
    - Proof of work: the difficulty test is a numeric comparison; the solver
      is sound, complete for its bound and terminates; difficulties stay in
      range.

    ** Bounds and fuel

    [Serialization.decode_value] runs on fuel [2 * size + 1]: each level of
    nesting and each element consumes at least one byte, and
    [deserialize_total] proves the fuel sufficient for every input.  The
    solver recurses on the list of nonces drawn; it returns once that list is
    as long as a positive attempt bound, and without a bound the program does
    not end either.  The benchmark loop runs on fuel, one unit per hash.
    Eight rounds empty the mask of [mask_zeros], which gets nine.  A request in onion
    layers is handled with fuel one more than the bytes in its layers
    ([handle_fuel_enough]); the keystream of [xor_with_keystream] has one block
    per 32 bytes of input; the weight of a network bounds its deliveries.
    The searches of [TrustGraph] get fuel from the number of nodes and edges and
    are proved to end within it ([trust_search_exact],
    [transitive_trust_exact]).  The loop over the chunks of a content has one
    round per byte, and the loop over the levels of a Merkle tree one per leaf:
    a level is shorter than the one below ([merkle_root_is_tree_hash]).
    The signed 32-bit parts of a reputation score cannot overflow in the first
    42,000,000 operations, and unsigned counters of the contribution tracker not in the
    first [2 ^ 32]; both bounds are hypotheses on the length of a run.
    Vectors are shorter than [2 ^ 63] where a sum of offsets matters ([vector_fits]).
    A pass of the [Sanitizer] runs on one unit more than the bytes of its input, and a
    loop that ends gets ahead by at least a byte in each round; a loop that does not end runs
    out of any fuel, and [sanitizer_hangs_exactly] says on which inputs.  The
    search of STUN attributes has one round per byte, each attribute taking at
    least four ([loop_fuel]).  The bandwidth bound is for eighteen years, the
    range in which its products fit 64 bits.

    ** What is not modelled

    BLAKE3, Argon2, libsodium and the text format of the JSON library are
    third-party code and appear as the classes [Crypto], [ChannelCrypto] and
    [JsonText]; [toy_crypto], [toy_channel] and [toy_json] are computable instances
    that satisfy the laws and serve the concrete examples.  What a socket, a name
    server, a file system listing or a remote peer answers is an argument of the
    call that asks.  The HTTP library, the options of sockets, the threads that only
    call the methods modelled, and destructors are left out; so are the main
    function, logging, the texts of error codes, and times as text. *)

(** ** Shared vocabulary

    Machine integers as [Z] with their wrap-around written out, bytes and
    byte strings ([std::string] and [std::vector<uint8_t>] are both lists of
    bytes), fixed-size arrays ([std::array<byte, N>]), the outcome of C++ code
    that may fail or leave defined behaviour, the iteration order of
    [std::map], and the tactics and hint databases the other files use. *)

From Stdlib Require Export ZArith Lia.
From Stdlib Require Import Strings.Byte.
From stdpp Require Export base gmap sets list strings sorting numbers.

Declare Scope cashew_scope.
Delimit Scope cashew_scope with cashew.

#[global] Open Scope Z_scope.

(** ** Tactics *)

(** Case analysis on the scrutinee of a match, outermost first. *)
Ltac case_scrut :=
  match goal with
  | |- context [match ?x with _ => _ end] => destruct x eqn:?
  end.

Ltac case_scrut_in H :=
  match type of H with
  | context [match ?x with _ => _ end] => destruct x eqn:?
  end.

(** Turns the boolean comparisons of the model into propositions. *)
Ltac bool_to_prop :=
  repeat match goal with
  | H : (_ <? _) = true |- _ => apply Z.ltb_lt in H
  | H : (_ <? _) = false |- _ => apply Z.ltb_ge in H
  | H : (_ <=? _) = true |- _ => apply Z.leb_le in H
  | H : (_ <=? _) = false |- _ => apply Z.leb_gt in H
  | H : (_ =? _) = true |- _ => apply Z.eqb_eq in H
  | H : (_ =? _) = false |- _ => apply Z.eqb_neq in H
  | H : bool_decide _ = true |- _ => apply bool_decide_eq_true_1 in H
  | H : bool_decide _ = false |- _ => apply bool_decide_eq_false_1 in H
  | H : (_ && _) = true |- _ => apply andb_true_iff in H; destruct H
  | H : (_ || _) = false |- _ => apply orb_false_iff in H; destruct H
  end.

Create HintDb cashew discriminated.
Create HintDb bounds discriminated.
Create Rewrite HintDb len.

(** ** Machine integers *)

(** The value a [w]-bit unsigned type holds after computing [z]. *)
Definition wrap (w z : Z) : Z := z mod 2 ^ w.

(** The value a [w]-bit signed (two's complement) type holds. *)
Definition swrap (w z : Z) : Z := (z + 2 ^ (w - 1)) mod 2 ^ w - 2 ^ (w - 1).

Abbreviation u8 := (wrap 8).
Abbreviation u16 := (wrap 16).
Abbreviation u32 := (wrap 32).
Abbreviation u64 := (wrap 64).
Abbreviation i32 := (swrap 32).
Abbreviation i64 := (swrap 64).

(** [z] is a value of the unsigned [w]-bit type. *)
Definition in_u (w z : Z) : Prop := 0 <= z < 2 ^ w.

(** [z] is a value of the signed [w]-bit type. *)
Definition in_s (w z : Z) : Prop := - 2 ^ (w - 1) <= z < 2 ^ (w - 1).

#[export] Instance in_u_dec w z : Decision (in_u w z).
Proof. unfold in_u. apply _. Defined.

#[export] Instance in_s_dec w z : Decision (in_s w z).
Proof. unfold in_s. apply _. Defined.

(** ** Bytes and byte strings *)

Abbreviation byte := Byte.byte.
Abbreviation bytes := (list Byte.byte).

#[export] Instance byte_eq_dec : EqDecision byte := Byte.byte_eq_dec.

#[export] Program Instance byte_countable : Countable byte :=
  inj_countable Byte.to_N Byte.of_N _.
Next Obligation. intros b. apply Byte.of_to_N. Qed.

Definition byte_val (b : byte) : Z := Z.of_N (Byte.to_N b).

(** [static_cast<uint8_t>(z)]. *)
Definition to_byte (z : Z) : byte :=
  match Byte.of_N (Z.to_N (u8 z)) with
  | Some b => b
  | None => "000"%byte
  end.

(** A string literal of the source. *)
Definition str (s : string) : bytes := String.list_byte_of_string s.

(** [x.size()] as the [size_t] the code compares. *)
Definition len {A} (l : list A) : Z := Z.of_nat (length l).

(** The elements of [l] from position [o], [n] of them. *)
Definition sub {A} (l : list A) (o n : Z) : list A :=
  take (Z.to_nat n) (drop (Z.to_nat o) l).

(** The loop [for (i = 0; i < n; ++i) out.push_back((uint8_t)(x >> (i * 8)))];
    also what [memcpy] stores on the little-endian targets the code runs on. *)
Definition le_bytes (n : nat) (x : Z) : bytes :=
  (λ i : nat, to_byte (Z.shiftr x (Z.of_nat i * 8))) <$> seq 0 n.

(** The loop [for (...) value |= (T)in[i] << (i * 8)], before the result is
    stored at its width. *)
Definition le_val (l : bytes) : Z :=
  foldl Z.lor 0 (imap (λ i b, Z.shiftl (byte_val b) (Z.of_nat i * 8)) l).

(** [oss << z] for an unsigned integer of at most 64 bits: decimal digits, most
    significant first (twenty suffice). *)
Fixpoint dec_digits (fuel : nat) (z : Z) : bytes :=
  match fuel with
  | O => []
  | S fuel =>
      (if z <? 10 then [] else dec_digits fuel (z / 10)) ++ [to_byte (48 + z mod 10)]
  end.

Definition dec (z : Z) : bytes := dec_digits 20 z.

(** ** Fixed-size arrays *)

(** [std::array<byte, N>]: exactly [n] bytes. *)
Definition array (n : nat) : Type := dsig (λ l : bytes, length l = n).

Definition arr {n} (a : array n) : bytes := proj1_sig a.

#[export] Instance array_eq_dec n : EqDecision (array n).
Proof. unfold array. apply _. Defined.

#[export] Instance array_countable n : Countable (array n).
Proof. unfold array. apply _. Defined.

(** The array whose bytes are [l], when [l] has the right number of them. *)
Definition to_array (n : nat) (l : bytes) : option (array n) :=
  match decide (length l = n) with
  | left H => Some (dexist l H)
  | right _ => None
  end.

Program Definition array_fill (n : nat) (b : byte) : array n :=
  dexist (replicate n b) _.
Next Obligation. intros. apply length_replicate. Qed.

(** A value-initialised array: all bytes zero. *)
Definition zeros (n : nat) : array n := array_fill n "000"%byte.

(** ** Outcomes *)

(** The failures the modelled code signals: a [std::nullopt] result, the
    exceptions it throws, and those its standard-library calls throw. *)
Inductive error :=
  | ENullopt
  | ERuntime (what : string)
  | EInvalidArgument (what : string)
  | EOutOfRange (what : string)
  | ELength (what : string).

(** [Undef] is undefined behaviour: a read outside an object. *)
Inductive outcome (A : Type) :=
  | Ok (a : A)
  | Err (e : error)
  | Undef.
Arguments Ok {A} _.
Arguments Err {A} _.
Arguments Undef {A}.

#[export] Instance outcome_ret : MRet outcome := λ A a, Ok a.
#[export] Instance outcome_bind : MBind outcome := λ A B f m,
  match m with Ok a => f a | Err e => Err e | Undef => Undef end.

Definition is_ok {A} (r : outcome A) : bool := match r with Ok _ => true | _ => false end.

(** What the caller of a function returning [std::optional] sees. *)
Definition to_optional {A} (m : outcome A) : option A :=
  match m with Ok a => Some a | _ => None end.

(** ** Ordered containers *)

(** [std::array] and [std::string] compare lexicographically by bytes. *)
Fixpoint bytes_leb (l k : bytes) : bool :=
  match l, k with
  | [], _ => true
  | _ :: _, [] => false
  | a :: l, b :: k =>
      if byte_val a <? byte_val b then true
      else if byte_val a =? byte_val b then bytes_leb l k
      else false
  end.

(** A key type of [std::map]/[std::set] with its [operator<], read as the
    non-strict order it induces. *)
Class KeyOrder (K : Type) := key_leb : K → K → bool.

#[export] Instance bytes_order : KeyOrder bytes := bytes_leb.
#[export] Instance array_order n : KeyOrder (array n) :=
  λ a b, bytes_leb (arr a) (arr b).
#[export] Instance byte_order : KeyOrder byte :=
  λ a b, byte_val a <=? byte_val b.
#[export] Instance Z_order : KeyOrder Z := Z.leb.

(** The laws the iteration order needs. *)
Class KeyOrderLaws (K : Type) `{KeyOrder K} := {
  key_leb_total : ∀ a b : K, key_leb a b = true ∨ key_leb b a = true;
  key_leb_trans : ∀ a b c : K,
    key_leb a b = true → key_leb b c = true → key_leb a c = true;
  key_leb_antisym : ∀ a b : K,
    key_leb a b = true → key_leb b a = true → a = b
}.

Definition entry_le {K V} `{KeyOrder K} (x y : K * V) : Prop :=
  key_leb x.1 y.1 = true.

#[export] Instance entry_le_dec {K V} `{KeyOrder K} (x y : K * V) :
  Decision (entry_le x y).
Proof. unfold entry_le. apply _. Defined.

(** The entries of a [std::map] in iteration order. *)
Definition entries {K V} `{Countable K, KeyOrder K} (m : gmap K V) :
    list (K * V) :=
  merge_sort entry_le (map_to_list m).

Definition elt_le {K} `{KeyOrder K} (x y : K) : Prop := key_leb x y = true.

#[export] Instance elt_le_dec {K} `{KeyOrder K} (x y : K) :
  Decision (elt_le x y).
Proof. unfold elt_le. apply _. Defined.

(** The elements of a [std::set] in iteration order. *)
Definition set_elements {K} `{Countable K, KeyOrder K} (s : gset K) : list K :=
  merge_sort elt_le (elements s).

(** [m[k]] of the source: the entry, value-initialised to [d] when missing. *)
Definition at_or {K V} `{Countable K} (d : V) (k : K) (m : gmap K V) : V :=
  default d (m !! k).

(** ** Clock readings *)

(** The clock does not run backwards: the readings ascend, from [lo] to [hi]. *)
Fixpoint ascending {A} (lo hi : Z) (ops : list (Z * A)) : Prop :=
  match ops with
  | [] => lo <= hi
  | p :: ops => lo <= p.1 ∧ ascending p.1 hi ops
  end.

(** ** Integer facts *)

Lemma wrap_range w z : 0 <= w → in_u w (wrap w z).
Proof. intros. apply Z.mod_pos_bound. lia. Qed.

Lemma wrap_small w z : in_u w z → wrap w z = z.
Proof. apply Z.mod_small. Qed.

Lemma wrap_idemp w z : wrap w (wrap w z) = wrap w z.
Proof. apply Zmod_mod. Qed.

Lemma wrap_add_l w x y : wrap w (wrap w x + y) = wrap w (x + y).
Proof. apply Zplus_mod_idemp_l. Qed.

Lemma wrap_add_r w x y : wrap w (x + wrap w y) = wrap w (x + y).
Proof. apply Zplus_mod_idemp_r. Qed.

Lemma pow2_pos w : 0 <= w → 0 < 2 ^ w.
Proof. lia. Qed.

Lemma wrap_neg w z : in_u w (z + 2 ^ w) → wrap w z = z + 2 ^ w.
Proof.
  unfold wrap, in_u. intros H.
  rewrite <- (Z_mod_plus_full z 1 (2 ^ w)), Z.mul_1_l. by apply Z.mod_small.
Qed.

Lemma swrap_range w z : 0 < w → in_s w (swrap w z).
Proof.
  intros. unfold in_s, swrap.
  pose proof (Z.mod_pos_bound (z + 2 ^ (w - 1)) (2 ^ w)).
  assert (2 ^ w = 2 * 2 ^ (w - 1)) by (rewrite <- Z.pow_succ_r by lia; f_equal; lia).
  lia.
Qed.

Lemma swrap_small w z : 0 < w → in_s w z → swrap w z = z.
Proof.
  unfold in_s, swrap. intros.
  assert (2 ^ w = 2 * 2 ^ (w - 1)) by (rewrite <- Z.pow_succ_r by lia; f_equal; lia).
  rewrite Z.mod_small; lia.
Qed.

Lemma swrap_wrap w z : swrap w (wrap w z) = swrap w z.
Proof. unfold swrap, wrap. by rewrite Zplus_mod_idemp_l. Qed.

#[export] Hint Resolve wrap_range swrap_range : bounds.
#[export] Hint Extern 2 (_ <= _) => lia : bounds.
#[export] Hint Extern 2 (_ < _) => lia : bounds.

(** ** Bytes *)

Lemma byte_val_range b : in_u 8 (byte_val b).
Proof.
  unfold in_u, byte_val. pose proof (Byte.to_N_bounded b). lia.
Qed.

Lemma byte_val_inj a b : byte_val a = byte_val b → a = b.
Proof.
  unfold byte_val. intros H%N2Z.inj.
  assert (Some a = Some b) as [=] by (rewrite <- !Byte.of_to_N; by f_equal).
  done.
Qed.

Lemma byte_val_to_byte z : byte_val (to_byte z) = u8 z.
Proof.
  pose proof (wrap_range 8 z ltac:(lia)) as Hr. unfold in_u in Hr.
  unfold to_byte, byte_val. destruct (Byte.of_N _) as [b|] eqn:E.
  - apply Byte.to_of_N in E. rewrite E, Z2N.id; lia.
  - apply Byte.of_N_None_iff in E. lia.
Qed.

Lemma to_byte_val b : to_byte (byte_val b) = b.
Proof.
  apply byte_val_inj. rewrite byte_val_to_byte.
  apply wrap_small, byte_val_range.
Qed.

Lemma to_byte_wrap w z : 8 <= w → to_byte (wrap w z) = to_byte z.
Proof.
  intros. apply byte_val_inj. rewrite !byte_val_to_byte. unfold wrap.
  replace (2 ^ w) with (2 ^ 8 * 2 ^ (w - 8)).
  - rewrite Z.rem_mul_r by lia.
    rewrite (Z.mul_comm (2 ^ 8)), Z_mod_plus_full. apply Zmod_mod.
  - rewrite <- Z.pow_add_r by lia. f_equal. lia.
Qed.

(** ** Little-endian scalars *)

Lemma lor_disjoint_add a b k :
  0 <= k → in_u k a → Z.lor a (Z.shiftl b k) = a + b * 2 ^ k.
Proof.
  intros Hk [Ha Hlt].
  assert (Hl : Z.land a (Z.shiftl b k) = 0).
  { apply Z.bits_inj'. intros i Hi. rewrite Z.land_spec, Z.bits_0.
    destruct (Z.lt_ge_cases i k).
    - rewrite Z.shiftl_spec_low by lia. apply andb_false_r.
    - destruct (decide (a = 0)) as [->|]; [by rewrite Z.bits_0|].
      rewrite (Z.bits_above_log2 a i); [done..|].
      apply Z.lt_le_trans with k; [|done]. apply Z.log2_lt_pow2; lia. }
  rewrite <- Z.shiftl_mul_pow2 by done.
  by rewrite <- Z.lxor_lor, <- Z.add_nocarry_lxor.
Qed.

Lemma le_bytes_S n x :
  le_bytes (S n) x = to_byte x :: le_bytes n (Z.shiftr x 8).
Proof.
  unfold le_bytes. rewrite <- cons_seq, <- fmap_S_seq, fmap_cons.
  rewrite Z.shiftr_0_r. f_equal. rewrite <- list_fmap_compose.
  apply list_fmap_ext. intros i j _. cbn.
  rewrite Z.shiftr_shiftr by lia. do 2 f_equal. lia.
Qed.

Lemma length_le_bytes n x : length (le_bytes n x) = n.
Proof. unfold le_bytes. by rewrite length_fmap, length_seq. Qed.

Lemma foldl_lor_acc l a : foldl Z.lor a l = Z.lor a (foldl Z.lor 0 l).
Proof.
  revert a. induction l as [|x l IH]; intros a; cbn [foldl].
  - by rewrite Z.lor_0_r.
  - rewrite (IH (Z.lor a x)), (IH (Z.lor 0 x)), Z.lor_0_l. by rewrite Z.lor_assoc.
Qed.

Lemma le_val_from_cons g b l :
  foldl Z.lor 0 (imap (λ i b, Z.shiftl (byte_val b) (Z.of_nat (g + i) * 8)) (b :: l)) =
  Z.lor (Z.shiftl (byte_val b) (Z.of_nat g * 8))
    (foldl Z.lor 0 (imap (λ i b, Z.shiftl (byte_val b) (Z.of_nat (S g + i) * 8)) l)).
Proof.
  cbn [imap foldl]. rewrite foldl_lor_acc, Z.lor_0_l, Nat.add_0_r. f_equal.
  f_equal. apply imap_ext. intros i x _. cbn. do 2 f_equal. lia.
Qed.

Lemma le_val_from_S g l :
  foldl Z.lor 0 (imap (λ i b, Z.shiftl (byte_val b) (Z.of_nat (S g + i) * 8)) l) =
  Z.shiftl (foldl Z.lor 0 (imap (λ i b, Z.shiftl (byte_val b) (Z.of_nat (g + i) * 8)) l)) 8.
Proof.
  revert g. induction l as [|b l IH]; intros g; [done|].
  rewrite !le_val_from_cons, IH, Z.shiftl_lor. f_equal.
  rewrite Z.shiftl_shiftl by lia. f_equal. lia.
Qed.

Lemma le_val_cons b l : le_val (b :: l) = byte_val b + 256 * le_val l.
Proof.
  unfold le_val. rewrite (le_val_from_cons 0), (le_val_from_S 0), Z.shiftl_0_r.
  rewrite lor_disjoint_add by (apply byte_val_range || lia).
  change (2 ^ 8) with 256. by rewrite Z.mul_comm.
Qed.

Lemma le_val_bytes n x : le_val (le_bytes n x) = wrap (Z.of_nat n * 8) x.
Proof.
  revert x. induction n as [|n IH]; intros x.
  - unfold wrap. by rewrite Z.mod_1_r.
  - rewrite le_bytes_S, le_val_cons, IH, byte_val_to_byte. unfold wrap.
    rewrite Z.shiftr_div_pow2 by lia.
    replace (Z.of_nat (S n) * 8) with (8 + Z.of_nat n * 8) by lia.
    rewrite Z.pow_add_r by lia. rewrite Z.rem_mul_r by lia. done.
Qed.

Lemma le_val_range l : in_u (len l * 8) (le_val l).
Proof.
  unfold in_u, len. induction l as [|b l IH]; [cbn; lia|].
  rewrite le_val_cons. pose proof (byte_val_range b) as Hb. unfold in_u in Hb.
  rewrite length_cons, Nat2Z.inj_succ.
  replace (Z.succ _ * 8) with (8 + Z.of_nat (length l) * 8) by lia.
  rewrite Z.pow_add_r by lia. lia.
Qed.

Lemma le_bytes_val l n : length l = n → le_bytes n (le_val l) = l.
Proof.
  intros <-. induction l as [|b l IH]; [done|].
  rewrite length_cons, le_bytes_S, le_val_cons. f_equal.
  - apply byte_val_inj. rewrite byte_val_to_byte. unfold wrap.
    change (2 ^ 8) with 256. rewrite Z.mul_comm, Z_mod_plus_full.
    apply Z.mod_small, byte_val_range.
  - rewrite Z.shiftr_div_pow2 by lia. change (2 ^ 8) with 256.
    rewrite Z.mul_comm, Z.div_add, Z.div_small by (apply byte_val_range || lia).
    done.
Qed.

Lemma le_bytes_inj n x y :
  in_u (Z.of_nat n * 8) x → in_u (Z.of_nat n * 8) y →
  le_bytes n x = le_bytes n y → x = y.
Proof.
  intros Hx Hy H%(f_equal le_val). rewrite !le_val_bytes in H.
  by rewrite !wrap_small in H.
Qed.

(** A computation that succeeds, without normalising its result. *)
Lemma ok_value {A} (r : outcome A) d : is_ok r = true → r = Ok (match r with Ok a => a | _ => d end).
Proof. by destruct r. Qed.

Lemma is_ok_ex {A} (r : outcome A) : is_ok r = true → ∃ a, r = Ok a.
Proof. destruct r as [a| |]; [by exists a|done..]. Qed.

Lemma Ok_inj {A} (x y : A) : Ok x = Ok y → x = y.
Proof. congruence. Qed.

(** *** Ascending readings *)

Lemma ascending_le {A} lo hi (ops : list (Z * A)) : ascending lo hi ops → lo <= hi.
Proof. revert lo. induction ops as [|p ops IH]; cbn; [done|]. intros lo [? ?%IH]. lia. Qed.

Lemma ascending_now {A} now hi (l : list A) ops :
  ascending now hi ops → ascending now hi ((pair now <$> l) ++ ops).
Proof. intros H. induction l as [|x l IH]; cbn; [done|]. split; [lia|done]. Qed.

Lemma ascending_from {A} lo lo' hi (ops : list (Z * A)) :
  lo <= lo' → ascending lo' hi ops → ascending lo hi ops.
Proof. destruct ops as [|p ops]; cbn; [lia|]. intros ? [? ?]. split; [lia|done]. Qed.

(** ** Lengths and subranges *)

Lemma len_nonneg {A} (l : list A) : 0 <= len l.
Proof. unfold len. lia. Qed.

Lemma len_app {A} (l k : list A) : len (l ++ k) = len l + len k.
Proof. unfold len. rewrite length_app. lia. Qed.

Lemma len_cons {A} (x : A) l : len (x :: l) = 1 + len l.
Proof. unfold len. rewrite length_cons. lia. Qed.

Lemma len_nil {A} : len (@nil A) = 0.
Proof. done. Qed.

Lemma len_le_bytes n x : len (le_bytes n x) = Z.of_nat n.
Proof. unfold len. by rewrite length_le_bytes. Qed.

Lemma sub_middle {A} (pre l post : list A) :
  sub (pre ++ l ++ post) (len pre) (len l) = l.
Proof.
  unfold sub, len. rewrite !Nat2Z.id.
  by rewrite drop_app_length, take_app_length.
Qed.

Lemma sub_middle_n {A} (pre l post : list A) n :
  len l = n → sub (pre ++ l ++ post) (len pre) n = l.
Proof. intros <-. apply sub_middle. Qed.

Lemma len_sub {A} (l : list A) o n :
  0 <= o → 0 <= n → o + n <= len l → len (sub l o n) = n.
Proof.
  unfold sub, len. intros. rewrite length_take, length_drop. lia.
Qed.

Lemma drop_sub {A} (l : list A) o n :
  0 <= o → 0 <= n →
  drop (Z.to_nat o) l = sub l o n ++ drop (Z.to_nat (o + n)) l.
Proof.
  intros. unfold sub. rewrite Z2Nat.inj_add by lia.
  by rewrite <- drop_drop, take_drop.
Qed.

(** ** Fixed-size arrays *)

Lemma arr_inj {n} (a b : array n) : arr a = arr b → a = b.
Proof. apply dsig_eq. Qed.

Lemma length_arr {n} (a : array n) : length (arr a) = n.
Proof. apply (proj2_dsig a). Qed.

Lemma len_arr {n} (a : array n) : len (arr a) = Z.of_nat n.
Proof. unfold len. by rewrite length_arr. Qed.

Lemma to_array_Some n l a : to_array n l = Some a ↔ arr a = l.
Proof.
  unfold to_array. destruct (decide _) as [H|H].
  - split; [by intros [= <-]|]. intros Ha. f_equal. by apply arr_inj.
  - split; [done|]. intros <-. destruct H. apply length_arr.
Qed.

Lemma to_array_arr {n} (a : array n) : to_array n (arr a) = Some a.
Proof. by apply to_array_Some. Qed.

Lemma to_array_is_Some n l : length l = n → ∃ a, to_array n l = Some a.
Proof. unfold to_array. intros. destruct (decide _); [eauto|done]. Qed.

Hint Rewrite @len_app @len_cons @len_nil @len_le_bytes @len_arr : len.
#[export] Hint Resolve byte_val_range le_val_range len_nonneg : bounds.

(** Arithmetic on lengths of concatenations. *)
Ltac len_lia :=
  autorewrite with len in *;
  repeat match goal with
  | |- context [len ?l] => pose proof (len_nonneg l); generalize dependent (len l)
  | H : context [len ?l] |- _ => pose proof (len_nonneg l); generalize dependent (len l)
  end; intros; lia.

(** ** Iteration order *)

Lemma bytes_leb_refl l : bytes_leb l l = true.
Proof.
  induction l as [|a l IH]; [done|]. cbn.
  by rewrite Z.ltb_irrefl, Z.eqb_refl.
Qed.

#[export] Instance bytes_order_laws : KeyOrderLaws bytes.
Proof.
  unfold key_leb, bytes_order. split.
  - induction a as [|x a IH]; intros [|y b]; cbn; auto.
    destruct (Z.lt_trichotomy (byte_val x) (byte_val y)) as [H|[H|H]].
    + rewrite (proj2 (Z.ltb_lt _ _) H). auto.
    + rewrite H, Z.ltb_irrefl, Z.eqb_refl. auto.
    + right. by rewrite (proj2 (Z.ltb_lt _ _) H).
  - induction a as [|x a IH]; intros [|y b] [|z c]; cbn; try done.
    repeat case_match; intros; bool_to_prop; try lia; try done.
    eauto.
  - induction a as [|x a IH]; intros [|y b]; cbn; try done.
    repeat case_match; intros; bool_to_prop; try lia; try done.
    f_equal; [by apply byte_val_inj|auto].
Qed.

#[export] Instance array_order_laws n : KeyOrderLaws (array n).
Proof.
  split; unfold key_leb, array_order.
  - intros. apply bytes_order_laws.
  - intros a b c. apply bytes_order_laws.
  - intros a b ? ?. apply arr_inj. by apply bytes_order_laws.
Qed.

#[export] Instance byte_order_laws : KeyOrderLaws byte.
Proof.
  split; unfold key_leb, byte_order; intros *; rewrite !Z.leb_le; try lia.
  intros. apply byte_val_inj. lia.
Qed.

#[export] Instance Z_order_laws : KeyOrderLaws Z.
Proof. split; unfold key_leb, Z_order; intros *; rewrite !Z.leb_le; lia. Qed.

Section map_order.
Context {K V : Type} `{Countable K, KeyOrder K}.
Implicit Types (m : gmap K V) (s : gset K).

Lemma entries_perm m : entries m ≡ₚ map_to_list m.
Proof. apply merge_sort_Permutation. Qed.

Lemma elem_of_entries m k v : (k, v) ∈ entries m ↔ m !! k = Some v.
Proof. by rewrite entries_perm, elem_of_map_to_list. Qed.

Lemma NoDup_entries m : NoDup (entries m).*1.
Proof. rewrite entries_perm. apply NoDup_fst_map_to_list. Qed.

Lemma length_entries m : length (entries m) = size m.
Proof. by rewrite entries_perm, length_map_to_list. Qed.

Lemma elem_of_set_elements s k : k ∈ set_elements s ↔ k ∈ s.
Proof.
  unfold set_elements. by rewrite merge_sort_Permutation, elem_of_elements.
Qed.

Lemma NoDup_set_elements s : NoDup (set_elements s).
Proof. unfold set_elements. rewrite merge_sort_Permutation. apply NoDup_elements. Qed.

Lemma length_set_elements s : length (set_elements s) = size s.
Proof. unfold set_elements. by rewrite merge_sort_Permutation. Qed.

Lemma entries_sorted m : KeyOrderLaws K → StronglySorted entry_le (entries m).
Proof.
  intros L. apply StronglySorted_merge_sort.
  - intros x y z. unfold entry_le. apply key_leb_trans.
  - intros x y. unfold entry_le. apply key_leb_total.
Qed.

Lemma set_elements_sorted s :
  KeyOrderLaws K → StronglySorted elt_le (set_elements s).
Proof.
  intros L. apply StronglySorted_merge_sort.
  - intros x y z. unfold elt_le. apply key_leb_trans.
  - intros x y. unfold elt_le. apply key_leb_total.
Qed.

End map_order.

(** ** Decimal numbers and separators *)

Definition dec_value (l : bytes) : Z :=
  foldl (λ acc b, acc * 10 + (byte_val b - 48)) 0 l.

Lemma dec_value_digits fuel z :
  0 <= z < 10 ^ Z.of_nat fuel → dec_value (dec_digits fuel z) = z.
Proof.
  revert z. induction fuel as [|fuel IH]; intros z Hz.
  - change (10 ^ Z.of_nat 0) with 1 in Hz. cbn. lia.
  - rewrite Nat2Z.inj_succ, Z.pow_succ_r in Hz by lia.
    cbn [dec_digits]. unfold dec_value in *. rewrite foldl_app. cbn [foldl].
    rewrite byte_val_to_byte, wrap_small
      by (unfold in_u; Z.to_euclidean_division_equations; lia).
    destruct (z <? 10) eqn:E; bool_to_prop.
    + cbn [foldl]. rewrite Z.mod_small; lia.
    + rewrite IH; Z.to_euclidean_division_equations; lia.
Qed.

Lemma dec_inj x y : in_u 64 x → in_u 64 y → dec x = dec y → x = y.
Proof.
  unfold in_u, dec. intros Hx Hy H%(f_equal dec_value).
  by rewrite !dec_value_digits in H by lia.
Qed.

Lemma dec_digits_range fuel z : Forall (λ b, 48 <= byte_val b <= 57) (dec_digits fuel z).
Proof.
  revert z. induction fuel as [|fuel IH]; intros z; [constructor|].
  cbn [dec_digits]. apply Forall_app. split.
  - destruct (z <? 10); [constructor|apply IH].
  - repeat constructor; rewrite byte_val_to_byte, wrap_small;
      unfold in_u; Z.to_euclidean_division_equations; lia.
Qed.

(** Text before the first separator determines the rest. *)
Lemma app_sep_inj {A} (x : A) l1 l2 r1 r2 :
  x ∉ l1 → x ∉ l2 → l1 ++ x :: r1 = l2 ++ x :: r2 → l1 = l2 ∧ r1 = r2.
Proof.
  revert l2. induction l1 as [|a l1 IH]; intros [|b l2] H1 H2 E; cbn in *.
  - by injection E.
  - injection E as -> _. destruct H2. apply list_elem_of_here.
  - injection E as -> _. destruct H1. apply list_elem_of_here.
  - injection E as -> E. rewrite not_elem_of_cons in *.
    destruct (IH l2) as [-> ->]; tauto.
Qed.

Lemma str_inj s t : str s = str t → s = t.
Proof.
  unfold str. intros H%(f_equal String.string_of_list_byte).
  by rewrite !String.string_of_list_byte_of_string in H.
Qed.

(** ** Sorting by a score *)

(** A sort that puts higher scores first: some sorted permutation. *)
Definition sorts_descending {A} (sort : list (A * Z) → list (A * Z)) : Prop :=
  ∀ l, sort l ≡ₚ l ∧ StronglySorted (λ p q, q.2 <= p.2) (sort l).

Definition by_score {A} (p q : A * Z) : Prop := q.2 <= p.2.

#[export] Instance by_score_dec {A} (p q : A * Z) : Decision (by_score p q).
Proof. unfold by_score. apply _. Defined.

#[export] Instance by_score_trans {A} : Transitive (@by_score A).
Proof. intros p q r. unfold by_score. lia. Qed.

#[export] Instance by_score_total {A} : Total (@by_score A).
Proof. intros p q. unfold by_score. lia. Qed.

Lemma merge_sort_descending {A} : sorts_descending (merge_sort (@by_score A)).
Proof.
  intros l. split; [apply merge_sort_Permutation|]. apply (StronglySorted_merge_sort by_score); apply _.
Qed.
