(* ===== verification/Reader.v ===== *)
(** Byte readers and codecs.

    The parsers of the program walk a byte vector with an explicit offset
    ([read_scalar]/[read_blob] of core/keys/key.cpp, the [bytes[offset++]] and
    [std::copy] sequences of core/ledger/ledger.cpp).  A reader is the same
    walk in the outcome monad: a failed bounds check yields [nullopt], and a
    read that no check protects and that leaves the vector yields [Undef].
    Sums of offsets are taken in [size_t], whose width [W] is a parameter:
    64 on the main targets, 32 on the 32-bit ones the README lists.

    Three compositional judgements carry the proofs about parsers: [reads]
    (a reader accepts an encoding), [consumes] (what it accepts is an
    encoding) and [safe_at] (it never leaves the vector). [Codec] and
    [CodecLaws] are the interface the stores and the ledger rely on. *)

From S2P Require Import Prelude.

(** ** Readers *)

Definition reader (A : Type) : Type := bytes → Z → outcome (A * Z).

#[export] Instance reader_ret : MRet reader := λ A x d o, Ok (x, o).
#[export] Instance reader_bind : MBind reader := λ A B f r d o,
  match r d o with
  | Ok (x, o') => f x d o'
  | Err e => Err e
  | Undef => Undef
  end.

(** An unchecked access to the [n] bytes at the offset. *)
Definition rd_raw (n : Z) : reader bytes := λ d o,
  if o + n <=? len d then Ok (sub d o n, o + n) else Undef.

Definition rd_array (n : nat) (l : bytes) : reader (array n) := λ d o,
  match to_array n l with Some a => Ok (a, o) | None => Undef end.

(** [std::copy(in + offset, in + offset + N, out)] into an array. *)
Definition raw_array (n : nat) : reader (array n) :=
  l ← rd_raw (Z.of_nat n); rd_array n l.

(** The unchecked loop reading an [n]-byte little-endian integer. *)
Definition raw_uint (n : nat) : reader Z :=
  l ← rd_raw (Z.of_nat n); mret (wrap (Z.of_nat n * 8) (le_val l)).

(** [if (data.size() < n) return std::nullopt;] at the start of a parser. *)
Definition rd_min (n : Z) : reader () := λ d o,
  if len d <? n then Err ENullopt else Ok (tt, o).

Section readers.
(** The width of [size_t]. *)
Context (W : Z).

(** [if (offset + n > data.size()) return std::nullopt;] *)
Definition rd_room (n : Z) : reader () := λ d o,
  if len d <? wrap W (o + n) then Err ENullopt else Ok (tt, o).

(** [read_scalar] for a type of [n] bytes. *)
Definition read_scalar (n : nat) : reader Z :=
  _ ← rd_room (Z.of_nat n); raw_uint n.

(** [read_blob] into an array of [n] bytes. *)
Definition read_blob (n : nat) : reader (array n) :=
  _ ← rd_room (Z.of_nat n); raw_array n.

(** A length-checked run of [n] bytes copied into a string. *)
Definition read_string (n : Z) : reader bytes :=
  _ ← rd_room n; rd_raw n.

End readers.

(** A loop reading [n] items. *)
Fixpoint rd_list {A} (n : nat) (r : reader A) : reader (list A) :=
  match n with
  | O => mret []
  | S n => x ← r; l ← rd_list n r; mret (x :: l)
  end.

(** The value a parser returns to its caller. *)
Definition run_reader {A} (r : reader A) (d : bytes) : outcome A :=
  match r d 0 with
  | Ok (x, _) => Ok x
  | Err e => Err e
  | Undef => Undef
  end.

(** A parser run on a copied part [l] of the input. *)
Definition rd_part {A} (r : reader A) (l : bytes) : reader A := λ d o,
  match run_reader r l with
  | Ok x => Ok (x, o)
  | Err e => Err e
  | Undef => Undef
  end.

(** ** Judgements *)

(** [r] reads [x] off an input that holds [e] at the offset. *)
Definition reads {A} (W : Z) (r : reader A) (x : A) (e : bytes) : Prop :=
  ∀ pre post, len (pre ++ e ++ post) < 2 ^ W →
    r (pre ++ e ++ post) (len pre) = Ok (x, len pre + len e).

(** What [r] accepts is related to the bytes it moved over by [R]. *)
Definition consumes {A} (r : reader A) (R : A → bytes → Prop) : Prop :=
  ∀ d o x o', 0 <= o → r d o = Ok (x, o') →
    ∃ e post, drop (Z.to_nat o) d = e ++ post ∧ o' = o + len e ∧
      (o <= len d → o' <= len d) ∧ R x e.

(** With [n] bytes left, [r] succeeds, moves over [n] bytes, and yields a
    value satisfying [P]. *)
Definition fixed {A} (n : Z) (r : reader A) (P : A → Prop) : Prop :=
  0 <= n ∧ ∀ d o, 0 <= o → o + n <= len d → ∃ x, r d o = Ok (x, o + n) ∧ P x.

(** With [n] bytes left, [r] stays inside the vector, and what it returns
    satisfies [P]. *)
Definition safe_at {A} (W n : Z) (r : reader A) (P : A → Prop) : Prop :=
  ∀ d o, 0 <= o → o + n <= len d → len d < 2 ^ (W - 1) →
    match r d o with
    | Ok (x, o') => P x ∧ o <= o' <= len d
    | Err _ => True
    | Undef => False
    end.

(** ** Codecs *)

(** A serialisable type: its [serialize]/[to_bytes], its
    [deserialize]/[from_bytes] and the values the format can carry. *)
Class Codec (A : Type) := {
  encode : A → bytes;
  decode : bytes → option A;
  encodable : A → Prop
}.

(** No C++ object is larger than [PTRDIFF_MAX] bytes. *)
Definition vector_fits {A} (l : list A) : Prop := len l < 2 ^ 63.

(** What a codec promises: decoding inverts encoding, also when more bytes
    follow, and nothing else is accepted. *)
Class CodecLaws (A : Type) `{Codec A} := {
  decode_encode : ∀ (x : A) tail,
    encodable x → vector_fits (encode x ++ tail) →
    decode (encode x ++ tail) = Some x;
  decode_sound : ∀ d (x : A),
    decode d = Some x → ∃ tail, d = encode x ++ tail ∧ encodable x
}.

(** ** Laws of the judgements *)

Section reads.
Context {W : Z}.

Lemma reads_ret {A} (x : A) : reads W (mret x) x [].
Proof. intros pre post _. cbn. by rewrite len_nil, Z.add_0_r. Qed.

Lemma reads_bind {A B} (r : reader A) (f : A → reader B) x y e1 e2 :
  reads W r x e1 → reads W (f x) y e2 → reads W (r ≫= f) y (e1 ++ e2).
Proof.
  intros H1 H2 pre post Hl. unfold mbind, reader_bind.
  rewrite <- app_assoc in Hl |- *. rewrite H1 by done.
  specialize (H2 (pre ++ e1) post). rewrite <- app_assoc in H2.
  rewrite <- len_app, H2 by done. do 2 f_equal. rewrite !len_app. lia.
Qed.

Lemma reads_raw l : reads W (rd_raw (len l)) l l.
Proof.
  intros pre post _. unfold rd_raw. rewrite (proj2 (Z.leb_le _ _)), sub_middle.
  - done.
  - rewrite !len_app. pose proof (len_nonneg post). lia.
Qed.

Lemma reads_raw_array {n} (a : array n) : reads W (raw_array n) a (arr a).
Proof.
  unfold raw_array. rewrite <- (app_nil_r (arr a)), <- (len_arr a).
  eapply reads_bind; [apply reads_raw|].
  intros pre post Hl. unfold rd_array. by rewrite to_array_arr, len_nil, Z.add_0_r.
Qed.

Lemma reads_raw_uint n x :
  in_u (Z.of_nat n * 8) x → reads W (raw_uint n) x (le_bytes n x).
Proof.
  intros Hx. unfold raw_uint. rewrite <- (app_nil_r (le_bytes n x)).
  rewrite <- (len_le_bytes n x). eapply reads_bind; [apply reads_raw|].
  rewrite len_le_bytes, le_val_bytes, wrap_idemp, wrap_small by done.
  apply reads_ret.
Qed.

Lemma reads_room {A} n (k : reader A) x e :
  0 <= n <= len e → reads W k x e → reads W (_ ← rd_room W n; k) x e.
Proof.
  intros Hn Hk pre post Hl. unfold mbind, reader_bind, rd_room.
  rewrite !len_app in Hl. pose proof (len_nonneg pre). pose proof (len_nonneg post).
  rewrite wrap_small by (unfold in_u; lia). rewrite (proj2 (Z.ltb_ge _ _)).
  - apply Hk. by rewrite !len_app.
  - rewrite !len_app. lia.
Qed.

Lemma reads_scalar n x :
  in_u (Z.of_nat n * 8) x → reads W (read_scalar W n) x (le_bytes n x).
Proof.
  intros. apply reads_room; [rewrite len_le_bytes; lia|]. by apply reads_raw_uint.
Qed.

Lemma reads_blob {n} (a : array n) : reads W (read_blob W n) a (arr a).
Proof. apply reads_room; [rewrite len_arr; lia|]. apply reads_raw_array. Qed.

Lemma reads_string l n : n = len l → reads W (read_string W n) l l.
Proof.
  intros ->. apply reads_room; [pose proof (len_nonneg l); lia|]. apply reads_raw.
Qed.

Lemma reads_run {A} (r : reader A) x e tail :
  reads W r x e → len (e ++ tail) < 2 ^ W → run_reader r (e ++ tail) = Ok x.
Proof.
  intros Hr Hl. unfold run_reader.
  specialize (Hr [] tail Hl). rewrite len_nil in Hr. cbn in Hr. by rewrite Hr.
Qed.

End reads.

Section consumes.

Lemma consumes_ret {A} (x : A) : consumes (mret x) (λ y e, y = x ∧ e = []).
Proof.
  intros d o y o' Ho [= <- <-]. exists [], (drop (Z.to_nat o) d).
  rewrite len_nil, Z.add_0_r. auto.
Qed.

Lemma consumes_bind {A B} (r : reader A) (f : A → reader B) R1 R2 :
  consumes r R1 → (∀ x e, R1 x e → consumes (f x) (R2 x)) →
  consumes (r ≫= f) (λ y e, ∃ x e1 e2, R1 x e1 ∧ R2 x y e2 ∧ e = e1 ++ e2).
Proof.
  intros H1 H2 d o y o' Ho. unfold mbind, reader_bind.
  destruct (r d o) as [[x om]| |] eqn:E1; [|done..]. intros E2.
  apply H1 in E1 as (e1 & p1 & Hd1 & -> & Hle1 & HR1); [|done].
  pose proof (len_nonneg e1).
  apply (H2 x e1 HR1) in E2 as (e2 & p2 & Hd2 & -> & Hle2 & HR2); [|lia].
  exists (e1 ++ e2), p2. rewrite len_app. split_and!; [|lia|lia|eauto 10].
  rewrite Z2Nat.inj_add, <- drop_drop, Hd1 in Hd2 by lia.
  unfold len in Hd2. rewrite Nat2Z.id, drop_app_length in Hd2.
  by rewrite Hd1, Hd2, app_assoc.
Qed.

Lemma consumes_mono {A} (r : reader A) (R R' : A → bytes → Prop) :
  consumes r R → (∀ x e, R x e → R' x e) → consumes r R'.
Proof.
  intros H HR d o x o' Ho E. apply H in E as (e & p & ? & ? & ? & ?); [|done].
  exists e, p. auto.
Qed.

Lemma consumes_raw n : 0 <= n → consumes (rd_raw n) (λ l e, e = l ∧ len l = n).
Proof.
  intros Hn d o l o' Ho. unfold rd_raw. destruct (_ <=? _) eqn:E; [|done].
  intros [= <- <-]. bool_to_prop. exists (sub d o n), (drop (Z.to_nat (o + n)) d).
  rewrite len_sub by lia. rewrite <- drop_sub by lia. auto.
Qed.

Lemma consumes_array n l : consumes (rd_array n l) (λ a e, arr a = l ∧ e = []).
Proof.
  intros d o a o' Ho. unfold rd_array. destruct (to_array n l) eqn:E; [|done].
  intros [= <- <-]. apply to_array_Some in E.
  exists [], (drop (Z.to_nat o) d). rewrite len_nil, Z.add_0_r. auto.
Qed.

Lemma consumes_raw_array n : consumes (raw_array n) (λ a e, e = arr a).
Proof.
  eapply consumes_mono.
  - eapply consumes_bind; [apply consumes_raw; lia|]. intros. apply consumes_array.
  - cbn. intros a e (l & e1 & e2 & [-> _] & [<- ->] & ->). by rewrite app_nil_r.
Qed.

Lemma consumes_raw_uint n :
  consumes (raw_uint n)
    (λ x e, e = le_bytes n x ∧ in_u (Z.of_nat n * 8) x).
Proof.
  eapply consumes_mono.
  - eapply consumes_bind; [apply consumes_raw; lia|]. intros. apply consumes_ret.
  - cbn. intros x e (l & e1 & e2 & [-> Hl] & [-> ->] & ->). rewrite app_nil_r.
    pose proof (le_val_range l) as Hr. rewrite Hl in Hr.
    rewrite wrap_small by done. split; [|done].
    symmetry. apply le_bytes_val. unfold len in Hl. lia.
Qed.

Lemma consumes_room {A} W n (k : reader A) R :
  consumes k R → consumes (_ ← rd_room W n; k) R.
Proof.
  intros H d o x o' Ho. unfold mbind, reader_bind, rd_room.
  destruct (_ <? _); [done|]. by apply H.
Qed.

Lemma consumes_scalar W n :
  consumes (read_scalar W n)
    (λ x e, e = le_bytes n x ∧ in_u (Z.of_nat n * 8) x).
Proof. apply consumes_room, consumes_raw_uint. Qed.

Lemma consumes_blob W n : consumes (read_blob W n) (λ a e, e = arr a).
Proof. apply consumes_room, consumes_raw_array. Qed.

Lemma consumes_string W n :
  0 <= n → consumes (read_string W n) (λ l e, e = l ∧ len l = n).
Proof. intros. by apply consumes_room, consumes_raw. Qed.

Lemma consumes_run {A} (r : reader A) R d x :
  consumes r R → run_reader r d = Ok x → ∃ e tail, d = e ++ tail ∧ R x e.
Proof.
  intros H. unfold run_reader. destruct (r d 0) as [[y o]| |] eqn:E; [|done..].
  intros [= ->]. apply H in E as (e & post & Hd & _ & _ & HR); [|lia].
  exists e, post. auto.
Qed.

End consumes.

Section safety.
Context {W : Z}.

Lemma fixed_raw n : 0 <= n → fixed n (rd_raw n) (λ l, len l = n).
Proof.
  intros Hn. split; [done|]. intros d o Ho Hl. unfold rd_raw.
  rewrite (proj2 (Z.leb_le _ _)) by done. eexists. split; [done|].
  apply len_sub; lia.
Qed.

Lemma fixed_raw_array n : fixed (Z.of_nat n) (raw_array n) (λ _, True).
Proof.
  split; [lia|]. intros d o Ho Hl. unfold raw_array, mbind, reader_bind.
  destruct (proj2 (fixed_raw (Z.of_nat n) ltac:(lia)) d o Ho Hl) as (l & -> & Hlen).
  unfold rd_array. destruct (to_array_is_Some n l) as [a ->].
  - unfold len in Hlen. lia.
  - eauto.
Qed.

Lemma fixed_raw_uint n :
  fixed (Z.of_nat n) (raw_uint n) (in_u (Z.of_nat n * 8)).
Proof.
  split; [lia|]. intros d o Ho Hl. unfold raw_uint, mbind, reader_bind.
  destruct (proj2 (fixed_raw (Z.of_nat n) ltac:(lia)) d o Ho Hl) as (l & -> & Hlen).
  eexists. split; [done|]. apply wrap_range. lia.
Qed.

Lemma safe_ret {A} n (x : A) (P : A → Prop) : 0 <= n → P x → safe_at W n (mret x) P.
Proof. intros ? ? d o ? ? ?. cbn. split; [done|lia]. Qed.

Lemma safe_bind {A B} n k (r : reader A) (f : A → reader B) Q P :
  fixed k r Q → k <= n → (∀ x, Q x → safe_at W (n - k) (f x) P) →
  safe_at W n (r ≫= f) P.
Proof.
  intros [Hk Hr] Hn Hf d o Ho Hl Hd. unfold mbind, reader_bind.
  destruct (Hr d o) as (x & -> & HQ); [lia..|].
  specialize (Hf x HQ d (o + k)). destruct (f x d (o + k)) as [[y o']| |].
  - destruct Hf; [lia..|]. split; [done|lia].
  - done.
  - apply Hf; lia.
Qed.

Lemma safe_room {A} n m (k : reader A) P :
  0 <= n → in_u (W - 1) m → safe_at W m k P → safe_at W n (_ ← rd_room W m; k) P.
Proof.
  intros Hn Hm Hk d o Ho Hl Hd. unfold mbind, reader_bind, rd_room.
  unfold in_u in Hm.
  destruct (decide (0 < W)) as [HW|HW];
    [|rewrite (Z.pow_neg_r 2 (W - 1)) in Hm by lia; lia].
  assert (2 ^ W = 2 * 2 ^ (W - 1)) by (rewrite <- Z.pow_succ_r by lia; f_equal; lia).
  rewrite wrap_small by (unfold in_u; lia).
  destruct (_ <? _) eqn:E; [done|]. bool_to_prop. apply Hk; lia.
Qed.

Lemma safe_mono {A} n m (r : reader A) P : m <= n → safe_at W m r P → safe_at W n r P.
Proof. intros ? Hr d o ? ? ?. apply Hr; lia. Qed.

Lemma safe_run {A} n (r : reader A) P d :
  safe_at W n r P → n <= len d → len d < 2 ^ (W - 1) → run_reader r d ≠ Undef.
Proof.
  intros H Hn Hd. unfold run_reader. specialize (H d 0 ltac:(lia) ltac:(lia) Hd).
  destruct (r d 0) as [[x o]| |]; done.
Qed.

End safety.

(** ** Consequences of the codec interface *)

Section codec.
Context {A : Type} `{CodecLaws A}.
Implicit Types (x y : A).

Lemma decode_encode_exact x :
  encodable x → vector_fits (encode x) → decode (encode x) = Some x.
Proof.
  intros He Hl. rewrite <- (app_nil_r (encode x)) in *. by apply decode_encode.
Qed.

Lemma encode_inj x y :
  encodable x → encodable y → vector_fits (encode x) → encode x = encode y → x = y.
Proof.
  intros Hx Hy Hl He. apply decode_encode_exact in Hx; [|done].
  rewrite He in Hx, Hl. rewrite decode_encode_exact in Hx by done. congruence.
Qed.

End codec.

(** Decides the bounds obligations the judgements leave. *)
Ltac reader_side :=
  rewrite ?len_le_bytes, ?len_arr, ?len_app;
  unfold in_u in *; cbn in *; (done || lia).

Create HintDb reader discriminated.
#[export] Hint Resolve reads_ret reads_raw_array reads_raw_uint reads_blob
  reads_scalar : reader.
#[export] Hint Resolve consumes_ret consumes_raw_array consumes_raw_uint
  consumes_scalar consumes_blob : reader.
Ltac consumes_fields :=
  repeat first
    [ apply consumes_ret
    | eapply consumes_bind;
      [ first [ by eauto with reader
              | apply consumes_string; unfold in_u in *; naive_solver lia ]
      | intros ? ? ?; cbv beta ] ].

(** Opens the chain of bytes a [consumes_fields] proof leaves behind. *)
Ltac open_fields :=
  repeat match goal with
  | H : ∃ _, _ |- _ => destruct H
  | H : _ ∧ _ |- _ => destruct H
  end; subst.

#[export] Hint Resolve fixed_raw_array fixed_raw_uint : reader.

(** ** Following a parser field by field *)

Lemma reads_byte W b :
  reads W (read_scalar W 1) (byte_val b) [b].
Proof.
  assert (le_bytes 1 (byte_val b) = [b]) as <-.
  { unfold le_bytes. cbn. by rewrite Z.shiftr_0_r, to_byte_val. }
  apply reads_scalar, byte_val_range.
Qed.

Lemma le_bytes_1 x : le_bytes 1 x = [to_byte x].
Proof. unfold le_bytes. cbn. by rewrite Z.shiftr_0_r. Qed.

#[export] Hint Resolve reads_byte : reader.

(** Follows a parser one field at a time. *)
Ltac reads_fields :=
  repeat first
    [ apply reads_ret
    | eapply reads_bind;
      [first [ by eauto with reader | by apply reads_string
             | apply reads_scalar; unfold in_u in *; cbn; lia ] | cbv beta ]
    | rewrite <- (app_nil_r (le_bytes _ _)); eapply reads_bind;
      [apply reads_scalar; unfold in_u in *; cbn; lia | cbv beta]
    | rewrite <- (app_nil_r (arr _)); eapply reads_bind;
      [by eauto with reader | cbv beta] ].

(** A reader that reads its encodings and consumes nothing else is a codec. *)
Lemma reader_codec_laws {A} (C : Codec A) (r : reader A) :
  (∀ d, decode d = to_optional (run_reader r d)) →
  (∀ x, encodable x → reads 64 r x (encode x)) →
  consumes r (λ x e, e = encode x ∧ encodable x) →
  CodecLaws A.
Proof.
  intros Hd Hr Hc. split.
  - intros x tail Hx Hl. unfold vector_fits in Hl. rewrite Hd.
    erewrite reads_run; [done|by apply Hr|lia].
  - intros d x. rewrite Hd. destruct (run_reader r d) eqn:E; [|done..]. intros [= ->].
    by destruct (consumes_run _ _ _ _ Hc E) as (e & tail & -> & -> & ?); eauto.
Qed.

Lemma safe_room_then {A B} W n m (r : reader A) (f : A → reader B) P :
  0 <= n → in_u (W - 1) m → safe_at W m (r ≫= f) P →
  safe_at W n ((_ ← rd_room W m; r) ≫= f) P.
Proof.
  intros Hn Hm Hs d o Ho Hl Hd.
  pose proof (safe_room n m (r ≫= f) P Hn Hm Hs d o Ho Hl Hd) as H.
  unfold mbind, reader_bind in *. destruct (rd_room W m d o) as [[? ?]| |]; done.
Qed.

Lemma safe_scalar {B} W (k : nat) (f : Z → reader B) n P :
  0 <= n → in_u (W - 1) (Z.of_nat k) →
  (∀ x, in_u (Z.of_nat k * 8) x → safe_at W 0 (f x) P) →
  safe_at W n (read_scalar W k ≫= f) P.
Proof.
  intros. apply safe_room_then; [done..|].
  eapply safe_bind; [apply fixed_raw_uint|done|].
  intros x Hx. rewrite Z.sub_diag. auto.
Qed.

Lemma safe_blob {B} W (k : nat) (f : array k → reader B) n P :
  0 <= n → in_u (W - 1) (Z.of_nat k) →
  (∀ x, safe_at W 0 (f x) P) → safe_at W n (read_blob W k ≫= f) P.
Proof.
  intros. apply safe_room_then; [done..|].
  eapply safe_bind; [apply fixed_raw_array|done|].
  intros x Hx. rewrite Z.sub_diag. auto.
Qed.

Lemma safe_string {B} W m (f : bytes → reader B) n P :
  0 <= n → in_u (W - 1) m →
  (∀ x, safe_at W 0 (f x) P) → safe_at W n (read_string W m ≫= f) P.
Proof.
  intros Hn Hm Hf. apply safe_room_then; [done..|]. unfold in_u in Hm.
  eapply safe_bind; [apply fixed_raw; lia|done|].
  intros x Hx. rewrite Z.sub_diag. auto.
Qed.

Ltac safe_fields :=
  repeat first
    [ apply safe_ret; [lia|exact I]
    | apply safe_scalar; [lia|unfold in_u; cbn; lia|intros]
    | apply safe_blob; [lia|unfold in_u; cbn; lia|intros]
    | apply safe_string; [lia|unfold in_u in *; cbn in *; lia|intros] ].

(** ** Parsers that check the total size first *)

Lemma reads_min {A} W n (k : reader A) x e :
  n <= len e → reads W k x e → reads W (_ ← rd_min n; k) x e.
Proof.
  intros Hn Hk pre post Hl. unfold mbind, reader_bind, rd_min.
  pose proof (len_nonneg pre). pose proof (len_nonneg post).
  rewrite (proj2 (Z.ltb_ge _ _)) by (rewrite !len_app; lia). by apply Hk.
Qed.

Lemma consumes_min {A} n (k : reader A) R : consumes k R → consumes (_ ← rd_min n; k) R.
Proof.
  intros H d o x o' Ho. unfold mbind, reader_bind, rd_min.
  destruct (_ <? _); [done|]. by apply H.
Qed.

Lemma safe_min_run {A} W n (r : reader A) P d :
  safe_at W n r P → len d < 2 ^ (W - 1) → run_reader (_ ← rd_min n; r) d ≠ Undef.
Proof.
  intros Hs Hd. unfold run_reader, mbind, reader_bind, rd_min.
  destruct (_ <? _) eqn:E; [done|]. bool_to_prop. by apply (safe_run (W := W) n r P).
Qed.

Lemma reads_raw_byte W b : reads W (raw_uint 1) (byte_val b) [b].
Proof. rewrite <- (to_byte_val b) at 2. rewrite <- le_bytes_1. apply reads_raw_uint, byte_val_range. Qed.

Lemma reads_raw_n W l n : n = len l → reads W (rd_raw n) l l.
Proof. intros ->. apply reads_raw. Qed.

#[export] Hint Resolve reads_raw_byte : reader.

(** The next field of an unchecked parser. *)
Ltac raw_reads_fields :=
  repeat first
    [ apply reads_ret
    | eapply reads_bind;
      [first [ by eauto with reader | by apply reads_raw_n
             | apply reads_raw_uint; unfold in_u in *; cbn; lia ] | cbv beta ]
    | rewrite <- (app_nil_r (arr _)); eapply reads_bind;
      [by eauto with reader | cbv beta]
    | rewrite <- (app_nil_r (le_bytes _ _)); eapply reads_bind;
      [apply reads_raw_uint; unfold in_u in *; cbn; lia | cbv beta] ].

Ltac raw_consumes_fields :=
  repeat first
    [ apply consumes_ret
    | apply consumes_min
    | apply consumes_room
    | eapply consumes_bind;
      [ first [ by eauto with reader
              | apply consumes_raw; unfold in_u in *; open_fields; lia ]
      | intros ? ? ?; cbv beta ] ].

(** ** Lists of items and parts *)

Lemma reads_list {A} W (r : reader A) (enc : A → bytes) xs :
  Forall (λ x, reads W r x (enc x)) xs →
  reads W (rd_list (length xs) r) xs (mjoin (enc <$> xs)).
Proof.
  induction 1 as [|x xs Hx _ IH]; [apply reads_ret|]. cbn.
  eapply reads_bind; [exact Hx|]. rewrite <- (app_nil_r (mjoin _)).
  eapply reads_bind; [exact IH|]. apply reads_ret.
Qed.

Lemma reads_part {A} W (r : reader A) x e l :
  reads W r x l → len l < 2 ^ W → e = [] → reads W (rd_part r l) x e.
Proof.
  intros Hr Hl -> pre post _. unfold rd_part.
  pose proof (reads_run r x l [] Hr) as H. rewrite app_nil_r in H. rewrite H by done.
  by rewrite len_nil, Z.add_0_r.
Qed.

Lemma consumes_list {A} (r : reader A) (enc : A → bytes) (P : A → Prop) n :
  consumes r (λ x e, e = enc x ∧ P x) →
  consumes (rd_list n r) (λ xs e, e = mjoin (enc <$> xs) ∧ length xs = n ∧ Forall P xs).
Proof.
  intros Hr. induction n as [|n IH]; cbn.
  - eapply consumes_mono; [apply consumes_ret|]. by intros xs e [-> ->].
  - eapply consumes_mono.
    + eapply consumes_bind; [exact Hr|]. intros x e _.
      eapply consumes_bind; [exact IH|]. intros xs e' _. apply consumes_ret.
    + intros xs e (x & e1 & e2 & [-> Hx] & (xs' & e3 & e4 & (-> & Hl & HP) & [-> ->] & ->) & ->).
      cbn. rewrite app_nil_r. split; [done|]. split; [by f_equal|by constructor].
Qed.

(** Sequencing with a parser that checks its own bounds. *)
Lemma safe_then {A B} W n (r : reader A) (f : A → reader B) Q P :
  safe_at W n r Q → (∀ x, Q x → safe_at W 0 (f x) P) → safe_at W n (r ≫= f) P.
Proof.
  intros Hr Hf d o Ho Hl Hd. unfold mbind, reader_bind.
  specialize (Hr d o Ho Hl Hd). destruct (r d o) as [[x o']| |]; [|done..].
  destruct Hr as [HQ [? ?]]. specialize (Hf x HQ d o' ltac:(lia) ltac:(lia) Hd).
  destruct (f x d o') as [[y o'']| |]; [|done..]. destruct Hf as [? ?]. split; [done|lia].
Qed.

Lemma safe_list {A} W (r : reader A) P n :
  safe_at W 0 r P → safe_at W 0 (rd_list n r) (Forall P).
Proof.
  intros Hr. induction n as [|n IH]; cbn; [by apply safe_ret|].
  eapply safe_then; [exact Hr|]. intros x Hx. eapply safe_then; [exact IH|].
  intros xs Hxs. apply safe_ret; [done|by constructor].
Qed.

Lemma safe_part {A} W n (r : reader A) P l :
  0 <= n → run_reader r l ≠ Undef → (∀ x, run_reader r l = Ok x → P x) →
  safe_at W n (rd_part r l) P.
Proof.
  intros Hn Hu HP d o Ho Hl Hd. unfold rd_part.
  destruct (run_reader r l) as [x| |]; [|done..]. split; [by apply HP|lia].
Qed.

(** ** Unchecked reads at a given place *)

Lemma raw_uint_at n d o :
  0 <= o → o + Z.of_nat n <= len d →
  raw_uint n d o = Ok (wrap (Z.of_nat n * 8) (le_val (sub d o (Z.of_nat n))), o + Z.of_nat n).
Proof.
  intros. unfold raw_uint, mbind, reader_bind, rd_raw.
  by rewrite (proj2 (Z.leb_le _ _)) by done.
Qed.

Lemma raw_past_end n d o : len d < o + n → rd_raw n d o = Undef.
Proof. intros. unfold rd_raw. by rewrite (proj2 (Z.leb_gt _ _)) by done. Qed.

Lemma raw_uint_past_end n d o : len d < o + Z.of_nat n → raw_uint n d o = Undef.
Proof. intros. unfold raw_uint, mbind, reader_bind. by rewrite raw_past_end. Qed.

Lemma raw_array_past_end n d o : len d < o + Z.of_nat n → raw_array n d o = Undef.
Proof. intros. unfold raw_array, mbind, reader_bind. by rewrite raw_past_end. Qed.

Lemma raw_array_at n d o :
  0 <= o → o + Z.of_nat n <= len d → ∃ a : array n, raw_array n d o = Ok (a, o + Z.of_nat n).
Proof.
  intros Ho Hl. destruct (proj2 (fixed_raw_array n) d o Ho Hl) as (a & -> & _). by exists a.
Qed.

Lemma room_at W n d o :
  rd_room W n d o = if len d <? wrap W (o + n) then Err ENullopt else Ok (tt, o).
Proof. done. Qed.
