(* ===== verification/Common.v ===== *)
(** Identifiers and text encodings: include/cashew/common.hpp, src/common.cpp
    and the hexadecimal helpers of src/crypto/blake3.cpp.

    [NodeID], [HumanID], [NetworkID] and [ContentHash] all wrap a 32-byte
    array; hexadecimal and base64 are the textual forms the program shows and
    reads back. *)

From Stdlib Require Import Strings.Byte.
From S2P Require Import Prelude.

(** ** Core types *)

Abbreviation Hash256 := (array 32).
Abbreviation PublicKey := (array 32).
Abbreviation SecretKey := (array 64).
Abbreviation Signature := (array 64).
Abbreviation NodeID := (array 32).
Abbreviation ContentHash := (array 32).

(** ** Hexadecimal *)

(** The digit an [ostringstream] in [std::hex] mode writes for [0 <= v < 16]. *)
Definition hex_digit (v : Z) : byte :=
  if v <? 10 then to_byte (48 + v) else to_byte (87 + v).

(** [setw(2)] with fill ['0']: two digits per byte. *)
Definition hex_byte (b : byte) : bytes :=
  [hex_digit (byte_val b / 16); hex_digit (byte_val b mod 16)].

Definition hash_to_hex (h : Hash256) : bytes := mjoin (hex_byte <$> arr h).

Definition is_space (c : byte) : bool :=
  let v := byte_val c in (v =? 32) || ((9 <=? v) && (v <=? 13)).

Definition hex_value (c : byte) : option Z :=
  let v := byte_val c in
  if (48 <=? v) && (v <=? 57) then Some (v - 48)
  else if (97 <=? v) && (v <=? 102) then Some (v - 87)
  else if (65 <=? v) && (v <=? 70) then Some (v - 55)
  else None.

Fixpoint skip_spaces (s : bytes) : bytes :=
  match s with
  | c :: s' => if is_space c then skip_spaces s' else s
  | [] => []
  end.

(** The digits of [strtoul], accumulated until a non-digit. *)
Fixpoint hex_digits (acc : option Z) (s : bytes) : option Z :=
  match s with
  | c :: s' =>
      match hex_value c with
      | Some v => hex_digits (Some (default 0 acc * 16 + v)) s'
      | None => acc
      end
  | [] => acc
  end.

(** [strtoul] drops an "0x" prefix only in front of a digit. *)
Definition skip_0x (s : bytes) : bytes :=
  match s with
  | z :: x :: c :: _ =>
      if (byte_val z =? 48) && ((byte_val x =? 120) || (byte_val x =? 88)) &&
         bool_decide (is_Some (hex_value c))
      then drop 2 s else s
  | _ => s
  end.

Definition read_sign (s : bytes) : bool * bytes :=
  match s with
  | c :: s' =>
      if byte_val c =? 45 then (true, s')
      else if byte_val c =? 43 then (false, s') else (false, s)
  | [] => (false, s)
  end.

(** [std::stoul(s, nullptr, 16)]: leading blanks, a sign, an optional prefix,
    then as many digits as there are. *)
Definition stoul16 (s : bytes) : outcome Z :=
  let '(neg, s) := read_sign (skip_spaces s) in
  match hex_digits None (skip_0x s) with
  | None => Err (EInvalidArgument "stoul")
  | Some v =>
      if 2 ^ 64 <=? v then Err (EOutOfRange "stoul")
      else Ok (if (neg : bool) then u64 (- v) else v)
  end.

(** The decoding loop of [hex_to_hash]: one [substr(i * 2, 2)] per byte. *)
Fixpoint hex_pairs (n : nat) (s : bytes) : outcome bytes :=
  match n with
  | O => mret []
  | S n =>
      v ← stoul16 (take 2 s);
      rest ← hex_pairs n (drop 2 s);
      mret (to_byte v :: rest)
  end.

Definition hex_to_hash (hex : bytes) : outcome Hash256 :=
  if negb (len hex =? 64) then Err (ERuntime "Invalid hex string length")
  else
    l ← hex_pairs 32 hex;
    match to_array 32 l with Some h => Ok h | None => Undef end.

(** [Blake3::hash_from_hex]: the same loop with every exception turned into
    [nullopt]. *)
Definition hash_from_hex (hex : bytes) : option Hash256 :=
  if negb (len hex =? 64) then None
  else to_optional (hex_to_hash hex).

(** ** Base64 *)

Definition base64_chars : bytes :=
  str "ABCDEFGHIJKLMNOPQRSTUVWXYZabcdefghijklmnopqrstuvwxyz0123456789+/".

(** [base64_chars[v]]. *)
Definition base64_char (v : Z) : byte :=
  default "000"%byte (base64_chars !! Z.to_nat v).

(** The four sextets of [char_array_4] computed from [char_array_3]. *)
Definition sextets (a0 a1 a2 : byte) : list Z :=
  let a0 := byte_val a0 in let a1 := byte_val a1 in let a2 := byte_val a2 in
  [ Z.shiftr (Z.land a0 0xfc) 2;
    Z.shiftl (Z.land a0 0x03) 4 + Z.shiftr (Z.land a1 0xf0) 4;
    Z.shiftl (Z.land a1 0x0f) 2 + Z.shiftr (Z.land a2 0xc0) 6;
    Z.land a2 0x3f ].

(** The [while (len--)] loop: [pend] holds [char_array_3[0..i)]. *)
Fixpoint base64_encode_loop (data pend result : bytes) : bytes * bytes :=
  match data with
  | [] => (pend, result)
  | b :: data =>
      match pend with
      | [a0; a1] =>
          base64_encode_loop data [] (result ++ (base64_char <$> sextets a0 a1 b))
      | _ => base64_encode_loop data (pend ++ [b]) result
      end
  end.

(** What follows the loop: the last partial group and its padding. *)
Definition base64_encode_tail (pend result : bytes) : bytes :=
  match pend with
  | [] => result
  | [a0] =>
      result ++ take 2 (base64_char <$> sextets a0 "000"%byte "000"%byte) ++ str "=="
  | a0 :: a1 :: _ =>
      result ++ take 3 (base64_char <$> sextets a0 a1 "000"%byte) ++ str "="
  end.

Definition base64_encode (data : bytes) : bytes :=
  let '(pend, result) := base64_encode_loop data [] [] in
  base64_encode_tail pend result.

Definition is_alnum (c : byte) : bool :=
  let v := byte_val c in
  ((48 <=? v) && (v <=? 57)) || ((65 <=? v) && (v <=? 90)) ||
  ((97 <=? v) && (v <=? 122)).

Definition is_base64 (c : byte) : bool :=
  is_alnum c || (byte_val c =? 43) || (byte_val c =? 47).

(** [static_cast<byte>(std::string(base64_chars).find(c))]; [npos] becomes 255. *)
Definition base64_find (c : byte) : byte :=
  match list_find (.= c) base64_chars with
  | Some (i, _) => to_byte (Z.of_nat i)
  | None => "255"%byte
  end.

(** The three bytes computed from [char_array_4]. *)
Definition triple (q : list byte) : bytes :=
  let q (i : nat) := byte_val (default "000"%byte (q !! i)) in
  to_byte <$>
  [ Z.shiftl (q 0%nat) 2 + Z.shiftr (Z.land (q 1%nat) 0x30) 4;
    Z.shiftl (Z.land (q 1%nat) 0xf) 4 + Z.shiftr (Z.land (q 2%nat) 0x3c) 2;
    Z.shiftl (Z.land (q 2%nat) 0x3) 6 + q 3%nat ].

(** The decoding loop. [c4] is [char_array_4] with whatever it still holds
    from earlier rounds (or was never assigned), [i] the number of characters
    stored in this round. *)
Fixpoint base64_decode_loop (encoded c4 : bytes) (i : nat) (result : bytes) :
    bytes * nat * bytes :=
  match encoded with
  | [] => (c4, i, result)
  | c :: rest =>
      if negb (byte_val c =? 61) && is_base64 c then
        let c4 := <[i := c]> c4 in
        if (S i =? 4)%nat then
          let c4 := base64_find <$> c4 in
          base64_decode_loop rest c4 0 (result ++ triple c4)
        else base64_decode_loop rest c4 (S i) result
      else (c4, i, result)
  end.

(** What follows the loop: the [i - 1] bytes of a partial group. *)
Definition base64_decode_tail (c4 : bytes) (i : nat) (result : bytes) : bytes :=
  match i with
  | O => result
  | S k =>
      let c4 := imap (λ j c, if (j <? i)%nat then base64_find c else c) c4 in
      result ++ take k (triple c4)
  end.

(** [base64_decode], given the indeterminate initial contents of
    [char_array_4]. *)
Definition base64_decode_from (junk encoded : bytes) : bytes :=
  let '(c4, i, result) := base64_decode_loop encoded junk 0 [] in
  base64_decode_tail c4 i result.

Definition base64_decode (encoded : bytes) : bytes :=
  base64_decode_from (replicate 4 "000"%byte) encoded.

(** ** Hexadecimal facts *)

Lemma hex_value_digit v : 0 <= v < 16 → hex_value (hex_digit v) = Some v.
Proof.
  intros Hv. assert (∃ n : nat, v = Z.of_nat n ∧ (n < 16)%nat) as (n & -> & Hn).
  { exists (Z.to_nat v). lia. }
  do 16 (destruct n as [|n]; [reflexivity|]). lia.
Qed.

Lemma stoul16_hex_byte b : stoul16 (hex_byte b) = Ok (byte_val b).
Proof. destruct b; vm_compute; reflexivity. Qed.

Lemma hex_join_cons b l :
  mjoin (hex_byte <$> b :: l) = hex_byte b ++ mjoin (hex_byte <$> l).
Proof. done. Qed.

Lemma length_hex_join l : length (mjoin (hex_byte <$> l)) = (2 * length l)%nat.
Proof.
  induction l as [|b l IH]; [done|].
  rewrite hex_join_cons, length_app, IH. cbn. lia.
Qed.

Lemma hex_pairs_join l : hex_pairs (length l) (mjoin (hex_byte <$> l)) = Ok l.
Proof.
  induction l as [|b l IH]; [done|].
  cbn [length hex_pairs]. rewrite hex_join_cons.
  rewrite (take_app_length' _ _ 2), (drop_app_length' _ _ 2) by done.
  rewrite stoul16_hex_byte. unfold mbind, outcome_bind. rewrite IH.
  unfold mret, outcome_ret. by rewrite to_byte_val.
Qed.

Lemma hash_to_hex_inj (h1 h2 : Hash256) : hash_to_hex h1 = hash_to_hex h2 → h1 = h2.
Proof.
  unfold hash_to_hex. intros H%(f_equal (hex_pairs 32)).
  pose proof (hex_pairs_join (arr h1)) as E1. pose proof (hex_pairs_join (arr h2)) as E2.
  rewrite length_arr in E1, E2. rewrite E1, E2 in H. apply arr_inj. congruence.
Qed.

Lemma length_hash_to_hex (h : Hash256) : length (hash_to_hex h) = 64%nat.
Proof. unfold hash_to_hex. by rewrite length_hex_join, length_arr. Qed.

(** Upper-case hexadecimal letters become lower-case ones. *)
Definition hex_lower (c : byte) : byte :=
  if (65 <=? byte_val c) && (byte_val c <=? 70) then to_byte (byte_val c + 32) else c.

Lemma hex_value_facts c v :
  hex_value c = Some v →
  0 <= v < 16 ∧ is_space c = false ∧ byte_val c ≠ 45 ∧ byte_val c ≠ 43 ∧
  hex_digit v = hex_lower c.
Proof. destruct c; intros H; try discriminate H; inv H; by vm_compute. Qed.

Lemma stoul16_digits c1 c2 v1 v2 :
  hex_value c1 = Some v1 → hex_value c2 = Some v2 →
  stoul16 [c1; c2] = Ok (v1 * 16 + v2).
Proof.
  intros H1 H2.
  destruct (hex_value_facts c1 v1 H1) as (R1 & S1 & N45 & N43 & _).
  destruct (hex_value_facts c2 v2 H2) as (R2 & _).
  unfold stoul16. cbn [skip_spaces]. rewrite S1. cbn [read_sign].
  rewrite (proj2 (Z.eqb_neq _ _) N45), (proj2 (Z.eqb_neq _ _) N43).
  cbn [skip_0x hex_digits]. rewrite H1. cbn [hex_digits]. rewrite H2. cbn [hex_digits default].
  by rewrite (proj2 (Z.leb_gt _ _)) by (cbn; lia).
Qed.

Lemma hex_byte_pair v1 v2 :
  0 <= v1 < 16 → 0 <= v2 < 16 →
  hex_byte (to_byte (v1 * 16 + v2)) = [hex_digit v1; hex_digit v2].
Proof.
  intros. unfold hex_byte. rewrite byte_val_to_byte, wrap_small by (unfold in_u; lia).
  rewrite Z.add_comm, Z.div_add, Z_mod_plus_full, Z.div_small, Z.mod_small by lia.
  done.
Qed.

Lemma hex_pairs_digits n s :
  length s = (2 * n)%nat → Forall (λ c, is_Some (hex_value c)) s →
  ∃ l, hex_pairs n s = Ok l ∧ length l = n ∧ mjoin (hex_byte <$> l) = hex_lower <$> s.
Proof.
  revert s. induction n as [|n IH]; intros s Hl Hs.
  - destruct s; [|done]. by exists [].
  - destruct s as [|c1 [|c2 s]]; [cbn in Hl; lia..|].
    apply Forall_cons_1 in Hs as [[v1 H1] Hs]. apply Forall_cons_1 in Hs as [[v2 H2] Hs].
    destruct (IH s) as (l & Hp & Hll & Hj); [cbn in Hl; lia|done|].
    exists (to_byte (v1 * 16 + v2) :: l). cbn [hex_pairs firstn skipn].
    rewrite (stoul16_digits _ _ v1 v2) by done.
    unfold mbind, outcome_bind. rewrite drop_0, Hp. split_and!; [done|cbn; lia|].
    destruct (hex_value_facts c1 v1 H1) as (? & _ & _ & _ & E1).
    destruct (hex_value_facts c2 v2 H2) as (? & _ & _ & _ & E2).
    rewrite hex_join_cons, hex_byte_pair, E1, E2, Hj by done. done.
Qed.

(** ** Base64 facts *)

Lemma byte_bits (b : byte) :
  let a := byte_val b in
  Z.shiftr (Z.land a 0xfc) 2 = a / 4 ∧ Z.land a 0x03 = a mod 4 ∧
  Z.shiftr (Z.land a 0xf0) 4 = a / 16 ∧ Z.land a 0x0f = a mod 16 ∧
  Z.shiftr (Z.land a 0xc0) 6 = a / 64 ∧ Z.land a 0x3f = a mod 64 ∧
  Z.shiftr (Z.land a 0x30) 4 = (a / 16) mod 4 ∧
  Z.shiftr (Z.land a 0x3c) 2 = (a / 4) mod 16.
Proof. destruct b; vm_compute; auto 10. Qed.

Lemma sextets_div a0 a1 a2 :
  sextets a0 a1 a2 =
  [ byte_val a0 / 4; (byte_val a0 mod 4) * 16 + byte_val a1 / 16;
    (byte_val a1 mod 16) * 4 + byte_val a2 / 64; byte_val a2 mod 64 ].
Proof.
  unfold sextets.
  destruct (byte_bits a0) as (-> & -> & _).
  destruct (byte_bits a1) as (_ & _ & -> & -> & _).
  destruct (byte_bits a2) as (_ & _ & _ & _ & -> & -> & _).
  rewrite !Z.shiftl_mul_pow2 by lia. done.
Qed.

Lemma sextets_range a0 a1 a2 : Forall (λ v, 0 <= v < 64) (sextets a0 a1 a2).
Proof.
  rewrite sextets_div.
  pose proof (byte_val_range a0). pose proof (byte_val_range a1).
  pose proof (byte_val_range a2). unfold in_u in *.
  repeat constructor; Z.to_euclidean_division_equations; lia.
Qed.

Lemma base64_char_facts v :
  0 <= v < 64 →
  base64_find (base64_char v) = to_byte v ∧
  negb (byte_val (base64_char v) =? 61) && is_base64 (base64_char v) = true.
Proof.
  intros Hv. assert (∃ n : nat, v = Z.of_nat n ∧ (n < 64)%nat) as (n & -> & Hn).
  { exists (Z.to_nat v). lia. }
  do 64 (destruct n as [|n]; [split; vm_compute; reflexivity|]). lia.
Qed.

Lemma triple_nth0 q v0 v1 :
  q !! 0%nat = Some (to_byte v0) → q !! 1%nat = Some (to_byte v1) →
  0 <= v0 < 64 → 0 <= v1 < 64 →
  triple q !! 0%nat = Some (to_byte (v0 * 4 + v1 / 16)).
Proof.
  intros H0 H1 R0 R1. unfold triple. rewrite H0, H1. cbn [fmap list_fmap default id from_option].
  destruct (byte_bits (to_byte v1)) as (_ & _ & _ & _ & _ & _ & -> & _).
  rewrite !byte_val_to_byte, !wrap_small by (unfold in_u; lia).
  rewrite !Z.shiftl_mul_pow2 by lia. cbn [lookup list_lookup]. do 2 f_equal.
  Z.to_euclidean_division_equations; lia.
Qed.

Lemma triple_nth1 q v1 v2 :
  q !! 1%nat = Some (to_byte v1) → q !! 2%nat = Some (to_byte v2) →
  0 <= v1 < 64 → 0 <= v2 < 64 →
  triple q !! 1%nat = Some (to_byte (v1 * 16 + v2 / 4)).
Proof.
  intros H1 H2 R1 R2. unfold triple. rewrite H1, H2. cbn [fmap list_fmap default id from_option].
  destruct (byte_bits (to_byte v1)) as (_ & _ & _ & -> & _).
  destruct (byte_bits (to_byte v2)) as (_ & _ & _ & _ & _ & _ & _ & ->).
  rewrite !byte_val_to_byte, !wrap_small by (unfold in_u; lia).
  rewrite !Z.shiftl_mul_pow2 by lia. cbn [lookup list_lookup]. f_equal.
  apply byte_val_inj. rewrite !byte_val_to_byte. unfold wrap.
  change (2 ^ 8) with 256. Z.to_euclidean_division_equations; lia.
Qed.

Lemma triple_nth2 q v2 v3 :
  q !! 2%nat = Some (to_byte v2) → q !! 3%nat = Some (to_byte v3) →
  0 <= v2 < 64 → 0 <= v3 < 64 →
  triple q !! 2%nat = Some (to_byte (v2 * 64 + v3)).
Proof.
  intros H2 H3 R2 R3. unfold triple. rewrite H2, H3. cbn [fmap list_fmap default id from_option].
  assert (Z.land (byte_val (to_byte v2)) 3 = byte_val (to_byte v2) mod 4) as ->.
  { apply (byte_bits (to_byte v2)). }
  rewrite !byte_val_to_byte, !wrap_small by (unfold in_u; lia).
  rewrite !Z.shiftl_mul_pow2 by lia. cbn [lookup list_lookup]. f_equal.
  apply byte_val_inj. rewrite !byte_val_to_byte. unfold wrap.
  change (2 ^ 8) with 256. Z.to_euclidean_division_equations; lia.
Qed.

Lemma to_byte_eq z b : z mod 256 = byte_val b → to_byte z = b.
Proof. intros Hz. apply byte_val_inj. by rewrite byte_val_to_byte. Qed.

(** What the decoder recovers from the sextets of [a0; a1; a2] held in [q]. *)
Lemma triple_sextets q a0 a1 a2 k :
  (k <= 3)%nat → (∀ i, (i <= k)%nat → q !! i = to_byte <$> sextets a0 a1 a2 !! i) →
  take k (triple q) = take k [a0; a1; a2].
Proof.
  intros Hk Hq. rewrite sextets_div in Hq.
  pose proof (byte_val_range a0). pose proof (byte_val_range a1).
  pose proof (byte_val_range a2). unfold in_u in *.
  assert (Hlen : length (triple q) = 3%nat) by done.
  apply list_eq. intros i. destruct (decide (i < k)%nat).
  2: { rewrite !lookup_ge_None_2; [done|..]; rewrite length_take; lia. }
  rewrite !lookup_take_lt by done.
  assert (Hb : (i = 0 ∨ i = 1 ∨ i = 2)%nat) by lia. destruct Hb as [-> | [-> | ->]].
  - rewrite (triple_nth0 q _ _ (Hq 0%nat ltac:(lia)) (Hq 1%nat ltac:(lia)));
      [|Z.to_euclidean_division_equations; lia..].
    cbn. f_equal. apply to_byte_eq. Z.to_euclidean_division_equations; lia.
  - rewrite (triple_nth1 q _ _ (Hq 1%nat ltac:(lia)) (Hq 2%nat ltac:(lia)));
      [|Z.to_euclidean_division_equations; lia..].
    cbn. f_equal. apply to_byte_eq. Z.to_euclidean_division_equations; lia.
  - rewrite (triple_nth2 q _ _ (Hq 2%nat ltac:(lia)) (Hq 3%nat ltac:(lia)));
      [|Z.to_euclidean_division_equations; lia..].
    cbn. f_equal. apply to_byte_eq. Z.to_euclidean_division_equations; lia.
Qed.

Section base64_roundtrip.

Lemma decode_loop_step v rest c4 i result :
  0 <= v < 64 → (i < 3)%nat →
  base64_decode_loop (base64_char v :: rest) c4 i result =
  base64_decode_loop rest (<[i := base64_char v]> c4) (S i) result.
Proof.
  intros Hv Hi. cbn [base64_decode_loop].
  destruct (base64_char_facts v Hv) as [_ ->].
  destruct (S i =? 4)%nat eqn:E; [apply Nat.eqb_eq in E; lia|done].
Qed.

Lemma decode_loop_last v rest c4 result :
  0 <= v < 64 →
  base64_decode_loop (base64_char v :: rest) c4 3 result =
  base64_decode_loop rest (base64_find <$> <[3%nat := base64_char v]> c4) 0
    (result ++ triple (base64_find <$> <[3%nat := base64_char v]> c4)).
Proof.
  intros Hv. cbn [base64_decode_loop].
  by destruct (base64_char_facts v Hv) as [_ ->].
Qed.

(** A padding character ends the loop. *)
Lemma decode_loop_pad rest c4 i result :
  base64_decode_loop ("="%byte :: rest) c4 i result = (c4, i, result).
Proof. done. Qed.

Lemma sextets_bound a0 a1 a2 i v : sextets a0 a1 a2 !! i = Some v → 0 <= v < 64.
Proof.
  intros Hv. pose proof (sextets_range a0 a1 a2) as H.
  rewrite Forall_lookup in H. eauto.
Qed.

Lemma find_char_list l :
  Forall (λ v, 0 <= v < 64) l → base64_find <$> (base64_char <$> l) = to_byte <$> l.
Proof.
  induction 1 as [|v l Hv _ IH]; [done|].
  rewrite !fmap_cons, IH. by destruct (base64_char_facts v Hv) as [-> _].
Qed.

Lemma decode_group a0 a1 a2 rest c4 result :
  length c4 = 4%nat →
  ∃ c4', length c4' = 4%nat ∧
    base64_decode_loop ((base64_char <$> sextets a0 a1 a2) ++ rest) c4 0 result =
    base64_decode_loop rest c4' 0 (result ++ [a0; a1; a2]).
Proof.
  intros Hl. pose proof (sextets_range a0 a1 a2) as Hr.
  pose proof (triple_sextets (to_byte <$> sextets a0 a1 a2) a0 a1 a2 3) as Ht.
  cbn [firstn] in Ht. pose proof (find_char_list _ Hr) as Hf.
  destruct (sextets a0 a1 a2) as [|v0 [|v1 [|v2 [|v3 [|]]]]] eqn:E; try done.
  repeat match goal with
  | H : Forall _ (_ :: _) |- _ => apply Forall_cons_1 in H as [? ?]
  end.
  destruct c4 as [|x0 [|x1 [|x2 [|x3 [|]]]]]; try done.
  exists (to_byte <$> [v0; v1; v2; v3]). split; [done|].
  cbn [fmap list_fmap app]. rewrite !decode_loop_step, decode_loop_last by (done || lia).
  cbn [insert list_insert]. cbn [fmap list_fmap] in Hf |- *. rewrite Hf.
  do 2 f_equal. apply Ht; [lia|]. intros i _. by rewrite <- list_lookup_fmap.
Qed.

(** The first [k + 1] sextets of a partial group give its [k] bytes. *)
Lemma decode_partial a0 a1 a2 k c4 result pad :
  (1 <= k < 3)%nat → length c4 = 4%nat →
  let '(c, i, r) := base64_decode_loop
      (take (S k) (base64_char <$> sextets a0 a1 a2) ++ "="%byte :: pad) c4 0 result in
  base64_decode_tail c i r = result ++ take k [a0; a1; a2].
Proof.
  intros Hk Hl. pose proof (sextets_range a0 a1 a2) as Hr.
  pose proof (λ q, triple_sextets q a0 a1 a2 k) as Hq.
  destruct (sextets a0 a1 a2) as [|v0 [|v1 [|v2 [|v3 [|]]]]] eqn:E; try done.
  repeat match goal with
  | H : Forall _ (_ :: _) |- _ => apply Forall_cons_1 in H as [? ?]
  end.
  destruct c4 as [|x0 [|x1 [|x2 [|x3 [|]]]]]; try done.
  assert (k = 1%nat ∨ k = 2%nat) as [-> | ->] by lia;
    cbn [fmap list_fmap firstn app];
    rewrite !decode_loop_step, decode_loop_pad by (done || lia);
    unfold base64_decode_tail; f_equal; apply Hq; try lia; intros i Hi;
    destruct i as [|[|[|i]]]; try lia; cbn; f_equal;
    by apply base64_char_facts.
Qed.

Lemma list_ind3 {A} (P : list A → Prop) :
  P [] → (∀ x, P [x]) → (∀ x y, P [x; y]) →
  (∀ x y z l, P l → P (x :: y :: z :: l)) → ∀ l, P l.
Proof.
  intros H0 H1 H2 H3.
  fix IH 1. intros [|x [|y [|z l]]]; [exact H0|apply H1|apply H2|apply H3, IH].
Qed.

Lemma base64_encode_loop_acc data result :
  let '(p, r) := base64_encode_loop data [] [] in
  base64_encode_loop data [] result = (p, result ++ r).
Proof.
  revert result. induction data as [| | |x y z l IH] using list_ind3; intros result;
    cbn [base64_encode_loop app]; rewrite ?app_nil_r; try done.
  pose proof (IH (base64_char <$> sextets x y z)) as H1.
  pose proof (IH (result ++ (base64_char <$> sextets x y z))) as H2.
  destruct (base64_encode_loop l [] []) as [p r]. rewrite H1, H2.
  by rewrite app_assoc.
Qed.

Lemma base64_encode_cons3 a0 a1 a2 l :
  base64_encode (a0 :: a1 :: a2 :: l) = (base64_char <$> sextets a0 a1 a2) ++ base64_encode l.
Proof.
  unfold base64_encode. cbn [base64_encode_loop app].
  pose proof (base64_encode_loop_acc l (base64_char <$> sextets a0 a1 a2)) as H.
  destruct (base64_encode_loop l [] []) as [p r]. rewrite H.
  unfold base64_encode_tail. destruct p as [|? [|]]; by rewrite ?app_assoc.
Qed.

Lemma base64_decode_encode data c4 result :
  length c4 = 4%nat →
  let '(c, i, r) := base64_decode_loop (base64_encode data) c4 0 result in
  base64_decode_tail c i r = result ++ data.
Proof.
  revert c4 result. induction data as [|a|a b|a b c l IH] using list_ind3; intros c4 result Hl.
  - cbn. by rewrite app_nil_r.
  - apply (decode_partial a "000"%byte "000"%byte 1); [lia|done].
  - apply (decode_partial a b "000"%byte 2); [lia|done].
  - rewrite base64_encode_cons3.
    destruct (decode_group a b c (base64_encode l) c4 result Hl) as (c4' & Hl' & ->).
    specialize (IH c4' (result ++ [a; b; c]) Hl').
    destruct (base64_decode_loop _ _ _ _) as [[? ?] ?]. by rewrite IH, <- app_assoc.
Qed.

End base64_roundtrip.

(** ** Hexadecimal round trips *)

Lemma hex_of_hash (h : Hash256) :
  hex_to_hash (hash_to_hex h) = Ok h ∧ hash_from_hex (hash_to_hex h) = Some h.
Proof.
  assert (Hl : len (hash_to_hex h) = 64).
  { unfold len, hash_to_hex. by rewrite length_hex_join, length_arr. }
  assert (Hr : hex_to_hash (hash_to_hex h) = Ok h).
  { unfold hex_to_hash. rewrite Hl. cbn [negb Z.eqb Pos.eqb].
    pose proof (hex_pairs_join (arr h)) as Hp. rewrite length_arr in Hp.
    unfold hash_to_hex. rewrite Hp. cbn. by rewrite to_array_arr. }
  unfold hash_from_hex. by rewrite Hl, Hr.
Qed.

Lemma hex_of_digits s :
  len s = 64 → Forall (λ c, is_Some (hex_value c)) s →
  ∃ h, hex_to_hash s = Ok h ∧ hash_to_hex h = hex_lower <$> s.
Proof.
  intros Hl Hs. destruct (hex_pairs_digits 32 s) as (l & Hp & Hll & Hj); [|done|].
  { unfold len in Hl. lia. }
  destruct (to_array_is_Some 32 l Hll) as [h Hh].
  exists h. unfold hex_to_hash. rewrite Hl. cbn [negb Z.eqb Pos.eqb].
  rewrite Hp. cbn. rewrite Hh. split; [done|].
  apply to_array_Some in Hh. unfold hash_to_hex. by rewrite Hh.
Qed.

(** ** Properties *)

(** Decoding the base64 encoding of any bytes gives them back, whatever the uninitialised
    buffer of the decoder holds. *)
Lemma base64_roundtrip data junk :
  length junk = 4%nat → base64_decode_from junk (base64_encode data) = data.
Proof.
  intros Hj. pose proof (base64_decode_encode data junk [] Hj) as H.
  unfold base64_decode_from. by destruct (base64_decode_loop _ _ _ _) as [[? ?] ?].
Qed.

(** Both hexadecimal readers invert the writer, any 64 digits read back as themselves in
    lower case, and [hex_to_hash] also accepts text that is no hexadecimal; decoding the
    base64 encoding of any bytes gives them back, whatever the uninitialised buffer of the
    decoder holds. *)
Theorem text_encodings :
  (∀ h, hex_to_hash (hash_to_hex h) = Ok h ∧ hash_from_hex (hash_to_hex h) = Some h) ∧
  (∀ s, len s = 64 → Forall (λ c, is_Some (hex_value c)) s →
     ∃ h, hex_to_hash s = Ok h ∧ hash_to_hex h = hex_lower <$> s) ∧
  (∃ s h, hex_to_hash s = Ok h ∧ (∃ c, c ∈ s ∧ hex_value c = None) ∧ hash_to_hex h ≠ s) ∧
  (∀ data junk, length junk = 4%nat → base64_decode_from junk (base64_encode data) = data).
Proof.
  split; [apply hex_of_hash|]. split; [apply hex_of_digits|]. split; [|apply base64_roundtrip].
  exists (str "+f 1-1" ++ replicate 58 "0"%byte).
  eexists. split; [vm_compute; reflexivity|]. split; [|by vm_compute].
  exists "+"%byte. split; [|done]. apply list_elem_of_In. vm_compute. auto.
Qed.

Lemma text_encodings_witness :
  (∃ h, hex_to_hash (replicate 64 "A"%byte) = Ok h ∧
        hash_to_hex h = hex_lower <$> replicate 64 "A"%byte) ∧
  base64_decode_from (str "junk") (base64_encode (str "cashew!")) = str "cashew!".
Proof.
  split.
  - apply text_encodings; [reflexivity|]. repeat constructor; eauto.
  - apply text_encodings. reflexivity.
Defined.
