(* ===== verification/Crypto.v ===== *)
(** The cryptographic interface: src/crypto/.

    BLAKE3 (the vendored library src/crypto/blake3.cpp calls) and libsodium
    are not part of the program: their entry points are the operations of the
    class [Crypto], and [SignatureLaws] states the documented behaviour of
    Ed25519 the program relies on.  The wrappers of src/crypto/argon2.cpp and
    src/crypto/ed25519.cpp, which prepare the arguments and turn error codes
    into exceptions, are defined on top.  [toy_crypto] is a computable
    instance, used to evaluate the model on concrete inputs. *)

From Stdlib Require Import Strings.Byte.
From S2P Require Import Prelude Common.

(** ** The library entry points *)

Class Crypto := {
  (** [blake3_hasher_init]/[_update]/[_finalize] with a 32-byte output *)
  blake3 : bytes → Hash256;
  (** [crypto_sign_detached]; [None] for a non-zero return code *)
  crypto_sign_detached : bytes → SecretKey → option Signature;
  (** [crypto_sign_verify_detached(...) == 0] *)
  crypto_sign_verify_detached : Signature → bytes → PublicKey → bool;
  (** [crypto_sign_ed25519_sk_to_pk] *)
  crypto_sign_sk_to_pk : SecretKey → PublicKey;
  (** [crypto_generichash] with a 16-byte output and no key *)
  crypto_generichash16 : bytes → array 16;
  (** [crypto_pwhash] with an [n]-byte output: password, salt, opslimit,
      memlimit; [None] for a non-zero return code *)
  crypto_pwhash : ∀ n : nat, bytes → bytes → Z → Z → option (array n)
}.

(** Ed25519 verification accepts what signing produced under the matching
    key, for the secret keys the library itself generates: a secret key holds
    its public key, and bytes put together otherwise need not agree. *)
Class SignatureLaws `{Crypto} := {
  genuine_secret : SecretKey → Prop;
  verify_sign : ∀ m sk sg,
    genuine_secret sk →
    crypto_sign_detached m sk = Some sg →
    crypto_sign_verify_detached sg m (crypto_sign_sk_to_pk sk) = true
}.

(** ** Argon2 *)

Module Argon2.

Record Params := MkParams {
  memory_cost_kb : Z;
  time_cost : Z;
  parallelism : Z
}.

Definition interactive : Params := MkParams 65536 2 1.
Definition moderate : Params := MkParams 262144 3 1.
Definition sensitive : Params := MkParams 1048576 4 1.

Section ops.
Context `{Crypto}.

(** The memory limit is computed in [uint32_t]. *)
Definition hash (password salt : bytes) (params : Params) (output_len : nat) :
    outcome (array output_len) :=
  if len salt <? 16 then
    Err (EInvalidArgument "Salt too short (minimum 16 bytes)")
  else
    match crypto_pwhash output_len password salt (time_cost params)
            (u32 (memory_cost_kb params * 1024)) with
    | Some h => Ok h
    | None => Err (ERuntime "Argon2 hashing failed (out of memory?)")
    end.

Definition verify (password salt expected_hash : bytes) (params : Params) : bool :=
  match hash password salt params (length expected_hash) with
  | Ok h => bool_decide (arr h = expected_hash)
  | _ => false
  end.

Definition solve_puzzle (challenge : bytes) (nonce : Z) (params : Params) :
    outcome Hash256 :=
  let input := challenge ++ le_bytes 8 nonce in
  let salt := arr (crypto_generichash16 challenge) in
  hash input salt params 32.

End ops.
End Argon2.

(** ** Ed25519 *)

Module Ed25519.
Section ops.
Context `{Crypto}.

Definition sign (message : bytes) (secret_key : SecretKey) : outcome Signature :=
  match crypto_sign_detached message secret_key with
  | Some sg => Ok sg
  | None => Err (ERuntime "Failed to sign message")
  end.

Definition verify (message : bytes) (signature : Signature) (public_key : PublicKey) :
    bool :=
  crypto_sign_verify_detached signature message public_key.

Definition secret_to_public (secret_key : SecretKey) : PublicKey :=
  crypto_sign_sk_to_pk secret_key.

End ops.

(** [drawn] is what [crypto_sign_keypair] produces, [None] when it fails. *)
Definition generate_keypair (drawn : option (PublicKey * SecretKey)) :
    outcome (PublicKey * SecretKey) :=
  match drawn with
  | Some kp => Ok kp
  | None => Err (ERuntime "Failed to generate Ed25519 keypair")
  end.

Definition bytes_to_hex (data : bytes) : bytes := mjoin (hex_byte <$> data).

(** [None] for a wrong length or an exception of [std::stoul]. *)
Definition hex_to_bytes (out_len : nat) (hex : bytes) : option (array out_len) :=
  if len hex =? Z.of_nat out_len * 2
  then l ← to_optional (hex_pairs out_len hex); to_array out_len l
  else None.

Definition public_key_to_hex (key : PublicKey) : bytes := bytes_to_hex (arr key).
Definition public_key_from_hex (hex : bytes) : option PublicKey := hex_to_bytes 32 hex.
Definition signature_to_hex (sig : Signature) : bytes := bytes_to_hex (arr sig).
Definition signature_from_hex (hex : bytes) : option Signature := hex_to_bytes 64 hex.

Lemma len_hex (l : bytes) : len (bytes_to_hex l) = len l * 2.
Proof. unfold len, bytes_to_hex. rewrite length_hex_join. lia. Qed.

Lemma hex_pairs_array {n} (a : array n) : hex_pairs n (bytes_to_hex (arr a)) = Ok (arr a).
Proof. pose proof (hex_pairs_join (arr a)) as E. rewrite length_arr in E. exact E. Qed.

Lemma hex_roundtrip {n} (a : array n) : hex_to_bytes n (bytes_to_hex (arr a)) = Some a.
Proof.
  unfold hex_to_bytes. rewrite len_hex, len_arr, Z.eqb_refl, hex_pairs_array. cbn.
  apply to_array_arr.
Qed.

End Ed25519.

(** ** A computable instance *)

(** A polynomial checksum spread over [n] bytes. *)
Definition toy_sum (l : bytes) : Z :=
  foldl (λ acc b, (acc * 1000003 + byte_val b + 1) mod (2 ^ 127 - 1)) 7 l.

Program Definition toy_digest (n : nat) (l : bytes) : array n :=
  dexist (le_bytes n (toy_sum l * 340282366920938463463374607431768211507 + len l)) _.
Next Obligation. intros. apply length_le_bytes. Qed.

Lemma length_drop_secret (sk : SecretKey) : length (drop 32 (arr sk)) = 32%nat.
Proof. rewrite length_drop, length_arr. reflexivity. Qed.

Definition toy_public (sk : SecretKey) : PublicKey :=
  dexist (drop 32 (arr sk)) (length_drop_secret sk).

Definition toy_sign (m : bytes) (pk : PublicKey) : Signature :=
  toy_digest 64 (arr pk ++ m).

Definition toy_crypto : Crypto := {|
  blake3 := toy_digest 32;
  crypto_sign_detached m sk := Some (toy_sign m (toy_public sk));
  crypto_sign_verify_detached sg m pk := bool_decide (sg = toy_sign m pk);
  crypto_sign_sk_to_pk := toy_public;
  crypto_generichash16 := toy_digest 16;
  crypto_pwhash n p s ops mem :=
    Some (toy_digest n (p ++ s ++ le_bytes 8 ops ++ le_bytes 8 mem))
|}.

Definition toy_laws : @SignatureLaws toy_crypto.
Proof.
  exists (λ _, True). intros m sk sg _ [= <-]. by apply bool_decide_eq_true_2.
Defined.

Lemma solve_puzzle_salted `{Crypto} challenge nonce params :
  Argon2.solve_puzzle challenge nonce params =
  match crypto_pwhash 32 (challenge ++ le_bytes 8 nonce)
          (arr (crypto_generichash16 challenge)) (Argon2.time_cost params)
          (u32 (Argon2.memory_cost_kb params * 1024)) with
  | Some h => Ok h
  | None => Err (ERuntime "Argon2 hashing failed (out of memory?)")
  end.
Proof. unfold Argon2.solve_puzzle, Argon2.hash. by rewrite len_arr. Qed.
