(* ===== verification/Pow.v ===== *)
(** Proof of work: src/core/pow/pow.hpp and pow.cpp.

    Puzzle generation with a clamped difficulty, the search loop over random
    nonces, verification, and the adaptive difficulty.  The clock readings and
    the nonces drawn from the random generator are arguments. *)

From Stdlib Require Import Strings.Byte.
From S2P Require Import Prelude Common Crypto.

Record PowPuzzle := MkPowPuzzle {
  challenge : bytes;
  difficulty : Z;
  params : Argon2.Params;
  epoch : Z;
  timestamp : Z
}.

Record PowSolution := MkPowSolution {
  solution_hash : Hash256;
  nonce : Z;
  sol_difficulty : Z;
  compute_time_ms : Z
}.

Definition TARGET_SOLVE_TIME_MS : Z := 10 * 60 * 1000.
Definition MIN_DIFFICULTY : Z := 4.
Definition MAX_DIFFICULTY : Z := 32.

Section pow.
Context `{Crypto}.

Definition generate_puzzle (now_ticks : Z) (challenge_data : bytes)
    (epoch node_difficulty : Z) : PowPuzzle :=
  let difficulty := Z.max MIN_DIFFICULTY (Z.min node_difficulty MAX_DIFFICULTY) in
  let params :=
    if difficulty <=? 8 then Argon2.interactive
    else if difficulty <=? 16 then Argon2.moderate
    else Argon2.sensitive in
  MkPowPuzzle challenge_data difficulty params epoch (u64 now_ticks).

(** The inner [while ((b & mask) == 0 && mask != 0)] loop; eight rounds shift
    the mask out. *)
Fixpoint mask_zeros (fuel : nat) (b mask : Z) : Z :=
  match fuel with
  | O => 0
  | S fuel =>
      if (Z.land b mask =? 0) && negb (mask =? 0)
      then 1 + mask_zeros fuel b (Z.shiftr mask 1) else 0
  end.

Fixpoint leading_zeros (l : bytes) : Z :=
  match l with
  | [] => 0
  | b :: l =>
      if byte_val b =? 0 then 8 + leading_zeros l
      else mask_zeros 9 (byte_val b) 0x80
  end.

Definition count_leading_zeros (hash : Hash256) : Z := leading_zeros (arr hash).

Definition meets_difficulty (hash : Hash256) (difficulty : Z) : bool :=
  difficulty <=? count_leading_zeros hash.

(** The search loop. [nonces] are the numbers the generator yields, [clock]
    the elapsed milliseconds when the given attempt succeeds. The loop ends
    when the attempts are used up ([max_attempts = 0] never ends it) or, in
    the model only, when the given nonces are: [None] for that case. *)
Fixpoint solve_loop (puzzle : PowPuzzle) (max_attempts : Z) (clock : Z → Z)
    (attempt : Z) (nonces : list Z) : option (outcome (option PowSolution)) :=
  if (max_attempts =? 0) || (attempt <? max_attempts) then
    match nonces with
    | [] => None
    | n :: nonces =>
        match Argon2.solve_puzzle (challenge puzzle) n (params puzzle) with
        | Ok hash =>
            if meets_difficulty hash (difficulty puzzle) then
              Some (Ok (Some (MkPowSolution hash n (difficulty puzzle)
                                (u64 (clock attempt)))))
            else solve_loop puzzle max_attempts clock (u64 (attempt + 1)) nonces
        | Err e => Some (Err e)
        | Undef => Some Undef
        end
    end
  else Some (Ok None).

Definition solve_puzzle (puzzle : PowPuzzle) (max_attempts : Z) (clock : Z → Z)
    (nonces : list Z) : option (outcome (option PowSolution)) :=
  solve_loop puzzle max_attempts clock 0 nonces.

Definition verify_solution (puzzle : PowPuzzle) (solution : PowSolution) :
    outcome bool :=
  if negb (sol_difficulty solution =? difficulty puzzle) then Ok false
  else
    computed_hash ← Argon2.solve_puzzle (challenge puzzle) (nonce solution) (params puzzle);
    if bool_decide (computed_hash ≠ solution_hash solution) then Ok false
    else if negb (meets_difficulty computed_hash (difficulty puzzle)) then Ok false
    else Ok true.

Definition adjust_difficulty (previous_solve_time_ms current_difficulty : Z) : Z :=
  if previous_solve_time_ms <? TARGET_SOLVE_TIME_MS / 2 then
    Z.min (u32 (current_difficulty + 1)) MAX_DIFFICULTY
  else if TARGET_SOLVE_TIME_MS * 2 <? previous_solve_time_ms then
    if MIN_DIFFICULTY <? current_difficulty then current_difficulty - 1
    else MIN_DIFFICULTY
  else current_difficulty.

(** The timed loop of [benchmark_node]: [elapsed n] is the clock after [n]
    hashes. It runs until the elapsed time reaches the duration ([None]: not
    within the fuel). *)
Fixpoint benchmark_loop (fuel : nat) (test_data : bytes) (elapsed : Z → Z)
    (test_duration_ms hashes : Z) : option (outcome Z) :=
  match fuel with
  | O => None
  | S fuel =>
      match Argon2.solve_puzzle test_data hashes Argon2.interactive with
      | Ok _ =>
          let hashes := u64 (hashes + 1) in
          if test_duration_ms <=? u64 (elapsed hashes) then Some (Ok hashes)
          else benchmark_loop fuel test_data elapsed test_duration_ms hashes
      | Err e => Some (Err e)
      | Undef => Some Undef
      end
  end.

(** The final division traps on a zero duration. *)
Definition benchmark_node (fuel : nat) (test_data : bytes) (elapsed : Z → Z)
    (test_duration_ms : Z) : option (outcome Z) :=
  (λ result,
    hashes ← result;
    if test_duration_ms =? 0 then Undef
    else Ok (u64 (hashes * 1000) / test_duration_ms)) <$>
  benchmark_loop fuel test_data elapsed test_duration_ms 0.

Definition get_starting_difficulty (hashes_per_second : Z) : Z :=
  if hashes_per_second <? 10 then MIN_DIFFICULTY
  else if hashes_per_second <? 50 then MIN_DIFFICULTY + 2
  else if hashes_per_second <? 100 then MIN_DIFFICULTY + 4
  else MIN_DIFFICULTY + 6.

End pow.

(** ** Leading zeros *)

(** The hash read as a big-endian number. *)
Definition be_val (l : bytes) : Z := foldl (λ acc b, acc * 256 + byte_val b) 0 l.

Lemma be_val_app_acc acc l :
  foldl (λ acc b, acc * 256 + byte_val b) acc l = acc * 256 ^ len l + be_val l.
Proof.
  revert acc. induction l as [|b l IH]; intros acc.
  - rewrite len_nil. unfold be_val. cbn [foldl]. lia.
  - unfold be_val. cbn [foldl]. rewrite IH, (IH (0 * 256 + _)), len_cons.
    rewrite Z.pow_add_r by (pose proof (len_nonneg l); lia). lia.
Qed.

Lemma be_val_cons b l : be_val (b :: l) = byte_val b * 256 ^ len l + be_val l.
Proof. unfold be_val at 1. cbn [foldl]. by rewrite be_val_app_acc. Qed.

Lemma be_val_range l : 0 <= be_val l < 256 ^ len l.
Proof.
  induction l as [|b l IH]; [done|].
  rewrite be_val_cons, len_cons. pose proof (byte_val_range b) as Hb. unfold in_u in Hb.
  pose proof (len_nonneg l). rewrite Z.pow_add_r by lia. nia.
Qed.

(** The mask loop stops at the highest set bit: [7 - log2]. *)
Lemma mask_zeros_byte b :
  byte_val b ≠ 0 → mask_zeros 9 (byte_val b) 0x80 = 7 - Z.log2 (byte_val b).
Proof. destruct b; intros Hb; (by destruct Hb) || reflexivity. Qed.

Lemma log2_byte_range b : byte_val b ≠ 0 → 0 <= Z.log2 (byte_val b) <= 7.
Proof.
  intros Hb. pose proof (byte_val_range b) as [? ?]. split; [apply Z.log2_nonneg|].
  assert (Z.log2 (byte_val b) < 8); [|lia]. apply Z.log2_lt_pow2; lia.
Qed.

Lemma leading_zeros_range l : 0 <= leading_zeros l <= 8 * len l.
Proof.
  induction l as [|b l IH]; [done|]. cbn [leading_zeros]. rewrite len_cons.
  pose proof (len_nonneg l).
  destruct (byte_val b =? 0) eqn:E; bool_to_prop; [lia|].
  rewrite mask_zeros_byte by done. pose proof (log2_byte_range b E). lia.
Qed.

Lemma leading_zeros_spec l d :
  0 <= d <= 8 * len l → d <= leading_zeros l ↔ be_val l < 2 ^ (8 * len l - d).
Proof.
  revert d. induction l as [|b l IH]; intros d Hd.
  - assert (d = 0) as -> by (change (len []) with 0 in Hd; lia). done.
  - rewrite len_cons in *. pose proof (len_nonneg l). cbn [leading_zeros].
    rewrite be_val_cons. pose proof (be_val_range l) as Hl.
    assert (256 ^ len l = 2 ^ (8 * len l)) as Hp by (by rewrite Z.pow_mul_r by lia).
    rewrite Hp in *. pose proof (byte_val_range b) as [Hb0 Hb8].
    destruct (byte_val b =? 0) eqn:E; bool_to_prop.
    + rewrite E, Z.mul_0_l, Z.add_0_l. destruct (Z.le_gt_cases d 8).
      * pose proof (leading_zeros_range l).
        pose proof (Z.pow_le_mono_r 2 (8 * len l) (8 * (1 + len l) - d)). lia.
      * rewrite <- Z.le_sub_le_add_l, IH by lia.
        by replace (8 * (1 + len l) - d) with (8 * len l - (d - 8)) by lia.
    + rewrite mask_zeros_byte by done. pose proof (log2_byte_range b E) as Hr.
      pose proof (Z.log2_spec (byte_val b) ltac:(lia)) as [Hlo Hhi].
      replace (8 * (1 + len l) - d) with ((8 - d) + 8 * len l) by lia.
      destruct (Z.le_gt_cases d 8) as [Hd8|Hd8].
      * rewrite Z.pow_add_r by lia. split; intros Hx.
        -- assert (byte_val b < 2 ^ (8 - d)); [|nia].
           eapply Z.lt_le_trans; [exact Hhi|]. apply Z.pow_le_mono_r; lia.
        -- assert (Z.log2 (byte_val b) < 8 - d); [|lia].
           apply Z.log2_lt_pow2; [lia|]. nia.
      * split; [lia|]. intros Hx. exfalso.
        pose proof (Z.pow_le_mono_r 2 (8 - d + 8 * len l) (8 * len l)). nia.
Qed.

(** ** The search loop *)

Section search.
Context `{Crypto}.
Implicit Types (p : PowPuzzle) (clock : Z → Z).

(** The attempt with nonce [n] computed a hash and it is not good enough. *)
Definition attempt_fails p (n : Z) : Prop :=
  ∃ h, Argon2.solve_puzzle (challenge p) n (params p) = Ok h ∧
       meets_difficulty h (difficulty p) = false.

Definition attempt_succeeds p (n : Z) (h : Hash256) : Prop :=
  Argon2.solve_puzzle (challenge p) n (params p) = Ok h ∧
  meets_difficulty h (difficulty p) = true.

Lemma verify_solution_true p s :
  verify_solution p s = Ok true ↔
  sol_difficulty s = difficulty p ∧ attempt_succeeds p (nonce s) (solution_hash s).
Proof.
  unfold verify_solution, attempt_succeeds. destruct (_ =? _) eqn:E; cbn [negb]; bool_to_prop.
  - destruct (Argon2.solve_puzzle _ _ _) as [h|e|]; cbn; [|split; [done|intros (_ & ? & _); done]..].
    destruct (decide (h = solution_hash s)) as [->|Hne].
    + rewrite bool_decide_eq_false_2 by (intros []; done).
      destruct (meets_difficulty _ _); cbn; split; [done..|intros (_ & _ & ?); done].
    + rewrite bool_decide_eq_true_2 by done. split; [done|].
      intros (_ & [= ?] & _). done.
  - split; [done|]. intros [? _]. done.
Qed.

Lemma loop_guard_next max_attempts a :
  in_u 64 max_attempts → 0 <= a →
  (max_attempts =? 0) || (a <? max_attempts) = true →
  max_attempts = 0 ∨ (u64 (a + 1) = a + 1 ∧ a < max_attempts).
Proof.
  unfold in_u. intros Hm Ha E. destruct (max_attempts =? 0) eqn:E0; bool_to_prop; [by left|].
  cbn in E. bool_to_prop. right. rewrite wrap_small by (unfold in_u; lia). lia.
Qed.

(** What the loop entered at attempt [a] returns. *)
Lemma solve_loop_spec p max_attempts clock nonces a r :
  in_u 64 max_attempts → 0 <= a →
  solve_loop p max_attempts clock a nonces = Some (Ok r) →
  match r with
  | Some s => ∃ i : nat, nonces !! i = Some (nonce s) ∧
      (max_attempts = 0 ∨ a + Z.of_nat i < max_attempts) ∧
      (∀ j n, (j < i)%nat → nonces !! j = Some n → attempt_fails p n) ∧
      sol_difficulty s = difficulty p ∧
      attempt_succeeds p (nonce s) (solution_hash s)
  | None => 0 < max_attempts ∧
      ∀ j n, a + Z.of_nat j < max_attempts → nonces !! j = Some n → attempt_fails p n
  end.
Proof.
  intros Hm. revert a. induction nonces as [|n ns IH]; intros a Ha; cbn [solve_loop];
    (destruct ((_ =? _) || _) eqn:G;
     [|intros [= <-]; apply orb_false_iff in G as [G1 G2]; bool_to_prop;
       unfold in_u in Hm; split; [lia|]; intros; lia]).
  { done. }
  destruct (Argon2.solve_puzzle _ _ _) as [h|e|] eqn:Eh; [|done..].
  destruct (meets_difficulty h _) eqn:Ed.
  - intros [= <-]. exists O. split; [done|]. split; [|split].
    + destruct (loop_guard_next _ a Hm Ha G); [by left|right; lia].
    + intros j ? ?. lia.
    + done.
  - intros Hr.
    assert (Hf : attempt_fails p n) by (exists h; done).
    destruct (loop_guard_next _ a Hm Ha G) as [H0|[Hw Hlt]].
    + apply IH in Hr; [|apply wrap_range; lia]. destruct r as [s|]; [|lia].
      destruct Hr as (i & ? & _ & Hfail & ?). exists (S i). split; [done|].
      split; [by left|]. split; [|done]. intros [|j] m ? Hn; [by inv Hn|].
      apply (Hfail j); [lia|done].
    + rewrite Hw in Hr. apply IH in Hr; [|lia]. destruct r as [s|].
      * destruct Hr as (i & ? & ? & Hfail & ?). exists (S i). split; [done|].
        split; [lia|]. split; [|done]. intros [|j] m ? Hn; [by inv Hn|].
        apply (Hfail j); [lia|done].
      * destruct Hr as [? Hfail]. split; [done|]. intros [|j] m ? Hn; [by inv Hn|].
        apply (Hfail j); [lia|done].
Qed.

Lemma solve_loop_bounded p max_attempts clock nonces a :
  in_u 64 max_attempts → 0 <= a → 0 < max_attempts → max_attempts <= a + len nonces →
  is_Some (solve_loop p max_attempts clock a nonces).
Proof.
  intros Hm. revert a. induction nonces as [|n ns IH]; intros a Ha H0 Hl; cbn [solve_loop].
  all: destruct ((_ =? _) || _) eqn:G; [|eauto].
  all: destruct (loop_guard_next _ a Hm Ha G) as [|[Hw ?]]; [lia|].
  - change (len []) with 0 in Hl. lia.
  - rewrite Hw, len_cons in *.
    destruct (Argon2.solve_puzzle _ _ _); [|eauto..].
    destruct (meets_difficulty _ _); [eauto|]. apply IH; lia.
Qed.

End search.

(** ** Properties *)

(** The bit loop of the difficulty test is the numeric one: a hash meets difficulty [d]
    exactly when its big-endian value is below [2 ^ (256 - d)]. *)
Theorem meets_difficulty_numeric (h : Hash256) d :
  0 <= d <= 256 → meets_difficulty h d = true ↔ be_val (arr h) < 2 ^ (256 - d).
Proof.
  intros Hd. unfold meets_difficulty, count_leading_zeros. rewrite Z.leb_le.
  rewrite leading_zeros_spec; rewrite len_arr; [done|lia].
Qed.

Lemma meets_difficulty_numeric_witness :
  meets_difficulty (array_fill 32 "001"%byte) 7 = true ↔
  be_val (arr (array_fill 32 "001"%byte)) < 2 ^ (256 - 7).
Proof. apply meets_difficulty_numeric. lia. Defined.

(** C39: the solver returns the first nonce that works, with a solution the verifier
    accepts; it gives up only after the bound, when every nonce tried failed; and with
    a positive bound it returns once that many nonces are drawn; the bit loop of the
    difficulty test accepts exactly the hashes whose big-endian value is below 2 ^
    (256 - d). *)
Theorem solve_puzzle_correct `{Crypto} p max_attempts clock nonces :
  in_u 64 max_attempts →
  (∀ s, solve_puzzle p max_attempts clock nonces = Some (Ok (Some s)) →
     verify_solution p s = Ok true ∧
     ∃ i : nat, nonces !! i = Some (nonce s) ∧
       (max_attempts = 0 ∨ Z.of_nat i < max_attempts) ∧
       ∀ j n, (j < i)%nat → nonces !! j = Some n → attempt_fails p n) ∧
  (solve_puzzle p max_attempts clock nonces = Some (Ok None) →
     0 < max_attempts ∧
     ∀ j n, Z.of_nat j < max_attempts → nonces !! j = Some n → attempt_fails p n) ∧
  (0 < max_attempts → max_attempts <= len nonces →
     is_Some (solve_puzzle p max_attempts clock nonces)) ∧
  (∀ h d, 0 <= d <= 256 → meets_difficulty h d = true ↔ be_val (arr h) < 2 ^ (256 - d)).
Proof.
  intros Hm. split; [|split; [|split]]; [| | |exact meets_difficulty_numeric].
  - intros s Hs. apply solve_loop_spec in Hs as (i & ? & ? & ? & ? & ?); [|done|lia].
    rewrite verify_solution_true. eauto 10.
  - intros Hs. by apply solve_loop_spec in Hs; [|done|lia].
  - intros. apply solve_loop_bounded; (done || lia).
Qed.

Definition toy_puzzle : PowPuzzle :=
  @generate_puzzle 1700000000 (str "entropy") 3 4.

Lemma solve_puzzle_correct_witness :
  ∃ s, @solve_puzzle toy_crypto toy_puzzle 80 (λ a, a * 3) (seqZ 0 80) = Some (Ok (Some s)) ∧
    @verify_solution toy_crypto toy_puzzle s = Ok true.
Proof.
  eexists. split; [vm_compute; reflexivity|].
  refine (proj1 (proj1 (@solve_puzzle_correct toy_crypto toy_puzzle 80 (λ a, a * 3)
    (seqZ 0 80) _) _ _)); [split; lia|vm_compute; reflexivity].
Defined.

(** Adjusting moves the difficulty by at most one and stays within the limits, and so do
    generated and starting difficulties. *)
Theorem adjust_difficulty_range prev cur now data epoch hps :
  (MIN_DIFFICULTY <= cur <= MAX_DIFFICULTY →
   MIN_DIFFICULTY <= adjust_difficulty prev cur <= MAX_DIFFICULTY ∧
   Z.abs (adjust_difficulty prev cur - cur) <= 1) ∧
  MIN_DIFFICULTY <= difficulty (generate_puzzle now data epoch cur) <= MAX_DIFFICULTY ∧
  MIN_DIFFICULTY <= get_starting_difficulty hps <= MAX_DIFFICULTY.
Proof.
  unfold adjust_difficulty, get_starting_difficulty, generate_puzzle,
    MIN_DIFFICULTY, MAX_DIFFICULTY.
  split_and!; cbn [difficulty].
  - intros Hc. rewrite wrap_small by (unfold in_u; lia).
    repeat case_match; bool_to_prop; lia.
  - lia.
  - lia.
  - repeat case_match; lia.
  - repeat case_match; lia.
Qed.

Lemma adjust_difficulty_range_witness : adjust_difficulty 1000 8 = 9 ∧
  MIN_DIFFICULTY <= adjust_difficulty 1000 8 <= MAX_DIFFICULTY.
Proof.
  split; [reflexivity|].
  apply (proj1 (adjust_difficulty_range 1000 8 0 [] 0 0)).
  unfold MIN_DIFFICULTY, MAX_DIFFICULTY. lia.
Defined.
