(* ===== verification/Serialization.v ===== *)
(** The self-describing value format: include/cashew/serialization.hpp and
    src/utils/serialization.cpp.

    [Serializable] is the variant the class wraps (a [double] is kept as its
    64-bit pattern, which is all [memcpy] sees of it; a [std::map] as its
    entries in key order).  [serialize] is the encoder; [decode_value] the
    recursive decoder over an input and an offset.  The decoder recurses on
    attacker-chosen lengths, so the model runs on fuel, [None] meaning that it
    ran out; [deserialize] gives it [2 * size + 1], which always suffices.

    Two things are not the program's: what [std::vector::reserve] grants
    ([reserve_error]) and whether forming [&input[input.size()]] is trapped
    by the library ([one_past_ok] when it is not). *)

From Stdlib Require Import Strings.Byte.
From S2P Require Import Prelude Reader.

(** ** Values *)

Inductive SerializableType :=
  Null | Bool | Int | UInt | Float | String | Binary | Array | Map.

#[warnings="-register-all"]
Inductive Serializable :=
  | SNull
  | SBool (v : bool)
  | SInt (v : Z)
  | SUInt (v : Z)
  | SFloat (bits : Z)
  | SString (v : bytes)
  | SBinary (v : bytes)
  | SArray (v : list Serializable)
  | SMap (v : list (bytes * Serializable)).

(** [Serializable::type]. *)
Definition type_of (s : Serializable) : SerializableType :=
  match s with
  | SNull => Null
  | SBool _ => Bool
  | SInt _ => Int
  | SUInt _ => UInt
  | SFloat _ => Float
  | SString _ => String
  | SBinary _ => Binary
  | SArray _ => Array
  | SMap _ => Map
  end.

(** ** Accessors *)

Definition as_bool (s : Serializable) : outcome bool :=
  match s with SBool v => Ok v | _ => Err (ERuntime "Not a boolean") end.
Definition as_int (s : Serializable) : outcome Z :=
  match s with SInt v => Ok v | _ => Err (ERuntime "Not an integer") end.
Definition as_uint (s : Serializable) : outcome Z :=
  match s with SUInt v => Ok v | _ => Err (ERuntime "Not an unsigned integer") end.
Definition as_float (s : Serializable) : outcome Z :=
  match s with SFloat v => Ok v | _ => Err (ERuntime "Not a float") end.
Definition as_string (s : Serializable) : outcome bytes :=
  match s with SString v => Ok v | _ => Err (ERuntime "Not a string") end.
Definition as_binary (s : Serializable) : outcome bytes :=
  match s with SBinary v => Ok v | _ => Err (ERuntime "Not binary data") end.
Definition as_array (s : Serializable) : outcome (list Serializable) :=
  match s with SArray v => Ok v | _ => Err (ERuntime "Not an array") end.
Definition as_map (s : Serializable) : outcome (list (bytes * Serializable)) :=
  match s with SMap v => Ok v | _ => Err (ERuntime "Not a map") end.

(** Lookup and insertion in a [std::map] given by its sorted entries. *)
Fixpoint map_find (k : bytes) (m : list (bytes * Serializable)) : option Serializable :=
  match m with
  | [] => None
  | (k', v) :: m => if decide (k' = k) then Some v else map_find k m
  end.

Fixpoint map_set (k : bytes) (v : Serializable) (m : list (bytes * Serializable)) :
    list (bytes * Serializable) :=
  match m with
  | [] => [(k, v)]
  | (k', v') :: m' =>
      if decide (k' = k) then (k, v) :: m'
      else if bytes_leb k k' then (k, v) :: m
      else (k', v') :: map_set k v m'
  end.

(** The const [operator[](size_t)]. *)
Definition at_index (s : Serializable) (index : Z) : outcome Serializable :=
  arr ← as_array s;
  if len arr <=? index then Err (EOutOfRange "Array index out of range")
  else match arr !! Z.to_nat index with Some v => Ok v | None => Undef end.

(** The non-const [operator[](size_t)] used as an assignment target: anything
    that is not an array is replaced, a short array is resized to [index + 1]
    (computed in [size_t]) with nulls. *)
Definition set_index (reserve_error : Z → option error) (s : Serializable)
    (index : Z) (x : Serializable) : outcome Serializable :=
  let arr := match s with SArray v => v | _ => [] end in
  if index <? len arr then Ok (SArray (<[Z.to_nat index := x]> arr))
  else if u64 (index + 1) =? 0 then Undef
  else match reserve_error (index + 1) with
       | Some e => Err e
       | None =>
           Ok (SArray (arr ++ replicate (Z.to_nat (index - len arr)) SNull ++ [x]))
       end.

(** The const [operator[](const std::string&)]. *)
Definition at_key (s : Serializable) (key : bytes) : outcome Serializable :=
  m ← as_map s;
  match map_find key m with
  | Some v => Ok v
  | None => Err (EOutOfRange "Key not found in map")
  end.

(** The non-const one, used as an assignment target. *)
Definition set_key (s : Serializable) (key : bytes) (x : Serializable) : Serializable :=
  SMap (map_set key x (match s with SMap m => m | _ => [] end)).

Definition push_back (s : Serializable) (value : Serializable) : Serializable :=
  SArray ((match s with SArray v => v | _ => [] end) ++ [value]).

Definition size_of (s : Serializable) : Z :=
  match s with SArray v => len v | SMap m => len m | _ => 0 end.

(** ** Encoder *)

Definition type_tag (t : SerializableType) : Z :=
  match t with
  | Null => 0 | Bool => 1 | Int => 2 | UInt => 3 | Float => 4
  | String => 5 | Binary => 6 | Array => 7 | Map => 8
  end.

Definition encode_type (t : SerializableType) : bytes := [to_byte (type_tag t)].

(** [encode_int] and [encode_uint] run the same loop. *)
Definition encode_uint (value : Z) : bytes := le_bytes 8 value.
Definition encode_int (value : Z) : bytes := le_bytes 8 value.
Definition encode_float (bits : Z) : bytes := encode_uint bits.
Definition encode_string (value : bytes) : bytes := encode_uint (len value) ++ value.
Definition encode_binary (value : bytes) : bytes := encode_uint (len value) ++ value.

Fixpoint serialize (data : Serializable) : bytes :=
  encode_type (type_of data) ++
  match data with
  | SNull => []
  | SBool v => [if v then "001"%byte else "000"%byte]
  | SInt v => encode_int v
  | SUInt v => encode_uint v
  | SFloat bits => encode_float bits
  | SString v => encode_string v
  | SBinary v => encode_binary v
  | SArray v => encode_uint (len v) ++ List.flat_map serialize v
  | SMap v =>
      encode_uint (len v) ++
      List.flat_map (λ '(key, val), encode_string key ++ serialize val) v
  end.

(** ** Decoder *)

(** A decoder step on fuel: [None] when the fuel is used up. *)
Definition decoder (A : Type) : Type := bytes → Z → option (outcome (A * Z)).

#[export] Instance decoder_ret : MRet decoder := λ A x d o, Some (Ok (x, o)).
#[export] Instance decoder_bind : MBind decoder := λ A B f r d o,
  match r d o with
  | Some (Ok (x, o')) => f x d o'
  | Some (Err e) => Some (Err e)
  | Some Undef => Some Undef
  | None => None
  end.

Definition fails {A} (e : error) : decoder A := λ _ _, Some (Err e).

Section decode.
Context (reserve_error : Z → option error) (one_past_ok : bool).

Definition end_of_data : error := ERuntime "Unexpected end of data".

Definition decode_byte : decoder Z := λ input offset,
  if len input <=? offset then Some (Err end_of_data)
  else match input !! Z.to_nat offset with
       | Some b => Some (Ok (byte_val b, u64 (offset + 1)))
       | None => Some Undef
       end.

Definition decode_type : decoder Z := decode_byte.

Definition decode_uint : decoder Z := λ input offset,
  if len input <? u64 (offset + 8) then Some (Err end_of_data)
  else if offset + 8 <=? len input
  then Some (Ok (u64 (le_val (sub input offset 8)), u64 (offset + 8)))
  else Some Undef.

Definition decode_int : decoder Z := v ← decode_uint; mret (i64 v).
Definition decode_float : decoder Z := decode_uint.

(** The bounds check adds the offset and the length in [size_t]. Past it, the
    string constructor is handed [&input[offset]] and the length. *)
Definition string_at (n : Z) : decoder bytes := λ input offset,
  if len input <? u64 (offset + n) then Some (Err end_of_data)
  else if (offset =? len input) && negb one_past_ok then Some Undef
  else if 2 ^ 63 <=? n then Some (Err (ELength "basic_string::_M_create"))
  else if offset + n <=? len input
  then Some (Ok (sub input offset n, u64 (offset + n)))
  else Some Undef.

Definition decode_string : decoder bytes := n ← decode_uint; string_at n.

(** Here the range [begin + offset, begin + offset + n) is copied.  A range that runs
    past the end, or is turned round because [n] is no valid difference, is outside
    what the standard defines. *)
Definition binary_at (n : Z) : decoder bytes := λ input offset,
  if len input <? u64 (offset + n) then Some (Err end_of_data)
  else if offset + n <=? len input
  then Some (Ok (sub input offset n, u64 (offset + n)))
  else Some Undef.

Definition decode_binary : decoder bytes := n ← decode_uint; binary_at n.

Definition reserve (n : Z) : decoder () :=
  match reserve_error n with Some e => fails e | None => mret tt end.

Fixpoint decode_value (fuel : nat) : decoder Serializable :=
  match fuel with
  | O => λ _ _, None
  | S fuel =>
      tag ← decode_type;
      match tag with
      | 0 => mret SNull
      | 1 => b ← decode_byte; mret (SBool (negb (b =? 0)))
      | 2 => v ← decode_int; mret (SInt v)
      | 3 => v ← decode_uint; mret (SUInt v)
      | 4 => v ← decode_float; mret (SFloat v)
      | 5 => v ← decode_string; mret (SString v)
      | 6 => v ← decode_binary; mret (SBinary v)
      | 7 => n ← decode_uint; _ ← reserve n; v ← decode_items fuel n; mret (SArray v)
      | 8 => n ← decode_uint; v ← decode_entries fuel n []; mret (SMap v)
      | _ => fails (ERuntime "Unknown serializable type")
      end
  end
(** The loop of [decode_array]: [n] elements to go. *)
with decode_items (fuel : nat) (n : Z) : decoder (list Serializable) :=
  match fuel with
  | O => λ _ _, None
  | S fuel =>
      if n =? 0 then mret []
      else v ← decode_value fuel; l ← decode_items fuel (n - 1); mret (v :: l)
  end
(** The loop of [decode_map], which assigns [value[key]] at each round. *)
with decode_entries (fuel : nat) (n : Z) (m : list (bytes * Serializable)) :
    decoder (list (bytes * Serializable)) :=
  match fuel with
  | O => λ _ _, None
  | S fuel =>
      if n =? 0 then mret m
      else
        key ← decode_string; v ← decode_value fuel;
        decode_entries fuel (n - 1) (map_set key v m)
  end.

Definition enough_fuel (data : bytes) : nat := (2 * length data + 1)%nat.

Definition deserialize (data : bytes) : option (outcome Serializable) :=
  match decode_value (enough_fuel data) data 0 with
  | Some (Ok (v, _)) => Some (Ok v)
  | Some (Err e) => Some (Err e)
  | Some Undef => Some Undef
  | None => None
  end.

End decode.

(** ** Well-formed values *)

(** A [std::map]'s entries: keys strictly ascending. *)
Definition key_lt (x y : bytes * Serializable) : Prop :=
  bytes_leb x.1 y.1 = true ∧ x.1 ≠ y.1.

(** The values the C++ type can hold, and whose arrays can be reserved. *)
#[warnings="-register-all"]
Inductive wf (reserve_error : Z → option error) : Serializable → Prop :=
  | wf_null : wf reserve_error SNull
  | wf_bool b : wf reserve_error (SBool b)
  | wf_int v : in_s 64 v → wf reserve_error (SInt v)
  | wf_uint v : in_u 64 v → wf reserve_error (SUInt v)
  | wf_float v : in_u 64 v → wf reserve_error (SFloat v)
  | wf_string v : len v < 2 ^ 63 → wf reserve_error (SString v)
  | wf_binary v : len v < 2 ^ 63 → wf reserve_error (SBinary v)
  | wf_array v : len v < 2 ^ 64 → reserve_error (len v) = None →
      Forall (wf reserve_error) v → wf reserve_error (SArray v)
  | wf_map v : len v < 2 ^ 64 → StronglySorted key_lt v →
      Forall (λ x, len x.1 < 2 ^ 63 ∧ wf reserve_error x.2) v →
      wf reserve_error (SMap v).

Section Serializable_induction.
Context (P : Serializable → Prop)
  (Hnull : P SNull) (Hbool : ∀ v, P (SBool v)) (Hint : ∀ v, P (SInt v))
  (Huint : ∀ v, P (SUInt v)) (Hfloat : ∀ v, P (SFloat v))
  (Hstring : ∀ v, P (SString v)) (Hbinary : ∀ v, P (SBinary v))
  (Harray : ∀ v, Forall P v → P (SArray v))
  (Hmap : ∀ v, Forall (λ x, P x.2) v → P (SMap v)).

Fixpoint Serializable_nested_ind (s : Serializable) : P s :=
  match s with
  | SNull => Hnull
  | SBool v => Hbool v
  | SInt v => Hint v
  | SUInt v => Huint v
  | SFloat v => Hfloat v
  | SString v => Hstring v
  | SBinary v => Hbinary v
  | SArray v =>
      Harray v ((fix go l : Forall P l :=
        match l with
        | [] => Forall_nil_2 _
        | x :: l => Forall_cons_2 _ _ _ (Serializable_nested_ind x) (go l)
        end) v)
  | SMap v =>
      Hmap v ((fix go l : Forall (λ x, P x.2) l :=
        match l with
        | [] => Forall_nil_2 _
        | x :: l => Forall_cons_2 _ _ _ (Serializable_nested_ind x.2) (go l)
        end) v)
  end.

End Serializable_induction.

(** ** Sorted maps *)

Lemma bytes_leb_total_false k k' : bytes_leb k k' = false → bytes_leb k' k = true.
Proof.
  intros H. destruct (key_leb_total k k') as [E|E]; [|done].
  unfold key_leb, bytes_order in E. congruence.
Qed.

Lemma elem_of_map_set k v m x :
  x ∈ map_set k v m → x = (k, v) ∨ x ∈ m.
Proof.
  induction m as [|[k' v'] m IH]; cbn; [set_solver|].
  repeat case_match; set_solver.
Qed.

Lemma map_set_sorted k v m : StronglySorted key_lt m → StronglySorted key_lt (map_set k v m).
Proof.
  induction m as [|[k' v'] m IH]; cbn.
  - repeat constructor.
  - intros [Hs Hf]%StronglySorted_inv. rewrite list.Forall_forall in Hf.
    repeat case_match; subst.
    + constructor; [done|]. by apply list.Forall_forall.
    + constructor; [by constructor; [|apply list.Forall_forall]|].
      constructor; [done|]. apply list.Forall_forall. intros y Hy.
      destruct (Hf y Hy) as [Hle Hne]. cbn in *. split; cbn.
      * by apply (key_leb_trans k k' y.1).
      * intros ->. by apply Hne, (key_leb_antisym k').
    + constructor; [auto|]. apply list.Forall_forall.
      intros y [-> | Hy]%elem_of_map_set.
      * split; [by apply bytes_leb_total_false|done].
      * by apply Hf.
Qed.

Lemma map_set_append k v m :
  Forall (λ x, key_lt x (k, v)) m → map_set k v m = m ++ [(k, v)].
Proof.
  induction 1 as [|[k' v'] m [Hle Hne] _ IH]; [done|]. cbn in *.
  rewrite decide_False by done. destruct (bytes_leb k k') eqn:E.
  - destruct Hne. by apply (key_leb_antisym k').
  - by rewrite IH.
Qed.

Lemma map_find_set k k' v m :
  map_find k' (map_set k v m) = if decide (k = k') then Some v else map_find k' m.
Proof.
  induction m as [|[k0 v0] m IH]; cbn; [done|].
  repeat case_match; cbn; subst; repeat case_decide; congruence || done.
Qed.

(** ** What the decoder reads *)

Section decoder_reads.
Context (reserve_error : Z → option error) (one_past_ok : bool).

(** The decoder [r] reads [x] off an input holding [e] at the offset; with a
    trapping library something has to follow. *)
Definition dreads {A} (r : decoder A) (x : A) (e : bytes) : Prop :=
  ∀ pre post, len (pre ++ e ++ post) < 2 ^ 63 → one_past_ok = true ∨ post ≠ [] →
    r (pre ++ e ++ post) (len pre) = Some (Ok (x, len pre + len e)).

Lemma dreads_ret {A} (x : A) : dreads (mret x) x [].
Proof. intros pre post _ _. change (len []) with 0. by rewrite Z.add_0_r. Qed.

Lemma dreads_bind {A B} (r : decoder A) (f : A → decoder B) x y e1 e2 :
  dreads r x e1 → dreads (f x) y e2 → dreads (r ≫= f) y (e1 ++ e2).
Proof.
  intros H1 H2 pre post Hl Hp. unfold mbind, decoder_bind.
  rewrite <- app_assoc in Hl |- *. rewrite H1; [|done|].
  - specialize (H2 (pre ++ e1) post). rewrite <- app_assoc in H2.
    rewrite <- len_app, H2 by done. do 3 f_equal. rewrite !len_app. lia.
  - destruct Hp; [by left|]. right. by destruct e2.
Qed.

Lemma dreads_byte b : dreads decode_byte (byte_val b) [b].
Proof.
  intros pre post Hl _. unfold decode_byte. cbn [app] in *.
  rewrite len_app, len_cons in *. pose proof (len_nonneg post). pose proof (len_nonneg pre).
  rewrite (proj2 (Z.leb_gt _ _)) by lia.
  unfold len at 1. rewrite Nat2Z.id, list_lookup_middle by done.
  rewrite wrap_small by (unfold in_u; lia). by rewrite len_cons.
Qed.

Lemma dreads_uint n : in_u 64 n → dreads decode_uint n (encode_uint n).
Proof.
  intros Hn pre post Hl _. unfold decode_uint, encode_uint in *.
  rewrite !len_app in *. rewrite len_le_bytes in *.
  pose proof (len_nonneg pre). pose proof (len_nonneg post).
  rewrite (wrap_small 64 (_ + 8)) by (unfold in_u; lia).
  rewrite (proj2 (Z.ltb_ge _ _)), (proj2 (Z.leb_le _ _)) by lia.
  rewrite sub_middle_n by exact (len_le_bytes 8 n).
  rewrite le_val_bytes. change (Z.of_nat 8 * 8) with 64. by rewrite wrap_idemp, wrap_small.
Qed.

Lemma dreads_int v : in_s 64 v → dreads decode_int v (encode_int v).
Proof.
  intros Hv. unfold decode_int, encode_int.
  assert (le_bytes 8 v = encode_uint (u64 v)) as ->.
  { unfold encode_uint, le_bytes. apply list_fmap_ext. intros i x Hx.
    apply lookup_seq in Hx as [-> Hi]. apply byte_val_inj.
    rewrite !byte_val_to_byte. unfold wrap. rewrite !Z.shiftr_div_pow2 by lia.
    change (2 ^ 64) with 18446744073709551616.
    do 8 (destruct i as [|i];
      [cbn; Z.to_euclidean_division_equations; lia|]). lia. }
  rewrite <- (app_nil_r (encode_uint _)). eapply dreads_bind.
  - apply dreads_uint, wrap_range. lia.
  - rewrite swrap_wrap, swrap_small by (done || lia). apply dreads_ret.
Qed.

Lemma dreads_string v : len v < 2 ^ 63 → dreads (decode_string one_past_ok) v (encode_string v).
Proof.
  intros Hv. unfold decode_string, encode_string. pose proof (len_nonneg v).
  eapply dreads_bind; [apply dreads_uint; unfold in_u; lia|].
  intros pre post Hl Hp. unfold string_at. rewrite !len_app in *.
  pose proof (len_nonneg pre). pose proof (len_nonneg post).
  rewrite wrap_small by (unfold in_u; lia).
  rewrite (proj2 (Z.ltb_ge _ _)) by lia.
  destruct ((len pre =? _) && negb one_past_ok) eqn:E.
  { apply andb_true_iff in E as [E1 E2]. bool_to_prop. destruct Hp as [->|Hp]; [done|].
    destruct post; [done|]. rewrite len_cons in *. pose proof (len_nonneg post). lia. }
  rewrite (proj2 (Z.leb_gt _ _)), (proj2 (Z.leb_le _ _)), sub_middle by lia. done.
Qed.

Lemma dreads_binary v : len v < 2 ^ 63 → dreads decode_binary v (encode_binary v).
Proof.
  intros Hv. unfold decode_binary, encode_binary. pose proof (len_nonneg v).
  eapply dreads_bind; [apply dreads_uint; unfold in_u; lia|].
  intros pre post Hl _. unfold binary_at. rewrite !len_app in *.
  pose proof (len_nonneg pre). pose proof (len_nonneg post).
  rewrite wrap_small by (unfold in_u; lia).
  rewrite (proj2 (Z.ltb_ge _ _)), (proj2 (Z.leb_le _ _)), sub_middle by lia. done.
Qed.

Lemma dreads_reserve n : reserve_error n = None → dreads (reserve reserve_error n) tt [].
Proof. unfold reserve. intros ->. apply dreads_ret. Qed.

(** A decoder whose encoding is followed by nothing more to read. *)
Lemma dreads_last {A B} (r : decoder A) (g : A → B) x e :
  dreads r x e → dreads (y ← r; mret (g y)) (g x) e.
Proof.
  intros Hr. rewrite <- (app_nil_r e). eapply dreads_bind; [done|]. apply dreads_ret.
Qed.

(** Prefix a tagged reader by its tag byte. *)
Lemma dreads_tag {A} t (f : Z → decoder A) x e :
  0 <= type_tag t < 256 → dreads (f (type_tag t)) x e →
  dreads (tag ← decode_type; f tag) x (encode_type t ++ e).
Proof.
  intros Ht Hf. eapply dreads_bind; [apply dreads_byte|].
  by rewrite byte_val_to_byte, wrap_small.
Qed.

Lemma serialize_nonempty v : (1 <= length (serialize v))%nat.
Proof. destruct v; cbn; lia. Qed.

Lemma dreads_items l fuel :
  Forall (λ v, ∀ fuel, (2 * length (serialize v) <= fuel)%nat →
    dreads (decode_value reserve_error one_past_ok fuel) v (serialize v)) l →
  (2 * length (List.flat_map serialize l) + 1 <= fuel)%nat →
  dreads (decode_items reserve_error one_past_ok fuel (len l)) l (List.flat_map serialize l).
Proof.
  intros Hl. revert fuel. induction Hl as [|v l Hv _ IH]; intros fuel Hf;
    (destruct fuel as [|fuel]; [lia|]); cbn [decode_items List.flat_map] in *.
  - apply dreads_ret.
  - rewrite length_app in Hf. pose proof (serialize_nonempty v).
    rewrite len_cons. pose proof (len_nonneg l).
    rewrite (proj2 (Z.eqb_neq _ _)) by lia.
    replace (1 + len l - 1) with (len l) by lia.
    eapply dreads_bind; [apply Hv; lia|].
    apply (dreads_last _ (cons v)). apply IH. lia.
Qed.

Lemma dreads_entries l m fuel :
  Forall (λ x, len x.1 < 2 ^ 63 ∧
    ∀ fuel, (2 * length (serialize x.2) <= fuel)%nat →
    dreads (decode_value reserve_error one_past_ok fuel) x.2 (serialize x.2)) l →
  StronglySorted key_lt (m ++ l) →
  let e := List.flat_map (λ '(key, val), encode_string key ++ serialize val) l in
  (2 * length e + 1 <= fuel)%nat →
  dreads (decode_entries reserve_error one_past_ok fuel (len l) m) (m ++ l) e.
Proof.
  intros Hl. revert m fuel. induction Hl as [|[k v] l [Hk Hv] _ IH]; intros m fuel Hs e Hf;
    (destruct fuel as [|fuel]; [lia|]); subst e; cbn [decode_entries List.flat_map] in *.
  - rewrite app_nil_r. apply dreads_ret.
  - rewrite !length_app in Hf. pose proof (serialize_nonempty v).
    rewrite len_cons. pose proof (len_nonneg l).
    rewrite (proj2 (Z.eqb_neq _ _)) by lia.
    replace (1 + len l - 1) with (len l) by lia. rewrite <- app_assoc.
    cbn [fst snd] in Hk, Hv.
    eapply dreads_bind; [by apply dreads_string|].
    eapply dreads_bind; [apply Hv; lia|].
    assert (map_set k v m = m ++ [(k, v)]) as ->.
    { apply map_set_append, list.Forall_forall. intros x Hx.
      eapply StronglySorted_app_1_elem_of; [done..|]. apply list_elem_of_here. }
    replace (m ++ (k, v) :: l) with ((m ++ [(k, v)]) ++ l) by by rewrite <- app_assoc.
    apply IH; [by rewrite <- app_assoc|]. cbn in *. lia.
Qed.

Lemma dreads_value v fuel :
  wf reserve_error v → (2 * length (serialize v) <= fuel)%nat →
  dreads (decode_value reserve_error one_past_ok fuel) v (serialize v).
Proof.
  revert fuel. induction v using Serializable_nested_ind; intros fuel Hwf Hf;
    inv Hwf; (destruct fuel as [|fuel]; [cbn in Hf; lia|]);
    cbn [decode_value serialize type_of] in *;
    apply dreads_tag; try (cbn; lia); cbn [type_tag].
  - apply dreads_ret.
  - destruct v.
    + apply (dreads_last _ (λ b, SBool (negb (b =? 0))) _ _ (dreads_byte "001"%byte)).
    + apply (dreads_last _ (λ b, SBool (negb (b =? 0))) _ _ (dreads_byte "000"%byte)).
  - by apply (dreads_last _ SInt), dreads_int.
  - by apply (dreads_last _ SUInt), dreads_uint.
  - by apply (dreads_last _ SFloat), dreads_uint.
  - by apply (dreads_last _ SString), dreads_string.
  - by apply (dreads_last _ SBinary), dreads_binary.
  - eapply dreads_bind; [apply dreads_uint; pose proof (len_nonneg v); split; lia|].
    rewrite <- (app_nil_l (List.flat_map _ _)).
    eapply dreads_bind; [by apply dreads_reserve|].
    apply (dreads_last _ SArray), dreads_items.
    + apply list.Forall_forall. intros x Hx. rewrite list.Forall_forall in *. eauto.
    + rewrite !length_app in Hf. unfold encode_uint in Hf.
      rewrite length_le_bytes in Hf. lia.
  - eapply dreads_bind; [apply dreads_uint; pose proof (len_nonneg v); split; lia|].
    apply (dreads_last _ SMap), (dreads_entries v []); [|done|].
    + apply list.Forall_forall. intros x Hx. rewrite list.Forall_forall in *.
      match goal with H : ∀ x, x ∈ v → _ ∧ wf _ _ |- _ => destruct (H x Hx) end. eauto.
    + rewrite !length_app in Hf. unfold encode_uint in Hf.
      rewrite length_le_bytes in Hf. lia.
Qed.

End decoder_reads.

(** ** Totality and type soundness of the decoder *)

Section decoder_safe.
Context (reserve_error : Z → option error) (one_past_ok : bool).

(** [r] at [(d, o)] does not run out of fuel, and what it returns satisfies
    [Q]. *)
Definition dspec {A} (r : decoder A) (d : bytes) (o : Z) (Q : A → Z → Prop) : Prop :=
  match r d o with
  | Some (Ok (x, o')) => Q x o'
  | Some _ => True
  | None => False
  end.

Lemma dspec_bind {A B} (r : decoder A) (f : A → decoder B) d o Q R :
  dspec r d o R → (∀ x o', R x o' → dspec (f x) d o' Q) → dspec (r ≫= f) d o Q.
Proof.
  unfold dspec, mbind, decoder_bind. intros Hr Hf.
  destruct (r d o) as [[[x o']|e|]|]; try done. by apply Hf.
Qed.

Lemma dspec_ret {A} (x : A) d o (Q : A → Z → Prop) : Q x o → dspec (mret x) d o Q.
Proof. done. Qed.

Lemma dspec_mono {A} (r : decoder A) d o (Q R : A → Z → Prop) :
  dspec r d o R → (∀ x o', R x o' → Q x o') → dspec r d o Q.
Proof.
  unfold dspec. intros Hr HQ. destruct (r d o) as [[[x o']|e|]|]; auto.
Qed.

(** An offset inside the input. *)
Definition in_input (d : bytes) (o : Z) : Prop := 0 <= o <= len d ∧ len d < 2 ^ 63.

Lemma dspec_byte d o :
  in_input d o → dspec decode_byte d o (λ _ o', o' = o + 1 ∧ in_input d o').
Proof.
  intros [Ho Hd]. unfold dspec, decode_byte.
  destruct (len d <=? o) eqn:E; [done|]. bool_to_prop.
  destruct (d !! Z.to_nat o); [|done].
  rewrite wrap_small by (unfold in_u; lia). unfold in_input. lia.
Qed.

Lemma dspec_uint d o :
  in_input d o →
  dspec decode_uint d o (λ n o', in_u 64 n ∧ o' = o + 8 ∧ in_input d o').
Proof.
  intros [Ho Hd]. unfold dspec, decode_uint.
  rewrite wrap_small by (unfold in_u; lia).
  destruct (_ <? _) eqn:E; [done|]. destruct (_ <=? _) eqn:E'; [|done]. bool_to_prop.
  split; [apply wrap_range; lia|]. unfold in_input. lia.
Qed.

Lemma dspec_run n d o (r : decoder bytes) :
  in_input d o → in_u 64 n →
  (r = string_at one_past_ok n ∨ r = binary_at n) →
  dspec r d o (λ v o', len v < 2 ^ 63 ∧ o <= o' ∧ in_input d o').
Proof.
  intros [Ho Hd] [Hn _] Hr.
  assert (r d o = Some (Ok (sub d o n, u64 (o + n))) ∧ o + n <= len d ∨
          r d o = Some Undef ∨ ∃ e, r d o = Some (Err e)) as Hcases.
  { destruct Hr as [-> | ->]; unfold string_at, binary_at;
      repeat case_match; bool_to_prop; eauto. }
  unfold dspec. destruct Hcases as [[-> Hl] | [-> | [e ->]]]; [|done..].
  rewrite len_sub, wrap_small by (unfold in_u; lia). unfold in_input. lia.
Qed.

Lemma dspec_string d o :
  in_input d o →
  dspec (decode_string one_past_ok) d o (λ v o', len v < 2 ^ 63 ∧ o <= o' ∧ in_input d o').
Proof.
  intros Ho. eapply dspec_bind; [by apply dspec_uint|]. intros n o' (Hn & -> & Ho').
  eapply dspec_mono; [apply (dspec_run n); [done|done|by left]|]. cbn. intros. intuition lia.
Qed.

Lemma dspec_binary d o :
  in_input d o →
  dspec decode_binary d o (λ v o', len v < 2 ^ 63 ∧ o <= o' ∧ in_input d o').
Proof.
  intros Ho. eapply dspec_bind; [by apply dspec_uint|]. intros n o' (Hn & -> & Ho').
  eapply dspec_mono; [apply (dspec_run n); [done|done|by right]|]. cbn. intros. intuition lia.
Qed.

Lemma dspec_reserve n d o :
  in_input d o →
  dspec (reserve reserve_error n) d o (λ _ o', reserve_error n = None ∧ o' = o).
Proof. intros _. unfold reserve. by destruct (reserve_error n) eqn:E. Qed.

(** The room a decoder has, and the fuel that is enough for it. *)
Definition room (d : bytes) (o : Z) : nat := Z.to_nat (len d - o).

Definition value_ok (d : bytes) (o : Z) (v : Serializable) (o' : Z) : Prop :=
  wf reserve_error v ∧ o < o' ∧ in_input d o'.

Definition items_ok (d : bytes) (o n : Z) (l : list Serializable) (o' : Z) : Prop :=
  len l = n ∧ Forall (wf reserve_error) l ∧ o <= o' ∧ in_input d o'.

Definition entry_ok (x : bytes * Serializable) : Prop :=
  len x.1 < 2 ^ 63 ∧ wf reserve_error x.2.

Definition entries_ok (d : bytes) (o n : Z) (l : list (bytes * Serializable)) (o' : Z) : Prop :=
  len l <= n ∧ StronglySorted key_lt l ∧ Forall entry_ok l ∧ o <= o' ∧ in_input d o'.

(** What the three mutually recursive loops promise on [fuel]. *)
Definition value_spec (fuel : nat) : Prop := ∀ d o,
  in_input d o → (2 * room d o + 1 <= fuel)%nat →
  dspec (decode_value reserve_error one_past_ok fuel) d o (value_ok d o).

Definition items_spec (fuel : nat) : Prop := ∀ d o n,
  in_input d o → (2 * room d o + 2 <= fuel)%nat → in_u 64 n →
  dspec (decode_items reserve_error one_past_ok fuel n) d o (items_ok d o n).

Definition entries_spec (fuel : nat) : Prop := ∀ d o n m,
  in_input d o → (2 * room d o + 2 <= fuel)%nat → in_u 64 n →
  StronglySorted key_lt m → Forall entry_ok m →
  dspec (decode_entries reserve_error one_past_ok fuel n m) d o
    (entries_ok d o (len m + n)).

Lemma room_lt d o o' k :
  in_input d o' → 0 <= o → o + Z.of_nat k <= o' → (room d o' + k <= room d o)%nat.
Proof. unfold room, in_input. lia. Qed.

Lemma len_map_set k v m : len (map_set k v m) <= len m + 1.
Proof.
  induction m as [|[k' v'] m IH]; cbn [map_set]; rewrite ?len_cons; [done|].
  repeat case_match; rewrite ?len_cons; lia.
Qed.

Lemma value_step fuel : items_spec fuel → entries_spec fuel → value_spec (S fuel).
Proof.
  intros HI HE d o Ho Hf. cbn [decode_value].
  eapply dspec_bind; [by apply dspec_byte|]. intros tag o1 (-> & Ho1). unfold value_ok.
  assert (Hscalar : ∀ A (r : decoder A) (g : A → Serializable) (R : A → Prop),
    dspec r d (o + 1) (λ x o', R x ∧ o + 1 <= o' ∧ in_input d o') →
    (∀ x, R x → wf reserve_error (g x)) →
    dspec (x ← r; mret (g x)) d (o + 1) (λ v o', wf reserve_error v ∧ o < o' ∧ in_input d o')).
  { intros A r g R Hr Hg. eapply dspec_bind; [done|]. intros x o' (? & ? & ?).
    apply dspec_ret. split_and!; [auto|lia|done]. }
  assert (Huint : dspec decode_uint d (o + 1)
    (λ n o', in_u 64 n ∧ o + 1 <= o' ∧ in_input d o')).
  { eapply dspec_mono; [by apply dspec_uint|]. cbn. intros. intuition lia. }
  destruct tag as [|t|t]; [apply dspec_ret; split_and!; [constructor|lia|done]| |done].
  do 4 (try (destruct t as [t|t|]; try done)).
  - eapply dspec_bind; [done|]. intros n o2 (Hn & Ho2 & Hin).
    eapply dspec_bind; [by apply dspec_reserve|]. intros _ o3 [Hres ->].
    eapply dspec_bind.
    { apply HI; [done| |done]. pose proof (room_lt d o o2 1 Hin). unfold in_input in *. lia. }
    intros l o3 (Hl & Hwf & ? & ?). apply dspec_ret. split_and!; [|lia|done].
    unfold in_u in Hn. by constructor; [lia|rewrite Hl|].
  - by eapply Hscalar; [apply dspec_string|constructor].
  - by eapply Hscalar; [done|constructor].
  - by eapply Hscalar; [apply dspec_binary|constructor].
  - eapply dspec_bind; [done|]. intros n o2 (Hn & Ho2 & Hin).
    eapply dspec_bind.
    { apply HE; [done| |done|constructor|constructor].
      pose proof (room_lt d o o2 1 Hin). unfold in_input in *. lia. }
    intros l o3 (Hl & Hs & Hwf & ? & ?). apply dspec_ret. split_and!; [|lia|done].
    change (len []) with 0 in Hl. unfold in_u in Hn. constructor; [lia|done|done].
  - by eapply Hscalar; [done|constructor].
  - eapply (Hscalar _ decode_int SInt (in_s 64)); [|by constructor].
    eapply dspec_bind; [done|]. intros n o2 (? & ? & ?). apply dspec_ret.
    split_and!; [apply swrap_range; lia|done|done].
  - eapply (Hscalar _ decode_byte (λ b, SBool (negb (b =? 0))) (λ _, True)); [|by constructor].
    eapply dspec_mono; [by apply dspec_byte|]. cbn. intros ? ? (-> & ?). split_and!; [done|lia|done].
Qed.

Lemma items_step fuel : value_spec fuel → items_spec fuel → items_spec (S fuel).
Proof.
  intros HV HI d o n Ho Hf Hn. cbn [decode_items]. unfold items_ok, in_u in *.
  destruct (n =? 0) eqn:E; bool_to_prop.
  { apply dspec_ret. subst. split_and!; [done|constructor|lia|done]. }
  eapply dspec_bind; [apply HV; [done|lia]|]. intros v o1 (Hv & Ho1 & Hin).
  eapply dspec_bind.
  { apply HI; [done| |unfold in_u; lia].
    pose proof (room_lt d o o1 1 Hin). unfold in_input in *. lia. }
  intros l o2 (Hl & Hwf & ? & ?). apply dspec_ret. rewrite len_cons.
  split_and!; [lia|by constructor|lia|done].
Qed.

Lemma entries_step fuel : value_spec fuel → entries_spec fuel → entries_spec (S fuel).
Proof.
  intros HV HE d o n m Ho Hf Hn Hs Hm. cbn [decode_entries]. unfold entries_ok, in_u in *.
  destruct (n =? 0) eqn:E; bool_to_prop.
  { apply dspec_ret. subst. split_and!; [lia|done|done|lia|done]. }
  eapply dspec_bind; [by apply dspec_string|]. intros k o1 (Hk & Ho1 & Hin1).
  eapply dspec_bind.
  { apply HV; [done|]. pose proof (room_lt d o o1 0 Hin1). unfold in_input in *. lia. }
  intros v o2 (Hv & Ho2 & Hin2).
  eapply dspec_mono.
  { apply HE; [done| |unfold in_u; lia|by apply map_set_sorted|].
    - pose proof (room_lt d o o2 1 Hin2). unfold in_input in *. lia.
    - apply list.Forall_forall. intros x [-> | Hx]%elem_of_map_set; [done|].
      by eapply list.Forall_forall in Hm. }
  intros l o3 (Hl & ? & ? & ? & ?). pose proof (len_map_set k v m).
  split_and!; [lia|done|done|lia|done].
Qed.

Lemma decode_spec fuel : value_spec fuel ∧ items_spec fuel ∧ entries_spec fuel.
Proof.
  induction fuel as [|fuel (HV & HI & HE)].
  - split_and!; intros ? *; lia.
  - split_and!; auto using value_step, items_step, entries_step.
Qed.

End decoder_safe.

(** ** Properties *)

Definition sample_value : Serializable :=
  SMap [(str "id", SBinary (str "xyz")); (str "n", SInt (-5));
        (str "peers", SArray [SUInt 7; SString (str ""); SNull; SBool true])].

(** A length close to [2 ^ 64] wraps [offset + size], and the bounds check lets it
    through. *)
Lemma binary_length_wraps n reserve_error one_past_ok :
  2 ^ 64 - 9 <= n < 2 ^ 64 →
  deserialize reserve_error one_past_ok (encode_type Binary ++ encode_uint n) = Some Undef.
Proof.
  intros Hn. set (d := encode_type Binary ++ encode_uint n).
  assert (Hl : len d = 9) by (unfold d, encode_uint; rewrite len_app, len_le_bytes; done).
  assert (Hb : decode_binary d 1 = Some Undef).
  { unfold decode_binary, mbind, decoder_bind.
    pose proof (dreads_uint true n ltac:(unfold in_u; lia) (encode_type Binary) []) as Hu.
    rewrite app_nil_r in Hu. fold d in Hu. change (len (encode_type Binary)) with 1 in Hu.
    rewrite Hu by (by rewrite ?Hl || by left).
    unfold encode_uint, binary_at. rewrite len_le_bytes, Hl.
    rewrite (Z.add_comm _ n). change (1 + Z.of_nat 8) with 9.
    assert (u64 (n + 9) = n + 9 - 2 ^ 64) as ->.
    { unfold wrap. rewrite <- (Z_mod_plus_full (n + 9) (-1)).
      rewrite Z.mod_small; lia. }
    rewrite (proj2 (Z.ltb_ge _ _)), (proj2 (Z.leb_gt _ _)) by lia. done. }
  unfold deserialize, enough_fuel.
  assert (length d = 9%nat) as -> by (unfold len in Hl; lia).
  change (decode_value reserve_error one_past_ok (2 * 9 + 1) d 0)
    with ((v ← decode_binary; mret (SBinary v)) d 1).
  unfold mbind at 1, decoder_bind at 1. by rewrite Hb.
Qed.

(** Deserialising any input ends, within fuel twice its length, and a value it returns is
    well formed; a nine-byte input with a length near [2 ^ 64] is read out of bounds. *)
Lemma deserialize_total reserve_error one_past_ok d :
  vector_fits d →
  (∃ r, deserialize reserve_error one_past_ok d = Some r ∧
    ∀ v, r = Ok v → wf reserve_error v) ∧
  ∃ short, len short = 9 ∧ deserialize reserve_error one_past_ok short = Some Undef.
Proof.
  unfold vector_fits. intros Hd. split; [|exists (encode_type Binary ++ encode_uint (2 ^ 64 - 1));
    split; [done|apply binary_length_wraps; lia]]. pose proof (len_nonneg d).
  destruct (decode_spec reserve_error one_past_ok (enough_fuel d)) as [Hv _].
  specialize (Hv d 0). unfold deserialize.
  specialize (Hv ltac:(unfold in_input; lia)).
  specialize (Hv ltac:(unfold room, enough_fuel, len; lia)).
  unfold dspec in Hv. destruct (decode_value _ _ _ d 0) as [[[v o]|e|]|]; [..|done].
  - exists (Ok v). split; [done|]. intros ? [= <-]. apply Hv.
  - by exists (Err e).
  - by exists Undef.
Qed.

(** C40: a well-formed value is read back from its encoding, whatever follows it;
    deserialising any input ends, within fuel twice its length, and a value it returns
    is well formed; a nine-byte input with a length near [2 ^ 64] passes the check of
    its bounds, whose sum wraps, and a range that is no range of the input is copied,
    which is undefined. *)
Theorem deserialize_serialize reserve_error one_past_ok :
  (∀ v tail, wf reserve_error v → len (serialize v ++ tail) < 2 ^ 63 →
     one_past_ok = true ∨ tail ≠ [] →
     deserialize reserve_error one_past_ok (serialize v ++ tail) = Some (Ok v)) ∧
  (∀ d, vector_fits d →
     ∃ r, deserialize reserve_error one_past_ok d = Some r ∧
       ∀ v, r = Ok v → wf reserve_error v) ∧
  ∃ short, len short = 9 ∧ deserialize reserve_error one_past_ok short = Some Undef.
Proof.
  split; [|split].
  - intros v tail Hwf Hl Ht. unfold deserialize.
    pose proof (dreads_value reserve_error one_past_ok v
      (enough_fuel (serialize v ++ tail)) Hwf) as Hr.
    specialize (Hr ltac:(unfold enough_fuel; rewrite length_app; lia) [] tail Hl Ht).
    change (len []) with 0 in Hr. cbn [app] in Hr. by rewrite Hr.
  - intros d Hd. by apply deserialize_total.
  - by apply (deserialize_total _ _ []).
Qed.

Lemma deserialize_serialize_witness :
  deserialize (λ _, None) true (serialize sample_value ++ []) = Some (Ok sample_value) ∧
  ∃ r, deserialize (λ _, None) true (str "garbage") = Some r ∧
    ∀ v, r = Ok v → wf (λ _, None) v.
Proof.
  destruct (deserialize_serialize (λ _, None) true) as (H1 & H2 & _). split.
  - apply H1; [|by vm_compute|by left].
    repeat (constructor; try done); try (split; try done; cbn);
      repeat (constructor; try done).
  - apply H2. by vm_compute.
Defined.

