(* ===== verification/Key.v ===== *)
(** Participation keys and the signed records about them: the data types of
    src/core/keys/key.hpp with their operations and wire formats
    (src/core/keys/key.cpp).

    [Key], [KeyTransfer] and [KeyVouch] are stored and signed as packed
    little-endian records; the instances at the end give each the [Codec]
    interface.  The wall clock is an argument of what reads it, and the static
    nonce counter of [Key::create] is threaded explicitly. *)

From Stdlib Require Import Strings.Byte.
From S2P Require Import Prelude Reader Common Crypto.

(** ** Key types *)

(** [enum class KeyType : uint8_t]: the underlying byte, so that the values a
    [static_cast] produces from the wire are all there. *)
Abbreviation KeyType := Byte.byte.

Definition IDENTITY : KeyType := "001"%byte.
Definition NODE : KeyType := "002"%byte.
Definition NETWORK : KeyType := "003"%byte.
Definition SERVICE : KeyType := "004"%byte.
Definition ROUTING : KeyType := "005"%byte.

Definition key_type_to_string (type : KeyType) : bytes :=
  if decide (type = IDENTITY) then str "identity"
  else if decide (type = NODE) then str "node"
  else if decide (type = NETWORK) then str "network"
  else if decide (type = SERVICE) then str "service"
  else if decide (type = ROUTING) then str "routing"
  else str "unknown".

Definition key_type_from_string (s : bytes) : option KeyType :=
  if decide (s = str "identity") then Some IDENTITY
  else if decide (s = str "node") then Some NODE
  else if decide (s = str "network") then Some NETWORK
  else if decide (s = str "service") then Some SERVICE
  else if decide (s = str "routing") then Some ROUTING
  else None.

(** ** Keys *)

Record Key := MkKey {
  key_type : KeyType;
  owner_id : NodeID;
  issued_timestamp : Z;
  last_used_timestamp : Z;
  source : bytes;
  key_nonce : Z
}.

#[export] Instance Key_eq_dec : EqDecision Key.
Proof. solve_decision. Defined.

Definition DECAY_PERIOD_SECONDS : Z := 86400 * 30.

(** [Key::create], with the static counter before and after. *)
Definition key_create (type : KeyType) (owner : NodeID) (issued : Z) (src : bytes)
    (counter : Z) : Key * Z :=
  (MkKey type owner issued issued src counter, u64 (counter + 1)).

Definition mark_used (k : Key) (current_time : Z) : Key :=
  MkKey (key_type k) (owner_id k) (issued_timestamp k) current_time (source k)
    (key_nonce k).

(** The age is a difference of [uint64_t]s. *)
Definition has_decayed (k : Key) (current_time : Z) : bool :=
  let age := u64 (current_time - last_used_timestamp k) in
  DECAY_PERIOD_SECONDS <=? age.

Definition time_until_decay (k : Key) (current_time : Z) : Z :=
  if has_decayed k current_time then 0
  else
    let age := u64 (current_time - last_used_timestamp k) in
    u64 (DECAY_PERIOD_SECONDS - age).

Definition key_serialize (k : Key) : bytes :=
  [key_type k] ++ arr (owner_id k) ++ le_bytes 8 (issued_timestamp k) ++
  le_bytes 8 (last_used_timestamp k) ++ le_bytes 4 (len (source k)) ++ source k ++
  le_bytes 8 (key_nonce k).

Definition key_reader (W : Z) : reader Key :=
  type_val ← read_scalar W 1;
  owner ← read_blob W 32;
  issued ← read_scalar W 8;
  last_used ← read_scalar W 8;
  source_len ← read_scalar W 4;
  src ← read_string W source_len;
  nonce ← read_scalar W 8;
  mret (MkKey (to_byte type_val) owner issued last_used src nonce).

Definition key_deserialize (data : bytes) : option Key :=
  to_optional (run_reader (key_reader 64) data).

(** The text [get_key_id] hashes. *)
Definition key_material (k : Key) : bytes :=
  key_type_to_string (key_type k) ++ str "_" ++ hash_to_hex (owner_id k) ++ str "_" ++
  dec (issued_timestamp k) ++ str "_" ++ dec (key_nonce k).

Definition get_key_id `{Crypto} (k : Key) : bytes :=
  hash_to_hex (blake3 (key_material k)).

(** ** Transfers *)

Record KeyTransfer := MkKeyTransfer {
  kt_key_id : bytes;
  from_node : NodeID;
  to_node : NodeID;
  kt_key_type : KeyType;
  transfer_timestamp : Z;
  reason : bytes;
  from_signature : Signature
}.

#[export] Instance KeyTransfer_eq_dec : EqDecision KeyTransfer.
Proof. solve_decision. Defined.

(** The fields before the signature; [verify_signature] builds them again. *)
Definition transfer_message (t : KeyTransfer) : bytes :=
  le_bytes 4 (len (kt_key_id t)) ++ kt_key_id t ++ arr (from_node t) ++ arr (to_node t) ++
  [kt_key_type t] ++ le_bytes 8 (transfer_timestamp t) ++
  le_bytes 4 (len (reason t)) ++ reason t.

Definition transfer_to_bytes (t : KeyTransfer) : bytes :=
  transfer_message t ++ arr (from_signature t).

Definition transfer_reader (W : Z) : reader KeyTransfer :=
  key_id_len ← read_scalar W 4;
  key_id ← read_string W key_id_len;
  from ← read_blob W 32;
  to ← read_blob W 32;
  type_val ← read_scalar W 1;
  timestamp ← read_scalar W 8;
  reason_len ← read_scalar W 4;
  why ← read_string W reason_len;
  sg ← read_blob W 64;
  mret (MkKeyTransfer key_id from to (to_byte type_val) timestamp why sg).

Definition transfer_from_bytes (data : bytes) : option KeyTransfer :=
  to_optional (run_reader (transfer_reader 64) data).

Definition transfer_verify_signature `{Crypto} (t : KeyTransfer) (pk : PublicKey) : bool :=
  Ed25519.verify (transfer_message t) (from_signature t) pk.

(** ** Vouches *)

Record KeyVouch := MkKeyVouch {
  voucher : NodeID;
  vouchee : NodeID;
  kv_key_type : KeyType;
  key_count : Z;
  vouch_timestamp : Z;
  statement : bytes;
  voucher_signature : Signature
}.

#[export] Instance KeyVouch_eq_dec : EqDecision KeyVouch.
Proof. solve_decision. Defined.

Definition vouch_message (v : KeyVouch) : bytes :=
  arr (voucher v) ++ arr (vouchee v) ++ [kv_key_type v] ++ le_bytes 4 (key_count v) ++
  le_bytes 8 (vouch_timestamp v) ++ le_bytes 4 (len (statement v)) ++ statement v.

Definition vouch_to_bytes (v : KeyVouch) : bytes :=
  vouch_message v ++ arr (voucher_signature v).

Definition vouch_reader (W : Z) : reader KeyVouch :=
  from ← read_blob W 32;
  for_node ← read_blob W 32;
  type_val ← read_scalar W 1;
  count ← read_scalar W 4;
  timestamp ← read_scalar W 8;
  statement_len ← read_scalar W 4;
  text ← read_string W statement_len;
  sg ← read_blob W 64;
  mret (MkKeyVouch from for_node (to_byte type_val) count timestamp text sg).

Definition vouch_from_bytes (data : bytes) : option KeyVouch :=
  to_optional (run_reader (vouch_reader 64) data).

Definition vouch_verify_signature `{Crypto} (v : KeyVouch) (pk : PublicKey) : bool :=
  Ed25519.verify (vouch_message v) (voucher_signature v) pk.

(** ** What the formats can carry *)

(** Integer fields hold values of their C++ types, and the 32-bit length
    fields do not truncate. *)
Definition key_encodable (k : Key) : Prop :=
  in_u 64 (issued_timestamp k) ∧ in_u 64 (last_used_timestamp k) ∧
  in_u 32 (len (source k)) ∧ in_u 64 (key_nonce k).

Definition transfer_encodable (t : KeyTransfer) : Prop :=
  in_u 32 (len (kt_key_id t)) ∧ in_u 64 (transfer_timestamp t) ∧ in_u 32 (len (reason t)).

Definition vouch_encodable (v : KeyVouch) : Prop :=
  in_u 32 (key_count v) ∧ in_u 64 (vouch_timestamp v) ∧ in_u 32 (len (statement v)).

(** ** The parsers read what the writers write *)

Lemma reads_key k : key_encodable k → reads 64 (key_reader 64) k (key_serialize k).
Proof.
  intros (? & ? & ? & ?). unfold key_reader, key_serialize.
  reads_fields. 
  rewrite to_byte_val. destruct k. apply reads_ret.
Qed.

Lemma consumes_key : consumes (key_reader 64) (λ k e, e = key_serialize k ∧ key_encodable k).
Proof.
  eapply consumes_mono; [unfold key_reader; consumes_fields|].
  intros k e Hk. cbv beta in Hk. open_fields.
  unfold key_serialize, key_encodable. cbn [key_type owner_id issued_timestamp
    last_used_timestamp source key_nonce].
  rewrite <- !le_bytes_1, !app_nil_r. eauto.
Qed.

Lemma reads_transfer t :
  transfer_encodable t → reads 64 (transfer_reader 64) t (transfer_to_bytes t).
Proof.
  intros (? & ? & ?). unfold transfer_reader, transfer_to_bytes, transfer_message.
  rewrite <- !app_assoc. pose proof (len_nonneg (kt_key_id t)). reads_fields.
  rewrite to_byte_val. destruct t. apply reads_ret.
Qed.

Lemma consumes_transfer :
  consumes (transfer_reader 64) (λ t e, e = transfer_to_bytes t ∧ transfer_encodable t).
Proof.
  eapply consumes_mono; [unfold transfer_reader; consumes_fields|].
  intros t e Ht. cbv beta in Ht. open_fields.
  unfold transfer_to_bytes, transfer_message, transfer_encodable.
  cbn [kt_key_id from_node to_node kt_key_type transfer_timestamp reason from_signature].
  rewrite <- !le_bytes_1, !app_nil_r, <- !app_assoc. eauto.
Qed.

Lemma reads_vouch v :
  vouch_encodable v → reads 64 (vouch_reader 64) v (vouch_to_bytes v).
Proof.
  intros (? & ? & ?). unfold vouch_reader, vouch_to_bytes, vouch_message.
  rewrite <- !app_assoc. reads_fields.
  rewrite to_byte_val. destruct v. apply reads_ret.
Qed.

Lemma consumes_vouch :
  consumes (vouch_reader 64) (λ v e, e = vouch_to_bytes v ∧ vouch_encodable v).
Proof.
  eapply consumes_mono; [unfold vouch_reader; consumes_fields|].
  intros v e Hv. cbv beta in Hv. open_fields.
  unfold vouch_to_bytes, vouch_message, vouch_encodable.
  cbn [voucher vouchee kv_key_type key_count vouch_timestamp statement voucher_signature].
  rewrite <- !le_bytes_1, !app_nil_r, <- !app_assoc. eauto.
Qed.

(** ** Codec instances *)

#[export] Instance Key_codec : Codec Key :=
  {| encode := key_serialize; decode := key_deserialize; encodable := key_encodable |}.
#[export] Instance KeyTransfer_codec : Codec KeyTransfer :=
  {| encode := transfer_to_bytes; decode := transfer_from_bytes;
     encodable := transfer_encodable |}.
#[export] Instance KeyVouch_codec : Codec KeyVouch :=
  {| encode := vouch_to_bytes; decode := vouch_from_bytes;
     encodable := vouch_encodable |}.

#[export] Instance Key_codec_laws : CodecLaws Key.
Proof. by apply (reader_codec_laws _ (key_reader 64)); [|apply reads_key|apply consumes_key]. Qed.
#[export] Instance KeyTransfer_codec_laws : CodecLaws KeyTransfer.
Proof.
  by apply (reader_codec_laws _ (transfer_reader 64));
    [|apply reads_transfer|apply consumes_transfer].
Qed.
#[export] Instance KeyVouch_codec_laws : CodecLaws KeyVouch.
Proof.
  by apply (reader_codec_laws _ (vouch_reader 64)); [|apply reads_vouch|apply consumes_vouch].
Qed.

(** ** Memory safety *)

Lemma safe_key : safe_at 64 0 (key_reader 64) (λ _, True).
Proof. unfold key_reader. safe_fields. Qed.

Lemma safe_transfer : safe_at 64 0 (transfer_reader 64) (λ _, True).
Proof. unfold transfer_reader. safe_fields. Qed.

Lemma safe_vouch : safe_at 64 0 (vouch_reader 64) (λ _, True).
Proof. unfold vouch_reader. safe_fields. Qed.

(** ** Key identifiers *)

(** The type is one the enumeration names. *)
Definition known_type (t : KeyType) : Prop :=
  t = IDENTITY ∨ t = NODE ∨ t = NETWORK ∨ t = SERVICE ∨ t = ROUTING.

#[export] Instance known_type_dec t : Decision (known_type t).
Proof. unfold known_type. apply _. Defined.

Lemma key_type_string_roundtrip t :
  known_type t → key_type_from_string (key_type_to_string t) = Some t.
Proof. by intros [-> | [-> | [-> | [-> | ->]]]]. Qed.

Lemma sep_not_in_type t : "_"%byte ∉ key_type_to_string t.
Proof.
  rewrite list_elem_of_In. unfold key_type_to_string.
  repeat case_decide; vm_compute; intuition congruence.
Qed.

Lemma sep_not_in_dec z : "_"%byte ∉ dec z.
Proof.
  intros Hin. pose proof (dec_digits_range 20 z) as Hr.
  rewrite list.Forall_forall in Hr. apply Hr in Hin. vm_compute in Hin. by destruct Hin.
Qed.

Lemma key_material_inj k1 k2 :
  known_type (key_type k1) → known_type (key_type k2) →
  in_u 64 (issued_timestamp k1) → in_u 64 (issued_timestamp k2) →
  in_u 64 (key_nonce k1) → in_u 64 (key_nonce k2) →
  key_material k1 = key_material k2 →
  key_type k1 = key_type k2 ∧ owner_id k1 = owner_id k2 ∧
  issued_timestamp k1 = issued_timestamp k2 ∧ key_nonce k1 = key_nonce k2.
Proof.
  intros Ht1 Ht2 ? ? ? ? E. unfold key_material in E.
  change (str "_") with ["_"%byte] in E. cbn [app] in E.
  apply app_sep_inj in E as [Et E]; [|apply sep_not_in_type..].
  apply app_inj_1 in E as [Eo E]; [|by rewrite !length_hash_to_hex].
  injection E as E. apply app_sep_inj in E as [Ei E%dec_inj]; [|done|done|apply sep_not_in_dec..].
  apply (f_equal key_type_from_string) in Et.
  rewrite !key_type_string_roundtrip in Et by done.
  apply hash_to_hex_inj in Eo. apply dec_inj in Ei; [|done..].
  by injection Et.
Qed.

(** ** Properties *)

Definition sample_node (n : Z) : NodeID := array_fill 32 (to_byte n).

Definition alice : NodeID := sample_node 1.
Definition bob : NodeID := sample_node 2.
Definition carol : NodeID := sample_node 3.

Definition sample_key : Key :=
  MkKey SERVICE (sample_node 7) 1700000000 1700000600 (str "postake") 42.

(** With a 64-bit [size_t] the parsers of keys, transfers and vouches never read past the
    end of their input; with a 32-bit one the sum in the bounds check of the key parser
    wraps and an input exists on which it does. *)
Lemma key_parsers_memory_safe :
  (∀ d, vector_fits d →
     run_reader (key_reader 64) d ≠ Undef ∧ run_reader (transfer_reader 64) d ≠ Undef ∧
     run_reader (vouch_reader 64) d ≠ Undef) ∧
  ∃ d, len d < 2 ^ 31 ∧ run_reader (key_reader 32) d = Undef ∧
       run_reader (key_reader 64) d = Err ENullopt.
Proof.
  split.
  - intros d Hd. pose proof (len_nonneg d).
    split_and!; (eapply safe_run;
      [first [apply safe_key | apply safe_transfer | apply safe_vouch]|done|done]).
  - exists (replicate 49 "000"%byte ++ le_bytes 4 (2 ^ 32 - 1)). split_and!; by vm_compute.
Qed.

(** A key, a transfer or a vouch is read back from its bytes, whatever follows them, and
    bytes that parse start with the encoding of the parsed record; with a 64-bit [size_t]
    no parser reads past the end of its input, while with a 32-bit one an input exists on
    which the key parser does. *)
Theorem key_records_codec d :
  (∀ k tail, key_encodable k → vector_fits (key_serialize k ++ tail) →
     key_deserialize (key_serialize k ++ tail) = Some k) ∧
  (∀ t tail, transfer_encodable t → vector_fits (transfer_to_bytes t ++ tail) →
     transfer_from_bytes (transfer_to_bytes t ++ tail) = Some t) ∧
  (∀ v tail, vouch_encodable v → vector_fits (vouch_to_bytes v ++ tail) →
     vouch_from_bytes (vouch_to_bytes v ++ tail) = Some v) ∧
  (∀ k, key_deserialize d = Some k →
     ∃ tail, d = key_serialize k ++ tail ∧ key_encodable k) ∧
  (∀ t, transfer_from_bytes d = Some t →
     ∃ tail, d = transfer_to_bytes t ++ tail ∧ transfer_encodable t) ∧
  (∀ v, vouch_from_bytes d = Some v →
     ∃ tail, d = vouch_to_bytes v ++ tail ∧ vouch_encodable v) ∧
  (vector_fits d →
   run_reader (key_reader 64) d ≠ Undef ∧ run_reader (transfer_reader 64) d ≠ Undef ∧
   run_reader (vouch_reader 64) d ≠ Undef) ∧
  ∃ short, len short < 2 ^ 31 ∧ run_reader (key_reader 32) short = Undef ∧
           run_reader (key_reader 64) short = Err ENullopt.
Proof.
  split_and!; try apply key_parsers_memory_safe.
  - intros k tail. exact (decode_encode k tail).
  - intros t tail. exact (decode_encode t tail).
  - intros v tail. exact (decode_encode v tail).
  - intros k. exact (decode_sound d k).
  - intros t. exact (decode_sound d t).
  - intros v. exact (decode_sound d v).
Qed.

Lemma key_records_codec_witness :
  key_deserialize (key_serialize sample_key ++ str "tail") = Some sample_key ∧
  (∃ tail, key_serialize sample_key = key_serialize sample_key ++ tail ∧
           key_encodable sample_key) ∧
  run_reader (key_reader 64) (key_serialize sample_key) ≠ Undef.
Proof.
  destruct (key_records_codec (key_serialize sample_key)) as (H1 & _ & _ & H2 & _ & _ & H3 & _).
  split_and!.
  - apply H1; [|by vm_compute]. unfold key_encodable. split_and!; by vm_compute.
  - apply H2. refine (decode_encode_exact sample_key _ _); [split_and!|]; by vm_compute.
  - apply H3. by vm_compute.
Defined.

(** A key decays exactly thirty days after its last use, the remaining time is the exact
    difference, using it restarts the period, and a last use in the future of the clock
    reads as decayed. *)
Theorem key_decay_schedule k now :
  in_u 64 now → in_u 64 (last_used_timestamp k) →
  (last_used_timestamp k <= now →
     (has_decayed k now = true ↔ last_used_timestamp k + DECAY_PERIOD_SECONDS <= now) ∧
     time_until_decay k now =
       Z.max 0 (last_used_timestamp k + DECAY_PERIOD_SECONDS - now)) ∧
  (∀ later, now <= later < 2 ^ 64 →
     has_decayed (mark_used k now) later = true ↔ now + DECAY_PERIOD_SECONDS <= later) ∧
  (now < last_used_timestamp k →
     last_used_timestamp k - now <= 2 ^ 64 - DECAY_PERIOD_SECONDS →
     has_decayed k now = true ∧ time_until_decay k now = 0).
Proof.
  unfold in_u. intros Hnow Hk. split; [|split].
  - intros Hl. unfold time_until_decay, has_decayed, DECAY_PERIOD_SECONDS.
    rewrite !(wrap_small 64 (now - _)) by (unfold in_u; lia). split.
    + rewrite Z.leb_le. lia.
    + destruct (_ <=? _) eqn:E; bool_to_prop; [lia|].
      rewrite wrap_small by (unfold in_u; lia). lia.
  - intros later Hlater. unfold has_decayed, mark_used, DECAY_PERIOD_SECONDS.
    cbn [last_used_timestamp]. rewrite wrap_small by (unfold in_u; lia).
    rewrite Z.leb_le. lia.
  - intros Hlt Hs. assert (Hd : has_decayed k now = true).
    { unfold has_decayed. rewrite wrap_neg by (unfold in_u; lia). rewrite Z.leb_le. lia. }
    unfold time_until_decay. by rewrite Hd.
Qed.

Lemma key_decay_schedule_witness :
  has_decayed sample_key 1700000599 = true ∧ time_until_decay sample_key 1700000599 = 0.
Proof.
  destruct (key_decay_schedule sample_key 1700000599) as (_ & _ & HT);
    [split; lia|split; cbn; lia|].
  apply HT; cbn; unfold DECAY_PERIOD_SECONDS; lia.
Defined.

(** Two keys of known types with the same identifier agree in type, owner, issue time and
    nonce, unless the hash collides on their material. *)
Theorem key_id_identifies `{Crypto} k1 k2 :
  known_type (key_type k1) → known_type (key_type k2) →
  key_encodable k1 → key_encodable k2 →
  (blake3 (key_material k1) = blake3 (key_material k2) → key_material k1 = key_material k2) →
  get_key_id k1 = get_key_id k2 →
  key_type k1 = key_type k2 ∧ owner_id k1 = owner_id k2 ∧
  issued_timestamp k1 = issued_timestamp k2 ∧ key_nonce k1 = key_nonce k2.
Proof.
  intros ? ? (? & _ & _ & ?) (? & _ & _ & ?) Hcol Hid.
  apply key_material_inj; [done..|]. by apply Hcol, hash_to_hex_inj.
Qed.

Lemma key_id_identifies_witness :
  key_type sample_key = key_type (mark_used sample_key 1800000000) ∧
  key_nonce sample_key = key_nonce (mark_used sample_key 1800000000).
Proof.
  destruct (@key_id_identifies toy_crypto sample_key (mark_used sample_key 1800000000))
    as (H1 & _ & _ & H2).
  1, 2: unfold known_type; tauto.
  1, 2: unfold key_encodable; split_and!; by vm_compute.
  1, 2: by vm_compute.
  split; [exact H1|exact H2].
Defined.
