(* ===== verification/KeyManager.v ===== *)
(** The key inventory: [KeyManager] of src/core/keys/key.hpp and key.cpp.

    The manager's maps are one record; each method is a function on it, with
    the static nonce counter of [Key::create] threaded through the methods that
    issue keys.  [wf_manager] says that the owner index is exact; the operations
    preserve it and the queries agree with the abstract view of the inventory, a
    finite map from identifiers to keys.  [execute_transfer] takes the lock once
    per step, so Module [Interleaving] gives its steps one by one and lets a
    schedule mix the steps of several transfers. *)

From Stdlib Require Import Strings.Byte.
From S2P Require Import Prelude Reader Common Crypto Key.

(** ** State *)

Record KeyManager := MkKeyManager {
  keys : gmap bytes Key;
  key_index : gmap NodeID (list bytes);
  transfer_history : list KeyTransfer;
  vouch_records : list KeyVouch;
  vouch_counts_this_epoch : gmap NodeID Z
}.

Definition empty_manager : KeyManager := MkKeyManager ∅ ∅ [] [] ∅.

(** [key_nonce_counter{1}]. *)
Definition initial_counter : Z := 1.

Definition MIN_KEYS_TO_TRANSFER : Z := 1.
Definition MAX_VOUCH_PER_EPOCH : Z := 3.

(** ** Operations *)

Section ops.
Context `{Crypto}.

(** [std::map::insert] keeps an entry that is already there; the index gets
    the identifier in either case. *)
Definition add_key (key : Key) (m : KeyManager) : KeyManager :=
  let key_id := get_key_id key in
  MkKeyManager
    (match keys m !! key_id with
     | Some _ => keys m
     | None => <[key_id := key]> (keys m)
     end)
    (<[owner_id key := at_or [] (owner_id key) (key_index m) ++ [key_id]]> (key_index m))
    (transfer_history m) (vouch_records m) (vouch_counts_this_epoch m).

Definition remove_key (key_id : bytes) (m : KeyManager) : bool * KeyManager :=
  match keys m !! key_id with
  | None => (false, m)
  | Some key =>
      let owner := owner_id key in
      let owner_keys := at_or [] owner (key_index m) in
      (true,
       MkKeyManager (delete key_id (keys m))
         (<[owner := filter (λ id, id ≠ key_id) owner_keys]> (key_index m))
         (transfer_history m) (vouch_records m) (vouch_counts_this_epoch m))
  end.

Definition get_key (key_id : bytes) (m : KeyManager) : option Key := keys m !! key_id.

Definition get_keys_by_type (type : KeyType) (m : KeyManager) : list Key :=
  filter (λ k, key_type k = type) (entries (keys m)).*2.

Definition get_keys_by_owner (owner : NodeID) (m : KeyManager) : list Key :=
  match key_index m !! owner with
  | None => []
  | Some ids => omap (λ id, keys m !! id) ids
  end.

(** The counting loop of [count_keys] and of [create_transfer]. *)
Definition count_loop (m : KeyManager) (type : KeyType) (ids : list bytes) : Z :=
  foldl (λ count id,
    match keys m !! id with
    | Some k => if decide (key_type k = type) then u32 (count + 1) else count
    | None => count
    end) 0 ids.

Definition count_keys (owner : NodeID) (type : KeyType) (m : KeyManager) : Z :=
  match key_index m !! owner with
  | None => 0
  | Some ids => count_loop m type ids
  end.

Definition can_transfer (from to : NodeID) (type : KeyType) (m : KeyManager) : bool :=
  MIN_KEYS_TO_TRANSFER <=? count_keys from type m.

(** [unset] is the uninitialised [from_signature] that [to_bytes] writes and
    [resize] cuts off again; the lookup in the index is the one of
    [count_keys]. *)
Definition create_transfer (key_id : bytes) (from to : NodeID) (why : bytes)
    (from_secret_key : SecretKey) (now : Z) (unset : Signature) (m : KeyManager) :
    outcome KeyTransfer :=
  match keys m !! key_id with
  | None => Err ENullopt
  | Some k =>
      if decide (owner_id k = from) then
        if count_keys from (key_type k) m <? MIN_KEYS_TO_TRANSFER then Err ENullopt
        else
          let transfer := MkKeyTransfer key_id from to (key_type k) now why unset in
          let message_bytes := transfer_to_bytes transfer in
          sg ← Ed25519.sign (take (length message_bytes - 64) message_bytes) from_secret_key;
          mret (MkKeyTransfer key_id from to (key_type k) now why sg)
      else Err ENullopt
  end.

Definition push_history (t : KeyTransfer) (m : KeyManager) : KeyManager :=
  MkKeyManager (keys m) (key_index m) (transfer_history m ++ [t]) (vouch_records m)
    (vouch_counts_this_epoch m).

(** The key a transfer issues, for a given nonce. *)
Definition transferred_key (t : KeyTransfer) (counter : Z) : Key * Z :=
  key_create (kt_key_type t) (to_node t) (transfer_timestamp t) (str "transferred") counter.

Definition execute_transfer (t : KeyTransfer) (s : KeyManager * Z) :
    bool * (KeyManager * Z) :=
  let '(m, counter) := s in
  match get_key (kt_key_id t) m with
  | None => (false, s)
  | Some key =>
      if decide (owner_id key = from_node t) then
        let '(removed, m) := remove_key (kt_key_id t) m in
        if removed then
          let '(new_key, counter) := transferred_key t counter in
          (true, (push_history t (add_key new_key m), counter))
        else (false, (m, counter))
      else (false, s)
  end.

Definition get_transfer_history (node : NodeID) (m : KeyManager) : list KeyTransfer :=
  filter (λ t, from_node t = node ∨ to_node t = node) (transfer_history m).

Definition can_vouch (from for_node : NodeID) (type : KeyType) (m : KeyManager) : bool :=
  if decide (from = for_node) then false
  else
    match vouch_counts_this_epoch m !! from with
    | Some count => negb (MAX_VOUCH_PER_EPOCH <=? count)
    | None => true
    end.

Definition create_vouch (from for_node : NodeID) (type : KeyType) (count : Z)
    (text : bytes) (voucher_secret_key : SecretKey) (now : Z) (unset : Signature)
    (m : KeyManager) : outcome KeyVouch :=
  if can_vouch from for_node type m then
    let vouch := MkKeyVouch from for_node type count now text unset in
    let message_bytes := vouch_to_bytes vouch in
    sg ← Ed25519.sign (take (length message_bytes - 64) message_bytes) voucher_secret_key;
    mret (MkKeyVouch from for_node type count now text sg)
  else Err ENullopt.

(** [for (uint32_t i = 0; i < vouch.key_count; ++i)]. *)
Fixpoint issue_keys (n : nat) (type : KeyType) (owner : NodeID) (current_time : Z)
    (s : KeyManager * Z) : KeyManager * Z :=
  match n with
  | O => s
  | S n =>
      let '(new_key, counter) := key_create type owner current_time (str "vouched") s.2 in
      issue_keys n type owner current_time (add_key new_key s.1, counter)
  end.

Definition record_vouch (v : KeyVouch) (m : KeyManager) : KeyManager :=
  MkKeyManager (keys m) (key_index m) (transfer_history m) (vouch_records m ++ [v])
    (<[voucher v := u32 (at_or 0 (voucher v) (vouch_counts_this_epoch m) + 1)]>
       (vouch_counts_this_epoch m)).

Definition execute_vouch (v : KeyVouch) (current_time : Z) (s : KeyManager * Z) :
    bool * (KeyManager * Z) :=
  let '(m, counter) :=
    issue_keys (Z.to_nat (key_count v)) (kv_key_type v) (vouchee v) current_time s in
  (true, (record_vouch v m, counter)).

Definition get_vouches_by (node : NodeID) (m : KeyManager) : list KeyVouch :=
  filter (λ v, voucher v = node) (vouch_records m).

Definition get_vouches_for (node : NodeID) (m : KeyManager) : list KeyVouch :=
  filter (λ v, vouchee v = node) (vouch_records m).

Record VouchStats := MkVouchStats {
  total_vouches_given : Z;
  total_vouches_received : Z;
  successful_vouches : Z;
  failed_vouches : Z
}.

Definition get_vouch_stats (node : NodeID) (m : KeyManager) : VouchStats :=
  let stats := foldl (λ s v,
    let s :=
      if decide (voucher v = node) then
        MkVouchStats (u32 (total_vouches_given s + 1)) (total_vouches_received s)
          (u32 (successful_vouches s + 1)) (failed_vouches s)
      else s in
    if decide (vouchee v = node) then
      MkVouchStats (total_vouches_given s) (u32 (total_vouches_received s + 1))
        (successful_vouches s) (failed_vouches s)
    else s) (MkVouchStats 0 0 0 0) (vouch_records m) in
  MkVouchStats (total_vouches_given stats) (total_vouches_received stats)
    (successful_vouches stats)
    (u32 (total_vouches_given stats - successful_vouches stats)).

End ops.

(** ** The steps of concurrent transfers *)

Module Interleaving.

(** Where a call of [execute_transfer] is: each constructor but the last is a
    point between two acquisitions of the lock.  [Added] is about to append to
    [transfer_history_], which happens outside the lock. *)
Inductive pc :=
  | Start
  | Checked
  | Removed
  | Created (k : Key)
  | Added
  | Done (result : bool).

#[export] Instance pc_eq_dec : EqDecision pc.
Proof. solve_decision. Defined.

Record thread := MkThread { request : KeyTransfer; at_pc : pc }.

(** The shared state and the calls in progress. *)
Definition config : Type := (KeyManager * Z) * list thread.

Section steps.
Context `{Crypto}.

(** One atomic step of a call. *)
Definition thread_step (th : thread) (s : KeyManager * Z) : thread * (KeyManager * Z) :=
  let t := request th in
  let goto p := MkThread t p in
  let '(m, counter) := s in
  match at_pc th with
  | Start =>
      match get_key (kt_key_id t) m with
      | None => (goto (Done false), s)
      | Some key =>
          if decide (owner_id key = from_node t) then (goto Checked, s)
          else (goto (Done false), s)
      end
  | Checked =>
      let '(removed, m) := remove_key (kt_key_id t) m in
      (goto (if removed then Removed else Done false), (m, counter))
  | Removed =>
      let '(new_key, counter) := transferred_key t counter in
      (goto (Created new_key), (m, counter))
  | Created new_key => (goto Added, (add_key new_key m, counter))
  | Added => (goto (Done true), (push_history t m, counter))
  | Done b => (goto (Done b), s)
  end.

(** The scheduler picks the call that moves next. *)
Definition sched_step (i : nat) (c : config) : config :=
  match c.2 !! i with
  | None => c
  | Some th =>
      let '(th, s) := thread_step th c.1 in (s, <[i := th]> c.2)
  end.

Definition run (schedule : list nat) (c : config) : config :=
  foldl (λ c i, sched_step i c) c schedule.

Definition start (ts : list KeyTransfer) (s : KeyManager * Z) : config :=
  (s, (λ t, MkThread t Start) <$> ts).

End steps.

(** Two calls are about to append to [transfer_history_] at the same time. *)
Definition history_race (c : config) : Prop :=
  ∃ i j th1 th2, i ≠ j ∧ c.2 !! i = Some th1 ∧ c.2 !! j = Some th2 ∧
    at_pc th1 = Added ∧ at_pc th2 = Added.

(** The call has consumed its key. *)
Definition spent (p : pc) : bool :=
  match p with
  | Removed | Created _ | Added | Done true => true
  | _ => false
  end.

(** The call has drawn a nonce. *)
Definition drawn (p : pc) : bool :=
  match p with
  | Created _ | Added | Done true => true
  | _ => false
  end.

(** The calls for [id] that consumed it. *)
Definition spent_on (id : bytes) (ths : list thread) : nat :=
  length (filter (λ th, kt_key_id (request th) = id ∧ spent (at_pc th) = true) ths).

(** The nonces drawn so far. *)
Definition draws (ths : list thread) : nat :=
  length (filter (λ th, drawn (at_pc th) = true) ths).

End Interleaving.

(** ** The invariant *)

(** The identifiers the index lists for a node. *)
Definition index_of (m : KeyManager) (o : NodeID) : list bytes :=
  at_or [] o (key_index m).

(** Field values the identifier text tells apart. *)
Definition key_ok (k : Key) : Prop :=
  known_type (key_type k) ∧ in_u 64 (issued_timestamp k) ∧ in_u 64 (key_nonce k).

#[export] Instance key_ok_dec k : Decision (key_ok k).
Proof. unfold key_ok. apply _. Defined.

(** Abstract view: the keys of a node. *)
Definition owned_by (m : KeyManager) (o : NodeID) : gmap bytes Key :=
  filter (λ p, owner_id p.2 = o) (keys m).

Section invariant.
Context `{Crypto}.

(** The index lists the stored keys of each owner, once each; a key is stored
    under its identifier; the nonces drawn so far are below the counter. *)
Record wf_manager (s : KeyManager * Z) : Prop := {
  wf_ids : ∀ id k, keys s.1 !! id = Some k → id = get_key_id k;
  wf_keys : ∀ id k, keys s.1 !! id = Some k → key_ok k ∧ key_nonce k < s.2;
  wf_index : ∀ o id, id ∈ index_of s.1 o ↔ ∃ k, keys s.1 !! id = Some k ∧ owner_id k = o;
  wf_nodup : ∀ o, NoDup (index_of s.1 o);
  wf_counter : in_u 64 s.2
}.

(** The hash tells the new key from the stored ones. *)
Definition collision_free (new_key : Key) (m : KeyManager) : Prop :=
  ∀ id k, keys m !! id = Some k →
    blake3 (key_material k) = blake3 (key_material new_key) →
    key_material k = key_material new_key.

Lemma wf_empty : wf_manager (empty_manager, initial_counter).
Proof.
  split; cbn; try done; [|intros; constructor].
  intros o id. split; [intros Hin; by apply not_elem_of_nil in Hin|by intros (? & ? & ?)].
Qed.

(** A key with a fresh nonce gets a fresh identifier. *)
Lemma fresh_key s k :
  wf_manager s → key_ok k → s.2 <= key_nonce k → collision_free k s.1 →
  keys s.1 !! get_key_id k = None.
Proof.
  intros W (Ht & Hi & Hn) Hc Hf. apply eq_None_not_Some. intros [k0 Hk0].
  destruct (wf_keys _ W _ _ Hk0) as [(Ht0 & Hi0 & Hn0) Hlt].
  pose proof (wf_ids _ W _ _ Hk0) as Hid.
  destruct (key_material_inj k0 k) as (_ & _ & _ & En); try done; [|lia].
  eapply Hf; [done|]. symmetry. by apply hash_to_hex_inj.
Qed.

Lemma index_of_insert m o l o' ks th vr vc :
  index_of (MkKeyManager ks (<[o := l]> (key_index m)) th vr vc) o' =
  if decide (o = o') then l else index_of m o'.
Proof.
  unfold index_of, at_or. cbn. destruct (decide (o = o')) as [->|].
  - by rewrite lookup_insert_eq.
  - by rewrite lookup_insert_ne.
Qed.

Lemma wf_add_key s k c :
  wf_manager s → key_ok k → key_nonce k < c → s.2 <= c → in_u 64 c →
  keys s.1 !! get_key_id k = None →
  wf_manager (add_key k s.1, c).
Proof.
  intros W Hk Hkc Hc Hcu Hf. unfold add_key. rewrite Hf.
  split; cbn [fst snd keys]; [..|done].
  - intros id k' [[<- <-]|[_ ?]]%lookup_insert_Some; [done|]. by apply (wf_ids _ W).
  - intros id k' [[<- <-]|[_ H']]%lookup_insert_Some; [done|].
    apply (wf_keys _ W) in H' as [? ?]. split; [done|lia].
  - intros o id. rewrite index_of_insert.
    assert (Hrw : (∃ k0, <[get_key_id k:=k]> (keys s.1) !! id = Some k0 ∧ owner_id k0 = o) ↔
      (id = get_key_id k ∧ owner_id k = o) ∨ id ∈ index_of s.1 o).
    { rewrite (wf_index _ W). split.
      - intros (k0 & [[<- <-]|[Hne H0]]%lookup_insert_Some & <-); [by left|right; eauto].
      - intros [[-> <-]|(k0 & H0 & <-)].
        + exists k. by rewrite lookup_insert_eq.
        + exists k0. rewrite lookup_insert_ne by congruence. done. }
    rewrite Hrw. destruct (decide _) as [->|]; [|naive_solver].
    fold (index_of s.1 o). rewrite elem_of_app, list_elem_of_singleton. tauto.
  - intros o. rewrite index_of_insert. destruct (decide _) as [->|]; [|apply (wf_nodup _ W)].
    fold (index_of s.1 o). apply list.NoDup_app. split_and!; [apply (wf_nodup _ W)| |apply NoDup_singleton].
    intros id Hin ->%list_elem_of_singleton.
    apply (wf_index _ W) in Hin as (? & ? & _). congruence.
Qed.

Lemma wf_remove_key s id :
  wf_manager s → wf_manager ((remove_key id s.1).2, s.2).
Proof.
  intros W. unfold remove_key. destruct (keys s.1 !! id) as [k|] eqn:Hk; [|by destruct s].
  split; cbn [fst snd keys]; [..|apply W].
  - intros id' k' [_ ?]%lookup_delete_Some. by apply (wf_ids _ W).
  - intros id' k' [_ ?]%lookup_delete_Some. by apply (wf_keys _ W) with id'.
  - intros o id'. rewrite index_of_insert.
    assert (Hrw : (∃ k0, delete id (keys s.1) !! id' = Some k0 ∧ owner_id k0 = o) ↔
      id' ≠ id ∧ id' ∈ index_of s.1 o).
    { rewrite (wf_index _ W). setoid_rewrite lookup_delete_Some. naive_solver. }
    rewrite Hrw. destruct (decide _) as [->|Ho].
    + fold (index_of s.1 o). by rewrite list_elem_of_filter.
    + split; [|tauto]. intros Hin. split; [|done]. intros ->.
      apply (wf_index _ W) in Hin as (? & ? & ?). congruence.
  - intros o. rewrite index_of_insert. destruct (decide _) as [->|].
    + apply list.NoDup_filter, (wf_nodup _ W).
    + apply (wf_nodup _ W).
Qed.

(** Bookkeeping that leaves keys and index alone. *)
Lemma wf_same_keys m m' c :
  keys m' = keys m → key_index m' = key_index m →
  wf_manager (m, c) → wf_manager (m', c).
Proof.
  intros Hk Hi [W1 W2 W3 W4 W5]. unfold index_of in *. cbn in *.
  split; unfold index_of; cbn; by rewrite ?Hk, ?Hi.
Qed.

End invariant.

(** ** The queries against the abstract view *)

(** A duplicate-free list of the keys of a map looks up to its entries. *)
Lemma omap_index {K V} `{Countable K} (M : gmap K V) (ids : list K) :
  NoDup ids → (∀ id, id ∈ ids ↔ is_Some (M !! id)) →
  omap (λ id, M !! id) ids ≡ₚ (map_to_list M).*2.
Proof.
  intros Hnd Hids.
  trans ((omap (λ id, pair id <$> M !! id) ids).*2).
  { apply reflexive_eq. clear. induction ids as [|id ids IH]; [done|]. cbn.
    destruct (M !! id); cbn; [by f_equal|done]. }
  apply fmap_Permutation, NoDup_Permutation.
  - clear Hids. induction Hnd as [|id ids Hni Hnd IH]; [constructor|]. cbn.
    destruct (M !! id) as [v|]; cbn; [|done]. constructor; [|done].
    rewrite list_elem_of_omap. intros (id' & ? & Hs).
    destruct (M !! id'); cbn in Hs; naive_solver.
  - apply NoDup_map_to_list.
  - intros [id v]. rewrite list_elem_of_omap, elem_of_map_to_list. split.
    + intros (id' & _ & Hs). destruct (M !! id') eqn:E; cbn in Hs; naive_solver.
    + intros Hv. exists id. split; [apply Hids; by eexists|by rewrite Hv].
Qed.

Lemma values_filter {K} `{Countable K} {V} (P : V → Prop) `{!∀ x, Decision (P x)}
    (M : gmap K V) :
  (map_to_list (filter (λ p, P p.2) M)).*2 ≡ₚ filter P (map_to_list M).*2.
Proof.
  induction M as [|k v M Hk IH] using map_ind.
  { by rewrite map_filter_empty, map_to_list_empty. }
  rewrite (map_to_list_insert M) by done. rewrite fmap_cons, filter_cons. cbn [snd].
  destruct (decide (P v)).
  - rewrite map_filter_insert_True by done. rewrite map_to_list_insert, fmap_cons.
    + by rewrite IH.
    + apply map_lookup_filter_None. auto.
  - rewrite map_filter_insert_not' by naive_solver. done.
Qed.

Lemma count_loop_spec m type ids :
  count_loop m type ids =
  u32 (len (filter (λ k, key_type k = type) (omap (λ id, keys m !! id) ids))).
Proof.
  unfold count_loop.
  assert (Hgen : ∀ ids c, in_u 32 c →
    foldl (λ count id,
      match keys m !! id with
      | Some k => if decide (key_type k = type) then u32 (count + 1) else count
      | None => count
      end) c ids =
    u32 (c + len (filter (λ k, key_type k = type) (omap (λ id, keys m !! id) ids)))).
  { clear ids. induction ids as [|id ids IH]; intros c Hc; cbn [foldl omap list_omap].
    - change (len _) with 0. rewrite Z.add_0_r. by rewrite wrap_small.
    - cbn. destruct (keys m !! id) as [k|]; [|by apply IH].
      rewrite filter_cons. destruct (decide _); [|by apply IH].
      rewrite IH by (apply wrap_range; lia).
      rewrite wrap_add_l, len_cons. f_equal. lia. }
  rewrite Hgen by (unfold in_u; lia). f_equal.
Qed.

Section queries.
Context `{Crypto}.

Lemma owned_by_lookup m o id k :
  owned_by m o !! id = Some k ↔ keys m !! id = Some k ∧ owner_id k = o.
Proof. unfold owned_by. by rewrite map_lookup_filter_Some. Qed.

Lemma keys_by_owner_index m o : get_keys_by_owner o m = omap (λ id, keys m !! id) (index_of m o).
Proof. unfold get_keys_by_owner, index_of, at_or. by destruct (key_index m !! o). Qed.

Lemma count_keys_loop m o type : count_keys o type m = count_loop m type (index_of m o).
Proof. unfold count_keys, index_of, at_or. by destruct (key_index m !! o). Qed.

Lemma keys_by_owner_perm s o :
  wf_manager s → get_keys_by_owner o s.1 ≡ₚ (map_to_list (owned_by s.1 o)).*2.
Proof.
  intros W. rewrite keys_by_owner_index.
  rewrite <- (omap_index (owned_by s.1 o) (index_of s.1 o)).
  - apply reflexive_eq, list_omap_ext, Forall_Forall2_diag, list.Forall_forall.
    intros id Hin. apply (wf_index _ W) in Hin as (k & Hk & Ho).
    rewrite Hk. symmetry. by apply owned_by_lookup.
  - apply (wf_nodup _ W).
  - intros id. rewrite (wf_index _ W). unfold is_Some.
    by setoid_rewrite owned_by_lookup.
Qed.

(** A stored key is counted. *)
Lemma counted_key s id k :
  wf_manager s → keys s.1 !! id = Some k → Z.of_nat (size (keys s.1)) < 2 ^ 32 →
  MIN_KEYS_TO_TRANSFER <= count_keys (owner_id k) (key_type k) s.1.
Proof.
  intros W Hk Hs. rewrite count_keys_loop, count_loop_spec, <- keys_by_owner_index.
  pose proof (keys_by_owner_perm s (owner_id k) W) as HP.
  assert (Hin : k ∈ filter (λ k0, key_type k0 = key_type k)
    (get_keys_by_owner (owner_id k) s.1)).
  { apply list_elem_of_filter. split; [done|]. rewrite HP. apply list_elem_of_fmap.
    exists (id, k). split; [done|]. by apply elem_of_map_to_list, owned_by_lookup. }
  assert (Hle : (length (filter (λ k0, key_type k0 = key_type k)
    (get_keys_by_owner (owner_id k) s.1)) <= size (keys s.1))%nat).
  { etrans; [apply length_filter|]. rewrite HP, length_fmap, length_map_to_list.
    unfold owned_by. apply map_size_filter. }
  unfold MIN_KEYS_TO_TRANSFER, len in *.
  rewrite wrap_small by (unfold in_u; lia).
  destruct (filter _ _) eqn:E; [by apply not_elem_of_nil in Hin|cbn; lia].
Qed.

End queries.

(** ** Transfers and vouches *)

(** What the sender of a transfer record must respect. *)
Definition request_ok (t : KeyTransfer) : Prop :=
  known_type (kt_key_type t) ∧ in_u 64 (transfer_timestamp t).

Definition vouched_key (v : KeyVouch) (now : Z) (nonce : Z) : Key :=
  MkKey (kv_key_type v) (vouchee v) now now (str "vouched") nonce.

Section transfers.
Context `{Crypto}.

Lemma add_key_fresh k m :
  keys m !! get_key_id k = None → keys (add_key k m) = <[get_key_id k := k]> (keys m).
Proof. unfold add_key. by intros ->. Qed.

Lemma remove_key_present id m k :
  keys m !! id = Some k →
  remove_key id m = (true, (remove_key id m).2) ∧ keys (remove_key id m).2 = delete id (keys m).
Proof. unfold remove_key. by intros ->. Qed.

Lemma add_key_tables k m :
  transfer_history (add_key k m) = transfer_history m ∧
  vouch_records (add_key k m) = vouch_records m ∧
  vouch_counts_this_epoch (add_key k m) = vouch_counts_this_epoch m.
Proof. done. Qed.

Lemma execute_transfer_eq t s :
  execute_transfer t s =
  match keys s.1 !! kt_key_id t with
  | Some k =>
      if decide (owner_id k = from_node t) then
        (true, (push_history t (add_key (transferred_key t s.2).1
                  (remove_key (kt_key_id t) s.1).2), u64 (s.2 + 1)))
      else (false, s)
  | None => (false, s)
  end.
Proof.
  destruct s as [m c]. unfold execute_transfer, get_key. cbn [fst snd].
  destruct (keys m !! _) as [k|] eqn:Hk; [|done].
  destruct (decide _); [|done].
  apply remove_key_present in Hk as [-> _]. done.
Qed.

Lemma collision_free_remove k id m :
  collision_free k m → collision_free k (remove_key id m).2.
Proof.
  intros Hf id' k'. unfold remove_key. destruct (keys m !! id); cbn; [|apply Hf].
  intros [_ ?]%lookup_delete_Some. by apply (Hf id').
Qed.

(** Identifiers of the key a transfer issues. *)
Lemma transferred_key_fresh t s :
  wf_manager s → request_ok t → collision_free (transferred_key t s.2).1 s.1 →
  keys s.1 !! get_key_id (transferred_key t s.2).1 = None.
Proof.
  intros W [Ht Hts] Hf. apply (fresh_key s); [done| |cbn; lia|done].
  split_and!; [done|done|apply W].
Qed.

Lemma wf_execute_transfer t s :
  wf_manager s → request_ok t → s.2 + 1 < 2 ^ 64 →
  collision_free (transferred_key t s.2).1 s.1 →
  wf_manager (execute_transfer t s).2.
Proof.
  intros W Hr Hc Hf. rewrite execute_transfer_eq.
  destruct (keys s.1 !! _) as [k|] eqn:Hk; [|done].
  destruct (decide _); [|done]. cbn [snd].
  pose proof (wf_counter _ W) as Hu. unfold in_u in Hu.
  rewrite wrap_small by (unfold in_u; lia).
  apply (wf_same_keys (add_key (transferred_key t s.2).1 (remove_key (kt_key_id t) s.1).2));
    [done..|].
  apply (wf_add_key ((remove_key (kt_key_id t) s.1).2, s.2)); cbn [fst snd].
  - by apply wf_remove_key.
  - destruct Hr. split_and!; done.
  - cbn. lia.
  - lia.
  - unfold in_u. lia.
  - apply remove_key_present in Hk as [_ ->].
    rewrite lookup_delete_None. right. by apply transferred_key_fresh.
Qed.

(** ** Issuing vouched keys *)

(** The hash tells the next [n] vouched keys from the stored ones and from each
    other. *)
Definition vouch_collision_free (v : KeyVouch) (now : Z) (n : nat) (s : KeyManager * Z) : Prop :=
  ∀ i, s.2 <= i < s.2 + Z.of_nat n →
    collision_free (vouched_key v now i) s.1 ∧
    ∀ j, s.2 <= j < i →
      blake3 (key_material (vouched_key v now j)) = blake3 (key_material (vouched_key v now i)) →
      key_material (vouched_key v now j) = key_material (vouched_key v now i).

Lemma vouch_collision_free_S v now n s :
  let k := vouched_key v now s.2 in
  keys s.1 !! get_key_id k = None → vouch_collision_free v now (S n) s →
  vouch_collision_free v now n (add_key k s.1, s.2 + 1).
Proof.
  intros k Hfresh Hf i Hi. cbn [fst snd] in *. destruct (Hf i ltac:(lia)) as [Hs Hb].
  split; [|intros; apply Hb; [lia|done]].
  intros id k'. rewrite add_key_fresh by done.
  intros [[_ <-]|[_ ?]]%lookup_insert_Some; [apply Hb; lia|by apply (Hs id)].
Qed.

Lemma keys_by_owner_add s k o :
  wf_manager s → keys s.1 !! get_key_id k = None →
  get_keys_by_owner o (add_key k s.1) =
  get_keys_by_owner o s.1 ++ (if decide (owner_id k = o) then [k] else []).
Proof.
  intros W Hf. rewrite !keys_by_owner_index. rewrite add_key_fresh by done.
  assert (Hold : omap (λ id, <[get_key_id k := k]> (keys s.1) !! id) (index_of s.1 o) =
                 omap (λ id, keys s.1 !! id) (index_of s.1 o)).
  { apply list_omap_ext, Forall_Forall2_diag, list.Forall_forall. intros id Hin.
    apply (wf_index _ W) in Hin as (? & ? & _). rewrite lookup_insert_ne; congruence. }
  unfold add_key. rewrite Hf, index_of_insert. destruct (decide _) as [->|].
  - fold (index_of s.1 o). rewrite omap_app, Hold. cbn. by rewrite lookup_insert_eq.
  - by rewrite Hold, app_nil_r.
Qed.

Lemma issue_keys_spec v now n s :
  wf_manager s → known_type (kv_key_type v) → in_u 64 now → s.2 + Z.of_nat n < 2 ^ 64 →
  vouch_collision_free v now n s →
  let s' := issue_keys n (kv_key_type v) (vouchee v) now s in
  wf_manager s' ∧ s'.2 = s.2 + Z.of_nat n ∧
  ∀ o, get_keys_by_owner o s'.1 = get_keys_by_owner o s.1 ++
    (if decide (vouchee v = o)
     then (λ i : nat, vouched_key v now (s.2 + Z.of_nat i)) <$> seq 0 n else []).
Proof.
  intros W Ht Hnow. revert s W. induction n as [|n IH]; intros s W Hc Hf.
  { cbn. split_and!; [done|lia|]. intros o. case_decide; by rewrite app_nil_r. }
  pose proof (wf_counter _ W) as Hu. unfold in_u in Hu.
  set (k := vouched_key v now s.2).
  assert (Hok : key_ok k) by (split_and!; [done|done|apply W]).
  assert (Hfresh : keys s.1 !! get_key_id k = None).
  { apply (fresh_key s); [done..|cbn; lia|apply (Hf s.2); lia]. }
  cbn [issue_keys key_create]. rewrite wrap_small by (unfold in_u; lia).
  change (MkKey _ _ _ _ _ _) with k.
  assert (W' : wf_manager (add_key k s.1, s.2 + 1)).
  { apply (wf_add_key s); [done..|cbn; lia|lia|unfold in_u; lia|done]. }
  destruct (IH (add_key k s.1, s.2 + 1) W') as (W'' & Hc' & Ho).
  - cbn [snd]. lia.
  - by apply vouch_collision_free_S.
  - cbn [fst snd] in *. split_and!; [done|lia|]. intros o.
    rewrite Ho, keys_by_owner_add, <- app_assoc by done. f_equal. cbn [owner_id k vouched_key].
    destruct (decide _); [|done]. cbn [seq fmap list_fmap app].
    rewrite Z.add_0_r. f_equal. rewrite <- fmap_S_seq, <- list_fmap_compose.
    apply list_fmap_ext. intros i j _. cbn. f_equal. lia.
Qed.

End transfers.

(** ** Interleaved transfers *)

Lemma length_filter_insert {A} (P : A → Prop) `{!∀ x, Decision (P x)} (l : list A) i x y :
  l !! i = Some x →
  (length (filter P (<[i := y]> l)) + (if decide (P x) then 1 else 0) =
   length (filter P l) + (if decide (P y) then 1 else 0))%nat.
Proof.
  intros Hi. rewrite <- (take_drop_middle l i x Hi) at 2.
  rewrite insert_take_drop by (by apply lookup_lt_Some in Hi).
  rewrite !list.filter_app, !filter_cons, !length_app.
  do 2 destruct (decide _); cbn; lia.
Qed.

Lemma two_in_filter {A} (P : A → Prop) `{!∀ x, Decision (P x)} (l : list A) i j x y :
  i ≠ j → l !! i = Some x → l !! j = Some y → P x → P y → (2 <= length (filter P l))%nat.
Proof.
  revert i j. induction l as [|a l IH]; intros [|i] [|j] Hij Hi Hj Hx Hy; try done; cbn in Hi, Hj.
  - injection Hi as ->. rewrite filter_cons_True by done. cbn.
    apply list_elem_of_lookup_2 in Hj.
    assert (y ∈ filter P l) as Hin by (by apply list_elem_of_filter).
    destruct (filter P l); [by apply not_elem_of_nil in Hin|cbn; lia].
  - injection Hj as ->. rewrite filter_cons_True by done. cbn.
    apply list_elem_of_lookup_2 in Hi.
    assert (x ∈ filter P l) as Hin by (by apply list_elem_of_filter).
    destruct (filter P l); [by apply not_elem_of_nil in Hin|cbn; lia].
  - rewrite filter_cons. assert (i ≠ j) by congruence.
    destruct (decide (P a)); [|by eapply IH]. cbn. specialize (IH i j). naive_solver lia.
Qed.

Lemma decide_b2n (b : bool) : (if decide (b = true) then 1 else 0)%nat = Nat.b2n b.
Proof. by destruct b. Qed.

Lemma decide_and_b2n (P : Prop) `{Decision P} (b : bool) :
  P → (if decide (P ∧ b = true) then 1 else 0)%nat = Nat.b2n b.
Proof.
  intros HP. destruct b.
  - by rewrite decide_True.
  - rewrite decide_False; [done|by intros [_ ?]].
Qed.

Section interleaving.
Import Interleaving.
Context `{Crypto}.
Context (ts : list KeyTransfer) (s0 : KeyManager * Z) (key_id : bytes).

(** No key a call may issue is stored under [key_id]. *)
Definition issues_elsewhere : Prop :=
  ∀ t n, t ∈ ts → s0.2 <= n < s0.2 + len ts → get_key_id (transferred_key t n).1 ≠ key_id.

Record transfers_inv (c : config) : Prop := {
  inv_requests : request <$> c.2 = ts;
  inv_spent : (spent_on key_id c.2 <= 1)%nat;
  inv_stored : is_Some (keys c.1.1 !! key_id) → spent_on key_id c.2 = 0%nat;
  inv_counter : c.1.2 = s0.2 + Z.of_nat (draws c.2);
  inv_created : ∀ i th k, c.2 !! i = Some th → at_pc th = Created k → get_key_id k ≠ key_id
}.

Lemma transfers_inv_start : transfers_inv (start ts s0).
Proof.
  assert (Hs : spent_on key_id (start ts s0).2 = 0%nat ∧ draws (start ts s0).2 = 0%nat).
  { unfold spent_on, draws, start. cbn [snd]. clear. induction ts as [|t l IH]; [done|].
    rewrite fmap_cons, !filter_cons_False; [exact IH|cbn; done|cbn; by intros [_ ?]]. }
  destruct Hs as [Hs Hd]. split.
  - unfold start. cbn. rewrite <- list_fmap_compose. apply list_fmap_id.
  - lia.
  - done.
  - rewrite Hd. cbn. lia.
  - intros i th k. unfold start. cbn. rewrite list_lookup_fmap.
    destruct (ts !! i); cbn; [|done]. by intros [= <-].
Qed.

Lemma requests_insert (ths : list thread) i th p :
  ths !! i = Some th → request <$> <[i := MkThread (request th) p]> ths = request <$> ths.
Proof.
  intros Hi. rewrite list_fmap_insert. cbn. apply list_insert_id.
  by rewrite list_lookup_fmap, Hi.
Qed.

(** The counts after one call moves. *)
Lemma spent_insert (ths : list thread) i th p :
  ths !! i = Some th → kt_key_id (request th) = key_id →
  (spent_on key_id (<[i := MkThread (request th) p]> ths) + Nat.b2n (spent (at_pc th)) =
   spent_on key_id ths + Nat.b2n (spent p))%nat.
Proof.
  intros Hi Hid. unfold spent_on.
  pose proof (length_filter_insert
    (λ th, kt_key_id (request th) = key_id ∧ spent (at_pc th) = true) ths i th
    (MkThread (request th) p) Hi) as E.
  cbn [request at_pc] in E.
  by rewrite !decide_and_b2n in E.
Qed.

Lemma spent_insert_other (ths : list thread) i th p :
  ths !! i = Some th → kt_key_id (request th) ≠ key_id →
  spent_on key_id (<[i := MkThread (request th) p]> ths) = spent_on key_id ths.
Proof.
  intros Hi Hid. unfold spent_on.
  pose proof (length_filter_insert
    (λ th, kt_key_id (request th) = key_id ∧ spent (at_pc th) = true) ths i th
    (MkThread (request th) p) Hi) as E.
  cbn [request at_pc] in E. rewrite !decide_False in E by (intros [? _]; done). lia.
Qed.

Lemma draws_insert (ths : list thread) i th p :
  ths !! i = Some th →
  (draws (<[i := MkThread (request th) p]> ths) + Nat.b2n (drawn (at_pc th)) =
   draws ths + Nat.b2n (drawn p))%nat.
Proof.
  intros Hi. unfold draws.
  pose proof (length_filter_insert (λ th, drawn (at_pc th) = true) ths i th
    (MkThread (request th) p) Hi) as E.
  cbn [request at_pc] in E.
  by rewrite !decide_b2n in E.
Qed.

(** A call that has not drawn leaves room for its nonce. *)
Lemma draws_bound (ths : list thread) i th :
  ths !! i = Some th → drawn (at_pc th) = false → (draws ths < length ths)%nat.
Proof.
  intros Hi Hd. unfold draws. revert i Hi.
  induction ths as [|a ths IH]; intros [|i] Hi; try done; cbn in Hi.
  - injection Hi as ->. rewrite filter_cons_False by congruence.
    pose proof (length_filter (λ th, drawn (at_pc th) = true) ths). cbn. lia.
  - specialize (IH i Hi). rewrite filter_cons. destruct (decide _); cbn; lia.
Qed.

(** A move that neither consumes a key nor draws a nonce, from a state whose
    entry for [key_id] can only have disappeared. *)
Lemma transfers_inv_move m c ths i th p m' :
  transfers_inv ((m, c), ths) → ths !! i = Some th →
  spent p = spent (at_pc th) → drawn p = drawn (at_pc th) →
  (∀ k, p ≠ Created k) →
  (is_Some (keys m' !! key_id) → is_Some (keys m !! key_id)) →
  transfers_inv ((m', c), <[i := MkThread (request th) p]> ths).
Proof.
  intros [I1 I2 I3 I4 I5] Hi Hs Hd Hp Hk. cbn [fst snd] in *.
  pose proof (draws_insert ths i th p Hi) as Ed.
  assert (Es : spent_on key_id (<[i:=MkThread (request th) p]> ths) = spent_on key_id ths).
  { destruct (decide (kt_key_id (request th) = key_id)).
    - pose proof (spent_insert ths i th p Hi ltac:(done)) as Es. rewrite Hs in Es. lia.
    - by apply spent_insert_other. }
  split; cbn [fst snd].
  - by rewrite requests_insert.
  - lia.
  - rewrite Es. auto.
  - rewrite Hd in Ed. rewrite I4. lia.
  - intros j th' k [(<- & <- & _)|[_ ?]]%list_lookup_insert_Some; cbn; [|eauto].
    intros Hc. by destruct (Hp k).
Qed.

Lemma transfers_inv_remove m c ths i th :
  transfers_inv ((m, c), ths) → ths !! i = Some th → at_pc th = Checked →
  is_Some (keys m !! kt_key_id (request th)) →
  transfers_inv (((remove_key (kt_key_id (request th)) m).2, c),
    <[i := MkThread (request th) Removed]> ths).
Proof.
  intros [I1 I2 I3 I4 I5] Hi Hpc [k0 Hk0]. cbn [fst snd] in *.
  pose proof (draws_insert ths i th Removed Hi) as Ed.
  apply remove_key_present in Hk0 as Hd. destruct Hd as [_ Hd].
  rewrite Hpc in Ed. cbn [spent drawn Nat.b2n] in Ed.
  split; cbn [fst snd]; rewrite ?Hd; [by rewrite requests_insert|..|lia|].
  1, 2: destruct (decide (kt_key_id (request th) = key_id)) as [E|E].
  - pose proof (spent_insert ths i th Removed Hi E) as Es. rewrite Hpc in Es. cbn [spent drawn Nat.b2n] in Es.
    rewrite I3 in Es; [lia|]. rewrite <- E. by eexists.
  - by rewrite spent_insert_other.
  - rewrite E, lookup_delete_eq. by intros [? ?].
  - rewrite spent_insert_other, lookup_delete_ne by done. done.
  - intros j th' k [(<- & <- & _)|[_ ?]]%list_lookup_insert_Some; cbn; [done|eauto].
Qed.

Lemma transfers_inv_create m c ths i th :
  in_u 64 s0.2 → s0.2 + len ts < 2 ^ 64 → issues_elsewhere →
  transfers_inv ((m, c), ths) → ths !! i = Some th → at_pc th = Removed →
  transfers_inv ((m, (transferred_key (request th) c).2),
    <[i := MkThread (request th) (Created (transferred_key (request th) c).1)]> ths).
Proof.
  unfold in_u. intros Hu Hroom Hne I Hi Hpc. destruct I as [I1 I2 I3 I4 I5]. cbn [fst snd] in *.
  set (k := (transferred_key (request th) c).1).
  pose proof (draws_insert ths i th (Created k) Hi) as Ed.
  pose proof (draws_bound ths i th Hi ltac:(by rewrite Hpc)) as Hb.
  assert (Hlen : length ths = length ts) by (by rewrite <- I1, length_fmap).
  assert (Hin : request th ∈ ts).
  { rewrite <- I1. apply list_elem_of_fmap. exists th. split; [done|].
    by apply list_elem_of_lookup_2 in Hi. }
  rewrite Hpc in Ed. cbn [spent drawn Nat.b2n] in Ed. unfold len in *.
  split; cbn [fst snd].
  - by rewrite requests_insert.
  - destruct (decide (kt_key_id (request th) = key_id)) as [E|E].
    + pose proof (spent_insert ths i th (Created k) Hi E) as Es. rewrite Hpc in Es.
      cbn [spent drawn Nat.b2n] in Es. lia.
    + by rewrite spent_insert_other.
  - intros Hk%I3. destruct (decide (kt_key_id (request th) = key_id)) as [E|E].
    + pose proof (spent_insert ths i th (Created k) Hi E) as Es. rewrite Hpc in Es.
      cbn [spent drawn Nat.b2n] in Es. lia.
    + by rewrite spent_insert_other.
  - unfold transferred_key, key_create. cbn [snd]. rewrite wrap_small by (unfold in_u; lia). lia.
  - intros j th' k' [(<- & <- & _)|[_ ?]]%list_lookup_insert_Some; cbn; [|eauto].
    intros [= <-]. apply Hne; [done|]. unfold len. lia.
Qed.

Lemma transfers_inv_step i c :
  in_u 64 s0.2 → s0.2 + len ts < 2 ^ 64 → issues_elsewhere →
  transfers_inv c → transfers_inv (sched_step i c).
Proof.
  intros Hu Hroom Hne I. destruct c as [[m c] ths]. unfold sched_step. cbn [fst snd].
  destruct (ths !! i) as [th|] eqn:Hi; [|done].
  unfold thread_step. cbv zeta beta. destruct (at_pc th) as [| | |k| |b] eqn:Hpc.
  - destruct (get_key _ _); [case_decide|]; by apply (transfers_inv_move m); first [by rewrite Hpc|done].
  - unfold remove_key. destruct (keys m !! _) eqn:Hk.
    + pose proof (transfers_inv_remove m c ths i th I Hi Hpc ltac:(by eexists)) as I'.
      unfold remove_key in I'. by rewrite Hk in I'.
    + by apply (transfers_inv_move m); first [by rewrite Hpc|done].
  - pose proof (transfers_inv_create m c ths i th Hu Hroom Hne I Hi Hpc) as I'.
    by destruct (transferred_key (request th) c).
  - apply (transfers_inv_move m); [done|done|by rewrite Hpc|by rewrite Hpc|done|].
    assert (Hk : get_key_id k ≠ key_id) by (by eapply (inv_created _ I)).
    unfold add_key. cbn [keys]. destruct (keys m !! get_key_id k); [done|].
    by rewrite lookup_insert_ne.
  - by apply (transfers_inv_move m); first [by rewrite Hpc|done].
  - by apply (transfers_inv_move m); first [by rewrite Hpc|done].
Qed.

Lemma transfers_inv_run schedule c :
  in_u 64 s0.2 → s0.2 + len ts < 2 ^ 64 → issues_elsewhere →
  transfers_inv c → transfers_inv (run schedule c).
Proof.
  intros Hu Hroom Hne. unfold run. revert c.
  induction schedule as [|i sch IH]; intros c I; [done|]. cbn. by apply IH, transfers_inv_step.
Qed.

End interleaving.

(** One call running alone. *)
Section alone.
Import Interleaving.
Context `{Crypto}.

Fixpoint thread_steps (n : nat) (x : thread * (KeyManager * Z)) : thread * (KeyManager * Z) :=
  match n with
  | O => x
  | S n => thread_steps n (thread_step x.1 x.2)
  end.

Lemma thread_steps_S n x : thread_steps (S n) x = thread_steps n (thread_step x.1 x.2).
Proof. done. Qed.

Lemma run_alone n i th s (ths : list thread) :
  (i < length ths)%nat →
  run (replicate n i) (s, <[i := th]> ths) =
  ((thread_steps n (th, s)).2, <[i := (thread_steps n (th, s)).1]> ths).
Proof.
  intros Hi. revert th s. induction n as [|n IH]; intros th s; [done|].
  cbn [replicate thread_steps fst snd]. unfold run. cbn [foldl]. fold (run (replicate n i)).
  unfold sched_step. cbn [fst snd]. rewrite list_lookup_insert_eq by done.
  destruct (thread_step th s) as [th' s']. rewrite list_insert_insert_eq. apply IH.
Qed.

Lemma five_steps t s :
  thread_steps 5 (MkThread t Start, s) =
  (MkThread t (Done (execute_transfer t s).1), (execute_transfer t s).2).
Proof.
  destruct s as [m c]. rewrite execute_transfer_eq, thread_steps_S.
  cbn [fst snd thread_step at_pc Interleaving.request]. unfold get_key.
  destruct (keys m !! kt_key_id t) as [k|] eqn:Hk; [|done].
  case_decide; [|done]. rewrite thread_steps_S.
  cbn [fst snd thread_step at_pc Interleaving.request].
  apply remove_key_present in Hk as [-> _]. done.
Qed.

End alone.

(** ** Lemmas for the properties *)

Section results.
Context `{Crypto}.

Lemma wf_execute_vouch v now s :
  wf_manager s → known_type (kv_key_type v) → in_u 64 now → in_u 32 (key_count v) →
  s.2 + key_count v < 2 ^ 64 → vouch_collision_free v now (Z.to_nat (key_count v)) s →
  wf_manager (execute_vouch v now s).2 ∧
  ∀ o, get_keys_by_owner o (execute_vouch v now s).2.1 = get_keys_by_owner o s.1 ++
    (if decide (vouchee v = o)
     then (λ i : nat, vouched_key v now (s.2 + Z.of_nat i)) <$> seq 0 (Z.to_nat (key_count v))
     else []).
Proof.
  unfold in_u at 2. intros W Ht Hn Hk Hc Hf.
  destruct (issue_keys_spec v now (Z.to_nat (key_count v)) s) as (W' & _ & Ho);
    [done..|lia|done|].
  unfold execute_vouch. destruct (issue_keys _ _ _ _ _) as [m c]. cbn [fst snd] in *.
  split; [by apply (wf_same_keys m)|]. intros o. rewrite <- Ho.
  by rewrite !keys_by_owner_index.
Qed.

Lemma message_without_signature (l : bytes) (sg : Signature) :
  take (length (l ++ arr sg) - 64) (l ++ arr sg) = l.
Proof. rewrite length_app, length_arr, Nat.add_sub. apply take_app_length. Qed.

Lemma size_transfer (m : gmap bytes Key) id id' k k' :
  m !! id = Some k → m !! id' = None → size (<[id' := k']> (delete id m)) = size m.
Proof.
  intros Hk Hn. rewrite map_size_insert_None, map_size_delete, Hk.
  - assert (size m ≠ 0%nat) by (intros ->%map_size_empty_inv; done). cbn. lia.
  - rewrite lookup_delete_None. auto.
Qed.

Lemma issue_keys_counts n type o now s :
  vouch_counts_this_epoch (issue_keys n type o now s).1 = vouch_counts_this_epoch s.1.
Proof.
  revert s. induction n as [|n IH]; intros s; [done|]. cbn [issue_keys].
  destruct (key_create _ _ _ _ _). by rewrite IH.
Qed.

Lemma issue_keys_vouches n type o now s :
  vouch_records (issue_keys n type o now s).1 = vouch_records s.1.
Proof.
  revert s. induction n as [|n IH]; intros s; [done|]. cbn [issue_keys].
  destruct (key_create _ _ _ _ _). by rewrite IH.
Qed.

End results.

(** The operations a manager's users call. *)
Inductive call :=
  | AddKey (k : Key)
  | RemoveKey (id : bytes)
  | ExecuteTransfer (t : KeyTransfer)
  | ExecuteVouch (v : KeyVouch) (current_time : Z).

Definition serve `{Crypto} (s : KeyManager * Z) (r : call) : KeyManager * Z :=
  match r with
  | AddKey k => (add_key k s.1, s.2)
  | RemoveKey id => ((remove_key id s.1).2, s.2)
  | ExecuteTransfer t => (execute_transfer t s).2
  | ExecuteVouch v now => (execute_vouch v now s).2
  end.

(** What [can_vouch] counts. *)
Definition vouches_counted (o : NodeID) (m : KeyManager) : Z :=
  at_or 0 o (vouch_counts_this_epoch m).

Definition vouch_by (o : NodeID) (r : call) : bool :=
  match r with ExecuteVouch v _ => bool_decide (voucher v = o) | _ => false end.

(** The vouches of a node a history of calls executes. *)
Definition vouches_in (o : NodeID) (rs : list call) : Z :=
  len (filter (λ r, vouch_by o r = true) rs).

Section counts.
Context `{Crypto}.

Lemma counted_after_serve o s r :
  vouches_counted o (serve s r).1 =
  if vouch_by o r then u32 (vouches_counted o s.1 + 1) else vouches_counted o s.1.
Proof.
  destruct r as [k|id|t|v now]; cbn [serve fst].
  - done.
  - unfold remove_key. by destruct (keys s.1 !! id).
  - rewrite execute_transfer_eq. destruct (keys s.1 !! _) eqn:Hk; [|done].
    case_decide; [|done]. cbn [snd fst]. unfold vouches_counted. cbn.
    unfold remove_key. by rewrite Hk.
  - unfold execute_vouch. destruct (issue_keys _ _ _ _ _) as [m c] eqn:E.
    assert (Hm : vouch_counts_this_epoch m = vouch_counts_this_epoch s.1).
    { change m with (m, c).1. by rewrite <- E, issue_keys_counts. }
    unfold vouches_counted, record_vouch, at_or. cbn. rewrite Hm.
    case_bool_decide; subst; [by rewrite lookup_insert_eq|by rewrite lookup_insert_ne].
Qed.

Lemma vouches_in_cons o r rs :
  vouches_in o (r :: rs) = (if vouch_by o r then 1 else 0) + vouches_in o rs.
Proof.
  unfold vouches_in. rewrite filter_cons.
  destruct (vouch_by o r).
  - by rewrite decide_True, len_cons.
  - by rewrite decide_False.
Qed.

(** Nothing takes a vouch back. *)
Lemma counted_after_run o rs s :
  0 <= vouches_counted o s.1 → vouches_counted o s.1 + len rs < 2 ^ 32 →
  vouches_counted o (foldl serve s rs).1 = vouches_counted o s.1 + vouches_in o rs.
Proof.
  revert s. induction rs as [|r rs IH]; intros s Hc Hs.
  { cbn. change (vouches_in o []) with 0. lia. }
  rewrite len_cons in Hs. pose proof (len_nonneg rs).
  rewrite vouches_in_cons. cbn [foldl].
  pose proof (counted_after_serve o s r) as Hr.
  destruct (vouch_by o r); [|rewrite IH; rewrite ?Hr; lia].
  rewrite wrap_small in Hr by (unfold in_u; lia).
  rewrite IH; rewrite ?Hr; lia.
Qed.

End counts.

(** ** Properties *)

(** A manager holding one key of Alice's. *)
Definition alice_key : Key := MkKey NETWORK alice 1700000000 1700000000 (str "pow") 1.

Definition sample_manager : KeyManager * Z :=
  (@add_key toy_crypto alice_key empty_manager, 2).

Definition sample_transfer (to : NodeID) : KeyTransfer :=
  MkKeyTransfer (@get_key_id toy_crypto alice_key) alice to NETWORK 1700000100
    (str "gift") (zeros 64).

Definition sample_vouch : KeyVouch :=
  MkKeyVouch alice bob SERVICE 2 1700000200 (str "friend") (zeros 64).

Lemma sample_manager_wf : @wf_manager toy_crypto sample_manager.
Proof.
  apply (@wf_add_key toy_crypto (empty_manager, initial_counter));
    [apply wf_empty| |by vm_compute|by vm_compute|by vm_compute|by vm_compute].
  split_and!; [unfold known_type; tauto|by vm_compute|by vm_compute].
Qed.

(** The only stored key of the sample has another digest. *)
Lemma sample_collision_free k :
  @blake3 toy_crypto (key_material alice_key) ≠ @blake3 toy_crypto (key_material k) →
  @collision_free toy_crypto k sample_manager.1.
Proof.
  intros Hb id k'. unfold sample_manager. cbn [fst].
  rewrite add_key_fresh by (by vm_compute).
  intros [[_ <-]|[_ He]]%lookup_insert_Some; [intros He; destruct (Hb He)|].
  change (keys empty_manager) with (∅ : gmap bytes Key) in He. by rewrite lookup_empty in He.
Qed.

(** In a well-formed manager the queries through the owner index return what a scan of the
    key map would: the keys of an owner, their count by type modulo [2 ^ 32], and the keys
    of a type. *)
Lemma manager_queries_exact `{Crypto} s o type :
  wf_manager s →
  get_keys_by_owner o s.1 ≡ₚ (map_to_list (owned_by s.1 o)).*2 ∧
  count_keys o type s.1 =
    u32 (Z.of_nat (size (filter (λ p, key_type p.2 = type) (owned_by s.1 o)))) ∧
  get_keys_by_type type s.1 ≡ₚ (map_to_list (filter (λ p, key_type p.2 = type) (keys s.1))).*2.
Proof.
  intros W. pose proof (keys_by_owner_perm s o W) as HP. split_and!; [done| |].
  - rewrite count_keys_loop, count_loop_spec, <- keys_by_owner_index. f_equal.
    unfold len. rewrite HP, <- (values_filter (λ k, key_type k = type)).
    by rewrite length_fmap, length_map_to_list.
  - unfold get_keys_by_type. rewrite (entries_perm (keys s.1)).
    symmetry. exact (values_filter (λ k, key_type k = type) (keys s.1)).
Qed.

(** Adding a fresh key, removing, executing a transfer and executing a vouch keep the
    manager well formed (the owner index lists each stored key once, under its owner, and
    key nonces stay below the counter), and in a well-formed manager the queries through
    the owner index return what a scan of the key map would. *)
Theorem manager_wf_preserved `{Crypto} s :
  wf_manager s →
  (∀ k c, key_ok k → s.2 <= key_nonce k < c → in_u 64 c → collision_free k s.1 →
     wf_manager (add_key k s.1, c)) ∧
  (∀ id, wf_manager ((remove_key id s.1).2, s.2)) ∧
  (∀ t, request_ok t → s.2 + 1 < 2 ^ 64 → collision_free (transferred_key t s.2).1 s.1 →
     wf_manager (execute_transfer t s).2) ∧
  (∀ v now, known_type (kv_key_type v) → in_u 64 now → in_u 32 (key_count v) →
     s.2 + key_count v < 2 ^ 64 → vouch_collision_free v now (Z.to_nat (key_count v)) s →
     wf_manager (execute_vouch v now s).2) ∧
  (∀ o type,
     get_keys_by_owner o s.1 ≡ₚ (map_to_list (owned_by s.1 o)).*2 ∧
     count_keys o type s.1 =
       u32 (Z.of_nat (size (filter (λ p, key_type p.2 = type) (owned_by s.1 o)))) ∧
     get_keys_by_type type s.1 ≡ₚ
       (map_to_list (filter (λ p, key_type p.2 = type) (keys s.1))).*2).
Proof.
  intros W. split_and!; [..|intros; by apply manager_queries_exact].
  - intros k c Hk [Hn Hc] Hu Hf. apply (wf_add_key s); [done..|lia|done|by apply fresh_key].
  - intros id. by apply wf_remove_key.
  - intros. by apply wf_execute_transfer.
  - intros. by apply wf_execute_vouch.
Qed.

Lemma manager_wf_preserved_witness :
  @wf_manager toy_crypto (@execute_transfer toy_crypto (sample_transfer bob) sample_manager).2 ∧
  count_keys alice NETWORK sample_manager.1 =
    u32 (Z.of_nat (size (filter (λ p, key_type p.2 = NETWORK)
      (owned_by sample_manager.1 alice)))).
Proof.
  destruct (@manager_wf_preserved toy_crypto sample_manager sample_manager_wf)
    as (_ & _ & HT & _ & HQ). split; [|exact (proj1 (proj2 (HQ alice NETWORK)))].
  apply (HT (sample_transfer bob)).
  - split; [unfold known_type; cbn; tauto|by vm_compute].
  - by vm_compute.
  - apply sample_collision_free. intros He%(f_equal arr). vm_compute in He. discriminate He.
Defined.

(** A transfer succeeds exactly when the key exists and belongs to the sender; then the
    key is replaced by one fresh key of the recipient, of the type the record states, the
    number of keys is unchanged and the transfer is appended to the history; a refused
    transfer changes nothing. *)
Theorem execute_transfer_spec `{Crypto} t s :
  wf_manager s → request_ok t → collision_free (transferred_key t s.2).1 s.1 →
  let '(ok, s') := execute_transfer t s in
  let k' := (transferred_key t s.2).1 in
  (ok = true ↔ ∃ k, keys s.1 !! kt_key_id t = Some k ∧ owner_id k = from_node t) ∧
  (ok = false → s' = s) ∧
  (ok = true →
     keys s'.1 = <[get_key_id k' := k']> (delete (kt_key_id t) (keys s.1)) ∧
     keys s.1 !! get_key_id k' = None ∧ size (keys s'.1) = size (keys s.1) ∧
     transfer_history s'.1 = transfer_history s.1 ++ [t] ∧
     owner_id k' = to_node t ∧ key_type k' = kt_key_type t).
Proof.
  intros W Hr Hf. rewrite execute_transfer_eq.
  pose proof (transferred_key_fresh t s W Hr Hf) as Hfresh.
  destruct (keys s.1 !! kt_key_id t) as [k|] eqn:Hk;
    [|cbv beta iota zeta; split; [split; [done|by intros (? & ? & _)]|done]].
  destruct (decide _) as [Ho|];
    [|cbv beta iota zeta; split; [split; [done|intros (? & ? & ?); congruence]|done]].
  cbv beta iota zeta. split; [split; [eauto|done]|split; [done|]].
  intros _. apply remove_key_present in Hk as Hd. destruct Hd as [_ Hd]. cbn [fst].
  assert (Hadd : keys (push_history t (add_key (transferred_key t s.2).1
      (remove_key (kt_key_id t) s.1).2)) =
    <[get_key_id (transferred_key t s.2).1 := (transferred_key t s.2).1]>
      (delete (kt_key_id t) (keys s.1))).
  { unfold push_history. cbn [keys]. rewrite <- Hd. apply add_key_fresh.
    rewrite Hd, lookup_delete_None. auto. }
  split_and!; [done|done|rewrite Hadd; by eapply size_transfer| |done|done].
  cbn. unfold remove_key. by rewrite Hk.
Qed.

Lemma execute_transfer_spec_witness :
  size (keys (@execute_transfer toy_crypto (sample_transfer bob) sample_manager).2.1) = 1%nat.
Proof.
  pose proof (@execute_transfer_spec toy_crypto (sample_transfer bob) sample_manager
    sample_manager_wf) as HT.
  assert (Hok : (@execute_transfer toy_crypto (sample_transfer bob) sample_manager).1 = true)
    by (vm_compute; reflexivity).
  destruct (@execute_transfer toy_crypto (sample_transfer bob) sample_manager)
    as [ok s'].
  destruct HT as (_ & _ & HT).
  - split; [unfold known_type; cbn; tauto|by vm_compute].
  - apply sample_collision_free. intros He%(f_equal arr). vm_compute in He. discriminate He.
  - destruct (HT Hok) as (_ & _ & Hs & _). cbn [snd]. rewrite Hs. vm_compute. reflexivity.
Defined.

(** The key a transfer creates has the type the record states, which is compared neither
    with the type of the key spent nor with a signature. *)
Theorem transfer_can_change_key_type `{Crypto} t m counter k :
  keys m !! kt_key_id t = Some k → owner_id k = from_node t →
  get_key_id (transferred_key t counter).1 ∉ dom (keys m) →
  ∃ m' c', execute_transfer t (m, counter) = (true, (m', c')) ∧
    keys m' !! kt_key_id t = None ∧
    ∃ k', keys m' !! get_key_id k' = Some k' ∧ owner_id k' = to_node t ∧
      key_type k' = kt_key_type t.
Proof.
  intros Hk Ho Hf. rewrite not_elem_of_dom in Hf. rewrite execute_transfer_eq. cbn [fst snd].
  rewrite Hk, decide_True by done. do 2 eexists. split; [done|].
  apply remove_key_present in Hk as Hd. destruct Hd as [_ Hd].
  unfold push_history. cbn [keys].
  rewrite add_key_fresh by (rewrite Hd, lookup_delete_None; auto). rewrite Hd. split.
  - rewrite lookup_insert_ne by congruence. apply lookup_delete_eq.
  - eexists. split; [apply lookup_insert_eq|done].
Qed.

Lemma transfer_can_change_key_type_witness :
  ∃ m' c', @execute_transfer toy_crypto
      (MkKeyTransfer (@get_key_id toy_crypto alice_key) alice bob IDENTITY 1700000100
         [] (zeros 64)) (sample_manager.1, 2) = (true, (m', c')) ∧
    ∃ k', keys m' !! @get_key_id toy_crypto k' = Some k' ∧ key_type k' = IDENTITY.
Proof.
  destruct (@transfer_can_change_key_type toy_crypto
    (MkKeyTransfer (@get_key_id toy_crypto alice_key) alice bob IDENTITY 1700000100
       [] (zeros 64)) sample_manager.1 2 alice_key) as (m' & c' & E & _ & k' & Hk & _ & Ht).
  - by vm_compute.
  - done.
  - rewrite not_elem_of_dom. by vm_compute.
  - exists m', c'. split; [exact E|]. exists k'. by split.
Defined.

(** [create_transfer] refuses a key the sender does not own, and otherwise returns a
    record with the type of the key whose signature verifies under the public key of the
    signer and which [execute_transfer] then accepts. *)
Theorem create_transfer_authorised `{!Crypto} `{!SignatureLaws} s key_id from to why sk now
    unset sg k :
  wf_manager s → Z.of_nat (size (keys s.1)) < 2 ^ 32 → genuine_secret sk →
  crypto_sign_detached (transfer_message (MkKeyTransfer key_id from to (key_type k) now why unset))
    sk = Some sg →
  keys s.1 !! key_id = Some k →
  (owner_id k ≠ from → create_transfer key_id from to why sk now unset s.1 = Err ENullopt) ∧
  (owner_id k = from →
     let t := MkKeyTransfer key_id from to (key_type k) now why sg in
     create_transfer key_id from to why sk now unset s.1 = Ok t ∧
     transfer_verify_signature t (Ed25519.secret_to_public sk) = true ∧
     (execute_transfer t s).1 = true).
Proof.
  intros W Hs Hgen Hsg Hk. unfold create_transfer. rewrite Hk. split.
  { intros Ho. by rewrite decide_False. }
  intros <-. rewrite decide_True by done.
  pose proof (counted_key s key_id k W Hk Hs) as Hc.
  rewrite (proj2 (Z.ltb_ge _ _)) by done.
  split_and!.
  - unfold transfer_to_bytes. cbn [from_signature].
    rewrite message_without_signature. unfold Ed25519.sign. by rewrite Hsg.
  - unfold transfer_verify_signature, Ed25519.verify, Ed25519.secret_to_public.
    cbn [from_signature]. by eapply verify_sign.
  - rewrite execute_transfer_eq. cbn [kt_key_id from_node]. by rewrite Hk, decide_True.
Qed.

Definition sample_secret : SecretKey := array_fill 64 (to_byte 9).

Lemma create_transfer_authorised_witness :
  ∃ t, @create_transfer toy_crypto (@get_key_id toy_crypto alice_key) alice bob (str "gift")
      sample_secret 1700000100 (zeros 64) sample_manager.1 = Ok t ∧
    @transfer_verify_signature toy_crypto t
      (@Ed25519.secret_to_public toy_crypto sample_secret) = true.
Proof.
  destruct (@create_transfer_authorised toy_crypto toy_laws sample_manager
    (@get_key_id toy_crypto alice_key) alice bob (str "gift") sample_secret 1700000100
    (zeros 64)
    (toy_sign (transfer_message (MkKeyTransfer (@get_key_id toy_crypto alice_key) alice bob
       (key_type alice_key) 1700000100 (str "gift") (zeros 64))) (toy_public sample_secret))
    alice_key sample_manager_wf) as [_ HT].
  - vm_compute. reflexivity.
  - exact I.
  - reflexivity.
  - vm_compute. reflexivity.
  - destruct (HT eq_refl) as (Hc & Hv & _). eexists. split; [exact Hc|exact Hv].
Defined.

(** The count that limits a voucher is the number of its vouches ever executed, since no
    operation resets it: after three executions [can_vouch] refuses for good. *)
Lemma vouch_limit_is_permanent `{Crypto} o calls s other type :
  0 <= vouches_counted o s.1 → vouches_counted o s.1 + len calls < 2 ^ 32 →
  let s' := foldl serve s calls in
  vouches_counted o s'.1 = vouches_counted o s.1 + vouches_in o calls ∧
  can_vouch o other type s'.1 =
    negb (bool_decide (o = other)) &&
    (vouches_counted o s.1 + vouches_in o calls <? MAX_VOUCH_PER_EPOCH).
Proof.
  intros H0 Hl. cbv zeta. pose proof (counted_after_run o calls s H0 Hl) as Hc.
  split; [done|]. rewrite <- Hc. unfold can_vouch, vouches_counted, at_or.
  case_decide; case_bool_decide; try done.
  destruct (_ !! o) as [n|]; cbn [default negb andb].
  - by rewrite Z.leb_antisym, negb_involutive.
  - done.
Qed.

(** Executing a vouch issues the stated number of fresh, undecayed keys of the stated type
    to the vouchee, changes no other owner, and is recorded under the voucher; the count
    that limits a voucher is the number of its vouches ever executed, so after three
    [can_vouch] refuses for good. *)
Theorem execute_vouch_spec `{Crypto} s :
  (∀ v now,
     wf_manager s → known_type (kv_key_type v) → in_u 64 now → in_u 32 (key_count v) →
     s.2 + key_count v < 2 ^ 64 → vouch_collision_free v now (Z.to_nat (key_count v)) s →
     let s' := (execute_vouch v now s).2 in
     (∃ issued, get_keys_by_owner (vouchee v) s'.1 = get_keys_by_owner (vouchee v) s.1 ++ issued ∧
        len issued = key_count v ∧
        Forall (λ k, key_type k = kv_key_type v ∧ owner_id k = vouchee v ∧
                     has_decayed k now = false) issued) ∧
     (∀ o, o ≠ vouchee v → get_keys_by_owner o s'.1 = get_keys_by_owner o s.1) ∧
     get_vouches_by (voucher v) s'.1 = get_vouches_by (voucher v) s.1 ++ [v]) ∧
  (∀ o calls other type,
     0 <= vouches_counted o s.1 → vouches_counted o s.1 + len calls < 2 ^ 32 →
     let s' := foldl serve s calls in
     vouches_counted o s'.1 = vouches_counted o s.1 + vouches_in o calls ∧
     can_vouch o other type s'.1 =
       negb (bool_decide (o = other)) &&
       (vouches_counted o s.1 + vouches_in o calls <? MAX_VOUCH_PER_EPOCH)).
Proof.
  split; [|intros; by apply vouch_limit_is_permanent].
  intros v now W Ht Hn Hk Hc Hf. cbv zeta.
  destruct (wf_execute_vouch v now s) as [_ Ho]; [done..|]. split_and!.
  - eexists. split; [|split].
    + rewrite Ho, decide_True by done. reflexivity.
    + unfold in_u, len in *. rewrite length_fmap, length_seq. lia.
    + apply Forall_fmap, list.Forall_forall. intros i _. cbn. split_and!; [done..|].
      unfold has_decayed. cbn. rewrite Z.sub_diag. done.
  - intros o Hne. by rewrite Ho, decide_False, app_nil_r.
  - unfold get_vouches_by, execute_vouch.
    destruct (issue_keys _ _ _ _ _) as [m c] eqn:E. cbn.
    assert (Hm : vouch_records m = vouch_records s.1).
    { change m with (m, c).1. by rewrite <- E, issue_keys_vouches. }
    rewrite Hm, list.filter_app. f_equal. by rewrite filter_cons_True.
Qed.

Lemma execute_vouch_spec_witness :
  get_vouches_by alice (@execute_vouch toy_crypto sample_vouch 1700000200 sample_manager).2.1 =
    [sample_vouch] ∧
  can_vouch alice carol SERVICE
    (foldl (@serve toy_crypto) sample_manager
      (replicate 4 (ExecuteVouch sample_vouch 1700000200))).1 = false.
Proof.
  destruct (@execute_vouch_spec toy_crypto sample_manager) as [HV HL]. split.
  - refine (proj2 (proj2 (HV sample_vouch 1700000200 sample_manager_wf _ _ _ _ _))).
    + unfold known_type. cbn. tauto.
    + by vm_compute.
    + by vm_compute.
    + by vm_compute.
    + intros i Hi. cbn in Hi.
      assert (i = 2 ∨ i = 3) as [-> | ->] by lia; (split;
        [apply sample_collision_free; intros He%(f_equal arr); vm_compute in He; discriminate He|]);
        intros j Hj; cbn in Hj.
      * lia.
      * assert (j = 2) as -> by lia. intros He%(f_equal arr). vm_compute in He. discriminate He.
  - rewrite (proj2 (HL alice (replicate 4 (ExecuteVouch sample_vouch 1700000200)) carol SERVICE
      ltac:(by vm_compute) ltac:(by vm_compute))).
    vm_compute. reflexivity.
Defined.

(** In every interleaving of the steps of concurrent [execute_transfer] calls, at most one
    call on a given key succeeds, when no concurrently issued key takes the same
    identifier. *)
Lemma concurrent_transfers_spend_once `{Crypto} ts s key_id schedule i j t1 t2 :
  in_u 64 s.2 → s.2 + len ts < 2 ^ 64 → issues_elsewhere ts s key_id →
  i ≠ j →
  (Interleaving.run schedule (Interleaving.start ts s)).2 !! i =
    Some (Interleaving.MkThread t1 (Interleaving.Done true)) →
  (Interleaving.run schedule (Interleaving.start ts s)).2 !! j =
    Some (Interleaving.MkThread t2 (Interleaving.Done true)) →
  kt_key_id t1 = key_id → kt_key_id t2 ≠ key_id.
Proof.
  intros Hu Hr He Hij Hi Hj H1 H2.
  pose proof (transfers_inv_run ts s key_id schedule _ Hu Hr He
    (transfers_inv_start ts s key_id)) as I.
  pose proof (inv_spent _ _ _ _ I) as Hs. unfold Interleaving.spent_on in Hs.
  enough (2 <= Interleaving.spent_on key_id
    (Interleaving.run schedule (Interleaving.start ts s)).2)%nat
    by (unfold Interleaving.spent_on in *; lia).
  by apply (two_in_filter _ _ i j _ _ Hij Hi Hj).
Qed.

(** Three transfers of the same key in progress. *)
Definition rivals : list KeyTransfer :=
  [sample_transfer bob; sample_transfer carol; sample_transfer bob].

(** A manager holding a key of Alice's and one of Bob's. *)
Definition bob_key : Key := MkKey NETWORK bob 1700000000 1700000000 (str "pow") 2.

Definition sample_manager2 : KeyManager * Z :=
  (@add_key toy_crypto bob_key sample_manager.1, 3).

Definition second_transfer : KeyTransfer :=
  MkKeyTransfer (@get_key_id toy_crypto bob_key) bob carol NETWORK 1700000100
    (str "gift") (zeros 64).

Lemma sample_manager2_wf : @wf_manager toy_crypto sample_manager2.
Proof.
  apply (@wf_add_key toy_crypto sample_manager); [apply sample_manager_wf| |..].
  - split_and!; [unfold known_type; cbn; tauto|split; vm_compute; done..].
  - reflexivity.
  - discriminate.
  - split; vm_compute; done.
  - vm_compute. reflexivity.
Qed.

(** Both run to the end, with their steps alternating; they spend different keys. *)

(** Two transfers of different keys reach the unlocked [push_back] together. *)
Lemma history_race_reachable :
  ∃ s ts schedule, @wf_manager toy_crypto s ∧
    Interleaving.history_race (@Interleaving.run toy_crypto schedule (Interleaving.start ts s)).
Proof.
  exists sample_manager2, [sample_transfer bob; second_transfer],
    [0; 0; 0; 0; 1; 1; 1; 1]%nat. split; [apply sample_manager2_wf|].
  exists 0%nat, 1%nat. do 2 eexists. split; [done|].
  split; [vm_compute; reflexivity|]. split; [vm_compute; reflexivity|]. done.
Qed.

(** C17: a call that runs its five steps without interruption has the effect of
    [execute_transfer]; in every interleaving of concurrent calls at most one on a
    given key succeeds, when no concurrently issued key takes the same identifier; yet
    two calls from a well-formed manager can both stand at the append to the history,
    which takes no lock. *)
Theorem transfer_interleavings `{Crypto} :
  (∀ t s ths i,
     ths !! i = Some (Interleaving.MkThread t Interleaving.Start) →
     Interleaving.run (replicate 5 i) (s, ths) =
     ((execute_transfer t s).2,
      <[i := Interleaving.MkThread t (Interleaving.Done (execute_transfer t s).1)]> ths)) ∧
  (∀ ts s key_id schedule i j t1 t2,
     in_u 64 s.2 → s.2 + len ts < 2 ^ 64 → issues_elsewhere ts s key_id → i ≠ j →
     (Interleaving.run schedule (Interleaving.start ts s)).2 !! i =
       Some (Interleaving.MkThread t1 (Interleaving.Done true)) →
     (Interleaving.run schedule (Interleaving.start ts s)).2 !! j =
       Some (Interleaving.MkThread t2 (Interleaving.Done true)) →
     kt_key_id t1 = key_id → kt_key_id t2 ≠ key_id) ∧
  ∃ s ts schedule, @wf_manager toy_crypto s ∧
    Interleaving.history_race (@Interleaving.run toy_crypto schedule (Interleaving.start ts s)).
Proof.
  split; [|split; [apply concurrent_transfers_spend_once|apply history_race_reachable]].
  intros t s ths i Hi. rewrite <- (list_insert_id ths i _ Hi) at 1.
  apply lookup_lt_Some in Hi. rewrite run_alone by done.
  by rewrite five_steps.
Qed.

Lemma transfer_interleavings_witness :
  (@Interleaving.run toy_crypto (replicate 5 1%nat)
     (Interleaving.start rivals sample_manager)).1 =
  (@execute_transfer toy_crypto (sample_transfer carol) sample_manager).2 ∧
  kt_key_id second_transfer ≠ @get_key_id toy_crypto alice_key.
Proof.
  split.
  - unfold Interleaving.start. rewrite (proj1 (@transfer_interleavings toy_crypto)
      (sample_transfer carol) sample_manager _ 1%nat); reflexivity.
  - apply (proj1 (proj2 (@transfer_interleavings toy_crypto)) [sample_transfer bob; second_transfer]
      sample_manager2 (@get_key_id toy_crypto alice_key) [0; 1; 0; 1; 0; 1; 0; 1; 0; 1]%nat 0%nat 1%nat
      (sample_transfer bob) second_transfer).
    + change (0 <= 3 < 2 ^ 64). lia.
    + change (3 + 2 < 2 ^ 64). lia.
    + intros t n Ht Hn. change (3 <= n < 3 + 2) in Hn.
      assert (n = 3 ∨ n = 4) as Hn' by lia.
      rewrite !elem_of_cons in Ht.
      destruct Ht as [-> | [-> | []%not_elem_of_nil]];
        destruct Hn' as [-> | ->]; intros E; vm_compute in E; discriminate E.
    + discriminate.
    + vm_compute. reflexivity.
    + vm_compute. reflexivity.
    + reflexivity.
Defined.
