(* ===== verification/KeyStore.v ===== *)
(** Persistent storage of keys, transfers and vouches: [KeyStore] of
    src/core/keys/key.cpp.

    The file system is a map from paths to contents with the set of existing
    directories.  Whether a path opens for writing is a parameter; a write to
    an open file succeeds.  The order of [directory_iterator] is unspecified, so
    the loaders take the listing as an argument. *)

From Stdlib Require Import Strings.Byte.
From S2P Require Import Prelude Reader Common Crypto Key.

(** ** The file system *)

Record FileSystem := MkFileSystem {
  files : gmap bytes bytes;
  dirs : gset bytes
}.

Definition slash : byte := "/"%byte.

(** [p] or something below it. *)
Definition below (p q : bytes) : Prop := q = p ∨ (p ++ [slash]) `prefix_of` q.

#[export] Instance below_dec p q : Decision (below p q).
Proof. unfold below. apply _. Defined.

(** An entry of the directory [p]. *)
Definition entry_of (p q : bytes) : Prop :=
  ∃ name, q = p ++ [slash] ++ name ∧ slash ∉ name.

Definition write_file (p content : bytes) (fs : FileSystem) : FileSystem :=
  MkFileSystem (<[p := content]> (files fs)) (dirs fs).

(** Parents, which no method looks at, are not recorded. *)
Definition create_directories (p : bytes) (fs : FileSystem) : FileSystem :=
  MkFileSystem (files fs) (dirs fs ∪ {[p]}).

(** [std::filesystem::remove] and [remove_all], with their results. *)
Definition remove_file (p : bytes) (fs : FileSystem) : bool * FileSystem :=
  (bool_decide (is_Some (files fs !! p)), MkFileSystem (delete p (files fs)) (dirs fs)).

Definition remove_all (p : bytes) (fs : FileSystem) : Z * FileSystem :=
  let fs' := MkFileSystem (filter (λ x, ¬ below p x.1) (files fs))
                          (filter (λ d, ¬ below p d) (dirs fs)) in
  (Z.of_nat (size (files fs) - size (files fs') + (size (dirs fs) - size (dirs fs'))), fs').

(** ** The store *)

Section store.
Context `{Crypto} (writable : bytes → bool) (storage_path : bytes).

Definition keys_dir : bytes := storage_path ++ str "/keys".
Definition transfers_dir : bytes := storage_path ++ str "/transfers".
Definition vouches_dir : bytes := storage_path ++ str "/vouches".

Definition get_key_path (key_id : bytes) : bytes :=
  storage_path ++ str "/keys/" ++ key_id ++ str ".key".

Definition get_transfer_path (transfer_id : bytes) : bytes :=
  storage_path ++ str "/transfers/" ++ transfer_id ++ str ".transfer".

Definition get_vouch_path (vouch_id : bytes) : bytes :=
  storage_path ++ str "/vouches/" ++ vouch_id ++ str ".vouch".

(** The constructor. *)
Definition open_store (fs : FileSystem) : FileSystem :=
  create_directories vouches_dir (create_directories transfers_dir
    (create_directories keys_dir fs)).

(** Open for writing, write everything. *)
Definition save (path content : bytes) (fs : FileSystem) : bool * FileSystem :=
  if writable path then (true, write_file path content fs) else (false, fs).

Definition save_key (key : Key) (fs : FileSystem) : bool * FileSystem :=
  save (get_key_path (get_key_id key)) (key_serialize key) fs.

Definition load_key (key_id : bytes) (fs : FileSystem) : option Key :=
  content ← files fs !! get_key_path key_id; key_deserialize content.

Definition delete_key (key_id : bytes) (fs : FileSystem) : bool * FileSystem :=
  remove_file (get_key_path key_id) fs.

(** The loop of the three loaders. *)
Definition load_all {A} (dir : bytes) (parse : bytes → option A) (listing : list bytes)
    (fs : FileSystem) : outcome (list A) :=
  if decide (dir ∈ dirs fs) then
    Ok (omap (λ path, content ← files fs !! path; parse content) listing)
  else Err (ERuntime "directory_iterator").

Definition load_all_keys : list bytes → FileSystem → outcome (list Key) :=
  load_all keys_dir key_deserialize.

Definition transfer_file_id (t : KeyTransfer) : bytes :=
  kt_key_id t ++ str "_" ++ dec (transfer_timestamp t).

Definition save_transfer (t : KeyTransfer) (fs : FileSystem) : bool * FileSystem :=
  save (get_transfer_path (transfer_file_id t)) (transfer_to_bytes t) fs.

Definition vouch_file_id (v : KeyVouch) : bytes :=
  hash_to_hex (vouchee v) ++ str "_" ++ dec (vouch_timestamp v).

Definition save_vouch (v : KeyVouch) (fs : FileSystem) : bool * FileSystem :=
  save (get_vouch_path (vouch_file_id v)) (vouch_to_bytes v) fs.

Definition load_transfers : list bytes → FileSystem → outcome (list KeyTransfer) :=
  load_all transfers_dir transfer_from_bytes.

Definition load_vouches : list bytes → FileSystem → outcome (list KeyVouch) :=
  load_all vouches_dir vouch_from_bytes.

Definition clear_all (fs : FileSystem) : bool * FileSystem :=
  let '(n1, fs) := remove_all keys_dir fs in
  let '(n2, fs) := remove_all transfers_dir fs in
  let '(n3, fs) := remove_all vouches_dir fs in
  ((0 <? n1) && (0 <? n2) && (0 <? n3), open_store fs).

(** ** Lemmas *)

Lemma get_key_path_inj id1 id2 : get_key_path id1 = get_key_path id2 → id1 = id2.
Proof.
  unfold get_key_path. intros E%(inj (app storage_path)).
  apply (inj (app (str "/keys/"))) in E. by apply app_inj_2 in E as [? _].
Qed.

Definition save_all (ks : list Key) (fs : FileSystem) : FileSystem :=
  foldl (λ fs k, (save_key k fs).2) fs ks.

Lemma save_key_file k fs :
  writable (get_key_path (get_key_id k)) = true →
  save_key k fs = (true, write_file (get_key_path (get_key_id k)) (key_serialize k) fs).
Proof. unfold save_key, save. by intros ->. Qed.

Lemma save_all_other ks fs p :
  p ∉ (λ k, get_key_path (get_key_id k)) <$> ks → files (save_all ks fs) !! p = files fs !! p.
Proof.
  unfold save_all. revert fs. induction ks as [|k ks IH]; intros fs Hp; [done|].
  rewrite fmap_cons, not_elem_of_cons in Hp. destruct Hp as [Hne Hp].
  cbn [foldl]. rewrite IH by done. unfold save_key, save. destruct (writable _); [|done].
  cbn. by rewrite lookup_insert_ne.
Qed.

(** The last key saved under an identifier is what its file holds. *)
Lemma save_all_file ks fs k :
  (∀ k, k ∈ ks → writable (get_key_path (get_key_id k)) = true) →
  NoDup (get_key_id <$> ks) → k ∈ ks →
  files (save_all ks fs) !! get_key_path (get_key_id k) = Some (key_serialize k).
Proof.
  revert fs. induction ks as [|k0 ks IH]; intros fs Hw Hnd Hin; [by apply not_elem_of_nil in Hin|].
  rewrite fmap_cons in Hnd. apply list.NoDup_cons in Hnd as [Hni Hnd].
  apply elem_of_cons in Hin as [->|Hin].
  - change (save_all (k0 :: ks) fs) with (save_all ks (save_key k0 fs).2).
    rewrite save_all_other.
    + rewrite save_key_file by (apply Hw, list_elem_of_here). apply lookup_insert_eq.
    + rewrite list_elem_of_fmap. intros (k & E%get_key_path_inj & Hk).
      destruct Hni. rewrite E. by apply list_elem_of_fmap_2.
  - apply (IH (save_key k0 fs).2); [|done|done]. intros. by apply Hw, list_elem_of_further.
Qed.

Lemma save_all_dirs ks fs : dirs (save_all ks fs) = dirs fs.
Proof.
  unfold save_all. revert fs. induction ks as [|k ks IH]; intros fs; [done|].
  cbn [foldl]. rewrite IH. unfold save_key, save. by destruct (writable _).
Qed.

Lemma slash_not_in_id (k : Key) : slash ∉ get_key_id k.
Proof.
  unfold get_key_id, hash_to_hex. generalize (arr (blake3 (key_material k))). intros l.
  induction l as [|b l IH]; [apply not_elem_of_nil|].
  change (slash ∉ hex_byte b ++ mjoin (hex_byte <$> l)).
  rewrite elem_of_app. intros [Hin|?]; [|done].
  by destruct b; vm_compute in Hin; repeat (apply elem_of_cons in Hin as [Hin|Hin];
    [discriminate Hin|]); apply not_elem_of_nil in Hin.
Qed.

Lemma key_path_entry k : entry_of keys_dir (get_key_path (get_key_id k)).
Proof.
  exists (get_key_id k ++ str ".key"). unfold get_key_path, keys_dir.
  split; [by rewrite <- !app_assoc|]. rewrite elem_of_app.
  intros [Hin|Hin]; [by apply slash_not_in_id in Hin|].
  vm_compute in Hin. repeat (apply elem_of_cons in Hin as [Hin|Hin]; [discriminate Hin|]).
  by apply not_elem_of_nil in Hin.
Qed.

(** The listing of the key directory: its regular files, in any order. *)
Definition lists_keys (listing : list bytes) (fs : FileSystem) : Prop :=
  NoDup listing ∧ ∀ p, p ∈ listing ↔ entry_of keys_dir p ∧ is_Some (files fs !! p).

Lemma listing_perm ks fs listing :
  (∀ k, k ∈ ks → writable (get_key_path (get_key_id k)) = true) →
  NoDup (get_key_id <$> ks) → files fs = ∅ → lists_keys listing (save_all ks fs) →
  listing ≡ₚ (λ k, get_key_path (get_key_id k)) <$> ks.
Proof.
  intros Hw Hnd Hfs [Hl Hin]. apply NoDup_Permutation; [done| |].
  - change (NoDup ((get_key_path ∘ get_key_id) <$> ks)). rewrite list_fmap_compose.
    apply NoDup_fmap_2; [intros ? ?; apply get_key_path_inj|done].
  - intros p. rewrite Hin. split.
    + intros [_ Hs]. destruct (decide (p ∈ (λ k, get_key_path (get_key_id k)) <$> ks)) as [|Hp];
        [done|]. rewrite save_all_other, Hfs, lookup_empty in Hs by done. by destruct Hs.
    + intros (k & -> & Hk)%list_elem_of_fmap. split; [apply key_path_entry|].
      rewrite (save_all_file ks fs k) by done. eauto.
Qed.

(** Reading back a list of saved items. *)
Lemma omap_saved {A} (path : A → bytes) (g : bytes → option A) (l : list A) :
  (∀ x, x ∈ l → g (path x) = Some x) → omap g (path <$> l) = l.
Proof.
  induction l as [|x l IH]; intros Hg; [done|]. cbn.
  rewrite Hg by apply list_elem_of_here. f_equal. apply IH.
  intros. by apply Hg, list_elem_of_further.
Qed.

Lemma key_decode k :
  key_encodable k → vector_fits (key_serialize k) → key_deserialize (key_serialize k) = Some k.
Proof. exact (decode_encode_exact k). Qed.

End store.

(** ** Properties *)

(** Saving keys with distinct identifiers into an empty store and loading all gives the
    same keys; each is loaded by its identifier, and no longer after it is deleted. *)
Theorem key_store_roundtrip `{Crypto} writable storage_path ks fs listing :
  (∀ k, k ∈ ks → writable (get_key_path storage_path (get_key_id k)) = true ∧
     key_encodable k ∧ vector_fits (key_serialize k)) →
  NoDup (get_key_id <$> ks) → files fs = ∅ →
  let fs' := save_all writable storage_path ks (open_store storage_path fs) in
  lists_keys storage_path listing fs' →
  (∃ loaded, load_all_keys storage_path listing fs' = Ok loaded ∧ loaded ≡ₚ ks) ∧
  ∀ k, k ∈ ks →
    load_key storage_path (get_key_id k) fs' = Some k ∧
    (delete_key storage_path (get_key_id k) fs').1 = true ∧
    load_key storage_path (get_key_id k) (delete_key storage_path (get_key_id k) fs').2 = None.
Proof.
  intros Hks Hnd Hfs fs' Hlist.
  assert (Hw : ∀ k, k ∈ ks → writable (get_key_path storage_path (get_key_id k)) = true)
    by (intros k Hk; apply Hks, Hk).
  assert (Hfile : ∀ k, k ∈ ks → load_key storage_path (get_key_id k) fs' = Some k).
  { intros k Hk. unfold load_key, fs'. rewrite save_all_file by done.
    apply key_decode; by apply Hks. }
  split.
  - exists (omap (λ p, content ← files fs' !! p; key_deserialize content) listing).
    unfold load_all_keys, load_all. rewrite decide_True.
    + split; [done|]. rewrite (listing_perm writable storage_path ks (open_store storage_path fs) listing
        Hw Hnd Hfs Hlist).
      apply reflexive_eq, (omap_saved (λ k, get_key_path storage_path (get_key_id k))).
      exact Hfile.
    + unfold fs'. rewrite save_all_dirs. cbn. set_solver.
  - intros k Hk. split; [by apply Hfile|]. unfold delete_key, remove_file, load_key.
    cbn [fst snd files]. rewrite lookup_delete_eq. split; [|done].
    apply bool_decide_eq_true_2. unfold fs'. rewrite save_all_file by done. eauto.
Qed.

Lemma key_store_roundtrip_witness :
  ∃ loaded, @load_all_keys (str "/var") [get_key_path (str "/var")
      (@get_key_id toy_crypto sample_key)]
    (@save_all toy_crypto (λ _, true) (str "/var") [sample_key]
       (open_store (str "/var") (MkFileSystem ∅ ∅))) = Ok loaded ∧ loaded ≡ₚ [sample_key].
Proof.
  apply (@key_store_roundtrip toy_crypto (λ _, true) (str "/var") [sample_key]
    (MkFileSystem ∅ ∅)).
  - intros k ->%list_elem_of_singleton. split; [done|]. split; [|vm_compute; reflexivity].
    split_and!; vm_compute; done.
  - apply NoDup_singleton.
  - done.
  - split; [apply NoDup_singleton|]. intros p. rewrite list_elem_of_singleton. split.
    + intros ->. split; [apply (@key_path_entry toy_crypto (str "/var") sample_key)|].
      rewrite (@save_all_file toy_crypto (λ _, true) (str "/var")); [by eexists|done| |].
      * apply NoDup_singleton.
      * apply list_elem_of_here.
    + intros [_ [c Hc]].
      destruct (decide (p = get_key_path (str "/var") (@get_key_id toy_crypto sample_key)))
        as [E|E]; [exact E|].
      rewrite (@save_all_other toy_crypto) in Hc
        by (intros (k & Ek & ->%list_elem_of_singleton)%list_elem_of_fmap; exact (E Ek)).
      cbn [files open_store create_directories] in Hc. by rewrite lookup_empty in Hc.
Defined.
