(* ===== verification/Event.v ===== *)
(** Ledger events and their payloads: the serialisable structures of
    src/core/ledger/ledger.hpp with the formats of ledger.cpp.

    The parsers check the size once and then index the vector without further
    checks; a length field is checked against the rest in [size_t] arithmetic,
    whose width is the parameter [W] of the readers. *)

From Stdlib Require Import Strings.Byte.
From S2P Require Import Prelude Reader Common Crypto Key.

(** ** Enumerations *)

(** [enum class EventType : uint8_t], any byte of the wire being a value. *)
Abbreviation EventType := Byte.byte.

Definition NODE_JOINED : EventType := to_byte 1.
Definition NODE_LEFT : EventType := to_byte 2.
Definition KEY_ISSUED : EventType := to_byte 10.
Definition KEY_TRANSFERRED : EventType := to_byte 11.
Definition KEY_REVOKED : EventType := to_byte 12.
Definition KEY_DECAYED : EventType := to_byte 13.
Definition NETWORK_CREATED : EventType := to_byte 20.
Definition NETWORK_INVITATION_SENT : EventType := to_byte 21.
Definition NETWORK_INVITATION_ACCEPTED : EventType := to_byte 22.
Definition NETWORK_MEMBER_ADDED : EventType := to_byte 23.
Definition NETWORK_MEMBER_REMOVED : EventType := to_byte 24.
Definition NETWORK_DISBANDED : EventType := to_byte 25.
Definition THING_CREATED : EventType := to_byte 30.
Definition THING_REPLICATED : EventType := to_byte 31.
Definition THING_REMOVED : EventType := to_byte 32.
Definition REPUTATION_UPDATED : EventType := to_byte 40.
Definition ATTESTATION_CREATED : EventType := to_byte 41.
Definition VOUCH_CREATED : EventType := to_byte 42.
Definition POW_SOLUTION_SUBMITTED : EventType := to_byte 50.
Definition POSTAKE_CONTRIBUTION : EventType := to_byte 51.
Definition IDENTITY_CREATED : EventType := to_byte 60.
Definition IDENTITY_ROTATED : EventType := to_byte 61.
Definition IDENTITY_REVOKED : EventType := to_byte 62.

(** [enum class IssuanceMethod : uint8_t]. *)
Abbreviation IssuanceMethod := Byte.byte.

Definition POW : IssuanceMethod := to_byte 1.
Definition POSTAKE : IssuanceMethod := to_byte 2.
Definition VOUCHED : IssuanceMethod := to_byte 3.

(** ** Events *)

Record LedgerEvent := MkLedgerEvent {
  event_id : Hash256;
  event_type : EventType;
  source_node : NodeID;
  timestamp : Z;
  epoch : Z;
  previous_hash : Hash256;
  data : bytes;
  signature : Signature
}.

#[export] Instance LedgerEvent_eq_dec : EqDecision LedgerEvent.
Proof. solve_decision. Defined.

Definition event_to_bytes (e : LedgerEvent) : bytes :=
  arr (event_id e) ++ [event_type e] ++ arr (source_node e) ++
  le_bytes 8 (timestamp e) ++ le_bytes 8 (epoch e) ++ arr (previous_hash e) ++
  le_bytes 4 (len (data e)) ++ data e ++ arr (signature e).

Definition event_fields (W : Z) : reader LedgerEvent :=
  id ← raw_array 32;
  type_val ← raw_uint 1;
  source ← raw_array 32;
  time ← raw_uint 8;
  ep ← raw_uint 8;
  prev ← raw_array 32;
  data_len ← raw_uint 4;
  _ ← rd_room W (data_len + 64);
  payload ← rd_raw data_len;
  sg ← raw_array 64;
  mret (MkLedgerEvent id (to_byte type_val) source time ep prev payload sg).

Definition event_reader (W : Z) : reader LedgerEvent :=
  _ ← rd_min (32 + 1 + 32 + 8 + 8 + 32 + 4 + 64); event_fields W.

Definition event_from_bytes (input : bytes) : option LedgerEvent :=
  to_optional (run_reader (event_reader 64) input).

(** The message [verify_signature] checks: no length in front of the data. *)
Definition event_message (e : LedgerEvent) : bytes :=
  arr (event_id e) ++ [event_type e] ++ arr (source_node e) ++
  le_bytes 8 (timestamp e) ++ le_bytes 8 (epoch e) ++ arr (previous_hash e) ++ data e.

Definition event_verify_signature `{Crypto} (e : LedgerEvent) (pk : PublicKey) : bool :=
  Ed25519.verify (event_message e) (signature e) pk.

Definition compute_hash `{Crypto} (e : LedgerEvent) : Hash256 :=
  blake3 (event_to_bytes e).

(** ** Payloads *)

Record KeyIssuanceData := MkKeyIssuanceData {
  ki_key_type : KeyType;
  count : Z;
  method : IssuanceMethod;
  proof : Hash256
}.

Definition key_issuance_to_bytes (x : KeyIssuanceData) : bytes :=
  [ki_key_type x] ++ le_bytes 4 (count x) ++ [method x] ++ arr (proof x).

Definition key_issuance_fields : reader KeyIssuanceData :=
  type_val ← raw_uint 1;
  n ← raw_uint 4;
  how ← raw_uint 1;
  pf ← raw_array 32;
  mret (MkKeyIssuanceData (to_byte type_val) n (to_byte how) pf).

Definition key_issuance_reader : reader KeyIssuanceData :=
  _ ← rd_min (1 + 4 + 1 + 32); key_issuance_fields.

Definition key_issuance_from_bytes (input : bytes) : option KeyIssuanceData :=
  to_optional (run_reader key_issuance_reader input).

Record NetworkMembershipData := MkNetworkMembershipData {
  nm_network_id : Hash256;
  member_node : NodeID;
  role : bytes
}.

Definition membership_to_bytes (x : NetworkMembershipData) : bytes :=
  arr (nm_network_id x) ++ arr (member_node x) ++ le_bytes 2 (len (role x)) ++ role x.

Definition membership_fields (W : Z) : reader NetworkMembershipData :=
  net ← raw_array 32;
  member ← raw_array 32;
  role_len ← raw_uint 2;
  _ ← rd_room W role_len;
  r ← rd_raw role_len;
  mret (MkNetworkMembershipData net member r).

Definition membership_reader (W : Z) : reader NetworkMembershipData :=
  _ ← rd_min (32 + 32 + 2); membership_fields W.

Definition membership_from_bytes (input : bytes) : option NetworkMembershipData :=
  to_optional (run_reader (membership_reader 64) input).

Record ThingReplicationData := MkThingReplicationData {
  tr_content_hash : ContentHash;
  tr_network_id : Hash256;
  hosting_node : NodeID;
  size_bytes : Z
}.

Definition replication_to_bytes (x : ThingReplicationData) : bytes :=
  arr (tr_content_hash x) ++ arr (tr_network_id x) ++ arr (hosting_node x) ++
  le_bytes 8 (size_bytes x).

Definition replication_fields : reader ThingReplicationData :=
  content ← raw_array 32;
  net ← raw_array 32;
  host ← raw_array 32;
  size ← raw_uint 8;
  mret (MkThingReplicationData content net host size).

Definition replication_reader : reader ThingReplicationData :=
  _ ← rd_min (32 + 32 + 32 + 8); replication_fields.

Definition replication_from_bytes (input : bytes) : option ThingReplicationData :=
  to_optional (run_reader replication_reader input).

Record ReputationUpdateData := MkReputationUpdateData {
  subject_node : NodeID;
  score_delta : Z;
  ru_reason : bytes;
  evidence : Hash256
}.

(** [score_delta] is an [int32_t]; its shifts are arithmetic. *)
Definition reputation_to_bytes (x : ReputationUpdateData) : bytes :=
  arr (subject_node x) ++ le_bytes 4 (score_delta x) ++ le_bytes 2 (len (ru_reason x)) ++
  ru_reason x ++ arr (evidence x).

Definition reputation_fields (W : Z) : reader ReputationUpdateData :=
  subject ← raw_array 32;
  delta ← raw_uint 4;
  reason_len ← raw_uint 2;
  _ ← rd_room W (reason_len + 32);
  why ← rd_raw reason_len;
  ev ← raw_array 32;
  mret (MkReputationUpdateData subject (i32 delta) why ev).

Definition reputation_reader (W : Z) : reader ReputationUpdateData :=
  _ ← rd_min (32 + 4 + 2 + 32); reputation_fields W.

Definition reputation_from_bytes (input : bytes) : option ReputationUpdateData :=
  to_optional (run_reader (reputation_reader 64) input).

(** ** What the formats can carry *)

Definition event_encodable (e : LedgerEvent) : Prop :=
  in_u 64 (timestamp e) ∧ in_u 64 (epoch e) ∧ in_u 32 (len (data e)).

Definition key_issuance_encodable (x : KeyIssuanceData) : Prop := in_u 32 (count x).

Definition membership_encodable (x : NetworkMembershipData) : Prop := in_u 16 (len (role x)).

Definition replication_encodable (x : ThingReplicationData) : Prop := in_u 64 (size_bytes x).

Definition reputation_encodable (x : ReputationUpdateData) : Prop :=
  in_s 32 (score_delta x) ∧ in_u 16 (len (ru_reason x)).

(** ** The parsers read what the writers write *)

Lemma swrap_wrap_id w z : 0 < w → in_s w z → swrap w (wrap w z) = z.
Proof. intros. rewrite swrap_wrap. by apply swrap_small. Qed.

Lemma le_bytes_wrap n z : le_bytes n (wrap (Z.of_nat n * 8) z) = le_bytes n z.
Proof.
  rewrite <- (le_val_bytes n z). apply le_bytes_val, length_le_bytes.
Qed.

Lemma le_bytes_swrap n z : (0 < n)%nat →
  le_bytes n (swrap (Z.of_nat n * 8) z) = le_bytes n z.
Proof.
  intros Hn. rewrite <- (le_bytes_wrap n (swrap _ _)), <- (le_bytes_wrap n z). f_equal.
  unfold swrap, wrap. by rewrite Zminus_mod_idemp_l, Z.add_simpl_r.
Qed.

Lemma len_event e : len (event_to_bytes e) = 181 + len (data e).
Proof. unfold event_to_bytes. autorewrite with len. change (len []) with 0. lia. Qed.

Lemma reads_event e : event_encodable e → reads 64 (event_reader 64) e (event_to_bytes e).
Proof.
  intros (? & ? & ?). apply reads_min; [rewrite len_event; pose proof (len_nonneg (data e)); lia|].
  unfold event_fields, event_to_bytes. raw_reads_fields.
  apply reads_room; [pose proof (len_nonneg (data e)); autorewrite with len; lia|].
  raw_reads_fields. rewrite to_byte_val. destruct e. apply reads_ret.
Qed.

Lemma consumes_event :
  consumes (event_reader 64) (λ e b, b = event_to_bytes e ∧ event_encodable e).
Proof.
  eapply consumes_mono; [unfold event_reader, event_fields; raw_consumes_fields|].
  intros e b He. cbv beta in He. open_fields. unfold event_to_bytes, event_encodable.
  cbn [event_id event_type source_node timestamp epoch previous_hash data signature].
  rewrite <- !le_bytes_1, !app_nil_r. eauto.
Qed.

Lemma reads_key_issuance x :
  key_issuance_encodable x → reads 64 key_issuance_reader x (key_issuance_to_bytes x).
Proof.
  unfold key_issuance_encodable. intros ?.
  apply reads_min; [unfold key_issuance_to_bytes; autorewrite with len; done|].
  unfold key_issuance_fields, key_issuance_to_bytes. raw_reads_fields.
  rewrite !to_byte_val. destruct x. apply reads_ret.
Qed.

Lemma consumes_key_issuance :
  consumes key_issuance_reader
    (λ x b, b = key_issuance_to_bytes x ∧ key_issuance_encodable x).
Proof.
  eapply consumes_mono; [unfold key_issuance_reader, key_issuance_fields; raw_consumes_fields|].
  intros e b He. cbv beta in He. open_fields.
  unfold key_issuance_to_bytes, key_issuance_encodable. cbn [ki_key_type count method proof].
  rewrite <- !le_bytes_1, !app_nil_r. eauto.
Qed.

Lemma reads_membership x :
  membership_encodable x → reads 64 (membership_reader 64) x (membership_to_bytes x).
Proof.
  unfold membership_encodable. intros ?. pose proof (len_nonneg (role x)).
  apply reads_min; [unfold membership_to_bytes; autorewrite with len; lia|].
  unfold membership_fields, membership_to_bytes. raw_reads_fields.
  apply reads_room; [lia|]. rewrite <- (app_nil_r (role x)) at 2.
  raw_reads_fields. destruct x. apply reads_ret.
Qed.

Lemma consumes_membership :
  consumes (membership_reader 64)
    (λ x b, b = membership_to_bytes x ∧ membership_encodable x).
Proof.
  eapply consumes_mono; [unfold membership_reader, membership_fields; raw_consumes_fields|].
  intros e b He. cbv beta in He. open_fields.
  unfold membership_to_bytes, membership_encodable. cbn [nm_network_id member_node role].
  rewrite !app_nil_r. eauto.
Qed.

Lemma reads_replication x :
  replication_encodable x → reads 64 replication_reader x (replication_to_bytes x).
Proof.
  unfold replication_encodable. intros ?.
  apply reads_min; [unfold replication_to_bytes; autorewrite with len; done|].
  unfold replication_fields, replication_to_bytes. raw_reads_fields. destruct x. apply reads_ret.
Qed.

Lemma consumes_replication :
  consumes replication_reader (λ x b, b = replication_to_bytes x ∧ replication_encodable x).
Proof.
  eapply consumes_mono; [unfold replication_reader, replication_fields; raw_consumes_fields|].
  intros e b He. cbv beta in He. open_fields.
  unfold replication_to_bytes, replication_encodable.
  cbn [tr_content_hash tr_network_id hosting_node size_bytes].
  rewrite !app_nil_r. eauto.
Qed.

Lemma reads_reputation x :
  reputation_encodable x → reads 64 (reputation_reader 64) x (reputation_to_bytes x).
Proof.
  intros [Hd Hr]. pose proof (len_nonneg (ru_reason x)).
  apply reads_min; [unfold reputation_to_bytes; autorewrite with len; lia|].
  unfold reputation_fields, reputation_to_bytes.
  rewrite <- (le_bytes_wrap 4 (score_delta x)).
  eapply reads_bind; [by eauto with reader|].
  eapply reads_bind; [apply reads_raw_uint, wrap_range; lia|].
  raw_reads_fields. apply reads_room; [autorewrite with len; lia|].
  raw_reads_fields. change (Z.of_nat 4 * 8) with 32. rewrite swrap_wrap_id by (done || lia).
  destruct x. apply reads_ret.
Qed.

Lemma consumes_reputation :
  consumes (reputation_reader 64) (λ x b, b = reputation_to_bytes x ∧ reputation_encodable x).
Proof.
  eapply consumes_mono; [unfold reputation_reader, reputation_fields; raw_consumes_fields|].
  intros e b He. cbv beta in He. open_fields.
  unfold reputation_to_bytes, reputation_encodable. cbn [subject_node score_delta ru_reason evidence].
  rewrite !app_nil_r. split; [|split; [apply swrap_range; lia|done]].
  change 32 with (Z.of_nat 4 * 8). by rewrite le_bytes_swrap by lia.
Qed.

(** ** Codec instances *)

#[export] Instance LedgerEvent_codec : Codec LedgerEvent :=
  {| encode := event_to_bytes; decode := event_from_bytes; encodable := event_encodable |}.
#[export] Instance KeyIssuanceData_codec : Codec KeyIssuanceData :=
  {| encode := key_issuance_to_bytes; decode := key_issuance_from_bytes;
     encodable := key_issuance_encodable |}.
#[export] Instance NetworkMembershipData_codec : Codec NetworkMembershipData :=
  {| encode := membership_to_bytes; decode := membership_from_bytes;
     encodable := membership_encodable |}.
#[export] Instance ThingReplicationData_codec : Codec ThingReplicationData :=
  {| encode := replication_to_bytes; decode := replication_from_bytes;
     encodable := replication_encodable |}.
#[export] Instance ReputationUpdateData_codec : Codec ReputationUpdateData :=
  {| encode := reputation_to_bytes; decode := reputation_from_bytes;
     encodable := reputation_encodable |}.

#[export] Instance LedgerEvent_codec_laws : CodecLaws LedgerEvent.
Proof.
  by apply (reader_codec_laws _ (event_reader 64)); [|apply reads_event|apply consumes_event].
Qed.
#[export] Instance KeyIssuanceData_codec_laws : CodecLaws KeyIssuanceData.
Proof.
  by apply (reader_codec_laws _ key_issuance_reader);
    [|apply reads_key_issuance|apply consumes_key_issuance].
Qed.
#[export] Instance NetworkMembershipData_codec_laws : CodecLaws NetworkMembershipData.
Proof.
  by apply (reader_codec_laws _ (membership_reader 64));
    [|apply reads_membership|apply consumes_membership].
Qed.
#[export] Instance ThingReplicationData_codec_laws : CodecLaws ThingReplicationData.
Proof.
  by apply (reader_codec_laws _ replication_reader);
    [|apply reads_replication|apply consumes_replication].
Qed.
#[export] Instance ReputationUpdateData_codec_laws : CodecLaws ReputationUpdateData.
Proof.
  by apply (reader_codec_laws _ (reputation_reader 64));
    [|apply reads_reputation|apply consumes_reputation].
Qed.

(** ** Memory safety *)

(** The next unchecked field of a parser with enough bytes left. *)
Ltac safe_raw_field :=
  eapply safe_bind; [apply fixed_raw_array || apply fixed_raw_uint|cbn; lia|intros ? ?].

Ltac safe_raw_fields :=
  repeat safe_raw_field; try (apply safe_ret; [cbn; lia|exact I]).

Lemma safe_raw_then {B} W m n (f : bytes → reader B) P :
  0 <= m <= n → (∀ x, safe_at W (n - m) (f x) P) → safe_at W n (rd_raw m ≫= f) P.
Proof. intros Hm Hf. eapply safe_bind; [apply fixed_raw; lia|lia|intros x _; apply Hf]. Qed.

Lemma safe_event : safe_at 64 181 (event_fields 64) (λ _, True).
Proof.
  unfold event_fields. safe_raw_fields. unfold in_u in *. cbn in *.
  apply safe_room; [lia|unfold in_u; lia|]. apply safe_raw_then; [lia|]. intros.
  rewrite Z.add_simpl_l. safe_raw_fields.
Qed.

Lemma safe_key_issuance : safe_at 64 38 key_issuance_fields (λ _, True).
Proof. unfold key_issuance_fields. safe_raw_fields. Qed.

Lemma safe_membership : safe_at 64 66 (membership_fields 64) (λ _, True).
Proof.
  unfold membership_fields. safe_raw_fields. unfold in_u in *. cbn in *.
  apply safe_room; [lia|unfold in_u; lia|]. apply safe_raw_then; [lia|]. intros.
  safe_raw_fields.
Qed.

Lemma safe_replication : safe_at 64 104 replication_fields (λ _, True).
Proof. unfold replication_fields. safe_raw_fields. Qed.

Lemma safe_reputation : safe_at 64 70 (reputation_fields 64) (λ _, True).
Proof.
  unfold reputation_fields. safe_raw_fields. unfold in_u in *. cbn in *.
  apply safe_room; [lia|unfold in_u; lia|]. apply safe_raw_then; [lia|]. intros.
  rewrite Z.add_simpl_l. safe_raw_fields.
Qed.

(** ** What a signature covers *)

(** The signed message determines every field but the signature. *)
Lemma event_signature_binds e1 e2 :
  in_u 64 (timestamp e1) → in_u 64 (epoch e1) → in_u 64 (timestamp e2) → in_u 64 (epoch e2) →
  event_message e1 = event_message e2 →
  event_id e1 = event_id e2 ∧ event_type e1 = event_type e2 ∧
  source_node e1 = source_node e2 ∧ timestamp e1 = timestamp e2 ∧ epoch e1 = epoch e2 ∧
  previous_hash e1 = previous_hash e2 ∧ data e1 = data e2.
Proof.
  unfold event_message. intros Ht1 He1 Ht2 He2 E.
  apply app_inj_1 in E as [Hid E]; [|by rewrite !length_arr].
  apply app_inj_1 in E as [Hty E]; [|done]. assert (event_type e1 = event_type e2) by congruence.
  apply app_inj_1 in E as [Hsrc E]; [|by rewrite !length_arr].
  apply app_inj_1 in E as [Ht E]; [|by rewrite !length_le_bytes].
  apply app_inj_1 in E as [He E]; [|by rewrite !length_le_bytes].
  apply app_inj_1 in E as [Hp E]; [|by rewrite !length_arr].
  apply le_bytes_inj in Ht; [|done..]. apply le_bytes_inj in He; [|done..].
  apply arr_inj in Hid, Hsrc, Hp. done.
Qed.

(** ** Properties *)

Definition sample_event : LedgerEvent :=
  MkLedgerEvent (array_fill 32 (to_byte 5)) KEY_ISSUED (sample_node 1) 1700000000 2833333
    (zeros 32) (key_issuance_to_bytes (MkKeyIssuanceData SERVICE 3 POW (zeros 32))) (zeros 64).

(** With a 64-bit [size_t] none of the five ledger parsers reads past the end of its
    input. *)
Lemma ledger_parsers_memory_safe d :
  vector_fits d →
  run_reader (event_reader 64) d ≠ Undef ∧ run_reader key_issuance_reader d ≠ Undef ∧
  run_reader (membership_reader 64) d ≠ Undef ∧ run_reader replication_reader d ≠ Undef ∧
  run_reader (reputation_reader 64) d ≠ Undef.
Proof.
  intros Hd. split_and!; (eapply (safe_min_run 64);
    [first [apply safe_event|apply safe_key_issuance|apply safe_membership
           |apply safe_replication|apply safe_reputation]|done]).
Qed.

(** An event or a payload record is read back from its bytes, whatever follows them, bytes
    that parse start with the encoding of the parsed record, and with a 64-bit [size_t]
    none of the five parsers reads past the end of its input. *)
Theorem ledger_records_codec d :
  (∀ e tail, event_encodable e → vector_fits (event_to_bytes e ++ tail) →
     event_from_bytes (event_to_bytes e ++ tail) = Some e) ∧
  (∀ x tail, key_issuance_encodable x → vector_fits (key_issuance_to_bytes x ++ tail) →
     key_issuance_from_bytes (key_issuance_to_bytes x ++ tail) = Some x) ∧
  (∀ x tail, membership_encodable x → vector_fits (membership_to_bytes x ++ tail) →
     membership_from_bytes (membership_to_bytes x ++ tail) = Some x) ∧
  (∀ x tail, replication_encodable x → vector_fits (replication_to_bytes x ++ tail) →
     replication_from_bytes (replication_to_bytes x ++ tail) = Some x) ∧
  (∀ x tail, reputation_encodable x → vector_fits (reputation_to_bytes x ++ tail) →
     reputation_from_bytes (reputation_to_bytes x ++ tail) = Some x) ∧
  (∀ e, event_from_bytes d = Some e →
     ∃ tail, d = event_to_bytes e ++ tail ∧ event_encodable e) ∧
  (∀ x, key_issuance_from_bytes d = Some x →
     ∃ tail, d = key_issuance_to_bytes x ++ tail ∧ key_issuance_encodable x) ∧
  (∀ x, membership_from_bytes d = Some x →
     ∃ tail, d = membership_to_bytes x ++ tail ∧ membership_encodable x) ∧
  (∀ x, replication_from_bytes d = Some x →
     ∃ tail, d = replication_to_bytes x ++ tail ∧ replication_encodable x) ∧
  (∀ x, reputation_from_bytes d = Some x →
     ∃ tail, d = reputation_to_bytes x ++ tail ∧ reputation_encodable x) ∧
  (vector_fits d →
   run_reader (event_reader 64) d ≠ Undef ∧ run_reader key_issuance_reader d ≠ Undef ∧
   run_reader (membership_reader 64) d ≠ Undef ∧ run_reader replication_reader d ≠ Undef ∧
   run_reader (reputation_reader 64) d ≠ Undef).
Proof.
  split_and!; try apply ledger_parsers_memory_safe; intros x.
  1-5: exact (decode_encode x).
  all: exact (decode_sound d x).
Qed.

Lemma ledger_records_codec_witness :
  event_from_bytes (event_to_bytes sample_event ++ str "tail") = Some sample_event ∧
  run_reader (event_reader 64) (replicate 200 "255"%byte) ≠ Undef.
Proof.
  split.
  - apply (proj1 (ledger_records_codec []) sample_event (str "tail")).
    + split_and!; vm_compute; done.
    + by vm_compute.
  - apply (ledger_records_codec (replicate 200 "255"%byte)). by vm_compute.
Defined.
