(* ===== verification/Ledger.v ===== *)
(** The append-only event log: [LedgerIndex] and [Ledger] of
    src/core/ledger/ledger.hpp and ledger.cpp.

    A ledger is a record of the class's fields; the methods are functions on
    it.  The wall clock is an argument: [Readings] holds the values the calls
    of [system_clock::now] inside one operation return.  The callback only
    observes events, so the model records what it was given.  [wf_ledger] is
    the representation invariant ([event_lookup_] exact, [index_] the fold of
    the events, every event linked to the one before), and [step] the interface
    the rest of the program uses; files are byte strings. *)

From Stdlib Require Import Strings.Byte.
From S2P Require Import Prelude Reader Common Crypto Key Event.

(** ** The index *)

Record LedgerIndex := MkLedgerIndex {
  events_by_node : gmap NodeID (list Hash256);
  events_by_type : gmap EventType (list Hash256);
  events_by_network : gmap Hash256 (list Hash256);
  events_by_thing : gmap ContentHash (list Hash256);
  node_join_times : gmap NodeID Z;
  network_members : gmap Hash256 (gset NodeID);
  thing_hosts : gmap ContentHash (gset NodeID);
  key_balances : gmap (NodeID * KeyType) Z
}.

(** [clear], and the state after construction. *)
Definition empty_index : LedgerIndex := MkLedgerIndex ∅ ∅ ∅ ∅ ∅ ∅ ∅ ∅.

(** [m[k].push_back(x)]. *)
Definition push_at {K} `{Countable K} {A} (k : K) (x : A) (m : gmap K (list A)) :
    gmap K (list A) :=
  <[k := at_or [] k m ++ [x]]> m.

(** [m[k].insert(x)]. *)
Definition insert_at {K} `{Countable K} {A} `{Countable A} (k : K) (x : A)
    (m : gmap K (gset A)) : gmap K (gset A) :=
  <[k := at_or ∅ k m ∪ {[x]}]> m.

(** The [switch] of [LedgerIndex::add_event]. *)
Definition index_by_payload (e : LedgerEvent) (ix : LedgerIndex) : LedgerIndex :=
  let 'MkLedgerIndex by_node by_type by_net by_thing joined members hosts balances := ix in
  let id := event_id e in
  if decide (event_type e = NODE_JOINED) then
    MkLedgerIndex by_node by_type by_net by_thing
      (<[source_node e := timestamp e]> joined) members hosts balances
  else if decide (event_type e = KEY_ISSUED) then
    match key_issuance_from_bytes (data e) with
    | None => ix
    | Some x =>
        let key := (source_node e, ki_key_type x) in
        MkLedgerIndex by_node by_type by_net by_thing joined members hosts
          (<[key := u32 (at_or 0 key balances + count x)]> balances)
    end
  else if decide (event_type e = NETWORK_MEMBER_ADDED) then
    match membership_from_bytes (data e) with
    | None => ix
    | Some x =>
        MkLedgerIndex by_node by_type (push_at (nm_network_id x) id by_net) by_thing joined
          (insert_at (nm_network_id x) (member_node x) members) hosts balances
    end
  else if decide (event_type e = THING_REPLICATED) then
    match replication_from_bytes (data e) with
    | None => ix
    | Some x =>
        MkLedgerIndex by_node by_type by_net (push_at (tr_content_hash x) id by_thing) joined
          members (insert_at (tr_content_hash x) (hosting_node x) hosts) balances
    end
  else ix.

Definition index_add_event (e : LedgerEvent) (ix : LedgerIndex) : LedgerIndex :=
  let 'MkLedgerIndex by_node by_type by_net by_thing joined members hosts balances := ix in
  index_by_payload e
    (MkLedgerIndex (push_at (source_node e) (event_id e) by_node)
       (push_at (event_type e) (event_id e) by_type) by_net by_thing joined members hosts
       balances).

Definition rebuild_from_events (es : list LedgerEvent) : LedgerIndex :=
  foldl (λ ix e, index_add_event e ix) empty_index es.

Definition index_events_by_node (n : NodeID) (ix : LedgerIndex) : list Hash256 :=
  at_or [] n (events_by_node ix).

Definition get_node_join_time (n : NodeID) (ix : LedgerIndex) : option Z :=
  node_join_times ix !! n.

(** Always empty: the source leaves the filtering out. *)
Definition get_key_events_by_node (n : NodeID) (ix : LedgerIndex) : list Hash256 :=
  let node_events := index_events_by_node n ix in [].

Definition get_total_keys_issued (n : NodeID) (type : KeyType) (ix : LedgerIndex) : Z :=
  at_or 0 (n, type) (key_balances ix).

Definition get_network_events (net : Hash256) (ix : LedgerIndex) : list Hash256 :=
  at_or [] net (events_by_network ix).

Definition get_network_members (net : Hash256) (ix : LedgerIndex) : list NodeID :=
  match network_members ix !! net with None => [] | Some s => set_elements s end.

Definition get_thing_events (content : ContentHash) (ix : LedgerIndex) : list Hash256 :=
  at_or [] content (events_by_thing ix).

Definition get_thing_hosts (content : ContentHash) (ix : LedgerIndex) : list NodeID :=
  match thing_hosts ix !! content with None => [] | Some s => set_elements s end.

Definition get_reputation_events (n : NodeID) (ix : LedgerIndex) : list Hash256 :=
  index_events_by_node n ix.

(** ** The ledger *)

Record Ledger := MkLedger {
  local_node_id : NodeID;
  events : list LedgerEvent;
  event_lookup : gmap Hash256 nat;
  index : LedgerIndex;
  latest_hash : Hash256;
  event_counter : Z;
  (** the events a registered callback was called with *)
  event_callback : option (list LedgerEvent)
}.

(** The clock, in seconds, at the readings of one operation: [create_event],
    [current_epoch], [verify_event_chain] and [verify_event], in this order. *)
Record Readings := MkReadings {
  at_creation : Z;
  at_epoch : Z;
  at_chain : Z;
  at_verify : Z
}.

Definition MAX_FUTURE_SKEW_SECONDS : Z := 5 * 60.

Lemma length_doubled (h : Hash256) : length (arr h ++ arr h) = 64%nat.
Proof. by rewrite length_app, length_arr. Qed.

(** The digest written twice. *)
Definition doubled (h : Hash256) : Signature := dexist (arr h ++ arr h) (length_doubled h).

Section ops.
Context `{Crypto}.

Definition new_ledger (local : NodeID) : Ledger :=
  MkLedger local [] ∅ empty_index (zeros 32) 0 None.

Definition set_event_callback (l : Ledger) : Ledger :=
  MkLedger (local_node_id l) (events l) (event_lookup l) (index l) (latest_hash l)
    (event_counter l) (Some []).

(** The text whose hash identifies a new event. *)
Definition id_data (l : Ledger) (time : Z) : bytes :=
  arr (local_node_id l) ++ le_bytes 8 (event_counter l) ++ le_bytes 8 time.

Definition current_epoch (now : Z) : Z := now / 600.

Definition create_event (type : EventType) (payload : bytes) (rd : Readings) (l : Ledger) :
    LedgerEvent * Ledger :=
  let time := at_creation rd in
  let id := blake3 (id_data l time) in
  let prev := latest_hash l in
  let sig_material := arr id ++ arr prev ++ payload in
  (MkLedgerEvent id type (local_node_id l) time (current_epoch (at_epoch rd)) prev payload
     (doubled (blake3 sig_material)),
   MkLedger (local_node_id l) (events l) (event_lookup l) (index l) (latest_hash l)
     (u64 (event_counter l + 1)) (event_callback l)).

Definition verify_event_chain (e : LedgerEvent) (now : Z) (l : Ledger) : bool :=
  match list.last (events l) with
  | None => bool_decide (previous_hash e = zeros 32)
  | Some prev =>
      if bool_decide (previous_hash e = compute_hash prev) then
        negb (u64 (now + MAX_FUTURE_SKEW_SECONDS) <? timestamp e)
      else false
  end.

Definition verify_event (e : LedgerEvent) (rd : Readings) (l : Ledger) : bool :=
  match event_lookup l !! event_id e with
  | Some _ => false
  | None =>
      if verify_event_chain e (at_chain rd) l then
        negb (u64 (at_verify rd + MAX_FUTURE_SKEW_SECONDS) <? timestamp e)
      else false
  end.

(** What [add_event] does with a verified event. *)
Definition append_event (e : LedgerEvent) (l : Ledger) : Ledger :=
  MkLedger (local_node_id l) (events l ++ [e])
    (<[event_id e := length (events l)]> (event_lookup l))
    (index_add_event e (index l)) (compute_hash e) (event_counter l)
    ((λ seen, seen ++ [e]) <$> event_callback l).

Definition add_event (e : LedgerEvent) (rd : Readings) (l : Ledger) : Hash256 * Ledger :=
  if verify_event e rd l then (event_id e, append_event e l) else (zeros 32, l).

(** [create_event] followed by [add_event]. *)
Definition record_event (type : EventType) (payload : bytes) (rd : Readings) (l : Ledger) :
    Hash256 * Ledger :=
  let '(e, l) := create_event type payload rd l in add_event e rd l.

Definition record_node_joined (n : NodeID) := record_event NODE_JOINED (arr n).
Definition record_node_left (n : NodeID) := record_event NODE_LEFT (arr n).

Definition record_key_issued (type : KeyType) (n : Z) (how : IssuanceMethod) (pf : Hash256) :=
  record_event KEY_ISSUED (key_issuance_to_bytes (MkKeyIssuanceData type n how pf)).

Definition record_key_revoked (type : KeyType) (n : Z) (why : bytes) :=
  record_event KEY_REVOKED
    (key_issuance_to_bytes (MkKeyIssuanceData type n VOUCHED (blake3 why))).

Definition record_network_created (net : Hash256) := record_event NETWORK_CREATED (arr net).

Definition record_network_member_added (net : Hash256) (member : NodeID) (r : bytes) :=
  record_event NETWORK_MEMBER_ADDED
    (membership_to_bytes (MkNetworkMembershipData net member r)).

Definition record_thing_replicated (content : ContentHash) (net : Hash256) (host : NodeID)
    (size : Z) :=
  record_event THING_REPLICATED
    (replication_to_bytes (MkThingReplicationData content net host size)).

Definition record_reputation_update (subject : NodeID) (delta : Z) (why : bytes) :=
  record_event REPUTATION_UPDATED
    (reputation_to_bytes (MkReputationUpdateData subject delta why (zeros 32))).

(** [events_] is indexed without a check. *)
Definition get_event (id : Hash256) (l : Ledger) : outcome LedgerEvent :=
  match event_lookup l !! id with
  | None => Err ENullopt
  | Some i => match events l !! i with Some e => Ok e | None => Undef end
  end.

Fixpoint collect_events (ids : list Hash256) (l : Ledger) : outcome (list LedgerEvent) :=
  match ids with
  | [] => Ok []
  | id :: ids =>
      match get_event id l with
      | Ok e => rest ← collect_events ids l; mret (e :: rest)
      | Err _ => collect_events ids l
      | Undef => Undef
      end
  end.

Definition get_events_by_node (n : NodeID) (l : Ledger) : outcome (list LedgerEvent) :=
  collect_events (index_events_by_node n (index l)) l.

Definition get_events_by_type (type : EventType) (l : Ledger) : list LedgerEvent :=
  filter (λ e, event_type e = type) (events l).

Definition get_recent_events (n : Z) (l : Ledger) : list LedgerEvent :=
  let size := len (events l) in
  let start := if n <? size then size - n else 0 in
  drop (Z.to_nat start) (events l).

Definition get_all_events (l : Ledger) : list LedgerEvent := events l.

Definition event_count (l : Ledger) : Z := len (events l).

Definition get_latest_hash (l : Ledger) : Hash256 := latest_hash l.

Definition add_external_event (e : LedgerEvent) (now : Z) (rd : Readings) (l : Ledger) :
    bool * Ledger :=
  if verify_event_chain e now l then
    match event_lookup l !! event_id e with
    | Some _ => (false, l)
    | None => (true, (add_event e rd l).2)
    end
  else (false, l).

(** ** Persistence *)

Definition event_frame (e : LedgerEvent) : bytes :=
  le_bytes 4 (len (event_to_bytes e)) ++ event_to_bytes e.

(** The bytes written to a file that could be opened. *)
Definition save_to_file (l : Ledger) : bytes :=
  le_bytes 8 (len (events l)) ++ mjoin (event_frame <$> events l).

Definition clear_events (l : Ledger) : Ledger :=
  MkLedger (local_node_id l) [] ∅ empty_index (latest_hash l) (event_counter l)
    (event_callback l).

(** [n] iterations from the rest of the file; [ok] is the stream state.  A
    length that is not read stays indeterminate; a short payload leaves zeros
    in the buffer. *)
Fixpoint load_events (n : nat) (ok : bool) (file : bytes) (clock : nat → Readings)
    (l : Ledger) : outcome Ledger :=
  match n with
  | O => Ok l
  | S n =>
      if negb ok || (len file <? 4) then Undef
      else
        let size := le_val (take 4 file) in
        let rest := drop 4 file in
        let got := take (Z.to_nat size) rest in
        let buffer := got ++ replicate (Z.to_nat size - length got) "000"%byte in
        let l :=
          match event_from_bytes buffer with
          | Some e => (add_event e (clock n) l).2
          | None => l
          end in
        load_events n (len got =? size) (drop (Z.to_nat size) rest) clock l
  end.

(** [clock n] holds the readings made with [n] events left to load. *)
Definition load_from_file (file : option bytes) (clock : nat → Readings) (l : Ledger) :
    outcome (bool * Ledger) :=
  match file with
  | None => Ok (false, l)
  | Some file =>
      let l := clear_events l in
      if len file <? 8 then Undef
      else
        l ← load_events (Z.to_nat (le_val (take 8 file))) true (drop 8 file) clock l;
        mret (true, l)
  end.

(** ** Validation *)

(** The loop over neighbours. *)
Fixpoint links_ok (prev : LedgerEvent) (es : list LedgerEvent) : bool :=
  match es with
  | [] => true
  | curr :: es =>
      if bool_decide (previous_hash curr = compute_hash prev) then links_ok curr es else false
  end.

Definition validate_chain (l : Ledger) : bool :=
  match events l with [] => true | e :: es => links_ok e es end.

Fixpoint broken_links (prev : LedgerEvent) (es : list LedgerEvent) : list Hash256 :=
  match es with
  | [] => []
  | curr :: es =>
      (if bool_decide (previous_hash curr = compute_hash prev) then [] else [event_id curr]) ++
      broken_links curr es
  end.

Definition seen_counts (es : list LedgerEvent) : gmap Hash256 Z :=
  foldl (λ seen e, <[event_id e := u32 (at_or 0 (event_id e) seen + 1)]> seen) ∅ es.

Definition detect_conflicts (l : Ledger) : list Hash256 :=
  (filter (λ p, 1 < p.2) (entries (seen_counts (events l)))).*1 ++
  match events l with [] => [] | e :: es => broken_links e es end.

End ops.

(** ** Statistics *)

Record LedgerStatistics := MkLedgerStatistics {
  total_events : Z;
  total_nodes : Z;
  total_networks : Z;
  total_things : Z;
  total_keys_issued : Z;
  total_keys_revoked : Z;
  oldest_event_timestamp : Z;
  newest_event_timestamp : Z
}.

Definition newline : bytes := ["010"%byte].

Definition statistics_to_string (s : LedgerStatistics) : bytes :=
  str "Ledger Statistics:" ++ newline ++
  str "  Total events: " ++ dec (total_events s) ++ newline ++
  str "  Total nodes: " ++ dec (total_nodes s) ++ newline ++
  str "  Total networks: " ++ dec (total_networks s) ++ newline ++
  str "  Total Things: " ++ dec (total_things s) ++ newline ++
  str "  Keys issued: " ++ dec (total_keys_issued s) ++ newline ++
  str "  Keys revoked: " ++ dec (total_keys_revoked s) ++ newline ++
  str "  Oldest event: " ++ dec (oldest_event_timestamp s) ++ newline ++
  str "  Newest event: " ++ dec (newest_event_timestamp s).

(** ** The invariant *)

Section invariant.
Context `{Crypto}.

(** Every event is linked to the one before, the first to the zero hash. *)
Fixpoint linked (prev : Hash256) (es : list LedgerEvent) : Prop :=
  match es with
  | [] => True
  | e :: es => previous_hash e = prev ∧ linked (compute_hash e) es
  end.

(** The hash the next event must carry. *)
Definition tip (es : list LedgerEvent) : Hash256 :=
  match list.last es with None => zeros 32 | Some e => compute_hash e end.

Record wf_ledger (l : Ledger) : Prop := {
  wf_linked : linked (zeros 32) (events l);
  wf_unique : NoDup (event_id <$> events l);
  wf_lookup : ∀ id i, event_lookup l !! id = Some i ↔ event_id <$> events l !! i = Some id;
  wf_index : index l = rebuild_from_events (events l)
}.

(** [latest_hash_] is the hash of the last event. *)
Definition tip_ok (l : Ledger) : Prop := latest_hash l = tip (events l).

(** The checks of [verify_event], as a proposition. *)
Definition acceptable (e : LedgerEvent) (rd : Readings) (l : Ledger) : Prop :=
  event_lookup l !! event_id e = None ∧ previous_hash e = tip (events l) ∧
  (events l ≠ [] → timestamp e <= u64 (at_chain rd + MAX_FUTURE_SKEW_SECONDS)) ∧
  timestamp e <= u64 (at_verify rd + MAX_FUTURE_SKEW_SECONDS).

Lemma last_nil_iff {A} (l : list A) : list.last l = None ↔ l = [].
Proof. apply list.last_None. Qed.

Lemma verify_event_chain_spec e now l :
  verify_event_chain e now l = true ↔
  previous_hash e = tip (events l) ∧
  (events l ≠ [] → timestamp e <= u64 (now + MAX_FUTURE_SKEW_SECONDS)).
Proof.
  unfold verify_event_chain, tip. destruct (list.last (events l)) as [prev|] eqn:E.
  - assert (events l ≠ []) by (intros E'; by rewrite E' in E).
    case_bool_decide; [rewrite negb_true_iff, Z.ltb_ge|]; naive_solver.
  - apply last_nil_iff in E. rewrite bool_decide_eq_true. naive_solver.
Qed.

Lemma verify_event_spec e rd l : verify_event e rd l = true ↔ acceptable e rd l.
Proof.
  unfold verify_event, acceptable. destruct (event_lookup l !! event_id e); [naive_solver|].
  destruct (verify_event_chain e (at_chain rd) l) eqn:E.
  - apply verify_event_chain_spec in E. rewrite negb_true_iff, Z.ltb_ge. naive_solver.
  - split; [done|]. intros (_ & Hp & Hc & _).
    by rewrite (proj2 (verify_event_chain_spec e (at_chain rd) l)) in E.
Qed.

Lemma add_event_eq e rd l :
  add_event e rd l =
  if verify_event e rd l then (event_id e, append_event e l) else (zeros 32, l).
Proof. done. Qed.

Lemma linked_app prev es1 es2 :
  linked prev (es1 ++ es2) ↔
  linked prev es1 ∧ linked (match list.last es1 with None => prev | Some e => compute_hash e end) es2.
Proof.
  revert prev. induction es1 as [|e es1 IH]; intros prev; [cbn; tauto|].
  cbn [linked app]. rewrite IH. rewrite list.last_cons.
  destruct (list.last es1); tauto.
Qed.

Lemma tip_app es e : tip (es ++ [e]) = compute_hash e.
Proof. unfold tip. by rewrite list.last_snoc. Qed.

Lemma rebuild_app es e : rebuild_from_events (es ++ [e]) = index_add_event e (rebuild_from_events es).
Proof. unfold rebuild_from_events. by rewrite foldl_app. Qed.

Lemma wf_new local : wf_ledger (new_ledger local) ∧ tip_ok (new_ledger local).
Proof.
  split; [|done]. split; cbn; [done|constructor| |done].
  intros id i. rewrite lookup_empty. by destruct i.
Qed.

Lemma lookup_known l e : wf_ledger l → event_lookup l !! event_id e = None ↔ event_id e ∉ event_id <$> events l.
Proof.
  intros W. rewrite eq_None_not_Some. apply not_iff_compat. rewrite list_elem_of_lookup.
  setoid_rewrite list_lookup_fmap. split.
  - intros [i Hi]. exists i. by apply (wf_lookup _ W).
  - intros [i Hi]. exists i. by apply (wf_lookup _ W).
Qed.

Lemma wf_append e l :
  wf_ledger l → event_lookup l !! event_id e = None → previous_hash e = tip (events l) →
  wf_ledger (append_event e l) ∧ tip_ok (append_event e l).
Proof.
  intros W Hn Hp. split; [|by unfold tip_ok; cbn; rewrite tip_app].
  apply lookup_known in Hn; [|done]. split; cbn.
  - apply linked_app. split; [apply W|]. cbn. split; [|done]. exact Hp.
  - rewrite fmap_app. apply list.NoDup_app. split_and!; [apply W| |apply NoDup_singleton].
    intros id Hin ->%list_elem_of_singleton. done.
  - intros id i. destruct (decide (i = length (events l))) as [->|Hi].
    + rewrite list_lookup_middle by done. cbn. split.
      * intros [[-> _]|[_ Hl]]%lookup_insert_Some; [done|].
        apply (wf_lookup _ W) in Hl. by rewrite lookup_ge_None_2 in Hl.
      * intros [= <-]. by rewrite lookup_insert_eq.
    + assert (Hsame : (events l ++ [e]) !! i = events l !! i).
      { destruct (decide (i < length (events l))%nat).
        - by rewrite lookup_app_l.
        - rewrite !lookup_ge_None_2; [done|lia|rewrite length_app; cbn; lia]. }
      rewrite Hsame, <- (wf_lookup _ W). rewrite lookup_insert_Some. split.
      * intros [[_ ?]|[_ ?]]; [by subst|done].
      * intros Hl. right. split; [|done]. intros <-. apply Hn.
        apply (wf_lookup _ W) in Hl. rewrite <- list_lookup_fmap in Hl.
        by apply list_elem_of_lookup_2 in Hl.
  - by rewrite rebuild_app, (wf_index _ W).
Qed.

Lemma wf_add_event e rd l :
  wf_ledger l → wf_ledger (add_event e rd l).2 ∧ (tip_ok l → tip_ok (add_event e rd l).2).
Proof.
  intros W. rewrite add_event_eq. destruct (verify_event e rd l) eqn:E; [|done].
  apply verify_event_spec in E as (Hn & Hp & _). by destruct (wf_append e l W Hn Hp).
Qed.

(** Fields [wf_ledger] does not read. *)
Lemma wf_same l l' :
  events l' = events l → event_lookup l' = event_lookup l → index l' = index l →
  wf_ledger l → wf_ledger l'.
Proof. intros He Hl Hi [W1 W2 W3 W4]. split; by rewrite ?He, ?Hl, ?Hi. Qed.

Lemma wf_record type payload rd l :
  wf_ledger l →
  wf_ledger (record_event type payload rd l).2 ∧
  (tip_ok l → tip_ok (record_event type payload rd l).2).
Proof.
  intros W. unfold record_event. destruct (create_event _ _ _ _) as [e l'] eqn:E.
  injection E as _ <-.
  match goal with |- wf_ledger (add_event e rd ?x).2 ∧ _ =>
    destruct (wf_add_event e rd x) as [W' T']; [by apply (wf_same l)|] end.
  split; [exact W'|exact T'].
Qed.

Lemma wf_add_external e now rd l :
  wf_ledger l →
  wf_ledger (add_external_event e now rd l).2 ∧
  (tip_ok l → tip_ok (add_external_event e now rd l).2).
Proof.
  intros W. unfold add_external_event. destruct (verify_event_chain _ _ _); [|done].
  destruct (event_lookup l !! event_id e); [done|]. by apply wf_add_event.
Qed.

Lemma wf_clear l : wf_ledger (clear_events l).
Proof.
  split; cbn; [done|constructor| |done]. intros id i. rewrite lookup_empty. by destruct i.
Qed.

Lemma wf_load_events n ok file clock l l' :
  wf_ledger l → load_events n ok file clock l = Ok l' → wf_ledger l'.
Proof.
  revert ok file l. induction n as [|n IH]; intros ok file l W; [by intros [= <-]|].
  cbn [load_events]. destruct (negb ok || _); [done|]. apply IH.
  destruct (event_from_bytes _); [by apply wf_add_event|done].
Qed.

Lemma wf_load file clock l b l' :
  wf_ledger l → load_from_file file clock l = Ok (b, l') → wf_ledger l'.
Proof.
  intros W. unfold load_from_file. destruct file as [file|]; [|by intros [= _ <-]].
  destruct (_ <? _); [done|]. destruct (load_events _ _ _ _ _) eqn:E; [|done..].
  intros [= _ <-]. eapply wf_load_events; [apply wf_clear|exact E].
Qed.

End invariant.

(** ** Operations as steps *)

(** What the program does to a ledger once it is loaded. *)
Inductive ledger_op :=
  | Record_event (type : EventType) (payload : bytes) (rd : Readings)
  | Add_external (e : LedgerEvent) (now : Z) (rd : Readings)
  | Set_callback.

Definition step `{Crypto} (l : Ledger) (op : ledger_op) : Ledger :=
  match op with
  | Record_event type payload rd => (record_event type payload rd l).2
  | Add_external e now rd => (add_external_event e now rd l).2
  | Set_callback => set_event_callback l
  end.

Section steps.
Context `{Crypto}.

Lemma wf_step l op :
  wf_ledger l → wf_ledger (step l op) ∧ (tip_ok l → tip_ok (step l op)).
Proof.
  intros W. destruct op; cbn [step].
  - by apply wf_record.
  - by apply wf_add_external.
  - split; [by apply (wf_same l)|done].
Qed.

Lemma wf_steps ops l :
  wf_ledger l → wf_ledger (foldl step l ops) ∧ (tip_ok l → tip_ok (foldl step l ops)).
Proof.
  revert l. induction ops as [|op ops IH]; intros l W; [done|]. cbn [foldl].
  destruct (wf_step l op W) as [W' T']. destruct (IH _ W') as [W'' T'']. auto.
Qed.

Lemma add_event_events e rd l :
  events (add_event e rd l).2 = events l ∨ events (add_event e rd l).2 = events l ++ [e].
Proof. rewrite add_event_eq. destruct (verify_event e rd l); auto. Qed.

Lemma step_events l op : ∃ new, events (step l op) = events l ++ new ∧ len new <= 1.
Proof.
  assert (Hx : ∀ es e, es = events l ∨ es = events l ++ [e] →
    ∃ new, es = events l ++ new ∧ len new <= 1).
  { intros es e [-> | ->]; [exists []|by exists [e]]. by rewrite app_nil_r. }
  destruct op as [type payload rd|e now rd|]; cbn [step].
  - unfold record_event. destruct (create_event type payload rd l) as [e l'] eqn:E.
    assert (events l' = events l) as El by (by injection E as _ <-).
    rewrite <- El in *. eapply Hx, add_event_events.
  - unfold add_external_event. destruct (verify_event_chain e now l); [|by apply (Hx _ e); left].
    destruct (event_lookup l !! event_id e); [by apply (Hx _ e); left|].
    eapply Hx, add_event_events.
  - apply (Hx _ sample_event). by left.
Qed.

Lemma steps_events ops l : ∃ new, events (foldl step l ops) = events l ++ new ∧ len new <= len ops.
Proof.
  revert l. induction ops as [|op ops IH]; intros l.
  { exists []. by rewrite app_nil_r. }
  cbn [foldl]. destruct (step_events l op) as (n1 & E1 & L1). destruct (IH (step l op)) as (n2 & E2 & L2).
  exists (n1 ++ n2). rewrite E2, E1, app_assoc, len_app, len_cons. split; [done|lia].
Qed.

(** [event_lookup_] and [events_] agree: no read outside the vector. *)
Lemma get_event_wf l id :
  wf_ledger l →
  get_event id l = match list_find (λ e, event_id e = id) (events l) with
                   | Some (_, e) => Ok e
                   | None => Err ENullopt
                   end.
Proof.
  intros W. unfold get_event. destruct (event_lookup l !! id) as [i|] eqn:E.
  - apply (wf_lookup _ W) in E as E'. destruct (events l !! i) as [e|] eqn:He; [|done].
    cbn in E'. injection E' as Eid.
    destruct (list_find _ (events l)) as [[j e']|] eqn:F.
    + apply list_find_Some in F as (Hj & Hid & _).
      assert (event_lookup l !! id = Some j) as Ej by (apply (wf_lookup _ W); rewrite Hj; cbn; by f_equal).
      congruence.
    + apply list_find_None in F. eapply Forall_lookup_1 in F; [|exact He]. done.
  - destruct (list_find _ (events l)) as [[j e']|] eqn:F; [|done].
    apply list_find_Some in F as (Hj & Hid & _).
    assert (event_lookup l !! id = Some j) by (apply (wf_lookup _ W); rewrite Hj; cbn; by f_equal).
    congruence.
Qed.

Lemma get_event_elem l e : wf_ledger l → e ∈ events l → get_event (event_id e) l = Ok e.
Proof.
  intros W [i Hi]%list_elem_of_lookup. unfold get_event.
  assert (event_lookup l !! event_id e = Some i) as -> by (apply (wf_lookup _ W); by rewrite Hi).
  by rewrite Hi.
Qed.

Lemma collect_events_elem es l :
  wf_ledger l → (∀ e, e ∈ es → e ∈ events l) → collect_events (event_id <$> es) l = Ok es.
Proof.
  intros W. induction es as [|e es IH]; intros Hin; [done|]. cbn.
  rewrite get_event_elem by (done || apply Hin, list_elem_of_here).
  rewrite IH; [done|]. intros. by apply Hin, list_elem_of_further.
Qed.

End steps.

(** ** What the index means *)

Section index_meaning.

Lemma at_or_push {K} `{Countable K} {A} (k k' : K) (x : A) m :
  at_or [] k' (push_at k x m) = at_or [] k' m ++ (if decide (k = k') then [x] else []).
Proof.
  unfold push_at, at_or. destruct (decide (k = k')) as [->|].
  - by rewrite lookup_insert_eq.
  - by rewrite lookup_insert_ne, app_nil_r.
Qed.

Lemma at_or_insert {K} `{Countable K} {A} `{Countable A} (k k' : K) (x : A) m :
  at_or ∅ k' (insert_at k x m) = at_or ∅ k' m ∪ (if decide (k = k') then {[x]} else ∅).
Proof.
  unfold insert_at, at_or. destruct (decide (k = k')) as [->|].
  - by rewrite lookup_insert_eq.
  - by rewrite lookup_insert_ne, (right_id_L ∅ (∪)).
Qed.

(** The keys a KEY_ISSUED event of [n] grants. *)
Definition issued_by (n : NodeID) (type : KeyType) (e : LedgerEvent) : Z :=
  if decide (event_type e = KEY_ISSUED ∧ source_node e = n) then
    match key_issuance_from_bytes (data e) with
    | Some x => if decide (ki_key_type x = type) then count x else 0
    | None => 0
    end
  else 0.

(** The member an event adds to [net]. *)
Definition member_added (net : Hash256) (e : LedgerEvent) : gset NodeID :=
  if decide (event_type e = NETWORK_MEMBER_ADDED) then
    match membership_from_bytes (data e) with
    | Some x => if decide (nm_network_id x = net) then {[member_node x]} else ∅
    | None => ∅
    end
  else ∅.

(** The host an event adds to [content]. *)
Definition host_added (content : ContentHash) (e : LedgerEvent) : gset NodeID :=
  if decide (event_type e = THING_REPLICATED) then
    match replication_from_bytes (data e) with
    | Some x => if decide (tr_content_hash x = content) then {[hosting_node x]} else ∅
    | None => ∅
    end
  else ∅.

Definition joins (n : NodeID) (e : LedgerEvent) : Prop :=
  event_type e = NODE_JOINED ∧ source_node e = n.

#[export] Instance joins_dec n e : Decision (joins n e).
Proof. unfold joins. apply _. Defined.

Lemma index_add_lists e ix n type :
  at_or [] n (events_by_node (index_add_event e ix)) =
    at_or [] n (events_by_node ix) ++ (if decide (source_node e = n) then [event_id e] else []) ∧
  at_or [] type (events_by_type (index_add_event e ix)) =
    at_or [] type (events_by_type ix) ++ (if decide (event_type e = type) then [event_id e] else []).
Proof.
  destruct ix as [m1 m2 m3 m4 m5 m6 m7 m8]. unfold index_add_event, index_by_payload.
  rewrite <- !at_or_push. cbn [events_by_node events_by_type].
  repeat case_match; done.
Qed.

Lemma index_add_balance e ix n type :
  at_or 0 (n, type) (key_balances (index_add_event e ix)) =
  u32 (at_or 0 (n, type) (key_balances ix) + issued_by n type e)
  ∨ (issued_by n type e = 0 ∧
     at_or 0 (n, type) (key_balances (index_add_event e ix)) =
     at_or 0 (n, type) (key_balances ix)).
Proof.
  destruct ix as [m1 m2 m3 m4 m5 m6 m7 m8]. unfold index_add_event, index_by_payload, issued_by.
  cbn [key_balances].
  destruct (decide (event_type e = NODE_JOINED)) as [E1|E1].
  { right. rewrite decide_False; [done|]. rewrite E1. by intros [? _]. }
  destruct (decide (event_type e = KEY_ISSUED)) as [E2|E2].
  - destruct (key_issuance_from_bytes (data e)) as [x|]; [|right; by case_decide].
    cbn [key_balances]. unfold at_or.
    destruct (decide ((source_node e, ki_key_type x) = (n, type))) as [[= <- <-]|Hne].
    + left. rewrite lookup_insert_eq, !decide_True by done. done.
    + right. rewrite lookup_insert_ne by done. split; [|done].
      repeat case_decide; naive_solver.
  - right. split; [rewrite decide_False; [done|naive_solver]|].
    repeat case_match; done.
Qed.

Lemma index_add_members e ix net :
  at_or ∅ net (network_members (index_add_event e ix)) =
  at_or ∅ net (network_members ix) ∪ member_added net e.
Proof.
  destruct ix as [m1 m2 m3 m4 m5 m6 m7 m8].
  unfold index_add_event, index_by_payload, member_added. cbn [network_members].
  destruct (decide (event_type e = NETWORK_MEMBER_ADDED)) as [E|E].
  - rewrite !decide_False by (rewrite E; done).
    destruct (membership_from_bytes (data e)) as [x|]; cbn [network_members].
    + apply at_or_insert.
    + by rewrite (right_id_L ∅ (∪)).
  - rewrite (right_id_L ∅ (∪)). repeat case_match; done.
Qed.

Lemma index_add_hosts e ix content :
  at_or ∅ content (thing_hosts (index_add_event e ix)) =
  at_or ∅ content (thing_hosts ix) ∪ host_added content e.
Proof.
  destruct ix as [m1 m2 m3 m4 m5 m6 m7 m8].
  unfold index_add_event, index_by_payload, host_added. cbn [thing_hosts].
  destruct (decide (event_type e = THING_REPLICATED)) as [E|E].
  - rewrite !decide_False by (rewrite E; done).
    destruct (replication_from_bytes (data e)) as [x|]; cbn [thing_hosts].
    + apply at_or_insert.
    + by rewrite (right_id_L ∅ (∪)).
  - rewrite (right_id_L ∅ (∪)). repeat case_match; done.
Qed.

Lemma index_add_joined e ix n :
  node_join_times (index_add_event e ix) !! n =
  if decide (joins n e) then Some (timestamp e) else node_join_times ix !! n.
Proof.
  destruct ix as [m1 m2 m3 m4 m5 m6 m7 m8].
  unfold index_add_event, index_by_payload. cbn [node_join_times].
  destruct (decide (event_type e = NODE_JOINED)) as [E|E].
  - cbn [node_join_times]. destruct (decide (source_node e = n)) as [Hn|Hn].
    + rewrite Hn, lookup_insert_eq. by rewrite decide_True.
    + rewrite lookup_insert_ne by done. rewrite decide_False; [done|]. by intros [_ ?].
  - rewrite (decide_False (P := joins n e)) by (by intros [? _]). repeat case_match; done.
Qed.

Definition sum_issued (n : NodeID) (type : KeyType) (es : list LedgerEvent) : Z :=
  foldr (λ e acc, issued_by n type e + acc) 0 es.

Lemma sum_issued_app n type es e : sum_issued n type (es ++ [e]) = sum_issued n type es + issued_by n type e.
Proof.
  unfold sum_issued. induction es as [|x es IH]; cbn [foldr app]; [lia|]. rewrite IH. lia.
Qed.

Lemma rebuild_by_node es n :
  index_events_by_node n (rebuild_from_events es) =
  event_id <$> filter (λ e, source_node e = n) es.
Proof.
  unfold index_events_by_node. induction es as [|e es IH] using rev_ind; [done|].
  rewrite rebuild_app, (proj1 (index_add_lists e _ n NODE_JOINED)), IH.
  rewrite list.filter_app, fmap_app. f_equal. rewrite filter_cons.
  by destruct (decide (source_node e = n)).
Qed.

Lemma rebuild_balance es n type :
  get_total_keys_issued n type (rebuild_from_events es) = u32 (sum_issued n type es).
Proof.
  unfold get_total_keys_issued. induction es as [|e es IH] using rev_ind; [done|].
  rewrite rebuild_app, sum_issued_app.
  destruct (index_add_balance e (rebuild_from_events es) n type) as [E|[E0 E]];
    rewrite E, IH; [apply wrap_add_l|]. by rewrite E0, Z.add_0_r.
Qed.

Lemma rebuild_members es net :
  at_or ∅ net (network_members (rebuild_from_events es)) = ⋃ (member_added net <$> es).
Proof.
  induction es as [|e es IH] using rev_ind; [done|].
  rewrite rebuild_app, index_add_members, IH, fmap_app, union_list_app_L. cbn.
  by rewrite (right_id_L ∅ (∪)).
Qed.

Lemma rebuild_hosts es content :
  at_or ∅ content (thing_hosts (rebuild_from_events es)) = ⋃ (host_added content <$> es).
Proof.
  induction es as [|e es IH] using rev_ind; [done|].
  rewrite rebuild_app, index_add_hosts, IH, fmap_app, union_list_app_L. cbn.
  by rewrite (right_id_L ∅ (∪)).
Qed.

Lemma rebuild_joined es n :
  get_node_join_time n (rebuild_from_events es) =
  timestamp <$> list.last (filter (joins n) es).
Proof.
  unfold get_node_join_time. induction es as [|e es IH] using rev_ind; [done|].
  rewrite rebuild_app, index_add_joined, list.filter_app, filter_cons.
  destruct (decide (joins n e)).
  - by rewrite filter_nil, list.last_snoc.
  - by rewrite filter_nil, app_nil_r, IH.
Qed.

Lemma members_at net ix :
  get_network_members net ix = set_elements (at_or ∅ net (network_members ix)).
Proof. unfold get_network_members, at_or. by destruct (network_members ix !! net). Qed.

Lemma hosts_at content ix :
  get_thing_hosts content ix = set_elements (at_or ∅ content (thing_hosts ix)).
Proof. unfold get_thing_hosts, at_or. by destruct (thing_hosts ix !! content). Qed.

End index_meaning.

(** ** Persistence lemmas *)

Section files.
Context `{Crypto}.

(** An event whose frame can be written and read back. *)
Definition storable (e : LedgerEvent) : Prop :=
  event_encodable e ∧ len (data e) < 2 ^ 32 - 181.

#[export] Instance storable_dec e : Decision (storable e).
Proof. unfold storable, event_encodable. apply _. Defined.

Lemma storable_frame e :
  storable e → in_u 32 (len (event_to_bytes e)) ∧ event_from_bytes (event_to_bytes e) = Some e.
Proof.
  intros [He Hd]. pose proof (len_nonneg (data e)). pose proof (len_event e) as Hl.
  assert (in_u 32 (len (event_to_bytes e))) by (unfold in_u; lia).
  split; [done|]. unfold in_u in *.
  refine (decode_encode_exact e He _). unfold vector_fits. cbn [encode LedgerEvent_codec]. lia.
Qed.

(** One iteration over a well-formed frame. *)
Lemma load_events_frame n e rest clock l :
  storable e →
  load_events (S n) true (event_frame e ++ rest) clock l =
  load_events n true rest clock (add_event e (clock n) l).2.
Proof.
  intros Hs. destruct (storable_frame e Hs) as [Hr Hd]. cbn [load_events].
  unfold event_frame. rewrite <- app_assoc.
  pose proof (len_nonneg (event_to_bytes e ++ rest)).
  rewrite len_app, len_le_bytes. cbn [negb orb].
  rewrite (proj2 (Z.ltb_ge _ _)) by lia.
  rewrite (take_app_length' (le_bytes 4 _)), (drop_app_length' (le_bytes 4 _))
    by (by rewrite length_le_bytes).
  rewrite le_val_bytes, wrap_small by done.
  unfold len. rewrite Nat2Z.id, take_app_length, drop_app_length.
  rewrite Nat.sub_diag. cbn [replicate]. rewrite app_nil_r, Hd.
  by rewrite Z.eqb_refl.
Qed.

Definition append_all (es : list LedgerEvent) (l : Ledger) : Ledger :=
  foldl (λ l e, append_event e l) l es.

Lemma append_all_events es l : events (append_all es l) = events l ++ es.
Proof.
  unfold append_all. revert l. induction es as [|e es IH]; intros l; [by rewrite app_nil_r|].
  cbn [foldl]. rewrite IH. cbn. by rewrite <- app_assoc.
Qed.

(** Loading the frames of a well-linked list appends all of it. *)
Lemma load_events_all es clock l :
  wf_ledger l → Forall storable es → linked (tip (events l)) es →
  NoDup (event_id <$> events l ++ es) →
  (∀ i e, e ∈ es → timestamp e <= u64 (at_chain (clock i) + MAX_FUTURE_SKEW_SECONDS) ∧
                   timestamp e <= u64 (at_verify (clock i) + MAX_FUTURE_SKEW_SECONDS)) →
  load_events (length es) true (mjoin (event_frame <$> es)) clock l = Ok (append_all es l).
Proof.
  revert l. induction es as [|e es IH]; intros l W Hs Hl Hnd Ht; [done|].
  apply Forall_cons_1 in Hs as [Hse Hs]. destruct Hl as [Hp Hl].
  change (mjoin (event_frame <$> e :: es)) with (event_frame e ++ mjoin (event_frame <$> es)).
  cbn [length]. rewrite load_events_frame by done.
  assert (Hv : verify_event e (clock (length es)) l = true).
  { apply verify_event_spec. destruct (Ht (length es) e (list_elem_of_here _ _)).
    split_and!; [|done|done|done].
    apply lookup_known; [done|]. rewrite fmap_app, fmap_cons in Hnd.
    apply list.NoDup_app in Hnd as (_ & Hd & _). intros Hin. eapply Hd; [exact Hin|].
    apply list_elem_of_here. }
  rewrite add_event_eq, Hv. cbn [snd]. rewrite IH; [done|..].
  - apply wf_append; [done| |done]. apply verify_event_spec in Hv. apply Hv.
  - done.
  - cbn. by rewrite tip_app.
  - cbn. by rewrite <- app_assoc.
  - intros. apply Ht. by apply list_elem_of_further.
Qed.

(** Two well-formed ledgers with the same events have the same tables. *)
Lemma wf_determined l l' :
  wf_ledger l → wf_ledger l' → events l = events l' →
  event_lookup l = event_lookup l' ∧ index l = index l'.
Proof.
  intros W W' E. split; [|by rewrite (wf_index _ W), (wf_index _ W'), E].
  apply map_eq. intros id. apply option_eq. intros i.
  by rewrite (wf_lookup _ W), (wf_lookup _ W'), E.
Qed.

(** Loading what [save_to_file] wrote. *)
Lemma load_saved l l0 clock :
  wf_ledger l → Forall storable (events l) → len (events l) < 2 ^ 64 →
  (∀ i e, e ∈ events l →
     timestamp e <= u64 (at_chain (clock i) + MAX_FUTURE_SKEW_SECONDS) ∧
     timestamp e <= u64 (at_verify (clock i) + MAX_FUTURE_SKEW_SECONDS)) →
  load_from_file (Some (save_to_file l)) clock l0 =
  Ok (true, append_all (events l) (clear_events l0)).
Proof.
  intros W Hs Hn Ht. pose proof (len_nonneg (events l)).
  unfold load_from_file, save_to_file. rewrite len_app, len_le_bytes.
  pose proof (len_nonneg (mjoin (event_frame <$> events l))).
  rewrite (proj2 (Z.ltb_ge _ _)) by lia.
  rewrite (take_app_length' (le_bytes 8 _)), (drop_app_length' (le_bytes 8 _))
    by (by rewrite length_le_bytes).
  rewrite le_val_bytes, wrap_small by (unfold in_u; lia).
  unfold len at 1. rewrite Nat2Z.id.
  rewrite load_events_all; [done|apply wf_clear|done|apply W|apply W|done].
Qed.

Lemma append_all_latest es l :
  es ≠ [] → latest_hash (append_all es l) = tip (events l ++ es).
Proof.
  intros Hne. destruct es as [|e es _] using rev_ind; [done|].
  unfold append_all. rewrite foldl_app. cbn. by rewrite app_assoc, tip_app.
Qed.

End files.

(** ** Validation lemmas *)

Section validation.
Context `{Crypto}.

Lemma links_ok_spec prev es : links_ok prev es = true ↔ linked (compute_hash prev) es.
Proof.
  revert prev. induction es as [|e es IH]; intros prev; [done|]. cbn [links_ok linked].
  case_bool_decide as E; [|by split; [|intros [? _]]]. rewrite IH. tauto.
Qed.

(** A link between neighbours that does not hold. *)
Definition broken_at (es : list LedgerEvent) (id : Hash256) : Prop :=
  ∃ i a b, es !! i = Some a ∧ es !! S i = Some b ∧ event_id b = id ∧
    previous_hash b ≠ compute_hash a.

Lemma broken_at_cons a b es id :
  broken_at (a :: b :: es) id ↔
  (event_id b = id ∧ previous_hash b ≠ compute_hash a) ∨ broken_at (b :: es) id.
Proof.
  split.
  - intros ([|i] & x & y & Hx & Hy & Hid & Hne); cbn in Hx, Hy.
    + left. by injection Hx as ->; injection Hy as ->.
    + right. by exists i, x, y.
  - intros [[Hid Hne]|(i & x & y & Hx & Hy & Hid & Hne)].
    + by exists 0%nat, a, b.
    + by exists (S i), x, y.
Qed.

Lemma broken_links_spec a es id : id ∈ broken_links a es ↔ broken_at (a :: es) id.
Proof.
  revert a. induction es as [|b es IH]; intros a.
  - cbn. split; [intros Hin; by apply not_elem_of_nil in Hin|].
    by intros (i & x & y & _ & Hy & _).
  - cbn [broken_links]. rewrite elem_of_app, IH, broken_at_cons.
    case_bool_decide as E.
    + split; [intros [Hin|?]; [by apply not_elem_of_nil in Hin|by right]|intros [[_ ?]|?]; auto; done].
    + rewrite list_elem_of_singleton. naive_solver.
Qed.

Definition occurrences (id : Hash256) (es : list LedgerEvent) : Z :=
  len (filter (λ e, event_id e = id) es).

Lemma occurrences_app id es e :
  occurrences id (es ++ [e]) = occurrences id es + (if decide (event_id e = id) then 1 else 0).
Proof.
  unfold occurrences. rewrite list.filter_app, len_app, filter_cons.
  destruct (decide _); [done|]. by rewrite filter_nil.
Qed.

Lemma occurrences_le id es : 0 <= occurrences id es <= len es.
Proof.
  unfold occurrences, len. pose proof (length_filter (λ e, event_id e = id) es). lia.
Qed.

Lemma seen_counts_spec es h :
  len es < 2 ^ 32 →
  seen_counts es !! h =
  if decide (0 < occurrences h es) then Some (occurrences h es) else None.
Proof.
  unfold seen_counts. induction es as [|e es IH] using rev_ind; [done|]. intros Hl.
  rewrite len_app in Hl. change (len [e]) with 1 in Hl. pose proof (occurrences_le h es).
  rewrite foldl_app. cbn [foldl]. rewrite occurrences_app. specialize (IH ltac:(lia)).
  destruct (decide (event_id e = h)) as [->|Hne].
  - rewrite lookup_insert_eq. unfold at_or at 1. rewrite IH.
    rewrite (decide_True (P := 0 < _ + 1)) by lia. f_equal.
    destruct (decide _); unfold default, from_option, id;
      rewrite wrap_small; unfold in_u; lia.
  - rewrite lookup_insert_ne, IH by done. by rewrite Z.add_0_r.
Qed.

Lemma detect_conflicts_spec l id :
  len (events l) < 2 ^ 32 →
  id ∈ detect_conflicts l ↔ 1 < occurrences id (events l) ∨ broken_at (events l) id.
Proof.
  intros Hl. unfold detect_conflicts. rewrite elem_of_app.
  assert (H1 : id ∈ (filter (λ p, 1 < p.2) (entries (seen_counts (events l)))).*1 ↔
               1 < occurrences id (events l)).
  { rewrite list_elem_of_fmap. split.
    - intros ([id' c] & -> & [Hc He]%list_elem_of_filter). cbn in *.
      apply elem_of_entries in He. rewrite seen_counts_spec in He by done.
      destruct (decide _); [|done]. by injection He as ->.
    - intros Hc. exists (id, occurrences id (events l)). split; [done|].
      apply list_elem_of_filter. split; [done|]. apply elem_of_entries.
      rewrite seen_counts_spec by done. by rewrite decide_True by lia. }
  rewrite H1. destruct (events l) as [|a es] eqn:E.
  - split; intros [?|Hx]; [by left|by apply not_elem_of_nil in Hx|by left|].
    by destruct Hx as (i & x & y & Hx & _).
  - by rewrite broken_links_spec.
Qed.

(** Duplicate-free identifiers occur at most once. *)
Lemma occurrences_unique id es : NoDup (event_id <$> es) → occurrences id es <= 1.
Proof.
  induction es as [|e es IH]; [done|]. rewrite fmap_cons. intros [Hni Hnd]%list.NoDup_cons.
  unfold occurrences in *. rewrite filter_cons. destruct (decide _) as [<-|]; [|by apply IH].
  assert (filter (λ x, event_id x = event_id e) es = []) as ->; [|done].
  destruct (filter _ es) as [|x l] eqn:F; [done|].
  assert (x ∈ filter (λ x, event_id x = event_id e) es) as [Hx Hin]%list_elem_of_filter
    by (rewrite F; apply list_elem_of_here).
  destruct Hni. rewrite <- Hx. by apply list_elem_of_fmap_2.
Qed.

Lemma linked_lookup prev es i a b :
  linked prev es → es !! i = Some a → es !! S i = Some b → previous_hash b = compute_hash a.
Proof.
  revert prev i. induction es as [|e es IH]; [done|].
  intros prev [|i] [Hp Hl] Ha Hb; cbn in Ha, Hb.
  - injection Ha as ->. destruct es as [|e' es]; [done|]. injection Hb as ->. apply Hl.
  - by eapply IH.
Qed.

Lemma wf_valid l :
  wf_ledger l → validate_chain l = true ∧ (len (events l) < 2 ^ 32 → detect_conflicts l = []).
Proof.
  intros W. split.
  - unfold validate_chain. pose proof (wf_linked _ W) as Hl.
    destruct (events l) as [|e es]; [done|]. apply links_ok_spec, Hl.
  - intros Hl. destruct (detect_conflicts l) as [|id ids] eqn:E; [done|].
    assert (Hin : id ∈ detect_conflicts l) by (rewrite E; apply list_elem_of_here).
    apply detect_conflicts_spec in Hin as [Ho|(i & a & b & Ha & Hb & _ & Hne)]; [| |done].
    + pose proof (occurrences_unique id (events l) (wf_unique _ W)). lia.
    + destruct Hne. by eapply linked_lookup; [apply W|..].
Qed.

End validation.

(** ** A sample *)

Definition sample_local : NodeID := sample_node 1.
Definition readings_at (t : Z) : Readings := MkReadings t t t t.

Definition sample_ops : list ledger_op :=
  [Record_event NODE_JOINED (arr sample_local) (readings_at 1700000000);
   Record_event KEY_ISSUED
     (key_issuance_to_bytes (MkKeyIssuanceData SERVICE 3 POW (zeros 32))) (readings_at 1700000060)].

Definition sample_ledger : Ledger :=
  foldl (@step toy_crypto) (new_ledger sample_local) sample_ops.

Lemma sample_ledger_wf : @wf_ledger toy_crypto sample_ledger ∧ @tip_ok toy_crypto sample_ledger.
Proof.
  destruct (@wf_new toy_crypto sample_local) as [W T].
  destruct (@wf_steps toy_crypto sample_ops _ W) as [W' T']. split; [exact W'|exact (T' T)].
Qed.

(** ** Properties *)

(** C1: whatever local and external events a ledger is offered from its construction
    on, the lookup table, the index and the hash links stay those of its event list,
    the stored tip is the hash of the last event, [validate_chain] accepts it, no
    conflict is detected, and no query reads out of bounds. *)
Theorem ledger_reachable_invariant `{Crypto} local ops :
  let l := foldl step (new_ledger local) ops in
  wf_ledger l ∧ tip_ok l ∧ validate_chain l = true ∧
  (len ops < 2 ^ 32 → detect_conflicts l = []) ∧
  ∀ id, get_event id l ≠ Undef.
Proof.
  cbv zeta. destruct (wf_new local) as [W0 T0].
  destruct (wf_steps ops _ W0) as [W T]. destruct (wf_valid _ W) as [Hv Hc].
  split_and!; [done|by apply T|done| |].
  - intros Hl. apply Hc. destruct (steps_events ops (new_ledger local)) as (new & -> & Hn).
    cbn [events new_ledger app]. lia.
  - intros id. rewrite get_event_wf by done. by destruct (list_find _ _) as [[? ?]|].
Qed.

(** No sequence of operations removes, reorders or alters a stored event: the events only
    grow at the end, and every earlier event is still found by its identifier. *)
Theorem ledger_append_only `{Crypto} l ops :
  wf_ledger l →
  ∃ new, events (foldl step l ops) = events l ++ new ∧
    ∀ e, e ∈ events l → get_event (event_id e) (foldl step l ops) = Ok e.
Proof.
  intros W. destruct (wf_steps ops _ W) as [W' _].
  destruct (steps_events ops l) as (new & E & _). exists new. split; [done|].
  intros e He. apply get_event_elem; [done|]. rewrite E. apply elem_of_app. by left.
Qed.

Lemma ledger_append_only_witness :
  ∃ new, events (foldl (@step toy_crypto) sample_ledger sample_ops) =
    events sample_ledger ++ new.
Proof.
  destruct (@ledger_append_only toy_crypto sample_ledger sample_ops (proj1 sample_ledger_wf))
    as (new & E & _).
  exists new. exact E.
Defined.

(** Recording an event advances the counter; when its identifier is fresh it is appended
    with the given type, payload, author and time, becomes the tip and is shown to the
    callback, and otherwise the zero hash is returned and nothing is stored. *)
Theorem record_event_spec `{Crypto} type payload rd l :
  wf_ledger l → tip_ok l →
  at_creation rd <= u64 (at_chain rd + MAX_FUTURE_SKEW_SECONDS) →
  at_creation rd <= u64 (at_verify rd + MAX_FUTURE_SKEW_SECONDS) →
  let id := blake3 (id_data l (at_creation rd)) in
  let '(result, l') := record_event type payload rd l in
  event_counter l' = u64 (event_counter l + 1) ∧
  (event_lookup l !! id = None →
     result = id ∧ ∃ e, events l' = events l ++ [e] ∧ get_event id l' = Ok e ∧
       event_type e = type ∧ data e = payload ∧ source_node e = local_node_id l ∧
       timestamp e = at_creation rd ∧ latest_hash l' = compute_hash e ∧
       event_callback l' = (λ seen, seen ++ [e]) <$> event_callback l) ∧
  (event_lookup l !! id ≠ None → result = zeros 32 ∧ events l' = events l).
Proof.
  intros W T Hc Hv. cbv zeta. unfold record_event.
  destruct (create_event type payload rd l) as [e l0] eqn:E.
  assert (W0 : wf_ledger l0) by (injection E as _ <-; by apply (wf_same l)).
  injection E as Ee El. rewrite add_event_eq.
  destruct (verify_event e rd l0) eqn:V.
  - apply verify_event_spec in V as V'. destruct V' as (Hn & Hp & _).
    destruct (wf_append e l0 W0 Hn Hp) as [W' _].
    assert (Hin : e ∈ events (append_event e l0))
      by (apply elem_of_app; right; apply list_elem_of_here).
    pose proof (get_event_elem _ e W' Hin) as Hg.
    subst e l0. cbn in Hn, Hg |- *. split; [done|]. rewrite Hn. split; [|done].
    intros _. split; [done|]. eexists. split; [done|]. by split_and!.
  - subst e l0. cbn. split; [done|]. split; [|done]. intros Hn.
    destruct (not_true_iff_false (verify_event (MkLedgerEvent
      (blake3 (id_data l (at_creation rd))) type (local_node_id l) (at_creation rd)
      (current_epoch (at_epoch rd)) (latest_hash l) payload (doubled (blake3
        (arr (blake3 (id_data l (at_creation rd))) ++ arr (latest_hash l) ++ payload)))) rd
      (MkLedger (local_node_id l) (events l) (event_lookup l) (index l) (latest_hash l)
        (u64 (event_counter l + 1)) (event_callback l)))) as [_ Hx].
    destruct (Hx V). apply verify_event_spec. by split_and!.
Qed.

Lemma record_event_spec_witness :
  let '(result, l') := @record_event toy_crypto NODE_LEFT (arr sample_local)
    (readings_at 1700000120) sample_ledger in
  event_counter l' = 3 ∧ result = @blake3 toy_crypto (id_data sample_ledger 1700000120).
Proof.
  pose proof (@record_event_spec toy_crypto NODE_LEFT (arr sample_local)
    (readings_at 1700000120) sample_ledger (proj1 sample_ledger_wf) (proj2 sample_ledger_wf))
    as HT.
  destruct (record_event _ _ _ _) as [result l']. destruct HT as (Hc & Hr & _).
  - vm_compute. discriminate.
  - vm_compute. discriminate.
  - split; [|apply Hr; vm_compute; reflexivity].
    refine (eq_trans Hc _). vm_compute. reflexivity.
Defined.

(** C2: an external event is accepted exactly when it is new, links to the tip and, on
    a non-empty ledger, is at most five minutes ahead; an accepted event that also
    passes [verify_event] is appended, and any other call leaves the ledger as it was;
    on an empty ledger an event from the far future is reported as accepted and not
    stored. *)
Theorem add_external_event_spec `{Crypto} e now rd l :
  let '(accepted, l') := add_external_event e now rd l in
  (accepted = true ↔
     event_lookup l !! event_id e = None ∧ previous_hash e = tip (events l) ∧
     (events l ≠ [] → timestamp e <= u64 (now + MAX_FUTURE_SKEW_SECONDS))) ∧
  (accepted = true → acceptable e rd l → events l' = events l ++ [e] ∧
     latest_hash l' = compute_hash e) ∧
  (accepted = true → ¬ acceptable e rd l → l' = l) ∧
  (accepted = false → l' = l) ∧
  (wf_ledger l → events l = [] → previous_hash e = zeros 32 →
     u64 (at_verify rd + MAX_FUTURE_SKEW_SECONDS) < timestamp e → accepted = true ∧ l' = l).
Proof.
  unfold add_external_event. pose proof (verify_event_chain_spec e now l) as Hc.
  assert (Hn : wf_ledger l → events l = [] → event_lookup l !! event_id e = None).
  { intros W E. apply lookup_known; [done|]. rewrite E. apply not_elem_of_nil. }
  destruct (verify_event_chain e now l).
  - destruct (event_lookup l !! event_id e) eqn:En.
    + split; [split; [done|by intros [? _]]|]. split; [done|]. split; [done|]. split; [done|].
      intros W E. by specialize (Hn W E).
    + rewrite add_event_eq. pose proof (verify_event_spec e rd l) as Hv.
      destruct (verify_event e rd l); cbn [snd].
      * split; [tauto|]. split; [done|]. split; [intros _ []; by apply Hv|]. split; [done|].
        intros _ _ _ Ht. destruct (proj1 Hv eq_refl) as (_ & _ & _ & ?). lia.
      * split; [tauto|]. split; [intros _ Ha; by apply Hv in Ha|done].
  - split; [split; [done|]|].
    + intros (_ & Hp & Ht). by destruct (proj2 Hc (conj Hp Ht)).
    + split; [done|]. split; [done|]. split; [done|]. intros _ E Hp _.
      assert (false = true) as [=]. apply Hc. rewrite E. done.
Qed.

(** An event dated more than five minutes ahead, for an empty ledger. *)
Definition early_event : LedgerEvent :=
  MkLedgerEvent (array_fill 32 (to_byte 5)) NODE_JOINED sample_local 1700009999 0
    (zeros 32) [] (zeros 64).

Lemma add_external_event_spec_witness :
  @add_external_event toy_crypto early_event 1700000000 (readings_at 1700000000)
    (new_ledger sample_local) = (true, new_ledger sample_local).
Proof.
  pose proof (@add_external_event_spec toy_crypto early_event 1700000000
    (readings_at 1700000000) (new_ledger sample_local)) as HT.
  destruct (add_external_event _ _ _ _) as [b l']. destruct HT as (_ & _ & _ & _ & HT).
  destruct HT as [-> ->]; [|reflexivity..|reflexivity].
  apply (@wf_new toy_crypto).
Defined.

(** Loading an empty file into a ledger with a history succeeds but keeps its tip, and
    from then on no local event is ever stored. *)
Lemma load_keeps_stale_hash `{Crypto} local clock l :
  latest_hash l ≠ zeros 32 →
  ∃ l', load_from_file (Some (save_to_file (new_ledger local))) clock l = Ok (true, l') ∧
    events l' = [] ∧
    ∀ requests, events (foldl (λ l '(type, payload, rd), (record_event type payload rd l).2)
      l' requests) = [].
Proof.
  intros Hz. exists (clear_events l). split; [done|]. split; [done|].
  assert (Hgen : ∀ requests l', events l' = [] → latest_hash l' ≠ zeros 32 →
    events (foldl (λ l '(type, payload, rd), (record_event type payload rd l).2) l' requests) = []);
    [|intros; by apply Hgen].
  intros requests. induction requests as [|[[type payload] rd] rs IH]; intros l' He Hl'; [done|].
  cbn [foldl]. assert (Hr : verify_event (create_event type payload rd l').1 rd
    (create_event type payload rd l').2 = false).
  { apply not_true_iff_false. rewrite verify_event_spec. intros (_ & Hp & _).
    cbn in Hp. rewrite He in Hp. done. }
  unfold record_event. destruct (create_event type payload rd l') as [e l''] eqn:E.
  cbn [fst snd] in Hr. rewrite add_event_eq, Hr. injection E as _ <-. by apply IH.
Qed.

(** C10: loading the file a well-formed ledger wrote restores its events, lookup table
    and index, whatever the loading ledger held, as long as the clock has not gone
    back; the tip follows when there is at least one event, but loading an empty file
    into a ledger with a history keeps its tip, and from then on no local event is
    ever stored. *)
Theorem save_load_roundtrip `{Crypto} :
  (∀ l l0 clock,
     wf_ledger l → Forall storable (events l) → len (events l) < 2 ^ 64 →
     (∀ i e, e ∈ events l →
        timestamp e <= u64 (at_chain (clock i) + MAX_FUTURE_SKEW_SECONDS) ∧
        timestamp e <= u64 (at_verify (clock i) + MAX_FUTURE_SKEW_SECONDS)) →
     ∃ l', load_from_file (Some (save_to_file l)) clock l0 = Ok (true, l') ∧
       events l' = events l ∧ event_lookup l' = event_lookup l ∧ index l' = index l ∧
       (events l ≠ [] → tip_ok l')) ∧
  (∀ local clock l, latest_hash l ≠ zeros 32 →
     ∃ l', load_from_file (Some (save_to_file (new_ledger local))) clock l = Ok (true, l') ∧
       events l' = [] ∧
       ∀ requests, events (foldl (λ l '(type, payload, rd), (record_event type payload rd l).2)
         l' requests) = []).
Proof.
  split; [|apply load_keeps_stale_hash]. intros l l0 clock W Hs Hn Ht. eexists.
  pose proof (load_saved l l0 clock W Hs Hn Ht) as Hload. split; [exact Hload|].
  assert (W' : wf_ledger (append_all (events l) (clear_events l0))).
  { unfold load_from_file in Hload. destruct (_ <? _); [done|].
    destruct (load_events _ _ _ _ _) eqn:E; [|done..]. injection Hload as <-.
    eapply wf_load_events; [apply wf_clear|exact E]. }
  pose proof (append_all_events (events l) (clear_events l0)) as He. cbn [clear_events events app] in He.
  destruct (wf_determined _ _ W' W He) as [Hl Hi]. split_and!; [done..|].
  intros Hne. unfold tip_ok. rewrite He, append_all_latest by done. done.
Qed.

Lemma save_load_roundtrip_witness :
  (∃ l', @load_from_file toy_crypto (Some (save_to_file sample_ledger))
       (λ _, readings_at 1700000300) (new_ledger (sample_node 4)) = Ok (true, l') ∧
     events l' = events sample_ledger) ∧
  ∃ l', @load_from_file toy_crypto (Some (save_to_file (new_ledger sample_local)))
      (λ _, readings_at 1700000300) sample_ledger = Ok (true, l') ∧
    events (@record_event toy_crypto NODE_LEFT [] (readings_at 1700000400) l').2 = [].
Proof.
  split.
  - destruct (proj1 (@save_load_roundtrip toy_crypto) sample_ledger (new_ledger (sample_node 4))
      (λ _, readings_at 1700000300) (proj1 sample_ledger_wf)) as (l' & Hl & He & _).
    + apply (bool_decide_eq_true_1 _). vm_compute. reflexivity.
    + vm_compute. reflexivity.
    + intros _ e.
      assert (Hall : Forall (λ e, timestamp e <= 1700000600) (events sample_ledger))
        by (apply (bool_decide_eq_true_1 _); vm_compute; reflexivity).
      rewrite list.Forall_forall in Hall. intros Hin. specialize (Hall e Hin).
      assert (Hu : u64 (1700000300 + MAX_FUTURE_SKEW_SECONDS) = 1700000600) by reflexivity.
      cbn [at_chain at_verify readings_at]. rewrite Hu. split; exact Hall.
    + exists l'. split; [exact Hl|exact He].
  - destruct (proj2 (@save_load_roundtrip toy_crypto) sample_local (λ _, readings_at 1700000300)
      sample_ledger) as (l' & Hl & _ & Hr).
    + intros E%(f_equal arr). vm_compute in E. discriminate E.
    + exists l'. split; [exact Hl|]. exact (Hr [(NODE_LEFT, [], readings_at 1700000400)]).
Defined.

(** The incremental index answers as a scan of the events would: the events of an author
    in order, the last join time, the keys issued modulo [2 ^ 32], the members of a
    network and the hosts of a thing. *)
Theorem index_reflects_events `{Crypto} l n type net content :
  wf_ledger l →
  get_events_by_node n l = Ok (filter (λ e, source_node e = n) (events l)) ∧
  get_node_join_time n (index l) = timestamp <$> list.last (filter (joins n) (events l)) ∧
  get_total_keys_issued n type (index l) = u32 (sum_issued n type (events l)) ∧
  get_network_members net (index l) = set_elements (⋃ (member_added net <$> events l)) ∧
  get_thing_hosts content (index l) = set_elements (⋃ (host_added content <$> events l)).
Proof.
  intros W. rewrite members_at, hosts_at. unfold get_events_by_node. rewrite (wf_index _ W).
  rewrite rebuild_by_node, rebuild_joined, rebuild_balance, rebuild_members, rebuild_hosts.
  split; [|done]. apply collect_events_elem; [done|].
  by intros e [_ He]%list_elem_of_filter.
Qed.

Lemma index_reflects_events_witness :
  get_total_keys_issued sample_local SERVICE (index sample_ledger) =
  u32 (sum_issued sample_local SERVICE (events sample_ledger)).
Proof.
  destruct (@index_reflects_events toy_crypto sample_ledger sample_local SERVICE (zeros 32)
    (zeros 32) (proj1 sample_ledger_wf)) as (_ & _ & HT & _).
  exact HT.
Defined.

(** [detect_conflicts] reports exactly the identifiers that occur twice and the events
    whose link does not match the hash of their predecessor, and [validate_chain] accepts
    exactly the lists without a broken link. *)
Theorem conflict_detection_exact `{Crypto} l :
  len (events l) < 2 ^ 32 →
  (∀ h, h ∈ detect_conflicts l ↔ 1 < occurrences h (events l) ∨ broken_at (events l) h) ∧
  (validate_chain l = true ↔ ∀ h, ¬ broken_at (events l) h).
Proof.
  intros Hl. split; [intros h; by apply detect_conflicts_spec|].
  unfold validate_chain. destruct (events l) as [|e es].
  - split; [|done]. by intros _ h (i & a & b & Ha & _).
  - clear Hl. revert e. induction es as [|e' es IH]; intros e.
    + split; [|done]. intros _ h (i & a & b & _ & Hb & _). by destruct i.
    + cbn [links_ok]. setoid_rewrite broken_at_cons. case_bool_decide as E.
      * rewrite IH. naive_solver.
      * split; [done|]. intros Hn. destruct (Hn (event_id e')). by left.
Qed.

Lemma conflict_detection_exact_witness :
  @validate_chain toy_crypto sample_ledger = true ↔
  ∀ h, ¬ @broken_at toy_crypto (events sample_ledger) h.
Proof. apply (@conflict_detection_exact toy_crypto). vm_compute. done. Defined.
