(* ===== verification/State.v ===== *)
(** The state view built from the ledger: src/core/ledger/state.hpp and
    state.cpp.

    [StateManager] holds three maps; [apply_event] is the [switch] over event
    types with one handler per type, and the queries, capability checks and
    maintenance passes are functions on the maps.  [operator[]] creates missing
    entries with the default constructor, which leaves [node_id] and
    [network_id] indeterminate: they are [option]s here, [None] before they are
    assigned.  A signed overflow of a reputation score is [Undef]. *)

From Stdlib Require Import Strings.Byte.
From S2P Require Import Prelude Reader Common Crypto Key Event Ledger.

(** ** Data *)

Record NodeState := MkNodeState {
  node_id : option NodeID;
  joined_at : Z;
  ns_is_active : bool;
  ns_key_balances : gmap KeyType Z;
  ns_networks : gset Hash256;
  hosted_things : gset ContentHash;
  reputation_score : Z;
  uptime_seconds : Z;
  bandwidth_contributed : Z;
  pow_solutions : Z;
  postake_contributions : Z
}.

Definition default_node : NodeState := MkNodeState None 0 false ∅ ∅ ∅ 0 0 0 0 0.

Definition has_key_type (type : KeyType) (min_count : Z) (st : NodeState) : bool :=
  match ns_key_balances st !! type with
  | None => false
  | Some n => min_count <=? n
  end.

Definition can_host_things (st : NodeState) : bool := ns_is_active st && has_key_type SERVICE 1 st.
Definition can_join_networks (st : NodeState) : bool := ns_is_active st && has_key_type NETWORK 1 st.
Definition can_route (st : NodeState) : bool := ns_is_active st && has_key_type ROUTING 1 st.

Record NetworkState := MkNetworkState {
  network_id : option Hash256;
  net_created_at : Z;
  net_is_active : bool;
  members : gset NodeID;
  member_roles : gmap NodeID bytes;
  hosted_thing : option ContentHash
}.

Definition default_network : NetworkState := MkNetworkState None 0 false ∅ ∅ None.

Definition member_count (st : NetworkState) : Z := Z.of_nat (size (members st)).
Definition has_member (n : NodeID) (st : NetworkState) : bool := bool_decide (n ∈ members st).
Definition get_member_role (n : NodeID) (st : NetworkState) : bytes :=
  match member_roles st !! n with None => str "UNKNOWN" | Some r => r end.

Record ThingState := MkThingState {
  content_hash : option ContentHash;
  thing_created_at : Z;
  is_available : bool;
  hosts : gset NodeID;
  thing_networks : gset Hash256;
  total_size_bytes : Z;
  replication_count : Z
}.

Definition default_thing : ThingState := MkThingState None 0 false ∅ ∅ 0 0.

Definition host_count (st : ThingState) : Z := Z.of_nat (size (hosts st)).
Definition is_hosted_by (n : NodeID) (st : ThingState) : bool := bool_decide (n ∈ hosts st).
Definition meets_redundancy_requirements (min_redundancy : Z) (st : ThingState) : bool :=
  min_redundancy <=? replication_count st.

Record StateManager := MkStateManager {
  nodes : gmap NodeID NodeState;
  networks : gmap Hash256 NetworkState;
  things : gmap ContentHash ThingState;
  last_rebuild : Z
}.

(** ** Updates in place *)

(** [auto& st = nodes_[n]; ...]. *)
Definition at_node (n : NodeID) (f : NodeState → NodeState) (s : StateManager) : StateManager :=
  MkStateManager (<[n := f (at_or default_node n (nodes s))]> (nodes s)) (networks s) (things s)
    (last_rebuild s).

(** [auto it = nodes_.find(n); if (it != nodes_.end()) ...]. *)
Definition on_node (n : NodeID) (f : NodeState → NodeState) (s : StateManager) : StateManager :=
  MkStateManager (alter f n (nodes s)) (networks s) (things s) (last_rebuild s).

Definition at_network (net : Hash256) (f : NetworkState → NetworkState) (s : StateManager) :
    StateManager :=
  MkStateManager (nodes s) (<[net := f (at_or default_network net (networks s))]> (networks s))
    (things s) (last_rebuild s).

Definition on_network (net : Hash256) (f : NetworkState → NetworkState) (s : StateManager) :
    StateManager :=
  MkStateManager (nodes s) (alter f net (networks s)) (things s) (last_rebuild s).

Definition at_thing (c : ContentHash) (f : ThingState → ThingState) (s : StateManager) :
    StateManager :=
  MkStateManager (nodes s) (networks s) (<[c := f (at_or default_thing c (things s))]> (things s))
    (last_rebuild s).

Definition set_active (b : bool) (st : NodeState) : NodeState :=
  MkNodeState (node_id st) (joined_at st) b (ns_key_balances st) (ns_networks st)
    (hosted_things st) (reputation_score st) (uptime_seconds st) (bandwidth_contributed st)
    (pow_solutions st) (postake_contributions st).

Definition set_balances (b : gmap KeyType Z) (st : NodeState) : NodeState :=
  MkNodeState (node_id st) (joined_at st) (ns_is_active st) b (ns_networks st)
    (hosted_things st) (reputation_score st) (uptime_seconds st) (bandwidth_contributed st)
    (pow_solutions st) (postake_contributions st).

Definition set_networks (nets : gset Hash256) (st : NodeState) : NodeState :=
  MkNodeState (node_id st) (joined_at st) (ns_is_active st) (ns_key_balances st) nets
    (hosted_things st) (reputation_score st) (uptime_seconds st) (bandwidth_contributed st)
    (pow_solutions st) (postake_contributions st).

Definition set_hosted (hs : gset ContentHash) (st : NodeState) : NodeState :=
  MkNodeState (node_id st) (joined_at st) (ns_is_active st) (ns_key_balances st)
    (ns_networks st) hs (reputation_score st) (uptime_seconds st) (bandwidth_contributed st)
    (pow_solutions st) (postake_contributions st).

Definition set_reputation (r : Z) (st : NodeState) : NodeState :=
  MkNodeState (node_id st) (joined_at st) (ns_is_active st) (ns_key_balances st)
    (ns_networks st) (hosted_things st) r (uptime_seconds st) (bandwidth_contributed st)
    (pow_solutions st) (postake_contributions st).

Definition set_counters (pow postake : Z) (st : NodeState) : NodeState :=
  MkNodeState (node_id st) (joined_at st) (ns_is_active st) (ns_key_balances st)
    (ns_networks st) (hosted_things st) (reputation_score st) (uptime_seconds st)
    (bandwidth_contributed st) pow postake.

(** ** Handlers *)

Definition apply_node_joined (e : LedgerEvent) (s : StateManager) : StateManager :=
  at_node (source_node e)
    (λ _, MkNodeState (Some (source_node e)) (timestamp e) true ∅ ∅ ∅ 0 0 0 0 0) s.

Definition apply_node_left (e : LedgerEvent) (s : StateManager) : StateManager :=
  on_node (source_node e) (set_active false) s.

(** [balances[type] += count], and the saturating subtraction. *)
Definition credit (type : KeyType) (n : Z) (st : NodeState) : NodeState :=
  set_balances (<[type := u32 (at_or 0 type (ns_key_balances st) + n)]> (ns_key_balances st)) st.

Definition debit (type : KeyType) (n : Z) (st : NodeState) : NodeState :=
  let balance := at_or 0 type (ns_key_balances st) in
  set_balances
    (<[type := if n <? balance then balance - n else 0]> (ns_key_balances st)) st.

Definition apply_key_issued (e : LedgerEvent) (s : StateManager) : StateManager :=
  match key_issuance_from_bytes (data e) with
  | None => s
  | Some x => at_node (source_node e) (credit (ki_key_type x) (count x)) s
  end.

Definition apply_key_revoked (e : LedgerEvent) (s : StateManager) : StateManager :=
  match key_issuance_from_bytes (data e) with
  | None => s
  | Some x => at_node (source_node e) (debit (ki_key_type x) (count x)) s
  end.

Definition apply_network_created (e : LedgerEvent) (s : StateManager) : StateManager :=
  if len (data e) <? 32 then s
  else
    match to_array 32 (take 32 (data e)) with
    | None => s
    | Some net =>
        at_network net (λ _, MkNetworkState (Some net) (timestamp e) true ∅ ∅ None) s
    end.

Definition add_member (n : NodeID) (r : bytes) (st : NetworkState) : NetworkState :=
  MkNetworkState (network_id st) (net_created_at st) (net_is_active st) (members st ∪ {[n]})
    (<[n := r]> (member_roles st)) (hosted_thing st).

Definition remove_member (n : NodeID) (st : NetworkState) : NetworkState :=
  MkNetworkState (network_id st) (net_created_at st) (net_is_active st) (members st ∖ {[n]})
    (delete n (member_roles st)) (hosted_thing st).

Definition apply_network_member_added (e : LedgerEvent) (s : StateManager) : StateManager :=
  match membership_from_bytes (data e) with
  | None => s
  | Some x =>
      at_node (member_node x) (λ st, set_networks (ns_networks st ∪ {[nm_network_id x]}) st)
        (at_network (nm_network_id x) (add_member (member_node x) (role x)) s)
  end.

Definition apply_network_member_removed (e : LedgerEvent) (s : StateManager) : StateManager :=
  match membership_from_bytes (data e) with
  | None => s
  | Some x =>
      on_node (member_node x) (λ st, set_networks (ns_networks st ∖ {[nm_network_id x]}) st)
        (on_network (nm_network_id x) (remove_member (member_node x)) s)
  end.

Definition add_replica (x : ThingReplicationData) (time : Z) (st : ThingState) : ThingState :=
  let hs := hosts st ∪ {[hosting_node x]} in
  MkThingState (Some (tr_content_hash x)) time true hs
    (thing_networks st ∪ {[tr_network_id x]}) (size_bytes x) (u32 (Z.of_nat (size hs))).

Definition remove_replica (n : NodeID) (st : ThingState) : ThingState :=
  let hs := hosts st ∖ {[n]} in
  let copies := u32 (Z.of_nat (size hs)) in
  MkThingState (content_hash st) (thing_created_at st)
    (if copies =? 0 then false else is_available st) hs (thing_networks st)
    (total_size_bytes st) copies.

Definition apply_thing_replicated (e : LedgerEvent) (s : StateManager) : StateManager :=
  match replication_from_bytes (data e) with
  | None => s
  | Some x =>
      at_node (hosting_node x) (λ st, set_hosted (hosted_things st ∪ {[tr_content_hash x]}) st)
        (at_thing (tr_content_hash x) (add_replica x (timestamp e)) s)
  end.

Definition apply_thing_removed (e : LedgerEvent) (s : StateManager) : StateManager :=
  match replication_from_bytes (data e) with
  | None => s
  | Some x =>
      match things s !! tr_content_hash x with
      | None => s
      | Some _ =>
          on_node (hosting_node x)
            (λ st, set_hosted (hosted_things st ∖ {[tr_content_hash x]}) st)
            (at_thing (tr_content_hash x) (remove_replica (hosting_node x)) s)
      end
  end.

(** [reputation_score += score_delta] in [int32_t]. *)
Definition apply_reputation_updated (e : LedgerEvent) (s : StateManager) : outcome StateManager :=
  match reputation_from_bytes (data e) with
  | None => Ok s
  | Some x =>
      let score := reputation_score (at_or default_node (subject_node x) (nodes s)) in
      if decide (in_s 32 (score + score_delta x)) then
        Ok (at_node (subject_node x) (set_reputation (score + score_delta x)) s)
      else Undef
  end.

Definition apply_pow_solution (e : LedgerEvent) (s : StateManager) : StateManager :=
  at_node (source_node e)
    (λ st, set_counters (u32 (pow_solutions st + 1)) (postake_contributions st) st) s.

Definition apply_postake_contribution (e : LedgerEvent) (s : StateManager) : StateManager :=
  at_node (source_node e)
    (λ st, set_counters (pow_solutions st) (u32 (postake_contributions st + 1)) st) s.

Definition apply_event (e : LedgerEvent) (s : StateManager) : outcome StateManager :=
  let type := event_type e in
  if decide (type = NODE_JOINED) then Ok (apply_node_joined e s)
  else if decide (type = NODE_LEFT) then Ok (apply_node_left e s)
  else if decide (type = KEY_ISSUED) then Ok (apply_key_issued e s)
  else if decide (type = KEY_REVOKED) then Ok (apply_key_revoked e s)
  else if decide (type = NETWORK_CREATED) then Ok (apply_network_created e s)
  else if decide (type = NETWORK_MEMBER_ADDED) then Ok (apply_network_member_added e s)
  else if decide (type = NETWORK_MEMBER_REMOVED) then Ok (apply_network_member_removed e s)
  else if decide (type = THING_REPLICATED) then Ok (apply_thing_replicated e s)
  else if decide (type = THING_REMOVED) then Ok (apply_thing_removed e s)
  else if decide (type = REPUTATION_UPDATED) then apply_reputation_updated e s
  else if decide (type = POW_SOLUTION_SUBMITTED) then Ok (apply_pow_solution e s)
  else if decide (type = POSTAKE_CONTRIBUTION) then Ok (apply_postake_contribution e s)
  else Ok s.

Fixpoint apply_events (es : list LedgerEvent) (s : StateManager) : outcome StateManager :=
  match es with
  | [] => Ok s
  | e :: es => s ← apply_event e s; apply_events es s
  end.

Definition empty_state : StateManager := MkStateManager ∅ ∅ ∅ 0.

Definition rebuild_state (l : Ledger) (now : Z) (s : StateManager) : outcome StateManager :=
  s ← apply_events (get_all_events l) (MkStateManager ∅ ∅ ∅ (last_rebuild s));
  mret (MkStateManager (nodes s) (networks s) (things s) now).

(** The constructor. *)
Definition new_state_manager (l : Ledger) (now : Z) : outcome StateManager :=
  rebuild_state l now empty_state.

(** ** Queries *)

Definition get_node_state (n : NodeID) (s : StateManager) : option NodeState := nodes s !! n.

Definition get_all_active_nodes (s : StateManager) : list NodeState :=
  filter (λ st, ns_is_active st = true) (entries (nodes s)).*2.

Definition get_nodes_with_key_type (type : KeyType) (min_count : Z) (s : StateManager) :
    list NodeID :=
  (filter (λ p, ns_is_active p.2 && has_key_type type min_count p.2 = true)
     (entries (nodes s))).*1.

Definition is_node_active (n : NodeID) (s : StateManager) : bool :=
  match nodes s !! n with None => false | Some st => ns_is_active st end.

Definition get_node_key_balance (n : NodeID) (type : KeyType) (s : StateManager) : Z :=
  match nodes s !! n with
  | None => 0
  | Some st => match ns_key_balances st !! type with None => 0 | Some b => b end
  end.

Definition get_node_reputation (n : NodeID) (s : StateManager) : Z :=
  match nodes s !! n with None => 0 | Some st => reputation_score st end.

Definition get_network_state (net : Hash256) (s : StateManager) : option NetworkState :=
  networks s !! net.

Definition get_all_active_networks (s : StateManager) : list NetworkState :=
  filter (λ st, net_is_active st = true) (entries (networks s)).*2.

Definition get_networks_for_node (n : NodeID) (s : StateManager) : list Hash256 :=
  match nodes s !! n with None => [] | Some st => set_elements (ns_networks st) end.

Definition get_networks_hosting_thing (c : ContentHash) (s : StateManager) : list Hash256 :=
  match things s !! c with None => [] | Some st => set_elements (thing_networks st) end.

Definition is_network_active (net : Hash256) (s : StateManager) : bool :=
  match networks s !! net with None => false | Some st => net_is_active st end.

Definition is_node_in_network (n : NodeID) (net : Hash256) (s : StateManager) : bool :=
  match networks s !! net with None => false | Some st => has_member n st end.

Definition get_thing_state (c : ContentHash) (s : StateManager) : option ThingState :=
  things s !! c.

Definition get_all_available_things (s : StateManager) : list ThingState :=
  filter (λ st, is_available st = true) (entries (things s)).*2.

Definition get_thing_hosts (c : ContentHash) (s : StateManager) : list NodeID :=
  match things s !! c with None => [] | Some st => set_elements (hosts st) end.

Definition is_thing_available (c : ContentHash) (s : StateManager) : bool :=
  match things s !! c with None => false | Some st => is_available st end.

Definition get_thing_replication_count (c : ContentHash) (s : StateManager) : Z :=
  match things s !! c with None => 0 | Some st => replication_count st end.

Definition can_node_host_things (n : NodeID) (s : StateManager) : bool :=
  match nodes s !! n with None => false | Some st => can_host_things st end.

Definition can_node_join_networks (n : NodeID) (s : StateManager) : bool :=
  match nodes s !! n with None => false | Some st => can_join_networks st end.

Definition can_node_route_traffic (n : NodeID) (s : StateManager) : bool :=
  match nodes s !! n with None => false | Some st => can_route st end.

(** The loop returns on the first positive balance. *)
Definition can_node_post_content (n : NodeID) (s : StateManager) : bool :=
  match nodes s !! n with
  | None => false
  | Some st =>
      if negb (ns_is_active st) then false
      else existsb (λ p, 0 <? p.2) (entries (ns_key_balances st))
  end.

Record StateSnapshot := MkStateSnapshot {
  snap_timestamp : Z;
  snap_epoch : Z;
  ledger_hash : Hash256;
  snap_total_nodes : Z;
  active_nodes : Z;
  snap_total_networks : Z;
  snap_total_things : Z;
  snap_total_keys : Z
}.

Definition get_snapshot (l : Ledger) (now epoch_now : Z) (s : StateManager) : StateSnapshot :=
  MkStateSnapshot now (current_epoch epoch_now) (get_latest_hash l)
    (Z.of_nat (size (nodes s)))
    (len (filter (λ p, ns_is_active p.2 = true) (entries (nodes s))))
    (Z.of_nat (size (networks s))) (Z.of_nat (size (things s)))
    (foldl (λ total p,
       foldl (λ total q, u64 (total + q.2)) total (entries (ns_key_balances p.2)))
       0 (entries (nodes s))).

Definition snapshot_to_string (x : StateSnapshot) : bytes :=
  str "State Snapshot (epoch " ++ dec (snap_epoch x) ++ str "):" ++ newline ++
  str "  Timestamp: " ++ dec (snap_timestamp x) ++ newline ++
  str "  Total nodes: " ++ dec (snap_total_nodes x) ++ str " (" ++ dec (active_nodes x) ++
  str " active)" ++ newline ++
  str "  Total networks: " ++ dec (snap_total_networks x) ++ newline ++
  str "  Total Things: " ++ dec (snap_total_things x) ++ newline ++
  str "  Total keys issued: " ++ dec (snap_total_keys x).

(** ** Maintenance *)

Definition INACTIVITY_THRESHOLD_SECONDS : Z := 14 * 24 * 60 * 60.
Definition INACTIVE_THRESHOLD : Z := 86400 * 30.

Definition last_activity (joined : Z) (es : list LedgerEvent) : Z :=
  foldl (λ last_seen e, if last_seen <? timestamp e then timestamp e else last_seen) joined es.

(** The body of the loop of [update_node_activity] for one node. *)
Definition refresh_node (l : Ledger) (now : Z) (n : NodeID) (st : NodeState) :
    outcome NodeState :=
  if negb (ns_is_active st) then Ok st
  else
    es ← get_events_by_node n l;
    let seen := last_activity (joined_at st) es in
    mret (if (seen <? now) && (INACTIVITY_THRESHOLD_SECONDS <? u64 (now - seen))
          then set_active false st else st).

Fixpoint refresh_nodes (l : Ledger) (now : Z) (ps : list (NodeID * NodeState))
    (m : gmap NodeID NodeState) : outcome (gmap NodeID NodeState) :=
  match ps with
  | [] => Ok m
  | (n, st) :: ps => st ← refresh_node l now n st; refresh_nodes l now ps (<[n := st]> m)
  end.

Definition update_node_activity (l : Ledger) (now : Z) (s : StateManager) :
    outcome StateManager :=
  m ← refresh_nodes l now (entries (nodes s)) (nodes s);
  mret (MkStateManager m (networks s) (things s) (last_rebuild s)).

(** The nodes the first loop of [cleanup_stale_state] collects. *)
Definition is_stale (now : Z) (st : NodeState) : bool :=
  negb (ns_is_active st) && (INACTIVE_THRESHOLD <? u64 (now - joined_at st)).

Definition cleanup_stale_state (now : Z) (s : StateManager) : StateManager :=
  let to_remove := (filter (λ p, is_stale now p.2 = true) (entries (nodes s))).*1 in
  MkStateManager (foldl (λ m n, delete n m) (nodes s) to_remove) (networks s) (things s)
    (last_rebuild s).

(** ** The invariant *)

(** Assigned identifiers are the map keys, and active entries have one. *)
Definition node_ok (n : NodeID) (st : NodeState) : Prop :=
  (node_id st = None ∨ node_id st = Some n) ∧
  (ns_is_active st = true → node_id st = Some n).

Definition network_ok (net : Hash256) (st : NetworkState) : Prop :=
  (network_id st = None ∨ network_id st = Some net) ∧
  (net_is_active st = true → network_id st = Some net) ∧
  dom (member_roles st) = members st.

(** After [N] events; below [2 ^ 32] hosts the count is exact. *)
Definition thing_ok (N : Z) (c : ContentHash) (st : ThingState) : Prop :=
  content_hash st = Some c ∧
  replication_count st = u32 (Z.of_nat (size (hosts st))) ∧
  Z.of_nat (size (hosts st)) <= N ∧
  (is_available st = true → hosts st ≠ ∅) ∧
  (N < 2 ^ 32 → is_available st = false → hosts st = ∅).

(** A node lists a thing only if the thing lists it as a host. *)
Definition hosting_ok (s : StateManager) : Prop :=
  ∀ n st c, nodes s !! n = Some st → c ∈ hosted_things st →
    ∃ t, things s !! c = Some t ∧ n ∈ hosts t.

Record wf_state (N : Z) (s : StateManager) : Prop := {
  wf_nodes : map_Forall node_ok (nodes s);
  wf_networks : map_Forall network_ok (networks s);
  wf_things : map_Forall (thing_ok N) (things s);
  wf_hosting : hosting_ok s
}.

Lemma wf_empty_state t : wf_state 0 (MkStateManager ∅ ∅ ∅ t).
Proof.
  split; try apply map_Forall_empty. intros n st c Hn. cbn in Hn.
  by rewrite lookup_empty in Hn.
Qed.

Lemma default_node_ok n : node_ok n default_node.
Proof. split; [by left|done]. Qed.

Lemma default_network_ok net : network_ok net default_network.
Proof. split; [by left|]. split; [done|]. apply dom_empty_L. Qed.

(** [operator[]] on an entry that satisfies [P]. *)
Lemma map_Forall_at {K} `{Countable K} {V} (P : K → V → Prop) (m : gmap K V) k d f :
  map_Forall P m → P k d → (P k (at_or d k m) → P k (f (at_or d k m))) →
  map_Forall P (<[k := f (at_or d k m)]> m).
Proof.
  intros HP Hd Hf. apply map_Forall_insert_2; [|done]. apply Hf. unfold at_or.
  destruct (m !! k) eqn:E; [by apply (HP k)|done].
Qed.

(** [find] and update. *)
Lemma map_Forall_alter {K} `{Countable K} {V} (P : K → V → Prop) (m : gmap K V) k f :
  map_Forall P m → (∀ v, P k v → P k (f v)) → map_Forall P (alter f k m).
Proof.
  intros HP Hf k' v. rewrite lookup_alter_Some. intros [(<- & v' & Hv & ->)|[_ Hv]].
  - by apply Hf, HP.
  - by apply HP.
Qed.

Lemma at_or_lookup {K} `{Countable K} {V} (m : gmap K V) k d :
  at_or d k m = d ∨ m !! k = Some (at_or d k m).
Proof. unfold at_or. destruct (m !! k); auto. Qed.

(** Updating a node without adding hosted things. *)
Lemma wf_at_node N n f s :
  wf_state N s →
  (∀ st, node_ok n st → node_ok n (f st)) → (∀ st, hosted_things (f st) ⊆ hosted_things st) →
  wf_state N (at_node n f s).
Proof.
  intros [W1 W2 W3 W4] Hf Hh. split; [|done..|].
  - apply map_Forall_at; [done|apply default_node_ok|apply Hf].
  - intros n' st c. cbn. intros [[<- <-]|[_ Hn]]%lookup_insert_Some Hc; [|by eapply W4].
    apply Hh in Hc. destruct (at_or_lookup (nodes s) n default_node) as [E|E].
    + rewrite E in Hc. by apply not_elem_of_empty in Hc.
    + by eapply W4.
Qed.

Lemma wf_on_node N n f s :
  wf_state N s →
  (∀ st, node_ok n st → node_ok n (f st)) → (∀ st, hosted_things (f st) ⊆ hosted_things st) →
  wf_state N (on_node n f s).
Proof.
  intros [W1 W2 W3 W4] Hf Hh. split; [|done..|].
  - by apply map_Forall_alter.
  - intros n' st c. cbn. intros [(<- & st' & Hn & ->)|[_ Hn]]%lookup_alter_Some Hc.
    + apply Hh in Hc. by eapply W4.
    + by eapply W4.
Qed.

Lemma wf_at_network N net f s :
  wf_state N s → (∀ st, network_ok net st → network_ok net (f st)) → wf_state N (at_network net f s).
Proof.
  intros [W1 W2 W3 W4] Hf. split; [done| |done|done].
  apply map_Forall_at; [done|apply default_network_ok|apply Hf].
Qed.

Lemma wf_on_network N net f s :
  wf_state N s → (∀ st, network_ok net st → network_ok net (f st)) → wf_state N (on_network net f s).
Proof. intros [W1 W2 W3 W4] Hf. split; [done| |done|done]. by apply map_Forall_alter. Qed.

Lemma node_ok_same n st st' :
  node_id st' = node_id st → ns_is_active st' = ns_is_active st → node_ok n st → node_ok n st'.
Proof. unfold node_ok. by intros -> ->. Qed.

Lemma add_member_ok net n r st : network_ok net st → network_ok net (add_member n r st).
Proof.
  intros (H1 & H2 & H3). split_and!; [done|done|]. cbn. rewrite dom_insert_L, H3. set_solver.
Qed.

Lemma remove_member_ok net n st : network_ok net st → network_ok net (remove_member n st).
Proof. intros (H1 & H2 & H3). split_and!; [done|done|]. cbn. by rewrite dom_delete_L, H3. Qed.

Lemma size_union_singleton (X : gset NodeID) n : (size (X ∪ {[n]}) <= S (size X))%nat.
Proof. rewrite size_union_alt. pose proof (subseteq_size ({[n]} ∖ X) {[n]}). rewrite size_singleton in *. set_solver by lia. Qed.

Lemma add_replica_ok N x time st :
  Z.of_nat (size (hosts st)) <= N →
  thing_ok (N + 1) (tr_content_hash x) (add_replica x time st).
Proof.
  intros HN. pose proof (size_union_singleton (hosts st) (hosting_node x)).
  split; [done|]. split; [done|]. split; [cbn; lia|]. split; [|done].
  intros _. cbn. set_solver.
Qed.

Lemma remove_replica_ok N c n st : thing_ok N c st → thing_ok (N + 1) c (remove_replica n st).
Proof.
  intros (H1 & H2 & H3 & H4 & H5). unfold remove_replica.
  pose proof (subseteq_size (hosts st ∖ {[n]}) (hosts st) ltac:(set_solver)) as Hs.
  split; [done|]. split; [done|]. split; [cbn; lia|]. cbn [is_available hosts].
  destruct (_ =? 0) eqn:E; bool_to_prop.
  - split; [done|]. intros HN _. rewrite wrap_small in E by (unfold in_u; lia).
    apply leibniz_equiv, size_empty_inv. lia.
  - split.
    + intros _ He. by rewrite He, size_empty in E.
    + intros HN Ha. rewrite H5 by (done || lia). set_solver.
Qed.

Lemma thing_ok_mono N c st : thing_ok N c st → thing_ok (N + 1) c st.
Proof.
  intros (H1 & H2 & H3 & H4 & H5). split_and!; [done|done|lia|done|]. intros. apply H5; [lia|done].
Qed.

Lemma wf_mono N s : wf_state N s → wf_state (N + 1) s.
Proof.
  intros [W1 W2 W3 W4]. split; [done|done| |done].
  intros c t Ht. by apply thing_ok_mono, W3.
Qed.

Lemma wf_thing_size N s c :
  0 <= N → wf_state N s → Z.of_nat (size (hosts (at_or default_thing c (things s)))) <= N.
Proof.
  intros HN W. destruct (at_or_lookup (things s) c default_thing) as [-> | E]; [by cbn|].
  by apply (wf_things _ _ W) in E as (_ & _ & ? & _).
Qed.

Lemma wf_apply_replicated N e s :
  0 <= N → wf_state N s → wf_state (N + 1) (apply_thing_replicated e s).
Proof.
  intros HN W. unfold apply_thing_replicated.
  destruct (replication_from_bytes (data e)) as [x|]; [|by apply wf_mono].
  pose proof (wf_thing_size N s (tr_content_hash x) HN W) as Hsz.
  destruct W as [W1 W2 W3 W4].
  assert (Ht : ∀ c t n, things s !! c = Some t → n ∈ hosts t →
    ∃ t', things (at_thing (tr_content_hash x) (add_replica x (timestamp e)) s) !! c = Some t' ∧
      n ∈ hosts t').
  { intros c t n Hc Hn. cbn. destruct (decide (tr_content_hash x = c)) as [<-|].
    - rewrite lookup_insert_eq. eexists. split; [done|]. unfold at_or. rewrite Hc. cbn. set_solver.
    - rewrite lookup_insert_ne by done. eauto. }
  split; [|done|..].
  - apply map_Forall_at; [done|apply default_node_ok|by apply node_ok_same].
  - apply map_Forall_insert_2; [by apply add_replica_ok|].
    intros c t Hc. by apply thing_ok_mono, W3.
  - intros n st c. cbn [nodes at_node].
    intros [[<- <-]|[_ Hn]]%lookup_insert_Some Hc.
    + cbn [hosted_things set_hosted] in Hc.
      destruct (decide (c = tr_content_hash x)) as [->|Hne].
      * cbn. rewrite lookup_insert_eq. eexists. split; [done|]. cbn. set_solver.
      * assert (Hc' : c ∈ hosted_things (at_or default_node (hosting_node x) (nodes s)))
          by set_solver.
        destruct (at_or_lookup (nodes s) (hosting_node x) default_node) as [E|E];
          [rewrite E in Hc'; by apply not_elem_of_empty in Hc'|].
        destruct (W4 _ _ c E Hc') as (t & Htc & Hin). by eapply Ht.
    + destruct (W4 _ _ c Hn Hc) as (t & Htc & Hin). by eapply Ht.
Qed.

Lemma wf_apply_removed N e s :
  wf_state N s → wf_state (N + 1) (apply_thing_removed e s).
Proof.
  intros W. unfold apply_thing_removed.
  destruct (replication_from_bytes (data e)) as [x|]; [|by apply wf_mono].
  destruct (things s !! tr_content_hash x) as [t0|] eqn:Et; [|by apply wf_mono].
  destruct W as [W1 W2 W3 W4]. split; [|done|..].
  - apply map_Forall_alter; [done|]. intros v. by apply node_ok_same.
  - cbn. unfold at_or. rewrite Et. cbn. apply map_Forall_insert_2.
    + by apply remove_replica_ok, W3.
    + intros c t Hc. by apply thing_ok_mono, W3.
  - assert (Ht : ∀ n c, (∃ t, things s !! c = Some t ∧ n ∈ hosts t) →
      (n ≠ hosting_node x ∨ c ≠ tr_content_hash x) →
      ∃ t', things (at_thing (tr_content_hash x) (remove_replica (hosting_node x)) s) !! c = Some t' ∧
        n ∈ hosts t').
    { intros n c (t & Hc & Hn) Hne. cbn. destruct (decide (tr_content_hash x = c)) as [<-|].
      - rewrite lookup_insert_eq. eexists. split; [done|]. unfold at_or. rewrite Hc. cbn.
        destruct Hne; [set_solver|done].
      - rewrite lookup_insert_ne by done. eauto. }
    intros n st c. cbn [nodes on_node].
    intros [(<- & st' & Hn & ->)|[Hne Hn]]%lookup_alter_Some Hc; cbn in Hn.
    + cbn in Hc. apply Ht; [eapply W4; [done|set_solver]|]. right. set_solver.
    + apply Ht; [by eapply W4|]. by left.
Qed.

(** The handlers that only touch fields [wf_state] does not relate. *)
Lemma wf_apply_joined N e s : wf_state N s → wf_state N (apply_node_joined e s).
Proof.
  intros W. apply wf_at_node; [done| |].
  - intros st _. split; [by right|done].
  - intros st. cbn. set_solver.
Qed.

Lemma wf_apply_created N e s : wf_state N s → wf_state N (apply_network_created e s).
Proof.
  intros W. unfold apply_network_created. destruct (_ <? _); [done|].
  destruct (to_array _ _) as [net|]; [|done]. apply wf_at_network; [done|].
  intros st _. split_and!; [by right|done|apply dom_empty_L].
Qed.

Lemma wf_apply_member_added N e s : wf_state N s → wf_state N (apply_network_member_added e s).
Proof.
  intros W. unfold apply_network_member_added. destruct (membership_from_bytes _); [|done].
  apply wf_at_node; [|by intros ?; apply node_ok_same|done].
  apply wf_at_network; [done|]. intros st. apply add_member_ok.
Qed.

Lemma wf_apply_member_removed N e s :
  wf_state N s → wf_state N (apply_network_member_removed e s).
Proof.
  intros W. unfold apply_network_member_removed. destruct (membership_from_bytes _); [|done].
  apply wf_on_node; [|by intros ?; apply node_ok_same|done].
  apply wf_on_network; [done|]. intros st. apply remove_member_ok.
Qed.

Lemma wf_update N n f s :
  (∀ st, node_id (f st) = node_id st) → (∀ st, ns_is_active (f st) = ns_is_active st) →
  (∀ st, hosted_things (f st) = hosted_things st) → wf_state N s → wf_state N (at_node n f s).
Proof.
  intros Hi Ha Hh W. apply wf_at_node; [done| |].
  - intros st. by apply node_ok_same.
  - intros st. by rewrite Hh.
Qed.

Lemma wf_apply_event N e s s' :
  0 <= N → wf_state N s → apply_event e s = Ok s' → wf_state (N + 1) s'.
Proof.
  intros HN W. unfold apply_event. intros E.
  repeat (case_decide; [try injection E as <-|]).
  - by apply wf_mono, wf_apply_joined.
  - apply wf_mono, wf_on_node; [done| |done]. intros st [Hn _]. by split.
  - unfold apply_key_issued. destruct (key_issuance_from_bytes _); [|by apply wf_mono].
    by apply wf_mono, wf_update.
  - unfold apply_key_revoked. destruct (key_issuance_from_bytes _); [|by apply wf_mono].
    by apply wf_mono, wf_update.
  - by apply wf_mono, wf_apply_created.
  - by apply wf_mono, wf_apply_member_added.
  - by apply wf_mono, wf_apply_member_removed.
  - by apply wf_apply_replicated.
  - by apply wf_apply_removed.
  - revert E. unfold apply_reputation_updated. destruct (reputation_from_bytes _) as [x|].
    + case_decide; [|done]. intros [= <-]. by apply wf_mono, wf_update.
    + intros [= <-]. by apply wf_mono.
  - by apply wf_mono, wf_update.
  - by apply wf_mono, wf_update.
  - injection E as <-. by apply wf_mono.
Qed.

Lemma wf_apply_events N es s s' :
  0 <= N → wf_state N s → apply_events es s = Ok s' → wf_state (N + len es) s'.
Proof.
  revert N s. induction es as [|e es IH]; intros N s HN W.
  - intros [= <-]. by rewrite Z.add_0_r.
  - cbn [apply_events]. unfold mbind, outcome_bind.
    destruct (apply_event e s) as [s1| |] eqn:E; [|done..]. intros Es.
    apply (wf_apply_event N) in E; [|done..]. apply (IH (N + 1)) in Es; [|lia|done].
    rewrite len_cons. by replace (N + (1 + len es)) with (N + 1 + len es) by lia.
Qed.

(** ** Observations *)

(** The sets behind the queries, empty for unknown keys. *)
Definition hosts_at (c : ContentHash) (s : StateManager) : gset NodeID :=
  hosts (at_or default_thing c (things s)).

Definition members_of (net : Hash256) (s : StateManager) : gset NodeID :=
  members (at_or default_network net (networks s)).

Lemma get_thing_hosts_at c s : get_thing_hosts c s = set_elements (hosts_at c s).
Proof. unfold get_thing_hosts, hosts_at, at_or. by destruct (things s !! c). Qed.

Lemma is_node_in_network_at n net s : is_node_in_network n net s = bool_decide (n ∈ members_of net s).
Proof.
  unfold is_node_in_network, members_of, at_or, has_member.
  destruct (networks s !! net); [done|]. by rewrite bool_decide_eq_false_2 by apply not_elem_of_empty.
Qed.

Lemma balance_at n type s :
  get_node_key_balance n type s =
  at_or 0 type (ns_key_balances (at_or default_node n (nodes s))).
Proof.
  unfold get_node_key_balance, at_or. destruct (nodes s !! n) as [st|]; cbn.
  - by destruct (ns_key_balances st !! type).
  - by rewrite lookup_empty.
Qed.

Lemma at_or_insert_map {K} `{Countable K} {V} (m : gmap K V) k k' v d :
  at_or d k' (<[k := v]> m) = if decide (k = k') then v else at_or d k' m.
Proof.
  unfold at_or. destruct (decide _) as [->|]; [by rewrite lookup_insert_eq|].
  by rewrite lookup_insert_ne.
Qed.

(** An observation of one node is what its update makes of it. *)
Lemma observe_at_node {A} (g : NodeState → A) n f n' s :
  g (at_or default_node n' (nodes (at_node n f s))) =
  if decide (n = n') then g (f (at_or default_node n' (nodes s)))
  else g (at_or default_node n' (nodes s)).
Proof. cbn. rewrite at_or_insert_map. by destruct (decide _) as [->|]. Qed.

Lemma observe_on_node {A} (g : NodeState → A) n f n' s :
  (∀ st, g (f st) = g st) →
  g (at_or default_node n' (nodes (on_node n f s))) = g (at_or default_node n' (nodes s)).
Proof.
  intros Hg. cbn. unfold at_or. destruct (decide (n = n')) as [->|].
  - rewrite lookup_alter_eq. by destruct (nodes s !! n'); cbn.
  - by rewrite lookup_alter_ne.
Qed.

(** ** Balances *)

(** What an event does to the balance of [n] in keys of [type]. *)
Definition balance_step (n : NodeID) (type : KeyType) (b : Z) (e : LedgerEvent) : Z :=
  if decide (source_node e = n) then
    if decide (event_type e = NODE_JOINED) then 0
    else
      match key_issuance_from_bytes (data e) with
      | Some x =>
          if decide (ki_key_type x = type) then
            if decide (event_type e = KEY_ISSUED) then u32 (b + count x)
            else if decide (event_type e = KEY_REVOKED) then Z.max 0 (b - count x)
            else b
          else b
      | None => b
      end
  else b.

Definition balances_at (n : NodeID) (s : StateManager) : gmap KeyType Z :=
  ns_key_balances (at_or default_node n (nodes s)).

Lemma balances_at_node n f n' s :
  balances_at n' (at_node n f s) =
  if decide (n = n') then ns_key_balances (f (at_or default_node n' (nodes s)))
  else balances_at n' s.
Proof. apply observe_at_node. Qed.

Lemma balances_at_same n f n' s :
  (∀ st, ns_key_balances (f st) = ns_key_balances st) →
  balances_at n' (at_node n f s) = balances_at n' s.
Proof. intros Hf. rewrite balances_at_node. destruct (decide _); [apply Hf|done]. Qed.

Lemma balances_on_same n f n' s :
  (∀ st, ns_key_balances (f st) = ns_key_balances st) →
  balances_at n' (on_node n f s) = balances_at n' s.
Proof. intros Hf. by apply observe_on_node. Qed.

Lemma debit_max b n : 0 <= n → (if n <? b then b - n else 0) = Z.max 0 (b - n).
Proof. intros. destruct (n <? b) eqn:E; bool_to_prop; lia. Qed.

Lemma key_issuance_sound d x :
  key_issuance_from_bytes d = Some x → ∃ tail, d = encode x ++ tail ∧ encodable x.
Proof. exact (decode_sound d x). Qed.

Lemma key_issuance_count d x : key_issuance_from_bytes d = Some x → 0 <= count x.
Proof. intros (_ & _ & He)%key_issuance_sound. apply He. Qed.

Lemma balance_step_other n type b e :
  event_type e ≠ NODE_JOINED → event_type e ≠ KEY_ISSUED → event_type e ≠ KEY_REVOKED →
  balance_step n type b e = b.
Proof.
  intros H1 H2 H3. unfold balance_step.
  repeat case_match; congruence.
Qed.

Lemma balance_joined n type e s :
  event_type e = NODE_JOINED →
  at_or 0 type (balances_at n (apply_node_joined e s)) =
  balance_step n type (at_or 0 type (balances_at n s)) e.
Proof.
  intros E. unfold apply_node_joined, balance_step. rewrite balances_at_node.
  destruct (decide (source_node e = n)); [|done]. rewrite decide_True by done. done.
Qed.

Lemma balance_issued n type e s :
  event_type e = KEY_ISSUED →
  at_or 0 type (balances_at n (apply_key_issued e s)) =
  balance_step n type (at_or 0 type (balances_at n s)) e.
Proof.
  intros E. unfold apply_key_issued, balance_step.
  destruct (decide (event_type e = NODE_JOINED)) as [C|_]; [by rewrite E in C|].
  destruct (key_issuance_from_bytes (data e)) as [x|];
    [|by destruct (decide (source_node e = n))].
  rewrite balances_at_node. destruct (decide (source_node e = n)); [|done].
  unfold credit. cbn [ns_key_balances set_balances]. rewrite at_or_insert_map.
  rewrite (decide_True (P := event_type e = KEY_ISSUED)) by done.
  by destruct (decide (ki_key_type x = type)) as [->|].
Qed.

Lemma balance_revoked n type e s :
  event_type e = KEY_REVOKED →
  at_or 0 type (balances_at n (apply_key_revoked e s)) =
  balance_step n type (at_or 0 type (balances_at n s)) e.
Proof.
  intros E. unfold apply_key_revoked, balance_step.
  destruct (decide (event_type e = NODE_JOINED)) as [C|_]; [by rewrite E in C|].
  destruct (key_issuance_from_bytes (data e)) as [x|] eqn:Ex;
    [|by destruct (decide (source_node e = n))].
  rewrite balances_at_node. destruct (decide (source_node e = n)); [|done].
  destruct (decide (event_type e = KEY_ISSUED)) as [C|_]; [by rewrite E in C|].
  rewrite (decide_True (P := event_type e = KEY_REVOKED)) by done.
  unfold debit. cbn [ns_key_balances set_balances]. rewrite at_or_insert_map.
  destruct (decide (ki_key_type x = type)) as [->|]; [|done].
  apply debit_max. by eapply key_issuance_count.
Qed.

(** The remaining handlers leave every balance alone. *)
Lemma balances_other n e s s' :
  event_type e ≠ NODE_JOINED → event_type e ≠ KEY_ISSUED → event_type e ≠ KEY_REVOKED →
  apply_event e s = Ok s' → balances_at n s' = balances_at n s.
Proof.
  intros H1 H2 H3. unfold apply_event. intros E.
  repeat (case_decide; [try done; try injection E as <-|]).
  - by apply balances_on_same.
  - unfold apply_network_created. by repeat case_match.
  - unfold apply_network_member_added. case_match; [|done]. by rewrite balances_at_same.
  - unfold apply_network_member_removed. case_match; [|done].
    by rewrite balances_on_same.
  - unfold apply_thing_replicated. case_match; [|done].
    by rewrite balances_at_same.
  - unfold apply_thing_removed. case_match; [|done]. case_match; [|done].
    by rewrite balances_on_same.
  - revert E. unfold apply_reputation_updated. case_match; [|by intros [= <-]].
    case_decide; [|done]. intros [= <-]. by apply balances_at_same.
  - by apply balances_at_same.
  - by apply balances_at_same.
  - by injection E as <-.
Qed.

Lemma balance_apply_event n type e s s' :
  apply_event e s = Ok s' →
  at_or 0 type (balances_at n s') = balance_step n type (at_or 0 type (balances_at n s)) e.
Proof.
  intros E. destruct (decide (event_type e = NODE_JOINED)) as [E1|E1].
  { unfold apply_event in E. rewrite decide_True in E by done. injection E as <-.
    by apply balance_joined. }
  destruct (decide (event_type e = KEY_ISSUED)) as [E2|E2].
  { unfold apply_event in E. rewrite E2 in E. injection E as <-. by apply balance_issued. }
  destruct (decide (event_type e = KEY_REVOKED)) as [E3|E3].
  { unfold apply_event in E. rewrite E3 in E. injection E as <-. by apply balance_revoked. }
  rewrite balance_step_other by done. by rewrite (balances_other n e s s').
Qed.

Lemma balance_apply_events n type es s s' :
  apply_events es s = Ok s' →
  at_or 0 type (balances_at n s') = foldl (balance_step n type) (at_or 0 type (balances_at n s)) es.
Proof.
  revert s. induction es as [|e es IH]; intros s; [by intros [= <-]|].
  cbn [apply_events foldl]. unfold mbind, outcome_bind.
  destruct (apply_event e s) as [s1| |] eqn:E; [|done..]. intros Es.
  rewrite (IH _ Es). f_equal. by apply balance_apply_event.
Qed.

(** ** Hosts and members, against the index of the ledger *)

Lemma hosts_apply_event c e s s' :
  event_type e ≠ THING_REMOVED → apply_event e s = Ok s' →
  hosts_at c s' = hosts_at c s ∪ host_added c e.
Proof.
  intros Hr E. unfold host_added. destruct (decide (event_type e = THING_REPLICATED)) as [Et|Et].
  - unfold apply_event in E. rewrite Et in E. injection E as <-.
    unfold apply_thing_replicated.
    destruct (replication_from_bytes (data e)) as [x|]; [|by rewrite (right_id_L ∅ (∪))].
    unfold hosts_at. cbn [things at_node at_thing]. rewrite at_or_insert_map.
    destruct (decide (tr_content_hash x = c)) as [->|]; [done|by rewrite (right_id_L ∅ (∪))].
  - rewrite (right_id_L ∅ (∪)). unfold hosts_at.
    assert (things s' = things s) as ->; [|done].
    unfold apply_event in E. repeat (case_decide; [try done; try injection E as <-|]).
    all: try injection E as <-; try done.
    + unfold apply_key_issued. by case_match.
    + unfold apply_key_revoked. by case_match.
    + unfold apply_network_created. by repeat case_match.
    + unfold apply_network_member_added. by case_match.
    + unfold apply_network_member_removed. by case_match.
    + revert E. unfold apply_reputation_updated. case_match; [|by intros [= <-]].
      case_decide; [|done]. by intros [= <-].
Qed.

Lemma members_apply_event net e s s' :
  event_type e ≠ NETWORK_CREATED → event_type e ≠ NETWORK_MEMBER_REMOVED →
  apply_event e s = Ok s' → members_of net s' = members_of net s ∪ member_added net e.
Proof.
  intros H1 H2 E. unfold member_added.
  destruct (decide (event_type e = NETWORK_MEMBER_ADDED)) as [Et|Et].
  - unfold apply_event in E. rewrite Et in E. injection E as <-.
    unfold apply_network_member_added.
    destruct (membership_from_bytes (data e)) as [x|]; [|by rewrite (right_id_L ∅ (∪))].
    unfold members_of. cbn [networks at_node at_network]. rewrite at_or_insert_map.
    destruct (decide (nm_network_id x = net)) as [->|]; [done|by rewrite (right_id_L ∅ (∪))].
  - rewrite (right_id_L ∅ (∪)). unfold members_of.
    assert (networks s' = networks s) as ->; [|done].
    unfold apply_event in E. repeat (case_decide; [try done; try injection E as <-|]).
    all: try injection E as <-; try done.
    + unfold apply_key_issued. by case_match.
    + unfold apply_key_revoked. by case_match.
    + unfold apply_thing_replicated. by case_match.
    + unfold apply_thing_removed. by repeat case_match.
    + revert E. unfold apply_reputation_updated. case_match; [|by intros [= <-]].
      case_decide; [|done]. by intros [= <-].
Qed.

(** Folding an observation that events only add to. *)
Lemma apply_events_union {A} `{Countable A} (g : StateManager → gset A)
    (added : LedgerEvent → gset A) (P : LedgerEvent → Prop) es s s' :
  (∀ e s s', P e → apply_event e s = Ok s' → g s' = g s ∪ added e) →
  Forall P es → apply_events es s = Ok s' → g s' = g s ∪ ⋃ (added <$> es).
Proof.
  intros Hg. revert s. induction es as [|e es IH]; intros s HP.
  - intros [= <-]. cbn. by rewrite (right_id_L ∅ (∪)).
  - apply Forall_cons_1 in HP as [He HP]. cbn [apply_events]. unfold mbind, outcome_bind.
    destruct (apply_event e s) as [s1| |] eqn:E; [|done..]. intros Es.
    rewrite (IH s1 HP Es), (Hg e s s1 He E). cbn. by rewrite (assoc_L (∪)).
Qed.

(** ** Maintenance *)

Section maintenance.
Context `{Crypto}.

(** [refresh_node] on a well-formed ledger. *)
Definition refreshed (l : Ledger) (now : Z) (n : NodeID) (st : NodeState) : NodeState :=
  let seen := last_activity (joined_at st) (filter (λ e, source_node e = n) (events l)) in
  if ns_is_active st && (seen <? now) && (INACTIVITY_THRESHOLD_SECONDS <? u64 (now - seen))
  then set_active false st else st.

Lemma wf_events_by_node l n :
  wf_ledger l → get_events_by_node n l = Ok (filter (λ e, source_node e = n) (events l)).
Proof.
  intros W. unfold get_events_by_node. rewrite (wf_index _ W), rebuild_by_node.
  apply collect_events_elem; [done|]. by intros e [_ He]%list_elem_of_filter.
Qed.

Lemma refresh_node_eq l now n st :
  wf_ledger l → refresh_node l now n st = Ok (refreshed l now n st).
Proof.
  intros W. unfold refresh_node, refreshed. rewrite wf_events_by_node by done.
  destruct (ns_is_active st); cbn [negb andb]; [|done]. done.
Qed.

Lemma refresh_nodes_eq l now ps m :
  wf_ledger l → NoDup ps.*1 →
  ∃ m', refresh_nodes l now ps m = Ok m' ∧
    ∀ n, m' !! n = match list_to_map (M := gmap NodeID NodeState) ps !! n with
                   | Some st => Some (refreshed l now n st)
                   | None => m !! n
                   end.
Proof.
  intros W. revert m. induction ps as [|[n st] ps IH]; intros m.
  - intros _. exists m. split; [done|]. intros n. cbn. by rewrite lookup_empty.
  - cbn [fmap list_fmap fst]. intros [Hni Hnd]%list.NoDup_cons.
    cbn [refresh_nodes]. rewrite refresh_node_eq by done.
    destruct (IH (<[n := refreshed l now n st]> m) Hnd) as (m' & E & Hm).
    exists m'. split; [exact E|]. intros n'. rewrite Hm. cbn [list_to_map foldr fst snd].
    destruct (decide (n = n')) as [<-|Hne].
    + rewrite lookup_insert_eq. rewrite (not_elem_of_list_to_map_1 ps n) by done.
      by rewrite lookup_insert_eq.
    + by rewrite !lookup_insert_ne.
Qed.

Lemma update_node_activity_eq l now s :
  wf_ledger l →
  ∃ s', update_node_activity l now s = Ok s' ∧ networks s' = networks s ∧ things s' = things s ∧
    ∀ n, nodes s' !! n = refreshed l now n <$> nodes s !! n.
Proof.
  intros W. destruct (refresh_nodes_eq l now (entries (nodes s)) (nodes s) W (NoDup_entries _))
    as (m' & E & Hm).
  unfold update_node_activity. rewrite E. eexists. split; [done|]. split; [done|].
  split; [done|]. intros n. cbn. rewrite Hm.
  assert (list_to_map (M := gmap NodeID NodeState) (entries (nodes s)) = nodes s) as ->.
  { rewrite <- (list_to_map_to_list (nodes s)) at 2.
    apply list_to_map_proper; [apply NoDup_entries|apply entries_perm]. }
  by destruct (nodes s !! n).
Qed.

Lemma foldl_delete {V} (ks : list NodeID) (m : gmap NodeID V) n :
  foldl (λ m n, delete n m) m ks !! n = if decide (n ∈ ks) then None else m !! n.
Proof.
  revert m. induction ks as [|k ks IH]; intros m; [done|]. cbn [foldl]. rewrite IH.
  destruct (decide (n ∈ ks)); [by rewrite decide_True by (by apply list_elem_of_further)|].
  destruct (decide (n = k)) as [->|Hne].
  - rewrite lookup_delete_eq. rewrite decide_True; [done|]. apply list_elem_of_here.
  - rewrite lookup_delete_ne by done. rewrite decide_False; [done|].
    rewrite elem_of_cons. tauto.
Qed.

Lemma cleanup_lookup now s n :
  nodes (cleanup_stale_state now s) !! n =
  match nodes s !! n with
  | Some st => if is_stale now st then None else Some st
  | None => None
  end.
Proof.
  unfold cleanup_stale_state. cbn. rewrite foldl_delete.
  destruct (nodes s !! n) as [st|] eqn:E.
  - destruct (is_stale now st) eqn:Es.
    + rewrite decide_True; [done|]. apply list_elem_of_fmap. exists (n, st). split; [done|].
      apply list_elem_of_filter. split; [done|]. by apply elem_of_entries.
    + rewrite decide_False; [done|]. rewrite list_elem_of_fmap.
      intros ([n' st'] & -> & [Hs He]%list_elem_of_filter). cbn in *.
      apply elem_of_entries in He. congruence.
  - by destruct (decide _).
Qed.

End maintenance.

(** ** Overflow *)

Lemma apply_event_reputation e s :
  event_type e = REPUTATION_UPDATED → apply_event e s = apply_reputation_updated e s.
Proof. unfold apply_event. by intros ->. Qed.

Lemma apply_event_ok e s : event_type e ≠ REPUTATION_UPDATED → ∃ s', apply_event e s = Ok s'.
Proof. intros E. unfold apply_event. repeat (case_decide; [by eauto|]). eauto. Qed.

(** ** Samples *)

(** An event of [n] with this type and payload. *)
Definition event_of (n : NodeID) (type : EventType) (time : Z) (payload : bytes) : LedgerEvent :=
  MkLedgerEvent (zeros 32) type n time 0 (zeros 32) payload (zeros 64).

Definition overflow_event : LedgerEvent :=
  event_of alice REPUTATION_UPDATED 100
    (reputation_to_bytes (MkReputationUpdateData alice (2 ^ 31 - 1) (str "praise") (zeros 32))).

Definition sample_net : Hash256 := array_fill 32 (to_byte 40).
Definition sample_thing : ContentHash := array_fill 32 (to_byte 50).

Definition sample_history : list LedgerEvent :=
  [event_of alice NODE_JOINED 100 [];
   event_of alice KEY_ISSUED 110 (key_issuance_to_bytes (MkKeyIssuanceData SERVICE 2 POW (zeros 32)));
   event_of alice NETWORK_MEMBER_ADDED 120
     (membership_to_bytes (MkNetworkMembershipData sample_net alice (str "FULL")));
   event_of alice THING_REPLICATED 130
     (replication_to_bytes (MkThingReplicationData sample_thing sample_net alice 4096));
   event_of bob NODE_JOINED 140 [];
   event_of alice KEY_REVOKED 150
     (key_issuance_to_bytes (MkKeyIssuanceData SERVICE 1 VOUCHED (zeros 32)))].

Definition sample_state : StateManager :=
  match apply_events sample_history empty_state with Ok s => s | _ => empty_state end.

Lemma sample_state_eq : apply_events sample_history empty_state = Ok sample_state.
Proof. vm_compute. reflexivity. Qed.

(** ** Properties *)

(** The balance of a node and key type after a run of events is the fold of a reference
    step over them: a join resets it, an issue adds modulo [2 ^ 32] and a revocation
    subtracts down to zero. *)
Theorem key_balance_refines n type es s s' :
  apply_events es s = Ok s' →
  get_node_key_balance n type s' =
  foldl (balance_step n type) (get_node_key_balance n type s) es.
Proof. rewrite !balance_at. apply balance_apply_events. Qed.

Lemma key_balance_refines_witness : get_node_key_balance alice SERVICE sample_state = 1.
Proof.
  rewrite (key_balance_refines alice SERVICE sample_history empty_state sample_state
    sample_state_eq). vm_compute. reflexivity.
Defined.

(** Hosting, joining networks and routing are allowed exactly to active nodes with a
    positive balance of SERVICE, NETWORK and ROUTING keys, and posting to active nodes
    with a positive balance of some key. *)
Theorem capability_checks n s :
  (can_node_host_things n s = true ↔
     is_node_active n s = true ∧ 0 < get_node_key_balance n SERVICE s) ∧
  (can_node_join_networks n s = true ↔
     is_node_active n s = true ∧ 0 < get_node_key_balance n NETWORK s) ∧
  (can_node_route_traffic n s = true ↔
     is_node_active n s = true ∧ 0 < get_node_key_balance n ROUTING s) ∧
  (can_node_post_content n s = true ↔
     is_node_active n s = true ∧ ∃ type, 0 < get_node_key_balance n type s).
Proof.
  assert (Hk : ∀ st type, ns_is_active st && has_key_type type 1 st = true ↔
    ns_is_active st = true ∧
    0 < match ns_key_balances st !! type with None => 0 | Some b => b end).
  { intros st type. unfold has_key_type. rewrite andb_true_iff.
    destruct (ns_key_balances st !! type) as [b|].
    - rewrite Z.leb_le. split; (intros [? ?]; split; [done|lia]).
    - by split; intros [_ ?]. }
  unfold can_node_host_things, can_node_join_networks, can_node_route_traffic,
    can_node_post_content, is_node_active, get_node_key_balance.
  destruct (nodes s !! n) as [st|];
    [|split; [|split; [|split]]; (split; [done|by intros [? _]])].
  split; [apply Hk|]. split; [apply Hk|]. split; [apply Hk|].
  destruct (ns_is_active st); cbn [negb]; [|by split; [|intros [? _]]].
  rewrite existsb_exists. split.
  - intros ([type b] & Hin%list_elem_of_In & Hb). split; [done|]. exists type.
    apply elem_of_entries in Hin. rewrite Hin. cbn in Hb. by apply Z.ltb_lt in Hb.
  - intros [_ [type Hb]]. destruct (ns_key_balances st !! type) as [b|] eqn:E; [|lia].
    exists (type, b). split; [by apply list_elem_of_In, elem_of_entries|]. by apply Z.ltb_lt.
Qed.

(** Applying an event never throws, and is undefined exactly when it is a reputation
    update whose sum leaves [int32_t]; two well-formed events reach that from the empty
    state. *)
Theorem apply_event_undefined_iff_overflow e s :
  (∀ err, apply_event e s ≠ Err err) ∧
  (apply_event e s = Undef ↔
     event_type e = REPUTATION_UPDATED ∧ ∃ x, reputation_from_bytes (data e) = Some x ∧
       ¬ in_s 32 (get_node_reputation (subject_node x) s + score_delta x)) ∧
  ∃ es, apply_events es empty_state = Undef ∧
    Forall (λ e, event_type e = REPUTATION_UPDATED) es.
Proof.
  assert (Hr : ∀ n, get_node_reputation n s =
    reputation_score (at_or default_node n (nodes s))).
  { intros n. unfold get_node_reputation, at_or. by destruct (nodes s !! n). }
  split; [|split].
  - intros err. destruct (decide (event_type e = REPUTATION_UPDATED)) as [E|E].
    + rewrite apply_event_reputation by done. unfold apply_reputation_updated.
      case_match; [|done]. by case_decide.
    + by destruct (apply_event_ok e s E) as [s' ->].
  - destruct (decide (event_type e = REPUTATION_UPDATED)) as [E|E].
    + rewrite apply_event_reputation by done. unfold apply_reputation_updated.
      destruct (reputation_from_bytes (data e)) as [x|].
      * setoid_rewrite Hr. case_decide as Hd.
        -- split; [done|]. intros [_ (x' & [= <-] & Hn)]. done.
        -- split; [|done]. intros _. split; [done|]. by exists x.
      * split; [done|]. by intros [_ (x' & ? & _)].
    + destruct (apply_event_ok e s E) as [s' ->]. by split; [|intros [? _]].
  - exists (replicate 2 overflow_event). split; [vm_compute; reflexivity|].
    by apply Forall_replicate.
Qed.

(** A second NODE_JOINED of a node forgets its memberships and keys while the networks and
    things still list it, and a second NETWORK_CREATED empties the network while its
    members still list it. *)
Lemma repeated_creation_splits_views e s s' :
  apply_event e s = Ok s' →
  (event_type e = NODE_JOINED →
     get_networks_for_node (source_node e) s' = [] ∧
     (∀ type, get_node_key_balance (source_node e) type s' = 0) ∧
     (∀ n net, is_node_in_network n net s' = is_node_in_network n net s) ∧
     ∀ c, get_thing_hosts c s' = get_thing_hosts c s) ∧
  (event_type e = NETWORK_CREATED → ∀ net, to_array 32 (take 32 (data e)) = Some net →
     (∀ n, is_node_in_network n net s' = false) ∧
     ∀ n, get_networks_for_node n s' = get_networks_for_node n s).
Proof.
  intros E. split.
  - intros Et. unfold apply_event in E. rewrite Et in E. injection E as <-.
    unfold apply_node_joined. split; [|split; [|done]].
    + unfold get_networks_for_node. cbn. by rewrite lookup_insert_eq.
    + intros type. rewrite balance_at. cbn. by rewrite at_or_insert_map, decide_True.
  - intros Et net Hnet. unfold apply_event in E. rewrite Et in E. injection E as <-.
    unfold apply_network_created. rewrite Hnet.
    apply to_array_Some in Hnet. pose proof (len_arr net) as Hl. rewrite Hnet in Hl.
    unfold len in Hl. rewrite length_take in Hl. unfold len.
    rewrite (proj2 (Z.ltb_ge _ _)) by lia. split; [|done].
    intros n. rewrite is_node_in_network_at. apply bool_decide_eq_false_2.
    unfold members_of. cbn. rewrite at_or_insert_map, decide_True by done.
    apply not_elem_of_empty.
Qed.

(** Alice after she joins a second time. *)
Definition rejoined_state : StateManager :=
  match apply_event (event_of alice NODE_JOINED 200 []) sample_state with
  | Ok s => s
  | _ => empty_state
  end.

(** C13: in every state reached from the empty one by fewer than [2 ^ 32] events,
    active nodes carry their own identifier, every member of a network has a role and
    conversely, a replication count is the number of hosts, a thing is available
    exactly when it has a host, and a node lists a thing only if the thing lists that
    node; the converse fails, since a second NODE_JOINED forgets the memberships and
    keys of a node that networks and things still list, and a second NETWORK_CREATED
    empties a network its members still list. *)
Theorem state_view_consistent :
  (∀ es s, apply_events es empty_state = Ok s → len es < 2 ^ 32 →
     (∀ n st, get_node_state n s = Some st → ns_is_active st = true → node_id st = Some n) ∧
     (∀ net st, get_network_state net s = Some st → dom (member_roles st) = members st) ∧
     (∀ c, get_thing_replication_count c s = len (get_thing_hosts c s)) ∧
     (∀ c, is_thing_available c s = true ↔ get_thing_hosts c s ≠ []) ∧
     (∀ n st c, get_node_state n s = Some st → c ∈ hosted_things st →
        n ∈ get_thing_hosts c s)) ∧
  (∀ e s s', apply_event e s = Ok s' →
     (event_type e = NODE_JOINED →
        get_networks_for_node (source_node e) s' = [] ∧
        (∀ type, get_node_key_balance (source_node e) type s' = 0) ∧
        (∀ n net, is_node_in_network n net s' = is_node_in_network n net s) ∧
        ∀ c, get_thing_hosts c s' = get_thing_hosts c s) ∧
     (event_type e = NETWORK_CREATED → ∀ net, to_array 32 (take 32 (data e)) = Some net →
        (∀ n, is_node_in_network n net s' = false) ∧
        ∀ n, get_networks_for_node n s' = get_networks_for_node n s)).
Proof.
  split; [|apply repeated_creation_splits_views]. intros es s E Hl.
  pose proof (wf_apply_events 0 es empty_state s ltac:(lia) (wf_empty_state 0) E)
    as [W1 W2 W3 W4]. rewrite Z.add_0_l in W3.
  split; [by intros n st Hn; apply W1|]. split; [by intros net st Hn; apply (W2 net)|].
  split; [|split].
  - intros c. unfold get_thing_replication_count, get_thing_hosts.
    destruct (things s !! c) as [t|] eqn:Et; [|done].
    destruct (W3 c t Et) as (_ & -> & Hs & _). unfold len. rewrite length_set_elements.
    apply wrap_small. unfold in_u. lia.
  - intros c. unfold is_thing_available, get_thing_hosts.
    destruct (things s !! c) as [t|] eqn:Et; [|done].
    destruct (W3 c t Et) as (_ & _ & _ & Ha & Hu).
    assert (Hne : set_elements (hosts t) ≠ [] ↔ hosts t ≠ ∅).
    { apply not_iff_compat. split.
      - intros Hn. apply leibniz_equiv, elem_of_equiv_empty. intros x Hx.
        apply elem_of_set_elements in Hx. rewrite Hn in Hx. by apply not_elem_of_nil in Hx.
      - intros ->. done. }
    rewrite Hne. split; [done|]. intros Hh. destruct (is_available t) eqn:Ea; [done|].
    by rewrite Hu in Hh.
  - intros n st c Hn Hc. unfold get_thing_hosts.
    destruct (W4 n st c Hn Hc) as (t & -> & Hin). by apply elem_of_set_elements.
Qed.

Lemma state_view_consistent_witness :
  get_thing_replication_count sample_thing sample_state =
    len (get_thing_hosts sample_thing sample_state) ∧
  is_node_in_network alice sample_net rejoined_state = true ∧
  get_networks_for_node alice rejoined_state = [].
Proof.
  split.
  - destruct (proj1 state_view_consistent sample_history sample_state sample_state_eq)
      as (_ & _ & HT & _); [vm_compute; reflexivity|]. apply HT.
  - destruct (proj2 state_view_consistent (event_of alice NODE_JOINED 200 []) sample_state
      rejoined_state) as [HT _]; [vm_compute; reflexivity|].
    destruct HT as (Hn & _ & Hm & _); [vm_compute; reflexivity|].
    split; [rewrite Hm; vm_compute; reflexivity|exact Hn].
Defined.

(** C14: the state view and the ledger index, computed separately from the same
    events, list the same hosts of a thing as long as no host removal is recorded, and
    the same members of a network as long as no creation or member removal is. *)
Theorem state_agrees_with_index es s :
  apply_events es empty_state = Ok s →
  (Forall (λ e, event_type e ≠ THING_REMOVED) es →
     ∀ c, get_thing_hosts c s = Ledger.get_thing_hosts c (rebuild_from_events es)) ∧
  (Forall (λ e, event_type e ≠ NETWORK_CREATED ∧ event_type e ≠ NETWORK_MEMBER_REMOVED) es →
     ∀ n net, is_node_in_network n net s =
       bool_decide (n ∈ get_network_members net (rebuild_from_events es))).
Proof.
  intros E. split.
  - intros HP c. rewrite get_thing_hosts_at, Ledger.hosts_at, rebuild_hosts. f_equal.
    rewrite (apply_events_union (hosts_at c) (host_added c) (λ e, event_type e ≠ THING_REMOVED)
      es empty_state s); [|by intros; apply hosts_apply_event|done|done].
    assert (hosts_at c empty_state = ∅) as ->; [|by rewrite (left_id_L ∅ (∪))].
    unfold hosts_at, at_or. cbn. by rewrite lookup_empty.
  - intros HP n net. rewrite is_node_in_network_at. apply bool_decide_ext.
    rewrite members_at, elem_of_set_elements, rebuild_members.
    rewrite (apply_events_union (members_of net) (member_added net)
      (λ e, event_type e ≠ NETWORK_CREATED ∧ event_type e ≠ NETWORK_MEMBER_REMOVED)
      es empty_state s); [|by intros e' s1 s2 [? ?]; apply members_apply_event|done|done].
    assert (members_of net empty_state = ∅) as ->; [|by rewrite (left_id_L ∅ (∪))].
    unfold members_of, at_or. cbn. by rewrite lookup_empty.
Qed.

Lemma state_agrees_with_index_witness :
  get_thing_hosts sample_thing sample_state =
  Ledger.get_thing_hosts sample_thing (rebuild_from_events sample_history).
Proof.
  destruct (state_agrees_with_index sample_history sample_state sample_state_eq) as [HT _].
  apply HT. repeat constructor; vm_compute; discriminate.
Defined.

(** Refreshing activity keeps active exactly the active nodes whose join or latest own
    event is not more than fourteen days old, and the cleanup removes exactly the inactive
    nodes that joined more than thirty days ago. *)
Theorem maintenance_passes `{Crypto} l now s :
  wf_ledger l →
  ∃ s', update_node_activity l now s = Ok s' ∧
    (∀ n, is_node_active n s' = true ↔
       is_node_active n s = true ∧ ∃ st, get_node_state n s = Some st ∧
       let seen := last_activity (joined_at st) (filter (λ e, source_node e = n) (events l)) in
       (now <= seen ∨ u64 (now - seen) <= INACTIVITY_THRESHOLD_SECONDS)) ∧
    (∀ n, get_node_state n (cleanup_stale_state now s') = None ↔
       get_node_state n s' = None ∨
       ∃ st, get_node_state n s' = Some st ∧ ns_is_active st = false ∧
         INACTIVE_THRESHOLD < u64 (now - joined_at st)).
Proof.
  intros W. destruct (update_node_activity_eq l now s W) as (s' & E & _ & _ & Hn).
  exists s'. split; [done|]. split.
  - intros n. unfold is_node_active, get_node_state. rewrite Hn.
    destruct (nodes s !! n) as [st|]; cbn [fmap option_fmap option_map];
      [|by split; [|intros [? _]]].
    unfold refreshed. cbv zeta. set (seen := last_activity _ _).
    destruct (ns_is_active st) eqn:Ea; cbn [andb]; [|by rewrite Ea; split; [|intros [? _]]].
    destruct (seen <? now) eqn:E1, (INACTIVITY_THRESHOLD_SECONDS <? u64 (now - seen)) eqn:E2;
      bool_to_prop; cbn [andb ns_is_active set_active].
    + split; [done|]. intros [_ (st' & [= <-] & Hs)]. fold seen in Hs. lia.
    + rewrite Ea. split; [intros _; split; [done|]|done]. exists st. split; [done|by right].
    + rewrite Ea. split; [intros _; split; [done|]|done]. exists st. split; [done|by left].
    + rewrite Ea. split; [intros _; split; [done|]|done]. exists st. split; [done|by left].
  - intros n. unfold get_node_state. rewrite cleanup_lookup.
    destruct (nodes s' !! n) as [st|]; [|by split; [left|]].
    unfold is_stale. destruct (ns_is_active st) eqn:Ea; cbn [negb andb].
    + split; [done|]. intros [?|(st' & [= <-] & ? & _)]; congruence.
    + destruct (INACTIVE_THRESHOLD <? _) eqn:E1; bool_to_prop.
      * split; [intros _; right; by exists st|done].
      * split; [done|]. intros [?|(st' & [= <-] & _ & ?)]; [done|lia].
Qed.

Lemma maintenance_passes_witness :
  ∃ s', @update_node_activity sample_ledger 1700009999 sample_state = Ok s' ∧
    get_node_state carol (cleanup_stale_state 1700009999 s') = None.
Proof.
  destruct (@maintenance_passes toy_crypto sample_ledger 1700009999 sample_state
    (proj1 sample_ledger_wf)) as (s' & E & _ & Hc).
  exists s'. split; [exact E|]. apply Hc. left.
  assert (Hx : match update_node_activity sample_ledger 1700009999 sample_state with
    | Ok x => get_node_state carol x | _ => None end = None) by (vm_compute; reflexivity).
  rewrite E in Hx. exact Hx.
Defined.
