(* ===== verification/Decay.v ===== *)
(** Time-based decay of keys and things: src/core/decay/decay.hpp and
    decay.cpp.

    [DecayScheduler] keeps policies, activity records and a history; the state
    view it consults is an argument of the passes.  The clock is read once per
    operation (a pass is short next to the seconds it counts).  Success rates
    are [float]s no decision reads; they are kept as their bits. *)

From Stdlib Require Import Strings.Byte.
From S2P Require Import Prelude Reader Common Crypto Key Event Ledger State.

(** ** Data *)

Inductive DecayReason :=
  | INACTIVITY
  | EXPIRATION
  | RESOURCE_SHORTAGE
  | POOR_PERFORMANCE
  | VIOLATION.

#[export] Instance DecayReason_eq_dec : EqDecision DecayReason.
Proof. solve_decision. Defined.

Definition reason_to_nat (r : DecayReason) : nat :=
  match r with
  | INACTIVITY => 0
  | EXPIRATION => 1
  | RESOURCE_SHORTAGE => 2
  | POOR_PERFORMANCE => 3
  | VIOLATION => 4
  end%nat.

Definition reason_of_nat (n : nat) : option DecayReason :=
  match n with
  | 0 => Some INACTIVITY
  | 1 => Some EXPIRATION
  | 2 => Some RESOURCE_SHORTAGE
  | 3 => Some POOR_PERFORMANCE
  | _ => Some VIOLATION
  end%nat.

Lemma reason_of_to_nat r : reason_of_nat (reason_to_nat r) = Some r.
Proof. by destruct r. Qed.

#[export] Instance DecayReason_countable : Countable DecayReason :=
  inj_countable reason_to_nat reason_of_nat reason_of_to_nat.

Record KeyDecayEvent := MkKeyDecayEvent {
  kd_node_id : NodeID;
  kd_key_type : KeyType;
  keys_decayed : Z;
  kd_reason : DecayReason;
  kd_decayed_at : Z;
  kd_epoch : Z
}.

Record ThingDecayEvent := MkThingDecayEvent {
  td_content_hash : option ContentHash;
  hosts_removed : list NodeID;
  td_reason : DecayReason;
  td_decayed_at : Z
}.

(** [policy_key_type] is left uninitialised by the constructor. *)
Record DecayPolicy := MkDecayPolicy {
  policy_key_type : option KeyType;
  max_age_seconds : Z;
  inactivity_threshold : Z;
  requires_activity : bool;
  min_actions_per_epoch : Z;
  requires_performance : bool;
  min_success_rate : Z
}.

Definition days (n : Z) : Z := n * 24 * 60 * 60.

(** 0.5f and 0.7f. *)
Definition half_bits : Z := 1056964608.
Definition seven_tenths_bits : Z := 1060320051.

Definition default_policy : DecayPolicy :=
  MkDecayPolicy None (days 30) (days 7) false 0 false half_bits.

Record ThingDecayPolicy := MkThingDecayPolicy {
  thing_max_age_seconds : Z;
  min_hosts_required : Z;
  thing_inactivity_threshold : Z
}.

Definition default_thing_policy : ThingDecayPolicy := MkThingDecayPolicy (days 90) 2 (days 30).

(** The node's own identifier is the key it is stored under. *)
Record NodeActivity := MkNodeActivity {
  last_seen : Z;
  last_key_use : Z;
  last_use_by_type : gmap KeyType Z;
  actions_this_epoch : gmap KeyType Z
}.

Definition no_activity : NodeActivity := MkNodeActivity 0 0 ∅ ∅.

Definition is_inactive (threshold now : Z) (a : NodeActivity) : bool :=
  threshold <? u64 (now - last_seen a).

Definition has_used_key_type (type : KeyType) (threshold now : Z) (a : NodeActivity) : bool :=
  match last_use_by_type a !! type with
  | None => false
  | Some t => u64 (now - t) <=? threshold
  end.

Record ThingActivity := MkThingActivity {
  ta_created_at : Z;
  last_accessed : Z;
  access_count : Z;
  current_hosts : list NodeID
}.

Definition no_access : ThingActivity := MkThingActivity 0 0 0 [].

Definition thing_is_inactive (threshold now : Z) (a : ThingActivity) : bool :=
  threshold <? u64 (now - last_accessed a).

Definition meets_redundancy (min_hosts : Z) (a : ThingActivity) : bool :=
  min_hosts <=? len (current_hosts a).

Record DecayScheduler := MkDecayScheduler {
  key_policies : gmap KeyType DecayPolicy;
  thing_policy : ThingDecayPolicy;
  node_activities : gmap NodeID NodeActivity;
  thing_activities : gmap ContentHash ThingActivity;
  key_decay_by_epoch : gmap Z (list KeyDecayEvent);
  thing_decay_history : list ThingDecayEvent
}.

(** ** Policies *)

Definition initialize_default_policies : gmap KeyType DecayPolicy :=
  <[NETWORK := MkDecayPolicy (Some NETWORK) (days 30) (days 14) false 0 false half_bits]>
  (<[ROUTING := MkDecayPolicy (Some ROUTING) (days 30) (days 7) true 10 true seven_tenths_bits]>
  (<[SERVICE := MkDecayPolicy (Some SERVICE) (days 30) (days 7) true 1 false half_bits]>
  (<[NODE := MkDecayPolicy (Some NODE) (days 30) (days 7) true 1 false half_bits]>
  (<[IDENTITY := MkDecayPolicy (Some IDENTITY) 0 (days 7) false 0 false half_bits]> ∅)))).

(** The constructor. *)
Definition new_scheduler : DecayScheduler :=
  MkDecayScheduler initialize_default_policies default_thing_policy ∅ ∅ ∅ [].

Definition with_nodes (m : gmap NodeID NodeActivity) (s : DecayScheduler) : DecayScheduler :=
  MkDecayScheduler (key_policies s) (thing_policy s) m (thing_activities s)
    (key_decay_by_epoch s) (thing_decay_history s).

Definition with_things (m : gmap ContentHash ThingActivity) (s : DecayScheduler) :
    DecayScheduler :=
  MkDecayScheduler (key_policies s) (thing_policy s) (node_activities s) m
    (key_decay_by_epoch s) (thing_decay_history s).

Definition set_key_policy (type : KeyType) (p : DecayPolicy) (s : DecayScheduler) :
    DecayScheduler :=
  MkDecayScheduler (<[type := p]> (key_policies s)) (thing_policy s) (node_activities s)
    (thing_activities s) (key_decay_by_epoch s) (thing_decay_history s).

Definition get_key_policy (type : KeyType) (s : DecayScheduler) : DecayPolicy :=
  match key_policies s !! type with None => default_policy | Some p => p end.

Definition set_thing_policy (p : ThingDecayPolicy) (s : DecayScheduler) : DecayScheduler :=
  MkDecayScheduler (key_policies s) p (node_activities s) (thing_activities s)
    (key_decay_by_epoch s) (thing_decay_history s).

Definition get_thing_policy (s : DecayScheduler) : ThingDecayPolicy := thing_policy s.

(** ** Activity *)

Definition record_node_activity (n : NodeID) (now : Z) (s : DecayScheduler) : DecayScheduler :=
  let a := at_or no_activity n (node_activities s) in
  with_nodes (<[n := MkNodeActivity now (last_key_use a) (last_use_by_type a)
                       (actions_this_epoch a)]> (node_activities s)) s.

Definition record_key_use (n : NodeID) (type : KeyType) (now : Z) (s : DecayScheduler) :
    DecayScheduler :=
  let a := at_or no_activity n (node_activities s) in
  with_nodes (<[n := MkNodeActivity (last_seen a) now (<[type := now]> (last_use_by_type a))
      (<[type := u32 (at_or 0 type (actions_this_epoch a) + 1)]> (actions_this_epoch a))]>
      (node_activities s)) s.

Definition update_node_activity_from_state (n : NodeID) (now : Z) (st : StateManager)
    (s : DecayScheduler) : DecayScheduler :=
  let a := at_or no_activity n (node_activities s) in
  let a := if is_node_active n st
           then MkNodeActivity now (last_key_use a) (last_use_by_type a) (actions_this_epoch a)
           else a in
  with_nodes (<[n := a]> (node_activities s)) s.

Definition update_thing_activity_from_state (c : ContentHash) (st : StateManager)
    (s : DecayScheduler) : DecayScheduler :=
  let a := at_or no_access c (thing_activities s) in
  let a :=
    match get_thing_state c st with
    | None => a
    | Some t =>
        if ta_created_at a =? 0 then
          MkThingActivity (thing_created_at t) (thing_created_at t) (access_count a)
            (set_elements (hosts t))
        else
          MkThingActivity (ta_created_at a) (last_accessed a) (access_count a)
            (set_elements (hosts t))
    end in
  with_things (<[c := a]> (thing_activities s)) s.

Definition record_thing_access (c : ContentHash) (now : Z) (st : StateManager)
    (s : DecayScheduler) : DecayScheduler :=
  let a := at_or no_access c (thing_activities s) in
  update_thing_activity_from_state c st
    (with_things (<[c := MkThingActivity (ta_created_at a) now (u32 (access_count a + 1))
                           (current_hosts a)]> (thing_activities s)) s).

(** ** Decisions *)

(** The result and the [reason] it sets. *)
Definition should_decay_key (n : NodeID) (type : KeyType) (policy : DecayPolicy) (now : Z)
    (s : DecayScheduler) : option DecayReason :=
  if max_age_seconds policy =? 0 then None
  else
    match node_activities s !! n with
    | Some a =>
        if is_inactive (inactivity_threshold policy) now a then Some INACTIVITY
        else if requires_activity policy then
          if negb (has_used_key_type type (inactivity_threshold policy) now a) then
            Some INACTIVITY
          else
            match actions_this_epoch a !! type with
            | None => Some POOR_PERFORMANCE
            | Some k =>
                if k <? min_actions_per_epoch policy then Some POOR_PERFORMANCE else None
            end
        else None
    | None => if requires_activity policy then Some INACTIVITY else None
    end.

Definition should_decay_thing (c : ContentHash) (policy : ThingDecayPolicy) (now : Z)
    (st : StateManager) (s : DecayScheduler) : option DecayReason :=
  match thing_activities s !! c with
  | Some a =>
      if thing_is_inactive (thing_inactivity_threshold policy) now a then Some INACTIVITY
      else if negb (meets_redundancy (min_hosts_required policy) a) then Some RESOURCE_SHORTAGE
      else if (thing_max_age_seconds policy <? u64 (now - ta_created_at a)) &&
              (access_count a =? 0) then Some EXPIRATION
      else None
  | None =>
      match get_thing_state c st with
      | None => None
      | Some t => if host_count t <? min_hosts_required policy then Some RESOURCE_SHORTAGE else None
      end
  end.

(** ** Passes *)

(** [if (node_activities_.find(n) == end) update_node_activity_from_state(n)]. *)
Definition track_node (n : NodeID) (now : Z) (st : StateManager) (s : DecayScheduler) :
    DecayScheduler :=
  match node_activities s !! n with
  | Some _ => s
  | None => update_node_activity_from_state n now st s
  end.

(** The inner loop over the balances of one node. *)
Definition node_decays (epoch now : Z) (n : NodeID) (balances : gmap KeyType Z)
    (s : DecayScheduler) : list KeyDecayEvent :=
  omap (λ p,
    if p.2 =? 0 then None
    else
      match should_decay_key n p.1 (get_key_policy p.1 s) now s with
      | Some why => Some (MkKeyDecayEvent n p.1 1 why now epoch)
      | None => None
      end) (entries balances).

(** An indeterminate identifier is not followed. *)
Fixpoint check_nodes (epoch now : Z) (st : StateManager) (ns : list NodeState)
    (s : DecayScheduler) : outcome (list KeyDecayEvent * DecayScheduler) :=
  match ns with
  | [] => Ok ([], s)
  | node :: ns =>
      match node_id node with
      | None => Undef
      | Some n =>
          let s := track_node n now st s in
          let found := node_decays epoch now n (ns_key_balances node) s in
          '(rest, s) ← check_nodes epoch now st ns s;
          mret (found ++ rest, s)
      end
  end.

Definition check_key_decay (epoch now : Z) (st : StateManager) (s : DecayScheduler) :
    outcome (list KeyDecayEvent * DecayScheduler) :=
  '(decays, s) ← check_nodes epoch now st (get_all_active_nodes st) s;
  mret (decays,
    if bool_decide (decays = []) then s
    else MkDecayScheduler (key_policies s) (thing_policy s) (node_activities s)
           (thing_activities s) (<[epoch := decays]> (key_decay_by_epoch s))
           (thing_decay_history s)).

Definition track_thing (c : ContentHash) (st : StateManager) (s : DecayScheduler) :
    DecayScheduler :=
  match thing_activities s !! c with
  | Some _ => s
  | None => update_thing_activity_from_state c st s
  end.

Fixpoint check_things (now : Z) (st : StateManager) (ts : list ThingState)
    (s : DecayScheduler) : outcome (list ThingDecayEvent * DecayScheduler) :=
  match ts with
  | [] => Ok ([], s)
  | t :: ts =>
      match content_hash t with
      | None => Undef
      | Some c =>
          let s := track_thing c st s in
          let found :=
            match should_decay_thing c (thing_policy s) now st s with
            | Some why => [MkThingDecayEvent (Some c) (set_elements (hosts t)) why now]
            | None => []
            end in
          '(rest, s) ← check_things now st ts s;
          mret (found ++ rest, s)
      end
  end.

Definition check_thing_decay (now : Z) (st : StateManager) (s : DecayScheduler) :
    outcome (list ThingDecayEvent * DecayScheduler) :=
  check_things now st (get_all_available_things st) s.

(** [apply_key_decay] only logs and reserves capacity. *)
Definition apply_key_decay (e : KeyDecayEvent) (s : DecayScheduler) : DecayScheduler := s.

Definition apply_thing_decay (e : ThingDecayEvent) (s : DecayScheduler) : DecayScheduler :=
  MkDecayScheduler (key_policies s) (thing_policy s) (node_activities s) (thing_activities s)
    (key_decay_by_epoch s) (thing_decay_history s ++ [e]).

Definition clear_actions (a : NodeActivity) : NodeActivity :=
  MkNodeActivity (last_seen a) (last_key_use a) (last_use_by_type a) ∅.

Definition process_epoch (epoch now : Z) (st : StateManager) (s : DecayScheduler) :
    outcome DecayScheduler :=
  '(key_decays, s) ← check_key_decay epoch now st s;
  let s := foldl (λ s e, apply_key_decay e s) s key_decays in
  '(thing_decays, s) ← check_thing_decay now st s;
  let s := foldl (λ s e, apply_thing_decay e s) s thing_decays in
  mret (with_nodes (clear_actions <$> node_activities s) s).

Definition force_decay_check (now : Z) (st : StateManager) (s : DecayScheduler) :
    outcome DecayScheduler :=
  process_epoch (now / (10 * 60)) now st s.

Definition cleanup_inactive_nodes (threshold now : Z) (s : DecayScheduler) : DecayScheduler :=
  let to_remove := (filter (λ p, threshold <? u64 (now - last_seen p.2) = true)
                      (entries (node_activities s))).*1 in
  with_nodes (foldl (λ m n, delete n m) (node_activities s) to_remove) s.

(** ** History *)

Definition get_key_decay_history (n : NodeID) (s : DecayScheduler) : list KeyDecayEvent :=
  mjoin ((λ p, filter (λ e, kd_node_id e = n) p.2) <$> entries (key_decay_by_epoch s)).

Definition get_thing_decay_history (s : DecayScheduler) : list ThingDecayEvent :=
  thing_decay_history s.

Definition get_total_keys_decayed (epoch : Z) (s : DecayScheduler) : Z :=
  match key_decay_by_epoch s !! epoch with
  | None => 0
  | Some es => foldl (λ total e, u32 (total + keys_decayed e)) 0 es
  end.

Definition get_total_things_decayed (s : DecayScheduler) : Z := u32 (len (thing_decay_history s)).

Definition add_reason (r : DecayReason) (n : Z) (m : gmap DecayReason Z) : gmap DecayReason Z :=
  <[r := u32 (at_or 0 r m + n)]> m.

Definition get_decay_reasons_breakdown (s : DecayScheduler) : gmap DecayReason Z :=
  let by_keys := foldl (λ m p, foldl (λ m e, add_reason (kd_reason e) (keys_decayed e) m) m p.2)
                   ∅ (entries (key_decay_by_epoch s)) in
  foldl (λ m e, add_reason (td_reason e) 1 m) by_keys (thing_decay_history s).

(** ** Lemmas *)

(** Everything but the activity records of nodes. *)
Definition same_but_nodes (s s' : DecayScheduler) : Prop :=
  key_policies s' = key_policies s ∧ thing_policy s' = thing_policy s ∧
  thing_activities s' = thing_activities s ∧ key_decay_by_epoch s' = key_decay_by_epoch s ∧
  thing_decay_history s' = thing_decay_history s.

Definition same_but_things (s s' : DecayScheduler) : Prop :=
  key_policies s' = key_policies s ∧ thing_policy s' = thing_policy s ∧
  node_activities s' = node_activities s ∧ key_decay_by_epoch s' = key_decay_by_epoch s ∧
  thing_decay_history s' = thing_decay_history s.

Lemma same_but_nodes_refl s : same_but_nodes s s.
Proof. done. Qed.

Lemma same_but_nodes_trans s1 s2 s3 :
  same_but_nodes s1 s2 → same_but_nodes s2 s3 → same_but_nodes s1 s3.
Proof. unfold same_but_nodes. intuition congruence. Qed.

Lemma same_but_things_trans s1 s2 s3 :
  same_but_things s1 s2 → same_but_things s2 s3 → same_but_things s1 s3.
Proof. unfold same_but_things. intuition congruence. Qed.

Lemma track_node_same n now st s : same_but_nodes s (track_node n now st s).
Proof. unfold track_node. by case_match. Qed.

Lemma track_thing_same c st s : same_but_things s (track_thing c st s).
Proof. unfold track_thing. by case_match. Qed.

Lemma track_node_other n n' now st s :
  n ≠ n' → node_activities (track_node n now st s) !! n' = node_activities s !! n'.
Proof. intros. unfold track_node. case_match; [done|]. cbn. by apply lookup_insert_ne. Qed.

Lemma track_thing_other c c' st s :
  c ≠ c' → thing_activities (track_thing c st s) !! c' = thing_activities s !! c'.
Proof. intros. unfold track_thing. case_match; [done|]. cbn. by apply lookup_insert_ne. Qed.

(** Decisions read one activity record. *)
Lemma should_decay_key_ext n type p now s s' :
  node_activities s !! n = node_activities s' !! n →
  should_decay_key n type p now s = should_decay_key n type p now s'.
Proof. intros E. unfold should_decay_key. by rewrite E. Qed.

Lemma should_decay_thing_ext c p now st s s' :
  thing_activities s !! c = thing_activities s' !! c →
  should_decay_thing c p now st s = should_decay_thing c p now st s'.
Proof. intros E. unfold should_decay_thing. by rewrite E. Qed.

(** Tracking in a scheduler that agrees on [n]. *)
Lemma track_node_ext n now st s s' :
  node_activities s !! n = node_activities s' !! n →
  node_activities (track_node n now st s) !! n = node_activities (track_node n now st s') !! n.
Proof.
  intros E. unfold track_node. rewrite E.
  destruct (node_activities s' !! n) eqn:E'; [by rewrite E, E'|].
  cbn. rewrite !lookup_insert_eq. unfold at_or. by rewrite E, E'.
Qed.

Lemma track_thing_ext c st s s' :
  thing_activities s !! c = thing_activities s' !! c →
  thing_activities (track_thing c st s) !! c = thing_activities (track_thing c st s') !! c.
Proof.
  intros E. unfold track_thing. rewrite E.
  destruct (thing_activities s' !! c) eqn:E'; [by rewrite E, E'|].
  cbn. rewrite !lookup_insert_eq. unfold at_or. by rewrite E, E'.
Qed.

(** The decision of a pass on one key type of one node, with the node tracked first. *)
Definition key_verdict (now : Z) (st : StateManager) (s : DecayScheduler) (n : NodeID)
    (type : KeyType) : option DecayReason :=
  should_decay_key n type (get_key_policy type s) now (track_node n now st s).

Definition thing_verdict (now : Z) (st : StateManager) (s : DecayScheduler) (c : ContentHash) :
    option DecayReason :=
  should_decay_thing c (thing_policy s) now st (track_thing c st s).

Lemma key_verdict_ext now st s s' n type :
  key_policies s' = key_policies s → node_activities s' !! n = node_activities s !! n →
  key_verdict now st s' n type = key_verdict now st s n type.
Proof.
  intros E1 E2. unfold key_verdict, get_key_policy. rewrite E1.
  by apply should_decay_key_ext, track_node_ext.
Qed.

Lemma thing_verdict_ext now st s s' c :
  thing_policy s' = thing_policy s → thing_activities s' !! c = thing_activities s !! c →
  thing_verdict now st s' c = thing_verdict now st s c.
Proof.
  intros E1 E2. unfold thing_verdict. rewrite E1. by apply should_decay_thing_ext, track_thing_ext.
Qed.

Lemma omap_ext {A B} (f g : A → option B) (l : list A) : (∀ x, f x = g x) → omap f l = omap g l.
Proof. intros E. induction l as [|x l IH]; [done|]. cbn. by rewrite E, IH. Qed.

(** What the pass finds for one node. *)
Definition found_keys (epoch now : Z) (st : StateManager) (s : DecayScheduler)
    (p : NodeID * NodeState) : list KeyDecayEvent :=
  omap (λ q, if q.2 =? 0 then None
             else (λ why, MkKeyDecayEvent p.1 q.1 1 why now epoch) <$>
                    key_verdict now st s p.1 q.1)
    (entries (ns_key_balances p.2)).

Definition found_thing (now : Z) (st : StateManager) (s : DecayScheduler)
    (p : ContentHash * ThingState) : list ThingDecayEvent :=
  match thing_verdict now st s p.1 with
  | Some why => [MkThingDecayEvent (Some p.1) (set_elements (hosts p.2)) why now]
  | None => []
  end.

Lemma node_decays_found epoch now st s n node :
  node_decays epoch now n (ns_key_balances node) (track_node n now st s) =
  found_keys epoch now st s (n, node).
Proof.
  unfold node_decays, found_keys. apply omap_ext. intros [type b]. cbn.
  destruct (b =? 0); [done|]. unfold key_verdict, get_key_policy.
  destruct (track_node_same n now st s) as [-> _]. by case_match.
Qed.

Lemma check_nodes_spec epoch now st l s :
  Forall (λ p, node_id p.2 = Some p.1) l → NoDup l.*1 →
  ∃ s', check_nodes epoch now st l.*2 s = Ok (mjoin (found_keys epoch now st s <$> l), s') ∧
    same_but_nodes s s'.
Proof.
  revert s. induction l as [|[n node] l IH]; intros s Hid Hnd; [by exists s|].
  apply list.Forall_cons in Hid as [Hn Hid]. cbn in Hn, Hnd.
  apply list.NoDup_cons in Hnd as [Hni Hnd].
  destruct (IH (track_node n now st s) Hid Hnd) as (s' & E & Hs).
  exists s'. cbn. rewrite Hn, E. cbn. rewrite node_decays_found. split.
  - do 3 f_equal. f_equal. apply list_fmap_ext. intros i [n' node'] Hi.
    assert (n ≠ n') by (intros ->; apply Hni; apply list_elem_of_lookup_2 in Hi;
      apply list_elem_of_fmap; by exists (n', node')).
    apply omap_ext. intros [type b]. cbn.
    rewrite (key_verdict_ext now st s); [done| |by apply track_node_other].
    apply track_node_same.
  - eapply same_but_nodes_trans; [apply track_node_same|done].
Qed.

Lemma check_things_spec now st l s :
  Forall (λ p, content_hash p.2 = Some p.1) l → NoDup l.*1 →
  ∃ s', check_things now st l.*2 s = Ok (mjoin (found_thing now st s <$> l), s') ∧
    same_but_things s s'.
Proof.
  revert s. induction l as [|[c t] l IH]; intros s Hid Hnd; [by exists s|].
  apply list.Forall_cons in Hid as [Hn Hid]. cbn in Hn, Hnd.
  apply list.NoDup_cons in Hnd as [Hni Hnd].
  destruct (IH (track_thing c st s) Hid Hnd) as (s' & E & Hs).
  exists s'. cbn. rewrite Hn, E. cbn. split.
  - unfold found_thing at 2. unfold thing_verdict. cbn.
    destruct (track_thing_same c st s) as (_ & -> & _).
    do 3 f_equal. f_equal. apply list_fmap_ext. intros i [c' t'] Hi.
    assert (c ≠ c') by (intros ->; apply Hni; apply list_elem_of_lookup_2 in Hi;
      apply list_elem_of_fmap; by exists (c', t')).
    unfold found_thing. cbn. rewrite (thing_verdict_ext now st s); [done| |by apply track_thing_other].
    apply track_thing_same.
  - eapply same_but_things_trans; [apply track_thing_same|done].
Qed.

Lemma filter_snd {A B} (P : B → Prop) `{!∀ x, Decision (P x)} (l : list (A * B)) :
  filter P l.*2 = (filter (λ p, P p.2) l).*2.
Proof.
  induction l as [|[a b] l IH]; [done|].
  rewrite fmap_cons, !filter_cons. change (a, b).2 with b.
  case_decide; [rewrite fmap_cons|]; by rewrite IH.
Qed.

Lemma NoDup_filtered {A B} (P : A * B → Prop) `{!∀ x, Decision (P x)} (l : list (A * B)) :
  NoDup l.*1 → NoDup (filter P l).*1.
Proof. intros Hnd. eapply sublist_NoDup; [exact Hnd|]. apply fmap_sublist, sublist_filter. Qed.

(** The key types of one node are distinct, and so are the nodes. *)
Definition decay_slot (e : KeyDecayEvent) : NodeID * KeyType := (kd_node_id e, kd_key_type e).

Lemma elem_of_found_keys epoch now st s p e :
  e ∈ found_keys epoch now st s p ↔
  keys_decayed e = 1 ∧ kd_decayed_at e = now ∧ kd_epoch e = epoch ∧ kd_node_id e = p.1 ∧
  (∃ b, ns_key_balances p.2 !! kd_key_type e = Some b ∧ b ≠ 0) ∧
  key_verdict now st s p.1 (kd_key_type e) = Some (kd_reason e).
Proof.
  unfold found_keys. rewrite list_elem_of_omap. split.
  - intros ([type b] & Hin%elem_of_entries & He). cbn in He.
    destruct (b =? 0) eqn:Eb; [done|]. bool_to_prop.
    destruct (key_verdict now st s p.1 type) as [why|] eqn:Ev; [|done].
    injection He as <-. cbn. repeat (split; [done|]). split; [by exists b|done].
  - destruct e as [n type k why at' ep]. cbn.
    intros (-> & -> & -> & -> & (b & Hb & H0) & Hv). exists (type, b).
    split; [by apply elem_of_entries|]. cbn.
    rewrite (proj2 (Z.eqb_neq _ _)) by done. by rewrite Hv.
Qed.

Lemma found_keys_slots epoch now st s p :
  NoDup (decay_slot <$> found_keys epoch now st s p).
Proof.
  unfold found_keys. pose proof (NoDup_entries (ns_key_balances p.2)) as Hnd.
  induction (entries (ns_key_balances p.2)) as [|[type b] l IH]; [constructor|].
  cbn in *. apply list.NoDup_cons in Hnd as [Hni Hnd].
  destruct (b =? 0); [by apply IH|].
  destruct (key_verdict now st s p.1 type) as [why|]; [|by apply IH].
  cbn. apply list.NoDup_cons. split; [|by apply IH].
  intros (e & He & Hin)%list_elem_of_fmap. apply list_elem_of_omap in Hin as ([type' b'] & Hin & Hv).
  cbn in Hv. destruct (b' =? 0); [done|].
  destruct (key_verdict now st s p.1 type') as [why'|]; [|done].
  injection Hv as <-. injection He as ->. apply Hni, list_elem_of_fmap. by exists (type', b').
Qed.

Lemma found_keys_distinct epoch now st s l :
  NoDup l.*1 → NoDup (decay_slot <$> mjoin (found_keys epoch now st s <$> l)).
Proof.
  induction l as [|p l IH]; [constructor|]. cbn. intros [Hni Hnd]%list.NoDup_cons.
  rewrite fmap_app. apply list.NoDup_app. split; [apply found_keys_slots|].
  split; [|by apply IH].
  intros slot (e & -> & He)%list_elem_of_fmap (e' & Hs & He')%list_elem_of_fmap.
  apply elem_of_found_keys in He as (_ & _ & _ & Hp & _).
  apply list_elem_of_join in He' as (es & Hes & (q & -> & Hq)%list_elem_of_fmap).
  apply elem_of_found_keys in Hes as (_ & _ & _ & Hp' & _).
  injection Hs as Hs _. apply Hni, list_elem_of_fmap. exists q. split; [congruence|done].
Qed.

Section passes.
Context (es : list LedgerEvent) (st : StateManager).
Context (Hst : apply_events es empty_state = Ok st).

Definition active_entries : list (NodeID * NodeState) :=
  filter (λ p, ns_is_active p.2 = true) (entries (nodes st)).

Definition available_entries : list (ContentHash * ThingState) :=
  filter (λ p, is_available p.2 = true) (entries (things st)).

Lemma active_entries_ids :
  Forall (λ p, node_id p.2 = Some p.1) active_entries ∧ NoDup active_entries.*1.
Proof using Hst.
  destruct (wf_apply_events 0 es empty_state st ltac:(lia) (wf_empty_state 0) Hst) as [W1 _ _ _].
  split.
  - apply list.Forall_forall. intros [n node] [Ha Hin%elem_of_entries]%list_elem_of_filter.
    by apply W1.
  - apply NoDup_filtered, NoDup_entries.
Qed.

Lemma available_entries_ids :
  Forall (λ p, content_hash p.2 = Some p.1) available_entries ∧ NoDup available_entries.*1.
Proof using Hst.
  destruct (wf_apply_events 0 es empty_state st ltac:(lia) (wf_empty_state 0) Hst) as [_ _ W3 _].
  split.
  - apply list.Forall_forall. intros [c t] [Ha Hin%elem_of_entries]%list_elem_of_filter.
    by destruct (W3 c t Hin).
  - apply NoDup_filtered, NoDup_entries.
Qed.

Lemma check_key_decay_spec epoch now s :
  ∃ s', check_key_decay epoch now st s =
      Ok (mjoin (found_keys epoch now st s <$> active_entries), s') ∧
    key_policies s' = key_policies s ∧ thing_policy s' = thing_policy s ∧
    thing_activities s' = thing_activities s ∧
    thing_decay_history s' = thing_decay_history s ∧
    key_decay_by_epoch s' =
      if decide (mjoin (found_keys epoch now st s <$> active_entries) = [])
      then key_decay_by_epoch s
      else <[epoch := mjoin (found_keys epoch now st s <$> active_entries)]>
             (key_decay_by_epoch s).
Proof using Hst.
  destruct active_entries_ids as [Hid Hnd].
  destruct (check_nodes_spec epoch now st active_entries s Hid Hnd) as (s' & E & S1 & S2 & S3 & S4 & S5).
  unfold check_key_decay, get_all_active_nodes. rewrite filter_snd. fold active_entries.
  rewrite E. cbn [mbind outcome_bind mret outcome_ret]. eexists. split; [reflexivity|].
  case_bool_decide as Hd; [rewrite decide_True by done; done|].
  rewrite decide_False by done. cbn. by rewrite S4.
Qed.

Lemma check_thing_decay_spec now s :
  ∃ s', check_thing_decay now st s =
      Ok (mjoin (found_thing now st s <$> available_entries), s') ∧ same_but_things s s'.
Proof using Hst.
  destruct available_entries_ids as [Hid Hnd].
  unfold check_thing_decay, get_all_available_things. rewrite filter_snd.
  by apply check_things_spec.
Qed.

Lemma elem_of_active_entries n node :
  (n, node) ∈ active_entries ↔ nodes st !! n = Some node ∧ ns_is_active node = true.
Proof using. unfold active_entries. rewrite list_elem_of_filter, elem_of_entries. cbn. tauto. Qed.

Lemma elem_of_available_entries c t :
  (c, t) ∈ available_entries ↔ things st !! c = Some t ∧ is_available t = true.
Proof using. unfold available_entries. rewrite list_elem_of_filter, elem_of_entries. cbn. tauto. Qed.

Lemma elem_of_key_decays epoch now s e :
  e ∈ mjoin (found_keys epoch now st s <$> active_entries) ↔
  keys_decayed e = 1 ∧ kd_decayed_at e = now ∧ kd_epoch e = epoch ∧
  is_node_active (kd_node_id e) st = true ∧
  get_node_key_balance (kd_node_id e) (kd_key_type e) st ≠ 0 ∧
  key_verdict now st s (kd_node_id e) (kd_key_type e) = Some (kd_reason e).
Proof using.
  rewrite list_elem_of_join. unfold is_node_active, get_node_key_balance. split.
  - intros (l & He & ([n node] & -> & Hin)%list_elem_of_fmap).
    apply elem_of_active_entries in Hin as [Hn Ha].
    apply elem_of_found_keys in He as (? & ? & ? & En & (b & Hb & H0) & Hv). cbn in *.
    rewrite En, Hn, Hb. done.
  - intros (? & ? & ? & Ha & Hb & Hv).
    destruct (nodes st !! kd_node_id e) as [node|] eqn:Hn; [|done].
    exists (found_keys epoch now st s (kd_node_id e, node)). split.
    + apply elem_of_found_keys. cbn. repeat (split; [done|]). split; [|done].
      destruct (ns_key_balances node !! kd_key_type e) as [b|]; [by exists b|done].
    + apply list_elem_of_fmap. exists (kd_node_id e, node). split; [done|].
      by apply elem_of_active_entries.
Qed.

Lemma elem_of_thing_decays now s e :
  e ∈ mjoin (found_thing now st s <$> available_entries) ↔
  td_decayed_at e = now ∧ ∃ c, td_content_hash e = Some c ∧ is_thing_available c st = true ∧
    hosts_removed e = get_thing_hosts c st ∧ thing_verdict now st s c = Some (td_reason e).
Proof using.
  rewrite list_elem_of_join. unfold is_thing_available, get_thing_hosts. split.
  - intros (l & He & ([c t] & -> & Hin)%list_elem_of_fmap).
    apply elem_of_available_entries in Hin as [Hc Ha].
    unfold found_thing in He. cbn in He.
    destruct (thing_verdict now st s c) as [why|] eqn:Hv; [|by apply not_elem_of_nil in He].
    apply list_elem_of_singleton in He as ->. cbn. split; [done|]. exists c. by rewrite Hc.
  - intros (Hat & c & Ec & Ha & Hh & Hv).
    destruct (things st !! c) as [t|] eqn:Hc; [|done].
    exists (found_thing now st s (c, t)). split.
    + unfold found_thing. cbn. rewrite Hv. apply list_elem_of_singleton.
      destruct e; cbn in *. by subst.
    + apply list_elem_of_fmap. exists (c, t). split; [done|]. by apply elem_of_available_entries.
Qed.

End passes.

Lemma fold_apply_key_decay ks s : foldl (λ s e, apply_key_decay e s) s ks = s.
Proof. induction ks; [done|]. cbn. done. Qed.

Lemma fold_apply_thing_decay ts s :
  thing_decay_history (foldl (λ s e, apply_thing_decay e s) s ts) = thing_decay_history s ++ ts ∧
  key_decay_by_epoch (foldl (λ s e, apply_thing_decay e s) s ts) = key_decay_by_epoch s.
Proof.
  revert s. induction ts as [|t ts IH]; intros s; [by rewrite app_nil_r|].
  cbn. destruct (IH (apply_thing_decay t s)) as [-> ->]. cbn. by rewrite <- app_assoc.
Qed.

(** ** Properties *)

(** What a policy condemns, and why, from the activity of the node: a key of a node not seen
    for longer than the threshold; where use is required, one not used within the threshold,
    or used too few times since the last epoch pass. *)
Inductive condemned_key (now : Z) (p : DecayPolicy) (type : KeyType) (a : NodeActivity) : DecayReason → Prop :=
  | key_of_unseen :
      inactivity_threshold p < u64 (now - last_seen a) → condemned_key now p type a INACTIVITY
  | key_unused :
      u64 (now - last_seen a) <= inactivity_threshold p → requires_activity p = true →
      (∀ t, last_use_by_type a !! type = Some t → inactivity_threshold p < u64 (now - t)) →
      condemned_key now p type a INACTIVITY
  | key_idle t :
      u64 (now - last_seen a) <= inactivity_threshold p → requires_activity p = true →
      last_use_by_type a !! type = Some t → u64 (now - t) <= inactivity_threshold p →
      (∀ k, actions_this_epoch a !! type = Some k → k < min_actions_per_epoch p) →
      condemned_key now p type a POOR_PERFORMANCE.

(** A node without a record counts as just seen, and as never having used a key. *)
Definition node_record (now : Z) (a : option NodeActivity) : NodeActivity :=
  match a with Some a => a | None => MkNodeActivity now 0 ∅ ∅ end.

(** A thing not accessed for longer than the threshold, one with too few hosts, or one too old
    without an access. *)
Inductive condemned_thing (now : Z) (p : ThingDecayPolicy) (created accessed count nhosts : Z) : DecayReason → Prop :=
  | thing_idle :
      thing_inactivity_threshold p < u64 (now - accessed) →
      condemned_thing now p created accessed count nhosts INACTIVITY
  | thing_scarce :
      u64 (now - accessed) <= thing_inactivity_threshold p → nhosts < min_hosts_required p →
      condemned_thing now p created accessed count nhosts RESOURCE_SHORTAGE
  | thing_old :
      u64 (now - accessed) <= thing_inactivity_threshold p → min_hosts_required p <= nhosts →
      thing_max_age_seconds p < u64 (now - created) → count = 0 →
      condemned_thing now p created accessed count nhosts EXPIRATION.

(** A thing without a record is judged by its creation and its present hosts, one on record by the
    hosts recorded. *)
Definition thing_record (a : option ThingActivity) (t : ThingState) : Z * Z * Z * Z :=
  match a with
  | Some a => (ta_created_at a, last_accessed a, access_count a, len (current_hosts a))
  | None => (thing_created_at t, thing_created_at t, 0, Z.of_nat (size (hosts t)))
  end.

Lemma condemned_key_exact now p type a why :
  (if is_inactive (inactivity_threshold p) now a then Some INACTIVITY
   else if requires_activity p then
     if negb (has_used_key_type type (inactivity_threshold p) now a) then Some INACTIVITY
     else
       match actions_this_epoch a !! type with
       | None => Some POOR_PERFORMANCE
       | Some k => if k <? min_actions_per_epoch p then Some POOR_PERFORMANCE else None
       end
   else None) = Some why ↔
  condemned_key now p type a why.
Proof.
  unfold is_inactive, has_used_key_type.
  destruct (Z.ltb_spec (inactivity_threshold p) (u64 (now - last_seen a))) as [Hi|Hi].
  { split; [intros [= <-]; by constructor|]. intros Hc. inversion Hc; done || lia. }
  destruct (requires_activity p) eqn:Er.
  2:{ split; [done|]. intros Hc. inversion Hc; congruence || lia. }
  destruct (last_use_by_type a !! type) as [t|] eqn:Et; cbn [negb].
  2:{ split; [intros [= <-]; apply key_unused; [done..|by rewrite Et]|].
      intros Hc. inversion Hc; done || congruence || lia. }
  destruct (Z.leb_spec (u64 (now - t)) (inactivity_threshold p)) as [Hu|Hu]; cbn [negb].
  2:{ split; [intros [= <-]; apply key_unused; [done..|rewrite Et; intros ? [= <-]; done]|].
      intros Hc. inversion Hc; subst; done || simplify_eq; lia. }
  assert (Hnot : ∀ w, condemned_key now p type a w → w = POOR_PERFORMANCE ∧
    ∀ k, actions_this_epoch a !! type = Some k → k < min_actions_per_epoch p).
  { intros w Hc. inversion Hc as [|? ? Hno|? ? ? ? ? Hk]; subst; [lia|specialize (Hno t Et); lia|done]. }
  destruct (actions_this_epoch a !! type) as [k|] eqn:Ek; [destruct (Z.ltb_spec k (min_actions_per_epoch p))|].
  - split; [intros [= <-]|by intros [-> _]%Hnot]. eapply key_idle; try done. rewrite Ek. by intros ? [= <-].
  - split; [done|]. intros [_ Hk]%Hnot. specialize (Hk k eq_refl). lia.
  - split; [intros [= <-]|by intros [-> _]%Hnot]. eapply key_idle; try done. by rewrite Ek.
Qed.

Lemma key_verdict_exact now st s n type why :
  is_node_active n st = true →
  key_verdict now st s n type = Some why ↔
  max_age_seconds (get_key_policy type s) ≠ 0 ∧
  condemned_key now (get_key_policy type s) type (node_record now (node_activities s !! n)) why.
Proof.
  intros Hact. unfold key_verdict, should_decay_key, track_node, node_record. set (p := get_key_policy type s) in *.
  destruct (Z.eqb_spec (max_age_seconds p) 0) as [|Hage]; [by split; [|intros []]|].
  destruct (node_activities s !! n) as [a|] eqn:Ea; [rewrite Ea; cbv iota; etransitivity; [apply condemned_key_exact|tauto]|].
  unfold update_node_activity_from_state. rewrite Hact. cbn [node_activities with_nodes]. rewrite lookup_insert_eq.
  unfold at_or. rewrite Ea. cbn [default from_option id last_key_use last_use_by_type actions_this_epoch no_activity]. cbv iota. etransitivity; [apply condemned_key_exact|tauto].
Qed.

Lemma condemned_thing_exact now p a why :
  (if thing_is_inactive (thing_inactivity_threshold p) now a then Some INACTIVITY
   else if negb (meets_redundancy (min_hosts_required p) a) then Some RESOURCE_SHORTAGE
   else if (thing_max_age_seconds p <? u64 (now - ta_created_at a)) && (access_count a =? 0) then Some EXPIRATION
   else None) = Some why ↔
  condemned_thing now p (ta_created_at a) (last_accessed a) (access_count a) (len (current_hosts a)) why.
Proof.
  unfold thing_is_inactive, meets_redundancy.
  destruct (Z.ltb_spec (thing_inactivity_threshold p) (u64 (now - last_accessed a))).
  { split; [intros [= <-]; by constructor|]. intros Hc. inversion Hc; done || lia. }
  destruct (Z.leb_spec (min_hosts_required p) (len (current_hosts a))); cbn [negb].
  2:{ split; [intros [= <-]; by constructor|]. intros Hc. inversion Hc; done || lia. }
  destruct (Z.ltb_spec (thing_max_age_seconds p) (u64 (now - ta_created_at a))), (Z.eqb_spec (access_count a) 0); cbn [andb];
    (split; [try done; intros [= <-]; by constructor|intros Hc; inversion Hc; done || lia]).
Qed.

Lemma thing_verdict_exact now st s c t why :
  things st !! c = Some t →
  thing_verdict now st s c = Some why ↔
  let '(created, accessed, count, nhosts) := thing_record (thing_activities s !! c) t in
  condemned_thing now (thing_policy s) created accessed count nhosts why.
Proof.
  intros Ht. unfold thing_verdict, should_decay_thing, track_thing, thing_record.
  destruct (thing_activities s !! c) as [a|] eqn:Ea.
  - rewrite Ea. cbv iota. apply condemned_thing_exact.
  - unfold update_thing_activity_from_state, get_thing_state. rewrite Ht. cbn [thing_activities with_things].
    rewrite lookup_insert_eq. unfold at_or. rewrite Ea. cbn [default from_option id ta_created_at no_access Z.eqb access_count].
    cbv iota. etransitivity; [apply condemned_thing_exact|]. cbn [ta_created_at last_accessed access_count current_hosts].
    unfold len. by rewrite length_set_elements.
Qed.

Lemma key_event_exact epoch now st s e :
  (keys_decayed e = 1 ∧ kd_decayed_at e = now ∧ kd_epoch e = epoch ∧
   is_node_active (kd_node_id e) st = true ∧
   get_node_key_balance (kd_node_id e) (kd_key_type e) st ≠ 0 ∧
   key_verdict now st s (kd_node_id e) (kd_key_type e) = Some (kd_reason e)) ↔
  keys_decayed e = 1 ∧ kd_decayed_at e = now ∧ kd_epoch e = epoch ∧
  ∃ node b p, nodes st !! kd_node_id e = Some node ∧ ns_is_active node = true ∧
    ns_key_balances node !! kd_key_type e = Some b ∧ b ≠ 0 ∧
    p = default default_policy (key_policies s !! kd_key_type e) ∧ max_age_seconds p ≠ 0 ∧
    condemned_key now p (kd_key_type e) (node_record now (node_activities s !! kd_node_id e)) (kd_reason e).
Proof.
  assert (get_key_policy (kd_key_type e) s = default default_policy (key_policies s !! kd_key_type e)) as Ep
    by (unfold get_key_policy; by destruct (key_policies s !! kd_key_type e)).
  split; intros (? & ? & ? & H); (split; [done|]); (split; [done|]); (split; [done|]).
  - destruct H as (Ha & Hb & Hv). apply (key_verdict_exact now st s _ _ _ Ha) in Hv as [Hp Hv]. rewrite Ep in *.
    unfold is_node_active, get_node_key_balance in Ha, Hb. destruct (nodes st !! kd_node_id e) as [node|]; [|done].
    destruct (ns_key_balances node !! kd_key_type e) as [b|] eqn:Eb; [|done]. by exists node, b, (default default_policy (key_policies s !! kd_key_type e)).
  - destruct H as (node & b & p & Hn & Ha & Hb & Hb0 & -> & Hp & Hc). unfold is_node_active at 1, get_node_key_balance. rewrite Hn, Hb.
    split; [done|]. split; [done|]. apply key_verdict_exact; [unfold is_node_active; by rewrite Hn|]. by rewrite Ep.
Qed.

Lemma thing_event_exact now st s s1 e :
  thing_policy s1 = thing_policy s → thing_activities s1 = thing_activities s →
  (td_decayed_at e = now ∧ ∃ c, td_content_hash e = Some c ∧ is_thing_available c st = true ∧
     hosts_removed e = get_thing_hosts c st ∧ thing_verdict now st s1 c = Some (td_reason e)) ↔
  td_decayed_at e = now ∧ ∃ c t, td_content_hash e = Some c ∧ things st !! c = Some t ∧
    is_available t = true ∧ hosts_removed e = set_elements (hosts t) ∧
    let '(created, accessed, count, nhosts) := thing_record (thing_activities s !! c) t in
    condemned_thing now (thing_policy s) created accessed count nhosts (td_reason e).
Proof.
  intros Ep Ea. split; intros [? H]; (split; [done|]).
  - destruct H as (c & Hc & Hav & Hh & Hv). unfold is_thing_available, get_thing_hosts in Hav, Hh.
    destruct (things st !! c) as [t|] eqn:Et; [|done]. exists c, t. do 4 (split; [done|]).
    apply (thing_verdict_exact now st s1 c t _ Et) in Hv. by rewrite Ep, Ea in Hv.
  - destruct H as (c & t & Hc & Et & Hav & Hh & Hv). exists c. unfold is_thing_available at 1, get_thing_hosts. rewrite Et.
    do 3 (split; [done|]). apply (thing_verdict_exact now st s1 c t _ Et). by rewrite Ep, Ea.
Qed.


(** A node that has used its SERVICE key once since the last pass, of two times demanded. *)
Definition demanding : DecayScheduler :=
  set_key_policy SERVICE (MkDecayPolicy (Some SERVICE) (days 30) (days 7) true 2 false half_bits)
    (record_key_use alice SERVICE 1699999990 (record_node_activity alice 1699999990 new_scheduler)).


(** Recorded node activity resets the inactivity of its keys and IDENTITY keys never decay
    by default; yet the first recorded use of a key leaves the node inactive since the
    epoch, and the first recorded access of a thing counts as one at its creation, unlike
    every later access. *)
Theorem recorded_activity_and_decay n type c p q t0 now st t s :
  max_age_seconds p ≠ 0 → in_u 64 now → get_thing_state c st = Some t →
  (requires_activity p = false →
     should_decay_key n type p now (record_node_activity n t0 s) =
     if inactivity_threshold p <? u64 (now - t0) then Some INACTIVITY else None) ∧
  (get_key_policy IDENTITY s = get_key_policy IDENTITY new_scheduler →
     key_verdict now st s n IDENTITY = None) ∧
  (node_activities s !! n = None → inactivity_threshold p < now →
     should_decay_key n type p now (record_key_use n type t0 s) = Some INACTIVITY) ∧
  (thing_activities s !! c = None →
     (should_decay_thing c q now st (record_thing_access c t0 st s) = Some INACTIVITY ↔
      thing_inactivity_threshold q < u64 (now - thing_created_at t))) ∧
  (∀ a, thing_activities s !! c = Some a → ta_created_at a ≠ 0 →
     (should_decay_thing c q now st (record_thing_access c t0 st s) = Some INACTIVITY ↔
      thing_inactivity_threshold q < u64 (now - t0))).
Proof.
  intros Hmax Hnow Ht.
  assert (Hthing : ∀ a (b : bool),
    (if b then Some INACTIVITY
     else if negb (meets_redundancy (min_hosts_required q) a) then Some RESOURCE_SHORTAGE
     else if (thing_max_age_seconds q <? u64 (now - ta_created_at a)) && (access_count a =? 0)
     then Some EXPIRATION else None) = Some INACTIVITY ↔ b = true).
  { intros a []; [done|]. split; [|done]. by repeat case_match. }
  split; [|split; [|split; [|split]]].
  - intros Hr. unfold should_decay_key, record_node_activity. cbn.
    rewrite (proj2 (Z.eqb_neq _ _)), lookup_insert_eq, Hr by done. done.
  - intros E. unfold key_verdict, should_decay_key. rewrite E. vm_compute. reflexivity.
  - intros Hn Hlt. unfold should_decay_key, record_key_use, at_or. rewrite Hn. cbn.
    rewrite (proj2 (Z.eqb_neq _ _)), lookup_insert_eq by done.
    unfold is_inactive. cbn. rewrite Z.sub_0_r, wrap_small by done.
    by rewrite (proj2 (Z.ltb_lt _ _)).
  - intros Hc. unfold should_decay_thing, record_thing_access, update_thing_activity_from_state.
    rewrite Ht. unfold at_or. rewrite Hc. cbn. rewrite !lookup_insert_eq. cbn.
    rewrite Hthing. unfold thing_is_inactive. cbn. apply Z.ltb_lt.
  - intros a Ha H0. unfold should_decay_thing, record_thing_access, update_thing_activity_from_state.
    rewrite Ht. unfold at_or. rewrite Ha. cbn. rewrite !lookup_insert_eq. cbn.
    rewrite (proj2 (Z.eqb_neq _ _)) by done. rewrite Hthing.
    unfold thing_is_inactive. cbn. apply Z.ltb_lt.
Qed.

Lemma recorded_activity_and_decay_witness :
  should_decay_thing sample_thing default_thing_policy 1700000001 sample_state
    (record_thing_access sample_thing 1700000000 sample_state new_scheduler) = Some INACTIVITY ∧
  should_decay_key alice ROUTING (get_key_policy ROUTING new_scheduler) 1700000001
    (record_key_use alice ROUTING 1700000000 new_scheduler) = Some INACTIVITY.
Proof.
  destruct (get_thing_state sample_thing sample_state) as [t|] eqn:Et;
    [|exfalso; vm_compute in Et; discriminate].
  assert (Ec : thing_created_at t = 130).
  { assert (Hx : thing_created_at <$> get_thing_state sample_thing sample_state = Some 130)
      by (vm_compute; reflexivity).
    rewrite Et in Hx. by injection Hx. }
  destruct (recorded_activity_and_decay alice ROUTING sample_thing
    (get_key_policy ROUTING new_scheduler) default_thing_policy 1700000000 1700000001
    sample_state t new_scheduler) as (_ & _ & Hk & Hc & _);
    [vm_compute; discriminate|unfold in_u; lia|exact Et|].
  split.
  - apply Hc; [vm_compute; reflexivity|]. rewrite Ec. vm_compute. reflexivity.
  - apply Hk; vm_compute; reflexivity.
Defined.
