(* ===== verification/Gossip.v ===== *)
(** Gossip: the message formats and [GossipProtocol] of
    src/network/gossip.hpp and gossip.cpp.

    Five packed formats; the parsers check the minimal size, then lengths one
    by one, but not every field behind a variable part.  The protocol state is
    a record of the class's fields.  What it does to the outside (handler
    calls, sends) is a list of [action]s in program order; a handler that calls
    back into the protocol is a further operation.  Handlers are identified by
    numbers, the random draws and the clock are arguments, and the clock is
    read once per operation. *)

From Stdlib Require Import Strings.Byte.
From S2P Require Import Prelude Reader Common Crypto.

(** ** Message types *)

(** [enum class GossipMessageType : uint8_t]. *)
Abbreviation GossipMessageType := Byte.byte.

Definition PEER_ANNOUNCEMENT : GossipMessageType := to_byte 1.
Definition CONTENT_ANNOUNCEMENT : GossipMessageType := to_byte 2.
Definition NETWORK_STATE_UPDATE : GossipMessageType := to_byte 3.
Definition KEY_REVOCATION : GossipMessageType := to_byte 4.
Definition NODE_CAPABILITY : GossipMessageType := to_byte 5.
Definition TOKEN_REVOCATION : GossipMessageType := to_byte 6.

(** ** Capabilities *)

Record NodeCapabilities := MkNodeCapabilities {
  can_host_things : bool;
  can_route_content : bool;
  can_provide_storage : bool;
  storage_capacity_bytes : Z;
  bandwidth_capacity_mbps : Z
}.

(** The default constructor. *)
Definition default_capabilities : NodeCapabilities := MkNodeCapabilities true true true 0 0.

Definition capability_flags (c : NodeCapabilities) : Z :=
  Z.lor (Z.lor (if can_host_things c then 0x01 else 0) (if can_route_content c then 0x02 else 0))
    (if can_provide_storage c then 0x04 else 0).

Definition caps_to_bytes (c : NodeCapabilities) : bytes :=
  [to_byte (capability_flags c)] ++ le_bytes 8 (storage_capacity_bytes c) ++
  le_bytes 8 (bandwidth_capacity_mbps c).

Definition caps_reader : reader NodeCapabilities :=
  _ ← rd_min (1 + 8 + 8);
  flags ← raw_uint 1;
  storage ← raw_uint 8;
  bandwidth ← raw_uint 8;
  mret (MkNodeCapabilities (negb (Z.land flags 0x01 =? 0)) (negb (Z.land flags 0x02 =? 0))
          (negb (Z.land flags 0x04 =? 0)) storage bandwidth).

Definition caps_from_bytes (input : bytes) : option NodeCapabilities :=
  to_optional (run_reader caps_reader input).

(** ** Announcements *)

Record PeerAnnouncement := MkPeerAnnouncement {
  pa_node_id : NodeID;
  pa_public_key : PublicKey;
  capabilities : NodeCapabilities;
  pa_timestamp : Z;
  pa_signature : Signature
}.

Definition peer_to_bytes (a : PeerAnnouncement) : bytes :=
  arr (pa_node_id a) ++ arr (pa_public_key a) ++ caps_to_bytes (capabilities a) ++
  le_bytes 8 (pa_timestamp a) ++ arr (pa_signature a).

(** The capabilities are parsed from a copy of their 17 bytes. *)
Definition peer_reader : reader PeerAnnouncement :=
  _ ← rd_min (32 + 32 + 17 + 8 + 64);
  id ← raw_array 32;
  pk ← raw_array 32;
  caps_data ← rd_raw 17;
  caps ← rd_part caps_reader caps_data;
  time ← raw_uint 8;
  sg ← raw_array 64;
  mret (MkPeerAnnouncement id pk caps time sg).

Definition peer_from_bytes (input : bytes) : option PeerAnnouncement :=
  to_optional (run_reader peer_reader input).

Record ContentAnnouncement := MkContentAnnouncement {
  ca_content_hash : ContentHash;
  content_size : Z;
  ca_hosting_node : NodeID;
  ca_network_id : option Hash256;
  ca_timestamp : Z;
  ca_signature : Signature
}.

Definition network_field (net : option Hash256) : bytes :=
  match net with Some n => [to_byte 1] ++ arr n | None => [to_byte 0] end.

Definition content_to_bytes (a : ContentAnnouncement) : bytes :=
  arr (ca_content_hash a) ++ le_bytes 8 (content_size a) ++ arr (ca_hosting_node a) ++
  network_field (ca_network_id a) ++ le_bytes 8 (ca_timestamp a) ++ arr (ca_signature a).

(** The optional network identifier: only its own bytes are checked. *)
Definition network_reader (W : Z) (has_network : Z) : reader (option Hash256) :=
  if has_network =? 1 then net ← read_blob W 32; mret (Some net) else mret None.

Definition content_reader (W : Z) : reader ContentAnnouncement :=
  _ ← rd_min (32 + 8 + 32 + 1 + 8 + 64);
  hash ← raw_array 32;
  size ← raw_uint 8;
  host ← raw_array 32;
  has_network ← raw_uint 1;
  net ← network_reader W has_network;
  time ← raw_uint 8;
  sg ← raw_array 64;
  mret (MkContentAnnouncement hash size host net time sg).

Definition content_from_bytes (input : bytes) : option ContentAnnouncement :=
  to_optional (run_reader (content_reader 64) input).

(** ** Network state *)

Record NetworkStateUpdate := MkNetworkStateUpdate {
  epoch_number : Z;
  active_nodes : list NodeID;
  pow_difficulty : Z;
  entropy_seed : bytes;
  su_timestamp : Z;
  signatures : list Signature
}.

Definition state_update_to_bytes (s : NetworkStateUpdate) : bytes :=
  le_bytes 8 (epoch_number s) ++
  le_bytes 4 (len (active_nodes s)) ++ mjoin (arr <$> active_nodes s) ++
  le_bytes 4 (pow_difficulty s) ++
  le_bytes 4 (len (entropy_seed s)) ++ entropy_seed s ++
  le_bytes 8 (su_timestamp s) ++
  le_bytes 4 (len (signatures s)) ++ mjoin (arr <$> signatures s).

Definition state_update_reader (W : Z) : reader NetworkStateUpdate :=
  _ ← rd_min (8 + 4 + 4 + 4 + 8 + 4);
  ep ← raw_uint 8;
  node_count ← raw_uint 4;
  nodes ← rd_list (Z.to_nat node_count) (read_blob W 32);
  difficulty ← raw_uint 4;
  seed_size ← raw_uint 4;
  seed ← read_string W seed_size;
  time ← raw_uint 8;
  sig_count ← raw_uint 4;
  sigs ← rd_list (Z.to_nat sig_count) (read_blob W 64);
  mret (MkNetworkStateUpdate ep nodes difficulty seed time sigs).

Definition state_update_from_bytes (input : bytes) : option NetworkStateUpdate :=
  to_optional (run_reader (state_update_reader 64) input).

(** ** The envelope *)

Record GossipMessage := MkGossipMessage {
  gm_type : GossipMessageType;
  message_id : Hash256;
  payload : bytes;
  gm_timestamp : Z;
  hop_count : Z
}.

#[export] Instance GossipMessage_eq_dec : EqDecision GossipMessage.
Proof. solve_decision. Defined.

Definition MAX_HOPS : Z := 10.
Definition MAX_AGE_SECONDS : Z := 300.

Definition message_to_bytes (m : GossipMessage) : bytes :=
  [gm_type m] ++ arr (message_id m) ++ le_bytes 4 (len (payload m)) ++ payload m ++
  le_bytes 8 (gm_timestamp m) ++ [to_byte (hop_count m)].

(** The time stamp and the hop count behind the payload are not checked. *)
Definition message_reader (W : Z) : reader GossipMessage :=
  _ ← rd_min (1 + 32 + 4 + 8 + 1);
  type_val ← raw_uint 1;
  id ← raw_array 32;
  payload_size ← raw_uint 4;
  body ← read_string W payload_size;
  time ← raw_uint 8;
  hops ← raw_uint 1;
  mret (MkGossipMessage (to_byte type_val) id body time hops).

Definition message_from_bytes (input : bytes) : option GossipMessage :=
  to_optional (run_reader (message_reader 64) input).

Definition compute_id `{Crypto} (m : GossipMessage) : Hash256 := blake3 (message_to_bytes m).

Definition is_too_old (now : Z) (m : GossipMessage) : bool :=
  MAX_AGE_SECONDS <? u64 (now - gm_timestamp m).

Definition has_exceeded_hops (m : GossipMessage) : bool := MAX_HOPS <=? hop_count m.

(** [message.hop_count++] in [uint8_t]. *)
Definition next_hop (m : GossipMessage) : GossipMessage :=
  MkGossipMessage (gm_type m) (message_id m) (payload m) (gm_timestamp m) (u8 (hop_count m + 1)).

(** ** The protocol state *)

(** What an operation does outside the object, in order. *)
Inductive action :=
  | Invoke (handler : nat) (m : GossipMessage)
  | Send (peer : NodeID) (m : GossipMessage).

Record GossipProtocol := MkGossipProtocol {
  gp_local : NodeID;
  peers : list NodeID;
  seen_messages : list (Hash256 * Z);
  handlers : list (GossipMessageType * nat);
  fanout : Z;
  max_seen_messages : Z;
  messages_received : Z;
  messages_sent : Z;
  send_callback : option (NodeID → GossipMessage → bool);
  local_public_key : option PublicKey;
  sign_callback : option (bytes → Signature)
}.

Definition DEFAULT_FANOUT : Z := 3.
Definition DEFAULT_MAX_SEEN : Z := 10000.
Definition SEEN_MESSAGE_TTL_SECONDS : Z := 600.

Definition new_gossip (local : NodeID) : GossipProtocol :=
  MkGossipProtocol local [] [] [] DEFAULT_FANOUT DEFAULT_MAX_SEEN 0 0 None None None.

(** Assignments to single members. *)
Definition with_peers (ps : list NodeID) (p : GossipProtocol) : GossipProtocol :=
  MkGossipProtocol (gp_local p) ps (seen_messages p) (handlers p) (fanout p)
    (max_seen_messages p) (messages_received p) (messages_sent p) (send_callback p)
    (local_public_key p) (sign_callback p).

Definition with_seen (seen : list (Hash256 * Z)) (p : GossipProtocol) : GossipProtocol :=
  MkGossipProtocol (gp_local p) (peers p) seen (handlers p) (fanout p)
    (max_seen_messages p) (messages_received p) (messages_sent p) (send_callback p)
    (local_public_key p) (sign_callback p).

Definition with_handlers (hs : list (GossipMessageType * nat)) (p : GossipProtocol) :
    GossipProtocol :=
  MkGossipProtocol (gp_local p) (peers p) (seen_messages p) hs (fanout p)
    (max_seen_messages p) (messages_received p) (messages_sent p) (send_callback p)
    (local_public_key p) (sign_callback p).

Definition with_counts (received sent : Z) (p : GossipProtocol) : GossipProtocol :=
  MkGossipProtocol (gp_local p) (peers p) (seen_messages p) (handlers p) (fanout p)
    (max_seen_messages p) received sent (send_callback p) (local_public_key p)
    (sign_callback p).

Definition set_fanout (n : Z) (p : GossipProtocol) : GossipProtocol :=
  MkGossipProtocol (gp_local p) (peers p) (seen_messages p) (handlers p) n
    (max_seen_messages p) (messages_received p) (messages_sent p) (send_callback p)
    (local_public_key p) (sign_callback p).

Definition set_max_seen_messages (n : Z) (p : GossipProtocol) : GossipProtocol :=
  MkGossipProtocol (gp_local p) (peers p) (seen_messages p) (handlers p) (fanout p) n
    (messages_received p) (messages_sent p) (send_callback p) (local_public_key p)
    (sign_callback p).

Definition set_send_callback (f : NodeID → GossipMessage → bool) (p : GossipProtocol) :
    GossipProtocol :=
  MkGossipProtocol (gp_local p) (peers p) (seen_messages p) (handlers p) (fanout p)
    (max_seen_messages p) (messages_received p) (messages_sent p) (Some f)
    (local_public_key p) (sign_callback p).

Definition set_local_public_key (pk : PublicKey) (p : GossipProtocol) : GossipProtocol :=
  MkGossipProtocol (gp_local p) (peers p) (seen_messages p) (handlers p) (fanout p)
    (max_seen_messages p) (messages_received p) (messages_sent p) (send_callback p)
    (Some pk) (sign_callback p).

Definition set_sign_callback (f : bytes → Signature) (p : GossipProtocol) : GossipProtocol :=
  MkGossipProtocol (gp_local p) (peers p) (seen_messages p) (handlers p) (fanout p)
    (max_seen_messages p) (messages_received p) (messages_sent p) (send_callback p)
    (local_public_key p) (Some f).

(** ** Seen messages *)

Definition has_seen_message (id : Hash256) (p : GossipProtocol) : bool :=
  existsb (λ s, bool_decide (s.1 = id)) (seen_messages p).

(** A full cache drops its first entry; with a limit of zero there is none, and
    [erase(begin())] of an empty vector is undefined. *)
Definition mark_as_seen (id : Hash256) (now : Z) (p : GossipProtocol) :
    outcome GossipProtocol :=
  if max_seen_messages p <=? len (seen_messages p) then
    match seen_messages p with
    | [] => Undef
    | _ :: rest => Ok (with_seen (rest ++ [(id, now)]) p)
    end
  else Ok (with_seen (seen_messages p ++ [(id, now)]) p).

Definition cleanup_old_seen_messages (now : Z) (p : GossipProtocol) : GossipProtocol :=
  with_seen (filter (λ s, ¬ (SEEN_MESSAGE_TTL_SECONDS < u64 (now - s.2))) (seen_messages p)) p.

Definition should_propagate (now : Z) (m : GossipMessage) (p : GossipProtocol) : bool :=
  if has_seen_message (message_id m) p then false
  else if is_too_old now m then false
  else negb (has_exceeded_hops m).

(** ** Peers and handlers *)

Definition add_peer (n : NodeID) (p : GossipProtocol) : GossipProtocol :=
  if existsb (λ q, bool_decide (q = n)) (peers p) then p else with_peers (peers p ++ [n]) p.

Definition remove_peer (n : NodeID) (p : GossipProtocol) : GossipProtocol :=
  with_peers (filter (λ q, q ≠ n) (peers p)) p.

Definition register_handler (type : GossipMessageType) (h : nat) (p : GossipProtocol) :
    GossipProtocol :=
  with_handlers (handlers p ++ [(type, h)]) p.

Definition unregister_handler (type : GossipMessageType) (p : GossipProtocol) : GossipProtocol :=
  with_handlers (filter (λ x, x.1 ≠ type) (handlers p)) p.

Definition invoke_handlers (m : GossipMessage) (p : GossipProtocol) : list action :=
  (λ x, Invoke x.2 m) <$> filter (λ x, x.1 = gm_type m) (handlers p).

(** The selection loop: [uniform i n] is the [i]-th draw below [n]. *)
Fixpoint pick (n i : nat) (uniform : nat → Z → Z) (available : list NodeID) :
    outcome (list NodeID) :=
  match n with
  | O => Ok []
  | S n =>
      match available with
      | [] => Ok []
      | _ =>
          let index := uniform i (u32 (len available)) in
          match available !! Z.to_nat index with
          | None => Undef
          | Some q =>
              rest ← pick n (S i) uniform (delete (Z.to_nat index) available);
              mret (q :: rest)
          end
      end
  end.

Definition get_random_peers (count : Z) (uniform : nat → Z → Z) (p : GossipProtocol) :
    outcome (list NodeID) :=
  match peers p with
  | [] => Ok []
  | _ => pick (Z.to_nat (Z.min count (len (peers p)))) 0 uniform (peers p)
  end.

(** ** Sending and receiving *)

Definition send_to_peer (q : NodeID) (m : GossipMessage) (p : GossipProtocol) :
    list action * GossipProtocol :=
  let sent := with_counts (messages_received p) (u64 (messages_sent p + 1)) p in
  match send_callback p with
  | Some f => ([Send q m], if f q m then sent else p)
  | None => ([], sent)
  end.

Fixpoint send_all (qs : list NodeID) (m : GossipMessage) (p : GossipProtocol) :
    list action * GossipProtocol :=
  match qs with
  | [] => ([], p)
  | q :: qs =>
      let '(out, p) := send_to_peer q m p in
      let '(rest, p) := send_all qs m p in
      (out ++ rest, p)
  end.

Definition receive_message (m : GossipMessage) (now : Z) (uniform : nat → Z → Z)
    (p : GossipProtocol) : outcome (list action * GossipProtocol) :=
  let p := with_counts (u64 (messages_received p + 1)) (messages_sent p) p in
  if negb (should_propagate now m p) then Ok ([], p)
  else
    p ← mark_as_seen (message_id m) now p;
    let handled := invoke_handlers m p in
    forward ← get_random_peers (fanout p) uniform p;
    let '(sends, p) := send_all forward (next_hop m) p in
    mret (handled ++ sends, p).

(** [messages_sent_] grows in [send_to_peer] and once more at the end. *)
Definition broadcast_message (m : GossipMessage) (now : Z) (uniform : nat → Z → Z)
    (p : GossipProtocol) : outcome (list action * GossipProtocol) :=
  p ← mark_as_seen (message_id m) now p;
  forward ← get_random_peers (fanout p) uniform p;
  let '(sends, p) := send_all forward m p in
  mret (sends,
    with_counts (messages_received p) (u64 (messages_sent p + len forward)) p).

Definition send_direct_message (q : NodeID) (m : GossipMessage) (p : GossipProtocol) :
    bool * (list action * GossipProtocol) := (true, send_to_peer q m p).

(** ** Creating messages *)

Section create.
Context `{Crypto}.

(** [payload] in an envelope; [unset_id] is the indeterminate [message_id] the
    identifier is computed over. *)
Definition envelope (type : GossipMessageType) (body : bytes) (now : Z) (unset_id : Hash256) :
    GossipMessage :=
  MkGossipMessage type (compute_id (MkGossipMessage type unset_id body now 0)) body now 0.

(** The signature over everything before it; [unset] is its indeterminate value. *)
Definition sign_over (unsigned : bytes) (p : GossipProtocol) : Signature :=
  match sign_callback p with
  | Some f => f (take (length unsigned - 64) unsigned)
  | None => zeros 64
  end.

Definition create_peer_announcement (caps : NodeCapabilities) (now : Z) (unset : Signature)
    (unset_id : Hash256) (p : GossipProtocol) : GossipMessage :=
  let pk := default (zeros 32) (local_public_key p) in
  let unsigned := peer_to_bytes (MkPeerAnnouncement (gp_local p) pk caps now unset) in
  envelope PEER_ANNOUNCEMENT
    (peer_to_bytes (MkPeerAnnouncement (gp_local p) pk caps now (sign_over unsigned p)))
    now unset_id.

Definition create_content_announcement (content : ContentHash) (size : Z)
    (net : option Hash256) (now : Z) (unset : Signature) (unset_id : Hash256)
    (p : GossipProtocol) : GossipMessage :=
  let unsigned :=
    content_to_bytes (MkContentAnnouncement content size (gp_local p) net now unset) in
  envelope CONTENT_ANNOUNCEMENT
    (content_to_bytes
       (MkContentAnnouncement content size (gp_local p) net now (sign_over unsigned p)))
    now unset_id.

(** ** The scheduler *)

Record GossipScheduler := MkGossipScheduler {
  running : bool;
  peer_announcement_interval : Z;
  state_update_interval : Z;
  last_peer_announcement : Z;
  last_state_update : Z
}.

Definition new_gossip_scheduler : GossipScheduler := MkGossipScheduler false 300 600 0 0.

(** Starting and joining the thread is left out. *)
Definition scheduler_start (s : GossipScheduler) : GossipScheduler :=
  MkGossipScheduler true (peer_announcement_interval s) (state_update_interval s)
    (last_peer_announcement s) (last_state_update s).

Definition scheduler_stop (s : GossipScheduler) : GossipScheduler :=
  MkGossipScheduler false (peer_announcement_interval s) (state_update_interval s)
    (last_peer_announcement s) (last_state_update s).

Definition announce_peer (caps : NodeCapabilities) (now : Z) (uniform : nat → Z → Z)
    (unset : Signature) (unset_id : Hash256) (p : GossipProtocol) (s : GossipScheduler) :
    outcome (list action * GossipProtocol * GossipScheduler) :=
  '(out, p) ← broadcast_message (create_peer_announcement caps now unset unset_id p) now uniform p;
  mret (out, p, MkGossipScheduler (running s) (peer_announcement_interval s)
                  (state_update_interval s) now (last_state_update s)).

Definition announce_content (content : ContentHash) (size : Z) (now : Z)
    (uniform : nat → Z → Z) (unset : Signature) (unset_id : Hash256) (p : GossipProtocol) :
    outcome (list action * GossipProtocol) :=
  broadcast_message (create_content_announcement content size None now unset unset_id p)
    now uniform p.

(** One round of the loop of [run_scheduler_loop], between two sleeps. *)
Definition scheduler_round (now : Z) (uniform : nat → Z → Z) (unset : Signature)
    (unset_id : Hash256) (p : GossipProtocol) (s : GossipScheduler) :
    outcome (list action * GossipProtocol * GossipScheduler) :=
  if negb (running s) then Ok ([], p, s)
  else
    '(out, p, s) ←
      (if (last_peer_announcement s =? 0) ||
          (u64 (peer_announcement_interval s) <=? u64 (now - last_peer_announcement s))
       then announce_peer default_capabilities now uniform unset unset_id p s
       else mret ([], p, s));
    if (last_state_update s =? 0) ||
       (u64 (state_update_interval s) <=? u64 (now - last_state_update s))
    then
      mret (out, cleanup_old_seen_messages now p,
        MkGossipScheduler (running s) (peer_announcement_interval s) (state_update_interval s)
          (last_peer_announcement s) now)
    else mret (out, p, s).

End create.

(** ** The parsers read what the writers write *)

Definition caps_encodable (c : NodeCapabilities) : Prop :=
  in_u 64 (storage_capacity_bytes c) ∧ in_u 64 (bandwidth_capacity_mbps c).

Definition peer_encodable (a : PeerAnnouncement) : Prop :=
  caps_encodable (capabilities a) ∧ in_u 64 (pa_timestamp a).

Definition content_encodable (a : ContentAnnouncement) : Prop :=
  in_u 64 (content_size a) ∧ in_u 64 (ca_timestamp a).

Definition state_update_encodable (s : NetworkStateUpdate) : Prop :=
  in_u 64 (epoch_number s) ∧ in_u 32 (len (active_nodes s)) ∧ in_u 32 (pow_difficulty s) ∧
  in_u 32 (len (entropy_seed s)) ∧ in_u 64 (su_timestamp s) ∧ in_u 32 (len (signatures s)).

Definition message_encodable (m : GossipMessage) : Prop :=
  in_u 32 (len (payload m)) ∧ in_u 64 (gm_timestamp m) ∧ in_u 8 (hop_count m).

Lemma len_caps c : len (caps_to_bytes c) = 17.
Proof. unfold caps_to_bytes. by autorewrite with len. Qed.

Lemma reads_caps c : caps_encodable c → reads 64 caps_reader c (caps_to_bytes c).
Proof.
  intros (? & ?). apply reads_min; [by rewrite len_caps|].
  unfold caps_to_bytes. rewrite <- le_bytes_1.
  eapply reads_bind; [apply reads_raw_uint; by destruct c as [[] [] []]|].
  raw_reads_fields. destruct c as [[] [] []]; apply reads_ret.
Qed.

Lemma reads_peer a : peer_encodable a → reads 64 peer_reader a (peer_to_bytes a).
Proof.
  intros (? & ?).
  apply reads_min; [unfold peer_to_bytes; autorewrite with len; rewrite len_caps; done|].
  unfold peer_to_bytes. do 2 (eapply reads_bind; [apply reads_raw_array|]).
  eapply reads_bind; [apply reads_raw_n; by rewrite len_caps|].
  rewrite <- (app_nil_l (le_bytes 8 _ ++ _)).
  eapply reads_bind; [apply (reads_part _ _ _ _ (caps_to_bytes (capabilities a)))|];
    [by apply reads_caps|by rewrite len_caps|done|].
  raw_reads_fields. destruct a. apply reads_ret.
Qed.

Lemma reads_network net :
  reads 64 (network_reader 64 (match net with Some _ => 1 | None => 0 end)) net
    (match net with Some n => arr n | None => [] end).
Proof.
  destruct net as [n|]; [|apply reads_ret].
  cbn. rewrite <- (app_nil_r (arr n)). eapply reads_bind; [apply reads_blob|apply reads_ret].
Qed.

Lemma reads_content a : content_encodable a → reads 64 (content_reader 64) a (content_to_bytes a).
Proof.
  intros (? & ?).
  assert (Hf : network_field (ca_network_id a) =
    le_bytes 1 (match ca_network_id a with Some _ => 1 | None => 0 end) ++
    match ca_network_id a with Some n => arr n | None => [] end)
    by (rewrite le_bytes_1; by destruct (ca_network_id a)).
  apply reads_min.
  { unfold content_to_bytes. rewrite Hf. autorewrite with len.
    pose proof (len_nonneg (match ca_network_id a with Some n => arr n | None => [] end)). lia. }
  unfold content_to_bytes. rewrite Hf, <- app_assoc.
  do 3 (eapply reads_bind; [first [apply reads_raw_array | by apply reads_raw_uint]|]).
  eapply reads_bind; [apply reads_raw_uint; by destruct (ca_network_id a)|].
  eapply reads_bind; [apply reads_network|].
  raw_reads_fields. destruct a. apply reads_ret.
Qed.

Lemma len_arrays {n} (xs : list (array n)) : len (mjoin (arr <$> xs)) = Z.of_nat n * len xs.
Proof.
  induction xs as [|x xs IH]; [by rewrite Z.mul_0_r|].
  change (mjoin (arr <$> x :: xs)) with (arr x ++ mjoin (arr <$> xs)).
  rewrite len_app, IH, len_arr, len_cons. lia.
Qed.

Lemma reads_arrays {n} (xs : list (array n)) k :
  k = Z.of_nat (length xs) → reads 64 (rd_list (Z.to_nat k) (read_blob 64 n)) xs (mjoin (arr <$> xs)).
Proof.
  intros ->. rewrite Nat2Z.id. apply reads_list, Forall_true. intros. apply reads_blob.
Qed.

Lemma reads_state_update s :
  state_update_encodable s → reads 64 (state_update_reader 64) s (state_update_to_bytes s).
Proof.
  intros (? & ? & ? & ? & ? & ?). apply reads_min.
  { unfold state_update_to_bytes. autorewrite with len.
    pose proof (len_nonneg (entropy_seed s)).
    pose proof (len_nonneg (mjoin (arr <$> active_nodes s))).
    pose proof (len_nonneg (mjoin (arr <$> signatures s))). lia. }
  unfold state_update_to_bytes.
  do 2 (eapply reads_bind; [by apply reads_raw_uint|]).
  eapply reads_bind; [by apply reads_arrays|].
  do 2 (eapply reads_bind; [by apply reads_raw_uint|]).
  eapply reads_bind; [by apply reads_string|].
  do 2 (eapply reads_bind; [by apply reads_raw_uint|]).
  rewrite <- (app_nil_r (mjoin (arr <$> signatures s))).
  eapply reads_bind; [by apply reads_arrays|]. destruct s. apply reads_ret.
Qed.

Lemma len_message m : len (message_to_bytes m) = 46 + len (payload m).
Proof. unfold message_to_bytes. autorewrite with len. change (len []) with 0. lia. Qed.

Lemma reads_message m : message_encodable m → reads 64 (message_reader 64) m (message_to_bytes m).
Proof.
  intros (? & ? & ?). pose proof (len_nonneg (payload m)).
  apply reads_min; [rewrite len_message; lia|].
  unfold message_to_bytes.
  eapply reads_bind; [apply reads_raw_byte|]. eapply reads_bind; [apply reads_raw_array|].
  eapply reads_bind; [by apply reads_raw_uint|]. eapply reads_bind; [by apply reads_string|].
  eapply reads_bind; [by apply reads_raw_uint|].
  rewrite <- (app_nil_r [to_byte _]), <- le_bytes_1.
  eapply reads_bind; [by apply reads_raw_uint|]. rewrite to_byte_val. destruct m. apply reads_ret.
Qed.

(** ** Where the parsers overread *)

(** The [n]-byte integer at offset [o]. *)
Definition field_at (d : bytes) (o : Z) (n : nat) : Z :=
  wrap (Z.of_nat n * 8) (le_val (sub d o (Z.of_nat n))).

Lemma bind_at {A B} (r : reader A) (f : A → reader B) d o x o' :
  r d o = Ok (x, o') → (r ≫= f) d o = f x d o'.
Proof. intros E. unfold mbind, reader_bind. by rewrite E. Qed.

Lemma bind_undef {A B} (r : reader A) (f : A → reader B) d o :
  r d o = Undef → (r ≫= f) d o = Undef.
Proof. intros E. unfold mbind, reader_bind. by rewrite E. Qed.

Lemma bind_reads {A B} W (r : reader A) x e (f : A → reader B) d pre post o :
  reads W r x e → d = pre ++ e ++ post → len d < 2 ^ W → o = len pre →
  (r ≫= f) d o = f x d (o + len e).
Proof. intros Hr -> Hl ->. apply bind_at, Hr, Hl. Qed.

Lemma run_min {A} n (r : reader A) d :
  run_reader (_ ← rd_min n; r) d = if len d <? n then Err ENullopt else run_reader r d.
Proof. unfold run_reader, mbind, reader_bind, rd_min. by destruct (_ <? _). Qed.

Lemma field_range d o n : in_u (Z.of_nat n * 8) (field_at d o n).
Proof. apply wrap_range. lia. Qed.

Lemma bind_uint {A} n (f : Z → reader A) d o :
  0 <= o → o + Z.of_nat n <= len d →
  (raw_uint n ≫= f) d o = f (field_at d o n) d (o + Z.of_nat n).
Proof. intros. erewrite bind_at by (by apply raw_uint_at). done. Qed.

Lemma bind_array {A} n (f : array n → reader A) d o :
  0 <= o → o + Z.of_nat n <= len d →
  ∃ a, (raw_array n ≫= f) d o = f a d (o + Z.of_nat n).
Proof. intros Ho Hl. destruct (raw_array_at n d o Ho Hl) as [a E]. exists a. by apply bind_at. Qed.

(** Runs one unchecked field that is inside the input. *)
Ltac run_field :=
  first
    [ rewrite bind_uint by lia
    | match goal with
      | |- context [(raw_array ?n ≫= ?f) ?d ?o] =>
          destruct (bind_array n f d o) as [? ->]; [lia|lia|]
      end ];
  repeat match goal with
  | |- context [0 + Z.of_nat ?n] =>
      let v := eval cbv in (0 + Z.of_nat n) in change (0 + Z.of_nat n) with v
  | |- context [Zpos ?p + Z.of_nat ?n] =>
      let v := eval cbv in (Zpos p + Z.of_nat n) in change (Zpos p + Z.of_nat n) with v
  end.

Lemma string_at n d o :
  0 <= o → 0 <= n → o + n < 2 ^ 64 →
  read_string 64 n d o = if len d <? o + n then Err ENullopt else Ok (sub d o n, o + n).
Proof.
  intros. unfold read_string, mbind, reader_bind. rewrite room_at, wrap_small by (unfold in_u; lia).
  destruct (len d <? o + n) eqn:E; [done|]. bool_to_prop. unfold rd_raw.
  by rewrite (proj2 (Z.leb_le _ _)).
Qed.

Lemma message_undef d :
  vector_fits d →
  run_reader (message_reader 64) d = Undef ↔
  46 <= len d ∧ 37 + field_at d 33 4 <= len d < 46 + field_at d 33 4.
Proof.
  unfold vector_fits. intros Hd. unfold message_reader. rewrite run_min.
  destruct (len d <? _) eqn:E; bool_to_prop; [split; [done|intros; lia]|].
  pose proof (field_range d 33 4 : in_u 32 _) as Hn. unfold in_u in Hn.
  unfold run_reader. do 3 run_field.
  set (n := field_at d 33 4) in *.
  destruct (len d <? 37 + n) eqn:E2; bool_to_prop.
  { unfold mbind at 1, reader_bind at 1. rewrite string_at by lia.
    rewrite (proj2 (Z.ltb_lt _ _)) by lia. split; [done|intros; lia]. }
  erewrite bind_at by (rewrite string_at by lia; rewrite (proj2 (Z.ltb_ge _ _)) by lia; done).
  destruct (len d <? 37 + n + 8) eqn:E3; bool_to_prop.
  { rewrite bind_undef by (apply raw_uint_past_end; lia). split; [intros; lia|done]. }
  run_field. destruct (len d <? 37 + n + 9) eqn:E4; bool_to_prop.
  { rewrite bind_undef by (apply raw_uint_past_end; lia). split; [intros; lia|done]. }
  run_field. split; [done|intros; lia].
Qed.

Lemma content_undef d :
  vector_fits d →
  run_reader (content_reader 64) d = Undef ↔ 145 <= len d < 177 ∧ field_at d 72 1 = 1.
Proof.
  unfold vector_fits. intros Hd. unfold content_reader. rewrite run_min.
  destruct (len d <? _) eqn:E; bool_to_prop; [split; [done|intros; lia]|].
  unfold run_reader. do 4 run_field.
  unfold network_reader. destruct (field_at d 72 1 =? 1) eqn:Ef; bool_to_prop.
  - unfold read_blob, mbind, reader_bind. rewrite room_at, wrap_small by (unfold in_u; lia).
    rewrite (proj2 (Z.ltb_ge _ _)) by lia.
    destruct (raw_array_at 32 d 73) as [net ->]; [lia|lia|].
    cbn [mret reader_ret]. change (73 + Z.of_nat 32) with 105.
    destruct (len d <? 113) eqn:E3; bool_to_prop.
    { rewrite raw_uint_past_end by lia. split; [intros; lia|done]. }
    rewrite raw_uint_at by lia. change (105 + Z.of_nat 8) with 113.
    destruct (len d <? 177) eqn:E4; bool_to_prop.
    { rewrite raw_array_past_end by lia. split; [intros; lia|done]. }
    destruct (raw_array_at 64 d 113) as [sg ->]; [lia|lia|]. cbn. split; [done|intros; lia].
  - erewrite bind_at by done. do 2 run_field. cbn. split; [done|intros; lia].
Qed.

(** A list of nodes that ends with the input. *)
Lemma state_update_undef ep (nodes : list NodeID) :
  nodes ≠ [] → in_u 64 ep → in_u 32 (len nodes) →
  run_reader (state_update_reader 64)
    (le_bytes 8 ep ++ le_bytes 4 (len nodes) ++ mjoin (arr <$> nodes)) = Undef.
Proof.
  intros Hn He Hl.
  set (d := le_bytes 8 ep ++ le_bytes 4 (len nodes) ++ mjoin (arr <$> nodes)).
  pose proof (len_arrays nodes : _ = 32 * len nodes) as Hj.
  assert (Hd : len d = 12 + 32 * len nodes)
    by (unfold d; rewrite !len_app, !len_le_bytes, Hj; lia).
  assert (1 <= len nodes)
    by (destruct nodes; [done|rewrite len_cons; pose proof (len_nonneg nodes); lia]).
  unfold state_update_reader. rewrite run_min, (proj2 (Z.ltb_ge _ _)) by lia. unfold run_reader.
  erewrite (bind_reads 64 (raw_uint 8) ep (le_bytes 8 ep) _ d []);
    [|by apply reads_raw_uint|done|unfold in_u in *; lia|done].
  erewrite (bind_reads 64 (raw_uint 4) (len nodes) (le_bytes 4 (len nodes)) _ d (le_bytes 8 ep));
    [|by apply reads_raw_uint|done|unfold in_u in *; lia|done].
  erewrite (bind_reads 64 _ nodes (mjoin (arr <$> nodes)) _ d
              (le_bytes 8 ep ++ le_bytes 4 (len nodes)) []);
    [|by apply reads_arrays|unfold d; by rewrite app_nil_r, app_assoc|unfold in_u in *; lia|done].
  rewrite bind_undef; [done|]. apply raw_uint_past_end. rewrite Hj, Hd, !len_le_bytes. lia.
Qed.

(** ** The protocol *)

(** [Random::uniform] stays below its bound. *)
Definition uniform_ok (uniform : nat → Z → Z) : Prop :=
  ∀ i n, 0 < n → 0 <= uniform i n < n.

(** What every operation maintains: peers are distinct and few enough for the
    32-bit draw, and the cache is within its limit. *)
Record gossip_wf (p : GossipProtocol) : Prop := {
  wf_peers : NoDup (peers p);
  wf_count : in_u 32 (len (peers p));
  wf_limit : 0 < max_seen_messages p;
  wf_seen : len (seen_messages p) <= max_seen_messages p;
  wf_fanout : in_u 64 (fanout p)
}.

Lemma uniform_zero : uniform_ok (λ _ _, 0).
Proof. intros i n Hn. lia. Qed.

Lemma pick_spec n i uniform available :
  uniform_ok uniform → NoDup available → in_u 32 (len available) →
  ∃ l, pick n i uniform available = Ok l ∧ NoDup l ∧ l ⊆ available ∧
       length l = (n `min` length available)%nat.
Proof.
  intros Hu. revert i available. induction n as [|n IH]; intros i available Hn Hl.
  { by exists []; repeat split; try apply NoDup_nil_2; try set_solver. }
  destruct available as [|a available'] eqn:E.
  { exists []. cbn. repeat split; try apply NoDup_nil_2; set_solver. }
  cbn [pick]. rewrite <- E in *. rewrite wrap_small by done.
  assert (0 < len available) by (subst; rewrite len_cons; pose proof (len_nonneg available'); lia).
  pose proof (Hu i (len available) H) as Hi. unfold len in Hi.
  set (k := Z.to_nat (uniform i (len available))).
  assert (Hk : (k < length available)%nat) by (unfold k, len in *; lia).
  destruct (available !! k) as [q|] eqn:Eq; [|apply lookup_ge_None in Eq; lia].
  pose proof (delete_Permutation _ _ _ Eq) as Hp.
  destruct (IH (S i) (delete k available)) as (l & -> & Hd & Hs & Hlen).
  { rewrite Hp in Hn. by apply list.NoDup_cons in Hn as [_ ?]. }
  { unfold in_u, len in *. rewrite length_delete by eauto. lia. }
  exists (q :: l). rewrite length_delete in Hlen by eauto.
  rewrite Hp in Hn. apply list.NoDup_cons in Hn as [Hq _].
  split; [done|]. split; [apply list.NoDup_cons; set_solver|].
  split; [rewrite Hp; set_solver|]. rewrite length_cons, Hlen. lia.
Qed.

Lemma get_random_peers_spec count uniform p :
  uniform_ok uniform → gossip_wf p → in_u 64 count →
  ∃ l, get_random_peers count uniform p = Ok l ∧ NoDup l ∧ l ⊆ peers p ∧
       len l = Z.min count (len (peers p)).
Proof.
  intros Hu W Hc. unfold get_random_peers.
  destruct (pick_spec (Z.to_nat (Z.min count (len (peers p)))) 0 uniform (peers p))
    as (l & El & Hd & Hs & Hl); [done|apply W|apply W|].
  exists l. unfold in_u, len in *. split_and!; [|done|done|lia].
  destruct (peers p); [|done]. by destruct (Z.to_nat _).
Qed.

Lemma send_all_actions qs m p : (send_all qs m p).1 =
  if send_callback p is Some _ then (λ q, Send q m) <$> qs else [].
Proof.
  revert p. induction qs as [|q qs IH]; intros p; cbn; [by destruct (send_callback p)|].
  unfold send_to_peer. destruct (send_callback p) as [f|] eqn:E.
  - pose proof (IH (if f q m then with_counts (messages_received p) (u64 (messages_sent p + 1)) p
                    else p)) as H.
    destruct (send_all _ _ _) as [out p']. cbn in *. subst out.
    by destruct (f q m); cbn; rewrite E.
  - pose proof (IH (with_counts (messages_received p) (u64 (messages_sent p + 1)) p)) as H.
    destruct (send_all _ _ _) as [out p']. cbn in *. by rewrite H, E.
Qed.

(** Sending changes the count of sent messages only. *)
Lemma send_all_state qs m p :
  ∃ sent, (send_all qs m p).2 = with_counts (messages_received p) sent p.
Proof.
  revert p. induction qs as [|q qs IH]; intros p; [by exists (messages_sent p); destruct p|].
  cbn. destruct (send_to_peer q m p) as [out p'] eqn:E.
  assert (∃ s, p' = with_counts (messages_received p) s p) as [s ->].
  { unfold send_to_peer in E. destruct (send_callback p) as [f|]; [destruct (f q m)|];
      injection E as _ <-; eauto. exists (messages_sent p). by destruct p. }
  destruct (IH (with_counts (messages_received p) s p)) as [s' Hs].
  destruct (send_all _ _ _) as [rest p'']. cbn in *. subst p''. by exists s'.
Qed.

(** What a full cache keeps when a message is marked. *)
Definition kept_seen (p : GossipProtocol) : list (Hash256 * Z) :=
  if max_seen_messages p <=? len (seen_messages p) then tail (seen_messages p)
  else seen_messages p.

Lemma mark_as_seen_eq id now p :
  gossip_wf p → mark_as_seen id now p = Ok (with_seen (kept_seen p ++ [(id, now)]) p).
Proof.
  intros W. pose proof (wf_limit p W). unfold mark_as_seen, kept_seen.
  destruct (_ <=? _) eqn:E; [|done]. bool_to_prop.
  destruct (seen_messages p); [|done]. change (len []) with 0 in E. lia.
Qed.

Lemma wf_seen_again p p' seen :
  gossip_wf p → peers p' = peers p → max_seen_messages p' = max_seen_messages p →
  fanout p' = fanout p → seen_messages p' = seen → len seen <= max_seen_messages p → gossip_wf p'.
Proof. intros [] Hp Hm Hf Hs ?. split; rewrite ?Hp, ?Hm, ?Hf, ?Hs; done. Qed.

Lemma len_kept_seen p : gossip_wf p → len (kept_seen p) < max_seen_messages p.
Proof.
  intros W. pose proof (wf_limit p W). pose proof (wf_seen p W). unfold kept_seen.
  destruct (_ <=? _) eqn:E; bool_to_prop; [|done].
  unfold len in *. destruct (seen_messages p); cbn [tail length] in *; lia.
Qed.

Lemma has_seen_true id p : has_seen_message id p = true ↔ ∃ t, (id, t) ∈ seen_messages p.
Proof.
  unfold has_seen_message. rewrite existsb_exists. split.
  - intros ([i t] & Hin & Hd). bool_to_prop. cbn in Hd. subst. exists t.
    by apply list_elem_of_In.
  - intros [t Hin]. exists (id, t). split; [by apply list_elem_of_In|].
    by apply bool_decide_eq_true_2.
Qed.

Lemma wf_marked p received sent id now :
  gossip_wf p →
  gossip_wf (with_counts received sent (with_seen (kept_seen p ++ [(id, now)]) p)).
Proof.
  intros W. eapply (wf_seen_again p); [done..|]. pose proof (len_kept_seen p W).
  cbn. rewrite len_app. change (len [_]) with 1. lia.
Qed.

Lemma receive_message_eq m now uniform p :
  uniform_ok uniform → gossip_wf p → should_propagate now m p = true →
  ∃ forward sent, NoDup forward ∧ forward ⊆ peers p ∧
    len forward = Z.min (fanout p) (len (peers p)) ∧
    receive_message m now uniform p =
    Ok (invoke_handlers m p ++
          (if send_callback p is Some _ then (λ q, Send q (next_hop m)) <$> forward else []),
        with_counts (u64 (messages_received p + 1)) sent
          (with_seen (kept_seen p ++ [(message_id m, now)]) p)).
Proof.
  intros Hu W Hp. set (p0 := with_counts (u64 (messages_received p + 1)) (messages_sent p) p).
  assert (W0 : gossip_wf p0) by (by eapply (wf_seen_again p); [done..|apply W]).
  set (p1 := with_seen (kept_seen p0 ++ [(message_id m, now)]) p0).
  assert (W1 : gossip_wf p1).
  { eapply (wf_seen_again p); [done..|]. pose proof (len_kept_seen p0 W0).
    change (len (kept_seen p0 ++ [(message_id m, now)]) <= max_seen_messages p0).
    rewrite len_app. change (len [_]) with 1. lia. }
  destruct (get_random_peers_spec (fanout p1) uniform p1 Hu W1 (wf_fanout p1 W1))
    as (forward & El & Hd & Hs & Hl).
  destruct (send_all_state forward (next_hop m) p1) as [sent Hst].
  pose proof (send_all_actions forward (next_hop m) p1) as Ha.
  exists forward, sent. split_and!; [done..|].
  unfold receive_message. fold p0. change (should_propagate now m p0) with (should_propagate now m p).
  rewrite Hp, mark_as_seen_eq by done. cbn [negb]. fold p1. cbn [mbind outcome_bind]. rewrite El.
  cbn [mbind outcome_bind]. destruct (send_all _ _ _) as [out p']. cbn in Ha, Hst. by subst out p'.
Qed.

Lemma broadcast_message_eq m now uniform p :
  uniform_ok uniform → gossip_wf p →
  ∃ forward sent, NoDup forward ∧ forward ⊆ peers p ∧
    len forward = Z.min (fanout p) (len (peers p)) ∧
    broadcast_message m now uniform p =
    Ok (if send_callback p is Some _ then (λ q, Send q m) <$> forward else [],
        with_counts (messages_received p) sent
          (with_seen (kept_seen p ++ [(message_id m, now)]) p)).
Proof.
  intros Hu W. set (p1 := with_seen (kept_seen p ++ [(message_id m, now)]) p).
  assert (W1 : gossip_wf p1) by apply (wf_marked p (messages_received p) (messages_sent p) _ _ W).
  destruct (get_random_peers_spec (fanout p1) uniform p1 Hu W1 (wf_fanout p1 W1))
    as (forward & El & Hd & Hs & Hl).
  destruct (send_all_state forward m p1) as [sent Hst].
  pose proof (send_all_actions forward m p1) as Ha.
  exists forward, (u64 (sent + len forward)). split_and!; [done..|].
  unfold broadcast_message. rewrite mark_as_seen_eq by done. fold p1. cbn [mbind outcome_bind].
  rewrite El. cbn [mbind outcome_bind]. destruct (send_all _ _ _) as [out p'].
  cbn in Ha, Hst. by subst out p'.
Qed.

Lemma should_not_propagate m now uniform p :
  should_propagate now m p = false →
  receive_message m now uniform p =
  Ok ([], with_counts (u64 (messages_received p + 1)) (messages_sent p) p).
Proof.
  intros Hp. unfold receive_message.
  change (should_propagate now m _) with (should_propagate now m p). by rewrite Hp.
Qed.

Lemma propagate_hops m now p :
  0 <= hop_count m → should_propagate now m p = true →
  hop_count m < MAX_HOPS ∧ hop_count (next_hop m) = hop_count m + 1.
Proof.
  intros Hh. unfold should_propagate, has_exceeded_hops, MAX_HOPS.
  destruct (has_seen_message _ _); [done|]. destruct (is_too_old _ _); [done|].
  intros E. apply negb_true_iff in E. bool_to_prop. split; [lia|].
  cbn. apply wrap_small. unfold in_u. lia.
Qed.

Lemma len_filter_le {A} (P : A → Prop) `{!∀ x, Decision (P x)} (l : list A) :
  len (filter P l) <= len l.
Proof. unfold len. pose proof (length_filter P l). lia. Qed.

Lemma receive_message_ok m now uniform p :
  uniform_ok uniform → gossip_wf p → ∃ out p', receive_message m now uniform p = Ok (out, p').
Proof.
  intros Hu W. destruct (should_propagate now m p) eqn:Hp.
  - destruct (receive_message_eq m now uniform p Hu W Hp) as (? & ? & _ & _ & _ & ->). eauto.
  - rewrite should_not_propagate by done. eauto.
Qed.

(** Operations other than the two setters keep the state well formed. *)
Lemma gossip_wf_ops p :
  gossip_wf p →
  (∀ n, in_u 32 (len (peers p) + 1) → gossip_wf (add_peer n p)) ∧
  (∀ n, gossip_wf (remove_peer n p)) ∧
  (∀ t h, gossip_wf (register_handler t h p)) ∧
  (∀ t, gossip_wf (unregister_handler t p)) ∧
  (∀ now, gossip_wf (cleanup_old_seen_messages now p)) ∧
  (∀ now id p', mark_as_seen id now p = Ok p' → gossip_wf p').
Proof.
  intros W. split_and!.
  - intros n Hn. unfold add_peer. destruct (existsb _ _) eqn:E; [done|].
    destruct W as [W1 W2 W3 W4 W5]. split; cbn; try done.
    + apply list.NoDup_app. split; [done|]. split; [|apply NoDup_singleton].
      intros x Hx ->%list_elem_of_singleton.
      enough (existsb (λ q, bool_decide (q = n)) (peers p) = true) by congruence.
      apply existsb_exists. exists n. rewrite <- list_elem_of_In. split; [done|].
      by apply bool_decide_eq_true_2.
    + by rewrite len_app.
  - intros n. destruct W as [W1 W2 W3 W4 W5]. split; cbn; try done.
    + by apply list.NoDup_filter.
    + pose proof (len_filter_le (λ q, q ≠ n) (peers p)). pose proof (len_nonneg
        (filter (λ q, q ≠ n) (peers p))). unfold in_u in *. lia.
  - intros t h. by eapply (wf_seen_again p); [done..|apply W].
  - intros t. by eapply (wf_seen_again p); [done..|apply W].
  - intros now. eapply (wf_seen_again p); [done..|].
    etrans; [apply len_filter_le|apply W].
  - intros now id p'. rewrite mark_as_seen_eq by done. intros [= <-].
    eapply (wf_seen_again p); [done..|]. pose proof (len_kept_seen p W).
    cbn. rewrite len_app. change (len [_]) with 1. lia.
Qed.

Lemma reads_run_app {A} (r : reader A) x e tail :
  reads 64 r x e → vector_fits (e ++ tail) → run_reader r (e ++ tail) = Ok x.
Proof.
  intros Hr Hv. unfold run_reader. specialize (Hr [] tail). cbn [app] in Hr.
  rewrite len_nil in Hr. rewrite Hr; [done|]. unfold vector_fits in Hv. lia.
Qed.

Lemma safe_caps d : vector_fits d → run_reader caps_reader d ≠ Undef.
Proof.
  intros Hd. unfold run_reader, caps_reader, mbind, reader_bind, rd_min.
  destruct (len d <? 1 + 8 + 8) eqn:E; [done|]. bool_to_prop.
  change (1 + 8 + 8) with 17 in E.
  rewrite !raw_uint_at by (cbn; lia). done.
Qed.

Lemma safe_peer d : vector_fits d → run_reader peer_reader d ≠ Undef.
Proof.
  intros Hd. unfold peer_reader. rewrite run_min.
  destruct (len d <? _) eqn:E; [done|]. bool_to_prop.
  change (32 + 32 + 17 + 8 + 64) with 153 in E. unfold run_reader. do 2 run_field.
  assert (Hr : rd_raw 17 d 64 = Ok (sub d 64 17, 81))
    by (unfold rd_raw; by rewrite (proj2 (Z.leb_le _ _)) by lia).
  erewrite bind_at by exact Hr.
  assert (Hs : vector_fits (sub d 64 17)).
  { unfold vector_fits, len, sub. rewrite length_take, length_drop. lia. }
  unfold rd_part, mbind at 1, reader_bind at 1.
  destruct (run_reader caps_reader _) eqn:Ec; [|done|by apply safe_caps in Ec].
  do 2 run_field. done.
Qed.

(** ** Properties *)

(** Which inputs make the parsers read past the end. *)
Lemma gossip_parsers_overread d :
  vector_fits d →
  run_reader caps_reader d ≠ Undef ∧ run_reader peer_reader d ≠ Undef ∧
  (run_reader (message_reader 64) d = Undef ↔
     46 <= len d ∧ 37 + field_at d 33 4 <= len d < 46 + field_at d 33 4) ∧
  (run_reader (content_reader 64) d = Undef ↔ 145 <= len d < 177 ∧ field_at d 72 1 = 1) ∧
  (∀ ep (nodes : list NodeID), nodes ≠ [] → in_u 64 ep → in_u 32 (len nodes) →
     d = le_bytes 8 ep ++ le_bytes 4 (len nodes) ++ mjoin (arr <$> nodes) →
     run_reader (state_update_reader 64) d = Undef).
Proof.
  intros Hd. split_and!.
  - by apply safe_caps.
  - by apply safe_peer.
  - by apply message_undef.
  - by apply content_undef.
  - intros ep nodes Hn He Hl ->. by apply state_update_undef.
Qed.

(** What arrives for the first time, at most five minutes old, with fewer than ten hops behind it. *)
Definition fresh_message (m : GossipMessage) (now : Z) (p : GossipProtocol) : Prop :=
  (∀ t, (message_id m, t) ∉ seen_messages p) ∧ u64 (now - gm_timestamp m) <= 300 ∧ hop_count m < 10.

(** The calls of the handlers registered for a type, in the order of their registration. *)
Inductive dispatched (m : GossipMessage) : list (GossipMessageType * nat) → list action → Prop :=
  | dispatched_none : dispatched m [] []
  | dispatched_call h hs out : dispatched m hs out → dispatched m ((gm_type m, h) :: hs) (Invoke h m :: out)
  | dispatched_skip t h hs out : t ≠ gm_type m → dispatched m hs out → dispatched m ((t, h) :: hs) out.

(** A list with a new entry, without its oldest one when there is no room for both. *)
Definition pushed (limit : Z) (seen : list (Hash256 * Z)) (x : Hash256 * Z) (seen' : list (Hash256 * Z)) : Prop :=
  (len seen < limit ∧ seen' = seen ++ [x]) ∨ (limit <= len seen ∧ ∃ y rest, seen = y :: rest ∧ seen' = rest ++ [x]).

Lemma fresh_message_exact m now p : should_propagate now m p = true ↔ fresh_message m now p.
Proof.
  unfold should_propagate, fresh_message, is_too_old, has_exceeded_hops, MAX_AGE_SECONDS, MAX_HOPS.
  destruct (has_seen_message (message_id m) p) eqn:Hs.
  - split; [done|]. intros [Hno _]. apply has_seen_true in Hs as [t Ht]. by destruct (Hno t).
  - assert (∀ t, (message_id m, t) ∉ seen_messages p) as Hno.
    { intros t Ht. assert (has_seen_message (message_id m) p = true) by (apply has_seen_true; eauto). congruence. }
    destruct (Z.ltb_spec 300 (u64 (now - gm_timestamp m))); [split; [done|lia]|].
    destruct (Z.leb_spec 10 (hop_count m)); cbn [negb]; [split; [done|lia]|]. split; [|done]. by intros _.
Qed.

Lemma invoke_dispatched m p : dispatched m (handlers p) (invoke_handlers m p).
Proof.
  unfold invoke_handlers. induction (handlers p) as [|[t h] hs IH]; [constructor|]. rewrite filter_cons. cbn [fst].
  destruct (decide (t = gm_type m)) as [->|]; [by apply dispatched_call|by apply dispatched_skip].
Qed.

Lemma kept_pushed p x : gossip_wf p → pushed (max_seen_messages p) (seen_messages p) x (kept_seen p ++ [x]).
Proof.
  intros W. pose proof (wf_limit p W). unfold pushed, kept_seen.
  destruct (Z.leb_spec (max_seen_messages p) (len (seen_messages p))); [right|by left].
  split; [done|]. destruct (seen_messages p) as [|y rest]; [change (len []) with 0 in *; lia|]. by exists y, rest.
Qed.


Definition demo_peer (b : Z) : NodeID := array_fill 32 (to_byte b).

(** A node with two peers, a handler for content and a channel that works. *)
Definition demo_gossip : GossipProtocol :=
  add_peer (demo_peer 2) (add_peer (demo_peer 1)
    (register_handler CONTENT_ANNOUNCEMENT 7
      (set_send_callback (λ _ _, true) (new_gossip (demo_peer 0))))).

Definition demo_message : GossipMessage :=
  MkGossipMessage CONTENT_ANNOUNCEMENT (demo_peer 9) (str "hello") 1000 0.

Lemma demo_gossip_wf : gossip_wf demo_gossip.
Proof.
  split; [|done..]. cbn. apply (bool_decide_eq_true_1 _). vm_compute. reflexivity.
Qed.

(** Capabilities, announcements, state updates and messages are read back from their
    bytes, whatever follows them; the parsers of capabilities and peer announcements never
    read past the end of their input, those of messages and content announcements do on
    exactly the stated inputs, and that of state updates on every update cut off after its
    nodes. *)
Theorem gossip_formats d tail :
  (∀ c, caps_encodable c → vector_fits (caps_to_bytes c ++ tail) →
     caps_from_bytes (caps_to_bytes c ++ tail) = Some c) ∧
  (∀ a, peer_encodable a → vector_fits (peer_to_bytes a ++ tail) →
     peer_from_bytes (peer_to_bytes a ++ tail) = Some a) ∧
  (∀ a, content_encodable a → vector_fits (content_to_bytes a ++ tail) →
     content_from_bytes (content_to_bytes a ++ tail) = Some a) ∧
  (∀ s, state_update_encodable s → vector_fits (state_update_to_bytes s ++ tail) →
     state_update_from_bytes (state_update_to_bytes s ++ tail) = Some s) ∧
  (∀ m, message_encodable m → vector_fits (message_to_bytes m ++ tail) →
     message_from_bytes (message_to_bytes m ++ tail) = Some m) ∧
  (vector_fits d →
   run_reader caps_reader d ≠ Undef ∧ run_reader peer_reader d ≠ Undef ∧
   (run_reader (message_reader 64) d = Undef ↔
      46 <= len d ∧ 37 + field_at d 33 4 <= len d < 46 + field_at d 33 4) ∧
   (run_reader (content_reader 64) d = Undef ↔ 145 <= len d < 177 ∧ field_at d 72 1 = 1) ∧
   (∀ ep (nodes : list NodeID), nodes ≠ [] → in_u 64 ep → in_u 32 (len nodes) →
      d = le_bytes 8 ep ++ le_bytes 4 (len nodes) ++ mjoin (arr <$> nodes) →
      run_reader (state_update_reader 64) d = Undef)).
Proof.
  assert (HO := gossip_parsers_overread d). split_and!; [..|exact HO];
    intros x Hx Hv; unfold caps_from_bytes, peer_from_bytes, content_from_bytes,
    state_update_from_bytes, message_from_bytes; erewrite reads_run_app; try done.
  - by apply reads_caps.
  - by apply reads_peer.
  - by apply reads_content.
  - by apply reads_state_update.
  - by apply reads_message.
Qed.

Lemma gossip_formats_witness :
  message_from_bytes (message_to_bytes demo_message ++ []) = Some demo_message ∧
  peer_from_bytes (peer_to_bytes (MkPeerAnnouncement (demo_peer 1) (demo_peer 2)
    default_capabilities 77 (zeros 64)) ++ []) =
    Some (MkPeerAnnouncement (demo_peer 1) (demo_peer 2) default_capabilities 77 (zeros 64)) ∧
  run_reader (message_reader 64)
    ([to_byte 1] ++ replicate 32 (to_byte 0) ++ le_bytes 4 9 ++ replicate 9 (to_byte 0)) = Undef.
Proof.
  split_and!.
  1-2: apply (gossip_formats [] []); vm_compute; repeat split; discriminate.
  destruct (gossip_formats ([to_byte 1] ++ replicate 32 (to_byte 0) ++ le_bytes 4 9 ++
    replicate 9 (to_byte 0)) []) as (_ & _ & _ & _ & _ & HO).
  refine (proj2 (proj1 (proj2 (proj2 (HO _)))) _); vm_compute; repeat split; discriminate.
Defined.

