(* ===== verification/Flood.v ===== *)
(** Gossip in a network: several [GossipProtocol]s and the packets between them.

    No file of the program holds a network; this one composes
    [receive_message] and [broadcast_message] of src/network/gossip.cpp, run by
    different nodes in any order, with any clock and any random draws.  A step
    delivers one packet in flight to its addressee, whose sends join the
    flight, or loses it; a _fair_ step loses nothing and finds the message
    younger than [MAX_AGE_SECONDS]. *)

From stdpp Require Import relations.
From S2P Require Import Prelude Common Gossip.

(** ** The network *)

Record network := MkNetwork {
  nodes : gmap NodeID GossipProtocol;
  flight : list (NodeID * GossipMessage)
}.

(** The packets the send callback of [p] accepts. *)
Definition packet (p : GossipProtocol) (a : action) : option (NodeID * GossipMessage) :=
  match a, send_callback p with
  | Send q m, Some f => if f q m then Some (q, m) else None
  | _, _ => None
  end.

Definition packets (p : GossipProtocol) (out : list action) : list (NodeID * GossipMessage) :=
  omap (packet p) out.

Inductive flood_step (fair : bool) : network → network → Prop :=
  | flood_deliver ns l1 l2 q m now uniform p out p' :
      ns !! q = Some p → uniform_ok uniform →
      (fair = true → is_too_old now m = false) →
      receive_message m now uniform p = Ok (out, p') →
      flood_step fair (MkNetwork ns (l1 ++ (q, m) :: l2))
        (MkNetwork (<[q := p']> ns) (l1 ++ l2 ++ packets p out))
  | flood_lose ns l1 l2 x :
      fair = false →
      flood_step fair (MkNetwork ns (l1 ++ x :: l2)) (MkNetwork ns (l1 ++ l2)).

(** The node [o] broadcasts [m]. *)
Definition flood_start (o : NodeID) (m : GossipMessage) (now : Z) (uniform : nat → Z → Z)
    (net : network) : option network :=
  p ← nodes net !! o;
  match broadcast_message m now uniform p with
  | Ok (out, p') =>
      Some (MkNetwork (<[o := p']> (nodes net)) (flight net ++ packets p out))
  | _ => None
  end.

(** ** Bounds *)

(** Nodes are well formed and none forwards to more than [F] peers; hop counts
    are hop counts. *)
Record flood_ok (F : Z) (net : network) : Prop := {
  ok_bound : 0 <= F;
  ok_nodes : ∀ q p, nodes net !! q = Some p →
    gossip_wf p ∧ Z.min (fanout p) (len (peers p)) <= F;
  ok_hops : Forall (λ x, 0 <= hop_count x.2) (flight net)
}.

(** How many deliveries a packet can cause, itself included. *)
Definition packet_weight (F : Z) (x : NodeID * GossipMessage) : Z :=
  (F + 1) ^ Z.max 0 (MAX_HOPS - hop_count x.2).

Definition weight (F : Z) (net : network) : Z :=
  foldr Z.add 0 (packet_weight F <$> flight net).

Lemma foldr_add_app l k : foldr Z.add 0 (l ++ k) = foldr Z.add 0 l + foldr Z.add 0 k.
Proof. induction l as [|x l IH]; cbn; lia. Qed.

Lemma packet_weight_pos F x : 0 <= F → 1 <= packet_weight F x.
Proof.
  intros. unfold packet_weight.
  pose proof (Z.pow_pos_nonneg (F + 1) (Z.max 0 (MAX_HOPS - hop_count x.2))). lia.
Qed.

Lemma weight_const (l : list Z) c : Forall (λ w, w <= c) l → foldr Z.add 0 l <= len l * c.
Proof.
  induction 1 as [|w l Hw _ IH]; [done|]. rewrite len_cons. cbn [foldr]. lia.
Qed.

Lemma packets_handled p m l : packets p (invoke_handlers m p ++ l) = packets p l.
Proof.
  unfold packets. rewrite omap_app. unfold invoke_handlers.
  induction (filter (λ x, x.1 = gm_type m) (handlers p)) as [|x xs IH]; [done|]. exact IH.
Qed.

Lemma packets_sent p m qs :
  packets p (if send_callback p is Some _ then (λ q, Send q m) <$> qs else []) =
  omap (λ q, packet p (Send q m)) qs.
Proof.
  unfold packets. destruct (send_callback p) as [f|] eqn:E;
    induction qs as [|q qs IH]; [done| |done|]; cbn -[packet] in *.
  - by rewrite IH.
  - rewrite <- IH. unfold packet. by rewrite E.
Qed.

(** What a delivery does to its node and puts in flight. *)
Lemma delivered m now uniform p out p' :
  uniform_ok uniform → gossip_wf p → 0 <= hop_count m →
  receive_message m now uniform p = Ok (out, p') →
  gossip_wf p' ∧ fanout p' = fanout p ∧ peers p' = peers p ∧ send_callback p' = send_callback p ∧
  ((should_propagate now m p = false ∧ packets p out = [] ∧ seen_messages p' = seen_messages p) ∨
   (should_propagate now m p = true ∧ hop_count m < MAX_HOPS ∧
    hop_count (next_hop m) = hop_count m + 1 ∧
    seen_messages p' = kept_seen p ++ [(message_id m, now)] ∧
    ∃ forward, NoDup forward ∧ forward ⊆ peers p ∧
      len forward = Z.min (fanout p) (len (peers p)) ∧
      packets p out = omap (λ q, packet p (Send q (next_hop m))) forward)).
Proof.
  intros Hu W Hh. destruct (should_propagate now m p) eqn:Hp.
  - destruct (receive_message_eq m now uniform p Hu W Hp) as (forward & sent & Hd & Hs & Hl & ->).
    intros [= <- <-]. destruct (propagate_hops m now p Hh Hp).
    split; [by apply wf_marked|]. do 3 (split; [done|]). right. do 4 (split; [done|]).
    exists forward. rewrite packets_handled, packets_sent. done.
  - rewrite should_not_propagate by done. intros [= <- <-].
    split; [by eapply (wf_seen_again p); [done..|apply W]|]. do 3 (split; [done|]). by left.
Qed.

Lemma packet_sends p m (qs : list NodeID) x :
  x ∈ omap (λ q, packet p (Send q m)) qs → x.1 ∈ qs ∧ x.2 = m.
Proof.
  rewrite list_elem_of_omap. intros (q & Hq & E). cbn in E.
  destruct (send_callback p) as [f|]; [|done]. by destruct (f q m); [injection E as <-|].
Qed.

Lemma len_omap {A B} (f : A → option B) l : len (omap f l) <= len l.
Proof.
  induction l as [|x l IH]; [done|]. cbn. destruct (f x); rewrite !len_cons; lia.
Qed.

(** Everything sent after a delivery weighs less than the packet delivered. *)
Lemma delivered_weight F q m now uniform p out p' :
  0 <= F → Z.min (fanout p) (len (peers p)) <= F →
  uniform_ok uniform → gossip_wf p → 0 <= hop_count m →
  receive_message m now uniform p = Ok (out, p') →
  Forall (λ x, 0 <= hop_count x.2) (packets p out) ∧
  foldr Z.add 0 (packet_weight F <$> packets p out) < packet_weight F (q, m).
Proof.
  intros HF Hb Hu W Hh E.
  destruct (delivered m now uniform p out p' Hu W Hh E) as (_ & _ & _ & _ & [(_ & -> & _)|H]).
  { split; [done|]. pose proof (packet_weight_pos F (q, m) HF). cbn. lia. }
  destruct H as (_ & Hlt & Hn & _ & forward & _ & _ & Hl & ->).
  set (sent := omap _ _). assert (Hs : Forall (λ x, x.2 = next_hop m) sent).
  { apply list.Forall_forall. by intros x [_ ?]%packet_sends. }
  split; [eapply list.Forall_impl; [exact Hs|]; intros x ->; lia|].
  set (c := (F + 1) ^ (MAX_HOPS - hop_count m - 1)).
  assert (0 < c) by (apply Z.pow_pos_nonneg; lia).
  eapply Z.le_lt_trans; [apply (weight_const _ c)|].
  - apply Forall_fmap. eapply list.Forall_impl; [exact Hs|]. intros x Hx. cbn.
    unfold packet_weight. rewrite Hx, Hn. unfold c. rewrite Z.max_r by lia.
    by replace (MAX_HOPS - (hop_count m + 1)) with (MAX_HOPS - hop_count m - 1) by lia.
  - pose proof (len_omap (λ q, packet p (Send q (next_hop m))) forward) as Ho. fold sent in Ho.
    unfold packet_weight. cbn [snd]. rewrite Z.max_r by lia.
    replace (MAX_HOPS - hop_count m) with (Z.succ (MAX_HOPS - hop_count m - 1)) by lia.
    rewrite Z.pow_succ_r by lia. fold c.
    unfold len in *. rewrite length_fmap. nia.
Qed.

Lemma flood_step_ok fair F net net' :
  flood_step fair net net' → flood_ok F net → flood_ok F net' ∧ weight F net' < weight F net.
Proof.
  intros Hs [HF Hn Hh]. destruct Hs as [ns l1 l2 q m now u p out p' Hq Hu Ha E|ns l1 l2 x Hl];
    cbn [nodes flight] in *.
  - destruct (Hn q p Hq) as [W Hb]. rewrite list.Forall_app, list.Forall_cons in Hh.
    destruct Hh as (Hh1 & Hm & Hh2). cbn [snd] in Hm.
    destruct (delivered_weight F q m now u p out p' HF Hb Hu W Hm E) as [Hp Hw].
    destruct (delivered m now u p out p' Hu W Hm E) as (W' & Hf & Hpe & _).
    split.
    + split; [done| |cbn; by rewrite !list.Forall_app]. intros r s. cbn. destruct (decide (r = q)) as [->|].
      * rewrite lookup_insert_eq. intros [= <-]. by rewrite Hf, Hpe.
      * rewrite lookup_insert_ne by done. apply Hn.
    + unfold weight. cbn [flight]. rewrite !fmap_app, fmap_cons, !foldr_add_app. cbn [foldr]. lia.
  - rewrite list.Forall_app, list.Forall_cons in Hh. destruct Hh as (Hh1 & _ & Hh2). split.
    + split; [done..|cbn; by rewrite list.Forall_app].
    + unfold weight. cbn [flight]. rewrite !fmap_app, fmap_cons, !foldr_add_app. cbn [foldr].
      pose proof (packet_weight_pos F x HF). lia.
Qed.

(** ** Reaching everyone *)

(** The nodes that have the identifier [i] in their cache. *)
Definition heard (i : Hash256) (net : network) : gset NodeID :=
  dom (filter (λ x : NodeID * GossipProtocol, has_seen_message i x.2 = true) (nodes net)).

(** [y] is a peer of [x]. *)
Definition linked (net : network) (x y : NodeID) : Prop :=
  ∃ p, nodes net !! x = Some p ∧ y ∈ peers p.

(** What no delivery changes. *)
Definition shape (net : network) :
    gmap NodeID (list NodeID * Z * option (NodeID → GossipMessage → bool)) :=
  (λ p, (peers p, fanout p, send_callback p)) <$> nodes net.

(** Every node forwards to all its peers, which are nodes, and its channel
    accepts everything. *)
Definition floods_all (net : network) : Prop :=
  ∀ q ps n cb, shape net !! q = Some (ps, n, cb) →
    len ps <= n ∧ (∀ y, y ∈ ps → is_Some (shape net !! y)) ∧
    ∃ f, cb = Some f ∧ ∀ r m, f r m = true.

Lemma shape_lookup net q p :
  nodes net !! q = Some p → shape net !! q = Some (peers p, fanout p, send_callback p).
Proof. intros E. unfold shape. by rewrite lookup_fmap, E. Qed.

Lemma shape_insert ns q p p' l :
  ns !! q = Some p → peers p' = peers p → fanout p' = fanout p →
  send_callback p' = send_callback p → ∀ l',
  shape (MkNetwork (<[q := p']> ns) l) = shape (MkNetwork ns l').
Proof.
  intros Hq Hp Hf Hc l'. unfold shape. cbn [nodes]. rewrite fmap_insert, Hp, Hf, Hc.
  apply insert_id. by rewrite lookup_fmap, Hq.
Qed.

Lemma linked_shape net x y :
  linked net x y ↔ ∃ ps n cb, shape net !! x = Some (ps, n, cb) ∧ y ∈ ps.
Proof.
  unfold linked, shape. setoid_rewrite lookup_fmap. split.
  - intros (p & E & Hy). rewrite E. cbn. eauto.
  - intros (ps & n & cb & E & Hy). destruct (nodes net !! x); [|done].
    injection E as <- _ _. eauto.
Qed.

Lemma elem_of_heard i net q :
  q ∈ heard i net ↔ ∃ p, nodes net !! q = Some p ∧ has_seen_message i p = true.
Proof.
  unfold heard. rewrite elem_of_dom. unfold is_Some. setoid_rewrite map_lookup_filter_Some. done.
Qed.

Lemma heard_insert_seen i ns q p' l l' :
  has_seen_message i p' = true →
  heard i (MkNetwork (<[q := p']> ns) l) = {[q]} ∪ heard i (MkNetwork ns l').
Proof.
  intros Hs. apply set_eq. intros x. rewrite elem_of_union, elem_of_singleton, !elem_of_heard.
  cbn [nodes]. destruct (decide (x = q)) as [->|].
  - rewrite lookup_insert_eq. split; [by left|]. eauto.
  - rewrite lookup_insert_ne by done. naive_solver.
Qed.

Lemma heard_insert_same i ns q p p' l l' :
  ns !! q = Some p → has_seen_message i p' = has_seen_message i p →
  heard i (MkNetwork (<[q := p']> ns) l) = heard i (MkNetwork ns l').
Proof.
  intros Hq Hs. apply set_eq. intros x. rewrite !elem_of_heard. cbn [nodes].
  destruct (decide (x = q)) as [->|].
  - rewrite lookup_insert_eq, Hq. split; intros (? & [= <-] & ?); eexists; (split; [done|congruence]).
  - by rewrite lookup_insert_ne by done.
Qed.

(** All peers are addressed when the fan-out is large enough. *)
Lemma packets_all p m (forward : list NodeID) :
  NoDup forward → forward ⊆ peers p → len forward = Z.min (fanout p) (len (peers p)) →
  len (peers p) <= fanout p → (∃ f, send_callback p = Some f ∧ ∀ r m, f r m = true) →
  ∀ y, y ∈ peers p → (y, m) ∈ omap (λ q, packet p (Send q m)) forward.
Proof.
  intros Hd Hs Hl Hf (f & Ef & Ht) y Hy. apply list_elem_of_omap. exists y. split.
  - assert (forward ≡ₚ peers p) as ->; [|done].
    apply submseteq_length_Permutation; [by apply NoDup_submseteq; [|set_solver]|].
    unfold len in *. lia.
  - cbn. by rewrite Ef, Ht.
Qed.

Lemma heard_size i net : (size (heard i net) <= size (nodes net))%nat.
Proof.
  unfold heard. rewrite size_dom. apply map_subseteq_size, map_filter_subseteq.
Qed.

Lemma heard_room i net q p :
  nodes net !! q = Some p → has_seen_message i p = false →
  (size (heard i net) < size (nodes net))%nat.
Proof.
  intros Hq Hs. rewrite <- (size_dom (D := gset NodeID) (nodes net)). apply subset_size.
  split.
  - intros x (p' & E & _)%elem_of_heard. rewrite elem_of_dom. eauto.
  - intros Hsub. assert (q ∈ dom (nodes net)) as Hin by (rewrite elem_of_dom; eauto).
    apply Hsub, elem_of_heard in Hin as (p' & E & Hs'). congruence.
Qed.

(** One message is spreading: every packet carries it and has made fewer hops
    than there are nodes that heard it, and every peer of a node that heard it
    has heard it or is being sent it. *)
Record spreading (i : Hash256) (net : network) : Prop := {
  sp_shape : floods_all net;
  sp_size : Z.of_nat (size (nodes net)) <= MAX_HOPS + 1;
  sp_flight : ∀ q m, (q, m) ∈ flight net →
    message_id m = i ∧ 0 <= hop_count m < Z.of_nat (size (heard i net)) ∧
    is_Some (nodes net !! q);
  sp_front : ∀ x y, x ∈ heard i net → linked net x y →
    y ∈ heard i net ∨ ∃ m, (y, m) ∈ flight net
}.

Lemma floods_all_shape net net' : shape net = shape net' → floods_all net → floods_all net'.
Proof. unfold floods_all. by intros ->. Qed.

Lemma linked_shape_eq net net' x y : shape net = shape net' → linked net x y → linked net' x y.
Proof. rewrite !linked_shape. by intros ->. Qed.

Lemma size_insert_same (ns : gmap NodeID GossipProtocol) q p p' :
  ns !! q = Some p → size (<[q := p']> ns) = size ns.
Proof. intros Hq. by rewrite map_size_insert_Some by eauto. Qed.

Lemma is_Some_insert (ns : gmap NodeID GossipProtocol) q p r :
  is_Some (ns !! r) → is_Some (<[q := p]> ns !! r).
Proof.
  intros. destruct (decide (r = q)) as [->|].
  - rewrite lookup_insert_eq. eauto.
  - by rewrite lookup_insert_ne.
Qed.

(** The node [q] hears the message and passes [m'] on to all its peers. *)
Lemma spreading_hear i ns rest sent q p p' m' :
  floods_all (MkNetwork ns rest) → Z.of_nat (size ns) <= MAX_HOPS + 1 →
  (∀ r m, (r, m) ∈ rest → message_id m = i ∧
     0 <= hop_count m < Z.of_nat (size (heard i (MkNetwork ns rest))) ∧ is_Some (ns !! r)) →
  (∀ x y, x ∈ heard i (MkNetwork ns rest) → linked (MkNetwork ns rest) x y →
     y ∈ heard i (MkNetwork ns rest) ∨ y = q ∨ ∃ m, (y, m) ∈ rest) →
  ns !! q = Some p → has_seen_message i p = false → has_seen_message i p' = true →
  peers p' = peers p → fanout p' = fanout p → send_callback p' = send_callback p →
  message_id m' = i → 0 <= hop_count m' <= Z.of_nat (size (heard i (MkNetwork ns rest))) →
  (∀ x, x ∈ sent → x.1 ∈ peers p ∧ x.2 = m') → (∀ y, y ∈ peers p → (y, m') ∈ sent) →
  spreading i (MkNetwork (<[q := p']> ns) (rest ++ sent)).
Proof.
  intros Hsh Hsz Hfl Hfr Hq Hun Hse Hpe Hfa Hcb Hid Hh Hsent Hall.
  assert (Hshape : shape (MkNetwork (<[q := p']> ns) (rest ++ sent)) = shape (MkNetwork ns rest))
    by (by apply (shape_insert ns q p)).
  assert (Hheard : heard i (MkNetwork (<[q := p']> ns) (rest ++ sent)) =
    {[q]} ∪ heard i (MkNetwork ns rest)) by (by apply heard_insert_seen).
  assert (Hnew : q ∉ heard i (MkNetwork ns rest)).
  { intros (p0 & E & Hs)%elem_of_heard. cbn in E. congruence. }
  assert (Hsize : size (heard i (MkNetwork (<[q := p']> ns) (rest ++ sent))) =
    S (size (heard i (MkNetwork ns rest)))).
  { rewrite Hheard, size_union by set_solver. by rewrite size_singleton. }
  split.
  - by eapply floods_all_shape.
  - cbn [nodes]. by rewrite (size_insert_same ns q p).
  - intros r m. rewrite Hsize. cbn [flight nodes].
    rewrite elem_of_app. intros [Hin|Hin].
    + destruct (Hfl r m Hin) as (? & ? & ?). split_and!; [done|lia..|by apply is_Some_insert].
    + destruct (Hsent _ Hin) as [Hr Hm]. cbn in Hr, Hm. subst m. split_and!; [done|lia..|].
      apply is_Some_insert. destruct (Hsh q _ _ _ (shape_lookup (MkNetwork ns rest) q p Hq)) as (_ & Hcl & _).
      specialize (Hcl r Hr). unfold shape in Hcl. rewrite lookup_fmap in Hcl.
      by apply fmap_is_Some in Hcl.
  - intros x y Hx Hl. rewrite Hheard in *. cbn [flight]. apply (linked_shape_eq _ (MkNetwork ns rest)) in Hl; [|done].
    apply elem_of_union in Hx as [->%elem_of_singleton|Hx].
    + right. exists m'. apply elem_of_app. right. apply Hall.
      destruct Hl as (p0 & E & Hy). cbn in E. congruence.
    + destruct (Hfr x y Hx Hl) as [?|[->|[m Hm]]]; [left; set_solver|left; set_solver|].
      right. exists m. apply elem_of_app. by left.
Qed.

Lemma spreading_step i net net' F :
  flood_ok F net → flood_step true net net' → spreading i net → spreading i net'.
Proof.
  intros [_ Hok _] Hs [Hsh Hsz Hfl Hfr]. destruct Hs as [ns l1 l2 q m now u p out p' Hq Hu Ha E|]; [|done].
  cbn [nodes flight] in *. destruct (Hok q p Hq) as [W _].
  assert (Hm : (q, m) ∈ l1 ++ (q, m) :: l2) by set_solver.
  destruct (Hfl q m Hm) as (Hid & [Hh0 Hh] & _).
  destruct (delivered m now u p out p' Hu W Hh0 E) as (W' & Hf & Hpe & Hcb & Hcase).
  assert (Hrest : ∀ x, x ∈ l1 ++ l2 → x ∈ l1 ++ (q, m) :: l2) by set_solver.
  assert (Hback : ∀ x, x ∈ l1 ++ (q, m) :: l2 → x = (q, m) ∨ x ∈ l1 ++ l2) by set_solver.
  destruct (has_seen_message i p) eqn:Hseen.
  - destruct Hcase as [(_ & -> & Hs)|(Hp & _)].
    2: { unfold should_propagate in Hp. by rewrite Hid, Hseen in Hp. }
    rewrite app_nil_r.
    assert (Hsame : has_seen_message i p' = has_seen_message i p)
      by (unfold has_seen_message; by rewrite Hs).
    pose proof (heard_insert_same i ns q p p' (l1 ++ l2) (l1 ++ (q, m) :: l2) Hq Hsame) as Hhe.
    split.
    + eapply floods_all_shape; [|exact Hsh]. symmetry. by apply (shape_insert ns q p).
    + cbn [nodes]. by rewrite (size_insert_same ns q p).
    + intros r m' Hin%Hrest. rewrite Hhe. destruct (Hfl _ _ Hin) as (? & ? & ?).
      split; [done|]. split; [done|]. by apply is_Some_insert.
    + intros x y. rewrite Hhe. intros Hx Hl.
      apply (linked_shape_eq _ (MkNetwork ns (l1 ++ (q, m) :: l2))) in Hl;
        [|by apply (shape_insert ns q p)].
      destruct (Hfr x y Hx Hl) as [?|[m' [[= -> ->]|Hin]%Hback]]; [by left| |right; eauto].
      left. apply elem_of_heard. eauto.
  - destruct Hcase as [(Hp & _)|(_ & _ & Hn & Hs & fw & Hd & Hsub & Hlen & ->)].
    { unfold should_propagate in Hp. rewrite Hid, Hseen, Ha in Hp by done.
      apply negb_false_iff in Hp. unfold has_exceeded_hops in Hp. bool_to_prop.
      pose proof (heard_room i (MkNetwork ns (l1 ++ (q, m) :: l2)) q p Hq Hseen). cbn [nodes] in *. lia. }
    destruct (Hsh q _ _ _ (shape_lookup (MkNetwork ns (l1 ++ (q, m) :: l2)) q p Hq)) as (Hfan & _ & Hcall).
    rewrite (assoc_L (++)). apply (spreading_hear i ns (l1 ++ l2) _ q p p' (next_hop m)); try done.
    + intros r m' Hin%Hrest. apply (Hfl r m' Hin).
    + intros x y Hx Hl. destruct (Hfr x y Hx Hl) as [?|[m' [[= -> ->]|Hin]%Hback]]; eauto.
    + apply has_seen_true. exists now. rewrite Hs, Hid. set_solver.
    + rewrite Hn. change (heard i (MkNetwork ns (l1 ++ l2))) with
        (heard i (MkNetwork ns (l1 ++ (q, m) :: l2))). lia.
    + intros x [Hx ?]%packet_sends. split; [by apply Hsub|done].
    + by apply packets_all.
Qed.

(** The broadcast: its effects, and that it starts a spreading. *)
Lemma flood_start_eq F o p m now uniform ns :
  flood_ok F (MkNetwork ns []) → ns !! o = Some p → uniform_ok uniform →
  ∃ p' forward, NoDup forward ∧ forward ⊆ peers p ∧
    len forward = Z.min (fanout p) (len (peers p)) ∧
    gossip_wf p' ∧ peers p' = peers p ∧ fanout p' = fanout p ∧
    send_callback p' = send_callback p ∧ has_seen_message (message_id m) p' = true ∧
    flood_start o m now uniform (MkNetwork ns []) =
    Some (MkNetwork (<[o := p']> ns) ([] ++ omap (λ q, packet p (Send q m)) forward)).
Proof.
  intros [_ Hok _] Hq Hu. destruct (Hok o p Hq) as [W _].
  destruct (broadcast_message_eq m now uniform p Hu W) as (fw & sent & Hd & Hs & Hl & E).
  eexists _, fw. do 3 (split; [done|]). unfold flood_start. cbn [nodes flight]. rewrite Hq.
  cbn [mbind option_bind]. rewrite E, packets_sent.
  split; [by apply (wf_marked p (messages_received p) sent (message_id m) now)|].
  split_and!; [done..| |done].
  apply has_seen_true. exists now. cbn. set_solver.
Qed.

Lemma flood_start_ok F o p m now uniform ns net1 :
  flood_ok F (MkNetwork ns []) → ns !! o = Some p → uniform_ok uniform → hop_count m = 0 →
  flood_start o m now uniform (MkNetwork ns []) = Some net1 →
  flood_ok F net1 ∧ weight F net1 <= F * (F + 1) ^ MAX_HOPS.
Proof.
  intros Hok Hq Hu Hh.
  destruct (flood_start_eq F o p m now uniform ns Hok Hq Hu)
    as (p' & fw & _ & _ & Hl & W' & Hpe & Hf & _ & _ & ->). intros [= <-].
  destruct Hok as [HF Hok _]. destruct (Hok o p Hq) as [_ Hb].
  set (sent := omap _ _). assert (Hs : Forall (λ x, x.2 = m) sent).
  { apply list.Forall_forall. by intros x [_ ?]%packet_sends. }
  split.
  - split; [done| |].
    + intros r s. cbn. destruct (decide (r = o)) as [->|].
      * rewrite lookup_insert_eq. intros [= <-]. by rewrite Hf, Hpe.
      * rewrite lookup_insert_ne by done. apply Hok.
    + cbn. eapply list.Forall_impl; [exact Hs|]. intros x ->. lia.
  - unfold weight. cbn [flight app].
    pose proof (len_omap (λ q, packet p (Send q m)) fw : len sent <= _) as Ho.
    assert (0 < (F + 1) ^ MAX_HOPS) by (apply Z.pow_pos_nonneg; unfold MAX_HOPS; lia).
    etrans; [apply (weight_const _ ((F + 1) ^ MAX_HOPS))|].
    + apply Forall_fmap. eapply list.Forall_impl; [exact Hs|]. intros x Hx. cbn.
      unfold packet_weight. by rewrite Hx, Hh.
    + apply Z.mul_le_mono_nonneg_r; [lia|]. unfold len in *. rewrite length_fmap. lia.
Qed.

Lemma flood_start_spreading F o p m now uniform ns net1 :
  flood_ok F (MkNetwork ns []) → ns !! o = Some p → uniform_ok uniform → hop_count m = 0 →
  floods_all (MkNetwork ns []) → Z.of_nat (size ns) <= MAX_HOPS + 1 →
  heard (message_id m) (MkNetwork ns []) = ∅ →
  flood_start o m now uniform (MkNetwork ns []) = Some net1 →
  spreading (message_id m) net1 ∧ shape net1 = shape (MkNetwork ns []) ∧
  o ∈ heard (message_id m) net1.
Proof.
  intros Hok Hq Hu Hh Hfa Hsz Hno.
  destruct (flood_start_eq F o p m now uniform ns Hok Hq Hu)
    as (p' & fw & Hd & Hs & Hl & W' & Hpe & Hf & Hcb & Hse & ->). intros [= <-].
  destruct (Hfa o _ _ _ (shape_lookup (MkNetwork ns []) o p Hq)) as (Hfan & _ & Hcall).
  split_and!.
  - apply (spreading_hear _ ns [] _ o p p' m); try done.
    + intros r m' Hin. by apply elem_of_nil in Hin.
    + intros x y Hx. rewrite Hno in Hx. set_solver.
    + destruct (has_seen_message (message_id m) p) eqn:E; [|done].
      assert (o ∈ heard (message_id m) (MkNetwork ns [])) as Hin
        by (apply elem_of_heard; eauto). rewrite Hno in Hin. set_solver.
    + rewrite Hh. lia.
    + intros x [Hx ?]%packet_sends. split; [by apply Hs|done].
    + by apply packets_all.
  - by apply (shape_insert ns o p).
  - rewrite (heard_insert_seen _ ns o p' _ []) by done. set_solver.
Qed.

(** ** Runs *)

Lemma flood_run_ok fair F k net net' :
  nsteps (flood_step fair) k net net' → flood_ok F net →
  flood_ok F net' ∧ Z.of_nat k + weight F net' <= weight F net.
Proof.
  induction 1 as [net|k net net1 net2 Hs _ IH]; intros Hok; [split; [done|lia]|].
  destruct (flood_step_ok fair F net net1 Hs Hok) as [Hok1 Hw].
  destruct (IH Hok1) as [? ?]. split; [done|lia].
Qed.

Lemma weight_nonneg F net : 0 <= F → 0 <= weight F net.
Proof.
  intros HF. unfold weight. induction (flight net) as [|x l IH]; [done|].
  rewrite fmap_cons. cbn [foldr]. pose proof (packet_weight_pos F x HF). lia.
Qed.

Lemma shape_step fair F net net' : flood_ok F net → flood_step fair net net' → shape net' = shape net.
Proof.
  intros [_ Hok Hh] Hs. destruct Hs as [ns l1 l2 q m now u p out p' Hq Hu Ha E|]; [|done].
  destruct (Hok q p Hq) as [W _]. cbn in Hh. rewrite list.Forall_app, list.Forall_cons in Hh.
  destruct Hh as (_ & Hm & _).
  destruct (delivered m now u p out p' Hu W Hm E) as (_ & ? & ? & ? & _).
  by apply (shape_insert ns q p).
Qed.

Lemma heard_step i F net net' :
  flood_ok F net → flood_step true net net' → spreading i net → heard i net ⊆ heard i net'.
Proof.
  intros [_ Hok _] Hs [_ _ Hfl _]. destruct Hs as [ns l1 l2 q m now u p out p' Hq Hu Ha E|]; [|done].
  destruct (Hok q p Hq) as [W _].
  destruct (Hfl q m) as (Hid & [Hh0 _] & _); [cbn; set_solver|].
  destruct (delivered m now u p out p' Hu W Hh0 E) as (_ & _ & _ & _ & Hcase).
  intros x (p0 & Hx & Hse)%elem_of_heard. apply elem_of_heard. cbn [nodes] in *.
  destruct (decide (x = q)) as [->|]; [|rewrite lookup_insert_ne by done; eauto].
  rewrite lookup_insert_eq. exists p'. split; [done|]. apply has_seen_true.
  destruct Hcase as [(_ & _ & Hs)|(_ & _ & _ & Hs & _)]; rewrite Hs.
  - apply has_seen_true. congruence.
  - exists now. rewrite Hid. set_solver.
Qed.

Lemma spreading_run i F k net net' :
  nsteps (flood_step true) k net net' → flood_ok F net → spreading i net →
  spreading i net' ∧ shape net' = shape net ∧ heard i net ⊆ heard i net'.
Proof.
  induction 1 as [net|k net net1 net2 Hs _ IH]; intros Hok Hsp; [done|].
  destruct (flood_step_ok true F net net1 Hs Hok) as [Hok1 _].
  pose proof (spreading_step i net net1 F Hok Hs Hsp) as Hsp1.
  destruct (IH Hok1 Hsp1) as (? & Hsh & Hsub). split; [done|].
  rewrite Hsh. split; [by eapply shape_step|]. etrans; [|exact Hsub]. by eapply heard_step.
Qed.

(** Every packet can be delivered, at a time when its message is fresh. *)
Lemma flood_can_deliver F net q m :
  flood_ok F net → (q, m) ∈ flight net → is_Some (nodes net !! q) →
  ∃ net', flood_step true net net'.
Proof.
  intros [_ Hok Hh] Hin [p Hq]. destruct net as [ns fl]. cbn in *.
  rewrite list.Forall_forall in Hh. specialize (Hh _ Hin). cbn in Hh.
  apply list_elem_of_split in Hin as (l1 & l2 & ->).
  destruct (Hok q p Hq) as [W _].
  destruct (receive_message_ok m (gm_timestamp m) (λ _ _, 0) p) as (out & p' & E);
    [apply uniform_zero|done|].
  eexists. eapply flood_deliver; [done|apply uniform_zero| |exact E].
  intros _. unfold is_too_old. by rewrite Z.sub_diag.
Qed.

(** A fair run of a spreading message goes on until nothing is in flight. *)
Lemma flood_finishes i F net :
  flood_ok F net → spreading i net →
  ∃ k net', nsteps (flood_step true) k net net' ∧ flight net' = [].
Proof.
  intros Hok Hsp. remember (Z.to_nat (weight F net)) as n eqn:Hn.
  revert net Hok Hsp Hn. induction (lt_wf n) as [n _ IH]. intros net Hok Hsp ->.
  destruct (flight net) as [|[q m] l] eqn:Hf; [exists 0%nat, net; split; [constructor|done]|].
  assert (Hin : (q, m) ∈ flight net) by (rewrite Hf; set_solver).
  destruct (sp_flight i net Hsp q m Hin) as (_ & _ & Hq).
  destruct (flood_can_deliver F net q m Hok Hin Hq) as [net1 Hs].
  destruct (flood_step_ok true F net net1 Hs Hok) as [Hok1 Hw].
  pose proof (weight_nonneg F net1 (ok_bound F net1 Hok1)).
  destruct (IH (Z.to_nat (weight F net1))) with (net := net1) as (k & net2 & Hr & He); try done.
  - lia.
  - by apply (spreading_step i net net1 F).
  - exists (S k), net2. split; [by econstructor|done].
Qed.

Lemma spreading_done i net x y :
  spreading i net → flight net = [] → x ∈ heard i net → rtc (linked net) x y → y ∈ heard i net.
Proof.
  intros [_ _ _ Hfr] Hf Hx Hr. revert Hx. induction Hr as [x|x y z Hl _ IH]; [done|].
  intros Hx. apply IH. destruct (Hfr x y Hx Hl) as [?|[m Hm]]; [done|].
  rewrite Hf in Hm. by apply elem_of_nil in Hm.
Qed.

(** ** Properties *)

(** C15: in a network of gossiping nodes every flood dies out: a weight that only
    counts the packets in flight and the hops they have left bounds the number of
    deliveries, in any order and with any losses, and no packet for a node of the
    network is ever stuck. *)
Theorem flood_terminates F net :
  flood_ok F net →
  (∀ fair k net', nsteps (flood_step fair) k net net' → Z.of_nat k <= weight F net) ∧
  (∀ q m, (q, m) ∈ flight net → is_Some (nodes net !! q) → ∃ net', flood_step true net net').
Proof.
  intros Hok. split.
  - intros fair k net' Hr. destruct (flood_run_ok fair F k net net' Hr Hok) as [Hok' Hw].
    pose proof (weight_nonneg F net' (ok_bound F net' Hok')). lia.
  - intros q m Hin Hq. by eapply flood_can_deliver.
Qed.

(** C4: when no packet is lost and every fan-out covers all peers, a broadcast in a
    network of at most eleven nodes dies out within a computed number of deliveries,
    in whatever order they happen, and has then been received by every node that is
    linked to its origin. *)
Theorem flood_reaches_everyone F o p m now uniform ns :
  flood_ok F (MkNetwork ns []) → floods_all (MkNetwork ns []) →
  Z.of_nat (size ns) <= MAX_HOPS + 1 → heard (message_id m) (MkNetwork ns []) = ∅ →
  ns !! o = Some p → uniform_ok uniform → hop_count m = 0 →
  ∃ net1, flood_start o m now uniform (MkNetwork ns []) = Some net1 ∧
    ∀ k net2, nsteps (flood_step true) k net1 net2 →
      Z.of_nat k <= F * (F + 1) ^ MAX_HOPS ∧
      (∃ k' net3, nsteps (flood_step true) k' net2 net3 ∧ flight net3 = []) ∧
      (flight net2 = [] → ∀ q, rtc (linked (MkNetwork ns [])) o q →
         q ∈ heard (message_id m) net2).
Proof.
  intros Hok Hfa Hsz Hno Hq Hu Hh.
  destruct (flood_start_eq F o p m now uniform ns Hok Hq Hu)
    as (p' & fw & _ & _ & _ & _ & _ & _ & _ & _ & E).
  eexists. split; [exact E|]. intros k net2 Hr.
  destruct (flood_start_ok F o p m now uniform ns _ Hok Hq Hu Hh E) as [Hok1 Hw1].
  destruct (flood_start_spreading F o p m now uniform ns _ Hok Hq Hu Hh Hfa Hsz Hno E)
    as (Hsp1 & Hsh1 & Ho1).
  destruct (flood_run_ok true F k _ net2 Hr Hok1) as [Hok2 Hw2].
  destruct (spreading_run _ F k _ net2 Hr Hok1 Hsp1) as (Hsp2 & Hsh2 & Hsub).
  pose proof (weight_nonneg F net2 (ok_bound F net2 Hok2)).
  split_and!; [lia|by eapply flood_finishes|].
  intros Hf q Hreach. eapply spreading_done; [exact Hsp2|exact Hf|by apply Hsub, Ho1|].
  eapply rtc_subrel; [|exact Hreach]. intros x y. apply linked_shape_eq. congruence.
Qed.

(** ** A line of three nodes *)

Definition line_node (self : Z) (ps : list Z) : GossipProtocol :=
  with_peers (demo_peer <$> ps) (set_send_callback (λ _ _, true) (new_gossip (demo_peer self))).

Definition line : gmap NodeID GossipProtocol :=
  <[demo_peer 1 := line_node 1 [2]]> (<[demo_peer 2 := line_node 2 [1; 3]]>
    {[demo_peer 3 := line_node 3 [2]]}).

Lemma line_lookup q p :
  line !! q = Some p →
  (q, p) ∈ [(demo_peer 1, line_node 1 [2]); (demo_peer 2, line_node 2 [1; 3]);
            (demo_peer 3, line_node 3 [2])].
Proof.
  unfold line. rewrite !lookup_insert_Some, lookup_singleton_Some. set_solver.
Qed.

Lemma line_ok : flood_ok 3 (MkNetwork line []).
Proof.
  split; [lia| |constructor]. intros q p Hq%line_lookup. cbn [nodes].
  assert (∀ s ps, NoDup (demo_peer <$> ps) → len ps <= 3 → gossip_wf (line_node s ps) ∧
    Z.min (fanout (line_node s ps)) (len (peers (line_node s ps))) <= 3) as H.
  { intros s ps Hn Hl. assert (len (peers (line_node s ps)) = len ps)
      by (unfold len; cbn; by rewrite length_fmap).
    split; [|lia]. pose proof (len_nonneg ps). split; [done| |done|done|done].
    unfold in_u. lia. }
  repeat (apply elem_of_cons in Hq as [[= -> ->]|Hq];
    [apply H; [apply (bool_decide_eq_true_1 _); vm_compute; reflexivity|done]|]).
  by apply elem_of_nil in Hq.
Qed.

Lemma line_floods : floods_all (MkNetwork line []).
Proof.
  intros q ps n cb. unfold shape. rewrite lookup_fmap. cbn [nodes].
  destruct (line !! q) as [p|] eqn:Hq; [|done]. intros [= <- <- <-].
  apply line_lookup in Hq.
  assert (∀ y : Z, y ∈ [1; 2; 3] → is_Some (shape (MkNetwork line []) !! demo_peer y)) as Hy.
  { intros y Hy. unfold shape. rewrite lookup_fmap. apply fmap_is_Some.
    repeat (apply elem_of_cons in Hy as [->|Hy]; [eexists; vm_compute; reflexivity|]).
    by apply elem_of_nil in Hy. }
  repeat (apply elem_of_cons in Hq as [[= -> ->]|Hq]; [split; [done|split; [|by eexists]];
    intros y (z & -> & Hz)%list_elem_of_fmap; apply Hy; set_solver|]).
  by apply elem_of_nil in Hq.
Qed.

Lemma flood_terminates_witness :
  flood_ok 3 (MkNetwork line []) ∧
  (∃ net', flood_step true (MkNetwork line [(demo_peer 1, demo_message)]) net').
Proof.
  split; [apply line_ok|].
  refine (proj2 (flood_terminates 3 (MkNetwork line [(demo_peer 1, demo_message)]) _)
    (demo_peer 1) demo_message _ _).
  - destruct line_ok as [H1 H2 _]. split; [exact H1|exact H2|]. repeat constructor. discriminate.
  - apply elem_of_cons. left. reflexivity.
  - eexists. vm_compute. reflexivity.
Defined.

Lemma flood_reaches_everyone_witness :
  ∃ net1, flood_start (demo_peer 1) demo_message 1000 (λ _ _, 0) (MkNetwork line []) = Some net1 ∧
    ∀ k net2, nsteps (flood_step true) k net1 net2 → flight net2 = [] →
      demo_peer 3 ∈ heard (message_id demo_message) net2.
Proof.
  destruct (flood_reaches_everyone 3 (demo_peer 1) (line_node 1 [2]) demo_message 1000
    (λ _ _, 0) line) as (net1 & E & H).
  - apply line_ok.
  - apply line_floods.
  - vm_compute. discriminate.
  - apply (bool_decide_eq_true_1 _). vm_compute. reflexivity.
  - vm_compute. reflexivity.
  - apply uniform_zero.
  - reflexivity.
  - exists net1. split; [exact E|]. intros k net2 Hr Hf.
    apply (proj2 (proj2 (H k net2 Hr)) Hf).
    eapply rtc_l; [|eapply rtc_l; [|apply rtc_refl]].
    + exists (line_node 1 [2]). split; [vm_compute; reflexivity|]. apply elem_of_cons. by left.
    + exists (line_node 2 [1; 3]). split; [vm_compute; reflexivity|].
      apply elem_of_cons. right. apply elem_of_cons. by left.
Defined.
