(* ===== verification/LedgerSync.v ===== *)
(** Ledger synchronisation: [LedgerSyncMessage], [LedgerGossipBridge] and
    [LedgerSyncScheduler] of src/network/ledger_sync.hpp and ledger_sync.cpp.

    A bridge holds references to a ledger, a state manager and a gossip
    protocol; here the three are fields of its record, and an operation returns
    them changed.  The kinds of sync messages are integers, since a byte of the
    wire is cast to the enumeration without a check.  Sends are the [action]s
    of [Gossip].  [entries] gives the iteration order of the map of peers. *)

From Stdlib Require Import Strings.Byte.
From S2P Require Import Prelude Reader Common Crypto Key Event Ledger State Gossip.

(** ** Sync messages *)

(** [enum class LedgerSyncMessage::Type]. *)
Abbreviation SyncType := Z.

Definition EVENT_BROADCAST : SyncType := 0.
Definition SYNC_REQUEST : SyncType := 1.
Definition SYNC_RESPONSE : SyncType := 2.
Definition CHECKPOINT : SyncType := 3.

Record LedgerSyncMessage := MkLedgerSyncMessage {
  sm_type : SyncType;
  sm_events : list LedgerEvent;
  start_epoch : Z;
  end_epoch : Z;
  ledger_hash : Hash256
}.

Definition sync_serialize (m : LedgerSyncMessage) : bytes :=
  [to_byte (sm_type m)] ++ le_bytes 8 (start_epoch m) ++ le_bytes 8 (end_epoch m) ++
  arr (ledger_hash m) ++ le_bytes 4 (len (sm_events m)) ++ mjoin (event_frame <$> sm_events m).

(** One iteration of the loop over the events. *)
Definition sync_event_reader (W : Z) : reader LedgerEvent :=
  event_size ← read_scalar W 4;
  event_data ← read_string W event_size;
  rd_part (event_reader W) event_data.

Definition sync_fields (W : Z) : reader LedgerSyncMessage :=
  type ← raw_uint 1;
  first ← raw_uint 8;
  last ← raw_uint 8;
  hash ← raw_array 32;
  event_count ← raw_uint 4;
  es ← rd_list (Z.to_nat event_count) (sync_event_reader W);
  mret (MkLedgerSyncMessage type es first last hash).

Definition sync_reader (W : Z) : reader LedgerSyncMessage :=
  _ ← rd_min 57; sync_fields W.

Definition sync_deserialize (input : bytes) : option LedgerSyncMessage :=
  to_optional (run_reader (sync_reader 64) input).

(** ** The bridge *)

Record SyncState := MkSyncState {
  sy_peer_id : NodeID;
  last_synced_epoch : Z;
  last_known_hash : Hash256;
  last_sync_time : Z;
  sync_in_progress : bool
}.

Record LedgerGossipBridge := MkLedgerGossipBridge {
  ledger : Ledger;
  state_manager : StateManager;
  gossip : GossipProtocol;
  peer_sync_states : gmap NodeID SyncState;
  seen_event_ids : gset Hash256;
  events_received : Z;
  events_sent : Z;
  sync_requests : Z
}.

Definition new_bridge (l : Ledger) (s : StateManager) (g : GossipProtocol) :
    LedgerGossipBridge := MkLedgerGossipBridge l s g ∅ ∅ 0 0 0.

Definition with_gossip (g : GossipProtocol) (b : LedgerGossipBridge) : LedgerGossipBridge :=
  MkLedgerGossipBridge (ledger b) (state_manager b) g (peer_sync_states b) (seen_event_ids b)
    (events_received b) (events_sent b) (sync_requests b).

Definition with_peer_states (ps : gmap NodeID SyncState) (b : LedgerGossipBridge) :
    LedgerGossipBridge :=
  MkLedgerGossipBridge (ledger b) (state_manager b) (gossip b) ps (seen_event_ids b)
    (events_received b) (events_sent b) (sync_requests b).

Definition with_sent (n : Z) (b : LedgerGossipBridge) : LedgerGossipBridge :=
  MkLedgerGossipBridge (ledger b) (state_manager b) (gossip b) (peer_sync_states b)
    (seen_event_ids b) (events_received b) n (sync_requests b).

Definition with_requests (n : Z) (b : LedgerGossipBridge) : LedgerGossipBridge :=
  MkLedgerGossipBridge (ledger b) (state_manager b) (gossip b) (peer_sync_states b)
    (seen_event_ids b) (events_received b) (events_sent b) n.

(** The event joins the ledger. *)
Definition accepted (id : Hash256) (l : Ledger) (s : StateManager) (b : LedgerGossipBridge) :
    LedgerGossipBridge :=
  MkLedgerGossipBridge l s (gossip b) (peer_sync_states b) (seen_event_ids b ∪ {[id]})
    (u64 (events_received b + 1)) (events_sent b) (sync_requests b).

(** The envelope the bridge fills in. *)
Definition sync_envelope (id : Hash256) (payload : bytes) (now : Z) : GossipMessage :=
  MkGossipMessage NETWORK_STATE_UPDATE id payload now 0.

(** The clock at the readings made for one received event: the timestamp
    check, [current_epoch], the continuity check, and [add_external_event]. *)
Record SyncReadings := MkSyncReadings {
  at_timestamp : Z;
  at_current_epoch : Z;
  at_continuity : Z;
  at_external : Z;
  at_add : Readings
}.

Section ops.
Context `{Crypto}.

(** *** Sending *)

Definition broadcast_event (e : LedgerEvent) (now : Z) (uniform : nat → Z → Z)
    (b : LedgerGossipBridge) : outcome (list action * LedgerGossipBridge) :=
  let m := MkLedgerSyncMessage EVENT_BROADCAST [e] (epoch e) (epoch e)
             (get_latest_hash (ledger b)) in
  '(out, g) ← broadcast_message (sync_envelope (event_id e) (sync_serialize m) now) now uniform
                (gossip b);
  mret (out, with_sent (u64 (events_sent b + 1)) (with_gossip g b)).

Definition broadcast_checkpoint (ep : Z) (now : Z) (uniform : nat → Z → Z)
    (b : LedgerGossipBridge) : outcome (list action * LedgerGossipBridge) :=
  let m := MkLedgerSyncMessage CHECKPOINT [] ep ep (get_latest_hash (ledger b)) in
  '(out, g) ← broadcast_message (sync_envelope (ledger_hash m) (sync_serialize m) now) now uniform
                (gossip b);
  mret (out, with_gossip g b).

(** The identifier interleaves the bytes of the two epochs. *)
Definition request_id (first last : Z) : Hash256 :=
  blake3 (mjoin ((λ i : nat, [to_byte (Z.shiftr first (Z.of_nat i * 8));
                              to_byte (Z.shiftr last (Z.of_nat i * 8))]) <$> seq 0 8)).

Definition request_sync (peer : NodeID) (first last : Z) (now : Z) (b : LedgerGossipBridge) :
    list action * LedgerGossipBridge :=
  let m := MkLedgerSyncMessage SYNC_REQUEST [] first last (get_latest_hash (ledger b)) in
  let '(out, g) :=
    (send_direct_message peer (sync_envelope (request_id first last) (sync_serialize m) now)
       (gossip b)).2 in
  (out, with_requests (u64 (sync_requests b + 1)) (with_gossip g b)).

Definition events_in_range (first last : Z) (es : list LedgerEvent) : list LedgerEvent :=
  filter (λ e, first <= epoch e ∧ epoch e <= last) es.

Definition sync_response (first last : Z) (l : Ledger) : LedgerSyncMessage :=
  MkLedgerSyncMessage SYNC_RESPONSE (events_in_range first last (get_all_events l)) first last
    (get_latest_hash l).

Definition handle_sync_request (peer : NodeID) (first last : Z) (now : Z)
    (b : LedgerGossipBridge) : list action * LedgerGossipBridge :=
  let m := sync_response first last (ledger b) in
  let '(out, g) :=
    (send_direct_message peer (sync_envelope (blake3 (sync_serialize m)) (sync_serialize m) now)
       (gossip b)).2 in
  (out, with_gossip g b).

(** *** Receiving *)

Definition validate_event_chain (e : LedgerEvent) (rd : SyncReadings) (b : LedgerGossipBridge) :
    bool :=
  if u64 (at_timestamp rd + MAX_FUTURE_SKEW_SECONDS) <? timestamp e then false
  else if bool_decide (source_node e = zeros 32) then false
  else if current_epoch (at_current_epoch rd) <? epoch e then true
  else verify_event_chain e (at_continuity rd) (ledger b).

Definition process_received_event (e : LedgerEvent) (rd : SyncReadings)
    (b : LedgerGossipBridge) : outcome LedgerGossipBridge :=
  if decide (event_id e ∈ seen_event_ids b) then Ok b
  else if negb (validate_event_chain e rd b) then Ok b
  else
    let '(added, l) := add_external_event e (at_external rd) (at_add rd) (ledger b) in
    if added then
      s ← apply_event e (state_manager b);
      mret (accepted (event_id e) l s b)
    else Ok (MkLedgerGossipBridge l (state_manager b) (gossip b) (peer_sync_states b)
               (seen_event_ids b) (events_received b) (events_sent b) (sync_requests b)).

(** The loop over the events of a message; [clock i] holds the readings of the
    [i]-th. *)
Fixpoint process_events (es : list LedgerEvent) (i : nat) (clock : nat → SyncReadings)
    (b : LedgerGossipBridge) : outcome LedgerGossipBridge :=
  match es with
  | [] => Ok b
  | e :: es => b ← process_received_event e (clock i) b; process_events es (S i) clock b
  end.

Definition update_peer_sync_state (peer : NodeID) (ep : Z) (hash : Hash256) (now : Z)
    (b : LedgerGossipBridge) : LedgerGossipBridge :=
  let in_progress :=
    match peer_sync_states b !! peer with Some st => sync_in_progress st | None => false end in
  with_peer_states (<[peer := MkSyncState peer ep hash now in_progress]> (peer_sync_states b)) b.

Definition handle_sync_response (peer : NodeID) (es : list LedgerEvent)
    (clock : nat → SyncReadings) (now : Z) (b : LedgerGossipBridge) :
    outcome LedgerGossipBridge :=
  b ← process_events es 0 clock b;
  mret match list.last es with
       | Some e => update_peer_sync_state peer (epoch e) (event_id e) now b
       | None => b
       end.

Definition handle_gossip_message (source : NodeID) (message : GossipMessage)
    (clock : nat → SyncReadings) (now : Z) (b : LedgerGossipBridge) :
    outcome (list action * LedgerGossipBridge) :=
  match sync_deserialize (payload message) with
  | None => Ok ([], b)
  | Some m =>
      if sm_type m =? EVENT_BROADCAST then
        b ← process_events (sm_events m) 0 clock b; mret ([], b)
      else if sm_type m =? SYNC_REQUEST then
        Ok (handle_sync_request source (start_epoch m) (end_epoch m) now b)
      else if sm_type m =? SYNC_RESPONSE then
        b ← handle_sync_response source (sm_events m) clock now b; mret ([], b)
      else if sm_type m =? CHECKPOINT then
        Ok ([], update_peer_sync_state source (start_epoch m) (ledger_hash m) now b)
      else Ok ([], b)
  end.

(** *** Maintenance *)

Definition ahead_of (ep : Z) (ps : gmap NodeID SyncState) : list NodeID :=
  (filter (λ p, ep < last_synced_epoch p.2) (entries ps)).*1.

Definition max_peer_epoch (ep : Z) (ps : gmap NodeID SyncState) : Z :=
  foldl (λ m p, if m <? last_synced_epoch p.2 then last_synced_epoch p.2 else m) ep (entries ps).

(** [ep] is [ledger_.current_epoch()]. *)
Definition sync_with_network (ep now : Z) (uniform : nat → Z → Z) (b : LedgerGossipBridge) :
    outcome (list action * LedgerGossipBridge) :=
  let highest := max_peer_epoch ep (peer_sync_states b) in
  if ep <? highest then
    match ahead_of ep (peer_sync_states b) with
    | [] => Ok ([], b)
    | candidates =>
        match candidates !! Z.to_nat (uniform 0%nat (u32 (len candidates))) with
        | Some peer => Ok (request_sync peer (u64 (ep + 1)) highest now b)
        | None => Undef
        end
    end
  else Ok ([], b).

(** The loop of [validate_consistency]. *)
Fixpoint request_mismatches (ep : Z) (ours : Hash256) (now : Z)
    (ps : list (NodeID * SyncState)) (b : LedgerGossipBridge) :
    list action * LedgerGossipBridge :=
  match ps with
  | [] => ([], b)
  | (peer, st) :: ps =>
      let '(out, b) :=
        if (last_synced_epoch st =? ep) && negb (bool_decide (last_known_hash st = ours)) &&
           (0 <? ep)
        then request_sync peer ep ep now b else ([], b) in
      let '(rest, b) := request_mismatches ep ours now ps b in
      (out ++ rest, b)
  end.

Definition validate_consistency (ep now : Z) (b : LedgerGossipBridge) :
    list action * LedgerGossipBridge :=
  request_mismatches ep (get_latest_hash (ledger b)) now (entries (peer_sync_states b)) b.

Definition STALE_THRESHOLD : Z := 300.

Definition cleanup_sync_state (now : Z) (b : LedgerGossipBridge) : LedgerGossipBridge :=
  with_peer_states
    (filter (λ p, ¬ STALE_THRESHOLD < u64 (now - last_sync_time p.2)) (peer_sync_states b)) b.

Definition is_synced (ep : Z) (b : LedgerGossipBridge) : bool :=
  if decide (peer_sync_states b = ∅) then false
  else
    let synced := len (filter (λ p, last_synced_epoch p.2 <= u64 (ep + 1))
                         (entries (peer_sync_states b))) in
    Z.of_nat (size (peer_sync_states b)) / 2 <=? synced.

Definition get_sync_epoch (now : Z) (b : LedgerGossipBridge) : Z := current_epoch now.

Definition get_synced_peers (ep : Z) (b : LedgerGossipBridge) : list NodeID :=
  (filter (λ p, u64 (ep - 1) <= last_synced_epoch p.2) (entries (peer_sync_states b))).*1.

(** ** The scheduler *)

Record LedgerSyncScheduler := MkLedgerSyncScheduler {
  ls_running : bool;
  ls_last_sync_time : Z;
  last_checkpoint_epoch : Z;
  last_validation_time : Z
}.

Definition new_sync_scheduler : LedgerSyncScheduler := MkLedgerSyncScheduler false 0 0 0.

Definition sync_start (now : Z) (s : LedgerSyncScheduler) : LedgerSyncScheduler :=
  MkLedgerSyncScheduler true now (last_checkpoint_epoch s) now.

Definition sync_stop (s : LedgerSyncScheduler) : LedgerSyncScheduler :=
  MkLedgerSyncScheduler false (ls_last_sync_time s) (last_checkpoint_epoch s)
    (last_validation_time s).

Definition SYNC_INTERVAL : Z := 60.
Definition CHECKPOINT_INTERVAL : Z := 10.
Definition VALIDATION_INTERVAL : Z := 300.

Definition tick (now : Z) (uniform : nat → Z → Z) (b : LedgerGossipBridge)
    (s : LedgerSyncScheduler) : outcome (list action * LedgerGossipBridge * LedgerSyncScheduler) :=
  if negb (ls_running s) then Ok ([], b, s)
  else
    let ep := get_sync_epoch now b in
    '(out1, b, s) ←
      (if SYNC_INTERVAL <=? u64 (now - ls_last_sync_time s) then
         '(out, b) ← sync_with_network ep now uniform b;
         mret (out, b, MkLedgerSyncScheduler true now (last_checkpoint_epoch s)
                         (last_validation_time s))
       else mret ([], b, s));
    '(out2, b, s) ←
      (if u64 (last_checkpoint_epoch s + CHECKPOINT_INTERVAL) <=? ep then
         '(out, b) ← broadcast_checkpoint ep now uniform b;
         mret (out, b, MkLedgerSyncScheduler true (ls_last_sync_time s) ep
                         (last_validation_time s))
       else mret ([], b, s));
    if VALIDATION_INTERVAL <=? u64 (now - last_validation_time s) then
      let '(out3, b) := validate_consistency ep now b in
      mret (out1 ++ out2 ++ out3, cleanup_sync_state now b,
        MkLedgerSyncScheduler true (ls_last_sync_time s) (last_checkpoint_epoch s) now)
    else mret (out1 ++ out2, b, s).

End ops.

(** ** The message format *)

Definition sync_encodable (m : LedgerSyncMessage) : Prop :=
  in_u 8 (sm_type m) ∧ in_u 64 (start_epoch m) ∧ in_u 64 (end_epoch m) ∧
  in_u 32 (len (sm_events m)) ∧ Forall storable (sm_events m).

Lemma len_sync m :
  len (sync_serialize m) = 53 + len (mjoin (event_frame <$> sm_events m)).
Proof.
  unfold sync_serialize. autorewrite with len. change (len []) with 0. lia.
Qed.

Lemma reads_sync_event e : storable e → reads 64 (sync_event_reader 64) e (event_frame e).
Proof.
  intros Hs. destruct Hs as [He Hd]. pose proof (len_event e) as Hl. pose proof (len_nonneg (data e)).
  assert (in_u 32 (len (event_to_bytes e))) as Hu by (unfold in_u; lia).
  unfold event_frame, sync_event_reader.
  eapply reads_bind; [by apply reads_scalar|].
  rewrite <- (app_nil_r (event_to_bytes e)) at 2.
  eapply reads_bind; [by apply reads_string|].
  eapply reads_part; [by apply reads_event|unfold in_u in Hu; lia|done].
Qed.

Lemma reads_sync m :
  sync_encodable m → reads 64 (sync_fields 64) m (sync_serialize m).
Proof.
  intros (Ht & ? & ? & ? & Hes). unfold sync_fields, sync_serialize. rewrite <- le_bytes_1.
  do 3 (eapply reads_bind; [by apply reads_raw_uint|]).
  eapply reads_bind; [apply reads_raw_array|]. eapply reads_bind; [by apply reads_raw_uint|].
  rewrite <- (app_nil_r (mjoin _)). eapply reads_bind.
  - unfold len. rewrite Nat2Z.id. apply reads_list.
    eapply list.Forall_impl; [exact Hes|]. apply reads_sync_event.
  - destruct m. apply reads_ret.
Qed.

Lemma frames_long es : es ≠ [] → 185 <= len (mjoin (event_frame <$> es)).
Proof.
  destruct es as [|e es]; [done|intros _].
  change (mjoin (event_frame <$> e :: es)) with (event_frame e ++ mjoin (event_frame <$> es)).
  unfold event_frame at 1. rewrite !len_app, len_le_bytes, len_event.
  pose proof (len_nonneg (data e)). pose proof (len_nonneg (mjoin (event_frame <$> es))). lia.
Qed.

Lemma safe_read_string m : in_u 32 m → safe_at 64 0 (read_string 64 m) (λ l, len l < 2 ^ 63).
Proof.
  intros Hm d o Ho Hl Hd. unfold in_u in Hm.
  assert (Hr : read_string 64 m d o = if len d <? o + m then Err ENullopt else Ok (sub d o m, o + m))
    by (apply string_at; lia).
  rewrite Hr. destruct (len d <? o + m) eqn:E; [done|]. bool_to_prop. split; [|lia].
  unfold len, sub. rewrite length_take, length_drop. lia.
Qed.

Lemma safe_sync_event : safe_at 64 0 (sync_event_reader 64) (λ _, True).
Proof.
  apply safe_scalar; [lia|by vm_compute|]. intros size Hsize.
  eapply safe_then; [by apply safe_read_string|]. intros l Hl. cbn beta in Hl.
  apply safe_part; [lia| |done]. apply (safe_min_run 64 181 (event_fields 64) (λ _, True));
    [apply safe_event|exact Hl].
Qed.

Lemma safe_sync : safe_at 64 57 (sync_fields 64) (λ _, True).
Proof.
  unfold sync_fields. safe_raw_fields.
  eapply safe_mono; [|eapply safe_then; [apply safe_list, safe_sync_event|]];
    [vm_compute; discriminate|].
  intros es _. apply safe_ret; [lia|exact I].
Qed.

(** ** Admission of received events *)

(** The clock does not go back between the readings for one event. *)
Definition sync_clock_ok (rd : SyncReadings) : Prop :=
  0 <= at_timestamp rd ∧
  Forall (λ t, at_timestamp rd <= t ∧ t + MAX_FUTURE_SKEW_SECONDS < 2 ^ 64)
    [at_timestamp rd; at_continuity rd; at_external rd; at_chain (at_add rd); at_verify (at_add rd)].

Section bridge.
Context `{Crypto}.

(** The conditions under which an event is taken over. *)
Definition admissible (e : LedgerEvent) (rd : SyncReadings) (b : LedgerGossipBridge) : Prop :=
  event_id e ∉ seen_event_ids b ∧ source_node e ≠ zeros 32 ∧
  timestamp e <= at_timestamp rd + MAX_FUTURE_SKEW_SECONDS ∧
  previous_hash e = tip (events (ledger b)) ∧ event_lookup (ledger b) !! event_id e = None.

#[export] Instance admissible_dec e rd b : Decision (admissible e rd b).
Proof. unfold admissible. apply _. Defined.

Lemma skew_small rd t :
  sync_clock_ok rd → at_timestamp rd <= t ∧ t + MAX_FUTURE_SKEW_SECONDS < 2 ^ 64 →
  u64 (t + MAX_FUTURE_SKEW_SECONDS) = t + MAX_FUTURE_SKEW_SECONDS.
Proof. intros [H0 _] Ht. apply wrap_small. unfold in_u, MAX_FUTURE_SKEW_SECONDS in *. lia. Qed.

Lemma process_received_event_eq e rd b :
  sync_clock_ok rd →
  process_received_event e rd b =
  if decide (admissible e rd b) then
    s ← apply_event e (state_manager b);
    mret (accepted (event_id e) (append_event e (ledger b)) s b)
  else Ok b.
Proof.
  intros Hc. pose proof Hc as [H0 Ht]. rewrite !list.Forall_cons in Ht.
  destruct Ht as (T1 & T2 & T3 & T4 & T5 & _).
  pose proof (skew_small rd _ Hc T1) as S1. pose proof (skew_small rd _ Hc T2) as S2.
  pose proof (skew_small rd _ Hc T3) as S3. pose proof (skew_small rd _ Hc T4) as S4.
  pose proof (skew_small rd _ Hc T5) as S5.
  unfold process_received_event, validate_event_chain, add_external_event.
  destruct (decide (admissible e rd b)) as [(A1 & A2 & A3 & A4 & A5)|Hn].
  - rewrite decide_False by done. rewrite S1, (proj2 (Z.ltb_ge _ _)) by lia.
    rewrite bool_decide_eq_false_2 by done.
    assert (V : ∀ t, at_timestamp rd <= t ∧ t + MAX_FUTURE_SKEW_SECONDS < 2 ^ 64 →
      verify_event_chain e t (ledger b) = true).
    { intros t T. apply verify_event_chain_spec. split; [done|].
      intros _. rewrite (skew_small rd t Hc T). lia. }
    rewrite !V by done.
    assert (∀ c : bool, negb (if c then true else true) = false) as -> by (by intros []).
    rewrite A5. unfold add_event. rewrite (proj2 (verify_event_spec e (at_add rd) (ledger b))).
    + done.
    + split_and!; [done|done|intros _; rewrite S4; lia|rewrite S5; lia].
  - destruct (decide (event_id e ∈ seen_event_ids b)) as [|A1]; [done|].
    rewrite S1. destruct (_ <? timestamp e) eqn:A3; [done|]. bool_to_prop.
    case_bool_decide as A2; [done|].
    destruct (negb _); [done|].
    assert (Hb : b = MkLedgerGossipBridge (ledger b) (state_manager b) (gossip b)
      (peer_sync_states b) (seen_event_ids b) (events_received b) (events_sent b) (sync_requests b))
      by (by destruct b).
    destruct (verify_event_chain e (at_external rd) (ledger b)) eqn:V; [|by rewrite <- Hb].
    destruct (event_lookup (ledger b) !! event_id e) eqn:A5; [by rewrite <- Hb|].
    apply verify_event_chain_spec in V as [A4 _]. exfalso. apply Hn. split_and!; done.
Qed.

(** ** The invariant of a bridge *)

(** The ledger is well formed, the state view is the fold of its events from
    [s0], and every identifier noted as seen is in the ledger. *)
Record bridge_ok (s0 : StateManager) (b : LedgerGossipBridge) : Prop := {
  br_ledger : wf_ledger (ledger b);
  br_tip : tip_ok (ledger b);
  br_view : apply_events (events (ledger b)) s0 = Ok (state_manager b);
  br_seen : ∀ id, id ∈ seen_event_ids b → id ∈ event_id <$> events (ledger b)
}.

Lemma apply_events_app es1 es2 s :
  apply_events (es1 ++ es2) s = (s ← apply_events es1 s; apply_events es2 s).
Proof.
  revert s. induction es1 as [|x es1 IH]; intros s; cbn; [done|].
  destruct (apply_event x s); [|done..]. cbn. apply IH.
Qed.

Lemma apply_events_snoc es e s s1 s2 :
  apply_events es s = Ok s1 → apply_event e s1 = Ok s2 → apply_events (es ++ [e]) s = Ok s2.
Proof. intros E1 E2. rewrite apply_events_app, E1. cbn. by rewrite E2. Qed.

Lemma bridge_ok_accept s0 b e rd s :
  bridge_ok s0 b → admissible e rd b → apply_event e (state_manager b) = Ok s →
  bridge_ok s0 (accepted (event_id e) (append_event e (ledger b)) s b).
Proof.
  intros [W T V S] (_ & _ & _ & Hp & Hl) Ha.
  destruct (wf_append e (ledger b) W Hl Hp) as [W' T']. split; [done|done| |].
  - cbn. by eapply apply_events_snoc.
  - cbn. intros id. rewrite fmap_app. set_solver.
Qed.

Lemma bridge_ok_same s0 b b' :
  ledger b' = ledger b → state_manager b' = state_manager b →
  seen_event_ids b' = seen_event_ids b → bridge_ok s0 b → bridge_ok s0 b'.
Proof. intros Hl Hs Hi []. by split; rewrite ?Hl, ?Hs, ?Hi. Qed.

Lemma process_events_ok s0 es i clock b b' :
  (∀ j, sync_clock_ok (clock j)) → bridge_ok s0 b → process_events es i clock b = Ok b' →
  bridge_ok s0 b' ∧ ∃ new, events (ledger b') = events (ledger b) ++ new ∧ new ⊆ es ∧
    Forall (λ e, source_node e ≠ zeros 32) new.
Proof.
  intros Hc. revert i b. induction es as [|e es IH]; intros i b Hb.
  { intros [= <-]. split; [done|]. exists []. by rewrite app_nil_r. }
  cbn [process_events]. rewrite process_received_event_eq by done.
  destruct (decide (admissible e (clock i) b)) as [Ha|].
  - destruct (apply_event e (state_manager b)) as [s| |] eqn:Es; [|done..].
    intros Hp. destruct (IH _ _ (bridge_ok_accept s0 b e _ s Hb Ha Es) Hp)
      as (Hb' & new & He & Hs & Hf).
    split; [done|]. exists (e :: new). cbn in He. rewrite He, <- app_assoc.
    destruct Ha as (_ & ? & _). split; [done|]. split; [set_solver|]. by constructor.
  - intros Hp. destruct (IH _ _ Hb Hp) as (Hb' & new & He & Hs & Hf).
    split; [done|]. exists new. split; [done|]. split; [set_solver|done].
Qed.

End bridge.

(** ** Operations of a bridge *)

Inductive bridge_op :=
  | Broadcast_event (e : LedgerEvent) (now : Z) (uniform : nat → Z → Z)
  | Broadcast_checkpoint (ep now : Z) (uniform : nat → Z → Z)
  | Request_sync (peer : NodeID) (first last now : Z)
  | Handle_message (source : NodeID) (m : GossipMessage) (clock : nat → SyncReadings) (now : Z)
  | Sync_with_network (ep now : Z) (uniform : nat → Z → Z)
  | Validate_consistency (ep now : Z)
  | Cleanup (now : Z).

Section bridge_ops.
Context `{Crypto}.

Definition bridge_step (b : LedgerGossipBridge) (op : bridge_op) :
    outcome (list action * LedgerGossipBridge) :=
  match op with
  | Broadcast_event e now u => broadcast_event e now u b
  | Broadcast_checkpoint ep now u => broadcast_checkpoint ep now u b
  | Request_sync peer first last now => Ok (request_sync peer first last now b)
  | Handle_message source m clock now => handle_gossip_message source m clock now b
  | Sync_with_network ep now u => sync_with_network ep now u b
  | Validate_consistency ep now => Ok (validate_consistency ep now b)
  | Cleanup now => Ok ([], cleanup_sync_state now b)
  end.

Fixpoint bridge_run (ops : list bridge_op) (b : LedgerGossipBridge) :
    outcome (list action * LedgerGossipBridge) :=
  match ops with
  | [] => Ok ([], b)
  | op :: ops =>
      '(out, b) ← bridge_step b op;
      '(rest, b) ← bridge_run ops b;
      mret (out ++ rest, b)
  end.

(** The clocks of received messages are sane. *)
Definition op_clock_ok (op : bridge_op) : Prop :=
  match op with Handle_message _ _ clock _ => ∀ j, sync_clock_ok (clock j) | _ => True end.

(** [b'] has the ledger, the view and the seen identifiers of [b]. *)
Definition same_core (b b' : LedgerGossipBridge) : Prop :=
  ledger b' = ledger b ∧ state_manager b' = state_manager b ∧
  seen_event_ids b' = seen_event_ids b.

Lemma same_core_refl b : same_core b b.
Proof. done. Qed.

Lemma same_core_trans b1 b2 b3 : same_core b1 b2 → same_core b2 b3 → same_core b1 b3.
Proof. unfold same_core. intuition congruence. Qed.

Lemma request_sync_core peer first last now b : same_core b (request_sync peer first last now b).2.
Proof. unfold request_sync. by destruct (send_direct_message _ _ _) as [? [? ?]]. Qed.

Lemma request_mismatches_core ep ours now ps b :
  same_core b (request_mismatches ep ours now ps b).2.
Proof.
  revert b. induction ps as [|[peer st] ps IH]; intros b; [done|]. cbn [request_mismatches].
  match goal with |- context [if ?c then ?x else ?y] => destruct (if c then x else y) as [out b1] eqn:E end.
  assert (same_core b b1) as H1.
  { destruct (_ && _); [|by injection E as _ <-].
    pose proof (request_sync_core peer ep ep now b) as Hr. by rewrite E in Hr. }
  pose proof (IH b1) as H2. destruct (request_mismatches _ _ _ _ _) as [rest b2].
  by eapply same_core_trans.
Qed.

Lemma handle_response_core peer es clock now b b' :
  handle_sync_response peer es clock now b = Ok b' →
  ∃ b1, process_events es 0 clock b = Ok b1 ∧ same_core b1 b'.
Proof.
  unfold handle_sync_response. destruct (process_events es 0 clock b) as [b1| |]; [|done..].
  cbn. intros [= <-]. exists b1. split; [done|]. by destruct (list.last es).
Qed.

(** Every operation either keeps the core or processes received events. *)
Lemma bridge_step_core b op out b' :
  bridge_step b op = Ok (out, b') →
  same_core b b' ∨
  ∃ source m clock now es b1, op = Handle_message source m clock now ∧
    sm_events <$> sync_deserialize (payload m) = Some es ∧
    process_events es 0 clock b = Ok b1 ∧ same_core b1 b'.
Proof.
  destruct op; cbn [bridge_step].
  - unfold broadcast_event. destruct (broadcast_message _ _ _ _) as [[o g]| |]; [|done..].
    intros [= _ <-]. by left.
  - unfold broadcast_checkpoint. destruct (broadcast_message _ _ _ _) as [[o g]| |]; [|done..].
    intros [= _ <-]. by left.
  - intros [= E]. left. pose proof (request_sync_core peer first last now b) as Hr.
    by rewrite E in Hr.
  - unfold handle_gossip_message. destruct (sync_deserialize (payload m)) as [sm|] eqn:Em.
    2: { intros [= _ <-]. by left. }
    destruct (_ =? EVENT_BROADCAST).
    { destruct (process_events _ _ _ _) as [b1| |] eqn:E; [|done..]. intros [= _ <-]. right.
      eexists _, _, _, _, _, b1. split_and!; [done|by rewrite Em|done..]. }
    destruct (_ =? SYNC_REQUEST); [intros [= E]; left|].
    { revert E. unfold handle_sync_request. destruct (send_direct_message _ _ _) as [? [? ?]]. cbn. intros E.
      by injection E as _ <-. }
    destruct (_ =? SYNC_RESPONSE).
    { destruct (handle_sync_response _ _ _ _ _) as [b2| |] eqn:E; [|done..].
      intros [= _ <-]. apply handle_response_core in E as (b1 & E & ?). right.
      eexists _, _, _, _, _, b1. split_and!; [done|by rewrite Em|done..]. }
    destruct (_ =? CHECKPOINT); intros [= _ <-]; by left.
  - unfold sync_with_network. destruct (_ <? _); [|intros [= _ <-]; by left].
    destruct (ahead_of _ _) as [|c cs] eqn:Ec; [intros [= _ <-]; by left|]. rewrite <- Ec.
    destruct (ahead_of _ _ !! _) as [peer|]; [|done]. intros [= E]. left.
    pose proof (request_sync_core peer (u64 (ep + 1)) (max_peer_epoch ep (peer_sync_states b)) now b)
      as Hr. by rewrite E in Hr.
  - intros [= E]. left. unfold validate_consistency in E.
    pose proof (request_mismatches_core ep (get_latest_hash (ledger b)) now
      (entries (peer_sync_states b)) b) as Hr. by rewrite E in Hr.
  - intros [= _ <-]. by left.
Qed.

Lemma bridge_step_ok s0 b op out b' :
  op_clock_ok op → bridge_ok s0 b → bridge_step b op = Ok (out, b') →
  bridge_ok s0 b' ∧ ∃ new, events (ledger b') = events (ledger b) ++ new.
Proof.
  intros Hc Hb Hs. destruct (bridge_step_core b op out b' Hs) as
    [(Hl & Hst & Hse)|(source & m & clock & now & es & b1 & -> & _ & Hp & (Hl & Hst & Hse))].
  - split; [by eapply bridge_ok_same|]. exists []. by rewrite app_nil_r, Hl.
  - destruct (process_events_ok s0 es 0 clock b b1 Hc Hb Hp) as (Hb1 & new & He & _).
    split; [by eapply bridge_ok_same|]. exists new. by rewrite Hl.
Qed.

Lemma bridge_run_ok s0 b ops out b' :
  Forall op_clock_ok ops → bridge_ok s0 b → bridge_run ops b = Ok (out, b') →
  bridge_ok s0 b' ∧ ∃ new, events (ledger b') = events (ledger b) ++ new.
Proof.
  intros Hc. revert b out. induction Hc as [|op ops Hop _ IH]; intros b out Hb.
  { intros [= _ <-]. split; [done|]. exists []. by rewrite app_nil_r. }
  cbn [bridge_run]. destruct (bridge_step b op) as [[o b1]| |] eqn:E; [|done..]. cbn.
  destruct (bridge_run ops b1) as [[rest b2]| |] eqn:E2; [|done..]. intros [= _ <-].
  destruct (bridge_step_ok s0 b op o b1 Hop Hb E) as (Hb1 & new & He).
  destruct (IH b1 _ Hb1 E2) as (Hb2 & new2 & He2).
  split; [done|]. exists (new ++ new2). by rewrite He2, He, app_assoc.
Qed.

(** *** When a run is undefined *)

(** The draws of the operation are below their bounds. *)
Definition op_draws_ok (op : bridge_op) : Prop :=
  match op with
  | Broadcast_event _ _ u | Broadcast_checkpoint _ _ u | Sync_with_network _ _ u => uniform_ok u
  | _ => True
  end.

(** Applying the event takes the reputation of its subject out of the 32-bit range. *)
Definition event_overflows (e : LedgerEvent) (s : StateManager) : Prop :=
  event_type e = REPUTATION_UPDATED ∧ ∃ x, reputation_from_bytes (data e) = Some x ∧
    ¬ in_s 32 (get_node_reputation (subject_node x) s + score_delta x).

(** The loop over received events comes to an admissible one that overflows. *)
Definition events_overflow (es : list LedgerEvent) (i : nat) (clock : nat → SyncReadings)
    (b : LedgerGossipBridge) : Prop :=
  ∃ es1 e es2 b1, es = es1 ++ e :: es2 ∧ process_events es1 i clock b = Ok b1 ∧
    admissible e (clock (i + length es1)%nat) b1 ∧ event_overflows e (state_manager b1).

(** The operation hands such events to the loop. *)
Inductive op_overflows (b : LedgerGossipBridge) : bridge_op → Prop :=
  | message_overflows source m clock now sm :
      sync_deserialize (payload m) = Some sm →
      sm_type sm = EVENT_BROADCAST ∨ sm_type sm = SYNC_RESPONSE →
      events_overflow (sm_events sm) 0 clock b →
      op_overflows b (Handle_message source m clock now).

Definition run_overflows (ops : list bridge_op) (b : LedgerGossipBridge) : Prop :=
  ∃ before op after out b1, ops = before ++ op :: after ∧ bridge_run before b = Ok (out, b1) ∧
    op_overflows b1 op.

Lemma apply_total e s : event_overflows e s ∨ ∃ s', apply_event e s = Ok s'.
Proof.
  destruct (apply_event_undefined_iff_overflow e s) as (Herr & Hu & _).
  destruct (apply_event e s) as [s'|err|] eqn:E; [eauto|by destruct (Herr err)|].
  left. by apply Hu.
Qed.

Lemma overflow_undef e s : event_overflows e s → apply_event e s = Undef.
Proof. intros Ho. by apply apply_event_undefined_iff_overflow. Qed.

Lemma process_events_total es i clock b :
  (∀ j, sync_clock_ok (clock j)) →
  events_overflow es i clock b ∨ ∃ b', process_events es i clock b = Ok b'.
Proof.
  intros Hc. revert i b. induction es as [|e es IH]; intros i b; [eauto|].
  cbn [process_events].
  assert (Hstep : (∃ b1, process_received_event e (clock i) b = Ok b1) ∨
    admissible e (clock i) b ∧ event_overflows e (state_manager b)).
  { rewrite process_received_event_eq by done. case_decide as Ha; [|eauto].
    destruct (apply_total e (state_manager b)) as [|[s ->]]; [by right|]. left. by eexists. }
  destruct Hstep as [[b1 E]|[Ha Ho]].
  - rewrite E. destruct (IH (S i) b1) as [(es1 & e' & es2 & b2 & -> & E2 & Ha & Ho)|Hr];
      [left|by right].
    exists (e :: es1), e', es2, b2. split_and!; [done| | |done].
    + cbn [process_events]. by rewrite E.
    + cbn [length]. by replace (i + S (length es1))%nat with (S i + length es1)%nat by lia.
  - left. exists [], e, es, b. cbn [length]. by rewrite Nat.add_0_r.
Qed.

Lemma events_overflow_undef es i clock b :
  (∀ j, sync_clock_ok (clock j)) → events_overflow es i clock b →
  process_events es i clock b = Undef.
Proof.
  intros Hc (es1 & e & es2 & b1 & -> & E & Ha & Ho). revert i b E Ha.
  induction es1 as [|e1 es1 IH]; intros i b E Ha; cbn [app process_events length] in *.
  - injection E as <-. rewrite Nat.add_0_r in Ha. rewrite process_received_event_eq by done.
    rewrite decide_True by done. by rewrite overflow_undef.
  - destruct (process_received_event e1 (clock i) b) as [b2| |]; cbn in *; [|done..].
    apply IH; [done|]. by replace (S i + length es1)%nat with (i + S (length es1))%nat by lia.
Qed.

(** The gossip protocol of the bridge is well formed and few peers are recorded. *)
Definition comms_ok (n : Z) (b : LedgerGossipBridge) : Prop :=
  gossip_wf (gossip b) ∧ Z.of_nat (size (peer_sync_states b)) <= n.

Lemma sent_wf q m g : gossip_wf g → gossip_wf (send_direct_message q m g).2.2.
Proof.
  intros W. unfold send_direct_message, send_to_peer.
  assert (∀ n, gossip_wf (with_counts (messages_received g) n g)) as Hn.
  { intros n. by eapply (wf_seen_again g); [done..|apply W]. }
  destruct (send_callback g) as [f|]; cbn; [by destruct (f q m)|done].
Qed.

Lemma request_sync_comms n peer first last now b :
  comms_ok n b → comms_ok n (request_sync peer first last now b).2.
Proof.
  intros [W S]. unfold request_sync.
  match goal with |- context [send_direct_message ?q ?m ?g] => pose proof (sent_wf q m g W) as W' end.
  by destruct (send_direct_message _ _ _) as [? [? ?]].
Qed.

Lemma request_mismatches_comms n ep ours now ps b :
  comms_ok n b → comms_ok n (request_mismatches ep ours now ps b).2.
Proof.
  revert b. induction ps as [|[peer st] ps IH]; intros b Hb; [done|]. cbn [request_mismatches].
  match goal with |- context [if ?c then ?x else ?y] =>
    destruct (if c then x else y) as [out b1] eqn:E end.
  assert (comms_ok n b1) as H1.
  { destruct (_ && _); [|by injection E as _ <-].
    pose proof (request_sync_comms n peer ep ep now b Hb) as Hr. by rewrite E in Hr. }
  specialize (IH b1 H1). by destruct (request_mismatches _ _ _ _ b1).
Qed.

Lemma process_events_comms n es i clock b b' :
  (∀ j, sync_clock_ok (clock j)) → comms_ok n b → process_events es i clock b = Ok b' →
  comms_ok n b'.
Proof.
  intros Hc. revert i b. induction es as [|e es IH]; intros i b Hb; [by intros [= <-]|].
  cbn [process_events]. rewrite process_received_event_eq by done.
  case_decide; [|by apply IH]. destruct (apply_event e (state_manager b)); [|done..].
  cbn [mbind outcome_bind]. by apply IH.
Qed.

Lemma peer_update_comms n peer ep hash now b :
  0 <= n → comms_ok n b → comms_ok (n + 1) (update_peer_sync_state peer ep hash now b).
Proof.
  intros Hn [W S]. split; [done|]. cbn. rewrite map_size_insert. case_match; cbn; lia.
Qed.

Lemma broadcast_total m now u g :
  uniform_ok u → gossip_wf g →
  ∃ out g', broadcast_message m now u g = Ok (out, g') ∧ gossip_wf g'.
Proof.
  intros Hu W. destruct (broadcast_message_eq m now u g Hu W) as (fw & sent & _ & _ & _ & ->).
  eexists _, _. split; [done|]. by apply wf_marked.
Qed.

Lemma ahead_few ep n b :
  comms_ok n b → len (ahead_of ep (peer_sync_states b)) <= n.
Proof.
  intros [_ S]. unfold ahead_of, len. rewrite length_fmap.
  pose proof (length_filter (λ p, ep < last_synced_epoch p.2) (entries (peer_sync_states b))) as Hf.
  rewrite length_entries in Hf. lia.
Qed.

Lemma bridge_step_total n b op :
  0 <= n < 2 ^ 32 → comms_ok n b → op_clock_ok op → op_draws_ok op →
  op_overflows b op ∨ ∃ out b', bridge_step b op = Ok (out, b') ∧ comms_ok (n + 1) b'.
Proof.
  intros Hn Hb Hc Hd.
  assert (Hup : ∀ b', comms_ok n b' → comms_ok (n + 1) b') by (intros b' [? ?]; split; [done|lia]).
  destruct op as [e now u|ep now u|peer first last now|source m clock now|ep now u|ep now|now];
    cbn [bridge_step op_clock_ok op_draws_ok] in *.
  - right. unfold broadcast_event.
    edestruct (broadcast_total) as (out & g' & -> & W); [exact Hd|apply Hb|].
    eexists _, _. split; [done|]. apply Hup. split; [done|apply Hb].
  - right. unfold broadcast_checkpoint.
    edestruct (broadcast_total) as (out & g' & -> & W); [exact Hd|apply Hb|].
    eexists _, _. split; [done|]. apply Hup. split; [done|apply Hb].
  - right. pose proof (request_sync_comms n peer first last now b Hb) as Hr.
    destruct (request_sync _ _ _ _ _) as [out b']. eexists _, _. split; [done|by apply Hup].
  - unfold handle_gossip_message. destruct (sync_deserialize (payload m)) as [sm|] eqn:Em.
    2: { right. eexists _, _. split; [done|by apply Hup]. }
    destruct (sm_type sm =? EVENT_BROADCAST) eqn:T1; [apply Z.eqb_eq in T1|].
    { destruct (process_events_total (sm_events sm) 0 clock b Hc) as [Ho|[b' E]].
      - left. eapply message_overflows; eauto.
      - right. rewrite E. eexists _, _. split; [done|]. by eapply Hup, process_events_comms. }
    destruct (sm_type sm =? SYNC_REQUEST).
    { right. unfold handle_sync_request.
      match goal with |- context [send_direct_message ?q ?m ?g] =>
        pose proof (sent_wf q m g (proj1 Hb)) as W' end.
      destruct (send_direct_message _ _ _) as [? [? g']]. eexists _, _. split; [done|].
      apply Hup. split; [done|apply Hb]. }
    destruct (sm_type sm =? SYNC_RESPONSE) eqn:T2; [apply Z.eqb_eq in T2|].
    { destruct (process_events_total (sm_events sm) 0 clock b Hc) as [Ho|[b' E]].
      - left. eapply message_overflows; eauto.
      - right. unfold handle_sync_response. rewrite E. eexists _, _. split; [done|].
        pose proof (process_events_comms n _ _ _ _ _ Hc Hb E) as Hb'.
        destruct (list.last _); [by apply peer_update_comms; [lia|]|by apply Hup]. }
    right. destruct (sm_type sm =? CHECKPOINT); (eexists _, _; split; [done|]);
      [by apply peer_update_comms; [lia|]|by apply Hup].
  - right. unfold sync_with_network. pose proof (ahead_few ep n b Hb) as Hl.
    destruct (ep <? _); [|eexists _, _; split; [done|by apply Hup]].
    destruct (ahead_of ep (peer_sync_states b)) as [|c cs] eqn:Ec;
      [eexists _, _; split; [done|by apply Hup]|]. rewrite <- Ec in *.
    assert (0 < len (ahead_of ep (peer_sync_states b))) as Hpos
      by (rewrite Ec, len_cons; pose proof (len_nonneg cs); lia).
    rewrite wrap_small by (unfold in_u; lia).
    pose proof (Hd 0%nat _ Hpos) as Hr.
    destruct (lookup_lt_is_Some_2 (ahead_of ep (peer_sync_states b))
      (Z.to_nat (u 0%nat (len (ahead_of ep (peer_sync_states b)))))) as [q ->];
      [unfold len in *; lia|].
    pose proof (request_sync_comms n q (u64 (ep + 1)) (max_peer_epoch ep (peer_sync_states b)) now b Hb)
      as Hr'.
    destruct (request_sync _ _ _ _ _) as [out b']. eexists _, _. split; [done|by apply Hup].
  - right. unfold validate_consistency.
    pose proof (request_mismatches_comms n ep (get_latest_hash (ledger b)) now
      (entries (peer_sync_states b)) b Hb) as Hr.
    destruct (request_mismatches _ _ _ _ _) as [out b']. eexists _, _. split; [done|by apply Hup].
  - right. eexists _, _. split; [done|]. apply Hup. split; [apply Hb|]. cbn.
    etransitivity; [|apply Hb]. apply inj_le, map_subseteq_size, map_filter_subseteq.
Qed.

Lemma step_overflow_undef b op : op_clock_ok op → op_overflows b op → bridge_step b op = Undef.
Proof.
  intros Hc Ho. destruct Ho as [source m clock now sm Em Ht Ho]. cbn [bridge_step op_clock_ok] in *.
  unfold handle_gossip_message. rewrite Em.
  destruct Ht as [-> | ->]; cbn; unfold handle_sync_response; by rewrite events_overflow_undef.
Qed.

Lemma run_overflow_undef ops b :
  Forall op_clock_ok ops → run_overflows ops b → bridge_run ops b = Undef.
Proof.
  intros Hc (before & op & after & out & b1 & -> & E & Ho). revert b out E.
  induction before as [|o before IH]; intros b out E; cbn [app bridge_run] in *;
    apply list.Forall_cons in Hc as [Hop Hc].
  - injection E as _ <-. by rewrite step_overflow_undef.
  - destruct (bridge_step b o) as [[o1 b2]| |]; cbn in *; [|done..].
    destruct (bridge_run before b2) as [[o2 b3]| |] eqn:E2; [|done..].
    injection E as _ <-. by rewrite (IH Hc b2 o2 E2).
Qed.

Lemma bridge_run_total ops n b :
  0 <= n → n + len ops < 2 ^ 32 → comms_ok n b → Forall op_clock_ok ops →
  Forall op_draws_ok ops → run_overflows ops b ∨ ∃ out b', bridge_run ops b = Ok (out, b').
Proof.
  intros Hn Hl Hb Hc. revert n b Hn Hl Hb.
  induction Hc as [|op ops Hop _ IH]; intros n b Hn Hl Hb Hd; [right; by eexists _, _|].
  apply list.Forall_cons in Hd as [Hd1 Hd]. rewrite len_cons in Hl. pose proof (len_nonneg ops).
  destruct (bridge_step_total n b op) as [Ho|(o & b1 & E & Hb1)]; [lia|done..| |].
  { left. by exists [], op, ops, [], b. }
  destruct (IH (n + 1) b1) as [(before & op' & after & out & b2 & -> & E2 & Ho)|(out & b' & E2)];
    [lia..|done|done| |].
  - left. exists (op :: before), op', after, (o ++ out), b2. split_and!; [done| |done].
    cbn [bridge_run]. rewrite E. cbn. by rewrite E2.
  - right. cbn [bridge_run]. rewrite E. cbn. rewrite E2. by eexists _, _.
Qed.

End bridge_ops.

(** ** Catching up *)

Section catch_up.
Context `{Crypto}.

(** Known events change nothing. *)
Lemma process_known es i clock b :
  (∀ j, sync_clock_ok (clock j)) → wf_ledger (ledger b) → es ⊆ events (ledger b) →
  process_events es i clock b = Ok b.
Proof.
  intros Hc W. revert i. induction es as [|e es IH]; intros i Hs; [done|]. cbn [process_events].
  rewrite process_received_event_eq by done. rewrite decide_False; [apply IH; set_solver|].
  intros (_ & _ & _ & _ & Hn). apply lookup_known in Hn; [|done]. apply Hn.
  apply list_elem_of_fmap. exists e. split; [done|]. apply Hs. set_solver.
Qed.

(** The next events of a well-formed ledger are all taken over. *)
Lemma process_next s0 es2 i clock b es s :
  (∀ j, sync_clock_ok (clock j)) → bridge_ok s0 b →
  events (ledger b) ++ es2 = es → linked (zeros 32) es → NoDup (event_id <$> es) →
  Forall (λ e, source_node e ≠ zeros 32) es2 →
  (∀ e j, e ∈ es2 → timestamp e <= at_timestamp (clock j) + MAX_FUTURE_SKEW_SECONDS) →
  apply_events es s0 = Ok s →
  ∃ b', process_events es2 i clock b = Ok b' ∧ events (ledger b') = es ∧ state_manager b' = s ∧
        bridge_ok s0 b'.
Proof.
  intros Hc. revert i b. induction es2 as [|e es2 IH]; intros i b Hb He Hlk Hnd Hsrc Ht Ha.
  { rewrite app_nil_r in He. exists b. split_and!; [done..| |done].
    pose proof (br_view s0 b Hb) as V. rewrite He in V. congruence. }
  apply list.Forall_cons in Hsrc as [Hs1 Hsrc].
  assert (Hadm : admissible e (clock i) b).
  { rewrite <- He in Hlk, Hnd. rewrite fmap_app in Hnd.
    apply list.NoDup_app in Hnd as (_ & Hdis & _).
    apply linked_app in Hlk as [_ [Hp _]].
    assert (event_id e ∉ event_id <$> events (ledger b)) as Hnew.
    { intros Hin. apply (Hdis _ Hin). set_solver. }
    split_and!; [by intros ?%(br_seen s0 b Hb)|done|apply Ht; set_solver|done|].
    by apply lookup_known; [apply Hb|]. }
  assert (∃ s1, apply_event e (state_manager b) = Ok s1) as [s1 Es].
  { rewrite <- He, apply_events_app, (br_view s0 b Hb) in Ha. cbn in Ha.
    destruct (apply_event e (state_manager b)) as [s1| |]; [eauto|done..]. }
  cbn [process_events]. rewrite process_received_event_eq by done. rewrite decide_True by done.
  rewrite Es. cbn [mbind outcome_bind].
  apply (IH (S i) (accepted (event_id e) (append_event e (ledger b)) s1 b)); try done.
  - by eapply bridge_ok_accept.
  - cbn. by rewrite <- app_assoc.
  - intros e' j Hin. apply Ht. set_solver.
Qed.

Lemma process_app es1 es2 i clock b b1 :
  process_events es1 i clock b = Ok b1 →
  process_events (es1 ++ es2) i clock b = process_events es2 (i + length es1) clock b1.
Proof.
  revert i b. induction es1 as [|e es1 IH]; intros i b; cbn [process_events app length].
  - intros [= ->]. by rewrite Nat.add_0_r.
  - destruct (process_received_event e (clock i) b) as [b2| |]; [|done..]. cbn. intros E.
    rewrite (IH (S i) b2 E). by replace (S i + length es1)%nat with (i + S (length es1))%nat by lia.
Qed.

Lemma sync_roundtrip m tail :
  sync_encodable m → sm_events m ≠ [] → vector_fits (sync_serialize m ++ tail) →
  sync_deserialize (sync_serialize m ++ tail) = Some m.
Proof.
  intros Hm Hne Hv. unfold sync_deserialize.
  rewrite (reads_run_app (sync_reader 64) m); [done| |done].
  apply reads_min; [|by apply reads_sync]. rewrite len_sync.
  pose proof (frames_long (sm_events m) Hne). lia.
Qed.

(** A message without events is shorter than the minimum. *)
Lemma sync_without_events m : sm_events m = [] → sync_deserialize (sync_serialize m) = None.
Proof.
  intros Hm. unfold sync_deserialize, sync_reader. rewrite run_min, len_sync, Hm.
  reflexivity.
Qed.

(** What a bridge does with a message without events. *)
Lemma ignored_without_events m source id t clock now b :
  sm_events m = [] →
  handle_gossip_message source (sync_envelope id (sync_serialize m) t) clock now b = Ok ([], b).
Proof.
  intros Hm. unfold handle_gossip_message. cbn [payload sync_envelope].
  by rewrite sync_without_events.
Qed.

Lemma sent_direct q m r m' g : Send r m' ∈ (send_direct_message q m g).2.1 → r = q ∧ m' = m.
Proof.
  unfold send_direct_message, send_to_peer. destruct (send_callback g); cbn; [|set_solver].
  intros [[= -> ->]|Hn]%elem_of_cons; [done|by apply elem_of_nil in Hn].
Qed.

Lemma sent_broadcast m now u g out g' r m' :
  broadcast_message m now u g = Ok (out, g') → Send r m' ∈ out → m' = m.
Proof.
  unfold broadcast_message. destruct (mark_as_seen _ _ _) as [g1| |]; [|done..]. cbn.
  destruct (get_random_peers _ _ _) as [fw| |]; [|done..]. cbn.
  pose proof (send_all_actions fw m g1) as Ha. destruct (send_all fw m g1) as [o g2].
  cbn in Ha. intros [= <- _]. rewrite Ha. destruct (send_callback g1); [|set_solver].
  intros (q & [= _ ->] & _)%list_elem_of_fmap. done.
Qed.

End catch_up.

(** ** Properties *)

(** C9: whatever messages, broadcasts, requests and maintenance passes a bridge goes
    through, its ledger stays well formed and only grows, and its state view stays the
    fold of exactly the events of the ledger. This takes clocks that do not go back
    while one event is checked. The one way for a run to stop is a received event that
    is admitted and whose application takes a reputation score out of the 32-bit
    range, which is undefined behaviour: with random draws below their bounds, a
    well-formed gossip protocol and fewer than 2^32 recorded peers, a run is undefined
    exactly when it meets such an event, and every other run is defined. *)
Theorem bridge_keeps_view `{Crypto} s0 b ops :
  Forall op_clock_ok ops → bridge_ok s0 b →
  (∀ out b', bridge_run ops b = Ok (out, b') →
     bridge_ok s0 b' ∧ ∃ new, events (ledger b') = events (ledger b) ++ new) ∧
  (Forall op_draws_ok ops → gossip_wf (gossip b) →
   Z.of_nat (size (peer_sync_states b)) + len ops < 2 ^ 32 →
     (bridge_run ops b = Undef ↔ run_overflows ops b) ∧
     (run_overflows ops b ∨ ∃ out b', bridge_run ops b = Ok (out, b'))).
Proof.
  intros Hc Hb. split; [intros out b'; by apply bridge_run_ok|]. intros Hd W Hs.
  pose proof (bridge_run_total ops _ b (Nat2Z.is_nonneg (size (peer_sync_states b))) Hs) as Ht.
  specialize (Ht (conj W (Z.le_refl _)) Hc Hd). split; [|done].
  split; [|by apply run_overflow_undef]. intros E. destruct Ht as [|(? & ? & ?)]; [done|congruence].
Qed.

(** An event from the network enters ledger and view exactly when it is admissible. *)
Theorem received_event_admission `{Crypto} e rd b :
  sync_clock_ok rd →
  process_received_event e rd b =
  if decide (admissible e rd b) then
    s ← apply_event e (state_manager b);
    mret (accepted (event_id e) (append_event e (ledger b)) s b)
  else Ok b.
Proof. apply process_received_event_eq. Qed.

(** C3: take two nodes that keep the invariant of a bridge from the same starting
    view. If the ledger of one is a proper prefix of the ledger of the other, and it
    receives the answer of the other to a request for a suffix, it ends with exactly
    the events of the other and with the very state view the other holds. *)
Theorem sync_exchange_converges `{Crypto} s0 a b es2 k first last peer t source clock now :
  bridge_ok s0 a → bridge_ok s0 b →
  events (ledger a) = events (ledger b) ++ es2 → es2 ≠ [] →
  events_in_range first last (events (ledger a)) = drop k (events (ledger a)) →
  (k <= length (events (ledger b)))%nat →
  sync_encodable (sync_response first last (ledger a)) →
  vector_fits (sync_serialize (sync_response first last (ledger a))) →
  (∀ j, sync_clock_ok (clock j)) → Forall (λ e, source_node e ≠ zeros 32) es2 →
  (∀ e j, e ∈ es2 → timestamp e <= at_timestamp (clock j) + MAX_FUTURE_SKEW_SECONDS) →
  ∀ q m, Send q m ∈ (handle_sync_request peer first last t a).1 →
  q = peer ∧ ∃ b', handle_gossip_message source m clock now b = Ok ([], b') ∧
    events (ledger b') = events (ledger a) ∧ state_manager b' = state_manager a ∧ bridge_ok s0 b'.
Proof.
  intros [Wa _ Ha _] Hb He Hne Hr Hk Henc Hfit Hc Hsrc Ht q m Hin.
  assert (q = peer ∧ payload m = sync_serialize (sync_response first last (ledger a))) as [-> Hp].
  { unfold handle_sync_request in Hin.
    pose proof (sent_direct peer (sync_envelope (blake3 (sync_serialize
      (sync_response first last (ledger a)))) (sync_serialize
      (sync_response first last (ledger a))) t) q m (gossip a)) as Hsd.
    destruct (send_direct_message _ _ _) as [? [out g]]. by destruct (Hsd Hin) as [-> ->]. }
  split; [done|]. unfold handle_gossip_message. rewrite Hp.
  assert (Hes : sm_events (sync_response first last (ledger a)) =
    drop k (events (ledger b)) ++ es2).
  { change (events_in_range first last (events (ledger a)) = drop k (events (ledger b)) ++ es2).
    by rewrite Hr, He, drop_app_le. }
  pose proof (sync_roundtrip (sync_response first last (ledger a)) []) as Hrt.
  rewrite app_nil_r in Hrt. rewrite Hrt; [|done| |done].
  2: { rewrite Hes. by intros [_ ?]%app_eq_nil. }
  change (_ =? EVENT_BROADCAST) with false. change (_ =? SYNC_REQUEST) with false.
  change (_ =? SYNC_RESPONSE) with true. cbn [negb]. rewrite Hes. unfold handle_sync_response.
  erewrite process_app by
    (apply process_known; [done|apply Hb|by apply subseteq_drop]).
  destruct (process_next s0 es2 (0 + length (drop k (events (ledger b)))) clock b
    (events (ledger a)) (state_manager a)) as (b1 & -> & He1 & Hs1 & Hb1); try done.
  { apply Wa. } { apply Wa. }
  cbn. eexists. split; [done|].
  destruct (list.last _); [|done]. split; [done|]. split; [done|].
  by apply (bridge_ok_same s0 b1).
Qed.

(** Checkpoints and requests carry no events, so every receiver refuses them; no peer state is
    ever recorded. *)
Lemma control_messages_dropped `{Crypto} a :
  let ignored m := ∀ source clock now b, handle_gossip_message source m clock now b = Ok ([], b) in
  (∀ ep now u out a' q m, broadcast_checkpoint ep now u a = Ok (out, a') → Send q m ∈ out →
     ignored m) ∧
  (∀ peer first last now q m, Send q m ∈ (request_sync peer first last now a).1 → ignored m) ∧
  (peer_sync_states a = ∅ →
     ∀ ep now u, sync_with_network ep now u a = Ok ([], a) ∧ is_synced ep a = false).
Proof.
  split_and!.
  - intros ep now u out a' q m E Hin. unfold broadcast_checkpoint in E.
    destruct (broadcast_message _ _ _ _) as [[o g]| |] eqn:Eb; [|done..].
    injection E as -> _. rewrite (sent_broadcast _ _ _ _ _ _ _ _ Eb Hin).
    intros source clock now' c. by apply ignored_without_events.
  - intros peer first last now q m Hin. unfold request_sync in Hin.
    match type of Hin with context [send_direct_message peer ?x ?g] =>
      pose proof (sent_direct peer x q m g) as Hsd end.
    destruct (send_direct_message _ _ _) as [? [out g]]. destruct (Hsd Hin) as [_ ->].
    intros source clock now' c. by apply ignored_without_events.
  - intros Hp ep now u. unfold sync_with_network, is_synced, max_peer_epoch. rewrite Hp.
    split; [|done]. cbn. by rewrite Z.ltb_irrefl.
Qed.

(** C37: a synchronisation message with events is read back from its bytes and no
    input is read out of bounds, but every message without events is refused for its
    size; so checkpoints and sync requests are ignored by every receiver, and without
    recorded peers a node neither requests anything nor counts as synchronised. *)
Theorem sync_message_codec `{Crypto} :
  (∀ m tail, sync_encodable m → sm_events m ≠ [] → vector_fits (sync_serialize m ++ tail) →
     sync_deserialize (sync_serialize m ++ tail) = Some m) ∧
  (∀ d, vector_fits d → run_reader (sync_reader 64) d ≠ Undef) ∧
  (∀ m, sm_events m = [] → sync_deserialize (sync_serialize m) = None) ∧
  (∀ a, let ignored m := ∀ source clock now b,
          handle_gossip_message source m clock now b = Ok ([], b) in
     (∀ ep now u out a' q m, broadcast_checkpoint ep now u a = Ok (out, a') →
        Send q m ∈ out → ignored m) ∧
     (∀ peer first last now q m, Send q m ∈ (request_sync peer first last now a).1 →
        ignored m) ∧
     (peer_sync_states a = ∅ →
        ∀ ep now u, sync_with_network ep now u a = Ok ([], a) ∧ is_synced ep a = false)).
Proof.
  split_and!; [intros; by apply sync_roundtrip| |intros; by apply sync_without_events
              |apply control_messages_dropped].
  intros d Hd. by apply (safe_min_run 64 57 (sync_fields 64) (λ _, True)); [apply safe_sync|].
Qed.

(** *** Two nodes: one with two events, one that has only the first. *)

Definition ahead_state : StateManager :=
  default empty_state (to_optional (apply_events (events sample_ledger) empty_state)).

Definition ahead_bridge : LedgerGossipBridge :=
  new_bridge sample_ledger ahead_state
    (set_send_callback (λ _ _, true) (new_gossip sample_local)).

Definition behind_ledger : Ledger :=
  @step toy_crypto (new_ledger (sample_node 2))
    (Add_external (default sample_event (events sample_ledger !! 0%nat)) 1700000100
       (readings_at 1700000100)).

Definition behind_state : StateManager :=
  default empty_state (to_optional (apply_events (events behind_ledger) empty_state)).

Definition behind_bridge : LedgerGossipBridge :=
  new_bridge behind_ledger behind_state (new_gossip (sample_node 2)).

Definition sync_clock (j : nat) : SyncReadings :=
  MkSyncReadings 1700000100 1700000100 1700000100 1700000100 (readings_at 1700000100).

Lemma sync_clock_fine j : sync_clock_ok (sync_clock j).
Proof. split; [discriminate|]. repeat constructor; discriminate. Qed.

Lemma behind_ok : @bridge_ok toy_crypto empty_state behind_bridge.
Proof.
  destruct (@wf_new toy_crypto (sample_node 2)) as [W T].
  destruct (@wf_step toy_crypto (new_ledger (sample_node 2))
    (Add_external (default sample_event (events sample_ledger !! 0%nat)) 1700000100
       (readings_at 1700000100)) W) as [W' T'].
  split; [exact W'|exact (T' T)|vm_compute; reflexivity|]. intros id Hin. by vm_compute in Hin.
Qed.

Lemma ahead_ok : @bridge_ok toy_crypto empty_state ahead_bridge.
Proof.
  split; [exact (proj1 sample_ledger_wf)|exact (proj2 sample_ledger_wf)|vm_compute; reflexivity|].
  intros id Hin. by vm_compute in Hin.
Qed.

(** The response the node that is ahead sends. *)
Definition sample_response : GossipMessage :=
  sync_envelope
    (@blake3 toy_crypto (sync_serialize (sync_response 0 (2 ^ 64 - 1) sample_ledger)))
    (sync_serialize (sync_response 0 (2 ^ 64 - 1) sample_ledger)) 7.

(** *** A node whose view already holds the largest reputation of a node. *)

Definition full_state : StateManager :=
  default empty_state (to_optional (apply_event overflow_event empty_state)).

Definition full_bridge : LedgerGossipBridge :=
  new_bridge (new_ledger (sample_node 2)) full_state (new_gossip (sample_node 2)).

Lemma full_ok : @bridge_ok toy_crypto full_state full_bridge.
Proof.
  destruct (@wf_new toy_crypto (sample_node 2)) as [W T].
  split; [exact W|exact T|reflexivity|]. intros id Hin. by apply elem_of_empty in Hin.
Qed.

(** Praise for the same node, in a broadcast. *)
Definition praise : GossipMessage :=
  sync_envelope (zeros 32)
    (sync_serialize (MkLedgerSyncMessage EVENT_BROADCAST [overflow_event] 0 0 (zeros 32))) 7.

Definition sample_sync : LedgerSyncMessage :=
  MkLedgerSyncMessage EVENT_BROADCAST [sample_event] 3 3 (zeros 32).

Lemma sample_sync_encodable : sync_encodable sample_sync.
Proof.
  split; [split; [discriminate|reflexivity]|]. do 3 (split; [split; [discriminate|reflexivity]|]).
  repeat constructor; try discriminate; vm_compute; reflexivity.
Qed.

Lemma sync_message_codec_witness :
  sync_deserialize (sync_serialize sample_sync ++ []) = Some sample_sync ∧
  ∃ m, sm_events m = [] ∧ sync_deserialize (sync_serialize m) = None.
Proof.
  split.
  - refine (proj1 (@sync_message_codec toy_crypto) sample_sync [] sample_sync_encodable _ _).
    + discriminate.
    + vm_compute. reflexivity.
  - exists (MkLedgerSyncMessage SYNC_REQUEST [] 1 2 (zeros 32)).
    split; [reflexivity|]. apply (proj1 (proj2 (proj2 (@sync_message_codec toy_crypto)))).
    reflexivity.
Defined.

(** The node behind receives the answer, which adds an event, and asks for more; the node
    with the largest reputation in its view receives praise. *)
Lemma bridge_keeps_view_witness :
  let ops := [Handle_message sample_local sample_response sync_clock 1700000100;
              Request_sync (sample_node 1) 1 2 3] in
  (∃ out b', @bridge_run toy_crypto ops behind_bridge = Ok (out, b') ∧
    @bridge_ok toy_crypto empty_state b' ∧
    length (events (ledger b')) = S (length (events (ledger behind_bridge)))) ∧
  @run_overflows toy_crypto [Handle_message sample_local praise sync_clock 7] full_bridge.
Proof.
  intros ops. split.
  - destruct (@bridge_keeps_view toy_crypto empty_state behind_bridge ops) as [H _];
      [repeat constructor; try discriminate|exact behind_ok|].
    assert (Hl : match @bridge_run toy_crypto ops behind_bridge with
                 | Ok (_, b') => length (events (ledger b')) = S (length (events (ledger behind_bridge)))
                 | _ => False
                 end) by (vm_compute; reflexivity).
    destruct (@bridge_run toy_crypto ops behind_bridge) as [[out b']| |]; [|destruct Hl..].
    exists out, b'. split; [reflexivity|]. split; [exact (proj1 (H out b' eq_refl))|exact Hl].
  - destruct (@bridge_keeps_view toy_crypto full_state full_bridge
      [Handle_message sample_local praise sync_clock 7]) as [_ H];
      [repeat constructor; try discriminate|exact full_ok|].
    apply H; [repeat constructor| |vm_compute; reflexivity|vm_compute; reflexivity].
    split; vm_compute; try done. constructor.
Defined.

Lemma received_event_admission_witness :
  @process_received_event toy_crypto sample_event (sync_clock 0) behind_bridge = Ok behind_bridge.
Proof.
  rewrite (@received_event_admission toy_crypto sample_event (sync_clock 0) behind_bridge
    (sync_clock_fine 0)).
  vm_compute. reflexivity.
Defined.

Lemma sync_exchange_converges_witness :
  ∃ b', @handle_gossip_message toy_crypto sample_local sample_response sync_clock 1700000100
          behind_bridge = Ok ([], b') ∧ events (ledger b') = events sample_ledger ∧
          state_manager b' = state_manager ahead_bridge.
Proof.
  destruct (@sync_exchange_converges toy_crypto empty_state ahead_bridge behind_bridge
    (drop 1 (events sample_ledger)) 0 0 (2 ^ 64 - 1) (sample_node 2) 7 sample_local sync_clock
    1700000100) with (q := sample_node 2) (m := sample_response) as (_ & b' & E & He & Hs & _).
  - exact ahead_ok.
  - exact behind_ok.
  - vm_compute. reflexivity.
  - vm_compute. discriminate.
  - vm_compute. reflexivity.
  - vm_compute. repeat constructor.
  - split; [split; [discriminate|reflexivity]|].
    do 3 (split; [split; [vm_compute; discriminate|vm_compute; reflexivity]|]).
    apply (bool_decide_eq_true_1 (Forall storable _)). vm_compute. reflexivity.
  - vm_compute. reflexivity.
  - exact sync_clock_fine.
  - apply (bool_decide_eq_true_1 (Forall (λ e, source_node e ≠ zeros 32) _)).
    vm_compute. reflexivity.
  - intros e j Hin. revert e Hin. apply (proj1 (list.Forall_forall
      (λ e, timestamp e <= 1700000100 + MAX_FUTURE_SKEW_SECONDS) (drop 1 (events sample_ledger)))).
    apply (bool_decide_eq_true_1 _). vm_compute. reflexivity.
  - apply elem_of_cons. left. reflexivity.
  - exists b'. split; [exact E|]. split; [exact He|exact Hs].
Defined.
