(* ===== verification/Reconcile.v ===== *)
(** Reconciliation of divergent ledgers: [StateReconciliation] of
    src/network/state_reconciliation.hpp and state_reconciliation.cpp.

    The object holds references to a ledger and a state manager, here fields of
    its record.  The members of [MergeResult] that a function leaves
    uninitialised are [None]; adding to one is undefined, copying the record is
    not.  The clock is read once per operation. *)

From Stdlib Require Import Strings.Byte.
From S2P Require Import Prelude Reader Common Crypto Key Event Ledger State Gossip LedgerSync.

(** ** Data *)

Inductive ConflictType :=
  | HASH_MISMATCH | EPOCH_FORK | MISSING_EVENTS | DUPLICATE_EVENTS | TIMESTAMP_ANOMALY.

#[export] Instance ConflictType_eq_dec : EqDecision ConflictType.
Proof. solve_decision. Defined.

Record StateConflict := MkStateConflict {
  cf_type : ConflictType;
  cf_epoch : Z;
  local_hash : Hash256;
  remote_hash : Hash256;
  local_events : list LedgerEvent;
  remote_events : list LedgerEvent;
  (** [None] where the code does not assign it *)
  cf_peer_id : option NodeID;
  detected_at : Z;
  description : bytes
}.

Inductive MergeStrategy :=
  | PREFER_LOCAL | PREFER_REMOTE | MERGE_BOTH | HIGHEST_WORK | QUORUM_CONSENSUS | MANUAL_REVIEW.

Record MergeResult := MkMergeResult {
  success : bool;
  strategy_used : option MergeStrategy;
  events_added : option Z;
  events_removed : option Z;
  conflicts_resolved : option Z;
  final_hash : option Hash256;
  final_epoch : option Z;
  error_message : bytes;
  unresolved_conflicts : list StateConflict
}.

Record StateReconciliation := MkStateReconciliation {
  rc_ledger : Ledger;
  rc_state : StateManager;
  conflicts_detected : Z;
  rc_resolved : Z;
  reconciliations : Z
}.

Definition new_reconciliation (l : Ledger) (s : StateManager) : StateReconciliation :=
  MkStateReconciliation l s 0 0 0.

(** [total += n], where both may be indeterminate. *)
Definition add_counts (total n : option Z) : outcome (option Z) :=
  match total, n with
  | Some t, Some n => Ok (Some (u64 (t + n)))
  | _, _ => Undef
  end.

Section ops.
Context `{Crypto}.

(** ** Comparing *)

Definition compute_state_hash (es : list LedgerEvent) (ep : Z) : Hash256 :=
  blake3 (le_bytes 8 ep ++ mjoin (event_to_bytes <$> es)).

Definition calculate_proof_of_work (es : list LedgerEvent) : Z :=
  foldl (λ work e, if decide (event_type e = KEY_ISSUED) then u32 (work + 1) else work) 0 es.

Definition classify_conflict (ours theirs : Hash256) (mine remote : list LedgerEvent) (now : Z) :
    ConflictType :=
  if decide (ours = theirs) then HASH_MISMATCH
  else if negb (len mine =? len remote) then MISSING_EVENTS
  else if existsb (λ e, u64 (now + 300) <? timestamp e) remote then TIMESTAMP_ANOMALY
  else HASH_MISMATCH.

Definition choose_strategy (c : StateConflict) : MergeStrategy :=
  match cf_type c with
  | HASH_MISMATCH => HIGHEST_WORK
  | MISSING_EVENTS => MERGE_BOTH
  | TIMESTAMP_ANOMALY => PREFER_LOCAL
  | EPOCH_FORK => MANUAL_REVIEW
  | DUPLICATE_EVENTS => HIGHEST_WORK
  end.

Definition detect_conflict (peer : NodeID) (ep : Z) (peer_hash : Hash256)
    (peer_events : list LedgerEvent) (now : Z) (r : StateReconciliation) :
    option StateConflict * StateReconciliation :=
  let ours := get_latest_hash (rc_ledger r) in
  if negb (current_epoch now =? ep) then (None, r)
  else if bool_decide (ours = peer_hash) then (None, r)
  else
    let mine := get_all_events (rc_ledger r) in
    (Some (MkStateConflict (classify_conflict ours peer_hash mine peer_events now) ep ours
             peer_hash mine peer_events (Some peer) now (str "Ledger state divergence detected")),
     MkStateReconciliation (rc_ledger r) (rc_state r) (u64 (conflicts_detected r + 1))
       (rc_resolved r) (reconciliations r)).

(** The loop of [detect_all_conflicts] over the map of peers. *)
Fixpoint detect_each (ep now : Z) (ps : list (NodeID * (Hash256 * list LedgerEvent)))
    (r : StateReconciliation) : list StateConflict * StateReconciliation :=
  match ps with
  | [] => ([], r)
  | (peer, (hash, es)) :: ps =>
      let '(c, r) := detect_conflict peer ep hash es now r in
      let '(cs, r) := detect_each ep now ps r in
      (match c with Some c => c :: cs | None => cs end, r)
  end.

Definition detect_all_conflicts (ps : gmap NodeID (Hash256 * list LedgerEvent)) (now : Z)
    (r : StateReconciliation) : list StateConflict * StateReconciliation :=
  detect_each (current_epoch now) now (entries ps) r.

Definition verify_consistency (expected : Hash256) (ep now : Z) (r : StateReconciliation) : bool :=
  if negb (current_epoch now =? ep) then false
  else bool_decide (get_latest_hash (rc_ledger r) = expected).

Definition find_missing_events (remote : list LedgerEvent) (r : StateReconciliation) :
    list LedgerEvent :=
  let local_event_ids : gset Hash256 :=
    list_to_set (event_id <$> get_all_events (rc_ledger r)) in
  filter (λ e, event_id e ∉ local_event_ids) remote.

(** ** Merging *)

(** The loop over the missing events. *)
Fixpoint merge_events (missing : list LedgerEvent) (now : Z) (all_applied : bool)
    (l : Ledger) (s : StateManager) : outcome (bool * (Ledger * StateManager)) :=
  match missing with
  | [] => Ok (all_applied, (l, s))
  | e :: missing =>
      let '(added, l) := add_external_event e now (MkReadings now now now now) l in
      if added then
        s ← apply_event e s;
        merge_events missing now all_applied l s
      else merge_events missing now false l s
  end.

Definition apply_merge_both (c : StateConflict) (now : Z) (r : StateReconciliation) :
    outcome (bool * StateReconciliation) :=
  '(ok, (l, s)) ← merge_events (find_missing_events (remote_events c) r) now true
                    (rc_ledger r) (rc_state r);
  mret (ok, MkStateReconciliation l s (conflicts_detected r) (rc_resolved r) (reconciliations r)).

Definition apply_local_preference (c : StateConflict) : bool := true.

Definition apply_remote_preference (c : StateConflict) (now : Z) (r : StateReconciliation) :
    outcome (bool * StateReconciliation) :=
  '(ok, r) ← apply_merge_both c now r;
  mret (if ok : bool then bool_decide (get_latest_hash (rc_ledger r) = remote_hash c) else false, r).

Definition apply_highest_work (c : StateConflict) (now : Z) (r : StateReconciliation) :
    outcome (bool * StateReconciliation) :=
  if calculate_proof_of_work (local_events c) <? calculate_proof_of_work (remote_events c)
  then apply_remote_preference c now r
  else Ok (apply_local_preference c, r).

(** The [switch]; the text is the error message. *)
Definition run_strategy (c : StateConflict) (strategy : MergeStrategy) (now : Z)
    (r : StateReconciliation) : outcome (bool * bytes * list StateConflict * StateReconciliation) :=
  match strategy with
  | PREFER_LOCAL => Ok (apply_local_preference c, [], [], r)
  | PREFER_REMOTE => '(ok, r) ← apply_remote_preference c now r; mret (ok, [], [], r)
  | MERGE_BOTH => '(ok, r) ← apply_merge_both c now r; mret (ok, [], [], r)
  | HIGHEST_WORK => '(ok, r) ← apply_highest_work c now r; mret (ok, [], [], r)
  | QUORUM_CONSENSUS => Ok (false, str "Quorum consensus requires multiple peers", [], r)
  | MANUAL_REVIEW => Ok (false, str "Manual review required", [c], r)
  end.

(** Nothing in the [try] block throws. *)
Definition resolve_conflict (c : StateConflict) (strategy : MergeStrategy) (now : Z)
    (r : StateReconciliation) : outcome (MergeResult * StateReconciliation) :=
  '(ok, message, unresolved, r) ← run_strategy c strategy now r;
  mret
    (if ok : bool then
       (MkMergeResult true (Some strategy) None None (Some 1)
          (Some (get_latest_hash (rc_ledger r))) (Some (current_epoch now)) message unresolved,
        MkStateReconciliation (rc_ledger r) (rc_state r) (conflicts_detected r)
          (u64 (rc_resolved r + 1)) (reconciliations r))
     else
       (MkMergeResult false (Some strategy) None None None None None message unresolved, r)).

(** The loop of [resolve_all_conflicts]. *)
Fixpoint resolve_each (cs : list StateConflict) (now : Z) (total : MergeResult)
    (r : StateReconciliation) : outcome (MergeResult * StateReconciliation) :=
  match cs with
  | [] => Ok (total, r)
  | c :: cs =>
      '(res, r) ← resolve_conflict c (choose_strategy c) now r;
      added ← add_counts (events_added total) (events_added res);
      removed ← add_counts (events_removed total) (events_removed res);
      resolved ← add_counts (conflicts_resolved total) (conflicts_resolved res);
      resolve_each cs now
        (MkMergeResult (if success res then success total else false) (strategy_used total)
           added removed resolved (final_hash total) (final_epoch total) (error_message total)
           (unresolved_conflicts total ++ if success res then [] else [c])) r
  end.

Definition resolve_all_conflicts (cs : list StateConflict) (now : Z) (r : StateReconciliation) :
    outcome (MergeResult * StateReconciliation) :=
  '(total, r) ← resolve_each cs now
                  (MkMergeResult true None None None (Some 0) None None [] []) r;
  mret
    (if success total then
       MkMergeResult true (strategy_used total) (events_added total) (events_removed total)
         (conflicts_resolved total) (Some (get_latest_hash (rc_ledger r)))
         (Some (current_epoch now)) (error_message total) (unresolved_conflicts total)
     else total, r).

Definition auto_reconcile_with_peer (peer : NodeID) (peer_events : list LedgerEvent) (now : Z)
    (r : StateReconciliation) : outcome (MergeResult * StateReconciliation) :=
  let r := MkStateReconciliation (rc_ledger r) (rc_state r) (conflicts_detected r)
             (rc_resolved r) (u64 (reconciliations r + 1)) in
  let peer_hash := compute_state_hash peer_events (current_epoch now) in
  match detect_conflict peer (current_epoch now) peer_hash peer_events now r with
  | (None, r) =>
      Ok (MkMergeResult true (Some PREFER_LOCAL) None None None
            (Some (get_latest_hash (rc_ledger r))) (Some (current_epoch now)) [] [], r)
  | (Some c, r) => resolve_conflict c (choose_strategy c) now r
  end.

(** ** Quorum *)

(** The two maps of [reconcile_with_quorum]. *)
Definition count_vote (ep : Z) (acc : gmap Hash256 Z * gmap Hash256 (list LedgerEvent))
    (p : NodeID * list LedgerEvent) : gmap Hash256 Z * gmap Hash256 (list LedgerEvent) :=
  let hash := compute_state_hash p.2 ep in
  (<[hash := u32 (at_or 0 hash acc.1 + 1)]> acc.1,
   match acc.2 !! hash with Some _ => acc.2 | None => <[hash := p.2]> acc.2 end).

Definition count_votes (ep : Z) (ps : gmap NodeID (list LedgerEvent)) :
    gmap Hash256 Z * gmap Hash256 (list LedgerEvent) :=
  foldl (count_vote ep) (∅, ∅) (entries ps).

(** The most popular hash and its votes; none is assigned without votes. *)
Definition most_popular (votes : gmap Hash256 Z) : Z * option Hash256 :=
  foldl (λ best p, if best.1 <? p.2 then (p.2, Some p.1) else best) (0, None) (entries votes).

Definition reconcile_with_quorum (ps : gmap NodeID (list LedgerEvent)) (now : Z)
    (r : StateReconciliation) : outcome (MergeResult * StateReconciliation) :=
  let ep := current_epoch now in
  let '(votes, hash_to_events) := count_votes ep ps in
  let '(max_votes, best) := most_popular votes in
  if max_votes <? Z.of_nat (size ps) / 2 then
    Ok (MkMergeResult false None None None None None None (str "No quorum consensus reached") [], r)
  else
    match best with
    | None => Undef
    | Some quorum_hash =>
        let ours := get_latest_hash (rc_ledger r) in
        if bool_decide (ours = quorum_hash) then
          Ok (MkMergeResult true (Some QUORUM_CONSENSUS) (Some 0) (Some 0) (Some 0)
                (Some ours) (Some ep) [] [], r)
        else
          resolve_conflict
            (MkStateConflict HASH_MISMATCH ep ours quorum_hash []
               (at_or [] quorum_hash hash_to_events) None now
               (str "Local state differs from quorum consensus"))
            PREFER_REMOTE now r
    end.

End ops.

(** ** Merging keeps ledger and view in step *)

Section merging.
Context `{Crypto}.

(** The second that all checks of one operation see. *)
Definition now_ok (now : Z) : Prop := 0 <= now ∧ now + 300 < 2 ^ 64.

Lemma now_skew now : now_ok now → u64 (now + MAX_FUTURE_SKEW_SECONDS) = now + 300.
Proof. intros [? ?]. apply wrap_small. unfold in_u, MAX_FUTURE_SKEW_SECONDS. lia. Qed.

Lemma add_external_once e now l :
  now_ok now → events l ≠ [] →
  add_external_event e now (MkReadings now now now now) l =
  if decide (event_lookup l !! event_id e = None ∧ previous_hash e = tip (events l) ∧
             timestamp e <= now + 300)
  then (true, append_event e l) else (false, l).
Proof.
  intros Hn Hne. unfold add_external_event.
  pose proof (verify_event_chain_spec e now l) as V. rewrite now_skew in V by done.
  destruct (verify_event_chain e now l) eqn:E.
  - destruct (proj1 V eq_refl) as [Hp Ht].
    destruct (event_lookup l !! event_id e) eqn:El; [by rewrite decide_False by naive_solver|].
    rewrite decide_True by auto. unfold add_event.
    rewrite (proj2 (verify_event_spec e _ l)); [done|].
    split_and!; [done|done|cbn; rewrite now_skew by done; auto|cbn; rewrite now_skew by done; auto].
  - rewrite decide_False; [done|]. intros (_ & Hp & Ht).
    assert (false = true) by (apply V; auto). done.
Qed.

Record view_ok (s0 : StateManager) (l : Ledger) (s : StateManager) : Prop := {
  vo_ledger : wf_ledger l;
  vo_tip : tip_ok l;
  vo_view : apply_events (events l) s0 = Ok s
}.

Lemma merge_events_ok s0 missing now all l s ok l' s' :
  now_ok now → events l ≠ [] → view_ok s0 l s →
  merge_events missing now all l s = Ok (ok, (l', s')) →
  view_ok s0 l' s' ∧ ∃ new, events l' = events l ++ new ∧ new ⊆ missing.
Proof.
  intros Hn. revert all l s. induction missing as [|e missing IH]; intros all l s Hne Hv.
  { intros [= -> -> ->]. split; [done|]. exists []. by rewrite app_nil_r. }
  cbn [merge_events]. rewrite add_external_once by done. case_decide as Hd.
  - destruct Hd as (Hl & Hp & _). destruct (apply_event e s) as [s1| |] eqn:Es; [|done..]. cbn.
    destruct Hv as [W T V]. destruct (wf_append e l W Hl Hp) as [W' T']. intros Hm.
    destruct (IH all (append_event e l) s1) as (Hv' & new & He & Hs); [by intros [_ ?]%app_eq_nil| |done|].
    { split; [done|done|]. by eapply apply_events_snoc. }
    split; [done|]. exists (e :: new). cbn in He. rewrite He, <- app_assoc. split; [done|set_solver].
  - intros Hm. destruct (IH false l s Hne Hv Hm) as (Hv' & new & He & Hs).
    split; [done|]. exists new. split; [done|set_solver].
Qed.

(** The events of [r'] extend those of [r], and the view follows. *)
Definition kept (s0 : StateManager) (r r' : StateReconciliation) : Prop :=
  view_ok s0 (rc_ledger r') (rc_state r') ∧
  ∃ new, events (rc_ledger r') = events (rc_ledger r) ++ new.

Lemma kept_same s0 r r' :
  view_ok s0 (rc_ledger r) (rc_state r) → rc_ledger r' = rc_ledger r →
  rc_state r' = rc_state r → kept s0 r r'.
Proof.
  intros Hv Hl Hs. unfold kept. rewrite Hl, Hs. split; [done|]. exists []. by rewrite app_nil_r.
Qed.

Lemma merge_both_kept s0 c now r ok r' :
  now_ok now → events (rc_ledger r) ≠ [] → view_ok s0 (rc_ledger r) (rc_state r) →
  apply_merge_both c now r = Ok (ok, r') → kept s0 r r'.
Proof.
  intros Hn Hne Hv. unfold apply_merge_both.
  destruct (merge_events _ _ _ _ _) as [[ok' [l s]]| |] eqn:E; [|done..]. intros [= <- <-].
  destruct (merge_events_ok s0 _ now true _ _ _ _ _ Hn Hne Hv E) as (Hv' & new & He & _).
  split; [done|]. by exists new.
Qed.

Lemma remote_kept s0 c now r ok r' :
  now_ok now → events (rc_ledger r) ≠ [] → view_ok s0 (rc_ledger r) (rc_state r) →
  apply_remote_preference c now r = Ok (ok, r') → kept s0 r r'.
Proof.
  intros Hn Hne Hv. unfold apply_remote_preference.
  destruct (apply_merge_both c now r) as [[ok' r1]| |] eqn:E; [|done..]. intros [= _ <-].
  by eapply merge_both_kept.
Qed.

Lemma resolve_kept s0 c strategy now r res r' :
  now_ok now → events (rc_ledger r) ≠ [] → view_ok s0 (rc_ledger r) (rc_state r) →
  resolve_conflict c strategy now r = Ok (res, r') → kept s0 r r'.
Proof.
  intros Hn Hne Hv. unfold resolve_conflict.
  destruct (run_strategy c strategy now r) as [[[[ok message] un] r1]| |] eqn:E; [|done..].
  assert (kept s0 r r1) as [Hv1 He1].
  { destruct strategy; cbn [run_strategy] in E.
    - injection E as _ _ _ <-. by apply kept_same.
    - destruct (apply_remote_preference c now r) as [[? ?]| |] eqn:E1; [|done..].
      injection E as _ _ _ <-. by eapply remote_kept.
    - destruct (apply_merge_both c now r) as [[? ?]| |] eqn:E1; [|done..].
      injection E as _ _ _ <-. by eapply merge_both_kept.
    - unfold apply_highest_work in E. destruct (_ <? _); [|injection E as _ _ _ <-; by apply kept_same].
      destruct (apply_remote_preference c now r) as [[? ?]| |] eqn:E1; [|done..].
      injection E as _ _ _ <-. by eapply remote_kept.
    - injection E as _ _ _ <-. by apply kept_same.
    - injection E as _ _ _ <-. by apply kept_same. }
  cbn. destruct ok; intros [= _ <-]; done.
Qed.

Lemma detect_conflict_core peer ep hash es now r c r' :
  detect_conflict peer ep hash es now r = (c, r') →
  rc_ledger r' = rc_ledger r ∧ rc_state r' = rc_state r.
Proof.
  unfold detect_conflict. destruct (negb _); [by intros [= _ <-]|].
  case_bool_decide; by intros [= _ <-].
Qed.

(** Events that continue the local history are all merged. *)
Lemma merge_extension s0 more now l s s' :
  now_ok now → events l ≠ [] → view_ok s0 l s →
  linked (zeros 32) (events l ++ more) → NoDup (event_id <$> events l ++ more) →
  Forall (λ e, timestamp e <= now + 300) more → apply_events (events l ++ more) s0 = Ok s' →
  ∃ l', merge_events more now true l s = Ok (true, (l', s')) ∧ events l' = events l ++ more ∧
        view_ok s0 l' s'.
Proof.
  intros Hn. revert l s. induction more as [|e more IH]; intros l s Hne Hv Hlk Hnd Ht Ha.
  { rewrite app_nil_r in *. exists l. pose proof (vo_view _ _ _ Hv). cbn.
    assert (s = s') by congruence. by subst s'. }
  apply list.Forall_cons in Ht as [Ht1 Ht]. destruct Hv as [W T V].
  assert (Hl : event_lookup l !! event_id e = None).
  { apply lookup_known; [done|]. rewrite fmap_app in Hnd.
    apply list.NoDup_app in Hnd as (_ & Hdis & _). intros Hin. apply (Hdis _ Hin). set_solver. }
  assert (Hp : previous_hash e = tip (events l)) by (by apply linked_app in Hlk as [_ [Hp _]]).
  cbn [merge_events]. rewrite add_external_once, decide_True by done.
  rewrite (apply_events_app (events l) (e :: more)), V in Ha. cbn in Ha.
  destruct (apply_event e s) as [s1| |] eqn:Es; [|done..]. cbn in Ha |- *.
  destruct (wf_append e l W Hl Hp) as [W' T'].
  assert (V1 : apply_events (events l ++ [e]) s0 = Ok s1) by (by eapply apply_events_snoc).
  destruct (IH (append_event e l) s1) as (l' & E & He & Hv'); cbn [events append_event];
    rewrite <- ?app_assoc; try done.
  { by intros [_ ?]%app_eq_nil. }
  { change (apply_events (events l ++ [e] ++ more) s0 = Ok s').
    rewrite app_assoc, apply_events_app, V1. done. }
  exists l'. split; [done|]. split; [|done]. rewrite He. cbn. by rewrite <- app_assoc.
Qed.

End merging.

(** ** Counting votes *)

Section votes.
Context `{Crypto}.

Definition votes_in (ep : Z) (h : Hash256) (l : list (NodeID * list LedgerEvent)) : Z :=
  len (filter (λ p, compute_state_hash p.2 ep = h) l).

(** The peers whose events hash to [h]. *)
Definition votes_for (ep : Z) (h : Hash256) (ps : gmap NodeID (list LedgerEvent)) : Z :=
  votes_in ep h (entries ps).

Lemma votes_in_app ep h l p :
  votes_in ep h (l ++ [p]) =
  votes_in ep h l + (if decide (compute_state_hash p.2 ep = h) then 1 else 0).
Proof.
  unfold votes_in. rewrite list.filter_app, len_app. f_equal.
  rewrite filter_cons. by destruct (decide _).
Qed.

Lemma votes_in_range ep h l : 0 <= votes_in ep h l <= len l.
Proof. split; [apply len_nonneg|apply len_filter_le]. Qed.

Lemma count_votes_list ep l :
  len l < 2 ^ 32 →
  let '(votes, events) := foldl (count_vote ep) (∅, ∅) l in
  (∀ h n, votes !! h = Some n ↔ n = votes_in ep h l ∧ 1 <= n) ∧
  (∀ h es, events !! h = Some es → compute_state_hash es ep = h ∧ ∃ q, (q, es) ∈ l) ∧
  (∀ h, is_Some (votes !! h) → is_Some (events !! h)).
Proof.
  induction l as [|p l IH] using rev_ind; intros Hl.
  { cbn. split_and!; intros h; rewrite ?lookup_empty; [|done..].
    intros n. split; [done|]. unfold votes_in. cbn. change (len []) with 0. lia. }
  rewrite len_app in Hl. change (len [_]) with 1 in Hl.
  rewrite foldl_app. cbn [foldl]. destruct (foldl _ _ _) as [votes events].
  destruct IH as (IH1 & IH2 & IH3); [lia|]. unfold count_vote. cbn [fst snd].
  set (h0 := compute_state_hash p.2 ep).
  assert (Hat : at_or 0 h0 votes = votes_in ep h0 l).
  { unfold at_or. pose proof (votes_in_range ep h0 l). destruct (votes !! h0) as [n|] eqn:E; cbn.
    - by apply IH1 in E as [-> _].
    - destruct (decide (votes_in ep h0 l = 0)); [done|].
      assert (votes !! h0 = Some (votes_in ep h0 l)) by (apply IH1; lia). congruence. }
  pose proof (votes_in_range ep h0 l).
  rewrite Hat, wrap_small by (unfold in_u; lia).
  split_and!.
  - intros h n. rewrite votes_in_app. fold h0. destruct (decide (h0 = h)) as [<-|Hne].
    + rewrite lookup_insert_eq. split; [intros [= <-]; lia|]. intros [-> _]. done.
    + rewrite lookup_insert_ne, Z.add_0_r by done. apply IH1.
  - assert (IH2' : ∀ h es, events !! h = Some es →
      compute_state_hash es ep = h ∧ ∃ q, (q, es) ∈ l ++ [p]).
    { intros h es E. destruct (IH2 h es E) as (? & q & ?). split; [done|]. exists q. set_solver. }
    intros h es. destruct (events !! h0) eqn:E; [apply IH2'|].
    destruct (decide (h0 = h)) as [<-|Hne].
    + rewrite lookup_insert_eq. intros [= <-]. split; [done|]. exists p.1. destruct p. set_solver.
    + rewrite lookup_insert_ne by done. apply IH2'.
  - intros h. destruct (decide (h0 = h)) as [<-|Hne].
    + intros _. destruct (events !! h0) eqn:E; [by rewrite E|]. rewrite lookup_insert_eq. eauto.
    + rewrite lookup_insert_ne by done. intros Hv. destruct (events !! h0); [by apply IH3|].
      rewrite lookup_insert_ne by done. by apply IH3.
Qed.

(** The fold keeps a best entry. *)
Lemma best_fold (l : list (Hash256 * Z)) m0 b0 :
  let '(m, b) := foldl (λ best p, if best.1 <? p.2 then (p.2, Some p.1) else best) (m0, b0) l in
  m0 <= m ∧ Forall (λ p, p.2 <= m) l ∧
  ((m = m0 ∧ b = b0) ∨ ∃ h, b = Some h ∧ (h, m) ∈ l).
Proof.
  revert m0 b0. induction l as [|[h n] l IH]; intros m0 b0; cbn [foldl].
  { split; [done|]. split; [constructor|]. by left. }
  cbn [fst snd]. destruct (m0 <? n) eqn:E; bool_to_prop.
  - specialize (IH n (Some h)). destruct (foldl _ _ l) as [m b].
    destruct IH as (? & Hf & [[-> ->]|(h' & -> & Hin)]).
    + split; [lia|]. split; [by constructor|]. right. exists h. split; [done|]. set_solver.
    + split; [lia|]. split; [by constructor|]. right. exists h'. split; [done|]. set_solver.
  - specialize (IH m0 b0). destruct (foldl _ _ l) as [m b].
    destruct IH as (? & Hf & [[-> ->]|(h' & -> & Hin)]).
    + split; [lia|]. split; [by constructor|]. by left.
    + split; [lia|]. split; [constructor; [cbn; lia|done]|]. right. exists h'. split; [done|].
      set_solver.
Qed.

Lemma len_entries {V} (m : gmap NodeID V) : len (entries m) = Z.of_nat (size m).
Proof. unfold len. by rewrite length_entries. Qed.

(** With at least one peer the most popular hash is one some peer voted for. *)
Lemma most_popular_spec ep ps :
  ps ≠ ∅ → Z.of_nat (size ps) < 2 ^ 32 →
  ∃ h m es, most_popular (count_votes ep ps).1 = (m, Some h) ∧ m = votes_for ep h ps ∧
    1 <= m ∧ (∀ h', votes_for ep h' ps <= m) ∧
    (count_votes ep ps).2 !! h = Some es ∧ compute_state_hash es ep = h ∧
    ∃ q, ps !! q = Some es.
Proof.
  intros Hne Hsz. pose proof (count_votes_list ep (entries ps)) as Hc.
  rewrite len_entries in Hc. specialize (Hc Hsz). unfold count_votes.
  destruct (foldl _ _ _) as [votes events]. destruct Hc as (H1 & H2 & H3). cbn [fst snd].
  pose proof (best_fold (entries votes) 0 None) as Hb. unfold most_popular.
  destruct (foldl _ _ _) as [m b]. destruct Hb as (Hm & Hf & Hcase).
  assert (Hall : ∀ h n, votes !! h = Some n → n <= m).
  { intros h n E. rewrite list.Forall_forall in Hf. apply (Hf (h, n)). by apply elem_of_entries. }
  assert (Hmax : ∀ h, votes_for ep h ps <= m).
  { intros h. destruct (decide (1 <= votes_for ep h ps)); [|lia]. apply (Hall h).
    apply H1. done. }
  destruct (map_choose ps Hne) as (q & es0 & Hq).
  assert (Hpos : 1 <= votes_for ep (compute_state_hash es0 ep) ps).
  { unfold votes_for, votes_in. assert ((q, es0) ∈ entries ps) as Hin by (by apply elem_of_entries).
    assert ((q, es0) ∈ filter (λ p, compute_state_hash p.2 ep = compute_state_hash es0 ep)
      (entries ps)) as Hin2 by (apply list_elem_of_filter; done).
    destruct (filter _ _) as [|x xs]; [by apply elem_of_nil in Hin2|].
    rewrite len_cons. pose proof (len_nonneg xs). lia. }
  pose proof (Hmax (compute_state_hash es0 ep)).
  destruct Hcase as [[-> _]|(h & -> & Hin)]; [lia|].
  apply elem_of_entries in Hin. destruct (H3 h) as [es Hes]; [eauto|].
  exists h, m, es. apply H1 in Hin as [-> ?].
  destruct (H2 h es Hes) as (? & q' & Hq'). apply elem_of_entries in Hq'.
  split_and!; eauto.
Qed.

End votes.

(** ** Automatic reconciliation *)

Section auto.
Context `{Crypto}.

Lemma find_missing_extension more r :
  NoDup (event_id <$> events (rc_ledger r) ++ more) →
  find_missing_events (events (rc_ledger r) ++ more) r = more.
Proof.
  intros Hnd. rewrite fmap_app in Hnd. apply list.NoDup_app in Hnd as (_ & Hd & _).
  unfold find_missing_events, get_all_events. rewrite list.filter_app.
  assert (∀ l, (∀ e, e ∈ l → event_id e ∈ event_id <$> events (rc_ledger r)) →
    filter (λ e, event_id e ∉ (list_to_set (event_id <$> events (rc_ledger r)) : gset Hash256)) l = [])
    as H1.
  { induction l as [|e l IH]; intros Hin; [done|]. rewrite filter_cons, decide_False.
    - apply IH. set_solver.
    - intros Hn. apply Hn, elem_of_list_to_set, Hin. set_solver. }
  rewrite H1 by (intros e He; apply list_elem_of_fmap; eauto). cbn [app].
  clear H1. induction more as [|e more IH]; [done|]. rewrite filter_cons, decide_True.
  - f_equal. apply IH. set_solver.
  - intros Hin%elem_of_list_to_set. apply (Hd _ Hin). set_solver.
Qed.

(** The strategy for histories of different lengths. *)
Lemma detect_longer peer es now r :
  compute_state_hash es (current_epoch now) ≠ get_latest_hash (rc_ledger r) →
  length (events (rc_ledger r)) ≠ length es →
  ∃ c, (detect_conflict peer (current_epoch now) (compute_state_hash es (current_epoch now)) es now r).1
       = Some c ∧ choose_strategy c = MERGE_BOTH ∧ remote_events c = es.
Proof.
  intros Hh Hl. unfold detect_conflict. rewrite Z.eqb_refl, bool_decide_eq_false_2 by congruence.
  eexists. split; [done|]. cbn. unfold classify_conflict. rewrite decide_False by congruence.
  unfold get_all_events, len. destruct (_ =? _) eqn:E; bool_to_prop; [lia|done].
Qed.

Lemma detect_same peer now r :
  compute_state_hash (events (rc_ledger r)) (current_epoch now) ≠ get_latest_hash (rc_ledger r) →
  Forall (λ e, timestamp e <= u64 (now + 300)) (events (rc_ledger r)) →
  ∃ c, (detect_conflict peer (current_epoch now)
          (compute_state_hash (events (rc_ledger r)) (current_epoch now))
          (events (rc_ledger r)) now r).1 = Some c ∧
       choose_strategy c = HIGHEST_WORK ∧ local_events c = remote_events c.
Proof.
  intros Hh Ht. unfold detect_conflict. rewrite Z.eqb_refl, bool_decide_eq_false_2 by congruence.
  eexists. split; [done|]. cbn. split; [|done]. unfold classify_conflict.
  rewrite decide_False by congruence. unfold get_all_events. rewrite Z.eqb_refl.
  replace (existsb _ _) with false; [done|]. symmetry. apply not_true_iff_false.
  intros (e & Hin & Hlt)%existsb_exists. bool_to_prop.
  rewrite list.Forall_forall in Ht. apply list_elem_of_In in Hin. specialize (Ht e Hin). lia.
Qed.

End auto.

(** An event of the far future, as the first of a history. *)
Definition future_event (now : Z) : LedgerEvent :=
  MkLedgerEvent (zeros 32) NODE_JOINED (sample_node 1) (now + 301) 0 (zeros 32) [] (zeros 64).

(** On an empty ledger the view takes over an event the ledger refuses. *)
Lemma merge_into_empty `{Crypto} local now :
  now_ok now →
  ∃ s, merge_events [future_event now] now true (new_ledger local) empty_state =
       Ok (true, (new_ledger local, s)) ∧ is_node_active (sample_node 1) s = true.
Proof.
  intros Hn. cbn [merge_events].
  assert (add_external_event (future_event now) now (MkReadings now now now now) (new_ledger local)
    = (true, new_ledger local)) as ->.
  { unfold add_external_event, verify_event_chain. cbn [events new_ledger list.last].
    rewrite bool_decide_eq_true_2 by done. cbn [event_lookup new_ledger]. rewrite lookup_empty.
    unfold add_event. destruct (verify_event _ _ _) eqn:E; [|done].
    apply verify_event_spec in E as (_ & _ & _ & Ht). cbn [at_verify timestamp future_event] in Ht.
    rewrite now_skew in Ht by done. lia. }
  eexists. split; [reflexivity|]. vm_compute. reflexivity.
Qed.

(** ** Properties *)

(** With a non-empty ledger every way of resolving a conflict keeps the view the fold of
    the events of the ledger and only appends events; with an empty ledger a merge applies
    to the view an event from the far future the ledger refuses. *)
Theorem reconciliation_keeps_view `{Crypto} s0 now r :
  now_ok now → events (rc_ledger r) ≠ [] → view_ok s0 (rc_ledger r) (rc_state r) →
  (∀ c strategy res r', resolve_conflict c strategy now r = Ok (res, r') → kept s0 r r') ∧
  (∀ peer es res r', auto_reconcile_with_peer peer es now r = Ok (res, r') → kept s0 r r') ∧
  (∀ ps res r', reconcile_with_quorum ps now r = Ok (res, r') → kept s0 r r') ∧
  (∀ local, ∃ c res r',
     resolve_conflict c MERGE_BOTH now (new_reconciliation (new_ledger local) empty_state) =
       Ok (res, r') ∧
     success res = true ∧ rc_ledger r' = new_ledger local ∧
     is_node_active (sample_node 1) (rc_state r') = true).
Proof.
  intros Hn Hne Hv. split_and!.
  - intros c strategy res r'. by apply resolve_kept.
  - intros peer es res r'. unfold auto_reconcile_with_peer.
    destruct (detect_conflict _ _ _ _ _ _) as [[c|] r1] eqn:E;
      destruct (detect_conflict_core _ _ _ _ _ _ _ _ E) as [Hl Hs]; cbn in Hl, Hs.
    + intros Hr. unfold kept. rewrite <- Hl.
      eapply resolve_kept; [done| | |exact Hr]; by rewrite ?Hl, ?Hs.
    + intros [= _ <-]. by apply kept_same.
  - intros ps res r'. unfold reconcile_with_quorum.
    destruct (count_votes _ _) as [votes evs]. destruct (most_popular votes) as [m [h|]];
      destruct (_ <? _); try done; try (intros [= _ <-]; by apply kept_same).
    case_bool_decide; [intros [= _ <-]; by apply kept_same|]. by apply resolve_kept.
  - intros local. destruct (merge_into_empty local now Hn) as (s & Em & Ha).
    exists (MkStateConflict MISSING_EVENTS 0 (zeros 32) (zeros 32) [] [future_event now] None 0 []).
    unfold resolve_conflict. cbn [run_strategy]. unfold apply_merge_both. cbn [remote_events].
    assert (find_missing_events [future_event now]
      (new_reconciliation (new_ledger local) empty_state) = [future_event now]) as -> by done.
    cbn [rc_ledger rc_state new_reconciliation]. rewrite Em. cbn. eexists _, _. done.
Qed.

(** Reconciling with a peer whose history extends the own one appends the rest and reports
    success; reconciling with an identical history still counts a conflict detected and
    one resolved, since a hash of the state is compared with the hash of the last event. *)
Theorem auto_reconcile_outcomes `{Crypto} s0 s' peer more now r :
  now_ok now → events (rc_ledger r) ≠ [] → view_ok s0 (rc_ledger r) (rc_state r) →
  (more ≠ [] → linked (zeros 32) (events (rc_ledger r) ++ more) →
   NoDup (event_id <$> events (rc_ledger r) ++ more) →
   Forall (λ e, timestamp e <= now + 300) more →
   apply_events (events (rc_ledger r) ++ more) s0 = Ok s' →
   compute_state_hash (events (rc_ledger r) ++ more) (current_epoch now) ≠
     get_latest_hash (rc_ledger r) →
   ∃ res r', auto_reconcile_with_peer peer (events (rc_ledger r) ++ more) now r = Ok (res, r') ∧
     success res = true ∧ events (rc_ledger r') = events (rc_ledger r) ++ more ∧ rc_state r' = s') ∧
  (Forall (λ e, timestamp e <= now + 300) (events (rc_ledger r)) →
   compute_state_hash (events (rc_ledger r)) (current_epoch now) ≠ get_latest_hash (rc_ledger r) →
   ∃ res r', auto_reconcile_with_peer peer (events (rc_ledger r)) now r = Ok (res, r') ∧
     success res = true ∧ conflicts_resolved res = Some 1 ∧
     conflicts_detected r' = u64 (conflicts_detected r + 1) ∧
     rc_ledger r' = rc_ledger r ∧ rc_state r' = rc_state r).
Proof.
  intros Hn Hne Hv. set (r1 := MkStateReconciliation (rc_ledger r) (rc_state r)
    (conflicts_detected r) (rc_resolved r) (u64 (reconciliations r + 1))).
  split.
  - intros Hmore Hlk Hnd Ht Ha Hh.
    destruct (detect_longer peer (events (rc_ledger r) ++ more) now r1) as (c & Ec & Es & Er);
      [done|rewrite length_app; destruct more; [done|cbn; lia]|].
    destruct (merge_extension s0 more now (rc_ledger r) (rc_state r) s') as (l' & Em & He & _);
      try done.
    unfold auto_reconcile_with_peer. fold r1.
    destruct (detect_conflict _ _ _ _ _ _) as [c' r2] eqn:E. cbn in Ec. subst c'.
    destruct (detect_conflict_core _ _ _ _ _ _ _ _ E) as [Hl2 Hs2]. cbn in Hl2, Hs2.
    rewrite Es. unfold resolve_conflict. cbn [run_strategy]. unfold apply_merge_both.
    rewrite Er.
    assert (find_missing_events (events (rc_ledger r) ++ more) r2 = more) as ->
      by (rewrite <- Hl2 in *; by apply find_missing_extension).
    rewrite Hl2, Hs2, Em. cbn. eexists _, _. done.
  - intros Ht Hh.
    destruct (detect_same peer now r1) as (c & Ec & Es & Er); [done| |].
    { change 300 with MAX_FUTURE_SKEW_SECONDS. by rewrite now_skew. }
    unfold auto_reconcile_with_peer. fold r1. change (rc_ledger r1) with (rc_ledger r) in Ec.
    destruct (detect_conflict _ _ _ _ _ _) as [c' r2] eqn:E. cbn in Ec. subst c'.
    destruct (detect_conflict_core _ _ _ _ _ _ _ _ E) as [Hl2 Hs2]. cbn in Hl2, Hs2.
    assert (conflicts_detected r2 = u64 (conflicts_detected r + 1)) as Hd.
    { unfold detect_conflict in E. destruct (negb _); [done|]. case_bool_decide; [done|].
      by injection E as _ <-. }
    rewrite Es. unfold resolve_conflict. cbn [run_strategy]. unfold apply_highest_work.
    rewrite Er, Z.ltb_irrefl. cbn. eexists _, _. done.
Qed.

(** The quorum is a state hash with the most votes; it is refused below half the peers
    rounded down, adopted by a merge otherwise, and indeterminate without peers; success
    means that a state hash of some peer is the hash of the last event of the ledger. *)
Theorem quorum_spec `{Crypto} ps now r :
  Z.of_nat (size ps) < 2 ^ 32 →
  let ep := current_epoch now in
  (ps = ∅ → reconcile_with_quorum ps now r = Undef) ∧
  (ps ≠ ∅ → ∃ h, 1 <= votes_for ep h ps ∧ (∀ h', votes_for ep h' ps <= votes_for ep h ps) ∧
     if votes_for ep h ps <? Z.of_nat (size ps) / 2 then
       ∃ res, reconcile_with_quorum ps now r = Ok (res, r) ∧ success res = false
     else if decide (get_latest_hash (rc_ledger r) = h) then
       ∃ res, reconcile_with_quorum ps now r = Ok (res, r) ∧ success res = true
     else ∃ c, remote_hash c = h ∧ compute_state_hash (remote_events c) ep = h ∧
       reconcile_with_quorum ps now r = resolve_conflict c PREFER_REMOTE now r) ∧
  (∀ res r', reconcile_with_quorum ps now r = Ok (res, r') → success res = true →
     ∃ q es, ps !! q = Some es ∧ compute_state_hash es ep = get_latest_hash (rc_ledger r')).
Proof.
  intros Hsz ep.
  assert (Hempty : ps = ∅ → reconcile_with_quorum ps now r = Undef) by (by intros ->).
  assert (Hsome : ps ≠ ∅ → ∃ h m es, most_popular (count_votes ep ps).1 = (m, Some h) ∧
    m = votes_for ep h ps ∧ 1 <= m ∧ (∀ h', votes_for ep h' ps <= m) ∧
    (count_votes ep ps).2 !! h = Some es ∧ compute_state_hash es ep = h ∧
    ∃ q, ps !! q = Some es)
    by (intros; by apply most_popular_spec).
  split; [done|]. split.
  - intros (h & m & es & Em & -> & Hp & Hmax & He & Hh & _)%Hsome. exists h. split; [done|].
    split; [done|]. unfold reconcile_with_quorum. fold ep.
    destruct (count_votes ep ps) as [votes evs]. cbn in Em, He. rewrite Em.
    destruct (_ <? _); [by eexists|]. unfold bool_decide.
    destruct (decide_rel _ _ _); destruct (decide _); try done; [by eexists|].
    eexists. split; [|split; [|reflexivity]]; [done|]. cbn. unfold at_or. by rewrite He.
  - intros res r' E Hs. destruct (decide (ps = ∅)) as [Hp|Hp]; [by rewrite Hempty in E|].
    destruct (Hsome Hp) as (h & m & es & Em & _ & _ & _ & He & Hh & q & Hq).
    exists q, es. split; [done|]. rewrite Hh.
    unfold reconcile_with_quorum in E. fold ep in E.
    destruct (count_votes ep ps) as [votes evs]. cbn in Em, He. rewrite Em in E.
    destruct (_ <? _); [by injection E as <- <-|].
    case_bool_decide as Heq; [by injection E as <- <-|].
    unfold resolve_conflict in E. cbn [run_strategy] in E. unfold apply_remote_preference in E.
    destruct (apply_merge_both _ now r) as [[ok r1]| |]; [|done..]. cbn in E.
    destruct ok; [|by injection E as <- _]. case_bool_decide as Hl; injection E as <- <-; done.
Qed.

(** The totals of [resolve_all_conflicts] start from indeterminate counters. *)
Theorem resolve_all_reads_uninitialised `{Crypto} cs now r :
  (∃ res, resolve_all_conflicts cs now r = Ok res) ↔ cs = [].
Proof.
  split; [|intros ->; by eexists]. destruct cs as [|c cs]; [done|].
  unfold resolve_all_conflicts. cbn [resolve_each].
  destruct (resolve_conflict c _ now r) as [[res r1]| |]; intros [? E]; done.
Qed.

(** ** A sample: a node that has the first of two events *)

Definition sample_reconciliation : StateReconciliation :=
  new_reconciliation behind_ledger behind_state.

Definition sample_more : list LedgerEvent := drop 1 (events sample_ledger).

Lemma sample_now_ok : now_ok 1700000100.
Proof. split; [discriminate|reflexivity]. Qed.

Lemma sample_view_ok : @view_ok toy_crypto empty_state behind_ledger behind_state.
Proof. destruct behind_ok as [W T V _]. split; [exact W|exact T|exact V]. Qed.

Lemma behind_nonempty : events behind_ledger ≠ [].
Proof. vm_compute. discriminate. Qed.

Lemma behind_extended : events behind_ledger ++ sample_more = events sample_ledger.
Proof. vm_compute. reflexivity. Qed.

Lemma sample_more_facts :
  sample_more ≠ [] ∧ @linked toy_crypto (zeros 32) (events behind_ledger ++ sample_more) ∧
  NoDup (event_id <$> events behind_ledger ++ sample_more) ∧
  Forall (λ e, timestamp e <= 1700000100 + 300) sample_more ∧
  apply_events (events behind_ledger ++ sample_more) empty_state = Ok ahead_state ∧
  @compute_state_hash toy_crypto (events behind_ledger ++ sample_more)
    (current_epoch 1700000100) ≠ get_latest_hash behind_ledger.
Proof.
  rewrite behind_extended. split_and!.
  - vm_compute. discriminate.
  - exact (@wf_linked toy_crypto _ (proj1 sample_ledger_wf)).
  - exact (@wf_unique toy_crypto _ (proj1 sample_ledger_wf)).
  - apply (bool_decide_eq_true_1 (Forall (λ e, timestamp e <= 1700000100 + 300) _)).
    vm_compute. reflexivity.
  - vm_compute. reflexivity.
  - apply (bool_decide_eq_true_1 (_ ≠ _)). vm_compute. reflexivity.
Qed.

Definition sample_conflict : StateConflict :=
  MkStateConflict MISSING_EVENTS 0 (zeros 32) (zeros 32) []
    (events behind_ledger ++ sample_more) None 0 [].

Lemma sample_merge :
  ∃ l, @merge_events toy_crypto sample_more 1700000100 true behind_ledger behind_state =
       Ok (true, (l, ahead_state)).
Proof.
  pose proof sample_more_facts as (H1 & H2 & H3 & H4 & H5 & _).
  destruct (@merge_extension toy_crypto empty_state sample_more 1700000100 behind_ledger
    behind_state ahead_state sample_now_ok behind_nonempty sample_view_ok H2 H3 H4 H5)
    as (l & E & _).
  by exists l.
Qed.

Lemma sample_resolves :
  ∃ res r', @resolve_conflict toy_crypto sample_conflict MERGE_BOTH 1700000100
              sample_reconciliation = Ok (res, r').
Proof.
  pose proof sample_more_facts as (_ & _ & H3 & _). destruct sample_merge as [l E].
  unfold resolve_conflict, run_strategy, apply_merge_both, sample_conflict. cbn [remote_events].
  change (events behind_ledger) with (events (rc_ledger sample_reconciliation)) in H3 |- *.
  rewrite (find_missing_extension sample_more sample_reconciliation H3).
  cbn [rc_ledger rc_state sample_reconciliation new_reconciliation]. rewrite E. eexists _, _. done.
Qed.

Lemma reconciliation_keeps_view_witness :
  ∃ res r', @resolve_conflict toy_crypto sample_conflict MERGE_BOTH 1700000100
              sample_reconciliation = Ok (res, r') ∧
    @kept toy_crypto empty_state sample_reconciliation r'.
Proof.
  destruct sample_resolves as (res & r' & E). exists res, r'. split; [exact E|].
  exact (proj1 (@reconciliation_keeps_view toy_crypto empty_state 1700000100 sample_reconciliation
    sample_now_ok behind_nonempty sample_view_ok) _ _ _ _ E).
Defined.

Lemma auto_reconcile_outcomes_witness :
  ∃ res r', @auto_reconcile_with_peer toy_crypto sample_local
      (events behind_ledger ++ sample_more) 1700000100 sample_reconciliation = Ok (res, r') ∧
    success res = true ∧ events (rc_ledger r') = events behind_ledger ++ sample_more ∧
    rc_state r' = ahead_state.
Proof.
  pose proof sample_more_facts as (H1 & H2 & H3 & H4 & H5 & H6).
  exact (proj1 (@auto_reconcile_outcomes toy_crypto empty_state ahead_state sample_local
    sample_more 1700000100 sample_reconciliation sample_now_ok behind_nonempty sample_view_ok)
    H1 H2 H3 H4 H5 H6).
Defined.

Lemma quorum_spec_witness :
  @reconcile_with_quorum toy_crypto ∅ 1700000100 sample_reconciliation = Undef.
Proof.
  exact (proj1 (@quorum_spec toy_crypto ∅ 1700000100 sample_reconciliation eq_refl) eq_refl).
Defined.
