(* ===== verification/Floats.v ===== *)
(** Single-precision arithmetic: the C++ [float] as IEEE 754 binary32, computed
    by the Standard Library's [SpecFloat] with 24 bits of precision.

    Operations round to nearest, ties to even, one at a time (no fused
    multiply-add), as the code is compiled for the targets it names.  A NaN has
    no payload, and every comparison with one is false. *)

From Stdlib Require Export SpecFloat.
From S2P Require Import Prelude.

Abbreviation float := spec_float.

Definition fmul : float → float → float := SFmul 24 128.
Definition fadd : float → float → float := SFadd 24 128.
Definition fdiv : float → float → float := SFdiv 24 128.
Definition fltb : float → float → bool := SFltb.

(** [x >= y] *)
Definition fgeb (x y : float) : bool := SFleb y x.

(** [static_cast<float>(z)]. *)
Definition float_of (z : Z) : float := binary_normalize 24 128 z 0 false.

(** The literal [n / d], correctly rounded. *)
Definition literal (n d : Z) : float := fdiv (float_of n) (float_of d).

Definition f_zero : float := S754_zero false.
Definition f_one : float := float_of 1.
Definition f_minus_one : float := float_of (-1).

#[export] Instance float_eq_dec : EqDecision float.
Proof. solve_decision. Defined.

Definition is_nan (x : float) : bool := match x with S754_nan => true | _ => false end.

(** ** Order *)

(** Neither a NaN nor a negative number. *)
Definition nonneg (x : float) : bool :=
  match x with
  | S754_zero _ => true
  | S754_infinity s => negb s
  | S754_nan => false
  | S754_finite s _ _ => negb s
  end.

Lemma compare_cont_eq m n : Pos.compare_cont Eq m n = Pos.compare m n.
Proof. done. Qed.

Ltac float_cases :=
  repeat match goal with
  | x : float |- _ => destruct x
  | s : bool |- _ => destruct s
  | |- context [Z.compare ?a ?b] => destruct (Z.compare_spec a b)
  | |- context [PosDef.Pos.compare_cont Eq ?a ?b] =>
      destruct (Pos.compare_spec a b :
        CompareSpec _ _ _ (PosDef.Pos.compare_cont Eq a b))
  end; subst; cbn; try done; try lia.

Lemma fltb_irrefl x : fltb x x = false.
Proof.
  destruct x as [s|s| |s m e]; [done|by destruct s|done|]. unfold fltb, SFltb, SFcompare.
  rewrite Z.compare_refl, compare_cont_eq, Pos.compare_refl. by destruct s.
Qed.

Lemma fltb_trans x y z : fltb x y = true → fltb y z = true → fltb x z = true.
Proof.
  unfold fltb, SFltb, SFcompare. rewrite ?compare_cont_eq. float_cases.
Qed.

(** Between numbers, "not less" is transitive. *)
Lemma fltb_cotrans x y z :
  is_nan y = false → fltb x z = true → fltb x y = true ∨ fltb y z = true.
Proof.
  intros Hy. unfold fltb, SFltb, SFcompare. rewrite ?compare_cont_eq.
  float_cases; auto.
Qed.

Lemma nonneg_above_minus_one x : nonneg x = true → fltb f_minus_one x = true.
Proof. destruct x as [s|[]| |[] m e]; try done; by destruct s. Qed.

Lemma nonneg_not_below_zero x : nonneg x = true → fltb x f_zero = false.
Proof. by destruct x as [s|[]| |[] m e]. Qed.

Lemma not_below_zero x : fltb x f_zero = false → is_nan x = true ∨ nonneg x = true.
Proof. destruct x as [s|[]| |[] m e]; auto. Qed.

(** ** Rounding keeps the sign and yields numbers *)

Definition shr_nonneg (r : shr_record) : Prop := 0 <= shr_m r.

Lemma shr_1_nonneg r : shr_nonneg r → shr_nonneg (shr_1 r).
Proof. unfold shr_nonneg. destruct r as [[|[]|[]] ? ?]; cbn; lia. Qed.

Lemma iter_nonneg (p : positive) r :
  shr_nonneg r → shr_nonneg (SpecFloat.iter_pos shr_1 p r).
Proof.
  revert r. induction p as [p IH|p IH|]; intros r Hr; cbn.
  - by apply IH, IH, shr_1_nonneg.
  - by apply IH, IH.
  - by apply shr_1_nonneg.
Qed.

Lemma shr_fexp_nonneg m e l : 0 <= m → shr_nonneg (shr_fexp 24 128 m e l).1.
Proof.
  intros Hm. unfold shr_fexp, shr.
  assert (shr_nonneg (shr_record_of_loc m l)) by (by destruct l as [|[]]).
  destruct (fexp 24 128 (Zdigits2 m + e) - e); [done| |done]. by apply iter_nonneg.
Qed.

Lemma round_nonneg m l : 0 <= m → 0 <= round_nearest_even m l.
Proof. intros. destruct l as [|[]]; cbn; try lia. destruct (Z.even m); lia. Qed.

Lemma round_aux_number s m e l :
  0 <= m → is_nan (binary_round_aux 24 128 s m e l) = false.
Proof.
  intros Hm. unfold binary_round_aux.
  pose proof (shr_fexp_nonneg m e l Hm) as H1. destruct (shr_fexp _ _ m e l) as [r1 e1].
  pose proof (shr_fexp_nonneg (round_nearest_even (shr_m r1) (loc_of_shr_record r1)) e1 loc_Exact)
    as H2.
  destruct (shr_fexp _ _ _ e1 _) as [r2 e2]. cbn [fst] in *.
  specialize (H2 (round_nonneg _ _ H1)). unfold shr_nonneg in H2.
  destruct (shr_m r2); [done| |lia]. by destruct (_ <=? _).
Qed.

Lemma round_aux_sign m e l :
  is_nan (binary_round_aux 24 128 false m e l) = true ∨
  nonneg (binary_round_aux 24 128 false m e l) = true.
Proof.
  unfold binary_round_aux. destruct (shr_fexp _ _ m e l) as [r1 e1].
  destruct (shr_fexp _ _ _ e1 _) as [r2 e2].
  destruct (shr_m r2); [by right| |by left]. destruct (_ <=? _); by right.
Qed.

Definition positive_finite (x : float) : bool :=
  match x with S754_finite false _ _ => true | _ => false end.

(** Dividing a number that is not negative by a positive one. *)
Lemma fdiv_nonneg x y :
  nonneg x = true → positive_finite y = true → nonneg (fdiv x y) = true.
Proof.
  intros Hx Hy. destruct y as [| | |[] my ey]; try done.
  destruct x as [s|[]| |[] mx ex]; try done. unfold fdiv. cbn [SFdiv].
  destruct (SFdiv_core_binary 24 128 (Z.pos mx) ex (Z.pos my) ey) as [[q e] l] eqn:E.
  assert (0 <= q).
  { revert E. unfold SFdiv_core_binary.
    set (sh := Z.sub _ (Z.min _ _)).
    match goal with |- context [IntDef.Z.div_eucl ?m _] => set (m' := m) end.
    assert (0 <= m').
    { unfold m'. destruct sh; [lia| |lia]. apply Z.shiftl_nonneg. lia. }
    pose proof (Z.div_pos m' (Z.pos my) H ltac:(lia)) as Hq. unfold Z.div in Hq.
    change IntDef.Z.div_eucl with Z.div_eucl.
    destruct (Z.div_eucl m' (Z.pos my)) as [q' r]. intros [= <- _ _]. exact Hq. }
  change (xorb false false) with false.
  destruct (round_aux_sign q e l) as [Hn|Hn]; [|done].
  by rewrite (round_aux_number false q e l) in Hn.
Qed.

(** Scaling a number that is not negative by a positive one. *)
Lemma fmul_nonneg x y :
  nonneg x = true → positive_finite y = true → nonneg (fmul x y) = true.
Proof.
  intros Hx Hy. destruct y as [| | |[] my ey]; try done.
  destruct x as [s|[]| |[] mx ex]; try done. unfold fmul. cbn [SFmul xorb].
  destruct (round_aux_sign (Z.pos (mx * my)) (ex + ey) loc_Exact) as [Hn|Hn]; [|done].
  by rewrite round_aux_number in Hn.
Qed.

(** ** Rounding error *)

Lemma digits_bounds p : 2 ^ (Z.pos (digits2_pos p) - 1) <= Z.pos p < 2 ^ Z.pos (digits2_pos p).
Proof.
  induction p as [p IH|p IH|]; cbn [digits2_pos]; [..|done].
  all: rewrite Pos2Z.inj_succ, Z.pow_succ_r by lia;
    replace (Z.succ (Z.pos (digits2_pos p)) - 1) with (Z.succ (Z.pos (digits2_pos p) - 1)) by lia;
    rewrite Z.pow_succ_r by lia; lia.
Qed.

Lemma shr_1_half r : shr_nonneg r → shr_m (shr_1 r) = shr_m r / 2.
Proof.
  unfold shr_nonneg. destruct r as [[|[p|p|]|p] ? ?]; cbn [shr_1 shr_m]; intros; try done; try lia.
  - rewrite Pos2Z.inj_xI. apply Z.div_unique with 1; lia.
  - rewrite Pos2Z.inj_xO. apply Z.div_unique with 0; lia.
Qed.

Lemma iter_shr (p : positive) r :
  shr_nonneg r → shr_m (SpecFloat.iter_pos shr_1 p r) = shr_m r / 2 ^ Z.pos p.
Proof.
  assert (Hdiv : ∀ m q, m / 2 ^ Z.pos q / 2 ^ Z.pos q = m / 2 ^ (2 * Z.pos q)).
  { intros. rewrite Z.div_div by lia. f_equal. rewrite <- Z.pow_add_r by lia. f_equal. lia. }
  revert r. induction p as [p IH|p IH|]; intros r Hr; cbn [SpecFloat.iter_pos].
  - rewrite !IH, shr_1_half, Hdiv, Z.div_div by
      (try apply iter_nonneg; try apply shr_1_nonneg; done || lia).
    done.
  - rewrite !IH, Hdiv by auto using iter_nonneg. done.
  - by apply shr_1_half.
Qed.

Lemma shr_record_m m l : shr_m (shr_record_of_loc m l) = m.
Proof. by destruct l as [|[]]. Qed.

(** Shifting a mantissa of at least 24 digits down to 24. *)
Lemma shr_fexp_long m e l :
  -149 <= e → 24 <= Z.pos (digits2_pos m) →
  let k := Z.pos (digits2_pos m) - 24 in
  shr_m (shr_fexp 24 128 (Z.pos m) e l).1 = Z.pos m / 2 ^ k ∧
  (shr_fexp 24 128 (Z.pos m) e l).2 = e + k.
Proof.
  intros He Hd k. unfold shr_fexp. cbn [Zdigits2].
  replace (fexp 24 128 (Z.pos (digits2_pos m) + e) - e) with k by (unfold fexp, emin, k; lia).
  destruct k as [|p|p] eqn:Ek; [|  |lia]; cbn [shr fst snd].
  - by rewrite shr_record_m, Z.div_1_r, Z.add_0_r.
  - rewrite iter_shr, shr_record_m; [done|]. unfold shr_nonneg. by rewrite shr_record_m.
Qed.

Lemma shr_fexp_short m e :
  Z.pos (digits2_pos m) <= 24 →
  shr_fexp 24 128 (Z.pos m) e loc_Exact = (Build_shr_record (Z.pos m) false false, e) ∨ e < -149.
Proof.
  intros Hd. destruct (decide (e < -149)); [by right|left].
  unfold shr_fexp. cbn [Zdigits2 shr_record_of_loc].
  assert (fexp 24 128 (Z.pos (digits2_pos m) + e) - e <= 0) by (unfold fexp, emin; lia).
  by destruct (fexp _ _ _ - e) eqn:E; [|lia|].
Qed.

(** The second normalisation: only a mantissa rounded up to [2 ^ 24] moves. *)
Lemma renormalised q e :
  -149 <= e → Z.pos q <= 2 ^ 24 →
  ∃ m' e', (let '(r, e'') := shr_fexp 24 128 (Z.pos q) e loc_Exact in (shr_m r, e'')) = (Z.pos m', e') ∧
    e <= e' <= e + 1 ∧ Z.pos m' * 2 ^ (e' - e) = Z.pos q.
Proof.
  intros He Hq. pose proof (digits_bounds q) as Hb.
  destruct (decide (Z.pos (digits2_pos q) <= 24)) as [Hd|Hd].
  - destruct (shr_fexp_short q e Hd) as [-> |]; [|lia]. exists q, e. rewrite Z.sub_diag.
    split; [done|]. lia.
  - assert (Z.pos q = 2 ^ 24).
    { assert (2 ^ 24 <= 2 ^ (Z.pos (digits2_pos q) - 1)) by (apply Z.pow_le_mono_r; lia). lia. }
    assert (q = 16777216%positive) as -> by lia.
    replace (shr_fexp 24 128 (Z.pos 16777216) e loc_Exact)
      with (Build_shr_record 8388608 false false, e + 1).
    2:{ unfold shr_fexp. replace (fexp _ _ _ - _) with 1; [done|].
        unfold fexp. cbn [Zdigits2 digits2_pos Pos.succ]. unfold emin. lia. }
    exists 8388608%positive, (e + 1). split; [done|]. replace (e + 1 - e) with 1 by lia. lia.
Qed.

(** Rounding a number of normal range moves it by 2 ^ -23 of it at most. *)
Lemma round_aux_near s m e l :
  -149 <= e → Z.pos (digits2_pos m) + e <= 100 →
  l = loc_Exact ∨ 24 <= Z.pos (digits2_pos m) →
  ∃ m' e', binary_round_aux 24 128 s (Z.pos m) e l = S754_finite s m' e' ∧ e <= e' ∧
    Z.pos (digits2_pos m') + e' <= Z.pos (digits2_pos m) + e + 1 ∧
    2 ^ 23 * Z.abs (Z.pos m' * 2 ^ (e' - e) - Z.pos m) <= Z.pos m.
Proof.
  intros He Hr Hl. unfold binary_round_aux. pose proof (digits_bounds m) as Hm.
  assert (∃ q k, (let '(r, e1) := shr_fexp 24 128 (Z.pos m) e l in
      (round_nearest_even (shr_m r) (loc_of_shr_record r), e1)) = (Z.pos q, e + k) ∧
    0 <= k ∧ e + k <= 100 ∧ Z.pos q <= 2 ^ 24 ∧
    2 ^ 23 * Z.abs (Z.pos q * 2 ^ k - Z.pos m) <= Z.pos m) as (q & k & Eq & Hk & Hek & Hq & Hn).
  { destruct (decide (24 <= Z.pos (digits2_pos m))) as [Hd|Hd].
    - destruct (shr_fexp_long m e l He Hd) as [E1 E2].
      destruct (shr_fexp 24 128 (Z.pos m) e l) as [r1 e1]. cbn [fst snd] in *. subst e1.
      set (k := Z.pos (digits2_pos m) - 24) in *.
      assert (Hp : 0 < 2 ^ k) by lia.
      assert (Hm' : 2 ^ 23 * 2 ^ k <= Z.pos m < 2 ^ 24 * 2 ^ k).
      { rewrite <- !Z.pow_add_r by lia. replace (23 + k) with (Z.pos (digits2_pos m) - 1) by lia.
        replace (24 + k) with (Z.pos (digits2_pos m)) by lia. done. }
      pose proof (Z.div_mod (Z.pos m) (2 ^ k) ltac:(lia)) as Hdm.
      pose proof (Z.mod_pos_bound (Z.pos m) (2 ^ k) Hp).
      set (mr := round_nearest_even (shr_m r1) (loc_of_shr_record r1)).
      assert (Hmr : Z.pos m / 2 ^ k <= mr <= Z.pos m / 2 ^ k + 1).
      { rewrite <- E1. unfold mr. destruct (loc_of_shr_record r1) as [|[]]; cbn; try lia.
        destruct (Z.even _); lia. }
      assert (2 ^ 23 <= Z.pos m / 2 ^ k < 2 ^ 24).
      { split; [apply Z.div_le_lower_bound; lia|apply Z.div_lt_upper_bound; lia]. }
      assert (Hnear : 2 ^ 23 * Z.abs (mr * 2 ^ k - Z.pos m) <= Z.pos m).
      { assert (Z.abs (mr * 2 ^ k - Z.pos m) <= 2 ^ k); [|lia].
        assert (mr = Z.pos m / 2 ^ k ∨ mr = Z.pos m / 2 ^ k + 1) as [-> | ->] by lia; lia. }
      destruct mr as [|q|q]; [lia| |lia]. exists q, k. split; [done|]. lia.
    - destruct Hl as [->|]; [|lia]. destruct (shr_fexp_short m e ltac:(lia)) as [-> |]; [|lia].
      exists m, 0. rewrite Z.add_0_r. split; [done|].
      assert (2 ^ Z.pos (digits2_pos m) <= 2 ^ 24) by (apply Z.pow_le_mono_r; lia).
      pose proof (Zgt_pos_0 (digits2_pos m)). lia. }
  destruct (shr_fexp 24 128 (Z.pos m) e l) as [r1 e1]. injection Eq as -> ->.
  destruct (renormalised q (e + k)) as (m' & e' & E' & He' & Hm'); [lia..|].
  destruct (shr_fexp 24 128 (Z.pos q) (e + k) loc_Exact) as [r2 e2]. injection E' as -> ->.
  exists m', e'. destruct (Z.leb_spec e' (128 - 24)); [|lia]. split; [done|]. split; [lia|].
  replace (e' - e) with (e' - (e + k) + k) by lia.
  rewrite Z.pow_add_r, Z.mul_assoc, Hm' by lia. split; [|done].
  pose proof (digits_bounds m') as [H1 _].
  assert (Hle : 2 ^ (Z.pos (digits2_pos m') - 1) * 2 ^ (e' - (e + k)) * 2 ^ k <= Z.pos q * 2 ^ k).
  { apply Z.mul_le_mono_nonneg_r; [lia|]. rewrite <- Hm'. apply Z.mul_le_mono_nonneg_r; lia. }
  rewrite <- !Z.pow_add_r in Hle by lia.
  assert (Z.pos (digits2_pos m') - 1 + (e' - (e + k)) + k < Z.pos (digits2_pos m) + 1); [|lia].
  apply (Z.pow_lt_mono_r_iff 2); [lia..|].
  rewrite (Z.pow_add_r 2 (Z.pos (digits2_pos m)) 1) by lia. lia.
Qed.

(** ** Conversion to integers *)

(** The integer part, of a number that is finite. *)
Definition truncate (x : float) : option Z :=
  match x with
  | S754_zero _ => Some 0
  | S754_finite s m e =>
      let a := Z.shiftl (Z.pos m) e in
      Some (if s then - a else a)
  | _ => None
  end.

(** [static_cast<int32_t>(x)] and [static_cast<uint32_t>(x)]: out of range, the
    conversion is undefined. *)
Definition to_int32 (x : float) : outcome Z :=
  match truncate x with
  | Some z => if decide (in_s 32 z) then Ok z else Undef
  | None => Undef
  end.

Definition to_uint32 (x : float) : outcome Z :=
  match truncate x with
  | Some z => if decide (in_u 32 z) then Ok z else Undef
  | None => Undef
  end.

Lemma near_scale x y w :
  0 <= w → 2 ^ 23 * Z.abs (x - y) <= y → 2 ^ 23 * Z.abs (x * w - y * w) <= y * w.
Proof.
  intros Hw H. rewrite <- Z.mul_sub_distr_r, Z.abs_mul, (Z.abs_eq w), Z.mul_assoc by done.
  by apply Z.mul_le_mono_nonneg_r.
Qed.

(** *** Values in units of [2 ^ -200] *)

Definition units (m : positive) (e : Z) : Z := Z.pos m * 2 ^ (e + 200).

(** [x] is within [2 ^ -23] of [y]. *)
Definition close (x y : Z) : Prop := 2 ^ 23 * Z.abs (x - y) <= y.

Lemma round_units s m e l :
  -149 <= e → Z.pos (digits2_pos m) + e <= 100 →
  l = loc_Exact ∨ 24 <= Z.pos (digits2_pos m) →
  ∃ m' e', binary_round_aux 24 128 s (Z.pos m) e l = S754_finite s m' e' ∧ e <= e' ∧
    Z.pos (digits2_pos m') + e' <= Z.pos (digits2_pos m) + e + 1 ∧ close (units m' e') (units m e).
Proof.
  intros He Hd Hl. destruct (round_aux_near s m e l He Hd Hl) as (m' & e' & E & He' & Hd' & Hn).
  exists m', e'. do 3 (split; [done|]). unfold close, units.
  replace (e' + 200) with (e' - e + (e + 200)) by lia.
  rewrite Z.pow_add_r, Z.mul_assoc by lia. by apply near_scale; [lia|].
Qed.

(** Conversion of a 64-bit integer. *)
Lemma float_of_near z :
  z ≠ 0 → Z.abs z <= 2 ^ 64 →
  ∃ m e, float_of z = S754_finite (z <? 0) m e ∧ -23 <= e ∧
    0 <= Z.pos (digits2_pos m) + e <= 66 ∧ close (units m e) (Z.abs z * 2 ^ 200).
Proof.
  intros Hz Hr. destruct (Z.abs z) as [|p|] eqn:Ez; [lia| |lia].
  assert (E : float_of z = binary_round 24 128 (z <? 0) p 0) by by destruct z; inversion Ez.
  rewrite E. unfold binary_round, shl_align. clear E Ez Hz.
  pose proof (digits_bounds p) as Hp.
  assert (Hd : Z.pos (digits2_pos p) <= 65).
  { assert (Z.pos (digits2_pos p) - 1 < 65); [|lia]. apply (Z.pow_lt_mono_r_iff 2); lia. }
  replace (fexp 24 128 (Z.pos (digits2_pos p) + 0)) with (Z.pos (digits2_pos p) - 24)
    by (unfold fexp, emin; lia).
  set (k := Z.pos (digits2_pos p) - 24). rewrite Z.sub_0_r.
  assert (∃ mz ez, match k with Z.neg d => (Pos.iter xO p d, k) | _ => (p, 0) end = (mz, ez) ∧
    -23 <= ez <= 0 ∧ Z.pos mz = Z.pos p * 2 ^ (- ez) ∧ Z.pos (digits2_pos mz) + ez <= 65)
    as (mz & ez & E & Hez & Hmz & Hdz).
  { destruct k as [|q|q] eqn:Ek; [exists p, 0; split; [done|lia]..|].
    assert (Hit : ∀ q : positive, Z.pos (Pos.iter xO p q) = Z.pos p * 2 ^ Z.pos q).
    { intros q'. induction q' as [|q' IH] using Pos.peano_ind; [cbn; lia|].
      rewrite Pos.iter_succ, Pos2Z.inj_xO, IH, Pos2Z.inj_succ, Z.pow_succ_r by lia. lia. }
    eexists _, _. split; [done|]. rewrite Hit. split; [lia|]. split; [done|].
    pose proof (digits_bounds (Pos.iter xO p q)) as [H1 _]. rewrite Hit in H1.
    assert (Z.pos (digits2_pos (Pos.iter xO p q)) - 1 < Z.pos (digits2_pos p) + Z.pos q); [|lia].
    apply (Z.pow_lt_mono_r_iff 2); [lia..|]. rewrite Z.pow_add_r by lia.
    eapply Z.le_lt_trans; [exact H1|]. apply Z.mul_lt_mono_pos_r; lia. }
  rewrite E. destruct (round_units (z <? 0) mz ez loc_Exact) as (m & e & Er & He & Hd' & Hn);
    [lia..|by left|].
  exists m, e. split; [done|]. split; [lia|].
  assert (Hu : units mz ez = Z.pos p * 2 ^ 200).
  { unfold units. rewrite Hmz, <- Z.mul_assoc, <- Z.pow_add_r by lia. do 2 f_equal. lia. }
  rewrite Hu in Hn. split; [split; [|lia]|done].
  pose proof (digits_bounds m) as [_ H2].
  assert (199 < Z.pos (digits2_pos m) + (e + 200)); [|lia].
  apply (Z.pow_lt_mono_r_iff 2); [lia..|]. rewrite Z.pow_add_r by lia.
  apply Z.lt_trans with (units m e); [unfold close in Hn; lia|].
  apply Z.mul_lt_mono_pos_r; lia.
Qed.

Lemma digits_mul m n : Z.pos (digits2_pos (m * n)) <= Z.pos (digits2_pos m) + Z.pos (digits2_pos n).
Proof.
  pose proof (digits_bounds m) as [_ Hm]. pose proof (digits_bounds n) as [_ Hn].
  pose proof (digits_bounds (m * n)) as [H1 _]. rewrite Pos2Z.inj_mul in H1.
  assert (Z.pos (digits2_pos (m * n)) - 1 < Z.pos (digits2_pos m) + Z.pos (digits2_pos n)); [|lia].
  apply (Z.pow_lt_mono_r_iff 2); [lia..|]. rewrite Z.pow_add_r by lia.
  eapply Z.le_lt_trans; [exact H1|]. apply Z.mul_lt_mono_nonneg; lia.
Qed.

(** A product. *)
Lemma fmul_near s1 m1 e1 s2 m2 e2 :
  -100 <= e1 → -40 <= e2 →
  Z.pos (digits2_pos m1) + e1 <= 70 → Z.pos (digits2_pos m2) + e2 <= 20 →
  ∃ m e, fmul (S754_finite s1 m1 e1) (S754_finite s2 m2 e2) = S754_finite (xorb s1 s2) m e ∧
    -140 <= e ∧ Z.pos (digits2_pos m) + e <= 92 ∧
    close (units m e * 2 ^ 200) (units m1 e1 * units m2 e2).
Proof.
  intros H1 H2 D1 D2. unfold fmul. cbn [SFmul]. pose proof (digits_mul m1 m2).
  destruct (round_units (xorb s1 s2) (m1 * m2) (e1 + e2) loc_Exact) as (m & e & -> & He & Hd & Hn);
    [lia..|by left|].
  exists m, e. split; [done|]. split; [lia|]. split; [lia|]. unfold close in *.
  replace (units m1 e1 * units m2 e2) with (units (m1 * m2) (e1 + e2) * 2 ^ 200).
  - by apply near_scale; [lia|].
  - unfold units. rewrite Pos2Z.inj_mul, <- Z.mul_assoc, <- Z.pow_add_r by lia.
    rewrite (Z.mul_comm (Z.pos m2)), Z.mul_assoc, <- (Z.mul_assoc (Z.pos m1)).
    replace (e1 + e2 + 200 + 200) with (e1 + 200 + (e2 + 200)) by lia.
    rewrite Z.pow_add_r by lia. ring.
Qed.

(** A quotient, from above. *)
Lemma fdiv_le s1 m1 e1 s2 m2 e2 :
  -23 <= e1 → -23 <= e2 →
  Z.pos (digits2_pos m1) + e1 <= 66 → Z.pos (digits2_pos m2) + e2 <= 66 →
  -1 <= Z.pos (digits2_pos m1) + e1 → -1 <= Z.pos (digits2_pos m2) + e2 →
  ∃ m e, fdiv (S754_finite s1 m1 e1) (S754_finite s2 m2 e2) = S754_finite (xorb s1 s2) m e ∧
    -100 <= e ∧ Z.pos (digits2_pos m) + e <= 99 ∧
    2 ^ 23 * (units m e * units m2 e2) <= (2 ^ 23 + 1) * (units m1 e1 * 2 ^ 200).
Proof.
  intros H1 H2 D1 D2 L1 L2. unfold fdiv. cbn [SFdiv].
  pose proof (digits_bounds m1) as B1. pose proof (digits_bounds m2) as B2.
  set (d1 := Z.pos (digits2_pos m1)) in *. set (d2 := Z.pos (digits2_pos m2)) in *.
  destruct (SFdiv_core_binary 24 128 (Z.pos m1) e1 (Z.pos m2) e2) as [[q e'] l] eqn:E.
  assert (∃ s, 0 <= s ∧ e' + s = e1 - e2 ∧ d2 - d1 + 24 <= s ∧ -91 <= e' ∧
    q = Z.pos m1 * 2 ^ s / Z.pos m2) as (s & Hs & Hes & Hsd & He' & Hq).
  { revert E. unfold SFdiv_core_binary. cbn [Zdigits2]. fold d1 d2.
    replace (fexp 24 128 (d1 + e1 - (d2 + e2))) with (d1 + e1 - (d2 + e2) - 24)
      by (unfold fexp, emin; lia).
    set (x := Z.min _ _). set (s := e1 - e2 - x).
    assert (match s with Z0 => Z.pos m1 | Z.pos _ => Z.shiftl (Z.pos m1) s | Z.neg _ => 0 end =
            Z.pos m1 * 2 ^ s) as ->.
    { destruct s as [|p|p] eqn:Es; [lia|by rewrite Z.shiftl_mul_pow2 by lia|].
      exfalso. subst x. lia. }
    assert (Hdiv : Z.pos m1 * 2 ^ s / Z.pos m2 = fst (Z.div_eucl (Z.pos m1 * 2 ^ s) (Z.pos m2)))
      by (unfold Z.div; by destruct (Z.div_eucl _ _)).
    change IntDef.Z.div_eucl with Z.div_eucl.
    destruct (Z.div_eucl (Z.pos m1 * 2 ^ s) (Z.pos m2)) as [q' r].
    intros [= <- <- _]. exists s. rewrite Hdiv. subst s x. split_and!; (lia || done). }
  clear E. assert (Hlow : 2 ^ 23 * Z.pos m2 <= Z.pos m1 * 2 ^ s).
  { apply Z.le_trans with (2 ^ 23 * 2 ^ d2); [lia|]. rewrite <- Z.pow_add_r by lia.
    apply Z.le_trans with (2 ^ (d1 - 1) * 2 ^ s); [|apply Z.mul_le_mono_nonneg_r; lia].
    rewrite <- Z.pow_add_r by lia. apply Z.pow_le_mono_r; lia. }
  assert (Hq23 : 2 ^ 23 <= q) by (rewrite Hq; apply Z.div_le_lower_bound; lia).
  assert (Hqm : q * Z.pos m2 <= Z.pos m1 * 2 ^ s).
  { rewrite Hq, Z.mul_comm. apply Z.mul_div_le. lia. }
  clear Hq. destruct q as [|q|q]; [lia| |lia]. pose proof (digits_bounds q) as Bq.
  set (dq := Z.pos (digits2_pos q)) in *.
  assert (24 <= dq).
  { assert (23 < dq); [|lia]. apply (Z.pow_lt_mono_r_iff 2); lia. }
  assert (dq - 1 + (d2 - 1) < d1 + s).
  { apply (Z.pow_lt_mono_r_iff 2); [lia..|]. rewrite !Z.pow_add_r by lia.
    apply Z.le_lt_trans with (Z.pos q * Z.pos m2); [apply Z.mul_le_mono_nonneg; lia|].
    eapply Z.le_lt_trans; [exact Hqm|]. apply Z.mul_lt_mono_pos_r; lia. }
  destruct (round_units (xorb s1 s2) q e' l) as (m & e & -> & He & Hd & Hn); [lia..|by right|].
  exists m, e. split; [done|]. split; [lia|]. split; [lia|].
  assert (HU : 2 ^ 23 * units m e <= (2 ^ 23 + 1) * units q e') by (unfold close in Hn; lia).
  assert (HQ : units q e' * units m2 e2 <= units m1 e1 * 2 ^ 200).
  { unfold units. replace (e1 + 200) with (s + (e' + e2 + 200)) by lia.
    rewrite (Z.pow_add_r 2 s) by lia.
    replace (Z.pos q * 2 ^ (e' + 200) * (Z.pos m2 * 2 ^ (e2 + 200)))
      with (Z.pos q * Z.pos m2 * (2 ^ (e' + 200) * 2 ^ (e2 + 200))) by ring.
    replace (Z.pos m1 * (2 ^ s * 2 ^ (e' + e2 + 200)) * 2 ^ 200)
      with (Z.pos m1 * 2 ^ s * (2 ^ (e' + e2 + 200) * 2 ^ 200)) by ring.
    rewrite <- !Z.pow_add_r by lia.
    replace (e' + 200 + (e2 + 200)) with (e' + e2 + 200 + 200) by lia.
    apply Z.mul_le_mono_nonneg_r; [lia|done]. }
  assert (0 <= units m2 e2) by (unfold units; lia).
  apply Z.le_trans with ((2 ^ 23 + 1) * (units q e' * units m2 e2)); [|lia].
  rewrite !Z.mul_assoc. by apply Z.mul_le_mono_nonneg_r.
Qed.

Lemma truncate_units m e :
  -200 <= e →
  let a := Z.shiftl (Z.pos m) e in 0 <= a ∧ a * 2 ^ 200 <= units m e < (a + 1) * 2 ^ 200.
Proof.
  intros He a. split; [apply Z.shiftl_nonneg; lia|]. unfold a, units. destruct (decide (0 <= e)).
  - rewrite Z.shiftl_mul_pow2, Z.pow_add_r by lia. lia.
  - replace e with (- (- e)) by lia. rewrite Z.shiftl_opp_r, Z.shiftr_div_pow2 by lia.
    rewrite Z.opp_involutive. assert (Hs : 2 ^ 200 = 2 ^ (- e) * 2 ^ (e + 200))
      by (rewrite <- Z.pow_add_r by lia; f_equal; lia).
    rewrite Hs. pose proof (Z.div_mod (Z.pos m) (2 ^ (- e)) ltac:(lia)).
    pose proof (Z.mod_pos_bound (Z.pos m) (2 ^ (- e)) ltac:(lia)).
    assert (0 < 2 ^ (e + 200)) by lia. rewrite !Z.mul_assoc.
    split; [apply Z.mul_le_mono_nonneg_r; lia|apply Z.mul_lt_mono_pos_r; lia].
Qed.

(** Scaling a 32-bit integer by 0.99 and truncating: the result has the sign of
    the integer and 989 to 991 thousandths of its size. *)
Lemma scale_near z :
  in_s 32 z →
  ∃ r, to_int32 (fmul (float_of z) (literal 99 100)) = Ok r ∧ 0 <= r * Z.sgn z ∧
    1000 * Z.abs r <= 991 * Z.abs z ∧ 989 * Z.abs z < 1000 * (Z.abs r + 1).
Proof.
  intros Hz. unfold in_s in Hz. destruct (decide (z = 0)) as [->|Hn]; [by exists 0|].
  destruct (float_of_near z Hn ltac:(lia)) as (m & e & -> & He & Hd & Hz').
  replace (literal 99 100) with (S754_finite false 16609444 (-24)) by reflexivity.
  destruct (fmul_near (z <? 0) m e false 16609444 (-24)) as (m' & e' & -> & He' & _ & Hm');
    [lia..|cbn; lia|].
  rewrite xorb_false_r. unfold to_int32. cbn [truncate].
  destruct (truncate_units m' e' ltac:(lia)) as [Ha Hu]. set (a := Z.shiftl _ e') in *.
  assert (E : units 16609444 (-24) = 16609444 * 2 ^ 176) by reflexivity. rewrite E in Hm'.
  assert (1000 * a <= 991 * Z.abs z ∧ 989 * Z.abs z < 1000 * (a + 1)) as [H1 H2]
    by (unfold close in *; lia).
  exists (if z <? 0 then - a else a). rewrite decide_True by (unfold in_s; destruct (z <? 0); lia).
  split; [done|]. destruct (Z.ltb_spec z 0); [rewrite Z.sgn_neg|rewrite Z.sgn_pos]; lia.
Qed.

Lemma fmul_comm x y : fmul x y = fmul y x.
Proof.
  unfold fmul. destruct x, y; cbn; try done; try (f_equal; apply xorb_comm).
  by rewrite xorb_comm, Pos.mul_comm, Z.add_comm.
Qed.

Lemma digits_le m e n : -200 <= e → 0 <= n → units m e < 2 ^ (n + 200) → Z.pos (digits2_pos m) + e <= n.
Proof.
  intros He Hn Hu. pose proof (digits_bounds m) as [H1 _].
  assert (Z.pos (digits2_pos m) - 1 + (e + 200) < n + 200); [|lia].
  apply (Z.pow_lt_mono_r_iff 2); [lia..|]. rewrite Z.pow_add_r by lia.
  eapply Z.le_lt_trans; [|exact Hu]. apply Z.mul_le_mono_nonneg_r; lia.
Qed.

(** The integer side of [ratio_le], with the scale [2 ^ 200] kept abstract. *)
Lemma ratio_bound u ub ua a b p :
  0 < p → 0 <= a <= b → 0 <= u →
  u * ((2 ^ 23 - 1) * (b * p)) <= u * (2 ^ 23 * ub) →
  2 ^ 23 * (u * ub) <= (2 ^ 23 + 1) * (ua * p) → 2 ^ 23 * ua <= (2 ^ 23 + 1) * (a * p) →
  (2 ^ 23 - 1) * 2 ^ 23 * u * (b * p) <= (2 ^ 23 + 1) * (2 ^ 23 + 1) * p * (b * p).
Proof.
  intros Hp Ha Hu H1 H2 H3.
  assert (p * (2 ^ 23 * ua) <= p * ((2 ^ 23 + 1) * (a * p))) by (apply Z.mul_le_mono_nonneg_l; lia).
  assert (a * (p * p) <= b * (p * p)) by (apply Z.mul_le_mono_nonneg_r; nia). lia.
Qed.

(** A ratio of 64-bit integers that is at most one, times a small integer, is at most
    that integer when truncated. *)
Lemma ratio_le a b c :
  0 <= a <= b → 0 < b <= 2 ^ 64 → 0 <= c <= 200 →
  ∃ r, to_uint32 (fmul (fdiv (float_of a) (float_of b)) (float_of c)) = Ok r ∧ 0 <= r <= c.
Proof.
  intros Ha Hb Hc.
  destruct (float_of_near b ltac:(lia) ltac:(lia)) as (mb & eb & Eb & Heb & Hdb & Hub).
  rewrite Eb, (proj2 (Z.ltb_ge b 0)) by lia.
  destruct (decide (a = 0)) as [->|Ha0].
  { exists 0. split; [|lia]. change (float_of 0) with (S754_zero false). cbn [fdiv SFdiv xorb].
    destruct (decide (c = 0)) as [->|]; [done|].
    by destruct (float_of_near c ltac:(lia) ltac:(lia)) as (mc & ec & -> & _). }
  destruct (float_of_near a ltac:(lia) ltac:(lia)) as (ma & ea & Ea & Hea & Hda & Hua).
  rewrite Ea, (proj2 (Z.ltb_ge a 0)) by lia.
  destruct (fdiv_le false ma ea false mb eb) as (m & e & Ed & He & Hd & Hle); [lia..|]. rewrite Ed. clear Ed.
  destruct (decide (c = 0)) as [->|Hc0]; [by exists 0|].
  destruct (float_of_near c ltac:(lia) ltac:(lia)) as (mc & ec & Ec & Hec & Hdc & Huc).
  rewrite Ec, (proj2 (Z.ltb_ge c 0)) by lia.
  assert (Hc20 : Z.pos (digits2_pos mc) + ec <= 20) by (apply digits_le; unfold close in Huc; lia).
  assert (Hue : (2 ^ 23 - 1) * 2 ^ 23 * units m e <= (2 ^ 23 + 1) * (2 ^ 23 + 1) * 2 ^ 200).
  { apply (Z.mul_le_mono_pos_r _ _ (b * 2 ^ 200)); [lia|].
    assert (0 <= units m e) by (unfold units; lia).
    assert (H1 : units m e * ((2 ^ 23 - 1) * (b * 2 ^ 200)) <= units m e * (2 ^ 23 * units mb eb))
      by (apply Z.mul_le_mono_nonneg_l; [done|unfold close in Hub; lia]).
    apply (ratio_bound _ (units mb eb) (units ma ea) a); [lia..|exact H1|exact Hle|].
    unfold close in Hua. lia. }
  assert (Z.pos (digits2_pos m) + e <= 1) by (apply digits_le; lia).
  destruct (fmul_near false m e false mc ec) as (m3 & e3 & E3 & He3 & _ & H3); [lia..|].
  cbn [xorb]. rewrite E3. unfold to_uint32. cbn [truncate xorb].
  destruct (truncate_units m3 e3 ltac:(lia)) as [Ht Hu3]. set (r := Z.shiftl _ e3) in *.
  assert (Hr : r <= c).
  { assert (0 <= units m e) by (unfold units; lia).
    assert (H1 : units m e * (2 ^ 23 * units mc ec) <= units m e * ((2 ^ 23 + 1) * (c * 2 ^ 200)))
      by (apply Z.mul_le_mono_nonneg_l; [done|unfold close in Huc; lia]).
    assert (H2 : c * ((2 ^ 23 - 1) * 2 ^ 23 * units m e) <= c * ((2 ^ 23 + 1) * (2 ^ 23 + 1) * 2 ^ 200))
      by (apply Z.mul_le_mono_nonneg_l; [lia|done]).
    unfold close in H3. lia. }
  exists r. rewrite decide_True by (unfold in_u; lia). by split.
Qed.

(** ** Bit patterns *)

(** The value of 32 bits: sign, eight bits of exponent, 23 of significand. *)
Definition of_bits (b : Z) : float :=
  let sign := Z.testbit b 31 in
  let e := Z.land (Z.shiftr b 23) 255 in
  let m := Z.land b (2 ^ 23 - 1) in
  if e =? 255 then if m =? 0 then S754_infinity sign else S754_nan
  else if e =? 0 then
    match m with Z.pos p => S754_finite sign p (-149) | _ => S754_zero sign end
  else
    match m + 2 ^ 23 with Z.pos p => S754_finite sign p (e - 150) | _ => S754_zero sign end.

(** The patterns of [0.0f] and [1.0f]. *)
Definition ZERO_BITS : Z := 0.
Definition ONE_BITS : Z := 127 * 2 ^ 23.

Lemma of_zero_bits : of_bits ZERO_BITS = f_zero.
Proof. reflexivity. Qed.

Lemma of_one_bits : of_bits ONE_BITS = f_one.
Proof. reflexivity. Qed.
