(* ===== verification/Doubles.v ===== *)
(** Double-precision arithmetic: the C++ [double] as IEEE 754 binary64, computed by
    the Standard Library's [SpecFloat] with 53 bits of precision, and the fact
    that it is exact on integers below [2 ^ 53]. *)

From S2P Require Import Prelude Floats.

Definition dmul : float → float → float := SFmul 53 1024.
Definition dadd : float → float → float := SFadd 53 1024.
Definition dsub : float → float → float := SFsub 53 1024.
Definition ddiv : float → float → float := SFdiv 53 1024.

(** [static_cast<double>(z)]. *)
Definition double_of (z : Z) : float := binary_normalize 53 1024 z 0 false.

(** [std::min(x, y)]: the first unless the second is less. *)
Definition fmin (x y : float) : float := if fltb y x then y else x.

(** ** Rounding what needs none *)

Lemma iter_exact (p x m : positive) :
  Z.pos m = Z.pos x * 2 ^ Z.pos p →
  SpecFloat.iter_pos shr_1 p (Build_shr_record (Z.pos m) false false) =
  Build_shr_record (Z.pos x) false false.
Proof.
  assert (Hy : ∀ (x q : positive), ∃ y, Z.pos y = Z.pos x * 2 ^ Z.pos q).
  { intros y q. exists (Z.to_pos (Z.pos y * 2 ^ Z.pos q)). apply Z2Pos.id. lia. }
  revert x m. induction p as [p IH|p IH|]; intros x m Hm; cbn [SpecFloat.iter_pos];
    destruct (Hy x p) as [y Ey] || idtac.
  - assert (E : 2 ^ Z.pos p~1 = 2 ^ Z.pos p * 2 ^ Z.pos p * 2).
    { replace (Z.pos p~1) with (Z.pos p + Z.pos p + 1) by lia. by rewrite !Z.pow_add_r by lia. }
    rewrite E in Hm.
    destruct m as [m|m|]; [lia| |lia]. cbn [shr_1 orb].
    rewrite (IH y m) by lia. by apply IH.
  - replace (Z.pos p~0) with (Z.pos p + Z.pos p) in Hm by lia. rewrite Z.pow_add_r in Hm by lia.
    rewrite (IH y m) by lia. by apply IH.
  - rewrite Z.pow_1_r in Hm. destruct m as [m|m|]; [lia| |lia]. cbn [shr_1 orb]. do 2 f_equal. lia.
Qed.

(** The integer [x] in 53 bits. *)
Definition in_53 (s : bool) (x : positive) : float :=
  S754_finite s (Z.to_pos (Z.pos x * 2 ^ (53 - Z.pos (digits2_pos x)))) (Z.pos (digits2_pos x) - 53).

Lemma digits_unique (y : positive) d : 0 <= d → 2 ^ d <= Z.pos y < 2 ^ (d + 1) → Z.pos (digits2_pos y) = d + 1.
Proof.
  intros Hd Hy. pose proof (digits_bounds y) as Hb.
  assert (Z.pos (digits2_pos y) - 1 < d + 1) by (apply (Z.pow_lt_mono_r_iff 2); lia).
  assert (d < Z.pos (digits2_pos y)) by (apply (Z.pow_lt_mono_r_iff 2); lia). lia.
Qed.

Lemma digits_shifted x k y :
  0 <= k → Z.pos y = Z.pos x * 2 ^ k → Z.pos (digits2_pos y) = Z.pos (digits2_pos x) + k.
Proof.
  intros Hk E. pose proof (digits_bounds x) as Hb.
  replace (Z.pos (digits2_pos x) + k) with ((Z.pos (digits2_pos x) - 1 + k) + 1) by lia.
  apply digits_unique; [lia|]. rewrite E.
  replace (Z.pos (digits2_pos x) - 1 + k + 1) with (Z.pos (digits2_pos x) + k) by lia.
  rewrite !Z.pow_add_r by lia.
  split; [apply Z.mul_le_mono_nonneg_r; lia|apply Z.mul_lt_mono_pos_r; lia].
Qed.

Lemma to_pos_shifted (x : positive) k : 0 <= k → Z.pos (Z.to_pos (Z.pos x * 2 ^ k)) = Z.pos x * 2 ^ k.
Proof. intros. apply Z2Pos.id. lia. Qed.

(** A mantissa of exactly 53 digits is left alone. *)
Lemma shr_exactly m e :
  Z.pos (digits2_pos m) = 53 → -1000 <= e →
  shr_fexp 53 1024 (Z.pos m) e loc_Exact = (Build_shr_record (Z.pos m) false false, e).
Proof.
  intros Hd He. unfold shr_fexp. cbn [Zdigits2 shr_record_of_loc].
  by replace (fexp 53 1024 (Z.pos (digits2_pos m) + e) - e) with 0 by (unfold fexp, emin; lia).
Qed.

(** Rounding a longer mantissa that ends in zeros drops them. *)
Lemma round_aux_exact s (x m : positive) k :
  Z.pos (digits2_pos x) <= 53 → 53 - Z.pos (digits2_pos x) <= k → k <= 500 →
  Z.pos m = Z.pos x * 2 ^ k →
  binary_round_aux 53 1024 s (Z.pos m) (- k) loc_Exact = in_53 s x.
Proof.
  intros Hd Hk Hk' Hm. set (d := Z.pos (digits2_pos x)) in *.
  set (y := Z.to_pos (Z.pos x * 2 ^ (53 - d))).
  assert (Hy : Z.pos y = Z.pos x * 2 ^ (53 - d)) by (apply to_pos_shifted; lia).
  assert (Hyd : Z.pos (digits2_pos y) = 53) by (rewrite (digits_shifted x (53 - d) y) by (done || lia); lia).
  assert (shr_fexp 53 1024 (Z.pos m) (- k) loc_Exact = (Build_shr_record (Z.pos y) false false, d - 53))
    as E.
  { unfold shr_fexp. cbn [Zdigits2 shr_record_of_loc].
    rewrite (digits_shifted x k m) by (done || lia). fold d.
    replace (fexp 53 1024 (d + k + - k) - - k) with (k - (53 - d)) by (unfold fexp, emin; lia).
    assert (Hs : Z.pos m = Z.pos y * 2 ^ (k - (53 - d))).
    { rewrite Hm, Hy, <- Z.mul_assoc, <- Z.pow_add_r by lia. do 2 f_equal. lia. }
    destruct (k - (53 - d)) as [|p|p] eqn:Ek; [|  |lia]; cbn [shr fst snd].
    - rewrite Hs, Z.mul_1_r. f_equal. lia.
    - rewrite (iter_exact p y m) by done. f_equal. lia. }
  unfold binary_round_aux. rewrite E. cbn [shr_m loc_of_shr_record shr_r shr_s round_nearest_even].
  rewrite shr_exactly by (done || lia). cbn [shr_m].
  rewrite (proj2 (Z.leb_le _ _)) by lia. done.
Qed.

(** The same for a mantissa that may also be too short. *)
Lemma round_exact s (x m : positive) k :
  Z.pos (digits2_pos x) <= 53 → 0 <= k <= 500 → Z.pos m = Z.pos x * 2 ^ k →
  binary_round 53 1024 s m (- k) = in_53 s x.
Proof.
  intros Hd Hk Hm. set (d := Z.pos (digits2_pos x)) in *.
  unfold binary_round, shl_align.
  rewrite (digits_shifted x k m) by (done || lia). fold d.
  replace (fexp 53 1024 (d + k + - k) - - k) with (k - (53 - d)) by (unfold fexp, emin; lia).
  replace (fexp 53 1024 (d + k + - k)) with (- (53 - d)) by (unfold fexp, emin; lia).
  destruct (k - (53 - d)) as [|p|p] eqn:Ek.
  - apply round_aux_exact; (done || lia).
  - apply round_aux_exact; (done || lia).
  - apply round_aux_exact; [done|lia..|].
    etransitivity; [exact (shift_pos_correct p m)|].
    change (Z.pow_pos 2 p) with (2 ^ Z.pos p). rewrite Hm, Z.mul_comm, <- Z.mul_assoc, <- Z.pow_add_r by lia.
    do 2 f_equal. lia.
Qed.

(** ** Integers *)

Definition in_range (z : Z) : Prop := 0 <= z < 2 ^ 53.

Lemma digits_53 x : in_range (Z.pos x) → Z.pos (digits2_pos x) <= 53.
Proof.
  intros [_ H]. pose proof (digits_bounds x). assert (Z.pos (digits2_pos x) - 1 < 53); [|lia].
  apply (Z.pow_lt_mono_r_iff 2); lia.
Qed.

Lemma double_of_pos x : in_range (Z.pos x) → double_of (Z.pos x) = in_53 false x.
Proof. intros Hx%digits_53. apply (round_exact false x x 0); lia. Qed.

(** Bringing an operand to a smaller exponent. *)
Lemma aligned m e e' : e' <= e → Z.pos (shl_align m e e').1 = Z.pos m * 2 ^ (e - e').
Proof.
  intros He. unfold shl_align. destruct (e' - e) as [|p|p] eqn:E; [|lia|].
  - replace (e - e') with 0 by lia. cbn [fst]. lia.
  - cbn [fst]. etransitivity; [exact (shift_pos_correct p m)|].
    change (Z.pow_pos 2 p) with (2 ^ Z.pos p). replace (e - e') with (Z.pos p) by lia. apply Z.mul_comm.
Qed.

Lemma aligned_integer x e :
  Z.pos (digits2_pos x) <= 53 → e <= Z.pos (digits2_pos x) - 53 →
  Z.pos (shl_align (Z.to_pos (Z.pos x * 2 ^ (53 - Z.pos (digits2_pos x))))
           (Z.pos (digits2_pos x) - 53) e).1 = Z.pos x * 2 ^ (- e).
Proof.
  intros Hd He. rewrite aligned, to_pos_shifted, <- Z.mul_assoc, <- Z.pow_add_r by lia.
  do 2 f_equal. lia.
Qed.

(** What an exact integer result is normalised to. *)
Lemma normalize_exact z e :
  in_range z → -500 <= e <= 0 → binary_normalize 53 1024 (z * 2 ^ (- e)) e false = double_of z.
Proof.
  intros Hz He. destruct z as [|x|x]; [done| |unfold in_range in Hz; lia].
  rewrite double_of_pos by done.
  destruct (Z.pos x * 2 ^ (- e)) as [|m|m] eqn:E; [lia| |lia]. cbn [binary_normalize].
  replace e with (- - e) by lia. apply round_exact; [by apply digits_53|lia|done].
Qed.

Lemma dadd_exact a b :
  0 <= a → 0 <= b → in_range (a + b) → dadd (double_of a) (double_of b) = double_of (a + b).
Proof.
  intros Ha Hb Hab. unfold in_range in Hab.
  destruct a as [|x|x]; [|  |lia]; (destruct b as [|y|y]; [|  |lia]); try done.
  - rewrite Z.add_0_l, double_of_pos by (unfold in_range; lia). done.
  - rewrite Z.add_0_r, double_of_pos by (unfold in_range; lia). done.
  - assert (Hx : in_range (Z.pos x)) by (unfold in_range; lia).
    assert (Hy : in_range (Z.pos y)) by (unfold in_range; lia).
    rewrite !double_of_pos by done. unfold dadd, in_53. cbn [SFadd]. cbn zeta.
    set (e := Z.min _ _). pose proof (digits_53 _ Hx). pose proof (digits_53 _ Hy).
    cbn [cond_Zopp]. rewrite !aligned_integer by lia. rewrite <- Z.mul_add_distr_r.
    apply normalize_exact; [unfold in_range; lia|lia].
Qed.

Lemma dsub_exact a b :
  0 <= b <= a → in_range a → dsub (double_of a) (double_of b) = double_of (a - b).
Proof.
  intros Hb Ha. pose proof Ha as Ha'. unfold in_range in Ha'.
  destruct b as [|y|y]; [|  |lia]; (destruct a as [|x|x]; [|  |lia]); try done; try lia.
  - rewrite Z.sub_0_r, double_of_pos by done. done.
  - assert (Hy : in_range (Z.pos y)) by (unfold in_range; lia).
    rewrite (double_of_pos x), (double_of_pos y) by done. unfold dsub, in_53. cbn [SFsub]. cbn zeta.
    set (e := Z.min _ _). pose proof (digits_53 _ Ha). pose proof (digits_53 _ Hy).
    cbn [cond_Zopp]. rewrite !aligned_integer by lia. rewrite <- Z.mul_sub_distr_r.
    apply normalize_exact; [unfold in_range; lia|lia].
Qed.

Lemma dmul_one a : in_range a → dmul (double_of a) (double_of 1) = double_of a.
Proof.
  intros Ha. destruct a as [|x|x]; [done| |unfold in_range in Ha; lia].
  rewrite (double_of_pos x) by done. rewrite double_of_pos by (unfold in_range; lia).
  unfold dmul, in_53 at 1 2. cbn [SFmul]. pose proof (digits_53 _ Ha).
  change (digits2_pos 1) with 1%positive. change (Z.to_pos (1 * 2 ^ (53 - 1))) with (2 ^ 52)%positive.
  replace (Z.pos (digits2_pos x) - 53 + (1 - 53)) with (- (105 - Z.pos (digits2_pos x))) by lia.
  apply round_aux_exact; [done|lia..|]. rewrite Pos2Z.inj_mul, to_pos_shifted by lia.
  change (Z.pos (2 ^ 52)) with (2 ^ 52). rewrite <- Z.mul_assoc, <- Z.pow_add_r by lia. do 2 f_equal. lia.
Qed.

Lemma fltb_exact a b :
  in_range a → in_range b → fltb (double_of a) (double_of b) = (a <? b).
Proof.
  intros Ha Hb. destruct a as [|x|x]; [|  |unfold in_range in Ha; lia];
    (destruct b as [|y|y]; [|  |unfold in_range in Hb; lia]); try done.
  - by rewrite double_of_pos.
  - rewrite double_of_pos by done. done.
  - rewrite !double_of_pos by done. pose proof (digits_53 _ Ha). pose proof (digits_53 _ Hb).
    unfold in_53, fltb, SFltb, SFcompare. pose proof (digits_bounds x) as Bx.
    pose proof (digits_bounds y) as By. set (dx := Z.pos (digits2_pos x)) in *.
    set (dy := Z.pos (digits2_pos y)) in *.
    destruct (Z.compare_spec (dx - 53) (dy - 53)) as [E|E|E].
    + rewrite compare_cont_eq, Pos2Z.inj_compare, !to_pos_shifted by lia. replace dy with dx by lia.
      symmetry. destruct (Z.ltb_spec (Z.pos x) (Z.pos y)) as [L|L].
      * by rewrite (proj2 (Z.compare_lt_iff _ _)) by (apply Z.mul_lt_mono_pos_r; lia).
      * destruct (Z.compare_spec (Z.pos x * 2 ^ (53 - dx)) (Z.pos y * 2 ^ (53 - dx))); try done.
        assert (Z.pos y * 2 ^ (53 - dx) <= Z.pos x * 2 ^ (53 - dx))
          by (apply Z.mul_le_mono_nonneg_r; lia). lia.
    + symmetry. apply Z.ltb_lt. assert (2 ^ dx <= 2 ^ (dy - 1)) by (apply Z.pow_le_mono_r; lia). lia.
    + symmetry. apply Z.ltb_ge. assert (2 ^ dy <= 2 ^ (dx - 1)) by (apply Z.pow_le_mono_r; lia). lia.
Qed.

Lemma fmin_exact a b :
  in_range a → in_range b → fmin (double_of a) (double_of b) = double_of (Z.min a b).
Proof.
  intros Ha Hb. unfold fmin. rewrite fltb_exact by done.
  destruct (Z.ltb_spec b a); f_equal; lia.
Qed.
