(* ===== verification/RoutingTable.v ===== *)
(** The routing table: [RoutingEntry] and [RoutingTable] of
    src/network/router.hpp and router.cpp.

    The table keeps an entry per known node and an index from content to the
    nodes that advertise it.  Scores are [float]s ([Floats]).  The clock is
    read once per operation. *)

From S2P Require Import Prelude Common Floats.

(** ** Entries *)

Record RoutingEntry := MkRoutingEntry {
  re_node_id : NodeID;
  advertised_content : list ContentHash;
  hop_distance : Z;
  last_seen_timestamp : Z;
  reliability_score : float
}.

(** The constructor from a node and a distance. *)
Definition new_entry (n : NodeID) (hops : Z) : RoutingEntry := MkRoutingEntry n [] hops 0 f_one.

Definition ENTRY_TTL_SECONDS : Z := 3600.

Definition MIN_RELIABILITY_SCORE : float := literal 3 10.

Definition is_stale (now : Z) (e : RoutingEntry) : bool :=
  ENTRY_TTL_SECONDS <? u64 (now - last_seen_timestamp e).

Definition set_advertised (cs : list ContentHash) (e : RoutingEntry) : RoutingEntry :=
  MkRoutingEntry (re_node_id e) cs (hop_distance e) (last_seen_timestamp e) (reliability_score e).

Definition set_hops (hops : Z) (e : RoutingEntry) : RoutingEntry :=
  MkRoutingEntry (re_node_id e) (advertised_content e) hops (last_seen_timestamp e)
    (reliability_score e).

Definition set_seen (now : Z) (e : RoutingEntry) : RoutingEntry :=
  MkRoutingEntry (re_node_id e) (advertised_content e) (hop_distance e) now (reliability_score e).

Definition set_reliability (r : float) (e : RoutingEntry) : RoutingEntry :=
  MkRoutingEntry (re_node_id e) (advertised_content e) (hop_distance e) (last_seen_timestamp e) r.

(** ** The table *)

Record RoutingTable := MkRoutingTable {
  rt_entries : gmap NodeID RoutingEntry;
  content_index : gmap ContentHash (list NodeID)
}.

Definition empty_table : RoutingTable := MkRoutingTable ∅ ∅.

Definition update_node_seen (n : NodeID) (now : Z) (t : RoutingTable) : RoutingTable :=
  match rt_entries t !! n with
  | None => t
  | Some e => MkRoutingTable (<[n := set_seen now e]> (rt_entries t)) (content_index t)
  end.

Definition add_node (n : NodeID) (hops now : Z) (t : RoutingTable) : RoutingTable :=
  match rt_entries t !! n with
  | None =>
      MkRoutingTable (<[n := set_seen now (new_entry n hops)]> (rt_entries t)) (content_index t)
  | Some e =>
      let t :=
        if hops <? hop_distance e
        then MkRoutingTable (<[n := set_hops hops e]> (rt_entries t)) (content_index t) else t in
      update_node_seen n now t
  end.

(** [hosts.erase(remove(...))], dropping an index entry that becomes empty. *)
Definition drop_host (n : NodeID) (index : gmap ContentHash (list NodeID)) (c : ContentHash) :
    gmap ContentHash (list NodeID) :=
  match index !! c with
  | None => index
  | Some hosts =>
      match filter (λ h, h ≠ n) hosts with
      | [] => delete c index
      | hosts => <[c := hosts]> index
      end
  end.

Definition remove_node (n : NodeID) (t : RoutingTable) : RoutingTable :=
  match rt_entries t !! n with
  | None => t
  | Some e =>
      MkRoutingTable (delete n (rt_entries t))
        (foldl (drop_host n) (content_index t) (advertised_content e))
  end.

(** [0.7f * old + 0.3f * score], clamped. *)
Definition smoothed (old score : float) : float :=
  fadd (fmul (literal 7 10) old) (fmul (literal 3 10) score).

Definition clamp_low (r : float) : float := if fltb r f_zero then f_zero else r.
Definition clamp_high (r : float) : float := if fltb f_one r then f_one else r.

Definition update_node_reliability (n : NodeID) (score : float) (t : RoutingTable) : RoutingTable :=
  match rt_entries t !! n with
  | None => t
  | Some e =>
      MkRoutingTable
        (<[n := set_reliability (clamp_high (clamp_low (smoothed (reliability_score e) score))) e]>
           (rt_entries t)) (content_index t)
  end.

Definition get_entry (n : NodeID) (t : RoutingTable) : option RoutingEntry := rt_entries t !! n.

Definition get_all_entries (t : RoutingTable) : list RoutingEntry := (entries (rt_entries t)).*2.

(** [find] before [push_back]. *)
Definition push_new {A} `{EqDecision A} (x : A) (l : list A) : list A :=
  if decide (x ∈ l) then l else l ++ [x].

Definition advertise_content (n : NodeID) (c : ContentHash) (t : RoutingTable) : RoutingTable :=
  MkRoutingTable
    (match rt_entries t !! n with
     | Some e => <[n := set_advertised (push_new c (advertised_content e)) e]> (rt_entries t)
     | None => rt_entries t
     end)
    (<[c := push_new n (default [] (content_index t !! c))]> (content_index t)).

Definition remove_content_advertisement (n : NodeID) (c : ContentHash) (t : RoutingTable) :
    RoutingTable :=
  MkRoutingTable
    (match rt_entries t !! n with
     | Some e => <[n := set_advertised (filter (λ x, x ≠ c) (advertised_content e)) e]> (rt_entries t)
     | None => rt_entries t
     end)
    (drop_host n (content_index t) c).

Definition find_hosts_for_content (c : ContentHash) (t : RoutingTable) : list NodeID :=
  default [] (content_index t !! c).

Definition has_content_route (c : ContentHash) (t : RoutingTable) : bool :=
  match content_index t !! c with Some (_ :: _) => true | _ => false end.

(** [reliability / (1.0f + hops)]. *)
Definition host_score (e : RoutingEntry) : float :=
  fdiv (reliability_score e) (fadd f_one (float_of (hop_distance e))).

Definition usable (now : Z) (e : RoutingEntry) : bool :=
  negb (is_stale now e || fltb (reliability_score e) MIN_RELIABILITY_SCORE).

(** One iteration over the hosts, on [(best_host, best_score)]. *)
Definition better_host (now : Z) (t : RoutingTable) (best : NodeID * float) (h : NodeID) :
    NodeID * float :=
  match get_entry h t with
  | None => best
  | Some e =>
      if negb (usable now e) then best
      else if fltb best.2 (host_score e) then (h, host_score e) else best
  end.

Definition select_best_host (c : ContentHash) (now : Z) (t : RoutingTable) : option NodeID :=
  match find_hosts_for_content c t with
  | [] => None
  | h :: hosts =>
      let '(best_host, best_score) := foldl (better_host now t) (h, f_minus_one) (h :: hosts) in
      if fltb best_score f_zero then None else Some best_host
  end.

(** The scored hosts, in index order. *)
Definition scored_hosts (now : Z) (t : RoutingTable) (hosts : list NodeID) :
    list (NodeID * float) :=
  omap (λ h, match get_entry h t with
             | Some e => if usable now e then Some (h, host_score e) else None
             | None => None
             end) hosts.

(** [sort] is [std::sort] by descending score, which leaves the order of equal
    scores open. *)
Definition select_multiple_hosts (sort : list (NodeID * float) → list (NodeID * float))
    (c : ContentHash) (count now : Z) (t : RoutingTable) : list NodeID :=
  match find_hosts_for_content c t with
  | [] => []
  | hosts =>
      let sorted := sort (scored_hosts now t hosts) in
      (take (Z.to_nat (Z.min count (len sorted))) sorted).*1
  end.

Definition cleanup_stale_entries (now : Z) (t : RoutingTable) : RoutingTable :=
  let to_remove := (filter (λ p, is_stale now p.2 = true) (entries (rt_entries t))).*1 in
  foldl (λ t n, remove_node n t) t to_remove.

Definition entry_count (t : RoutingTable) : Z := Z.of_nat (size (rt_entries t)).
Definition content_index_size (t : RoutingTable) : Z := Z.of_nat (size (content_index t)).

(** ** The invariant *)

(** The hosts listed for [c]. *)
Abbreviation hosts_of := find_hosts_for_content.

Definition score_ok (r : float) : Prop := fltb r f_zero = false ∧ fltb f_one r = false.

Record entry_ok (t : RoutingTable) (n : NodeID) (e : RoutingEntry) : Prop := {
  eo_key : re_node_id e = n;
  eo_hops : in_u 8 (hop_distance e);
  eo_score : score_ok (reliability_score e);
  eo_nodup : NoDup (advertised_content e);
  eo_listed : ∀ c, c ∈ advertised_content e → n ∈ hosts_of c t
}.

Record table_ok (t : RoutingTable) : Prop := {
  to_entries : ∀ n e, rt_entries t !! n = Some e → entry_ok t n e;
  to_index : ∀ c hosts, content_index t !! c = Some hosts → hosts ≠ [] ∧ NoDup hosts
}.

(** Every listed host has an entry that advertises the content. *)
Definition closed (t : RoutingTable) : Prop :=
  ∀ c n, n ∈ hosts_of c t → ∃ e, rt_entries t !! n = Some e ∧ c ∈ advertised_content e.

(** ** The index *)

Definition listed (index : gmap ContentHash (list NodeID)) (c : ContentHash) : list NodeID :=
  default [] (index !! c).

Definition index_ok (index : gmap ContentHash (list NodeID)) : Prop :=
  ∀ c hosts, index !! c = Some hosts → hosts ≠ [] ∧ NoDup hosts.

Lemma listed_drop n index c c' :
  listed (drop_host n index c) c' =
  if decide (c' = c) then filter (λ h, h ≠ n) (listed index c) else listed index c'.
Proof.
  unfold drop_host, listed. destruct (decide (c' = c)) as [->|Hne].
  - destruct (index !! c) as [hosts|] eqn:E; cbn; [|by rewrite E].
    destruct (filter _ hosts) eqn:Ef; [by rewrite lookup_delete_eq|by rewrite lookup_insert_eq].
  - destruct (index !! c) as [hosts|] eqn:E; [|done].
    destruct (filter _ hosts) eqn:Ef; [by rewrite lookup_delete_ne|by rewrite lookup_insert_ne].
Qed.

Lemma listed_drops n index cs c :
  listed (foldl (drop_host n) index cs) c =
  if decide (c ∈ cs) then filter (λ h, h ≠ n) (listed index c) else listed index c.
Proof.
  revert index. induction cs as [|c0 cs IH]; intros index; cbn [foldl]; [done|].
  rewrite IH, listed_drop. destruct (decide (c = c0)) as [->|Hne].
  - destruct (decide (c0 ∈ cs)), (decide (c0 ∈ c0 :: cs)); try set_solver.
    rewrite list_filter_filter. apply list_filter_iff. tauto.
  - destruct (decide (c ∈ cs)), (decide (c ∈ c0 :: cs)); try done; set_solver.
Qed.

Lemma index_ok_drop n index c : index_ok index → index_ok (drop_host n index c).
Proof.
  intros Hi c' hosts. unfold drop_host. destruct (index !! c) as [hs|] eqn:E; [|by apply Hi].
  destruct (filter _ hs) as [|x xs] eqn:Ef.
  - rewrite lookup_delete_Some. intros [_ ?]. by eapply Hi.
  - rewrite lookup_insert_Some. intros [[<- <-]|[_ ?]]; [|by eapply Hi].
    split; [done|]. rewrite <- Ef. apply list.NoDup_filter. by eapply Hi.
Qed.

Lemma index_ok_drops n index cs : index_ok index → index_ok (foldl (drop_host n) index cs).
Proof.
  revert index. induction cs as [|c cs IH]; intros index Hi; [done|]. by apply IH, index_ok_drop.
Qed.

Lemma elem_push_new {A} `{EqDecision A} (x y : A) l : y ∈ push_new x l ↔ y = x ∨ y ∈ l.
Proof. unfold push_new. destruct (decide (x ∈ l)); set_solver. Qed.

Lemma NoDup_push_new {A} `{EqDecision A} (x : A) l : NoDup l → NoDup (push_new x l).
Proof.
  intros Hl. unfold push_new. destruct (decide (x ∈ l)); [done|].
  apply list.NoDup_app. split; [done|]. split; [set_solver|apply NoDup_singleton].
Qed.

(** ** Every operation keeps the table well formed *)

Lemma score_ok_one : score_ok f_one.
Proof. by vm_compute. Qed.

Lemma score_ok_clamped r : score_ok (clamp_high (clamp_low r)).
Proof.
  unfold score_ok, clamp_high. destruct (fltb f_one (clamp_low r)) eqn:E1; [apply score_ok_one|].
  split; [|done]. unfold clamp_low in *. by destruct (fltb r f_zero) eqn:E.
Qed.

(** Entries replaced by ones that advertise the same. *)
Lemma table_ok_insert t n e :
  table_ok t → entry_ok t n e → table_ok (MkRoutingTable (<[n := e]> (rt_entries t)) (content_index t)).
Proof.
  intros [He Hi] Hn. split; [|done]. intros n' e'. cbn [rt_entries].
  rewrite lookup_insert_Some. intros [[<- <-]|[_ E]]; [by destruct Hn|].
  by destruct (He n' e' E).
Qed.

Lemma table_ok_seen n now t : table_ok t → table_ok (update_node_seen n now t).
Proof.
  intros H. unfold update_node_seen. destruct (rt_entries t !! n) as [e|] eqn:E; [|done].
  apply table_ok_insert; [done|]. by destruct (to_entries t H n e E).
Qed.

Lemma table_ok_add n hops now t : in_u 8 hops → table_ok t → table_ok (add_node n hops now t).
Proof.
  intros Hh H. unfold add_node. destruct (rt_entries t !! n) as [e|] eqn:E.
  - apply table_ok_seen. destruct (hops <? hop_distance e); [|done].
    apply table_ok_insert; [done|]. by destruct (to_entries t H n e E).
  - apply table_ok_insert; [done|]. split; [done|done|apply score_ok_one|constructor|].
    cbn. set_solver.
Qed.

Lemma table_ok_reliability n s t : table_ok t → table_ok (update_node_reliability n s t).
Proof.
  intros H. unfold update_node_reliability. destruct (rt_entries t !! n) as [e|] eqn:E; [|done].
  apply table_ok_insert; [done|]. destruct (to_entries t H n e E). split; try done.
  apply score_ok_clamped.
Qed.

Lemma table_ok_remove n t : table_ok t → table_ok (remove_node n t).
Proof.
  intros H. unfold remove_node. destruct (rt_entries t !! n) as [e|] eqn:E; [|done].
  split; [|exact (index_ok_drops _ _ _ (to_index t H))]. intros n' e'. cbn [rt_entries].
  rewrite lookup_delete_Some. intros [Hne E']. destruct (to_entries t H n' e' E'). split; try done.
  intros c Hc. change (n' ∈ listed (foldl (drop_host n) (content_index t) (advertised_content e)) c).
  rewrite listed_drops. specialize (eo_listed0 c Hc). destruct (decide _); [|done].
  apply list_elem_of_filter. done.
Qed.

Lemma table_ok_advertise n c t : table_ok t → table_ok (advertise_content n c t).
Proof.
  intros H. split.
  - intros n' e'. cbn [advertise_content rt_entries].
    assert (Hl : ∀ c', hosts_of c' (advertise_content n c t) =
      if decide (c' = c) then push_new n (hosts_of c t) else hosts_of c' t).
    { intros c'. unfold find_hosts_for_content, advertise_content. cbn [content_index].
      destruct (decide (c' = c)) as [->|]; [by rewrite lookup_insert_eq|by rewrite lookup_insert_ne]. }
    destruct (rt_entries t !! n) as [e|] eqn:E; [rewrite lookup_insert_Some|].
    + intros [[<- <-]|[Hne E']].
      * destruct (to_entries t H n e E). split; try done; [by apply NoDup_push_new|].
        intros c'. rewrite Hl. cbn. rewrite elem_push_new. intros [->|Hc].
        -- rewrite decide_True by done. apply elem_push_new. by left.
        -- destruct (decide (c' = c)) as [->|]; [|by apply eo_listed0].
           apply elem_push_new. by left.
      * destruct (to_entries t H n' e' E'). split; try done. intros c' Hc. rewrite Hl.
        specialize (eo_listed0 c' Hc). destruct (decide (c' = c)) as [->|]; [|done].
        apply elem_push_new. by right.
    + intros E'. destruct (to_entries t H n' e' E'). split; try done. intros c' Hc. rewrite Hl.
      specialize (eo_listed0 c' Hc). destruct (decide (c' = c)) as [->|]; [|done].
      apply elem_push_new. by right.
  - intros c' hosts. cbn [advertise_content content_index]. rewrite lookup_insert_Some.
    intros [[<- <-]|[_ E]]; [|by apply (to_index t H c')]. split.
    + intros Hn. assert (n ∈ @nil NodeID) as Hin; [|by apply elem_of_nil in Hin].
      rewrite <- Hn. apply elem_push_new. by left.
    + apply NoDup_push_new. destruct (content_index t !! c) as [hs|] eqn:E; cbn; [|constructor].
      by apply (to_index t H c).
Qed.

Lemma table_ok_unadvertise n c t : table_ok t → table_ok (remove_content_advertisement n c t).
Proof.
  intros H. split; [|exact (index_ok_drop _ _ _ (to_index t H))].
  intros n' e'. cbn [remove_content_advertisement rt_entries].
  assert (Hl : ∀ c', hosts_of c' (remove_content_advertisement n c t) =
    if decide (c' = c) then filter (λ h, h ≠ n) (hosts_of c t) else hosts_of c' t)
    by (intros c'; apply (listed_drop n (content_index t) c c')).
  destruct (rt_entries t !! n) as [e|] eqn:E; [rewrite lookup_insert_Some|].
  - intros [[<- <-]|[Hne E']].
    + destruct (to_entries t H n e E). split; try done; [by apply list.NoDup_filter|].
      intros c' [Hc Hc']%list_elem_of_filter. rewrite Hl, decide_False by done. by apply eo_listed0.
    + destruct (to_entries t H n' e' E'). split; try done. intros c' Hc. rewrite Hl.
      specialize (eo_listed0 c' Hc). destruct (decide (c' = c)) as [->|]; [|done].
      apply list_elem_of_filter. done.
  - intros E'. destruct (to_entries t H n' e' E'). split; try done. intros c' Hc. rewrite Hl.
    specialize (eo_listed0 c' Hc). destruct (decide (c' = c)) as [->|]; [|done].
    apply list_elem_of_filter. split; [|done]. intros ->. congruence.
Qed.

Lemma table_ok_cleanup now t : table_ok t → table_ok (cleanup_stale_entries now t).
Proof.
  unfold cleanup_stale_entries.
  generalize ((filter (λ p, is_stale now p.2 = true) (entries (rt_entries t))).*1).
  intros ns. revert t. induction ns as [|n ns IH]; intros t H; [done|]. by apply IH, table_ok_remove.
Qed.

(** ** The index and the entries agree *)

Lemma closed_insert t n e e' :
  rt_entries t !! n = Some e → advertised_content e' = advertised_content e → closed t →
  closed (MkRoutingTable (<[n := e']> (rt_entries t)) (content_index t)).
Proof.
  intros E Ha Hc c h Hh. destruct (Hc c h Hh) as (e0 & E0 & Hin). cbn [rt_entries].
  destruct (decide (h = n)) as [->|]; [|rewrite lookup_insert_ne by done; eauto].
  rewrite lookup_insert_eq. exists e'. split; [done|]. rewrite Ha. congruence.
Qed.

Lemma closed_new t n e :
  rt_entries t !! n = None → closed t →
  closed (MkRoutingTable (<[n := e]> (rt_entries t)) (content_index t)).
Proof.
  intros E Hc c h Hh. destruct (Hc c h Hh) as (e0 & E0 & Hin). cbn [rt_entries].
  destruct (decide (h = n)) as [->|]; [congruence|rewrite lookup_insert_ne by done; eauto].
Qed.

Lemma closed_seen n now t : closed t → closed (update_node_seen n now t).
Proof.
  intros H. unfold update_node_seen. destruct (rt_entries t !! n) as [e|] eqn:E; [|done].
  by apply (closed_insert t n e).
Qed.

Lemma closed_add n hops now t : closed t → closed (add_node n hops now t).
Proof.
  intros H. unfold add_node. destruct (rt_entries t !! n) as [e|] eqn:E; [|by apply closed_new].
  apply closed_seen. destruct (hops <? hop_distance e); [|done]. by apply (closed_insert t n e).
Qed.

Lemma closed_reliability n s t : closed t → closed (update_node_reliability n s t).
Proof.
  intros H. unfold update_node_reliability. destruct (rt_entries t !! n) as [e|] eqn:E; [|done].
  by apply (closed_insert t n e).
Qed.

(** Removing a node leaves no trace of it. *)
Lemma remove_forgets n t c :
  closed t → rt_entries (remove_node n t) !! n = None ∧ n ∉ hosts_of c (remove_node n t).
Proof.
  intros Hc. unfold remove_node. destruct (rt_entries t !! n) as [e|] eqn:E.
  - cbn [rt_entries]. split; [apply lookup_delete_eq|].
    change (n ∉ listed (foldl (drop_host n) (content_index t) (advertised_content e)) c).
    rewrite listed_drops. destruct (decide _) as [|Hni].
    + intros [? _]%list_elem_of_filter. done.
    + intros Hin. destruct (Hc c n Hin) as (e0 & E0 & Hin0). congruence.
  - split; [done|]. intros Hin. destruct (Hc c n Hin) as (e0 & E0 & _). congruence.
Qed.

Lemma closed_remove n t : closed t → closed (remove_node n t).
Proof.
  intros Hc c h Hh. assert (Hne : h ≠ n) by (intros ->; by apply (remove_forgets n t c Hc)).
  revert Hh. unfold remove_node. destruct (rt_entries t !! n) as [e|] eqn:E; [|by apply Hc].
  change (h ∈ listed (foldl (drop_host n) (content_index t) (advertised_content e)) c → 
    ∃ e0, delete n (rt_entries t) !! h = Some e0 ∧ c ∈ advertised_content e0).
  rewrite listed_drops, lookup_delete_ne by done.
  destruct (decide _); [intros [_ Hh]%list_elem_of_filter|intros Hh]; by apply Hc.
Qed.

Lemma closed_advertise n c t :
  is_Some (rt_entries t !! n) → closed t → closed (advertise_content n c t).
Proof.
  intros [e E] Hc c' h. unfold find_hosts_for_content, advertise_content.
  cbn [rt_entries content_index]. rewrite E. intros Hh.
  assert (Hcase : (h = n ∧ c' = c) ∨ h ∈ hosts_of c' t).
  { destruct (decide (c' = c)) as [->|]; [|right; by rewrite lookup_insert_ne in Hh].
    rewrite lookup_insert_eq in Hh. cbn in Hh. apply elem_push_new in Hh as [?|?]; auto. }
  destruct (decide (h = n)) as [->|Hne].
  - rewrite lookup_insert_eq. eexists. split; [done|]. cbn. apply elem_push_new.
    destruct Hcase as [[_ ->]|Hh']; [by left|]. right.
    destruct (Hc c' n Hh') as (e0 & E0 & ?). congruence.
  - rewrite lookup_insert_ne by done. destruct Hcase as [[? _]|Hh']; [done|]. by apply Hc.
Qed.

Lemma closed_unadvertise n c t : closed t → closed (remove_content_advertisement n c t).
Proof.
  intros Hc c' h. 
  change (h ∈ listed (drop_host n (content_index t) c) c' →
    ∃ e, rt_entries (remove_content_advertisement n c t) !! h = Some e ∧ c' ∈ advertised_content e).
  rewrite listed_drop. intros Hh.
  assert (Hin : h ∈ hosts_of c' t ∧ (c' = c → h ≠ n)).
  { destruct (decide (c' = c)) as [->|]; [|done].
    apply list_elem_of_filter in Hh as [? ?]. done. }
  destruct Hin as [Hin Hne]. destruct (Hc c' h Hin) as (e & E & Ha).
  cbn [remove_content_advertisement rt_entries].
  destruct (rt_entries t !! n) as [e0|] eqn:E0; [|eauto].
  destruct (decide (h = n)) as [->|]; [|rewrite lookup_insert_ne by done; eauto].
  rewrite lookup_insert_eq. eexists. split; [done|]. cbn. apply list_elem_of_filter.
  split; [by intros ->; apply Hne|]. congruence.
Qed.

Lemma closed_cleanup now t : closed t → closed (cleanup_stale_entries now t).
Proof.
  unfold cleanup_stale_entries.
  generalize ((filter (λ p, is_stale now p.2 = true) (entries (rt_entries t))).*1).
  intros ns. revert t. induction ns as [|n ns IH]; intros t H; [done|]. by apply IH, closed_remove.
Qed.

(** ** Runs of operations *)

Inductive table_op :=
  | Add_node (n : NodeID) (hops now : Z)
  | Remove_node (n : NodeID)
  | Node_seen (n : NodeID) (now : Z)
  | Reliability (n : NodeID) (score : float)
  | Advertise (n : NodeID) (c : ContentHash)
  | Unadvertise (n : NodeID) (c : ContentHash)
  | Cleanup_stale (now : Z).

Definition table_step (t : RoutingTable) (op : table_op) : RoutingTable :=
  match op with
  | Add_node n hops now => add_node n hops now t
  | Remove_node n => remove_node n t
  | Node_seen n now => update_node_seen n now t
  | Reliability n s => update_node_reliability n s t
  | Advertise n c => advertise_content n c t
  | Unadvertise n c => remove_content_advertisement n c t
  | Cleanup_stale now => cleanup_stale_entries now t
  end.

(** Distances are bytes. *)
Definition op_typed (op : table_op) : Prop :=
  match op with Add_node _ hops _ => in_u 8 hops | _ => True end.

(** Only nodes in the table advertise. *)
Fixpoint known_only (t : RoutingTable) (ops : list table_op) : Prop :=
  match ops with
  | [] => True
  | op :: ops =>
      match op with Advertise n _ => is_Some (rt_entries t !! n) | _ => True end ∧
      known_only (table_step t op) ops
  end.

Lemma table_ok_step t op : op_typed op → table_ok t → table_ok (table_step t op).
Proof.
  destruct op; intros Ht H; cbn [table_step].
  - by apply table_ok_add.
  - by apply table_ok_remove.
  - by apply table_ok_seen.
  - by apply table_ok_reliability.
  - by apply table_ok_advertise.
  - by apply table_ok_unadvertise.
  - by apply table_ok_cleanup.
Qed.

Lemma table_ok_run ops t : Forall op_typed ops → table_ok t → table_ok (foldl table_step t ops).
Proof.
  intros Ho. revert t. induction Ho as [|op ops Hop _ IH]; intros t Ht; [done|].
  by apply IH, table_ok_step.
Qed.

Lemma closed_run ops t : known_only t ops → closed t → closed (foldl table_step t ops).
Proof.
  revert t. induction ops as [|op ops IH]; intros t Hk Hc; [done|]. destruct Hk as [Hop Hk].
  apply (IH _ Hk). destruct op; cbn [table_step].
  - by apply closed_add.
  - by apply closed_remove.
  - by apply closed_seen.
  - by apply closed_reliability.
  - by apply closed_advertise.
  - by apply closed_unadvertise.
  - by apply closed_cleanup.
Qed.

Lemma table_ok_empty : table_ok empty_table.
Proof. split; cbn; intros ? ?; by rewrite lookup_empty. Qed.

Lemma closed_empty : closed empty_table.
Proof. intros c n. unfold find_hosts_for_content. cbn. rewrite lookup_empty. cbn. set_solver. Qed.

(** ** The best host *)

(** The score of a host that is known, fresh and reliable. *)
Definition candidate (now : Z) (t : RoutingTable) (h : NodeID) : option float :=
  match get_entry h t with
  | Some e => if usable now e then Some (host_score e) else None
  | None => None
  end.

Lemma better_host_eq now t best h :
  better_host now t best h =
  match candidate now t h with
  | Some s => if fltb best.2 s then (h, s) else best
  | None => best
  end.
Proof.
  unfold better_host, candidate. destruct (get_entry h t) as [e|]; [|done].
  by destruct (usable now e).
Qed.

Lemma fltb_number x y : fltb x y = true → is_nan y = false.
Proof. by destruct x, y. Qed.

Lemma best_host_fold now t l h0 s0 :
  let '(b, s) := foldl (better_host now t) (h0, s0) l in
  (s = s0 ∧ b = h0 ∨ b ∈ l ∧ candidate now t b = Some s ∧ fltb s0 s = true) ∧
  ∀ h s', h ∈ l → candidate now t h = Some s' → fltb s s' = false.
Proof.
  revert h0 s0. induction l as [|h l IH]; intros h0 s0; cbn [foldl].
  { split; [by left|]. intros h s' Hin. by apply elem_of_nil in Hin. }
  rewrite better_host_eq. cbn [snd].
  destruct (candidate now t h) as [s1|] eqn:Ec; [destruct (fltb s0 s1) eqn:Es|].
  - specialize (IH h s1). destruct (foldl _ _ l) as [b s]. destruct IH as [Hb Hmax]. split.
    + right. destruct Hb as [[-> ->]|(? & ? & ?)]; [split_and!; [set_solver|done|done]|].
      split; [set_solver|]. split; [done|]. by eapply fltb_trans.
    + intros h' s' [->|Hin]%elem_of_cons Hc; [|by eapply Hmax]. assert (s' = s1) as -> by congruence.
      destruct Hb as [[-> _]|(_ & _ & Hlt)]; [apply fltb_irrefl|].
      destruct (fltb s s1) eqn:E; [|done]. by rewrite <- (fltb_irrefl s), (fltb_trans s s1 s).
  - specialize (IH h0 s0). destruct (foldl _ _ l) as [b s]. destruct IH as [Hb Hmax]. split.
    + destruct Hb as [?|(? & ? & ?)]; [by left|]. right. split_and!; [set_solver|done|done].
    + intros h' s' [->|Hin]%elem_of_cons Hc; [|by eapply Hmax]. assert (s' = s1) as -> by congruence.
      destruct Hb as [[-> _]|(_ & _ & Hlt)]; [done|].
      destruct (fltb s s1) eqn:E; [|done]. by rewrite <- Es, (fltb_trans s0 s s1).
  - specialize (IH h0 s0). destruct (foldl _ _ l) as [b s]. destruct IH as [Hb Hmax]. split.
    + destruct Hb as [?|(? & ? & ?)]; [by left|]. right. split_and!; [set_solver|done|done].
    + intros h' s' [->|Hin]%elem_of_cons Hc; [congruence|by eapply Hmax].
Qed.

(** Dividing by one more than the distance. *)
Lemma denominators :
  forallb (λ i, positive_finite (fadd f_one (float_of (Z.of_nat i)))) (seq 0 256) = true.
Proof. vm_compute. reflexivity. Qed.

Lemma denominator_positive hops :
  in_u 8 hops → positive_finite (fadd f_one (float_of hops)) = true.
Proof.
  unfold in_u. intros Hh. pose proof denominators as Hd. rewrite forallb_forall in Hd.
  specialize (Hd (Z.to_nat hops)). rewrite Z2Nat.id in Hd by lia. apply Hd.
  apply in_seq. change (2 ^ 8) with 256 in Hh. lia.
Qed.

Lemma score_number t n e :
  entry_ok t n e → is_nan (host_score e) = true ∨ nonneg (host_score e) = true.
Proof.
  intros [_ Hh [Hz _] _ _]. unfold host_score. pose proof (denominator_positive _ Hh) as Hd.
  apply not_below_zero in Hz as [Hn|Hn]; [|right; by apply fdiv_nonneg].
  left. by destruct (reliability_score e).
Qed.

(** At full reliability a nearer host scores higher. *)
Definition full_score (hops : Z) : float := fdiv f_one (fadd f_one (float_of hops)).

Lemma full_scores :
  forallb (λ i, fltb (full_score (Z.of_nat (S i))) (full_score (Z.of_nat i))) (seq 0 255) = true.
Proof. vm_compute. reflexivity. Qed.

Lemma full_score_decreasing a b :
  in_u 8 a → in_u 8 b → a < b → fltb (full_score b) (full_score a) = true.
Proof.
  unfold in_u. change (2 ^ 8) with 256. intros Ha Hb Hab.
  pose proof full_scores as Hf. rewrite forallb_forall in Hf.
  assert (Hstep : ∀ i, 0 <= i < 255 → fltb (full_score (i + 1)) (full_score i) = true).
  { intros i Hi. specialize (Hf (Z.to_nat i)). rewrite Nat2Z.inj_succ, Z2Nat.id in Hf by lia.
    apply Hf, in_seq. lia. }
  assert (Hall : ∀ n : nat, a + 1 + Z.of_nat n < 256 →
    fltb (full_score (a + 1 + Z.of_nat n)) (full_score a) = true).
  { induction n as [|n IH]; intros Hn.
    - rewrite Z.add_0_r. apply Hstep. lia.
    - eapply fltb_trans; [|apply IH; lia].
      replace (a + 1 + Z.of_nat (S n)) with (a + 1 + Z.of_nat n + 1) by lia. apply Hstep. lia. }
  specialize (Hall (Z.to_nat (b - a - 1))).
  replace (a + 1 + Z.of_nat (Z.to_nat (b - a - 1))) with b in Hall by lia. apply Hall. lia.
Qed.

(** ** Properties *)

(** Whatever sequence of operations a routing table goes through, no host is listed twice,
    no list of hosts is empty and reliabilities stay in their range; when content is
    advertised only for nodes with an entry, the index lists exactly the advertisements of
    the entries, and a removed node is listed nowhere. *)
Theorem routing_table_invariant ops :
  Forall op_typed ops →
  let t := foldl table_step empty_table ops in
  table_ok t ∧
  (known_only empty_table ops →
     (∀ c n, n ∈ hosts_of c t ↔ ∃ e, rt_entries t !! n = Some e ∧ c ∈ advertised_content e) ∧
     (∀ n c, rt_entries (remove_node n t) !! n = None ∧ n ∉ hosts_of c (remove_node n t))).
Proof.
  intros Ho t. assert (Ht : table_ok t) by (apply table_ok_run; [done|apply table_ok_empty]).
  split; [done|]. intros Hk.
  assert (Hc : closed t) by (by apply closed_run; [|apply closed_empty]). split.
  - intros c n. split; [apply Hc|]. intros (e & E & Hin).
    by apply (eo_listed t n e (to_entries t Ht n e E)).
  - intros n c. by apply remove_forgets.
Qed.

(** An advertisement of a node without an entry stays in the content index for good. *)
Theorem advertise_before_add n c hops now :
  let t := remove_node n (add_node n hops now (advertise_content n c empty_table)) in
  rt_entries t !! n = None ∧ hosts_of c t = [n] ∧ has_content_route c t = true ∧
  ∀ now', select_best_host c now' t = None.
Proof.
  set (e := set_seen now (new_entry n hops)).
  assert (H1 : advertise_content n c empty_table = MkRoutingTable ∅ (<[c := [n]]> ∅))
    by (unfold advertise_content; cbn; by rewrite !lookup_empty).
  assert (H2 : add_node n hops now (advertise_content n c empty_table) =
    MkRoutingTable (<[n := e]> ∅) (<[c := [n]]> ∅))
    by (rewrite H1; unfold add_node; cbn; by rewrite lookup_empty).
  assert (H3 : remove_node n (add_node n hops now (advertise_content n c empty_table)) =
    MkRoutingTable (delete n (<[n := e]> ∅)) (<[c := [n]]> ∅))
    by (rewrite H2; unfold remove_node; cbn; by rewrite lookup_insert_eq).
  cbv zeta. rewrite H3. unfold select_best_host, find_hosts_for_content, has_content_route.
  cbn [rt_entries content_index]. rewrite lookup_insert_eq.
  split; [apply lookup_delete_eq|]. split; [done|]. split; [done|]. intros now'.
  cbn [from_option id foldl]. unfold better_host, get_entry. cbn [rt_entries].
  by rewrite lookup_delete_eq.
Qed.

(** The selected host advertises the content, is fresh and reliable and no other such host
    has a better score; among fully reliable hosts it is one with the fewest hops; nothing
    is selected only if no candidate has a comparable score. *)
Theorem select_best_host_spec c now t :
  table_ok t →
  match select_best_host c now t with
  | Some b =>
      b ∈ hosts_of c t ∧
      (∃ s, candidate now t b = Some s ∧
         ∀ h s', h ∈ hosts_of c t → candidate now t h = Some s' → fltb s s' = false) ∧
      ((∀ h e, h ∈ hosts_of c t → get_entry h t = Some e → reliability_score e = f_one) →
       ∀ h e e', h ∈ hosts_of c t → is_Some (candidate now t h) → get_entry h t = Some e →
         get_entry b t = Some e' → hop_distance e' <= hop_distance e)
  | None =>
      ∀ h s, h ∈ hosts_of c t → candidate now t h = Some s → is_nan s = true
  end.
Proof.
  intros Ht. unfold select_best_host. destruct (hosts_of c t) as [|h0 hs] eqn:Eh.
  { intros h s Hin. by apply elem_of_nil in Hin. }
  pose proof (best_host_fold now t (h0 :: hs) h0 f_minus_one) as Hf.
  destruct (foldl _ _ (h0 :: hs)) as [b s]. destruct Hf as [Hb Hmax].
  assert (Hscore : ∀ h s', candidate now t h = Some s' → is_nan s' = true ∨ nonneg s' = true).
  { intros h s' E. unfold candidate, get_entry in E. destruct (rt_entries t !! h) as [e|] eqn:Ee; [|done].
    destruct (usable now e); [|done]. injection E as <-.
    by apply (score_number t h e), (to_entries t Ht). }
  destruct Hb as [[-> ->]|(Hin & Hc & Hlt)].
  - change (fltb f_minus_one f_zero) with true. cbv iota. intros h s' Hin Hs.
    destruct (Hscore h s' Hs) as [?|Hn]; [done|].
    apply nonneg_above_minus_one in Hn. by rewrite (Hmax h s' Hin Hs) in Hn.
  - destruct (Hscore b s Hc) as [Hn|Hn]; [by rewrite (fltb_number _ _ Hlt) in Hn|].
    rewrite nonneg_not_below_zero by done. split; [done|]. split; [by exists s|].
    intros Hone h e e' Hh [s' Hs'] Ee Ee'.
    assert (Hs : s = full_score (hop_distance e')).
    { unfold candidate in Hc. rewrite Ee' in Hc. destruct (usable now e'); [|done].
      injection Hc as <-. unfold host_score. by rewrite (Hone b e' Hin Ee'). }
    assert (Hs2 : s' = full_score (hop_distance e)).
    { unfold candidate in Hs'. rewrite Ee in Hs'. destruct (usable now e); [|done].
      injection Hs' as <-. unfold host_score. by rewrite (Hone h e Hh Ee). }
    pose proof (eo_hops _ _ _ (to_entries t Ht h e Ee)).
    pose proof (eo_hops _ _ _ (to_entries t Ht b e' Ee')).
    destruct (Z.le_gt_cases (hop_distance e') (hop_distance e)) as [|Hgt]; [done|].
    pose proof (Hmax h s' Hh ltac:(unfold candidate in *; done)) as Hm.
    rewrite Hs, Hs2, full_score_decreasing in Hm by done. done.
Qed.

(** ** A sample *)

Definition near : NodeID := array_fill 32 (to_byte 1).
Definition far : NodeID := array_fill 32 (to_byte 2).
Definition page : ContentHash := array_fill 32 (to_byte 9).

Definition sample_table_ops : list table_op :=
  [Add_node far 5 1000; Add_node near 2 1000; Advertise far page; Advertise near page;
   Reliability near f_one].

Definition sample_table : RoutingTable := foldl table_step empty_table sample_table_ops.

Lemma sample_ops_typed : Forall op_typed sample_table_ops.
Proof. repeat constructor; discriminate. Qed.

Lemma sample_table_ok : table_ok sample_table.
Proof. apply table_ok_run; [apply sample_ops_typed|apply table_ok_empty]. Qed.

Lemma routing_table_invariant_witness :
  table_ok sample_table ∧ near ∉ hosts_of page (remove_node near sample_table).
Proof.
  destruct (routing_table_invariant sample_table_ops sample_ops_typed) as [H1 H2].
  split; [exact H1|]. apply H2.
  split; [exact I|]. split; [exact I|]. split; [vm_compute; eauto|]. split; [vm_compute; eauto|].
  split; [exact I|exact I].
Defined.

Lemma select_best_host_spec_witness :
  select_best_host page 1500 sample_table = Some near ∧ near ∈ hosts_of page sample_table.
Proof.
  pose proof (select_best_host_spec page 1500 sample_table sample_table_ok) as HT.
  replace (select_best_host page 1500 sample_table) with (Some near) in HT |- *
    by (vm_compute; reflexivity).
  split; [reflexivity|]. exact (proj1 HT).
Defined.
