(* ===== verification/Router.v ===== *)
(** Content routing: requests, responses and [Router] of
    src/network/router.hpp and router.cpp.

    What a router does to the outside is a list of [router_action]s in program
    order.  A callback whose result matters is a function, one that only
    observes is a flag saying whether it is set.  Random bytes and the clock
    are arguments, the clock read once per operation.  The recursion into onion
    layers runs on fuel ([handle_request_total]: the size of the layers is
    enough). *)

From Stdlib Require Import Strings.Byte.
From S2P Require Import Prelude Reader Common Crypto RoutingTable.

(** ** Requests *)

Record ContentRequest := MkContentRequest {
  cr_content_hash : ContentHash;
  requester_id : NodeID;
  cr_request_id : Hash256;
  hop_limit : Z;
  cr_timestamp : Z;
  onion_layers : list bytes
}.

Definition DEFAULT_HOP_LIMIT : Z := 8.
Definition MAX_HOP_LIMIT : Z := 16.

Definition layer_to_bytes (layer : bytes) : bytes := le_bytes 4 (len layer) ++ layer.

Definition request_to_bytes (q : ContentRequest) : bytes :=
  arr (cr_content_hash q) ++ arr (requester_id q) ++ arr (cr_request_id q) ++
  [to_byte (hop_limit q)] ++ le_bytes 8 (cr_timestamp q) ++
  le_bytes 2 (len (onion_layers q)) ++ mjoin (layer_to_bytes <$> onion_layers q).

Definition layer_reader (W : Z) : reader bytes :=
  layer_size ← read_scalar W 4; read_string W layer_size.

Definition request_fields (W : Z) : reader ContentRequest :=
  hash ← raw_array 32;
  requester ← raw_array 32;
  id ← raw_array 32;
  hops ← raw_uint 1;
  time ← raw_uint 8;
  layer_count ← raw_uint 2;
  layers ← rd_list (Z.to_nat layer_count) (layer_reader W);
  mret (MkContentRequest hash requester id hops time layers).

Definition request_reader (W : Z) : reader ContentRequest :=
  _ ← rd_min (32 + 32 + 32 + 1 + 8 + 2); request_fields W.

Definition request_from_bytes (input : bytes) : option ContentRequest :=
  to_optional (run_reader (request_reader 64) input).

Definition request_compute_id `{Crypto} (q : ContentRequest) : Hash256 :=
  blake3 (arr (cr_content_hash q) ++ arr (requester_id q) ++ le_bytes 8 (cr_timestamp q)).

(** ** Responses *)

Record ContentResponse := MkContentResponse {
  rs_content_hash : ContentHash;
  content_data : bytes;
  hosting_node : NodeID;
  rs_request_id : Hash256;
  rs_hop_count : Z;
  rs_signature : Signature
}.

Definition response_to_bytes (s : ContentResponse) : bytes :=
  arr (rs_content_hash s) ++ arr (hosting_node s) ++ arr (rs_request_id s) ++
  [to_byte (rs_hop_count s)] ++ le_bytes 4 (len (content_data s)) ++ content_data s ++
  arr (rs_signature s).

(** The size check covers the content and the signature. *)
Definition response_fields (W : Z) : reader ContentResponse :=
  hash ← raw_array 32;
  host ← raw_array 32;
  id ← raw_array 32;
  hops ← raw_uint 1;
  content_size ← raw_uint 4;
  _ ← rd_room W (content_size + 64);
  body ← rd_raw content_size;
  sg ← raw_array 64;
  mret (MkContentResponse hash body host id hops sg).

Definition response_reader (W : Z) : reader ContentResponse :=
  _ ← rd_min (32 + 32 + 32 + 1 + 4 + 64); response_fields W.

Definition response_from_bytes (input : bytes) : option ContentResponse :=
  to_optional (run_reader (response_reader 64) input).

Definition response_signing_bytes (s : ContentResponse) : bytes :=
  arr (rs_content_hash s) ++ arr (hosting_node s) ++ arr (rs_request_id s) ++
  [to_byte (rs_hop_count s)] ++ le_bytes 4 (len (content_data s)) ++ content_data s.

Definition response_verify_signature `{Crypto} (pk : PublicKey) (s : ContentResponse) : bool :=
  Ed25519.verify (response_signing_bytes s) (rs_signature s) pk.

(** ** The keystream *)

Definition xor_byte (a b : byte) : byte := to_byte (Z.lxor (byte_val a) (byte_val b)).

(** One block per turn of the loop; [n] bounds the blocks. *)
Fixpoint xor_blocks `{Crypto} (n : nat) (counter : Z) (seed input : bytes) : bytes :=
  match n with
  | O => []
  | S n =>
      match input with
      | [] => []
      | _ =>
          let block := arr (blake3 (seed ++ le_bytes 4 counter)) in
          zip_with xor_byte input block ++
          xor_blocks n (u32 (counter + 1)) seed (drop (length block) input)
      end
  end.

Definition xor_with_keystream `{Crypto} (input seed : bytes) : bytes :=
  xor_blocks (length input) 0 seed input.

(** ** Onion layers *)

Definition onion_tag : bytes := str "ON1".

(** One hop's layer around [current]; [next] is the hop after it. *)
Definition wrap_layer `{Crypto} (hop next : NodeID) (current : bytes) : bytes :=
  onion_tag ++ xor_with_keystream (arr next ++ current) (arr hop).

(** The layers from the last hop to the first. *)
Fixpoint wrap_layers `{Crypto} (route_path : list NodeID) (payload : bytes) : bytes :=
  match route_path with
  | [] => payload
  | hop :: rest =>
      wrap_layer hop (match rest with next :: _ => next | [] => zeros 32 end)
        (wrap_layers rest payload)
  end.

Definition create_onion_layers `{Crypto} (route_path : list NodeID) (payload : bytes) : list bytes :=
  match route_path with [] => [] | _ => [wrap_layers route_path payload] end.

Definition decrypt_onion_layer `{Crypto} (local : NodeID) (layer : bytes) : option bytes :=
  if len layer <? 3 + 32 then None
  else if negb (bool_decide (take 3 layer = onion_tag)) then None
  else
    let plain := xor_with_keystream (drop 3 layer) (arr local) in
    if len plain <? 32 then None else Some (drop 32 plain).

(** ** The router *)

Record PendingRequest := MkPendingRequest {
  pr_request_id : Hash256;
  pr_content_hash : ContentHash;
  original_requester : NodeID;
  pr_timestamp : Z;
  retries : Z
}.

Definition TIMEOUT_SECONDS : Z := 30.

Definition has_timed_out (now : Z) (p : PendingRequest) : bool :=
  TIMEOUT_SECONDS <? u64 (now - pr_timestamp p).

Record Router := MkRouter {
  ro_local : NodeID;
  routing_table : RoutingTable;
  pending_requests : gmap Hash256 PendingRequest;
  local_content : list ContentHash;
  on_received : bool;
  on_not_found : bool;
  fetch_callback : option (ContentHash → option bytes);
  response_sign : option (ContentResponse → Signature);
  response_verify : option (ContentResponse → bool);
  request_send : bool;
  response_send : bool;
  requests_sent : Z;
  requests_received : Z;
  responses_sent : Z;
  responses_received : Z;
  forwards : Z;
  next_request_counter : Z
}.

Inductive router_action :=
  | SendRequest (peer : NodeID) (q : ContentRequest)
  | SendResponse (peer : NodeID) (s : ContentResponse)
  | Received (c : ContentHash) (content : bytes)
  | NotFound (c : ContentHash).

Definition new_router (local : NodeID) : Router :=
  MkRouter local empty_table ∅ [] false false None None None false false 0 0 0 0 0 1.

(** Assignments to single members. *)
Definition with_table (t : RoutingTable) (r : Router) : Router :=
  MkRouter (ro_local r) t (pending_requests r) (local_content r) (on_received r) (on_not_found r)
    (fetch_callback r) (response_sign r) (response_verify r) (request_send r) (response_send r)
    (requests_sent r) (requests_received r) (responses_sent r) (responses_received r) (forwards r)
    (next_request_counter r).

Definition with_pending (ps : gmap Hash256 PendingRequest) (r : Router) : Router :=
  MkRouter (ro_local r) (routing_table r) ps (local_content r) (on_received r) (on_not_found r)
    (fetch_callback r) (response_sign r) (response_verify r) (request_send r) (response_send r)
    (requests_sent r) (requests_received r) (responses_sent r) (responses_received r) (forwards r)
    (next_request_counter r).

Definition with_local (cs : list ContentHash) (r : Router) : Router :=
  MkRouter (ro_local r) (routing_table r) (pending_requests r) cs (on_received r) (on_not_found r)
    (fetch_callback r) (response_sign r) (response_verify r) (request_send r) (response_send r)
    (requests_sent r) (requests_received r) (responses_sent r) (responses_received r) (forwards r)
    (next_request_counter r).

(** Increments of the counters, in [uint64_t]. *)
Definition count_request_sent (r : Router) : Router :=
  MkRouter (ro_local r) (routing_table r) (pending_requests r) (local_content r) (on_received r)
    (on_not_found r) (fetch_callback r) (response_sign r) (response_verify r) (request_send r)
    (response_send r) (u64 (requests_sent r + 1)) (requests_received r) (responses_sent r)
    (responses_received r) (forwards r) (next_request_counter r).

Definition count_request_received (r : Router) : Router :=
  MkRouter (ro_local r) (routing_table r) (pending_requests r) (local_content r) (on_received r)
    (on_not_found r) (fetch_callback r) (response_sign r) (response_verify r) (request_send r)
    (response_send r) (requests_sent r) (u64 (requests_received r + 1)) (responses_sent r)
    (responses_received r) (forwards r) (next_request_counter r).

Definition count_response_sent (r : Router) : Router :=
  MkRouter (ro_local r) (routing_table r) (pending_requests r) (local_content r) (on_received r)
    (on_not_found r) (fetch_callback r) (response_sign r) (response_verify r) (request_send r)
    (response_send r) (requests_sent r) (requests_received r) (u64 (responses_sent r + 1))
    (responses_received r) (forwards r) (next_request_counter r).

Definition count_response_received (r : Router) : Router :=
  MkRouter (ro_local r) (routing_table r) (pending_requests r) (local_content r) (on_received r)
    (on_not_found r) (fetch_callback r) (response_sign r) (response_verify r) (request_send r)
    (response_send r) (requests_sent r) (requests_received r) (responses_sent r)
    (u64 (responses_received r + 1)) (forwards r) (next_request_counter r).

Definition count_forward (r : Router) : Router :=
  MkRouter (ro_local r) (routing_table r) (pending_requests r) (local_content r) (on_received r)
    (on_not_found r) (fetch_callback r) (response_sign r) (response_verify r) (request_send r)
    (response_send r) (requests_sent r) (requests_received r) (responses_sent r)
    (responses_received r) (u64 (forwards r + 1)) (next_request_counter r).

Definition count_id (r : Router) : Router :=
  MkRouter (ro_local r) (routing_table r) (pending_requests r) (local_content r) (on_received r)
    (on_not_found r) (fetch_callback r) (response_sign r) (response_verify r) (request_send r)
    (response_send r) (requests_sent r) (requests_received r) (responses_sent r)
    (responses_received r) (forwards r) (u64 (next_request_counter r + 1)).

(** [std::array<byte, N>::empty()]: whether [N] is zero. *)
Definition array_empty {n} (a : array n) : bool := (n =? 0)%nat.

Definition send_request_to_peer (peer : NodeID) (q : ContentRequest) (r : Router) :
    list router_action := if request_send r then [SendRequest peer q] else [].

Definition send_response_to_peer (peer : NodeID) (s : ContentResponse) (r : Router) :
    list router_action := if response_send r then [SendResponse peer s] else [].

Definition select_next_hop (c : ContentHash) (now : Z) (r : Router) : NodeID :=
  default (zeros 32) (select_best_host c now (routing_table r)).

Definition should_forward_request (q : ContentRequest) (r : Router) : bool :=
  if hop_limit q <=? 1 then false
  else if bool_decide (requester_id q = ro_local r) then false
  else has_content_route (cr_content_hash q) (routing_table r).

Definition can_serve_locally (c : ContentHash) (r : Router) : bool :=
  bool_decide (c ∈ local_content r).

Section ops.
Context `{Crypto}.

(** The indeterminate signature of a response before it is signed. *)
Context (unset : Signature).

(** [random] holds the 16 bytes of [Random::generate]. *)
Definition generate_request_id (random : bytes) (r : Router) : Hash256 * Router :=
  (blake3 (arr (ro_local r) ++ le_bytes 8 (next_request_counter r) ++ random), count_id r).

Definition track (q : ContentRequest) (r : Router) : Router :=
  with_pending
    (<[cr_request_id q :=
       MkPendingRequest (cr_request_id q) (cr_content_hash q) (ro_local r) (cr_timestamp q) 0]>
       (pending_requests r)) r.

Definition request_content (c : ContentHash) (hops : Z) (random : bytes) (now : Z) (r : Router) :
    Hash256 * list router_action * Router :=
  let '(id, r) := generate_request_id random r in
  let q := MkContentRequest c (ro_local r) id (Z.min hops MAX_HOP_LIMIT) now [] in
  let r := track q r in
  let next_hop := select_next_hop c now r in
  if negb (array_empty next_hop) then
    (id, send_request_to_peer next_hop q r, count_request_sent r)
  else (id, if on_not_found r then [NotFound c] else [], r).

Definition request_content_with_onion_routing (c : ContentHash) (route_path : list NodeID)
    (random : bytes) (now : Z) (r : Router) : Hash256 * list router_action * Router :=
  let '(id, r) := generate_request_id random r in
  let q := MkContentRequest c (ro_local r) id (u8 (len route_path + 2)) now [] in
  let q := MkContentRequest c (ro_local r) id (u8 (len route_path + 2)) now
             (create_onion_layers route_path (request_to_bytes q)) in
  let r := track q r in
  match route_path with
  | first :: _ => (id, send_request_to_peer first q r, count_request_sent r)
  | [] => (id, [], r)
  end.

(** The branch for content this node holds. *)
Definition serve (q : ContentRequest) (r : Router) : list router_action * Router :=
  match (match fetch_callback r with
         | Some f => f (cr_content_hash q)
         | None => Some []
         end) with
  | None => ([], r)
  | Some content =>
      let unsigned := MkContentResponse (cr_content_hash q) content (ro_local r)
                        (cr_request_id q) 0 unset in
      let sg := match response_sign r with Some f => f unsigned | None => zeros 64 end in
      let s := MkContentResponse (cr_content_hash q) content (ro_local r) (cr_request_id q) 0 sg in
      (send_response_to_peer (requester_id q) s r, count_response_sent r)
  end.

Definition forwarded (q : ContentRequest) : ContentRequest :=
  MkContentRequest (cr_content_hash q) (requester_id q) (cr_request_id q) (u8 (hop_limit q - 1))
    (cr_timestamp q) (onion_layers q).

(** A request without onion layers. *)
Definition handle_plain (q : ContentRequest) (now : Z) (r : Router) : list router_action * Router :=
  if can_serve_locally (cr_content_hash q) r then serve q r
  else if negb (should_forward_request q r) then ([], r)
  else
    let next_hop := select_next_hop (cr_content_hash q) now r in
    if array_empty next_hop then ([], r)
    else (send_request_to_peer next_hop (forwarded q) r, count_forward r).

Fixpoint handle_fuel (fuel : nat) (q : ContentRequest) (now : Z) (r : Router) :
    option (list router_action * Router) :=
  match fuel with
  | O => None
  | S fuel =>
      let r := count_request_received r in
      if hop_limit q =? 0 then Some ([], r)
      else
        match onion_layers q with
        | layer :: _ =>
            match decrypt_onion_layer (ro_local r) layer with
            | None => Some ([], r)
            | Some decrypted =>
                match request_from_bytes decrypted with
                | None => Some ([], r)
                | Some next_request => handle_fuel fuel next_request now r
                end
            end
        | [] => Some (handle_plain q now r)
        end
  end.

(** The bytes in the layers bound the depth of the recursion. *)
Definition onion_size (q : ContentRequest) : nat := length (mjoin (onion_layers q)).

Definition handle_content_request (q : ContentRequest) (now : Z) (r : Router) :
    option (list router_action * Router) := handle_fuel (S (onion_size q)) q now r.

Definition handle_content_response (s : ContentResponse) (r : Router) :
    list router_action * Router :=
  let r := count_response_received r in
  match pending_requests r !! rs_request_id s with
  | None => ([], r)
  | Some _ =>
      if negb (bool_decide (blake3 (content_data s) = rs_content_hash s)) then ([], r)
      else if match response_verify r with Some f => negb (f s) | None => false end then ([], r)
      else
        (if on_received r then [Received (rs_content_hash s) (content_data s)] else [],
         with_pending (delete (rs_request_id s) (pending_requests r))
           (with_table (update_node_reliability (hosting_node s) Floats.f_one (routing_table r)) r))
  end.

End ops.

(** ** The rest of the interface *)

Definition update_routing_table (n : NodeID) (hops now : Z) (r : Router) : Router :=
  with_table (add_node n hops now (routing_table r)) r.

Definition advertise_local_content (c : ContentHash) (r : Router) : Router :=
  let r := with_local (push_new c (local_content r)) r in
  with_table (advertise_content (ro_local r) c (routing_table r)) r.

Definition remove_local_content (c : ContentHash) (r : Router) : Router :=
  let r := with_local (filter (λ x, x ≠ c) (local_content r)) r in
  with_table (remove_content_advertisement (ro_local r) c (routing_table r)) r.

Definition get_pending_request (id : Hash256) (r : Router) : option PendingRequest :=
  pending_requests r !! id.

Definition cancel_request (id : Hash256) (r : Router) : Router :=
  with_pending (delete id (pending_requests r)) r.

Definition cleanup_timed_out_requests (now : Z) (r : Router) : list router_action * Router :=
  let timed_out := filter (λ p, has_timed_out now p.2 = true) (entries (pending_requests r)) in
  ((λ p, NotFound (pr_content_hash p.2)) <$> (if on_not_found r then timed_out else []),
   with_pending (foldl (λ ps id, delete id ps) (pending_requests r) timed_out.*1) r).

Definition update_statistics (now : Z) (r : Router) : list router_action * Router :=
  cleanup_timed_out_requests now (with_table (cleanup_stale_entries now (routing_table r)) r).

Record RouterStatistics := MkRouterStatistics {
  total_requests_sent : Z;
  total_requests_received : Z;
  total_responses_sent : Z;
  total_responses_received : Z;
  total_forwards : Z;
  successful_retrievals : Z;
  failed_retrievals : Z;
  average_hop_count : Z;
  routing_table_size : Z;
  pending_requests_count : Z
}.

Definition router_newline : bytes := ["010"%byte].

Definition router_statistics_to_string (s : RouterStatistics) : bytes :=
  str "Router Statistics:" ++ router_newline ++
  str "  Requests sent: " ++ dec (total_requests_sent s) ++ router_newline ++
  str "  Requests received: " ++ dec (total_requests_received s) ++ router_newline ++
  str "  Responses sent: " ++ dec (total_responses_sent s) ++ router_newline ++
  str "  Responses received: " ++ dec (total_responses_received s) ++ router_newline ++
  str "  Forwards: " ++ dec (total_forwards s) ++ router_newline ++
  str "  Successful retrievals: " ++ dec (successful_retrievals s) ++ router_newline ++
  str "  Failed retrievals: " ++ dec (failed_retrievals s) ++ router_newline ++
  str "  Average hop count: " ++ dec (average_hop_count s) ++ router_newline ++
  str "  Routing table size: " ++ dec (routing_table_size s) ++ router_newline ++
  str "  Pending requests: " ++ dec (pending_requests_count s).

(** ** The formats *)

Definition request_encodable (q : ContentRequest) : Prop :=
  in_u 8 (hop_limit q) ∧ in_u 64 (cr_timestamp q) ∧ in_u 16 (len (onion_layers q)) ∧
  Forall (λ l, in_u 32 (len l)) (onion_layers q).

Definition response_encodable (s : ContentResponse) : Prop :=
  in_u 8 (rs_hop_count s) ∧ in_u 32 (len (content_data s)).

Lemma reads_layer l : in_u 32 (len l) → reads 64 (layer_reader 64) l (layer_to_bytes l).
Proof.
  intros Hl. unfold layer_reader, layer_to_bytes. eapply reads_bind; [by apply reads_scalar|].
  by apply reads_string.
Qed.

Lemma consumes_layer :
  consumes (layer_reader 64) (λ l e, e = layer_to_bytes l ∧ in_u 32 (len l)).
Proof.
  eapply consumes_mono.
  - unfold layer_reader. eapply consumes_bind; [apply consumes_scalar|].
    intros n e [_ Hn]. apply (consumes_string 64 n). unfold in_u in Hn. lia.
  - intros l e Hl. cbv beta in Hl. open_fields. done.
Qed.

Lemma len_request q :
  len (request_to_bytes q) = 107 + len (mjoin (layer_to_bytes <$> onion_layers q)).
Proof. unfold request_to_bytes. autorewrite with len. change (len []) with 0. lia. Qed.

Lemma reads_request q : request_encodable q → reads 64 (request_reader 64) q (request_to_bytes q).
Proof.
  intros (? & ? & Hn & Hl). apply reads_min.
  { rewrite len_request. pose proof (len_nonneg (mjoin (layer_to_bytes <$> onion_layers q))). lia. }
  unfold request_fields, request_to_bytes. rewrite <- le_bytes_1. raw_reads_fields.
  rewrite <- (app_nil_r (mjoin _)). eapply reads_bind.
  - unfold len. rewrite Nat2Z.id. apply reads_list.
    eapply list.Forall_impl; [exact Hl|]. apply reads_layer.
  - destruct q. apply reads_ret.
Qed.

Lemma consumes_request :
  consumes (request_reader 64) (λ q e, e = request_to_bytes q ∧ request_encodable q).
Proof.
  apply consumes_min. eapply consumes_mono.
  - unfold request_fields. do 6 (eapply consumes_bind; [by eauto with reader|intros ? ? ?; cbv beta]).
    eapply consumes_bind; [apply (consumes_list (layer_reader 64) layer_to_bytes
      (λ l, in_u 32 (len l))), consumes_layer|]. intros ? ? ?. apply consumes_ret.
  - intros q e He. cbv beta in He. open_fields. unfold request_to_bytes, request_encodable.
    cbn [cr_content_hash requester_id cr_request_id hop_limit cr_timestamp onion_layers].
    match goal with H : length ?l = Z.to_nat ?n |- _ =>
      assert (len l = n) as -> by (unfold in_u, len in *; lia) end.
    rewrite <- !le_bytes_1, !app_nil_r. done.
Qed.

Lemma len_response s : len (response_to_bytes s) = 165 + len (content_data s).
Proof. unfold response_to_bytes. autorewrite with len. change (len []) with 0. lia. Qed.

Lemma reads_response s :
  response_encodable s → reads 64 (response_reader 64) s (response_to_bytes s).
Proof.
  intros (? & ?). pose proof (len_nonneg (content_data s)).
  apply reads_min; [rewrite len_response; lia|].
  unfold response_fields, response_to_bytes. rewrite <- le_bytes_1. raw_reads_fields.
  apply reads_room; [autorewrite with len; lia|]. raw_reads_fields. destruct s. apply reads_ret.
Qed.

Lemma consumes_response :
  consumes (response_reader 64) (λ s e, e = response_to_bytes s ∧ response_encodable s).
Proof.
  eapply consumes_mono; [unfold response_reader, response_fields; raw_consumes_fields|].
  intros s e He. cbv beta in He. open_fields. unfold response_to_bytes, response_encodable.
  cbn [rs_content_hash content_data hosting_node rs_request_id rs_hop_count rs_signature].
  rewrite <- !le_bytes_1, !app_nil_r. eauto.
Qed.

#[export] Instance ContentRequest_codec : Codec ContentRequest :=
  {| encode := request_to_bytes; decode := request_from_bytes; encodable := request_encodable |}.
#[export] Instance ContentResponse_codec : Codec ContentResponse :=
  {| encode := response_to_bytes; decode := response_from_bytes; encodable := response_encodable |}.

#[export] Instance ContentRequest_codec_laws : CodecLaws ContentRequest.
Proof. by apply (reader_codec_laws _ (request_reader 64)); [|apply reads_request|apply consumes_request]. Qed.
#[export] Instance ContentResponse_codec_laws : CodecLaws ContentResponse.
Proof. by apply (reader_codec_laws _ (response_reader 64)); [|apply reads_response|apply consumes_response]. Qed.

Ltac safe_raw_step :=
  eapply safe_bind;
  [ first [apply fixed_raw_array | apply fixed_raw_uint] | cbn; lia
  | intros; match goal with |- safe_at _ ?n _ _ =>
      let v := eval cbv in n in change n with v end ].

Lemma safe_layer : safe_at 64 0 (layer_reader 64) (λ _, True).
Proof.
  apply safe_scalar; [lia|by vm_compute|]. intros size Hsize d o Ho Hl Hd.
  pose proof (safe_string 64 size (λ l, mret l) 0 (λ _, True) ltac:(lia)
    ltac:(unfold in_u in *; cbn in *; lia) ltac:(intros; by apply safe_ret) d o Ho Hl Hd) as Hs.
  unfold mbind, reader_bind, mret, reader_ret in Hs. by destruct (read_string 64 size d o) as [[? ?]| |].
Qed.

Lemma safe_request : safe_at 64 107 (request_fields 64) (λ _, True).
Proof.
  unfold request_fields. do 6 safe_raw_step.
  eapply safe_then; [apply safe_list, safe_layer|]. intros. by apply safe_ret.
Qed.

Lemma safe_response : safe_at 64 165 (response_fields 64) (λ _, True).
Proof.
  unfold response_fields. do 5 safe_raw_step. 
  match goal with H : in_u _ ?n |- safe_at _ _ (_ ← rd_room _ (?n + 64); _) _ =>
    rename H into Hn; rename n into size end. unfold in_u in Hn. cbn in Hn.
  apply safe_room; [lia|unfold in_u; cbn; lia|].
  eapply safe_bind; [apply fixed_raw; lia|lia|]. intros body _. rewrite Z.add_simpl_l.
  eapply safe_bind; [apply fixed_raw_array|cbn; lia|]. intros sg _. by apply safe_ret.
Qed.

(** ** The keystream cancels itself *)

Lemma lxor_bytes_range a b : in_u 8 (Z.lxor (byte_val a) (byte_val b)).
Proof.
  pose proof (byte_val_range a) as Ha. pose proof (byte_val_range b) as Hb.
  unfold in_u in *. split; [apply Z.lxor_nonneg; lia|].
  destruct (Z.eq_dec (Z.lxor (byte_val a) (byte_val b)) 0) as [->|Hne]; [lia|].
  assert (0 <= Z.lxor (byte_val a) (byte_val b)) by (apply Z.lxor_nonneg; lia).
  apply Z.log2_lt_pow2; [lia|].
  eapply Z.le_lt_trans; [apply Z.log2_lxor; lia|].
  apply Z.max_lub_lt.
  - destruct (Z.eq_dec (byte_val a) 0) as [->|]; [done|]. apply Z.log2_lt_pow2; lia.
  - destruct (Z.eq_dec (byte_val b) 0) as [->|]; [done|]. apply Z.log2_lt_pow2; lia.
Qed.

Lemma xor_byte_twice a b : xor_byte (xor_byte a b) b = a.
Proof.
  unfold xor_byte. rewrite byte_val_to_byte, (wrap_small 8) by apply lxor_bytes_range.
  rewrite Z.lxor_assoc, Z.lxor_nilpotent, Z.lxor_0_r. apply to_byte_val.
Qed.

Section onion.
Context `{Crypto}.

Lemma xor_zip_twice (input block : bytes) :
  zip_with xor_byte (zip_with xor_byte input block) block =
  take (length block) input.
Proof.
  revert block. induction input as [|a input IH]; intros [|b block]; cbn; try done.
  by rewrite IH, xor_byte_twice.
Qed.

Lemma length_xor_blocks n counter seed input :
  (length input <= 32 * n)%nat → length (xor_blocks n counter seed input) = length input.
Proof.
  revert counter input. induction n as [|n IH]; intros counter input Hn.
  { destruct input; [done|]. cbn in Hn. lia. }
  cbn [xor_blocks]. destruct input as [|a input0] eqn:E; [done|]. rewrite <- E in *.
  rewrite length_app, length_zip_with, length_arr, IH; rewrite length_drop; lia.
Qed.

Lemma xor_blocks_twice n counter seed input :
  (length input <= 32 * n)%nat →
  xor_blocks n counter seed (xor_blocks n counter seed input) = input.
Proof.
  revert counter input. induction n as [|n IH]; intros counter input Hn.
  { destruct input; [done|]. cbn in Hn. lia. }
  pose proof (length_xor_blocks (S n) counter seed input Hn) as Hl.
  cbn [xor_blocks] in Hl |- *. destruct input as [|a input0] eqn:E; [done|]. rewrite <- E in *.
  set (block := arr (blake3 (seed ++ le_bytes 4 counter))) in *.
  assert (Hb : length block = 32%nat) by apply length_arr.
  set (rest := xor_blocks n (u32 (counter + 1)) seed (drop (length block) input)) in *.
  destruct (zip_with xor_byte input block ++ rest) as [|x xs] eqn:Ex.
  { subst input. by cbn in Hl. }
  rewrite <- Ex. assert (Hz : length (zip_with xor_byte input block) = (32 `min` length input)%nat)
    by (rewrite length_zip_with, Hb; lia).
  assert (Hrest : (length (drop (length block) input) <= 32 * n)%nat) by (rewrite length_drop; lia).
  destruct (decide (length input <= 32)%nat) as [Hs|Hs].
  - assert (rest = []) as ->.
    { unfold rest. rewrite Hb, drop_ge by lia. by destruct n. }
    rewrite app_nil_r, xor_zip_twice, take_ge by lia.
    rewrite drop_ge by lia. destruct n; by rewrite app_nil_r.
  - assert (Hz32 : length (zip_with xor_byte input block) = 32%nat) by lia.
    rewrite drop_app_length' by lia. unfold rest at 2. rewrite IH by done.
    rewrite zip_with_app_l, Hz32, take_ge, drop_ge by lia.
    replace (zip_with xor_byte rest []) with (@nil byte) by (by destruct rest).
    rewrite app_nil_r, xor_zip_twice. apply take_drop.
Qed.

Lemma keystream_twice input seed :
  xor_with_keystream (xor_with_keystream input seed) seed = input.
Proof.
  unfold xor_with_keystream. rewrite length_xor_blocks by lia. apply xor_blocks_twice. lia.
Qed.

Lemma len_keystream input seed : len (xor_with_keystream input seed) = len input.
Proof. unfold len, xor_with_keystream. by rewrite length_xor_blocks by lia. Qed.

(** The node a layer is for peels it. *)
Lemma decrypt_wrapped hop next current :
  decrypt_onion_layer hop (wrap_layer hop next current) = Some current.
Proof.
  unfold decrypt_onion_layer, wrap_layer.
  assert (Hl : len (xor_with_keystream (arr next ++ current) (arr hop)) = 32 + len current)
    by (rewrite len_keystream, len_app, len_arr; done).
  pose proof (len_nonneg current).
  rewrite len_app. change (len onion_tag) with 3.
  rewrite (proj2 (Z.ltb_ge _ _)) by lia.
  change (take 3 (onion_tag ++ xor_with_keystream (arr next ++ current) (arr hop))) with onion_tag.
  rewrite bool_decide_eq_true_2 by done. cbn [negb].
  change (drop 3 (onion_tag ++ xor_with_keystream (arr next ++ current) (arr hop))) with
    (xor_with_keystream (arr next ++ current) (arr hop)).
  rewrite keystream_twice, len_app, len_arr, (proj2 (Z.ltb_ge _ _)) by lia.
  by rewrite drop_app_length' by (by rewrite length_arr).
Qed.

Lemma len_decrypted local layer d :
  decrypt_onion_layer local layer = Some d → len layer = 35 + len d.
Proof.
  unfold decrypt_onion_layer. destruct (len layer <? _) eqn:E1; [done|].
  destruct (negb _); [done|]. destruct (_ <? 32) eqn:E2; [done|]. intros [= <-]. bool_to_prop.
  rewrite len_keystream in E2. unfold len in *. rewrite length_drop.
  pose proof (len_keystream (drop 3 layer) (arr local)) as Hk. unfold len in Hk.
  rewrite length_drop in *. lia.
Qed.

(** The layers of a parsed request fit into what it was parsed from. *)
Lemma parsed_layers d q :
  request_from_bytes d = Some q → 107 + Z.of_nat (onion_size q) <= len d.
Proof.
  intros E. destruct (decode_sound (CodecLaws := ContentRequest_codec_laws) d q E) as (tail & -> & _). cbn [encode ContentRequest_codec].
  rewrite len_app, len_request. pose proof (len_nonneg tail).
  assert (Z.of_nat (onion_size q) <= len (mjoin (layer_to_bytes <$> onion_layers q))); [|lia].
  unfold onion_size. fold (len (mjoin (onion_layers q))).
  induction (onion_layers q) as [|l ls IH]; [done|].
  change (mjoin (layer_to_bytes <$> l :: ls)) with (layer_to_bytes l ++ mjoin (layer_to_bytes <$> ls)).
  change (mjoin (l :: ls)) with (l ++ mjoin ls).
  unfold layer_to_bytes at 1. rewrite !len_app, len_le_bytes. lia.
Qed.

(** The next request in an onion has smaller layers. *)
Lemma onion_shrinks local q layer ls d next :
  onion_layers q = layer :: ls → decrypt_onion_layer local layer = Some d →
  request_from_bytes d = Some next → (onion_size next < onion_size q)%nat.
Proof.
  intros Hl Hd Hn. pose proof (len_decrypted _ _ _ Hd). pose proof (parsed_layers _ _ Hn).
  unfold onion_size at 2. rewrite Hl. change (mjoin (layer :: ls)) with (layer ++ mjoin ls).
  rewrite length_app. unfold len in *. lia.
Qed.

Lemma handle_fuel_enough unset n q now r :
  (onion_size q < n)%nat → is_Some (handle_fuel unset n q now r).
Proof.
  revert q r. induction n as [|n IH]; intros q r Hn; [lia|]. cbn [handle_fuel].
  destruct (hop_limit q =? 0); [by eexists|].
  destruct (onion_layers q) as [|layer ls] eqn:El; [by eexists|].
  destruct (decrypt_onion_layer _ layer) as [d|] eqn:Ed; [|by eexists].
  destruct (request_from_bytes d) as [next|] eqn:En; [|by eexists].
  pose proof (onion_shrinks _ _ _ _ _ _ El Ed En). apply IH. lia.
Qed.

(** More fuel changes nothing. *)
Lemma handle_fuel_more unset n m q now r res :
  handle_fuel unset n q now r = Some res → (n <= m)%nat → handle_fuel unset m q now r = Some res.
Proof.
  revert m q r. induction n as [|n IH]; intros m q r E Hm; [done|].
  destruct m as [|m]; [lia|]. cbn [handle_fuel] in *.
  destruct (hop_limit q =? 0); [done|]. destruct (onion_layers q) as [|layer ls]; [done|].
  destruct (decrypt_onion_layer _ layer) as [d|]; [|done].
  destruct (request_from_bytes d) as [next|]; [|done]. apply IH; [done|lia].
Qed.

(** The recursion, without fuel. *)
Lemma handle_unfold unset q now r :
  handle_content_request unset q now r =
  let r := count_request_received r in
  if hop_limit q =? 0 then Some ([], r)
  else
    match onion_layers q with
    | [] => Some (handle_plain unset q now r)
    | layer :: _ =>
        match decrypt_onion_layer (ro_local r) layer with
        | None => Some ([], r)
        | Some d =>
            match request_from_bytes d with
            | None => Some ([], r)
            | Some next => handle_content_request unset next now r
            end
        end
    end.
Proof.
  unfold handle_content_request at 1. cbn [handle_fuel].
  destruct (hop_limit q =? 0); [done|]. destruct (onion_layers q) as [|layer ls] eqn:El; [done|].
  destruct (decrypt_onion_layer _ layer) as [d|] eqn:Ed; [|done].
  destruct (request_from_bytes d) as [next|] eqn:En; [|done].
  pose proof (onion_shrinks _ _ _ _ _ _ El Ed En).
  destruct (handle_fuel_enough unset (S (onion_size next)) next now (count_request_received r))
    as [res Hres]; [lia|].
  unfold handle_content_request. rewrite Hres. eapply handle_fuel_more; [exact Hres|lia].
Qed.

End onion.

(** ** Requests without a route *)

(** Without a usable host a request goes to the zero node. *)
Lemma request_without_route `{Crypto} c hops random now r :
  find_hosts_for_content c (routing_table r) = [] → request_send r = true →
  ∃ id q r', request_content c hops random now r = (id, [SendRequest (zeros 32) q], r') ∧
    hop_limit q <= MAX_HOP_LIMIT ∧ requests_sent r' = u64 (requests_sent r + 1) ∧
    get_pending_request id r' = Some (MkPendingRequest id c (ro_local r) now 0).
Proof.
  intros Hh Hs. unfold request_content.
  destruct (generate_request_id random r) as [id r1] eqn:Eg. injection Eg as Eid Er.
  change (array_empty _) with false. cbn [negb].
  eexists _, _, _. split.
  - unfold send_request_to_peer, select_next_hop, select_best_host. subst r1.
    cbn [request_send track with_pending count_id routing_table]. rewrite Hs, Hh. reflexivity.
  - cbn [hop_limit]. split; [lia|]. subst r1. split; [done|].
    unfold get_pending_request. cbn. by rewrite lookup_insert_eq.
Qed.

(** ** Properties *)

(** A content request or response is read back from its bytes, whatever follows them,
    bytes that parse start with the encoding of the parsed message, and no input is read
    out of bounds. *)
Theorem content_messages_codec d :
  (∀ (q : ContentRequest) tail, request_encodable q → vector_fits (request_to_bytes q ++ tail) →
     request_from_bytes (request_to_bytes q ++ tail) = Some q) ∧
  (∀ q, request_from_bytes d = Some q → ∃ tail, d = request_to_bytes q ++ tail ∧ request_encodable q) ∧
  (∀ (s : ContentResponse) tail, response_encodable s → vector_fits (response_to_bytes s ++ tail) →
     response_from_bytes (response_to_bytes s ++ tail) = Some s) ∧
  (∀ s, response_from_bytes d = Some s →
     ∃ tail, d = response_to_bytes s ++ tail ∧ response_encodable s) ∧
  (vector_fits d → run_reader (request_reader 64) d ≠ Undef ∧
                   run_reader (response_reader 64) d ≠ Undef).
Proof.
  split_and!.
  - apply (decode_encode (CodecLaws := ContentRequest_codec_laws)).
  - apply (decode_sound (CodecLaws := ContentRequest_codec_laws)).
  - apply (decode_encode (CodecLaws := ContentResponse_codec_laws)).
  - apply (decode_sound (CodecLaws := ContentResponse_codec_laws)).
  - intros Hd. split.
    + apply (safe_min_run 64 107 (request_fields 64) (λ _, True)); [apply safe_request|done].
    + apply (safe_min_run 64 165 (response_fields 64) (λ _, True)); [apply safe_response|done].
Qed.

(** Handling a request always ends; a request with no hop left is dropped, a plain one is
    served from local content, else forwarded with one hop less to the best host when it
    has more than one hop left, comes from another node and the content is listed, else
    dropped; a request for content nobody advertises is sent to the zero identifier. *)
Theorem request_handling `{Crypto} unset q now r :
  (∃ out r', handle_content_request unset q now r = Some (out, r')) ∧
  (hop_limit q = 0 →
     handle_content_request unset q now r = Some ([], count_request_received r)) ∧
  (0 < hop_limit q < 2 ^ 8 → onion_layers q = [] →
     handle_content_request unset q now r =
     Some
       (let r := count_request_received r in
        if decide (cr_content_hash q ∈ local_content r) then serve unset q r
        else if decide (1 < hop_limit q ∧ requester_id q ≠ ro_local r ∧
                        has_content_route (cr_content_hash q) (routing_table r) = true) then
          (if request_send r then
             [SendRequest (default (zeros 32) (select_best_host (cr_content_hash q) now (routing_table r)))
                (MkContentRequest (cr_content_hash q) (requester_id q) (cr_request_id q)
                   (hop_limit q - 1) (cr_timestamp q) [])]
           else [], count_forward r)
        else ([], r))) ∧
  (∀ c hops random, find_hosts_for_content c (routing_table r) = [] → request_send r = true →
     ∃ id q r', request_content c hops random now r = (id, [SendRequest (zeros 32) q], r') ∧
       hop_limit q <= MAX_HOP_LIMIT ∧ requests_sent r' = u64 (requests_sent r + 1) ∧
       get_pending_request id r' = Some (MkPendingRequest id c (ro_local r) now 0)).
Proof.
  split_and!.
  - destruct (handle_fuel_enough unset (S (onion_size q)) q now r) as [[out r'] E]; [lia|].
    by exists out, r'.
  - intros Hz. rewrite handle_unfold, Hz. done.
  - intros Hh Hl. rewrite handle_unfold. cbv zeta. rewrite (proj2 (Z.eqb_neq _ _)), Hl by lia.
    f_equal. unfold handle_plain, can_serve_locally, should_forward_request.
    set (r1 := count_request_received r).
    destruct (decide (cr_content_hash q ∈ local_content r1)) as [Hin|Hin];
      [by rewrite bool_decide_eq_true_2|]. rewrite bool_decide_eq_false_2 by done.
    destruct (hop_limit q <=? 1) eqn:E1; bool_to_prop; cbn [negb].
    { rewrite decide_False by lia. done. }
    case_bool_decide as E2; cbn [negb]; [rewrite decide_False by tauto; done|].
    destruct (has_content_route _ _) eqn:E3; cbn [negb]; [|rewrite decide_False by naive_solver; done].
    rewrite decide_True by done. change (array_empty _) with false. cbv iota.
    unfold send_request_to_peer, select_next_hop, forwarded. rewrite Hl.
    rewrite (wrap_small 8) by (unfold in_u; lia). done.
  - intros. by apply request_without_route.
Qed.

(** An onion request goes to the first hop of the route with one layer, which that hop and
    its key seed peel; on a route of one hop the request inside is then handled as a plain
    one, and on a longer route what is left is another tagged layer, not a request; the
    request is pending under the returned identifier. *)
Theorem onion_routing `{Crypto} unset c hop rest random now sender r :
  ro_local r = hop → request_send sender = true → in_u 64 now → (length rest < 2 ^ 16)%nat →
  let '(id, out, sender') := request_content_with_onion_routing c (hop :: rest) random now sender in
  let plain := MkContentRequest c (ro_local sender) id (u8 (len (hop :: rest) + 2)) now [] in
  (∃ layer, out = [SendRequest hop (MkContentRequest c (ro_local sender) id
              (u8 (len (hop :: rest) + 2)) now [layer])] ∧
     decrypt_onion_layer hop layer = Some (wrap_layers rest (request_to_bytes plain)) ∧
     (rest = [] → ∀ now',
        handle_content_request unset (MkContentRequest c (ro_local sender) id 3 now [layer]) now' r =
        handle_content_request unset plain now' (count_request_received r)) ∧
     (∀ next rest', rest = next :: rest' →
        take 3 (wrap_layers rest (request_to_bytes plain)) = onion_tag)) ∧
  get_pending_request id sender' =
    Some (MkPendingRequest id c (ro_local sender) now 0).
Proof.
  intros Hr Hs Hnow Hrest. unfold request_content_with_onion_routing.
  destruct (generate_request_id random sender) as [id sender1] eqn:Eg.
  injection Eg as Eid Es. cbn [create_onion_layers].
  assert (Hl : ro_local sender1 = ro_local sender) by (by subst sender1).
  assert (Hsd : request_send sender1 = true) by (by subst sender1).
  rewrite Hl. set (hops := u8 (len (hop :: rest) + 2)).
  set (plain := MkContentRequest c (ro_local sender) id hops now []).
  set (layer := wrap_layers (hop :: rest) (request_to_bytes plain)).
  assert (Hd : decrypt_onion_layer hop layer = Some (wrap_layers rest (request_to_bytes plain)))
    by apply decrypt_wrapped.
  split; [exists layer; split; [|split; [exact Hd|split]]|].
  - unfold send_request_to_peer. change (request_send (track _ sender1)) with (request_send sender1).
    by rewrite Hsd.
  - intros -> now'. rewrite handle_unfold. cbv zeta. cbn [hop_limit onion_layers].
    change (3 =? 0) with false. change (ro_local (count_request_received r)) with (ro_local r).
    rewrite Hr, Hd. cbn [wrap_layers].
    assert (Hp : request_from_bytes (request_to_bytes plain) = Some plain).
    { rewrite <- (app_nil_r (request_to_bytes plain)).
      apply (decode_encode (CodecLaws := ContentRequest_codec_laws) plain []).
      - split; [by vm_compute|]. split; [done|]. split; [done|constructor].
      - unfold vector_fits. cbn [encode ContentRequest_codec]. rewrite app_nil_r, len_request.
        vm_compute. reflexivity. }
    by rewrite Hp.
  - intros next rest' ->. done.
  - unfold get_pending_request, count_request_sent, track. cbn [pending_requests with_pending].
    cbn [cr_request_id cr_content_hash cr_timestamp]. rewrite lookup_insert_eq. by rewrite Hl.
Qed.

(** A verification callback, when set, accepts the response. *)
Definition verified (s : ContentResponse) (r : Router) : bool :=
  match response_verify r with Some f => f s | None => true end.

(** A response is delivered, its host rewarded and the request settled exactly when its
    identifier is pending, the hash of the data is the one the response states and the
    verifier accepts it; otherwise only the counter changes. The content the request asked
    for plays no part. *)
Theorem response_handling `{Crypto} s r :
  let '(out, r') := handle_content_response s r in
  responses_received r' = u64 (responses_received r + 1) ∧
  if decide (is_Some (pending_requests r !! rs_request_id s) ∧
             blake3 (content_data s) = rs_content_hash s ∧
             verified s r = true)
  then
    out = (if on_received r then [Received (blake3 (content_data s)) (content_data s)] else []) ∧
    pending_requests r' = delete (rs_request_id s) (pending_requests r) ∧
    routing_table r' = update_node_reliability (hosting_node s) Floats.f_one (routing_table r)
  else out = [] ∧ pending_requests r' = pending_requests r ∧ routing_table r' = routing_table r.
Proof.
  unfold handle_content_response, verified.
  cbn [pending_requests count_response_received response_verify].
  destruct (pending_requests r !! rs_request_id s) as [p|] eqn:Ep.
  2: { split; [done|]. rewrite decide_False; [done|]. intros [[? ?] _]. done. }
  case_bool_decide as Eh; cbn [negb].
  2: { split; [done|]. rewrite decide_False; [done|]. tauto. }
  destruct (response_verify r) as [f|]; [destruct (f s); cbn [negb]|].
  - split; [done|]. rewrite decide_True by (split_and!; [eauto|done|done]). rewrite Eh. done.
  - split; [done|]. rewrite decide_False by (by intros (_ & _ & ?)). done.
  - split; [done|]. rewrite decide_True by (split_and!; [eauto|done|done]). rewrite Eh. done.
Qed.


(** ** A sample *)

Definition sample_router : Router :=
  MkRouter far sample_table ∅ [] true false None None None true true 0 0 0 0 0 1.

Definition sample_request : ContentRequest := MkContentRequest page (zeros 32) page 8 1500 [].

Definition sample_response : ContentResponse :=
  MkContentResponse (@blake3 toy_crypto (str "hi")) (str "hi") near page 0 (zeros 64).

(** The router waits for [page] and gets something else under the same identifier. *)
Definition waiting_router : Router :=
  with_pending {[page := MkPendingRequest page page far 1500 0]} sample_router.

Lemma sample_request_encodable : request_encodable sample_request.
Proof.
  split; [split; [discriminate|reflexivity]|]. split; [split; [discriminate|reflexivity]|].
  split; [split; [discriminate|reflexivity]|constructor].
Qed.

Lemma sample_response_encodable : response_encodable sample_response.
Proof. split; (split; [discriminate|reflexivity]). Qed.

Lemma content_messages_codec_witness :
  request_from_bytes (request_to_bytes sample_request ++ []) = Some sample_request ∧
  response_from_bytes (response_to_bytes sample_response ++ []) = Some sample_response.
Proof.
  split.
  - refine (proj1 (content_messages_codec []) sample_request [] sample_request_encodable _).
    vm_compute. reflexivity.
  - refine (proj1 (proj2 (proj2 (content_messages_codec []))) sample_response []
      sample_response_encodable _).
    vm_compute. reflexivity.
Defined.

Lemma request_handling_witness :
  @handle_content_request toy_crypto (zeros 64) sample_request 1500 sample_router =
  Some ([SendRequest near (MkContentRequest page (zeros 32) page 7 1500 [])],
        count_forward (count_request_received sample_router)).
Proof.
  rewrite (proj1 (proj2 (proj2 (@request_handling toy_crypto (zeros 64) sample_request 1500
    sample_router)))); [vm_compute; reflexivity|split; reflexivity|reflexivity].
Defined.

Lemma onion_routing_witness :
  let '(id, out, sender) := @request_content_with_onion_routing toy_crypto page [near]
    (str "0123456789abcdef") 1500 sample_router in
  (∃ layer, @decrypt_onion_layer toy_crypto near layer =
     Some (request_to_bytes (MkContentRequest page far id 3 1500 []))) ∧
  get_pending_request id sender = Some (MkPendingRequest id page far 1500 0).
Proof.
  assert (Hnow : in_u 64 1500) by (split; [discriminate|reflexivity]).
  assert (Hlen : (length (@nil Hash256) < 2 ^ 16)%nat) by (apply Nat.ltb_lt; vm_compute; reflexivity).
  generalize (@onion_routing toy_crypto (zeros 64) page near [] (str "0123456789abcdef") 1500
    sample_router (new_router near) eq_refl eq_refl Hnow Hlen).
  destruct (@request_content_with_onion_routing toy_crypto page [near] _ _ _) as [[id out] sender].
  intros [(layer & _ & Hd & _) Hp]. split; [exists layer; exact Hd|exact Hp].
Defined.

Lemma response_handling_witness :
  (@handle_content_response toy_crypto sample_response waiting_router).1 =
  [Received (@blake3 toy_crypto (str "hi")) (str "hi")].
Proof.
  pose proof (@response_handling toy_crypto sample_response waiting_router) as HT.
  destruct (handle_content_response _ _) as [out r']. destruct HT as [_ HT].
  rewrite decide_True in HT; [exact (proj1 HT)|]. 
  split; [vm_compute; eauto|]. split; reflexivity.
Defined.
