(* ===== verification/Channel.v ===== *)
(** The cryptography of secure channels: src/crypto/x25519.cpp and
    chacha20poly1305.cpp.

    libsodium's entry points are the operations of the class [ChannelCrypto];
    [ChannelLaws] states the documented behaviour of X25519 and of the
    authenticated cipher that sessions rely on.  The wrappers turn return codes
    into exceptions and empty results.  [toy_channel] is a computable instance
    that satisfies the laws. *)

From Stdlib Require Import Strings.Byte.
From S2P Require Import Prelude Common Crypto.

Abbreviation SessionKey := (array 32).
Abbreviation Nonce := (array 12).

(** ** Arrays from parts *)

(** [std::copy] of two arrays, one after the other. *)
Program Definition array_app {n m} (a : array n) (b : array m) : array (n + m) :=
  dexist (arr a ++ arr b) _.
Next Obligation. intros. cbv beta. by rewrite length_app, !length_arr. Qed.

(** An integer written into an array, byte by byte. *)
Program Definition le_array (n : nat) (x : Z) : array n := dexist (le_bytes n x) _.
Next Obligation. intros. apply length_le_bytes. Qed.

Lemma arr_app {n m} (a : array n) (b : array m) : arr (array_app a b) = arr a ++ arr b.
Proof. done. Qed.

(** ** The library entry points *)

Class ChannelCrypto := {
  (** [crypto_scalarmult] of a 32-byte scalar; [None] for a non-zero return code *)
  crypto_scalarmult : array 32 → PublicKey → option SessionKey;
  (** [crypto_scalarmult_base] *)
  crypto_scalarmult_base : array 32 → option PublicKey;
  (** [crypto_aead_chacha20poly1305_ietf_encrypt] without additional data *)
  crypto_aead_encrypt : bytes → Nonce → SessionKey → option bytes;
  (** [crypto_aead_chacha20poly1305_ietf_decrypt] *)
  crypto_aead_decrypt : bytes → Nonce → SessionKey → option bytes
}.

(** [crypto_aead_chacha20poly1305_ietf_ABYTES] *)
Definition ABYTES : Z := 16.

(** Both ends of an exchange compute the same point; opening what was sealed
    under the same key and nonce gives it back; a tag is appended. *)
Class ChannelLaws `{ChannelCrypto} := {
  scalarmult_agree : ∀ a b A B,
    crypto_scalarmult_base a = Some A → crypto_scalarmult_base b = Some B →
    crypto_scalarmult a B = crypto_scalarmult b A;
  aead_open : ∀ m n k c,
    crypto_aead_encrypt m n k = Some c → crypto_aead_decrypt c n k = Some m;
  aead_length : ∀ m n k c, crypto_aead_encrypt m n k = Some c → len c = len m + ABYTES
}.

(** ** X25519 *)

(** The library reads the first 32 of the 64 bytes of a [SecretKey]. *)
Program Definition scalar_of (sk : SecretKey) : array 32 := dexist (take 32 (arr sk)) _.
Next Obligation. intros. cbv beta. rewrite length_take, length_arr. reflexivity. Qed.

Module X25519.
Section ops.
Context `{ChannelCrypto}.

(** [drawn] is what [crypto_box_keypair] produces, [None] when it fails. *)
Definition generate_keypair (drawn : option (PublicKey * SecretKey)) :
    outcome (PublicKey * SecretKey) :=
  match drawn with
  | Some kp => Ok kp
  | None => Err (ERuntime "Failed to generate X25519 keypair")
  end.

Definition exchange (our_secret : SecretKey) (their_public : PublicKey) : option SessionKey :=
  crypto_scalarmult (scalar_of our_secret) their_public.

Definition derive_public (secret : SecretKey) : outcome PublicKey :=
  match crypto_scalarmult_base (scalar_of secret) with
  | Some pk => Ok pk
  | None => Err (ERuntime "Failed to derive X25519 public key")
  end.

(** What [crypto_box_keypair] documents: the public key belongs to the secret. *)
Definition keypair_ok (kp : PublicKey * SecretKey) : Prop := derive_public kp.2 = Ok kp.1.

Lemma exchange_agree `{!ChannelLaws} p q :
  keypair_ok p → keypair_ok q → exchange p.2 q.1 = exchange q.2 p.1.
Proof.
  unfold keypair_ok, derive_public, exchange. intros Hp Hq.
  destruct (crypto_scalarmult_base (scalar_of p.2)) eqn:Ep; [|done].
  destruct (crypto_scalarmult_base (scalar_of q.2)) eqn:Eq; [|done].
  injection Hp as ->. injection Hq as ->. by apply scalarmult_agree.
Qed.

End ops.
End X25519.

(** ** ChaCha20-Poly1305 *)

Module ChaCha20Poly1305.
Section ops.
Context `{ChannelCrypto}.

Definition encrypt (plaintext : bytes) (key : SessionKey) (nonce : Nonce) : outcome bytes :=
  match crypto_aead_encrypt plaintext nonce key with
  | Some c => Ok c
  | None => Err (ERuntime "ChaCha20-Poly1305 encryption failed")
  end.

Definition decrypt (ciphertext : bytes) (key : SessionKey) (nonce : Nonce) : option bytes :=
  if len ciphertext <? ABYTES then None else crypto_aead_decrypt ciphertext nonce key.

Lemma decrypt_encrypt `{!ChannelLaws} m k n c : encrypt m k n = Ok c → decrypt c k n = Some m.
Proof.
  unfold encrypt, decrypt. destruct (crypto_aead_encrypt m n k) as [c'|] eqn:E; [|done].
  intros [= <-]. rewrite (aead_length _ _ _ _ E). pose proof (len_nonneg m).
  rewrite (proj2 (Z.ltb_ge _ _)) by lia. by apply aead_open.
Qed.

Lemma len_encrypt `{!ChannelLaws} m k n c : encrypt m k n = Ok c → len c = len m + ABYTES.
Proof.
  unfold encrypt. destruct (crypto_aead_encrypt m n k) as [c'|] eqn:E; [|done].
  intros [= <-]. exact (aead_length _ _ _ _ E).
Qed.

End ops.
End ChaCha20Poly1305.

(** ** A computable instance *)

(** Byte-wise exclusive or of arrays: commutative, as multiplication is. *)
Program Definition toy_mult {n} (a b : array n) : array n :=
  dexist (zip_with (λ x y, to_byte (Z.lxor (byte_val x) (byte_val y))) (arr a) (arr b)) _.
Next Obligation. intros. cbv beta. rewrite length_zip_with, !length_arr. lia. Qed.

Lemma toy_mult_comm {n} (a b : array n) : toy_mult a b = toy_mult b a.
Proof.
  apply arr_inj. change (arr (toy_mult a b)) with
    (zip_with (λ x y, to_byte (Z.lxor (byte_val x) (byte_val y))) (arr a) (arr b)).
  change (arr (toy_mult b a)) with
    (zip_with (λ x y, to_byte (Z.lxor (byte_val x) (byte_val y))) (arr b) (arr a)).
  generalize (arr a) (arr b). intros l. induction l as [|x l IH]; intros [|y k]; [done..|].
  cbn [zip_with]. by rewrite IH, Z.lxor_comm.
Qed.

Definition toy_tag (m : bytes) (n : Nonce) (k : SessionKey) : bytes :=
  arr (toy_digest 16 (arr k ++ arr n ++ m)).

Definition toy_channel : ChannelCrypto := {|
  crypto_scalarmult a B := Some (toy_mult a B);
  crypto_scalarmult_base := Some;
  crypto_aead_encrypt m n k := Some (m ++ toy_tag m n k);
  crypto_aead_decrypt c n k :=
    let m := take (length c - 16) c in
    if bool_decide (drop (length c - 16) c = toy_tag m n k) then Some m else None
|}.

Lemma toy_channel_laws : @ChannelLaws toy_channel.
Proof.
  split.
  - intros a b A B [= <-] [= <-]. cbn. by rewrite toy_mult_comm.
  - intros m n k c [= <-]. cbn [crypto_aead_decrypt toy_channel].
    assert (Hl : (length (m ++ toy_tag m n k) - 16 = length m)%nat)
      by (rewrite length_app; unfold toy_tag; rewrite length_arr; lia).
    rewrite Hl, take_app_length, drop_app_length. by rewrite bool_decide_eq_true_2.
  - intros m n k c [= <-]. unfold toy_tag, ABYTES. by rewrite len_app, len_arr.
Qed.
