(* ===== verification/Session.v ===== *)
(** Encrypted sessions: src/network/session.hpp and session.cpp.

    A [Session] is a state machine over the handshake; members the constructor
    leaves indeterminate are [option]s, and reading an unset one is [Undef].  An
    operation returns its result and the session, since an exception leaves the
    assignments made before it.  The key pairs drawn, random bytes and the clock
    are arguments, the clock read once per operation.  [SessionManager] holds
    shared pointers: sessions live in a [heap], a list indexed by address, and
    callers of the manager share them. *)

From Stdlib Require Import Strings.Byte.
From S2P Require Import Prelude Reader Common Crypto Channel.

(** ** The handshake message *)

Record HandshakeMessage := MkHandshakeMessage {
  version : Z;
  ephemeral_public : PublicKey;
  hs_node_id : NodeID;
  hs_timestamp : Z;
  hs_signature : Signature
}.

Definition CURRENT_VERSION : Z := 1.
Definition MAX_AGE_SECONDS : Z := 60.

Definition handshake_signing_bytes (h : HandshakeMessage) : bytes :=
  [to_byte (version h)] ++ arr (ephemeral_public h) ++ arr (hs_node_id h) ++
  le_bytes 8 (hs_timestamp h).

Definition compute_handshake_signature `{Crypto} (h : HandshakeMessage) : Signature :=
  let digest := blake3 (handshake_signing_bytes h) in
  array_app digest digest.

Definition verify_handshake_signature `{Crypto} (h : HandshakeMessage) : bool :=
  bool_decide (hs_signature h = compute_handshake_signature h).

Definition handshake_to_bytes (h : HandshakeMessage) : bytes :=
  [to_byte (version h)] ++ arr (ephemeral_public h) ++ arr (hs_node_id h) ++
  le_bytes 8 (hs_timestamp h) ++ arr (hs_signature h).

Definition handshake_reader : reader HandshakeMessage :=
  _ ← rd_min (1 + 32 + 32 + 8 + 64);
  v ← raw_uint 1;
  pk ← raw_array 32;
  id ← raw_array 32;
  time ← raw_uint 8;
  sg ← raw_array 64;
  mret (MkHandshakeMessage v pk id time sg).

Definition handshake_from_bytes (input : bytes) : option HandshakeMessage :=
  to_optional (run_reader handshake_reader input).

(** ** The session *)

Inductive SessionState :=
  | DISCONNECTED | HANDSHAKE_INIT | HANDSHAKE_RESPONSE | ESTABLISHED | CLOSING | CLOSED.

#[export] Instance SessionState_eq_dec : EqDecision SessionState.
Proof. solve_decision. Defined.

Record SessionKeys := MkSessionKeys {
  tx_key : option SessionKey;
  rx_key : option SessionKey;
  keys_created : Z;
  messages_sent : Z;
  messages_received : Z;
  bytes_sent : Z;
  bytes_received : Z
}.

Record Session := MkSession {
  local_node_id : NodeID;
  remote_node_id : NodeID;
  state : SessionState;
  is_initiator : bool;
  local_ephemeral : PublicKey * SecretKey;
  remote_ephemeral : option PublicKey;
  keys : SessionKeys;
  last_handshake : option HandshakeMessage;
  created_timestamp : Z;
  established_timestamp : Z;
  last_activity_timestamp : Z;
  nonce_counter : Z
}.

Definition IDLE_TIMEOUT_SECONDS : Z := 1800.
Definition REKEY_INTERVAL_SECONDS : Z := 3600.
Definition REKEY_BYTES_LIMIT : Z := 1 * 1024 * 1024 * 1024.

(** A pair is value-initialised, so the local keys are zero. *)
Definition new_session (local remote : NodeID) (now : Z) : Session :=
  MkSession local remote DISCONNECTED false (zeros 32, zeros 64) None
    (MkSessionKeys None None 0 0 0 0 0) None now 0 now 0.

(** Assignments to single members. *)
Definition with_state (x : SessionState) (s : Session) : Session :=
  MkSession (local_node_id s) (remote_node_id s) x (is_initiator s) (local_ephemeral s)
    (remote_ephemeral s) (keys s) (last_handshake s) (created_timestamp s)
    (established_timestamp s) (last_activity_timestamp s) (nonce_counter s).

Definition with_initiator (x : bool) (s : Session) : Session :=
  MkSession (local_node_id s) (remote_node_id s) (state s) x (local_ephemeral s)
    (remote_ephemeral s) (keys s) (last_handshake s) (created_timestamp s)
    (established_timestamp s) (last_activity_timestamp s) (nonce_counter s).

Definition with_local (x : PublicKey * SecretKey) (s : Session) : Session :=
  MkSession (local_node_id s) (remote_node_id s) (state s) (is_initiator s) x
    (remote_ephemeral s) (keys s) (last_handshake s) (created_timestamp s)
    (established_timestamp s) (last_activity_timestamp s) (nonce_counter s).

Definition with_remote (x : PublicKey) (s : Session) : Session :=
  MkSession (local_node_id s) (remote_node_id s) (state s) (is_initiator s) (local_ephemeral s)
    (Some x) (keys s) (last_handshake s) (created_timestamp s)
    (established_timestamp s) (last_activity_timestamp s) (nonce_counter s).

Definition with_keys (x : SessionKeys) (s : Session) : Session :=
  MkSession (local_node_id s) (remote_node_id s) (state s) (is_initiator s) (local_ephemeral s)
    (remote_ephemeral s) x (last_handshake s) (created_timestamp s)
    (established_timestamp s) (last_activity_timestamp s) (nonce_counter s).

Definition with_handshake (x : HandshakeMessage) (s : Session) : Session :=
  MkSession (local_node_id s) (remote_node_id s) (state s) (is_initiator s) (local_ephemeral s)
    (remote_ephemeral s) (keys s) (Some x) (created_timestamp s)
    (established_timestamp s) (last_activity_timestamp s) (nonce_counter s).

Definition with_established (x : Z) (s : Session) : Session :=
  MkSession (local_node_id s) (remote_node_id s) (state s) (is_initiator s) (local_ephemeral s)
    (remote_ephemeral s) (keys s) (last_handshake s) (created_timestamp s)
    x (last_activity_timestamp s) (nonce_counter s).

Definition with_activity (x : Z) (s : Session) : Session :=
  MkSession (local_node_id s) (remote_node_id s) (state s) (is_initiator s) (local_ephemeral s)
    (remote_ephemeral s) (keys s) (last_handshake s) (created_timestamp s)
    (established_timestamp s) x (nonce_counter s).

Definition with_nonce (x : Z) (s : Session) : Session :=
  MkSession (local_node_id s) (remote_node_id s) (state s) (is_initiator s) (local_ephemeral s)
    (remote_ephemeral s) (keys s) (last_handshake s) (created_timestamp s)
    (established_timestamp s) (last_activity_timestamp s) x.

(** The result of an operation, and the session after it. *)
Abbreviation result A := (outcome A * Session)%type.

Section ops.
Context `{Crypto, ChannelCrypto}.

(** ** The handshake *)

(** The message of this session under the key pair [kp], with its signature; the
    signature is not among the bytes signed. *)
Definition own_handshake (kp : PublicKey * SecretKey) (now : Z) (s : Session) :
    HandshakeMessage :=
  let h := MkHandshakeMessage CURRENT_VERSION kp.1 (local_node_id s) now (zeros 64) in
  MkHandshakeMessage (version h) (ephemeral_public h) (hs_node_id h) (hs_timestamp h)
    (compute_handshake_signature h).

(** The text hashed into the two keys, before the byte that tells them apart. *)
Definition key_material (shared_secret : SessionKey) : bytes :=
  arr shared_secret ++ str "cashew_session_v1".

Definition derive_session_keys (shared_secret : SessionKey) (now : Z) (s : Session) :
    bool * Session :=
  let derived := blake3 (key_material shared_secret) in
  let derived2 := blake3 (key_material shared_secret ++ [to_byte 1]) in
  let k := keys s in
  (true,
   with_keys
     (MkSessionKeys
        (Some (if is_initiator s then derived else derived2))
        (Some (if is_initiator s then derived2 else derived))
        now (messages_sent k) (messages_received k) (bytes_sent k) (bytes_received k)) s).

Definition initiate_handshake (drawn : option (PublicKey * SecretKey)) (now : Z) (s : Session) :
    result bool :=
  if decide (state s = DISCONNECTED) then
    let s := with_initiator true s in
    match X25519.generate_keypair drawn with
    | Ok kp =>
        let s := with_local kp s in
        (Ok true, with_state HANDSHAKE_INIT (with_handshake (own_handshake kp now s) s))
    | Err e => (Err e, s)
    | Undef => (Undef, s)
    end
  else (Ok false, s).

(** The part both ends share: exchange, derivation and the move to
    [ESTABLISHED]. *)
Definition establish (shared_secret : option SessionKey) (now : Z) (s : Session) :
    bool * Session :=
  match shared_secret with
  | None => (false, with_state DISCONNECTED s)
  | Some shared_secret =>
      let '(derived, s) := derive_session_keys shared_secret now s in
      if negb derived then (false, with_state DISCONNECTED s)
      else (true, with_activity now (with_established now (with_state ESTABLISHED s)))
  end.

Definition too_old (now : Z) (h : HandshakeMessage) : bool :=
  MAX_AGE_SECONDS <? u64 (now - hs_timestamp h).

Definition handle_handshake_response (response : HandshakeMessage) (now : Z) (s : Session) :
    result bool :=
  if decide (state s = HANDSHAKE_INIT) then
    if too_old now response then (Ok false, s)
    else if negb (verify_handshake_signature response) then (Ok false, s)
    else
      let s := with_remote (ephemeral_public response) s in
      let '(ok, s) :=
        establish (X25519.exchange (local_ephemeral s).2 (ephemeral_public response)) now s in
      (Ok ok, s)
  else (Ok false, s).

Definition handle_handshake_init (init : HandshakeMessage) (drawn : option (PublicKey * SecretKey))
    (now : Z) (s : Session) : result bool :=
  if decide (state s = DISCONNECTED) then
    let s := with_initiator false s in
    if too_old now init then (Ok false, s)
    else if negb (verify_handshake_signature init) then (Ok false, s)
    else
      let s := with_remote (ephemeral_public init) s in
      match X25519.generate_keypair drawn with
      | Ok kp => (Ok true, with_state HANDSHAKE_RESPONSE (with_local kp s))
      | Err e => (Err e, s)
      | Undef => (Undef, s)
      end
  else (Ok false, s).

Definition send_handshake_response (now : Z) (s : Session) : result bool :=
  if decide (state s = HANDSHAKE_RESPONSE) then
    let response := own_handshake (local_ephemeral s) now s in
    match remote_ephemeral s with
    | None => (Undef, s)
    | Some their_public =>
        let '(ok, s) := establish (X25519.exchange (local_ephemeral s).2 their_public) now s in
        (Ok ok, if ok then with_handshake response s else s)
    end
  else (Ok false, s).

Definition close (s : Session) : Session :=
  if decide (state s = CLOSED) then s
  else
    let k := keys s in
    with_state CLOSED
      (with_keys
         (MkSessionKeys (Some (zeros 32)) (Some (zeros 32)) (keys_created k) (messages_sent k)
            (messages_received k) (bytes_sent k) (bytes_received k))
         (with_local (zeros 32, zeros 64) s)).

(** ** Messages *)

(** Eight bytes of counter and four random ones; the counter advances. *)
Definition generate_nonce (random : array 4) (s : Session) : Nonce * Session :=
  (array_app (le_array 8 (nonce_counter s)) random, with_nonce (u64 (nonce_counter s + 1)) s).

Definition encrypt_message (plaintext : bytes) (random : array 4) (now : Z) (s : Session) :
    result (option bytes) :=
  if decide (state s = ESTABLISHED) then
    let '(nonce, s) := generate_nonce random s in
    match tx_key (keys s) with
    | None => (Undef, s)
    | Some key =>
        match ChaCha20Poly1305.encrypt plaintext key nonce with
        | Ok ciphertext =>
            let k := keys s in
            (Ok (Some (arr nonce ++ ciphertext)),
             with_activity now
               (with_keys
                  (MkSessionKeys (tx_key k) (rx_key k) (keys_created k) (u64 (messages_sent k + 1))
                     (messages_received k) (u64 (bytes_sent k + len plaintext)) (bytes_received k)) s))
        | Err e => (Err e, s)
        | Undef => (Undef, s)
        end
    end
  else (Ok None, s).

Definition decrypt_message (ciphertext : bytes) (now : Z) (s : Session) : result (option bytes) :=
  if decide (state s = ESTABLISHED) then
    if len ciphertext <? 12 + 16 then (Ok None, s)
    else
      match rx_key (keys s), to_array 12 (take 12 ciphertext) with
      | Some key, Some nonce =>
          match ChaCha20Poly1305.decrypt (drop 12 ciphertext) key nonce with
          | None => (Ok None, s)
          | Some plaintext =>
              let k := keys s in
              (Ok (Some plaintext),
               with_activity now
                 (with_keys
                    (MkSessionKeys (tx_key k) (rx_key k) (keys_created k) (messages_sent k)
                       (u64 (messages_received k + 1)) (bytes_sent k)
                       (u64 (bytes_received k + len plaintext))) s))
          end
      | _, _ => (Undef, s)
      end
  else (Ok None, s).

End ops.

(** ** Health and statistics *)

Definition should_rekey (now : Z) (s : Session) : bool :=
  if decide (state s = ESTABLISHED) then
    if REKEY_INTERVAL_SECONDS <=? u64 (now - established_timestamp s) then true
    else REKEY_BYTES_LIMIT <=? u64 (bytes_sent (keys s) + bytes_received (keys s))
  else false.

Definition has_timed_out (now : Z) (s : Session) : bool :=
  IDLE_TIMEOUT_SECONDS <=? u64 (now - last_activity_timestamp s).

Definition get_age_seconds (now : Z) (s : Session) : Z :=
  if established_timestamp s =? 0 then 0 else u64 (now - established_timestamp s).

Definition get_idle_seconds (now : Z) (s : Session) : Z := u64 (now - last_activity_timestamp s).

Definition is_established (s : Session) : bool := bool_decide (state s = ESTABLISHED).

(** ** The manager *)

(** The objects behind the shared pointers; an address is a position. *)
Abbreviation heap := (list Session).

Record SessionManager := MkSessionManager {
  sm_local_node_id : NodeID;
  sessions : list nat
}.

Abbreviation world := (heap * SessionManager)%type.

Definition new_session_manager (local : NodeID) : SessionManager := MkSessionManager local [].

Definition with_sessions (x : list nat) (m : SessionManager) : SessionManager :=
  MkSessionManager (sm_local_node_id m) x.

(** [session->get_remote_node_id() == remote] *)
Definition with_peer (h : heap) (remote : NodeID) (a : nat) : bool :=
  match h !! a with Some s => bool_decide (remote_node_id s = remote) | None => false end.

Definition get_session (remote : NodeID) (w : world) : option nat :=
  List.find (with_peer w.1 remote) (sessions w.2).

Definition has_session (remote : NodeID) (w : world) : bool :=
  match get_session remote w with Some _ => true | None => false end.

(** [std::make_shared] and [push_back]. *)
Definition push_session (s : Session) (w : world) : nat * world :=
  (length w.1, (w.1 ++ [s], with_sessions (sessions w.2 ++ [length w.1]) w.2)).

Definition create_outbound_session (remote : NodeID) (now : Z) (w : world) : nat * world :=
  match get_session remote w with
  | Some a => (a, w)
  | None => push_session (new_session (sm_local_node_id w.2) remote now) w
  end.

Definition remove_session (remote : NodeID) (w : world) : world :=
  (w.1, with_sessions (filter (λ a, with_peer w.1 remote a = false) (sessions w.2)) w.2).

Definition close_session (remote : NodeID) (w : world) : world :=
  match get_session remote w with
  | Some a => remove_session remote (alter close a w.1, w.2)
  | None => w
  end.

Definition handle_inbound_handshake `{Crypto} (h : HandshakeMessage)
    (drawn : option (PublicKey * SecretKey)) (now : Z) (w : world) :
    outcome (option nat) * world :=
  let accept w :=
    match handle_handshake_init h drawn now
            (new_session (sm_local_node_id w.2) (hs_node_id h) now) with
    | (Ok true, s) => let '(a, w) := push_session s w in (Ok (Some a), w)
    | (Ok false, _) => (Ok None, w)
    | (Err e, _) => (Err e, w)
    | (Undef, _) => (Undef, w)
    end in
  match get_session (hs_node_id h) w with
  | None => accept w
  | Some a =>
      match w.1 !! a with
      | None => (Undef, w)
      | Some existing =>
          if bool_decide (state existing = CLOSED) || has_timed_out now existing
          then accept (close_session (hs_node_id h) w)
          else (Ok (Some a), w)
      end
  end.

Definition close_all_sessions (w : world) : world :=
  (foldl (λ h a, alter close a h) w.1 (sessions w.2), with_sessions [] w.2).

Definition timed_out (h : heap) (now : Z) (a : nat) : bool :=
  match h !! a with Some s => has_timed_out now s | None => false end.

(** [std::remove_if] visits each pointer once and closes what it removes. *)
Definition cleanup_stale_sessions (now : Z) (w : world) : world :=
  (foldl (λ h a, if timed_out h now a then alter close a h else h) w.1 (sessions w.2),
   with_sessions (filter (λ a, timed_out w.1 now a = false) (sessions w.2)) w.2).

(** It only logs which sessions need new keys. *)
Definition rekey_old_sessions (now : Z) (w : world) : world := w.

Definition established_at (h : heap) (a : nat) : option NodeID :=
  s ← h !! a; if is_established s then Some (remote_node_id s) else None.

Definition get_connected_peers (w : world) : list NodeID :=
  omap (established_at w.1) (sessions w.2).

Definition active_session_count (w : world) : Z :=
  len (filter (λ a, is_Some (established_at w.1 a)) (sessions w.2)).

(** ** The message format *)

#[export] Instance HandshakeMessage_codec : Codec HandshakeMessage :=
  {| encode := handshake_to_bytes; decode := handshake_from_bytes;
     encodable h := in_u 8 (version h) ∧ in_u 64 (hs_timestamp h) |}.

Lemma reads_handshake h :
  in_u 8 (version h) ∧ in_u 64 (hs_timestamp h) → reads 64 handshake_reader h (handshake_to_bytes h).
Proof.
  intros [? ?]. apply reads_min; [unfold handshake_to_bytes; autorewrite with len; lia|].
  unfold handshake_to_bytes. rewrite <- le_bytes_1. raw_reads_fields. destruct h. apply reads_ret.
Qed.

Lemma consumes_handshake :
  consumes handshake_reader (λ h e, e = handshake_to_bytes h ∧ in_u 8 (version h) ∧ in_u 64 (hs_timestamp h)).
Proof.
  eapply consumes_mono; [unfold handshake_reader; raw_consumes_fields|].
  intros h e He. cbv beta in He. open_fields. unfold handshake_to_bytes.
  cbn [version ephemeral_public hs_node_id hs_timestamp hs_signature].
  rewrite <- !le_bytes_1, !app_nil_r. eauto.
Qed.

#[export] Instance HandshakeMessage_codec_laws : CodecLaws HandshakeMessage.
Proof.
  by apply (reader_codec_laws _ handshake_reader);
    [|apply reads_handshake|apply consumes_handshake].
Qed.

(** ** Runs of a session *)

(** What a caller can do with a session, in any state. *)
Inductive session_op :=
  | Initiate (drawn : option (PublicKey * SecretKey)) (now : Z)
  | Handle_response (response : HandshakeMessage) (now : Z)
  | Handle_init (init : HandshakeMessage) (drawn : option (PublicKey * SecretKey)) (now : Z)
  | Send_response (now : Z)
  | Close
  | Encrypt (plaintext : bytes) (random : array 4) (now : Z)
  | Decrypt (ciphertext : bytes) (now : Z).

(** Results that are no bytes are dropped, failures kept. *)
Definition no_bytes {A} (r : result A) : result (option bytes) :=
  (_ ← r.1; mret None, r.2).

(** The moves of the handshake; any state can be closed, nothing leaves [CLOSED]. *)
Inductive moves : SessionState → SessionState → Prop :=
  | Stays x : moves x x
  | Initiates : moves DISCONNECTED HANDSHAKE_INIT
  | Responds : moves DISCONNECTED HANDSHAKE_RESPONSE
  | Completes x : x = HANDSHAKE_INIT ∨ x = HANDSHAKE_RESPONSE → moves x ESTABLISHED
  | Fails x : x = HANDSHAKE_INIT ∨ x = HANDSHAKE_RESPONSE → moves x DISCONNECTED
  | Closes x : moves x CLOSED.

(** The members each state has set; a closed session holds no secret. *)
Record session_ok (s : Session) : Prop := {
  ok_not_closing : state s ≠ CLOSING;
  ok_initiator : state s = HANDSHAKE_INIT → is_initiator s = true ∧ is_Some (last_handshake s);
  ok_responder : state s = HANDSHAKE_RESPONSE →
    is_initiator s = false ∧ is_Some (remote_ephemeral s);
  ok_keys : state s = ESTABLISHED → is_Some (tx_key (keys s)) ∧ is_Some (rx_key (keys s));
  ok_wiped : state s = CLOSED →
    tx_key (keys s) = Some (zeros 32) ∧ rx_key (keys s) = Some (zeros 32) ∧
    local_ephemeral s = (zeros 32, zeros 64)
}.

Section runs.
Context `{Crypto, ChannelCrypto}.

Definition session_step (op : session_op) (s : Session) : result (option bytes) :=
  match op with
  | Initiate drawn now => no_bytes (initiate_handshake drawn now s)
  | Handle_response h now => no_bytes (handle_handshake_response h now s)
  | Handle_init h drawn now => no_bytes (handle_handshake_init h drawn now s)
  | Send_response now => no_bytes (send_handshake_response now s)
  | Close => (Ok None, close s)
  | Encrypt m r now => encrypt_message m r now s
  | Decrypt c now => decrypt_message c now s
  end.

Definition session_run (ops : list session_op) (s : Session) : Session :=
  foldl (λ s op, (session_step op s).2) s ops.

(** The frames a run encrypts. *)
Fixpoint frames (ops : list session_op) (s : Session) : list bytes :=
  match ops with
  | [] => []
  | op :: ops =>
      let '(out, s') := session_step op s in
      match op, out with
      | Encrypt _ _ _, Ok (Some c) => c :: frames ops s'
      | _, _ => frames ops s'
      end
  end.

Lemma new_session_ok l r now : session_ok (new_session l r now).
Proof. by split. Qed.

Lemma establish_eq k now s :
  establish k now s =
  match k with
  | None => (false, with_state DISCONNECTED s)
  | Some k => (true, with_activity now (with_established now (with_state ESTABLISHED
                       (derive_session_keys k now s).2)))
  end.
Proof. by destruct k. Qed.

(** Each operation, in one step: nothing undefined, a legal move, the invariant. *)
Definition good_step (s : Session) (r : result (option bytes)) : Prop :=
  r.1 ≠ Undef ∧ moves (state s) (state r.2) ∧ session_ok r.2 ∧
  remote_node_id r.2 = remote_node_id s ∧ local_node_id r.2 = local_node_id s ∧
  (state s = CLOSED → r.2 = s).

Lemma good_stay s o : o ≠ Undef → session_ok s → good_step s (o, s).
Proof. intros. split_and!; [done|constructor|done..]. Qed.

Lemma good_close s : session_ok s → good_step s (Ok None, close s).
Proof.
  intros W. unfold close. destruct (decide _) as [E|E]; [by apply good_stay|].
  split_and!; [done|apply Closes| |done..|done]. by split.
Qed.

Lemma good_initiate drawn now s :
  session_ok s → good_step s (no_bytes (initiate_handshake drawn now s)).
Proof.
  intros W. unfold initiate_handshake. destruct (decide _) as [E|E]; [|by apply good_stay].
  destruct drawn as [kp|]; cbn.
  - split_and!; cbn; [done|rewrite E; constructor| |done..|by rewrite E].
    by split.
  - split_and!; cbn; [done|rewrite E; constructor| |done..|by rewrite E].
    destruct W as [W1 W2 W3 W4 W5]. split; cbn; rewrite E; done.
Qed.

Lemma good_establish k now (s0 s : Session) :
  state s0 = HANDSHAKE_INIT ∨ state s0 = HANDSHAKE_RESPONSE →
  remote_node_id s = remote_node_id s0 → local_node_id s = local_node_id s0 →
  good_step s0 (Ok None, (establish k now s).2).
Proof.
  intros Hs Hr Hl. rewrite establish_eq. destruct k as [k|].
  - split_and!; cbn; [done|by constructor| |done..|].
    + by split.
    + intros E. rewrite E in Hs. by destruct Hs.
  - split_and!; cbn; [done|by constructor| |done..|].
    + by split.
    + intros E. rewrite E in Hs. by destruct Hs.
Qed.

Lemma good_response h now s :
  session_ok s → good_step s (no_bytes (handle_handshake_response h now s)).
Proof.
  intros W. unfold handle_handshake_response. destruct (decide _) as [E|E]; [|by apply good_stay].
  destruct (too_old _ _); [by apply good_stay|]. destruct (negb _); [by apply good_stay|].
  match goal with |- context [establish ?k now ?s'] =>
    pose proof (good_establish k now s s' (or_introl E) eq_refl eq_refl) as G;
    destruct (establish k now s') as [ok s''] end.
  exact G.
Qed.

Lemma good_init h drawn now s :
  session_ok s → good_step s (no_bytes (handle_handshake_init h drawn now s)).
Proof.
  intros W. unfold handle_handshake_init. destruct (decide _) as [E|E]; [|by apply good_stay].
  assert (G : ∀ o s', o ≠ Undef → state s' = DISCONNECTED → remote_node_id s' = remote_node_id s →
    local_node_id s' = local_node_id s → good_step s (o, s')).
  { intros o s' Ho Es' Er El. split_and!; cbn; [done|rewrite E, Es'; constructor| |done..|by rewrite E].
    split; rewrite Es'; done. }
  destruct (too_old _ _); [by apply G|]. destruct (negb _); [by apply G|].
  destruct drawn as [kp|]; cbn; [|by apply G].
  split_and!; cbn; [done|rewrite E; constructor| |done..|by rewrite E].
  by split.
Qed.

Lemma good_send now s : session_ok s → good_step s (no_bytes (send_handshake_response now s)).
Proof.
  intros W. unfold send_handshake_response. destruct (decide _) as [E|E]; [|by apply good_stay].
  destruct (ok_responder s W E) as [_ [pk ->]].
  match goal with |- context [establish ?k now ?s'] =>
    pose proof (good_establish k now s s' (or_intror E) eq_refl eq_refl) as G;
    destruct (establish k now s') as [ok s''] end.
  destruct ok; [|exact G]. destruct G as (_ & Gm & [W1 W2 W3 W4 W5] & Gr & Gl & _).
  split_and!; cbn in *; [done..| |done|done|by rewrite E].
  split; cbn; try done. intros E'. split; [by apply W2|eauto].
Qed.

Lemma good_encrypt m r now s : session_ok s → good_step s (encrypt_message m r now s).
Proof.
  intros W. unfold encrypt_message. destruct (decide _) as [E|E]; [|by apply good_stay].
  destruct (ok_keys s W E) as [[k Hk] Hr]. cbn [generate_nonce].
  change (tx_key (keys (with_nonce _ s))) with (tx_key (keys s)). rewrite Hk.
  unfold ChaCha20Poly1305.encrypt. destruct (crypto_aead_encrypt _ _ _) as [c|].
  - split_and!; cbn; [done|rewrite E; constructor| |done..|by rewrite E].
    split; cbn; rewrite ?E, ?Hk; done.
  - split_and!; cbn; [done|rewrite E; constructor| |done..|by rewrite E].
    split; cbn; rewrite ?E, ?Hk; done.
Qed.

Lemma good_decrypt c now s : session_ok s → good_step s (decrypt_message c now s).
Proof.
  intros W. unfold decrypt_message. destruct (decide _) as [E|E]; [|by apply good_stay].
  destruct (len c <? _) eqn:El; [by apply good_stay|]. bool_to_prop.
  destruct (ok_keys s W E) as [Ht [k Hk]]. rewrite Hk.
  destruct (to_array_is_Some 12 (take 12 c)) as [n ->];
    [rewrite length_take; unfold len in El; lia|].
  destruct (ChaCha20Poly1305.decrypt _ _ _) as [m|]; [|by apply good_stay].
  split_and!; cbn; [done|rewrite E; constructor| |done..|by rewrite E].
  split; cbn; rewrite ?E, ?Hk; done.
Qed.

Lemma good_session_step op s : session_ok s → good_step s (session_step op s).
Proof.
  destruct op; cbn [session_step];
    auto using good_close, good_initiate, good_response, good_init, good_send, good_encrypt,
      good_decrypt.
Qed.

Lemma session_ok_run ops s : session_ok s → session_ok (session_run ops s).
Proof.
  revert s. induction ops as [|op ops IH]; intros s W; [done|]. apply IH.
  by apply (good_session_step op s W).
Qed.

(** ** Nonces *)

Lemma counter_step op s :
  nonce_counter (session_step op s).2 =
  match op with
  | Encrypt _ _ _ =>
      if decide (state s = ESTABLISHED) then u64 (nonce_counter s + 1) else nonce_counter s
  | _ => nonce_counter s
  end.
Proof.
  destruct op; cbn [session_step no_bytes].
  - unfold initiate_handshake. by destruct (decide _), drawn.
  - unfold handle_handshake_response. destruct (decide _); [|done].
    destruct (too_old _ _); [done|]. destruct (negb _); [done|].
    rewrite establish_eq. by destruct (X25519.exchange _ _).
  - unfold handle_handshake_init. destruct (decide _); [|done].
    destruct (too_old _ _); [done|]. destruct (negb _); [done|]. by destruct drawn.
  - unfold send_handshake_response. destruct (decide _); [|done].
    destruct (remote_ephemeral s); [|done]. rewrite establish_eq. by destruct (X25519.exchange _ _).
  - unfold close. by destruct (decide _).
  - unfold encrypt_message. destruct (decide _); [|done]. cbn [generate_nonce].
    destruct (tx_key _); [|done]. by destruct (ChaCha20Poly1305.encrypt _ _ _).
  - unfold decrypt_message. destruct (decide _); [|done]. destruct (len _ <? _); [done|].
    destruct (rx_key _); [|done]. destruct (to_array _ _); [|done].
    by destruct (ChaCha20Poly1305.decrypt _ _ _).
Qed.

(** A frame starts with the counter. *)
Lemma frame_counter m r now s c s1 :
  encrypt_message m r now s = (Ok (Some c), s1) →
  state s = ESTABLISHED ∧ take 8 c = le_bytes 8 (nonce_counter s).
Proof.
  unfold encrypt_message. destruct (decide _) as [E|]; [|done]. cbn [generate_nonce].
  destruct (tx_key _); [|done]. destruct (ChaCha20Poly1305.encrypt _ _ _) as [x| |]; [|done..].
  intros [= <- _]. split; [done|].
  reflexivity.
Qed.

Lemma frames_counters ops s :
  0 <= nonce_counter s → nonce_counter s + len ops <= 2 ^ 64 →
  ∃ ns, take 8 <$> frames ops s = le_bytes 8 <$> ns ∧ NoDup ns ∧
    Forall (λ n, nonce_counter s <= n < nonce_counter s + len ops) ns.
Proof.
  revert s. induction ops as [|op ops IH]; intros s Hz Hl.
  { exists []. split_and!; [done|constructor|constructor]. }
  rewrite len_cons in *. pose proof (counter_step op s) as Hc. pose proof (len_nonneg ops).
  cbn [frames]. destruct (session_step op s) as [out s'] eqn:E. cbn [snd] in Hc.
  assert (Hs : nonce_counter s' = nonce_counter s ∨ nonce_counter s' = nonce_counter s + 1 ∨
               nonce_counter s' = 0 ∧ ops = []).
  { destruct op; auto. destruct (decide _); auto.
    destruct (decide (nonce_counter s + 1 < 2 ^ 64)) as [Hlt|Hge].
    - rewrite wrap_small in Hc by (unfold in_u; lia). auto.
    - assert (len ops = 0) by lia. destruct ops; [|rewrite len_cons in *; pose proof (len_nonneg ops); lia].
      right. right. split; [|done]. rewrite Hc. replace (nonce_counter s + 1) with (2 ^ 64) by lia. done. }
  destruct (IH s') as (ns & Hn & Hd & Hf).
  { lia. }
  { destruct Hs as [-> | [-> | [-> ->]]]; [lia|lia|change (len []) with 0; lia]. }
  assert (Hw : Forall (λ n, nonce_counter s <= n < nonce_counter s + (1 + len ops)) ns).
  { destruct Hs as [Hs | [Hs | [Hs ->]]];
      [eapply list.Forall_impl; [exact Hf|]; cbn beta; intros; lia..|].
    destruct ns; [constructor|]. change (frames [] s') with (@nil bytes) in Hn. done. }
  destruct op; try (by exists ns).
  destruct out as [[c|]| |]; try (by exists ns).
  cbn [session_step] in E. pose proof (frame_counter _ _ _ _ _ _ E) as [He Ht].
  rewrite decide_True in Hc by done.
  exists (nonce_counter s :: ns). split_and!.
  - cbn. by rewrite Ht, Hn.
  - constructor; [|done]. intros Hin. rewrite list.Forall_forall in Hf. specialize (Hf _ Hin).
    destruct Hs as [Hs | [Hs | [Hs ->]]]; [|lia|].
    + rewrite Hs in Hc. rewrite wrap_small in Hc by (unfold in_u; lia). lia.
    + destruct ns; [by apply not_elem_of_nil in Hin|done].
  - constructor; [lia|done].
Qed.

(** ** Two ends of a channel *)

(** What travels once the handshake is over; the ciphertexts may be anything. *)
Definition traffic (op : session_op) : Prop :=
  match op with Encrypt _ _ _ | Decrypt _ _ => True | _ => False end.

(** The keys of one end are those of the other, crossed. *)
Definition crossed (s s' : Session) : Prop :=
  state s = ESTABLISHED ∧ state s' = ESTABLISHED ∧
  is_Some (tx_key (keys s)) ∧ is_Some (rx_key (keys s)) ∧
  tx_key (keys s) = rx_key (keys s') ∧ rx_key (keys s) = tx_key (keys s').

Lemma crossed_sym s s' : crossed s s' → crossed s' s.
Proof. intros (? & ? & ? & ? & E1 & E2). split_and!; [done..|by rewrite <- E2|by rewrite <- E1|done|done]. Qed.

(** Traffic touches neither the state nor the keys. *)
Definition same_channel (s s' : Session) : Prop :=
  state s' = state s ∧ tx_key (keys s') = tx_key (keys s) ∧ rx_key (keys s') = rx_key (keys s).

Lemma traffic_step op s : traffic op → same_channel s (session_step op s).2.
Proof.
  destruct op; try done; intros _; cbn [session_step].
  - unfold encrypt_message. destruct (decide _); [|done]. cbn [generate_nonce].
    destruct (tx_key _) eqn:Et; [|done].
    destruct (ChaCha20Poly1305.encrypt _ _ _); split_and!; cbn in *; congruence.
  - unfold decrypt_message. destruct (decide _); [|done]. destruct (len _ <? _); [done|].
    destruct (rx_key _) eqn:Er; [|done]. destruct (to_array _ _); [|done].
    destruct (ChaCha20Poly1305.decrypt _ _ _); split_and!; cbn in *; congruence.
Qed.

Lemma traffic_run ops s : Forall traffic ops → same_channel s (session_run ops s).
Proof.
  intros Ht. revert s. induction Ht as [|op ops Hop _ IH]; intros s; [done|].
  destruct (traffic_step op s Hop) as (E1 & E2 & E3).
  destruct (IH (session_step op s).2) as (F1 & F2 & F3).
  unfold session_run in *. cbn [foldl]. split_and!; congruence.
Qed.

Lemma crossed_run opsA opsB s s' :
  Forall traffic opsA → Forall traffic opsB → crossed s s' →
  crossed (session_run opsA s) (session_run opsB s').
Proof.
  intros HA HB (? & ? & ? & ? & ? & ?).
  destruct (traffic_run opsA s HA) as (E1 & E2 & E3), (traffic_run opsB s' HB) as (F1 & F2 & F3).
  unfold crossed. rewrite E1, E2, E3, F1, F2, F3. auto 10.
Qed.

(** What one end seals the other opens. *)
Lemma crossed_opens `{!ChannelLaws} s s' m r now c s1 now' :
  crossed s s' → encrypt_message m r now s = (Ok (Some c), s1) →
  (decrypt_message c now' s').1 = Ok (Some m).
Proof.
  intros (Es & Es' & [k Hk] & _ & Hkey & _) E. unfold encrypt_message in E.
  rewrite decide_True in E by done.
  destruct (generate_nonce r s) as [nonce s2] eqn:En.
  assert (tx_key (keys s2) = Some k) as Hk2 by (by injection En as _ <-).
  rewrite Hk2 in E. destruct (ChaCha20Poly1305.encrypt m k nonce) as [x| |] eqn:Ex; [|done..].
  assert (c = arr nonce ++ x) as -> by congruence.
  unfold decrypt_message. rewrite decide_True by done.
  pose proof (ChaCha20Poly1305.len_encrypt _ _ _ _ Ex) as Hl. pose proof (len_nonneg m).
  rewrite len_app, len_arr, Hl. unfold ABYTES. rewrite (proj2 (Z.ltb_ge _ _)) by lia.
  rewrite <- Hkey, Hk, take_app_length', drop_app_length' by (by rewrite length_arr).
  rewrite to_array_arr, (ChaCha20Poly1305.decrypt_encrypt _ _ _ _ Ex). done.
Qed.

Lemma own_verifies kp now s : verify_handshake_signature (own_handshake kp now s) = true.
Proof. by apply bool_decide_eq_true_2. Qed.

Lemma fresh_enough now h :
  0 <= hs_timestamp h <= now → now <= hs_timestamp h + MAX_AGE_SECONDS → too_old now h = false.
Proof.
  unfold too_old, MAX_AGE_SECONDS. intros. apply Z.ltb_ge. rewrite wrap_small by (unfold in_u; lia). lia.
Qed.

Lemma handshake_wire kp now s :
  in_u 64 now → handshake_from_bytes (handshake_to_bytes (own_handshake kp now s)) =
    Some (own_handshake kp now s).
Proof.
  intros Hn.
  apply (decode_encode_exact (H0 := HandshakeMessage_codec_laws) (own_handshake kp now s)).
  - split; [|done]. split; [discriminate|reflexivity].
  - unfold vector_fits, encode, HandshakeMessage_codec, handshake_to_bytes.
    autorewrite with len. reflexivity.
Qed.

(** The session each end has after the handshake. *)
Lemma initiate_eq kp now s :
  state s = DISCONNECTED →
  initiate_handshake (Some kp) now s =
  (Ok true, with_state HANDSHAKE_INIT (with_handshake (own_handshake kp now s)
              (with_local kp (with_initiator true s)))).
Proof. intros E. unfold initiate_handshake. by rewrite decide_True. Qed.

Lemma init_eq h kp now s :
  state s = DISCONNECTED → too_old now h = false → verify_handshake_signature h = true →
  handle_handshake_init h (Some kp) now s =
  (Ok true, with_state HANDSHAKE_RESPONSE (with_local kp
              (with_remote (ephemeral_public h) (with_initiator false s)))).
Proof. intros E Ht Hv. unfold handle_handshake_init. by rewrite decide_True, Ht, Hv. Qed.

Lemma response_eq h k now s :
  state s = HANDSHAKE_INIT → too_old now h = false → verify_handshake_signature h = true →
  X25519.exchange (local_ephemeral s).2 (ephemeral_public h) = Some k →
  handle_handshake_response h now s =
  (Ok true, with_activity now (with_established now (with_state ESTABLISHED
     (derive_session_keys k now (with_remote (ephemeral_public h) s)).2))).
Proof.
  intros E Ht Hv Hk. unfold handle_handshake_response. rewrite decide_True, Ht, Hv by done.
  cbn [negb]. change (local_ephemeral (with_remote _ s)) with (local_ephemeral s).
  by rewrite Hk, establish_eq.
Qed.

Lemma send_eq pk k now s :
  state s = HANDSHAKE_RESPONSE → remote_ephemeral s = Some pk →
  X25519.exchange (local_ephemeral s).2 pk = Some k →
  send_handshake_response now s =
  (Ok true, with_handshake (own_handshake (local_ephemeral s) now s)
     (with_activity now (with_established now (with_state ESTABLISHED
        (derive_session_keys k now s).2)))).
Proof.
  intros E Hr Hk. unfold send_handshake_response. by rewrite decide_True, Hr, Hk, establish_eq by done.
Qed.

End runs.

(** ** Theorems about a session *)

(** C7: in every reachable session a call makes one move of the handshake state
    machine, never reads out of bounds, keeps the two identifiers and the members each
    state needs, changes nothing once closed, and only an established session encrypts
    or decrypts; a closed session holds no secret. *)
Theorem session_state_machine `{Crypto, ChannelCrypto} l r now ops op :
  let s := session_run ops (new_session l r now) in
  let '(out, s') := session_step op s in
  out ≠ Undef ∧ moves (state s) (state s') ∧ session_ok s' ∧
  remote_node_id s' = r ∧ local_node_id s' = l ∧
  (state s = CLOSED → s' = s) ∧
  (∀ c, out = Ok (Some c) → state s = ESTABLISHED).
Proof.
  cbv zeta. set (s := session_run ops (new_session l r now)).
  assert (W : session_ok s ∧ remote_node_id s = r ∧ local_node_id s = l).
  { subst s. generalize (new_session_ok l r now).
    assert (Hr : remote_node_id (new_session l r now) = r) by done. revert Hr.
    assert (Hl : local_node_id (new_session l r now) = l) by done. revert Hl.
    generalize (new_session l r now) as s. induction ops as [|o os IH]; intros s Hl Hr W; [done|].
    destruct (good_session_step o s W) as (_ & _ & W' & Hr' & Hl' & _).
    apply IH; congruence. }
  destruct W as (W & Hr & Hl). destruct (good_session_step op s W) as (Hu & Hm & W' & Hr' & Hl' & Hc).
  destruct (session_step op s) as [out s'] eqn:E. cbn [fst snd] in *.
  split_and!; try done; try congruence.
  intros c ->. destruct op; cbn [session_step] in E.
  1-5: unfold no_bytes in E; try (by destruct ((initiate_handshake _ _ _).1));
    try (by destruct ((handle_handshake_response _ _ _).1));
    try (by destruct ((handle_handshake_init _ _ _ _).1));
    try (by destruct ((send_handshake_response _ _).1)); done.
  - unfold encrypt_message in E. by destruct (decide _).
  - unfold decrypt_message in E. by destruct (decide _).
Qed.

(** C5: no two frames a session produces carry the same nonce, whatever calls are made
    on it and whatever random bytes are drawn, as long as there are at most 2 ^ 64
    calls. *)
Theorem nonces_never_repeat `{Crypto, ChannelCrypto} l r now ops :
  len ops <= 2 ^ 64 → NoDup (take 12 <$> frames ops (new_session l r now)).
Proof.
  intros Hl. destruct (frames_counters ops (new_session l r now)) as (ns & He & Hd & Hf);
    [done|cbn; lia|]. cbn in Hf.
  apply (NoDup_fmap_1 (take 8)).
  assert (Ht : ∀ fs : list bytes, take 8 <$> (take 12 <$> fs) = take 8 <$> fs).
  { intros fs. rewrite <- list_fmap_compose. apply list_fmap_ext. intros i x _. cbn.
    by rewrite take_take. }
  rewrite Ht. rewrite He. clear He. induction Hd as [|n ns Hn Hd IH]; [constructor|].
  apply list.Forall_cons in Hf as [Hr Hf]. constructor; [|by apply IH].
  intros (n' & E & Hin)%list_elem_of_fmap. rewrite list.Forall_forall in Hf.
  pose proof (Hf _ Hin). apply (le_bytes_inj 8) in E; [by subst n'|..]; unfold in_u; cbn; lia.
Qed.

(** C6: two fresh sessions whose handshake messages arrive within the minute are both
    established, and from then on, after any traffic, whatever one encrypts the other
    decrypts. *)
Theorem handshake_agreement `{Crypto, ChannelCrypto, !ChannelLaws} a b kA kB k t1 t2 t3 t4 :
  state a = DISCONNECTED → state b = DISCONNECTED →
  X25519.keypair_ok kA → X25519.keypair_ok kB → X25519.exchange kA.2 kB.1 = Some k →
  0 <= t1 <= t2 → t2 <= t1 + MAX_AGE_SECONDS → 0 <= t3 <= t4 → t4 <= t3 + MAX_AGE_SECONDS →
  t1 < 2 ^ 64 → t3 < 2 ^ 64 →
  ∃ hA a1 b1 hB b2 a2,
    initiate_handshake (Some kA) t1 a = (Ok true, a1) ∧ last_handshake a1 = Some hA ∧
    handshake_from_bytes (handshake_to_bytes hA) = Some hA ∧
    handle_handshake_init hA (Some kB) t2 b = (Ok true, b1) ∧
    send_handshake_response t3 b1 = (Ok true, b2) ∧ last_handshake b2 = Some hB ∧
    handshake_from_bytes (handshake_to_bytes hB) = Some hB ∧
    handle_handshake_response hB t4 a1 = (Ok true, a2) ∧
    ∀ opsA opsB, Forall traffic opsA → Forall traffic opsB →
      let a' := session_run opsA a2 in
      let b' := session_run opsB b2 in
      state a' = ESTABLISHED ∧ state b' = ESTABLISHED ∧
      (∀ m r now c x now', encrypt_message m r now a' = (Ok (Some c), x) →
         (decrypt_message c now' b').1 = Ok (Some m)) ∧
      (∀ m r now c x now', encrypt_message m r now b' = (Ok (Some c), x) →
         (decrypt_message c now' a').1 = Ok (Some m)).
Proof.
  intros Ea Eb HA HB Hk Ht1 Ht2 Ht3 Ht4 Hu1 Hu3.
  pose proof (X25519.exchange_agree kA kB HA HB) as Hk'. rewrite Hk in Hk'. symmetry in Hk'.
  do 6 eexists. split; [by apply initiate_eq|]. split; [done|].
  split; [apply handshake_wire; unfold in_u; lia|].
  split; [apply init_eq; [done|by apply fresh_enough|apply own_verifies]|].
  split; [by eapply send_eq|]. split; [done|].
  split; [apply handshake_wire; unfold in_u; lia|].
  split; [eapply response_eq; [done|by apply fresh_enough|apply own_verifies|exact Hk]|].
  intros opsA opsB TA TB. cbv zeta.
  assert (HX : ∀ x y : Session, crossed x y → crossed (session_run opsA x) (session_run opsB y))
    by (intros; by apply crossed_run).
  match goal with |- context [session_run opsA ?x] =>
    match goal with |- context [session_run opsB ?y] =>
      assert (X : crossed (session_run opsA x) (session_run opsB y)) end end.
  { apply HX. split_and!; cbn; eauto. }
  pose proof X as (E1 & E2 & _). split; [done|]. split; [done|]. split; intros.
  - by eapply crossed_opens.
  - by eapply crossed_opens; [apply crossed_sym|].
Qed.

(** The handshake authenticates nobody: an intruder without any long-term key completes it
    under any identifier and shares the channel; a frame decrypted once can be replayed,
    and a handshake stamped a second ahead of the local clock is rejected as too old. *)
Theorem handshake_unauthenticated `{Crypto, ChannelCrypto, !ChannelLaws} victim intruder claimed k now :
  state victim = HANDSHAKE_INIT → 0 <= now →
  X25519.keypair_ok (local_ephemeral victim) → X25519.keypair_ok intruder →
  X25519.exchange intruder.2 (local_ephemeral victim).1 = Some k →
  let forged := own_handshake intruder now (new_session claimed claimed now) in
  let own := (derive_session_keys k now (with_initiator (negb (is_initiator victim))
                (new_session claimed claimed now))).2 in
  hs_node_id forged = claimed ∧
  ∃ s, handle_handshake_response forged now victim = (Ok true, s) ∧
    state s = ESTABLISHED ∧ remote_node_id s = remote_node_id victim ∧
    crossed s (with_state ESTABLISHED own) ∧
    (∀ c now1 m s1, decrypt_message c now1 s = (Ok (Some m), s1) →
       ∀ now2, (decrypt_message c now2 s1).1 = Ok (Some m)) ∧
    (∀ h ahead, hs_timestamp h = now + ahead → 1 <= ahead < 2 ^ 64 - MAX_AGE_SECONDS →
       too_old now h = true).
Proof.
  intros E Hn Hv Hi Hk. cbv zeta. split; [done|].
  rewrite (X25519.exchange_agree _ _ Hi Hv) in Hk.
  set (forged := own_handshake intruder now (new_session claimed claimed now)).
  eexists. split; [eapply response_eq; [done| |apply own_verifies|exact Hk]|].
  { apply fresh_enough; cbn; unfold MAX_AGE_SECONDS; lia. }
  split; [done|]. split; [done|]. split.
  { split_and!; cbn; eauto; by destruct (is_initiator victim). }
  split.
  - intros c now1 m s1 Hd now2. revert Hd. generalize (with_activity now (with_established now
      (with_state ESTABLISHED (derive_session_keys k now
        (with_remote (ephemeral_public forged) victim)).2))). intros s Hd.
    pose proof (traffic_step (Decrypt c now1) s I) as (F1 & _ & F3).
    cbn [session_step] in F1, F3. rewrite Hd in F1, F3. cbn [snd] in F1, F3.
    unfold decrypt_message in *. rewrite F1, F3. destruct (decide _); [|done].
    destruct (len c <? _); [done|]. destruct (rx_key _); [|done]. destruct (to_array _ _); [|done].
    destruct (ChaCha20Poly1305.decrypt _ _ _) as [m'|]; [|done]. by injection Hd as -> _.
  - intros h ahead Hh Ha. unfold too_old, MAX_AGE_SECONDS in *. apply Z.ltb_lt. rewrite Hh.
    replace (now - (now + ahead)) with (- ahead) by lia.
    rewrite (wrap_neg 64) by (unfold in_u; lia). lia.
Qed.

(** ** The manager and its callers *)

(** Calls of the manager, and calls through a pointer somebody holds. *)
Inductive manager_op :=
  | Create (remote : NodeID) (now : Z)
  | Inbound (h : HandshakeMessage) (drawn : option (PublicKey * SecretKey)) (now : Z)
  | Close_session (remote : NodeID)
  | Close_all
  | Cleanup (now : Z)
  | Rekey (now : Z)
  | Through (a : nat) (op : session_op).

Definition manager_step `{Crypto, ChannelCrypto} (w : world) (op : manager_op) : world :=
  match op with
  | Create remote now => (create_outbound_session remote now w).2
  | Inbound h drawn now => (handle_inbound_handshake h drawn now w).2
  | Close_session remote => close_session remote w
  | Close_all => close_all_sessions w
  | Cleanup now => cleanup_stale_sessions now w
  | Rekey now => rekey_old_sessions now w
  | Through a op => (alter (λ s, (session_step op s).2) a w.1, w.2)
  end.

(** The list points to existing sessions of this node, one for each peer. *)
Record manager_ok (l : NodeID) (w : world) : Prop := {
  mo_local : sm_local_node_id w.2 = l;
  mo_valid : ∀ a, a ∈ sessions w.2 → ∃ s, w.1 !! a = Some s ∧ local_node_id s = l;
  mo_unique : ∀ a b r, a ∈ sessions w.2 → b ∈ sessions w.2 →
    with_peer w.1 r a = true → with_peer w.1 r b = true → a = b;
  mo_nodup : NoDup (sessions w.2);
  mo_sessions : Forall session_ok w.1
}.

(** What no operation changes in the heap. *)
Definition heap_kept (h h' : heap) : Prop :=
  ∀ a s, h !! a = Some s → ∃ s', h' !! a = Some s' ∧
    remote_node_id s' = remote_node_id s ∧ local_node_id s' = local_node_id s.

Lemma with_peer_true h r a :
  with_peer h r a = true ↔ ∃ s, h !! a = Some s ∧ remote_node_id s = r.
Proof.
  unfold with_peer. destruct (h !! a) as [s|].
  - rewrite bool_decide_eq_true. split; [eauto|]. by intros (t & [= ->] & Hr).
  - split; [done|]. by intros (t & ? & _).
Qed.

Lemma kept_refl h : heap_kept h h.
Proof. intros a s Ha. eauto. Qed.

Lemma kept_trans h1 h2 h3 : heap_kept h1 h2 → heap_kept h2 h3 → heap_kept h1 h3.
Proof.
  intros H12 H23 a s Ha. destruct (H12 a s Ha) as (s2 & H2 & Hr & Hl).
  destruct (H23 a s2 H2) as (s3 & H3 & Hr' & Hl'). exists s3. split_and!; congruence.
Qed.

Lemma kept_alter f a h :
  (∀ s, remote_node_id (f s) = remote_node_id s ∧ local_node_id (f s) = local_node_id s) →
  heap_kept h (alter f a h).
Proof.
  intros Hf b s Hb. destruct (decide (a = b)) as [<-|Hne].
  - exists (f s). rewrite list_lookup_alter_eq, Hb. split; [done|apply Hf].
  - exists s. by rewrite list_lookup_alter_ne.
Qed.

Lemma kept_peer h h' r a :
  heap_kept h h' → is_Some (h !! a) → with_peer h' r a = with_peer h r a.
Proof.
  intros Hk [s Ha]. destruct (Hk a s Ha) as (s' & Ha' & Hr & _). unfold with_peer.
  by rewrite Ha, Ha', Hr.
Qed.

Lemma close_ids s :
  remote_node_id (close s) = remote_node_id s ∧ local_node_id (close s) = local_node_id s.
Proof. unfold close. by destruct (decide _). Qed.

Lemma ok_alter f a (h : heap) :
  (∀ s, session_ok s → session_ok (f s)) → Forall session_ok h → Forall session_ok (alter f a h).
Proof.
  rewrite !Forall_lookup. intros Hf Hh b s Hb. destruct (decide (a = b)) as [<-|Hne].
  - rewrite list_lookup_alter_eq in Hb. destruct (h !! a) as [t|] eqn:Ha; [|done].
    injection Hb as <-. eauto.
  - rewrite list_lookup_alter_ne in Hb by done. eauto.
Qed.

Lemma ok_close s : session_ok s → session_ok (close s).
Proof. intros W. unfold close. destruct (decide _); [done|]. by split. Qed.

(** Fewer pointers into a heap that was kept. *)
Lemma manager_kept l h h' m ptrs :
  manager_ok l (h, m) → heap_kept h h' → Forall session_ok h' →
  NoDup ptrs → (∀ a, a ∈ ptrs → a ∈ sessions m) → manager_ok l (h', with_sessions ptrs m).
Proof.
  intros [W1 W2 W3 W4 W5] Hk Hok Hnd Hsub. cbn [fst snd] in *.
  assert (Hin : ∀ a, a ∈ ptrs → is_Some (h !! a)).
  { intros a Ha. destruct (W2 a (Hsub a Ha)) as (s & -> & _). eauto. }
  split; cbn; [done| | |done|done].
  - intros a Ha. destruct (W2 a (Hsub a Ha)) as (s & Hs & Hl).
    destruct (Hk a s Hs) as (s' & Hs' & _ & Hl'). exists s'. split; congruence.
  - intros a b r Ha Hb. rewrite !(kept_peer h h') by auto. eauto.
Qed.

Lemma get_session_Some r w a :
  get_session r w = Some a → a ∈ sessions w.2 ∧ with_peer w.1 r a = true.
Proof.
  intros E. apply List.find_some in E as [Hin Hp]. split; [by apply list_elem_of_In|done].
Qed.

Lemma get_session_None r w a :
  get_session r w = None → a ∈ sessions w.2 → with_peer w.1 r a = false.
Proof.
  intros E Hin. by apply (List.find_none _ _ E), list_elem_of_In.
Qed.

Lemma get_session_exact l r w a :
  manager_ok l w → get_session r w = Some a ↔ a ∈ sessions w.2 ∧ with_peer w.1 r a = true.
Proof.
  intros W. split; [apply get_session_Some|]. intros [Hin Hp].
  destruct (get_session r w) as [b|] eqn:E.
  - apply get_session_Some in E as [Hb Hq]. f_equal. by eapply mo_unique.
  - by rewrite (get_session_None r w a E Hin) in Hp.
Qed.

Lemma manager_push l s w :
  manager_ok l w → get_session (remote_node_id s) w = None →
  local_node_id s = l → session_ok s → manager_ok l (push_session s w).2.
Proof.
  intros [W1 W2 W3 W4 W5] Hn Hl Hs. destruct w as [h m]. cbn [fst snd push_session] in *.
  assert (Hnew : length h ∉ sessions m).
  { intros Hin. destruct (W2 _ Hin) as (t & Ht & _). apply lookup_lt_Some in Ht. lia. }
  assert (Hold : ∀ r a, a ∈ sessions m → with_peer (h ++ [s]) r a = with_peer h r a).
  { intros r a Ha. destruct (W2 a Ha) as (t & Ht & _). unfold with_peer.
    by rewrite (lookup_app_l_Some _ _ _ _ Ht), Ht. }
  assert (Hlast : ∀ r, with_peer (h ++ [s]) r (length h) = bool_decide (remote_node_id s = r)).
  { intros r. unfold with_peer. by rewrite list_lookup_middle. }
  assert (Hno : ∀ r a, a ∈ sessions m → with_peer h r a = true → remote_node_id s ≠ r).
  { intros r a Ha Hp <-. pose proof (get_session_None _ (h, m) a Hn Ha) as Hf. cbn in Hf. congruence. }
  assert (Hnd : NoDup (sessions m ++ [length h])).
  { apply list.NoDup_app. split_and!; [done| |apply NoDup_singleton].
    by intros a Ha ->%list_elem_of_singleton. }
  split; cbn; [done| | |done|].
  - intros a [Ha| ->%list_elem_of_singleton]%elem_of_app.
    + destruct (W2 a Ha) as (t & Ht & Htl). exists t. by rewrite (lookup_app_l_Some _ _ _ _ Ht).
    + exists s. by rewrite list_lookup_middle.
  - intros a b r [Ha| ->%list_elem_of_singleton]%elem_of_app [Hb| ->%list_elem_of_singleton]%elem_of_app.
    + rewrite !Hold by done. eauto.
    + rewrite Hold, Hlast, bool_decide_eq_true by done. intros Hp Hq. by destruct (Hno r a Ha Hp Hq).
    + rewrite (Hold r b), Hlast, bool_decide_eq_true by done. intros Hq Hp. by destruct (Hno r b Hb Hp Hq).
    + done.
  - apply Forall_app. by split; [|constructor].
Qed.

Lemma manager_close r l w : manager_ok l w → manager_ok l (close_session r w).
Proof.
  intros W. unfold close_session. destruct (get_session r w) as [a|]; [|done]. destruct w as [h m].
  pose proof W as [_ _ _ W4 W5]. apply (manager_kept l h _ m _ W).
  - apply kept_alter, close_ids.
  - apply ok_alter; [apply ok_close|done].
  - by apply list.NoDup_filter.
  - intros b [_ Hb]%list_elem_of_filter. done.
Qed.

Lemma closed_session r l w : manager_ok l w → get_session r (close_session r w) = None.
Proof.
  intros W. unfold close_session. destruct (get_session r w) as [a|] eqn:E; [|done].
  destruct (get_session r (remove_session r (alter close a w.1, w.2))) as [b|] eqn:E'; [|done].
  apply get_session_Some in E' as [[Hb _]%list_elem_of_filter Hp]. unfold remove_session in *. cbn [fst snd] in *. congruence.
Qed.

(** The loops that close several sessions. *)
Lemma kept_fold (P : heap → nat → bool) ptrs h :
  heap_kept h (foldl (λ h a, if P h a then alter close a h else h) h ptrs) ∧
  (Forall session_ok h →
   Forall session_ok (foldl (λ h a, if P h a then alter close a h else h) h ptrs)).
Proof.
  revert h. induction ptrs as [|a ptrs IH]; intros h; [split; [apply kept_refl|done]|].
  cbn [foldl]. destruct (P h a); [|apply IH]. destruct (IH (alter close a h)) as [IH1 IH2]. split.
  - eapply kept_trans; [apply kept_alter, close_ids|exact IH1].
  - intros Hok. apply IH2, ok_alter; [apply ok_close|done].
Qed.

Lemma manager_inbound `{Crypto} l h drawn now w :
  manager_ok l w → manager_ok l (handle_inbound_handshake h drawn now w).2.
Proof.
  intros W. unfold handle_inbound_handshake.
  assert (HA : ∀ w, manager_ok l w → get_session (hs_node_id h) w = None →
    manager_ok l (match handle_handshake_init h drawn now
                    (new_session (sm_local_node_id w.2) (hs_node_id h) now) with
                  | (Ok true, s) => let '(a, w) := push_session s w in (Ok (Some a), w)
                  | (Ok false, _) => (Ok None, w)
                  | (Err e, _) => (Err e, w)
                  | (Undef, _) => (Undef, w)
                  end).2).
  { intros w' W' Hn.
    pose proof (good_init h drawn now (new_session (sm_local_node_id w'.2) (hs_node_id h) now)
      (new_session_ok _ _ _)) as (_ & _ & Hok & Hr & Hl & _).
    destruct (handle_handshake_init _ _ _ _) as [[[|]| |] s]; try done.
    cbn [no_bytes snd] in Hok, Hr, Hl.
    apply (manager_push l s w' W'); [by rewrite Hr|rewrite Hl; apply (mo_local _ _ W')|done]. }
  destruct (get_session (hs_node_id h) w) as [a|] eqn:E; [|by apply HA].
  destruct (w.1 !! a) as [s|]; [|done]. destruct (_ || _); [|done].
  apply HA; [by apply manager_close|by eapply closed_session].
Qed.

Lemma manager_step_ok `{Crypto, ChannelCrypto} l w op :
  manager_ok l w → manager_ok l (manager_step w op).
Proof.
  intros W. destruct op; cbn [manager_step].
  - unfold create_outbound_session. destruct (get_session remote w) eqn:E; [done|].
    apply (manager_push l _ w W); [done|apply (mo_local _ _ W)|apply new_session_ok].
  - by apply manager_inbound.
  - by apply manager_close.
  - destruct w as [h m]. destruct (kept_fold (λ _ _, true) (sessions m) h) as [Hk Hok].
    apply (manager_kept l h _ m [] W); [exact Hk|apply Hok, (mo_sessions _ _ W)|constructor|].
    by intros a Ha%not_elem_of_nil.
  - destruct w as [h m]. unfold cleanup_stale_sessions. cbn [fst snd].
    destruct (kept_fold (λ h a, timed_out h now a) (sessions m) h) as [Hk Hok].
    apply (manager_kept l h _ m _ W); [exact Hk|apply Hok, (mo_sessions _ _ W)| |].
    + apply list.NoDup_filter, (mo_nodup _ _ W).
    + by intros a [_ Ha]%list_elem_of_filter.
  - done.
  - destruct w as [h m].
    assert (HM : manager_ok l (alter (λ s, (session_step op s).2) a h, with_sessions (sessions m) m)).
    { apply (manager_kept l h _ m _ W).
      - intros b s Hb. destruct (decide (a = b)) as [<-|Hne].
        + exists (session_step op s).2. rewrite list_lookup_alter_eq, Hb. split; [done|].
          pose proof (mo_sessions _ _ W) as Hs. rewrite Forall_lookup in Hs.
          destruct (good_session_step op s (Hs _ _ Hb)) as (_ & _ & _ & Hr & Hl & _). done.
        + exists s. by rewrite list_lookup_alter_ne.
      - apply ok_alter; [|apply (mo_sessions _ _ W)]. intros s Hs. by apply (good_session_step op s Hs).
      - apply (mo_nodup _ _ W).
      - done. }
    by destruct m.
Qed.

Lemma manager_new l : manager_ok l ([], new_session_manager l).
Proof.
  split; cbn; [done|intros a Ha; by apply not_elem_of_nil in Ha| |constructor|constructor].
  intros a b r Ha. by apply not_elem_of_nil in Ha.
Qed.

Lemma timed_out_close h b now a : timed_out (alter close b h) now a = timed_out h now a.
Proof.
  unfold timed_out. destruct (decide (b = a)) as [<-|Hne].
  - rewrite list_lookup_alter_eq. destruct (h !! b) as [s|]; [|done]. cbn. unfold close.
    by destruct (decide _).
  - by rewrite list_lookup_alter_ne.
Qed.

Definition closed_at (h : heap) (a : nat) : Prop := ∃ s, h !! a = Some s ∧ state s = CLOSED.

Lemma closed_at_close h b a : closed_at h a → closed_at (alter close b h) a.
Proof.
  intros (s & Hs & Hc). destruct (decide (b = a)) as [<-|Hne].
  - exists s. rewrite list_lookup_alter_eq, Hs. cbn. unfold close. by rewrite decide_True.
  - exists s. by rewrite list_lookup_alter_ne.
Qed.

Lemma closes_stale now ptrs h a :
  (a ∈ ptrs ∧ timed_out h now a = true ∨ closed_at h a) →
  closed_at (foldl (λ h a, if timed_out h now a then alter close a h else h) h ptrs) a.
Proof.
  revert h. induction ptrs as [|b ptrs IH]; intros h [[Ha Ht]|Hc]; [by apply not_elem_of_nil in Ha|done| |].
  - cbn [foldl]. apply elem_of_cons in Ha as [->|Ha].
    + rewrite Ht. apply IH. right. unfold timed_out in Ht. destruct (h !! b) as [s|] eqn:Hb; [|done].
      exists (close s). rewrite list_lookup_alter_eq, Hb. split; [done|].
      unfold close. by destruct (decide _).
    + apply IH. left. split; [done|]. destruct (timed_out h now b); [|done]. by rewrite timed_out_close.
  - cbn [foldl]. apply IH. right. destruct (timed_out h now b); [|done]. by apply closed_at_close.
Qed.

(** Whatever a session manager goes through, it holds at most one session per peer, all
    valid; closing removes the session, the cleanup closes and removes exactly what has
    timed out, and an inbound handshake of a peer with a live session returns that session
    unanswered, and otherwise opens one. *)
Theorem session_manager_spec `{Crypto, ChannelCrypto} l ops :
  let w := foldl manager_step ([], new_session_manager l) ops in
  manager_ok l w ∧
  (∀ r a, get_session r w = Some a ↔ a ∈ sessions w.2 ∧ with_peer w.1 r a = true) ∧
  (∀ r, get_session r (close_session r w) = None) ∧
  (∀ now a, a ∈ sessions w.2 → timed_out w.1 now a = true →
     a ∉ sessions (cleanup_stale_sessions now w).2 ∧
     closed_at (cleanup_stale_sessions now w).1 a) ∧
  (∀ h drawn now a s, get_session (hs_node_id h) w = Some a → w.1 !! a = Some s →
     state s ≠ CLOSED → has_timed_out now s = false →
     handle_inbound_handshake h drawn now w = (Ok (Some a), w)) ∧
  (∀ h kp now, too_old now h = false → verify_handshake_signature h = true →
     (∀ a s, get_session (hs_node_id h) w = Some a → w.1 !! a = Some s →
        state s = CLOSED ∨ has_timed_out now s = true) →
     ∃ a s w', handle_inbound_handshake h (Some kp) now w = (Ok (Some a), w') ∧
       get_session (hs_node_id h) w' = Some a ∧ w'.1 !! a = Some s ∧
       state s = HANDSHAKE_RESPONSE ∧ remote_ephemeral s = Some (ephemeral_public h)).
Proof.
  cbv zeta. set (w := foldl manager_step _ ops).
  assert (W : manager_ok l w).
  { subst w. generalize (manager_new l). generalize (@nil Session, new_session_manager l) as w.
    induction ops as [|op ops IH]; intros w W; [done|]. by apply IH, manager_step_ok. }
  clearbody w. split; [done|]. split; [intros; by eapply get_session_exact|].
  split; [intros r; by eapply closed_session|]. split; [|split].
  - intros now a Ha Ht. split; [|apply closes_stale; auto].
    intros [Hf _]%list_elem_of_filter. congruence.
  - intros h drawn now a s Hg Hs Hc Ht. unfold handle_inbound_handshake.
    rewrite Hg, Hs, bool_decide_eq_false_2, Ht by done. done.
  - intros h kp now Ho Hv Hold. unfold handle_inbound_handshake.
    assert (HA : ∀ w1, manager_ok l w1 → get_session (hs_node_id h) w1 = None →
      ∃ a s w', (match handle_handshake_init h (Some kp) now
                   (new_session (sm_local_node_id w1.2) (hs_node_id h) now) with
                 | (Ok true, s) => let '(a, w) := push_session s w1 in (Ok (Some a), w)
                 | (Ok false, _) => (Ok None, w1)
                 | (Err e, _) => (Err e, w1)
                 | (Undef, _) => (Undef, w1)
                 end) = (Ok (Some a), w') ∧
        get_session (hs_node_id h) w' = Some a ∧ w'.1 !! a = Some s ∧
        state s = HANDSHAKE_RESPONSE ∧ remote_ephemeral s = Some (ephemeral_public h)).
    { intros w1 W1 Hn. rewrite init_eq by done. do 3 eexists. split; [reflexivity|].
      assert (Hl : ∀ (x : Session) (k : heap), (k ++ [x]) !! length k = Some x)
        by (intros; by rewrite list_lookup_middle).
      split; [|split; [apply Hl|done]].
      match goal with |- get_session _ ?w2 = Some ?a =>
        assert (W2 : manager_ok l w2) end.
      { apply (manager_push l (with_state HANDSHAKE_RESPONSE (with_local kp (with_remote
          (ephemeral_public h) (with_initiator false
            (new_session (sm_local_node_id w1.2) (hs_node_id h) now))))) w1 W1);
          [done|apply (mo_local _ _ W1)|by split]. }
      apply (get_session_exact l _ _ _ W2). split; cbn; [apply elem_of_app; right; constructor|].
      apply with_peer_true. eexists. split; [apply Hl|done]. }
    destruct (get_session (hs_node_id h) w) as [a|] eqn:E; [|by apply HA].
    pose proof (get_session_Some _ _ _ E) as [Hin _].
    destruct (mo_valid _ _ W a Hin) as (s & Hs & _). rewrite Hs.
    destruct (Hold a s eq_refl Hs) as [Hc|Ht].
    + rewrite bool_decide_eq_true_2 by done. cbn [orb].
      apply HA; [by apply manager_close|by eapply closed_session].
    + rewrite Ht, orb_true_r. apply HA; [by apply manager_close|by eapply closed_session].
Qed.

(** ** Two nodes, and a third *)

Definition sample_pair (b : Z) : PublicKey * SecretKey :=
  let secret := array_fill 64 (to_byte b) in (scalar_of secret, secret).

Lemma sample_pair_ok b : @X25519.keypair_ok toy_channel (sample_pair b).
Proof. reflexivity. Qed.

Definition alice_id : NodeID := array_fill 32 (to_byte 65).
Definition bob_id : NodeID := array_fill 32 (to_byte 66).

Definition calling : Session :=
  (@initiate_handshake toy_crypto (Some (sample_pair 1)) 1000 (new_session alice_id bob_id 1000)).2.

Lemma handshake_agreement_witness :
  ∃ a b : Session, state a = ESTABLISHED ∧ state b = ESTABLISHED ∧
    ∀ m r now c x now', @encrypt_message toy_channel m r now a = (Ok (Some c), x) →
      (@decrypt_message toy_channel c now' b).1 = Ok (Some m).
Proof.
  destruct (@handshake_agreement toy_crypto toy_channel toy_channel_laws
    (new_session alice_id bob_id 1000) (new_session bob_id alice_id 1001)
    (sample_pair 1) (sample_pair 2) (toy_mult (scalar_of (sample_pair 1).2) (sample_pair 2).1)
    1000 1001 1002 1003 eq_refl eq_refl (sample_pair_ok 1) (sample_pair_ok 2) eq_refl
    ltac:(lia) ltac:(unfold MAX_AGE_SECONDS; lia) ltac:(lia) ltac:(unfold MAX_AGE_SECONDS; lia)
    ltac:(lia) ltac:(lia)) as (hA & a1 & b1 & hB & b2 & a2 & _ & _ & _ & _ & _ & _ & _ & _ & HT).
  destruct (HT [] [] (Forall_nil_2 _) (Forall_nil_2 _)) as (Ea & Eb & Hab & _).
  exists a2, b2. split; [exact Ea|]. split; [exact Eb|exact Hab].
Defined.

Lemma nonces_never_repeat_witness :
  NoDup (take 12 <$> @frames toy_crypto toy_channel
    [Initiate (Some (sample_pair 1)) 1000;
     Handle_response (own_handshake (H := toy_crypto) (sample_pair 2) 1001 (new_session bob_id alice_id 1000)) 1002;
     Encrypt (str "a") (zeros 4) 1003; Encrypt (str "a") (zeros 4) 1003]
    (new_session alice_id bob_id 1000)).
Proof. apply nonces_never_repeat. vm_compute. discriminate. Defined.

Lemma handshake_unauthenticated_witness :
  ∃ s, @handle_handshake_response toy_crypto toy_channel
         (own_handshake (H := toy_crypto) (sample_pair 9) 1002 (new_session alice_id alice_id 1002)) 1002 calling =
       (Ok true, s) ∧ state s = ESTABLISHED ∧ remote_node_id s = bob_id.
Proof.
  destruct (@handshake_unauthenticated toy_crypto toy_channel toy_channel_laws calling (sample_pair 9)
    alice_id (toy_mult (scalar_of (sample_pair 9).2) (sample_pair 1).1) 1002 eq_refl ltac:(lia)
    (sample_pair_ok 1) (sample_pair_ok 9) eq_refl) as (_ & s & E & Es & Er & _).
  exists s. split; [exact E|]. split; [exact Es|exact Er].
Defined.
