(* ===== verification/Network.v ===== *)
(** Networks of nodes that host one thing: [Network] of
    src/network/network.hpp and network.cpp.

    A reliability score is kept as its 32 bits, since it is only copied and
    compared ([Floats.of_bits] is its value).  [std::sort], which leaves the order
    of equal elements open, is an argument, as are the clock in seconds ([now])
    and in ticks ([ticks]). *)

From Stdlib Require Import Strings.Byte.
From S2P Require Import Prelude Reader Common Crypto Floats.

Abbreviation NetworkID := (array 32).

(** ** Members, invitations, quorum *)

Abbreviation MemberRole := Z.
Definition FOUNDER : MemberRole := 0.
Definition FULL : MemberRole := 1.
Definition PENDING_MEMBER : MemberRole := 2.
Definition OBSERVER : MemberRole := 3.

Record NetworkMember := MkNetworkMember {
  node_id : NodeID;
  public_key : PublicKey;
  role : MemberRole;
  joined_timestamp : Z;
  last_seen_timestamp : Z;
  has_complete_replica : bool;
  reliability_score : Z
}.

Definition new_member (id : NodeID) (key : PublicKey) (r : MemberRole) : NetworkMember :=
  MkNetworkMember id key r 0 0 false ONE_BITS.

Definition seen_at (t : Z) (m : NetworkMember) : NetworkMember :=
  MkNetworkMember (node_id m) (public_key m) (role m) (joined_timestamp m) t
    (has_complete_replica m) (reliability_score m).

Definition joined_at (t : Z) (m : NetworkMember) : NetworkMember :=
  MkNetworkMember (node_id m) (public_key m) (role m) t t (has_complete_replica m)
    (reliability_score m).

Definition with_replica (complete : bool) (m : NetworkMember) : NetworkMember :=
  MkNetworkMember (node_id m) (public_key m) (role m) (joined_timestamp m)
    (last_seen_timestamp m) complete (reliability_score m).

Definition with_reliability (score : Z) (m : NetworkMember) : NetworkMember :=
  MkNetworkMember (node_id m) (public_key m) (role m) (joined_timestamp m)
    (last_seen_timestamp m) (has_complete_replica m) score.

Record NetworkInvitation := MkNetworkInvitation {
  inv_network_id : NetworkID;
  inviter_id : NodeID;
  invitee_id : NodeID;
  inviter_public_key : PublicKey;
  proposed_role : MemberRole;
  expires_timestamp : Z;
  inv_signature : Signature
}.

(** The bytes signed. *)
Definition invitation_to_bytes (i : NetworkInvitation) : bytes :=
  arr (inv_network_id i) ++ arr (inviter_id i) ++ arr (invitee_id i) ++
  arr (inviter_public_key i) ++ [to_byte (proposed_role i)] ++ le_bytes 8 (expires_timestamp i).

Record NetworkQuorum := MkNetworkQuorum {
  min_replicas : Z;
  target_replicas : Z;
  max_replicas : Z
}.

Definition DEFAULT_MIN : Z := 3.
Definition DEFAULT_TARGET : Z := 5.
Definition DEFAULT_MAX : Z := 10.

Definition default_quorum : NetworkQuorum :=
  MkNetworkQuorum DEFAULT_MIN DEFAULT_TARGET DEFAULT_MAX.

Definition needs_replication (current : Z) (q : NetworkQuorum) : bool := current <? target_replicas q.
Definition at_capacity (current : Z) (q : NetworkQuorum) : bool := max_replicas q <=? current.

Inductive NetworkHealth := CRITICAL | DEGRADED | HEALTHY | OPTIMAL.

#[export] Instance NetworkHealth_eq_dec : EqDecision NetworkHealth.
Proof. solve_decision. Defined.

Record PendingInvitation := MkPendingInvitation {
  invitation : NetworkInvitation;
  pi_created_timestamp : Z
}.

(** ** The network *)

Record Network := MkNetwork {
  network_id : NetworkID;
  thing_hash : ContentHash;
  members : list NetworkMember;
  quorum : NetworkQuorum;
  net_created_timestamp : Z;
  pending_invitations : list PendingInvitation
}.

Definition MEMBER_TIMEOUT_SECONDS : Z := 3600.
Definition MIN_RELIABILITY_SCORE : float := literal 1 2.

Definition new_network (id : NetworkID) (thing : ContentHash) (ticks : Z) : Network :=
  MkNetwork id thing [] default_quorum ticks [].

Definition with_members (ms : list NetworkMember) (n : Network) : Network :=
  MkNetwork (network_id n) (thing_hash n) ms (quorum n) (net_created_timestamp n)
    (pending_invitations n).

Definition set_quorum (q : NetworkQuorum) (n : Network) : Network :=
  MkNetwork (network_id n) (thing_hash n) (members n) q (net_created_timestamp n)
    (pending_invitations n).

Definition with_pending (ps : list PendingInvitation) (n : Network) : Network :=
  MkNetwork (network_id n) (thing_hash n) (members n) (quorum n) (net_created_timestamp n) ps.

(** The loops that change the first member with an identifier and stop. *)
Fixpoint update_first (id : NodeID) (f : NetworkMember → NetworkMember) (ms : list NetworkMember) :
    list NetworkMember :=
  match ms with
  | [] => []
  | m :: ms => if decide (node_id m = id) then f m :: ms else m :: update_first id f ms
  end.

(** *** Membership *)

Definition get_member (id : NodeID) (n : Network) : option NetworkMember :=
  List.find (λ m, bool_decide (node_id m = id)) (members n).

Definition add_member (m : NetworkMember) (n : Network) : bool * Network :=
  if existsb (λ x, bool_decide (node_id x = node_id m)) (members n) then (false, n)
  else if at_capacity (len (members n)) (quorum n) then (false, n)
  else (true, with_members (members n ++ [m]) n).

Definition remove_member (id : NodeID) (n : Network) : bool * Network :=
  let kept := filter (λ m, node_id m ≠ id) (members n) in
  if len kept =? len (members n) then (false, n) else (true, with_members kept n).

Definition get_all_members (n : Network) : list NetworkMember := members n.

Definition member_count (n : Network) : Z := len (members n).

Definition is_member_active (now : Z) (m : NetworkMember) : bool :=
  u64 (now - last_seen_timestamp m) <? MEMBER_TIMEOUT_SECONDS.

Definition is_active_replica (now : Z) (m : NetworkMember) : bool :=
  has_complete_replica m && is_member_active now m.

Definition active_replica_count (now : Z) (n : Network) : Z :=
  len (filter (λ m, is_active_replica now m = true) (members n)).

(** *** Invitations *)

Definition create_invitation `{Crypto} (inviter invitee : NodeID) (pk : PublicKey) (sk : SecretKey)
    (r : MemberRole) (valid_duration now : Z) (n : Network) : outcome (NetworkInvitation * Network) :=
  let unsigned := MkNetworkInvitation (network_id n) inviter invitee pk r
                    (u64 (now + valid_duration)) (zeros 64) in
  sg ← Ed25519.sign (invitation_to_bytes unsigned) sk;
  let i := MkNetworkInvitation (inv_network_id unsigned) (inviter_id unsigned) (invitee_id unsigned)
             (inviter_public_key unsigned) (proposed_role unsigned) (expires_timestamp unsigned) sg in
  mret (i, with_pending (pending_invitations n ++ [MkPendingInvitation i now]) n).

Definition verify_invitation `{Crypto} (i : NetworkInvitation) (now : Z) (n : Network) : bool :=
  if negb (bool_decide (inv_network_id i = network_id n)) then false
  else if expires_timestamp i <? now then false
  else
    match get_member (inviter_id i) n with
    | None => false
    | Some inviter =>
        if negb (bool_decide (public_key inviter = inviter_public_key i)) then false
        else Ed25519.verify (invitation_to_bytes i) (inv_signature i) (inviter_public_key i)
    end.

Definition accept_invitation `{Crypto} (i : NetworkInvitation) (now : Z) (n : Network) :
    bool * Network :=
  if negb (verify_invitation i now n) then (false, n)
  else add_member (joined_at now (new_member (invitee_id i) (zeros 32) (proposed_role i))) n.

Definition reject_invitation (i : NetworkInvitation) (n : Network) : bool * Network :=
  let kept := filter (λ p, ¬ (invitee_id (invitation p) = invitee_id i ∧
                              inv_network_id (invitation p) = inv_network_id i))
                (pending_invitations n) in
  if len kept =? len (pending_invitations n) then (false, n) else (true, with_pending kept n).

Definition cleanup_expired_invitations (now : Z) (n : Network) : Network :=
  with_pending (filter (λ p, (expires_timestamp (invitation p) <? now) = false)
                  (pending_invitations n)) n.

(** *** Health *)

Definition get_health (now : Z) (n : Network) : NetworkHealth :=
  let replicas := active_replica_count now n in
  if replicas <? min_replicas (quorum n) then CRITICAL
  else if replicas <? target_replicas (quorum n) then DEGRADED
  else if replicas =? target_replicas (quorum n) then
    if existsb (λ m, has_complete_replica m && negb (is_member_active now m)) (members n)
    then HEALTHY else OPTIMAL
  else HEALTHY.

Definition is_healthy (now : Z) (n : Network) : bool := negb (bool_decide (get_health now n = CRITICAL)).

Definition needs_new_replicas (now : Z) (n : Network) : bool :=
  needs_replication (active_replica_count now n) (quorum n).

Definition can_accept_member (n : Network) : bool := negb (at_capacity (len (members n)) (quorum n)).

(** [std::clamp(score, 0.0f, 1.0f)] *)
Definition clamp (score : Z) : Z :=
  if fltb (of_bits score) f_zero then ZERO_BITS
  else if fltb f_one (of_bits score) then ONE_BITS else score.

Definition update_member_reliability (id : NodeID) (score : Z) (n : Network) : Network :=
  with_members (update_first id (with_reliability (clamp score)) (members n)) n.

Definition mark_member_active (id : NodeID) (now : Z) (n : Network) : Network :=
  with_members (update_first id (seen_at now) (members n)) n.

Definition mark_replica_complete (id : NodeID) (complete : bool) (n : Network) : Network :=
  with_members (update_first id (with_replica complete) (members n)) n.

Definition unreliable (m : NetworkMember) : bool :=
  fltb (of_bits (reliability_score m)) MIN_RELIABILITY_SCORE.

Definition reliable (m : NetworkMember) : bool :=
  fgeb (of_bits (reliability_score m)) MIN_RELIABILITY_SCORE.

Definition get_replication_candidates (now : Z) (n : Network) : list NodeID :=
  node_id <$> filter (λ m, is_member_active now m && has_complete_replica m && reliable m = true)
    (members n).

(** One iteration over the members, on the best so far. *)
Definition better_source (candidates : list NodeID) (best : option NetworkMember)
    (m : NetworkMember) : option NetworkMember :=
  if decide (node_id m ∈ candidates) then
    match best with
    | None => Some m
    | Some b =>
        if fltb (of_bits (reliability_score b)) (of_bits (reliability_score m)) then Some m else best
    end
  else best.

Definition select_best_source_for_replication (now : Z) (n : Network) : NodeID :=
  match get_replication_candidates now n with
  | [] => zeros 32
  | candidates =>
      match foldl (better_source candidates) None (members n) with
      | Some b => node_id b
      | None => zeros 32
      end
  end.

Definition should_dissolve (now : Z) (n : Network) : bool :=
  len (filter (λ m, is_member_active now m && reliable m = true) (members n)) <?
  min_replicas (quorum n).

(** *** Redundancy *)

Definition calculate_target_redundancy (n : Network) : Z :=
  let member_count := len (members n) in
  if member_count <=? 3 then Z.min member_count DEFAULT_TARGET
  else if member_count <=? 10 then DEFAULT_TARGET
  else Z.min (DEFAULT_TARGET + (member_count - 10) / 5) DEFAULT_MAX.

Definition should_add_replicas (now : Z) (n : Network) : bool :=
  (active_replica_count now n <? target_replicas (quorum n)) &&
  negb (at_capacity (len (members n)) (quorum n)).

Definition should_remove_replicas (now : Z) (n : Network) : bool :=
  if active_replica_count now n <=? target_replicas (quorum n) then false
  else existsb (λ m, has_complete_replica m && unreliable m) (members n).

(** [sort] is [std::sort] by ascending reliability. *)
Definition select_nodes_for_removal (sort : list (NodeID * Z) → list (NodeID * Z)) (now : Z)
    (n : Network) : list NodeID :=
  let current := active_replica_count now n in
  let target := target_replicas (quorum n) in
  if current <=? target then []
  else
    let replica_nodes := sort ((λ m, (node_id m, reliability_score m)) <$>
                                 filter (λ m, has_complete_replica m = true) (members n)) in
    let can_remove := Z.min (current - target) (u64 (current - min_replicas (quorum n))) in
    (filter (λ p, fltb (of_bits p.2) MIN_RELIABILITY_SCORE = true)
       (take (Z.to_nat can_remove) replica_nodes)).*1.

Definition set_target (t : Z) (n : Network) : Network :=
  set_quorum (MkNetworkQuorum (min_replicas (quorum n)) t (max_replicas (quorum n))) n.

Definition adjust_redundancy (sort : list (NodeID * Z) → list (NodeID * Z)) (now : Z) (n : Network) :
    bool * Network :=
  let target := calculate_target_redundancy n in
  let '(changed, n) :=
    if target_replicas (quorum n) =? target then (false, n) else (true, set_target target n) in
  let changed := changed || should_add_replicas now n in
  if should_remove_replicas now n then
    let nodes := select_nodes_for_removal sort now n in
    (changed || negb (len nodes =? 0), foldl (λ n id, mark_replica_complete id false n) n nodes)
  else (changed, n).

(** ** The file format *)

Definition member_to_bytes (m : NetworkMember) : bytes :=
  arr (node_id m) ++ arr (public_key m) ++ le_bytes 1 (role m) ++ le_bytes 8 (joined_timestamp m) ++
  le_bytes 8 (last_seen_timestamp m) ++ le_bytes 1 (if has_complete_replica m then 1 else 0) ++
  le_bytes 4 (reliability_score m).

Definition pending_to_bytes (p : PendingInvitation) : bytes :=
  let i := invitation p in
  arr (inv_network_id i) ++ arr (inviter_id i) ++ arr (invitee_id i) ++
  arr (inviter_public_key i) ++ le_bytes 1 (proposed_role i) ++ le_bytes 8 (expires_timestamp i) ++
  arr (inv_signature i) ++ le_bytes 8 (pi_created_timestamp p).

Definition magic : bytes := str "CSNW".

Definition serialize (n : Network) : bytes :=
  magic ++ le_bytes 4 1 ++ arr (network_id n) ++ arr (thing_hash n) ++
  le_bytes 4 (min_replicas (quorum n)) ++ le_bytes 4 (target_replicas (quorum n)) ++
  le_bytes 4 (max_replicas (quorum n)) ++ le_bytes 8 (net_created_timestamp n) ++
  le_bytes 4 (len (members n)) ++ mjoin (member_to_bytes <$> members n) ++
  le_bytes 4 (len (pending_invitations n)) ++ mjoin (pending_to_bytes <$> pending_invitations n).

(** [if (!b) return std::nullopt;] *)
Definition rd_check (b : bool) : reader () := λ d o, if b then Ok (tt, o) else Err ENullopt.

Section readers.
Context (W : Z).

Definition member_reader : reader NetworkMember :=
  id ← read_blob W 32;
  pk ← read_blob W 32;
  r ← read_scalar W 1;
  joined ← read_scalar W 8;
  seen ← read_scalar W 8;
  has_replica ← read_scalar W 1;
  score ← read_scalar W 4;
  mret (MkNetworkMember id pk r joined seen (negb (has_replica =? 0)) score).

Definition pending_reader : reader PendingInvitation :=
  net ← read_blob W 32;
  inviter ← read_blob W 32;
  invitee ← read_blob W 32;
  pk ← read_blob W 32;
  r ← read_scalar W 1;
  expires ← read_scalar W 8;
  sg ← read_blob W 64;
  created ← read_scalar W 8;
  mret (MkPendingInvitation (MkNetworkInvitation net inviter invitee pk r expires sg) created).

(** The first 72 bytes are known to be there; the rest is checked field by
    field. *)
Definition network_fields : reader Network :=
  m ← rd_raw 4;
  _ ← rd_check (bool_decide (m = magic));
  version ← read_scalar W 4;
  _ ← rd_check (version =? 1);
  id ← read_blob W 32;
  thing ← read_blob W 32;
  min ← read_scalar W 4;
  target ← read_scalar W 4;
  max ← read_scalar W 4;
  created ← read_scalar W 8;
  member_count ← read_scalar W 4;
  ms ← rd_list (Z.to_nat member_count) member_reader;
  pending_count ← read_scalar W 4;
  ps ← rd_list (Z.to_nat pending_count) pending_reader;
  mret (MkNetwork id thing ms (MkNetworkQuorum min target max) created ps).

Definition network_reader : reader Network := _ ← rd_min (8 + 32 + 32); network_fields.

End readers.

Definition deserialize (input : bytes) : option Network :=
  to_optional (run_reader (network_reader 64) input).

(** ** The format loses nothing and stays in its input *)

Definition member_encodable (m : NetworkMember) : Prop :=
  in_u 8 (role m) ∧ in_u 64 (joined_timestamp m) ∧ in_u 64 (last_seen_timestamp m) ∧
  in_u 32 (reliability_score m).

Definition pending_encodable (p : PendingInvitation) : Prop :=
  in_u 8 (proposed_role (invitation p)) ∧ in_u 64 (expires_timestamp (invitation p)) ∧
  in_u 64 (pi_created_timestamp p).

Definition network_encodable (n : Network) : Prop :=
  in_u 32 (min_replicas (quorum n)) ∧ in_u 32 (target_replicas (quorum n)) ∧
  in_u 32 (max_replicas (quorum n)) ∧ in_u 64 (net_created_timestamp n) ∧
  in_u 32 (len (members n)) ∧ in_u 32 (len (pending_invitations n)) ∧
  Forall member_encodable (members n) ∧ Forall pending_encodable (pending_invitations n).

Lemma reads_check W : reads W (rd_check true) tt [].
Proof. intros pre post _. unfold rd_check. by rewrite len_nil, Z.add_0_r. Qed.

Lemma reads_checked {A} W (r : reader A) x e : reads W r x e → reads W (_ ← rd_check true; r) x e.
Proof. intros Hr. apply (reads_bind (rd_check true) (λ _, r) tt x [] e); [apply reads_check|done]. Qed.

Lemma safe_check W n b : 0 <= n → safe_at W n (rd_check b) (λ _, True).
Proof. intros Hn d o Ho Hl Hd. unfold rd_check. destruct b; [split; [done|lia]|done]. Qed.

Lemma reads_member m : member_encodable m → reads 64 (member_reader 64) m (member_to_bytes m).
Proof.
  intros (? & ? & ? & ?). unfold member_reader, member_to_bytes.
  assert (in_u 8 (if has_complete_replica m then 1 else 0))
    by (destruct (has_complete_replica m); unfold in_u; lia).
  reads_fields. destruct m as [? ? ? ? ? [] ?]; apply reads_ret.
Qed.

Lemma reads_pending p : pending_encodable p → reads 64 (pending_reader 64) p (pending_to_bytes p).
Proof.
  intros (? & ? & ?). unfold pending_reader, pending_to_bytes. reads_fields.
  destruct p as [[] ?]. apply reads_ret.
Qed.

Lemma reads_network_file n : network_encodable n → reads 64 (network_reader 64) n (serialize n).
Proof.
  intros (? & ? & ? & ? & Hm & Hp & HM & HP). apply reads_min.
  { unfold serialize. autorewrite with len. change (len magic) with 4.
    pose proof (len_nonneg (mjoin (member_to_bytes <$> members n))).
    pose proof (len_nonneg (mjoin (pending_to_bytes <$> pending_invitations n))). lia. }
  unfold network_fields, serialize.
  eapply reads_bind; [by apply reads_raw_n|]. cbv beta.
  rewrite bool_decide_eq_true_2 by done. apply reads_checked.
  eapply reads_bind; [apply reads_scalar; unfold in_u; cbn; lia|]. cbv beta.
  apply reads_checked.
  reads_fields.
  eapply reads_bind.
  { unfold len. rewrite Nat2Z.id. apply reads_list. eapply list.Forall_impl; [exact HM|].
    apply reads_member. }
  reads_fields. rewrite <- (app_nil_r (mjoin _)). eapply reads_bind.
  { unfold len. rewrite Nat2Z.id. apply reads_list. eapply list.Forall_impl; [exact HP|].
    apply reads_pending. }
  destruct n as [? ? ? [] ? ?]. apply reads_ret.
Qed.

Lemma safe_member : safe_at 64 0 (member_reader 64) (λ _, True).
Proof. unfold member_reader. safe_fields. Qed.

Lemma safe_pending : safe_at 64 0 (pending_reader 64) (λ _, True).
Proof. unfold pending_reader. safe_fields. Qed.

Lemma safe_network : safe_at 64 72 (network_fields 64) (λ _, True).
Proof.
  unfold network_fields. eapply safe_bind; [apply fixed_raw; lia|lia|]. intros m _.
  eapply (safe_mono (W := 64) (72 - 4) 0); [lia|].
  eapply safe_then; [by apply safe_check|]. intros _ _. safe_fields.
  eapply safe_then; [by apply safe_check|]. intros _ _. safe_fields.
  eapply safe_then; [apply safe_list, safe_member|]. intros ms _. safe_fields.
  eapply safe_then; [apply safe_list, safe_pending|]. intros ps _. safe_fields.
Qed.

(** *** Round trip *)

Lemma deserialize_serialize_network n tail :
  network_encodable n → vector_fits (serialize n ++ tail) →
  deserialize (serialize n ++ tail) = Some n.
Proof.
  intros Hn Hl. unfold vector_fits in Hl. unfold deserialize, network_reader.
  erewrite reads_run; [done|by apply reads_network_file|lia].
Qed.

Lemma deserialize_stays_inside d : vector_fits d → run_reader (network_reader 64) d ≠ Undef.
Proof. intros Hd. eapply safe_min_run; [apply safe_network|exact Hd]. Qed.

(** ** Membership *)

Definition wf (n : Network) : Prop := NoDup (node_id <$> members n).

Lemma get_member_none id n : get_member id n = None ↔ id ∉ node_id <$> members n.
Proof.
  unfold get_member. split.
  - intros Hf (m & -> & Hm)%list_elem_of_fmap. apply list_elem_of_In in Hm.
    pose proof (List.find_none _ _ Hf m Hm) as Hn. by apply bool_decide_eq_false in Hn.
  - intros Hn. destruct (List.find _ _) as [m|] eqn:E; [|done]. destruct Hn.
    apply List.find_some in E as [Hm Hd]. bool_to_prop. subst id.
    apply list_elem_of_fmap. exists m. by rewrite list_elem_of_In.
Qed.

Lemma existsb_member id ms :
  existsb (λ x, bool_decide (node_id x = id)) ms = false ↔ id ∉ node_id <$> ms.
Proof.
  induction ms as [|m ms IH]; cbn; [set_solver|].
  rewrite orb_false_iff, IH, bool_decide_eq_false. set_solver.
Qed.

(** What [add_member] does on each of its branches. *)
Lemma add_member_cases m n :
  (node_id m ∉ node_id <$> members n ∧ len (members n) < max_replicas (quorum n) ∧
   add_member m n = (true, with_members (members n ++ [m]) n)) ∨
  ((node_id m ∈ node_id <$> members n ∨ max_replicas (quorum n) <= len (members n)) ∧
   add_member m n = (false, n)).
Proof.
  unfold add_member. destruct (existsb _ _) eqn:E.
  - right. split; [|done]. left. destruct (decide (node_id m ∈ node_id <$> members n)) as [?|Hn]; [done|].
    apply existsb_member in Hn. congruence.
  - apply existsb_member in E. unfold at_capacity. destruct (_ <=? _) eqn:E2; bool_to_prop.
    + right. split; [by right|done].
    + left. by split_and!.
Qed.

Lemma update_first_ids id f ms :
  (∀ m, node_id (f m) = node_id m) → node_id <$> update_first id f ms = node_id <$> ms.
Proof.
  intros Hf. induction ms as [|m ms IH]; [done|]. cbn. destruct (decide _); cbn; by rewrite ?Hf, ?IH.
Qed.

Lemma update_first_Forall (P : NetworkMember → Prop) id f ms :
  (∀ m, P m → P (f m)) → Forall P ms → Forall P (update_first id f ms).
Proof.
  intros Hf. induction 1 as [|m ms Hm Hms IH]; [constructor|]. cbn.
  destruct (decide _); constructor; auto.
Qed.

Lemma length_update_first id f ms : length (update_first id f ms) = length ms.
Proof. induction ms as [|m ms IH]; [done|]. cbn. destruct (decide _); cbn; by rewrite ?IH. Qed.

Lemma update_first_other id f ms m : m ∈ ms → node_id m ≠ id → m ∈ update_first id f ms.
Proof.
  intros Hm Hid. induction ms as [|x ms IH]; [done|]. cbn.
  apply elem_of_cons in Hm as [<-|Hm]; destruct (decide _); set_solver.
Qed.

(** A score is between zero and one, or not a number. *)
Definition score_ok (m : NetworkMember) : Prop :=
  fltb (of_bits (reliability_score m)) f_zero = false ∧
  fltb f_one (of_bits (reliability_score m)) = false.

Lemma clamp_ok s :
  fltb (of_bits (clamp s)) f_zero = false ∧ fltb f_one (of_bits (clamp s)) = false.
Proof.
  unfold clamp. destruct (fltb (of_bits s) f_zero) eqn:E1; [by rewrite of_zero_bits|].
  destruct (fltb f_one (of_bits s)) eqn:E2; [by rewrite of_one_bits|done].
Qed.

(** ** Every sequence of operations *)

Section networks.
Context `{Crypto}.

Inductive op :=
| Add (m : NetworkMember)
| Remove (id : NodeID)
| Invite (inviter invitee : NodeID) (pk : PublicKey) (sk : SecretKey) (r : MemberRole)
    (valid_duration now : Z)
| Accept (i : NetworkInvitation) (now : Z)
| Reject (i : NetworkInvitation)
| Cleanup (now : Z)
| Reliability (id : NodeID) (score : Z)
| Active (id : NodeID) (now : Z)
| Replica (id : NodeID) (complete : bool)
| Adjust (sort : list (NodeID * Z) → list (NodeID * Z)) (now : Z)
| Quorum (q : NetworkQuorum).

(** A signing failure is an exception thrown before anything is stored. *)
Definition step (o : op) (n : Network) : Network :=
  match o with
  | Add m => (add_member m n).2
  | Remove id => (remove_member id n).2
  | Invite inviter invitee pk sk r d now =>
      match create_invitation inviter invitee pk sk r d now n with Ok (_, n') => n' | _ => n end
  | Accept i now => (accept_invitation i now n).2
  | Reject i => (reject_invitation i n).2
  | Cleanup now => cleanup_expired_invitations now n
  | Reliability id score => update_member_reliability id score n
  | Active id now => mark_member_active id now n
  | Replica id b => mark_replica_complete id b n
  | Adjust sort now => (adjust_redundancy sort now n).2
  | Quorum q => set_quorum q n
  end.

Definition run (ops : list op) (n : Network) : Network := foldl (λ n o, step o n) n ops.

(** The largest capacity set, and the members that were offered to be added. *)
Definition capacity (ops : list op) : Z :=
  foldr (λ o L, match o with Quorum q => Z.max (max_replicas q) L | _ => L end) DEFAULT_MAX ops.

Definition offered (ops : list op) : list NetworkMember :=
  omap (λ o, match o with Add m => Some m | _ => None end) ops.

(** A score that is set is in range; one a member was added with is kept as it is. *)
Definition score_from (ms : list NetworkMember) (m : NetworkMember) : Prop :=
  score_ok m ∨ ∃ a, a ∈ ms ∧ node_id a = node_id m ∧ reliability_score a = reliability_score m.

Definition op_ok (L : Z) (ms : list NetworkMember) (o : op) : Prop :=
  match o with
  | Add m => m ∈ ms
  | Quorum q => max_replicas q <= L
  | _ => True
  end.

Record network_ok (L : Z) (ms : list NetworkMember) (id : NetworkID) (thing : ContentHash) (n : Network) : Prop := {
  ok_id : network_id n = id;
  ok_thing : thing_hash n = thing;
  ok_members : wf n;
  ok_size : len (members n) <= L;
  ok_quorum : max_replicas (quorum n) <= L;
  ok_scores : Forall (score_from ms) (members n);
  ok_pending : Forall (λ p, inv_network_id (invitation p) = id) (pending_invitations n)
}.

Lemma sublist_ok {L A id thing n} ms :
  network_ok L A id thing n → ms `sublist_of` members n →
  network_ok L A id thing (with_members ms n).
Proof.
  intros [H1 H2 H3 H4 H5 H6 H7] Hs. split; try done.
  - unfold wf in *. cbn. eapply sublist_NoDup; [exact H3|]. by apply fmap_sublist.
  - apply sublist_length in Hs. unfold len in *. cbn. lia.
  - cbn. rewrite list.Forall_forall in H6 |- *. intros m Hm. apply H6.
    by eapply elem_of_sublist.
Qed.

Lemma update_ok {L A id thing n} x f :
  (∀ m, node_id (f m) = node_id m) → (∀ m, score_from A m → score_from A (f m)) →
  network_ok L A id thing n → network_ok L A id thing (with_members (update_first x f (members n)) n).
Proof.
  intros Hf Hs [H1 H2 H3 H4 H5 H6 H7]. split; try done.
  - unfold wf in *. cbn. by rewrite update_first_ids.
  - unfold len in *. cbn. by rewrite length_update_first.
  - cbn. by apply update_first_Forall.
Qed.

Lemma add_ok {L A id thing n} m :
  score_from A m → network_ok L A id thing n → network_ok L A id thing (add_member m n).2.
Proof.
  intros Hm Hn. destruct (add_member_cases m n) as [(Hid & Hc & ->)|[_ ->]]; [|done].
  destruct Hn as [H1 H2 H3 H4 H5 H6 H7]. split; try done.
  - unfold wf in *. cbn. rewrite fmap_app. apply list.NoDup_app.
    split_and!; [done| |apply NoDup_singleton]. intros x Hx ->%list_elem_of_singleton. done.
  - unfold len in *. cbn. rewrite length_app. cbn. lia.
  - cbn. apply Forall_app. by split; [|constructor].
Qed.

Lemma new_member_score A id k r : score_from A (new_member id k r).
Proof. by left. Qed.

Lemma Forall_kept {A} (P Q : A → Prop) `{∀ x, Decision (Q x)} l :
  Forall P l → Forall P (filter Q l).
Proof. rewrite !list.Forall_forall. intros HP x [_ Hx]%list_elem_of_filter. by apply HP. Qed.

Lemma pending_ok {L A id thing n} ps :
  network_ok L A id thing n → Forall (λ p, inv_network_id (invitation p) = id) ps →
  network_ok L A id thing (with_pending ps n).
Proof. intros [H1 H2 H3 H4 H5 H6 H7] Hp. by split. Qed.

Lemma replica_ok {L A id thing n} x b :
  network_ok L A id thing n → network_ok L A id thing (mark_replica_complete x b n).
Proof. by apply update_ok. Qed.

Lemma replicas_ok {L A id thing} xs n :
  network_ok L A id thing n →
  network_ok L A id thing (foldl (λ n x, mark_replica_complete x false n) n xs).
Proof. revert n. induction xs as [|x xs IH]; intros n Hn; [done|]. by apply IH, replica_ok. Qed.

Lemma adjust_ok {L A id thing n} sort now :
  network_ok L A id thing n → network_ok L A id thing (adjust_redundancy sort now n).2.
Proof.
  intros Hn. assert (network_ok L A id thing (set_target (calculate_target_redundancy n) n)).
  { destruct Hn. split; assumption. }
  unfold adjust_redundancy. destruct (_ =? _); destruct (should_remove_replicas _ _); cbn;
    by try apply replicas_ok.
Qed.

Lemma step_ok {L A id thing n} o :
  op_ok L A o → network_ok L A id thing n → network_ok L A id thing (step o n).
Proof.
  intros Ho Hn. destruct o; cbn in Ho |- *.
  - apply add_ok; [right; by exists m|done].
  - unfold remove_member. destruct (_ =? _); [done|]. cbn. apply sublist_ok; [done|].
    apply sublist_filter.
  - unfold create_invitation. destruct (Ed25519.sign _ _); [|done..]. cbn. apply pending_ok; [done|].
    apply Forall_app. split; [by apply Hn|]. constructor; [|constructor]. by apply Hn.
  - unfold accept_invitation. destruct (negb _); [done|]. apply add_ok; [by left|done].
  - unfold reject_invitation. destruct (_ =? _); [done|]. cbn. apply pending_ok; [done|].
    apply Forall_kept, Hn.
  - apply pending_ok; [done|]. apply Forall_kept, Hn.
  - apply update_ok; [done| |done]. intros m _. left. exact (clamp_ok score).
  - by apply update_ok.
  - by apply replica_ok.
  - by apply adjust_ok.
  - destruct Hn. split; assumption.
Qed.

Lemma run_ok {L A id thing} ops n :
  Forall (op_ok L A) ops → network_ok L A id thing n → network_ok L A id thing (run ops n).
Proof.
  intros Ho. revert n. induction Ho as [|o ops Ho _ IH]; intros n Hn; [done|].
  by apply IH, step_ok.
Qed.

Lemma op_ok_offered ops : Forall (op_ok (capacity ops) (offered ops)) ops.
Proof.
  assert (∀ o L ms, op_ok L ms o → ∀ L' ms', L <= L' → ms ⊆ ms' → op_ok L' ms' o) as Hmono.
  { intros [] L ms Ho L' ms' HL Hms; cbn in *; try done; [by apply Hms|lia]. }
  induction ops as [|o ops IH]; [constructor|]. constructor.
  - destruct o; try done; cbn [op_ok]; [left|unfold capacity; cbn [foldr]; lia].
  - eapply list.Forall_impl; [exact IH|]. intros o' Ho'. eapply Hmono; [exact Ho'|..].
    + unfold capacity. cbn [foldr]. destruct o; lia.
    + destruct o; cbn; [|done..]. intros x Hx. by right.
Qed.

Lemma capacity_default ops : DEFAULT_MAX <= capacity ops.
Proof. unfold capacity. induction ops as [|[] ops IH]; cbn [foldr] in *; lia. Qed.

(** C18: whatever sequence of operations a network goes through, its identity stays,
    no node is a member twice, there are never more members than the largest capacity
    set, a score is between zero and one or no number unless it is that with which the
    member was offered to be added, and every pending invitation is for this network. *)
Theorem network_invariant id thing t ops :
  network_ok (capacity ops) (offered ops) id thing (run ops (new_network id thing t)).
Proof.
  pose proof (capacity_default ops). apply run_ok; [apply op_ok_offered|].
  split; cbn; [done|done|apply NoDup_nil_2|unfold len, DEFAULT_MAX in *; cbn; lia|done|constructor..].
Qed.

(** ** Invitations *)

(** Accepting an invitation, on every branch. *)
Lemma accept_invitation_exact i now n :
  let m := joined_at now (new_member (invitee_id i) (zeros 32) (proposed_role i)) in
  let may_join :=
    inv_network_id i = network_id n ∧ now <= expires_timestamp i ∧
    (∃ inviter, get_member (inviter_id i) n = Some inviter ∧
                public_key inviter = inviter_public_key i) ∧
    Ed25519.verify (invitation_to_bytes i) (inv_signature i) (inviter_public_key i) = true ∧
    get_member (invitee_id i) n = None ∧ len (members n) < max_replicas (quorum n) in
  (may_join ∧ accept_invitation i now n = (true, with_members (members n ++ [m]) n)) ∨
  (¬ may_join ∧ accept_invitation i now n = (false, n)).
Proof.
  cbv zeta. unfold accept_invitation, verify_invitation.
  destruct (bool_decide (inv_network_id i = network_id n)) eqn:E1; bool_to_prop; cbn [negb];
    [|right; split; [by intros [? _]|done]].
  destruct (expires_timestamp i <? now) eqn:E2; bool_to_prop; cbn [negb];
    [right; split; [intros (_ & ? & _); lia|done]|].
  destruct (get_member (inviter_id i) n) as [inviter|] eqn:E3; cbn [negb];
    [|right; split; [by intros (_ & _ & (? & ? & _) & _)|done]].
  destruct (bool_decide (public_key inviter = _)) eqn:E4; bool_to_prop; cbn [negb];
    [|right; split; [by intros (_ & _ & (? & [= <-] & ?) & _)|done]].
  destruct (Ed25519.verify _ _ _) eqn:E5; cbn [negb];
    [|right; split; [by intros (_ & _ & _ & ? & _)|done]].
  set (m := joined_at _ _).
  destruct (add_member_cases m n) as [(Hid & Hc & ->)|[Hn ->]]; [left|right].
  - split; [|done]. split_and!; [done|lia|by exists inviter|done|by apply get_member_none|done].
  - split; [|done]. intros (_ & _ & _ & _ & Hg%get_member_none & Hl).
    destruct Hn as [Hn|Hn]; [done|lia].
Qed.

(** The list of pending invitations plays no part in accepting one. *)
Lemma accept_ignores_pending ps i now n :
  accept_invitation i now (with_pending ps n) =
  ((accept_invitation i now n).1, with_pending ps (accept_invitation i now n).2).
Proof.
  unfold accept_invitation, verify_invitation, get_member, add_member. cbn [members network_id quorum with_pending].
  destruct (negb (bool_decide _)); [done|]. destruct (_ <? _); [done|].
  destruct (List.find _ _); [|done]. destruct (negb (bool_decide _)); [done|].
  destruct (Ed25519.verify _ _ _); [|done]. cbn [negb].
  destruct (existsb _ _); [done|]. by destruct (at_capacity _ _).
Qed.

Lemma reject_pending i n : ∃ ps, (reject_invitation i n).2 = with_pending ps n.
Proof.
  unfold reject_invitation. destruct (_ =? _); cbn; [|by eexists].
  exists (pending_invitations n). by destruct n.
Qed.

Lemma reject_still_acceptable i j now n :
  (accept_invitation i now (reject_invitation j n).2).1 = (accept_invitation i now n).1.
Proof. destruct (reject_pending j n) as [ps ->]. by rewrite accept_ignores_pending. Qed.

Lemma get_member_snoc m n :
  get_member (node_id m) n = None →
  get_member (node_id m) (with_members (members n ++ [m]) n) = Some m.
Proof.
  unfold get_member. cbn [members with_members]. intros Hn. induction (members n) as [|x ms IH]; cbn in *.
  - by rewrite bool_decide_eq_true_2.
  - destruct (bool_decide (node_id x = node_id m)); [done|auto].
Qed.

(** Nobody can invite as a member whose recorded key is not theirs. *)
Lemma wrong_key_cannot_invite i now n m :
  get_member (inviter_id i) n = Some m → public_key m ≠ inviter_public_key i →
  verify_invitation i now n = false.
Proof.
  intros Hg Hk. unfold verify_invitation. destruct (negb _); [done|]. destruct (_ <? _); [done|].
  rewrite Hg. by rewrite bool_decide_eq_false_2.
Qed.

(** An invitation a member makes with its own key admits the invitee until it expires, as
    long as there is room; it stays pending and is admitted even after a rejection, and
    the node that joined has the zero key on record, so no invitation of its own under its
    real key is ever accepted. *)
Theorem invitation_lifecycle `{!SignatureLaws} n inviter invitee sk r valid now now' m i n' :
  let pk := crypto_sign_sk_to_pk sk in
  genuine_secret sk → get_member inviter n = Some m → public_key m = pk →
  get_member invitee n = None → len (members n) < max_replicas (quorum n) →
  now' <= u64 (now + valid) →
  create_invitation inviter invitee pk sk r valid now n = Ok (i, n') →
  let '(joined, n1) := accept_invitation i now' n' in
  joined = true ∧
  n1 = with_members (members n' ++ [joined_at now' (new_member invitee (zeros 32) r)]) n' ∧
  (∃ p, p ∈ pending_invitations n1 ∧ invitation p = i) ∧
  (∀ j, (accept_invitation i now' (reject_invitation j n').2).1 = true) ∧
  (∀ j t, inviter_id j = invitee → inviter_public_key j ≠ zeros 32 → verify_invitation j t n1 = false).
Proof.
  intros pk Hgen Hg Hk Hi Hl Ht. unfold create_invitation, mbind, outcome_bind.
  destruct (Ed25519.sign _ _) as [sg| |] eqn:Hs; [|done..]. cbv iota beta zeta. intros [= <- <-].
  set (i := MkNetworkInvitation _ _ _ _ _ _ _). set (n' := with_pending _ n).
  destruct (accept_invitation_exact i now' n') as [[Hm Ha]|[Hm _]].
  - pose proof (λ j, reject_still_acceptable i j now' n') as Hr. rewrite Ha in Hr |- *.
    split_and!; [done|done| |done|].
    + exists (MkPendingInvitation i now). split; [|done]. cbn. set_solver.
    + intros j t Hj Hjk. eapply wrong_key_cannot_invite; [|].
      * rewrite Hj.
        apply (get_member_snoc (joined_at now' (new_member invitee (zeros 32) r)) n'), Hi.
      * cbn. congruence.
  - destruct Hm. split_and!; [done|done|by exists m| |done|done].
    unfold Ed25519.sign in Hs. destruct (crypto_sign_detached _ _) eqn:E; [|done].
    injection Hs as <-. by apply verify_sign in E.
Qed.

End networks.

(** ** Redundancy *)

Definition replicas (now : Z) (ms : list NetworkMember) : Z :=
  len (filter (λ m, is_active_replica now m = true) ms).

Lemma replicas_nonneg now ms : 0 <= replicas now ms.
Proof. apply len_nonneg. Qed.

Lemma replicas_bound now ms : replicas now ms <= len ms.
Proof. unfold replicas, len. pose proof (length_filter (λ m, is_active_replica now m = true) ms). lia. Qed.

(** Taking the mark off one member costs one replica at most. *)
Lemma replicas_unmark now id ms :
  replicas now ms - 1 <= replicas now (update_first id (with_replica false) ms) <= replicas now ms.
Proof.
  unfold replicas, len. induction ms as [|m ms IH]; cbn [update_first]; [done|].
  destruct (decide (node_id m = id)); rewrite !filter_cons.
  - rewrite (decide_False (P := is_active_replica now (with_replica false m) = true)) by done.
    destruct (decide _); cbn [length]; lia.
  - destruct (decide (is_active_replica now m = true)); cbn [length]; lia.
Qed.

Lemma replicas_unmark_all now ids n :
  replicas now (members n) - len ids <=
  replicas now (members (foldl (λ n id, mark_replica_complete id false n) n ids)) <=
  replicas now (members n).
Proof.
  revert n. induction ids as [|id ids IH]; intros n; [unfold len; cbn; lia|].
  cbn [foldl]. specialize (IH (mark_replica_complete id false n)).
  pose proof (replicas_unmark now id (members n)). rewrite len_cons. cbn [members mark_replica_complete with_members] in *.
  unfold mark_replica_complete in *. cbn [members with_members] in *. lia.
Qed.

(** Members not named keep their record. *)
Lemma unmark_other m ids n :
  m ∈ members n → node_id m ∉ ids →
  m ∈ members (foldl (λ n id, mark_replica_complete id false n) n ids).
Proof.
  revert n. induction ids as [|id ids IH]; intros n Hm Hid; [done|]. cbn [foldl].
  apply not_elem_of_cons in Hid as [Hid Hids]. apply IH; [|done].
  cbn. by apply update_first_other.
Qed.

Lemma unmark_quorum ids n :
  quorum (foldl (λ n id, mark_replica_complete id false n) n ids) = quorum n.
Proof. revert n. induction ids as [|id ids IH]; intros n; [done|]. cbn [foldl]. by rewrite IH. Qed.

Lemma selected_length sort now n :
  let current := active_replica_count now n in
  in_u 64 current → in_u 64 (min_replicas (quorum n)) →
  target_replicas (quorum n) <= current ->
  let chosen := len (select_nodes_for_removal sort now n) in
  chosen <= current - target_replicas (quorum n) ∧
  (min_replicas (quorum n) <= current → chosen <= current - min_replicas (quorum n)).
Proof.
  intros current Hc Hm Ht chosen. subst chosen. unfold select_nodes_for_removal. fold current.
  destruct (current <=? _) eqn:E; bool_to_prop; [unfold len; cbn; lia|].
  match goal with |- context [take ?k ?l] => set (k' := k); set (l' := l) end.
  assert (len (filter (λ p, fltb (of_bits p.2) MIN_RELIABILITY_SCORE = true) (take k' l')).*1 <= Z.of_nat k').
  { unfold len. rewrite length_fmap. apply inj_le. etransitivity; [apply length_filter|].
    apply firstn_le_length. }
  destruct (wrap_range 64 (current - min_replicas (quorum n)) ltac:(lia)) as [Hw _].
  subst k'. rewrite Z2Nat.id in * by lia. split; [lia|]. intros Hmc.
  rewrite (wrap_small 64 (current - min_replicas (quorum n))) in * by (unfold in_u in *; lia). lia.
Qed.

Lemma adjust_network sort now n :
  let n0 := set_target (calculate_target_redundancy n) n in
  (adjust_redundancy sort now n).2 =
  if should_remove_replicas now n0 then
    foldl (λ n id, mark_replica_complete id false n) n0 (select_nodes_for_removal sort now n0)
  else n0.
Proof.
  intros n0. unfold adjust_redundancy. destruct (target_replicas (quorum n) =? _) eqn:E; bool_to_prop.
  - assert (n0 = n) as ->; [|by destruct (should_remove_replicas now n)].
    unfold n0. rewrite <- E. destruct n as [? ? ? [] ? ?]. done.
  - fold n0. by destruct (should_remove_replicas now n0).
Qed.

Lemma health_critical now n :
  get_health now n = CRITICAL ↔ active_replica_count now n < min_replicas (quorum n).
Proof.
  unfold get_health. destruct (_ <? min_replicas _) eqn:E; bool_to_prop; [done|].
  destruct (_ <? target_replicas _); [split; [done|lia]|]. destruct (_ =? _); [|split; [done|lia]].
  destruct (existsb _ _); (split; [done|lia]).
Qed.

Lemma target_range n : 0 <= calculate_target_redundancy n <= DEFAULT_MAX.
Proof.
  unfold calculate_target_redundancy, DEFAULT_MAX, DEFAULT_TARGET. pose proof (len_nonneg (members n)).
  destruct (_ <=? 3) eqn:E; bool_to_prop; [lia|]. destruct (_ <=? 10) eqn:E2; bool_to_prop; [lia|].
  pose proof (Z.div_pos (len (members n) - 10) 5 ltac:(lia) ltac:(lia)). lia.
Qed.

Lemma NoDup_fmap_eq {A B} (f : A → B) l x y : NoDup (f <$> l) → x ∈ l → y ∈ l → f x = f y → x = y.
Proof.
  induction l as [|z l IH]; [set_solver|]. rewrite fmap_cons. intros [Hz Hl]%list.NoDup_cons Hx Hy Hf.
  apply elem_of_cons in Hx as [->|Hx]; apply elem_of_cons in Hy as [->|Hy].
  - done.
  - destruct Hz. rewrite Hf. by apply list_elem_of_fmap_2.
  - destruct Hz. rewrite <- Hf. by apply list_elem_of_fmap_2.
  - by apply IH.
Qed.

(** Only unreliable members are chosen. *)
Lemma selected_unreliable sort now n id :
  (∀ l, sort l ≡ₚ l) → id ∈ select_nodes_for_removal sort now n →
  ∃ m, m ∈ members n ∧ node_id m = id ∧ unreliable m = true.
Proof.
  intros Hs. unfold select_nodes_for_removal. destruct (_ <=? _); [by intros ?%elem_of_nil|].
  intros ([id' s] & -> & [Hf Hp]%list_elem_of_filter)%list_elem_of_fmap. cbn in *.
  apply subseteq_take in Hp. rewrite Hs in Hp.
  apply list_elem_of_fmap in Hp as (m & [= -> ->] & [_ Hm]%list_elem_of_filter). by exists m.
Qed.

(** Adjusting redundancy sets the target computed from the number of members, drops no
    active replica below the smaller of that target and what there was, never makes a
    network critical, and takes the replica mark from no reliable member. *)
Theorem adjust_redundancy_safe sort now n :
  in_u 64 (active_replica_count now n) → in_u 64 (min_replicas (quorum n)) →
  let '(changed, n') := adjust_redundancy sort now n in
  let target := calculate_target_redundancy n in
  let before := active_replica_count now n in
  let after := active_replica_count now n' in
  quorum n' = MkNetworkQuorum (min_replicas (quorum n)) target (max_replicas (quorum n)) ∧
  0 <= target <= DEFAULT_MAX ∧ Z.min target before <= after <= before ∧
  (get_health now n ≠ CRITICAL → get_health now n' ≠ CRITICAL) ∧
  ((∀ l, sort l ≡ₚ l) → wf n → ∀ m, m ∈ members n → unreliable m = false → m ∈ members n').
Proof.
  intros Hb Hm. destruct (adjust_redundancy sort now n) as [changed n'] eqn:E.
  assert (n' = (adjust_redundancy sort now n).2) as Hn by by rewrite E.
  rewrite adjust_network in Hn. clear E. cbv zeta in Hn |- *.
  set (n0 := set_target _ n) in *. rewrite !health_critical.
  change (active_replica_count now n) with (active_replica_count now n0) in Hb |- *.
  destruct (should_remove_replicas now n0) eqn:Er; subst n'.
  2:{ split_and!; [done|apply target_range..|lia|lia|done|done]. }
  assert (target_replicas (quorum n0) <= active_replica_count now n0) as Ht.
  { unfold should_remove_replicas in Er. destruct (_ <=? _) eqn:E; [done|]. bool_to_prop. lia. }
  destruct (selected_length sort now n0 Hb Hm Ht) as [H1 H2].
  pose proof (replicas_unmark_all now (select_nodes_for_removal sort now n0) n0) as H3.
  rewrite !unmark_quorum. unfold active_replica_count in *. fold (replicas now (members n0)) in *.
  match goal with |- context [len (filter ?P (members ?n1))] => fold (replicas now (members n1)) end.
  change (target_replicas (quorum n0)) with (calculate_target_redundancy n) in *.
  change (quorum n0) with (MkNetworkQuorum (min_replicas (quorum n)) (calculate_target_redundancy n)
                             (max_replicas (quorum n))) in *. cbn [min_replicas] in *.
  split_and!; [done|apply target_range..|lia|lia|lia|].
  intros Hs Hw m Hmem Hu. apply unmark_other; [done|].
  intros (m' & Hm' & Hid & Hu')%(selected_unreliable _ _ _ _ Hs).
  assert (m' = m) as -> by by eapply NoDup_fmap_eq. congruence.
Qed.

(** ** A concrete network *)

Module Sample.

#[local] Existing Instance toy_crypto.
#[local] Existing Instance toy_laws.

Definition member (b : Z) (complete : bool) (seen score : Z) : NetworkMember :=
  MkNetworkMember (toy_digest 32 [to_byte b]) (zeros 32) FULL 1 seen complete score.

(** Half and a quarter, as bits. *)
Definition HALF_BITS : Z := 126 * 2 ^ 23.
Definition QUARTER_BITS : Z := 125 * 2 ^ 23.

Definition net : Network :=
  MkNetwork (toy_digest 32 []) (zeros 32)
    [member 1 true 990 ONE_BITS; member 2 true 990 QUARTER_BITS; member 3 true 990 HALF_BITS;
     member 4 true 990 QUARTER_BITS; member 5 true 990 ONE_BITS; member 6 true 990 ONE_BITS]
    (MkNetworkQuorum 2 4 10) 7 [].

Definition secret : SecretKey := toy_digest 64 [to_byte 9].

Definition founder : NetworkMember :=
  new_member (toy_digest 32 [to_byte 8]) (toy_public secret) FOUNDER.

Definition founded : Network := (add_member founder (new_network (zeros 32) (zeros 32) 5)).2.

(** Scores that are not negative order as their bits. *)
Definition by_bits (p q : NodeID * Z) : Prop := p.2 <= q.2.

#[global] Instance by_bits_dec : RelDecision by_bits.
Proof. intros p q. unfold by_bits. apply _. Defined.

End Sample.

Lemma invitation_lifecycle_witness :
  match create_invitation (H := toy_crypto) (node_id Sample.founder) (toy_digest 32 [to_byte 3])
          (toy_public Sample.secret) Sample.secret FULL 40 50 Sample.founded with
  | Ok (i, n') => (accept_invitation (H := toy_crypto) i 60 n').1 = true
  | _ => False
  end.
Proof.
  destruct (create_invitation _ _ _ _ _ _ _ _) as [[i n']| |] eqn:E; [|discriminate E..].
  pose proof (invitation_lifecycle (H := toy_crypto) (H0 := toy_laws) Sample.founded
    (node_id Sample.founder) (toy_digest 32 [to_byte 3]) Sample.secret FULL 40 50 60 Sample.founder
    i n' I ltac:(vm_compute; reflexivity) ltac:(reflexivity) ltac:(vm_compute; reflexivity)
    ltac:(vm_compute; reflexivity) ltac:(vm_compute; discriminate) E) as Hl.
  destruct (accept_invitation i 60 n') as [joined n1]. destruct Hl as (-> & _). reflexivity.
Defined.

Lemma adjust_redundancy_safe_witness :
  let n' := (adjust_redundancy (merge_sort Sample.by_bits) 1000 Sample.net).2 in
  5 <= active_replica_count 1000 n' <= 6.
Proof.
  pose proof (adjust_redundancy_safe (merge_sort Sample.by_bits) 1000 Sample.net
    ltac:(vm_compute; split; [discriminate|reflexivity])
    ltac:(vm_compute; split; [discriminate|reflexivity])) as Hs.
  destruct (adjust_redundancy _ 1000 Sample.net) as [changed n']. destruct Hs as (_ & _ & Hs & _).
  exact Hs.
Defined.
