(* ===== verification/Registry.v ===== *)
(** The networks a node is part of: [NetworkRegistry] of src/network/network.hpp
    and network.cpp.

    A directory is a map from the names of its readable regular files to their
    contents, or [None] when it does not exist.  The order of
    [std::filesystem::directory_iterator] is unspecified: the listing of a
    directory is an argument.  What becomes of each write is an argument too. *)

From Stdlib Require Import Strings.Byte.
From S2P Require Import Prelude Reader Common Crypto Network.

Record NetworkRegistry := MkNetworkRegistry {
  networks : list Network;
  next_network_counter : Z
}.

Definition empty_registry : NetworkRegistry := MkNetworkRegistry [] 0.

Definition with_networks (ns : list Network) (r : NetworkRegistry) : NetworkRegistry :=
  MkNetworkRegistry ns (next_network_counter r).

(** ** Networks *)

Definition create_network `{Crypto} (thing : ContentHash) (ticks : Z) (r : NetworkRegistry) :
    NetworkID * NetworkRegistry :=
  let id := blake3 (arr thing ++ le_bytes 8 (next_network_counter r)) in
  (id, MkNetworkRegistry (networks r ++ [new_network id thing ticks])
         (u64 (next_network_counter r + 1))).

Definition add_network (n : Network) (r : NetworkRegistry) : bool * NetworkRegistry :=
  if existsb (λ m, bool_decide (network_id m = network_id n)) (networks r) then (false, r)
  else (true, with_networks (networks r ++ [n]) r).

Definition remove_network (id : NetworkID) (r : NetworkRegistry) : bool * NetworkRegistry :=
  let kept := filter (λ n, network_id n ≠ id) (networks r) in
  if len kept =? len (networks r) then (false, r) else (true, with_networks kept r).

Definition get_network (id : NetworkID) (r : NetworkRegistry) : option Network :=
  List.find (λ n, bool_decide (network_id n = id)) (networks r).

Definition get_all_networks (r : NetworkRegistry) : list Network := networks r.

Definition get_networks_for_thing (thing : ContentHash) (r : NetworkRegistry) : list Network :=
  filter (λ n, thing_hash n = thing) (networks r).

Definition is_member_of (id : NetworkID) (r : NetworkRegistry) : bool :=
  match get_network id r with Some _ => true | None => false end.

Definition get_joined_networks (r : NetworkRegistry) : list NetworkID := network_id <$> networks r.

Definition healthy_network_count (now : Z) (r : NetworkRegistry) : Z :=
  len (filter (λ n, is_healthy now n = true) (networks r)).

Definition total_network_count (r : NetworkRegistry) : Z := len (networks r).

(** ** Files *)

Abbreviation directory := (gmap bytes bytes).

(** What becomes of a file that is opened and written: all of it, nothing
    (it cannot be opened), or some other contents. *)
Inductive write_result := Written | NotOpened | Partial (contents : bytes).

Definition network_file_name (id : NetworkID) : bytes := hash_to_hex id ++ str ".bin".

(** One iteration of [save_to_disk]. *)
Definition save_network (write : bytes → write_result) (acc : bool * directory) (n : Network) :
    bool * directory :=
  let '(all_ok, dir) := acc in
  let file := network_file_name (network_id n) in
  match write file with
  | Written => (all_ok, <[file := serialize n]> dir)
  | NotOpened => (false, dir)
  | Partial contents => (false, <[file := contents]> dir)
  end.

(** [created] tells whether the directory exists after [create_directories]. *)
Definition save_to_disk (created : bool) (write : bytes → write_result) (dir : option directory)
    (r : NetworkRegistry) : bool * option directory :=
  if negb created then (false, dir)
  else
    let '(all_ok, dir) := foldl (save_network write) (true, default ∅ dir) (networks r) in
    (all_ok, Some dir).

(** [path.extension() == ".bin"]: a name that is only the extension has none. *)
Definition has_bin_extension (name : bytes) : bool :=
  (4 <? len name) && bool_decide (drop (length name - 4) name = str ".bin").

Definition read_network (entry : bytes * bytes) : option Network :=
  if negb (has_bin_extension entry.1) then None
  else if len entry.2 =? 0 then None
  else deserialize entry.2.

Definition load_from_disk (listing : directory → list (bytes * bytes)) (dir : option directory)
    (r : NetworkRegistry) : bool * NetworkRegistry :=
  match dir with
  | None => (true, r)
  | Some dir => (true, with_networks (omap read_network (listing dir)) r)
  end.

(** ** Identifiers and file names *)

Definition wf (r : NetworkRegistry) : Prop := NoDup (network_id <$> networks r).

Lemma network_file_name_inj id1 id2 : network_file_name id1 = network_file_name id2 → id1 = id2.
Proof.
  intros H%app_inj_1; [by apply hash_to_hex_inj, H|]. by rewrite !length_hash_to_hex.
Qed.

Lemma network_file_name_bin id : has_bin_extension (network_file_name id) = true.
Proof.
  unfold has_bin_extension, network_file_name, len. rewrite length_app, length_hash_to_hex.
  change (64 + length (str ".bin") - 4)%nat with 64%nat.
  by rewrite drop_app_length' by by rewrite length_hash_to_hex.
Qed.

Lemma file_names_distinct ns :
  NoDup (network_id <$> ns) → NoDup ((λ n, network_file_name (network_id n)) <$> ns).
Proof.
  intros Hd. replace ((λ n, network_file_name (network_id n)) <$> ns)
    with (network_file_name <$> (network_id <$> ns)) by by rewrite <- list_fmap_compose.
  apply NoDup_fmap_2; [|done]. intros x y. apply network_file_name_inj.
Qed.

Lemma add_network_wf n r : wf r → wf (add_network n r).2.
Proof.
  intros Hr. unfold add_network. destruct (existsb _ _) eqn:E; [done|].
  unfold wf in *. cbn. rewrite fmap_app. apply list.NoDup_app.
  split_and!; [done| |apply NoDup_singleton]. intros x Hx ->%list_elem_of_singleton.
  apply list_elem_of_fmap in Hx as (m & Hm & Hin). apply not_true_iff_false in E. apply E.
  apply existsb_exists. exists m. split; [by apply list_elem_of_In|]. by apply bool_decide_eq_true_2.
Qed.

Lemma remove_network_wf id r : wf r → wf (remove_network id r).2.
Proof.
  intros Hr. unfold remove_network. destruct (_ =? _); [done|]. unfold wf in *. cbn.
  eapply sublist_NoDup; [exact Hr|]. apply fmap_sublist, sublist_filter.
Qed.

Lemma get_network_spec id r n :
  wf r → get_network id r = Some n ↔ n ∈ networks r ∧ network_id n = id.
Proof.
  intros Hr. unfold get_network. split.
  - intros [Hn Hd]%List.find_some. bool_to_prop. by rewrite list_elem_of_In.
  - intros [Hn Hd]. destruct (List.find _ _) as [m|] eqn:E.
    + apply List.find_some in E as [Hm E]. bool_to_prop. f_equal.
      apply (NoDup_fmap_eq network_id (networks r)); [done|by apply list_elem_of_In|done|congruence].
    + apply list_elem_of_In, (List.find_none _ _ E) in Hn. by apply bool_decide_eq_false in Hn.
Qed.

Lemma get_network_perm id r r' :
  wf r → networks r' ≡ₚ networks r → get_network id r' = get_network id r.
Proof.
  intros Hr Hp. assert (wf r') as Hr' by (unfold wf; by rewrite Hp).
  destruct (get_network id r) as [n|] eqn:E.
  - apply get_network_spec in E; [|done]. apply get_network_spec; [done|]. by rewrite Hp.
  - destruct (get_network id r') as [n|] eqn:E'; [|done].
    apply get_network_spec in E'; [|done]. rewrite Hp in E'.
    apply (get_network_spec id r n Hr) in E'. congruence.
Qed.

(** ** Saving and loading *)

Definition file_of (n : Network) : bytes * bytes := (network_file_name (network_id n), serialize n).

Lemma save_networks (write : bytes → write_result) (ns : list Network) (ok : bool) (dir : directory) :
  (∀ f, write f = Written) → NoDup (file_of <$> ns).*1 →
  foldl (save_network write) (ok, dir) ns = (ok, list_to_map (file_of <$> ns) ∪ dir).
Proof.
  intros Hw. revert dir. induction ns as [|n ns IH]; intros dir Hd; cbn.
  - by rewrite map_empty_union.
  - cbn in Hd. apply list.NoDup_cons in Hd as [Hn Hd]. rewrite Hw, IH by done. f_equal.
    apply not_elem_of_list_to_map_1 in Hn.
    by rewrite <- insert_union_r, insert_union_l.
Qed.

(** The entries of a map laid over another. *)
Lemma union_entries (l : list (bytes * bytes)) (dir : directory) :
  NoDup l.*1 →
  map_to_list (list_to_map l ∪ dir) ≡ₚ l ++ filter (λ e, e.1 ∉ l.*1) (map_to_list dir).
Proof.
  intros Hd. apply NoDup_Permutation.
  - apply NoDup_map_to_list.
  - apply list.NoDup_app. split_and!; [by eapply NoDup_fmap_1| |apply list.NoDup_filter, NoDup_map_to_list].
    intros e He [Hn _]%list_elem_of_filter. by apply Hn, list_elem_of_fmap_2.
  - intros [i x]. rewrite elem_of_map_to_list, lookup_union_Some_raw, elem_of_app, list_elem_of_filter,
      elem_of_map_to_list, <- (elem_of_list_to_map l i x) by done.
    by rewrite not_elem_of_list_to_map.
Qed.

Definition storable (n : Network) : Prop := network_encodable n ∧ vector_fits (serialize n).

Lemma read_file_of n : storable n → read_network (file_of n) = Some n.
Proof.
  intros [He Hf]. unfold read_network, file_of. cbn [fst snd]. rewrite network_file_name_bin. cbn [negb].
  assert (0 < len (serialize n)).
  { unfold serialize, len at 1. rewrite length_app. change (length magic) with 4%nat. lia. }
  rewrite (proj2 (Z.eqb_neq (len (serialize n)) 0)) by lia.
  rewrite <- (app_nil_r (serialize n)). apply deserialize_serialize_network; [done|].
  by rewrite app_nil_r.
Qed.

Lemma read_files ns : Forall storable ns → omap read_network (file_of <$> ns) = ns.
Proof. induction 1 as [|n ns Hn _ IH]; [done|]. cbn. by rewrite read_file_of, IH. Qed.

(** What the other files of a directory hold. *)
Definition leftovers (ns : list Network) (dir : directory) : list Network :=
  omap read_network (filter (λ e, e.1 ∉ (file_of <$> ns).*1) (map_to_list dir)).

Lemma registry_saved (write : bytes → write_result) dir r :
  (∀ f, write f = Written) → wf r →
  save_to_disk true write dir r = (true, Some (list_to_map (file_of <$> networks r) ∪ default ∅ dir)).
Proof.
  intros Hw Hd. unfold save_to_disk. cbn [negb]. rewrite save_networks; [done|done|].
  rewrite <- list_fmap_compose. by apply file_names_distinct.
Qed.

Lemma registry_loaded (listing : directory → list (bytes * bytes)) (dir : directory) r r0 :
  (∀ d : directory, listing d ≡ₚ map_to_list d) → wf r → Forall storable (networks r) →
  networks (load_from_disk listing (Some (list_to_map (file_of <$> networks r) ∪ dir)) r0).2 ≡ₚ
  networks r ++ leftovers (networks r) dir.
Proof.
  intros Hl Hd Hs. cbn. rewrite Hl, union_entries, omap_app, read_files; [done|done|].
  rewrite <- list_fmap_compose. by apply file_names_distinct.
Qed.

(** Saving a registry and loading the directory gives back its networks and whatever other
    readable files the directory held, and every lookup into a fresh directory answers as
    before; no file is read out of bounds. *)
Theorem registry_persistence (write : bytes → write_result) (listing : directory → list (bytes * bytes)) dir r r0 :
  (∀ f, write f = Written) → (∀ d : directory, listing d ≡ₚ map_to_list d) →
  wf r → Forall storable (networks r) →
  let '(saved, dir') := save_to_disk true write dir r in
  let '(loaded, r') := load_from_disk listing dir' r0 in
  saved = true ∧ loaded = true ∧ next_network_counter r' = next_network_counter r0 ∧
  networks r' ≡ₚ networks r ++ leftovers (networks r) (default ∅ dir) ∧
  (dir = None → ∀ id, get_network id r' = get_network id r) ∧
  (∀ d, vector_fits d → run_reader (network_reader 64) d ≠ Undef).
Proof.
  intros Hw Hl Hd Hs. rewrite registry_saved by done.
  pose proof (registry_loaded listing (default ∅ dir) r r0 Hl Hd Hs) as Hp.
  destruct (load_from_disk _ _ _) as [loaded r'] eqn:E. injection E as <- <-.
  split_and!; [done..| |apply deserialize_stays_inside]. intros -> id. apply get_network_perm; [done|].
  rewrite Hp. unfold leftovers. cbn [default]. rewrite map_to_list_empty. cbn. by rewrite app_nil_r.
Qed.

(** ** What a restart forgets *)

Lemma filter_same_length {A} (P : A → Prop) `{∀ x, Decision (P x)} l :
  length (filter P l) = length l → filter P l = l.
Proof.
  intros Hl. induction l as [|x l IH]; [done|]. rewrite filter_cons in Hl |- *.
  destruct (decide (P x)); [f_equal; apply IH; cbn in Hl; lia|].
  pose proof (length_filter P l). cbn in Hl. lia.
Qed.

Lemma remove_network_networks id r :
  networks (remove_network id r).2 = filter (λ m, network_id m ≠ id) (networks r).
Proof.
  unfold remove_network. destruct (_ =? _) eqn:E; [|done]. bool_to_prop. symmetry.
  apply filter_same_length. unfold len in E. by apply Nat2Z.inj.
Qed.

(** A file the registry no longer writes is still read. *)
Lemma removed_leftover (n : Network) (r : NetworkRegistry) (dir : directory) :
  wf r → n ∈ networks r → storable n →
  n ∈ leftovers (networks (remove_network (network_id n) r).2) (list_to_map (file_of <$> networks r) ∪ dir).
Proof.
  intros Hd Hn Hs. unfold leftovers. apply list_elem_of_omap. exists (file_of n).
  split; [|by apply read_file_of]. apply list_elem_of_filter. split.
  - rewrite remove_network_networks, <- list_fmap_compose.
    intros (m & Hf & [Hm _]%list_elem_of_filter)%list_elem_of_fmap.
    apply network_file_name_inj in Hf. congruence.
  - apply (elem_of_map_to_list (list_to_map (file_of <$> networks r) ∪ dir : directory)).
    apply lookup_union_Some_l, elem_of_list_to_map_1; [|exact (list_elem_of_fmap_2 file_of _ _ Hn)].
    rewrite <- list_fmap_compose. by apply file_names_distinct.
Qed.

(** A network removed from a registry is back after the next save and load, since its file
    is never deleted; and since the counter is not saved, creating a network for the same
    thing after a restart gives the first identifier again, to two networks. *)
Theorem registry_restart `{Crypto} (write : bytes → write_result) (listing : directory → list (bytes * bytes)) dir
    (r r0 : NetworkRegistry) n thing t1 t2 :
  (∀ f, write f = Written) → (∀ d : directory, listing d ≡ₚ map_to_list d) →
  wf r → Forall storable (networks r) → n ∈ networks r →
  let dir1 := (save_to_disk true write dir r).2 in
  let removed := (remove_network (network_id n) r).2 in
  let dir2 := (save_to_disk true write dir1 removed).2 in
  let restarted := (load_from_disk listing dir2 r0).2 in
  get_network (network_id n) removed = None ∧ n ∈ networks restarted ∧
  (next_network_counter r0 = 0 → network_id n = (create_network thing t1 empty_registry).1 →
     ¬ wf (create_network thing t2 restarted).2).
Proof.
  intros Hw Hl Hd Hs Hn dir1 removed dir2 restarted.
  assert (wf removed) as Hdr by by apply remove_network_wf.
  assert (networks removed = filter (λ m, network_id m ≠ network_id n) (networks r)) as Hr
    by apply remove_network_networks.
  assert (Forall storable (networks removed)) as Hsr by (rewrite Hr; by apply Forall_kept).
  assert (n ∈ networks restarted) as Hin.
  { subst restarted dir2 dir1. rewrite !registry_saved by done. cbn [snd default].
    rewrite registry_loaded by done. apply elem_of_app. right. apply removed_leftover; [done..|].
    rewrite list.Forall_forall in Hs. by apply Hs. }
  split_and!; [|done|].
  - destruct (get_network _ removed) as [m|] eqn:E; [|done].
    apply get_network_spec in E as [Hm E]; [|done].
    rewrite Hr in Hm. by apply list_elem_of_filter in Hm as [Hm _].
  - intros Hc Hid Hwf. unfold wf, create_network in Hwf. cbn in Hwf.
    assert (next_network_counter restarted = 0) as Hc0.
    { rewrite <- Hc. subst restarted. by destruct dir2. }
    rewrite Hc0, fmap_app in Hwf. apply list.NoDup_app in Hwf as (_ & Hwf & _).
    apply (Hwf (network_id n)); [by apply list_elem_of_fmap_2|].
    rewrite Hid. cbn. by apply list_elem_of_singleton.
Qed.

(** ** A concrete registry *)

Module Sample.

Definition thing : ContentHash := zeros 32.

Definition one : NetworkRegistry := (create_network (H := toy_crypto) thing 7 empty_registry).2.

Definition net : Network :=
  new_network (create_network (H := toy_crypto) thing 7 empty_registry).1 thing 7.

Lemma one_wf : wf one.
Proof. apply NoDup_singleton. Qed.

Lemma one_storable : Forall storable (networks one).
Proof.
  constructor; [|constructor]. split; [|vm_compute; reflexivity].
  repeat first [split | constructor]; vm_compute; try discriminate; reflexivity.
Qed.

End Sample.

Lemma registry_persistence_witness :
  let '(saved, dir) := save_to_disk true (λ _, Written) None Sample.one in
  let '(loaded, r) := load_from_disk map_to_list dir empty_registry in
  get_network (network_id Sample.net) r = get_network (network_id Sample.net) Sample.one.
Proof.
  pose proof (registry_persistence (λ _, Written) map_to_list None Sample.one empty_registry
    (λ _, eq_refl) (λ _, reflexivity _) Sample.one_wf Sample.one_storable) as Hp.
  destruct (save_to_disk _ _ _ _) as [saved dir].
  destruct (load_from_disk _ _ _) as [loaded r]. destruct Hp as (_ & _ & _ & _ & Hp & _).
  exact (Hp eq_refl _).
Defined.

Lemma registry_restart_witness :
  let dir := (save_to_disk true (λ _, Written) None Sample.one).2 in
  ¬ wf (create_network (H := toy_crypto) Sample.thing 9
          (load_from_disk map_to_list
             (save_to_disk true (λ _, Written) dir
                (remove_network (network_id Sample.net) Sample.one).2).2 empty_registry).2).2.
Proof.
  exact (proj2 (proj2 (registry_restart (H := toy_crypto) (λ _, Written) map_to_list None Sample.one
    empty_registry Sample.net Sample.thing 7 9 (λ _, eq_refl) (λ _, reflexivity _) Sample.one_wf
    Sample.one_storable (list_elem_of_here _ _))) eq_refl eq_refl).
Defined.
