(* ===== verification/Replication.v ===== *)
(** The replication queue: [ReplicationCoordinator] of src/network/network.hpp
    and network.cpp.

    Jobs are kept in one vector, sorted (stably) when one is added or revived.
    The clock counts nanoseconds ([ticks]).  The abstract view is a waiting line,
    most urgent first and in order of arrival among equals, and the bag of jobs
    that run. *)

From S2P Require Import Prelude Common Floats Network.

(** ** Jobs *)

Record ReplicationRequest := MkReplicationRequest {
  rq_network_id : NetworkID;
  rq_thing_hash : ContentHash;
  source_node : NodeID;
  target_node : NodeID;
  request_timestamp : Z;
  priority : Z
}.

Inductive ReplicationStatus := PENDING | IN_PROGRESS | VERIFYING | COMPLETED | FAILED | CANCELLED.

#[export] Instance ReplicationStatus_eq_dec : EqDecision ReplicationStatus.
Proof. solve_decision. Defined.

Record ReplicationJob := MkReplicationJob {
  request : ReplicationRequest;
  status : ReplicationStatus;
  started_timestamp : Z;
  completed_timestamp : Z;
  bytes_transferred : Z;
  error_message : bytes;
  retry_count : Z
}.

(** [jobs_] *)
Abbreviation ReplicationCoordinator := (list ReplicationJob).

Definition MAX_CONCURRENT_JOBS : Z := 5.

Definition new_job (r : ReplicationRequest) : ReplicationJob :=
  MkReplicationJob r PENDING 0 0 0 [] 0.

Definition cancelled (j : ReplicationJob) : ReplicationJob :=
  MkReplicationJob (request j) CANCELLED (started_timestamp j) (completed_timestamp j)
    (bytes_transferred j) (error_message j) (retry_count j).

Definition started (ticks : Z) (j : ReplicationJob) : ReplicationJob :=
  MkReplicationJob (request j) IN_PROGRESS ticks (completed_timestamp j) (bytes_transferred j)
    (error_message j) (retry_count j).

Definition completed (success : bool) (error : bytes) (ticks : Z) (j : ReplicationJob) :
    ReplicationJob :=
  MkReplicationJob (request j) (if success then COMPLETED else FAILED) (started_timestamp j) ticks
    (bytes_transferred j) error (retry_count j).

Definition revived (j : ReplicationJob) : ReplicationJob :=
  MkReplicationJob (request j) PENDING (started_timestamp j) (completed_timestamp j)
    (bytes_transferred j) [] (u32 (retry_count j + 1)).

(** What identifies a job: the network and the node to copy to. *)
Definition key (r : ReplicationRequest) : NetworkID * NodeID := (rq_network_id r, target_node r).

Definition is_status (s : ReplicationStatus) (j : ReplicationJob) : Prop := status j = s.

Definition live (j : ReplicationJob) : Prop := status j = PENDING ∨ status j = IN_PROGRESS.

#[export] Instance is_status_dec s j : Decision (is_status s j).
Proof. unfold is_status. apply _. Defined.

#[export] Instance live_dec j : Decision (live j).
Proof. unfold live. apply _. Defined.

(** ** The operations *)

(** The comparison of [prioritize_jobs]: does [a] go before [b]? *)
Definition before (a b : ReplicationJob) : bool :=
  if bool_decide (status a = PENDING) && negb (bool_decide (status b = PENDING)) then true
  else if bool_decide (status b = PENDING) && negb (bool_decide (status a = PENDING)) then false
  else priority (request b) <? priority (request a).

(** [std::stable_sort] by insertion: [x] stays ahead of its equals behind it. *)
Fixpoint insert_by {A} (lt : A → A → bool) (x : A) (l : list A) : list A :=
  match l with
  | [] => [x]
  | y :: l => if lt y x then y :: insert_by lt x l else x :: y :: l
  end.

Definition stable_sort {A} (lt : A → A → bool) (l : list A) : list A := foldr (insert_by lt) [] l.

Definition prioritize_jobs (jobs : ReplicationCoordinator) : ReplicationCoordinator :=
  stable_sort before jobs.

Definition request_replication (r : ReplicationRequest) (jobs : ReplicationCoordinator) :
    ReplicationCoordinator :=
  if existsb (λ j, bool_decide (key (request j) = key r) && bool_decide (live j)) jobs then jobs
  else prioritize_jobs (jobs ++ [new_job r]).

Definition cancel_replication (network : NetworkID) (target : NodeID)
    (jobs : ReplicationCoordinator) : ReplicationCoordinator :=
  (λ j, if decide (key (request j) = (network, target) ∧ live j) then cancelled j else j) <$> jobs.

Definition get_active_jobs (jobs : ReplicationCoordinator) : list ReplicationJob :=
  filter (is_status IN_PROGRESS) jobs.

Definition get_pending_jobs (jobs : ReplicationCoordinator) : list ReplicationJob :=
  filter (is_status PENDING) jobs.

Definition get_failed_jobs (jobs : ReplicationCoordinator) : list ReplicationJob :=
  filter (is_status FAILED) jobs.

Definition pending_job_count (jobs : ReplicationCoordinator) : Z := len (get_pending_jobs jobs).
Definition active_job_count (jobs : ReplicationCoordinator) : Z := len (get_active_jobs jobs).

Definition can_start_new_job (jobs : ReplicationCoordinator) : bool :=
  active_job_count jobs <? MAX_CONCURRENT_JOBS.

Definition get_next_job (jobs : ReplicationCoordinator) : option ReplicationJob :=
  if negb (can_start_new_job jobs) then None
  else List.find (λ j, bool_decide (is_status PENDING j)) jobs.

(** The loop that changes the first job of a key in a status, and returns. *)
Fixpoint update_job (r : ReplicationRequest) (s : ReplicationStatus)
    (f : ReplicationJob → ReplicationJob) (jobs : ReplicationCoordinator) : ReplicationCoordinator :=
  match jobs with
  | [] => []
  | j :: jobs =>
      if decide (key (request j) = key r ∧ is_status s j) then f j :: jobs
      else j :: update_job r s f jobs
  end.

Definition mark_job_started (r : ReplicationRequest) (ticks : Z) (jobs : ReplicationCoordinator) :
    ReplicationCoordinator :=
  update_job r PENDING (started ticks) jobs.

Definition mark_job_completed (r : ReplicationRequest) (success : bool) (error : bytes) (ticks : Z)
    (jobs : ReplicationCoordinator) : ReplicationCoordinator :=
  update_job r IN_PROGRESS (completed success error ticks) jobs.

Definition retry_failed_jobs (max_retries : Z) (jobs : ReplicationCoordinator) :
    ReplicationCoordinator :=
  prioritize_jobs
    ((λ j, if decide (is_status FAILED j ∧ retry_count j < max_retries) then revived j else j) <$> jobs).

(** Ages are differences of ticks; [max_age_seconds] is compared with them as
    it stands. *)
Definition cleanup_old_jobs (max_age_seconds ticks : Z) (jobs : ReplicationCoordinator) :
    ReplicationCoordinator :=
  filter (λ j, live j ∨ u64 (ticks - completed_timestamp j) <= max_age_seconds) jobs.

(** ** Statistics *)

Record ReplicationStats := MkReplicationStats {
  total_requests : Z;
  completed_successfully : Z;
  failed : Z;
  in_progress : Z;
  pending : Z;
  total_bytes_transferred : Z;
  average_completion_time_seconds : float
}.

(** One iteration of the loop, on the counters and the completion time. *)
Definition count_job (acc : ReplicationStats * Z) (j : ReplicationJob) : ReplicationStats * Z :=
  let '(MkReplicationStats tot ok bad run wait bts avg, time) := acc in
  match status j with
  | COMPLETED =>
      (MkReplicationStats (tot + 1) (ok + 1) bad run wait (u64 (bts + bytes_transferred j)) avg,
       if started_timestamp j <? completed_timestamp j
       then u64 (time + (completed_timestamp j - started_timestamp j)) else time)
  | FAILED | CANCELLED => (MkReplicationStats (tot + 1) ok (bad + 1) run wait bts avg, time)
  | IN_PROGRESS | VERIFYING => (MkReplicationStats (tot + 1) ok bad (run + 1) wait bts avg, time)
  | PENDING => (MkReplicationStats (tot + 1) ok bad run (wait + 1) bts avg, time)
  end.

Definition get_stats (jobs : ReplicationCoordinator) : ReplicationStats :=
  let '(MkReplicationStats tot ok bad run wait bts avg, time) :=
    foldl count_job (MkReplicationStats 0 0 0 0 0 0 f_zero, 0) jobs in
  MkReplicationStats tot ok bad run wait bts
    (if 0 <? ok then fdiv (fdiv (float_of time) (float_of ok)) (float_of 1000000000) else avg).

(** ** The abstract view *)

Definition waiting (jobs : ReplicationCoordinator) : list ReplicationRequest :=
  request <$> get_pending_jobs jobs.

Definition running (jobs : ReplicationCoordinator) : list ReplicationRequest :=
  request <$> get_active_jobs jobs.

(** Joining the line behind every request at least as urgent. *)
Fixpoint enqueue (r : ReplicationRequest) (line : list ReplicationRequest) : list ReplicationRequest :=
  match line with
  | [] => [r]
  | q :: line => if priority q <? priority r then r :: q :: line else q :: enqueue r line
  end.

Definition no_less_urgent (a b : ReplicationRequest) : Prop := priority b <= priority a.

Definition in_order (line : list ReplicationRequest) : Prop := StronglySorted no_less_urgent line.

(** ** Stable sorting *)

Lemma insert_by_perm {A} (lt : A → A → bool) x l : insert_by lt x l ≡ₚ x :: l.
Proof.
  induction l as [|y l IH]; [done|]. cbn. destruct (lt y x); [|done].
  rewrite IH. apply perm_swap.
Qed.

Lemma stable_sort_perm {A} (lt : A → A → bool) l : stable_sort lt l ≡ₚ l.
Proof. induction l as [|x l IH]; [done|]. cbn. by rewrite insert_by_perm, IH. Qed.

Definition more_urgent (a b : ReplicationRequest) : bool := priority b <? priority a.

Lemma before_waiting a b :
  is_status PENDING a → is_status PENDING b → before a b = more_urgent (request a) (request b).
Proof.
  unfold is_status, before. intros Ha Hb.
  by rewrite (bool_decide_eq_true_2 (status a = _)), (bool_decide_eq_true_2 (status b = _)).
Qed.

Lemma before_other a b : is_status PENDING a → ¬ is_status PENDING b → before a b = true.
Proof.
  unfold is_status, before. intros Ha Hb.
  by rewrite (bool_decide_eq_true_2 (status a = _)), (bool_decide_eq_false_2 (status b = _)).
Qed.

Lemma other_before a b : ¬ is_status PENDING a → is_status PENDING b → before a b = false.
Proof.
  unfold is_status, before. intros Ha Hb.
  by rewrite (bool_decide_eq_false_2 (status a = _)), (bool_decide_eq_true_2 (status b = _)).
Qed.

(** Everything behind a job that does not wait does not wait. *)
Fixpoint pending_first (jobs : ReplicationCoordinator) : Prop :=
  match jobs with
  | [] => True
  | j :: jobs => (is_status PENDING j ∨ get_pending_jobs jobs = []) ∧ pending_first jobs
  end.

Lemma pending_perm_nil (l k : ReplicationCoordinator) :
  l ≡ₚ k → get_pending_jobs l = [] → get_pending_jobs k = [].
Proof. unfold get_pending_jobs. intros Hp E. apply Permutation_nil. by rewrite <- E, Hp. Qed.

Lemma insert_pending_first x l : pending_first l → pending_first (insert_by before x l).
Proof.
  induction l as [|y l IH]; cbn [insert_by pending_first]; [by auto|]. intros [Hy Hl].
  destruct (before y x) eqn:E; cbn [pending_first].
  - split; [|auto]. destruct Hy as [Hy|Hy]; [by left|].
    destruct (decide (is_status PENDING y)) as [?|Hyn]; [by left|right].
    assert (¬ is_status PENDING x) as Hx.
    { intros Hx. by rewrite other_before in E. }
    apply (pending_perm_nil (x :: l)); [by rewrite insert_by_perm|].
    unfold get_pending_jobs. by rewrite filter_cons_False.
  - split; [|done]. destruct (decide (is_status PENDING x)) as [?|Hx]; [by left|right].
    assert (¬ is_status PENDING y) as Hyn.
    { intros Hyp. by rewrite before_other in E. }
    destruct Hy as [?|Hy]; [done|]. unfold get_pending_jobs. by rewrite filter_cons_False.
Qed.

Lemma sort_pending_first l : pending_first (prioritize_jobs l).
Proof. induction l as [|x l IH]; [done|]. by apply insert_pending_first. Qed.

Lemma waiting_cons j l :
  waiting (j :: l) = if decide (is_status PENDING j) then request j :: waiting l else waiting l.
Proof. unfold waiting, get_pending_jobs. rewrite filter_cons. by destruct (decide _). Qed.

Lemma waiting_insert x l :
  pending_first l →
  waiting (insert_by before x l) =
  if decide (is_status PENDING x) then insert_by more_urgent (request x) (waiting l) else waiting l.
Proof.
  induction l as [|y l IH]; cbn [pending_first insert_by]; intros Hl; [by rewrite waiting_cons|].
  destruct Hl as [Hy Hl]. specialize (IH Hl).
  destruct (decide (is_status PENDING x)) as [Hx|Hx], (decide (is_status PENDING y)) as [Hp|Hp].
  - rewrite (before_waiting y x), (waiting_cons y l), decide_True by done. cbn [insert_by].
    destruct (more_urgent _ _); rewrite !waiting_cons, ?(decide_True (P := is_status PENDING y)) by done.
    + by rewrite IH.
    + by rewrite decide_True.
  - rewrite other_before by done. destruct Hy as [?|Hy]; [done|]. rewrite !waiting_cons.
    rewrite (decide_True (P := is_status PENDING x)), !(decide_False (P := is_status PENDING y)) by done.
    unfold waiting. by rewrite Hy.
  - rewrite before_other by done. by rewrite !waiting_cons, IH.
  - destruct Hy as [?|Hy]; [done|]. destruct (before y x).
    + by rewrite !waiting_cons, IH.
    + by rewrite !waiting_cons, !decide_False.
Qed.

(** Sorting the jobs sorts the line. *)
Lemma waiting_sort l : waiting (prioritize_jobs l) = stable_sort more_urgent (waiting l).
Proof.
  induction l as [|x l IH]; [done|].
  change (prioritize_jobs (x :: l)) with (insert_by before x (prioritize_jobs l)).
  rewrite waiting_insert by apply sort_pending_first. rewrite IH, waiting_cons.
  by destruct (decide _).
Qed.

Lemma running_sort l : running (prioritize_jobs l) ≡ₚ running l.
Proof. unfold running, get_active_jobs, prioritize_jobs. by rewrite stable_sort_perm. Qed.

Lemma insert_in_order r line : in_order line → in_order (insert_by more_urgent r line).
Proof.
  unfold in_order, no_less_urgent. induction 1 as [|q line Hl IH Hq]; cbn; [by repeat constructor|].
  unfold more_urgent. destruct (_ <? _) eqn:E; bool_to_prop.
  - constructor; [exact IH|]. rewrite insert_by_perm. constructor; [lia|done].
  - constructor; [by constructor|]. constructor; [lia|].
    eapply list.Forall_impl; [exact Hq|]. cbn. lia.
Qed.

Lemma sort_in_order line : in_order (stable_sort more_urgent line).
Proof. induction line as [|r line IH]; [constructor|]. by apply insert_in_order. Qed.

(** Adding one request at the end and sorting is joining the line. *)
Lemma sort_snoc r line :
  in_order line → stable_sort more_urgent (line ++ [r]) = enqueue r line.
Proof.
  induction 1 as [|q line Hl IH Hq]; [done|].
  change (stable_sort more_urgent ((q :: line) ++ [r]))
    with (insert_by more_urgent q (stable_sort more_urgent (line ++ [r]))).
  rewrite IH. clear IH Hl. cbn [enqueue].
  destruct (priority q <? priority r) eqn:E; bool_to_prop.
  - assert (enqueue r line = r :: line) as ->.
    { destruct Hq as [|q' line Hq' _]; [done|]. cbn. unfold no_less_urgent in Hq'.
      by rewrite (proj2 (Z.ltb_lt _ _)) by lia. }
    cbn. unfold more_urgent at 1. rewrite (proj2 (Z.ltb_lt _ _)) by lia. f_equal.
    destruct Hq as [|q' line Hq' _]; [done|]. cbn. unfold more_urgent, no_less_urgent in *.
    by rewrite (proj2 (Z.ltb_ge _ _)) by lia.
  - assert (∃ z rest, enqueue r line = z :: rest ∧ priority z <= priority q) as (z & rest & -> & Hz).
    { destruct Hq as [|q' line Hq' _]; cbn; [by exists r, []|]. unfold no_less_urgent in Hq'.
      destruct (_ <? _); eexists _, _; (split; [done|lia]). }
    cbn. unfold more_urgent. by rewrite (proj2 (Z.ltb_ge _ _)) by lia.
Qed.

Lemma sort_sorted line : in_order line → stable_sort more_urgent line = line.
Proof.
  induction 1 as [|q line Hl IH Hq]; [done|].
  change (insert_by more_urgent q (stable_sort more_urgent line) = q :: line). rewrite IH.
  destruct Hq as [|q' line Hq' _]; [done|]. cbn. unfold more_urgent, no_less_urgent in *.
  by rewrite (proj2 (Z.ltb_ge _ _)) by lia.
Qed.

(** ** The operations on the line and the bag *)

Definition with_status (s : ReplicationStatus) (jobs : ReplicationCoordinator) :
    list ReplicationRequest :=
  request <$> filter (is_status s) jobs.

Lemma with_status_cons s j l :
  with_status s (j :: l) = if decide (is_status s j) then request j :: with_status s l else with_status s l.
Proof. unfold with_status. rewrite filter_cons. by destruct (decide _). Qed.

Abbreviation others r := (filter (λ q, key q ≠ key r)).
Abbreviation same r := (filter (λ q, key q = key r)).

Lemma others_all r (l : list ReplicationRequest) : key r ∉ key <$> l → others r l = l.
Proof.
  intros Hn. induction l as [|q l IH]; [done|]. cbn in Hn. apply not_elem_of_cons in Hn as [Hq Hn].
  rewrite filter_cons_True by auto. f_equal. by apply IH.
Qed.

Lemma same_none r (l : list ReplicationRequest) : key r ∉ key <$> l → same r l = [].
Proof.
  intros Hn. induction l as [|q l IH]; [done|]. cbn in Hn. apply not_elem_of_cons in Hn as [Hq Hn].
  rewrite filter_cons_False by auto. by apply IH.
Qed.

(** Changing the first job of a key takes its request out of one status… *)
Lemma update_leaves r s f jobs :
  (∀ j, ¬ is_status s (f j)) → NoDup (key <$> with_status s jobs) →
  with_status s (update_job r s f jobs) = others r (with_status s jobs).
Proof.
  intros Hf. induction jobs as [|j jobs IH]; [done|]. cbn [update_job]. rewrite with_status_cons.
  destruct (decide (is_status s j)) as [Hj|Hj]; intros Hd.
  - cbn in Hd. apply list.NoDup_cons in Hd as [Hn Hd]. rewrite filter_cons.
    destruct (decide (key (request j) = key r ∧ _)) as [[Hk _]|Hk].
    + rewrite with_status_cons, decide_False by apply Hf. rewrite decide_False by auto.
      rewrite Hk in Hn. by rewrite others_all.
    + rewrite with_status_cons, (decide_True (P := is_status s j)) by done.
      rewrite (decide_True (P := key (request j) ≠ key r)) by (intros E; by apply Hk).
      by rewrite IH.
  - rewrite decide_False by (intros [_ ?]; done). rewrite with_status_cons, decide_False by done. by apply IH.
Qed.

(** … and puts it in another. *)
Lemma update_enters r s s' f jobs :
  s ≠ s' → (∀ j, status (f j) = s' ∧ request (f j) = request j) → NoDup (key <$> with_status s jobs) →
  with_status s' (update_job r s f jobs) ≡ₚ same r (with_status s jobs) ++ with_status s' jobs.
Proof.
  intros Hs Hf. induction jobs as [|j jobs IH]; [done|]. cbn [update_job]. rewrite !with_status_cons.
  destruct (decide (is_status s j)) as [Hj|Hj]; intros Hd.
  - rewrite (decide_False (P := is_status s' j)) by (unfold is_status in *; congruence).
    cbn in Hd. apply list.NoDup_cons in Hd as [Hn Hd]. rewrite filter_cons.
    destruct (decide (key (request j) = key r ∧ _)) as [[Hk _]|Hk].
    + rewrite with_status_cons, decide_True by apply Hf. rewrite decide_True by done.
      rewrite Hk in Hn. rewrite same_none by done. destruct (Hf j) as [_ ->]. done.
    + rewrite with_status_cons, decide_False by (unfold is_status in *; congruence).
      rewrite (decide_False (P := key (request j) = key r)) by (intros E; by apply Hk).
      by rewrite IH.
  - rewrite decide_False by (intros [_ ?]; done). rewrite with_status_cons.
    destruct (decide (is_status s' j)); rewrite IH by done; [|done]. by rewrite Permutation_middle.
Qed.

Lemma update_keeps r s s' f jobs :
  s ≠ s' → (∀ j, status (f j) ≠ s') → with_status s' (update_job r s f jobs) = with_status s' jobs.
Proof.
  intros Hs Hf. induction jobs as [|j jobs IH]; [done|]. cbn [update_job].
  destruct (decide (_ ∧ _)) as [[_ Hj]|Hj]; rewrite !with_status_cons; [|by rewrite IH].
  unfold is_status in *. rewrite !decide_False; [done|congruence|apply Hf].
Qed.

Lemma cancel_leaves n t s jobs :
  s = PENDING ∨ s = IN_PROGRESS →
  with_status s (cancel_replication n t jobs) = filter (λ q, key q ≠ (n, t)) (with_status s jobs).
Proof.
  intros Hs. unfold cancel_replication. induction jobs as [|j jobs IH]; [done|]. cbn [fmap list_fmap].
  rewrite !with_status_cons. change (list_fmap _ _ ?f jobs) with (f <$> jobs) in *. rewrite IH.
  destruct (decide (is_status s j)) as [Hj|Hj].
  - rewrite filter_cons. destruct (decide (key (request j) = (n, t) ∧ live j)) as [[Hk _]|Hk].
    + rewrite decide_False by (unfold is_status, cancelled; cbn; naive_solver).
      by rewrite (decide_False (P := key (request j) ≠ (n, t))) by auto.
    + rewrite decide_True by done. rewrite (decide_True (P := key (request j) ≠ (n, t))); [done|].
      intros E. apply Hk. unfold live, is_status in *. split; [done|]. destruct Hs; subst; auto.
  - destruct (decide (key _ = _ ∧ _)); rewrite decide_False; [done| |done|done].
    unfold is_status, cancelled. cbn. naive_solver.
Qed.

Lemma cleanup_keeps a t s jobs :
  s = PENDING ∨ s = IN_PROGRESS → with_status s (cleanup_old_jobs a t jobs) = with_status s jobs.
Proof.
  intros Hs. unfold cleanup_old_jobs. induction jobs as [|j jobs IH]; [done|].
  rewrite filter_cons, with_status_cons. destruct (decide (is_status s j)) as [Hj|Hj].
  - rewrite decide_True; [by rewrite with_status_cons, decide_True, IH|].
    left. unfold live, is_status in *. destruct Hs; subst; auto.
  - destruct (decide (_ ∨ _)); [by rewrite with_status_cons, decide_False, IH|done].
Qed.

Lemma has_key r jobs :
  existsb (λ j, bool_decide (key (request j) = key r) && bool_decide (live j)) jobs = true ↔
  key r ∈ key <$> with_status PENDING jobs ++ with_status IN_PROGRESS jobs.
Proof.
  rewrite existsb_exists. split.
  - intros (j & Hj%list_elem_of_In & H). bool_to_prop. rewrite <- H. apply list_elem_of_fmap_2.
    apply elem_of_app. destruct H0; [left|right]; apply list_elem_of_fmap_2, list_elem_of_filter; auto.
  - intros (q & Hq & H)%list_elem_of_fmap. apply elem_of_app in H.
    assert (∃ j, q = request j ∧ live j ∧ j ∈ jobs) as (j & -> & Hl & Hj).
    { unfold live. destruct H as [H|H]; apply list_elem_of_fmap in H as (j & -> & [Hs Hj]%list_elem_of_filter);
        exists j; auto. }
    exists j. split; [by apply list_elem_of_In|]. by rewrite !bool_decide_eq_true_2.
Qed.

(** ** The abstract specification *)

(** Who waits, in order, and who is being served. *)
Record Line := MkLine {
  line : list ReplicationRequest;
  busy : list ReplicationRequest
}.

Inductive op :=
| Request (r : ReplicationRequest)
| Cancel (network : NetworkID) (target : NodeID)
| Start (r : ReplicationRequest) (ticks : Z)
| Complete (r : ReplicationRequest) (success : bool) (error : bytes) (ticks : Z)
| Cleanup (max_age_seconds ticks : Z).

Definition step (o : op) (jobs : ReplicationCoordinator) : ReplicationCoordinator :=
  match o with
  | Request r => request_replication r jobs
  | Cancel n t => cancel_replication n t jobs
  | Start r ticks => mark_job_started r ticks jobs
  | Complete r ok e ticks => mark_job_completed r ok e ticks jobs
  | Cleanup a ticks => cleanup_old_jobs a ticks jobs
  end.

Definition spec_step (o : op) (s : Line) : Line :=
  match o with
  | Request r =>
      if decide (key r ∈ key <$> line s ++ busy s) then s else MkLine (enqueue r (line s)) (busy s)
  | Cancel n t =>
      MkLine (filter (λ q, key q ≠ (n, t)) (line s)) (filter (λ q, key q ≠ (n, t)) (busy s))
  | Start r _ => MkLine (others r (line s)) (same r (line s) ++ busy s)
  | Complete r _ _ _ => MkLine (line s) (others r (busy s))
  | Cleanup _ _ => s
  end.

Record refines (jobs : ReplicationCoordinator) (s : Line) : Prop := {
  refines_line : waiting jobs = line s;
  refines_busy : running jobs ≡ₚ busy s;
  refines_order : in_order (line s);
  refines_keys : NoDup (key <$> line s ++ busy s)
}.

Lemma enqueue_perm r l : enqueue r l ≡ₚ r :: l.
Proof.
  induction l as [|q l IH]; [done|]. cbn. destruct (_ <? _); [done|]. rewrite IH. apply perm_swap.
Qed.

Lemma filter_in_order (P : ReplicationRequest → Prop) `{∀ q, Decision (P q)} l :
  in_order l → in_order (filter P l).
Proof.
  unfold in_order. induction 1 as [|q l Hl IH Hq]; [constructor|]. rewrite filter_cons.
  destruct (decide (P q)); [|done]. constructor; [done|].
  rewrite list.Forall_forall in Hq |- *. intros x [_ Hx]%list_elem_of_filter. by apply Hq.
Qed.

Lemma keys_filter (P : ReplicationRequest → Prop) `{∀ q, Decision (P q)} l :
  NoDup (key <$> l) → NoDup (key <$> filter P l).
Proof. intros Hd. eapply sublist_NoDup; [exact Hd|]. apply fmap_sublist, sublist_filter. Qed.

Lemma keys_app l k :
  NoDup (key <$> l ++ k) ↔
  NoDup (key <$> l) ∧ (∀ x, x ∈ key <$> l → x ∉ key <$> k) ∧ NoDup (key <$> k).
Proof. by rewrite fmap_app, list.NoDup_app. Qed.

Lemma same_others r (l : list ReplicationRequest) : same r l ++ others r l ≡ₚ l.
Proof.
  induction l as [|q l IH]; [done|]. rewrite !filter_cons. destruct (decide (key q = key r)) as [E|E].
  - rewrite decide_False by auto. cbn. by rewrite IH.
  - rewrite decide_True by done. by rewrite <- Permutation_middle, IH.
Qed.

Lemma request_refines r jobs s :
  refines jobs s → refines (request_replication r jobs) (spec_step (Request r) s).
Proof.
  intros [Hw Hb Ho Hk]. unfold request_replication. cbn.
  assert (key r ∈ key <$> line s ++ busy s ↔
          key r ∈ key <$> with_status PENDING jobs ++ with_status IN_PROGRESS jobs) as Hr.
  { change (with_status PENDING jobs) with (waiting jobs).
    change (with_status IN_PROGRESS jobs) with (running jobs). by rewrite Hw, Hb. }
  destruct (existsb _ _) eqn:E.
  - rewrite decide_True by (by apply Hr, has_key). by split.
  - assert (key r ∉ key <$> line s ++ busy s) as Hn.
    { rewrite Hr, <- has_key. congruence. }
    rewrite decide_False by done. split; cbn.
    + rewrite waiting_sort. rewrite <- sort_snoc by done. f_equal. rewrite <- Hw.
      unfold waiting, get_pending_jobs. by rewrite list.filter_app, fmap_app.
    + rewrite running_sort, <- Hb. unfold running, get_active_jobs.
      rewrite list.filter_app, fmap_app. cbn. by rewrite app_nil_r.
    + rewrite <- sort_snoc by done. apply sort_in_order.
    + rewrite enqueue_perm. cbn. by constructor.
Qed.

Lemma cancel_refines n t jobs s :
  refines jobs s → refines (cancel_replication n t jobs) (spec_step (Cancel n t) s).
Proof.
  intros [Hw Hb Ho Hk]. split; cbn.
  - rewrite <- Hw. apply (cancel_leaves n t PENDING). auto.
  - rewrite <- Hb. change (running ?j) with (with_status IN_PROGRESS j).
    by rewrite cancel_leaves by auto.
  - by apply filter_in_order.
  - rewrite <- list.filter_app. by apply keys_filter.
Qed.

Lemma start_refines r t jobs s :
  refines jobs s → refines (mark_job_started r t jobs) (spec_step (Start r t) s).
Proof.
  intros [Hw Hb Ho Hk]. pose proof Hk as (Hl & _ & _)%keys_app. rewrite <- Hw in Hl.
  split; cbn.
  - rewrite <- Hw. by apply (update_leaves r PENDING).
  - rewrite <- Hw, <- Hb. by apply (update_enters r PENDING IN_PROGRESS).
  - by apply filter_in_order.
  - rewrite (Permutation_app_comm (others r (line s))), <- app_assoc.
    rewrite (Permutation_app_comm (busy s)), app_assoc. by rewrite same_others.
Qed.

Lemma complete_refines r ok e t jobs s :
  refines jobs s → refines (mark_job_completed r ok e t jobs) (spec_step (Complete r ok e t) s).
Proof.
  intros [Hw Hb Ho Hk]. pose proof Hk as (_ & _ & Hd)%keys_app. rewrite <- Hb in Hd.
  split; cbn; [| |done|].
  - rewrite <- Hw. apply (update_keeps r IN_PROGRESS PENDING); [done|]. intros j. by destruct ok.
  - rewrite <- Hb. change (running ?j) with (with_status IN_PROGRESS j).
    unfold mark_job_completed. rewrite update_leaves; [done| |done]. intros j. by destruct ok.
  - apply keys_app in Hk as (? & Hx & ?). apply keys_app. split_and!; [done| |by apply keys_filter].
    intros x Hl Hb'. apply (Hx x Hl). apply list_elem_of_fmap in Hb' as (q & -> & [_ Hq]%list_elem_of_filter).
    by apply list_elem_of_fmap_2.
Qed.

Lemma cleanup_refines a t jobs s : refines jobs s → refines (cleanup_old_jobs a t jobs) s.
Proof.
  intros [Hw Hb Ho Hk]. split; [| |done|done].
  - rewrite <- Hw. apply (cleanup_keeps a t PENDING). auto.
  - rewrite <- Hb. change (running ?j) with (with_status IN_PROGRESS j).
    by rewrite cleanup_keeps by auto.
Qed.

Lemma step_refines o jobs s : refines jobs s → refines (step o jobs) (spec_step o s).
Proof.
  destruct o; intros Hr.
  - by apply request_refines.
  - by apply cancel_refines.
  - by apply start_refines.
  - by apply complete_refines.
  - by apply cleanup_refines.
Qed.

Definition run (ops : list op) (jobs : ReplicationCoordinator) : ReplicationCoordinator :=
  foldl (λ jobs o, step o jobs) jobs ops.

Definition spec_run (ops : list op) (s : Line) : Line := foldl (λ s o, spec_step o s) s ops.

Lemma run_refines ops jobs s : refines jobs s → refines (run ops jobs) (spec_run ops s).
Proof. revert jobs s. induction ops as [|o ops IH]; intros jobs s Hr; [done|]. by apply IH, step_refines. Qed.

Lemma find_pending jobs :
  request <$> List.find (λ j, bool_decide (is_status PENDING j)) jobs = head (waiting jobs).
Proof.
  induction jobs as [|j jobs IH]; [done|]. rewrite waiting_cons. cbn [List.find].
  destruct (decide (is_status PENDING j)) as [Hj|Hj].
  - by rewrite bool_decide_eq_true_2.
  - by rewrite bool_decide_eq_false_2.
Qed.

Lemma length_running jobs : len (running jobs) = active_job_count jobs.
Proof. unfold running, active_job_count, len. by rewrite length_fmap. Qed.

Lemma next_job jobs :
  request <$> get_next_job jobs = if 5 <=? len (running jobs) then None else head (waiting jobs).
Proof.
  unfold get_next_job, can_start_new_job, MAX_CONCURRENT_JOBS. rewrite length_running, <- find_pending.
  destruct (_ <? _) eqn:E, (5 <=? _) eqn:E2; bool_to_prop; cbn [negb]; try done; lia.
Qed.

(** C24: without retries the coordinator implements a line served in order of urgency
    and then of arrival: every sequence of requests, cancellations, starts,
    completions and cleanups leaves the waiting and running jobs the specification
    has, no two of them for the same network and node, and the next job is the head of
    the line unless five run. *)
Theorem coordinator_refines ops :
  let jobs := run ops [] in
  let s := spec_run ops (MkLine [] []) in
  refines jobs s ∧
  request <$> get_next_job jobs = (if 5 <=? len (busy s) then None else head (line s)) ∧
  pending_job_count jobs = len (line s) ∧ active_job_count jobs = len (busy s).
Proof.
  intros jobs s. assert (refines jobs s) as Hr.
  { apply run_refines. split; [done..|constructor|constructor]. }
  split; [done|]. destruct Hr as [Hw Hb _ _].
  rewrite next_job, <- length_running. unfold pending_job_count, len. rewrite <- Hw, Hb.
  split_and!; [done| |done]. unfold waiting. by rewrite length_fmap.
Qed.

(** ** Using the coordinator: start what [get_next_job] returns *)

Definition schedule (ticks : Z) (jobs : ReplicationCoordinator) : ReplicationCoordinator :=
  match get_next_job jobs with
  | Some j => mark_job_started (request j) ticks jobs
  | None => jobs
  end.

Inductive use :=
| Ask (r : ReplicationRequest)
| Withdraw (network : NetworkID) (target : NodeID)
| Schedule (ticks : Z)
| Finish (r : ReplicationRequest) (success : bool) (error : bytes) (ticks : Z)
| Retry (max_retries : Z)
| Clean (max_age_seconds ticks : Z).

Definition apply_use (u : use) (jobs : ReplicationCoordinator) : ReplicationCoordinator :=
  match u with
  | Ask r => request_replication r jobs
  | Withdraw n t => cancel_replication n t jobs
  | Schedule ticks => schedule ticks jobs
  | Finish r ok e ticks => mark_job_completed r ok e ticks jobs
  | Retry m => retry_failed_jobs m jobs
  | Clean a ticks => cleanup_old_jobs a ticks jobs
  end.

Definition uses (us : list use) (jobs : ReplicationCoordinator) : ReplicationCoordinator :=
  foldl (λ jobs u, apply_use u jobs) jobs us.

Definition use_ok (M : Z) (u : use) : Prop := match u with Retry m => m <= M | _ => True end.

Record queue_ok (M : Z) (jobs : ReplicationCoordinator) : Prop := {
  queue_sorted : in_order (waiting jobs);
  queue_busy : len (running jobs) <= MAX_CONCURRENT_JOBS;
  queue_retries : Forall (λ j, 0 <= retry_count j <= M) jobs
}.

Lemma update_sublist r s f jobs :
  (∀ j, ¬ is_status s (f j)) → with_status s (update_job r s f jobs) `sublist_of` with_status s jobs.
Proof.
  intros Hf. induction jobs as [|j jobs IH]; [done|]. cbn [update_job]. rewrite with_status_cons.
  destruct (decide (_ ∧ _)) as [[_ Hj]|Hj]; rewrite with_status_cons.
  - rewrite decide_False, decide_True by auto. by apply sublist_cons.
  - destruct (decide (is_status s j)); [by apply sublist_skip|done].
Qed.

Lemma update_length_le r s s' f jobs :
  len (with_status s' (update_job r s f jobs)) <= 1 + len (with_status s' jobs).
Proof.
  unfold len. induction jobs as [|j jobs IH]; [cbn; lia|]. cbn [update_job].
  destruct (decide (_ ∧ _)); rewrite !with_status_cons;
    repeat destruct (decide (is_status _ _)); cbn [length]; lia.
Qed.

Lemma update_job_Forall (P : ReplicationJob → Prop) r s f jobs :
  (∀ j, P j → P (f j)) → Forall P jobs → Forall P (update_job r s f jobs).
Proof.
  intros Hf. induction 1 as [|j jobs Hj Hjs IH]; [constructor|]. cbn.
  destruct (decide _); constructor; auto.
Qed.

Lemma sublist_in_order l k : l `sublist_of` k → in_order k → in_order l.
Proof.
  unfold in_order. intros Hs Hk. induction Hs as [|q l k Hs IH|q l k Hs IH]; [done| |].
  - apply StronglySorted_inv in Hk as [Hk Hq]. constructor; [auto|].
    rewrite list.Forall_forall in Hq |- *. intros x Hx. apply Hq. by eapply elem_of_sublist.
  - apply StronglySorted_inv in Hk as [Hk _]. auto.
Qed.

Lemma sort_Forall (P : ReplicationJob → Prop) jobs : Forall P jobs → Forall P (prioritize_jobs jobs).
Proof. unfold prioritize_jobs. by rewrite stable_sort_perm. Qed.

Lemma request_ok M r jobs : 0 <= M → queue_ok M jobs → queue_ok M (request_replication r jobs).
Proof.
  intros HM [Hs Hb Hr]. unfold request_replication. destruct (existsb _ _); [done|]. split.
  - rewrite waiting_sort. apply sort_in_order.
  - unfold len. rewrite running_sort. unfold running, get_active_jobs.
    rewrite list.filter_app, fmap_app. cbn. by rewrite app_nil_r.
  - apply sort_Forall, Forall_app. split; [done|]. by repeat constructor.
Qed.

Lemma retry_ok M m jobs : 0 <= M < 2 ^ 32 → m <= M → queue_ok M jobs → queue_ok M (retry_failed_jobs m jobs).
Proof.
  intros HM Hm [Hs Hb Hr]. unfold retry_failed_jobs. split.
  - rewrite waiting_sort. apply sort_in_order.
  - unfold len. rewrite running_sort. replace (running (_ <$> jobs)) with (running jobs); [done|].
    change running with (with_status IN_PROGRESS). clear. induction jobs as [|j jobs IH]; [done|].
    rewrite fmap_cons, !with_status_cons, <- IH. destruct (decide (is_status FAILED j ∧ _)) as [[Hf _]|]; [|done].
    unfold is_status in *. by rewrite !decide_False by (cbn; congruence).
  - apply sort_Forall, list.Forall_fmap. eapply list.Forall_impl; [exact Hr|]. intros j Hj. cbn in *.
    destruct (decide _) as [[_ ?]|]; [|done]. cbn. rewrite wrap_small; unfold in_u; lia.
Qed.

Lemma schedule_ok M t jobs : queue_ok M jobs → queue_ok M (schedule t jobs).
Proof.
  intros Hq. unfold schedule. destruct (get_next_job jobs) as [j|] eqn:E; [|done].
  destruct Hq as [Hs Hb Hr]. split.
  - eapply sublist_in_order; [|exact Hs]. by apply (update_sublist _ PENDING).
  - pose proof (update_length_le (request j) PENDING IN_PROGRESS (started t) jobs) as Hl.
    change (with_status IN_PROGRESS ?l) with (running l) in Hl.
    unfold get_next_job, can_start_new_job in E. rewrite <- length_running in E.
    destruct (_ <? _) eqn:E2; [|done]. bool_to_prop. unfold mark_job_started. lia.
  - by apply update_job_Forall.
Qed.

Lemma use_preserves M u jobs :
  0 <= M < 2 ^ 32 → use_ok M u → queue_ok M jobs → queue_ok M (apply_use u jobs).
Proof.
  intros HM Hu Hq. destruct u; cbn in Hu |- *.
  - apply request_ok; [lia|done].
  - destruct Hq as [Hs Hb Hr]. split.
    + change waiting with (with_status PENDING). rewrite cancel_leaves by auto. by apply filter_in_order.
    + change running with (with_status IN_PROGRESS) in *. rewrite cancel_leaves by auto.
      etransitivity; [|exact Hb]. unfold len. apply inj_le, length_filter.
    + apply list.Forall_fmap. eapply list.Forall_impl; [exact Hr|]. intros j Hj. cbn. by destruct (decide _).
  - by apply schedule_ok.
  - destruct Hq as [Hs Hb Hr]. split.
    + change waiting with (with_status PENDING) in *. unfold mark_job_completed.
      rewrite update_keeps; [done|done|]. intros j. by destruct success.
    + pose proof (update_sublist r IN_PROGRESS (completed success error ticks) jobs) as Hl.
      apply sublist_length in Hl; [|intros j; by destruct success].
      change running with (with_status IN_PROGRESS) in *. unfold len, mark_job_completed in *. lia.
    + by apply update_job_Forall.
  - by apply retry_ok.
  - destruct Hq as [Hs Hb Hr]. split.
    + change waiting with (with_status PENDING). by rewrite cleanup_keeps by auto.
    + change running with (with_status IN_PROGRESS). by rewrite cleanup_keeps by auto.
    + by apply Forall_kept.
Qed.

Lemma uses_ok M us jobs :
  0 <= M < 2 ^ 32 → Forall (use_ok M) us → queue_ok M jobs → queue_ok M (uses us jobs).
Proof.
  intros HM Hu. revert jobs. induction Hu as [|u us Hu _ IH]; intros jobs Hq; [done|].
  by apply IH, use_preserves.
Qed.

(** The job offered next is as urgent as any that waits. *)
Lemma next_is_most_urgent jobs j k :
  in_order (waiting jobs) → get_next_job jobs = Some j → k ∈ get_pending_jobs jobs →
  priority (request k) <= priority (request j).
Proof.
  intros Hs Hj Hk. pose proof (next_job jobs) as Hn. rewrite Hj in Hn. cbn in Hn.
  destruct (_ <=? _); [done|]. assert (request k ∈ waiting jobs) as Hw by by apply list_elem_of_fmap_2.
  destruct Hs as [|q l _ Hq]; [done|]. injection Hn as ->.
  apply elem_of_cons in Hw as [<-|Hw]; [lia|]. rewrite list.Forall_forall in Hq. by apply Hq.
Qed.

(** ** Serving the line *)

(** One worker: it takes the next job, starts it and finishes it, at the given
    times and with the given results. *)
Fixpoint serve (clock : list (Z * Z * bool)) (jobs : ReplicationCoordinator) :
    list ReplicationRequest * ReplicationCoordinator :=
  match clock with
  | [] => ([], jobs)
  | (t1, t2, ok) :: clock =>
      match get_next_job jobs with
      | None => ([], jobs)
      | Some j =>
          let '(served, jobs) :=
            serve clock (mark_job_completed (request j) ok [] t2 (mark_job_started (request j) t1 jobs)) in
          (request j :: served, jobs)
      end
  end.

Lemma start_head r rest t jobs :
  waiting jobs = r :: rest → running jobs = [] →
  waiting (mark_job_started r t jobs) = rest ∧ running (mark_job_started r t jobs) = [r].
Proof.
  change waiting with (with_status PENDING). change running with (with_status IN_PROGRESS).
  unfold mark_job_started. induction jobs as [|j jobs IH]; [done|]. cbn [update_job].
  rewrite (with_status_cons PENDING j), (with_status_cons IN_PROGRESS j).
  destruct (decide (is_status PENDING j)) as [Hj|Hj]; intros Hw Hb.
  - injection Hw as <- <-. rewrite decide_False in Hb by (unfold is_status in *; congruence).
    rewrite decide_True by done. rewrite !with_status_cons, decide_False, decide_True by done.
    by rewrite Hb.
  - destruct (decide (is_status IN_PROGRESS j)); [done|]. destruct (IH Hw Hb) as [IH1 IH2].
    rewrite (decide_False (P := _ ∧ _)) by (intros [_ ?]; done).
    by rewrite !with_status_cons, !decide_False.
Qed.

Lemma finish_only r ok e t jobs :
  running jobs = [r] → running (mark_job_completed r ok e t jobs) = [].
Proof.
  change running with (with_status IN_PROGRESS). intros E. unfold mark_job_completed.
  rewrite update_leaves, E.
  - rewrite filter_cons_False by auto. done.
  - intros j. by destruct ok.
  - rewrite E. apply NoDup_singleton.
Qed.

Lemma finish_waiting r ok e t jobs : waiting (mark_job_completed r ok e t jobs) = waiting jobs.
Proof. apply (update_keeps r IN_PROGRESS PENDING); [done|]. intros j. by destruct ok. Qed.

Lemma length_waiting jobs : pending_job_count jobs = len (waiting jobs).
Proof. unfold pending_job_count, waiting, len. by rewrite length_fmap. Qed.

Lemma serve_all clock jobs :
  running jobs = [] → len (waiting jobs) <= len clock →
  let '(served, jobs') := serve clock jobs in
  served = waiting jobs ∧ waiting jobs' = [] ∧ running jobs' = [].
Proof.
  revert jobs. induction clock as [|[[t1 t2] ok] clock IH]; intros jobs Hb Hl.
  - cbn [serve]. destruct (waiting jobs); [done|]. rewrite len_cons, len_nil in Hl.
    pose proof (len_nonneg l). lia.
  - cbn [serve]. pose proof (next_job jobs) as Hn. rewrite Hb in Hn. cbn in Hn.
    destruct (waiting jobs) as [|r rest] eqn:Hw, (get_next_job jobs) as [j|]; try done.
    injection Hn as ->. destruct (start_head r rest t1 jobs Hw Hb) as [Hw1 Hb1].
    specialize (IH (mark_job_completed r ok [] t2 (mark_job_started r t1 jobs))).
    rewrite finish_waiting, Hw1 in IH. rewrite !len_cons in Hl.
    specialize (IH (finish_only _ _ _ _ _ Hb1) ltac:(lia)).
    destruct (serve clock _) as [served jobs']. destruct IH as (-> & ? & ?). done.
Qed.

(** C29: a client that starts what it is offered never has more than five jobs
    running, no job is retried more often than allowed, the job offered is as urgent
    as any that waits, and an idle coordinator whose jobs are served one at a time
    empties its line in order of urgency. *)
Theorem coordinator_serves M us :
  0 <= M < 2 ^ 32 → Forall (use_ok M) us →
  let jobs := uses us [] in
  active_job_count jobs <= MAX_CONCURRENT_JOBS ∧
  Forall (λ j, 0 <= retry_count j <= M) jobs ∧
  (∀ j k, get_next_job jobs = Some j → k ∈ get_pending_jobs jobs →
     priority (request k) <= priority (request j)) ∧
  (∀ clock, active_job_count jobs = 0 → pending_job_count jobs <= len clock →
     let '(served, jobs') := serve clock jobs in
     served = request <$> get_pending_jobs jobs ∧ StronglySorted no_less_urgent served ∧
     pending_job_count jobs' = 0 ∧ active_job_count jobs' = 0).
Proof.
  intros HM Hu jobs. destruct (uses_ok M us [] HM Hu) as [Hs Hb Hr]; [by repeat constructor|].
  fold jobs in Hs, Hb, Hr. split_and!; [by rewrite <- length_running|done| |].
  - intros j k. by apply next_is_most_urgent.
  - intros clock Ha Hl. rewrite length_waiting in Hl. rewrite <- length_running in Ha.
    assert (running jobs = []) as He by (apply nil_length_inv; unfold len in Ha; lia).
    pose proof (serve_all clock jobs He Hl) as Hv. destruct (serve clock jobs) as [served jobs'].
    rewrite length_waiting, <- length_running. destruct Hv as (-> & -> & ->). by split_and!.
Qed.

(** ** Concrete requests *)

Module Sample.

Program Definition toy_id (n : Z) : array 32 := dexist (le_bytes 32 n) _.
Next Obligation. intros. apply length_le_bytes. Qed.

Definition request_to (n t p : Z) : ReplicationRequest :=
  MkReplicationRequest (toy_id n) (zeros 32) (zeros 32) (toy_id t) 0 p.

End Sample.

(** Reviving a failed job does not look for another job of the same key. *)
Definition duplicated : list use :=
  [Ask (Sample.request_to 1 2 5); Schedule 1; Finish (Sample.request_to 1 2 5) false [] 2;
   Ask (Sample.request_to 1 2 5); Retry 3].

Lemma retry_duplicates : waiting (uses duplicated []) = [Sample.request_to 1 2 5; Sample.request_to 1 2 5].
Proof. vm_compute. reflexivity. Qed.

Lemma coordinator_serves_witness :
  let jobs := uses [Ask (Sample.request_to 1 2 5); Ask (Sample.request_to 1 3 10); Retry 3] [] in
  active_job_count jobs <= 5 ∧
  let '(served, jobs') := serve [(1, 2, true); (3, 4, false)] jobs in
  served = [Sample.request_to 1 3 10; Sample.request_to 1 2 5] ∧ pending_job_count jobs' = 0.
Proof.
  pose proof (coordinator_serves 3 [Ask (Sample.request_to 1 2 5); Ask (Sample.request_to 1 3 10); Retry 3]
    ltac:(lia) ltac:(repeat constructor; cbn; lia)) as (Hb & _ & _ & Hs).
  split; [exact Hb|].
  specialize (Hs [(1, 2, true); (3, 4, false)] eq_refl ltac:(vm_compute; discriminate)).
  cbv zeta. destruct (serve _ _) as [served jobs']. destruct Hs as (-> & _ & Hp & _).
  split; [vm_compute; reflexivity|exact Hp].
Defined.
