(* ===== verification/TrustGraph.v ===== *)
(** Trust between nodes: [TrustGraph] of src/core/reputation/reputation.hpp and
    reputation.cpp, and [TrustPathFinder] of attestation.hpp and attestation.cpp.

    The graph is a map of maps; the loops visit their entries in key order.  The
    searches run over a queue with fuel: [None] is running out of it, which the
    theorems exclude.  The clock in seconds is the argument [now]. *)

From S2P Require Import Prelude Common Floats.

(** ** The graph *)

Record TrustEdge := MkTrustEdge {
  te_from : NodeID;
  te_to : NodeID;
  trust_weight : float;
  established_at : Z;
  last_updated : Z
}.

Abbreviation TrustEdges := (gmap NodeID TrustEdge).
Abbreviation TrustGraph := (gmap NodeID TrustEdges).

Definition is_strong (e : TrustEdge) : bool := fgeb (trust_weight e) (literal 7 10).
Definition is_weak (e : TrustEdge) : bool := fltb (trust_weight e) (literal 3 10).

(** [if (weight < 0.0f) weight = 0.0f; if (weight > 1.0f) weight = 1.0f;] *)
Definition clamp_weight (w : float) : float :=
  let w := if fltb w f_zero then f_zero else w in
  if fltb f_one w then f_one else w.

Definition out_edges (n : NodeID) (g : TrustGraph) : TrustEdges := default ∅ (g !! n).

Definition add_edge (from to : NodeID) (weight : float) (now : Z) (g : TrustGraph) : TrustGraph :=
  <[from := <[to := MkTrustEdge from to (clamp_weight weight) now now]> (out_edges from g)]> g.

Definition remove_edge (from to : NodeID) (g : TrustGraph) : TrustGraph :=
  match g !! from with
  | Some es => <[from := delete to es]> g
  | None => g
  end.

Definition update_edge_weight (from to : NodeID) (weight : float) (now : Z) (g : TrustGraph) :
    TrustGraph :=
  match g !! from with
  | None => add_edge from to weight now g
  | Some es =>
      match es !! to with
      | None => add_edge from to weight now g
      | Some e =>
          <[from := <[to := MkTrustEdge (te_from e) (te_to e) (clamp_weight weight)
                              (established_at e) now]> es]> g
      end
  end.

Definition get_direct_trust (from to : NodeID) (g : TrustGraph) : option float :=
  match g !! from with
  | None => None
  | Some es => trust_weight <$> es !! to
  end.

Definition trusted (e : TrustEdge) : bool := fltb (literal 3 10) (trust_weight e).

Definition trusts_edge (e : option TrustEdge) : bool :=
  match e with Some e => trusted e | None => false end.

Definition get_trusted_by (node : NodeID) (g : TrustGraph) : list NodeID :=
  fst <$> filter (λ p, trusts_edge (p.2 !! node) = true) (entries g).

Definition get_trusts (node : NodeID) (g : TrustGraph) : list NodeID :=
  match g !! node with
  | None => []
  | Some es => fst <$> filter (λ p, trusted p.2 = true) (entries es)
  end.

Definition get_all_nodes (g : TrustGraph) : list NodeID :=
  set_elements (foldl (λ s p, foldl (λ s q, {[q.1]} ∪ s) ({[p.1]} ∪ s) (entries p.2)) ∅ (entries g)).

Definition decay_edge_weights (factor : float) (g : TrustGraph) : TrustGraph :=
  (λ es : TrustEdges,
     (λ e, MkTrustEdge (te_from e) (te_to e) (fmul (trust_weight e) factor) (established_at e)
             (last_updated e)) <$> es) <$> g.

Definition weak_edges (threshold : float) (g : TrustGraph) : list (NodeID * NodeID) :=
  p ← entries g;
  (λ q, (p.1, q.1)) <$> filter (λ q, fltb (trust_weight q.2) threshold = true) (entries p.2).

Definition prune_weak_edges (threshold : float) (g : TrustGraph) : TrustGraph :=
  foldl (λ g p, remove_edge p.1 p.2 g) g (weak_edges threshold g).

(** The product of the weights along a path, from the left. *)
Fixpoint path_product (acc : float) (path : list NodeID) (g : TrustGraph) : float :=
  match path with
  | a :: (b :: _) as path' =>
      match get_direct_trust a b g with
      | None => f_zero
      | Some w => path_product (fmul acc w) path' g
      end
  | _ => acc
  end.

Definition calculate_path_trust (path : list NodeID) (g : TrustGraph) : float :=
  if (length path <? 2)%nat then f_one else path_product f_one path g.

(** ** Searches of the graph *)

(** The edges of a loop body that satisfy [take] and lead to an unseen node: the
    node is seen and [mk] of the edge is queued. *)
Definition visit {E Q} (node : E → NodeID) (take : E → bool) (mk : E → Q)
    (acc : gset NodeID * list Q) (e : E) : gset NodeID * list Q :=
  let '(seen, queue) := acc in
  if take e && negb (bool_decide (node e ∈ seen)) then ({[node e]} ∪ seen, queue ++ [mk e])
  else (seen, queue).

Fixpoint explore (fuel : nat) (min_trust : float) (g : TrustGraph) (community : gset NodeID)
    (to_explore : list NodeID) : option (gset NodeID) :=
  match fuel, to_explore with
  | _, [] => Some community
  | O, _ => None
  | S fuel, current :: to_explore =>
      let '(community, to_explore) :=
        foldl (visit fst (λ p, fgeb (trust_weight p.2) min_trust) fst) (community, to_explore)
          (entries (out_edges current g)) in
      explore fuel min_trust g community to_explore
  end.

(** Every node is explored once at most. *)
Definition search_fuel (g : TrustGraph) : nat := S (length (get_all_nodes g)).

Definition find_trust_community (node : NodeID) (min_trust : float) (g : TrustGraph) :
    option (gset NodeID) :=
  explore (search_fuel g) min_trust g {[node]} [node].

Fixpoint distance_loop (fuel : nat) (to : NodeID) (g : TrustGraph) (visited : gset NodeID)
    (queue : list (NodeID * Z)) : option (option Z) :=
  match fuel, queue with
  | _, [] => Some None
  | O, _ => None
  | S fuel, (current, distance) :: queue =>
      if decide (current = to) then Some (Some distance)
      else
        let '(visited, queue) :=
          foldl (visit id (λ _, true) (λ n, (n, u32 (distance + 1)))) (visited, queue)
            (get_trusts current g) in
        distance_loop fuel to g visited queue
  end.

Definition calculate_trust_distance (from to : NodeID) (g : TrustGraph) : option (option Z) :=
  if decide (from = to) then Some (Some 0)
  else distance_loop (search_fuel g) to g {[from]} [(from, 0)].

(** One edge of [calculate_transitive_trust]: a better trust is stored and queued. *)
Definition improve (current : NodeID) (hops : Z) (acc : gmap NodeID float * list (NodeID * Z))
    (p : NodeID * TrustEdge) : gmap NodeID float * list (NodeID * Z) :=
  let '(best, queue) := acc in
  let path_trust := fmul (at_or f_zero current best) (trust_weight p.2) in
  let better := match best !! p.1 with None => true | Some t => fltb t path_trust end in
  if better then (<[p.1 := path_trust]> best, queue ++ [(p.1, u32 (hops + 1))]) else (best, queue).

Fixpoint transitive_loop (fuel : nat) (max_hops : Z) (g : TrustGraph) (best : gmap NodeID float)
    (queue : list (NodeID * Z)) : option (gmap NodeID float) :=
  match fuel, queue with
  | _, [] => Some best
  | O, _ => None
  | S fuel, (current, hops) :: queue =>
      if max_hops <=? hops then transitive_loop fuel max_hops g best queue
      else
        let '(best, queue) := foldl (improve current hops) (best, queue) (entries (out_edges current g)) in
        transitive_loop fuel max_hops g best queue
  end.

(** How many iterations one queue entry with [hops] left can cause, when no node
    has more than [degree] edges. *)
Fixpoint iterations (degree hops : nat) : nat :=
  match hops with
  | O => 1
  | S hops => S (degree * iterations degree hops)
  end.

Definition max_degree (g : TrustGraph) : nat := max_list (size <$> (entries g).*2).

Definition calculate_transitive_trust (from to : NodeID) (max_hops : Z) (g : TrustGraph) :
    option float :=
  if decide (from = to) then Some f_one
  else
    match get_direct_trust from to g with
    | Some t => Some t
    | None =>
        best ← transitive_loop (iterations (max_degree g) (Z.to_nat max_hops)) max_hops g
                 {[from := f_one]} [(from, 0)];
        Some (at_or f_zero to best)
    end.

(** ** Paths *)

(** [room] is [max_hops] less the length of the path; [visited] is changed and
    changed back. *)
Fixpoint dfs_find_paths (room : nat) (current target : NodeID) (path : list NodeID) (g : TrustGraph)
    (acc : list (list NodeID) * gset NodeID) : list (list NodeID) * gset NodeID :=
  match room with
  | O => acc
  | S room =>
      let '(all_paths, visited) := acc in
      if decide (current = target) then (all_paths ++ [path], visited)
      else
        let '(all_paths, visited) :=
          foldl (λ acc next,
                   if decide (next ∈ acc.2) then acc
                   else dfs_find_paths room next target (path ++ [next]) g acc)
            (all_paths, {[current]} ∪ visited) (get_trusts current g) in
        (all_paths, visited ∖ {[current]})
  end.

Definition find_all_paths (from to : NodeID) (max_hops : Z) (g : TrustGraph) : list (list NodeID) :=
  (dfs_find_paths (Z.to_nat max_hops - 1) from to [from] g ([], ∅)).1.

Definition calculate_path_strength (path : list NodeID) (g : TrustGraph) : float :=
  if (length path <? 2)%nat then f_zero else path_product f_one path g.

Definition stronger (g : TrustGraph) (best : float * list NodeID) (path : list NodeID) :
    float * list NodeID :=
  let strength := calculate_path_strength path g in
  if fltb best.1 strength then (strength, path) else best.

Definition find_strongest_path (from to : NodeID) (max_hops : Z) (g : TrustGraph) :
    option (list NodeID) :=
  match find_all_paths from to max_hops g with
  | [] => None
  | all_paths => Some (foldl (stronger g) (f_zero, []) all_paths).2
  end.

Definition at_least (min_trust : float) (t : option float) : bool :=
  match t with Some t => fgeb t min_trust | None => false end.

Definition find_common_trusted_nodes (a b : NodeID) (min_trust : float) (g : TrustGraph) :
    list NodeID :=
  filter (λ n, n ∈ get_trusts a g ∧ at_least min_trust (get_direct_trust a n g) = true ∧
               at_least min_trust (get_direct_trust b n g) = true)
    (get_trusts b g).

(** Whether [node] is inside the path: neither its first nor its last node. *)
Definition passes_through (node : NodeID) (path : list NodeID) : bool :=
  bool_decide (node ∈ take (length path - 2) (drop 1 path)).

Definition count_pair (node : NodeID) (g : TrustGraph) (acc : float * float) (p : NodeID * NodeID) :
    float * float :=
  let '(total, through) := acc in
  let '(source, target) := p in
  if decide (source = target ∨ source = node ∨ target = node) then acc
  else
    match find_strongest_path source target 6 g with
    | None => acc
    | Some path =>
        if (length path <? 2)%nat then acc
        else (fadd total f_one, if passes_through node path then fadd through f_one else through)
    end.

Definition calculate_betweenness_centrality (node : NodeID) (g : TrustGraph) : float :=
  let nodes := get_all_nodes g in
  if (length nodes <? 3)%nat then f_zero
  else
    let '(total, through) :=
      foldl (λ acc source, foldl (λ acc target, count_pair node g acc (source, target)) acc nodes)
        (f_zero, f_zero) nodes in
    if SFeqb total f_zero then f_zero else fdiv through total.

Definition find_bridge_nodes (min_betweenness : float) (g : TrustGraph) : list NodeID :=
  filter (λ n, fgeb (calculate_betweenness_centrality n g) min_betweenness = true) (get_all_nodes g).

Definition find_trust_hubs (min_incoming : Z) (g : TrustGraph) : list NodeID :=
  filter (λ n, min_incoming <= u32 (len (get_trusted_by n g))) (get_all_nodes g).

(** ** Edges as relations *)

Definition edge (g : TrustGraph) (a b : NodeID) (e : TrustEdge) : Prop := out_edges a g !! b = Some e.

Definition trusts (g : TrustGraph) (a b : NodeID) : Prop := ∃ e, edge g a b e ∧ trusted e = true.

Definition strong_enough (m : float) (g : TrustGraph) (a b : NodeID) : Prop :=
  ∃ e, edge g a b e ∧ fgeb (trust_weight e) m = true.

Definition linked (g : TrustGraph) (a b : NodeID) : Prop := ∃ e, edge g a b e.

Lemma elem_of_get_trusts a b g : b ∈ get_trusts a g ↔ trusts g a b.
Proof.
  unfold get_trusts, trusts, edge, out_edges. destruct (g !! a) as [es|]; cbn.
  - rewrite list_elem_of_fmap. split.
    + intros ([b' e] & -> & [Ht He]%list_elem_of_filter). apply elem_of_entries in He. by exists e.
    + intros (e & He & Ht). exists (b, e). split; [done|].
      by apply list_elem_of_filter; rewrite elem_of_entries.
  - split; [by intros ?%elem_of_nil|]. intros (e & He & _). by rewrite lookup_empty in He.
Qed.

Lemma NoDup_get_trusts a g : NoDup (get_trusts a g).
Proof.
  unfold get_trusts. destruct (g !! a) as [es|]; [|apply NoDup_nil_2].
  eapply sublist_NoDup; [apply (NoDup_entries es)|]. apply fmap_sublist, sublist_filter.
Qed.

Lemma direct_trust a b g t : get_direct_trust a b g = Some t ↔ ∃ e, edge g a b e ∧ trust_weight e = t.
Proof.
  unfold get_direct_trust, edge, out_edges. destruct (g !! a) as [es|]; cbn.
  - rewrite fmap_Some. naive_solver.
  - split; [done|]. intros (e & He & _). by rewrite lookup_empty in He.
Qed.

(** *** Changing an edge *)

Lemma add_edge_trust from to w now g a b :
  get_direct_trust a b (add_edge from to w now g) =
  if decide (from = a ∧ to = b) then Some (clamp_weight w) else get_direct_trust a b g.
Proof.
  unfold get_direct_trust, add_edge, out_edges. destruct (decide (from = a)) as [->|Ha].
  - rewrite lookup_insert_eq. destruct (decide (to = b)) as [->|Hb].
    + rewrite lookup_insert_eq, decide_True by done. done.
    + rewrite lookup_insert_ne, decide_False by (done || tauto). by destruct (g !! a).
  - rewrite lookup_insert_ne, decide_False by (done || tauto). done.
Qed.

Lemma remove_edge_trust from to g a b :
  get_direct_trust a b (remove_edge from to g) =
  if decide (from = a ∧ to = b) then None else get_direct_trust a b g.
Proof.
  unfold get_direct_trust, remove_edge. destruct (g !! from) as [es|] eqn:E.
  - destruct (decide (from = a)) as [->|Ha].
    + rewrite lookup_insert_eq, E. destruct (decide (to = b)) as [->|Hb].
      * by rewrite lookup_delete_eq, decide_True.
      * by rewrite lookup_delete_ne, decide_False by (done || tauto).
    + by rewrite lookup_insert_ne, decide_False by (done || tauto).
  - case_decide as Hd; [|done]. destruct Hd as [-> _]. by rewrite E.
Qed.

Lemma decay_edge_trust factor g a b :
  get_direct_trust a b (decay_edge_weights factor g) =
  (λ w, fmul w factor) <$> get_direct_trust a b g.
Proof.
  unfold get_direct_trust, decay_edge_weights. rewrite lookup_fmap.
  destruct (g !! a) as [es|]; [|done]. cbn. rewrite lookup_fmap. by destruct (es !! b).
Qed.

Lemma clamp_weight_nonneg w : is_nan w = false → nonneg (clamp_weight w) = true.
Proof.
  intros Hw. unfold clamp_weight. destruct (fltb w f_zero) eqn:E; [done|].
  destruct (fltb f_one w); [done|]. destruct (not_below_zero w E); [congruence|done].
Qed.

(** *** All nodes *)

Lemma add_targets (l : list (NodeID * TrustEdge)) (s : gset NodeID) x :
  x ∈ foldl (λ s q, {[q.1]} ∪ s) s l ↔ x ∈ s ∨ x ∈ l.*1.
Proof. revert s. induction l as [|q l IH]; intros s; cbn; [set_solver|]. rewrite IH. set_solver. Qed.

Lemma add_sources (l : list (NodeID * TrustEdges)) (s : gset NodeID) x :
  x ∈ foldl (λ s p, foldl (λ s q, {[q.1]} ∪ s) ({[p.1]} ∪ s) (entries p.2)) s l ↔
  x ∈ s ∨ ∃ p, p ∈ l ∧ (x = p.1 ∨ x ∈ (entries p.2).*1).
Proof.
  revert s. induction l as [|q l IH]; intros s; cbn [foldl].
  - split; [by left|]. intros [?|(p & ?%elem_of_nil & _)]; done.
  - rewrite IH, add_targets, elem_of_union, elem_of_singleton. setoid_rewrite elem_of_cons. naive_solver.
Qed.

Lemma linked_node a b g : linked g a b → a ∈ get_all_nodes g ∧ b ∈ get_all_nodes g.
Proof.
  intros (e & He). unfold edge, out_edges in He.
  destruct (g !! a) as [es|] eqn:E; cbn in He; [|by rewrite lookup_empty in He].
  unfold get_all_nodes. rewrite !elem_of_set_elements, !add_sources.
  apply elem_of_entries in E. apply elem_of_entries in He.
  split; right; (exists (a, es); split; [done|]); [by left|right].
  by apply (list_elem_of_fmap_2 fst _ (b, e)).
Qed.

(** *** One round of a search *)

Lemma visit_spec {E Q} (node : E → NodeID) take (mk : E → Q) l seen queue :
  let '(seen', queue') := foldl (visit node take mk) (seen, queue) l in
  ∃ new, queue' = queue ++ (mk <$> new) ∧ seen' = list_to_set (node <$> new) ∪ seen ∧
    NoDup (node <$> new) ∧
    (∀ e, e ∈ new → e ∈ l ∧ take e = true ∧ node e ∉ seen) ∧
    (∀ e, e ∈ l → take e = true → node e ∈ seen').
Proof.
  revert seen queue. induction l as [|e l IH]; intros seen queue; cbn [foldl].
  - exists []. split_and!; cbn; [by rewrite app_nil_r|set_solver|apply NoDup_nil_2|set_solver|set_solver].
  - unfold visit at 2. destruct (take e && negb (bool_decide (node e ∈ seen))) eqn:Ht.
    + apply andb_true_iff in Ht as [Ht Hn]. apply negb_true_iff in Hn. bool_to_prop.
      specialize (IH ({[node e]} ∪ seen) (queue ++ [mk e])).
      destruct (foldl _ _ l) as [seen' queue']. destruct IH as (new & -> & -> & Hd & Hin & Hall).
      exists (e :: new). split_and!.
      * by rewrite <- app_assoc.
      * cbn. set_solver.
      * cbn. apply list.NoDup_cons. split; [|done].
        intros (e' & He & He')%list_elem_of_fmap. destruct (Hin e' He') as (_ & _ & Hs). set_solver.
      * intros e' [->|He']%elem_of_cons; [set_solver|]. destruct (Hin e' He') as (? & ? & ?). set_solver.
      * intros e' [->|He']%elem_of_cons Ht'; [set_solver|auto].
    + specialize (IH seen queue).
      destruct (foldl _ _ l) as [seen' queue']. destruct IH as (new & -> & -> & Hd & Hin & Hall).
      exists new. split_and!; [done..|set_solver|].
      intros e' [->|He']%elem_of_cons Ht'; [|auto]. rewrite Ht' in Ht. cbn in Ht.
      apply negb_false_iff in Ht. bool_to_prop. set_solver.
Qed.

(** *** Fuel *)

Definition unseen (g : TrustGraph) (seen : gset NodeID) : nat :=
  length (filter (λ n, n ∉ seen) (get_all_nodes g)).

Lemma unseen_visit g seen (new : list NodeID) :
  NoDup new → (∀ n, n ∈ new → n ∈ get_all_nodes g ∧ n ∉ seen) →
  (unseen g (list_to_set new ∪ seen) + length new = unseen g seen)%nat.
Proof.
  intros Hd Hn. unfold unseen.
  assert (filter (λ n, n ∉ seen) (get_all_nodes g) ≡ₚ
          filter (λ n, n ∉ list_to_set new ∪ seen) (get_all_nodes g) ++ new) as ->.
  { apply NoDup_Permutation.
    - apply list.NoDup_filter, NoDup_set_elements.
    - apply list.NoDup_app. split_and!; [apply list.NoDup_filter, NoDup_set_elements| |done].
      intros x [Hx _]%list_elem_of_filter. set_solver.
    - intros x. rewrite elem_of_app, !list_elem_of_filter. split.
      + intros [Hs Ha]. destruct (decide (x ∈ new)); [by right|left]. set_solver.
      + intros [[Hs Ha]|Hx]; [set_solver|]. destruct (Hn x Hx). by split. }
  by rewrite length_app.
Qed.

Lemma unseen_start g seen : (unseen g seen <= length (get_all_nodes g))%nat.
Proof. apply length_filter. Qed.

(** ** Communities *)

Record community_inv (m : float) (g : TrustGraph) (node : NodeID) (community : gset NodeID)
    (queue : list NodeID) : Prop := {
  ci_start : node ∈ community;
  ci_queued : ∀ x, x ∈ queue → x ∈ community;
  ci_reached : ∀ x, x ∈ community → rtc (strong_enough m g) node x;
  ci_closed : ∀ x, x ∈ community → x ∈ queue ∨ ∀ y, strong_enough m g x y → y ∈ community
}.

Lemma strong_entries m g x p :
  p ∈ entries (out_edges x g) → fgeb (trust_weight p.2) m = true → strong_enough m g x p.1.
Proof. destruct p as [y e]. intros He%elem_of_entries Hm. by exists e. Qed.

Lemma strong_linked m g x y : strong_enough m g x y → linked g x y.
Proof. intros (e & He & _). by exists e. Qed.

Lemma explore_exact m g node fuel community queue :
  community_inv m g node community queue → (length queue + unseen g community <= fuel)%nat →
  ∃ c, explore fuel m g community queue = Some c ∧ ∀ n, n ∈ c ↔ rtc (strong_enough m g) node n.
Proof.
  revert community queue. induction fuel as [|fuel IH]; intros community queue [Hs Hq Hr Hc] Hf.
  all: destruct queue as [|current queue]; cbn [explore length] in *; try lia.
  1-2: exists community; split; [done|]; intros n; split; [apply Hr|];
    intros Hn; apply (rtc_ind_r (R := strong_enough m g) (λ n, n ∈ community) node); [done| |done];
    intros y z _ Hyz Hy; (destruct (Hc y Hy) as [?%elem_of_nil|Hcl]; [done|by apply Hcl]).
  pose proof (visit_spec fst (λ p : NodeID * TrustEdge, fgeb (trust_weight p.2) m) fst
    (entries (out_edges current g)) community queue) as Hv.
  destruct (foldl _ _ _) as [community' queue']. destruct Hv as (new & -> & -> & Hd & Hnew & Hall).
  assert (current ∈ community) as Hcur by set_solver.
  assert (∀ x, x ∈ new.*1 → strong_enough m g current x ∧ x ∉ community) as Hx.
  { intros x (p & -> & Hp)%list_elem_of_fmap. destruct (Hnew p Hp) as (He & Hm & Hn).
    split; [by apply strong_entries|done]. }
  apply IH.
  - split.
    + set_solver.
    + intros x [Hx'|Hx']%elem_of_app; set_solver.
    + intros x [Hn%elem_of_list_to_set|Hn]%elem_of_union; [|auto].
      apply rtc_r with current; [auto|]. by apply Hx.
    + intros x [Hn%elem_of_list_to_set|Hn]%elem_of_union; [left; set_solver|].
      destruct (Hc x Hn) as [[->|Hxq]%elem_of_cons|Hxc]; [right|left; set_solver|right; set_solver].
      intros y (e & He & Hm). apply (Hall (y, e)); [by apply elem_of_entries|done].
  - pose proof (unseen_visit g community new.*1 Hd) as Hu. rewrite length_app, length_fmap.
    rewrite length_fmap in Hu. rewrite <- Hu in Hf; [lia|].
    intros x Hxn. destruct (Hx x Hxn) as [Hl ?]. split; [|done].
    by apply (linked_node current x), (strong_linked m).
Qed.

Lemma find_trust_community_exact node m g :
  ∃ c, find_trust_community node m g = Some c ∧ ∀ n, n ∈ c ↔ rtc (strong_enough m g) node n.
Proof.
  apply explore_exact.
  - split; [set_solver|set_solver| |].
    + by intros x ->%elem_of_singleton.
    + intros x ->%elem_of_singleton. left. set_solver.
  - unfold search_fuel. pose proof (unseen_start g {[node]}). cbn [length]. lia.
Qed.

(** ** Distances *)

Section distance.
Context (g : TrustGraph) (from to : NodeID).

Definition at_distance (k : nat) (n : NodeID) : Prop :=
  nsteps (trusts g) k from n ∧ ∀ j, (j < k)%nat → ¬ nsteps (trusts g) j from n.

Definition level (d : nat) : NodeID → NodeID * Z := λ n, (n, Z.of_nat d).

(** The queue holds what is left of level [d] and what is found of the next. *)
Record distance_inv (d : nat) (front back : list NodeID) (visited : gset NodeID) : Prop := {
  di_front : ∀ n, n ∈ front → at_distance d n;
  di_back : ∀ n, n ∈ back → at_distance (S d) n;
  di_queued : ∀ n, n ∈ front ++ back → n ∈ visited;
  di_near : ∀ n k, nsteps (trusts g) k from n → (k <= d)%nat → n ∈ visited;
  di_target : to ∈ visited → to ∈ front ++ back;
  di_closed : ∀ x, x ∈ visited → x ∈ front ++ back ∨ ∀ y, trusts g x y → y ∈ visited;
  di_room_front : front ≠ [] → (d + unseen g visited <= length (get_all_nodes g))%nat;
  di_room_back : back ≠ [] → (S d + unseen g visited <= length (get_all_nodes g))%nat
}.

Lemma next_level d back visited :
  distance_inv d [] back visited → distance_inv (S d) back [] visited.
Proof.
  intros [H1 H2 H3 H4 H5 H6 H7 H8]. split; cbn in *; rewrite ?app_nil_r; try done.
  - by intros n ?%elem_of_nil.
  - intros n k Hn Hk. destruct (decide (k <= d)%nat) as [Hd|Hd]; [by apply (H4 n k)|].
    assert (k = S d) as -> by lia. apply nsteps_inv_r in Hn as (x & Hx & Hxn).
    destruct (H6 x) as [Hb|Hc]; [by apply (H4 x d)| |by apply Hc].
    destruct (H2 x Hb) as [_ Hm]. by destruct (Hm d ltac:(lia)).
Qed.

(** What the search answers. *)
Definition distance_answer (r : option Z) : Prop :=
  match r with
  | Some z => ∃ k : nat, z = Z.of_nat k ∧ at_distance k to
  | None => ¬ rtc (trusts g) from to
  end.

Lemma distance_step d c front back visited fuel :
  len (get_all_nodes g) < 2 ^ 32 →
  (∀ d front back visited, distance_inv d front back visited →
     (length (front ++ back) + unseen g visited <= fuel)%nat →
     ∃ r, distance_loop fuel to g visited ((level d <$> front) ++ (level (S d) <$> back)) = Some r ∧
          distance_answer r) →
  distance_inv d (c :: front) back visited →
  (length ((c :: front) ++ back) + unseen g visited <= S fuel)%nat →
  ∃ r, distance_loop (S fuel) to g visited ((level d <$> c :: front) ++ (level (S d) <$> back)) = Some r ∧
       distance_answer r.
Proof.
  intros HN IH [H1 H2 H3 H4 H5 H6 H7 H8] Hf. cbn [fmap list_fmap app distance_loop level length] in *.
  destruct (decide (c = to)) as [->|Hc].
  { exists (Some (Z.of_nat d)). split; [done|]. exists d. split; [done|]. apply H1. set_solver. }
  specialize (H7 ltac:(done)). unfold len in HN.
  pose proof (visit_spec id (λ _, true) (λ n, (n, u32 (Z.of_nat d + 1))) (get_trusts c g) visited
    ((level d <$> front) ++ (level (S d) <$> back))) as Hv.
  change (list_fmap _ _ ?f ?l) with (f <$> l) in *.
  destruct (foldl _ _ _) as [visited' queue']. destruct Hv as (new & -> & -> & Hd & Hnew & Hall).
  rewrite list_fmap_id in *.
  assert (∀ n, n ∈ new → trusts g c n ∧ n ∉ visited) as Hn.
  { intros n Hin. destruct (Hnew n Hin) as (Hg & _ & Hv). by rewrite <- elem_of_get_trusts. }
  assert (unseen g (list_to_set new ∪ visited) + length new = unseen g visited)%nat as Hu.
  { apply unseen_visit; [done|]. intros n Hin. destruct (Hn n Hin) as [(e & He & _) ?]. split; [|done].
    apply (linked_node c n). by exists e. }
  assert (((λ n : NodeID, (n, u32 (Z.of_nat d + 1))) <$> new) = (level (S d) <$> new)) as ->.
  { destruct new as [|x new]; [done|]. cbn [length] in Hu. unfold level.
    rewrite wrap_small by (unfold in_u; lia). by rewrite Nat2Z.inj_succ. }
  rewrite <- app_assoc, <- fmap_app. apply IH.
  - assert (∀ n, n ∈ new → at_distance (S d) n) as Ha.
    { intros n Hin. destruct (Hn n Hin) as [Ht Hv]. split.
      - apply nsteps_r with c; [apply H1; set_solver|done].
      - intros j Hj Hs. apply Hv, (H4 n j); [done|lia]. }
    split.
    + intros n Hin. apply H1. set_solver.
    + intros n [Hin|Hin]%elem_of_app; [by apply H2|by apply Ha].
    + set_solver.
    + intros n k Hk Hle. apply elem_of_union_r. by apply (H4 n k).
    + intros [Ht%elem_of_list_to_set|Ht]%elem_of_union; [set_solver|]. specialize (H5 Ht). set_solver.
    + intros x [Hx%elem_of_list_to_set|Hx]%elem_of_union; [left; set_solver|].
      destruct (H6 x Hx) as [[->|Hq]%elem_of_cons|Hcl]; [right|left; set_solver|right; set_solver].
      intros y Hy. apply (Hall y); [by apply elem_of_get_trusts|done].
    + intros _. lia.
    + intros Hb. destruct new as [|x new]; cbn [length] in Hu; [|lia].
      rewrite app_nil_r in Hb. specialize (H8 Hb). lia.
  - rewrite app_assoc, length_app. lia.
Qed.

Lemma distance_exact fuel d front back visited :
  len (get_all_nodes g) < 2 ^ 32 → distance_inv d front back visited →
  (length (front ++ back) + unseen g visited <= fuel)%nat →
  ∃ r, distance_loop fuel to g visited ((level d <$> front) ++ (level (S d) <$> back)) = Some r ∧
       distance_answer r.
Proof.
  intros HN. revert d front back visited. induction fuel as [|fuel IH]; intros d front back visited Hi Hf.
  all: destruct front as [|c front]; [destruct back as [|c back]|].
  1,4: exists None; split; [done|]; intros Hr; cut (to ∈ visited);
    [intros Ht; by apply (di_target _ _ _ _ Hi), elem_of_nil in Ht|];
    apply (rtc_ind_r (R := trusts g) (λ n, n ∈ visited) from); [| |done];
    [by apply (di_near _ _ _ _ Hi from O); [constructor|lia]|];
    intros y z _ Hyz Hy; (destruct (di_closed _ _ _ _ Hi y Hy) as [?%elem_of_nil|Hcl]; [done|by apply Hcl]).
  1-2: cbn in Hf; lia.
  - apply next_level in Hi. pose proof (distance_step (S d) c back [] visited fuel HN IH Hi) as Hs.
    cbn [fmap list_fmap] in Hs. rewrite !app_nil_r in Hs. by apply Hs.
  - by apply distance_step.
Qed.

End distance.

Lemma calculate_trust_distance_exact from to g :
  len (get_all_nodes g) < 2 ^ 32 →
  ∃ r, calculate_trust_distance from to g = Some r ∧ distance_answer g from to r.
Proof.
  intros HN. unfold calculate_trust_distance. destruct (decide (from = to)) as [->|Hne].
  - exists (Some 0). split; [done|]. exists O. split; [done|]. split; [constructor|lia].
  - apply (distance_exact g from to (search_fuel g) 0 [from] [] {[from]}); [done| |].
    + split; cbn.
      * intros n ->%list_elem_of_singleton. split; [constructor|lia].
      * by intros n ?%elem_of_nil.
      * set_solver.
      * intros n k Hk Hle. assert (k = O) as -> by lia. inversion Hk; subst. set_solver.
      * set_solver.
      * set_solver.
      * intros _. apply unseen_start.
      * done.
    + unfold search_fuel. pose proof (unseen_start g {[from]}). cbn. lia.
Qed.

(** ** Transitive trust *)

(** Consecutive nodes of a path are related. *)
Fixpoint is_path (R : NodeID → NodeID → Prop) (p : list NodeID) : Prop :=
  match p with
  | a :: (b :: _) as p' => R a b ∧ is_path R p'
  | _ => True
  end.

(** The last node, if any. *)
Abbreviation last := list.last.

Lemma is_path_snoc (R : NodeID → NodeID → Prop) p a b : last p = Some a → is_path R p → R a b → is_path R (p ++ [b]).
Proof.
  intros Hl Hp Hr. induction p as [|x p IH]; [done|]. destruct p as [|y p].
  - injection Hl as ->. by split.
  - destruct Hp as [Hxy Hp]. cbn. split; [done|]. by apply IH.
Qed.

Lemma path_product_snoc acc p a b w g :
  last p = Some a → is_path (linked g) p → get_direct_trust a b g = Some w →
  path_product acc (p ++ [b]) g = fmul (path_product acc p g) w.
Proof.
  intros Hl Hp Hw. revert acc. induction p as [|x p IH]; intros acc; [done|]. destruct p as [|y p].
  - injection Hl as ->. cbn. by rewrite Hw.
  - destruct Hp as [[e He] Hp]. cbn. assert (get_direct_trust x y g = Some (trust_weight e)) as ->.
    { apply direct_trust. by exists e. }
    by apply IH.
Qed.

Section transitive.
Context (g : TrustGraph) (from : NodeID).

(** [t] is the trust of a walk to [n]. *)
Definition walk_trust (n : NodeID) (t : float) : Prop :=
  ∃ p, head p = Some from ∧ last p = Some n ∧ is_path (linked g) p ∧ path_product f_one p g = t.

Definition walks (best : gmap NodeID float) : Prop := ∀ n t, best !! n = Some t → walk_trust n t.

Lemma walk_snoc a t b e :
  walk_trust a t → edge g a b e → walk_trust b (fmul t (trust_weight e)).
Proof.
  intros (p & Hh & Hl & Hp & <-) He. exists (p ++ [b]). split_and!.
  - by destruct p.
  - by rewrite last_snoc.
  - apply (is_path_snoc _ _ a); [done..|]. by exists e.
  - apply (path_product_snoc _ _ a); [done..|]. apply direct_trust. by exists e.
Qed.

Lemma improve_spec c h (es : list (NodeID * TrustEdge)) best queue :
  walks best → c ∈ dom best → (∀ p, p ∈ es → edge g c p.1 p.2) →
  let '(best', queue') := foldl (improve c h) (best, queue) es in
  ∃ new : list NodeID, queue' = queue ++ ((λ n, (n, u32 (h + 1))) <$> new) ∧
    (length new <= length es)%nat ∧ (∀ n, n ∈ new → n ∈ dom best') ∧
    dom best' = dom best ∪ list_to_set es.*1 ∧ (∀ n, n ∈ dom best' → n ∉ dom best → n ∈ new) ∧
    walks best'.
Proof.
  revert best queue. induction es as [|[n e] es IH]; intros best queue Hw Hc He; cbn [foldl].
  { exists []. split_and!; cbn; [by rewrite app_nil_r|lia|set_solver|set_solver|set_solver|done]. }
  unfold improve at 2. cbn [fst snd].
  set (t := fmul (at_or f_zero c best) (trust_weight e)).
  assert (walk_trust n t) as Ht.
  { apply elem_of_dom in Hc as [tc Hc]. unfold t, at_or. rewrite Hc. cbn.
    apply (walk_snoc c); [by apply Hw|]. apply (He (n, e)). set_solver. }
  assert (∀ p, p ∈ es → edge g c p.1 p.2) as He' by (intros p Hp; apply He; set_solver).
  destruct (match best !! n with None => true | Some t' => fltb t' t end) eqn:Eb.
  - specialize (IH (<[n := t]> best) (queue ++ [(n, u32 (h + 1))])).
    destruct (foldl _ _ es) as [best' queue'].
    destruct IH as (new & -> & Hl & Hin & Hd & Hn & Hw'); [|set_solver|done|].
    { intros m t' [[<- <-]|[_ Hm]]%lookup_insert_Some; [done|by apply Hw]. }
    exists (n :: new). split_and!; [by rewrite <- app_assoc|cbn; lia| | | |done].
    + intros m [->|Hm]%elem_of_cons; [|by apply Hin]. rewrite Hd. set_solver.
    + rewrite Hd. cbn. set_solver.
    + intros m Hm Hm'. destruct (decide (m = n)) as [->|Hne]; [left|]. right. apply Hn; set_solver.
  - specialize (IH best queue Hw Hc He'). destruct (foldl _ _ es) as [best' queue'].
    destruct IH as (new & -> & Hl & Hin & Hd & Hn & Hw').
    assert (n ∈ dom best) by (destruct (best !! n) eqn:Em; [by eapply elem_of_dom_2|done]).
    exists new. split_and!; [done|cbn; lia|done| |done|done]. rewrite Hd. cbn. set_solver.
Qed.

(** *** Fuel *)

Fixpoint work (H : nat) (qs : list (NodeID * nat)) : nat :=
  match qs with
  | [] => O
  | q :: qs => iterations (max_degree g) (H - q.2) + work H qs
  end.

Lemma iterations_pos d h : (1 <= iterations d h)%nat.
Proof. destruct h; cbn; lia. Qed.

Lemma degree_bound c : (length (entries (out_edges c g)) <= max_degree g)%nat.
Proof.
  rewrite length_entries. unfold out_edges. destruct (g !! c) as [es|] eqn:E; cbn [default];
    [|rewrite map_size_empty; lia].
  unfold max_degree. apply elem_of_entries in E.
  assert (size es ∈ size <$> (entries g).*2) as Hs.
  { apply list_elem_of_fmap_2. apply (list_elem_of_fmap_2 snd _ (c, es)). exact E. }
  by apply (max_list_elem_of_le (size es)) in Hs.
Qed.

Lemma work_app H qs rs : work H (qs ++ rs) = (work H qs + work H rs)%nat.
Proof. induction qs as [|q qs IH]; cbn [app work]; lia. Qed.

Lemma work_new H h (new : list NodeID) :
  work H ((λ n, (n, h)) <$> new) = (length new * iterations (max_degree g) (H - h))%nat.
Proof. induction new as [|n new IH]; [done|]. rewrite fmap_cons. cbn [work length snd]. rewrite IH. lia. Qed.

(** *** The loop *)

(** What is on the queue and not on the way to a known end; [lev] is the number
    of edges after which a node was first found. *)
Record transitive_inv (H : nat) (best : gmap NodeID float) (qs : list (NodeID * nat))
    (lev : gmap NodeID nat) : Prop := {
  ti_dom : dom lev = dom best;
  ti_from : lev !! from = Some O;
  ti_walks : walks best;
  ti_queue : ∀ n h, (n, h) ∈ qs → ∃ l, lev !! n = Some l ∧ (l <= h)%nat;
  ti_sorted : StronglySorted (λ p q : NodeID * nat, (p.2 <= q.2)%nat) qs;
  ti_lev : ∀ n h n' l, (n, h) ∈ qs → lev !! n' = Some l → (l <= S h)%nat;
  ti_near : ∀ n h n' h', (n, h) ∈ qs → (n', h') ∈ qs → (h' <= S h)%nat;
  ti_done : ∀ x l, lev !! x = Some l →
    (x, l) ∈ qs ∨ (H <= l)%nat ∨ ∀ y, linked g x y → ∃ l', lev !! y = Some l' ∧ (l' <= S l)%nat
}.

Definition as_hops (q : NodeID * nat) : NodeID * Z := (q.1, Z.of_nat q.2).

Lemma transitive_tail H best c h qs lev :
  transitive_inv H best ((c, h) :: qs) lev → (H <= h)%nat → transitive_inv H best qs lev.
Proof.
  intros [H1 H2 H3 H4 H5 H6 H7 H8] Hh. split; try done.
  - intros n h' Hn. apply H4. by right.
  - by apply StronglySorted_inv in H5 as [? _].
  - intros n h' n' l Hn. apply (H6 n h'). by right.
  - intros n h' n' h2 Hn Hn'. apply (H7 n h' n' h2); by right.
  - intros x l Hx. destruct (H8 x l Hx) as [[Heq|Hq]%elem_of_cons|Hd]; [|by left|by right].
    injection Heq as -> ->. right. by left.
Qed.

Lemma transitive_expand H best best' c h qs lev (new : list NodeID) :
  transitive_inv H best ((c, h) :: qs) lev → (h < H)%nat →
  dom best' = dom best ∪ list_to_set (entries (out_edges c g)).*1 → walks best' →
  (∀ n, n ∈ new → n ∈ dom best') → (∀ n, n ∈ dom best' → n ∉ dom best → n ∈ new) →
  transitive_inv H best' (qs ++ ((λ n, (n, S h)) <$> new)) (lev ∪ gset_to_gmap (S h) (dom best')).
Proof.
  intros [H1 H2 H3 H4 H5 H6 H7 H8] Hh Hdom Hw Hnew Hfresh.
  assert (∀ n l, (lev ∪ gset_to_gmap (S h) (dom best')) !! n = Some l ↔
            lev !! n = Some l ∨ (lev !! n = None ∧ n ∈ dom best' ∧ l = S h)) as Hlev.
  { intros n l. rewrite lookup_union_Some_raw, lookup_gset_to_gmap_Some. naive_solver. }
  assert (∀ n l, lev !! n = Some l → (l <= S h)%nat) as Hle by (intros n l; apply (H6 c); by left).
  assert (∀ n h', (n, h') ∈ qs → (h <= h' <= S h)%nat) as Hqs.
  { intros n h' Hn. apply StronglySorted_inv in H5 as [_ H5]. rewrite list.Forall_forall in H5.
    specialize (H5 _ Hn). specialize (H7 c h n h' ltac:(by left) ltac:(by right)). cbn in *. lia. }
  assert (∀ n h', (n, h') ∈ qs ++ ((λ n, (n, S h)) <$> new) → (n, h') ∈ qs ∨ h' = S h ∧ n ∈ new) as Hq.
  { intros n h' [Hn|(x & [= -> ->] & Hx)%list_elem_of_fmap]%elem_of_app; [by left|by right]. }
  assert (∀ n h', (n, h') ∈ qs ++ ((λ n, (n, S h)) <$> new) → (h <= h' <= S h)%nat) as Hqr.
  { intros n h' [Hn|[-> _]]%Hq; [by apply (Hqs n)|lia]. }
  split; [| | | | | | |].
  - rewrite dom_union_L, dom_gset_to_gmap, H1, Hdom. by rewrite (assoc_L (∪)), (idemp_L (∪)).
  - apply Hlev. by left.
  - done.
  - intros n h' [Hn|[-> Hn]]%Hq.
    + destruct (H4 n h') as (l & Hl & ?); [by right|]. exists l. split; [|done]. apply Hlev. by left.
    + destruct (lev !! n) as [l|] eqn:El; [exists l|exists (S h)]; rewrite Hlev; split; eauto.
  - apply StronglySorted_app_2; [|by apply StronglySorted_inv in H5 as [? _]|].
    + intros [n1 h1] [n2 h2] Hn1%Hqs (x & [= -> ->] & _)%list_elem_of_fmap. cbn. lia.
    + clear. induction new as [|n new IH]; [constructor|]. rewrite fmap_cons. constructor; [done|].
      rewrite list.Forall_forall. by intros q (x & -> & _)%list_elem_of_fmap.
  - intros n h' n' l Hn%Hqr [Hl|(_ & _ & ->)]%Hlev; [specialize (Hle _ _ Hl)|]; lia.
  - intros n h' n' h2 Hn%Hqr Hn'%Hqr. lia.
  - intros x l [Hx|(Hx & Hxd & ->)]%Hlev.
    + destruct (H8 x l Hx) as [[Heq|Hxq]%elem_of_cons|[Hd|Hd]];
        [|left; apply elem_of_app; by left|right; by left|].
      * injection Heq as -> ->. right. right. intros y [e He].
        assert (y ∈ dom best') as Hy.
        { rewrite Hdom. apply elem_of_union_r, elem_of_list_to_set.
          apply (list_elem_of_fmap_2 fst _ (y, e)). by apply elem_of_entries. }
        destruct (lev !! y) as [l|] eqn:El; [exists l|exists (S h)]; rewrite Hlev; split; eauto.
      * right. right. intros y Hy. destruct (Hd y Hy) as (l' & Hl' & ?). exists l'. rewrite Hlev. eauto.
    + left. apply elem_of_app. right. apply (list_elem_of_fmap_2 (λ n, (n, S h))). apply Hfresh; [done|].
      rewrite <- H1. by apply not_elem_of_dom.
Qed.

(** What the loop leaves: trusts of walks, for every node within [H] edges. *)
Definition transitive_result (H : nat) (best : gmap NodeID float) : Prop :=
  walks best ∧ ∀ k n, (k <= H)%nat → nsteps (linked g) k from n → n ∈ dom best.

Lemma transitive_end H best lev : transitive_inv H best [] lev → transitive_result H best.
Proof.
  intros [H1 H2 H3 H4 H5 H6 H7 H8]. split; [done|].
  assert (∀ k n, (k <= H)%nat → nsteps (linked g) k from n → ∃ l, lev !! n = Some l ∧ (l <= k)%nat) as Hl.
  { induction k as [|k IH]; intros n Hk Hn.
    - inversion Hn; subst. by exists O.
    - apply nsteps_inv_r in Hn as (x & Hx & Hxn). destruct (IH x ltac:(lia) Hx) as (l & Hl & Hle).
      destruct (H8 x l Hl) as [?%elem_of_nil|[?|Hd]]; [done|lia|].
      destruct (Hd n Hxn) as (l' & Hl' & ?). exists l'. split; [done|lia]. }
  intros k n Hk Hn. destruct (Hl k n Hk Hn) as (l & Hlev & _). rewrite <- H1. by eapply elem_of_dom_2.
Qed.

Lemma transitive_loop_exact H fuel best qs lev :
  Z.of_nat H < 2 ^ 32 → transitive_inv H best qs lev → (work H qs <= fuel)%nat →
  ∃ best', transitive_loop fuel (Z.of_nat H) g best (as_hops <$> qs) = Some best' ∧
           transitive_result H best'.
Proof.
  intros HH. revert best qs lev. induction fuel as [|fuel IH]; intros best qs lev Hi Hf.
  all: destruct qs as [|[c h] qs]; [exists best; split; [done|by eapply transitive_end]|].
  all: cbn [work snd] in Hf; pose proof (iterations_pos (max_degree g) (H - h)).
  1: lia.
  rewrite fmap_cons. cbn [transitive_loop as_hops fst snd].
  destruct (Z.of_nat H <=? Z.of_nat h) eqn:E; bool_to_prop.
  - apply (IH best qs lev); [eapply transitive_tail; [exact Hi|lia]|lia].
  - pose proof (improve_spec c (Z.of_nat h) (entries (out_edges c g)) best (as_hops <$> qs)
      (ti_walks _ _ _ _ Hi)) as Hs.
    destruct (foldl _ _ _) as [best' queue'].
    destruct Hs as (new & -> & Hl & Hin & Hd & Hn & Hw).
    { rewrite <- (ti_dom _ _ _ _ Hi). destruct (ti_queue _ _ _ _ Hi c h) as (l & Hlev & _); [set_solver|].
      by eapply elem_of_dom_2. }
    { intros [y e] Hp. by apply elem_of_entries. }
    assert (((λ n, (n, u32 (Z.of_nat h + 1))) <$> new) = as_hops <$> ((λ n, (n, S h)) <$> new)) as ->.
    { rewrite <- list_fmap_compose. apply list_fmap_ext. intros ? n _. unfold as_hops. cbn.
      rewrite wrap_small by (unfold in_u; lia). f_equal. lia. }
    rewrite <- fmap_app. eapply IH; [eapply transitive_expand; [exact Hi|lia|done..]|].
    rewrite work_app, work_new. pose proof (degree_bound c) as Hg.
    replace (H - h)%nat with (S (H - S h)) in Hf by lia. cbn [iterations] in Hf.
    pose proof (Nat.mul_le_mono_r (length new) (max_degree g) (iterations (max_degree g) (H - S h)) ltac:(lia)).
    lia.
Qed.

End transitive.

Lemma transitive_trust_walk from to max_hops g :
  0 <= max_hops < 2 ^ 32 → from ≠ to → get_direct_trust from to g = None →
  ∃ t, calculate_transitive_trust from to max_hops g = Some t ∧
    ((∃ p, head p = Some from ∧ last p = Some to ∧ is_path (linked g) p ∧ t = calculate_path_trust p g) ∨
     (t = f_zero ∧ ∀ k, (k <= Z.to_nat max_hops)%nat → ¬ nsteps (linked g) k from to)).
Proof.
  intros HH Hne Hd. unfold calculate_transitive_trust. rewrite decide_False, Hd by done.
  destruct (transitive_loop_exact g from (Z.to_nat max_hops) (iterations (max_degree g) (Z.to_nat max_hops))
    {[from := f_one]} [(from, O)] {[from := O]}) as (best & Hb & Hw & Hn).
  - lia.
  - split.
    + set_solver.
    + by simplify_map_eq.
    + intros n t [<- <-]%lookup_singleton_Some. by exists [from].
    + intros n h [= -> ->]%list_elem_of_singleton. exists O. by simplify_map_eq.
    + by repeat constructor.
    + intros n h n' l _ [<- <-]%lookup_singleton_Some. lia.
    + intros n h n' h' [= -> ->]%list_elem_of_singleton [= -> ->]%list_elem_of_singleton. lia.
    + intros x l [<- <-]%lookup_singleton_Some. left. set_solver.
  - cbn [work snd]. rewrite Nat.sub_0_r. lia.
  - rewrite Z2Nat.id in Hb by lia. change (as_hops <$> [(from, O)]) with [(from, 0)] in Hb. rewrite Hb.
    cbn. eexists. split; [done|]. unfold at_or. destruct (best !! to) as [t|] eqn:E; [left|right].
    + destruct (Hw to t E) as (p & Hh & Hl & Hp & <-). exists p. split_and!; [done..|].
      unfold calculate_path_trust. destruct p as [|a [|b p]]; [done| |done].
      injection Hh as ->. by injection Hl as ->.
    + split; [done|]. intros k Hk Hs. apply (Hn k to Hk), elem_of_dom in Hs as [? ?]. congruence.
Qed.

(** ** All simple paths *)

(** [rest] continues [current] to the target without meeting [seen]. *)
Record continues (g : TrustGraph) (target : NodeID) (room : nat) (seen : gset NodeID) (current : NodeID)
    (rest : list NodeID) : Prop := {
  co_path : is_path (trusts g) (current :: rest);
  co_last : last (current :: rest) = Some target;
  co_simple : NoDup (current :: rest);
  co_fresh : ∀ n, n ∈ current :: rest → n ∉ seen;
  co_room : (length (current :: rest) <= room)%nat
}.

Lemma continues_target g target room seen rest :
  continues g target room seen target rest → rest = [].
Proof.
  intros [_ Hl Hd _ _]. apply list.NoDup_cons in Hd as [Hd _]. destruct rest as [|n rest]; [done|].
  destruct Hd. change (last (target :: n :: rest)) with (last (n :: rest)) in Hl.
  by apply last_Some_elem_of in Hl.
Qed.

Lemma continues_cons g target room seen current rest :
  current ≠ target → current ∉ seen →
  continues g target (S room) seen current rest ↔
  ∃ next rest', rest = next :: rest' ∧ trusts g current next ∧ next ∉ {[current]} ∪ seen ∧
    continues g target room ({[current]} ∪ seen) next rest'.
Proof.
  intros Hne Hs. split.
  - intros [Hp Hl Hd Hf Hr]. destruct rest as [|next rest]; [by injection Hl|].
    destruct Hp as [Hn Hp]. apply list.NoDup_cons in Hd as [Hc Hd]. exists next, rest.
    split_and!; [done|done|set_solver|]. split; [done|done|done|set_solver|cbn in *; lia].
  - intros (next & rest' & -> & Ht & Hn & [Hp Hl Hd Hf Hr]). split; [by split|done| | |cbn in *; lia].
    + apply list.NoDup_cons. split; [|done]. intros Hc%Hf. set_solver.
    + intros n [->|Hn']%elem_of_cons; [done|]. specialize (Hf n Hn'). set_solver.
Qed.

Definition finds (g : TrustGraph) (target : NodeID) (room : nat) (seen : gset NodeID) (current : NodeID)
    (path : list NodeID) (found : list (list NodeID)) : Prop :=
  NoDup found ∧ ∀ q, q ∈ found ↔ ∃ rest, q = path ++ rest ∧ continues g target room seen current rest.

Lemma dfs_step room target path g next paths visited :
  (∀ current path paths visited, current ∉ visited →
     ∃ found, dfs_find_paths room current target path g (paths, visited) = (paths ++ found, visited) ∧
              finds g target room visited current path found) →
  ∃ found,
    (if decide (next ∈ visited) then (paths, visited)
     else dfs_find_paths room next target (path ++ [next]) g (paths, visited)) = (paths ++ found, visited) ∧
    NoDup found ∧
    ∀ q, q ∈ found ↔ next ∉ visited ∧ ∃ rest, q = path ++ next :: rest ∧ continues g target room visited next rest.
Proof.
  intros IH. destruct (decide (next ∈ visited)) as [Hn|Hn].
  - exists []. rewrite app_nil_r. split_and!; [done|apply NoDup_nil_2|]. set_solver.
  - destruct (IH next (path ++ [next]) paths visited Hn) as (found & E & Hd & Hf).
    exists found. split_and!; [done|done|]. intros q. rewrite Hf. setoid_rewrite <- app_assoc. naive_solver.
Qed.

Lemma dfs_loop room target path g ns paths visited :
  (∀ current path paths visited, current ∉ visited →
     ∃ found, dfs_find_paths room current target path g (paths, visited) = (paths ++ found, visited) ∧
              finds g target room visited current path found) →
  NoDup ns →
  ∃ found,
    foldl (λ acc next, if decide (next ∈ acc.2) then acc
                       else dfs_find_paths room next target (path ++ [next]) g acc) (paths, visited) ns =
    (paths ++ found, visited) ∧ NoDup found ∧
    ∀ q, q ∈ found ↔ ∃ next rest, next ∈ ns ∧ next ∉ visited ∧ q = path ++ next :: rest ∧
                                   continues g target room visited next rest.
Proof.
  intros IH. revert paths. induction ns as [|next ns IHn]; intros paths Hns; cbn [foldl].
  - exists []. rewrite app_nil_r. split_and!; [done|apply NoDup_nil_2|]. set_solver.
  - apply list.NoDup_cons in Hns as [Hnext Hns].
    destruct (dfs_step room target path g next paths visited IH) as (f1 & E1 & D1 & H1).
    cbn [snd] in E1 |- *. rewrite E1. destruct (IHn (paths ++ f1) Hns) as (f2 & -> & D2 & H2).
    exists (f1 ++ f2). rewrite <- app_assoc. split_and!; [done| |].
    + apply list.NoDup_app. split_and!; [done| |done].
      intros q (_ & r1 & -> & _)%H1 (n2 & r2 & Hn2 & _ & Hq & _)%H2. apply app_inv_head in Hq.
      injection Hq as -> _. done.
    + intros q. rewrite elem_of_app, H1, H2. split.
      * intros [(Hv & rest & -> & Hc)|(n & rest & Hn & Hv & -> & Hc)].
        -- exists next, rest. set_solver.
        -- exists n, rest. set_solver.
      * intros (n & rest & [->|Hn]%elem_of_cons & Hv & -> & Hc); [left; eauto|right; eauto 10].
Qed.

Lemma dfs_exact room current target path g paths visited :
  current ∉ visited →
  ∃ found, dfs_find_paths room current target path g (paths, visited) = (paths ++ found, visited) ∧
           finds g target room visited current path found.
Proof.
  revert current path paths visited. induction room as [|room IH]; intros current path paths visited Hc.
  { exists []. rewrite app_nil_r. split; [done|]. split; [apply NoDup_nil_2|]. intros q.
    split; [by intros ?%elem_of_nil|]. intros (rest & _ & [_ _ _ _ Hr]). cbn in Hr. lia. }
  cbn [dfs_find_paths]. destruct (decide (current = target)) as [->|Hne].
  - exists [path]. split; [done|]. split; [apply NoDup_singleton|]. intros q.
    rewrite list_elem_of_singleton. split.
    + intros ->. exists []. rewrite app_nil_r. split; [done|]. split; [done|done|apply NoDup_singleton| |cbn; lia].
      by intros n ->%list_elem_of_singleton.
    + intros (rest & -> & Hr%continues_target). by rewrite Hr, app_nil_r.
  - destruct (dfs_loop room target path g (get_trusts current g) paths ({[current]} ∪ visited) IH
      (NoDup_get_trusts current g)) as (found & -> & Hd & Hf).
    exists found. split; [f_equal; set_solver|]. split; [done|]. intros q. rewrite Hf. split.
    + intros (next & rest & Hn%elem_of_get_trusts & Hv & -> & Hr). exists (next :: rest).
      split; [done|]. apply continues_cons; [done..|]. by exists next, rest.
    + intros (rest & -> & Hr). apply continues_cons in Hr as (next & rest' & -> & Ht & Hv & Hr); [|done..].
      exists next, rest'. by rewrite elem_of_get_trusts.
Qed.

(** The simple paths of fewer than [max_hops] nodes. *)
Definition simple_path (g : TrustGraph) (from to : NodeID) (max_hops : Z) (p : list NodeID) : Prop :=
  head p = Some from ∧ last p = Some to ∧ is_path (trusts g) p ∧ NoDup p ∧ len p < max_hops.

Lemma find_all_paths_exact from to max_hops g :
  NoDup (find_all_paths from to max_hops g) ∧
  ∀ p, p ∈ find_all_paths from to max_hops g ↔ simple_path g from to max_hops p.
Proof.
  unfold find_all_paths.
  destruct (dfs_exact (Z.to_nat max_hops - 1) from to [from] g [] ∅) as (found & -> & Hd & Hf); [set_solver|].
  split; [done|]. intros p. cbn [fst app]. rewrite Hf. unfold simple_path, len. split.
  - intros (rest & -> & [Hp Hl Hn _ Hr]). split_and!; [done..|]. cbn in *. lia.
  - intros (Hh & Hl & Hp & Hn & Hr). destruct p as [|a rest]; [done|]. injection Hh as ->.
    exists rest. split; [done|]. split; [done..|]. cbn in *. lia.
Qed.

(** ** The strongest path *)

Lemma stronger_spec g all_paths s0 p0 :
  let '(s, p) := foldl (stronger g) (s0, p0) all_paths in
  ((s = s0 ∧ p = p0) ∨ (fltb s0 s = true ∧ p ∈ all_paths ∧ calculate_path_strength p g = s)) ∧
  ∀ q, q ∈ all_paths → fltb s (calculate_path_strength q g) = false.
Proof.
  revert s0 p0. induction all_paths as [|q l IH]; intros s0 p0; cbn [foldl].
  { split; [by left|]. by intros q ?%elem_of_nil. }
  unfold stronger at 2. cbn [fst]. set (t := calculate_path_strength q g).
  destruct (fltb s0 t) eqn:E.
  - specialize (IH t q). destruct (foldl _ _ l) as [s p]. destruct IH as [Hs Hl].
    assert (fltb s t = false) as Hst.
    { destruct Hs as [[-> _]|(Hts & _ & _)]; [apply fltb_irrefl|].
      destruct (fltb s t) eqn:E2; [|done]. by rewrite <- (fltb_irrefl t), (fltb_trans t s t). }
    split; [right|].
    + destruct Hs as [[-> ->]|(Hts & Hp & <-)]; [split_and!; [done|set_solver|done]|].
      split_and!; [by apply (fltb_trans s0 t)|set_solver|done].
    + intros q' [->|Hq]%elem_of_cons; [done|auto].
  - specialize (IH s0 p0). destruct (foldl _ _ l) as [s p]. destruct IH as [Hs Hl].
    split; [destruct Hs as [?|(? & ? & ?)]; [by left|right; set_solver]|].
    intros q' [->|Hq]%elem_of_cons; [|auto]. fold t. destruct Hs as [[-> _]|(Hts & _ & _)]; [done|].
    destruct (fltb s t) eqn:E2; [|done]. by rewrite (fltb_trans s0 s t) in E.
Qed.

(** C23: a trust community is the set of nodes reachable over edges at least that
    strong, and the trust distance is the length of a shortest path of trusted edges,
    or nothing when there is none; the queues run dry within the fuel. *)
Theorem trust_search_exact from to min_trust g :
  (∃ c, find_trust_community from min_trust g = Some c ∧
        ∀ n, n ∈ c ↔ rtc (strong_enough min_trust g) from n) ∧
  (len (get_all_nodes g) < 2 ^ 32 →
   ∃ r, calculate_trust_distance from to g = Some r ∧
        match r with
        | Some z => ∃ k : nat, z = Z.of_nat k ∧ nsteps (trusts g) k from to ∧
                               ∀ j, (j < k)%nat → ¬ nsteps (trusts g) j from to
        | None => ¬ rtc (trusts g) from to
        end).
Proof.
  split; [apply find_trust_community_exact|]. intros HN.
  destruct (calculate_trust_distance_exact from to g HN) as (r & Hr & Ha). exists r. by split.
Qed.

(** The paths found are exactly the simple paths of trusted edges with fewer nodes than
    the bound, each once, and the strongest path is the first of those with the greatest
    product of weights. *)
Theorem trust_paths_exact from to max_hops g :
  NoDup (find_all_paths from to max_hops g) ∧
  (∀ p, p ∈ find_all_paths from to max_hops g ↔ simple_path g from to max_hops p) ∧
  match find_strongest_path from to max_hops g with
  | None => ∀ p, ¬ simple_path g from to max_hops p
  | Some best =>
      (best = [] ∧ ∀ p, simple_path g from to max_hops p → fltb f_zero (calculate_path_strength p g) = false) ∨
      (simple_path g from to max_hops best ∧
       ∀ p, simple_path g from to max_hops p →
         fltb (calculate_path_strength best g) (calculate_path_strength p g) = false)
  end.
Proof.
  destruct (find_all_paths_exact from to max_hops g) as [Hd Hp]. split_and!; [done..|].
  unfold find_strongest_path. destruct (find_all_paths from to max_hops g) as [|q l].
  { intros p Hs%Hp. by apply elem_of_nil in Hs. }
  pose proof (stronger_spec g (q :: l) f_zero []) as Hs. destruct (foldl _ _ _) as [s best]. cbn [snd].
  destruct Hs as [[[-> ->]|(_ & Hin & <-)] Hmax]; [left|right].
  - split; [done|]. intros p Hs%Hp. by apply Hmax.
  - split; [by apply Hp|]. intros p Hs%Hp. by apply Hmax.
Qed.

(** The search for transitive trust ends within the fuel; its answer is one for the node
    itself, the weight of a direct edge, zero when no walk leads to the node, and
    otherwise the product of the weights along some walk. *)
Theorem transitive_trust_exact from to max_hops g :
  0 <= max_hops < 2 ^ 32 →
  ∃ t, calculate_transitive_trust from to max_hops g = Some t ∧
    if decide (from = to) then t = f_one
    else
      match get_direct_trust from to g with
      | Some w => t = w
      | None =>
          (∃ p, head p = Some from ∧ last p = Some to ∧ is_path (linked g) p ∧
                t = calculate_path_trust p g) ∨
          (t = f_zero ∧ ∀ k, (k <= Z.to_nat max_hops)%nat → ¬ nsteps (linked g) k from to)
      end.
Proof.
  intros HH. destruct (decide (from = to)) as [->|Hne].
  - exists f_one. unfold calculate_transitive_trust. by rewrite decide_True.
  - destruct (get_direct_trust from to g) as [w|] eqn:E; [|by apply transitive_trust_walk].
    exists w. unfold calculate_transitive_trust. by rewrite decide_False, E.
Qed.

(** ** A concrete graph *)

Module Sample.

Program Definition node (n : Z) : NodeID := dexist (le_bytes 32 n) _.
Next Obligation. intros. apply length_le_bytes. Qed.

(** From one to two directly or through a middle node, then on to four. *)
Definition graph (middle : Z) : TrustGraph :=
  foldl (λ g e, add_edge (node e.1.1) (node e.1.2) (literal e.2 10) 0 g) ∅
    [((1, 5), 4); ((1, middle), 9); ((middle, 5), 9); ((5, 7), 9)].

End Sample.

(** The value found depends on the order of the identifiers, and may be that of
    a walk of more than [max_hops] edges. *)
Lemma order_dependent :
  calculate_transitive_trust (Sample.node 1) (Sample.node 7) 2 (Sample.graph 2) ≠
  calculate_transitive_trust (Sample.node 1) (Sample.node 7) 2 (Sample.graph 6).
Proof. vm_compute. discriminate. Qed.

Lemma trust_search_exact_witness :
  ∃ r, calculate_trust_distance (Sample.node 1) (Sample.node 7) (Sample.graph 2) = Some r ∧
       match r with Some z => z = 2 | None => False end.
Proof.
  pose proof (proj2 (trust_search_exact (Sample.node 1) (Sample.node 7) f_one (Sample.graph 2))
    ltac:(vm_compute; reflexivity)) as Hs.
  exists (Some 2). split; [|reflexivity]. destruct Hs as (r & Hr & _). vm_compute. reflexivity.
Defined.

Lemma transitive_trust_exact_witness :
  ∃ t, calculate_transitive_trust (Sample.node 1) (Sample.node 5) 3 (Sample.graph 2) = Some t ∧
       t = literal 4 10.
Proof.
  destruct (transitive_trust_exact (Sample.node 1) (Sample.node 5) 3 (Sample.graph 2)) as (t & Ht & _);
    [lia|].
  exists t. split; [exact Ht|]. vm_compute in Ht. injection Ht as <-. vm_compute. reflexivity.
Defined.
