(* ===== verification/Reputation.v ===== *)
(** Reputation: [ReputationManager] of src/core/reputation/reputation.hpp and
    reputation.cpp, with [AttestationSigner] and [VouchingWorkflow] of
    attestation.hpp and attestation.cpp.

    Signed sums are computed in [int32_t]: an operation that would leave it is
    undefined ([Undef]).  The manager reads the state view through the argument
    [view]; the clock in seconds is [now]. *)

From Stdlib Require Import Strings.Byte.
From S2P Require Import Prelude Reader Common Crypto Floats State TrustGraph.

(** ** Data *)

Inductive ReputationAction :=
| HOST_THING | CONTRIBUTE_BANDWIDTH | SUBMIT_POW | PROVIDE_POSTAKE | VOUCH_SUCCESSFUL
| OFFLINE_PROLONGED | NETWORK_VIOLATION | SPAM_DETECTED | VOUCH_FAILED | CONTENT_REMOVED.

Record Attestation := MkAttestation {
  attester : NodeID;
  subject : NodeID;
  at_score_delta : Z;
  statement : bytes;
  at_timestamp : Z;
  at_expires : Z;
  at_signature : Signature
}.

Definition is_expired (now : Z) (a : Attestation) : bool := at_expires a <=? now.
Definition is_vouch (a : Attestation) : bool := 0 <? at_score_delta a.
Definition is_denouncement (a : Attestation) : bool := at_score_delta a <? 0.

Record VouchRecord := MkVouchRecord {
  voucher : NodeID;
  vouchee : NodeID;
  vouched_at : Z;
  still_active : bool;
  reputation_at_vouch : Z;
  current_reputation : Z
}.

(** A sum of two [w]-bit signed integers. *)
Definition add_s (w x y : Z) : outcome Z := if decide (in_s w (x + y)) then Ok (x + y) else Undef.

(** The difference of two scores, halved towards zero and capped. *)
Definition calculate_voucher_impact (v : VouchRecord) : outcome Z :=
  if negb (still_active v) then Ok 0
  else
    change ← add_s 32 (current_reputation v) (- reputation_at_vouch v);
    let impact := Z.quot change 2 in
    let impact := if 50 <? impact then 50 else impact in
    Ok (if impact <? -50 then -50 else impact).

(** The action of an event that [apply_score_delta] records is never set. *)
Record ReputationEvent := MkReputationEvent {
  re_timestamp : Z;
  re_action : option ReputationAction;
  re_score_delta : Z;
  score_after : Z;
  related_node : option NodeID;
  re_details : bytes
}.

Record ReputationScore := MkReputationScore {
  rs_node : NodeID;
  total_score : Z;
  hosting_score : Z;
  contribution_score : Z;
  vouching_score : Z;
  penalty_score : Z;
  things_hosted : Z;
  bandwidth_contributed : Z;
  successful_vouches : Z;
  failed_vouches : Z;
  violations : Z;
  recent_events : list ReputationEvent
}.

Definition new_score (n : NodeID) : ReputationScore := MkReputationScore n 0 0 0 0 0 0 0 0 0 0 [].

Definition trust_level (s : ReputationScore) : float :=
  clamp_weight (fdiv (float_of (total_score s + 1000)) (float_of 11000)).

Definition is_trustworthy (s : ReputationScore) : bool := 100 <=? total_score s.
Definition is_suspicious (s : ReputationScore) : bool := total_score s <? -50.

Record ReputationManager := MkReputationManager {
  scores : gmap NodeID ReputationScore;
  attestations : gmap NodeID (list Attestation);
  vouches : gmap NodeID (list VouchRecord);
  trust_graph : TrustGraph
}.

Definition new_manager : ReputationManager := MkReputationManager ∅ ∅ ∅ ∅.

Definition with_scores (x : gmap NodeID ReputationScore) (m : ReputationManager) : ReputationManager :=
  MkReputationManager x (attestations m) (vouches m) (trust_graph m).

Definition with_attestations (x : gmap NodeID (list Attestation)) (m : ReputationManager) :
    ReputationManager :=
  MkReputationManager (scores m) x (vouches m) (trust_graph m).

Definition with_vouches (x : gmap NodeID (list VouchRecord)) (m : ReputationManager) :
    ReputationManager :=
  MkReputationManager (scores m) (attestations m) x (trust_graph m).

Definition with_graph (x : TrustGraph) (m : ReputationManager) : ReputationManager :=
  MkReputationManager (scores m) (attestations m) (vouches m) x.

Definition VOUCH_REPUTATION_REQUIREMENT : Z := 100.
Definition MAX_VOUCHES_PER_NODE : Z := 5.
Definition REPUTATION_DECAY_RATE : float := literal 99 100.
Definition REPUTATION_FLOOR : Z := -1000.
Definition REPUTATION_CEILING : Z := 10000.

(** ** Scores *)

Definition get_reputation (n : NodeID) (m : ReputationManager) : Z :=
  match scores m !! n with None => 0 | Some s => total_score s end.

Definition get_detailed_score (n : NodeID) (m : ReputationManager) : ReputationScore :=
  default (new_score n) (scores m !! n).

Definition get_action_score (a : ReputationAction) : Z :=
  match a with
  | HOST_THING => 10
  | CONTRIBUTE_BANDWIDTH => 5
  | SUBMIT_POW => 2
  | PROVIDE_POSTAKE => 15
  | VOUCH_SUCCESSFUL => 20
  | OFFLINE_PROLONGED => -10
  | NETWORK_VIOLATION => -50
  | SPAM_DETECTED => -30
  | VOUCH_FAILED => -40
  | CONTENT_REMOVED => -20
  end.

Definition clamp_reputation (score : Z) : Z :=
  let score := if score <? REPUTATION_FLOOR then REPUTATION_FLOOR else score in
  if REPUTATION_CEILING <? score then REPUTATION_CEILING else score.

(** The switch of [record_action]. *)
Definition count_action (a : ReputationAction) (s : ReputationScore) : outcome ReputationScore :=
  let delta := get_action_score a in
  let '(MkReputationScore n total hosting contribution vouching penalty hosted bandwidth
          successful failed violations events) := s in
  match a with
  | HOST_THING =>
      hosting ← add_s 32 hosting delta;
      mret (MkReputationScore n total hosting contribution vouching penalty (u32 (hosted + 1))
              bandwidth successful failed violations events)
  | CONTRIBUTE_BANDWIDTH =>
      contribution ← add_s 32 contribution delta;
      mret (MkReputationScore n total hosting contribution vouching penalty hosted
              (u64 (bandwidth + 1)) successful failed violations events)
  | SUBMIT_POW | PROVIDE_POSTAKE =>
      contribution ← add_s 32 contribution delta;
      mret (MkReputationScore n total hosting contribution vouching penalty hosted bandwidth
              successful failed violations events)
  | VOUCH_SUCCESSFUL =>
      vouching ← add_s 32 vouching delta;
      mret (MkReputationScore n total hosting contribution vouching penalty hosted bandwidth
              (u32 (successful + 1)) failed violations events)
  | VOUCH_FAILED =>
      penalty ← add_s 32 penalty delta;
      mret (MkReputationScore n total hosting contribution vouching penalty hosted bandwidth
              successful (u32 (failed + 1)) violations events)
  | _ =>
      penalty ← add_s 32 penalty delta;
      mret (MkReputationScore n total hosting contribution vouching penalty hosted bandwidth
              successful failed (u32 (violations + 1)) events)
  end.

(** [total_score += delta], clamped; the event is appended and the oldest of more
    than a hundred dropped. *)
Definition change_total (delta : Z) (event : Z → ReputationEvent) (s : ReputationScore) :
    outcome ReputationScore :=
  total ← add_s 32 (total_score s) delta;
  let total := clamp_reputation total in
  let events := recent_events s ++ [event total] in
  mret (MkReputationScore (rs_node s) total (hosting_score s) (contribution_score s)
          (vouching_score s) (penalty_score s) (things_hosted s) (bandwidth_contributed s)
          (successful_vouches s) (failed_vouches s) (violations s)
          (if 100 <? len events then drop 1 events else events)).

Definition record_action (n : NodeID) (a : ReputationAction) (related : option NodeID) (now : Z)
    (m : ReputationManager) : outcome ReputationManager :=
  let delta := get_action_score a in
  s ← count_action a (get_detailed_score n m);
  s ← change_total delta (λ total, MkReputationEvent now (Some a) delta total related []) s;
  mret (with_scores (<[n := s]> (scores m)) m).

Definition apply_score_delta (n : NodeID) (delta : Z) (reason : bytes) (now : Z)
    (m : ReputationManager) : outcome ReputationManager :=
  s ← change_total delta (λ total, MkReputationEvent now None delta total None reason)
        (get_detailed_score n m);
  mret (with_scores (<[n := s]> (scores m)) m).

(** ** Attestations *)

(** The weights are assigned over 0.5 by the range of the score. *)
Definition attestation_weight (a : Attestation) : float :=
  let d := at_score_delta a in
  if 50 <? d then literal 9 10
  else if 20 <? d then literal 7 10
  else if 0 <? d then literal 6 10
  else if d <? -50 then literal 1 10
  else if d <? -20 then literal 3 10
  else if d <? 0 then literal 4 10
  else literal 5 10.

Definition update_trust_from_attestation (a : Attestation) (now : Z) (g : TrustGraph) : TrustGraph :=
  add_edge (attester a) (subject a) (attestation_weight a) now g.

(** No signature is checked beyond not being zero. *)
Definition verify_attestation (now : Z) (a : Attestation) : bool :=
  if is_expired now a then false
  else if decide (attester a = zeros 32) then false
  else if decide (subject a = zeros 32) then false
  else if decide (attester a = subject a) then false
  else if decide (statement a = []) then false
  else if (at_score_delta a <? -100) || (100 <? at_score_delta a) then false
  else existsb (λ b, negb (byte_val b =? 0)) (arr (at_signature a)).

Definition create_attestation (a : Attestation) (now : Z) (m : ReputationManager) :
    outcome (bool * ReputationManager) :=
  if is_expired now a then Ok (false, m)
  else if negb (verify_attestation now a) then Ok (false, m)
  else
    let m := with_attestations
               (<[subject a := default [] (attestations m !! subject a) ++ [a]]> (attestations m)) m in
    m ← apply_score_delta (subject a) (at_score_delta a) (statement a) now m;
    mret (true, with_graph (update_trust_from_attestation a now (trust_graph m)) m).

Definition get_attestations_for (n : NodeID) (m : ReputationManager) : list Attestation :=
  default [] (attestations m !! n).

Definition get_attestations_by (n : NodeID) (m : ReputationManager) : list Attestation :=
  p ← entries (attestations m); filter (λ a, attester a = n) p.2.

Definition cleanup_expired_attestations (now : Z) (m : ReputationManager) : ReputationManager :=
  with_attestations
    ((λ l : list Attestation, filter (λ a, is_expired now a = false) l) <$> attestations m) m.

(** ** Vouches *)

Definition active_vouches (l : list VouchRecord) : list VouchRecord :=
  filter (λ v, still_active v = true) l.

Definition can_vouch (view : StateManager) (by_ for_ : NodeID) (m : ReputationManager) : bool :=
  if get_reputation by_ m <? VOUCH_REPUTATION_REQUIREMENT then false
  else if negb (is_node_active for_ view) then false
  else
    match vouches m !! by_ with
    | None => true
    | Some l => negb (MAX_VOUCHES_PER_NODE <=? len (active_vouches l))
    end.

Definition vouch_for_node (view : StateManager) (by_ for_ : NodeID) (now : Z)
    (m : ReputationManager) : bool * ReputationManager :=
  if negb (can_vouch view by_ for_ m) then (false, m)
  else
    let score := get_reputation for_ m in
    let record := MkVouchRecord by_ for_ now true score score in
    let m := with_vouches (<[by_ := default [] (vouches m !! by_) ++ [record]]> (vouches m)) m in
    (true, with_graph (add_edge by_ for_ (literal 8 10) now (trust_graph m)) m).

Definition is_vouch_for (n : NodeID) (v : VouchRecord) : bool :=
  bool_decide (vouchee v = n) && still_active v.

Definition deactivate (v : VouchRecord) : VouchRecord :=
  MkVouchRecord (voucher v) (vouchee v) (vouched_at v) false (reputation_at_vouch v)
    (current_reputation v).

Definition revoke_vouch (by_ for_ : NodeID) (m : ReputationManager) : bool * ReputationManager :=
  match vouches m !! by_ with
  | None => (false, m)
  | Some l =>
      let m := with_vouches
                 (<[by_ := (λ v, if is_vouch_for for_ v then deactivate v else v) <$> l]>
                    (vouches m)) m in
      if existsb (is_vouch_for for_) l
      then (true, with_graph (remove_edge by_ for_ (trust_graph m)) m)
      else (false, m)
  end.

Definition get_vouches_by (n : NodeID) (m : ReputationManager) : list VouchRecord :=
  default [] (vouches m !! n).

Definition get_vouches_for (n : NodeID) (m : ReputationManager) : list VouchRecord :=
  p ← entries (vouches m); filter (λ v, vouchee v = n) p.2.

Definition see_reputation (r : Z) (v : VouchRecord) : VouchRecord :=
  MkVouchRecord (voucher v) (vouchee v) (vouched_at v) (still_active v) (reputation_at_vouch v) r.

(** The inner loop of [update_vouch_impacts], over the records kept under [key]:
    the records with the reputation seen, and the manager. *)
Fixpoint update_vouches (key : NodeID) (now : Z) (l : list VouchRecord) (m : ReputationManager) :
    outcome (list VouchRecord * ReputationManager) :=
  match l with
  | [] => Ok ([], m)
  | v :: l =>
      if negb (still_active v) then
        '(l, m) ← update_vouches key now l m;
        Ok (v :: l, m)
      else
        let v := see_reputation (get_reputation (vouchee v) m) v in
        impact ← calculate_voucher_impact v;
        m ← (if impact =? 0 then Ok m
             else apply_score_delta key impact (str "Vouch impact") now m);
        '(l, m) ← update_vouches key now l m;
        Ok (v :: l, m)
  end.

Definition update_voucher (now : Z) (m : outcome ReputationManager)
    (p : NodeID * list VouchRecord) : outcome ReputationManager :=
  m ← m;
  '(l, m) ← update_vouches p.1 now p.2 m;
  Ok (with_vouches (<[p.1 := l]> (vouches m)) m).

Definition update_vouch_impacts (now : Z) (m : ReputationManager) : outcome ReputationManager :=
  foldl (update_voucher now) (Ok m) (entries (vouches m)).

(** ** The graph, the rankings and the decay *)

Definition all_attestations (m : ReputationManager) : list Attestation :=
  p ← entries (attestations m); p.2.

Definition all_vouches (m : ReputationManager) : list (NodeID * VouchRecord) :=
  p ← entries (vouches m); pair p.1 <$> p.2.

Definition rebuild_trust_graph (now : Z) (m : ReputationManager) : ReputationManager :=
  let g := foldl (λ g a, update_trust_from_attestation a now g) ∅
             (filter (λ a, is_expired now a = false) (all_attestations m)) in
  with_graph
    (foldl (λ g p, add_edge p.1 (vouchee p.2) (literal 8 10) now g) g
       (filter (λ p, still_active p.2 = true) (all_vouches m))) m.

(** [sort] is [std::sort] by descending score. *)
Definition get_top_reputation (sort : list (NodeID * Z) → list (NodeID * Z)) (count : Z)
    (m : ReputationManager) : list NodeID :=
  let scored := sort (prod_map id total_score <$> entries (scores m)) in
  fst <$> take (Z.to_nat (Z.min count (len scored))) scored.

Definition get_suspicious_nodes (m : ReputationManager) : list NodeID :=
  fst <$> filter (λ p, is_suspicious p.2 = true) (entries (scores m)).

Definition all_totals (m : ReputationManager) : list Z := total_score ∘ snd <$> entries (scores m).

(** The sum is divided by a [size_t], hence as an unsigned number. *)
Definition get_average_reputation (m : ReputationManager) : outcome Z :=
  if decide (scores m = ∅) then Ok 0
  else
    sum ← foldl (λ acc x, acc ← acc; add_s 64 acc x) (Ok 0) (all_totals m);
    Ok (i32 (u64 sum / len (all_totals m))).

Definition get_median_reputation (m : ReputationManager) : Z :=
  let all_scores := merge_sort Z.le (all_totals m) in
  default 0 (all_scores !! (length all_scores / 2)%nat).

Definition count_trustworthy_nodes (m : ReputationManager) : Z :=
  len (filter (λ p, is_trustworthy p.2 = true) (entries (scores m))).

Definition decayed (x : Z) : outcome Z := to_int32 (fmul (float_of x) REPUTATION_DECAY_RATE).

Definition decay_score (s : ReputationScore) : outcome ReputationScore :=
  total ← decayed (total_score s);
  hosting ← decayed (hosting_score s);
  contribution ← decayed (contribution_score s);
  vouching ← decayed (vouching_score s);
  penalty ← decayed (penalty_score s);
  mret (MkReputationScore (rs_node s) total hosting contribution vouching penalty
          (things_hosted s) (bandwidth_contributed s) (successful_vouches s) (failed_vouches s)
          (violations s) (recent_events s)).

Definition decay_entry (acc : outcome (gmap NodeID ReputationScore)) (p : NodeID * ReputationScore) :
    outcome (gmap NodeID ReputationScore) :=
  acc ← acc;
  s ← decay_score p.2;
  mret (<[p.1 := s]> acc).

Definition decay_reputation (m : ReputationManager) : outcome ReputationManager :=
  scores ← foldl decay_entry (Ok (scores m)) (entries (scores m));
  mret (with_graph (decay_edge_weights (literal 95 100) (trust_graph m)) (with_scores scores m)).

(** ** Signed attestations: [AttestationSigner] *)

(** The loop that pushes the bytes of an integer, the most significant first. *)
Definition be_bytes (n : nat) (x : Z) : bytes := rev (le_bytes n x).

Definition attestation_to_signable_bytes (a : Attestation) : bytes :=
  arr (attester a) ++ arr (subject a) ++ be_bytes 4 (at_score_delta a) ++
  be_bytes 4 (u32 (len (statement a))) ++ statement a ++ be_bytes 8 (at_timestamp a) ++
  be_bytes 8 (at_expires a).

(** The parts of [NodeIdentity] the signer uses. *)
Record NodeIdentity := MkNodeIdentity { public_key : PublicKey; secret_key : SecretKey }.

Section signing.
Context `{Crypto}.

Definition id (i : NodeIdentity) : NodeID := blake3 (arr (public_key i)).

Definition sign (message : bytes) (i : NodeIdentity) : outcome Signature :=
  Ed25519.sign message (secret_key i).

Definition sign_attestation (i : NodeIdentity) (a : Attestation) : outcome Attestation :=
  let a := MkAttestation (id i) (subject a) (at_score_delta a) (statement a) (at_timestamp a)
             (at_expires a) (at_signature a) in
  sg ← sign (attestation_to_signable_bytes a) i;
  mret (MkAttestation (attester a) (subject a) (at_score_delta a) (statement a) (at_timestamp a)
          (at_expires a) sg).

Definition verify_attestation_signature (a : Attestation) (key : PublicKey) : bool :=
  Ed25519.verify (attestation_to_signable_bytes a) (at_signature a) key.

(** The signature is left to be set. *)
Definition make_attestation (by_ for_ : NodeID) (score_delta : Z) (text : bytes)
    (validity_duration now : Z) : Attestation :=
  MkAttestation by_ for_ score_delta text now (u64 (now + validity_duration)) (zeros 64).

Definition create_vouch_attestation (by_ for_ : NodeID) (score_boost : Z) (text : bytes)
    (validity_duration now : Z) : Attestation :=
  let score_boost := if score_boost <=? 0 then 20 else score_boost in
  make_attestation by_ for_ score_boost
    (if decide (text = []) then str "Vouching for this node" else text) validity_duration now.

Definition create_denouncement_attestation (by_ for_ : NodeID) (score_penalty : Z) (text : bytes)
    (validity_duration now : Z) : Attestation :=
  let score_penalty := if 0 <=? score_penalty then -30 else score_penalty in
  make_attestation by_ for_ score_penalty
    (if decide (text = []) then str "Reporting negative behavior" else text) validity_duration now.

(** ** [VouchingWorkflow] *)

Definition request_vouch (view : StateManager) (i : NodeIdentity) (for_ : NodeID) (reason : bytes)
    (now : Z) (m : ReputationManager) : outcome (bool * ReputationManager) :=
  let by_ := id i in
  if negb (can_vouch view by_ for_ m) then Ok (false, m)
  else
    signed ← sign_attestation i (create_vouch_attestation by_ for_ 20 reason 2592000 now);
    let '(ok, m) := vouch_for_node view by_ for_ now m in
    if negb ok then Ok (false, m)
    else create_attestation signed now m.

Definition has_vouch (by_ for_ : NodeID) (m : ReputationManager) : bool :=
  existsb (is_vouch_for for_) (get_vouches_by by_ m).

Definition accept_vouch (i : NodeIdentity) (by_ : NodeID) (now : Z) (m : ReputationManager) :
    outcome (bool * ReputationManager) :=
  if negb (has_vouch by_ (id i) m) then Ok (false, m)
  else
    signed ← sign_attestation i
               (make_attestation (id i) by_ 5 (str "Accepting vouch") 2592000 now);
    create_attestation signed now m.

End signing.

Definition withdraw_vouch (by_ for_ : NodeID) (reason : bytes) (now : Z) (m : ReputationManager) :
    outcome (bool * ReputationManager) :=
  if negb (has_vouch by_ for_ m) then Ok (false, m)
  else
    let a := create_denouncement_attestation by_ for_ (-20)
               (if decide (reason = []) then str "Revoking vouch" else reason) 864000 now in
    let '(ok, m) := revoke_vouch by_ for_ m in
    if negb ok then Ok (false, m)
    else
      m ← apply_score_delta for_ (at_score_delta a) (statement a) now m;
      mret (true, m).

Definition get_active_vouches_for (n : NodeID) (m : ReputationManager) : list VouchRecord :=
  active_vouches (get_vouches_for n m).

Definition get_active_vouches_by (n : NodeID) (m : ReputationManager) : list VouchRecord :=
  active_vouches (get_vouches_by n m).

(** The closure [dfs], with [room] levels left: the chains it finds. *)
Fixpoint vouch_chains (room : nat) (current : NodeID) (chain : list NodeID) (visited : gset NodeID)
    (m : ReputationManager) : list (list NodeID) :=
  match room with
  | O => []
  | S room =>
      if decide (current ∈ visited) then []
      else
        let visited := {[current]} ∪ visited in
        let chain := chain ++ [current] in
        match get_vouches_by current m with
        | [] => if (1 <? length chain)%nat then [chain] else []
        | l => v ← active_vouches l; vouch_chains room (vouchee v) chain visited m
        end
  end.

Definition get_vouching_chains (n : NodeID) (max_depth : Z) (m : ReputationManager) :
    list (list NodeID) :=
  vouch_chains (Z.to_nat max_depth) n [] ∅ m.

Record VouchingStats := MkVouchingStats {
  total_vouched_by : Z;
  total_vouching : Z;
  vs_active : Z;
  vs_revoked : Z;
  average_voucher_reputation : float;
  vouching_impact_score : float
}.

(** One active vouch received: the sums of reputations and of impacts. *)
Definition receive_vouch (m : ReputationManager) (acc : outcome (Z * Z)) (v : VouchRecord) :
    outcome (Z * Z) :=
  '(reputation, total) ← acc;
  reputation ← add_s 64 reputation (get_reputation (voucher v) m);
  impact ← calculate_voucher_impact v;
  total ← add_s 32 total impact;
  Ok (reputation, total).

Definition get_vouching_stats (n : NodeID) (m : ReputationManager) : outcome VouchingStats :=
  let by_ := get_vouches_by n m in
  let for_ := get_vouches_for n m in
  let received := active_vouches for_ in
  '(reputation, total) ← foldl (receive_vouch m) (Ok (0, 0)) received;
  mret (MkVouchingStats (u32 (len for_)) (u32 (len by_)) (u32 (len (active_vouches by_)))
          (u32 (len (filter (λ v, still_active v = false) by_)))
          (if 0 <? u32 (len received)
           then fdiv (float_of reputation) (float_of (u32 (len received)))
           else f_zero)
          (float_of total)).

(** ** The invariant *)

Definition in_bounds (x : Z) : Prop := REPUTATION_FLOOR <= x <= REPUTATION_CEILING.

(** A change that cannot leave [int32_t] from a score in bounds. *)
Definition safe_delta (d : Z) : Prop := - 2 ^ 31 + 1000 <= d < 2 ^ 31 - 10000.

(** [k] bounds the number of actions recorded. *)
Record score_ok (k : Z) (n : NodeID) (s : ReputationScore) : Prop := {
  so_node : rs_node s = n;
  so_total : in_bounds (total_score s);
  so_events : len (recent_events s) <= 100;
  so_parts : Forall (λ x, Z.abs x <= 50 * k)
               [hosting_score s; contribution_score s; vouching_score s; penalty_score s]
}.

Definition attestation_ok (n : NodeID) (a : Attestation) : Prop :=
  subject a = n ∧ attester a ≠ n ∧ -100 <= at_score_delta a <= 100 ∧ statement a ≠ [].

Definition vouch_ok (n : NodeID) (v : VouchRecord) : Prop :=
  voucher v = n ∧ in_bounds (reputation_at_vouch v) ∧ in_bounds (current_reputation v).

Definition vouches_ok (n : NodeID) (l : list VouchRecord) : Prop :=
  Forall (vouch_ok n) l ∧ len (active_vouches l) <= MAX_VOUCHES_PER_NODE.

Definition graph_ok (g : TrustGraph) : Prop :=
  ∀ a b w, get_direct_trust a b g = Some w → nonneg w = true.

Record manager_ok (k : Z) (m : ReputationManager) : Prop := {
  mo_scores : map_Forall (score_ok k) (scores m);
  mo_attestations : map_Forall (λ n, Forall (attestation_ok n)) (attestations m);
  mo_vouches : map_Forall vouches_ok (vouches m);
  mo_graph : graph_ok (trust_graph m)
}.

Lemma clamp_bounds x : in_bounds (clamp_reputation x).
Proof.
  unfold in_bounds, clamp_reputation, REPUTATION_FLOOR, REPUTATION_CEILING.
  destruct (Z.ltb_spec x (-1000)), (Z.ltb_spec 10000 (-1000)); try lia;
    destruct (Z.ltb_spec 10000 x); lia.
Qed.

Lemma clamp_id x : in_bounds x → clamp_reputation x = x.
Proof.
  unfold in_bounds, clamp_reputation, REPUTATION_FLOOR, REPUTATION_CEILING. intros.
  destruct (Z.ltb_spec x (-1000)); [lia|]. destruct (Z.ltb_spec 10000 x); [lia|done].
Qed.

Lemma add_s_ok w x y : in_s w (x + y) → add_s w x y = Ok (x + y).
Proof. intros. unfold add_s. by rewrite decide_True. Qed.

Lemma new_score_ok k n : 0 <= k → score_ok k n (new_score n).
Proof.
  intros. split; [done| |done|repeat constructor; cbn; lia].
  unfold in_bounds, REPUTATION_FLOOR, REPUTATION_CEILING. cbn. lia.
Qed.

Lemma detailed_ok k n m : 0 <= k → manager_ok k m → score_ok k n (get_detailed_score n m).
Proof.
  intros Hk M. unfold get_detailed_score. destruct (scores m !! n) eqn:E; cbn.
  - by apply (mo_scores _ _ M).
  - by apply new_score_ok.
Qed.

Lemma reputation_total n m : get_reputation n m = total_score (get_detailed_score n m).
Proof. unfold get_reputation, get_detailed_score. by destruct (scores m !! n). Qed.

Lemma reputation_bounds k n m : 0 <= k → manager_ok k m → in_bounds (get_reputation n m).
Proof. intros Hk M. rewrite reputation_total. by apply (so_total k n), detailed_ok. Qed.

Lemma safe_change k n delta m :
  0 <= k → manager_ok k m → safe_delta delta → in_s 32 (get_reputation n m + delta).
Proof.
  intros Hk M. pose proof (reputation_bounds k n m Hk M) as Hb. revert Hb.
  unfold in_s, safe_delta, in_bounds, REPUTATION_FLOOR, REPUTATION_CEILING. lia.
Qed.

Lemma change_total_ok k n delta event s :
  score_ok k n s → in_s 32 (total_score s + delta) →
  ∃ s', change_total delta event s = Ok s' ∧ score_ok k n s' ∧
    total_score s' = clamp_reputation (total_score s + delta).
Proof.
  intros [Hn Ht He Hp] Hs. unfold change_total.
  rewrite add_s_ok by done. cbn [mbind outcome_bind]. eexists. split; [done|].
  split; [|done]. split; [done|apply clamp_bounds| |done]. cbn [recent_events].
  pose proof (len_app (recent_events s) [event (clamp_reputation (total_score s + delta))]) as Hl.
  rewrite len_cons, len_nil in Hl. case_match; [|lia].
  unfold len in *. rewrite length_drop. lia.
Qed.

Lemma with_score_ok k n s m :
  manager_ok k m → score_ok k n s → manager_ok k (with_scores (<[n := s]> (scores m)) m).
Proof. intros [S A V G] Hs. split; try done. by apply map_Forall_insert_2. Qed.

Lemma reputation_with_score n n' s m :
  get_reputation n' (with_scores (<[n := s]> (scores m)) m) =
  if decide (n = n') then total_score s else get_reputation n' m.
Proof.
  unfold get_reputation. cbn. destruct (decide (n = n')) as [->|].
  - by rewrite lookup_insert_eq.
  - by rewrite lookup_insert_ne.
Qed.

(** Changing a score changes nothing else. *)
Lemma apply_score_delta_ok k n delta reason now m :
  0 <= k → manager_ok k m → in_s 32 (get_reputation n m + delta) →
  ∃ m', apply_score_delta n delta reason now m = Ok m' ∧ manager_ok k m' ∧
    attestations m' = attestations m ∧ vouches m' = vouches m ∧ trust_graph m' = trust_graph m ∧
    ∀ n', get_reputation n' m' =
      if decide (n = n') then clamp_reputation (get_reputation n m + delta)
      else get_reputation n' m.
Proof.
  intros Hk M Hd. unfold apply_score_delta. rewrite reputation_total in Hd.
  destruct (change_total_ok k n delta (λ total, MkReputationEvent now None delta total None reason)
    _ (detailed_ok k n m Hk M) Hd) as (s & -> & Hs & Ht).
  eexists. split; [done|]. split; [by apply with_score_ok|]. do 3 (split; [done|]).
  intros n'. by rewrite reputation_with_score, Ht, <- reputation_total.
Qed.

Lemma action_score_bound a : Z.abs (get_action_score a) <= 50.
Proof. by destruct a. Qed.

Lemma count_action_ok k n a s :
  0 <= k → 50 * k + 50 < 2 ^ 31 → score_ok k n s →
  ∃ s', count_action a s = Ok s' ∧ score_ok (k + 1) n s' ∧ total_score s' = total_score s.
Proof.
  intros Hk Hr [Hn Ht He Hp].
  destruct s as [node total hosting contribution vouching penalty hosted bandwidth successful
    failed violations events]. cbn in Hn, Ht, He, Hp.
  rewrite !list.Forall_cons in Hp. destruct Hp as (H1 & H2 & H3 & H4 & _).
  pose proof (action_score_bound a) as Ha.
  assert (∀ x, Z.abs x <= 50 * k → add_s 32 x (get_action_score a) = Ok (x + get_action_score a))
    as Hadd by (intros; apply add_s_ok; unfold in_s; lia).
  unfold count_action. destruct a; rewrite Hadd by done; (eexists; split; [done|]); cbn in Ha |- *;
    (split; [split; cbn; try done; repeat constructor; lia|done]).
Qed.

Lemma score_ok_mono k n s : score_ok k n s → score_ok (k + 1) n s.
Proof.
  intros [Hn Ht He Hp]. split; try done. eapply list.Forall_impl; [exact Hp|]. cbn. lia.
Qed.

Lemma manager_ok_mono k m : manager_ok k m → manager_ok (k + 1) m.
Proof.
  intros [S A V G]. split; try done. intros n s Hs. by apply score_ok_mono, S.
Qed.

Lemma record_action_ok k n a related now m :
  0 <= k → 50 * k + 50 < 2 ^ 31 → manager_ok k m →
  ∃ m', record_action n a related now m = Ok m' ∧ manager_ok (k + 1) m' ∧
    ∀ n', get_reputation n' m' =
      if decide (n = n') then clamp_reputation (get_reputation n m + get_action_score a)
      else get_reputation n' m.
Proof.
  intros Hk Hr M. unfold record_action.
  destruct (count_action_ok k n a _ Hk Hr (detailed_ok k n m Hk M)) as (s & -> & Hs & Ht).
  cbn [mbind outcome_bind].
  assert (in_s 32 (total_score s + get_action_score a)).
  { rewrite Ht, <- reputation_total. apply (safe_change k); [done..|].
    pose proof (action_score_bound a). unfold safe_delta. lia. }
  destruct (change_total_ok (k + 1) n (get_action_score a) (λ total, MkReputationEvent now (Some a)
    (get_action_score a) total related []) s Hs) as (s' & -> & Hs' & Ht'); [done|].
  eexists. split; [done|]. split; [by apply with_score_ok; [apply manager_ok_mono|]|].
  intros n'. by rewrite reputation_with_score, Ht', Ht, <- reputation_total.
Qed.

(** *** Attestations *)

Definition no_signature (sg : Signature) : Prop := Forall (λ b, byte_val b = 0) (arr sg).

#[export] Instance no_signature_dec sg : Decision (no_signature sg).
Proof. unfold no_signature. apply _. Defined.

(** What [verify_attestation] accepts. *)
Definition acceptable (now : Z) (a : Attestation) : Prop :=
  now < at_expires a ∧ attester a ≠ zeros 32 ∧ subject a ≠ zeros 32 ∧ attester a ≠ subject a ∧
  statement a ≠ [] ∧ -100 <= at_score_delta a <= 100 ∧ ¬ no_signature (at_signature a).

#[export] Instance acceptable_dec now a : Decision (acceptable now a).
Proof. unfold acceptable. apply _. Defined.

Lemma verify_acceptable now a : verify_attestation now a = true ↔ acceptable now a.
Proof.
  unfold verify_attestation, acceptable, is_expired.
  assert (Hsg : existsb (λ b, negb (byte_val b =? 0)) (arr (at_signature a)) = true ↔
                ¬ no_signature (at_signature a)).
  { unfold no_signature. rewrite existsb_exists. split.
    - intros (b & Hb & H) Hall. rewrite list.Forall_forall in Hall.
      rewrite Hall in H by by apply list_elem_of_In. done.
    - intros H. apply not_Forall_Exists in H; [|apply _]. apply list.Exists_exists in H as (b & Hb & H).
      exists b. split; [by apply list_elem_of_In|]. by apply negb_true_iff, Z.eqb_neq. }
  destruct (Z.leb_spec (at_expires a) now); [split; [done|lia]|].
  repeat (case_decide; [split; [done|tauto]|]).
  destruct (Z.ltb_spec (at_score_delta a) (-100)); [split; [done|lia]|].
  destruct (Z.ltb_spec 100 (at_score_delta a)); [split; [done|lia]|].
  cbn [orb]. rewrite Hsg. split; [tauto|]. tauto.
Qed.

Lemma add_edge_ok from to w now g :
  is_nan w = false → graph_ok g → graph_ok (add_edge from to w now g).
Proof.
  intros Hw G a b t. rewrite add_edge_trust. case_decide; [|apply G].
  intros [= <-]. by apply clamp_weight_nonneg.
Qed.

Lemma attestation_weight_number a : is_nan (attestation_weight a) = false.
Proof. unfold attestation_weight. by repeat case_match. Qed.

Lemma append_ok {A} (P : NodeID → A → Prop) n (x : A) (m : gmap NodeID (list A)) :
  map_Forall (λ n, Forall (P n)) m → P n x →
  map_Forall (λ n, Forall (P n)) (<[n := default [] (m !! n) ++ [x]]> m).
Proof.
  intros Hm Hx. apply map_Forall_insert_2; [|done]. apply Forall_app. split; [|by repeat constructor].
  destruct (m !! n) eqn:E; cbn; [by apply Hm|constructor].
Qed.

(** Creating an attestation: the decision, and the effect of an accepted one. *)
Lemma create_attestation_ok k a now m :
  0 <= k → manager_ok k m →
  ∃ m', create_attestation a now m = Ok (bool_decide (acceptable now a), m') ∧ manager_ok k m' ∧
    vouches m' = vouches m ∧ (¬ acceptable now a → m' = m) ∧
    (acceptable now a →
      get_attestations_for (subject a) m' = get_attestations_for (subject a) m ++ [a] ∧
      trust_graph m' = update_trust_from_attestation a now (trust_graph m) ∧
      ∀ n, get_reputation n m' =
        if decide (subject a = n) then clamp_reputation (get_reputation n m + at_score_delta a)
        else get_reputation n m).
Proof.
  intros Hk M. unfold create_attestation.
  destruct (decide (acceptable now a)) as [Ha|Ha].
  2:{ rewrite bool_decide_eq_false_2 by done. exists m.
      destruct (verify_attestation now a) eqn:E; [by apply verify_acceptable in E|].
      split; [by destruct (is_expired now a)|]. tauto. }
  rewrite bool_decide_eq_true_2 by done.
  assert (is_expired now a = false) as -> by (unfold is_expired; destruct Ha; lia).
  rewrite (proj2 (verify_acceptable now a) Ha). cbn [negb].
  pose proof Ha as (_ & _ & _ & Hne & Hst & Hd & _).
  assert (M1 : manager_ok k (with_attestations (<[subject a := default [] (attestations m !!
    subject a) ++ [a]]> (attestations m)) m)).
  { destruct M as [S A V G]. split; [done| |done..]. cbn. by apply append_ok. }
  destruct (apply_score_delta_ok k (subject a) (at_score_delta a) (statement a) now _ Hk M1)
    as (m' & -> & M' & Hat & Hv & Hg & Hr); [apply (safe_change k); [done..|unfold safe_delta; lia]|].
  cbn [mbind outcome_bind]. eexists. split; [done|].
  split; [|split; [exact Hv|split; [done|intros _; split; [|split]]]].
  - destruct M' as [S A V G]. split; try done. cbn. apply add_edge_ok; [|done].
    apply attestation_weight_number.
  - unfold get_attestations_for. cbn. rewrite Hat. cbn. by rewrite lookup_insert_eq.
  - cbn. by rewrite Hg.
  - intros n. unfold get_reputation in *. cbn. rewrite Hr. case_decide; [by subst|done].
Qed.

(** *** Vouches *)

Lemma active_app l l' : active_vouches (l ++ l') = active_vouches l ++ active_vouches l'.
Proof. apply list.filter_app. Qed.

Lemma vouch_for_node_ok k view by_ for_ now m :
  0 <= k → manager_ok k m → manager_ok k (vouch_for_node view by_ for_ now m).2.
Proof.
  intros Hk M. unfold vouch_for_node. destruct (can_vouch view by_ for_ m) eqn:E; [|done].
  cbn [negb snd]. pose proof (reputation_bounds k for_ m Hk M) as Hb. destruct M as [S A V G].
  split; [done|done| |by apply add_edge_ok]. cbn. apply map_Forall_insert_2; [|done].
  unfold can_vouch in E. repeat case_match; try done; cbn.
  - match goal with H : vouches m !! by_ = Some _ |- _ => destruct (V _ _ H) as [Hl Ha] end.
    split; [apply Forall_app; split; [done|by repeat constructor; apply Hb]|].
    rewrite active_app, len_app. change (len (active_vouches [_])) with 1.
    unfold MAX_VOUCHES_PER_NODE in *. lia.
  - split; [by repeat constructor; apply Hb|]. done.
Qed.

Lemma len_active_map (f : VouchRecord → VouchRecord) l :
  (∀ v, still_active (f v) = true → still_active v = true) →
  len (active_vouches (f <$> l)) <= len (active_vouches l).
Proof.
  intros Hf. unfold active_vouches. induction l as [|v l IH]; [done|]. cbn [fmap list_fmap].
  rewrite !list.filter_cons. pose proof (Hf v).
  repeat case_decide; rewrite ?len_cons; try lia. tauto.
Qed.

Lemma revoke_vouch_ok k by_ for_ m :
  manager_ok k m → manager_ok k (revoke_vouch by_ for_ m).2.
Proof.
  intros [S A V G]. unfold revoke_vouch. destruct (vouches m !! by_) as [l|] eqn:E; [|done].
  assert (Hv : map_Forall vouches_ok
    (<[by_ := (λ v, if is_vouch_for for_ v then deactivate v else v) <$> l]> (vouches m))).
  { apply map_Forall_insert_2; [|done]. destruct (V _ _ E) as [Hl Ha]. split.
    - apply Forall_fmap. eapply list.Forall_impl; [exact Hl|].
      intros v Hv. cbn. by destruct (is_vouch_for for_ v).
    - etransitivity; [apply len_active_map|done]. intros v. by destruct (is_vouch_for for_ v). }
  destruct (existsb _ l); (split; [done..|]); [|done].
  intros a b w. cbn. rewrite remove_edge_trust. case_decide; [done|apply G].
Qed.

Definition impact_of (v : VouchRecord) : Z :=
  if still_active v
  then Z.max (-50) (Z.min 50 (Z.quot (current_reputation v - reputation_at_vouch v) 2))
  else 0.

Lemma impact_ok n v : vouch_ok n v → calculate_voucher_impact v = Ok (impact_of v).
Proof.
  intros (_ & Hr & Hc). unfold calculate_voucher_impact, impact_of.
  destruct (still_active v); [|done]. cbn [negb]. rewrite add_s_ok.
  2:{ revert Hr Hc. unfold in_s, in_bounds, REPUTATION_FLOOR, REPUTATION_CEILING. lia. }
  cbn [mbind outcome_bind]. rewrite <- Z.sub_opp_r, Z.opp_involutive. f_equal.
  destruct (Z.ltb_spec 50 (Z.quot (current_reputation v - reputation_at_vouch v) 2)).
  - cbn. lia.
  - destruct (Z.ltb_spec (Z.quot (current_reputation v - reputation_at_vouch v) 2) (-50)); lia.
Qed.

Lemma impact_bound v : -50 <= impact_of v <= 50.
Proof. unfold impact_of. destruct (still_active v); lia. Qed.

Lemma len_active_same l l' :
  still_active <$> l = still_active <$> l' → len (active_vouches l) = len (active_vouches l').
Proof.
  unfold active_vouches. revert l'. induction l as [|v l IH]; intros [|v' l']; try done.
  cbn [fmap list_fmap]. intros [= Hv H]. rewrite !list.filter_cons, Hv.
  case_decide; rewrite ?len_cons, (IH l' H); done.
Qed.

(** One voucher's records: they see the reputations of the moment, and the voucher's
    own score is all that changes. *)
Lemma update_vouches_ok k key now l m :
  0 <= k → manager_ok k m → Forall (vouch_ok key) l →
  ∃ l' m', update_vouches key now l m = Ok (l', m') ∧ manager_ok k m' ∧ Forall (vouch_ok key) l' ∧
    still_active <$> l' = still_active <$> l ∧ attestations m' = attestations m ∧
    vouches m' = vouches m ∧ trust_graph m' = trust_graph m ∧
    ∀ n, n ≠ key → get_reputation n m' = get_reputation n m.
Proof.
  intros Hk. revert m. induction l as [|v l IH]; intros m M Hl.
  { by exists [], m. }
  apply list.Forall_cons in Hl as [Hv Hl]. cbn [update_vouches].
  destruct (still_active v) eqn:Ea; cbn [negb].
  - set (v' := see_reputation (get_reputation (vouchee v) m) v).
    assert (Hv' : vouch_ok key v').
    { destruct Hv as (H1 & H2 & _). split; [done|]. split; [done|].
      by apply (reputation_bounds k). }
    rewrite (impact_ok key v' Hv'). cbn [mbind outcome_bind].
    assert (∃ m1, (if impact_of v' =? 0 then Ok m
        else apply_score_delta key (impact_of v') (str "Vouch impact") now m) = Ok m1 ∧
      manager_ok k m1 ∧ attestations m1 = attestations m ∧ vouches m1 = vouches m ∧
      trust_graph m1 = trust_graph m ∧ ∀ n, n ≠ key → get_reputation n m1 = get_reputation n m)
      as (m1 & E1 & M1 & A1 & V1 & G1 & R1).
    { destruct (impact_of v' =? 0); [by exists m|].
      destruct (apply_score_delta_ok k key (impact_of v') (str "Vouch impact") now m Hk M)
        as (m1 & E & M1 & A1 & V1 & G1 & R1).
      { apply (safe_change k); [done..|]. pose proof (impact_bound v'). unfold safe_delta. lia. }
      exists m1. do 5 (split; [done|]). intros n Hn. by rewrite R1, decide_False. }
    rewrite E1. cbn [mbind outcome_bind].
    destruct (IH m1 M1 Hl) as (l' & m' & E & M' & Hl' & Hs & A & V & G & R). rewrite E.
    exists (v' :: l'), m'. split; [done|]. split; [done|]. split; [by constructor|].
    split; [cbn; by rewrite Hs|]. rewrite A, V, G. do 3 (split; [done|]).
    intros n Hn. by rewrite R, R1.
  - destruct (IH m M Hl) as (l' & m' & E & M' & Hl' & Hs & A & V & G & R). rewrite E.
    exists (v :: l'), m'. split; [done|]. split; [done|]. split; [by constructor|].
    split; [cbn; by rewrite Hs|]. done.
Qed.

Lemma update_voucher_ok k now l m :
  0 <= k → manager_ok k m → Forall (λ p, vouches_ok p.1 p.2) l →
  ∃ m', foldl (update_voucher now) (Ok m) l = Ok m' ∧ manager_ok k m' ∧
    attestations m' = attestations m ∧ trust_graph m' = trust_graph m ∧
    ∀ n, n ∉ l.*1 → get_reputation n m' = get_reputation n m.
Proof.
  intros Hk. revert m. induction l as [|[key l] rest IH]; intros m M Hl; [by exists m|].
  apply list.Forall_cons in Hl as [[Hv Ha] Hrest]. cbn [foldl].
  unfold update_voucher at 2. cbn [mbind outcome_bind fst snd].
  destruct (update_vouches_ok k key now l m Hk M Hv)
    as (l' & m1 & -> & M1 & Hl' & Hs & A1 & V1 & G1 & R1).
  cbn [mbind outcome_bind].
  assert (M2 : manager_ok k (with_vouches (<[key := l']> (vouches m1)) m1)).
  { destruct M1 as [S A V G]. split; try done. cbn. apply map_Forall_insert_2; [|done].
    split; [done|]. by rewrite (len_active_same l' l). }
  destruct (IH _ M2 Hrest) as (m' & E & M' & A & G & R).
  exists m'. rewrite E. split; [done|]. split; [done|]. rewrite A, G. split; [done|]. split; [done|].
  intros n [Hne Hn]%not_elem_of_cons. rewrite R by done.
  change (get_reputation n m1 = get_reputation n m). by apply R1.
Qed.

Lemma update_vouch_impacts_ok k now m :
  0 <= k → manager_ok k m →
  ∃ m', update_vouch_impacts now m = Ok m' ∧ manager_ok k m' ∧
    attestations m' = attestations m ∧ trust_graph m' = trust_graph m ∧
    ∀ n, vouches m !! n = None → get_reputation n m' = get_reputation n m.
Proof.
  intros Hk M. destruct (update_voucher_ok k now (entries (vouches m)) m Hk M)
    as (m' & E & M' & A & G & R).
  { apply list.Forall_forall. intros [n l] H%elem_of_entries. by apply (mo_vouches _ _ M). }
  exists m'. do 4 (split; [done|]). intros n Hn. apply R.
  intros ([n' l] & -> & Hin)%list_elem_of_fmap. apply elem_of_entries in Hin. cbn in Hn. congruence.
Qed.

(** *** The graph rebuilt, expired attestations dropped *)

Lemma foldl_graph_ok {A} (f : TrustGraph → A → TrustGraph) l g :
  (∀ g x, graph_ok g → graph_ok (f g x)) → graph_ok g → graph_ok (foldl f g l).
Proof. intros Hf. revert g. induction l as [|x l IH]; intros g G; [done|]. apply IH. by apply Hf. Qed.

Lemma rebuild_ok k now m : manager_ok k m → manager_ok k (rebuild_trust_graph now m).
Proof.
  intros [S A V G]. split; try done. cbn. apply foldl_graph_ok.
  { intros. by apply add_edge_ok. }
  apply foldl_graph_ok; [|by intros a b w].
  intros. apply add_edge_ok; [apply attestation_weight_number|done].
Qed.

Lemma cleanup_ok k now m : manager_ok k m → manager_ok k (cleanup_expired_attestations now m).
Proof.
  intros [S A V G]. split; try done. cbn. intros n l Hl.
  rewrite lookup_fmap in Hl. destruct (attestations m !! n) as [l0|] eqn:E; [|done].
  injection Hl as <-. specialize (A n l0 E). rewrite list.Forall_forall in A |- *.
  intros a Ha. apply A. by apply list_elem_of_filter in Ha as [_ ?].
Qed.

(** *** Decay *)

(** One percent less, towards zero. *)
Definition nearly (x y : Z) : Prop :=
  0 <= y * Z.sgn x ∧ 1000 * Z.abs y <= 991 * Z.abs x ∧ 989 * Z.abs x < 1000 * (Z.abs y + 1).

Definition decays (s s' : ReputationScore) : Prop :=
  nearly (total_score s) (total_score s') ∧ nearly (hosting_score s) (hosting_score s') ∧
  nearly (contribution_score s) (contribution_score s') ∧
  nearly (vouching_score s) (vouching_score s') ∧ nearly (penalty_score s) (penalty_score s') ∧
  recent_events s' = recent_events s ∧ rs_node s' = rs_node s.

Lemma decayed_nearly x : in_s 32 x → ∃ y, decayed x = Ok y ∧ nearly x y.
Proof. apply scale_near. Qed.

Lemma nearly_le x y : nearly x y → Z.abs y <= Z.abs x.
Proof. unfold nearly. lia. Qed.

Lemma decay_score_ok k n s :
  50 * k < 2 ^ 31 → score_ok k n s → ∃ s', decay_score s = Ok s' ∧ score_ok k n s' ∧ decays s s'.
Proof.
  intros Hk [Hn Ht He Hp]. rewrite !list.Forall_cons in Hp. destruct Hp as (H1 & H2 & H3 & H4 & _).
  assert (Hs : in_s 32 (total_score s)).
  { revert Ht. unfold in_s, in_bounds, REPUTATION_FLOOR, REPUTATION_CEILING. lia. }
  destruct (decayed_nearly _ Hs) as (t & Et & Dt).
  destruct (decayed_nearly (hosting_score s)) as (h & Eh & Dh); [unfold in_s; lia|].
  destruct (decayed_nearly (contribution_score s)) as (c & Ec & Dc); [unfold in_s; lia|].
  destruct (decayed_nearly (vouching_score s)) as (v & Ev & Dv); [unfold in_s; lia|].
  destruct (decayed_nearly (penalty_score s)) as (p & Ep & Dp); [unfold in_s; lia|].
  unfold decay_score. rewrite Et, Eh, Ec, Ev, Ep. eexists. split; [done|]. split; [|done].
  apply nearly_le in Dh, Dc, Dv, Dp. split; cbn; try done.
  - revert Ht Dt. unfold in_bounds, REPUTATION_FLOOR, REPUTATION_CEILING, nearly.
    intros [? ?] (Hsg & ? & _). destruct (Z.sgn_spec (total_score s)) as [[? E]|[[? E]|[? E]]];
      rewrite E in Hsg; lia.
  - repeat constructor; lia.
Qed.

Lemma decay_entries k l (acc : gmap NodeID ReputationScore) :
  50 * k < 2 ^ 31 → NoDup l.*1 → Forall (λ p, score_ok k p.1 p.2) l →
  ∃ acc', foldl decay_entry (Ok acc) l = Ok acc' ∧
    (∀ n s, (n, s) ∈ l → ∃ s', acc' !! n = Some s' ∧ score_ok k n s' ∧ decays s s') ∧
    (∀ n, n ∉ l.*1 → acc' !! n = acc !! n).
Proof.
  intros Hk. revert acc. induction l as [|[n s] l IH]; intros acc Hnd Hl.
  { exists acc. split; [done|]. split; [by intros ? ? ?%elem_of_nil|done]. }
  apply list.Forall_cons in Hl as [Hs Hl]. cbn in Hnd. apply list.NoDup_cons in Hnd as [Hn Hnd].
  cbn [foldl]. unfold decay_entry at 2. cbn [mbind outcome_bind fst snd] in *.
  destruct (decay_score_ok k n s Hk Hs) as (s' & -> & Hs' & D). cbn [mbind outcome_bind].
  destruct (IH (<[n := s']> acc) Hnd Hl) as (acc' & E & Hin & Hout). exists acc'.
  split; [done|]. split.
  - intros n0 s0 [[= -> ->]|H0]%elem_of_cons; [|by apply Hin].
    exists s'. by rewrite Hout, lookup_insert_eq.
  - intros n0 [Hne H0]%not_elem_of_cons. by rewrite Hout, lookup_insert_ne by done.
Qed.

Lemma decay_ok k m :
  50 * k < 2 ^ 31 → manager_ok k m →
  ∃ m', decay_reputation m = Ok m' ∧ manager_ok k m' ∧
    attestations m' = attestations m ∧ vouches m' = vouches m ∧
    (∀ n, match scores m !! n, scores m' !! n with
          | Some s, Some s' => decays s s'
          | None, None => True
          | _, _ => False
          end) ∧
    ∀ a b, get_direct_trust a b (trust_graph m') =
      (λ w, fmul w (literal 95 100)) <$> get_direct_trust a b (trust_graph m).
Proof.
  intros Hk [S A V G]. unfold decay_reputation.
  destruct (decay_entries k (entries (scores m)) (scores m) Hk (NoDup_entries _))
    as (sc & -> & Hin & Hout).
  { apply list.Forall_forall. intros [n s] H%elem_of_entries. by apply S. }
  assert (Hn : ∀ n, scores m !! n = None → sc !! n = None).
  { intros n E. rewrite Hout; [done|]. intros ([n' s] & -> & H)%list_elem_of_fmap.
    apply elem_of_entries in H. cbn in E. congruence. }
  eexists. split; [done|]. split; [split; cbn; try done|split; [done|split; [done|split]]].
  - intros n s' E. destruct (scores m !! n) as [s|] eqn:Es; [|by rewrite Hn in E].
    destruct (Hin n s) as (s1 & E1 & H1 & _); [by apply elem_of_entries|]. congruence.
  - intros a b w. rewrite decay_edge_trust. destruct (get_direct_trust a b (trust_graph m)) as [w0|] eqn:E;
      [|done]. intros [= <-]. apply fmul_nonneg; [by apply (G a b)|done].
  - intros n. cbn. destruct (scores m !! n) as [s|] eqn:Es.
    + destruct (Hin n s) as (s1 & -> & _ & D); [by apply elem_of_entries|done].
    + by rewrite Hn.
  - intros a b. cbn. apply decay_edge_trust.
Qed.

(** ** Every operation keeps the invariant *)

Inductive Operation :=
| OpAction (n : NodeID) (a : ReputationAction) (related : option NodeID)
| OpDelta (n : NodeID) (delta : Z) (reason : bytes)
| OpAttest (a : Attestation)
| OpVouch (view : StateManager) (by_ for_ : NodeID)
| OpRevoke (by_ for_ : NodeID)
| OpImpacts
| OpRebuild
| OpDecay
| OpCleanup.

Definition attest (now : Z) (a : Attestation) (m : ReputationManager) : outcome ReputationManager :=
  '(_, m) ← create_attestation a now m;
  Ok m.

Definition perform (now : Z) (op : Operation) (m : ReputationManager) : outcome ReputationManager :=
  match op with
  | OpAction n a related => record_action n a related now m
  | OpDelta n delta reason => apply_score_delta n delta reason now m
  | OpAttest a => attest now a m
  | OpVouch view by_ for_ => Ok (vouch_for_node view by_ for_ now m).2
  | OpRevoke by_ for_ => Ok (revoke_vouch by_ for_ m).2
  | OpImpacts => update_vouch_impacts now m
  | OpRebuild => Ok (rebuild_trust_graph now m)
  | OpDecay => decay_reputation m
  | OpCleanup => Ok (cleanup_expired_attestations now m)
  end.

Fixpoint run (ops : list (Z * Operation)) (m : ReputationManager) : outcome ReputationManager :=
  match ops with
  | [] => Ok m
  | (now, op) :: ops => m ← perform now op m; run ops m
  end.

(** The operation adds a change to a score that leaves the 32-bit range. *)
Inductive overflows (m : ReputationManager) : Operation → Prop :=
| overflows_delta n delta reason :
    ¬ in_s 32 (get_reputation n m + delta) → overflows m (OpDelta n delta reason).

(** A change far enough from the 32-bit limits for every score. *)
Definition safe_operation (op : Operation) : Prop :=
  match op with OpDelta _ delta _ => safe_delta delta | _ => True end.

Lemma new_manager_ok : manager_ok 0 new_manager.
Proof. split; [apply map_Forall_empty..|by intros a b w]. Qed.

Lemma decide_overflows m op : overflows m op ∨ ¬ overflows m op.
Proof.
  destruct op as [|n delta reason| | | | | | | ]; try by (right; inversion 1).
  destruct (decide (in_s 32 (get_reputation n m + delta))); [|left; by constructor].
  right. by inversion 1.
Qed.

Lemma perform_overflows now op m : overflows m op → perform now op m = Undef.
Proof.
  intros [n delta reason H]. cbn [perform]. unfold apply_score_delta, change_total.
  rewrite <- reputation_total. unfold add_s. by rewrite decide_False.
Qed.

Lemma safe_never_overflows k op m :
  0 <= k → manager_ok k m → safe_operation op → ¬ overflows m op.
Proof.
  intros Hk M Hs Ho. destruct Ho as [n delta reason Ho]. by apply Ho, (safe_change k).
Qed.

Lemma perform_ok k now op m :
  0 <= k → 50 * k + 50 < 2 ^ 31 → manager_ok k m → ¬ overflows m op →
  ∃ m', perform now op m = Ok m' ∧ manager_ok (k + 1) m'.
Proof.
  intros Hk Hr M Hop.
  assert (Hup : ∀ r, (∃ m', r = Ok m' ∧ manager_ok k m') → ∃ m', r = Ok m' ∧ manager_ok (k + 1) m').
  { intros r (m' & E & M'). exists m'. split; [done|]. by apply manager_ok_mono. }
  destruct op as [n a related|n delta reason|a|view by_ for_|by_ for_| | | | ]; cbn [perform].
  - destruct (record_action_ok k n a related now m Hk Hr M) as (m' & E & M' & _). by exists m'.
  - apply Hup. destruct (decide (in_s 32 (get_reputation n m + delta))) as [Hd|Hd];
      [|by destruct Hop].
    destruct (apply_score_delta_ok k n delta reason now m Hk M Hd) as (m' & E & M' & _).
    by exists m'.
  - apply Hup. unfold attest. destruct (create_attestation_ok k a now m Hk M) as (m' & -> & M' & _). by exists m'.
  - apply Hup. eexists. split; [done|]. by apply vouch_for_node_ok.
  - apply Hup. eexists. split; [done|]. by apply revoke_vouch_ok.
  - apply Hup. destruct (update_vouch_impacts_ok k now m Hk M) as (m' & E & M' & _). by exists m'.
  - apply Hup. eexists. split; [done|]. by apply rebuild_ok.
  - apply Hup. destruct (decay_ok k m) as (m' & E & M' & _); [lia|done|]. by exists m'.
  - apply Hup. eexists. split; [done|]. by apply cleanup_ok.
Qed.

(** Some operation of the sequence overflows in the state the ones before it leave. *)
Definition overflows_in (ops : list (Z * Operation)) (m : ReputationManager) : Prop :=
  ∃ before now op after m',
    ops = before ++ (now, op) :: after ∧ run before m = Ok m' ∧ overflows m' op.

Lemma overflow_stops_run ops m : overflows_in ops m → run ops m = Undef.
Proof.
  intros (before & now & op & after & m' & -> & E & H). revert m E.
  induction before as [|[t o] before IH]; intros m E; cbn [app run] in *.
  - injection E as ->. by rewrite perform_overflows.
  - destruct (perform t o m) as [m1| |]; cbn [mbind outcome_bind] in *; [by apply IH|done..].
Qed.

Lemma overflows_later now op ops m m' :
  perform now op m = Ok m' → overflows_in ops m' → overflows_in ((now, op) :: ops) m.
Proof.
  intros E (before & t & o & after & m2 & -> & E2 & H).
  exists ((now, op) :: before), t, o, after, m2. split_and!; [done| |done].
  cbn [run]. by rewrite E.
Qed.

Lemma run_reputation_ok ops k m :
  0 <= k → k + len ops <= 42000000 → manager_ok k m →
  overflows_in ops m ∨ ∃ m', run ops m = Ok m' ∧ manager_ok (k + len ops) m'.
Proof.
  revert k m. induction ops as [|[now op] ops IH]; intros k m Hk Hl M.
  { right. exists m. rewrite len_nil, Z.add_0_r. done. }
  rewrite len_cons in *. cbn [run]. pose proof (len_nonneg ops).
  destruct (decide_overflows m op) as [Ho|Ho].
  { left. by exists [], now, op, ops, m. }
  destruct (perform_ok k now op m) as (m1 & E1 & M1); [lia..|done|done|].
  destruct (IH (k + 1) m1) as [Hi|(m' & E & M')]; [lia..|done| |].
  - left. by eapply overflows_later.
  - right. exists m'. rewrite E1. split; [done|].
    by replace (k + (1 + len ops)) with (k + 1 + len ops) by lia.
Qed.

Lemma safe_sequence ops k m :
  0 <= k → k + len ops <= 42000000 → manager_ok k m → Forall (safe_operation ∘ snd) ops →
  ¬ overflows_in ops m.
Proof.
  intros Hk Hl M Hs (before & now & op & after & m' & -> & E & H).
  apply list.Forall_app in Hs as [_ [Hop _]%list.Forall_cons].
  rewrite len_app in Hl. pose proof (len_nonneg ((now, op) :: after)). pose proof (len_nonneg before).
  destruct (run_reputation_ok before k m) as [Hb|(m2 & E2 & M2)]; [lia..|done| |].
  { apply overflow_stops_run in Hb. congruence. }
  assert (m' = m2) as -> by congruence. apply (safe_never_overflows (k + len before) op m2); [lia|done..].
Qed.

(** *** Repeated changes of one score *)

(** [j] changes of [d], clamped one by one. *)
Definition drift (d x : Z) (j : nat) : Z :=
  if decide (0 <= d) then Z.min REPUTATION_CEILING (x + d * Z.of_nat j)
  else Z.max REPUTATION_FLOOR (x + d * Z.of_nat j).

Lemma drift_0 d x : in_bounds x → drift d x 0 = x.
Proof. unfold drift, in_bounds. rewrite Z.mul_0_r, Z.add_0_r. case_decide; lia. Qed.

Lemma drift_S d x j : in_bounds x → clamp_reputation (drift d x j + d) = drift d x (S j).
Proof.
  unfold drift, in_bounds, clamp_reputation, REPUTATION_FLOOR, REPUTATION_CEILING. intros Hx.
  assert (0 <= d → 0 <= d * Z.of_nat j) by lia. assert (d < 0 → d * Z.of_nat j <= 0) by lia.
  replace (d * Z.of_nat (S j)) with (d * Z.of_nat j + d) by lia.
  case_decide; repeat (case_match; rewrite ?Z.ltb_lt, ?Z.ltb_ge in *); lia.
Qed.

(** The outcome of [j] calls. *)
Fixpoint repeat_call {A} (f : A → outcome A) (j : nat) (a : A) : outcome A :=
  match j with O => Ok a | S j => a ← repeat_call f j a; f a end.

Lemma attest_repeated k now a m (j : nat) :
  0 <= k → manager_ok k m → acceptable now a →
  ∃ m', repeat_call (attest now a) j m = Ok m' ∧ manager_ok k m' ∧
    get_reputation (subject a) m' = drift (at_score_delta a) (get_reputation (subject a) m) j ∧
    get_attestations_for (subject a) m' = get_attestations_for (subject a) m ++ replicate j a.
Proof.
  intros Hk M Ha. pose proof (reputation_bounds k (subject a) m Hk M) as Hb.
  induction j as [|j (m1 & E & M1 & R & A)].
  { exists m. rewrite drift_0, app_nil_r by done. done. }
  cbn [repeat_call]. rewrite E. cbn [mbind outcome_bind].
  unfold attest. destruct (create_attestation_ok k a now m1 Hk M1) as (m' & -> & M' & _ & _ & H).
  destruct (H Ha) as (A' & _ & R'). exists m'. split; [done|]. split; [done|]. split.
  - by rewrite R', decide_True, R, drift_S.
  - by rewrite A', A, <- app_assoc, replicate_S_end.
Qed.

(** *** Impacts of one vouch *)

Lemma entries_singleton {V} (n : NodeID) (x : V) : entries {[n := x]} = [(n, x)].
Proof. unfold entries. rewrite map_to_list_singleton. reflexivity. Qed.

Definition impact_at (m : ReputationManager) (v : VouchRecord) : Z :=
  impact_of (see_reputation (get_reputation (vouchee v) m) v).

Lemma single_impact k now key v m :
  0 <= k → manager_ok k m → vouches m = {[key := [v]]} → still_active v = true → vouchee v ≠ key →
  ∃ m', update_vouch_impacts now m = Ok m' ∧ manager_ok k m' ∧
    vouches m' = {[key := [see_reputation (get_reputation (vouchee v) m) v]]} ∧
    get_reputation (vouchee v) m' = get_reputation (vouchee v) m ∧
    get_reputation key m' = clamp_reputation (get_reputation key m + impact_at m v).
Proof.
  intros Hk M Hv Ha Hne. unfold update_vouch_impacts. rewrite Hv, entries_singleton. cbn [foldl].
  unfold update_voucher. cbn [mbind outcome_bind fst snd update_vouches]. rewrite Ha. cbn [negb].
  assert (Hok : vouch_ok key (see_reputation (get_reputation (vouchee v) m) v)).
  { destruct (mo_vouches _ _ M key [v]) as [Hl _]; [by rewrite Hv, lookup_singleton_eq|].
    apply list.Forall_cons in Hl as [(H1 & H2 & _) _]. split; [done|]. split; [done|].
    by apply (reputation_bounds k). }
  rewrite (impact_ok key _ Hok). cbn [mbind outcome_bind]. unfold impact_at.
  set (v' := see_reputation _ v) in *.
  assert (Mv : ∀ m1, manager_ok k m1 → vouches m1 = {[key := [v]]} →
    manager_ok k (with_vouches (<[key := [v']]> (vouches m1)) m1) ∧
    vouches (with_vouches (<[key := [v']]> (vouches m1)) m1) = {[key := [v']]}).
  { intros m1 M1 E1. split; [|cbn; rewrite E1; apply insert_singleton_eq].
    destruct M1 as [S A V G]. split; try done. cbn. apply map_Forall_insert_2; [|done].
    split; [by repeat constructor; apply Hok|]. unfold active_vouches. cbn. by case_decide. }
  destruct (Z.eqb_spec (impact_of v') 0) as [E0|E0]; cbn [mbind outcome_bind].
  - eexists. split; [done|]. destruct (Mv m M Hv). split; [done|]. split; [done|]. split; [done|].
    rewrite E0, Z.add_0_r, clamp_id; [done|]. by apply (reputation_bounds k).
  - destruct (apply_score_delta_ok k key (impact_of v') (str "Vouch impact") now m Hk M)
      as (m1 & -> & M1 & _ & V1 & _ & R1).
    { apply (safe_change k); [done..|]. pose proof (impact_bound v'). unfold safe_delta. lia. }
    cbn [mbind outcome_bind]. eexists. split; [done|].
    destruct (Mv m1 M1) as [? ?]; [by rewrite V1|]. split; [done|]. split; [done|].
    split; [transitivity (get_reputation (vouchee v) m1); [done|by rewrite R1, decide_False]|].
    transitivity (get_reputation key m1); [done|]. by rewrite R1, decide_True.
Qed.

Lemma impacts_repeated k now key v m (j : nat) :
  0 <= k → manager_ok k m → vouches m = {[key := [v]]} → still_active v = true → vouchee v ≠ key →
  ∃ m', repeat_call (update_vouch_impacts now) j m = Ok m' ∧ manager_ok k m' ∧
    get_reputation (vouchee v) m' = get_reputation (vouchee v) m ∧
    get_reputation key m' = drift (impact_at m v) (get_reputation key m) j.
Proof.
  intros Hk M Hv Ha Hne. pose proof (reputation_bounds k key m Hk M) as Hb.
  assert (∃ m' v', repeat_call (update_vouch_impacts now) j m = Ok m' ∧ manager_ok k m' ∧
    get_reputation (vouchee v) m' = get_reputation (vouchee v) m ∧
    get_reputation key m' = drift (impact_at m v) (get_reputation key m) j ∧
    vouches m' = {[key := [v']]} ∧ still_active v' = true ∧ vouchee v' = vouchee v ∧
    reputation_at_vouch v' = reputation_at_vouch v) as (m' & v' & H); [|by exists m'; destruct H as (? & ? & ? & ? & _)].
  induction j as [|j (m1 & v1 & E & M1 & R1 & D1 & V1 & A1 & W1 & T1)].
  { exists m, v. rewrite drift_0 by done. done. }
  cbn [repeat_call]. rewrite E. cbn [mbind outcome_bind].
  destruct (single_impact k now key v1 m1) as (m2 & E2 & M2 & V2 & R2 & D2); [done..|congruence|].
  assert (Himp : impact_at m1 v1 = impact_at m v).
  { unfold impact_at, impact_of, see_reputation. cbn. by rewrite A1, Ha, W1, R1, T1. }
  exists m2, (see_reputation (get_reputation (vouchee v1) m1) v1). do 2 (split; [done|]).
  rewrite W1 in *. split; [congruence|]. split; [by rewrite D2, D1, Himp, drift_S|]. done.
Qed.

(** *** Signing *)

Lemma be_bytes_inj n x y : 0 <= x < 2 ^ (Z.of_nat n * 8) → 0 <= y < 2 ^ (Z.of_nat n * 8) →
  be_bytes n x = be_bytes n y → x = y.
Proof.
  intros Hx Hy E. unfold be_bytes in E. apply (f_equal (@rev byte)) in E.
  rewrite !rev_involutive in E. by apply (le_bytes_inj n).
Qed.

Lemma length_be_bytes n x : length (be_bytes n x) = n.
Proof. unfold be_bytes. by rewrite length_rev, length_le_bytes. Qed.

Lemma be_bytes_wrap x : be_bytes 4 (u32 x) = be_bytes 4 x.
Proof.
  unfold be_bytes, le_bytes. f_equal. apply list_fmap_ext. intros i j Hj.
  assert (j < 4)%nat by (apply lookup_seq in Hj; lia).
  rewrite <- (to_byte_val (to_byte _)), byte_val_to_byte, <- (to_byte_val (to_byte (Z.shiftr x _))), byte_val_to_byte.
  f_equal. unfold wrap. rewrite !Z.shiftr_div_pow2 by lia.
  destruct j as [|[|[|[|]]]]; try lia; Z.div_mod_to_equations; lia.
Qed.

(** An attestation whose fields are values of their C++ types. *)
Definition typed_attestation (a : Attestation) : Prop :=
  in_s 32 (at_score_delta a) ∧ in_u 32 (len (statement a)) ∧ in_u 64 (at_timestamp a) ∧
  in_u 64 (at_expires a).

(** The signed bytes determine every field but the signature. *)
Lemma signable_inj a b :
  typed_attestation a → typed_attestation b →
  attestation_to_signable_bytes a = attestation_to_signable_bytes b →
  attester a = attester b ∧ subject a = subject b ∧ at_score_delta a = at_score_delta b ∧
  statement a = statement b ∧ at_timestamp a = at_timestamp b ∧ at_expires a = at_expires b.
Proof.
  intros (D1 & L1 & T1 & X1) (D2 & L2 & T2 & X2). unfold attestation_to_signable_bytes.
  intros E. apply app_inj_1 in E as [E1 E]; [|by rewrite !length_arr].
  apply app_inj_1 in E as [E2 E]; [|by rewrite !length_arr].
  apply app_inj_1 in E as [E3 E]; [|by rewrite !length_be_bytes].
  apply app_inj_1 in E as [E4 E]; [|by rewrite !length_be_bytes].
  apply be_bytes_inj in E4; [|apply (wrap_range 32); lia..].
  rewrite !(wrap_small 32) in E4 by done.
  apply app_inj_1 in E as [E5 E]; [|unfold len in E4; lia].
  apply app_inj_1 in E as [E6 E7]; [|by rewrite !length_be_bytes].
  apply be_bytes_inj in E6; [|done..]. apply be_bytes_inj in E7; [|done..].
  split; [by apply arr_inj|]. split; [by apply arr_inj|].
  rewrite <- (be_bytes_wrap (at_score_delta a)), <- (be_bytes_wrap (at_score_delta b)) in E3.
  apply be_bytes_inj in E3; [|apply (wrap_range 32); lia..].
  split; [|done]. apply (f_equal (swrap 32)) in E3.
  by rewrite !swrap_wrap, !swrap_small in E3 by done.
Qed.

Section workflow.
Context `{Crypto}.

Lemma sign_attestation_fields i a signed :
  sign_attestation i a = Ok signed →
  attester signed = id i ∧ subject signed = subject a ∧ at_score_delta signed = at_score_delta a ∧
  statement signed = statement a ∧ at_timestamp signed = at_timestamp a ∧
  at_expires signed = at_expires a ∧
  crypto_sign_detached (attestation_to_signable_bytes signed) (secret_key i) =
    Some (at_signature signed).
Proof.
  unfold sign_attestation, sign, Ed25519.sign. cbn.
  case_match eqn:E; [|done]. intros [= <-]. done.
Qed.

Lemma has_vouch_active by_ for_ m :
  has_vouch by_ for_ m = true ↔ ∃ v, v ∈ get_vouches_by by_ m ∧ vouchee v = for_ ∧ still_active v = true.
Proof.
  unfold has_vouch, is_vouch_for. rewrite existsb_exists.
  split; intros (v & Hv & E); exists v; rewrite andb_true_iff, bool_decide_eq_true, list_elem_of_In in *;
    tauto.
Qed.

(** A request that may be made and is signed. *)
Lemma request_vouch_ok k view i for_ reason now m signed :
  0 <= k → manager_ok k m → can_vouch view (id i) for_ m = true →
  sign_attestation i (create_vouch_attestation (id i) for_ 20 reason 2592000 now) = Ok signed →
  let r := get_reputation for_ m in
  ∃ m', request_vouch view i for_ reason now m = Ok (bool_decide (acceptable now signed), m') ∧
    manager_ok k m' ∧
    get_vouches_by (id i) m' = get_vouches_by (id i) m ++ [MkVouchRecord (id i) for_ now true r r] ∧
    get_direct_trust (id i) for_ (trust_graph m') =
      Some (if decide (acceptable now signed) then literal 6 10 else literal 8 10) ∧
    get_reputation for_ m' =
      (if decide (acceptable now signed) then clamp_reputation (r + 20) else r) ∧
    (acceptable now signed → signed ∈ get_attestations_for for_ m').
Proof.
  intros Hk M Hc Hs r. unfold request_vouch. rewrite Hc, Hs. cbn [negb mbind outcome_bind].
  pose proof (vouch_for_node_ok k view (id i) for_ now m Hk M) as M1.
  unfold vouch_for_node in *. rewrite Hc in *. cbn [negb snd] in *. fold r in M1 |- *.
  set (m1 := with_graph _ _) in *.
  assert (R1 : get_reputation for_ m1 = r) by done.
  assert (V1 : get_vouches_by (id i) m1 =
               get_vouches_by (id i) m ++ [MkVouchRecord (id i) for_ now true r r]).
  { unfold get_vouches_by. cbn. by rewrite lookup_insert_eq. }
  assert (G1 : get_direct_trust (id i) for_ (trust_graph m1) = Some (literal 8 10)).
  { cbn. by rewrite add_edge_trust, decide_True. }
  clearbody m1. destruct (sign_attestation_fields _ _ _ Hs) as (F1 & F2 & F3 & _). cbn in F2, F3.
  destruct (create_attestation_ok k signed now m1 Hk M1) as (m' & E & M' & V' & Hno & Hyes).
  exists m'. split; [done|]. split; [done|].
  assert (get_vouches_by (id i) m' = get_vouches_by (id i) m1) as -> by (unfold get_vouches_by; by rewrite V').
  split; [done|]. destruct (decide (acceptable now signed)) as [Ha|Ha].
  - destruct (Hyes Ha) as (A' & G' & R'). rewrite F2 in *. split; [|split; [|intros _]].
    + rewrite G'. unfold update_trust_from_attestation, attestation_weight.
      rewrite add_edge_trust, decide_True, F3 by done. reflexivity.
    + by rewrite R', decide_True, R1, F3.
    + rewrite A'. apply elem_of_app. right. by apply list_elem_of_here.
  - rewrite (Hno Ha). done.
Qed.

(** Withdrawing a vouch that is active. *)
Lemma withdraw_vouch_ok k by_ for_ reason now m :
  0 <= k → manager_ok k m → has_vouch by_ for_ m = true →
  ∃ m', withdraw_vouch by_ for_ reason now m = Ok (true, m') ∧ manager_ok k m' ∧
    has_vouch by_ for_ m' = false ∧ get_direct_trust by_ for_ (trust_graph m') = None ∧
    get_reputation for_ m' = clamp_reputation (get_reputation for_ m + -20) ∧
    attestations m' = attestations m.
Proof.
  intros Hk M Hv. unfold withdraw_vouch. rewrite Hv. cbn [negb].
  pose proof (revoke_vouch_ok k by_ for_ m M) as M1.
  unfold has_vouch, get_vouches_by in Hv. unfold revoke_vouch in *.
  destruct (vouches m !! by_) as [l|] eqn:El; [|done]. cbn in Hv. rewrite Hv in *. cbn [negb snd] in *.
  set (m1 := with_graph _ _) in *.
  assert (V1 : has_vouch by_ for_ m1 = false).
  { apply not_true_iff_false. intros (v & Hin & Hw & Hact)%has_vouch_active. revert Hin.
    unfold get_vouches_by. cbn. rewrite lookup_insert_eq. cbn.
    intros (v0 & -> & _)%list_elem_of_fmap. revert Hw Hact.
    destruct (is_vouch_for for_ v0) eqn:E; [done|]. intros Hw Hact. unfold is_vouch_for in E. rewrite bool_decide_eq_true_2 in E by done.
    cbn in E. congruence. }
  assert (G1 : get_direct_trust by_ for_ (trust_graph m1) = None).
  { cbn. by rewrite remove_edge_trust, decide_True. }
  assert (R1 : get_reputation for_ m1 = get_reputation for_ m) by done.
  assert (A1 : attestations m1 = attestations m) by done. clearbody m1.
  set (text := if decide (reason = []) then str "Revoking vouch" else reason). cbn [at_score_delta statement create_denouncement_attestation make_attestation].
  destruct (apply_score_delta_ok k for_ (-20) (if decide (text = []) then str "Reporting negative behavior" else text)
    now m1 Hk M1) as (m' & E & M' & A' & V' & G' & R'); [apply (safe_change k); [done..|unfold safe_delta; lia]|].
  cbn. unfold create_denouncement_attestation, make_attestation in *. cbn in *. rewrite E. cbn. exists m'. split; [done|]. split; [done|].
  split; [unfold has_vouch, get_vouches_by in *; by rewrite V'|].
  split; [by rewrite G'|]. split; [by rewrite R', decide_True, R1|congruence].
Qed.

(** A rebuilt graph has an edge for every attestation that has not expired. *)
Lemma rebuilt_edge a now m :
  a ∈ get_attestations_for (subject a) m → is_expired now a = false →
  is_Some (get_direct_trust (attester a) (subject a) (trust_graph (rebuild_trust_graph now m))).
Proof.
  intros Ha He. cbn.
  assert (Hkeep : ∀ {A} (f : TrustGraph → A → TrustGraph) l g,
    (∀ g x, is_Some (get_direct_trust (attester a) (subject a) g) →
            is_Some (get_direct_trust (attester a) (subject a) (f g x))) →
    is_Some (get_direct_trust (attester a) (subject a) g) →
    is_Some (get_direct_trust (attester a) (subject a) (foldl f g l))).
  { intros A f l. induction l as [|x l IH]; intros g Hf Hg; [done|]. apply IH; auto. }
  assert (Hadd : ∀ from to w g, is_Some (get_direct_trust (attester a) (subject a) g) →
    is_Some (get_direct_trust (attester a) (subject a) (add_edge from to w now g))).
  { intros. rewrite add_edge_trust. by case_decide. }
  apply Hkeep; [by intros; apply Hadd|].
  assert (Hin : a ∈ filter (λ a, is_expired now a = false) (all_attestations m)).
  { apply list_elem_of_filter. split; [done|]. unfold all_attestations, get_attestations_for in *.
    destruct (attestations m !! subject a) as [l|] eqn:E; [|by apply elem_of_nil in Ha].
    apply list_elem_of_bind. exists (subject a, l). split; [done|]. by apply elem_of_entries. }
  apply list_elem_of_split in Hin as (l1 & l2 & ->). rewrite foldl_app. cbn [foldl].
  apply Hkeep; [by intros; apply Hadd|]. unfold update_trust_from_attestation.
  by rewrite add_edge_trust, decide_True.
Qed.

End workflow.

(** *** Decay to zero *)

Lemma nearly_step x y : nearly x y → Z.abs y <= Z.max 0 (Z.abs x - 1).
Proof. unfold nearly. lia. Qed.

Lemma decay_repeated k m (j : nat) :
  0 <= k → 50 * k < 2 ^ 31 → manager_ok k m →
  ∃ m', repeat_call decay_reputation j m = Ok m' ∧ manager_ok k m' ∧
    ∀ n, Z.abs (get_reputation n m') <= Z.max 0 (Z.abs (get_reputation n m) - Z.of_nat j).
Proof.
  intros Hk Hr M. induction j as [|j (m1 & E & M1 & R1)]; [exists m; do 2 (split; [done|]); lia|].
  cbn [repeat_call]. rewrite E. cbn [mbind outcome_bind].
  destruct (decay_ok k m1 Hr M1) as (m2 & E2 & M2 & _ & _ & D & _). exists m2.
  do 2 (split; [done|]). intros n. specialize (D n). specialize (R1 n). unfold get_reputation in *.
  destruct (scores m1 !! n) as [s|], (scores m2 !! n) as [s'|]; try done; [|lia].
  destruct D as [D%nearly_step _]. lia.
Qed.

(** *** Statistics *)

Definition sum_of (l : list Z) : Z := foldr Z.add 0 l.

Lemma sum_bounds l : Forall in_bounds l → -1000 * len l <= sum_of l <= 10000 * len l.
Proof.
  induction 1 as [|x l Hx Hl IH]; [done|]. rewrite len_cons.
  change (sum_of (x :: l)) with (x + sum_of l).
  revert Hx. unfold in_bounds, REPUTATION_FLOOR, REPUTATION_CEILING. lia.
Qed.

Lemma sum_loop l acc :
  Forall in_bounds l → len l <= 2 ^ 40 → Z.abs acc <= 10000 * (2 ^ 40 - len l) →
  foldl (λ acc x, acc ← acc; add_s 64 acc x) (Ok acc) l = Ok (acc + sum_of l).
Proof.
  intros Hl. revert acc. induction Hl as [|x l Hx Hl IH]; intros acc Hlen Hacc.
  { cbn. by rewrite Z.add_0_r. }
  rewrite len_cons in *. pose proof (len_nonneg l). cbn [foldl mbind outcome_bind].
  revert Hx. unfold in_bounds, REPUTATION_FLOOR, REPUTATION_CEILING. intros Hx.
  rewrite add_s_ok by (unfold in_s; lia). rewrite IH by lia. cbn. f_equal.
  change (foldr Z.add 0 l) with (sum_of l). lia.
Qed.

Lemma totals_ok k m : manager_ok k m → Forall in_bounds (all_totals m).
Proof.
  intros M. unfold all_totals. apply Forall_fmap, list.Forall_forall. intros [n s] H%elem_of_entries.
  by apply (so_total _ _ _ (mo_scores _ _ M n s H)).
Qed.

Lemma length_totals m : length (all_totals m) = size (scores m).
Proof. unfold all_totals. by rewrite length_fmap, length_entries. Qed.

Lemma average_ok k m :
  manager_ok k m → Z.of_nat (size (scores m)) <= 2 ^ 31 → scores m ≠ ∅ →
  get_average_reputation m = Ok (i32 (u64 (sum_of (all_totals m)) / Z.of_nat (size (scores m)))) ∧
  (0 <= sum_of (all_totals m) →
     get_average_reputation m = Ok (sum_of (all_totals m) / Z.of_nat (size (scores m)))).
Proof.
  intros M Hs Hne. pose proof (totals_ok k m M) as Ht. pose proof (sum_bounds _ Ht) as Hb.
  assert (0 < size (scores m))%nat.
  { destruct (size (scores m)) eqn:E; [|lia]. by apply map_size_empty_iff in E. }
  assert (Hl : len (all_totals m) = Z.of_nat (size (scores m))) by (unfold len; by rewrite length_totals).
  assert (E : get_average_reputation m =
    Ok (i32 (u64 (sum_of (all_totals m)) / Z.of_nat (size (scores m))))).
  { unfold get_average_reputation. rewrite decide_False by done. rewrite sum_loop by (done || lia).
    cbn [mbind outcome_bind]. by rewrite Z.add_0_l, Hl. }
  split; [done|]. intros Hp. rewrite E. f_equal. rewrite wrap_small by (unfold in_u; lia).
  apply swrap_small; [done|]. unfold in_s.
  split; [apply Z.le_trans with 0; [lia|apply Z.div_pos; lia]|].
  apply Z.le_lt_trans with 10000; [|lia]. apply Z.div_le_upper_bound; lia.
Qed.

Lemma StronglySorted_split {A} (R : A → A → Prop) l (j : nat) x :
  StronglySorted R l → l !! j = Some x →
  Forall (λ y, R y x) (take j l) ∧ Forall (R x) (drop (S j) l).
Proof.
  intros Hs. revert j. induction Hs as [|y l Hs IH Hy]; intros [|j] E; [done..| |].
  - injection E as <-. split; [constructor|done].
  - cbn in *. destruct (IH j E). split; [|done]. constructor; [|done].
    rewrite list.Forall_forall in Hy. apply Hy. by apply list_elem_of_lookup_2 in E.
Qed.

Lemma median_ok m :
  scores m ≠ ∅ →
  ∃ lo hi, all_totals m ≡ₚ lo ++ get_median_reputation m :: hi ∧
    Forall (λ x, x <= get_median_reputation m) lo ∧ Forall (λ x, get_median_reputation m <= x) hi ∧
    length lo = (size (scores m) / 2)%nat.
Proof.
  intros Hne. unfold get_median_reputation. set (l := merge_sort Z.le (all_totals m)).
  assert (Hp : l ≡ₚ all_totals m) by apply merge_sort_Permutation.
  assert (Hl : length l = size (scores m)) by (by rewrite Hp, length_totals).
  assert (Hs : StronglySorted Z.le l) by (apply StronglySorted_merge_sort; apply _).
  assert (0 < length l)%nat.
  { rewrite Hl. destruct (size (scores m)) eqn:E; [|lia]. by apply map_size_empty_iff in E. }
  destruct (lookup_lt_is_Some_2 l (length l / 2)) as [x E]; [apply Nat.div_lt; lia|].
  rewrite E. cbn. destruct (StronglySorted_split _ _ _ _ Hs E) as [H1 H2].
  exists (take (length l / 2) l), (drop (S (length l / 2)) l).
  rewrite <- Hp, take_drop_middle by done. do 3 (split; [done|]). rewrite length_take, Hl.
  assert (size (scores m) / 2 < size (scores m))%nat as Hd by (apply Nat.div_lt; lia).
  apply Nat.min_l, Nat.lt_le_incl, Hd.
Qed.

Lemma top_ok sort count m :
  sorts_descending sort → 0 <= count →
  let top := get_top_reputation sort count m in
  NoDup top ∧ len top = Z.min count (Z.of_nat (size (scores m))) ∧
  (∀ n, n ∈ top → is_Some (scores m !! n)) ∧
  ∀ n n', n ∈ top → is_Some (scores m !! n') → n' ∉ top → get_reputation n' m <= get_reputation n m.
Proof.
  intros Hsort Hc. unfold get_top_reputation. set (scored := prod_map _ _ <$> entries (scores m)).
  destruct (Hsort scored) as [Hp Hs]. set (l := sort scored) in *.
  assert (Hfst : scored.*1 = (entries (scores m)).*1).
  { unfold scored. rewrite <- list_fmap_compose. by apply list_fmap_ext. }
  assert (Hnd : NoDup l.*1) by (rewrite Hp, Hfst; apply NoDup_entries).
  assert (Hlen : length l = size (scores m)).
  { rewrite Hp. unfold scored. by rewrite length_fmap, length_entries. }
  assert (Hin : ∀ n r, (n, r) ∈ l → is_Some (scores m !! n) ∧ get_reputation n m = r).
  { intros n r. rewrite Hp. unfold scored. intros ([n' s] & [= -> ->] & He)%list_elem_of_fmap.
    apply elem_of_entries in He. unfold get_reputation. rewrite He. by split. }
  assert (Hex : ∀ n, is_Some (scores m !! n) → (n, get_reputation n m) ∈ l).
  { intros n [s E]. rewrite Hp. unfold scored. apply list_elem_of_fmap. exists (n, s).
    split; [|by apply elem_of_entries]. unfold get_reputation. by rewrite E. }
  clearbody l scored. set (j := Z.to_nat (Z.min count (len l))).
  rewrite <- (take_drop j l) in Hs, Hnd, Hin, Hex. rewrite fmap_app in Hnd.
  cbn zeta. split; [|split; [|split]].
  - by apply list.NoDup_app in Hnd as (? & _).
  - unfold len. rewrite length_fmap, length_take. unfold j, len. rewrite Hlen. lia.
  - intros n ([n' r] & -> & H)%list_elem_of_fmap. apply (Hin n' r). apply elem_of_app. by left.
  - intros n n' ([n0 r] & -> & H)%list_elem_of_fmap Hn' Hout. cbn in *.
    destruct (Hin n0 r) as [_ ->]; [apply elem_of_app; by left|].
    pose proof (Hex n' Hn') as [Ht|Hd]%elem_of_app.
    { destruct Hout. apply list_elem_of_fmap. by exists (n', get_reputation n' m). }
    by apply (StronglySorted_app_1_elem_of _ _ _ (n0, r) (n', get_reputation n' m) Hs).
Qed.

(** *** The sequence of a vouch *)

Definition vouched (now : Z) (signed : Attestation) (r : Z) : Z :=
  if decide (acceptable now signed) then clamp_reputation (r + 20) else r.

(** ** Properties *)

(** C22: for the first forty-two million operations, in any order and with any
    arguments, the only signed sum that can overflow is the one of
    [apply_score_delta], which adds an unchecked change to a score: a run is undefined
    exactly when it reaches a call whose change takes the score of its node out of the
    32-bit range, which no change from -2147482648 to 2147473647 does. Every other run
    is defined, and after it every score is between -1000 and 10000 with at most a
    hundred events, no node has more than five active vouches, stored attestations are
    within their limits and no trust weight is negative or no number. *)
Theorem reputation_invariant ops :
  len ops <= 42000000 →
  (run ops new_manager = Undef ↔ overflows_in ops new_manager) ∧
  (Forall (safe_operation ∘ snd) ops → ¬ overflows_in ops new_manager) ∧
  (¬ overflows_in ops new_manager → ∃ m, run ops new_manager = Ok m ∧ manager_ok (len ops) m).
Proof.
  intros Hl. pose proof (run_reputation_ok ops 0 new_manager) as H.
  rewrite Z.add_0_l in H. specialize (H ltac:(done) Hl new_manager_ok).
  split_and!.
  - split; [|apply overflow_stops_run]. intros E. destruct H as [H|(m & E' & _)]; [done|congruence].
  - by apply (safe_sequence ops 0); [|rewrite Z.add_0_l|apply new_manager_ok].
  - intros Hn. by destruct H.
Qed.

(** Reputation costs nothing: an attestation is accepted under any signature that is not
    all zeros and can be replayed, so that [j] copies move the score by [j] times its
    change up to the ceiling or the floor, and every call of [update_vouch_impacts]
    applies the impact of the same gain to the voucher again. *)
Theorem reputation_inflation k m now (j : nat) :
  0 <= k → manager_ok k m →
  (∀ a, acceptable now a →
     (∀ sg, ¬ no_signature sg →
        acceptable now (MkAttestation (attester a) (subject a) (at_score_delta a) (statement a)
                          (at_timestamp a) (at_expires a) sg)) ∧
     ∃ m', repeat_call (attest now a) j m = Ok m' ∧
       get_reputation (subject a) m' = drift (at_score_delta a) (get_reputation (subject a) m) j ∧
       get_attestations_for (subject a) m' = get_attestations_for (subject a) m ++ replicate j a) ∧
  (∀ key v, vouches m = {[key := [v]]} → still_active v = true → vouchee v ≠ key →
     ∃ m', repeat_call (update_vouch_impacts now) j m = Ok m' ∧
       get_reputation (vouchee v) m' = get_reputation (vouchee v) m ∧
       get_reputation key m' = drift (impact_at m v) (get_reputation key m) j).
Proof.
  intros Hk M. split.
  - intros a Ha. split; [unfold acceptable in *; tauto|].
    destruct (attest_repeated k now a m j Hk M Ha) as (m' & E & _ & R). by exists m'.
  - intros key v Hv Ha Hne.
    destruct (impacts_repeated k now key v m j Hk M Hv Ha Hne) as (m' & E & _ & R). by exists m'.
Qed.

(** A request to vouch that may be made is recorded whether or not it succeeds: one for
    oneself fails and leaves the vouch active; a successful one leaves the edge at the
    weight of its attestation, not of the vouch; withdrawing it removes the vouch, the
    edge and the twenty points, but the edge is back after the graph is rebuilt. *)
Theorem vouching_workflow `{Crypto} k view i for_ reason now m signed reason' now' :
  0 <= k → manager_ok k m → can_vouch view (id i) for_ m = true →
  sign_attestation i (create_vouch_attestation (id i) for_ 20 reason 2592000 now) = Ok signed →
  let r := get_reputation for_ m in
  (for_ = id i → ¬ acceptable now signed) ∧
  ∃ m', request_vouch view i for_ reason now m = Ok (bool_decide (acceptable now signed), m') ∧
    get_vouches_by (id i) m' = get_vouches_by (id i) m ++ [MkVouchRecord (id i) for_ now true r r] ∧
    get_direct_trust (id i) for_ (trust_graph m') =
      Some (if decide (acceptable now signed) then literal 6 10 else literal 8 10) ∧
    get_reputation for_ m' = vouched now signed r ∧
    ∃ m'', withdraw_vouch (id i) for_ reason' now' m' = Ok (true, m'') ∧
      has_vouch (id i) for_ m'' = false ∧
      get_direct_trust (id i) for_ (trust_graph m'') = None ∧
      get_reputation for_ m'' = clamp_reputation (vouched now signed r - 20) ∧
      (acceptable now signed → now' < at_expires signed →
         is_Some (get_direct_trust (id i) for_ (trust_graph (rebuild_trust_graph now' m'')))).
Proof.
  intros Hk M Hc Hs r. destruct (sign_attestation_fields _ _ _ Hs) as (F1 & F2 & _). cbn in F2.
  split; [intros Hself (_ & _ & _ & Hne & _); congruence|].
  destruct (request_vouch_ok k view i for_ reason now m signed Hk M Hc Hs)
    as (m' & E & M' & V & G & R & A).
  exists m'. do 4 (split; [done|]).
  destruct (withdraw_vouch_ok k (id i) for_ reason' now' m' Hk M') as (m'' & E2 & _ & H2 & G2 & R2 & A2).
  { apply has_vouch_active. exists (MkVouchRecord (id i) for_ now true r r). rewrite V. split; [|done].
    apply elem_of_app. right. by apply list_elem_of_here. }
  exists m''. split; [done|]. split; [done|]. split; [done|].
  split; [by rewrite R2, R|]. intros Ha Hx. rewrite <- F1, <- F2. apply rebuilt_edge.
  - unfold get_attestations_for in *. rewrite A2, F2. by apply A.
  - unfold is_expired. by apply Z.leb_gt.
Qed.

(** A signed attestation verifies under the key of its signer, names that signer, and its
    signature covers every field: an attestation with the same signed bytes differs in the
    signature alone. *)
Theorem attestation_signing `{SignatureLaws} i a signed :
  genuine_secret (secret_key i) → sign_attestation i a = Ok signed → public_key i = crypto_sign_sk_to_pk (secret_key i) →
  verify_attestation_signature signed (public_key i) = true ∧
  attester signed = blake3 (arr (public_key i)) ∧
  (subject signed, at_score_delta signed, statement signed, at_expires signed) =
    (subject a, at_score_delta a, statement a, at_expires a) ∧
  ∀ b, typed_attestation signed → typed_attestation b →
    attestation_to_signable_bytes b = attestation_to_signable_bytes signed →
    b = MkAttestation (attester signed) (subject signed) (at_score_delta signed) (statement signed)
          (at_timestamp signed) (at_expires signed) (at_signature b).
Proof.
  intros Hgen Hs Hk. destruct (sign_attestation_fields _ _ _ Hs) as (F1 & F2 & F3 & F4 & F5 & F6 & F7).
  split; [|split; [done|split; [congruence|]]].
  - unfold verify_attestation_signature, Ed25519.verify. rewrite Hk. by apply verify_sign.
  - intros b Ht Hb E. destruct (signable_inj b signed Hb Ht E) as (E1 & E2 & E3 & E4 & E5 & E6).
    destruct b. cbn in *. congruence.
Qed.

(** A decay takes about one percent off every score, towards zero, and after ten thousand of
    them every total is zero. *)
Theorem reputation_fades k m :
  0 <= k → 50 * k < 2 ^ 31 → manager_ok k m →
  (∃ m', decay_reputation m = Ok m' ∧
     ∀ n, match scores m !! n, scores m' !! n with
          | Some s, Some s' => decays s s'
          | None, None => True
          | _, _ => False
          end) ∧
  ∀ j : nat, 10000 <= Z.of_nat j →
    ∃ m', repeat_call decay_reputation j m = Ok m' ∧ ∀ n, get_reputation n m' = 0.
Proof.
  intros Hk Hr M. split.
  - destruct (decay_ok k m Hr M) as (m' & E & _ & _ & _ & D & _). by exists m'.
  - intros j Hj. destruct (decay_repeated k m j Hk Hr M) as (m' & E & _ & R). exists m'. split; [done|].
    intros n. specialize (R n). pose proof (reputation_bounds k n m Hk M) as Hb. revert Hb.
    unfold in_bounds, REPUTATION_FLOOR, REPUTATION_CEILING. lia.
Qed.

(** The average is the quotient of the sum by the number of nodes when the sum is not
    negative, and of the sum taken modulo [2 ^ 64] when it is; the median has half of the
    scores on either side; the ranking lists nodes no other is ahead of. *)
Theorem reputation_statistics k m sort count :
  manager_ok k m → scores m ≠ ∅ → Z.of_nat (size (scores m)) <= 2 ^ 31 →
  sorts_descending sort → 0 <= count →
  (let sum := sum_of (all_totals m) in
   let n := Z.of_nat (size (scores m)) in
   get_average_reputation m = Ok (if 0 <=? sum then sum / n else i32 ((2 ^ 64 + sum) / n))) ∧
  (∃ lo hi, all_totals m ≡ₚ lo ++ get_median_reputation m :: hi ∧
     Forall (λ x, x <= get_median_reputation m) lo ∧
     Forall (λ x, get_median_reputation m <= x) hi ∧ length lo = (size (scores m) / 2)%nat) ∧
  let top := get_top_reputation sort count m in
  NoDup top ∧ len top = Z.min count (Z.of_nat (size (scores m))) ∧
  (∀ n, n ∈ top → is_Some (scores m !! n)) ∧
  ∀ n n', n ∈ top → is_Some (scores m !! n') → n' ∉ top → get_reputation n' m <= get_reputation n m.
Proof.
  intros M Hne Hs Hsort Hc. split; [|split; [by apply median_ok|by apply top_ok]].
  destruct (average_ok k m M Hs Hne) as [E Hp]. cbn zeta.
  destruct (Z.leb_spec 0 (sum_of (all_totals m))); [by apply Hp|]. rewrite E.
  pose proof (sum_bounds _ (totals_ok k m M)) as Hb.
  assert (len (all_totals m) = Z.of_nat (size (scores m))) by (unfold len; by rewrite length_totals).
  rewrite wrap_neg by (unfold in_u; lia). do 3 f_equal. lia.
Qed.

(** ** Concrete inputs *)

Module Sample.

Definition node (c : byte) : NodeID := array_fill 32 c.
Definition ann : NodeID := node "001".
Definition bob : NodeID := node "002".

(** A statement about [bob] in the name of [ann], which never signed it. *)
Definition forged : Attestation :=
  MkAttestation ann bob 100 (str "good") 0 1000 (array_fill 64 "007").

Definition owner : NodeIdentity :=
  MkNodeIdentity (toy_public (array_fill 64 "005")) (array_fill 64 "005").

Definition owner_id : NodeID := @id toy_crypto owner.

Definition some_score (n : NodeID) (total : Z) : ReputationScore :=
  MkReputationScore n total 0 0 0 0 0 0 0 0 0 [].

(** [owner] may vouch. *)
Definition trusted_owner : ReputationManager :=
  MkReputationManager {[owner_id := some_score owner_id 120]} ∅ ∅ ∅.

(** [ann] vouched for [bob], who has gained since. *)
Definition vouching : ReputationManager :=
  MkReputationManager {[bob := some_score bob 100]} ∅
    {[ann := [MkVouchRecord ann bob 0 true 0 0]]} ∅.

Definition disliked : ReputationManager :=
  MkReputationManager (list_to_map ((λ n, (n, some_score n (-10))) <$> [ann; bob; node "003"])) ∅ ∅ ∅.

(** [bob] is an active node. *)
Definition view : StateManager :=
  MkStateManager {[bob := MkNodeState (Some bob) 0 true ∅ ∅ ∅ 0 0 0 0 0]} ∅ ∅ 0.

Lemma some_score_ok n total : in_bounds total → score_ok 0 n (some_score n total).
Proof. intros. split; [done|done|done|by repeat constructor]. Qed.

Lemma in_bounds_100 x : -100 <= x <= 150 → in_bounds x.
Proof. unfold in_bounds, REPUTATION_FLOOR, REPUTATION_CEILING. lia. Qed.

Lemma trusted_owner_ok : manager_ok 0 trusted_owner.
Proof.
  split; [|by apply map_Forall_empty..|by intros a b w].
  apply map_Forall_singleton. by apply some_score_ok, in_bounds_100.
Qed.

Lemma vouching_ok : manager_ok 0 vouching.
Proof.
  split; [|by apply map_Forall_empty| |by intros a b w].
  - apply map_Forall_singleton. by apply some_score_ok, in_bounds_100.
  - apply map_Forall_singleton. split; [|done]. repeat constructor; by apply in_bounds_100.
Qed.

Lemma disliked_ok : manager_ok 0 disliked.
Proof.
  split; [|by apply map_Forall_empty..|by intros a b w].
  cbn. repeat apply map_Forall_insert_2; [..|apply map_Forall_empty];
    by apply some_score_ok, in_bounds_100.
Qed.

Definition signed_vouch : outcome Attestation :=
  @sign_attestation toy_crypto owner (create_vouch_attestation owner_id bob 20 (str "good") 2592000 7).

End Sample.

(** Bytes that are not all zero are taken for a signature. *)
Lemma forged_acceptable : acceptable 5 Sample.forged.
Proof. apply verify_acceptable. reflexivity. Qed.

Lemma reputation_invariant_witness :
  (∃ m, run [(5, OpAttest Sample.forged); (6, OpDecay); (7, OpImpacts)] new_manager = Ok m ∧
     manager_ok 3 m) ∧
  run [(5, OpAttest Sample.forged); (6, OpDelta Sample.bob 2147483647 [])] new_manager = Undef.
Proof.
  split.
  - apply (reputation_invariant [(5, OpAttest Sample.forged); (6, OpDecay); (7, OpImpacts)]);
      [vm_compute; done|].
    apply (reputation_invariant [(5, OpAttest Sample.forged); (6, OpDecay); (7, OpImpacts)]);
      [vm_compute; done|]. repeat constructor.
  - apply (reputation_invariant
      [(5, OpAttest Sample.forged); (6, OpDelta Sample.bob 2147483647 [])]); [vm_compute; done|].
    assert (Hv : match run [(5, OpAttest Sample.forged)] new_manager with
                 | Ok m => bool_decide (in_s 32 (get_reputation Sample.bob m + 2147483647))
                 | _ => true
                 end = false) by (vm_compute; reflexivity).
    destruct (run [(5, OpAttest Sample.forged)] new_manager) as [m| |] eqn:E; [|discriminate Hv..].
    exists [(5, OpAttest Sample.forged)], 6, (OpDelta Sample.bob 2147483647 []), [], m.
    split; [reflexivity|]. split; [exact E|]. constructor. exact (bool_decide_eq_false_1 _ Hv).
Defined.

Lemma reputation_inflation_witness :
  (∃ m', repeat_call (attest 5 Sample.forged) 110 new_manager = Ok m' ∧
     get_reputation Sample.bob m' = 10000) ∧
  ∃ m', repeat_call (update_vouch_impacts 5) 300 Sample.vouching = Ok m' ∧
     get_reputation Sample.ann m' = 10000.
Proof.
  split.
  - destruct (reputation_inflation 0 new_manager 5 110) as [H _]; [done|apply new_manager_ok|].
    destruct (H Sample.forged forged_acceptable) as (_ & m' & E & R & _).
    exists m'. split; [exact E|]. etransitivity; [exact R|]. vm_compute. reflexivity.
  - destruct (reputation_inflation 0 Sample.vouching 5 300) as [_ H]; [done|apply Sample.vouching_ok|].
    destruct (H Sample.ann (MkVouchRecord Sample.ann Sample.bob 0 true 0 0)) as (m' & E & _ & R);
      [done|done|by apply (bool_decide_unpack (Sample.bob ≠ Sample.ann)); vm_compute|].
    exists m'. split; [exact E|]. etransitivity; [exact R|]. vm_compute. reflexivity.
Defined.

Lemma vouching_workflow_witness :
  ∃ m', @request_vouch toy_crypto Sample.view Sample.owner Sample.bob (str "good") 7
          Sample.trusted_owner = Ok (true, m') ∧
    get_direct_trust Sample.owner_id Sample.bob (trust_graph m') = Some (literal 6 10).
Proof.
  destruct Sample.signed_vouch as [signed| |] eqn:E; [|by vm_compute in E..].
  assert (Ha : acceptable 7 signed).
  { apply verify_acceptable. injection E as <-. vm_compute. reflexivity. }
  destruct (@vouching_workflow toy_crypto 0 Sample.view Sample.owner Sample.bob (str "good") 7
    Sample.trusted_owner signed [] 8) as (_ & m' & Er & _ & G & _).
  - done.
  - apply Sample.trusted_owner_ok.
  - vm_compute. reflexivity.
  - exact E.
  - exists m'. rewrite bool_decide_eq_true_2 in Er by exact Ha. rewrite decide_True in G by exact Ha.
    split; [exact Er|exact G].
Defined.

Lemma attestation_signing_witness :
  ∃ signed, Sample.signed_vouch = Ok signed ∧
    @verify_attestation_signature toy_crypto signed (public_key Sample.owner) = true.
Proof.
  destruct Sample.signed_vouch as [signed| |] eqn:E; [|by vm_compute in E..].
  exists signed. split; [done|].
  apply (@attestation_signing toy_crypto toy_laws Sample.owner
    (create_vouch_attestation Sample.owner_id Sample.bob 20 (str "good") 2592000 7) signed I E).
  reflexivity.
Defined.

Lemma reputation_fades_witness :
  ∃ m', decay_reputation Sample.trusted_owner = Ok m' ∧
    get_reputation Sample.owner_id Sample.trusted_owner = 120 ∧
    ∃ m'', repeat_call decay_reputation (Z.to_nat 10000) Sample.trusted_owner = Ok m'' ∧
      get_reputation Sample.owner_id m'' = 0.
Proof.
  destruct (reputation_fades 0 Sample.trusted_owner) as [(m' & E & _) H];
    [done|done|apply Sample.trusted_owner_ok|].
  exists m'. split; [exact E|]. split; [vm_compute; reflexivity|].
  destruct (H (Z.to_nat 10000)) as (m'' & E2 & R); [lia|].
  exists m''. split; [exact E2|apply R].
Defined.

(** Three nodes at -10 are at 1431655755 on average. *)
Lemma reputation_statistics_witness :
  get_average_reputation Sample.disliked = Ok 1431655755 ∧
  len (get_top_reputation (merge_sort by_score) 2 Sample.disliked) = 2.
Proof.
  destruct (reputation_statistics 0 Sample.disliked (merge_sort by_score) 2)
    as (A & _ & _ & T & _).
  - apply Sample.disliked_ok.
  - apply (bool_decide_unpack (scores Sample.disliked ≠ ∅)). vm_compute. exact Logic.I.
  - by vm_compute.
  - apply merge_sort_descending.
  - done.
  - split; [etransitivity; [exact A|]|etransitivity; [exact T|]]; vm_compute; reflexivity.
Defined.

