(* ===== verification/Access.v ===== *)
(** Access control: [AccessControl] and [CapabilityToken] of
    src/security/access.hpp and access.cpp.

    The policies are the state; the state view the object refers to is the
    argument [view], and the clock in seconds is [now].  The hash is the
    operation [blake3] of the interface [Crypto]. *)

From Stdlib Require Import Strings.Byte.
From S2P Require Import Prelude Reader Common Crypto Pow Serialization Key Event State.

(** ** Data *)

Inductive Capability :=
| VIEW_CONTENT | DISCOVER_NETWORKS | RELAY_TRAFFIC
| POST_CONTENT | VOTE_ON_CONTENT | CREATE_IDENTITY
| HOST_THINGS | JOIN_NETWORKS | ROUTE_TRAFFIC | ISSUE_INVITATIONS
| VOUCH_FOR_NODES | CREATE_NETWORK | MODERATE_CONTENT
| REVOKE_KEYS | DISBAND_NETWORK.

#[export] Instance Capability_eq_dec : EqDecision Capability.
Proof. solve_decision. Defined.

Definition all_capabilities : list Capability :=
  [VIEW_CONTENT; DISCOVER_NETWORKS; RELAY_TRAFFIC; POST_CONTENT; VOTE_ON_CONTENT; CREATE_IDENTITY;
   HOST_THINGS; JOIN_NETWORKS; ROUTE_TRAFFIC; ISSUE_INVITATIONS; VOUCH_FOR_NODES; CREATE_NETWORK;
   MODERATE_CONTENT; REVOKE_KEYS; DISBAND_NETWORK].

(** [static_cast<uint8_t>(capability)]. *)
Definition capability_code (c : Capability) : nat :=
  match c with
  | VIEW_CONTENT => 0 | DISCOVER_NETWORKS => 1 | RELAY_TRAFFIC => 2 | POST_CONTENT => 3
  | VOTE_ON_CONTENT => 4 | CREATE_IDENTITY => 5 | HOST_THINGS => 6 | JOIN_NETWORKS => 7
  | ROUTE_TRAFFIC => 8 | ISSUE_INVITATIONS => 9 | VOUCH_FOR_NODES => 10 | CREATE_NETWORK => 11
  | MODERATE_CONTENT => 12 | REVOKE_KEYS => 13 | DISBAND_NETWORK => 14
  end.

#[export] Program Instance Capability_countable : Countable Capability :=
  inj_countable capability_code (λ j, all_capabilities !! j) _.
Next Obligation. by intros []. Qed.

Inductive AccessLevel := ANONYMOUS | IDENTIFIED | KEYED | TRUSTED | FOUNDER.

Record CapabilityToken := MkCapabilityToken {
  tk_node_id : NodeID;
  tk_capability : Capability;
  issued_at : Z;
  tk_expires_at : Z;
  context : bytes;
  tk_signature : Signature
}.

(** The constructor leaves [capability] unset; no check reads it. *)
Record AccessPolicy := MkAccessPolicy {
  capability : option Capability;
  required_key_type : option KeyType;
  required_key_count : Z;
  min_reputation : Z;
  requires_network_membership : bool;
  required_role : option bytes;
  requires_pow : bool;
  pow_difficulty : Z
}.

Definition new_policy : AccessPolicy := MkAccessPolicy None None 0 0 false None false 0.

Record AccessRequest := MkAccessRequest {
  requester : NodeID;
  rq_capability : Capability;
  rq_network_id : option Hash256;
  thing_id : option Hash256;
  pow_solution : option bytes
}.

(** [AccessDecision]; no function sets its token. *)
Record AccessDecision := MkAccessDecision { granted : bool; reason : bytes }.

Definition allow (why : bytes) : AccessDecision := MkAccessDecision true why.
Definition deny (why : bytes) : AccessDecision := MkAccessDecision false why.

Abbreviation AccessControl := (gmap Capability AccessPolicy).

(** ** Policies *)

(** A policy of the constructor's requiring keys, a reputation and a role. *)
Definition policy_of (c : Capability) (type : option KeyType) (count reputation : Z)
    (membership : bool) (role : option bytes) : AccessPolicy :=
  MkAccessPolicy (Some c) type count reputation membership role false 0.

Definition default_policy (c : Capability) : AccessPolicy :=
  match c with
  | VIEW_CONTENT | DISCOVER_NETWORKS | RELAY_TRAFFIC => policy_of c None 0 0 false None
  | POST_CONTENT | VOTE_ON_CONTENT | CREATE_IDENTITY => policy_of c None 1 0 false None
  | HOST_THINGS => policy_of c (Some SERVICE) 1 0 false None
  | JOIN_NETWORKS => policy_of c (Some NETWORK) 1 0 false None
  | ROUTE_TRAFFIC => policy_of c (Some ROUTING) 1 0 false None
  | ISSUE_INVITATIONS => policy_of c (Some NETWORK) 1 0 true None
  | VOUCH_FOR_NODES => policy_of c None 1 100 false None
  | CREATE_NETWORK => policy_of c (Some NETWORK) 3 50 false None
  | MODERATE_CONTENT => policy_of c None 0 75 true (Some (str "FULL"))
  | REVOKE_KEYS | DISBAND_NETWORK => policy_of c None 0 0 true (Some (str "FOUNDER"))
  end.

Definition initialize_default_policies : AccessControl :=
  foldl (λ m c, <[c := default_policy c]> m) ∅ all_capabilities.

Definition set_policy (c : Capability) (p : AccessPolicy) (ac : AccessControl) : AccessControl :=
  <[c := p]> ac.

Definition get_policy (c : Capability) (ac : AccessControl) : AccessPolicy :=
  default new_policy (ac !! c).

(** ** Requirements *)

Definition has_any_keys (n : NodeID) (view : StateManager) : bool :=
  match get_node_state n view with
  | None => false
  | Some st => existsb (λ p, 0 <? p.2) (entries (ns_key_balances st))
  end.

Definition check_key_requirements (n : NodeID) (p : AccessPolicy) (view : StateManager) : bool :=
  if required_key_count p =? 0 then true
  else
    match required_key_type p with
    | Some type => required_key_count p <=? get_node_key_balance n type view
    | None => has_any_keys n view
    end.

Definition check_reputation_requirements (n : NodeID) (p : AccessPolicy) (view : StateManager) :
    bool :=
  if min_reputation p =? 0 then true else min_reputation p <=? get_node_reputation n view.

Definition check_network_requirements (n : NodeID) (net : Hash256) (p : AccessPolicy)
    (view : StateManager) : bool :=
  if negb (requires_network_membership p) then true
  else if negb (is_node_in_network n net view) then false
  else
    match required_role p with
    | None => true
    | Some role =>
        match get_network_state net view with
        | None => false
        | Some st => bool_decide (get_member_role n st = role)
        end
    end.

(** The loop over the bits of a byte: [inl] is the early return. *)
Fixpoint count_bits (bit : nat) (b leading : Z) : Z + Z :=
  match bit with
  | O => inr leading
  | S bit =>
      if Z.land (Z.shiftr b (Z.of_nat bit)) 1 =? 0 then count_bits bit b (leading + 1)
      else inl leading
  end.

Fixpoint count_zero_bits (l : bytes) (leading : Z) : Z :=
  match l with
  | [] => leading
  | b :: l =>
      if byte_val b =? 0 then count_zero_bits l (leading + 8)
      else
        match count_bits 8 (byte_val b) leading with
        | inl leading => leading
        | inr leading => count_zero_bits l leading
        end
  end.

Definition count_leading_zero_bits (hash : Hash256) : Z := count_zero_bits (arr hash) 0.

Definition is_network_founder (n : NodeID) (net : Hash256) (view : StateManager) : bool :=
  match get_network_state net view with
  | None => false
  | Some st => bool_decide (get_member_role n st = str "FOUNDER")
  end.

Section access.
Context `{Crypto}.

Definition check_pow_requirements (solution : bytes) (p : AccessPolicy) : bool :=
  if negb (requires_pow p) then true
  else if decide (solution = []) then false
  else pow_difficulty p <=? count_leading_zero_bits (blake3 solution).

(** ** Decisions *)

Definition check_access (rq : AccessRequest) (view : StateManager) (ac : AccessControl) :
    AccessDecision :=
  let p := get_policy (rq_capability rq) ac in
  if negb (is_node_active (requester rq) view) then deny (str "Node is not active")
  else if negb (check_key_requirements (requester rq) p view) then deny (str "Insufficient keys")
  else if negb (check_reputation_requirements (requester rq) p view) then
    deny (str "Insufficient reputation")
  else if requires_network_membership p && bool_decide (rq_network_id rq = None) then
    deny (str "Network ID required")
  else if requires_network_membership p &&
          negb (check_network_requirements (requester rq) (default (zeros 32) (rq_network_id rq)) p
                  view) then
    deny (str "Not a member of network or insufficient role")
  else if requires_pow p && bool_decide (pow_solution rq = None) then
    deny (str "PoW solution required")
  else if requires_pow p && negb (check_pow_requirements (default [] (pow_solution rq)) p) then
    deny (str "Invalid PoW solution")
  else allow (str "Access granted").

Definition can_view_content (n : NodeID) : bool := true.

Definition can_post_content (n : NodeID) (view : StateManager) : bool := has_any_keys n view.

Definition can_post_anonymously (solution : bytes) : bool :=
  check_pow_requirements solution (MkAccessPolicy None None 0 0 false None true 20).

Definition can_host_things (n : NodeID) (view : StateManager) : bool := can_node_host_things n view.

Definition can_join_network (n : NodeID) (net : Hash256) (view : StateManager) : bool :=
  if negb (can_node_join_networks n view) then false else negb (is_node_in_network n net view).

Definition can_route_traffic (n : NodeID) (view : StateManager) : bool :=
  can_node_route_traffic n view.

Definition can_vouch_for_node (by_ for_ : NodeID) (view : StateManager) : bool :=
  if get_node_reputation by_ view <? 100 then false
  else if negb (has_any_keys by_ view) then false
  else is_node_active for_ view.

Definition can_create_network (n : NodeID) (view : StateManager) (ac : AccessControl) : bool :=
  let p := get_policy CREATE_NETWORK ac in
  if negb (check_key_requirements n p view) then false else check_reputation_requirements n p view.

Definition can_issue_invitation (n : NodeID) (net : Hash256) (view : StateManager)
    (ac : AccessControl) : bool :=
  let p := get_policy ISSUE_INVITATIONS ac in
  if negb (check_key_requirements n p view) then false else check_network_requirements n net p view.

Definition can_moderate_content (n : NodeID) (net : Hash256) (view : StateManager)
    (ac : AccessControl) : bool :=
  let p := get_policy MODERATE_CONTENT ac in
  if negb (check_reputation_requirements n p view) then false
  else check_network_requirements n net p view.

Definition can_revoke_keys (n : NodeID) (net : Hash256) (view : StateManager) : bool :=
  is_network_founder n net view.

Definition can_disband_network (n : NodeID) (net : Hash256) (view : StateManager) : bool :=
  is_network_founder n net view.

(** ** Tokens *)

Definition token_signing_bytes (t : CapabilityToken) : bytes :=
  arr (tk_node_id t) ++ [to_byte (Z.of_nat (capability_code (tk_capability t)))] ++
  le_bytes 8 (issued_at t) ++ le_bytes 8 (tk_expires_at t) ++ context t.

Program Definition twice (h : Hash256) : Signature := dexist (arr h ++ arr h) _.
Next Obligation. intros h. etransitivity; [apply length_app|]. by rewrite !length_arr. Qed.

(** The digest of the token's fields, twice. *)
Definition derive_token_signature (t : CapabilityToken) : Signature :=
  twice (blake3 (token_signing_bytes t)).

Definition token_is_expired (now : Z) (t : CapabilityToken) : bool := tk_expires_at t <=? now.

Definition is_valid_for (context_hash : Hash256) (t : CapabilityToken) : bool :=
  if decide (context t = []) then true else bool_decide (blake3 (context t) = context_hash).

Definition sign_token (t : CapabilityToken) : CapabilityToken :=
  MkCapabilityToken (tk_node_id t) (tk_capability t) (issued_at t) (tk_expires_at t) (context t)
    (derive_token_signature t).

Definition issue_token (n : NodeID) (c : Capability) (context : option Hash256) (now : Z)
    (view : StateManager) (ac : AccessControl) : option CapabilityToken :=
  let decision := check_access (MkAccessRequest n c context None None) view ac in
  if negb (granted decision) then None
  else
    Some (sign_token (MkCapabilityToken n c now (u64 (now + 3600))
            (match context with Some h => arr h | None => [] end) (zeros 64))).

Definition verify_token (now : Z) (t : CapabilityToken) : bool :=
  if token_is_expired now t then false
  else bool_decide (tk_signature t = derive_token_signature t).

(** ** Levels *)

Definition get_access_level (n : NodeID) (view : StateManager) : AccessLevel :=
  if negb (is_node_active n view) then ANONYMOUS
  else if negb (0 <? get_node_key_balance n IDENTITY view) then ANONYMOUS
  else if negb (has_any_keys n view) then IDENTIFIED
  else if 100 <=? get_node_reputation n view then TRUSTED
  else KEYED.

Definition get_access_level_in_network (n : NodeID) (net : Hash256) (view : StateManager) :
    AccessLevel :=
  if is_network_founder n net view then FOUNDER else get_access_level n view.

(** An entry whose identifier was never assigned would be read as it is. *)
Definition count_nodes_with_capability (c : Capability) (view : StateManager) (ac : AccessControl) :
    outcome Z :=
  foldl (λ count st,
    count ← count;
    match node_id st with
    | None => Undef
    | Some n =>
        Ok (if granted (check_access (MkAccessRequest n c None None None) view ac)
            then count + 1 else count)
    end) (Ok 0) (get_all_active_nodes view).

End access.

(** ** Lemmas *)

Lemma get_default_policy c : get_policy c initialize_default_policies = default_policy c.
Proof. by destruct c. Qed.

(** A positive balance of some type of key. *)
Definition holds_key (n : NodeID) (view : StateManager) : Prop :=
  ∃ type, 0 < get_node_key_balance n type view.

Lemma has_any_keys_spec n view : has_any_keys n view = true ↔ holds_key n view.
Proof.
  unfold has_any_keys, get_node_state, holds_key, get_node_key_balance.
  destruct (nodes view !! n) as [st|]; [|by split; [|intros [? ?]]].
  rewrite existsb_exists. split.
  - intros ([type b] & Hin%list_elem_of_In & Hb%Z.ltb_lt). exists type.
    apply elem_of_entries in Hin. by rewrite Hin.
  - intros [type Hb]. destruct (ns_key_balances st !! type) as [b|] eqn:E; [|lia].
    exists (type, b). split; [by apply list_elem_of_In, elem_of_entries|]. by apply Z.ltb_lt.
Qed.

Definition meets_keys (n : NodeID) (p : AccessPolicy) (view : StateManager) : Prop :=
  required_key_count p = 0 ∨
  match required_key_type p with
  | Some type => required_key_count p <= get_node_key_balance n type view
  | None => holds_key n view
  end.

Lemma key_requirements_spec n p view :
  check_key_requirements n p view = true ↔ meets_keys n p view.
Proof.
  unfold check_key_requirements, meets_keys.
  destruct (Z.eqb_spec (required_key_count p) 0); [naive_solver|].
  destruct (required_key_type p); [rewrite Z.leb_le|rewrite has_any_keys_spec]; naive_solver.
Qed.

Definition meets_reputation (n : NodeID) (p : AccessPolicy) (view : StateManager) : Prop :=
  min_reputation p = 0 ∨ min_reputation p <= get_node_reputation n view.

Lemma reputation_requirements_spec n p view :
  check_reputation_requirements n p view = true ↔ meets_reputation n p view.
Proof.
  unfold check_reputation_requirements, meets_reputation.
  destruct (Z.eqb_spec (min_reputation p) 0); [naive_solver|]. rewrite Z.leb_le. naive_solver.
Qed.

Definition holds_role (n : NodeID) (net : Hash256) (role : bytes) (view : StateManager) : Prop :=
  ∃ st, get_network_state net view = Some st ∧ get_member_role n st = role.

Definition meets_membership (n : NodeID) (net : Hash256) (p : AccessPolicy) (view : StateManager) :
    Prop :=
  is_node_in_network n net view = true ∧
  match required_role p with None => True | Some role => holds_role n net role view end.

Lemma network_requirements_spec n net p view :
  check_network_requirements n net p view = true ↔
  (requires_network_membership p = true → meets_membership n net p view).
Proof.
  unfold check_network_requirements, meets_membership, holds_role.
  destruct (requires_network_membership p); [|naive_solver]. cbn [negb].
  destruct (is_node_in_network n net view); cbn [negb]; [|split; [done|intros [? _]; done]].
  destruct (required_role p) as [role|]; [|naive_solver].
  destruct (get_network_state net view) as [st|]; [rewrite bool_decide_eq_true|]; naive_solver.
Qed.

(** The bits of a byte that is not zero: the loop returns early. *)
Lemma count_bits_shift bit b leading :
  count_bits bit b leading =
  match count_bits bit b 0 with inl k => inl (leading + k) | inr k => inr (leading + k) end.
Proof.
  revert leading. induction bit as [|bit IH]; intros leading; cbn [count_bits].
  - f_equal. lia.
  - destruct (_ =? 0).
    + rewrite IH, (IH (0 + 1)). destruct (count_bits bit b 0); f_equal; lia.
    + f_equal. lia.
Qed.

Lemma count_bits_byte (b : byte) :
  byte_val b ≠ 0 → count_bits 8 (byte_val b) 0 = inl (mask_zeros 9 (byte_val b) 0x80).
Proof. destruct b; intros Hb; (by destruct Hb) || reflexivity. Qed.

(** Both difficulty tests of the program count the same bits. *)
Lemma count_zero_bits_eq l leading : count_zero_bits l leading = leading + leading_zeros l.
Proof.
  revert leading. induction l as [|b l IH]; intros leading; cbn [count_zero_bits leading_zeros]; [lia|].
  destruct (Z.eqb_spec (byte_val b) 0); [rewrite IH; lia|].
  by rewrite count_bits_shift, count_bits_byte.
Qed.

Section access.
Context `{Crypto}.

Definition meets_pow (solution : bytes) (p : AccessPolicy) : Prop :=
  solution ≠ [] ∧ pow_difficulty p <= count_leading_zeros (blake3 solution).

Lemma pow_requirements_spec solution p :
  check_pow_requirements solution p = true ↔ (requires_pow p = true → meets_pow solution p).
Proof.
  unfold check_pow_requirements, meets_pow, count_leading_zero_bits, count_leading_zeros.
  rewrite count_zero_bits_eq. destruct (requires_pow p); [|naive_solver]. cbn [negb].
  case_decide; [naive_solver|]. rewrite Z.leb_le. naive_solver.
Qed.

(** Everything a policy asks of a request. *)
Definition meets (rq : AccessRequest) (p : AccessPolicy) (view : StateManager) : Prop :=
  is_node_active (requester rq) view = true ∧ meets_keys (requester rq) p view ∧
  meets_reputation (requester rq) p view ∧
  (requires_network_membership p = true →
     ∃ net, rq_network_id rq = Some net ∧ meets_membership (requester rq) net p view) ∧
  (requires_pow p = true → ∃ solution, pow_solution rq = Some solution ∧ meets_pow solution p).

Lemma check_access_granted rq view ac :
  let p := get_policy (rq_capability rq) ac in
  granted (check_access rq view ac) =
    is_node_active (requester rq) view && check_key_requirements (requester rq) p view &&
    check_reputation_requirements (requester rq) p view &&
    (negb (requires_network_membership p) ||
     match rq_network_id rq with
     | Some net => check_network_requirements (requester rq) net p view
     | None => false
     end) &&
    (negb (requires_pow p) ||
     match pow_solution rq with
     | Some solution => check_pow_requirements solution p
     | None => false
     end).
Proof.
  unfold check_access. cbn zeta. set (p := get_policy _ ac).
  destruct (is_node_active _ _), (check_key_requirements _ _ _), (check_reputation_requirements _ _ _);
    cbn [negb andb granted deny]; try done.
  destruct (requires_network_membership p), (rq_network_id rq) as [net|]; cbn [andb negb orb from_option id];
    rewrite ?(bool_decide_eq_false_2 (Some _ = None)), ?bool_decide_eq_true_2 by done; try done.
  1: destruct (check_network_requirements _ net p view); cbn; [|done].
  all: destruct (requires_pow p), (pow_solution rq) as [s|]; cbn [andb negb orb from_option id];
    rewrite ?(bool_decide_eq_false_2 (Some _ = None)), ?bool_decide_eq_true_2 by done; try done.
  all: cbn; by destruct (check_pow_requirements s p).
Qed.

Lemma check_access_spec rq view ac :
  granted (check_access rq view ac) = true ↔ meets rq (get_policy (rq_capability rq) ac) view.
Proof.
  rewrite check_access_granted. unfold meets. set (p := get_policy _ ac).
  rewrite !andb_true_iff, key_requirements_spec, reputation_requirements_spec.
  assert (Hn : negb (requires_network_membership p) ||
      match rq_network_id rq with
      | Some net => check_network_requirements (requester rq) net p view
      | None => false
      end = true ↔
    (requires_network_membership p = true →
      ∃ net, rq_network_id rq = Some net ∧ meets_membership (requester rq) net p view)).
  { pose proof (λ net, network_requirements_spec (requester rq) net p view) as Hs.
    destruct (requires_network_membership p); [|by split].
    destruct (rq_network_id rq) as [net|]; [|split; [done|intros []; naive_solver]].
    cbn. rewrite Hs. split; [intros Hm _; exists net; auto|intros []; naive_solver]. }
  assert (Hp : negb (requires_pow p) ||
      match pow_solution rq with
      | Some solution => check_pow_requirements solution p
      | None => false
      end = true ↔
    (requires_pow p = true → ∃ solution, pow_solution rq = Some solution ∧ meets_pow solution p)).
  { pose proof (λ s, pow_requirements_spec s p) as Hs.
    destruct (requires_pow p); [|by split].
    destruct (pow_solution rq) as [s|]; [|split; [done|intros []; naive_solver]].
    cbn. rewrite Hs. split; [intros Hm _; exists s; auto|intros []; naive_solver]. }
  rewrite Hn, Hp. tauto.
Qed.

End access.

(** ** What the default policies promise *)

(** Who may do what, and in which network. *)
Definition entitled (c : Capability) (n : NodeID) (net : option Hash256) (view : StateManager) :
    Prop :=
  is_node_active n view = true ∧
  match c with
  | VIEW_CONTENT | DISCOVER_NETWORKS | RELAY_TRAFFIC => True
  | POST_CONTENT | VOTE_ON_CONTENT | CREATE_IDENTITY => holds_key n view
  | HOST_THINGS => 1 <= get_node_key_balance n SERVICE view
  | JOIN_NETWORKS => 1 <= get_node_key_balance n NETWORK view
  | ROUTE_TRAFFIC => 1 <= get_node_key_balance n ROUTING view
  | ISSUE_INVITATIONS =>
      1 <= get_node_key_balance n NETWORK view ∧
      ∃ h, net = Some h ∧ is_node_in_network n h view = true
  | VOUCH_FOR_NODES => holds_key n view ∧ 100 <= get_node_reputation n view
  | CREATE_NETWORK =>
      3 <= get_node_key_balance n NETWORK view ∧ 50 <= get_node_reputation n view
  | MODERATE_CONTENT =>
      75 <= get_node_reputation n view ∧
      ∃ h, net = Some h ∧ is_node_in_network n h view = true ∧ holds_role n h (str "FULL") view
  | REVOKE_KEYS | DISBAND_NETWORK =>
      ∃ h, net = Some h ∧ is_node_in_network n h view = true ∧ holds_role n h (str "FOUNDER") view
  end.

Section results.
Context `{Crypto}.

Lemma default_access_spec rq view :
  granted (check_access rq view initialize_default_policies) = true ↔
  entitled (rq_capability rq) (requester rq) (rq_network_id rq) view.
Proof.
  rewrite check_access_spec, get_default_policy. unfold meets, entitled.
  apply and_iff_compat_l.
  unfold meets_keys, meets_reputation, meets_membership.
  destruct (rq_capability rq); cbn;
    (split; [intros (Hk & Hr & Hn & _)|]);
    try (destruct Hk as [Hk|Hk]; [done|]); try (destruct Hr as [Hr|Hr]; [done|]);
    try specialize (Hn eq_refl); naive_solver.
Qed.

Lemma holds_role_unique n net r1 r2 view :
  holds_role n net r1 view → holds_role n net r2 view → r1 = r2.
Proof. intros (st1 & E1 & R1) (st2 & E2 & R2). congruence. Qed.

Lemma founder_spec n net view :
  is_network_founder n net view = true ↔ holds_role n net (str "FOUNDER") view.
Proof.
  unfold is_network_founder, holds_role. destruct (get_network_state net view) as [st|]; [|naive_solver].
  rewrite bool_decide_eq_true. naive_solver.
Qed.

Lemma active_balance n view :
  can_node_host_things n view = is_node_active n view && (1 <=? get_node_key_balance n SERVICE view) ∧
  can_node_route_traffic n view = is_node_active n view && (1 <=? get_node_key_balance n ROUTING view) ∧
  can_node_join_networks n view = is_node_active n view && (1 <=? get_node_key_balance n NETWORK view).
Proof.
  unfold can_node_host_things, can_node_route_traffic, can_node_join_networks, State.can_host_things,
    State.can_route, State.can_join_networks, is_node_active, get_node_key_balance, has_key_type.
  destruct (nodes view !! n) as [st|]; [|done].
  destruct (ns_is_active st); [|done]. cbn [andb].
  by destruct (_ !! SERVICE), (_ !! ROUTING), (_ !! NETWORK).
Qed.

(** In a consistent view a founder is a member. *)
Lemma role_member N n net role view :
  wf_state N view → holds_role n net role view → role ≠ str "UNKNOWN" →
  is_node_in_network n net view = true.
Proof.
  intros W (st & E & R) Hr. unfold is_node_in_network, get_network_state, get_member_role in *.
  rewrite E. unfold has_member. apply bool_decide_eq_true.
  destruct (wf_networks _ _ W net st E) as (_ & _ & <-). apply elem_of_dom.
  destruct (member_roles st !! n) eqn:Er; [done|congruence].
Qed.

Lemma verify_sign_token now t : verify_token now (sign_token t) = negb (token_is_expired now t).
Proof.
  unfold verify_token, token_is_expired, sign_token, derive_token_signature, token_signing_bytes. cbn.
  destruct (tk_expires_at t <=? now); [done|]. by apply bool_decide_eq_true_2.
Qed.

End results.

(** ** Properties *)

(** C30: with the default policies a request is granted exactly when the table of
    entitlements says so, and with any policies exactly when its policy is met; an
    anonymous post needs a solution whose hash is below 2 ^ 236; a founder may not
    moderate. *)
Theorem access_refines_policy `{Crypto} rq view :
  (granted (check_access rq view initialize_default_policies) = true ↔
   entitled (rq_capability rq) (requester rq) (rq_network_id rq) view) ∧
  (∀ ac, granted (check_access rq view ac) = true ↔
     meets rq (get_policy (rq_capability rq) ac) view) ∧
  (∀ solution, can_post_anonymously solution = true ↔
     solution ≠ [] ∧ be_val (arr (blake3 solution)) < 2 ^ 236) ∧
  (rq_capability rq = MODERATE_CONTENT →
     (∀ net, rq_network_id rq = Some net → holds_role (requester rq) net (str "FOUNDER") view) →
     granted (check_access rq view initialize_default_policies) = false).
Proof.
  split; [apply default_access_spec|]. split; [intros; apply check_access_spec|]. split.
  - intros solution. unfold can_post_anonymously. rewrite pow_requirements_spec.
    unfold meets_pow. cbn [requires_pow pow_difficulty].
    pose proof (meets_difficulty_numeric (blake3 solution) 20 ltac:(lia)) as Hn.
    unfold meets_difficulty in Hn. rewrite Z.leb_le in Hn. rewrite Hn. cbn. tauto.
  - intros Hc Hf. apply not_true_iff_false. rewrite default_access_spec. unfold entitled. rewrite Hc.
    intros (_ & _ & h & Eh & _ & Hr). by pose proof (holds_role_unique _ _ _ _ _ Hr (Hf h Eh)).
Qed.

(** The checks of one capability each agree with [check_access], but for the activity of the
    node, which most of them do not test. *)
Theorem shortcuts_skip_activity `{Crypto} N n net view :
  wf_state N view →
  let ac := initialize_default_policies in
  let ok c := granted (check_access (MkAccessRequest n c (Some net) None None) view ac) in
  can_host_things n view = ok HOST_THINGS ∧
  can_route_traffic n view = ok ROUTE_TRAFFIC ∧
  can_join_network n net view = ok JOIN_NETWORKS && negb (is_node_in_network n net view) ∧
  ok POST_CONTENT = is_node_active n view && can_post_content n view ∧
  ok CREATE_NETWORK = is_node_active n view && can_create_network n view ac ∧
  ok ISSUE_INVITATIONS = is_node_active n view && can_issue_invitation n net view ac ∧
  ok MODERATE_CONTENT = is_node_active n view && can_moderate_content n net view ac ∧
  ok REVOKE_KEYS = is_node_active n view && can_revoke_keys n net view ∧
  ok DISBAND_NETWORK = is_node_active n view && can_disband_network n net view.
Proof.
  intros W ac ok.
  assert (Hok : ∀ c, ok c = is_node_active n view && check_key_requirements n (default_policy c) view &&
    check_reputation_requirements n (default_policy c) view &&
    check_network_requirements n net (default_policy c) view).
  { intros c. unfold ok, ac. rewrite check_access_granted. cbn [rq_capability requester rq_network_id].
    rewrite get_default_policy. unfold check_network_requirements.
    destruct c; cbn; by rewrite ?andb_true_r. }
  assert (Hf : check_network_requirements n net (policy_of REVOKE_KEYS None 0 0 true (Some (str "FOUNDER")))
                 view = is_network_founder n net view).
  { apply eq_true_iff_eq. rewrite network_requirements_spec, founder_spec. unfold meets_membership. cbn.
    split; [intros Hm; by apply Hm|]. intros Hr _. split; [|done].
    by apply (role_member N n net (str "FOUNDER") view W Hr). }
  rewrite !Hok. unfold can_create_network, can_issue_invitation, can_moderate_content, ac.
  rewrite !get_default_policy. unfold can_revoke_keys, can_disband_network. rewrite <- Hf.
  unfold can_host_things, can_route_traffic, can_join_network, can_post_content.
  destruct (active_balance n view) as (-> & -> & ->).
  repeat split; unfold check_key_requirements, check_reputation_requirements, check_network_requirements; cbn.
  all: destruct (is_node_active n view); [|done]; rewrite ?andb_true_r; cbn [andb]; try done.
  all: repeat match goal with |- context [?a <=? ?b] => destruct (a <=? b) end; try done.
  all: rewrite ?andb_true_r; try done.
  all: by destruct (is_node_in_network n net view).
Qed.

(** A token issued was granted and verifies for an hour, whatever becomes of the node; it
    is valid for the hash of the network it names and not for the network; and whoever
    knows the format makes a token that verifies for any node, capability, context and
    time. *)
Theorem tokens_prove_nothing `{Crypto} n c net now view ac t :
  issue_token n c net now view ac = Some t → in_u 64 (now + 3600) →
  granted (check_access (MkAccessRequest n c net None None) view ac) = true ∧
  (∀ now', verify_token now' t = true ↔ now' < now + 3600) ∧
  (∀ h, net = Some h → is_valid_for (blake3 (arr h)) t = true ∧
     (blake3 (arr h) ≠ h → is_valid_for h t = false)) ∧
  (∀ m c' expires text now', now' < expires →
     ∃ forged, tk_node_id forged = m ∧ tk_capability forged = c' ∧ context forged = text ∧
       verify_token now' forged = true).
Proof.
  unfold issue_token. intros Ht Hn.
  destruct (granted _) eqn:E; cbn [negb] in Ht; [|done]. injection Ht as <-.
  split; [done|]. split; [|split].
  - intros now'. rewrite verify_sign_token. unfold token_is_expired. cbn.
    rewrite wrap_small, negb_true_iff, Z.leb_gt by done. done.
  - intros h ->. unfold is_valid_for. cbn [sign_token context].
    assert (arr h ≠ []) by (intros Eh; apply (f_equal length) in Eh; by rewrite length_arr in Eh).
    rewrite !decide_False by done. split; [by apply bool_decide_eq_true_2|].
    intros. by apply bool_decide_eq_false_2.
  - intros m c' expires text now' Hlt.
    exists (sign_token (MkCapabilityToken m c' 0 expires text (zeros 64))).
    do 3 (split; [done|]). rewrite verify_sign_token. unfold token_is_expired. cbn.
    by apply negb_true_iff, Z.leb_gt.
Qed.

(** One member event, whoever issues it, with the role of a founder in it makes the node a
    founder of the network in the state view: it may revoke keys and disband the network,
    and check_access grants it as long as the node is active. *)
Theorem anybody_becomes_founder `{Crypto} n net e view :
  event_type e = NETWORK_MEMBER_ADDED →
  data e = membership_to_bytes (MkNetworkMembershipData net n (str "FOUNDER")) →
  ∃ view', apply_event e view = Ok view' ∧
    can_disband_network n net view' = true ∧ can_revoke_keys n net view' = true ∧
    get_access_level_in_network n net view' = FOUNDER ∧
    is_node_active n view' = is_node_active n view ∧
    granted (check_access (MkAccessRequest n DISBAND_NETWORK (Some net) None None) view'
               initialize_default_policies) = is_node_active n view.
Proof.
  intros Ht Hd. set (x := MkNetworkMembershipData net n (str "FOUNDER")) in *.
  assert (Hx : membership_from_bytes (data e) = Some x).
  { rewrite Hd. refine (decode_encode_exact x _ _); [done|].
    unfold vector_fits. cbn [encode NetworkMembershipData_codec]. unfold membership_to_bytes.
    autorewrite with len. done. }
  assert (He : apply_event e view = Ok (apply_network_member_added e view)).
  { unfold apply_event. rewrite Ht. done. }
  unfold apply_network_member_added in He. rewrite Hx in He. cbn [member_node nm_network_id role x] in He.
  eexists. split; [exact He|]. clear He. set (view' := at_node _ _ _).
  assert (Hnet : get_network_state net view' =
    Some (add_member n (str "FOUNDER") (at_or default_network net (networks view)))).
  { unfold get_network_state. cbn. apply lookup_insert_eq. }
  assert (Hf : is_network_founder n net view' = true).
  { unfold is_network_founder. rewrite Hnet. unfold get_member_role. cbn. by rewrite lookup_insert_eq. }
  assert (Ha : is_node_active n view' = is_node_active n view).
  { unfold is_node_active. cbn. rewrite lookup_insert_eq. cbn. unfold at_or. by destruct (nodes view !! n). }
  split; [exact Hf|]. split; [exact Hf|].
  split; [unfold get_access_level_in_network; by rewrite Hf|]. split; [exact Ha|].
  apply eq_true_iff_eq. rewrite default_access_spec, <- Ha. unfold entitled. cbn.
  split; [by intros [? _]|]. intros ?. split; [done|]. exists net. split; [done|].
  split; [|by apply founder_spec]. unfold is_node_in_network, get_network_state in *. rewrite Hnet.
  unfold has_member. apply bool_decide_eq_true_2. cbn. set_solver.
Qed.

(** The level of a node: no node is only identified, since its identity key counts as any
    key; in a network whoever has the role is a founder. *)
Theorem access_levels n net view :
  get_access_level n view ≠ IDENTIFIED ∧
  (get_access_level n view = TRUSTED ↔
     is_node_active n view = true ∧ 0 < get_node_key_balance n IDENTITY view ∧
     100 <= get_node_reputation n view) ∧
  (get_access_level n view = KEYED ↔
     is_node_active n view = true ∧ 0 < get_node_key_balance n IDENTITY view ∧
     get_node_reputation n view < 100) ∧
  (get_access_level_in_network n net view = FOUNDER ↔ holds_role n net (str "FOUNDER") view).
Proof.
  assert (Hk : 0 < get_node_key_balance n IDENTITY view → has_any_keys n view = true).
  { intros. apply has_any_keys_spec. by exists IDENTITY. }
  assert (Hl : get_access_level n view ≠ IDENTIFIED ∧ get_access_level n view ≠ FOUNDER).
  { unfold get_access_level. destruct (is_node_active n view); [|done]. cbn [negb].
    destruct (Z.ltb_spec 0 (get_node_key_balance n IDENTITY view)); [|done]. cbn [negb].
    rewrite Hk by done. cbn [negb]. by destruct (_ <=? _). }
  split; [apply Hl|]. rewrite <- founder_spec. unfold get_access_level_in_network.
  split; [|split].
  3: { destruct (is_network_founder n net view); [done|]. split; [|done]. intros E. by apply Hl in E. }
  all: unfold get_access_level; destruct (is_node_active n view); cbn [negb]; [|split; [done|by intros [? _]]].
  all: destruct (Z.ltb_spec 0 (get_node_key_balance n IDENTITY view)); cbn [negb];
    [rewrite Hk by done; cbn [negb]|split; [done|intros (_ & ? & _); lia]].
  all: destruct (Z.leb_spec 100 (get_node_reputation n view)); split; (done || lia || auto with lia).
Qed.

(** ** Concrete inputs *)

Definition appointment (n : NodeID) : LedgerEvent :=
  event_of carol NETWORK_MEMBER_ADDED 160
    (membership_to_bytes (MkNetworkMembershipData sample_net n (str "FOUNDER"))).

(** [alice] was made a founder, and left. *)
Definition departed : StateManager :=
  match apply_events (sample_history ++ [appointment alice; event_of alice NODE_LEFT 170 []])
          empty_state with
  | Ok s => s
  | _ => empty_state
  end.

Lemma departed_eq :
  apply_events (sample_history ++ [appointment alice; event_of alice NODE_LEFT 170 []]) empty_state =
  Ok departed.
Proof. apply ok_value. vm_compute. reflexivity. Qed.

Lemma shortcuts_skip_activity_witness :
  can_disband_network alice sample_net departed = true ∧
  granted (@check_access toy_crypto (MkAccessRequest alice DISBAND_NETWORK (Some sample_net) None None)
             departed initialize_default_policies) = false.
Proof.
  split; [vm_compute; reflexivity|].
  destruct (@shortcuts_skip_activity toy_crypto _ alice sample_net departed
    (wf_apply_events 0 _ _ _ (Z.le_refl 0) (wf_empty_state 0) departed_eq))
    as (_ & _ & _ & _ & _ & _ & _ & _ & E).
  etransitivity; [exact E|]. vm_compute. reflexivity.
Defined.

Definition alice_token : CapabilityToken :=
  @sign_token toy_crypto (MkCapabilityToken alice HOST_THINGS 1000 4600 [] (zeros 64)).

Lemma alice_token_eq :
  @issue_token toy_crypto alice HOST_THINGS None 1000 sample_state initialize_default_policies =
  Some alice_token.
Proof.
  unfold issue_token.
  replace (granted _) with true by (vm_compute; reflexivity). reflexivity.
Qed.

Lemma tokens_prove_nothing_witness :
  @verify_token toy_crypto 2000 alice_token = true ∧ @verify_token toy_crypto 5000 alice_token ≠ true.
Proof.
  destruct (@tokens_prove_nothing toy_crypto alice HOST_THINGS None 1000 sample_state
    initialize_default_policies alice_token alice_token_eq) as (_ & V & _); [unfold in_u; lia|].
  split; [by apply V|]. intros Hv. by apply V in Hv.
Defined.

Lemma anybody_becomes_founder_witness :
  ∃ view', apply_event (appointment bob) sample_state = Ok view' ∧
    granted (@check_access toy_crypto (MkAccessRequest bob DISBAND_NETWORK (Some sample_net) None None)
               view' initialize_default_policies) = true.
Proof.
  destruct (@anybody_becomes_founder toy_crypto bob sample_net (appointment bob) sample_state)
    as (view' & E & _ & _ & _ & _ & G); [done|done|].
  exists view'. split; [exact E|]. etransitivity; [exact G|]. vm_compute. reflexivity.
Defined.
