(* ===== verification/PoStake.v ===== *)
(** Contribution scoring: [ContributionTracker] and [PoStakeEngine] of
    src/core/postake/postake.hpp and postake.cpp, and [ActivityMonitor] of
    src/network/activity_monitor.hpp and activity_monitor.cpp, which feeds the
    tracker.

    The clock in seconds is [now], read once per operation.  Scores are computed
    in binary32; converting a [float] outside [uint32_t] is undefined ([Undef]).
    The constructor of [ContributionMetrics] leaves [node_id] indeterminate and
    nothing sets it: [None]. *)

From Stdlib Require Import Strings.Byte.
From S2P Require Import Prelude Common Crypto Key Floats.

(** ** Metrics and scores *)

Record ContributionMetrics := MkContributionMetrics {
  cm_node_id : option NodeID;
  total_uptime : Z;
  last_seen : Z;
  first_seen : Z;
  bytes_routed : Z;
  bytes_sent : Z;
  bytes_received : Z;
  things_hosted : Z;
  storage_bytes_provided : Z;
  successful_routes : Z;
  failed_routes : Z;
  routing_reliability : float;
  epochs_witnessed : Z;
  epochs_missed : Z
}.

Definition new_metrics : ContributionMetrics :=
  MkContributionMetrics None 0 0 0 0 0 0 0 0 0 0 f_one 0 0.

Definition uptime_percentage (now : Z) (m : ContributionMetrics) : float :=
  if first_seen m =? 0 then f_zero
  else
    let time_since_join := u64 (now - first_seen m) in
    if time_since_join =? 0 then float_of 100
    else fmul (fdiv (float_of (total_uptime m)) (float_of time_since_join)) (float_of 100).

Definition routing_success_rate (m : ContributionMetrics) : float :=
  let total_routes := u32 (successful_routes m + failed_routes m) in
  if total_routes =? 0 then float_of 100
  else fmul (fdiv (float_of (successful_routes m)) (float_of total_routes)) (float_of 100).

Record ContributionScore := MkContributionScore {
  cs_node_id : option NodeID;
  uptime_score : Z;
  bandwidth_score : Z;
  storage_score : Z;
  routing_score : Z;
  witness_score : Z;
  total_score : Z
}.

Definition calculate_total (s : ContributionScore) : ContributionScore :=
  MkContributionScore (cs_node_id s) (uptime_score s) (bandwidth_score s) (storage_score s)
    (routing_score s) (witness_score s)
    (u32 (uptime_score s + bandwidth_score s + storage_score s + routing_score s + witness_score s)).

(** ** The tracker *)

Record ContributionTracker := MkContributionTracker {
  metrics : gmap NodeID ContributionMetrics;
  online_status : gmap NodeID bool;
  online_since : gmap NodeID Z
}.

Definition new_tracker : ContributionTracker := MkContributionTracker ∅ ∅ ∅.

(** [auto& metrics = metrics_[node_id]], changed by [f]. *)
Definition at_metrics (n : NodeID) (f : ContributionMetrics → ContributionMetrics)
    (t : ContributionTracker) : ContributionTracker :=
  MkContributionTracker (<[n := f (at_or new_metrics n (metrics t))]> (metrics t))
    (online_status t) (online_since t).

Definition with_seen (first last : Z) (m : ContributionMetrics) : ContributionMetrics :=
  MkContributionMetrics (cm_node_id m) (total_uptime m) last first (bytes_routed m) (bytes_sent m)
    (bytes_received m) (things_hosted m) (storage_bytes_provided m) (successful_routes m)
    (failed_routes m) (routing_reliability m) (epochs_witnessed m) (epochs_missed m).

Definition with_uptime (x : Z) (m : ContributionMetrics) : ContributionMetrics :=
  MkContributionMetrics (cm_node_id m) x (last_seen m) (first_seen m) (bytes_routed m)
    (bytes_sent m) (bytes_received m) (things_hosted m) (storage_bytes_provided m)
    (successful_routes m) (failed_routes m) (routing_reliability m) (epochs_witnessed m)
    (epochs_missed m).

Definition with_traffic (routed sent received : Z) (m : ContributionMetrics) : ContributionMetrics :=
  MkContributionMetrics (cm_node_id m) (total_uptime m) (last_seen m) (first_seen m) routed sent
    received (things_hosted m) (storage_bytes_provided m) (successful_routes m) (failed_routes m)
    (routing_reliability m) (epochs_witnessed m) (epochs_missed m).

Definition with_storage (things size : Z) (m : ContributionMetrics) : ContributionMetrics :=
  MkContributionMetrics (cm_node_id m) (total_uptime m) (last_seen m) (first_seen m) (bytes_routed m)
    (bytes_sent m) (bytes_received m) things size (successful_routes m) (failed_routes m)
    (routing_reliability m) (epochs_witnessed m) (epochs_missed m).

Definition with_routes (good bad : Z) (r : float) (m : ContributionMetrics) : ContributionMetrics :=
  MkContributionMetrics (cm_node_id m) (total_uptime m) (last_seen m) (first_seen m) (bytes_routed m)
    (bytes_sent m) (bytes_received m) (things_hosted m) (storage_bytes_provided m) good bad r
    (epochs_witnessed m) (epochs_missed m).

Definition with_epochs (witnessed missed : Z) (m : ContributionMetrics) : ContributionMetrics :=
  MkContributionMetrics (cm_node_id m) (total_uptime m) (last_seen m) (first_seen m) (bytes_routed m)
    (bytes_sent m) (bytes_received m) (things_hosted m) (storage_bytes_provided m)
    (successful_routes m) (failed_routes m) (routing_reliability m) witnessed missed.

Definition record_node_online (n : NodeID) (now : Z) (t : ContributionTracker) :
    ContributionTracker :=
  at_metrics n (λ m, with_seen (if first_seen m =? 0 then now else first_seen m) now m)
    (MkContributionTracker (metrics t) (<[n := true]> (online_status t))
      (<[n := now]> (online_since t))).

Definition update_uptime (n : NodeID) (seconds : Z) (t : ContributionTracker) :
    ContributionTracker :=
  at_metrics n (λ m, with_uptime (u64 (total_uptime m + seconds)) m) t.

Definition record_node_offline (n : NodeID) (now : Z) (t : ContributionTracker) :
    ContributionTracker :=
  let t := MkContributionTracker (metrics t) (<[n := false]> (online_status t)) (online_since t) in
  let t := match online_since t !! n with
           | Some since =>
               let t := update_uptime n (u64 (now - since)) t in
               MkContributionTracker (metrics t) (online_status t) (delete n (online_since t))
           | None => t
           end in
  at_metrics n (λ m, with_seen (first_seen m) now m) t.

Definition record_bytes_routed (n : NodeID) (bytes : Z) (t : ContributionTracker) :
    ContributionTracker :=
  at_metrics n (λ m, with_traffic (u64 (bytes_routed m + bytes)) (bytes_sent m) (bytes_received m) m)
    t.

Definition record_traffic (n : NodeID) (sent received : Z) (t : ContributionTracker) :
    ContributionTracker :=
  at_metrics n (λ m, with_traffic (bytes_routed m) (u64 (bytes_sent m + sent))
                       (u64 (bytes_received m + received)) m) t.

Definition record_thing_hosted (n : NodeID) (size_bytes : Z) (t : ContributionTracker) :
    ContributionTracker :=
  at_metrics n (λ m, with_storage (u32 (things_hosted m + 1))
                       (u64 (storage_bytes_provided m + size_bytes)) m) t.

Definition record_thing_removed (n : NodeID) (size_bytes : Z) (t : ContributionTracker) :
    ContributionTracker :=
  at_metrics n (λ m, with_storage
    (if 0 <? things_hosted m then things_hosted m - 1 else things_hosted m)
    (if size_bytes <=? storage_bytes_provided m then storage_bytes_provided m - size_bytes
     else storage_bytes_provided m) m) t.

Definition update_routing_reliability (m : ContributionMetrics) : ContributionMetrics :=
  let total := u32 (successful_routes m + failed_routes m) in
  with_routes (successful_routes m) (failed_routes m)
    (if total =? 0 then f_one else fdiv (float_of (successful_routes m)) (float_of total)) m.

Definition record_successful_route (n : NodeID) (t : ContributionTracker) : ContributionTracker :=
  at_metrics n (λ m, update_routing_reliability
    (with_routes (u32 (successful_routes m + 1)) (failed_routes m) (routing_reliability m) m)) t.

Definition record_failed_route (n : NodeID) (t : ContributionTracker) : ContributionTracker :=
  at_metrics n (λ m, update_routing_reliability
    (with_routes (successful_routes m) (u32 (failed_routes m + 1)) (routing_reliability m) m)) t.

Definition record_epoch_witness (n : NodeID) (epoch : Z) (t : ContributionTracker) :
    ContributionTracker :=
  at_metrics n (λ m, with_epochs (u32 (epochs_witnessed m + 1)) (epochs_missed m) m) t.

Definition record_epoch_missed (n : NodeID) (epoch : Z) (t : ContributionTracker) :
    ContributionTracker :=
  at_metrics n (λ m, with_epochs (epochs_witnessed m) (u32 (epochs_missed m + 1)) m) t.

Definition get_metrics (n : NodeID) (now : Z) (t : ContributionTracker) : ContributionMetrics :=
  match metrics t !! n with
  | None => new_metrics
  | Some m =>
      match online_since t !! n with
      | Some since => with_uptime (u64 (total_uptime m + u64 (now - since))) m
      | None => m
      end
  end.

Definition ACTIVE_THRESHOLD : Z := 300.

Definition get_active_contributors (now : Z) (t : ContributionTracker) : list NodeID :=
  (filter (λ p, u64 (now - last_seen p.2) <= ACTIVE_THRESHOLD) (entries (metrics t))).*1.

Definition reset_metrics (n : NodeID) (t : ContributionTracker) : ContributionTracker :=
  MkContributionTracker (delete n (metrics t)) (delete n (online_status t))
    (delete n (online_since t)).

Definition cleanup_inactive_nodes (inactive_threshold now : Z) (t : ContributionTracker) :
    ContributionTracker :=
  let to_remove :=
    (filter (λ p, inactive_threshold < u64 (now - last_seen p.2)) (entries (metrics t))).*1 in
  foldl (λ t n, reset_metrics n t) t to_remove.

(** ** The engine *)

Record KeyEarningRate := MkKeyEarningRate {
  rate_key_type : KeyType;
  points_per_key : Z;
  max_per_epoch : Z;
  min_score_required : Z
}.

Record EpochContribution := MkEpochContribution {
  ec_epoch : Z;
  ec_node_id : NodeID;
  ec_metrics : ContributionMetrics;
  ec_score : ContributionScore;
  keys_earned : Z;
  key_type_earned : KeyType;
  recorded_at : Z
}.

Record PoStakeReward := MkPoStakeReward {
  pr_node_id : NodeID;
  pr_epoch : Z;
  pr_key_type : KeyType;
  pr_key_count : Z;
  awarded_at : Z;
  proof_hash : Hash256
}.

Record PoStakeEngine := MkPoStakeEngine {
  tracker : ContributionTracker;
  earning_rates : gmap KeyType KeyEarningRate;
  epoch_contributions : gmap Z (list EpochContribution);
  epoch_rewards : gmap Z (list PoStakeReward)
}.

Definition default_rates : gmap KeyType KeyEarningRate :=
  <[NETWORK := MkKeyEarningRate NETWORK 400 3 150]>
    (<[ROUTING := MkKeyEarningRate ROUTING 300 10 100]>
      {[SERVICE := MkKeyEarningRate SERVICE 500 5 200]}).

Definition new_engine : PoStakeEngine := MkPoStakeEngine new_tracker default_rates ∅ ∅.

(** [KeyEarningRate{}]: all zero. *)
Definition no_rate : KeyEarningRate := MkKeyEarningRate "000"%byte 0 0 0.

Definition set_earning_rate (k : KeyType) (r : KeyEarningRate) (e : PoStakeEngine) : PoStakeEngine :=
  MkPoStakeEngine (tracker e) (<[k := r]> (earning_rates e)) (epoch_contributions e)
    (epoch_rewards e).

Definition get_earning_rate (k : KeyType) (e : PoStakeEngine) : KeyEarningRate :=
  at_or no_rate k (earning_rates e).

Definition UPTIME_WEIGHT : float := literal 3 10.
Definition BANDWIDTH_WEIGHT : float := literal 25 100.
Definition STORAGE_WEIGHT : float := literal 25 100.
Definition ROUTING_WEIGHT : float := literal 15 100.
Definition WITNESS_WEIGHT : float := literal 5 100.

Definition GB : Z := 1024 * 1024 * 1024.
Definition MONTH_SECONDS : Z := 30 * 24 * 60 * 60.

(** [static_cast<uint32_t>(points * weight)] *)
Definition weighted (weight : float) (points : Z) : outcome Z := to_uint32 (fmul (float_of points) weight).

Definition calculate_uptime_score (now : Z) (m : ContributionMetrics) : outcome Z :=
  base_score ← to_uint32 (uptime_percentage now m);
  let longevity_bonus := Z.min 100 (u32 (u64 (total_uptime m * 100) / MONTH_SECONDS)) in
  weighted UPTIME_WEIGHT (u32 (base_score + longevity_bonus)).

Definition calculate_bandwidth_score (m : ContributionMetrics) : outcome Z :=
  let score := u32 (bytes_routed m / GB) in
  weighted BANDWIDTH_WEIGHT (if 200 <? score then 200 else score).

Definition calculate_storage_score (m : ContributionMetrics) : outcome Z :=
  let thing_score := u32 (things_hosted m * 10) in
  let storage_score := u32 (storage_bytes_provided m / GB) in
  let total := u32 (thing_score + storage_score) in
  weighted STORAGE_WEIGHT (if 200 <? total then 200 else total).

Definition calculate_routing_score (m : ContributionMetrics) : outcome Z :=
  let base_score := Z.min 100 (successful_routes m) in
  reliability_adjusted ← to_uint32 (fmul (float_of base_score) (routing_reliability m));
  weighted ROUTING_WEIGHT reliability_adjusted.

Definition calculate_witness_score (m : ContributionMetrics) : outcome Z :=
  let total_epochs := u32 (epochs_witnessed m + epochs_missed m) in
  if total_epochs =? 0 then Ok 0
  else
    let participation_rate := fdiv (float_of (epochs_witnessed m)) (float_of total_epochs) in
    score ← to_uint32 (fmul participation_rate (float_of 100));
    weighted WITNESS_WEIGHT score.

Definition calculate_score (now : Z) (m : ContributionMetrics) : outcome ContributionScore :=
  up ← calculate_uptime_score now m;
  bandwidth ← calculate_bandwidth_score m;
  storage ← calculate_storage_score m;
  routing ← calculate_routing_score m;
  witness ← calculate_witness_score m;
  Ok (calculate_total (MkContributionScore (cm_node_id m) up bandwidth storage routing witness 0)).

(** [calculate_score(node_id)] *)
Definition calculate_node_score (n : NodeID) (now : Z) (e : PoStakeEngine) :
    outcome ContributionScore :=
  calculate_score now (get_metrics n now (tracker e)).

Definition determine_key_type (s : ContributionScore) : KeyType :=
  if (bandwidth_score s <? storage_score s) && (routing_score s <? storage_score s) then SERVICE
  else if (storage_score s <? bandwidth_score s) && (routing_score s <? bandwidth_score s)
  then ROUTING
  else NETWORK.

(** Division by zero is undefined. *)
Definition calculate_key_count (s : ContributionScore) (k : KeyType) (e : PoStakeEngine) :
    outcome Z :=
  let rate := get_earning_rate k e in
  if total_score s <? min_score_required rate then Ok 0
  else if points_per_key rate =? 0 then Undef
  else
    let keys := total_score s / points_per_key rate in
    Ok (if max_per_epoch rate <? keys then max_per_epoch rate else keys).

Section Rewards.
Context `{Crypto}.

Definition hash_contribution (m : ContributionMetrics) : Hash256 :=
  blake3 (le_bytes 8 (total_uptime m) ++ le_bytes 8 (bytes_routed m) ++
          le_bytes 8 (storage_bytes_provided m) ++ le_bytes 4 (successful_routes m) ++
          le_bytes 4 (epochs_witnessed m)).

(** The reward of one active node, if any. *)
Definition node_reward (n : NodeID) (epoch now : Z) (e : PoStakeEngine) :
    outcome (list PoStakeReward) :=
  let m := get_metrics n now (tracker e) in
  score ← calculate_score now m;
  let key_type := determine_key_type score in
  key_count ← calculate_key_count score key_type e;
  Ok (if 0 <? key_count
      then [MkPoStakeReward n epoch key_type key_count now (hash_contribution m)] else []).

Fixpoint rewards_of (nodes : list NodeID) (epoch now : Z) (e : PoStakeEngine) :
    outcome (list PoStakeReward) :=
  match nodes with
  | [] => Ok []
  | n :: nodes =>
      rs ← node_reward n epoch now e;
      rest ← rewards_of nodes epoch now e;
      Ok (rs ++ rest)
  end.

Definition calculate_epoch_rewards (epoch now : Z) (e : PoStakeEngine) :
    outcome (list PoStakeReward) :=
  rewards_of (get_active_contributors now (tracker e)) epoch now e.

(** [award_keys] only logs. *)
Definition process_epoch (epoch now : Z) (e : PoStakeEngine) : outcome PoStakeEngine :=
  rewards ← calculate_epoch_rewards epoch now e;
  Ok (MkPoStakeEngine (tracker e) (earning_rates e) (epoch_contributions e)
        (<[epoch := rewards]> (epoch_rewards e))).

End Rewards.

Definition get_epoch_contribution (n : NodeID) (epoch : Z) (e : PoStakeEngine) :
    option EpochContribution :=
  match epoch_contributions e !! epoch with
  | None => None
  | Some cs => snd <$> list_find (λ c, ec_node_id c = n) cs
  end.

Definition get_node_history (n : NodeID) (e : PoStakeEngine) : list EpochContribution :=
  p ← entries (epoch_contributions e); filter (λ c, ec_node_id c = n) p.2.

Inductive ContributionType := UPTIME | BANDWIDTH | STORAGE | ROUTING_QUALITY | EPOCH_WITNESS.

Definition contribution (type : ContributionType) (m : ContributionMetrics) : Z :=
  match type with
  | UPTIME => total_uptime m
  | BANDWIDTH => bytes_routed m
  | STORAGE => storage_bytes_provided m
  | ROUTING_QUALITY => successful_routes m
  | EPOCH_WITNESS => epochs_witnessed m
  end.

(** [sort] is [std::sort] by descending score, which leaves the order of equal
    scores open. *)
Definition get_top_contributors (sort : list (NodeID * Z) → list (NodeID * Z))
    (type : ContributionType) (count now : Z) (e : PoStakeEngine) : list NodeID :=
  let scored := sort ((λ n, (n, contribution type (get_metrics n now (tracker e)))) <$>
                        get_active_contributors now (tracker e)) in
  fst <$> take (Z.to_nat (Z.min count (len scored))) scored.

Definition get_total_keys_awarded (epoch : Z) (e : PoStakeEngine) : Z :=
  match epoch_rewards e !! epoch with
  | None => 0
  | Some rs => foldl (λ total r, u32 (total + pr_key_count r)) 0 rs
  end.

Fixpoint sum_scores (total : Z) (nodes : list NodeID) (now : Z) (e : PoStakeEngine) : outcome Z :=
  match nodes with
  | [] => Ok total
  | n :: nodes =>
      score ← calculate_node_score n now e;
      sum_scores (u64 (total + total_score score)) nodes now e
  end.

Definition get_average_contribution_score (now : Z) (e : PoStakeEngine) : outcome Z :=
  match get_active_contributors now (tracker e) with
  | [] => Ok 0
  | nodes => total ← sum_scores 0 nodes now e; Ok (u32 (total / len nodes))
  end.

(** ** Sequences of operations *)

Inductive tracker_op :=
| Online (n : NodeID)
| Offline (n : NodeID)
| BytesRouted (n : NodeID) (bytes : Z)
| Traffic (n : NodeID) (sent received : Z)
| ThingHosted (n : NodeID) (size : Z)
| ThingRemoved (n : NodeID) (size : Z)
| RouteSuccessful (n : NodeID)
| RouteFailed (n : NodeID)
| EpochWitnessed (n : NodeID) (epoch : Z)
| EpochMissed (n : NodeID) (epoch : Z)
| ResetMetrics (n : NodeID)
| Cleanup (inactive_threshold : Z).

(** Every public operation but [update_uptime], which only [record_node_offline]
    calls. *)
Definition tracker_step (now : Z) (op : tracker_op) : ContributionTracker → ContributionTracker :=
  match op with
  | Online n => record_node_online n now
  | Offline n => record_node_offline n now
  | BytesRouted n b => record_bytes_routed n b
  | Traffic n s r => record_traffic n s r
  | ThingHosted n s => record_thing_hosted n s
  | ThingRemoved n s => record_thing_removed n s
  | RouteSuccessful n => record_successful_route n
  | RouteFailed n => record_failed_route n
  | EpochWitnessed n ep => record_epoch_witness n ep
  | EpochMissed n ep => record_epoch_missed n ep
  | ResetMetrics n => reset_metrics n
  | Cleanup x => cleanup_inactive_nodes x now
  end.

Definition tracker_run (ops : list (Z * tracker_op)) (t : ContributionTracker) :
    ContributionTracker :=
  foldl (λ t p, tracker_step p.1 p.2 t) t ops.

(** ** The invariant of the tracker *)

(** Counted uptime fits into the time since the node was first seen, the counters
    are at most the number [k] of operations so far, and the reliability is the
    quotient of the counters. *)
Record metrics_ok (now k : Z) (since : option Z) (m : ContributionMetrics) : Prop := {
  mo_first : 0 <= first_seen m <= now;
  mo_seen : 0 <= last_seen m <= now;
  mo_uptime : 0 <= total_uptime m;
  mo_unseen : first_seen m = 0 → total_uptime m = 0;
  mo_since : match since with
             | Some s => 0 < first_seen m ∧ total_uptime m <= s - first_seen m ∧ s <= now
             | None => total_uptime m <= now - first_seen m
             end;
  mo_routes : 0 <= successful_routes m ∧ 0 <= failed_routes m ∧
              successful_routes m + failed_routes m <= k;
  mo_epochs : 0 <= epochs_witnessed m ∧ 0 <= epochs_missed m ∧
              epochs_witnessed m + epochs_missed m <= k;
  mo_reliability : routing_reliability m =
    if successful_routes m + failed_routes m =? 0 then f_one
    else fdiv (float_of (successful_routes m)) (float_of (successful_routes m + failed_routes m))
}.

Record tracker_ok (now k : Z) (t : ContributionTracker) : Prop := {
  to_metrics : ∀ n m, metrics t !! n = Some m → metrics_ok now k (online_since t !! n) m;
  to_online : ∀ n s, online_since t !! n = Some s → is_Some (metrics t !! n)
}.

Lemma new_tracker_ok now k : tracker_ok now k new_tracker.
Proof. by split; intros n m; cbn; rewrite lookup_empty. Qed.

Lemma new_metrics_ok now k : 0 <= now → 0 <= k → metrics_ok now k None new_metrics.
Proof. intros. split; cbn; lia || done. Qed.

Lemma metrics_ok_later now now' k k' since m :
  now <= now' → k <= k' → metrics_ok now k since m → metrics_ok now' k' since m.
Proof. intros ?? []. destruct since; split; (lia || done). Qed.

Lemma tracker_ok_later now now' k k' t :
  now <= now' → k <= k' → tracker_ok now k t → tracker_ok now' k' t.
Proof. intros ?? [Hm Ho]. split; [|done]. eauto using metrics_ok_later. Qed.

(** The entry an operation works on, present or new, is fine. *)
Lemma at_or_ok now k t n :
  0 <= now → 0 <= k → tracker_ok now k t →
  metrics_ok now k (online_since t !! n) (at_or new_metrics n (metrics t)).
Proof.
  intros ?? [Hm Ho]. unfold at_or. destruct (metrics t !! n) as [m|] eqn:E; [by apply Hm|].
  cbn [from_option id]. destruct (online_since t !! n) as [s|] eqn:Es; [|by apply new_metrics_ok].
  destruct (Ho n s Es) as [? ?]. congruence.
Qed.

Lemma at_or_same {V} (d v : V) (n : NodeID) m : at_or d n (<[n := v]> m) = v.
Proof. unfold at_or. by rewrite lookup_insert_eq. Qed.

Lemma at_metrics_ok now k n f t :
  0 <= now → 0 <= k → tracker_ok now k t →
  (∀ m, metrics_ok now k (online_since t !! n) m →
        metrics_ok now (k + 1) (online_since t !! n) (f m)) →
  tracker_ok now (k + 1) (at_metrics n f t).
Proof.
  intros Hn Hk Ht Hf. pose proof (at_or_ok now k t n Hn Hk Ht) as Hx. destruct Ht as [Hm Ho].
  split; cbn.
  - intros n' m. destruct (decide (n = n')) as [<-|].
    + rewrite lookup_insert_eq. intros [= <-]. auto.
    + rewrite lookup_insert_ne by done. intros E%Hm. eapply metrics_ok_later; [..|exact E]; lia.
  - intros n' s E. destruct (decide (n = n')) as [<-|];
      [rewrite lookup_insert_eq|rewrite lookup_insert_ne by done]; eauto.
Qed.

Lemma record_node_online_ok now k n t :
  0 < now → 0 <= k → tracker_ok now k t → tracker_ok now (k + 1) (record_node_online n now t).
Proof.
  intros Hn Hk Ht. pose proof (at_or_ok now k t n ltac:(lia) Hk Ht) as Hx. destruct Ht as [Hm Ho].
  split; unfold record_node_online; cbn.
  - intros n' m. destruct (decide (n = n')) as [<-|].
    + rewrite !lookup_insert_eq. intros [= <-]. set (m := at_or _ _ _) in *.
      destruct Hx as [H1 H2 H3 H4 H5 H6 H7 H8].
      destruct (online_since t !! n), (Z.eqb_spec (first_seen m) 0) as [E|E];
        split; cbn; try specialize (H4 E); (lia || done).
    + rewrite !lookup_insert_ne by done. intros E%Hm. eapply metrics_ok_later; [..|exact E]; lia.
  - intros n' s E. destruct (decide (n = n')) as [<-|];
      [rewrite lookup_insert_eq; eauto|].
    rewrite lookup_insert_ne in E by done. rewrite lookup_insert_ne by done. eauto.
Qed.

Lemma record_node_offline_ok now k n t :
  0 < now < 2 ^ 64 → 0 <= k → tracker_ok now k t →
  tracker_ok now (k + 1) (record_node_offline n now t).
Proof.
  intros Hn Hk Ht. pose proof (at_or_ok now k t n ltac:(lia) Hk Ht) as Hx. destruct Ht as [Hm Ho].
  unfold record_node_offline. cbn [online_since].
  destruct (online_since t !! n) as [s|] eqn:Es.
  - destruct Hx as [H1 H2 H3 H4 H5 H6 H7 H8]. split; cbn.
    + intros n' m. rewrite at_or_same. destruct (decide (n = n')) as [<-|].
      * rewrite lookup_insert_eq, lookup_delete_eq. intros [= <-]. set (m := at_or _ _ _) in *.
        assert (u64 (total_uptime m + u64 (now - s)) = total_uptime m + (now - s)) as E.
        { rewrite wrap_add_r, wrap_small; [done|unfold in_u; lia]. }
        rewrite E. split; cbn; lia || done.
      * rewrite !lookup_insert_ne, lookup_delete_ne by done. intros E%Hm.
        eapply metrics_ok_later; [..|exact E]; lia.
    + intros n' s'. destruct (decide (n = n')) as [<-|].
      * by rewrite lookup_delete_eq.
      * rewrite lookup_delete_ne, !lookup_insert_ne by done. eauto.
  - apply at_metrics_ok; [lia|done|by split|]. cbn [online_since]. rewrite Es.
    intros m []. split; cbn; try (lia || done).
Qed.

Lemma reset_metrics_ok now k n t : tracker_ok now k t → tracker_ok now k (reset_metrics n t).
Proof.
  intros [Hm Ho]. split; cbn; intros n' x; destruct (decide (n = n')) as [<-|];
    rewrite ?lookup_delete_eq, ?lookup_delete_ne by done; eauto || done.
Qed.

Lemma tracker_cleanup_ok x now k t :
  tracker_ok now k t → tracker_ok now k (cleanup_inactive_nodes x now t).
Proof.
  unfold cleanup_inactive_nodes. generalize ((filter (λ p, x < u64 (now - last_seen p.2))
    (entries (metrics t))).*1). intros l. revert t.
  induction l as [|n l IH]; cbn; eauto using reset_metrics_ok.
Qed.

Lemma tracker_step_ok now k op t :
  0 < now < 2 ^ 64 → 0 <= k < 2 ^ 32 - 1 → tracker_ok now k t →
  tracker_ok now (k + 1) (tracker_step now op t).
Proof.
  intros Hn Hk Ht. assert (0 <= now ∧ 0 <= k) as [? ?] by lia.
  assert (Hu : ∀ x, 0 <= x <= k + 1 → u32 x = x) by (intros; apply wrap_small; unfold in_u; lia).
  destruct op; cbn [tracker_step];
    try (apply at_metrics_ok; [done..|]; intros m [H1 H2 H3 H4 H5 H6 H7 H8];
         split; cbn; try done; try (destruct (online_since t !! n); lia); try lia).
  - by apply record_node_online_ok; [lia..|].
  - by apply record_node_offline_ok; [lia..|].
  - rewrite Hu by lia. lia.
  - rewrite !Hu by (rewrite ?Hu by lia; lia). done.
  - rewrite Hu by lia. lia.
  - rewrite !Hu by (rewrite ?Hu by lia; lia). done.
  - rewrite Hu by lia. lia.
  - rewrite Hu by lia. lia.
  - eapply tracker_ok_later; [..|by apply reset_metrics_ok]; lia.
  - eapply tracker_ok_later; [..|by apply tracker_cleanup_ok]; lia.
Qed.

Lemma tracker_run_ok ops lo hi k t :
  0 < lo → hi < 2 ^ 64 → 0 <= k → k + len ops < 2 ^ 32 → ascending lo hi ops →
  tracker_ok lo k t → tracker_ok hi (k + len ops) (tracker_run ops t).
Proof.
  intros Hlo Hhi. revert lo k t Hlo. induction ops as [|[x op] ops IH]; intros lo k t Hlo Hk.
  - rewrite len_nil. cbn. intros. eapply tracker_ok_later; [..|done]; lia.
  - rewrite len_cons. pose proof (len_nonneg ops). cbn. intros Hl [H1 H2] Ht.
    pose proof (ascending_le _ _ _ H2). rewrite Z.add_assoc. apply IH with x; [lia..|done|].
    apply tracker_step_ok; [lia..|]. eapply tracker_ok_later; [..|exact Ht]; lia.
Qed.

(** What [get_metrics] reports has the uptime of the running session in it. *)
Lemma get_metrics_ok now k n t :
  0 <= now < 2 ^ 64 → 0 <= k → tracker_ok now k t → metrics_ok now k None (get_metrics n now t).
Proof.
  intros Hn Hk [Hm Ho]. unfold get_metrics. destruct (metrics t !! n) as [m|] eqn:E;
    [|apply new_metrics_ok; lia]. apply Hm in E.
  destruct (online_since t !! n) as [s|]; [|done]. destruct E as [H1 H2 H3 H4 H5 H6 H7 H8].
  assert (u64 (total_uptime m + u64 (now - s)) = total_uptime m + (now - s)) as E.
  { rewrite wrap_add_r, wrap_small; [done|unfold in_u; lia]. }
  rewrite E. split; cbn; lia || done.
Qed.

(** ** Bounds of the scores *)

Definition weighted_within (w : float) (n b : Z) : bool :=
  forallb (λ c, match weighted w c with Ok r => (0 <=? r) && (r <=? b) | _ => false end)
    (seqZ 0 (n + 1)).

Lemma weighted_le w n b c :
  weighted_within w n b = true → 0 <= c <= n → ∃ r, weighted w c = Ok r ∧ 0 <= r <= b.
Proof.
  unfold weighted_within. rewrite forallb_forall. intros H Hc.
  specialize (H c ltac:(apply list_elem_of_In, elem_of_seqZ; lia)).
  destruct (weighted w c) as [r| |]; [|done..]. bool_to_prop. eauto.
Qed.

Lemma capped x n : 0 <= x → 0 <= n → 0 <= (if n <? x then n else x) <= n.
Proof. intros. destruct (Z.ltb_spec n x); lia. Qed.

Lemma uptime_score_le now k m :
  0 <= now < 2 ^ 64 → metrics_ok now k None m →
  ∃ r, calculate_uptime_score now m = Ok r ∧ 0 <= r <= 60.
Proof.
  intros Hn [H1 _ H3 _ H5 _ _ _]. unfold calculate_uptime_score.
  assert (∃ b, to_uint32 (uptime_percentage now m) = Ok b ∧ 0 <= b <= 100) as (b & -> & Hb).
  { unfold uptime_percentage. destruct (Z.eqb_spec (first_seen m) 0); [by exists 0|].
    rewrite wrap_small by (unfold in_u; lia).
    destruct (Z.eqb_spec (now - first_seen m) 0); [by exists 100|]. apply ratio_le; lia. }
  cbn [mbind outcome_bind]. set (x := u32 (_ / _)). assert (in_u 32 x) as [? _] by by apply wrap_range.
  rewrite wrap_small by (unfold in_u; lia). apply weighted_le with 200; [by vm_compute|lia].
Qed.

Lemma bandwidth_score_le m : ∃ r, calculate_bandwidth_score m = Ok r ∧ 0 <= r <= 50.
Proof.
  unfold calculate_bandwidth_score. pose proof (capped (u32 (bytes_routed m / GB)) 200).
  assert (in_u 32 (u32 (bytes_routed m / GB))) as [? _] by by apply wrap_range.
  apply weighted_le with 200; [by vm_compute|lia].
Qed.

Lemma storage_score_le m : ∃ r, calculate_storage_score m = Ok r ∧ 0 <= r <= 50.
Proof.
  unfold calculate_storage_score. set (x := u32 (_ + _)). pose proof (capped x 200).
  assert (in_u 32 x) as [? _] by by apply wrap_range.
  apply weighted_le with 200; [by vm_compute|lia].
Qed.

Lemma routing_score_le now k m :
  k < 2 ^ 32 → metrics_ok now k None m →
  ∃ r, calculate_routing_score m = Ok r ∧ 0 <= r <= 15.
Proof.
  intros Hk [_ _ _ _ _ H6 _ H8]. unfold calculate_routing_score.
  assert (∃ b, to_uint32 (fmul (float_of (Z.min 100 (successful_routes m))) (routing_reliability m))
            = Ok b ∧ 0 <= b <= 100) as (b & -> & Hb).
  { rewrite H8. destruct (Z.eqb_spec (successful_routes m + failed_routes m) 0).
    { replace (successful_routes m) with 0 by lia. by exists 0. }
    rewrite fmul_comm. destruct (ratio_le (successful_routes m)
      (successful_routes m + failed_routes m) (Z.min 100 (successful_routes m)))
      as (r & -> & Hr); [lia..|]. exists r. split; [done|lia]. }
  cbn [mbind outcome_bind]. by apply weighted_le with 100; [vm_compute|].
Qed.

Lemma witness_score_le now k m :
  k < 2 ^ 32 → metrics_ok now k None m →
  ∃ r, calculate_witness_score m = Ok r ∧ 0 <= r <= 5.
Proof.
  intros Hk [_ _ _ _ _ _ H7 _]. unfold calculate_witness_score.
  rewrite wrap_small by (unfold in_u; lia).
  destruct (Z.eqb_spec (epochs_witnessed m + epochs_missed m) 0); [by exists 0|].
  destruct (ratio_le (epochs_witnessed m) (epochs_witnessed m + epochs_missed m) 100)
    as (b & -> & Hb); [lia..|].
  cbn [mbind outcome_bind]. by apply weighted_le with 100; [vm_compute|].
Qed.

Lemma score_le now k m :
  0 <= now < 2 ^ 64 → k < 2 ^ 32 → metrics_ok now k None m →
  ∃ s, calculate_score now m = Ok s ∧ 0 <= uptime_score s <= 60 ∧ 0 <= bandwidth_score s <= 50 ∧
    0 <= storage_score s <= 50 ∧ 0 <= routing_score s <= 15 ∧ 0 <= witness_score s <= 5 ∧
    total_score s = uptime_score s + bandwidth_score s + storage_score s + routing_score s +
      witness_score s.
Proof.
  intros Hn Hk Hm. unfold calculate_score.
  destruct (uptime_score_le now k m Hn Hm) as (a & -> & ?).
  destruct (bandwidth_score_le m) as (b & -> & ?). destruct (storage_score_le m) as (c & -> & ?).
  destruct (routing_score_le now k m Hk Hm) as (d & -> & ?).
  destruct (witness_score_le now k m Hk Hm) as (e & -> & ?).
  cbn [mbind outcome_bind]. eexists. split; [done|]. cbn.
  rewrite wrap_small by (unfold in_u; lia). lia.
Qed.

Lemma too_few_points s k e :
  let r := get_earning_rate k e in
  total_score s < min_score_required r ∨ 0 <= total_score s < points_per_key r →
  0 <= max_per_epoch r → calculate_key_count s k e = Ok 0.
Proof.
  cbn. intros H Hm. unfold calculate_key_count. destruct (Z.ltb_spec (total_score s)
    (min_score_required (get_earning_rate k e))); [done|].
  rewrite (proj2 (Z.eqb_neq _ _)) by lia. rewrite Z.div_small by lia.
  by rewrite (proj2 (Z.ltb_ge _ _)).
Qed.

(** With the default rates such a score is worth no key. *)
Lemma no_key_for s e :
  earning_rates e = default_rates → 0 <= total_score s <= 180 →
  calculate_key_count s (determine_key_type s) e = Ok 0.
Proof.
  intros He Ht. unfold determine_key_type.
  repeat case_match; apply too_few_points; unfold get_earning_rate; rewrite He;
    vm_compute at_or; cbn; lia.
Qed.

(** ** Properties *)

(** Whatever the tracker of an engine records within its lifetime, every conversion of a
    score is defined and the parts and the total are bounded: 60 for uptime, 50 each for
    bandwidth and storage, 15 for routing, 5 for witnessing, 180 in all. *)
Theorem contribution_scores_bounded ops lo now n :
  0 < lo → now < 2 ^ 64 → ascending lo now ops → len ops < 2 ^ 32 →
  ∃ s, calculate_score now (get_metrics n now (tracker_run ops new_tracker)) = Ok s ∧
    uptime_score s <= 60 ∧ bandwidth_score s <= 50 ∧ storage_score s <= 50 ∧
    routing_score s <= 15 ∧ witness_score s <= 5 ∧
    total_score s = uptime_score s + bandwidth_score s + storage_score s + routing_score s +
      witness_score s ∧ 0 <= total_score s <= 180.
Proof.
  intros Hlo Hnow Ha Hl. pose proof (ascending_le _ _ _ Ha). pose proof (len_nonneg ops).
  pose proof (tracker_run_ok ops lo now 0 new_tracker Hlo Hnow ltac:(lia) ltac:(lia) Ha
    (new_tracker_ok lo 0)) as Ht.
  destruct (score_le now (0 + len ops) _ ltac:(lia) ltac:(lia)
    (get_metrics_ok now (0 + len ops) n _ ltac:(lia) ltac:(lia) Ht)) as (s & -> & Hs).
  exists s. split; [done|]. lia.
Qed.

(** An engine at work: its tracker is fed and epochs are processed. *)
Inductive engine_op :=
| Track (op : tracker_op)
| ProcessEpoch (epoch : Z).

Section Engine.
Context `{Crypto}.

Definition engine_step (now : Z) (op : engine_op) (e : PoStakeEngine) : outcome PoStakeEngine :=
  match op with
  | Track op => Ok (MkPoStakeEngine (tracker_step now op (tracker e)) (earning_rates e)
                      (epoch_contributions e) (epoch_rewards e))
  | ProcessEpoch epoch => process_epoch epoch now e
  end.

Fixpoint engine_run (ops : list (Z * engine_op)) (e : PoStakeEngine) : outcome PoStakeEngine :=
  match ops with
  | [] => Ok e
  | p :: ops => e ← engine_step p.1 p.2 e; engine_run ops e
  end.

(** An engine with the default rates that has rewarded nobody. *)
Record engine_ok (now k : Z) (e : PoStakeEngine) : Prop := {
  en_tracker : tracker_ok now k (tracker e);
  en_rates : earning_rates e = default_rates;
  en_history : epoch_contributions e = ∅;
  en_rewards : ∀ epoch rs, epoch_rewards e !! epoch = Some rs → rs = []
}.

Lemma no_rewards epoch now k e :
  0 <= now < 2 ^ 64 → 0 <= k < 2 ^ 32 → engine_ok now k e →
  calculate_epoch_rewards epoch now e = Ok [].
Proof.
  intros Hn Hk [Ht Hr _ _]. unfold calculate_epoch_rewards.
  induction (get_active_contributors now (tracker e)) as [|n nodes IH]; [done|].
  cbn [rewards_of]. unfold node_reward.
  destruct (score_le now k (get_metrics n now (tracker e)) Hn ltac:(lia)) as (s & -> & Hs);
    [by apply get_metrics_ok; [|lia|]|].
  cbn [mbind outcome_bind]. rewrite no_key_for by (done || lia).
  cbn [mbind outcome_bind]. by rewrite IH.
Qed.

Lemma engine_step_ok now k op e :
  0 < now < 2 ^ 64 → 0 <= k < 2 ^ 32 - 1 → engine_ok now k e →
  ∃ e', engine_step now op e = Ok e' ∧ engine_ok now (k + 1) e'.
Proof.
  intros Hn Hk He. destruct op as [op|epoch]; cbn [engine_step].
  - destruct He as [Ht Hr Hh Hw]. eexists. split; [done|]. split; cbn; [|done..].
    by apply tracker_step_ok.
  - unfold process_epoch. rewrite (no_rewards epoch now k) by (done || lia).
    destruct He as [Ht Hr Hh Hw]. eexists. split; [done|]. split; cbn; [|done..|].
    + eapply tracker_ok_later; [..|exact Ht]; lia.
    + intros ep rs. destruct (decide (epoch = ep)) as [<-|].
      * rewrite lookup_insert_eq. by intros [= <-].
      * rewrite lookup_insert_ne by done. apply Hw.
Qed.

Lemma engine_run_ok ops lo hi k e :
  0 < lo → hi < 2 ^ 64 → 0 <= k → k + len ops < 2 ^ 32 → ascending lo hi ops → engine_ok lo k e →
  ∃ e', engine_run ops e = Ok e' ∧ engine_ok hi (k + len ops) e'.
Proof.
  intros Hlo Hhi. revert lo k e Hlo. induction ops as [|[x op] ops IH]; intros lo k e Hlo Hk.
  - rewrite len_nil, Z.add_0_r. cbn. intros _ Hl [Ht Hr Hh Hw]. exists e. split; [done|].
    split; [|done..]. eapply tracker_ok_later; [..|exact Ht]; lia.
  - rewrite len_cons. pose proof (len_nonneg ops). cbn. intros Hl [H1 H2] [Ht Hr Hh Hw].
    pose proof (ascending_le _ _ _ H2).
    destruct (engine_step_ok x k op e) as (e1 & -> & He1); [lia..| |].
    { split; [|done..]. eapply tracker_ok_later; [..|exact Ht]; lia. }
    cbn. rewrite Z.add_assoc. apply (IH x (k + 1) e1); [lia..|done|done].
Qed.

Lemma total_of_nothing epoch e :
  (∀ rs, epoch_rewards e !! epoch = Some rs → rs = []) → get_total_keys_awarded epoch e = 0.
Proof.
  intros Hr. unfold get_total_keys_awarded. destruct (epoch_rewards e !! epoch) as [rs|]; [|done].
  by rewrite (Hr rs).
Qed.

(** With the default rates the contribution engine never rewards anybody: whatever it
    records and whichever epochs it processes, every computation is defined, no score
    reaches the points of a single key, no epoch has rewards and no node has a history. *)
Theorem contribution_earns_no_keys ops lo now :
  0 < lo → now < 2 ^ 64 → ascending lo now ops → len ops < 2 ^ 32 →
  ∃ e, engine_run ops new_engine = Ok e ∧
    (∀ epoch, calculate_epoch_rewards epoch now e = Ok [] ∧ get_total_keys_awarded epoch e = 0) ∧
    (∀ n, get_node_history n e = []) ∧ ∀ n epoch, get_epoch_contribution n epoch e = None.
Proof.
  intros Hlo Hnow Ha Hl. pose proof (ascending_le _ _ _ Ha). pose proof (len_nonneg ops).
  destruct (engine_run_ok ops lo now 0 new_engine Hlo Hnow ltac:(lia) ltac:(lia) Ha)
    as (e & He & Hok).
  { split; [apply new_tracker_ok|done..|]. intros ep rs. cbn. by rewrite lookup_empty. }
  exists e. split; [done|]. split; [|split].
  - intros epoch. split; [by apply (no_rewards epoch now (0 + len ops)); [lia..|]|].
    apply total_of_nothing. apply (en_rewards _ _ _ Hok).
  - intros n. unfold get_node_history. by rewrite (en_history _ _ _ Hok).
  - intros n epoch. unfold get_epoch_contribution. by rewrite (en_history _ _ _ Hok), lookup_empty.
Qed.

End Engine.

(** ** Activity *)

(** The node an operation concerns, when it is one that marks a node as seen or
    forgets it. *)
Definition touches_presence (n : NodeID) (op : tracker_op) : bool :=
  match op with
  | Online n' | Offline n' | ResetMetrics n' => bool_decide (n = n')
  | Cleanup _ => true
  | _ => false
  end.

Lemma at_metrics_seen n n' f t m :
  metrics t !! n = Some m → (∀ m, last_seen (f m) = last_seen m) →
  ∃ m', metrics (at_metrics n' f t) !! n = Some m' ∧ last_seen m' = last_seen m.
Proof.
  intros E Hf. cbn. destruct (decide (n' = n)) as [->|].
  - rewrite lookup_insert_eq. eexists. split; [done|]. rewrite Hf. unfold at_or. by rewrite E.
  - rewrite lookup_insert_ne by done. eauto.
Qed.

Lemma other_offline n n' now t :
  n ≠ n' → metrics (record_node_offline n' now t) !! n = metrics t !! n.
Proof.
  intros Hn. unfold record_node_offline. cbn.
  destruct (online_since t !! n'); cbn; by rewrite !lookup_insert_ne.
Qed.

Lemma seen_kept n op now t m :
  metrics t !! n = Some m → touches_presence n op = false →
  ∃ m', metrics (tracker_step now op t) !! n = Some m' ∧ last_seen m' = last_seen m.
Proof.
  intros E Hop. destruct op; cbn in Hop; cbn [tracker_step];
    try (by apply at_metrics_seen); try done; bool_to_prop; exists m.
  - cbn. by rewrite lookup_insert_ne.
  - by rewrite other_offline.
  - cbn. by rewrite lookup_delete_ne.
Qed.

Lemma seen_kept_run n ops t m :
  metrics t !! n = Some m → Forall (λ p, touches_presence n p.2 = false) ops →
  ∃ m', metrics (tracker_run ops t) !! n = Some m' ∧ last_seen m' = last_seen m.
Proof.
  intros E Hops. revert t m E. induction Hops as [|p ops Hp _ IH]; cbn; intros t m E; [by eauto|].
  destruct (seen_kept n p.2 p.1 t m E Hp) as (m1 & E1 & H1). rewrite <- H1. by apply IH.
Qed.

Lemma elem_of_active n now t :
  n ∈ get_active_contributors now t ↔
  ∃ m, metrics t !! n = Some m ∧ u64 (now - last_seen m) <= ACTIVE_THRESHOLD.
Proof.
  unfold get_active_contributors. rewrite list_elem_of_fmap. split.
  - intros ([n' m] & -> & [H1 H2%elem_of_entries]%list_elem_of_filter). eauto.
  - intros (m & E & H). exists (n, m). split; [done|].
    apply list_elem_of_filter. split; [done|by apply elem_of_entries].
Qed.

Lemma forget_all l t :
  metrics (foldl (λ t n, reset_metrics n t) t l) = filter (λ p, p.1 ∉ l) (metrics t) ∧
  online_since (foldl (λ t n, reset_metrics n t) t l) = filter (λ p, p.1 ∉ l) (online_since t).
Proof.
  revert t. induction l as [|n l IH]; intros t; cbn.
  - split; symmetry; apply map_filter_id; set_solver.
  - destruct (IH (reset_metrics n t)) as [-> ->]. cbn. split; apply map_eq; intros i;
      apply option_eq; intros x; rewrite !map_lookup_filter_Some, lookup_delete_Some;
      cbn; set_solver.
Qed.

(** The time a node was last seen changes only when it goes online or offline: a node that
    stays connected for more than five minutes is no active contributor, whatever traffic
    it has, and the clean-up forgets it, its metrics and its running session. *)
Theorem connected_nodes_expire n t0 now ops t :
  0 <= t0 → t0 + ACTIVE_THRESHOLD < now → now < 2 ^ 64 →
  Forall (λ p, touches_presence n p.2 = false) ops →
  let t' := tracker_run ops (record_node_online n t0 t) in
  n ∉ get_active_contributors now t' ∧
  ∀ x, t0 + x < now → 0 <= x →
    get_metrics n now (cleanup_inactive_nodes x now t') = new_metrics ∧
    online_since (cleanup_inactive_nodes x now t') !! n = None.
Proof.
  intros H0 Hnow Hmax Hops t'. unfold ACTIVE_THRESHOLD in Hnow.
  destruct (seen_kept_run n ops (record_node_online n t0 t)
    (with_seen (if first_seen (at_or new_metrics n (metrics t)) =? 0 then t0
                else first_seen (at_or new_metrics n (metrics t))) t0
       (at_or new_metrics n (metrics t)))) as (m & E & Hm); [|done|].
  { cbn. by rewrite lookup_insert_eq. }
  fold t' in E. cbn in Hm.
  assert (Hage : u64 (now - last_seen m) = now - t0)
    by (rewrite Hm; apply wrap_small; unfold in_u; lia).
  split.
  - rewrite elem_of_active. intros (m' & E' & H). assert (m' = m) as -> by congruence.
    unfold ACTIVE_THRESHOLD in H. lia.
  - intros x Hx Hx0. unfold cleanup_inactive_nodes. set (l := fst <$> _).
    assert (n ∈ l) as Hin.
    { apply list_elem_of_fmap. exists (n, m). split; [done|]. apply list_elem_of_filter.
      split; [cbn; lia|by apply elem_of_entries]. }
    unfold get_metrics. destruct (forget_all l t') as [-> ->].
    assert (∀ V (mp : gmap NodeID V), filter (λ p, p.1 ∉ l) mp !! n = None) as Hnone.
    { intros V mp. apply map_lookup_filter_None. right. cbn. intros ? _. by intros []. }
    by rewrite !Hnone.
Qed.

(** ** Concrete inputs *)

Definition busy_node : NodeID := array_fill 32 "007"%byte.

Definition a_busy_hour : list (Z * tracker_op) :=
  [(1000, Online busy_node); (1010, BytesRouted busy_node (2 ^ 45));
   (1020, ThingHosted busy_node (2 ^ 40)); (1030, RouteSuccessful busy_node);
   (1040, EpochWitnessed busy_node 1)].

(** Full marks but for routing and witnessing: still far from a key. *)
Example busy_score :
  total_score <$> to_optional
    (calculate_score 4600 (get_metrics busy_node 4600 (tracker_run a_busy_hour new_tracker))) =
  Some 135.
Proof. by vm_compute. Qed.

Lemma contribution_scores_bounded_witness :
  ∃ s, calculate_score 4600 (get_metrics busy_node 4600 (tracker_run a_busy_hour new_tracker)) = Ok s ∧
    total_score s <= 180.
Proof.
  destruct (contribution_scores_bounded a_busy_hour 1 4600 busy_node) as (s & E & H);
    [lia|lia|cbn; lia|done|].
  exists s. split; [exact E|lia].
Defined.

Lemma contribution_earns_no_keys_witness :
  ∃ e, engine_run (H := toy_crypto)
         ((prod_map id Track <$> a_busy_hour) ++ [(1200, ProcessEpoch 2)]) new_engine = Ok e ∧
    get_total_keys_awarded 2 e = 0.
Proof.
  destruct (contribution_earns_no_keys (H := toy_crypto)
    ((prod_map id Track <$> a_busy_hour) ++ [(1200, ProcessEpoch 2)]) 1 1300)
    as (e & E & Hr & _); [lia|lia|cbn; lia|done|].
  exists e. split; [exact E|]. apply (Hr 2).
Defined.

Lemma connected_nodes_expire_witness :
  busy_node ∉ get_active_contributors 1400
    (tracker_run [(1300, Traffic busy_node 10 20)] (record_node_online busy_node 1000 new_tracker)).
Proof.
  apply (connected_nodes_expire busy_node 1000 1400 [(1300, Traffic busy_node 10 20)] new_tracker);
    [lia|unfold ACTIVE_THRESHOLD; lia|lia|by repeat constructor].
Defined.
