(* ===== verification/Activity.v ===== *)
(** The activity monitor: [ActivityMonitor] and [MonitoredSession] of
    src/network/activity_monitor.hpp and activity_monitor.cpp, which report what
    the network layer sees to the contribution tracker.

    The monitor holds a reference to the tracker; here it has the tracker as a
    field.  [MonitoredConnectionManager] only installs these reports as callbacks
    of sockets and is not modelled. *)

From Stdlib Require Import Strings.Byte.
From S2P Require Import Prelude Common Crypto Floats Channel Session PoStake.

(** ** The monitor *)

Record ActivityMonitor := MkActivityMonitor {
  am_tracker : ContributionTracker;
  local_node : option NodeID;
  monitoring_local : bool;
  total_connections : Z;
  total_bytes_routed : Z;
  total_things_hosted : Z;
  total_routes_monitored : Z;
  hosted_things : gmap Hash256 Z
}.

Definition new_monitor (t : ContributionTracker) : ActivityMonitor :=
  MkActivityMonitor t None false 0 0 0 0 ∅.

(** A call of the tracker. *)
Definition report (f : ContributionTracker → ContributionTracker) (a : ActivityMonitor) :
    ActivityMonitor :=
  MkActivityMonitor (f (am_tracker a)) (local_node a) (monitoring_local a) (total_connections a)
    (total_bytes_routed a) (total_things_hosted a) (total_routes_monitored a) (hosted_things a).

Definition with_totals (connections routed things routes : Z) (a : ActivityMonitor) :
    ActivityMonitor :=
  MkActivityMonitor (am_tracker a) (local_node a) (monitoring_local a) connections routed things
    routes (hosted_things a).

Definition with_hosted (h : gmap Hash256 Z) (a : ActivityMonitor) : ActivityMonitor :=
  MkActivityMonitor (am_tracker a) (local_node a) (monitoring_local a) (total_connections a)
    (total_bytes_routed a) (total_things_hosted a) (total_routes_monitored a) h.

Definition start_monitoring_local_node (n : NodeID) (now : Z) (a : ActivityMonitor) :
    ActivityMonitor :=
  report (record_node_online n now)
    (MkActivityMonitor (am_tracker a) (Some n) true (total_connections a) (total_bytes_routed a)
      (total_things_hosted a) (total_routes_monitored a) (hosted_things a)).

Definition stop_monitoring_local_node (now : Z) (a : ActivityMonitor) : ActivityMonitor :=
  let a := match local_node a with
           | Some n => report (record_node_offline n now) a
           | None => a
           end in
  MkActivityMonitor (am_tracker a) None false (total_connections a) (total_bytes_routed a)
    (total_things_hosted a) (total_routes_monitored a) (hosted_things a).

Definition on_peer_connected (peer : NodeID) (now : Z) (a : ActivityMonitor) : ActivityMonitor :=
  report (record_node_online peer now)
    (with_totals (u64 (total_connections a + 1)) (total_bytes_routed a) (total_things_hosted a)
      (total_routes_monitored a) a).

Definition on_peer_disconnected (peer : NodeID) (now : Z) : ActivityMonitor → ActivityMonitor :=
  report (record_node_offline peer now).

Definition on_session_established (peer : NodeID) (now : Z) : ActivityMonitor → ActivityMonitor :=
  report (record_node_online peer now).

Definition on_session_closed (peer : NodeID) (a : ActivityMonitor) : ActivityMonitor := a.

(** [monitoring_local_ && local_node_id_.has_value()] *)
Definition monitored (a : ActivityMonitor) : option NodeID :=
  if monitoring_local a then local_node a else None.

Definition on_bytes_sent (peer : NodeID) (bytes : Z) (a : ActivityMonitor) : ActivityMonitor :=
  let a := match monitored a with
           | Some n => report (record_traffic n bytes 0) a
           | None => a
           end in
  report (record_traffic peer 0 bytes) a.

Definition on_bytes_received (peer : NodeID) (bytes : Z) (a : ActivityMonitor) : ActivityMonitor :=
  let a := match monitored a with
           | Some n => report (record_traffic n 0 bytes) a
           | None => a
           end in
  report (record_traffic peer bytes 0) a.

Definition on_bytes_routed_for (n : NodeID) (bytes : Z) (a : ActivityMonitor) : ActivityMonitor :=
  let a := report (record_bytes_routed n bytes) a in
  with_totals (total_connections a) (u64 (total_bytes_routed a + bytes)) (total_things_hosted a)
    (total_routes_monitored a) a.

Definition on_thing_hosted (n : NodeID) (thing : Hash256) (size_bytes : Z) (a : ActivityMonitor) :
    ActivityMonitor :=
  let a := report (record_thing_hosted n size_bytes) a in
  let a := with_hosted (<[thing := size_bytes]> (hosted_things a)) a in
  with_totals (total_connections a) (total_bytes_routed a) (u64 (total_things_hosted a + 1))
    (total_routes_monitored a) a.

Definition on_thing_removed (n : NodeID) (thing : Hash256) (size_bytes : Z) (a : ActivityMonitor) :
    ActivityMonitor :=
  let a := report (record_thing_removed n size_bytes) a in
  with_hosted (delete thing (hosted_things a)) a.

Definition count_route (a : ActivityMonitor) : ActivityMonitor :=
  with_totals (total_connections a) (total_bytes_routed a) (total_things_hosted a)
    (u64 (total_routes_monitored a + 1)) a.

Definition on_route_successful (n : NodeID) (content : Hash256) (a : ActivityMonitor) :
    ActivityMonitor :=
  count_route (report (record_successful_route n) a).

Definition on_route_failed (n : NodeID) (content : Hash256) (a : ActivityMonitor) :
    ActivityMonitor :=
  count_route (report (record_failed_route n) a).

Definition on_epoch_witnessed (n : NodeID) (epoch : Z) : ActivityMonitor → ActivityMonitor :=
  report (record_epoch_witness n epoch).

Definition on_epoch_missed (n : NodeID) (epoch : Z) : ActivityMonitor → ActivityMonitor :=
  report (record_epoch_missed n epoch).

(** ** Monitored sessions *)

Record MonitoredSession := MkMonitoredSession {
  ms_session : Session;
  ms_bytes_sent : Z;
  ms_bytes_received : Z
}.

Definition new_monitored_session (s : Session) (now : Z) (a : ActivityMonitor) :
    MonitoredSession * ActivityMonitor :=
  (MkMonitoredSession s 0 0, on_session_established (remote_node_id s) now a).

(** The destructor. *)
Definition drop_monitored_session (m : MonitoredSession) (a : ActivityMonitor) : ActivityMonitor :=
  on_session_closed (remote_node_id (ms_session m)) a.

Section Sessions.
Context `{Crypto, ChannelCrypto}.

Definition encrypt_and_send (plaintext : bytes) (random : array 4) (now : Z)
    (m : MonitoredSession) (a : ActivityMonitor) :
    outcome (option bytes) * MonitoredSession * ActivityMonitor :=
  let '(ciphertext, s) := encrypt_message plaintext random now (ms_session m) in
  match ciphertext with
  | Ok (Some c) =>
      (ciphertext, MkMonitoredSession s (u64 (ms_bytes_sent m + len c)) (ms_bytes_received m),
       on_bytes_sent (remote_node_id s) (len c) a)
  | _ => (ciphertext, MkMonitoredSession s (ms_bytes_sent m) (ms_bytes_received m), a)
  end.

Definition receive_and_decrypt (ciphertext : bytes) (now : Z) (m : MonitoredSession)
    (a : ActivityMonitor) : outcome (option bytes) * MonitoredSession * ActivityMonitor :=
  let received := u64 (ms_bytes_received m + len ciphertext) in
  let a := on_bytes_received (remote_node_id (ms_session m)) (len ciphertext) a in
  let '(plaintext, s) := decrypt_message ciphertext now (ms_session m) in
  (plaintext, MkMonitoredSession s (ms_bytes_sent m) received, a).

End Sessions.

(** ** What the tracker is told *)

Inductive event :=
| StartLocal (n : NodeID)
| StopLocal
| PeerConnected (p : NodeID)
| PeerDisconnected (p : NodeID)
| SessionEstablished (p : NodeID)
| SessionClosed (p : NodeID)
| BytesSent (p : NodeID) (bytes : Z)
| BytesReceived (p : NodeID) (bytes : Z)
| RoutedFor (n : NodeID) (bytes : Z)
| Hosted (n : NodeID) (thing : Hash256) (size : Z)
| Removed (n : NodeID) (thing : Hash256) (size : Z)
| RouteGood (n : NodeID) (content : Hash256)
| RouteBad (n : NodeID) (content : Hash256)
| Witnessed (n : NodeID) (epoch : Z)
| Missed (n : NodeID) (epoch : Z).

Definition monitor_step (now : Z) (ev : event) : ActivityMonitor → ActivityMonitor :=
  match ev with
  | StartLocal n => start_monitoring_local_node n now
  | StopLocal => stop_monitoring_local_node now
  | PeerConnected p => on_peer_connected p now
  | PeerDisconnected p => on_peer_disconnected p now
  | SessionEstablished p => on_session_established p now
  | SessionClosed p => on_session_closed p
  | BytesSent p b => on_bytes_sent p b
  | BytesReceived p b => on_bytes_received p b
  | RoutedFor n b => on_bytes_routed_for n b
  | Hosted n h s => on_thing_hosted n h s
  | Removed n h s => on_thing_removed n h s
  | RouteGood n h => on_route_successful n h
  | RouteBad n h => on_route_failed n h
  | Witnessed n ep => on_epoch_witnessed n ep
  | Missed n ep => on_epoch_missed n ep
  end.

Definition monitor_run (evs : list (Z * event)) (a : ActivityMonitor) : ActivityMonitor :=
  foldl (λ a p, monitor_step p.1 p.2 a) a evs.

(** The calls of the tracker an event leads to. *)
Definition reports (ev : event) (a : ActivityMonitor) : list tracker_op :=
  match ev with
  | StartLocal n => [Online n]
  | StopLocal => match local_node a with Some n => [Offline n] | None => [] end
  | PeerConnected p | SessionEstablished p => [Online p]
  | PeerDisconnected p => [Offline p]
  | SessionClosed _ => []
  | BytesSent p b =>
      match monitored a with Some n => [Traffic n b 0] | None => [] end ++ [Traffic p 0 b]
  | BytesReceived p b =>
      match monitored a with Some n => [Traffic n 0 b] | None => [] end ++ [Traffic p b 0]
  | RoutedFor n b => [PoStake.BytesRouted n b]
  | Hosted n _ s => [ThingHosted n s]
  | Removed n _ s => [ThingRemoved n s]
  | RouteGood n _ => [RouteSuccessful n]
  | RouteBad n _ => [RouteFailed n]
  | Witnessed n ep => [EpochWitnessed n ep]
  | Missed n ep => [EpochMissed n ep]
  end.

Fixpoint reports_of (evs : list (Z * event)) (a : ActivityMonitor) : list (Z * tracker_op) :=
  match evs with
  | [] => []
  | p :: evs => (pair p.1 <$> reports p.2 a) ++ reports_of evs (monitor_step p.1 p.2 a)
  end.

Lemma monitor_step_tracker now ev a :
  am_tracker (monitor_step now ev a) =
  tracker_run (pair now <$> reports ev a) (am_tracker a).
Proof.
  destruct ev; try done; cbn [monitor_step reports].
  - unfold stop_monitoring_local_node. by destruct (local_node a).
  - unfold on_bytes_sent. by destruct (monitored a).
  - unfold on_bytes_received. by destruct (monitored a).
Qed.

Lemma tracker_run_app ops ops' t : tracker_run (ops ++ ops') t = tracker_run ops' (tracker_run ops t).
Proof. apply foldl_app. Qed.

Lemma monitor_run_tracker evs a :
  am_tracker (monitor_run evs a) = tracker_run (reports_of evs a) (am_tracker a).
Proof.
  revert a. induction evs as [|p evs IH]; intros a; [done|].
  cbn [reports_of]. rewrite tracker_run_app, <- monitor_step_tracker. apply IH.
Qed.

Lemma reports_short ev a : len (reports ev a) <= 2.
Proof. destruct ev; cbn; try case_match; cbn; unfold len; cbn; lia. Qed.

Lemma reports_of_ok lo hi evs a :
  ascending lo hi evs → ascending lo hi (reports_of evs a) ∧ len (reports_of evs a) <= 2 * len evs.
Proof.
  revert lo a. induction evs as [|[x ev] evs IH]; intros lo a; cbn [reports_of ascending fst snd];
    [by rewrite len_nil|].
  intros [Hx [H1 H2]%(IH _ (monitor_step x ev a))]. split.
  - apply (ascending_from _ x); [done|]. by apply ascending_now.
  - rewrite len_app, len_cons. pose proof (reports_short ev a).
    assert (len (pair x <$> reports ev a) = len (reports ev a)) as -> by (unfold len; by rewrite length_fmap).
    lia.
Qed.

(** ** Traffic *)

Definition surplus (m : ContributionMetrics) : Z := PoStake.bytes_sent m - PoStake.bytes_received m.

(** All bytes sent less all bytes received. *)
Definition balance (t : ContributionTracker) : Z :=
  map_fold (λ _ m acc, surplus m + acc) 0 (metrics t).

Lemma balance_insert (ms : gmap NodeID ContributionMetrics) n m :
  map_fold (λ _ m acc, surplus m + acc) 0 (<[n := m]> ms) =
  surplus m - surplus (at_or new_metrics n ms) + map_fold (λ _ m acc, surplus m + acc) 0 ms.
Proof.
  set (F := map_fold _ 0). assert (HF : ∀ ms n m, ms !! n = None → F (<[n := m]> ms) = surplus m + F ms).
  { intros ms' n' m' E. unfold F.
    rewrite map_fold_insert_L; [done| |done]. intros. lia. }
  unfold at_or. destruct (ms !! n) as [m0|] eqn:E; cbn [from_option id].
  - rewrite <- insert_delete_eq, HF by apply lookup_delete_eq.
    assert (F ms = surplus m0 + F (delete n ms)) as ->; [|lia].
    rewrite <- (HF (delete n ms) n m0) by apply lookup_delete_eq. by rewrite insert_delete_id.
  - rewrite HF by done. unfold surplus. cbn. lia.
Qed.

Lemma surplus_at n f t :
  balance (at_metrics n f t) =
  balance t + surplus (f (at_or new_metrics n (metrics t))) - surplus (at_or new_metrics n (metrics t)).
Proof. unfold balance. cbn [metrics at_metrics]. rewrite balance_insert. lia. Qed.

Lemma wrap_carry x : ∃ c, u64 x = x + c * 2 ^ 64.
Proof. exists (- (x / 2 ^ 64)). unfold wrap. rewrite Z.mod_eq by lia. lia. Qed.

Lemma balance_traffic n s r t :
  ∃ c, balance (record_traffic n s r t) = balance t + (s - r) + c * 2 ^ 64.
Proof.
  unfold record_traffic. rewrite surplus_at. set (m := at_or _ _ _). unfold surplus. cbn.
  destruct (wrap_carry (PoStake.bytes_sent m + s)) as [c ->].
  destruct (wrap_carry (PoStake.bytes_received m + r)) as [c' ->]. exists (c - c'). lia.
Qed.

Lemma balance_same n f t :
  (∀ m, surplus (f m) = surplus m) → balance (at_metrics n f t) = balance t.
Proof. intros Hf. rewrite surplus_at, Hf. lia. Qed.

Lemma balance_online n now t : balance (record_node_online n now t) = balance t.
Proof. unfold record_node_online. by rewrite balance_same. Qed.

Lemma balance_offline n now t : balance (record_node_offline n now t) = balance t.
Proof.
  unfold record_node_offline. cbn. rewrite balance_same by done. destruct (online_since t !! n); [|done].
  unfold balance. cbn. apply (balance_same n). by intros.
Qed.

(** The local node is watched, and what was sent was received. *)
Definition balanced (a : ActivityMonitor) : Prop :=
  is_Some (monitored a) ∧ ∃ c, balance (am_tracker a) = c * 2 ^ 64.

Lemma balanced_report f a :
  (∀ t, balance (f t) = balance t) → balanced a → balanced (report f a).
Proof. intros Hf [Hm [c Hc]]. split; [done|]. exists c. cbn. by rewrite Hf. Qed.

Lemma balanced_transfer n n' b b' a :
  balanced a → is_Some (monitored a) →
  balanced (report (record_traffic n' b' b) (report (record_traffic n b b') a)).
Proof.
  intros [Hm [c Hc]] _. split; [done|]. cbn.
  destruct (balance_traffic n' b' b (record_traffic n b b' (am_tracker a))) as [c1 ->].
  destruct (balance_traffic n b b' (am_tracker a)) as [c2 ->]. exists (c + c1 + c2). lia.
Qed.

Lemma balanced_step now ev a :
  ev ≠ StopLocal → balanced a → balanced (monitor_step now ev a).
Proof.
  intros Hev Ha. destruct ev; cbn [monitor_step]; try done.
  - destruct Ha as [_ [c Hc]]. split; [by eexists|]. exists c. cbn. by rewrite balance_online.
  - apply balanced_report; [apply balance_online|done].
  - apply balanced_report; [apply balance_offline|done].
  - apply balanced_report; [apply balance_online|done].
  - unfold on_bytes_sent. pose proof Ha as [[n E] _]. rewrite E. by apply balanced_transfer.
  - unfold on_bytes_received. pose proof Ha as [[n E] _]. rewrite E. by apply balanced_transfer.
  - apply (balanced_report (record_bytes_routed n bytes)); [|done]. by intros; apply balance_same.
  - apply (balanced_report (record_thing_hosted n size)); [|done]. by intros; apply balance_same.
  - apply (balanced_report (record_thing_removed n size)); [|done]. by intros; apply balance_same.
  - apply (balanced_report (record_successful_route n)); [|done]. by intros; apply balance_same.
  - apply (balanced_report (record_failed_route n)); [|done]. by intros; apply balance_same.
  - apply balanced_report; [|done]. by intros; apply balance_same.
  - apply balanced_report; [|done]. by intros; apply balance_same.
Qed.

(** *** Uptime *)

Lemma online_uptime n now t :
  ∃ m, metrics (record_node_online n now t) !! n = Some m ∧
    total_uptime m = total_uptime (at_or new_metrics n (metrics t)) ∧
    online_since (record_node_online n now t) !! n = Some now.
Proof.
  unfold record_node_online. cbn. rewrite !lookup_insert_eq. by eexists.
Qed.

Lemma offline_uptime n now t m s :
  metrics t !! n = Some m → online_since t !! n = Some s →
  ∃ m', metrics (record_node_offline n now t) !! n = Some m' ∧
    total_uptime m' = u64 (total_uptime m + u64 (now - s)) ∧
    online_since (record_node_offline n now t) !! n = None.
Proof.
  intros E Es. unfold record_node_offline. cbn. rewrite Es. cbn.
  rewrite at_or_same, lookup_insert_eq, lookup_delete_eq. unfold at_or. rewrite E. by eexists.
Qed.

Lemma reported_uptime n now t m s :
  metrics t !! n = Some m → online_since t !! n = s →
  total_uptime (get_metrics n now t) =
  match s with Some s => u64 (total_uptime m + u64 (now - s)) | None => total_uptime m end.
Proof. intros E <-. unfold get_metrics. rewrite E. by destruct (online_since t !! n). Qed.

(** ** Properties *)

(** The tracker of a monitor is the fold of the reports its events make, at most two for
    each; and while the local node is monitored, what the nodes have sent and what they
    have received stay equal in sum, up to the width of the counters. *)
Theorem monitor_refines_tracker evs lo hi a n now0 t :
  ascending lo hi evs →
  am_tracker (monitor_run evs a) = tracker_run (reports_of evs a) (am_tracker a) ∧
  ascending lo hi (reports_of evs a) ∧ len (reports_of evs a) <= 2 * len evs ∧
  (Forall (λ p, p.2 ≠ StopLocal) evs → balance t = 0 →
   u64 (balance (am_tracker (monitor_run evs (start_monitoring_local_node n now0 (new_monitor t))))) = 0).
Proof.
  intros Hev. split; [apply monitor_run_tracker|]. destruct (reports_of_ok lo hi evs a Hev) as [H1 H2].
  do 2 (split; [done|]). intros Hstop Ht.
  assert (balanced (start_monitoring_local_node n now0 (new_monitor t))) as Hb.
  { split; [by eexists|]. exists 0. cbn. by rewrite balance_online. }
  generalize dependent (start_monitoring_local_node n now0 (new_monitor t)).
  clear -Hstop. induction Hstop as [|p evs Hp _ IH]; cbn; intros a Hb.
  - destruct Hb as [_ [c ->]]. unfold wrap. by rewrite Z.mod_mul.
  - apply IH. by apply balanced_step.
Qed.

(** A connection reports the peer online, and so does the session opened over it: the
    second report restarts the peer's clock, and the time between connecting and
    establishing is lost, from the running total and from the total after it disconnects. *)
Theorem session_resets_uptime p t1 t2 t3 now a :
  0 <= t1 <= t2 → t2 <= t3 <= now →
  let before := total_uptime (at_or new_metrics p (metrics (am_tracker a))) in
  0 <= before → before + now < 2 ^ 64 →
  let connected := on_peer_connected p t1 a in
  let established := on_session_established p t2 connected in
  total_uptime (get_metrics p t2 (am_tracker connected)) = before + (t2 - t1) ∧
  total_uptime (get_metrics p t2 (am_tracker established)) = before ∧
  total_uptime (get_metrics p now (am_tracker (on_peer_disconnected p t3 established))) =
    before + (t3 - t2).
Proof.
  intros H1 H2 before Hb Hb'. cbn zeta.
  assert (Hd : ∀ x y, 0 <= x <= y → y <= now → u64 (before + u64 (y - x)) = before + (y - x)).
  { intros. rewrite wrap_add_r. apply wrap_small. unfold in_u. lia. }
  unfold on_peer_connected, on_session_established, on_peer_disconnected. cbn [am_tracker report with_totals].
  destruct (online_uptime p t1 (am_tracker a)) as (m1 & E1 & U1 & S1). fold before in U1.
  destruct (online_uptime p t2 (record_node_online p t1 (am_tracker a))) as (m2 & E2 & U2 & S2).
  unfold at_or in U2. rewrite E1 in U2. cbn [from_option id] in U2.
  destruct (offline_uptime p t3 _ _ _ E2 S2) as (m3 & E3 & U3 & S3).
  rewrite (reported_uptime _ _ _ _ _ E1 S1), (reported_uptime _ _ _ _ _ E2 S2),
    (reported_uptime _ _ _ _ _ E3 S3), U3, U2, U1, !Hd by lia.
  split; [done|]. split; [lia|done].
Qed.

(** ** Concrete inputs *)

Definition peer_a : NodeID := array_fill 32 "010"%byte.

Lemma monitor_refines_tracker_witness :
  u64 (balance (am_tracker (monitor_run [(5, BytesSent peer_a 100); (6, BytesReceived peer_a 7)]
         (start_monitoring_local_node busy_node 1 (new_monitor new_tracker))))) = 0.
Proof.
  apply (monitor_refines_tracker [(5, BytesSent peer_a 100); (6, BytesReceived peer_a 7)] 1 10
    (new_monitor new_tracker)); [cbn; lia|by repeat constructor|done].
Defined.

Lemma session_resets_uptime_witness :
  total_uptime (get_metrics peer_a 9000 (am_tracker (on_peer_disconnected peer_a 5000
    (on_session_established peer_a 4999 (on_peer_connected peer_a 1000 (new_monitor new_tracker)))))) =
  0 + (5000 - 4999).
Proof.
  apply (session_resets_uptime peer_a 1000 4999 5000 9000 (new_monitor new_tracker));
    [lia|lia|vm_compute; discriminate|vm_compute; reflexivity].
Defined.
