(* ===== verification/Hybrid.v ===== *)
(** Key issuance by work and contribution: [HybridCoordinator] of
    src/core/postake/hybrid_coordinator.hpp and hybrid_coordinator.cpp.

    The coordinator refers to the engine of [PoStake], which is the argument
    [pe]; its references to the state view and to the proof-of-work engine are
    never used.  A call reads the clock as a count of ticks of
    [std::chrono::system_clock] ([ticks], nanoseconds with libstdc++), which it
    stores and compares, and in seconds, for the epoch and the uptime. *)

From Stdlib Require Import Strings.Byte.
From S2P Require Import Prelude Common Crypto Pow Key Ledger Floats PoStake.

Record clock := MkClock { ticks : Z; seconds : Z }.

(** ** Records and policy *)

Inductive KeyIssuanceMethod := POW_ONLY | POSTAKE_ONLY | HYBRID.

#[export] Instance KeyIssuanceMethod_eq_dec : EqDecision KeyIssuanceMethod.
Proof. solve_decision. Defined.

Definition method_byte (m : KeyIssuanceMethod) : Z :=
  match m with POW_ONLY => 0 | POSTAKE_ONLY => 1 | HYBRID => 2 end.

Record HybridIssuanceRecord := MkHybridIssuanceRecord {
  hr_node_id : NodeID;
  method : KeyIssuanceMethod;
  pow_solution : option PowSolution;
  contribution_score : option ContributionScore;
  hr_key_type : KeyType;
  hr_key_count : Z;
  issued_at : Z;
  hr_epoch : Z;
  record_hash : Hash256
}.

Record HybridPolicy := MkHybridPolicy {
  require_pow_for_new_nodes : bool;
  new_node_pow_keys : Z;
  allow_postake_only : bool;
  min_contribution_score : Z;
  enable_hybrid_bonus : bool;
  hybrid_multiplier : float;
  pow_weight : float;
  postake_weight : float;
  max_keys_per_epoch : Z;
  min_seconds_between_issuance : Z
}.

Definition default_policy : HybridPolicy :=
  MkHybridPolicy true 5 true 100 true (literal 15 10) (literal 4 10) (literal 6 10) 10 60.

Definition is_valid (p : HybridPolicy) : bool :=
  SFeqb (fadd (pow_weight p) (postake_weight p)) f_one.

Record HybridCoordinator := MkHybridCoordinator {
  policy : HybridPolicy;
  issuance_history : gmap NodeID (list HybridIssuanceRecord);
  last_issuance_time : gmap NodeID Z;
  epoch_key_counts : gmap (NodeID * Z) Z;
  total_keys_issued : Z;
  pow_issuances : Z;
  postake_issuances : Z;
  hybrid_issuances : Z
}.

Definition new_coordinator : HybridCoordinator :=
  MkHybridCoordinator default_policy ∅ ∅ ∅ 0 0 0 0.

Definition set_policy (p : HybridPolicy) (h : HybridCoordinator) : HybridCoordinator :=
  if negb (is_valid p) then h
  else
    MkHybridCoordinator p (issuance_history h) (last_issuance_time h) (epoch_key_counts h)
      (total_keys_issued h) (pow_issuances h) (postake_issuances h) (hybrid_issuances h).

(** ** The claimed difficulty *)

(** The bits of a byte from position [bit] down: the number of leading zeros, and
    whether a one was found. *)
Fixpoint scan_bits (bit : nat) (b leading : Z) : Z * bool :=
  if Z.land (Z.shiftr b (Z.of_nat bit)) 1 =? 0 then
    match bit with
    | O => (leading + 1, false)
    | S bit => scan_bits bit b (leading + 1)
    end
  else (leading, true).

Fixpoint count_bits (leading : Z) (l : bytes) : Z :=
  match l with
  | [] => leading
  | b :: l =>
      if byte_val b =? 0 then count_bits (leading + 8) l
      else
        let '(leading, found) := scan_bits 7 (byte_val b) leading in
        if found then leading else count_bits leading l
  end.

Definition count_leading_zero_bits (hash : Hash256) : Z := count_bits 0 (arr hash).

Definition pow_solution_meets_claimed_difficulty (s : PowSolution) : bool :=
  sol_difficulty s <=? count_leading_zero_bits (solution_hash s).

(** ** Encoding *)

(** The loop [for (i = n - 1; i >= 0; --i) data.push_back((x >> (i * 8)) & 0xFF)]. *)
Definition big_endian (n : nat) (x : Z) : bytes :=
  (λ i : nat, to_byte (Z.land (Z.shiftr x (Z.of_nat (n - 1 - i) * 8)) 0xFF)) <$> seq 0 n.

Definition record_to_bytes (r : HybridIssuanceRecord) : bytes :=
  arr (hr_node_id r) ++ [to_byte (method_byte (method r))] ++
  match pow_solution r with
  | Some s => ["001"%byte] ++ arr (solution_hash s) ++ big_endian 8 (nonce s)
  | None => ["000"%byte]
  end ++
  match contribution_score r with
  | Some s => ["001"%byte] ++ big_endian 4 (total_score s)
  | None => ["000"%byte]
  end ++
  [hr_key_type r] ++ big_endian 4 (hr_key_count r) ++ big_endian 8 (issued_at r) ++
  big_endian 8 (hr_epoch r).

(** ** Limits *)

Definition is_new_node (n : NodeID) (c : clock) (pe : PoStakeEngine) : bool :=
  let m := get_metrics n (seconds c) (tracker pe) in
  (total_uptime m =? 0) && (things_hosted m =? 0) && (successful_routes m =? 0).

Definition calculate_hybrid_bonus (base_keys : Z) (h : HybridCoordinator) : outcome Z :=
  if negb (enable_hybrid_bonus (policy h)) then Ok base_keys
  else to_uint32 (fmul (float_of base_keys) (hybrid_multiplier (policy h))).

Definition check_rate_limit (n : NodeID) (c : clock) (h : HybridCoordinator) : bool :=
  match last_issuance_time h !! n with
  | None => true
  | Some last => min_seconds_between_issuance (policy h) <=? u64 (u64 (ticks c) - last)
  end.

Definition get_keys_issued_in_epoch (n : NodeID) (epoch : Z) (h : HybridCoordinator) : Z :=
  at_or 0 (n, epoch) (epoch_key_counts h).

Definition can_issue_keys (n : NodeID) (key_count epoch : Z) (c : clock) (h : HybridCoordinator) :
    bool :=
  let current_count := get_keys_issued_in_epoch n epoch h in
  if max_keys_per_epoch (policy h) <? u32 (current_count + key_count) then false
  else check_rate_limit n c h.

Definition record_issuance (r : HybridIssuanceRecord) (h : HybridCoordinator) : HybridCoordinator :=
  let k := (hr_node_id r, hr_epoch r) in
  MkHybridCoordinator (policy h)
    (<[hr_node_id r := at_or [] (hr_node_id r) (issuance_history h) ++ [r]]> (issuance_history h))
    (<[hr_node_id r := issued_at r]> (last_issuance_time h))
    (<[k := u32 (at_or 0 k (epoch_key_counts h) + hr_key_count r)]> (epoch_key_counts h))
    (u64 (total_keys_issued h + hr_key_count r))
    (match method r with POW_ONLY => u64 (pow_issuances h + 1) | _ => pow_issuances h end)
    (match method r with POSTAKE_ONLY => u64 (postake_issuances h + 1) | _ => postake_issuances h end)
    (match method r with HYBRID => u64 (hybrid_issuances h + 1) | _ => hybrid_issuances h end).

(** ** Requests *)

Section Requests.
Context `{Crypto}.

Definition record_compute_hash (r : HybridIssuanceRecord) : Hash256 := blake3 (record_to_bytes r).

(** The record, sealed with its hash. *)
Definition sealed (n : NodeID) (m : KeyIssuanceMethod) (sol : option PowSolution)
    (score : option ContributionScore) (k : KeyType) (count : Z) (c : clock) :
    HybridIssuanceRecord :=
  let r hash := MkHybridIssuanceRecord n m sol score k count (u64 (ticks c))
                  (current_epoch (seconds c)) hash in
  r (record_compute_hash (r (zeros 32))).

Definition request_keys_via_pow (n : NodeID) (sol : PowSolution) (k : KeyType) (key_count : Z)
    (c : clock) (h : HybridCoordinator) : option HybridIssuanceRecord * HybridCoordinator :=
  if negb (can_issue_keys n key_count (current_epoch (seconds c)) c h) then (None, h)
  else if negb (pow_solution_meets_claimed_difficulty sol) then (None, h)
  else
    let r := sealed n POW_ONLY (Some sol) None k key_count c in
    (Some r, record_issuance r h).

Definition request_keys_via_postake (n : NodeID) (k : KeyType) (key_count : Z) (c : clock)
    (pe : PoStakeEngine) (h : HybridCoordinator) :
    outcome (option HybridIssuanceRecord * HybridCoordinator) :=
  if negb (allow_postake_only (policy h)) then Ok (None, h)
  else if require_pow_for_new_nodes (policy h) && is_new_node n c pe then Ok (None, h)
  else if negb (can_issue_keys n key_count (current_epoch (seconds c)) c h) then Ok (None, h)
  else
    score ← calculate_node_score n (seconds c) pe;
    if total_score score <? min_contribution_score (policy h) then Ok (None, h)
    else
      let r := sealed n POSTAKE_ONLY None (Some score) k key_count c in
      Ok (Some r, record_issuance r h).

Definition request_keys_hybrid (n : NodeID) (sol : PowSolution) (k : KeyType) (key_count : Z)
    (c : clock) (pe : PoStakeEngine) (h : HybridCoordinator) :
    outcome (option HybridIssuanceRecord * HybridCoordinator) :=
  bonus_keys ← calculate_hybrid_bonus key_count h;
  if negb (can_issue_keys n bonus_keys (current_epoch (seconds c)) c h) then Ok (None, h)
  else if negb (pow_solution_meets_claimed_difficulty sol) then Ok (None, h)
  else
    score ← calculate_node_score n (seconds c) pe;
    let r := sealed n HYBRID (Some sol) (Some score) k bonus_keys c in
    Ok (Some r, record_issuance r h).

Definition validate_issuance (r : HybridIssuanceRecord) (h : HybridCoordinator) : bool :=
  if bool_decide (record_compute_hash r ≠ record_hash r) then false
  else
    match method r with
    | POW_ONLY =>
        match pow_solution r with
        | None => false
        | Some s => pow_solution_meets_claimed_difficulty s
        end
    | POSTAKE_ONLY =>
        match contribution_score r with
        | None => false
        | Some s => negb (total_score s <? min_contribution_score (policy h))
        end
    | HYBRID =>
        match pow_solution r, contribution_score r with
        | Some s, Some _ => pow_solution_meets_claimed_difficulty s
        | _, _ => false
        end
    end.

End Requests.

Definition get_issuance_history (n : NodeID) (h : HybridCoordinator) : list HybridIssuanceRecord :=
  at_or [] n (issuance_history h).

Definition get_last_issuance_time (n : NodeID) (h : HybridCoordinator) : option Z :=
  last_issuance_time h !! n.

Definition recommend_method (n : NodeID) (c : clock) (pe : PoStakeEngine) (h : HybridCoordinator) :
    outcome KeyIssuanceMethod :=
  if is_new_node n c pe then Ok POW_ONLY
  else
    score ← calculate_node_score n (seconds c) pe;
    if allow_postake_only (policy h) && (min_contribution_score (policy h) <=? total_score score)
    then if enable_hybrid_bonus (policy h) then Ok HYBRID else Ok POSTAKE_ONLY
    else Ok POW_ONLY.

(** ** The difficulty test *)

Lemma scan_bits_shift k b l : scan_bits k b l = (l + (scan_bits k b 0).1, (scan_bits k b 0).2).
Proof.
  revert l. induction k as [|k IH]; intros l; cbn [scan_bits];
    destruct (Z.land _ 1 =? 0); cbn [fst snd]; rewrite ?Z.add_0_r; try done.
  rewrite (IH (l + 1)), (IH (0 + 1)). cbn [fst snd]. f_equal. lia.
Qed.

(** In a byte other than zero the scan stops at the first one, where the mask of
    [Pow] stops. *)
Lemma scan_bits_byte b :
  byte_val b ≠ 0 → scan_bits 7 (byte_val b) 0 = (mask_zeros 9 (byte_val b) 0x80, true).
Proof. by destruct b. Qed.

Lemma count_bits_leading l x : count_bits x l = x + leading_zeros l.
Proof.
  revert x. induction l as [|b l IH]; intros x; cbn [count_bits leading_zeros]; [lia|].
  destruct (Z.eqb_spec (byte_val b) 0); [rewrite IH; lia|].
  rewrite scan_bits_shift, scan_bits_byte by done. done.
Qed.

Lemma count_leading_zero_bits_eq h : count_leading_zero_bits h = count_leading_zeros h.
Proof. apply count_bits_leading. Qed.

Lemma leading_zeros_nonneg l : 0 <= leading_zeros l.
Proof. pose proof (leading_zeros_range l). lia. Qed.

Lemma no_difficulty sol :
  sol_difficulty sol = 0 → pow_solution_meets_claimed_difficulty sol = true.
Proof.
  intros E. unfold pow_solution_meets_claimed_difficulty.
  rewrite E, count_leading_zero_bits_eq. apply Z.leb_le. apply leading_zeros_nonneg.
Qed.

(** ** Encoding *)

Lemma big_endian_eq n x : big_endian n x = reverse (le_bytes n x).
Proof.
  unfold big_endian, le_bytes. rewrite <- fmap_reverse. apply list_eq. intros i.
  rewrite !list_lookup_fmap. destruct (decide (i < n)%nat) as [Hi|Hi].
  - rewrite reverse_lookup by (rewrite length_seq; lia). rewrite length_seq, !lookup_seq_lt by lia.
    cbn [fmap option_fmap option_map]. f_equal.
    change 0xFF with (Z.ones 8). rewrite Z.land_ones by lia.
    change (_ mod 2 ^ 8) with (u8 (Z.shiftr x (Z.of_nat (n - 1 - i) * 8))).
    rewrite to_byte_wrap by done. do 3 f_equal. lia.
  - rewrite !lookup_ge_None_2; [done|rewrite length_reverse, length_seq; lia|rewrite length_seq; lia].
Qed.

Lemma length_big_endian n x : length (big_endian n x) = n.
Proof. by rewrite big_endian_eq, length_reverse, length_le_bytes. Qed.

Lemma big_endian_inj n x y :
  in_u (Z.of_nat n * 8) x → in_u (Z.of_nat n * 8) y → big_endian n x = big_endian n y → x = y.
Proof. rewrite !big_endian_eq. intros Hx Hy E%(inj reverse). by apply (le_bytes_inj n). Qed.

Definition record_in_range (r : HybridIssuanceRecord) : Prop :=
  in_u 32 (hr_key_count r) ∧ in_u 64 (issued_at r) ∧ in_u 64 (hr_epoch r) ∧
  (∀ s, pow_solution r = Some s → in_u 64 (nonce s)) ∧
  ∀ s, contribution_score r = Some s → in_u 32 (total_score s).

(** What the bytes of a record say. *)
Definition covered (r : HybridIssuanceRecord) :=
  (hr_node_id r, method r, (λ s, (solution_hash s, nonce s)) <$> pow_solution r,
   total_score <$> contribution_score r, hr_key_type r, hr_key_count r, issued_at r, hr_epoch r).

Lemma app_inj_length {A} (l1 l2 k1 k2 : list A) :
  length l1 = length l2 → l1 ++ k1 = l2 ++ k2 → l1 = l2 ∧ k1 = k2.
Proof. intros Hl E. by apply app_inj_1. Qed.

Lemma record_to_bytes_inj r r' :
  record_in_range r → record_in_range r' → record_to_bytes r = record_to_bytes r' →
  covered r = covered r'.
Proof.
  intros (Hc & Hi & He & Hp & Hs) (Hc' & Hi' & He' & Hp' & Hs'). unfold record_to_bytes.
  intros [E1%arr_inj [E2 E]%app_inj_length]%app_inj_length; [|done|by rewrite !length_arr].
  assert (method r = method r') as Em by (destruct (method r), (method r'); done).
  assert (((λ s, (solution_hash s, nonce s)) <$> pow_solution r) =
          ((λ s, (solution_hash s, nonce s)) <$> pow_solution r') ∧
    match contribution_score r with
    | Some s => ["001"%byte] ++ big_endian 4 (total_score s)
    | None => ["000"%byte]
    end ++ [hr_key_type r] ++ big_endian 4 (hr_key_count r) ++ big_endian 8 (issued_at r) ++
      big_endian 8 (hr_epoch r) =
    match contribution_score r' with
    | Some s => ["001"%byte] ++ big_endian 4 (total_score s)
    | None => ["000"%byte]
    end ++ [hr_key_type r'] ++ big_endian 4 (hr_key_count r') ++ big_endian 8 (issued_at r') ++
      big_endian 8 (hr_epoch r')) as [Es E3].
  { destruct (pow_solution r) as [s|], (pow_solution r') as [s'|]; try done.
    - rewrite <- !app_assoc in E. apply app_inj_length in E as [_ E]; [|done].
      apply app_inj_length in E as [Ea%arr_inj E]; [|by rewrite !length_arr].
      apply app_inj_length in E as [Eb E]; [|by rewrite !length_big_endian].
      apply big_endian_inj in Eb; [|by auto..].
      split; [cbn; congruence|done].
    - split; [done|]. by apply app_inj_length in E as [_ E]. }
  assert (total_score <$> contribution_score r = total_score <$> contribution_score r' ∧
    [hr_key_type r] ++ big_endian 4 (hr_key_count r) ++ big_endian 8 (issued_at r) ++
      big_endian 8 (hr_epoch r) =
    [hr_key_type r'] ++ big_endian 4 (hr_key_count r') ++ big_endian 8 (issued_at r') ++
      big_endian 8 (hr_epoch r')) as [Ec E4].
  { destruct (contribution_score r) as [s|], (contribution_score r') as [s'|]; try done.
    - rewrite <- !app_assoc in E3. apply app_inj_length in E3 as [_ E3]; [|done].
      apply app_inj_length in E3 as [Ea E3]; [|by rewrite !length_big_endian].
      apply big_endian_inj in Ea; [|by auto..].
      split; [cbn; congruence|done].
    - split; [done|]. by apply app_inj_length in E3 as [_ E3]. }
  apply app_inj_length in E4 as [[= Ek] E4]; [|done].
  apply app_inj_length in E4 as [Ea E4]; [|by rewrite !length_big_endian].
  apply app_inj_length in E4 as [Eb E4]; [|by rewrite !length_big_endian].
  apply big_endian_inj in Ea, Eb, E4; [|done..].
  unfold covered. congruence.
Qed.

(** ** Sequences of requests *)

Inductive coordinator_op :=
| SetPolicy (p : HybridPolicy)
| ViaPow (n : NodeID) (sol : PowSolution) (k : KeyType) (count : Z) (c : clock)
| ViaPostake (n : NodeID) (k : KeyType) (count : Z) (c : clock) (pe : PoStakeEngine)
| ViaHybrid (n : NodeID) (sol : PowSolution) (k : KeyType) (count : Z) (c : clock)
    (pe : PoStakeEngine).

Section Runs.
Context `{Crypto}.

Definition coordinator_step (op : coordinator_op) (h : HybridCoordinator) :
    outcome (option HybridIssuanceRecord * HybridCoordinator) :=
  match op with
  | SetPolicy p => Ok (None, set_policy p h)
  | ViaPow n sol k q c => Ok (request_keys_via_pow n sol k q c h)
  | ViaPostake n k q c pe => request_keys_via_postake n k q c pe h
  | ViaHybrid n sol k q c pe => request_keys_hybrid n sol k q c pe h
  end.

(** The records granted, in order, and the final state. *)
Fixpoint coordinator_run (ops : list coordinator_op) (h : HybridCoordinator) :
    outcome (list HybridIssuanceRecord * HybridCoordinator) :=
  match ops with
  | [] => Ok ([], h)
  | op :: ops =>
      x ← coordinator_step op h;
      y ← coordinator_run ops x.2;
      Ok (option_list x.1 ++ y.1, y.2)
  end.

(** *** The log *)

Definition of_node (n : NodeID) (log : list HybridIssuanceRecord) : list HybridIssuanceRecord :=
  filter (λ r, hr_node_id r = n) log.

Definition keys_in (log : list HybridIssuanceRecord) : Z := foldr (λ r s, hr_key_count r + s) 0 log.

Definition in_epoch (n : NodeID) (epoch : Z) (log : list HybridIssuanceRecord) :
    list HybridIssuanceRecord :=
  filter (λ r, (hr_node_id r, hr_epoch r) = (n, epoch)) log.

Definition by_method (m : KeyIssuanceMethod) (log : list HybridIssuanceRecord) : Z :=
  len (filter (λ r, method r = m) log).

(** The maps and counters of the coordinator are functions of the records it granted,
    each of which is sealed and claims no more work than its hash shows. *)
Record reflects (log : list HybridIssuanceRecord) (h : HybridCoordinator) : Prop := {
  rf_history : ∀ n, get_issuance_history n h = of_node n log;
  rf_last : ∀ n, get_last_issuance_time n h = issued_at <$> list.last (of_node n log);
  rf_epoch : ∀ n ep, get_keys_issued_in_epoch n ep h = u32 (keys_in (in_epoch n ep log));
  rf_total : total_keys_issued h = u64 (keys_in log);
  rf_pow : pow_issuances h = u64 (by_method POW_ONLY log);
  rf_postake : postake_issuances h = u64 (by_method POSTAKE_ONLY log);
  rf_hybrid : hybrid_issuances h = u64 (by_method HYBRID log);
  rf_sealed : Forall (λ r, record_hash r = record_compute_hash r ∧
    ∀ s, pow_solution r = Some s → pow_solution_meets_claimed_difficulty s = true) log
}.

Definition sound_record (r : HybridIssuanceRecord) : Prop :=
  record_hash r = record_compute_hash r ∧
  ∀ s, pow_solution r = Some s → pow_solution_meets_claimed_difficulty s = true.

Lemma keys_in_app l k : keys_in (l ++ k) = keys_in l + keys_in k.
Proof. unfold keys_in. induction l as [|r l IH]; cbn; [done|]. rewrite IH. lia. Qed.

Lemma keys_in_one r : keys_in [r] = hr_key_count r.
Proof. apply Z.add_0_r. Qed.

Lemma by_method_snoc m r log :
  by_method m (log ++ [r]) = by_method m log + (if decide (method r = m) then 1 else 0).
Proof.
  unfold by_method. rewrite list.filter_app, len_app. f_equal. rewrite list.filter_cons.
  by destruct (decide (method r = m)).
Qed.

Lemma reflects_new : reflects [] new_coordinator.
Proof. by split. Qed.

Lemma at_or_insert_pair {K V} `{Countable K} (d v : V) (k k' : K) m :
  at_or d k' (<[k := v]> m) = if decide (k = k') then v else at_or d k' m.
Proof.
  unfold at_or. destruct (decide (k = k')) as [->|];
    [by rewrite lookup_insert_eq|by rewrite lookup_insert_ne].
Qed.

Lemma reflects_record r log h :
  reflects log h → sound_record r → reflects (log ++ [r]) (record_issuance r h).
Proof.
  intros [Hh Hl He Ht H1 H2 H3 Hs] Hr.
  assert (Hn : ∀ n, of_node n (log ++ [r]) = of_node n log ++ (if decide (hr_node_id r = n) then [r] else [])).
  { intros n. unfold of_node. rewrite list.filter_app, list.filter_cons. by destruct (decide _). }
  split.
  - intros n. unfold get_issuance_history. cbn. rewrite at_or_insert_pair, Hn, <- Hh.
    destruct (decide (hr_node_id r = n)) as [<-|]; [done|by rewrite app_nil_r].
  - intros n. unfold get_last_issuance_time in *. cbn. rewrite Hn.
    destruct (decide (hr_node_id r = n)) as [<-|].
    + by rewrite lookup_insert_eq, last_snoc.
    + by rewrite lookup_insert_ne, app_nil_r.
  - intros n ep. unfold get_keys_issued_in_epoch in *. cbn. rewrite at_or_insert_pair.
    unfold in_epoch. rewrite list.filter_app, list.filter_cons.
    destruct (decide ((hr_node_id r, hr_epoch r) = (n, ep))) as [E|].
    + injection E as <- <-. rewrite He, wrap_add_l, keys_in_app, keys_in_one. done.
    + rewrite He, app_nil_r. done.
  - cbn. by rewrite Ht, wrap_add_l, keys_in_app, keys_in_one.
  - cbn. rewrite by_method_snoc, H1. destruct (method r); cbn; by rewrite ?wrap_add_l, ?Z.add_0_r.
  - cbn. rewrite by_method_snoc, H2. destruct (method r); cbn; by rewrite ?wrap_add_l, ?Z.add_0_r.
  - cbn. rewrite by_method_snoc, H3. destruct (method r); cbn; by rewrite ?wrap_add_l, ?Z.add_0_r.
  - apply Forall_app. split; [done|]. by apply list.Forall_cons.
Qed.

Lemma reflects_policy p log h : reflects log h → reflects log (set_policy p h).
Proof. intros [Hh Hl He Ht H1 H2 H3 Hs]. unfold set_policy. by destruct (negb _). Qed.

Lemma sealed_sound n m sol score k q c :
  (∀ s, sol = Some s → pow_solution_meets_claimed_difficulty s = true) →
  sound_record (sealed n m sol score k q c).
Proof. by split. Qed.

(** One step: a grant adds its record and nothing else changes, a refusal changes
    nothing but, for [set_policy], the policy. *)
Lemma coordinator_step_cases op h o h' :
  coordinator_step op h = Ok (o, h') →
  match o with
  | Some r => sound_record r ∧ h' = record_issuance r h
  | None => h' = h ∨ ∃ p, op = SetPolicy p ∧ h' = set_policy p h
  end.
Proof.
  destruct op as [p|n sol k q c|n k q c pe|n sol k q c pe]; cbn [coordinator_step].
  - intros [= <- <-]. eauto.
  - unfold request_keys_via_pow. destruct (negb (can_issue_keys _ _ _ _ _)); [intros [= <- <-]; auto|].
    destruct (pow_solution_meets_claimed_difficulty sol) eqn:E; intros [= <- <-]; [|by left].
    split; [|done]. apply sealed_sound. by intros s [= <-].
  - unfold request_keys_via_postake. do 3 (case_match; [intros [= <- <-]; auto|]).
    destruct (calculate_node_score _ _ _) as [s| |]; [|done..]. cbn [mbind outcome_bind].
    case_match; intros [= <- <-]; [by left|]. split; [|done]. by apply sealed_sound.
  - unfold request_keys_hybrid. destruct (calculate_hybrid_bonus _ _) as [b| |]; [|done..].
    cbn [mbind outcome_bind]. case_match; [intros [= <- <-]; auto|].
    destruct (pow_solution_meets_claimed_difficulty sol) eqn:E; [|intros [= <- <-]; by left].
    cbn [negb]. destruct (calculate_node_score _ _ _) as [s| |]; [|done..]. cbn [mbind outcome_bind].
    intros [= <- <-]. split; [|done]. apply sealed_sound. by intros s' [= <-].
Qed.

Lemma coordinator_step_reflects op log h o h' :
  coordinator_step op h = Ok (o, h') → reflects log h → reflects (log ++ option_list o) h'.
Proof.
  intros E Hr. apply coordinator_step_cases in E. destruct o as [r|]; cbn.
  - destruct E as [Hs ->]. by apply reflects_record.
  - rewrite app_nil_r. destruct E as [->|(p & -> & ->)]; [done|by apply reflects_policy].
Qed.

(** *** The limit per epoch *)

(** What a request asks for, with its bonus. *)
Definition asked (op : coordinator_op) (h : HybridCoordinator) : outcome Z :=
  match op with
  | SetPolicy _ => Ok 0
  | ViaPow _ _ _ q _ | ViaPostake _ _ q _ _ => Ok q
  | ViaHybrid _ _ _ q _ _ => calculate_hybrid_bonus q h
  end.

(** The request does not set the policy, and adding its count to a permitted one
    does not wrap. *)
Definition modest (h : HybridCoordinator) (op : coordinator_op) : Prop :=
  (∀ p, op ≠ SetPolicy p) ∧
  ∀ q, asked op h = Ok q → 0 <= q < 2 ^ 32 - max_keys_per_epoch (policy h).

Definition within_limit (log : list HybridIssuanceRecord) (h : HybridCoordinator) : Prop :=
  ∀ n ep, 0 <= keys_in (in_epoch n ep log) <= max_keys_per_epoch (policy h).

Lemma granted_allowed op h r h' :
  coordinator_step op h = Ok (Some r, h') →
  asked op h = Ok (hr_key_count r) ∧
  u32 (get_keys_issued_in_epoch (hr_node_id r) (hr_epoch r) h + hr_key_count r) <=
    max_keys_per_epoch (policy h) ∧ policy h' = policy h.
Proof.
  assert (Hcan : ∀ n q ep c, negb (can_issue_keys n q ep c h) = false →
    u32 (get_keys_issued_in_epoch n ep h + q) <= max_keys_per_epoch (policy h)).
  { intros n q ep c. unfold can_issue_keys. destruct (Z.ltb_spec (max_keys_per_epoch (policy h))
      (u32 (get_keys_issued_in_epoch n ep h + q))); [done|lia]. }
  destruct op as [p|n sol k q c|n k q c pe|n sol k q c pe]; cbn [coordinator_step asked]; [done|..].
  - unfold request_keys_via_pow. destruct (negb (can_issue_keys _ _ _ _ _)) eqn:E; [done|].
    destruct (negb (pow_solution_meets_claimed_difficulty _)); [done|]. intros [= <- <-]. eauto.
  - unfold request_keys_via_postake. do 2 (case_match; [done|]).
    destruct (negb (can_issue_keys _ _ _ _ _)) eqn:E; [done|].
    destruct (calculate_node_score _ _ _) as [s| |]; [|done..]. cbn [mbind outcome_bind].
    case_match; [done|]. intros [= <- <-]. eauto.
  - unfold request_keys_hybrid. destruct (calculate_hybrid_bonus _ _) as [b| |]; [|done..].
    cbn [mbind outcome_bind]. destruct (negb (can_issue_keys _ _ _ _ _)) eqn:E; [done|].
    destruct (negb (pow_solution_meets_claimed_difficulty _)); [done|].
    destruct (calculate_node_score _ _ _) as [s| |]; [|done..]. cbn [mbind outcome_bind].
    intros [= <- <-]. eauto.
Qed.

Lemma within_limit_step op log h o h' :
  coordinator_step op h = Ok (o, h') → reflects log h → modest h op →
  0 <= max_keys_per_epoch (policy h) < 2 ^ 32 →
  within_limit log h → within_limit (log ++ option_list o) h' ∧ policy h' = policy h.
Proof.
  intros E Hr [Hp Hq] Hmax Hw. destruct o as [r|]; cbn.
  - destruct (granted_allowed _ _ _ _ E) as (Ha & Hl & Hpol). split; [|done].
    intros n ep. rewrite Hpol. unfold in_epoch. rewrite list.filter_app, keys_in_app, list.filter_cons.
    specialize (Hw n ep). unfold in_epoch in Hw. specialize (Hq _ Ha).
    destruct (decide ((hr_node_id r, hr_epoch r) = (n, ep))) as [En|]; [|cbn; lia].
    injection En as <- <-. change (filter _ []) with (@nil HybridIssuanceRecord).
    rewrite keys_in_one. rewrite (rf_epoch _ _ Hr) in Hl. unfold in_epoch in Hl.
    rewrite wrap_add_l, wrap_small in Hl by (unfold in_u; lia). lia.
  - rewrite app_nil_r. apply coordinator_step_cases in E. cbn in E.
    destruct E as [->|(p & Ep & _)]; [done|]. by destruct (Hp p).
Qed.

Lemma coordinator_run_reflects ops log h rs h' :
  coordinator_run ops h = Ok (rs, h') → reflects log h → reflects (log ++ rs) h'.
Proof.
  revert log h rs. induction ops as [|op ops IH]; intros log h rs; cbn [coordinator_run].
  - intros [= <- <-]. by rewrite app_nil_r.
  - destruct (coordinator_step op h) as [[o h1]| |] eqn:E; [|done..]. cbn [mbind outcome_bind fst snd].
    destruct (coordinator_run ops h1) as [[rs1 h2]| |] eqn:E1; [|done..]. cbn [mbind outcome_bind fst snd].
    intros [= <- <-] Hr. rewrite app_assoc. apply (IH _ h1); [done|].
    by apply (coordinator_step_reflects op log h).
Qed.

Lemma coordinator_run_limit ops log h rs h' :
  coordinator_run ops h = Ok (rs, h') → reflects log h → Forall (modest h) ops →
  0 <= max_keys_per_epoch (policy h) < 2 ^ 32 → within_limit log h →
  within_limit (log ++ rs) h' ∧ policy h' = policy h.
Proof.
  intros E Hr Hm Hmax. revert log h rs E Hr Hm Hmax.
  induction ops as [|op ops IH]; intros log h rs; cbn [coordinator_run].
  - intros [= <- <-]. by rewrite app_nil_r.
  - destruct (coordinator_step op h) as [[o h1]| |] eqn:E; [|done..]. cbn [mbind outcome_bind fst snd].
    destruct (coordinator_run ops h1) as [[rs1 h2]| |] eqn:E1; [|done..]. cbn [mbind outcome_bind fst snd].
    intros [= <- <-] Hr [Hop Hops]%list.Forall_cons Hmax Hw. rewrite app_assoc.
    destruct (within_limit_step op log h o h1 E Hr Hop Hmax Hw) as [Hw1 Hp1].
    rewrite <- Hp1 in Hmax |- *. apply (IH _ h1); [done|by eapply coordinator_step_reflects| |done..].
    eapply list.Forall_impl; [exact Hops|]. intros op' [H1 H2]. split; [done|].
    intros q. destruct op'; cbn [asked] in *; unfold calculate_hybrid_bonus in *; rewrite Hp1; apply H2.
Qed.

Lemma rate_limit_ok n c h x :
  get_last_issuance_time n h = Some x →
  min_seconds_between_issuance (policy h) <= u64 (u64 (ticks c) - x) → check_rate_limit n c h = true.
Proof. unfold get_last_issuance_time, check_rate_limit. intros -> ?. by apply Z.leb_le. Qed.

(** ** Properties *)

(** After any requests the coordinator's books are those of the records it has issued: the
    history of a node is its records in order, the counts per epoch, the total and the
    counts per method are sums over them (as far as their width goes), the time of the
    last issuance is that of the last record, and every record validates. *)
Theorem issuance_log ops rs h :
  coordinator_run ops new_coordinator = Ok (rs, h) → reflects rs h.
Proof. intros E. by apply (coordinator_run_reflects ops [] _ rs h E), reflects_new. Qed.

(** C32: whatever requests a coordinator with the default policy serves, as long as
    none of them asks for so many keys that the sum wraps, no node gets more than ten
    keys in an epoch; but the sum is taken in 32 bits: a request for 2 ^ 32 less what
    the node has got passes the limit, is issued and sets its count back to zero. *)
Theorem epoch_limit ops rs h :
  coordinator_run ops new_coordinator = Ok (rs, h) →
  (Forall (modest new_coordinator) ops →
   ∀ n ep, 0 <= keys_in (in_epoch n ep rs) <= max_keys_per_epoch default_policy) ∧
  ∀ n sol k c, check_rate_limit n c h = true → sol_difficulty sol = 0 →
    0 <= max_keys_per_epoch (policy h) →
    let ep := current_epoch (seconds c) in
    let count := 2 ^ 32 - get_keys_issued_in_epoch n ep h in
    ∃ r, request_keys_via_pow n sol k count c h = (Some r, record_issuance r h) ∧
      hr_key_count r = count ∧ get_keys_issued_in_epoch n ep (record_issuance r h) = 0.
Proof.
  intros E. split.
  - intros Hm. destruct (coordinator_run_limit ops [] new_coordinator rs h E reflects_new Hm)
      as [Hw Hp]; [done|by intros n ep|]. cbn [app] in Hw. intros n ep. specialize (Hw n ep).
    by rewrite Hp in Hw.
  - intros n sol k c Hc Hs Hmax ep count. unfold request_keys_via_pow, can_issue_keys. fold ep.
    assert (u32 (get_keys_issued_in_epoch n ep h + count) = 0) as Hz.
    { unfold count. replace (_ + (_ - _)) with (1 * 2 ^ 32) by lia. by apply Z.mod_mul. }
    rewrite Hz, (proj2 (Z.ltb_ge _ _)), Hc, no_difficulty by done. cbn [negb].
    eexists. split; [reflexivity|]. split; [done|]. unfold get_keys_issued_in_epoch at 1.
    unfold record_issuance. cbn. rewrite at_or_insert_pair, decide_True by done. exact Hz.
Qed.

(** A solution is only held against the difficulty it claims itself: one that claims none
    is refused by the verifier for every puzzle, and yet brings keys whenever the limits
    allow, alone or combined with a contribution score of any size, in records that
    validate. *)
Theorem claimed_work_only sol :
  pow_solution_meets_claimed_difficulty sol =
    meets_difficulty (solution_hash sol) (sol_difficulty sol) ∧
  (sol_difficulty sol = 0 →
   (∀ now data epoch d, verify_solution (generate_puzzle now data epoch d) sol = Ok false) ∧
   (∀ n k q c h, can_issue_keys n q (current_epoch (seconds c)) c h = true →
    ∃ r, request_keys_via_pow n sol k q c h = (Some r, record_issuance r h) ∧
      hr_key_count r = q ∧ validate_issuance r h = true) ∧
   ∀ n k q b c pe h s, calculate_hybrid_bonus q h = Ok b →
    can_issue_keys n b (current_epoch (seconds c)) c h = true →
    calculate_node_score n (seconds c) pe = Ok s →
    ∃ r, request_keys_hybrid n sol k q c pe h = Ok (Some r, record_issuance r h) ∧
      hr_key_count r = b ∧ validate_issuance r h = true).
Proof.
  split; [|intros E; split; [|split]].
  - unfold pow_solution_meets_claimed_difficulty. by rewrite count_leading_zero_bits_eq.
  - intros now data epoch d. unfold verify_solution. rewrite E. cbn [difficulty generate_puzzle].
    rewrite (proj2 (Z.eqb_neq _ _)); [done|]. unfold MIN_DIFFICULTY. lia.
  - intros n k q c h Hc. unfold request_keys_via_pow. rewrite Hc, no_difficulty by done. cbn [negb].
    eexists. split; [reflexivity|]. split; [done|]. unfold validate_issuance.
    rewrite bool_decide_false by (intros Hn; by apply Hn). cbn. by apply no_difficulty.
  - intros n k q b c pe h s Hb Hc Hs. unfold request_keys_hybrid. rewrite Hb. cbn [mbind outcome_bind].
    rewrite Hc, no_difficulty by done. cbn [negb]. rewrite Hs. cbn [mbind outcome_bind].
    eexists. split; [reflexivity|]. split; [done|]. unfold validate_issuance.
    rewrite bool_decide_false by (intros Hn; by apply Hn). cbn. by apply no_difficulty.
Qed.

(** Two records of values in range have the same bytes, and so the same hash, when they
    agree in node, method, solution hash and nonce, total score, key type, count, time and
    epoch. The difficulty of the solution is not among these: it can be set to zero in a
    record without making it invalid. *)
Theorem seal_covers r r' :
  record_in_range r → record_in_range r' →
  (record_to_bytes r = record_to_bytes r' ↔ covered r = covered r') ∧
  ∀ h, validate_issuance r h = true → pow_solution r ≠ None →
    let easier s := MkPowSolution (solution_hash s) (nonce s) 0 (compute_time_ms s) in
    validate_issuance (MkHybridIssuanceRecord (hr_node_id r) (method r) (easier <$> pow_solution r)
      (contribution_score r) (hr_key_type r) (hr_key_count r) (issued_at r) (hr_epoch r)
      (record_hash r)) h = true.
Proof.
  intros Hr Hr'. split; [split; [by apply record_to_bytes_inj|]|].
  - unfold covered, record_to_bytes. intros [= -> -> Es Ec -> -> -> ->].
    destruct (pow_solution r) as [s|], (pow_solution r') as [s'|]; try done;
      destruct (contribution_score r) as [x|], (contribution_score r') as [x'|]; try done;
      cbn in Es, Ec; try injection Es as -> ->; try injection Ec as ->; done.
  - intros h Hv Hs easier. revert Hv. unfold validate_issuance, record_compute_hash, record_to_bytes.
    cbn. destruct (pow_solution r) as [s|]; [|done]. cbn.
    destruct (bool_decide _); [done|]. destruct (method r), (contribution_score r); try done;
      intros; by apply no_difficulty.
Qed.

(** The sixty seconds the policy asks for between issuances are sixty ticks of the system
    clock: sixty ticks after one request by work the next one passes the rate limit. *)
Theorem sixty_ticks_suffice n sol k q c h r h' q' c' :
  min_seconds_between_issuance (policy h) = 60 →
  request_keys_via_pow n sol k q c h = (Some r, h') →
  0 <= ticks c → ticks c' = ticks c + 60 → ticks c' < 2 ^ 64 →
  u32 (get_keys_issued_in_epoch n (current_epoch (seconds c')) h' + q') <=
    max_keys_per_epoch (policy h) →
  ∃ r' h'', request_keys_via_pow n sol k q' c' h' = (Some r', h'') ∧
    issued_at r' - issued_at r = 60.
Proof.
  intros Hmin E Hc Hc' Hmax Hl. unfold request_keys_via_pow in E.
  destruct (negb (can_issue_keys _ _ _ _ _)); [done|].
  destruct (pow_solution_meets_claimed_difficulty sol) eqn:Es; [|done]. injection E as <- <-.
  set (r := sealed _ _ _ _ _ _ _) in *.
  assert (Hi : issued_at r = ticks c) by (apply wrap_small; unfold in_u; lia).
  unfold request_keys_via_pow, can_issue_keys.
  rewrite (proj2 (Z.ltb_ge _ _)) by exact Hl.
  rewrite (rate_limit_ok _ _ _ (ticks c)), Es.
  - do 2 eexists. split; [reflexivity|]. rewrite Hi. cbn. rewrite wrap_small; [lia|unfold in_u; lia].
  - unfold get_last_issuance_time. cbn. rewrite lookup_insert_eq. by f_equal.
  - cbn. rewrite Hmin, Hc', !wrap_small; unfold in_u; rewrite ?wrap_small; unfold in_u; lia.
Qed.

End Runs.

(** ** Concrete inputs *)

(** A solution that claims nothing. *)
Definition free_solution : PowSolution := MkPowSolution (array_fill 32 "255"%byte) 7 0 0.

Definition at_second (s : Z) : clock := MkClock (s * 10 ^ 9) s.

Definition sample_requests : list coordinator_op :=
  [ViaPow busy_node free_solution SERVICE 3 (at_second 1200);
   ViaHybrid busy_node free_solution ROUTING 4 (at_second 1201)
     (MkPoStakeEngine (tracker_run a_busy_hour new_tracker) default_rates ∅ ∅);
   ViaPow busy_node free_solution SERVICE 2 (at_second 1202)].

Definition sample_issuance : list HybridIssuanceRecord * HybridCoordinator :=
  match coordinator_run (H := toy_crypto) sample_requests new_coordinator with
  | Ok x => x
  | _ => ([], new_coordinator)
  end.

(** Three keys, four with the bonus of half as many, and a refusal. *)
Example sample_counts : hr_key_count <$> sample_issuance.1 = [3; 6].
Proof. by vm_compute. Qed.

Lemma sample_run :
  coordinator_run (H := toy_crypto) sample_requests new_coordinator =
  Ok (sample_issuance.1, sample_issuance.2).
Proof. rewrite <- surjective_pairing. apply ok_value. vm_compute. reflexivity. Qed.

Lemma issuance_log_witness :
  reflects (H := toy_crypto) sample_issuance.1 sample_issuance.2.
Proof. apply (issuance_log (H := toy_crypto) sample_requests). apply sample_run. Defined.

Lemma epoch_limit_witness :
  ∃ r, request_keys_via_pow (H := toy_crypto) busy_node free_solution SERVICE (2 ^ 32 - 9)
         (at_second 1210) sample_issuance.2 = (Some r, record_issuance r sample_issuance.2) ∧
    hr_key_count r = 2 ^ 32 - 9.
Proof.
  destruct (epoch_limit (H := toy_crypto) sample_requests _ _ sample_run) as [_ Hw].
  assert (E : get_keys_issued_in_epoch busy_node (current_epoch (seconds (at_second 1210)))
                sample_issuance.2 = 9) by (vm_compute; reflexivity).
  destruct (Hw busy_node free_solution SERVICE (at_second 1210)) as (r & H1 & H2 & _).
  - vm_compute. reflexivity.
  - reflexivity.
  - vm_compute. discriminate.
  - rewrite E in H1, H2. exists r. split; [exact H1|exact H2].
Defined.

Lemma claimed_work_only_witness :
  ∃ r, request_keys_via_pow (H := toy_crypto) busy_node free_solution SERVICE 10 (at_second 5)
         new_coordinator = (Some r, record_issuance r new_coordinator) ∧
    hr_key_count r = 10 ∧ validate_issuance (H := toy_crypto) r new_coordinator = true.
Proof.
  apply (claimed_work_only (H := toy_crypto) free_solution); [reflexivity|vm_compute; reflexivity].
Defined.

Definition sample_record : HybridIssuanceRecord :=
  sealed (H := toy_crypto) busy_node POW_ONLY (Some free_solution) None SERVICE 3 (at_second 1200).

Lemma sample_record_in_range : record_in_range sample_record.
Proof.
  unfold record_in_range. split; [|split; [|split; [|split]]].
  1-3: by vm_compute.
  - intros s E. vm_compute in E. injection E as <-. by vm_compute.
  - intros s E. vm_compute in E. discriminate.
Qed.

Lemma seal_covers_witness :
  record_to_bytes sample_record = record_to_bytes sample_record ↔
  covered sample_record = covered sample_record.
Proof.
  apply (seal_covers (H := toy_crypto)); apply sample_record_in_range.
Defined.

Lemma sixty_ticks_suffice_witness :
  ∃ r' h'', request_keys_via_pow (H := toy_crypto) busy_node free_solution SERVICE 4
      (MkClock (5 * 10 ^ 9 + 60) 5)
      (request_keys_via_pow (H := toy_crypto) busy_node free_solution SERVICE 3 (at_second 5)
        new_coordinator).2 = (Some r', h'').
Proof.
  destruct (sixty_ticks_suffice (H := toy_crypto) busy_node free_solution SERVICE 3 (at_second 5)
    new_coordinator
    (sealed (H := toy_crypto) busy_node POW_ONLY (Some free_solution) None SERVICE 3 (at_second 5))
    (request_keys_via_pow (H := toy_crypto) busy_node free_solution SERVICE 3 (at_second 5)
        new_coordinator).2 4 (MkClock (5 * 10 ^ 9 + 60) 5)) as (r' & h'' & E & _);
    [reflexivity|reflexivity|cbn; lia|reflexivity|cbn; lia|vm_compute; discriminate|].
  exists r', h''. exact E.
Defined.
