(* ===== verification/Attack.v ===== *)
(** Defences: [RateLimiter], [SybilDefense], [DDoSMitigation], [ForkDetector] and
    [AttackPreventionCoordinator] of src/security/attack_prevention.hpp and
    attack_prevention.cpp.

    The clock in seconds is [now], read once per operation.  Token counts are
    binary64 ([Doubles]), scores and threat levels binary32 ([Floats]).  The
    references of the coordinator to the ledger and the reputation manager are
    never used. *)

From Stdlib Require Import Strings.Byte.
From S2P Require Import Prelude Common Crypto Pow Floats Doubles.

(** ** Rate limiting *)

Record RateLimitPolicy := MkRateLimitPolicy {
  max_requests_per_minute : Z;
  max_requests_per_hour : Z;
  burst_size : Z
}.

Definition default_rate_policy : RateLimitPolicy := MkRateLimitPolicy 60 1000 10.

Record TokenBucket := MkTokenBucket {
  tokens : float;
  last_update_time : Z;
  requests_this_minute : Z;
  requests_this_hour : Z;
  minute_window_start : Z;
  hour_window_start : Z
}.

Definition new_bucket : TokenBucket := MkTokenBucket f_zero 0 0 0 0 0.

Record RateLimiter := MkRateLimiter {
  rl_policy : RateLimitPolicy;
  buckets : gmap NodeID TokenBucket;
  total_requests : Z;
  blocked_requests : Z
}.

Definition new_rate_limiter (p : RateLimitPolicy) : RateLimiter := MkRateLimiter p ∅ 0 0.

Definition refill_tokens (p : RateLimitPolicy) (now : Z) (b : TokenBucket) : TokenBucket :=
  if last_update_time b =? 0 then
    MkTokenBucket (double_of (burst_size p)) now (requests_this_minute b) (requests_this_hour b) now
      now
  else
    let elapsed := u64 (now - last_update_time b) in
    let tokens_to_add :=
      dmul (double_of elapsed) (ddiv (double_of (max_requests_per_minute p)) (double_of 60)) in
    MkTokenBucket (fmin (dadd (tokens b) tokens_to_add) (double_of (burst_size p))) now
      (requests_this_minute b) (requests_this_hour b) (minute_window_start b) (hour_window_start b).

Definition renew_minute (now : Z) (b : TokenBucket) : TokenBucket :=
  if 60 <=? u64 (now - minute_window_start b) then
    MkTokenBucket (tokens b) (last_update_time b) 0 (requests_this_hour b) now (hour_window_start b)
  else b.

Definition renew_hour (now : Z) (b : TokenBucket) : TokenBucket :=
  if 3600 <=? u64 (now - hour_window_start b) then
    MkTokenBucket (tokens b) (last_update_time b) (requests_this_minute b) 0 (minute_window_start b)
      now
  else b.

Definition exhausted (p : RateLimitPolicy) (b : TokenBucket) : bool :=
  (max_requests_per_minute p <=? requests_this_minute b) ||
  (max_requests_per_hour p <=? requests_this_hour b) || fltb (tokens b) (double_of 1).

Definition consume (b : TokenBucket) : TokenBucket :=
  MkTokenBucket (dsub (tokens b) (double_of 1)) (last_update_time b)
    (u64 (requests_this_minute b + 1)) (u64 (requests_this_hour b + 1)) (minute_window_start b)
    (hour_window_start b).

Definition allow_request (n : NodeID) (now : Z) (l : RateLimiter) : bool * RateLimiter :=
  let p := rl_policy l in
  let b := renew_hour now (renew_minute now (refill_tokens p now (at_or new_bucket n (buckets l)))) in
  if exhausted p b then
    (false, MkRateLimiter p (<[n := b]> (buckets l)) (u64 (total_requests l + 1))
              (u64 (blocked_requests l + 1)))
  else
    (true, MkRateLimiter p (<[n := consume b]> (buckets l)) (u64 (total_requests l + 1))
             (blocked_requests l)).

Definition reset (n : NodeID) (l : RateLimiter) : RateLimiter :=
  MkRateLimiter (rl_policy l) (delete n (buckets l)) (total_requests l) (blocked_requests l).

Definition cleanup_stale_buckets (now : Z) (l : RateLimiter) : RateLimiter :=
  let to_remove :=
    (filter (λ p, 7200 < u64 (now - last_update_time p.2)) (entries (buckets l))).*1 in
  MkRateLimiter (rl_policy l) (foldl (λ m n, delete n m) (buckets l) to_remove) (total_requests l)
    (blocked_requests l).

(** ** Sybil defence *)

Record SybilDefense := MkSybilDefense {
  min_pow_difficulty : Z;
  min_reputation : Z;
  activity_log : gmap NodeID (list bytes)
}.

Definition new_sybil_defense : SybilDefense := MkSybilDefense 20 0 ∅.

(** The loop [while ((b & 0x80) == 0 && leading_zeros < difficulty)]: eight rounds at
    most, since the byte is not zero. *)
Fixpoint shift_zeros (fuel : nat) (b leading difficulty : Z) : Z :=
  match fuel with
  | O => leading
  | S fuel =>
      if (Z.land b 0x80 =? 0) && (leading <? difficulty)
      then shift_zeros fuel (u8 (Z.shiftl b 1)) (leading + 1) difficulty else leading
  end.

Fixpoint proof_zeros (l : bytes) (leading difficulty : Z) : Z :=
  match l with
  | [] => leading
  | b :: l =>
      if byte_val b =? 0 then
        if difficulty <=? leading + 8 then leading + 8 else proof_zeros l (leading + 8) difficulty
      else shift_zeros 8 (byte_val b) leading difficulty
  end.

Definition verify_pow_difficulty (pow_proof : Hash256) (difficulty : Z) : bool :=
  difficulty <=? proof_zeros (arr pow_proof) 0 difficulty.

Section Sybil.
Context `{Crypto}.

Definition validate_new_identity (n : NodeID) (pow_proof : Hash256) (d : SybilDefense) : bool :=
  if negb (verify_pow_difficulty pow_proof (min_pow_difficulty d)) then false
  else if (0 <? min_pow_difficulty d) && bool_decide (blake3 (arr pow_proof) ≠ n) then false
  else true.

End Sybil.

Definition calculate_sybil_score (n : NodeID) (connections join_time now : Z) (d : SybilDefense) :
    float :=
  let age_seconds := u64 (now - join_time) in
  let score := f_zero in
  let score := if (age_seconds <? 3600) && (20 <? connections) then fadd score (literal 5 10)
               else score in
  let score := if 100 <? connections then fadd score (literal 3 10) else score in
  let score :=
    match activity_log d !! n with
    | Some activities =>
        if (86400 <? age_seconds) && (len activities <? 10) then fadd score (literal 2 10) else score
    | None => score
    end in
  fmin score f_one.

(** The common suffix positions, counted from the end. *)
Definition same_activities (a b : list bytes) : Z :=
  len (filter (λ p, p.1 = p.2) (zip (reverse a) (reverse b))).

Definition similar (a b : list bytes) : bool :=
  let overlap := Z.min (len a) (len b) in
  (3 <=? overlap) && fgeb (fdiv (float_of (same_activities a b)) (float_of overlap)) (literal 8 10).

(** The activities of a node, when there are any. *)
Definition activities (n : NodeID) (d : SybilDefense) : option (list bytes) :=
  match activity_log d !! n with Some (x :: l) => Some (x :: l) | _ => None end.

Definition join_cluster (node : NodeID) (a : list bytes) (d : SybilDefense)
    (acc : gset NodeID * gset NodeID) (candidate : NodeID) : gset NodeID * gset NodeID :=
  let '(cluster, consumed) := acc in
  if decide (candidate = node ∨ candidate ∈ consumed) then acc
  else
    match activities candidate d with
    | None => acc
    | Some b => if similar a b then ({[candidate]} ∪ cluster, {[candidate]} ∪ consumed) else acc
    end.

Fixpoint find_groups (nodes all : list NodeID) (consumed : gset NodeID) (d : SybilDefense) :
    list (gset NodeID) :=
  match nodes with
  | [] => []
  | node :: nodes =>
      if decide (node ∈ consumed) then find_groups nodes all consumed d
      else
        match activities node d with
        | None => find_groups nodes all consumed d
        | Some a =>
            let '(cluster, consumed) :=
              foldl (join_cluster node a d) ({[node]}, {[node]} ∪ consumed) all in
            (if 2 <=? Z.of_nat (size cluster) then [cluster] else []) ++
            find_groups nodes all consumed d
        end
  end.

Definition detect_sybil_groups (nodes : list NodeID) (d : SybilDefense) : list (gset NodeID) :=
  find_groups nodes nodes ∅ d.

Definition record_node_activity (n : NodeID) (activity : bytes) (d : SybilDefense) : SybilDefense :=
  let log := at_or [] n (activity_log d) ++ [activity] in
  MkSybilDefense (min_pow_difficulty d) (min_reputation d)
    (<[n := if 100 <? len log then drop 1 log else log]> (activity_log d)).

(** ** Connections *)

Record IPConnectionInfo := MkIPConnectionInfo {
  active_connections : Z;
  ip_total_connections : Z;
  last_connection_time : Z;
  connection_timestamps : list Z
}.

Definition new_ip_info : IPConnectionInfo := MkIPConnectionInfo 0 0 0 [].

Record BlockEntry := MkBlockEntry {
  block_time : Z;
  expiry_time : Z;
  reason : bytes
}.

Record DDoSMitigation := MkDDoSMitigation {
  ip_connections : gmap bytes IPConnectionInfo;
  blocked_ips : gmap bytes BlockEntry;
  total_connections : Z;
  blocked_connections : Z
}.

Definition new_ddos : DDoSMitigation := MkDDoSMitigation ∅ ∅ 0 0.

Definition MAX_CONNECTIONS_PER_IP : Z := 10.
Definition ATTACK_THRESHOLD_CONNECTIONS_PER_MINUTE : Z := 50.

Definition is_blocked (ip : bytes) (now : Z) (d : DDoSMitigation) : bool :=
  match blocked_ips d !! ip with
  | None => false
  | Some e => now <? expiry_time e
  end.

Definition block_ip (ip : bytes) (duration_seconds now : Z) (d : DDoSMitigation) : DDoSMitigation :=
  MkDDoSMitigation (ip_connections d)
    (<[ip := MkBlockEntry now (u64 (now + duration_seconds)) (str "Rate limit exceeded")]>
       (blocked_ips d))
    (total_connections d) (blocked_connections d).

Definition count_blocked (d : DDoSMitigation) : DDoSMitigation :=
  MkDDoSMitigation (ip_connections d) (blocked_ips d) (total_connections d)
    (u64 (blocked_connections d + 1)).

Definition exceeds_connection_limit (i : IPConnectionInfo) : bool :=
  MAX_CONNECTIONS_PER_IP <=? active_connections i.

(** [ip_connections_[ip]] creates the entry it reads. *)
Definition touch_ip (ip : bytes) (d : DDoSMitigation) : DDoSMitigation :=
  MkDDoSMitigation (<[ip := at_or new_ip_info ip (ip_connections d)]> (ip_connections d))
    (blocked_ips d) (total_connections d) (blocked_connections d).

Definition allow_connection (ip : bytes) (now : Z) (d : DDoSMitigation) : bool * DDoSMitigation :=
  if is_blocked ip now d then (false, count_blocked d)
  else
    let d := touch_ip ip d in
    if exceeds_connection_limit (at_or new_ip_info ip (ip_connections d))
    then (false, count_blocked (block_ip ip 3600 now d))
    else (true, d).

Definition record_connection (ip : bytes) (now : Z) (d : DDoSMitigation) : DDoSMitigation :=
  let i := at_or new_ip_info ip (ip_connections d) in
  let ts := connection_timestamps i ++ [now] in
  MkDDoSMitigation
    (<[ip := MkIPConnectionInfo (u64 (active_connections i + 1)) (u64 (ip_total_connections i + 1)) now
               (if 100 <? len ts then drop 1 ts else ts)]> (ip_connections d))
    (blocked_ips d) (u64 (total_connections d + 1)) (blocked_connections d).

Definition close_connection (ip : bytes) (d : DDoSMitigation) : DDoSMitigation :=
  match ip_connections d !! ip with
  | Some i =>
      if 0 <? active_connections i then
        MkDDoSMitigation
          (<[ip := MkIPConnectionInfo (active_connections i - 1) (ip_total_connections i)
                     (last_connection_time i) (connection_timestamps i)]> (ip_connections d))
          (blocked_ips d) (total_connections d) (blocked_connections d)
      else d
  | None => d
  end.

Definition detect_attack_pattern (now : Z) (d : DDoSMitigation) : bool :=
  let timestamps := p ← entries (ip_connections d); connection_timestamps p.2 in
  ATTACK_THRESHOLD_CONNECTIONS_PER_MINUTE <=? len (filter (λ t, u64 (now - t) <= 60) timestamps).

Definition get_threat_level (d : DDoSMitigation) : float :=
  if decide (ip_connections d = ∅) then f_zero
  else
    let blocked_ratio := fdiv (float_of (Z.of_nat (size (blocked_ips d))))
                              (float_of (Z.of_nat (size (ip_connections d)))) in
    fmin (fmul blocked_ratio (float_of 2)) f_one.

Definition cleanup_expired_blocks (now : Z) (d : DDoSMitigation) : DDoSMitigation :=
  let to_unblock := (filter (λ p, expiry_time p.2 <= now) (entries (blocked_ips d))).*1 in
  MkDDoSMitigation (ip_connections d) (foldl (λ m ip, delete ip m) (blocked_ips d) to_unblock)
    (total_connections d) (blocked_connections d).

(** ** Identity forks *)

Record KeyRecord := MkKeyRecord {
  kr_public_key : PublicKey;
  first_seen_time : Z;
  last_seen_time : Z;
  signature_count : Z
}.

Record ForkDetector := MkForkDetector {
  node_keys : gmap NodeID (list KeyRecord);
  forked_nodes : gset NodeID
}.

Definition new_fork_detector : ForkDetector := MkForkDetector ∅ ∅.

Definition record_node_key (n : NodeID) (pk : PublicKey) (now : Z) (f : ForkDetector) : ForkDetector :=
  MkForkDetector (<[n := at_or [] n (node_keys f) ++ [MkKeyRecord pk now now 0]]> (node_keys f))
    (forked_nodes f).

Definition mark_as_forked (n : NodeID) (f : ForkDetector) : ForkDetector :=
  MkForkDetector (node_keys f) ({[n]} ∪ forked_nodes f).

Definition detect_fork (n : NodeID) (claimed : PublicKey) (now : Z) (f : ForkDetector) :
    bool * ForkDetector :=
  match node_keys f !! n with
  | None => (false, record_node_key n claimed now f)
  | Some records =>
      if existsb (λ r, bool_decide (kr_public_key r = claimed)) records then (false, f)
      else (true, mark_as_forked n f)
  end.

Definition get_detected_forks (f : ForkDetector) : list NodeID := set_elements (forked_nodes f).

(** ** The coordinator *)

Record AttackPrevention := MkAttackPrevention {
  rate_limiter : RateLimiter;
  sybil_defense : SybilDefense;
  ddos_mitigation : DDoSMitigation;
  fork_detector : ForkDetector;
  sybil_defense_enabled : bool;
  ddos_mitigation_enabled : bool;
  fork_detection_enabled : bool;
  last_cleanup_time : Z
}.

Definition new_coordinator (now : Z) : AttackPrevention :=
  MkAttackPrevention (new_rate_limiter default_rate_policy) new_sybil_defense new_ddos
    new_fork_detector true true true now.

Definition with_limiter (l : RateLimiter) (c : AttackPrevention) : AttackPrevention :=
  MkAttackPrevention l (sybil_defense c) (ddos_mitigation c) (fork_detector c)
    (sybil_defense_enabled c) (ddos_mitigation_enabled c) (fork_detection_enabled c)
    (last_cleanup_time c).

Definition with_sybil (s : SybilDefense) (c : AttackPrevention) : AttackPrevention :=
  MkAttackPrevention (rate_limiter c) s (ddos_mitigation c) (fork_detector c)
    (sybil_defense_enabled c) (ddos_mitigation_enabled c) (fork_detection_enabled c)
    (last_cleanup_time c).

Definition with_ddos (d : DDoSMitigation) (c : AttackPrevention) : AttackPrevention :=
  MkAttackPrevention (rate_limiter c) (sybil_defense c) d (fork_detector c)
    (sybil_defense_enabled c) (ddos_mitigation_enabled c) (fork_detection_enabled c)
    (last_cleanup_time c).

(** [enable_sybil_defense], [enable_ddos_mitigation] and [enable_fork_detection]. *)
Definition enable (sybil ddos forks : bool) (c : AttackPrevention) : AttackPrevention :=
  MkAttackPrevention (rate_limiter c) (sybil_defense c) (ddos_mitigation c) (fork_detector c) sybil
    ddos forks (last_cleanup_time c).

Definition validate_incoming_connection (ip : bytes) (n : NodeID) (now : Z) (c : AttackPrevention) :
    bool * AttackPrevention :=
  let '(allowed, c) :=
    if ddos_mitigation_enabled c then
      let '(b, d) := allow_connection ip now (ddos_mitigation c) in (b, with_ddos d c)
    else (true, c) in
  if negb allowed then (false, c)
  else
    (negb (fork_detection_enabled c &&
           bool_decide (n ∈ get_detected_forks (fork_detector c))), c).

Definition on_connection_established (ip : bytes) (n : NodeID) (now : Z) (c : AttackPrevention) :
    AttackPrevention :=
  if ddos_mitigation_enabled c then with_ddos (record_connection ip now (ddos_mitigation c)) c else c.

Definition on_connection_closed (ip : bytes) (n : NodeID) (c : AttackPrevention) : AttackPrevention :=
  if ddos_mitigation_enabled c then with_ddos (close_connection ip (ddos_mitigation c)) c else c.

Definition validate_request (n : NodeID) (request_type : bytes) (now : Z) (c : AttackPrevention) :
    bool * AttackPrevention :=
  let '(allowed, l) := allow_request n now (rate_limiter c) in
  let c := with_limiter l c in
  if negb allowed then (false, c)
  else if sybil_defense_enabled c
  then (true, with_sybil (record_node_activity n request_type (sybil_defense c)) c)
  else (true, c).

Definition is_under_attack (now : Z) (c : AttackPrevention) : bool :=
  if ddos_mitigation_enabled c then detect_attack_pattern now (ddos_mitigation c) else false.

Definition get_overall_threat_level (c : AttackPrevention) : float :=
  if ddos_mitigation_enabled c then
    let t := get_threat_level (ddos_mitigation c) in if fltb f_zero t then t else f_zero
  else f_zero.

Definition cleanup (now : Z) (c : AttackPrevention) : AttackPrevention :=
  with_ddos (cleanup_expired_blocks now (ddos_mitigation c))
    (with_limiter (cleanup_stale_buckets now (rate_limiter c)) c).

(** The attack check only logs. *)
Definition tick (now : Z) (c : AttackPrevention) : AttackPrevention :=
  if 300 <=? u64 (now - last_cleanup_time c) then
    let c := cleanup now c in
    MkAttackPrevention (rate_limiter c) (sybil_defense c) (ddos_mitigation c) (fork_detector c)
      (sybil_defense_enabled c) (ddos_mitigation_enabled c) (fork_detection_enabled c) now
  else c.

Definition set_rate_limit_policy (p : RateLimitPolicy) (c : AttackPrevention) : AttackPrevention :=
  with_limiter (new_rate_limiter p) c.

Record Statistics := MkStatistics {
  st_total_connections : Z;
  st_blocked_connections : Z;
  st_total_requests : Z;
  st_blocked_requests : Z;
  st_blocked_ips : Z;
  st_detected_forks : Z;
  threat_level : float
}.

Definition get_statistics (c : AttackPrevention) : Statistics :=
  MkStatistics (total_connections (ddos_mitigation c)) (blocked_connections (ddos_mitigation c))
    (total_requests (rate_limiter c)) (blocked_requests (rate_limiter c))
    (Z.of_nat (size (blocked_ips (ddos_mitigation c))))
    (Z.of_nat (size (forked_nodes (fork_detector c)))) (get_overall_threat_level c).

Section Validation.
Context `{Crypto}.

Definition verify_signature_consistency (n : NodeID) (message : bytes) (s : Signature)
    (f : ForkDetector) : bool :=
  match node_keys f !! n with
  | None => true
  | Some records => existsb (λ r, Ed25519.verify message s (kr_public_key r)) records
  end.

Definition validate_identity (n : NodeID) (pow_proof : Hash256) (c : AttackPrevention) : bool :=
  if negb (sybil_defense_enabled c) then true
  else validate_new_identity n pow_proof (sybil_defense c).

Definition validate_signature (n : NodeID) (message : bytes) (s : Signature) (c : AttackPrevention) :
    bool :=
  if negb (fork_detection_enabled c) then true
  else verify_signature_consistency n message s (fork_detector c).

End Validation.

(** The calls of a coordinator that change its state. *)
Inductive call :=
| Incoming (ip : bytes) (n : NodeID)
| Established (ip : bytes) (n : NodeID)
| Closed (ip : bytes) (n : NodeID)
| Request (n : NodeID) (request_type : bytes)
| Tick
| SetRatePolicy (p : RateLimitPolicy)
| Enable (sybil ddos forks : bool).

(** The answer, [true] where there is none, and the new state. *)
Definition serve (now : Z) (x : call) (c : AttackPrevention) : bool * AttackPrevention :=
  match x with
  | Incoming ip n => validate_incoming_connection ip n now c
  | Established ip n => (true, on_connection_established ip n now c)
  | Closed ip n => (true, on_connection_closed ip n c)
  | Request n t => validate_request n t now c
  | Tick => (true, tick now c)
  | SetRatePolicy p => (true, set_rate_limit_policy p c)
  | Enable s d f => (true, enable s d f c)
  end.

(** The answers, in order, and the final state. *)
Fixpoint serve_all (calls : list (Z * call)) (c : AttackPrevention) : list bool * AttackPrevention :=
  match calls with
  | [] => ([], c)
  | p :: calls =>
      let '(b, c) := serve p.1 p.2 c in
      let '(bs, c) := serve_all calls c in
      (b :: bs, c)
  end.

(** ** The token bucket in whole tokens *)

(** With the default policy a bucket holds a whole number [z] of tokens. *)
Record bucket_ok (now z : Z) (b : TokenBucket) : Prop := {
  bo_tokens : tokens b = double_of z;
  bo_level : 0 <= z <= 10;
  bo_update : 0 < last_update_time b <= now;
  bo_minute : 0 <= requests_this_minute b <= 60 ∧ 0 < minute_window_start b <= now;
  bo_hour : 0 <= requests_this_hour b <= 1000 ∧ 0 < hour_window_start b <= now
}.

(** The tokens a node would find at time [now]. *)
Definition credit (now : Z) (b : option TokenBucket) (k : Z) : Prop :=
  match b with
  | None => k = 10
  | Some b => ∃ z, bucket_ok now z b ∧ k = Z.min 10 (z + (now - last_update_time b))
  end.

Lemma whole_range z : 0 <= z <= 10 → in_range z.
Proof. unfold in_range. lia. Qed.

(** The default rate is one token a second. *)
Lemma one_per_second : ddiv (double_of 60) (double_of 60) = double_of 1.
Proof. by vm_compute. Qed.

Lemma refill_whole z e :
  0 <= z <= 10 → 0 <= e < 2 ^ 52 →
  fmin (dadd (double_of z) (dmul (double_of e) (ddiv (double_of 60) (double_of 60)))) (double_of 10) =
  double_of (Z.min 10 (z + e)).
Proof.
  intros Hz He. rewrite one_per_second, dmul_one by (unfold in_range; lia).
  rewrite dadd_exact, fmin_exact by (unfold in_range; lia). f_equal. lia.
Qed.

Lemma elapsed_exact now x : 0 <= x <= now → now < 2 ^ 52 → u64 (now - x) = now - x.
Proof. intros. apply wrap_small. unfold in_u. lia. Qed.

Lemma refill_credit now n (m : gmap NodeID TokenBucket) k :
  0 < now < 2 ^ 52 → credit now (m !! n) k →
  let b := refill_tokens default_rate_policy now (at_or new_bucket n m) in
  bucket_ok now k b ∧ last_update_time b = now ∧
  match m !! n with
  | None => requests_this_minute b = 0 ∧ requests_this_hour b = 0 ∧ minute_window_start b = now ∧
      hour_window_start b = now
  | Some b0 => requests_this_minute b = requests_this_minute b0 ∧
      requests_this_hour b = requests_this_hour b0 ∧
      minute_window_start b = minute_window_start b0 ∧ hour_window_start b = hour_window_start b0
  end.
Proof.
  intros Hn Hk. unfold at_or. destruct (m !! n) as [b|] eqn:E; cbn [from_option id credit] in *.
  - destruct Hk as (z & [H1 H2 H3 H4 H5] & ->). unfold refill_tokens.
    rewrite (proj2 (Z.eqb_neq _ _)), elapsed_exact by lia.
    cbn [max_requests_per_minute burst_size default_rate_policy].
    rewrite H1, refill_whole by lia. cbn. split; [|done].
    split; cbn; try done; lia.
  - subst k. cbn. split; [|done]. split; cbn; done || lia.
Qed.

Lemma renew_ok now z b :
  bucket_ok now z b → last_update_time b = now → now < 2 ^ 52 →
  let b' := renew_hour now (renew_minute now b) in
  bucket_ok now z b' ∧ last_update_time b' = now ∧
  requests_this_minute b' = (if 60 <=? now - minute_window_start b then 0 else requests_this_minute b) ∧
  minute_window_start b' = (if 60 <=? now - minute_window_start b then now else minute_window_start b) ∧
  requests_this_hour b' = (if 3600 <=? now - hour_window_start b then 0 else requests_this_hour b) ∧
  hour_window_start b' = (if 3600 <=? now - hour_window_start b then now else hour_window_start b).
Proof.
  intros [H1 H2 H3 H4 H5] Hl Hn. unfold renew_hour, renew_minute.
  rewrite (elapsed_exact now (minute_window_start b)) by lia.
  destruct (60 <=? now - minute_window_start b); cbn [hour_window_start];
    rewrite (elapsed_exact now (hour_window_start b)) by lia;
    destruct (3600 <=? now - hour_window_start b); cbn; (split; [|done]); split; cbn; done || lia.
Qed.

(** What one request does, in whole tokens: it is granted exactly when a token is left
    and neither window is full. *)
Lemma allow_request_whole now n l k :
  rl_policy l = default_rate_policy → 0 < now < 2 ^ 52 → credit now (buckets l !! n) k →
  ∃ b, let '(r, l') := allow_request n now l in
    rl_policy l' = default_rate_policy ∧
    b = renew_hour now (renew_minute now
          (refill_tokens default_rate_policy now (at_or new_bucket n (buckets l)))) ∧
    bucket_ok now k b ∧ last_update_time b = now ∧
    (r = true ↔ 1 <= k ∧ requests_this_minute b < 60 ∧ requests_this_hour b < 1000) ∧
    buckets l' = <[n := if r then consume b else b]> (buckets l) ∧
    (r = true → bucket_ok now (k - 1) (consume b)).
Proof.
  intros Hp Hn Hk. destruct (refill_credit now n (buckets l) k Hn Hk) as (Hb & Hl & _).
  destruct (renew_ok now k _ Hb Hl ltac:(lia)) as (Hb' & Hl' & _).
  exists (renew_hour now (renew_minute now
            (refill_tokens default_rate_policy now (at_or new_bucket n (buckets l))))).
  unfold allow_request. rewrite Hp. set (b := renew_hour _ _) in *.
  assert (Hex : exhausted default_rate_policy b = false ↔
    1 <= k ∧ requests_this_minute b < 60 ∧ requests_this_hour b < 1000).
  { unfold exhausted. cbn [max_requests_per_minute max_requests_per_hour default_rate_policy].
    destruct Hb' as [H1 H2 _ _ _]. rewrite H1, fltb_exact by (apply whole_range; lia).
    rewrite !orb_false_iff, !Z.leb_gt, Z.ltb_ge. lia. }
  generalize dependent b. intros b Hb' Hl' Hex.
  destruct (exhausted default_rate_policy b); cbn [buckets rl_policy];
    (split; [done|]); (split; [done|]); (split; [done|]); (split; [done|]);
    (split; [|split; [done|]]); try done.
  - split; [done|]. intros H%Hex. done.
  - split; [|done]. intros _. by apply Hex.
  - intros _. destruct Hb' as [H1 H2 H3 H4 H5].
    destruct (proj1 Hex eq_refl) as (? & ? & ?).
    split; cbn; [|lia|done|rewrite wrap_small by (unfold in_u; lia); lia..].
    rewrite H1. apply (dsub_exact k 1); [lia|apply whole_range; lia].
Qed.

Lemma credit_later now now' b k :
  now <= now' → credit now b k → ∃ k', credit now' b k' ∧ k <= k' <= k + (now' - now).
Proof.
  intros Hn. destruct b as [b|]; cbn; [|intros ->; exists 10; lia].
  intros (z & [H1 H2 H3 H4 H5] & ->). exists (Z.min 10 (z + (now' - last_update_time b))).
  split; [|lia]. exists z. split; [|done]. split; (done || lia).
Qed.

(** Cleaning up takes only full buckets away. *)
Lemma delete_all_lookup (ns : list NodeID) (m : gmap NodeID TokenBucket) n :
  foldl (λ m n, delete n m) m ns !! n = if decide (n ∈ ns) then None else m !! n.
Proof.
  revert m. induction ns as [|x ns IH]; intros m; cbn [foldl]; [by destruct (decide _) as [H|]; [inv H|]|].
  rewrite IH. destruct (decide (n ∈ ns)), (decide (n ∈ x :: ns)) as [H|H]; try done.
  - set_solver.
  - apply elem_of_cons in H as [->|]; [by rewrite lookup_delete_eq|done].
  - rewrite lookup_delete_ne; [done|set_solver].
Qed.

Lemma cleanup_credit now n l k :
  0 < now < 2 ^ 52 → credit now (buckets l !! n) k →
  credit now (buckets (cleanup_stale_buckets now l) !! n) k ∧
  (buckets (cleanup_stale_buckets now l) !! n = buckets l !! n ∨
   buckets (cleanup_stale_buckets now l) !! n = None ∧ k = 10).
Proof.
  intros Hn Hk. unfold cleanup_stale_buckets. cbn [buckets]. rewrite delete_all_lookup.
  destruct (decide _) as [Hin|]; [|by auto]. cbn.
  apply list_elem_of_fmap in Hin as ([n' b] & -> & [Hage He%elem_of_entries]%list_elem_of_filter).
  cbn in Hage, He. cbn [fst] in *. rewrite He in Hk. destruct Hk as (z & [H1 H2 H3 H4 H5] & ->).
  rewrite elapsed_exact in Hage by lia. split; [lia|]. right. split; [done|lia].
Qed.

(** ** Requests served *)

(** The call is a request of [n], and it is granted. *)
Definition granted (n : NodeID) (x : call) (answer : bool) : Z :=
  match x with
  | Request n' _ => if decide (n' = n) then (if answer then 1 else 0) else 0
  | _ => 0
  end.

Fixpoint grants (n : NodeID) (calls : list (Z * call)) (answers : list bool) : Z :=
  match calls, answers with
  | p :: calls, b :: answers => granted n p.2 b + grants n calls answers
  | _, _ => 0
  end.

Definition keeps_policy (x : call) : Prop := match x with SetRatePolicy _ => False | _ => True end.

Definition bucket_of (n : NodeID) (c : AttackPrevention) : option TokenBucket :=
  buckets (rate_limiter c) !! n.

Definition default_rates (c : AttackPrevention) : Prop :=
  rl_policy (rate_limiter c) = default_rate_policy.

Lemma credit_now now n n' l r l' k k' :
  n ≠ n' → buckets l' = <[n' := r]> (buckets l) → credit now (buckets l !! n) k →
  k = k' → credit now (buckets l' !! n) k'.
Proof. intros Hn -> Hk <-. by rewrite lookup_insert_ne. Qed.

Lemma rate_limiter_same now x c :
  match x with Request _ _ | Tick | SetRatePolicy _ => True
  | _ => rate_limiter (serve now x c).2 = rate_limiter c end.
Proof.
  destruct x; try done; cbn; unfold validate_incoming_connection, on_connection_established,
    on_connection_closed; destruct (ddos_mitigation_enabled c); try done.
  - destruct (allow_connection _ _ _) as [[] d]; done.
Qed.

Lemma tick_limiter now c :
  rate_limiter (tick now c) = rate_limiter c ∨
  rate_limiter (tick now c) = cleanup_stale_buckets now (rate_limiter c).
Proof. unfold tick. destruct (300 <=? _); [by right|by left]. Qed.

Lemma request_limiter n t now c :
  (serve now (Request n t) c).1 = (allow_request n now (rate_limiter c)).1 ∧
  rate_limiter (serve now (Request n t) c).2 = (allow_request n now (rate_limiter c)).2.
Proof.
  cbn [serve]. unfold validate_request. destruct (allow_request n now (rate_limiter c)) as [[] l];
    cbn; [|done]. by destruct (sybil_defense_enabled c).
Qed.

Lemma serve_credit now x c n k :
  keeps_policy x → 0 < now < 2 ^ 52 → default_rates c → credit now (bucket_of n c) k →
  let c' := (serve now x c).2 in
  default_rates c' ∧ credit now (bucket_of n c') (k - granted n x (serve now x c).1).
Proof.
  intros Hx Hn Hp Hk. unfold default_rates, bucket_of in *. cbn zeta.
  pose proof (rate_limiter_same now x c) as Hs.
  destruct x as [| | |n' t| | |]; cbn [granted]; rewrite ?Z.sub_0_r; try (by rewrite Hs); try done; clear Hs.
  - destruct (request_limiter n' t now c) as [-> ->]. destruct (decide (n' = n)) as [->|Hne].
    + destruct (allow_request_whole now n _ k Hp Hn Hk) as (b & Hw).
      destruct (allow_request n now (rate_limiter c)) as [r l']. cbn [fst snd].
      destruct Hw as (Hp' & _ & Hb & Hl & Hr & Hb' & Hc). split; [done|].
      rewrite Hb', lookup_insert_eq. cbn [credit]. destruct r.
      * exists (k - 1). split; [by apply Hc|]. cbn. rewrite Hl. destruct (Hc eq_refl) as [_ H _ _ _]. lia.
      * exists k. split; [done|]. rewrite Hl. destruct Hb as [_ H _ _ _]. lia.
    + rewrite Z.sub_0_r. destruct (decide (is_Some (buckets (rate_limiter c) !! n'))).
      all: unfold allow_request; rewrite Hp; destruct (exhausted _ _); cbn; (split; [done|]);
        by rewrite lookup_insert_ne.
  - cbn [serve snd]. destruct (tick_limiter now c) as [->| ->]; [done|]. split; [done|].
    by apply cleanup_credit.
Qed.

Lemma serve_all_credit calls lo hi c n k :
  Forall (λ p, keeps_policy p.2) calls → ascending lo hi calls → 0 < lo → hi < 2 ^ 52 →
  default_rates c → credit lo (bucket_of n c) k →
  let r := serve_all calls c in
  default_rates r.2 ∧ ∃ k', credit hi (bucket_of n r.2) k' ∧ 0 <= k' ∧
    grants n calls r.1 + k' <= k + (hi - lo).
Proof.
  intros Hc. revert lo c k. induction Hc as [|p calls Hp _ IH]; cbn; intros lo c k Ha Hlo Hhi Hd Hk.
  - split; [done|]. destruct (credit_later lo hi _ k Ha Hk) as (k' & Hk' & ?). exists k'.
    split; [done|]. split; [|lia]. destruct (bucket_of n c); cbn in Hk'; [|lia].
    destruct Hk' as (z & [_ ? ? _ _] & ->). lia.
  - destruct Ha as [H1 H2]. pose proof (ascending_le _ _ _ H2).
    destruct (credit_later lo p.1 _ k H1 Hk) as (k1 & Hk1 & ?).
    destruct (serve_credit p.1 p.2 c n k1 Hp ltac:(lia) Hd Hk1) as [Hd' Hk'].
    destruct (serve p.1 p.2 c) as [b c'] eqn:E. cbn [fst snd] in *.
    destruct (IH p.1 c' _ H2 ltac:(lia) Hhi Hd' Hk') as (Hd2 & k2 & Hk2 & ? & ?).
    destruct (serve_all calls c') as [bs c2]. cbn [fst snd grants] in *.
    split; [done|]. exists k2. split; [done|]. split; [done|]. lia.
Qed.

Lemma serve_all_app calls calls' c :
  let r := serve_all calls c in let r' := serve_all calls' r.2 in
  serve_all (calls ++ calls') c = (r.1 ++ r'.1, r'.2).
Proof.
  revert c. induction calls as [|p calls IH]; intros c; cbn; [by destruct (serve_all calls' c)|].
  destruct (serve p.1 p.2 c) as [b c1]. rewrite IH. by destruct (serve_all calls c1).
Qed.

(** ** Proofs of identity *)

Lemma shift_zeros_ge fuel b x d : d <= x → shift_zeros fuel b x d = x.
Proof.
  intros Hd. destruct fuel; cbn; [done|]. rewrite (proj2 (Z.ltb_ge _ _)) by done. by rewrite andb_false_r.
Qed.

(** Counting from [x] is counting from zero, up to the difficulty. *)
Lemma shift_zeros_from fuel b x d :
  0 <= x → shift_zeros fuel b x d = x + shift_zeros fuel b 0 (d - x).
Proof.
  revert b x d. induction fuel as [|fuel IH]; intros b x d Hx; cbn [shift_zeros]; [lia|].
  replace (0 <? d - x) with (x <? d) by (destruct (Z.ltb_spec x d), (Z.ltb_spec 0 (d - x)); lia).
  destruct (_ && _); [|lia]. rewrite (IH _ (x + 1)), (IH _ (0 + 1)) by lia.
  replace (d - x - (0 + 1)) with (d - (x + 1)) by lia. lia.
Qed.

(** In a byte other than zero the loop counts what [Pow] counts, capped. *)
Lemma shift_zeros_byte b d :
  byte_val b ≠ 0 → 0 <= d → shift_zeros 8 (byte_val b) 0 d = Z.min d (mask_zeros 9 (byte_val b) 0x80).
Proof.
  intros Hb Hd. destruct (decide (d <= 8)) as [H8|H8].
  - assert (∃ k, d = Z.of_nat k ∧ (k <= 8)%nat) as (k & -> & Hk) by (exists (Z.to_nat d); lia).
    do 9 (destruct k as [|k]; [by destruct b|]). lia.
  - assert (H : ∀ f x y, 0 <= x → x + Z.of_nat f <= 8 →
      shift_zeros f y x d = shift_zeros f y x 8).
    { intros f. induction f as [|f IH]; intros x y Hx Hf; cbn [shift_zeros]; [done|].
      rewrite (proj2 (Z.ltb_lt x d)), (proj2 (Z.ltb_lt x 8)) by lia.
      destruct (Z.land y 128 =? 0); cbn [andb]; [|done]. apply IH; lia. }
    rewrite H by lia. rewrite Z.min_r; [by destruct b|].
    destruct b; vm_compute mask_zeros; lia.
Qed.

Lemma proof_zeros_spec l x d :
  0 <= x → (d <=? proof_zeros l x d) = (d <=? x + leading_zeros l).
Proof.
  revert x. induction l as [|b l IH]; intros x Hx; cbn [proof_zeros leading_zeros]; [by rewrite Z.add_0_r|].
  pose proof (leading_zeros_range l). destruct (Z.eqb_spec (byte_val b) 0) as [E|E].
  - destruct (Z.leb_spec d (x + 8)) as [H8|H8]; [|rewrite IH by lia; f_equal; lia].
    rewrite !(proj2 (Z.leb_le _ _)) by lia. done.
  - rewrite shift_zeros_from by done. destruct (decide (0 <= d - x)).
    + rewrite shift_zeros_byte by done.
      destruct (Z.leb_spec d (x + mask_zeros 9 (byte_val b) 128)) as [H1|H1];
        [apply Z.leb_le|apply Z.leb_gt]; lia.
    + rewrite shift_zeros_ge by lia. rewrite !(proj2 (Z.leb_le _ _)); [done| |lia].
      assert (0 <= mask_zeros 9 (byte_val b) 128) by (destruct b; vm_compute mask_zeros; lia). lia.
Qed.

Lemma verify_pow_difficulty_eq h d : verify_pow_difficulty h d = meets_difficulty h d.
Proof. unfold verify_pow_difficulty, meets_difficulty, count_leading_zeros. by rewrite proof_zeros_spec. Qed.

(** ** Properties *)

(** C34: the token bucket in binary64 is one of whole tokens: whatever the coordinator
    is asked for in between, clean-ups of stale buckets included, the requests of one
    node let through in a stretch of time are at most the burst size plus one for each
    second of it, with the default policy. *)
Theorem request_rate n pre calls t0 lo hi :
  0 < t0 → hi < 2 ^ 52 → ascending t0 lo pre → ascending lo hi calls →
  Forall (λ p, keeps_policy p.2) (pre ++ calls) →
  let c := (serve_all pre (new_coordinator t0)).2 in
  grants n calls (serve_all calls c).1 <= burst_size default_rate_policy + (hi - lo).
Proof.
  intros Ht Hhi Hpre Hcalls [Hp Hc]%Forall_app. cbn zeta.
  pose proof (ascending_le _ _ _ Hpre). pose proof (ascending_le _ _ _ Hcalls).
  destruct (serve_all_credit pre t0 lo (new_coordinator t0) n 10 Hp Hpre Ht ltac:(lia) eq_refl)
    as (Hd & k & Hk & Hk0 & _).
  { unfold bucket_of. cbn. by rewrite lookup_empty. }
  destruct (serve_all_credit calls lo hi _ n k Hc Hcalls ltac:(lia) Hhi Hd Hk)
    as (_ & k' & _ & Hk' & Hg).
  assert (k <= 10); [|cbn; lia]. destruct (bucket_of n _); cbn in Hk; [|lia].
  destruct Hk as (z & _ & ->). lia.
Qed.

Section Identities.
Context `{Crypto}.

(** What [validate_new_identity] asks of a newcomer is a bit string with enough leading
    zeros whose hash is its identifier. The string is not itself a hash, so any 29 bytes
    after three zero bytes are a proof, and give an identity that a new coordinator
    accepts: nothing has to be searched for. *)
Theorem identity_proof_is_free :
  (∀ n p d, validate_new_identity n p d = true ↔
     meets_difficulty p (min_pow_difficulty d) = true ∧ (0 < min_pow_difficulty d → blake3 (arr p) = n)) ∧
  ∀ rest : bytes, length rest = 29%nat →
    ∃ p : Hash256, arr p = replicate 3 "000"%byte ++ rest ∧
      ∀ t0, validate_identity (blake3 (arr p)) p (new_coordinator t0) = true.
Proof.
  assert (Hiff : ∀ n p d, validate_new_identity n p d = true ↔
     meets_difficulty p (min_pow_difficulty d) = true ∧
     (0 < min_pow_difficulty d → blake3 (arr p) = n)).
  { intros n p d. unfold validate_new_identity. rewrite verify_pow_difficulty_eq.
    destruct (meets_difficulty p _); cbn; [|by split; [|intros [? _]]].
    destruct (Z.ltb_spec 0 (min_pow_difficulty d)); cbn; [|split; [split; [done|lia]|done]].
    case_bool_decide as E; cbn.
    - split; [done|]. intros [_ E']. exfalso. apply E. by apply E'.
    - split; [|done]. intros _. split; [done|]. intros _.
      destruct (decide (blake3 (arr p) = n)); [done|]. by destruct E. }
  split; [exact Hiff|]. intros rest Hr.
  destruct (to_array_is_Some 32 (replicate 3 "000"%byte ++ rest)) as [p Hp].
  { rewrite length_app, length_replicate. lia. }
  apply to_array_Some in Hp. exists p. split; [done|]. intros t0. cbn. apply Hiff. split; [|done].
  unfold meets_difficulty, count_leading_zeros. rewrite Hp. cbn [replicate app leading_zeros].
  change (byte_val "000"%byte =? 0) with true. cbn [min_pow_difficulty new_sybil_defense].
  pose proof (leading_zeros_range rest). apply Z.leb_le. lia.
Qed.

End Identities.

(** *** Connections *)

(** A connection that is asked for and, if allowed, established at once. *)
Definition connect (ip : bytes) (now : Z) (d : DDoSMitigation) : DDoSMitigation :=
  let '(ok, d) := allow_connection ip now d in if ok then record_connection ip now d else d.

Inductive ddos_op :=
| Connect (ip : bytes)
| Close (ip : bytes)
| Block (ip : bytes) (seconds : Z)
| CleanBlocks.

Definition ddos_step (now : Z) (op : ddos_op) : DDoSMitigation → DDoSMitigation :=
  match op with
  | Connect ip => connect ip now
  | Close ip => close_connection ip
  | Block ip s => block_ip ip s now
  | CleanBlocks => cleanup_expired_blocks now
  end.

Definition ddos_run (ops : list (Z * ddos_op)) (d : DDoSMitigation) : DDoSMitigation :=
  foldl (λ d p, ddos_step p.1 p.2 d) d ops.

Definition limited (d : DDoSMitigation) : Prop :=
  ∀ ip i, ip_connections d !! ip = Some i → 0 <= active_connections i <= MAX_CONNECTIONS_PER_IP.

Lemma limited_insert ip i d :
  limited d → 0 <= active_connections i <= MAX_CONNECTIONS_PER_IP →
  ∀ ip' i', <[ip := i]> (ip_connections d) !! ip' = Some i' →
    0 <= active_connections i' <= MAX_CONNECTIONS_PER_IP.
Proof.
  intros Hd Hi ip' i'. destruct (decide (ip = ip')) as [<-|].
  - rewrite lookup_insert_eq. by intros [= <-].
  - rewrite lookup_insert_ne by done. apply Hd.
Qed.

Lemma limited_at ip d :
  limited d → 0 <= active_connections (at_or new_ip_info ip (ip_connections d)) <= MAX_CONNECTIONS_PER_IP.
Proof.
  intros Hd. unfold at_or. destruct (ip_connections d !! ip) as [i|] eqn:E; [by apply (Hd ip)|].
  by vm_compute.
Qed.

Lemma limited_step now op d : limited d → limited (ddos_step now op d).
Proof.
  intros Hd. pose proof (λ ip, limited_at ip d Hd) as Hat. unfold MAX_CONNECTIONS_PER_IP in *.
  destruct op as [ip|ip|ip s|]; cbn [ddos_step]; try exact Hd.
  - unfold connect, allow_connection. destruct (is_blocked ip now d); [exact Hd|].
    assert (Ht : limited (touch_ip ip d)) by (intros ip' i'; by apply limited_insert; [|apply Hat]).
    destruct (exceeds_connection_limit _) eqn:Ex; [exact Ht|].
    unfold exceeds_connection_limit, MAX_CONNECTIONS_PER_IP in Ex. bool_to_prop.
    intros ip' i'. unfold record_connection. cbn [ip_connections]. apply limited_insert; [exact Ht|].
    cbn [active_connections]. pose proof (limited_at ip _ Ht). unfold MAX_CONNECTIONS_PER_IP in *.
    rewrite wrap_small; unfold in_u; lia.
  - unfold close_connection. destruct (ip_connections d !! ip) as [i|] eqn:E; [|exact Hd].
    destruct (Z.ltb_spec 0 (active_connections i)); [|exact Hd].
    intros ip' i'. apply limited_insert; [exact Hd|]. cbn. specialize (Hd ip i E).
    unfold MAX_CONNECTIONS_PER_IP in *. lia.
Qed.

Lemma limited_run ops d : limited d → limited (ddos_run ops d).
Proof. revert d. induction ops as [|p ops IH]; cbn; intros d Hd; [done|]. by apply IH, limited_step. Qed.

(** Along any sequence of connections, closings, blocks and clean-ups an address never has
    more than [MAX_CONNECTIONS_PER_IP] connections, if each one that is allowed is
    recorded before the next is asked for; an address that has them is refused and blocked
    for exactly an hour; but [allow_connection] itself counts nothing: asked again before
    the connection is recorded it allows any number of them. *)
Theorem connection_limit :
  (∀ ops ip i, ip_connections (ddos_run ops new_ddos) !! ip = Some i →
     0 <= active_connections i <= MAX_CONNECTIONS_PER_IP) ∧
  (∀ ip now d, 0 <= now → now + 3600 < 2 ^ 64 →
     MAX_CONNECTIONS_PER_IP <= active_connections (at_or new_ip_info ip (ip_connections d)) →
     (allow_connection ip now d).1 = false ∧
     (is_blocked ip now d = false → ∀ t, now <= t →
        is_blocked ip t (allow_connection ip now d).2 = (t <? now + 3600))) ∧
  (∀ ip now d d', allow_connection ip now d = (true, d') →
     ∀ k, Nat.iter k (λ x, (x.1 && (allow_connection ip now x.2).1, (allow_connection ip now x.2).2))
            (true, d') = (true, d')).
Proof.
  split; [|split].
  - intros ops ip i. apply limited_run. intros ip' i'. cbn. by rewrite lookup_empty.
  - intros ip now d Hn Hm Ha. unfold allow_connection. destruct (is_blocked ip now d); [done|].
    assert (at_or new_ip_info ip (ip_connections (touch_ip ip d)) =
            at_or new_ip_info ip (ip_connections d)) as ->.
    { unfold touch_ip. cbn [ip_connections]. unfold at_or at 1. by rewrite lookup_insert_eq. }
    unfold exceeds_connection_limit. rewrite (proj2 (Z.leb_le _ _)) by done. cbn [fst snd].
    split; [done|]. intros _ t Ht. unfold is_blocked. cbn. rewrite lookup_insert_eq. cbn.
    by rewrite wrap_small by (unfold in_u; lia).
  - intros ip now d d' E k. assert (allow_connection ip now d' = (true, d')) as E'.
    { unfold allow_connection in *. destruct (is_blocked ip now d) eqn:Eb; [done|].
      destruct (exceeds_connection_limit _) eqn:Ex; [done|]. injection E as <-.
      change (is_blocked ip now (touch_ip ip d)) with (is_blocked ip now d). rewrite Eb.
      assert (touch_ip ip (touch_ip ip d) = touch_ip ip d) as Htt.
      { unfold touch_ip. cbn. f_equal. rewrite insert_insert_eq. unfold at_or at 1.
        by rewrite lookup_insert_eq. }
      by rewrite Htt, Ex. }
    induction k as [|k IH]; [done|]. rewrite Nat.iter_succ, IH. cbn. by rewrite E'.
Qed.

(** *** Forks *)

Lemma serve_forks now x c : fork_detector (serve now x c).2 = fork_detector c.
Proof.
  destruct x; cbn; try done.
  - unfold validate_incoming_connection. destruct (ddos_mitigation_enabled c); [|done].
    by destruct (allow_connection _ _ _) as [[] d].
  - unfold on_connection_established. by destruct (ddos_mitigation_enabled c).
  - unfold on_connection_closed. by destruct (ddos_mitigation_enabled c).
  - unfold validate_request. destruct (allow_request _ _ _) as [[] l]; [|done]. cbn.
    by destruct (sybil_defense_enabled c).
  - unfold tick. by destruct (300 <=? _).
Qed.

Lemma serve_all_forks calls c : fork_detector (serve_all calls c).2 = fork_detector c.
Proof.
  revert c. induction calls as [|p calls IH]; intros c; [done|]. cbn.
  pose proof (serve_forks p.1 p.2 c) as Hf. destruct (serve p.1 p.2 c) as [b c1].
  specialize (IH c1). destruct (serve_all calls c1). cbn in *. congruence.
Qed.

(** The detector works, but nothing feeds it. A second key for a node that has one is
    reported and the node is marked; yet after any calls of the coordinator no node has a
    key on record, so every signature is accepted, by whatever key it was made and
    whatever it signs, and no connection is refused for a fork. *)
Theorem fork_detection_inert `{Crypto} calls t0 :
  let c := (serve_all calls (new_coordinator t0)).2 in
  (∀ n message s, validate_signature n message s c = true) ∧
  get_detected_forks (fork_detector c) = [] ∧
  (∀ ip n now, (validate_incoming_connection ip n now c).1 =
     (if ddos_mitigation_enabled c then (allow_connection ip now (ddos_mitigation c)).1 else true)) ∧
  ∀ n k k' now, k ≠ k' →
    let '(r, f) := detect_fork n k now (fork_detector c) in
    let '(r', f') := detect_fork n k' now f in
    r = false ∧ r' = true ∧ n ∈ get_detected_forks f'.
Proof.
  cbn zeta. pose proof (serve_all_forks calls (new_coordinator t0)) as Hf. cbn in Hf.
  set (c := (serve_all calls (new_coordinator t0)).2) in *. clearbody c. split; [|split; [|split]].
  - intros n message s. unfold validate_signature, verify_signature_consistency. rewrite Hf. cbn.
    rewrite lookup_empty. by destruct (negb _).
  - by rewrite Hf.
  - intros ip n now. unfold validate_incoming_connection.
    destruct (ddos_mitigation_enabled c); [destruct (allow_connection _ _ _) as [[] d]|]; cbn; try done;
      rewrite Hf; cbn; rewrite bool_decide_false, andb_false_r; try done;
      unfold get_detected_forks; rewrite elem_of_set_elements; set_solver.
  - intros n k k' now Hk. rewrite Hf. unfold detect_fork. cbn. rewrite lookup_empty.
    unfold record_node_key. cbn. unfold at_or. rewrite lookup_empty. cbn. rewrite lookup_insert_eq.
    cbn. rewrite bool_decide_false by done. cbn. split; [done|]. split; [done|].
    unfold get_detected_forks. rewrite elem_of_set_elements. cbn. set_solver.
Qed.

(** ** Witnesses *)

(** Twelve requests of one node in one second, and two more two seconds later. *)
Definition a_node : NodeID := array_fill 32 "007"%byte.
Definition asks (now : Z) : Z * call := (now, Request a_node []).
Definition twelve_and_two : list (Z * call) := replicate 12 (asks 1000) ++ [asks 1002; asks 1002].

Lemma request_rate_witness :
  grants a_node twelve_and_two (serve_all twelve_and_two (new_coordinator 900)).1 = 12 ∧
  let c := (serve_all [(950, Tick)] (new_coordinator 900)).2 in
  grants a_node twelve_and_two (serve_all twelve_and_two c).1 <= burst_size default_rate_policy + (1002 - 1000).
Proof.
  split; [by vm_compute|].
  apply (request_rate a_node [(950, Tick)] twelve_and_two 900 1000 1002); cbn; repeat split; try lia.
  repeat constructor.
Defined.
