(* ===== verification/Integrity.v ===== *)
(** Content integrity: [ContentIntegrityChecker] of src/security/content_integrity.hpp
    and content_integrity.cpp.

    Content is split into chunks whose hashes are combined pairwise, level by
    level; a node without a partner moves up unchanged.  A chunk size of zero
    never ends: the functions return [None]. *)

From Stdlib Require Import Strings.Byte.
From S2P Require Import Prelude Common Crypto.

Record VerificationResult := MkVerificationResult {
  is_valid : bool;
  expected_hash : Hash256;
  actual_hash : Hash256;
  vr_content_size : Z;
  error_message : bytes
}.

(** The members [offset] and [length] of an inner node are indeterminate. *)
Record MerkleNode := MkMerkleNode {
  node_hash : Hash256;
  node_offset : option Z;
  node_length : option Z;
  children : list Hash256
}.

Record IntegrityMetadata := MkIntegrityMetadata {
  content_hash : Hash256;
  content_size : Z;
  merkle_root : MerkleNode;
  created_at : Z;
  chunk_hashes : list Hash256
}.

(** [MerkleNode{}] *)
Definition empty_node : MerkleNode := MkMerkleNode (zeros 32) (Some 0) (Some 0) [].

Definition DEFAULT_CHUNK_SIZE : Z := 64 * 1024.

(** The loop over [offset]; it ends when an iteration advances, so [fuel] is the
    size of the content. *)
Fixpoint chunks_from (fuel : nat) (content : bytes) (chunk_size offset : Z) :
    option (list (Z * bytes)) :=
  if offset <? len content then
    match fuel with
    | O => None
    | S fuel =>
        let length := Z.min chunk_size (len content - offset) in
        rest ← chunks_from fuel content chunk_size (u64 (offset + chunk_size));
        Some ((offset, sub content offset length) :: rest)
    end
  else Some [].

Definition chunks (content : bytes) (chunk_size : Z) : option (list (Z * bytes)) :=
  chunks_from (length content) content chunk_size 0.

Section Checker.
Context `{Crypto}.

Definition verify_content (content : bytes) (expected : Hash256) : VerificationResult :=
  let actual := blake3 content in
  let valid := bool_decide (actual = expected) in
  MkVerificationResult valid expected actual (len content)
    (if valid then [] else str "Content hash mismatch - possible tampering detected").

Definition verify_content_hash (h : ContentHash) (content : bytes) : VerificationResult :=
  verify_content content h.

Definition leaf (c : Z * bytes) : MerkleNode :=
  MkMerkleNode (blake3 c.2) (Some c.1) (Some (len c.2)) [].

Definition parent (a b : MerkleNode) : MerkleNode :=
  MkMerkleNode (blake3 (arr (node_hash a) ++ arr (node_hash b))) None None [node_hash a; node_hash b].

(** One level up. *)
Fixpoint next_level (l : list MerkleNode) : list MerkleNode :=
  match l with
  | a :: b :: l => parent a b :: next_level l
  | l => l
  end.

(** [while (current_level.size() > 1)]; a level of n nodes needs less than n rounds. *)
Fixpoint climb (fuel : nat) (l : list MerkleNode) : option MerkleNode :=
  match l with
  | [] => Some empty_node
  | [x] => Some x
  | _ => match fuel with O => None | S fuel => climb fuel (next_level l) end
  end.

Definition build_merkle_tree (content : bytes) (chunk_size : Z) : option MerkleNode :=
  cs ← chunks content chunk_size;
  let leaves := leaf <$> cs in
  climb (length leaves) leaves.

Definition verify_merkle_tree (content : bytes) (root : MerkleNode) (chunk_size : Z) : option bool :=
  calculated_root ← build_merkle_tree content chunk_size;
  Some (bool_decide (node_hash calculated_root = node_hash root)).

Definition verify_chunk (chunk : bytes) (expected_chunk_hash : Hash256) : bool :=
  bool_decide (blake3 chunk = expected_chunk_hash).

Definition generate_metadata (content : bytes) (chunk_size now : Z) : option IntegrityMetadata :=
  root ← build_merkle_tree content chunk_size;
  cs ← chunks content chunk_size;
  Some (MkIntegrityMetadata (blake3 content) (len content) root now (blake3 ∘ snd <$> cs)).

Definition verify_metadata (content : bytes) (m : IntegrityMetadata) : option bool :=
  if negb (len content =? content_size m) then Some false
  else if bool_decide (blake3 content ≠ content_hash m) then Some false
  else verify_merkle_tree content (merkle_root m) DEFAULT_CHUNK_SIZE.

End Checker.

(** ** Chunks *)

Lemma sub_all_from {A} (l : list A) o n : 0 <= o → len l - o <= n → sub l o n = drop (Z.to_nat o) l.
Proof.
  intros Ho Hn. unfold sub. apply take_ge. rewrite length_drop. unfold len in Hn. lia.
Qed.

Lemma sub_then {A} (l : list A) o n :
  0 <= o → 0 <= n → sub l o n ++ drop (Z.to_nat (o + n)) l = drop (Z.to_nat o) l.
Proof.
  intros Ho Hn. unfold sub. rewrite Z2Nat.inj_add, <- drop_drop by lia. apply take_drop.
Qed.

(** With a positive chunk size the loop ends; the chunks make up the content, none is
    empty or longer than the chunk size, and each starts at its offset. *)
Lemma chunks_from_ok fuel content cs o :
  0 < cs < 2 ^ 64 → o = 0 ∨ cs <= o → 0 <= o → len content < 2 ^ 63 →
  len content - o <= Z.of_nat fuel →
  ∃ l, chunks_from fuel content cs o = Some l ∧ concat l.*2 = drop (Z.to_nat o) content ∧
    Forall (λ c, 0 < len c.2 <= cs ∧ c.2 = sub content c.1 (len c.2)) l.
Proof.
  intros Hcs. revert o. induction fuel as [|fuel IH]; intros o Hs Ho Hlen Hf; cbn [chunks_from];
    destruct (Z.ltb_spec o (len content)) as [Hlt|Hge]; try lia.
  1, 3: exists []; split; [done|]; split; [|done]; cbn; rewrite drop_ge; [done|unfold len in Hge; lia].
  rewrite wrap_small by (unfold in_u; lia).
  destruct (IH (o + cs)) as (l & -> & Hl & Hf'); [lia..|]. eexists. split; [reflexivity|].
  set (n := Z.min cs (len content - o)).
  split; [|apply list.Forall_cons; split; [|done]; cbn [fst snd]; rewrite len_sub by lia; split; [lia|done]].
  cbn [fmap list_fmap snd concat]. rewrite Hl. destruct (decide (cs <= len content - o)).
  - replace n with cs by lia. apply sub_then; lia.
  - replace n with (len content - o) by lia. rewrite sub_all_from by lia.
    rewrite (drop_ge content (Z.to_nat (o + cs))); [by rewrite app_nil_r|]. unfold len in *. lia.
Qed.

Lemma chunks_ok content cs :
  0 < cs < 2 ^ 64 → len content < 2 ^ 63 →
  ∃ l, chunks content cs = Some l ∧ concat l.*2 = content ∧
    Forall (λ c, 0 < len c.2 <= cs ∧ c.2 = sub content c.1 (len c.2)) l.
Proof.
  intros Hcs Hl. apply (chunks_from_ok _ content cs 0); try done; [by left|]. unfold len. lia.
Qed.

(** ** Levels *)

Section Merkle.
Context `{Crypto}.

Definition combine (x y : Hash256) : Hash256 := blake3 (arr x ++ arr y).

(** The reference: the hash of a list of at most [2 ^ depth] leaves combines that of
    its first [2 ^ j], for the largest [j] that leaves some over, with that of the
    rest. *)
Fixpoint tree_hash (depth : nat) (l : list Hash256) : Hash256 :=
  match depth with
  | O => hd (zeros 32) l
  | S depth =>
      if (length l <=? 2 ^ depth)%nat then tree_hash depth l
      else combine (tree_hash depth (take (2 ^ depth) l)) (tree_hash depth (drop (2 ^ depth) l))
  end.

Fixpoint pair_up (l : list Hash256) : list Hash256 :=
  match l with
  | a :: b :: l => combine a b :: pair_up l
  | l => l
  end.

Lemma next_level_hashes l : node_hash <$> next_level l = pair_up (node_hash <$> l).
Proof.
  induction l as [l IH] using (well_founded_induction (well_founded_ltof _ length)).
  destruct l as [|a [|b l]]; [done..|]. cbn. f_equal. apply IH. unfold ltof. cbn. lia.
Qed.

Lemma length_pair_up l : length (pair_up l) = Nat.div2 (S (length l)).
Proof.
  induction l as [l IH] using (well_founded_induction (well_founded_ltof _ length)).
  destruct l as [|a [|b l]]; [done..|]. cbn [pair_up length].
  rewrite IH by (unfold ltof; cbn; lia). done.
Qed.

(** Pairing respects a split at an even position. *)
Lemma pair_up_app n l k : length l = (2 * n)%nat → pair_up (l ++ k) = pair_up l ++ pair_up k.
Proof.
  revert l. induction n as [|n IH]; intros l Hl.
  - by destruct l.
  - destruct l as [|a [|b l]]; [cbn in Hl; lia..|]. cbn. f_equal. apply IH. cbn in Hl. lia.
Qed.

Definition rounds (j : nat) (l : list Hash256) : list Hash256 := Nat.iter j pair_up l.

Lemma rounds_S j l : rounds (S j) l = rounds j (pair_up l).
Proof. unfold rounds. rewrite <- Nat.iter_succ_r. done. Qed.

Lemma rounds_app j l k :
  length l = (2 ^ j)%nat → rounds j (l ++ k) = rounds j l ++ rounds j k.
Proof.
  revert l k. induction j as [|j IH]; intros l k Hl; [done|]. rewrite Nat.pow_succ_r' in Hl.
  rewrite !rounds_S, (pair_up_app (2 ^ j)) by done. apply IH. rewrite length_pair_up, Hl.
  replace (S (2 * 2 ^ j)) with (1 + 2 * 2 ^ j)%nat by lia. by rewrite Nat.div2_succ_double.
Qed.

(** After [j] rounds a list of at most [2 ^ j] hashes is down to its root. *)
Lemma rounds_root j l :
  l ≠ [] → (length l <= 2 ^ j)%nat → rounds j l = [tree_hash j l].
Proof.
  revert l. induction j as [|j IH]; intros l Hl Hn.
  - destruct l as [|a [|b l]]; [done..|cbn in Hn; lia].
  - cbn [tree_hash]. rewrite Nat.pow_succ_r' in Hn. destruct (Nat.leb_spec (length l) (2 ^ j)) as [Hj|Hj].
    + change (rounds (S j) l) with (pair_up (rounds j l)). by rewrite IH.
    + change (rounds (S j) l) with (pair_up (rounds j l)).
      assert (length (take (2 ^ j) l) = 2 ^ j)%nat by (rewrite length_take; lia).
      rewrite <- (take_drop (2 ^ j) l) at 1. rewrite rounds_app by done.
      rewrite !IH; [done| | | |]; try (intros E; apply (f_equal length) in E);
        rewrite ?length_drop in *; cbn in *; try lia.
Qed.

Lemma climb_hash fuel l :
  l ≠ [] → (length l <= fuel)%nat →
  ∃ j x, climb fuel l = Some x ∧ rounds j (node_hash <$> l) = [node_hash x].
Proof.
  revert l. induction fuel as [|fuel IH]; intros l Hl Hn.
  - destruct l; [done|cbn in Hn; lia].
  - destruct l as [|a [|b l]]; [done|by exists 0%nat, a|].
    destruct (IH (next_level (a :: b :: l))) as (j & x & Hc & Hr).
    + done.
    + pose proof (f_equal length (next_level_hashes (a :: b :: l))) as E.
      rewrite length_fmap, length_pair_up, length_fmap in E. rewrite E. cbn [length] in *.
      rewrite Nat.div2_div. apply Nat.lt_succ_r, Nat.Div0.div_lt_upper_bound. lia.
    + exists (S j), x. split; [done|]. rewrite rounds_S, <- next_level_hashes. done.
Qed.

(** More rounds do not change a root. *)
Lemma rounds_singleton j x : rounds j [x] = [x].
Proof. induction j as [|j IH]; [done|]. rewrite rounds_S. exact IH. Qed.

Lemma rounds_add i j l : rounds (i + j) l = rounds i (rounds j l).
Proof. apply Nat.iter_add. Qed.

Lemma rounds_agree i j l x y : rounds i l = [x] → rounds j l = [y] → x = y.
Proof.
  intros Hx Hy. assert (rounds j [x] = rounds i [y]) as E
    by (rewrite <- Hx, <- Hy, <- !rounds_add; by rewrite Nat.add_comm).
  rewrite !rounds_singleton in E. by injection E.
Qed.

(** ** Collisions *)

(** An input of one list and a different one of another with the same hash. *)
Definition collision (xs ys : list bytes) : Prop :=
  ∃ x y, x ∈ xs ∧ y ∈ ys ∧ x ≠ y ∧ blake3 x = blake3 y.

(** What is hashed above the leaves of a tree. *)
Fixpoint tree_inputs (depth : nat) (l : list Hash256) : list bytes :=
  match depth with
  | O => []
  | S depth =>
      if (length l <=? 2 ^ depth)%nat then tree_inputs depth l
      else (arr (tree_hash depth (take (2 ^ depth) l)) ++ arr (tree_hash depth (drop (2 ^ depth) l)))
             :: tree_inputs depth (take (2 ^ depth) l) ++ tree_inputs depth (drop (2 ^ depth) l)
  end.

(** All that is hashed for the tree of these chunks. *)
Definition hashed_inputs (depth : nat) (cs : list bytes) : list bytes :=
  cs ++ tree_inputs depth (blake3 <$> cs).

Lemma collision_mono xs ys xs' ys' :
  xs ⊆ xs' → ys ⊆ ys' → collision xs ys → collision xs' ys'.
Proof. intros Hx Hy (x & y & ? & ? & ? & ?). exists x, y. auto. Qed.

Lemma combine_collision a b c d :
  combine a b = combine c d → (a = c ∧ b = d) ∨ collision [arr a ++ arr b] [arr c ++ arr d].
Proof.
  intros E. destruct (decide (arr a ++ arr b = arr c ++ arr d)) as [Ea|Ea].
  - left. apply app_inj_1 in Ea as [Ha%arr_inj Hb%arr_inj]; [done|by rewrite !length_arr].
  - right. exists (arr a ++ arr b), (arr c ++ arr d). split_and!; [by left..|done|done].
Qed.

Lemma tree_hash_collision depth l k :
  length l = length k → (length l <= 2 ^ depth)%nat → l ≠ [] →
  tree_hash depth l = tree_hash depth k → l = k ∨ collision (tree_inputs depth l) (tree_inputs depth k).
Proof.
  revert l k. induction depth as [|depth IH]; intros l k Hl Hd Hn; cbn [tree_hash tree_inputs].
  - destruct l as [|a [|b l]], k as [|c [|d k]]; try done; cbn in *; try lia. intros ->. by left.
  - rewrite <- Hl. destruct (Nat.leb_spec (length l) (2 ^ depth)); [by apply IH|].
    rewrite Nat.pow_succ_r' in Hd.
    assert (Hne : ∀ m : list Hash256, (0 < length m)%nat → m ≠ []) by (by intros [|]; cbn; [lia|]).
    assert ((0 < 2 ^ depth)%nat) by (apply Nat.neq_0_lt_0, Nat.pow_nonzero; done).
    intros [[E1 E2]|Hc]%combine_collision.
    2: { right. eapply collision_mono; [..|exact Hc]; set_solver. }
    apply IH in E1 as [E1|E1];
      [|right; eapply collision_mono; [..|exact E1]; set_solver|rewrite !length_take; lia|
       rewrite length_take; lia|apply Hne; rewrite length_take; lia].
    apply IH in E2 as [E2|E2];
      [|right; eapply collision_mono; [..|exact E2]; set_solver|rewrite !length_drop; lia|
       rewrite length_drop; lia|apply Hne; rewrite length_drop; lia].
    left. by rewrite <- (take_drop (2 ^ depth) l), E1, E2, take_drop.
Qed.

Lemma same_leaves (l k : list bytes) :
  blake3 <$> l = blake3 <$> k → l = k ∨ collision l k.
Proof.
  revert k. induction l as [|x l IH]; intros [|y k]; try done; [by left|]. intros [= Hx Hl].
  destruct (decide (x = y)) as [->|]; [|right; exists x, y; split_and!; [by left..|done|done]].
  destruct (IH k Hl) as [->|Hc]; [by left|right].
  eapply collision_mono; [..|exact Hc]; set_solver.
Qed.

(** The cuts depend only on the size. *)
Lemma chunks_from_sizes fuel c1 c2 cs o l1 l2 :
  len c1 = len c2 → chunks_from fuel c1 cs o = Some l1 → chunks_from fuel c2 cs o = Some l2 →
  length l1 = length l2.
Proof.
  intros Hc. revert o l1 l2. induction fuel as [|fuel IH]; intros o l1 l2; cbn [chunks_from];
    rewrite Hc; destruct (o <? len c2); try done; try (by intros [= <-] [= <-]).
  destruct (chunks_from fuel c1 _ _) as [k1|] eqn:E1; [|done].
  destruct (chunks_from fuel c2 _ _) as [k2|] eqn:E2; [|done]. cbn. intros [= <-] [= <-].
  cbn. f_equal. by apply (IH (u64 (o + cs))).
Qed.

Lemma chunks_sizes c1 c2 cs l1 l2 :
  len c1 = len c2 → chunks c1 cs = Some l1 → chunks c2 cs = Some l2 → length l1 = length l2.
Proof.
  unfold chunks. intros Hc. assert (length c1 = length c2) as -> by (unfold len in Hc; lia).
  by apply chunks_from_sizes.
Qed.

(** ** Properties *)

Lemma leaf_hashes (l : list (Z * bytes)) : node_hash <$> (leaf <$> l) = blake3 <$> l.*2.
Proof. by rewrite <- !list_fmap_compose. Qed.

Lemma build_ok content cs :
  0 < cs < 2 ^ 64 → len content < 2 ^ 63 → content ≠ [] →
  ∃ l root, chunks content cs = Some l ∧ concat l.*2 = content ∧ l ≠ [] ∧
    Forall (λ c, 0 < len c.2 <= cs ∧ c.2 = sub content c.1 (len c.2)) l ∧
    build_merkle_tree content cs = Some root ∧
    ∀ depth, (length l <= 2 ^ depth)%nat → node_hash root = tree_hash depth (blake3 <$> l.*2).
Proof.
  intros Hcs Hl Hn. destruct (chunks_ok content cs Hcs Hl) as (l & E & Hc & Hf).
  assert (l ≠ []) as Hl0 by (intros ->; by destruct Hn).
  destruct (climb_hash (length (leaf <$> l)) (leaf <$> l)) as (j & root & Hr & Hj);
    [by intros ?%fmap_nil_inv|done|].
  exists l, root. do 4 (split; [done|]). split.
  - unfold build_merkle_tree. rewrite E. cbn. by rewrite <- Hr.
  - intros depth Hd. apply (rounds_agree j depth (blake3 <$> l.*2)); [by rewrite <- leaf_hashes|].
    apply rounds_root; [by intros ?%fmap_nil_inv%fmap_nil_inv|]. by rewrite !length_fmap.
Qed.

(** C35: the chunks make up the content, the loop that pairs hashes ends with a root,
    the root is the tree hash of the chunk hashes defined by recursion on the depth,
    the content verifies against it, and other content of the same length with the
    same root gives a collision of the hash between something hashed for the one tree
    and something hashed for the other. *)
Theorem merkle_root_is_tree_hash content cs :
  0 < cs < 2 ^ 64 → len content < 2 ^ 63 → content ≠ [] →
  ∃ l root, chunks content cs = Some l ∧ concat l.*2 = content ∧
    Forall (λ c, 0 < len c.2 <= cs ∧ c.2 = sub content c.1 (len c.2)) l ∧
    build_merkle_tree content cs = Some root ∧
    (∀ depth, (length l <= 2 ^ depth)%nat → node_hash root = tree_hash depth (blake3 <$> l.*2)) ∧
    verify_merkle_tree content root cs = Some true ∧
    ∀ content' root', len content' = len content → build_merkle_tree content' cs = Some root' →
      node_hash root' = node_hash root → content' = content ∨
        ∃ l', chunks content' cs = Some l' ∧ ∀ depth, (length l <= 2 ^ depth)%nat →
          collision (hashed_inputs depth l'.*2) (hashed_inputs depth l.*2).
Proof.
  intros Hcs Hl Hn. destruct (build_ok content cs Hcs Hl Hn) as (l & root & E & Hc & Hl0 & Hf & Hb & Hr).
  exists l, root. do 5 (split; [done|]). split.
  - unfold verify_merkle_tree. rewrite Hb. cbn. by rewrite bool_decide_true.
  - intros c' root' Hc' Hb' Hroot.
    destruct (build_ok c' cs Hcs ltac:(lia)) as (l' & r' & E' & Hcc & Hl0' & _ & Hbb & Hr').
    { intros ->. destruct content; [done|rewrite len_cons, len_nil in Hc'; pose proof (len_nonneg content); lia]. }
    rewrite Hb' in Hbb. injection Hbb as <-.
    pose proof (chunks_sizes c' content cs l' l Hc' E' E) as Hs.
    assert (Hd : ∀ depth, (length l <= 2 ^ depth)%nat → c' = content ∨
      collision (hashed_inputs depth l'.*2) (hashed_inputs depth l.*2)).
    { intros depth Hd. pose proof Hroot as Hr2. rewrite (Hr depth), (Hr' depth) in Hr2 by lia.
      destruct (tree_hash_collision depth (blake3 <$> l'.*2) (blake3 <$> l.*2)) as [Hh|Hh];
        [by rewrite !length_fmap|by rewrite !length_fmap, Hs|by intros ?%fmap_nil_inv%fmap_nil_inv|done| |].
      - apply same_leaves in Hh as [Hh|Hh]; [left; by rewrite <- Hcc, <- Hc, Hh|right].
        eapply collision_mono; [..|exact Hh]; unfold hashed_inputs; set_solver.
      - right. eapply collision_mono; [..|exact Hh]; unfold hashed_inputs; set_solver. }
    destruct (decide (c' = content)) as [|Hne]; [by left|right]. exists l'. split; [done|].
    intros depth Hdepth. by destruct (Hd depth Hdepth).
Qed.

Lemma chunks_from_step fuel content cs o :
  o < len content →
  chunks_from (S fuel) content cs o =
  (rest ← chunks_from fuel content cs (u64 (o + cs));
   Some ((o, sub content o (Z.min cs (len content - o))) :: rest)).
Proof. intros Ho. cbn [chunks_from]. by rewrite (proj2 (Z.ltb_lt _ _)). Qed.

Lemma chunks_from_end fuel content cs o : len content <= o → chunks_from fuel content cs o = Some [].
Proof. intros Ho. destruct fuel; cbn [chunks_from]; by rewrite (proj2 (Z.ltb_ge _ _)). Qed.

Lemma one_chunk content cs :
  content ≠ [] → len content <= cs < 2 ^ 64 →
  chunks content cs = Some [(0, content)].
Proof.
  intros Hn Hcs. unfold chunks. destruct content as [|b content]; [done|]. cbn [length].
  pose proof (len_nonneg content). rewrite chunks_from_step by (rewrite len_cons; lia).
  rewrite chunks_from_end by (rewrite len_cons in *; rewrite wrap_small; unfold in_u; lia).
  cbn. do 3 f_equal. rewrite sub_all_from; [done|done|lia].
Qed.

(** Leaves and inner nodes are hashed alike: content of two chunks and the 64 bytes of its
    two chunk hashes have the same root, so other content verifies against the root. *)
Theorem merkle_root_confuses_levels content cs :
  64 <= cs < 2 ^ 62 → cs < len content <= 2 * cs →
  ∃ forged root, len forged = 64 ∧ forged ≠ content ∧
    build_merkle_tree content cs = Some root ∧ verify_merkle_tree forged root cs = Some true.
Proof.
  intros Hcs Hl. destruct (build_ok content cs ltac:(lia) ltac:(lia)) as (l & root & E & Hc & Hl0 & Hf & Hb & Hr).
  { intros ->. rewrite len_nil in Hl. lia. }
  assert (∃ x y, l = [x; y]) as (x & y & ->).
  { unfold chunks in E. assert (∃ f, length content = S (S f)) as [f Ef].
    { destruct content as [|b [|b' c]]; unfold len in Hl; cbn in Hl |- *; [lia|lia|by eexists]. }
    rewrite Ef, chunks_from_step, chunks_from_step, chunks_from_end in E
      by (rewrite ?wrap_small; unfold in_u; rewrite ?wrap_small; unfold in_u; lia).
    injection E as <-. eauto. }
  exists (arr (blake3 x.2) ++ arr (blake3 y.2)), root.
  assert (len (arr (blake3 x.2) ++ arr (blake3 y.2)) = 64) as H64
    by (rewrite len_app, !len_arr; done).
  split; [done|]. split; [intros E'; rewrite E' in H64; lia|]. split; [done|].
  unfold verify_merkle_tree, build_merkle_tree.
  rewrite one_chunk; [|intros E'; by rewrite E', len_nil in H64|lia]. cbn.
  rewrite bool_decide_true; [done|]. rewrite (Hr 1%nat) by done. done.
Qed.

(** Metadata accept only the content they were made from or content with the same hash; but
    verification builds the tree with chunks of the default size, whatever the size used
    when they were generated, so it decides by comparing roots of two different trees
    unless that size was the default. *)
Theorem metadata_checked_with_default_chunks content cs now :
  0 < cs < 2 ^ 64 → len content < 2 ^ 63 → content ≠ [] →
  ∃ m root, generate_metadata content cs now = Some m ∧
    build_merkle_tree content DEFAULT_CHUNK_SIZE = Some root ∧
    verify_metadata content m = Some (bool_decide (node_hash root = node_hash (merkle_root m))) ∧
    (cs = DEFAULT_CHUNK_SIZE → verify_metadata content m = Some true) ∧
    ∀ content', verify_metadata content' m = Some true → content' = content ∨ collision [content'] [content].
Proof.
  intros Hcs Hl Hn. destruct (build_ok content cs Hcs Hl Hn) as (l & r & E & _ & _ & _ & Hb & _).
  destruct (build_ok content DEFAULT_CHUNK_SIZE ltac:(done) Hl Hn) as (l' & root & _ & _ & _ & _ & Hb' & _).
  unfold generate_metadata. rewrite Hb, E. cbn. eexists _, root. split; [reflexivity|]. split; [done|].
  assert (Hv : verify_metadata content (MkIntegrityMetadata (blake3 content) (len content) r now
            (blake3 ∘ snd <$> l)) = Some (bool_decide (node_hash root = node_hash r))).
  { unfold verify_metadata. cbn. rewrite Z.eqb_refl, bool_decide_false by (by intros []). cbn.
    unfold verify_merkle_tree. by rewrite Hb'. }
  split; [done|]. split.
  - intros ->. rewrite Hv. assert (root = r) as -> by congruence. by rewrite bool_decide_true.
  - intros c'. unfold verify_metadata. cbn. destruct (len c' =? len content); [|done]. cbn.
    destruct (bool_decide (blake3 c' ≠ blake3 content)) eqn:Eb; [done|]. intros _.
    apply bool_decide_eq_false in Eb.
    destruct (decide (c' = content)); [by left|]. right. exists c', content.
    split_and!; [by left..|done|]. destruct (decide (blake3 c' = blake3 content)); done.
Qed.

End Merkle.

(** ** Concrete inputs *)

Definition sample_content : bytes := str "five chunks of content".

Lemma merkle_root_is_tree_hash_witness :
  ∃ root, build_merkle_tree (H := toy_crypto) sample_content 5 = Some root ∧
    verify_merkle_tree (H := toy_crypto) sample_content root 5 = Some true.
Proof.
  destruct (merkle_root_is_tree_hash (H := toy_crypto) sample_content 5)
    as (l & root & _ & _ & _ & E & _ & Hv & _); [lia|vm_compute; reflexivity|done|].
  exists root. split; [exact E|exact Hv].
Defined.

Lemma merkle_root_confuses_levels_witness :
  ∃ forged root, build_merkle_tree (H := toy_crypto) (replicate 100 "007"%byte) 64 = Some root ∧
    verify_merkle_tree (H := toy_crypto) forged root 64 = Some true.
Proof.
  destruct (merkle_root_confuses_levels (H := toy_crypto) (replicate 100 "007"%byte) 64)
    as (forged & root & _ & _ & E & Hv); [lia|vm_compute; by split|].
  exists forged, root. split; [exact E|exact Hv].
Defined.

Lemma metadata_checked_with_default_chunks_witness :
  ∃ m, generate_metadata (H := toy_crypto) sample_content DEFAULT_CHUNK_SIZE 7 = Some m ∧
    verify_metadata (H := toy_crypto) sample_content m = Some true.
Proof.
  destruct (metadata_checked_with_default_chunks (H := toy_crypto) sample_content DEFAULT_CHUNK_SIZE 7)
    as (m & root & E & _ & _ & Hv & _); [by vm_compute|vm_compute; reflexivity|done|].
  exists m. split; [exact E|]. apply Hv. reflexivity.
Defined.

(** Metadata made with smaller chunks do not verify. *)
Example small_chunks_fail :
  (m ← generate_metadata (H := toy_crypto) sample_content 5 7;
   verify_metadata (H := toy_crypto) sample_content m) = Some false.
Proof. by vm_compute. Qed.
