(* ===== verification/Storage.v ===== *)
(** Content-addressed storage: [Storage] of src/storage/storage.hpp and storage.cpp.

    A directory is a map from file names to contents; content lies in one
    subdirectory per first two digits of the hash, metadata in a directory of
    its own.  How a write ends is an argument ([write_result] of [Registry]), and so
    are whether a file opens for reading ([opened]), whether a removal succeeds
    and the order in which a directory is listed. *)

From Stdlib Require Import Strings.Byte.
From S2P Require Import Prelude Common Registry.

Record Storage := MkStorage {
  content_files : gmap (bytes * bytes) bytes;
  metadata_files : gmap bytes bytes
}.

Definition new_storage : Storage := MkStorage ∅ ∅.

(** Subdirectory and file name. *)
Definition get_content_path (h : ContentHash) : bytes * bytes :=
  let hash_str := hash_to_hex h in (take 2 hash_str, hash_str).

Definition escape_char (c : byte) : byte :=
  if bool_decide (c = "/"%byte ∨ c = "\"%byte ∨ c = ":"%byte) then "_"%byte else c.

Definition get_metadata_path (key : bytes) : bytes := escape_char <$> key.

(** Opening a file for writing and writing [data] to it. *)
Definition write_file {K} `{Countable K} (path : K) (data : bytes) (w : write_result)
    (files : gmap K bytes) : bool * gmap K bytes :=
  match w with
  | Written => (true, <[path := data]> files)
  | NotOpened => (false, files)
  | Partial other => (false, <[path := other]> files)
  end.

Definition put_content (h : ContentHash) (data : bytes) (w : write_result) (s : Storage) :
    bool * Storage :=
  let '(ok, files) := write_file (get_content_path h) data w (content_files s) in
  (ok, MkStorage files (metadata_files s)).

Definition get_content (h : ContentHash) (opened : bool) (s : Storage) : option bytes :=
  data ← content_files s !! get_content_path h;
  if opened then Some data else None.

Definition has_content (h : ContentHash) (s : Storage) : bool :=
  bool_decide (is_Some (content_files s !! get_content_path h)).

Definition delete_content (h : ContentHash) (removed : bool) (s : Storage) : bool * Storage :=
  if negb (has_content h s) then (false, s)
  else if negb removed then (false, s)
  else (true, MkStorage (delete (get_content_path h) (content_files s)) (metadata_files s)).

Definition put_metadata (key value : bytes) (w : write_result) (s : Storage) : bool * Storage :=
  let '(ok, files) := write_file (get_metadata_path key) value w (metadata_files s) in
  (ok, MkStorage (content_files s) files).

Definition get_metadata (key : bytes) (opened : bool) (s : Storage) : option bytes :=
  data ← metadata_files s !! get_metadata_path key;
  if opened then Some data else None.

Definition delete_metadata (key : bytes) (removed : bool) (s : Storage) : bool * Storage :=
  if bool_decide (metadata_files s !! get_metadata_path key = None) then (false, s)
  else if negb removed then (false, s)
  else (true, MkStorage (content_files s) (delete (get_metadata_path key) (metadata_files s))).

Fixpoint parse_names (names : list bytes) : outcome (list ContentHash) :=
  match names with
  | [] => Ok []
  | x :: names => h ← hex_to_hash x; hs ← parse_names names; Ok (h :: hs)
  end.

(** [listing] yields the file names of all subdirectories in some order. *)
Definition list_content (listing : gmap (bytes * bytes) bytes → list bytes) (s : Storage) :
    outcome (list ContentHash) :=
  parse_names (listing (content_files s)).

Definition total_size (s : Storage) : Z :=
  foldl (λ total p, u64 (total + len p.2)) 0 (map_to_list (content_files s)).

Definition item_count (listing : gmap (bytes * bytes) bytes → list bytes) (s : Storage) :
    outcome Z :=
  hs ← list_content listing s; Ok (len hs).

(** ** Lookup after an operation *)

Lemma content_path_inj h h' : get_content_path h = get_content_path h' → h = h'.
Proof. intros [= _ H]. by apply hash_to_hex_inj. Qed.

Lemma get_put_content h h' d s :
  get_content h' true (put_content h d Written s).2 =
  if decide (h = h') then Some d else get_content h' true s.
Proof.
  unfold get_content, put_content. cbn. destruct (decide (h = h')) as [->|Hne].
  - by rewrite lookup_insert_eq.
  - rewrite lookup_insert_ne; [done|]. by intros E%content_path_inj.
Qed.

Lemma get_delete_content h h' s :
  get_content h' true (delete_content h true s).2 =
  if decide (h = h') then None else get_content h' true s.
Proof.
  unfold get_content, delete_content, has_content. destruct (decide (h = h')) as [->|Hne].
  - case_bool_decide as E; cbn; [by rewrite lookup_delete_eq|].
    destruct (content_files s !! get_content_path h'); [|done]. by destruct E.
  - case_bool_decide as E; cbn; [|done].
    rewrite lookup_delete_ne; [done|]. by intros E'%content_path_inj.
Qed.

Lemma get_put_metadata k k' d s :
  get_metadata k' true (put_metadata k d Written s).2 =
  if decide (get_metadata_path k = get_metadata_path k') then Some d else get_metadata k' true s.
Proof.
  unfold get_metadata, put_metadata. cbn. destruct (decide _) as [->|Hne].
  - by rewrite lookup_insert_eq.
  - by rewrite lookup_insert_ne.
Qed.

(** ** A store that only its own operations touched *)

(** Every file lies where its name says, and is named by a hash. *)
Definition well_named (s : Storage) : Prop :=
  ∀ p, is_Some (content_files s !! p) → ∃ h, p = get_content_path h.

Inductive storage_op :=
| PutContent (h : ContentHash) (d : bytes) (w : write_result)
| DeleteContent (h : ContentHash) (removed : bool)
| PutMetadata (k v : bytes) (w : write_result)
| DeleteMetadata (k : bytes) (removed : bool).

Definition storage_step (op : storage_op) (s : Storage) : Storage :=
  match op with
  | PutContent h d w => (put_content h d w s).2
  | DeleteContent h r => (delete_content h r s).2
  | PutMetadata k v w => (put_metadata k v w s).2
  | DeleteMetadata k r => (delete_metadata k r s).2
  end.

Definition storage_run (ops : list storage_op) (s : Storage) : Storage :=
  foldl (λ s op, storage_step op s) s ops.

Lemma well_named_step op s : well_named s → well_named (storage_step op s).
Proof.
  intros Hs p. destruct op as [h d w|h r|k v w|k r]; cbn [storage_step].
  - unfold put_content. destruct w; cbn; [|by apply Hs|];
      (destruct (decide (get_content_path h = p)) as [<-|Hne]; [by eauto|]);
      rewrite lookup_insert_ne by done; apply Hs.
  - unfold delete_content. destruct (negb _); [apply Hs|]. destruct r; cbn; [|apply Hs].
    intros [x [_ E]%lookup_delete_Some]. apply Hs. eauto.
  - unfold put_metadata. destruct w; apply Hs.
  - unfold delete_metadata. destruct (bool_decide _); [apply Hs|]. destruct r; apply Hs.
Qed.

Lemma well_named_run ops s : well_named s → well_named (storage_run ops s).
Proof. revert s. induction ops as [|op ops IH]; cbn; intros s Hs; [done|]. by apply IH, well_named_step. Qed.

(** A listing: the names of the files, in some order. *)
Definition lists (listing : gmap (bytes * bytes) bytes → list bytes) : Prop :=
  ∀ m, listing m ≡ₚ (map_to_list m).*1.*2.

Lemma parse_hex_names hs : parse_names (hash_to_hex <$> hs) = Ok hs.
Proof.
  induction hs as [|h hs IH]; [done|]. cbn [fmap list_fmap parse_names].
  rewrite (proj1 (hex_of_hash h)). cbn. by rewrite IH.
Qed.

(** The keys of the map, as the hashes that name them. *)
Lemma file_names s p q :
  well_named s → (p, q) ∈ (map_to_list (content_files s)).*1 →
  ∃ h, q = hash_to_hex h ∧ (p, q) = get_content_path h ∧ has_content h s = true.
Proof.
  intros Hs (([p' q'] & d) & E & Hp%elem_of_map_to_list)%list_elem_of_fmap. cbn in E.
  injection E as <- <-. destruct (Hs (p, q)) as [h Eh]; [by eauto|]. exists h.
  split; [by injection Eh|]. split; [done|]. unfold has_content. rewrite <- Eh.
  apply bool_decide_eq_true. eauto.
Qed.

Lemma has_content_name h s :
  has_content h s = true → get_content_path h ∈ (map_to_list (content_files s)).*1.
Proof.
  unfold has_content. rewrite bool_decide_eq_true. intros [d E].
  apply list_elem_of_fmap. exists (get_content_path h, d). split; [done|]. by apply elem_of_map_to_list.
Qed.

Lemma all_hashes l : Forall (λ x, ∃ h, x = hash_to_hex h) l → ∃ hs, l = hash_to_hex <$> hs.
Proof. induction 1 as [|x l [h ->] _ [hs ->]]; [by exists []|by exists (h :: hs)]. Qed.

Lemma names_are_hashes listing s :
  lists listing → well_named s →
  ∃ hs, listing (content_files s) = hash_to_hex <$> hs ∧ NoDup hs ∧
    ∀ h, h ∈ hs ↔ has_content h s = true.
Proof.
  intros Hl Hs. specialize (Hl (content_files s)).
  assert (∃ hs, listing (content_files s) = hash_to_hex <$> hs) as [hs E].
  { assert (Forall (λ x, ∃ h, x = hash_to_hex h) (listing (content_files s))) as Hf.
    { rewrite Hl. apply list.Forall_forall. intros x ([p q] & -> & Hp)%list_elem_of_fmap.
      destruct (file_names s p q Hs Hp) as (h & -> & _). by exists h. }
    by apply all_hashes. }
  exists hs. split; [done|]. rewrite E in Hl. split.
  - assert (NoDup (hash_to_hex <$> hs)) as Hn; [|by apply NoDup_fmap_1 in Hn].
    rewrite Hl. apply NoDup_fmap_2_strong; [|apply NoDup_fst_map_to_list].
    intros [p q] [p' q'] H1 H2 Heq. cbn in Heq. subst q'.
    destruct (file_names s p q Hs H1) as (h & -> & -> & _).
    destruct (file_names s p' _ Hs H2) as (h' & E' & -> & _). apply hash_to_hex_inj in E'. by subst h'.
  - intros h. split.
    + intros Hh. assert (hash_to_hex h ∈ hash_to_hex <$> hs) as Hx by (apply list_elem_of_fmap; eauto).
      rewrite Hl in Hx. apply list_elem_of_fmap in Hx as ([p q] & E' & Hp). cbn in E'. subst q.
      destruct (file_names s p _ Hs Hp) as (h' & ->%hash_to_hex_inj & _ & Hc). done.
    + intros Hh%has_content_name. assert (hash_to_hex h ∈ hash_to_hex <$> hs) as Hx.
      { rewrite Hl. apply list_elem_of_fmap. by exists (get_content_path h). }
      apply list_elem_of_fmap in Hx as (h' & ->%hash_to_hex_inj & ?). done.
Qed.

(** ** Properties *)

(** After any operations, content stored is found under its hash and no other entry
    changes, content deleted is gone and no other entry changes, presence is being found,
    and the listing, in whatever order the directories are read, has each stored hash
    exactly once and nothing else. *)
Theorem storage_is_a_map ops listing h h' d :
  let s := storage_run ops new_storage in
  (get_content h' true (put_content h d Written s).2 =
     if decide (h = h') then Some d else get_content h' true s) ∧
  (get_content h' true (delete_content h true s).2 =
     if decide (h = h') then None else get_content h' true s) ∧
  (has_content h s = true ↔ is_Some (get_content h true s)) ∧
  (lists listing → ∃ hs, list_content listing s = Ok hs ∧ NoDup hs ∧
     item_count listing s = Ok (len hs) ∧ ∀ h, h ∈ hs ↔ has_content h s = true).
Proof.
  intros s. split; [apply get_put_content|]. split; [apply get_delete_content|]. split.
  - unfold has_content, get_content. rewrite bool_decide_eq_true.
    destruct (content_files s !! get_content_path h); cbn; split; intros []; done || eauto.
  - intros Hl. destruct (names_are_hashes listing s Hl) as (hs & E & Hn & Hh).
    { apply well_named_run. intros p [x Hx]. cbn in Hx. by rewrite lookup_empty in Hx. }
    exists hs. unfold item_count, list_content. rewrite E, parse_hex_names. done.
Qed.

(** Escaping merges keys: the file of one holds what was stored under the other. *)
Example metadata_keys_collide :
  get_metadata (str "a/b") true
    (put_metadata (str "a:b") (str "x") Written
      (put_metadata (str "a/b") [] Written new_storage).2).2 = Some (str "x").
Proof. by vm_compute. Qed.

Definition list_files (m : gmap (bytes * bytes) bytes) : list bytes := (map_to_list m).*1.*2.

Lemma storage_is_a_map_witness :
  ∃ hs, list_content list_files
          (storage_run [PutContent (zeros 32) (str "data") Written] new_storage) = Ok hs ∧
    zeros 32 ∈ hs.
Proof.
  destruct (storage_is_a_map [PutContent (zeros 32) (str "data") Written] list_files (zeros 32)
    (zeros 32) []) as (_ & _ & _ & Hl).
  destruct Hl as (hs & E & _ & _ & Hh); [intros m; apply Permutation_refl|].
  exists hs. split; [exact E|]. apply Hh. vm_compute. reflexivity.
Defined.
