(* ===== verification/Thing.v ===== *)
(** Things, the content items of the network: [ThingMetadata] and [Thing] of
    src/core/thing/thing.hpp and thing.cpp, over [Storage].

    [size_t] has 64 bits.  The environment variable that places the data directory
    is not modelled: saving and loading work on one [Storage].  Reserving room for
    the announced number of tags may run out of memory, which is not modelled. *)

From Stdlib Require Import Strings.Byte.
From S2P Require Import Prelude Reader Common Crypto Registry Storage.

(** ** Metadata *)

(** [enum class ThingType : uint8_t], as the byte it is. *)
Abbreviation ThingType := Byte.byte.

Record ThingMetadata := MkThingMetadata {
  content_hash : ContentHash;
  name : bytes;
  description : bytes;
  type : ThingType;
  size_bytes : Z;
  created_timestamp : Z;
  creator_id : NodeID;
  tags : list bytes;
  version : Z;
  creator_signature : Signature;
  mime_type : bytes;
  entry_point : bytes
}.

#[export] Instance ThingMetadata_eq_dec : EqDecision ThingMetadata.
Proof. solve_decision. Defined.

Definition thing_type_to_string (t : ThingType) : bytes :=
  match byte_val t with
  | 1 => str "game" | 2 => str "dictionary" | 3 => str "dataset" | 4 => str "app"
  | 5 => str "document" | 6 => str "media" | 7 => str "library" | 8 => str "forum"
  | _ => str "unknown"
  end.

(** The lambda [write_string] of [serialize]. *)
Definition write_string (s : bytes) : bytes := le_bytes 4 (u32 (len s)) ++ s.

Definition serialize (m : ThingMetadata) : bytes :=
  arr (content_hash m) ++ write_string (name m) ++ write_string (description m) ++ [type m] ++
  le_bytes 8 (size_bytes m) ++ le_bytes 8 (created_timestamp m) ++ arr (creator_id m) ++
  le_bytes 4 (u32 (len (tags m))) ++ mjoin (write_string <$> tags m) ++ le_bytes 4 (version m) ++
  arr (creator_signature m) ++ write_string (mime_type m) ++ write_string (entry_point m).

(** [read_string] of thing.cpp. *)
Definition read_text : reader bytes := n ← read_scalar 64 4; read_string 64 n.

Definition metadata_reader : reader ThingMetadata :=
  hash ← read_blob 64 32;
  title ← read_text;
  about ← read_text;
  type_val ← read_scalar 64 1;
  size ← read_scalar 64 8;
  created ← read_scalar 64 8;
  creator ← read_blob 64 32;
  tag_count ← read_scalar 64 4;
  labels ← rd_list (Z.to_nat tag_count) read_text;
  v ← read_scalar 64 4;
  sg ← read_blob 64 64;
  mime ← read_text;
  entry ← read_text;
  mret (MkThingMetadata hash title about (to_byte type_val) size created creator labels v sg mime entry).

Definition deserialize (data : bytes) : option ThingMetadata :=
  to_optional (run_reader metadata_reader data).

Definition text_fits (s : bytes) : Prop := in_u 32 (len s).

Definition metadata_encodable (m : ThingMetadata) : Prop :=
  text_fits (name m) ∧ text_fits (description m) ∧ in_u 64 (size_bytes m) ∧
  in_u 64 (created_timestamp m) ∧ in_u 32 (len (tags m)) ∧ Forall text_fits (tags m) ∧
  in_u 32 (version m) ∧ text_fits (mime_type m) ∧ text_fits (entry_point m).

#[export] Instance ThingMetadata_codec : Codec ThingMetadata :=
  {| encode := serialize; decode := deserialize; encodable := metadata_encodable |}.

(** *** The format *)

Lemma reads_text s : text_fits s → reads 64 read_text s (write_string s).
Proof.
  intros Hs. unfold read_text, write_string. rewrite (wrap_small _ _ Hs).
  eapply reads_bind; [by apply reads_scalar|]. by apply reads_string.
Qed.

Lemma consumes_text : consumes read_text (λ s e, e = write_string s ∧ text_fits s).
Proof.
  eapply consumes_mono.
  - eapply consumes_bind; [apply consumes_scalar|]. intros n e [_ Hn].
    apply consumes_string. unfold in_u in Hn. lia.
  - intros s e (n & e1 & e2 & [-> Hn] & [-> Hl] & ->). unfold write_string, text_fits.
    subst n. by rewrite (wrap_small 32 (len s) Hn).
Qed.

Lemma safe_text {B} (f : bytes → reader B) P :
  (∀ x, safe_at 64 0 (f x) P) → safe_at 64 0 (read_text ≫= f) P.
Proof.
  intros Hf. eapply (safe_then _ _ read_text _ (λ _, True)); [|auto]. unfold read_text.
  apply safe_scalar; [lia|by vm_compute|]. intros n Hn.
  intros d o Ho Hl Hd. unfold read_string.
  pose proof (safe_room 0 n (rd_raw n) (λ _, True) (W := 64)) as Hr.
  apply Hr; [lia|unfold in_u in *; cbn in *; lia| |done..].
  intros d' o' Ho' Hl' _. unfold rd_raw. unfold in_u in Hn. rewrite (proj2 (Z.leb_le _ _)) by lia.
  split; [done|lia].
Qed.

#[export] Hint Resolve consumes_text : reader.

Lemma reads_metadata m : metadata_encodable m → reads 64 metadata_reader m (serialize m).
Proof.
  intros (H1 & H2 & H3 & H4 & H5 & H6 & H7 & H8 & H9). unfold metadata_reader, serialize.
  eapply reads_bind; [apply reads_blob|]. eapply reads_bind; [by apply reads_text|].
  eapply reads_bind; [by apply reads_text|]. eapply reads_bind; [apply reads_byte|].
  eapply reads_bind; [by apply reads_scalar|]. eapply reads_bind; [by apply reads_scalar|].
  eapply reads_bind; [apply reads_blob|]. rewrite (wrap_small _ _ H5).
  eapply reads_bind; [by apply reads_scalar|]. eapply reads_bind.
  { unfold len. rewrite Nat2Z.id. apply reads_list.
    eapply list.Forall_impl; [exact H6|]. intros s Hs. by apply reads_text. }
  eapply reads_bind; [by apply reads_scalar|]. eapply reads_bind; [apply reads_blob|].
  eapply reads_bind; [by apply reads_text|].
  rewrite <- (app_nil_r (write_string (entry_point m))).
  eapply reads_bind; [by apply reads_text|]. rewrite to_byte_val. destruct m. apply reads_ret.
Qed.

Lemma consumes_metadata :
  consumes metadata_reader (λ m e, e = serialize m ∧ metadata_encodable m).
Proof.
  eapply consumes_mono.
  { unfold metadata_reader.
    repeat first
      [ apply consumes_ret
      | eapply consumes_bind;
        [ first [ by eauto with reader | apply consumes_list, consumes_text ]
        | intros ? ? ?; cbv beta ] ]. }
  intros m e Hm. cbv beta in Hm. open_fields.
  unfold serialize, metadata_encodable, in_u in *.
  cbn [content_hash name description type size_bytes created_timestamp creator_id tags version
    creator_signature mime_type entry_point].
  rewrite <- !le_bytes_1, !app_nil_r.
  match goal with H : length ?l = Z.to_nat ?n |- _ =>
    assert (n = len l) as -> by (unfold len; rewrite H; lia) end.
  rewrite wrap_small by (unfold in_u; done). cbn in *. split_and!; done || lia.
Qed.

#[export] Instance ThingMetadata_codec_laws : CodecLaws ThingMetadata.
Proof.
  by apply (reader_codec_laws _ metadata_reader); [|apply reads_metadata|apply consumes_metadata].
Qed.

Lemma safe_one_text : safe_at 64 0 read_text (λ _, True).
Proof.
  intros d o Ho Hl Hd. pose proof (safe_text (λ x, mret x) (λ _, True)) as Hs.
  specialize (Hs (λ x, safe_ret 0 x _ (Z.le_refl 0) I) d o Ho Hl Hd).
  unfold mbind at 1, reader_bind at 1 in Hs. by destruct (read_text d o) as [[? ?]| |].
Qed.

Lemma safe_metadata : safe_at 64 0 metadata_reader (λ _, True).
Proof.
  unfold metadata_reader.
  repeat first
    [ apply safe_ret; [lia|exact I]
    | apply safe_text; intros
    | apply safe_scalar; [lia|by vm_compute|intros]
    | apply safe_blob; [lia|by vm_compute|intros]
    | eapply safe_then; [by apply safe_list, safe_one_text|intros] ].
Qed.

(** ** Things *)

Record Thing := MkThing { data : bytes; metadata : ThingMetadata }.

Definition MAX_SIZE : Z := 500 * 1024 * 1024.

(** [metadata_key] *)
Definition metadata_key (h : ContentHash) : bytes := str "thing_meta_" ++ hash_to_hex h.

Section Things.
Context `{Crypto}.

Definition signed_message (m : ThingMetadata) : bytes :=
  arr (content_hash m) ++ name m ++ le_bytes 8 (created_timestamp m).

Definition verify_signature (m : ThingMetadata) (creator_public_key : PublicKey) : bool :=
  Ed25519.verify (signed_message m) (creator_signature m) creator_public_key.

Definition create (d : bytes) (m : ThingMetadata) : option Thing :=
  if MAX_SIZE <? len d then None
  else if len d =? 0 then None
  else if bool_decide (blake3 d ≠ content_hash m) then None
  else if negb (len d =? size_bytes m) then None
  else Some (MkThing d m).

(** [opened_content] and [opened_metadata] tell whether the two files open. *)
Definition load (h : ContentHash) (opened_content opened_metadata : bool) (s : Storage) :
    option Thing :=
  d ← get_content h opened_content s;
  meta_bytes ← get_metadata (metadata_key h) opened_metadata s;
  m ← deserialize meta_bytes;
  create d m.

Definition verify_integrity (t : Thing) : bool :=
  bool_decide (blake3 (data t) = content_hash (metadata t)).

Definition save (t : Thing) (w_content w_metadata : write_result) (s : Storage) : bool * Storage :=
  let m := metadata t in
  let '(ok, s) := put_content (content_hash m) (data t) w_content s in
  if negb ok then (false, s)
  else put_metadata (metadata_key (content_hash m)) (serialize m) w_metadata s.

End Things.

Definition get_chunk (offset length : Z) (t : Thing) : bytes :=
  if len (data t) <=? offset then []
  else sub (data t) offset (Z.min length (len (data t) - offset)).

(** ** What a thing is *)

Section Facts.
Context `{Crypto}.

Record thing_ok (t : Thing) : Prop := {
  tk_size : 0 < len (data t) <= MAX_SIZE;
  tk_announced : size_bytes (metadata t) = len (data t);
  tk_hash : blake3 (data t) = content_hash (metadata t)
}.

Lemma create_iff d m t : create d m = Some t ↔ t = MkThing d m ∧ thing_ok t.
Proof.
  unfold create. pose proof (len_nonneg d) as Hd. split.
  - destruct (Z.ltb_spec MAX_SIZE (len d)); [done|]. destruct (Z.eqb_spec (len d) 0); [done|].
    case_bool_decide as Eh; [done|]. destruct (Z.eqb_spec (len d) (size_bytes m)) as [Es|]; [|done].
    intros [= <-]. split; [done|]. split; cbn; [lia|done|].
    destruct (decide (blake3 d = content_hash m)); [done|by destruct Eh].
  - intros [-> [H1 H2 H3]]. cbn in *. rewrite (proj2 (Z.ltb_ge _ _)), (proj2 (Z.eqb_neq _ _)) by lia.
    rewrite bool_decide_false by (by intros []). by rewrite H2, Z.eqb_refl.
Qed.

(** A thing that was created or loaded. *)
Lemma load_ok h b1 b2 s t :
  load h b1 b2 s = Some t → thing_ok t ∧
  get_content h b1 s = Some (data t) ∧
  ∃ e, get_metadata (metadata_key h) b2 s = Some e ∧ deserialize e = Some (metadata t).
Proof.
  unfold load. destruct (get_content h b1 s) as [d|]; [|done]. cbn.
  destruct (get_metadata _ _ _) as [e|]; [|done]. cbn.
  destruct (deserialize e) as [m|] eqn:E; [|done]. cbn. intros [-> Ht]%create_iff. eauto.
Qed.

Lemma save_written t s :
  save t Written Written s = (true, (save t Written Written s).2) ∧
  get_content (content_hash (metadata t)) true (save t Written Written s).2 = Some (data t) ∧
  get_metadata (metadata_key (content_hash (metadata t))) true (save t Written Written s).2 =
    Some (serialize (metadata t)).
Proof.
  unfold save. cbn. split; [done|]. unfold get_content, get_metadata. cbn.
  by rewrite !lookup_insert_eq.
Qed.

Lemma load_parts h d m s :
  thing_ok (MkThing d m) → metadata_encodable m → vector_fits (serialize m) →
  get_content h true s = Some d → get_metadata (metadata_key h) true s = Some (serialize m) →
  load h true true s = Some (MkThing d m).
Proof.
  intros Ht He Hf H1 H2. unfold load. rewrite H1. cbn [mbind option_bind].
  rewrite H2. cbn [mbind option_bind].
  replace (deserialize (serialize m)) with (Some m) by (symmetry; exact (decode_encode_exact m He Hf)).
  cbn [mbind option_bind]. by apply create_iff.
Qed.

(** ** Properties *)

(** Metadata are read back from their bytes, whatever follows them; what is read is what
    was written, up to what follows; and no input is read out of bounds. *)
Theorem thing_metadata_codec m tail d :
  (metadata_encodable m → vector_fits (serialize m ++ tail) → deserialize (serialize m ++ tail) = Some m) ∧
  (deserialize d = Some m → ∃ rest, d = serialize m ++ rest ∧ metadata_encodable m) ∧
  (vector_fits d → run_reader metadata_reader d ≠ Undef).
Proof.
  split; [exact (decode_encode m tail)|]. split; [exact (decode_sound d m)|].
  intros Hd. pose proof (len_nonneg d). by eapply safe_run; [apply safe_metadata|..].
Qed.

(** A thing is created exactly from data of an admissible size whose hash and size the
    metadata state; one that is saved loads again unchanged, and whatever loads passes its
    integrity check; but the hash asked for is not compared, so data and metadata stored
    under another hash load as well. *)
Theorem things_saved_and_loaded d m s :
  (∀ t, create d m = Some t ↔ t = MkThing d m ∧ thing_ok t) ∧
  (∀ t, create d m = Some t → metadata_encodable m → vector_fits (serialize m) →
    let '(ok, s') := save t Written Written s in
    ok = true ∧ load (content_hash m) true true s' = Some t ∧ verify_integrity t = true) ∧
  (∀ h b1 b2 t, load h b1 b2 s = Some t → thing_ok t ∧ verify_integrity t = true) ∧
  ∀ h, thing_ok (MkThing d m) → metadata_encodable m → vector_fits (serialize m) →
    load h true true (put_metadata (metadata_key h) (serialize m) Written
                        (put_content h d Written s).2).2 = Some (MkThing d m).
Proof.
  assert (Hv : ∀ t, thing_ok t → verify_integrity t = true).
  { intros t [_ _ H3]. unfold verify_integrity. by rewrite H3, bool_decide_true. }
  split; [intros t; apply create_iff|]. split; [|split].
  - intros t [-> Ht]%create_iff He Hf. destruct (save_written (MkThing d m) s) as (Es & H1 & H2).
    destruct (save (MkThing d m) Written Written s) as [ok s']. injection Es as ->.
    split; [done|]. split; [|by apply Hv]. cbn [snd metadata data] in *. by apply load_parts.
  - intros h b1 b2 t (Ht & _)%load_ok. auto.
  - intros h Ht He Hf. apply load_parts; [done..| |].
    + unfold get_content, put_content. cbn. by rewrite lookup_insert_eq.
    + by rewrite get_put_metadata, decide_True.
Qed.

(** A chunk of a thing is the range asked for, cut at the end of the data, and the whole
    range is the data. *)
Lemma chunks_of_thing t o n :
  0 <= o → 0 <= n →
  get_chunk o n t = sub (data t) o n ∧ (len (get_chunk o n t) <= n) ∧
  get_chunk 0 (len (data t)) t = data t.
Proof.
  intros Ho Hn. pose proof (len_nonneg (data t)). unfold get_chunk.
  assert (E : (if len (data t) <=? o then [] else sub (data t) o (Z.min n (len (data t) - o))) =
              sub (data t) o n).
  { destruct (Z.leb_spec (len (data t)) o).
    - unfold sub. rewrite drop_ge; [by rewrite take_nil|unfold len in *; lia].
    - unfold sub. destruct (decide (n <= len (data t) - o)).
      + f_equal. lia.
      + rewrite !take_ge; [done|..]; rewrite length_drop; unfold len in *; lia. }
  rewrite E. split; [done|]. split.
  - unfold sub, len. rewrite length_take. lia.
  - destruct (Z.leb_spec (len (data t)) 0).
    + destruct (data t); [done|]. rewrite len_cons in *. pose proof (len_nonneg l). lia.
    + unfold sub. cbn. rewrite drop_0, take_ge; [done|]. unfold len. lia.
Qed.

(** The signature covers the content hash, the name and the creation time, and nothing
    else: metadata that agree in these three and in the signature verify alike, whatever
    their description, type, size, creator, tags, version, media type and entry point. *)
Theorem signature_covers_three_fields m m' pk :
  in_u 64 (created_timestamp m) → in_u 64 (created_timestamp m') →
  (signed_message m = signed_message m' ↔
   content_hash m = content_hash m' ∧ name m = name m' ∧ created_timestamp m = created_timestamp m') ∧
  (content_hash m = content_hash m' → name m = name m' → created_timestamp m = created_timestamp m' →
   creator_signature m = creator_signature m' → verify_signature m pk = verify_signature m' pk).
Proof.
  intros Hm Hm'.
  assert (Hs : signed_message m = signed_message m' ↔
    content_hash m = content_hash m' ∧ name m = name m' ∧ created_timestamp m = created_timestamp m').
  { unfold signed_message. split; [|by intros (-> & -> & ->)].
    intros [Ha E]%app_inj_1; [|by rewrite !length_arr]. apply arr_inj in Ha.
    apply app_inj_2 in E as [En Et]; [|by rewrite !length_le_bytes].
    by apply le_bytes_inj in Et. }
  split; [done|]. intros H1 H2 H3 H4. unfold verify_signature. rewrite H4.
  by rewrite (proj2 Hs).
Qed.

End Facts.

(** ** Concrete inputs *)

Definition sample_metadata : ThingMetadata :=
  MkThingMetadata (blake3 (Crypto := toy_crypto) (str "hello")) (str "greeting") (str "a document")
    "005"%byte 5 1700000000 (zeros 32) [str "text"; str "short"] 1 (zeros 64) (str "text/plain")
    (str "index.txt").

Lemma sample_encodable : metadata_encodable sample_metadata.
Proof.
  unfold metadata_encodable, text_fits, in_u.
  cbn [name description type size_bytes created_timestamp tags version mime_type entry_point
    sample_metadata].
  do 5 (split; [by vm_compute|]). split; [|do 2 (split; [by vm_compute|]); by vm_compute].
  apply list.Forall_cons; split; [|apply list.Forall_cons; split; [|done]]; by vm_compute.
Qed.

Lemma thing_metadata_codec_witness :
  deserialize (serialize sample_metadata ++ str "tail") = Some sample_metadata.
Proof.
  apply (thing_metadata_codec sample_metadata (str "tail") []); [apply sample_encodable|by vm_compute].
Defined.

Lemma things_saved_and_loaded_witness :
  ∃ t, create (H := toy_crypto) (str "hello") sample_metadata = Some t ∧
    load (H := toy_crypto) (content_hash sample_metadata) true true
      (save t Written Written new_storage).2 = Some t.
Proof.
  exists (MkThing (str "hello") sample_metadata).
  assert (E : create (H := toy_crypto) (str "hello") sample_metadata =
              Some (MkThing (str "hello") sample_metadata)) by (vm_compute; reflexivity).
  split; [exact E|].
  destruct (things_saved_and_loaded (H := toy_crypto) (str "hello") sample_metadata new_storage)
    as (_ & Hs & _).
  specialize (Hs _ E sample_encodable ltac:(vm_compute; reflexivity)).
  destruct (save (MkThing (str "hello") sample_metadata) Written Written new_storage) as [ok s'].
  destruct Hs as (_ & Hl & _). exact Hl.
Defined.

Lemma signature_covers_three_fields_witness :
  signed_message sample_metadata = signed_message sample_metadata ↔
  content_hash sample_metadata = content_hash sample_metadata ∧
  name sample_metadata = name sample_metadata ∧
  created_timestamp sample_metadata = created_timestamp sample_metadata.
Proof.
  apply (signature_covers_three_fields (H := toy_crypto) sample_metadata sample_metadata (zeros 32));
    by vm_compute.
Defined.
