(* ===== verification/Onion.v ===== *)
(** Onion routes: [OnionLayer], [OnionRouteBuilder], [OnionLayerPeeler] and
    [OnionCircuitManager] of src/security/onion_routing.hpp and onion_routing.cpp.

    Key pairs and random choices are arguments: [draws i] is what the library
    produces for the layer that has [i] hops behind it (the loop draws them in
    that order), [picks i] the i-th number of the generator behind a path. *)

From Stdlib Require Import Strings.Byte.
From S2P Require Import Prelude Reader Common Crypto Channel.

(** ** Layers *)

Record OnionLayer := MkOnionLayer {
  ephemeral_key : PublicKey;
  ciphertext : bytes;
  mac : array 16
}.

#[export] Instance OnionLayer_eq_dec : EqDecision OnionLayer.
Proof. solve_decision. Defined.

Definition onion_to_bytes (l : OnionLayer) : bytes :=
  arr (ephemeral_key l) ++ le_bytes 4 (u32 (len (ciphertext l))) ++ ciphertext l ++ arr (mac l).

Definition onion_fields : reader OnionLayer :=
  key ← raw_array 32;
  ciphertext_len ← raw_uint 4;
  _ ← rd_room 64 (ciphertext_len + 16);
  text ← rd_raw ciphertext_len;
  tag ← raw_array 16;
  mret (MkOnionLayer key text tag).

Definition onion_reader : reader OnionLayer := _ ← rd_min 52; onion_fields.

Definition onion_from_bytes (data : bytes) : option OnionLayer :=
  to_optional (run_reader onion_reader data).

Record OnionHop := MkOnionHop {
  hop_node_id : NodeID;
  node_public_key : PublicKey
}.

#[export] Instance OnionHop_eq_dec : EqDecision OnionHop.
Proof. solve_decision. Defined.

(** ** Building *)

Section Layers.
Context `{ChannelCrypto}.

Definition derive_shared_secret (our_secret : SecretKey) (their_public : PublicKey) : SessionKey :=
  from_option id (zeros 32) (X25519.exchange our_secret their_public).

(** [Nonce nonce{{0}}] *)
Definition zero_nonce : Nonce := zeros 12.

(** Ciphertext and tag. *)
Definition encrypt_layer (plaintext : bytes) (shared_secret : SessionKey) :
    outcome (bytes * array 16) :=
  c ← ChaCha20Poly1305.encrypt plaintext shared_secret zero_nonce;
  if 16 <=? len c then
    let n := (length c - 16)%nat in
    Ok (take n c, from_option id (zeros 16) (to_array 16 (drop n c)))
  else Ok (c, zeros 16).

(** One round of the loops: a layer for [hop] around [current]. *)
Definition seal_layer (hop : OnionHop) (current : bytes) (drawn : option (PublicKey * SecretKey)) :
    outcome OnionLayer :=
  kp ← X25519.generate_keypair drawn;
  let shared_secret := derive_shared_secret kp.2 (node_public_key hop) in
  sealed ← encrypt_layer current shared_secret;
  Ok (MkOnionLayer kp.1 sealed.1 sealed.2).

(** The loops run from the last hop to the first; here the hops behind come
    first.  [next] is what a round does to the payload it wraps. *)
Fixpoint wrap_hops (next : list OnionHop → bytes → bytes) (hops : list OnionHop) (payload : bytes)
    (draws : nat → option (PublicKey * SecretKey)) : outcome (list OnionLayer * bytes) :=
  match hops with
  | [] => Ok ([], payload)
  | hop :: behind =>
      r ← wrap_hops next behind payload draws;
      layer ← seal_layer hop (next behind r.2) (draws (length behind));
      Ok (layer :: r.1, onion_to_bytes layer)
  end.

Definition build_layers (hops : list OnionHop) (payload : bytes)
    (draws : nat → option (PublicKey * SecretKey)) : outcome (list OnionLayer) :=
  r ← wrap_hops (λ _ current, current) hops payload draws; Ok r.1.

(** The address of the next hop in front, unless the hop is the last. *)
Definition with_next_hop (behind : list OnionHop) (current : bytes) : bytes :=
  match behind with
  | next_hop :: _ => arr (hop_node_id next_hop) ++ current
  | [] => current
  end.

Definition build_layers_with_routing (hops : list OnionHop) (payload : bytes)
    (draws : nat → option (PublicKey * SecretKey)) : outcome (list OnionLayer) :=
  r ← wrap_hops with_next_hop hops payload draws; Ok r.1.

(** ** Peeling *)

Definition peel_layer (node_secret_key : SecretKey) (layer : OnionLayer) : option bytes :=
  ChaCha20Poly1305.decrypt (ciphertext layer ++ arr (mac layer))
    (derive_shared_secret node_secret_key (ephemeral_key layer)) zero_nonce.

(** The output parameters. *)
Record Outputs := MkOutputs {
  next_hop_out : NodeID;
  remaining_layers_out : list OnionLayer;
  final_payload_out : bytes
}.

(** [true] for a destination, [false] for a relay and for a failure. *)
Definition peel_with_routing (node_secret_key : SecretKey) (layer : OnionLayer) (out : Outputs) :
    bool * Outputs :=
  match peel_layer node_secret_key layer with
  | None => (false, out)
  | Some decrypted =>
      if len decrypted <? 32 then
        (true, MkOutputs (next_hop_out out) (remaining_layers_out out) decrypted)
      else
        let next_hop := from_option id (zeros 32) (to_array 32 (take 32 decrypted)) in
        let remaining_data := drop 32 decrypted in
        match onion_from_bytes remaining_data with
        | Some next_layer =>
            (false, MkOutputs next_hop (remaining_layers_out out ++ [next_layer])
                      (final_payload_out out))
        | None => (true, MkOutputs next_hop (remaining_layers_out out) remaining_data)
        end
  end.

(** ** Circuits *)

Record OnionCircuitManager := MkOnionCircuitManager {
  local_node_id : NodeID;
  node_secret_key : SecretKey;
  circuits_built : Z;
  layers_peeled : Z
}.

Definition new_circuit_manager (local : NodeID) (secret_key : SecretKey) : OnionCircuitManager :=
  MkOnionCircuitManager local secret_key 0 0.

(** [dis(gen)], uniform below the number of candidates. *)
Definition select_random_node (candidates : list OnionHop) (pick : nat) : OnionHop :=
  nth (pick mod length candidates) candidates (MkOnionHop (zeros 32) (zeros 32)).

(** The loop that draws [n] nodes without putting them back. *)
Fixpoint draw_nodes (n : nat) (candidates : list OnionHop) (picks : nat → nat) : list OnionHop :=
  match n, candidates with
  | O, _ | _, [] => []
  | S n, _ =>
      let node := select_random_node candidates (picks O) in
      node :: draw_nodes n (filter (λ c, hop_node_id c ≠ hop_node_id node) candidates)
                (picks ∘ S)
  end.

Definition select_path (available_nodes : list OnionHop) (destination : NodeID) (path_length : nat)
    (picks : nat → nat) (m : OnionCircuitManager) : list OnionHop :=
  let candidates :=
    filter (λ c, hop_node_id c ≠ local_node_id m ∧ hop_node_id c ≠ destination) available_nodes in
  draw_nodes (Nat.min path_length (length candidates)) candidates picks.

Definition build_circuit (destination : OnionHop) (available_nodes : list OnionHop)
    (payload : bytes) (picks : nat → nat) (draws : nat → option (PublicKey * SecretKey))
    (m : OnionCircuitManager) : outcome (list OnionLayer * OnionCircuitManager) :=
  let path := select_path available_nodes (hop_node_id destination) 3 picks m ++ [destination] in
  layers ← build_layers_with_routing path payload draws;
  Ok (layers, MkOnionCircuitManager (local_node_id m) (node_secret_key m)
                (u64 (circuits_built m + 1)) (layers_peeled m)).

Definition process_onion_request (layers : list OnionLayer) (out : Outputs)
    (m : OnionCircuitManager) : bool * Outputs * OnionCircuitManager :=
  match layers with
  | [] => (false, out, m)
  | layer :: _ =>
      (peel_with_routing (node_secret_key m) layer out,
       MkOnionCircuitManager (local_node_id m) (node_secret_key m) (circuits_built m)
         (u64 (layers_peeled m + 1)))
  end.

End Layers.

Definition is_node_suitable_for_path (node : OnionHop) (path : list OnionHop) : bool :=
  forallb (λ hop, bool_decide (hop_node_id hop ≠ hop_node_id node)) path.

(** A message that is handed on from node to node: the next hops on its way
    and the payload the last one takes for itself.  [None] when a node fails
    or when the nodes run out. *)
Fixpoint travel `{ChannelCrypto} (nodes : list OnionCircuitManager) (layers : list OnionLayer) :
    option (list NodeID * bytes) :=
  match nodes with
  | [] => None
  | m :: nodes =>
      match process_onion_request layers (MkOutputs (zeros 32) [] []) m with
      | (true, out, _) => Some ([], final_payload_out out)
      | (false, out, _) =>
          r ← travel nodes (remaining_layers_out out); Some (next_hop_out out :: r.1, r.2)
      end
  end.

(** ** The format of a layer *)

Lemma len_onion l : len (onion_to_bytes l) = 52 + len (ciphertext l).
Proof. unfold onion_to_bytes. autorewrite with len. lia. Qed.

Lemma reads_onion l : in_u 32 (len (ciphertext l)) → reads 64 onion_reader l (onion_to_bytes l).
Proof.
  intros Hl. apply reads_min; [rewrite len_onion; pose proof (len_nonneg (ciphertext l)); lia|].
  unfold onion_fields, onion_to_bytes. rewrite wrap_small by done.
  do 2 (eapply reads_bind; [first [apply reads_raw_array|by apply reads_raw_uint]|]).
  apply reads_room.
  { unfold len in *. rewrite length_app, length_arr. lia. }
  raw_reads_fields. destruct l. apply reads_ret.
Qed.

Lemma consumes_onion :
  consumes onion_reader (λ l e, e = onion_to_bytes l ∧ in_u 32 (len (ciphertext l))).
Proof.
  eapply consumes_mono; [unfold onion_reader, onion_fields; raw_consumes_fields|].
  intros l e He. cbv beta in He. open_fields. unfold onion_to_bytes. cbn.
  rewrite app_nil_r. split; [|done]. by rewrite wrap_small.
Qed.

#[export] Instance OnionLayer_codec : Codec OnionLayer :=
  {| encode := onion_to_bytes; decode := onion_from_bytes;
     encodable l := in_u 32 (len (ciphertext l)) |}.

#[export] Instance OnionLayer_codec_laws : CodecLaws OnionLayer.
Proof. by apply (reader_codec_laws _ onion_reader); [|apply reads_onion|apply consumes_onion]. Qed.

Lemma safe_onion : safe_at 64 52 onion_fields (λ _, True).
Proof.
  unfold onion_fields.
  eapply safe_bind; [apply fixed_raw_array|lia|]. intros key _.
  eapply safe_bind; [apply fixed_raw_uint|lia|]. intros n Hn. unfold in_u in Hn. cbn in Hn.
  apply safe_room; [lia|unfold in_u; lia|].
  eapply safe_bind; [apply fixed_raw; lia|lia|]. intros text _.
  eapply safe_bind; [apply fixed_raw_array|lia|]. intros tag _.
  apply safe_ret; [lia|done].
Qed.

(** ** One layer *)

Section Delivery.
Context `{ChannelCrypto, !ChannelLaws}.

Lemma encrypt_layer_opens m k c tag :
  encrypt_layer m k = Ok (c, tag) →
  ChaCha20Poly1305.decrypt (c ++ arr tag) k zero_nonce = Some m ∧ len c = len m.
Proof.
  unfold encrypt_layer. destruct (ChaCha20Poly1305.encrypt m k zero_nonce) as [e| |] eqn:E; [|done..].
  cbn [mbind outcome_bind]. pose proof (ChaCha20Poly1305.len_encrypt _ _ _ _ E) as Hl.
  unfold ABYTES in Hl. pose proof (len_nonneg m).
  rewrite (proj2 (Z.leb_le _ _)) by lia. intros [= <- <-].
  assert (Hd : length (drop (length e - 16) e) = 16%nat) by (rewrite length_drop; unfold len in *; lia).
  destruct (to_array_is_Some 16 _ Hd) as [a Ha]. rewrite Ha. cbn [from_option id].
  rewrite (proj1 (to_array_Some _ _ _) Ha), take_drop.
  split; [by eapply ChaCha20Poly1305.decrypt_encrypt|].
  unfold len in *. rewrite length_take. lia.
Qed.

Lemma peel_sealed hop sk current kp layer :
  X25519.keypair_ok (node_public_key hop, sk) → X25519.keypair_ok kp →
  seal_layer hop current (Some kp) = Ok layer →
  peel_layer sk layer = Some current ∧ len (ciphertext layer) = len current.
Proof.
  intros Hsk Hkp. unfold seal_layer. cbn [X25519.generate_keypair mbind outcome_bind].
  destruct (encrypt_layer current _) as [[c tag]| |] eqn:E; [|done..].
  cbn [mbind outcome_bind fst snd]. intros [= <-]. unfold peel_layer. cbn [ciphertext mac ephemeral_key].
  apply encrypt_layer_opens in E as [Hd Hl]. split; [|done]. rewrite <- Hd. f_equal.
  unfold derive_shared_secret. f_equal.
  exact (eq_sym (X25519.exchange_agree kp (node_public_key hop, sk) Hkp Hsk)).
Qed.

(** ** A route *)

(** A hop and the circuit manager of the node it names. *)
Definition serves (hop : OnionHop) (m : OnionCircuitManager) : Prop :=
  X25519.keypair_ok (node_public_key hop, node_secret_key m).

Definition fresh_pairs (draws : nat → option (PublicKey * SecretKey)) (n : nat) : Prop :=
  ∀ i, (i < n)%nat → ∃ kp, draws i = Some kp ∧ X25519.keypair_ok kp.

(** The last node takes the first 32 bytes of a payload for an address. *)
Definition delivered (payload : bytes) : option bytes :=
  if len payload <? 32 then Some payload
  else match onion_from_bytes (drop 32 payload) with
       | Some _ => None
       | None => Some (drop 32 payload)
       end.

Lemma relay_step sk layer next rest :
  peel_layer sk layer = Some (arr (hop_node_id next) ++ onion_to_bytes rest) →
  in_u 32 (len (ciphertext rest)) →
  peel_with_routing sk layer (MkOutputs (zeros 32) [] []) =
    (false, MkOutputs (hop_node_id next) [rest] []).
Proof.
  intros Hp Hc. unfold peel_with_routing. rewrite Hp, len_app, len_arr.
  pose proof (len_nonneg (onion_to_bytes rest)).
  rewrite (proj2 (Z.ltb_ge _ _)) by lia. rewrite take_app_length', drop_app_length' by (by rewrite length_arr).
  rewrite to_array_arr. cbn [from_option id].
  assert (Hf : vector_fits (onion_to_bytes rest))
    by (unfold vector_fits; rewrite len_onion; unfold in_u in Hc; lia).
  assert (onion_from_bytes (onion_to_bytes rest) = Some rest) as ->; [|done].
  exact (decode_encode_exact (A := OnionLayer) rest Hc Hf).
Qed.

Lemma last_step sk layer payload :
  peel_layer sk layer = Some payload →
  ∃ next, peel_with_routing sk layer (MkOutputs (zeros 32) [] []) =
    match delivered payload with
    | Some final => (true, MkOutputs next [] final)
    | None => (false, MkOutputs next (option_list (onion_from_bytes (drop 32 payload))) [])
    end.
Proof.
  intros Hp. unfold peel_with_routing, delivered. rewrite Hp.
  destruct (len payload <? 32); [by eexists|].
  destruct (onion_from_bytes (drop 32 payload)); by eexists.
Qed.

Lemma travel_relay m nodes layer ls next rest :
  peel_with_routing (node_secret_key m) layer (MkOutputs (zeros 32) [] []) =
    (false, MkOutputs next [rest] []) →
  travel (m :: nodes) (layer :: ls) = r ← travel nodes [rest]; Some (next :: r.1, r.2).
Proof. cbn [travel process_onion_request]. by intros ->. Qed.

(** Only the outermost layer of what is sent matters. *)
Lemma travel_first nodes layer ls : travel nodes (layer :: ls) = travel nodes [layer].
Proof. by destruct nodes. Qed.

Lemma wrap_travels hops nodes payload draws layers current :
  Forall2 serves hops nodes → fresh_pairs draws (length hops) → hops ≠ [] →
  len payload + 84 * len hops < 2 ^ 32 →
  wrap_hops with_next_hop hops payload draws = Ok (layers, current) →
  travel nodes layers = (λ final, (hop_node_id <$> tail hops, final)) <$> delivered payload ∧
  length layers = length hops ∧
  ∃ first, head layers = Some first ∧ current = onion_to_bytes first ∧
    len (ciphertext first) + 32 + 52 <= len payload + 84 * len hops.
Proof.
  intros Hs. revert layers current. induction Hs as [|hop m hops nodes Hm Hs IH]; [done|].
  intros layers current Hd _ Hl. cbn [wrap_hops]. rewrite len_cons in Hl. pose proof (len_nonneg hops).
  destruct (wrap_hops with_next_hop hops payload draws) as [[ls cur]| |] eqn:E; [|done..].
  cbn [mbind outcome_bind fst snd].
  destruct (Hd (length hops)) as (kp & Ekp & Hkp); [cbn; lia|]. rewrite Ekp.
  destruct (seal_layer hop (with_next_hop hops cur) (Some kp)) as [layer| |] eqn:El; [|done..].
  cbn [mbind outcome_bind]. intros [= <- <-].
  destruct (peel_sealed hop (node_secret_key m) _ kp layer Hm Hkp El) as [Hp Hc].
  destruct Hs as [|hop' m' hops nodes Hm' Hs].
  - injection E as <- <-. cbn [with_next_hop] in Hp, Hc. rewrite len_cons, len_nil.
    destruct (last_step _ _ _ Hp) as [next Hn]. cbn [travel process_onion_request]. rewrite Hn.
    split; [by destruct (delivered payload)|]. split; [done|]. exists layer. split; [done|].
    split; [done|]. lia.
  - destruct (IH ls cur) as (Ht & Hn & first & Hh & -> & Hb); [|done|lia|done|].
    { intros i Hi. apply Hd. cbn in *. lia. }
    destruct ls as [|first' ls]; [done|]. injection Hh as ->. cbn [with_next_hop] in Hp, Hc.
    pose proof (len_nonneg (ciphertext first)). rewrite !len_cons in *.
    rewrite len_app, len_arr, len_onion in Hc.
    pose proof (len_nonneg hops). pose proof (len_nonneg payload).
    rewrite (travel_relay _ _ _ _ _ _ (relay_step _ _ _ _ Hp ltac:(unfold in_u; lia))).
    rewrite <- (travel_first _ first ls), Ht. split; [by destruct (delivered payload)|]. split; [cbn in *; lia|].
    exists layer. split; [done|]. split; [done|]. rewrite ?len_cons. lia.
Qed.

End Delivery.

(** ** Paths *)

Lemma select_random_elem candidates pick :
  candidates ≠ [] → select_random_node candidates pick ∈ candidates.
Proof.
  intros Hc. unfold select_random_node. apply list_elem_of_In, nth_In.
  apply Nat.mod_upper_bound. by destruct candidates.
Qed.

Lemma draw_nodes_spec n candidates picks :
  draw_nodes n candidates picks ⊆ candidates ∧
  NoDup (hop_node_id <$> draw_nodes n candidates picks) ∧
  (length (draw_nodes n candidates picks) <= n)%nat.
Proof.
  revert candidates picks. induction n as [|n IH]; intros candidates picks; cbn;
    [split; [set_solver|split; [constructor|lia]]|].
  destruct candidates as [|c cs] eqn:Ec; [split; [set_solver|split; [constructor|cbn; lia]]|].
  rewrite <- Ec in *. set (node := select_random_node candidates (picks O)).
  assert (node ∈ candidates) as Hin by (apply select_random_elem; by rewrite Ec).
  destruct (IH (filter (λ c, hop_node_id c ≠ hop_node_id node) candidates) (picks ∘ S))
    as (Hs & Hn & Hl). split; [|split; [|cbn; lia]].
  - intros x [->|Hx]%elem_of_cons; [done|]. apply Hs in Hx. by apply list_elem_of_filter in Hx as [_ ?].
  - cbn. constructor; [|done]. intros (x & Hx & Hin')%list_elem_of_fmap.
    apply Hs, list_elem_of_filter in Hin' as [Hne _]. done.
Qed.

Lemma others_absent x (l : list OnionHop) :
  x ∉ hop_node_id <$> l → length (filter (λ c, hop_node_id c ≠ x) l) = length l.
Proof.
  induction l as [|c l IH]; [done|]. rewrite fmap_cons, not_elem_of_cons. intros [Hc Hl].
  rewrite list.filter_cons, decide_True by congruence. cbn. by rewrite IH.
Qed.

Lemma others_distinct x (l : list OnionHop) :
  NoDup (hop_node_id <$> l) → (length l <= S (length (filter (λ c, hop_node_id c ≠ x) l)))%nat.
Proof.
  induction l as [|c l IH]; [cbn; lia|]. rewrite fmap_cons, list.NoDup_cons. intros [Hc Hl].
  rewrite list.filter_cons. destruct (decide (hop_node_id c = x)) as [<-|Hx].
  - rewrite decide_False by (intros Hx; by apply Hx). by rewrite others_absent.
  - rewrite decide_True by done. cbn. specialize (IH Hl). lia.
Qed.

(** With distinct candidates the path has as many hops as asked for, if there are so many. *)
Lemma draw_nodes_length n candidates picks :
  NoDup (hop_node_id <$> candidates) → (n <= length candidates)%nat →
  length (draw_nodes n candidates picks) = n.
Proof.
  revert candidates picks. induction n as [|n IH]; intros candidates picks Hd Hl; [done|].
  cbn [draw_nodes]. destruct candidates as [|c cs] eqn:Ec; [cbn in Hl; lia|]. rewrite <- Ec in *.
  set (node := select_random_node candidates (picks O)). cbn [length]. f_equal. apply IH.
  - eapply list.sublist_NoDup; [exact Hd|]. apply list.fmap_sublist, sublist_filter.
  - pose proof (others_distinct (hop_node_id node) candidates Hd). lia.
Qed.

Lemma select_path_spec available destination n picks m :
  let path := select_path available destination n picks m in
  path ⊆ available ∧ NoDup (hop_node_id <$> path) ∧ (length path <= n)%nat ∧
  Forall (λ hop, hop_node_id hop ≠ local_node_id m ∧ hop_node_id hop ≠ destination) path.
Proof.
  cbn zeta. unfold select_path. set (candidates := filter _ available).
  destruct (draw_nodes_spec (Nat.min n (length candidates)) candidates picks) as (Hs & Hn & Hl).
  split; [|split; [done|split; [lia|]]].
  - intros x Hx%Hs. by apply list_elem_of_filter in Hx as [_ ?].
  - apply list.Forall_forall. intros x Hx%Hs. by apply list_elem_of_filter in Hx as [? _].
Qed.

(** ** Properties *)

Section Circuits.
Context `{ChannelCrypto, !ChannelLaws}.

(** C8: a circuit built with fresh key pairs over nodes that serve their part has at
    most four different nodes, the destination last, and each of them opens exactly
    its own layer and sends the rest to the next; the destination gets the payload
    when it is shorter than 32 bytes, and a longer one never arrives whole: its first
    32 bytes are taken for an address. *)
Theorem circuit_delivers destination available payload picks draws m layers m' nodes :
  let path := select_path available (hop_node_id destination) 3 picks m ++ [destination] in
  build_circuit destination available payload picks draws m = Ok (layers, m') →
  fresh_pairs draws (length path) → Forall2 serves path nodes → len payload < 2 ^ 31 →
  (length path <= 4)%nat ∧ length layers = length path ∧ NoDup (hop_node_id <$> path) ∧
  path ⊆ available ++ [destination] ∧
  (len payload < 32 → travel nodes layers = Some (hop_node_id <$> tail path, payload)) ∧
  (32 <= len payload → ∀ stops, travel nodes layers ≠ Some (stops, payload)) ∧
  (32 <= len payload → onion_from_bytes (drop 32 payload) = None →
     travel nodes layers = Some (hop_node_id <$> tail path, drop 32 payload)).
Proof.
  intros path. unfold build_circuit. fold path. unfold build_layers_with_routing.
  destruct (wrap_hops with_next_hop path payload draws) as [[ls current]| |] eqn:E; [|done..].
  cbn [mbind outcome_bind fst snd]. intros [= <- _] Hd Hs Hl.
  destruct (select_path_spec available (hop_node_id destination) 3 picks m) as (Hin & Hn & H3 & Hf).
  assert (Hlen : (length path <= 4)%nat) by (unfold path; rewrite length_app; change (length [destination]) with 1%nat; lia).
  assert (Hne : path ≠ []) by (unfold path; by destruct (select_path _ _ _ _ _)).
  destruct (wrap_travels path nodes payload draws ls current Hs Hd Hne) as (Ht & Hll & _);
    [assert (len path <= 4) by (unfold len; lia); lia|done|].
  split; [done|]. split; [done|]. split; [|split; [|split; [|split]]].
  - unfold path. rewrite fmap_app. apply list.NoDup_app. split; [done|].
    split; [|by apply NoDup_singleton]. intros x (hop & -> & Hx)%list_elem_of_fmap.
    rewrite list.Forall_forall in Hf. destruct (Hf _ Hx) as [_ Hne'].
    intros Hy%list_elem_of_singleton. done.
  - unfold path. set_solver.
  - intros H32. rewrite Ht. unfold delivered. by rewrite (proj2 (Z.ltb_lt _ _)).
  - intros H32 stops. rewrite Ht. unfold delivered. rewrite (proj2 (Z.ltb_ge _ _)) by done.
    destruct (onion_from_bytes (drop 32 payload)); [done|]. cbn. intros [= _ Hp].
    assert (length (drop 32 payload) = length payload) as Hx by (by rewrite Hp).
    rewrite length_drop in Hx. unfold len in H32. lia.
  - intros H32 Ho. rewrite Ht. unfold delivered. by rewrite (proj2 (Z.ltb_ge _ _)), Ho.
Qed.

End Circuits.

(** ** Concrete inputs *)

Definition onion_secret (b : Z) : SecretKey := array_fill 64 (to_byte b).

Definition onion_node (b : Z) : OnionCircuitManager :=
  new_circuit_manager (array_fill 32 (to_byte b)) (onion_secret b).

Definition onion_hop (b : Z) : OnionHop :=
  MkOnionHop (array_fill 32 (to_byte b)) (scalar_of (onion_secret b)).

Definition onion_draw (i : nat) : option (PublicKey * SecretKey) :=
  let sk := onion_secret (100 + Z.of_nat i) in Some (scalar_of sk, sk).

Definition onion_available : list OnionHop := onion_hop <$> [1; 2; 3; 4; 5].

Definition onion_path : list OnionHop :=
  select_path onion_available (hop_node_id (onion_hop 4)) 3 id (onion_node 1) ++ [onion_hop 4].

Definition onion_nodes : list OnionCircuitManager := onion_node <$> [2; 5; 3; 4].

Example onion_path_is : onion_path = onion_hop <$> [2; 5; 3; 4].
Proof. apply (bool_decide_eq_true_1 _). vm_compute. reflexivity. Qed.

Definition onion_built : list OnionLayer * OnionCircuitManager :=
  match build_circuit (H := toy_channel) (onion_hop 4) onion_available (str "hello") id onion_draw
          (onion_node 1) with
  | Ok r => r
  | _ => ([], onion_node 1)
  end.

Lemma circuit_delivers_witness :
  travel (H := toy_channel) onion_nodes onion_built.1 =
  Some (hop_node_id <$> tail onion_path, str "hello").
Proof.
  assert (E : build_circuit (H := toy_channel) (onion_hop 4) onion_available (str "hello") id
                onion_draw (onion_node 1) = Ok (onion_built.1, onion_built.2)).
  { rewrite <- surjective_pairing. apply ok_value. vm_compute. reflexivity. }
  pose proof toy_channel_laws as Hlaws.
  destruct (circuit_delivers (H := toy_channel) (onion_hop 4) onion_available (str "hello") id
    onion_draw (onion_node 1) _ _ onion_nodes E) as (_ & _ & _ & _ & Ht & _).
  - intros i _. eexists. split; reflexivity.
  - change (select_path _ _ _ _ _ ++ _) with onion_path. rewrite onion_path_is.
    unfold onion_nodes. repeat (constructor; [reflexivity|]). constructor.
  - by vm_compute.
  - apply Ht. by vm_compute.
Defined.
