(* ===== verification/IpProtection.v ===== *)
(** Hiding the pattern of connections: [PeerRotationManager],
    [EphemeralAddressManager], [TrafficPaddingEngine] and
    [IPProtectionCoordinator] of src/security/ip_protection.hpp and
    ip_protection.cpp.

    The clock in seconds is [now], read once per operation; random bytes and
    the numbers the generators draw are arguments. *)

From Stdlib Require Import Strings.Byte.
From S2P Require Import Prelude Common Crypto Floats.

(** ** Connections *)

Record ConnectionInfo := MkConnectionInfo {
  peer_id : NodeID;
  ip_address : bytes;
  port : Z;
  connection_time : Z;
  last_activity_time : Z;
  bytes_sent : Z;
  bytes_received : Z;
  messages_sent : Z;
  messages_received : Z
}.

Definition connection_duration (now : Z) (c : ConnectionInfo) : Z := u64 (now - connection_time c).

Definition is_stale (now stale_threshold_seconds : Z) (c : ConnectionInfo) : bool :=
  stale_threshold_seconds <? u64 (now - last_activity_time c).

Record PeerRotationPolicy := MkPeerRotationPolicy {
  max_connection_duration_seconds : Z;
  min_connection_duration_seconds : Z;
  activity_timeout_seconds : Z;
  rotation_interval_seconds : Z;
  min_peer_pool_size : Z;
  rotation_percentage : float
}.

Definition default_rotation_policy : PeerRotationPolicy :=
  MkPeerRotationPolicy 1800 300 600 120 8 (literal 1 4).

(** ** Rotation of peers *)

Record PeerRotationManager := MkPeerRotationManager {
  policy : PeerRotationPolicy;
  connections : gmap NodeID ConnectionInfo;
  last_rotation_time : Z;
  total_rotations : Z;
  forced_rotations : Z
}.

Definition new_rotation_manager (now : Z) (p : PeerRotationPolicy) : PeerRotationManager :=
  MkPeerRotationManager p ∅ now 0 0.

Definition update_policy (p : PeerRotationPolicy) (m : PeerRotationManager) : PeerRotationManager :=
  MkPeerRotationManager p (connections m) (last_rotation_time m) (total_rotations m) (forced_rotations m).

Definition with_connections (cs : gmap NodeID ConnectionInfo) (m : PeerRotationManager) :
    PeerRotationManager :=
  MkPeerRotationManager (policy m) cs (last_rotation_time m) (total_rotations m) (forced_rotations m).

Definition register_connection (now : Z) (peer : NodeID) (ip : bytes) (p : Z)
    (m : PeerRotationManager) : PeerRotationManager :=
  with_connections (<[peer := MkConnectionInfo peer ip p now now 0 0 0 0]> (connections m)) m.

(** The transfer counters are [uint64_t], the message counters [uint32_t]. *)
Definition note_activity (now sent received : Z) (c : ConnectionInfo) : ConnectionInfo :=
  MkConnectionInfo (peer_id c) (ip_address c) (port c) (connection_time c) now
    (u64 (bytes_sent c + sent)) (u64 (bytes_received c + received))
    (if 0 <? sent then u32 (messages_sent c + 1) else messages_sent c)
    (if 0 <? received then u32 (messages_received c + 1) else messages_received c).

Definition update_activity (now : Z) (peer : NodeID) (sent received : Z)
    (m : PeerRotationManager) : PeerRotationManager :=
  match connections m !! peer with
  | Some c => with_connections (<[peer := note_activity now sent received c]> (connections m)) m
  | None => m
  end.

Definition unregister_connection (peer : NodeID) (m : PeerRotationManager) : PeerRotationManager :=
  with_connections (delete peer (connections m)) m.

Definition meets_rotation_criteria (now : Z) (c : ConnectionInfo) (m : PeerRotationManager) : bool :=
  let duration := connection_duration now c in
  if duration <? min_connection_duration_seconds (policy m) then false
  else if max_connection_duration_seconds (policy m) <=? duration then true
  else is_stale now (activity_timeout_seconds (policy m)) c.

(** [static_cast<size_t>(connections_.size() * policy_.rotation_percentage)]:
    undefined for a product that is no number or out of range. *)
Definition rotation_quota (m : PeerRotationManager) : outcome Z :=
  match truncate (fmul (float_of (Z.of_nat (size (connections m)))) (rotation_percentage (policy m))) with
  | Some z => if decide (in_u 64 z) then Ok z else Undef
  | None => Undef
  end.

(** Candidates with their durations, in the order of the map. *)
Definition rotation_candidates (now : Z) (m : PeerRotationManager) : list (NodeID * Z) :=
  (λ kc, (kc.1, connection_duration now kc.2)) <$>
    filter (λ kc, meets_rotation_criteria now kc.2 m = true) (entries (connections m)).

(** [sort] is [std::sort] by descending duration. *)
Definition select_peers_for_rotation (sort : list (NodeID * Z) → list (NodeID * Z)) (now : Z)
    (m : PeerRotationManager) : outcome (list NodeID * PeerRotationManager) :=
  if Z.of_nat (size (connections m)) <? min_peer_pool_size (policy m) then Ok ([], m)
  else if u64 (now - last_rotation_time m) <? rotation_interval_seconds (policy m) then Ok ([], m)
  else
    let candidates := sort (rotation_candidates now m) in
    quota ← rotation_quota m;
    let to_rotate := (take (Z.to_nat (Z.min quota (len candidates))) candidates).*1 in
    Ok (to_rotate,
        match to_rotate with
        | [] => m
        | _ => MkPeerRotationManager (policy m) (connections m) now
                 (u64 (total_rotations m + len to_rotate)) (forced_rotations m)
        end).

Definition should_rotate_peer (now : Z) (peer : NodeID) (m : PeerRotationManager) : bool :=
  match connections m !! peer with
  | Some c => meets_rotation_criteria now c m
  | None => false
  end.

Definition time_until_next_rotation (now : Z) (m : PeerRotationManager) : Z :=
  let elapsed := u64 (now - last_rotation_time m) in
  if rotation_interval_seconds (policy m) <=? elapsed then 0
  else rotation_interval_seconds (policy m) - elapsed.

Definition get_all_connections (m : PeerRotationManager) : list ConnectionInfo :=
  (entries (connections m)).*2.

Definition get_connection_info (peer : NodeID) (m : PeerRotationManager) : option ConnectionInfo :=
  connections m !! peer.

Definition active_connection_count (m : PeerRotationManager) : Z := Z.of_nat (size (connections m)).

(** ** Ephemeral addresses *)

Record EphemeralAddress := MkEphemeralAddress {
  ephemeral_id : Hash256;
  creation_time : Z;
  expiry_time : Z;
  actual_node_id : NodeID
}.

Definition is_expired (now : Z) (a : EphemeralAddress) : bool := expiry_time a <=? now.

Definition time_remaining (now : Z) (a : EphemeralAddress) : Z :=
  if expiry_time a <=? now then 0 else expiry_time a - now.

Record EphemeralAddressManager := MkEphemeralAddressManager {
  addresses : gmap Hash256 EphemeralAddress;
  current_own_ephemeral_id : Hash256;
  default_ttl_seconds : Z;
  rotation_count : Z
}.

Definition with_addresses (a : gmap Hash256 EphemeralAddress) (m : EphemeralAddressManager) :
    EphemeralAddressManager :=
  MkEphemeralAddressManager a (current_own_ephemeral_id m) (default_ttl_seconds m) (rotation_count m).

Section Ephemeral.
Context `{Crypto}.

(** [random] holds the 32 bytes of [Random::generate]. *)
Definition generate_ephemeral_id (random : bytes) : Hash256 := blake3 random.

Definition new_ephemeral_manager (default_ttl : Z) (random : bytes) : EphemeralAddressManager :=
  MkEphemeralAddressManager ∅ (generate_ephemeral_id random) default_ttl 0.

Definition create_address (now : Z) (random : bytes) (node : NodeID) (ttl_seconds : Z)
    (m : EphemeralAddressManager) : EphemeralAddress * EphemeralAddressManager :=
  let ttl := if ttl_seconds =? 0 then default_ttl_seconds m else ttl_seconds in
  let addr := MkEphemeralAddress (generate_ephemeral_id random) now (u64 (now + ttl)) node in
  (addr, with_addresses (<[ephemeral_id addr := addr]> (addresses m)) m).

Definition rotate_own_address (random : bytes) (m : EphemeralAddressManager) : EphemeralAddressManager :=
  MkEphemeralAddressManager (addresses m) (generate_ephemeral_id random) (default_ttl_seconds m)
    (u64 (rotation_count m + 1)).

End Ephemeral.

Definition resolve_address (now : Z) (id : Hash256) (m : EphemeralAddressManager) :
    option NodeID * EphemeralAddressManager :=
  match addresses m !! id with
  | None => (None, m)
  | Some a =>
      if is_expired now a then (None, with_addresses (delete id (addresses m)) m)
      else (Some (actual_node_id a), m)
  end.

Definition revoke_address (id : Hash256) (m : EphemeralAddressManager) : EphemeralAddressManager :=
  with_addresses (delete id (addresses m)) m.

(** First the expired identifiers are collected, then they are erased. *)
Definition cleanup_expired (now : Z) (m : EphemeralAddressManager) : EphemeralAddressManager :=
  let to_remove := (filter (λ ka, is_expired now ka.2 = true) (entries (addresses m))).*1 in
  with_addresses (foldl (λ a id, delete id a) (addresses m) to_remove) m.

(** ** Padding *)

Record TrafficPaddingEngine := MkTrafficPaddingEngine {
  padding_enabled : bool;
  dummy_traffic_enabled : bool;
  jitter_enabled : bool
}.

Definition new_padding_engine : TrafficPaddingEngine := MkTrafficPaddingEngine true false true.

Definition set_padding_enabled (enabled : bool) (e : TrafficPaddingEngine) : TrafficPaddingEngine :=
  MkTrafficPaddingEngine enabled (dummy_traffic_enabled e) (jitter_enabled e).

Definition set_dummy_traffic_enabled (enabled : bool) (e : TrafficPaddingEngine) : TrafficPaddingEngine :=
  MkTrafficPaddingEngine (padding_enabled e) enabled (jitter_enabled e).

Definition set_jitter_enabled (enabled : bool) (e : TrafficPaddingEngine) : TrafficPaddingEngine :=
  MkTrafficPaddingEngine (padding_enabled e) (dummy_traffic_enabled e) enabled.

(** [random_extra] is drawn between 0 and 64. *)
Definition calculate_padding_size (message_size random_extra : Z) : Z :=
  let padded_size := u64 (u64 (message_size + 127) / 128 * 128) in
  u64 (padded_size - message_size + random_extra).

(** [random n] holds the [n] bytes of [Random::generate]. *)
Definition add_padding (random_extra : Z) (random : Z → bytes) (message : bytes)
    (e : TrafficPaddingEngine) : bytes :=
  if padding_enabled e then
    let padding_size := calculate_padding_size (len message) random_extra in
    message ++ le_bytes 2 (u16 padding_size) ++ random padding_size
  else message.

Definition remove_padding (padded_message : bytes) (e : TrafficPaddingEngine) : option bytes :=
  if negb (padding_enabled e) || (len padded_message <? 2) then Some padded_message
  else
    let message_end := len padded_message - 2 in
    if message_end <? 2 then None
    else
      let pad_len := le_val (sub padded_message (message_end - 2) 2) in
      if message_end <? 2 + pad_len then None
      else Some (take (Z.to_nat (message_end - 2)) padded_message).

(** [draw] comes from [dis(0, 100)], [dis(1, 100)]. *)
Definition calculate_jitter_delay (draw : Z) (e : TrafficPaddingEngine) : Z :=
  if jitter_enabled e then draw else 0.

Definition should_send_dummy (draw : Z) (e : TrafficPaddingEngine) : bool :=
  dummy_traffic_enabled e && (draw <=? 5).

(** [draw] comes from [dis(100, 1000)]. *)
Definition generate_dummy_message (draw : Z) (random : Z → bytes) : bytes := random draw.

(** ** The coordinator *)

Record IPProtectionCoordinator := MkIPProtectionCoordinator {
  local_node_id : NodeID;
  rotation_manager : PeerRotationManager;
  ephemeral_manager : EphemeralAddressManager;
  padding_engine : TrafficPaddingEngine;
  peer_rotation_enabled : bool;
  ephemeral_addressing_enabled : bool;
  last_tick_time : Z;
  messages_padded : Z;
  dummy_messages_sent : Z
}.

Definition with_rotation (r : PeerRotationManager) (c : IPProtectionCoordinator) : IPProtectionCoordinator :=
  MkIPProtectionCoordinator (local_node_id c) r (ephemeral_manager c) (padding_engine c)
    (peer_rotation_enabled c) (ephemeral_addressing_enabled c) (last_tick_time c)
    (messages_padded c) (dummy_messages_sent c).

Definition with_ephemeral (m : EphemeralAddressManager) (c : IPProtectionCoordinator) : IPProtectionCoordinator :=
  MkIPProtectionCoordinator (local_node_id c) (rotation_manager c) m (padding_engine c)
    (peer_rotation_enabled c) (ephemeral_addressing_enabled c) (last_tick_time c)
    (messages_padded c) (dummy_messages_sent c).

Definition with_flags (rotation addressing : bool) (c : IPProtectionCoordinator) : IPProtectionCoordinator :=
  MkIPProtectionCoordinator (local_node_id c) (rotation_manager c) (ephemeral_manager c)
    (padding_engine c) rotation addressing (last_tick_time c) (messages_padded c) (dummy_messages_sent c).

Definition enable_peer_rotation (enable : bool) (c : IPProtectionCoordinator) : IPProtectionCoordinator :=
  with_flags enable (ephemeral_addressing_enabled c) c.

Definition enable_ephemeral_addressing (enable : bool) (c : IPProtectionCoordinator) :
    IPProtectionCoordinator :=
  with_flags (peer_rotation_enabled c) enable c.

Definition enable_traffic_padding (enable : bool) (c : IPProtectionCoordinator) : IPProtectionCoordinator :=
  MkIPProtectionCoordinator (local_node_id c) (rotation_manager c) (ephemeral_manager c)
    (set_padding_enabled enable (padding_engine c)) (peer_rotation_enabled c)
    (ephemeral_addressing_enabled c) (last_tick_time c) (messages_padded c) (dummy_messages_sent c).

Definition when_rotating (f : PeerRotationManager → PeerRotationManager) (c : IPProtectionCoordinator) :
    IPProtectionCoordinator :=
  if peer_rotation_enabled c then with_rotation (f (rotation_manager c)) c else c.

Definition on_connection_established (now : Z) (peer : NodeID) (ip : bytes) (p : Z) :=
  when_rotating (register_connection now peer ip p).

Definition on_connection_closed (peer : NodeID) := when_rotating (unregister_connection peer).

Definition on_data_sent (now : Z) (peer : NodeID) (n : Z) := when_rotating (update_activity now peer n 0).

Definition on_data_received (now : Z) (peer : NodeID) (n : Z) := when_rotating (update_activity now peer 0 n).

Section Coordinator.
Context `{Crypto}.

Definition new_coordinator (now : Z) (local : NodeID) (p : PeerRotationPolicy) (random : bytes) :
    IPProtectionCoordinator :=
  MkIPProtectionCoordinator local (new_rotation_manager now p) (new_ephemeral_manager 3600 random)
    new_padding_engine true true now 0 0.

Definition tick (now : Z) (random : bytes) (c : IPProtectionCoordinator) : IPProtectionCoordinator :=
  let elapsed := u64 (now - last_tick_time c) in
  let m := if ephemeral_addressing_enabled c && (60 <=? elapsed)
           then cleanup_expired now (ephemeral_manager c) else ephemeral_manager c in
  let m := if ephemeral_addressing_enabled c && (1800 <=? elapsed)
           then rotate_own_address random m else m in
  MkIPProtectionCoordinator (local_node_id c) (rotation_manager c) m (padding_engine c)
    (peer_rotation_enabled c) (ephemeral_addressing_enabled c) now
    (messages_padded c) (dummy_messages_sent c).

Definition get_peers_to_rotate (sort : list (NodeID * Z) → list (NodeID * Z)) (now : Z)
    (c : IPProtectionCoordinator) : outcome (list NodeID * IPProtectionCoordinator) :=
  if peer_rotation_enabled c then
    r ← select_peers_for_rotation sort now (rotation_manager c); Ok (r.1, with_rotation r.2 c)
  else Ok ([], c).

Definition create_ephemeral_address (now : Z) (random : bytes) (node : NodeID)
    (c : IPProtectionCoordinator) : EphemeralAddress * IPProtectionCoordinator :=
  let r := create_address now random node 0 (ephemeral_manager c) in
  (r.1, with_ephemeral r.2 c).

End Coordinator.

Definition resolve_ephemeral_address (now : Z) (id : Hash256) (c : IPProtectionCoordinator) :
    option NodeID * IPProtectionCoordinator :=
  let r := resolve_address now id (ephemeral_manager c) in
  (r.1, with_ephemeral r.2 c).

Definition prepare_outgoing_message (random_extra : Z) (random : Z → bytes) (message : bytes)
    (c : IPProtectionCoordinator) : bytes * IPProtectionCoordinator :=
  let padded := add_padding random_extra random message (padding_engine c) in
  (padded,
   if len padded =? len message then c
   else MkIPProtectionCoordinator (local_node_id c) (rotation_manager c) (ephemeral_manager c)
          (padding_engine c) (peer_rotation_enabled c) (ephemeral_addressing_enabled c)
          (last_tick_time c) (u64 (messages_padded c + 1)) (dummy_messages_sent c)).

Definition process_incoming_message (message : bytes) (c : IPProtectionCoordinator) : option bytes :=
  remove_padding message (padding_engine c).

Record Statistics := MkStatistics {
  stats_total_rotations : Z;
  stats_active_connections : Z;
  stats_active_ephemeral_addresses : Z;
  stats_messages_padded : Z;
  stats_dummy_messages_sent : Z
}.

Definition get_statistics (c : IPProtectionCoordinator) : Statistics :=
  MkStatistics (total_rotations (rotation_manager c))
    (active_connection_count (rotation_manager c))
    (Z.of_nat (size (addresses (ephemeral_manager c)))) (messages_padded c) (dummy_messages_sent c).

Definition newline : byte := "010"%byte.

Definition stats_to_string (s : Statistics) : bytes :=
  str "IP Protection Statistics:" ++ newline ::
  str "  Total rotations: " ++ dec (stats_total_rotations s) ++ newline ::
  str "  Active connections: " ++ dec (stats_active_connections s) ++ newline ::
  str "  Active ephemeral addresses: " ++ dec (stats_active_ephemeral_addresses s) ++ newline ::
  str "  Messages padded: " ++ dec (stats_messages_padded s) ++ newline ::
  str "  Dummy messages sent: " ++ dec (stats_dummy_messages_sent s).

(** ** Operations of a coordinator *)

Inductive coordinator_op :=
  | OpEstablished (now : Z) (peer : NodeID) (ip : bytes) (p : Z)
  | OpClosed (peer : NodeID)
  | OpSent (now : Z) (peer : NodeID) (n : Z)
  | OpReceived (now : Z) (peer : NodeID) (n : Z)
  | OpTick (now : Z) (random : bytes)
  | OpRotate (now : Z)
  | OpCreate (now : Z) (random : bytes) (node : NodeID)
  | OpResolve (now : Z) (id : Hash256)
  | OpPrepare (random_extra : Z) (random : Z → bytes) (message : bytes)
  | OpFlags (rotation addressing padding : bool).

Section Runs.
Context `{Crypto} (sort : list (NodeID * Z) → list (NodeID * Z)).

Definition step (o : coordinator_op) (c : IPProtectionCoordinator) : outcome IPProtectionCoordinator :=
  match o with
  | OpEstablished now peer ip p => Ok (on_connection_established now peer ip p c)
  | OpClosed peer => Ok (on_connection_closed peer c)
  | OpSent now peer n => Ok (on_data_sent now peer n c)
  | OpReceived now peer n => Ok (on_data_received now peer n c)
  | OpTick now random => Ok (tick now random c)
  | OpRotate now => r ← get_peers_to_rotate sort now c; Ok r.2
  | OpCreate now random node => Ok (create_ephemeral_address now random node c).2
  | OpResolve now id => Ok (resolve_ephemeral_address now id c).2
  | OpPrepare extra random message => Ok (prepare_outgoing_message extra random message c).2
  | OpFlags rotation addressing padding =>
      Ok (enable_traffic_padding padding
            (enable_ephemeral_addressing addressing (enable_peer_rotation rotation c)))
  end.

Fixpoint run (ops : list coordinator_op) (c : IPProtectionCoordinator) : outcome IPProtectionCoordinator :=
  match ops with
  | [] => Ok c
  | o :: ops => c ← step o c; run ops c
  end.

End Runs.

(** The ticks of a sequence, the last before it at [last], are less than a
    minute apart. *)
Fixpoint frequent_ticks (last : Z) (ops : list coordinator_op) : Prop :=
  match ops with
  | [] => True
  | OpTick now _ :: ops => last <= now < last + 60 ∧ frequent_ticks now ops
  | _ :: ops => frequent_ticks last ops
  end.

Definition resolves (id : Hash256) (o : coordinator_op) : Prop :=
  match o with OpResolve _ id' => id' = id | _ => False end.

(** Every entry is stored under its own name. *)
Record protection_wf (c : IPProtectionCoordinator) : Prop := {
  wf_connections : map_Forall (λ k i, peer_id i = k) (connections (rotation_manager c));
  wf_addresses : map_Forall (λ k a, ephemeral_id a = k) (addresses (ephemeral_manager c))
}.

(** ** Selecting peers *)

Lemma elem_of_rotation_candidates now m k d :
  (k, d) ∈ rotation_candidates now m ↔
  ∃ i, connections m !! k = Some i ∧ meets_rotation_criteria now i m = true ∧ d = connection_duration now i.
Proof.
  unfold rotation_candidates. rewrite list_elem_of_fmap. split.
  - intros ([k' i] & [= -> ->] & [Hm He%elem_of_entries]%list_elem_of_filter). by exists i.
  - intros (i & He & Hm & ->). exists (k, i). split; [done|]. apply list_elem_of_filter.
    split; [done|]. by apply elem_of_entries.
Qed.

Lemma NoDup_rotation_candidates now m : NoDup (rotation_candidates now m).*1.
Proof.
  unfold rotation_candidates. rewrite <- list_fmap_compose.
  eapply list.sublist_NoDup; [apply (NoDup_entries (connections m))|].
  erewrite (list_fmap_ext (_ ∘ _) fst); [|by intros]. apply list.fmap_sublist, sublist_filter.
Qed.

Lemma take_longest {A} (l : list (A * Z)) j :
  StronglySorted (λ p q, q.2 <= p.2) l →
  ∀ p q, p ∈ take j l → q ∈ drop j l → q.2 <= p.2.
Proof.
  intros Hs p q Hp Hq. rewrite <- (take_drop j l) in Hs.
  by apply (StronglySorted_app_1_elem_of _ _ _ p q Hs).
Qed.

Lemma should_rotate_candidate now m k :
  should_rotate_peer now k m = true ↔ ∃ d, (k, d) ∈ rotation_candidates now m.
Proof.
  unfold should_rotate_peer. setoid_rewrite elem_of_rotation_candidates.
  destruct (connections m !! k) as [i|]; split.
  - intros Hm. eauto.
  - intros (d & i' & [= <-] & ? & _). done.
  - done.
  - intros (d & i & ? & _). done.
Qed.

(** The quarter of a pool under the default policy: up to 4096 connections. *)
Lemma default_quota n :
  (n <= 4096)%nat →
  truncate (fmul (float_of (Z.of_nat n)) (literal 1 4)) = Some (Z.of_nat n / 4).
Proof.
  intros Hn.
  assert (forallb (λ n, bool_decide (truncate (fmul (float_of (Z.of_nat n)) (literal 1 4)) =
    Some (Z.of_nat n / 4))) (seq 0 4097) = true) as Hall by (vm_compute; reflexivity).
  rewrite forallb_forall in Hall. eapply bool_decide_eq_true_1, Hall, in_seq. lia.
Qed.

Lemma rotation_quota_default m :
  policy m = default_rotation_policy → (size (connections m) <= 4096)%nat →
  rotation_quota m = Ok (Z.of_nat (size (connections m)) / 4).
Proof.
  intros Hp Hn. unfold rotation_quota. rewrite Hp.
  change (rotation_percentage default_rotation_policy) with (literal 1 4).
  rewrite default_quota by done. rewrite decide_True; [done|]. unfold in_u. Z.to_euclidean_division_equations. lia.
Qed.

(** The peers selected for rotation are distinct and due, none that is due and older is
    left out for a younger one, no connection changes, selection waits for the minimal
    pool and the interval, and with the default policy at most a quarter of the
    connections is taken. *)
Theorem rotation_selection sort now m sel m' :
  sorts_descending sort → select_peers_for_rotation sort now m = Ok (sel, m') →
  NoDup sel ∧ (∀ k, k ∈ sel → should_rotate_peer now k m = true) ∧
  (∀ k k' i i', k ∈ sel → k' ∉ sel → should_rotate_peer now k' m = true →
     connections m !! k = Some i → connections m !! k' = Some i' →
     connection_duration now i' <= connection_duration now i) ∧
  connections m' = connections m ∧
  (sel ≠ [] → min_peer_pool_size (policy m) <= Z.of_nat (size (connections m)) ∧
     rotation_interval_seconds (policy m) <= u64 (now - last_rotation_time m) ∧
     last_rotation_time m' = now ∧ total_rotations m' = u64 (total_rotations m + len sel)) ∧
  (policy m = default_rotation_policy → (size (connections m) <= 4096)%nat →
     4 * len sel <= Z.of_nat (size (connections m))).
Proof.
  intros Hsort. unfold select_peers_for_rotation.
  assert (∀ n : nat, 4 * 0 <= Z.of_nat n) as H0 by lia.
  destruct (Z.ltb_spec (Z.of_nat (size (connections m))) (min_peer_pool_size (policy m)));
    [intros [= <- <-]; split; [constructor|]; split_and!; set_solver|].
  destruct (Z.ltb_spec (u64 (now - last_rotation_time m)) (rotation_interval_seconds (policy m)));
    [intros [= <- <-]; split; [constructor|]; split_and!; set_solver|].
  destruct (Hsort (rotation_candidates now m)) as [Hp Hs].
  set (l := sort (rotation_candidates now m)) in *.
  destruct (rotation_quota m) as [q| |] eqn:Eq; [|done..]. cbn [mbind outcome_bind].
  set (j := Z.to_nat (Z.min q (len l))). intros E. injection E as Esel Em.
  assert (Hin : ∀ k, k ∈ sel ↔ ∃ d, (k, d) ∈ take j l).
  { intros k. rewrite <- Esel, list_elem_of_fmap. split; [intros ([? d] & -> & ?); by exists d|].
    intros (d & ?). by exists (k, d). }
  assert (Hcand : ∀ k d, (k, d) ∈ l ↔ (k, d) ∈ rotation_candidates now m) by (intros; by rewrite Hp).
  split; [|split; [|split; [|split; [|split]]]].
  - rewrite <- Esel. pose proof (NoDup_rotation_candidates now m) as Hn. rewrite <- Hp in Hn.
    eapply list.sublist_NoDup; [exact Hn|]. apply list.fmap_sublist, sublist_take.
  - intros k (d & Hd)%Hin. apply should_rotate_candidate. exists d. apply Hcand.
    rewrite <- (take_drop j l). apply elem_of_app. by left.
  - intros k k' i i' (d & Hd)%Hin Hout (d' & Hd')%should_rotate_candidate Hi Hi'.
    assert ((k, d) ∈ rotation_candidates now m) as Hc
      by (apply Hcand; rewrite <- (take_drop j l); apply elem_of_app; by left).
    apply elem_of_rotation_candidates in Hc as (? & Hc & _ & ->).
    pose proof Hd' as (? & Hc' & _ & ->)%elem_of_rotation_candidates. simplify_eq.
    apply (take_longest l j Hs (k, connection_duration now i) (k', connection_duration now i')); [done|].
    apply Hcand in Hd'. rewrite <- (take_drop j l) in Hd'. apply elem_of_app in Hd' as [Ht|]; [|done].
    destruct Hout. apply Hin. by eexists.
  - rewrite <- Em. by destruct (take j l).*1.
  - intros Hne. rewrite <- Em. rewrite Esel. destruct sel; [done|]. split_and!; done.
  - intros Hpol Hsz. rewrite (rotation_quota_default m Hpol Hsz) in Eq. injection Eq as <-.
    rewrite <- Esel. unfold len. rewrite length_fmap, length_take. unfold j.
    Z.to_euclidean_division_equations. lia.
Qed.

(** ** Padding *)

Lemma le_val_two x : in_u 16 x → le_val (le_bytes 2 x) = x.
Proof. intros Hx. rewrite le_val_bytes. by apply wrap_small. Qed.

(** A padded message comes back from the removal of its padding exactly when padding is
    disabled, or when exactly two bytes were added to a message of at least two: the
    length of the padding is written in front of it and looked for near the end. *)
Theorem padding_lost random_extra random message e :
  in_u 32 (len message) → 0 <= random_extra <= 64 → (∀ n, 0 <= n → len (random n) = n) →
  remove_padding (add_padding random_extra random message e) e = Some message ↔
  padding_enabled e = false ∨
  (calculate_padding_size (len message) random_extra = 2 ∧ 2 <= len message).
Proof.
  intros Hm Hx Hr. unfold remove_padding, add_padding. destruct (padding_enabled e);
    cbn [negb orb]; [|split; auto]. unfold in_u in Hm.
  set (p := calculate_padding_size (len message) random_extra).
  assert (Hp : 0 <= p < 200).
  { unfold p, calculate_padding_size.
    assert (0 <= (len message + 127) / 128 * 128 - len message < 128) by (pose proof (len_nonneg message); Z.to_euclidean_division_equations; lia).
    rewrite (wrap_small 64 (len message + 127)) by (unfold in_u; lia).
    rewrite (wrap_small 64 (_ / _ * _)) by (unfold in_u; lia). rewrite wrap_small; unfold in_u; lia. }
  rewrite (wrap_small 16) by (unfold in_u; lia).
  set (padded := message ++ le_bytes 2 p ++ random p).
  assert (Hl : len padded = len message + 2 + p)
    by (unfold padded; rewrite !len_app, len_le_bytes, Hr; lia).
  assert (Hfield : p = 2 → le_val (sub padded (len padded - 2 - 2) 2) = 2).
  { intros Hp2. rewrite Hl. unfold padded. replace (len message + 2 + p - 2 - 2) with (len message) by lia.
    rewrite sub_middle_n by (by rewrite len_le_bytes). rewrite Hp2. by apply le_val_two. }
  rewrite (proj2 (Z.ltb_ge _ _)) by (clear -Hl Hp; pose proof (len_nonneg message); lia). split.
  - case_scrut; [done|]. case_scrut; [done|]. bool_to_prop. intros [= E]. right.
    assert (p = 2) as Hp2.
    { apply (f_equal len) in E. unfold len in E at 1. rewrite length_take in E.
      clear -Hl Heqb E. unfold len in *. lia. }
    split; [done|]. specialize (Hfield Hp2). clear -Hfield Hl Hp2 Heqb0. lia.
  - intros [?|[Hp2 H2]]; [done|].
    rewrite Hfield by done. rewrite Hl, Hp2.
    rewrite !(proj2 (Z.ltb_ge _ _)) by (clear -H2; lia). f_equal.
    unfold padded. apply take_app_length'. clear -H2. unfold len in *. lia.
Qed.

(** ** The invariant *)

Lemma foldl_delete_lookup {K V} `{Countable K} (ids : list K) (a : gmap K V) k :
  foldl (λ a id, delete id a) a ids !! k = if decide (k ∈ ids) then None else a !! k.
Proof.
  revert a. induction ids as [|id ids IH]; intros a; cbn [foldl]; [done|]. rewrite IH.
  destruct (decide (k ∈ ids)) as [Hin|Hin].
  - rewrite decide_True by (apply elem_of_cons; by right). done.
  - destruct (decide (k = id)) as [->|Hne].
    + rewrite lookup_delete_eq, decide_True; [done|apply list_elem_of_here].
    + rewrite lookup_delete_ne by done. rewrite decide_False; [done|]. by intros [|]%elem_of_cons.
Qed.

(** Exactly the expired addresses go. *)
Lemma address_cleanup now m k :
  addresses (cleanup_expired now m) !! k =
  a ← addresses m !! k; if is_expired now a then None else Some a.
Proof.
  unfold cleanup_expired. cbn [addresses with_addresses]. rewrite foldl_delete_lookup.
  destruct (addresses m !! k) as [a|] eqn:E; cbn.
  - destruct (is_expired now a) eqn:Ex.
    + rewrite decide_True; [done|]. apply list_elem_of_fmap. exists (k, a). split; [done|].
      apply list_elem_of_filter. split; [done|]. by apply elem_of_entries.
    + rewrite decide_False; [done|].
      intros ([? a'] & -> & [Hx He%elem_of_entries]%list_elem_of_filter)%list_elem_of_fmap.
      cbn in *. congruence.
  - by case_decide.
Qed.

Section Properties.
Context `{Crypto} (sort : list (NodeID * Z) → list (NodeID * Z)).

Lemma select_connections now m sel m' :
  select_peers_for_rotation sort now m = Ok (sel, m') → connections m' = connections m.
Proof.
  unfold select_peers_for_rotation. do 2 (case_scrut; [intros [= _ <-]; done|]).
  destruct (rotation_quota m); [|done..]. cbn [mbind outcome_bind]. intros [= _ <-].
  by destruct (take _ _).*1.
Qed.

Lemma new_coordinator_wf now local p random : protection_wf (new_coordinator now local p random).
Proof. split; apply map_Forall_empty. Qed.

Lemma note_activity_wf now peer s r m :
  map_Forall (λ k i, peer_id i = k) (connections m) →
  map_Forall (λ k i, peer_id i = k) (connections (update_activity now peer s r m)).
Proof.
  intros Hm. unfold update_activity. destruct (connections m !! peer) as [i|] eqn:E; [|done].
  apply map_Forall_insert_2; [exact (Hm _ _ E)|done].
Qed.

Lemma step_ephemeral o c c' :
  step sort o c = Ok c' →
  match o with
  | OpTick now random => c' = tick now random c
  | OpCreate now random node => c' = (create_ephemeral_address now random node c).2
  | OpResolve now id => c' = (resolve_ephemeral_address now id c).2
  | _ => ephemeral_manager c' = ephemeral_manager c ∧ last_tick_time c' = last_tick_time c
  end.
Proof.
  destruct o; cbn [step]; try (intros [= <-]; done);
    try (intros [= <-]; unfold on_connection_established, on_connection_closed, on_data_sent,
         on_data_received, when_rotating; destruct (peer_rotation_enabled c); done).
  - unfold get_peers_to_rotate. destruct (peer_rotation_enabled c); [|intros [= <-]; done].
    destruct (select_peers_for_rotation _ _ _); [|done..]. intros [= <-]. done.
  - intros [= <-]. unfold prepare_outgoing_message. cbn [snd]. by case_scrut.
Qed.

Lemma protection_step o c c' : protection_wf c → step sort o c = Ok c' → protection_wf c'.
Proof.
  intros [Hc Ha] E. split.
  - destruct o; cbn [step] in E;
      unfold on_connection_established, on_connection_closed, on_data_sent, on_data_received,
        when_rotating, get_peers_to_rotate in E; try (by injection E as <-);
      try (destruct (peer_rotation_enabled c); injection E as <-; [|done]; cbn [rotation_manager with_rotation]).
    + apply map_Forall_insert_2; done.
    + by apply map_Forall_delete.
    + by apply note_activity_wf.
    + by apply note_activity_wf.
    + destruct (peer_rotation_enabled c); [|by injection E as <-].
      destruct (select_peers_for_rotation sort now (rotation_manager c)) as [[sel r]| |] eqn:Es; [|done..].
      injection E as <-. cbn. by rewrite (select_connections _ _ _ _ Es).
    + injection E as <-. unfold prepare_outgoing_message. cbn [snd]. by case_scrut.
  - apply step_ephemeral in E. destruct o; try (destruct E as [-> _]; done); subst c'.
    + assert (map_Forall (λ k a, ephemeral_id a = k) (addresses (cleanup_expired now (ephemeral_manager c)))).
      { intros k a Hk. rewrite address_cleanup in Hk. destruct (addresses _ !! k) eqn:Ek; [|done].
        cbn in Hk. case_match; [done|]. injection Hk as <-. by apply Ha. }
      unfold tick. cbn [ephemeral_manager]. by repeat case_match.
    + apply map_Forall_insert_2; done.
    + unfold resolve_ephemeral_address, resolve_address. cbn [snd ephemeral_manager with_ephemeral].
      repeat case_match; try done. by apply map_Forall_delete.
Qed.

Lemma protection_run ops c c' : protection_wf c → run sort ops c = Ok c' → protection_wf c'.
Proof.
  revert c. induction ops as [|o ops IH]; intros c Hc; cbn [run]; [by intros [= <-]|].
  destruct (step sort o c) as [c1| |] eqn:E; [|done..]. apply IH. by eapply protection_step.
Qed.

(** ** Ephemeral addresses *)

(** What a tick does that comes late enough. *)
Lemma late_tick now random c :
  ephemeral_addressing_enabled c = true → 1800 <= u64 (now - last_tick_time c) →
  current_own_ephemeral_id (ephemeral_manager (tick now random c)) = generate_ephemeral_id random ∧
  ∀ k, addresses (ephemeral_manager (tick now random c)) !! k =
    a ← addresses (ephemeral_manager c) !! k; if is_expired now a then None else Some a.
Proof.
  intros He Ht. unfold tick. rewrite He. cbn [andb ephemeral_manager].
  rewrite !(proj2 (Z.leb_le _ _)) by lia. split; [done|]. apply address_cleanup.
Qed.

Lemma early_tick now random c :
  in_u 64 now → last_tick_time c <= now < last_tick_time c + 60 → 0 <= last_tick_time c →
  ephemeral_manager (tick now random c) = ephemeral_manager c.
Proof.
  unfold in_u. intros Hn Ht H0. unfold tick. cbn [ephemeral_manager].
  rewrite wrap_small by (unfold in_u; lia).
  rewrite (proj2 (Z.leb_gt 60 _)), (proj2 (Z.leb_gt 1800 _)), !andb_false_r by lia. done.
Qed.

(** An address resolves until it expires, and never again. *)
Theorem ephemeral_lifecycle now now' random node ttl m :
  0 < ttl → 0 <= now → now + ttl < 2 ^ 64 →
  let r := create_address now random node ttl m in
  resolve_address now' (ephemeral_id r.1) r.2 =
    if now' <? now + ttl then (Some node, r.2)
    else (None, revoke_address (ephemeral_id r.1) r.2).
Proof.
  intros Ht H0 Hb. unfold create_address. rewrite (proj2 (Z.eqb_neq _ _)) by lia.
  rewrite wrap_small by (unfold in_u; lia). cbn [fst snd ephemeral_id].
  unfold resolve_address. cbn [addresses with_addresses]. rewrite lookup_insert_eq.
  unfold is_expired. cbn [expiry_time]. destruct (Z.ltb_spec now' (now + ttl)).
  - by rewrite (proj2 (Z.leb_gt _ _)) by lia.
  - by rewrite (proj2 (Z.leb_le _ _)) by lia.
Qed.

(** As long as the coordinator is ticked more often than once a minute, its ticks do
    nothing, however long that goes on: the own ephemeral identifier stays, no rotation is
    counted and no address expires unless it is resolved. *)
Theorem frequent_ticks_do_nothing ops c c' :
  run sort ops c = Ok c' → 0 <= last_tick_time c →
  frequent_ticks (last_tick_time c) ops →
  Forall (λ o, match o with OpTick now _ => in_u 64 now | _ => True end) ops →
  current_own_ephemeral_id (ephemeral_manager c') = current_own_ephemeral_id (ephemeral_manager c) ∧
  rotation_count (ephemeral_manager c') = rotation_count (ephemeral_manager c) ∧
  (∀ k, is_Some (addresses (ephemeral_manager c) !! k) → Forall (λ o, ¬ resolves k o) ops →
     is_Some (addresses (ephemeral_manager c') !! k)).
Proof.
  revert c. induction ops as [|o ops IH]; intros c; cbn [run]; [by intros [= <-]|].
  destruct (step sort o c) as [c1| |] eqn:E; [|done..]. cbn [mbind outcome_bind].
  intros Hrun H0 Hf Hu. apply list.Forall_cons in Hu as [Ho Hu].
  apply step_ephemeral in E.
  assert (last_tick_time c1 = match o with OpTick now _ => now | _ => last_tick_time c end ∧
    current_own_ephemeral_id (ephemeral_manager c1) = current_own_ephemeral_id (ephemeral_manager c) ∧
    rotation_count (ephemeral_manager c1) = rotation_count (ephemeral_manager c) ∧
    (∀ k, is_Some (addresses (ephemeral_manager c) !! k) → ¬ resolves k o →
       is_Some (addresses (ephemeral_manager c1) !! k))) as (Ht & Hid & Hc & Ha).
  { destruct o; try (destruct E as [-> ->]; done); subst c1.
    - destruct Hf as [Hf _]. by rewrite early_tick.
    - split_and!; try done. intros k Hk _. cbn. destruct (decide (generate_ephemeral_id random = k)) as [->|].
      + rewrite lookup_insert_eq. by eexists.
      + by rewrite lookup_insert_ne.
    - unfold resolve_ephemeral_address, resolve_address. cbn.
      repeat case_match; split_and!; try done. intros k Hk Hr. cbn in *. by rewrite lookup_delete_ne. }
  destruct (IH c1 Hrun) as (Hid' & Hc' & Ha').
  - rewrite Ht. destruct o; try done. destruct Hf; lia.
  - rewrite Ht. destruct o; try done. by destruct Hf.
  - done.
  - rewrite Hid', Hc'. split_and!; [done..|]. intros k Hk Hr. apply list.Forall_cons in Hr as [Hr Hrs].
    apply Ha'; [|done]. by apply Ha.
Qed.

End Properties.

(** ** Examples *)

Module Sample.

Definition no_node : NodeID := zeros 32.

(** Eight connections, one made at each of the first eight seconds. *)
Definition pool : PeerRotationManager :=
  foldl (λ m i, register_connection (Z.of_nat i) (array_fill 32 (to_byte (Z.of_nat i))) (str "10.0.0.1") 7777 m)
    (new_rotation_manager 0 default_rotation_policy) (seq 1 8).

Definition filler (n : Z) : bytes := replicate (Z.to_nat n) "x"%byte.

Lemma len_filler n : 0 <= n → len (filler n) = n.
Proof. intros Hn. unfold filler, len. rewrite length_replicate. lia. Qed.

Definition coordinator : IPProtectionCoordinator :=
  @new_coordinator toy_crypto 1000 no_node default_rotation_policy (str "seed").

(** An address for an hour, and a tick every half minute for two. *)
Definition two_hours : list coordinator_op :=
  OpCreate 1000 (str "random") no_node ::
  ((λ i, OpTick (1000 + 30 * Z.of_nat i) (str "more")) <$> seq 1 240).

Definition its_id : Hash256 := @generate_ephemeral_id toy_crypto (str "random").

End Sample.

Lemma rotation_selection_witness :
  ∃ r, select_peers_for_rotation (merge_sort by_score) 1805 Sample.pool = Ok r ∧
    len r.1 = 2 ∧ 4 * len r.1 <= Z.of_nat (size (connections Sample.pool)).
Proof.
  set (o := select_peers_for_rotation (merge_sort by_score) 1805 Sample.pool).
  assert (is_ok o = true) as Hok by (vm_compute; reflexivity).
  set (r := match o with Ok r => r | _ => ([], Sample.pool) end).
  exists r. assert (o = Ok (r.1, r.2)) as E.
  { rewrite (ok_value o ([], Sample.pool) Hok). unfold r. by destruct o as [[??]| |]. }
  split; [rewrite E; by destruct r|]. split; [vm_compute; reflexivity|].
  apply (rotation_selection (merge_sort by_score) 1805 Sample.pool r.1 r.2 merge_sort_descending E).
  - reflexivity.
  - apply Nat.leb_le. vm_compute. reflexivity.
Defined.

Lemma padding_lost_witness :
  remove_padding (add_padding 0 Sample.filler (Sample.filler 126) new_padding_engine) new_padding_engine =
    Some (Sample.filler 126) ∧
  remove_padding (add_padding 0 Sample.filler (str "hello") new_padding_engine) new_padding_engine ≠
    Some (str "hello").
Proof.
  split.
  - apply (padding_lost 0 Sample.filler (Sample.filler 126) new_padding_engine);
      [vm_compute; split; congruence|lia|apply Sample.len_filler|].
    right. split; vm_compute; congruence.
  - intros E. apply (padding_lost 0 Sample.filler (str "hello") new_padding_engine) in E;
      [|vm_compute; split; congruence|lia|apply Sample.len_filler].
    destruct E as [E|[E _]]; vm_compute in E; discriminate.
Defined.

Lemma frequent_ticks_do_nothing_witness :
  ∃ c', @run toy_crypto (merge_sort by_score) Sample.two_hours Sample.coordinator = Ok c' ∧
    current_own_ephemeral_id (ephemeral_manager c') =
      current_own_ephemeral_id (ephemeral_manager Sample.coordinator) ∧
    last_tick_time c' = 8200 ∧ (expiry_time <$> addresses (ephemeral_manager c') !! Sample.its_id) = Some 4600.
Proof.
  set (r := @run toy_crypto (merge_sort by_score) Sample.two_hours Sample.coordinator).
  assert (is_ok r = true) as Hok by (vm_compute; reflexivity).
  eexists. split; [exact (ok_value r Sample.coordinator Hok)|]. split; [|split; vm_compute; reflexivity].
  apply (@frequent_ticks_do_nothing toy_crypto (merge_sort by_score) Sample.two_hours Sample.coordinator _
    (ok_value r Sample.coordinator Hok)).
  - vm_compute. congruence.
  - unfold Sample.two_hours. cbn [frequent_ticks]. vm_compute. repeat (split; [split; [congruence|reflexivity]|]). exact I.
  - unfold Sample.two_hours. constructor; [exact I|]. apply list.Forall_fmap, list.Forall_forall. intros i Hi%elem_of_seq.
    unfold compose, in_u. lia.
Defined.
