(* ===== verification/Revocation.v ===== *)
(** What the lists of revoked tokens and of revoked keys share: the format of
    an update and the life of an entry (src/security/token_revocation.cpp and
    key_revocation.cpp, which spell both out twice). *)

From Stdlib Require Import Strings.Byte.
From S2P Require Import Prelude Reader Common.

(** ** Updates *)

Record ListUpdate (A : Type) := MkListUpdate {
  update_revocations : list A;
  update_timestamp : Z;
  update_source_node : NodeID;
  update_signature : Signature
}.
Arguments MkListUpdate {A} _ _ _ _.
Arguments update_revocations {A} _.
Arguments update_timestamp {A} _.
Arguments update_source_node {A} _.
Arguments update_signature {A} _.

Section Format.
Context {A : Type} (to_bytes : A → bytes) (item_reader : reader A).

Definition item_frame (x : A) : bytes := le_bytes 4 (u32 (len (to_bytes x))) ++ to_bytes x.

Definition update_to_bytes (u : ListUpdate A) : bytes :=
  le_bytes 8 (update_timestamp u) ++ arr (update_source_node u) ++
  le_bytes 4 (u32 (len (update_revocations u))) ++ mjoin (item_frame <$> update_revocations u) ++
  arr (update_signature u).

(** One iteration of the loop: a length, a copy of so many bytes, its parser. *)
Definition read_item : reader A :=
  n ← read_scalar 64 4;
  item ← read_string 64 n;
  rd_part item_reader item.

Definition update_fields : reader (ListUpdate A) :=
  ts ← raw_uint 8;
  source ← raw_array 32;
  count ← raw_uint 4;
  items ← rd_list (Z.to_nat count) read_item;
  sg ← read_blob 64 64;
  mret (MkListUpdate items ts source sg).

Definition update_from_bytes (data : bytes) : option (ListUpdate A) :=
  to_optional (run_reader (_ ← rd_min 108; update_fields) data).

End Format.

(** ** Age *)

(** The product is taken in [uint32_t]. *)
Definition expiry_seconds (expiry_days : Z) : Z := u32 (expiry_days * 24 * 3600).

Definition revocation_expired (now expiry_days revoked_at : Z) : bool :=
  u64 (revoked_at + expiry_seconds expiry_days) <=? now.

(** Neither too old nor more than five minutes ahead. *)
Definition timely (now expiry_days revoked_at : Z) : bool :=
  negb (revocation_expired now expiry_days revoked_at) && negb (u64 (now + 300) <? revoked_at).

(** Entries as recent as [since], up to the one that makes them [max_count];
    the loop looks at the count only after it has added one. *)
Fixpoint recent {A} (revoked_at : A → Z) (since : Z) (max_count : nat) (l : list A) : list A :=
  match l with
  | [] => []
  | x :: l =>
      if since <=? revoked_at x then
        x :: match max_count with
             | O | S O => []
             | S n => recent revoked_at since n l
             end
      else recent revoked_at since max_count l
  end.

(** ** The format *)

Section FormatLaws.
Context {A : Type} (to_bytes : A → bytes) (item_reader : reader A).

(** An entry the reader of entries takes back, and short enough for its frame. *)
Definition framed (x : A) : Prop :=
  reads 64 item_reader x (to_bytes x) ∧ in_u 32 (len (to_bytes x)).

Lemma reads_item x : framed x → reads 64 (read_item item_reader) x (item_frame to_bytes x).
Proof.
  intros [Hr Hl]. unfold read_item, item_frame. rewrite wrap_small by done.
  eapply reads_bind; [by apply reads_scalar|]. cbv beta.
  remember (len (to_bytes x)) as n eqn:Hn. rewrite <- (app_nil_r (to_bytes x)).
  eapply reads_bind; [by apply reads_string|]. cbv beta.
  apply reads_part; [done| |done]. unfold in_u in Hl. cbn in *. lia.
Qed.

Lemma reads_update u :
  Forall framed (update_revocations u) → in_u 64 (update_timestamp u) →
  in_u 32 (len (update_revocations u)) →
  reads 64 (_ ← rd_min 108; update_fields item_reader) u (update_to_bytes to_bytes u).
Proof.
  intros Hi Ht Hc. apply reads_min.
  { unfold update_to_bytes. autorewrite with len. pose proof (len_nonneg (mjoin (item_frame to_bytes <$> update_revocations u))). lia. }
  unfold update_fields, update_to_bytes. rewrite wrap_small by done.
  eapply reads_bind; [by apply reads_raw_uint|]. cbv beta.
  eapply reads_bind; [apply reads_raw_array|]. cbv beta.
  eapply reads_bind; [by apply reads_raw_uint|]. cbv beta.
  eapply reads_bind.
  { unfold len. rewrite Nat2Z.id. apply reads_list. eapply list.Forall_impl; [exact Hi|]. apply reads_item. }
  cbv beta. rewrite <- (app_nil_r (arr _)). eapply reads_bind; [apply reads_blob|]. cbv beta.
  destruct u. apply reads_ret.
Qed.

Lemma update_roundtrip u :
  Forall framed (update_revocations u) → in_u 64 (update_timestamp u) →
  in_u 32 (len (update_revocations u)) → len (update_to_bytes to_bytes u) < 2 ^ 64 →
  update_from_bytes item_reader (update_to_bytes to_bytes u) = Some u.
Proof.
  intros Hi Ht Hc Hl. unfold update_from_bytes. rewrite <- (app_nil_r (update_to_bytes _ _)).
  rewrite (reads_run _ _ _ [] (reads_update u Hi Ht Hc)); [done|]. by rewrite app_nil_r.
Qed.

(** Whatever arrives, the parser stays inside of it. *)
Lemma update_safe d :
  (∀ l, len l < 2 ^ 63 → run_reader item_reader l ≠ Undef) → len d < 2 ^ 63 →
  run_reader (_ ← rd_min 108; update_fields item_reader) d ≠ Undef.
Proof.
  intros Hitem Hd. apply (safe_min_run 64 108 _ (λ _, True)); [|done]. unfold update_fields.
  eapply safe_bind; [apply fixed_raw_uint|lia|]. intros ts _.
  eapply safe_bind; [apply fixed_raw_array|lia|]. intros source _.
  eapply safe_bind; [apply fixed_raw_uint|lia|]. intros count _.
  apply safe_mono with 0; [lia|]. eapply safe_then.
  - apply (safe_list 64 _ (λ _, True)). unfold read_item.
    apply safe_scalar; [lia|unfold in_u; cbn; lia|]. intros n Hn. unfold in_u in Hn. cbn in Hn.
    intros d' o' Ho' Hl' Hd'. unfold read_string, mbind, reader_bind, rd_room, rd_raw.
    rewrite wrap_small by (unfold in_u; lia). destruct (Z.ltb_spec (len d') (o' + n)); [done|].
    rewrite (proj2 (Z.leb_le _ _)) by lia. unfold rd_part.
    specialize (Hitem (sub d' o' n)). rewrite len_sub in Hitem by lia.
    destruct (run_reader item_reader (sub d' o' n)); [split; [done|lia]|done|].
    by destruct Hitem; [lia|].
  - intros items _. apply safe_blob; [lia|unfold in_u; cbn; lia|]. intros sg.
    apply safe_ret; [lia|done].
Qed.

End FormatLaws.

(** ** Ages *)

Lemma expired_small now days at_ :
  0 <= days < 49711 → in_u 63 at_ →
  revocation_expired now days at_ = (at_ + days * 86400 <=? now).
Proof.
  unfold in_u. intros Hd Ha. unfold revocation_expired, expiry_seconds.
  rewrite (wrap_small 32) by (unfold in_u; lia). rewrite wrap_small by (unfold in_u; lia).
  f_equal. lia.
Qed.

(** What has expired stays expired. *)
Lemma expired_later now now' days at_ :
  now <= now' → revocation_expired now days at_ = true → revocation_expired now' days at_ = true.
Proof. unfold revocation_expired. intros Hn H. bool_to_prop. apply Z.leb_le. lia. Qed.

Lemma recent_spec {A} (revoked_at : A → Z) since n l x :
  x ∈ recent revoked_at since n l → x ∈ l ∧ since <= revoked_at x.
Proof.
  revert n. induction l as [|y l IH]; intros n; cbn [recent]; [by intros ?%not_elem_of_nil|].
  destruct (Z.leb_spec since (revoked_at y)) as [Hy|Hy].
  - intros [->|Hx]%elem_of_cons; [split; [apply list_elem_of_here|done]|].
    destruct n as [|[|n]]; [by apply not_elem_of_nil in Hx..|].
    apply IH in Hx as [? ?]. split; [by apply list_elem_of_further|done].
  - intros [? ?]%IH. split; [by apply list_elem_of_further|done].
Qed.

Lemma recent_length {A} (revoked_at : A → Z) since n l :
  (0 < n)%nat → (length (recent revoked_at since n l) <= n)%nat.
Proof.
  revert n. induction l as [|y l IH]; intros n Hn; cbn [recent length]; [lia|].
  destruct (_ <=? _); [|by apply IH]. cbn [length].
  destruct n as [|[|n]]; [lia|cbn; lia|]. specialize (IH (S n)). lia.
Qed.

(** A count that is not reached takes all. *)
Lemma recent_all {A} (revoked_at : A → Z) since n l :
  (length l < n)%nat → recent revoked_at since n l = filter (λ x, since <= revoked_at x) l.
Proof.
  revert n. induction l as [|y l IH]; intros n Hn; [done|]. cbn [recent length] in *.
  rewrite list.filter_cons. destruct (Z.leb_spec since (revoked_at y)).
  - rewrite decide_True by done. destruct n as [|[|n]]; [lia..|]. f_equal. apply IH. lia.
  - rewrite decide_False by lia. apply IH. lia.
Qed.
