(* ===== verification/TokenRevocation.v ===== *)
(** Revoked capability tokens: [TokenRevocation] and [TokenRevocationManager] of
    src/security/token_revocation.hpp and token_revocation.cpp.

    [from_bytes] casts bytes to enumerations unchecked, so a capability and a
    reason are kept as the byte that stands for them.  The clock in seconds is
    [now]; [garbage] is what an uninitialised signature or identifier holds. *)

From Stdlib Require Import Strings.Byte.
From S2P Require Import Prelude Reader Common Crypto Key State Access Revocation.

(** ** Revocations *)

Inductive RevocationReason :=
  | MANUAL_REVOCATION | COMPROMISED_KEY | POLICY_VIOLATION | ABUSE_DETECTED
  | EXPIRED_CREDENTIALS | NETWORK_REMOVAL | REPUTATION_LOSS.

Definition reason_byte (r : RevocationReason) : byte :=
  match r with
  | MANUAL_REVOCATION => "000" | COMPROMISED_KEY => "001" | POLICY_VIOLATION => "002"
  | ABUSE_DETECTED => "003" | EXPIRED_CREDENTIALS => "004" | NETWORK_REMOVAL => "005"
  | REPUTATION_LOSS => "006"
  end%byte.

Definition capability_byte (c : Capability) : byte := to_byte (Z.of_nat (capability_code c)).

Record TokenRevocation := MkTokenRevocation {
  node_id : NodeID;
  rev_capability : byte;
  reason : byte;
  revoked_at : Z;
  revoker : NodeID;
  rev_context : bytes;
  rev_signature : Signature
}.

#[export] Instance TokenRevocation_eq_dec : EqDecision TokenRevocation.
Proof. solve_decision. Defined.

Definition matches_token (t : CapabilityToken) (r : TokenRevocation) : bool :=
  bool_decide (tk_node_id t = node_id r) &&
  bool_decide (capability_byte (tk_capability t) = rev_capability r) &&
  negb (negb (bool_decide (rev_context r = [])) && negb (bool_decide (context t = [])) &&
        negb (bool_decide (rev_context r = context t))) &&
  (issued_at t <? revoked_at r).

(** The members that identify and that are signed. *)
Definition revocation_content (r : TokenRevocation) : bytes :=
  arr (node_id r) ++ [rev_capability r] ++ [reason r] ++ le_bytes 8 (revoked_at r) ++
  arr (revoker r) ++ rev_context r.

Definition token_to_bytes (r : TokenRevocation) : bytes :=
  arr (node_id r) ++ [rev_capability r] ++ [reason r] ++ le_bytes 8 (revoked_at r) ++
  arr (revoker r) ++ le_bytes 4 (u32 (len (rev_context r))) ++ rev_context r ++ arr (rev_signature r).

Definition token_fields : reader TokenRevocation :=
  node ← raw_array 32;
  cap ← raw_uint 1;
  why ← raw_uint 1;
  at_ ← raw_uint 8;
  who ← raw_array 32;
  ctx_len ← raw_uint 4;
  _ ← rd_room 64 (ctx_len + 64);
  ctx ← rd_raw ctx_len;
  sg ← raw_array 64;
  mret (MkTokenRevocation node (to_byte cap) (to_byte why) at_ who ctx sg).

Definition token_reader : reader TokenRevocation := _ ← rd_min 142; token_fields.

Definition token_from_bytes (data : bytes) : option TokenRevocation :=
  to_optional (run_reader token_reader data).

Abbreviation RevocationListUpdate := (ListUpdate TokenRevocation).

Definition token_list_to_bytes : RevocationListUpdate → bytes := update_to_bytes token_to_bytes.

Definition token_list_from_bytes : bytes → option RevocationListUpdate := update_from_bytes token_reader.

(** ** The manager *)

Record RevocationListEntry := MkRevocationListEntry {
  revocation : TokenRevocation;
  added_at : Z;
  witnesses : gset NodeID;
  propagation_count : Z
}.

Definition new_entry (now : Z) (r : TokenRevocation) : RevocationListEntry :=
  MkRevocationListEntry r now ∅ 0.

Record TokenRevocationManager := MkTokenRevocationManager {
  revocations : gmap Hash256 RevocationListEntry;
  revocations_by_node : gmap NodeID (gset Hash256);
  revocations_by_capability : gmap byte (gset Hash256);
  seen_revocations : gset Hash256;
  revocation_expiry_days : Z;
  max_revocations_per_node : Z;
  max_propagation_count : Z
}.

Definition new_token_manager : TokenRevocationManager :=
  MkTokenRevocationManager ∅ ∅ ∅ ∅ 30 100 10.

Definition set_revocation_expiry_days (days : Z) (m : TokenRevocationManager) : TokenRevocationManager :=
  MkTokenRevocationManager (revocations m) (revocations_by_node m) (revocations_by_capability m)
    (seen_revocations m) days (max_revocations_per_node m) (max_propagation_count m).

Definition set_max_revocations_per_node (max : Z) (m : TokenRevocationManager) : TokenRevocationManager :=
  MkTokenRevocationManager (revocations m) (revocations_by_node m) (revocations_by_capability m)
    (seen_revocations m) (revocation_expiry_days m) max (max_propagation_count m).

(** [std::map::operator\[\]] and [insert] into the set found there. *)
Definition index_insert {K} `{Countable K} (k : K) (id : Hash256) (ix : gmap K (gset Hash256)) :
    gmap K (gset Hash256) :=
  <[k := {[id]} ∪ default ∅ (ix !! k)]> ix.

(** An index entry that becomes empty is dropped. *)
Definition index_remove {K} `{Countable K} (k : K) (id : Hash256) (ix : gmap K (gset Hash256)) :
    gmap K (gset Hash256) :=
  match ix !! k with
  | Some ids =>
      let ids := ids ∖ {[id]} in
      if bool_decide (ids = ∅) then delete k ix else <[k := ids]> ix
  | None => ix
  end.

Definition add_revocation_to_indexes (id : Hash256) (r : TokenRevocation) (m : TokenRevocationManager) :
    TokenRevocationManager :=
  MkTokenRevocationManager (revocations m) (index_insert (node_id r) id (revocations_by_node m))
    (index_insert (rev_capability r) id (revocations_by_capability m)) (seen_revocations m)
    (revocation_expiry_days m) (max_revocations_per_node m) (max_propagation_count m).

Definition remove_revocation_from_indexes (id : Hash256) (r : TokenRevocation) (m : TokenRevocationManager) :
    TokenRevocationManager :=
  MkTokenRevocationManager (revocations m) (index_remove (node_id r) id (revocations_by_node m))
    (index_remove (rev_capability r) id (revocations_by_capability m)) (seen_revocations m ∖ {[id]})
    (revocation_expiry_days m) (max_revocations_per_node m) (max_propagation_count m).

Definition with_revocations (rs : gmap Hash256 RevocationListEntry) (m : TokenRevocationManager) :
    TokenRevocationManager :=
  MkTokenRevocationManager rs (revocations_by_node m) (revocations_by_capability m) (seen_revocations m)
    (revocation_expiry_days m) (max_revocations_per_node m) (max_propagation_count m).

Definition with_seen (seen : gset Hash256) (m : TokenRevocationManager) : TokenRevocationManager :=
  MkTokenRevocationManager (revocations m) (revocations_by_node m) (revocations_by_capability m) seen
    (revocation_expiry_days m) (max_revocations_per_node m) (max_propagation_count m).

(** How many revocations the index has for a node; [None] when it has no entry. *)
Definition node_revocation_count (n : NodeID) (m : TokenRevocationManager) : option Z :=
  (λ ids : gset Hash256, Z.of_nat (size ids)) <$> revocations_by_node m !! n.

Definition node_is_full (n : NodeID) (m : TokenRevocationManager) : bool :=
  match node_revocation_count n m with
  | Some k => max_revocations_per_node m <=? k
  | None => false
  end.

Definition is_revocation_expired (now : Z) (r : TokenRevocation) (m : TokenRevocationManager) : bool :=
  revocation_expired now (revocation_expiry_days m) (revoked_at r).

Definition should_accept_revocation (now : Z) (r : TokenRevocation) (m : TokenRevocationManager) : bool :=
  if is_revocation_expired now r m then false
  else if u64 (now + 300) <? revoked_at r then false
  else negb (node_is_full (node_id r) m).

(** The revocations the index lists for a node, as far as they are stored. *)
Definition listed_for (n : NodeID) (m : TokenRevocationManager) : list TokenRevocation :=
  omap (λ id, revocation <$> revocations m !! id)
    (set_elements (default ∅ (revocations_by_node m !! n))).

Definition is_token_revoked (t : CapabilityToken) (m : TokenRevocationManager) : bool :=
  existsb (matches_token t) (listed_for (tk_node_id t) m).

Definition has_revocations (n : NodeID) (c : byte) (m : TokenRevocationManager) : bool :=
  existsb (λ r, bool_decide (rev_capability r = c)) (listed_for n m).

Definition get_revocations_for (n : NodeID) (m : TokenRevocationManager) : list TokenRevocation :=
  listed_for n m.

Definition all_revocations (m : TokenRevocationManager) : list TokenRevocation :=
  revocation <$> (entries (revocations m)).*2.

Definition get_recent_revocations (since : Z) (max_count : nat) (m : TokenRevocationManager) :
    list TokenRevocation :=
  recent revoked_at since max_count (all_revocations m).

Section Manager.
Context `{Crypto}.

Definition get_id (r : TokenRevocation) : Hash256 := blake3 (revocation_content r).

Definition store (id : Hash256) (e : RevocationListEntry) (m : TokenRevocationManager) :
    TokenRevocationManager :=
  with_revocations (<[id := e]> (revocations m)) m.

Definition revoke_token (now : Z) (n : NodeID) (c : Capability) (why : RevocationReason) (who : NodeID)
    (ctx : bytes) (garbage : Signature) (m : TokenRevocationManager) :
    option TokenRevocation * TokenRevocationManager :=
  let r := MkTokenRevocation n (capability_byte c) (reason_byte why) now who ctx garbage in
  if node_is_full n m then (None, m)
  else
    let id := get_id r in
    (Some r, add_revocation_to_indexes id r (store id (new_entry now r) m)).

Definition process_revocation (now : Z) (r : TokenRevocation) (source : NodeID)
    (m : TokenRevocationManager) : bool * TokenRevocationManager :=
  let id := get_id r in
  if bool_decide (id ∈ seen_revocations m) then (false, m)
  else if should_accept_revocation now r m then
    let e := MkRevocationListEntry r now {[source]} 0 in
    (true, add_revocation_to_indexes id r
             (with_seen ({[id]} ∪ seen_revocations m) (store id e m)))
  else (false, m).

Definition process_revocation_list (now : Z) (u : RevocationListUpdate) (m : TokenRevocationManager) :
    Z * TokenRevocationManager :=
  foldl (λ acc r,
    let p := process_revocation now r (update_source_node u) acc.2 in
    (if p.1 : bool then acc.1 + 1 else acc.1, p.2)) (0, m) (update_revocations u).

Definition create_revocation_list (include_all : bool) (now : Z) (garbage_id : NodeID)
    (garbage : Signature) (m : TokenRevocationManager) : RevocationListUpdate :=
  MkListUpdate
    (if include_all then all_revocations m else get_recent_revocations (u64 (now - 3600)) 100 m)
    now garbage_id garbage.

Definition verify_revocation (r : TokenRevocation) (revoker_public_key : PublicKey) : bool :=
  Ed25519.verify (revocation_content r) (rev_signature r) revoker_public_key.

End Manager.

Definition sign_revocation (sg : Signature) (r : TokenRevocation) : TokenRevocation :=
  MkTokenRevocation (node_id r) (rev_capability r) (reason r) (revoked_at r) (revoker r)
    (rev_context r) sg.

Definition revocation_count (m : TokenRevocationManager) : Z := Z.of_nat (size (revocations m)).

Definition expired_revocation_count (now : Z) (m : TokenRevocationManager) : Z :=
  len (filter (λ r, is_revocation_expired now r m = true) (all_revocations m)).

(** One turn of the second loop. *)
Definition erase_revocation (id : Hash256) (m : TokenRevocationManager) : TokenRevocationManager :=
  match revocations m !! id with
  | Some e =>
      let m := remove_revocation_from_indexes id (revocation e) m in
      with_revocations (delete id (revocations m)) m
  | None => m
  end.

Definition cleanup_expired_revocations (now : Z) (m : TokenRevocationManager) : TokenRevocationManager :=
  let to_remove :=
    (filter (λ ke, is_revocation_expired now (revocation ke.2) m = true) (entries (revocations m))).*1 in
  foldl (λ m id, erase_revocation id m) m to_remove.

Definition revocation_reason_to_string (r : byte) : bytes :=
  match byte_val r with
  | 0 => str "Manual revocation"
  | 1 => str "Compromised key"
  | 2 => str "Policy violation"
  | 3 => str "Abuse detected"
  | 4 => str "Expired credentials"
  | 5 => str "Network removal"
  | 6 => str "Reputation loss"
  | _ => str "Unknown"
  end.

(** ** Operations *)

Inductive revocation_op :=
  | OpRevoke (now : Z) (n : NodeID) (c : Capability) (why : RevocationReason) (who : NodeID)
      (ctx : bytes) (garbage : Signature)
  | OpProcess (now : Z) (r : TokenRevocation) (source : NodeID)
  | OpProcessList (now : Z) (u : RevocationListUpdate)
  | OpCleanup (now : Z).

Definition step `{Crypto} (m : TokenRevocationManager) (o : revocation_op) : TokenRevocationManager :=
  match o with
  | OpRevoke now n c why who ctx garbage => (revoke_token now n c why who ctx garbage m).2
  | OpProcess now r source => (process_revocation now r source m).2
  | OpProcessList now u => (process_revocation_list now u m).2
  | OpCleanup now => cleanup_expired_revocations now m
  end.

Definition run `{Crypto} (ops : list revocation_op) (m : TokenRevocationManager) : TokenRevocationManager :=
  foldl step m ops.

(** ** The formats *)

Definition carries_token (r : TokenRevocation) : Prop :=
  in_u 64 (revoked_at r) ∧ in_u 32 (len (rev_context r)).

Lemma len_token r : len (token_to_bytes r) = 142 + len (rev_context r).
Proof. unfold token_to_bytes. autorewrite with len. change (len [_]) with 1. lia. Qed.

Lemma reads_token r : carries_token r → reads 64 token_reader r (token_to_bytes r).
Proof.
  intros [Ha Hc]. apply reads_min; [rewrite len_token; pose proof (len_nonneg (rev_context r)); lia|].
  unfold token_fields, token_to_bytes. rewrite wrap_small by done.
  do 6 (eapply reads_bind;
    [first [apply reads_raw_array|apply reads_raw_byte|by apply reads_raw_uint]|]; cbv beta).
  apply reads_room; [unfold len in *; rewrite length_app, length_arr; lia|].
  raw_reads_fields. rewrite !to_byte_val. destruct r. apply reads_ret.
Qed.

Lemma consumes_token : consumes token_reader (λ r e, e = token_to_bytes r ∧ carries_token r).
Proof.
  eapply consumes_mono; [unfold token_reader, token_fields; raw_consumes_fields|].
  intros r e He. cbv beta in He. open_fields. rewrite !le_bytes_1.
  unfold token_to_bytes, carries_token. cbn.
  rewrite app_nil_r. split; [by rewrite wrap_small|done].
Qed.

#[export] Instance TokenRevocation_codec : Codec TokenRevocation :=
  {| encode := token_to_bytes; decode := token_from_bytes; encodable := carries_token |}.

#[export] Instance TokenRevocation_codec_laws : CodecLaws TokenRevocation.
Proof. by apply (reader_codec_laws _ token_reader); [|apply reads_token|apply consumes_token]. Qed.

Lemma safe_token d : len d < 2 ^ 63 → run_reader token_reader d ≠ Undef.
Proof.
  intros Hd. apply (safe_min_run 64 142 _ (λ _, True)); [|done]. unfold token_fields.
  eapply safe_bind; [apply fixed_raw_array|lia|]. intros node _.
  eapply safe_bind; [apply fixed_raw_uint|lia|]. intros cap _.
  eapply safe_bind; [apply fixed_raw_uint|lia|]. intros why _.
  eapply safe_bind; [apply fixed_raw_uint|lia|]. intros at_ _.
  eapply safe_bind; [apply fixed_raw_array|lia|]. intros who _.
  eapply safe_bind; [apply fixed_raw_uint|lia|]. intros n Hn. unfold in_u in Hn. cbn in Hn.
  apply safe_room; [lia|unfold in_u; lia|].
  eapply safe_bind; [apply fixed_raw; lia|lia|]. intros ctx _.
  eapply safe_bind; [apply fixed_raw_array|lia|]. intros sg _.
  apply safe_ret; [lia|done].
Qed.


(** An update survives the wire, and no sequence of bytes makes its parser
    leave the buffer. *)
Theorem token_list_wire u d :
  Forall (λ r, in_u 64 (revoked_at r) ∧ len (rev_context r) < 2 ^ 31) (update_revocations u) →
  in_u 64 (update_timestamp u) → in_u 32 (len (update_revocations u)) →
  len (token_list_to_bytes u) < 2 ^ 63 → len d < 2 ^ 63 →
  token_list_from_bytes (token_list_to_bytes u) = Some u ∧
  run_reader (_ ← rd_min 108; update_fields token_reader) d ≠ Undef.
Proof.
  intros Hr Ht Hc Hl Hd. split; [|apply update_safe; [apply safe_token|done]].
  apply update_roundtrip; [|done|done|unfold token_list_to_bytes in Hl; lia].
  eapply list.Forall_impl; [exact Hr|]. intros r [Ha Hx]. pose proof (len_nonneg (rev_context r)).
  split; [apply reads_token; split; [done|unfold in_u; lia]|]. rewrite len_token. unfold in_u. lia.
Qed.

(** ** The indices *)

Section Index.
Context {K : Type} `{Countable K}.
Implicit Types (ix : gmap K (gset Hash256)).

Definition listed (k : K) (id : Hash256) ix : Prop := id ∈ default ∅ (ix !! k).

Lemma listed_insert k id ix k' id' :
  listed k' id' (index_insert k id ix) ↔ (k' = k ∧ id' = id) ∨ listed k' id' ix.
Proof.
  unfold listed, index_insert. destruct (decide (k' = k)) as [->|Hne].
  - rewrite lookup_insert_eq. cbn. rewrite elem_of_union, elem_of_singleton. naive_solver.
  - rewrite lookup_insert_ne by done. naive_solver.
Qed.

Lemma listed_remove k id ix k' id' :
  listed k' id' (index_remove k id ix) ↔ listed k' id' ix ∧ ¬ (k' = k ∧ id' = id).
Proof.
  unfold listed, index_remove. destruct (ix !! k) as [ids|] eqn:E.
  - case_bool_decide as He; destruct (decide (k' = k)) as [->|Hne].
    + rewrite lookup_delete_eq, E. cbn. set_solver.
    + rewrite lookup_delete_ne by done. naive_solver.
    + rewrite lookup_insert_eq, E. cbn. set_solver.
    + rewrite lookup_insert_ne by done. naive_solver.
  - split; [|naive_solver]. intros Hl. split; [done|]. intros [-> _]. by rewrite E in Hl.
Qed.

(** No set of an index is larger than [b]. *)
Definition index_bound (b : Z) ix : Prop := map_Forall (λ _ ids, Z.of_nat (size (ids : gset Hash256)) <= b) ix.

Lemma index_bound_insert b k id ix :
  index_bound b ix → Z.of_nat (size (default ∅ (ix !! k) : gset Hash256)) < b → index_bound b (index_insert k id ix).
Proof.
  intros Hb Hk. apply map_Forall_insert_2; [|done].
  pose proof (size_union_alt {[id]} (default ∅ (ix !! k) : gset Hash256)) as ->.
  rewrite size_singleton. pose proof (subseteq_size (default ∅ (ix !! k) ∖ {[id]}) (default ∅ (ix !! k)) ltac:(set_solver)).
  lia.
Qed.

Lemma index_bound_remove b k id ix : index_bound b ix → index_bound b (index_remove k id ix).
Proof.
  intros Hb. unfold index_remove. destruct (ix !! k) as [ids|] eqn:E; [|done]. case_bool_decide.
  - by apply map_Forall_delete.
  - apply map_Forall_insert_2; [|done]. pose proof (Hb _ _ E). cbn in *.
    pose proof (subseteq_size (ids ∖ {[id]}) ids ltac:(set_solver)). lia.
Qed.

End Index.

(** ** The invariant *)

Section Invariant.
Context `{Crypto}.

Record manager_wf (m : TokenRevocationManager) : Prop := {
  wf_names : map_Forall (λ id e, get_id (revocation e) = id) (revocations m);
  wf_by_node : map_Forall (λ id e, listed (node_id (revocation e)) id (revocations_by_node m)) (revocations m);
  wf_by_capability :
    map_Forall (λ id e, listed (rev_capability (revocation e)) id (revocations_by_capability m)) (revocations m);
  wf_seen : seen_revocations m ⊆ dom (revocations m);
  wf_bound : index_bound (Z.max 1 (max_revocations_per_node m)) (revocations_by_node m)
}.

Lemma new_token_manager_wf : manager_wf new_token_manager.
Proof. split; cbn; [apply map_Forall_empty..|done|apply map_Forall_empty]. Qed.

Lemma not_full_room n m :
  manager_wf m → node_is_full n m = false →
  Z.of_nat (size (default ∅ (revocations_by_node m !! n) : gset Hash256)) < Z.max 1 (max_revocations_per_node m).
Proof.
  intros Hm. unfold node_is_full, node_revocation_count.
  destruct (revocations_by_node m !! n); cbn; intros Hf; bool_to_prop; [|rewrite size_empty]; lia.
Qed.

Lemma add_entry_wf id e seen m :
  manager_wf m → get_id (revocation e) = id → node_is_full (node_id (revocation e)) m = false →
  seen ⊆ {[id]} ∪ seen_revocations m →
  manager_wf (add_revocation_to_indexes id (revocation e) (with_seen seen (store id e m))).
Proof.
  intros Hm Hid Hf Hs. destruct (Hm) as [H1 H2 H3 H4 H5]. split; cbn.
  - by apply map_Forall_insert_2.
  - apply map_Forall_insert_2; [apply listed_insert; auto|].
    intros id' e' He. apply listed_insert. right. by apply H2.
  - apply map_Forall_insert_2; [apply listed_insert; auto|].
    intros id' e' He. apply listed_insert. right. by apply H3.
  - set_solver.
  - apply index_bound_insert; [done|]. by apply not_full_room.
Qed.

Lemma revoke_token_wf now n c why who ctx garbage m :
  manager_wf m → manager_wf (revoke_token now n c why who ctx garbage m).2.
Proof.
  intros Hm. unfold revoke_token. destruct (node_is_full n m) eqn:Hf; [done|]. cbn [snd].
  set (r := MkTokenRevocation _ _ _ _ _ _ _).
  apply (add_entry_wf (get_id r) (new_entry now r) (seen_revocations m) m); try done. set_solver.
Qed.

Lemma process_revocation_wf now r source m :
  manager_wf m → manager_wf (process_revocation now r source m).2.
Proof.
  intros Hm. unfold process_revocation. case_bool_decide; [done|].
  destruct (should_accept_revocation now r m) eqn:Ha; [|done]. cbn [snd].
  apply (add_entry_wf (get_id r) (MkRevocationListEntry r now {[source]} 0) _ m); try done.
  cbn. unfold should_accept_revocation in Ha. do 2 (case_scrut_in Ha; [done|]). by apply negb_true_iff.
Qed.

Lemma erase_revocation_wf id m : manager_wf m → manager_wf (erase_revocation id m).
Proof.
  intros [H1 H2 H3 H4 H5]. unfold erase_revocation. destruct (revocations m !! id) as [e|] eqn:E; [|done].
  split; cbn.
  - by apply map_Forall_delete.
  - intros id' e' [Hne He]%lookup_delete_Some. apply listed_remove. split; [by apply H2|]. naive_solver.
  - intros id' e' [Hne He]%lookup_delete_Some. apply listed_remove. split; [by apply H3|]. naive_solver.
  - rewrite dom_delete_L. set_solver.
  - by apply index_bound_remove.
Qed.

Lemma token_manager_step m o : manager_wf m → manager_wf (step m o).
Proof.
  intros Hm. destruct o; cbn [step]; [by apply revoke_token_wf|by apply process_revocation_wf| |].
  - unfold process_revocation_list. generalize 0. revert m Hm.
    induction (update_revocations u) as [|r l IH]; intros m Hm k; [done|]. cbn [foldl].
    by apply IH, process_revocation_wf.
  - unfold cleanup_expired_revocations. generalize ((filter (λ ke, is_revocation_expired now (revocation ke.2) m = true)
      (entries (revocations m))).*1). intros ids. revert m Hm.
    induction ids as [|id ids IH]; intros m Hm; [done|]. cbn [foldl]. by apply IH, erase_revocation_wf.
Qed.

Lemma token_manager_run ops m : manager_wf m → manager_wf (run ops m).
Proof. revert m. induction ops as [|o ops IH]; intros m Hm; [done|]. by apply IH, token_manager_step. Qed.

(** ** What the queries see *)

Lemma elem_of_listed n m r :
  manager_wf m →
  r ∈ listed_for n m ↔ ∃ id e, revocations m !! id = Some e ∧ revocation e = r ∧ listed n id (revocations_by_node m).
Proof.
  intros Hm. unfold listed_for. rewrite list_elem_of_omap. split.
  - intros (id & Hid%elem_of_set_elements & (e & He & Hr)%fmap_Some). exists id, e. by subst.
  - intros (id & e & He & <- & Hl). exists id. split; [by apply elem_of_set_elements|]. by rewrite He.
Qed.

Lemma token_revoked_stored t m :
  manager_wf m →
  is_token_revoked t m = true ↔
  ∃ id e, revocations m !! id = Some e ∧ matches_token t (revocation e) = true.
Proof.
  intros Hm. unfold is_token_revoked. rewrite existsb_exists. split.
  - intros (r & Hr%list_elem_of_In & Ht). apply elem_of_listed in Hr as (id & e & He & <- & _); [|done].
    by exists id, e.
  - intros (id & e & He & Ht). exists (revocation e). split; [|done]. apply list_elem_of_In, elem_of_listed; [done|].
    exists id, e. split; [done|]. split; [done|].
    assert (tk_node_id t = node_id (revocation e)) as ->.
    { unfold matches_token in Ht. by repeat (apply andb_prop in Ht as [Ht ?]); bool_to_prop. }
    by apply (wf_by_node m Hm).
Qed.

(** C31: whatever a manager of token revocations goes through, stored revocations are
    filed under the hash of their bytes and listed in the indexes by node and by
    capability, every identifier seen is stored and no node has more than the maximum;
    a token is revoked exactly when a stored revocation matches it, and every stored
    one is found by node and by capability. *)
Theorem revocations_found ops t n :
  let m := run ops new_token_manager in
  manager_wf m ∧
  (is_token_revoked t m = true ↔ ∃ id e, revocations m !! id = Some e ∧ matches_token t (revocation e) = true) ∧
  (∀ id e, revocations m !! id = Some e → node_id (revocation e) = n → revocation e ∈ get_revocations_for n m) ∧
  (∀ id e, revocations m !! id = Some e → has_revocations (node_id (revocation e)) (rev_capability (revocation e)) m = true).
Proof.
  intros m. assert (manager_wf m) as Hm by apply token_manager_run, new_token_manager_wf.
  split; [done|]. split; [by apply token_revoked_stored|]. split.
  - intros id e He <-. apply elem_of_listed; [done|]. exists id, e. by pose proof (wf_by_node m Hm id e He).
  - intros id e He. unfold has_revocations. apply existsb_exists. exists (revocation e).
    split; [|by apply bool_decide_eq_true]. apply list_elem_of_In, elem_of_listed; [done|].
    exists id, e. by pose proof (wf_by_node m Hm id e He).
Qed.

End Invariant.

(** ** Cleaning up *)

Section Cleanup.
Context `{Crypto}.

Lemma erase_lookup id m k :
  revocations (erase_revocation id m) !! k = if decide (k = id) then None else revocations m !! k.
Proof.
  unfold erase_revocation. destruct (revocations m !! id) as [e|] eqn:E; cbn.
  - case_decide as Hk; [subst; apply lookup_delete_eq|by apply lookup_delete_ne].
  - case_decide; [by subst|done].
Qed.

Lemma erase_all_lookup ids m k :
  revocations (foldl (λ m id, erase_revocation id m) m ids) !! k =
  if decide (k ∈ ids) then None else revocations m !! k.
Proof.
  revert m. induction ids as [|id ids IH]; intros m; cbn [foldl]; [done|]. rewrite IH, erase_lookup.
  repeat case_decide; set_solver.
Qed.

Lemma token_cleanup now m k :
  revocations (cleanup_expired_revocations now m) !! k =
  e ← revocations m !! k; if is_revocation_expired now (revocation e) m then None else Some e.
Proof.
  unfold cleanup_expired_revocations. rewrite erase_all_lookup.
  destruct (revocations m !! k) as [e|] eqn:E; cbn; [|by case_decide].
  destruct (is_revocation_expired now (revocation e) m) eqn:Ex.
  - rewrite decide_True; [done|]. apply list_elem_of_fmap. exists (k, e). split; [done|].
    apply list_elem_of_filter. split; [done|]. by apply elem_of_entries.
  - rewrite decide_False; [done|].
    intros ([? e'] & -> & [Hx He%elem_of_entries]%list_elem_of_filter)%list_elem_of_fmap. cbn in *. congruence.
Qed.

(** The clean-up removes exactly the revocations that are older than the expiry period,
    and a token with the ordinary life span of an hour that has not expired is revoked
    after it exactly when it was before. *)
Theorem cleanup_keeps_revoked now t m :
  manager_wf m → 1 <= revocation_expiry_days m < 49711 →
  map_Forall (λ _ e, in_u 63 (revoked_at (revocation e))) (revocations m) →
  (∀ id, revocations (cleanup_expired_revocations now m) !! id =
     e ← revocations m !! id;
     if revoked_at (revocation e) + revocation_expiry_days m * 86400 <=? now then None else Some e) ∧
  (tk_expires_at t <= issued_at t + 3600 → token_is_expired now t = false →
   is_token_revoked t (cleanup_expired_revocations now m) = is_token_revoked t m).
Proof.
  intros Hm Hd Ha.
  assert (Hx : ∀ id e, revocations m !! id = Some e →
    is_revocation_expired now (revocation e) m = (revoked_at (revocation e) + revocation_expiry_days m * 86400 <=? now)).
  { intros id e He. apply expired_small; [lia|by apply (Ha id)]. }
  split.
  - intros id. rewrite token_cleanup. destruct (revocations m !! id) as [e|] eqn:E; [|done]. cbn.
    by rewrite (Hx id e E).
  - intros Hl Ht. apply eq_true_iff_eq.
    assert (manager_wf (cleanup_expired_revocations now m)) as Hm' by apply (token_manager_step m (OpCleanup now) Hm).
    rewrite !token_revoked_stored by done. split; intros (id & e & He & Hmt).
    + rewrite token_cleanup in He. destruct (revocations m !! id) as [e1|] eqn:E; [|done].
      cbn in He. case_match; [done|]. injection He as <-. by exists id, e1.
    + exists id, e. split; [|done]. rewrite token_cleanup, He. cbn. rewrite (Hx id e He).
      destruct (Z.leb_spec (revoked_at (revocation e) + revocation_expiry_days m * 86400) now); [|done].
      exfalso. unfold matches_token in Hmt. apply andb_prop in Hmt as [_ Hi]. unfold token_is_expired in Ht.
      bool_to_prop. lia.
Qed.

(** What has expired is never taken in again. *)
Lemma expired_refused now now' r source m :
  now <= now' → is_revocation_expired now r m = true → process_revocation now' r source m = (false, m).
Proof.
  intros Hn Hx. unfold process_revocation, should_accept_revocation.
  case_bool_decide; [done|]. unfold is_revocation_expired in *. by rewrite (expired_later _ _ _ _ Hn Hx).
Qed.

(** ** Who may revoke *)

(** Nobody checks who revokes: a revocation with any signature, dated up to five minutes
    ahead, is accepted for every node that has room and revokes all its tokens of the
    capability issued before that; and once a node has its maximum of revocations, forged
    ones included, every other is refused, its own and those of the issuer. *)
Theorem anybody_revokes now n c why who ctx sg source m :
  manager_wf m → 0 <= now < 2 ^ 62 → 1 <= revocation_expiry_days m < 49711 →
  let r := MkTokenRevocation n c why (now + 300) who ctx sg in
  get_id r ∉ seen_revocations m →
  (node_is_full n m = false →
   (process_revocation now r source m).1 = true ∧
   ∀ t, tk_node_id t = n → capability_byte (tk_capability t) = c → ctx = [] ∨ context t = [] ∨ ctx = context t →
     issued_at t < now + 300 → is_token_revoked t (process_revocation now r source m).2 = true) ∧
  (node_is_full n m = true →
   process_revocation now r source m = (false, m) ∧
   ∀ cap why' who' ctx' garbage, revoke_token now n cap why' who' ctx' garbage m = (None, m)).
Proof.
  intros Hm Hn Hd r Hs.
  assert (should_accept_revocation now r m = negb (node_is_full n m)) as Ha.
  { unfold should_accept_revocation, is_revocation_expired. rewrite expired_small; [|lia|unfold r, in_u; cbn; lia].
    cbn. rewrite (proj2 (Z.leb_gt _ _)) by lia. rewrite wrap_small by (unfold in_u; lia).
    by rewrite (proj2 (Z.ltb_ge _ _)) by lia. }
  assert (process_revocation now r source m = if node_is_full n m then (false, m) else
    (true, (process_revocation now r source m).2)) as Hp.
  { unfold process_revocation. rewrite bool_decide_false by done. rewrite Ha. by destruct (node_is_full n m). }
  split; intros Hf; rewrite Hf in *.
  - split; [by rewrite Hp|]. intros t <- <- Hc Hi.
    apply token_revoked_stored; [by apply process_revocation_wf|].
    exists (get_id r), (MkRevocationListEntry r now {[source]} 0). split.
    + unfold process_revocation. rewrite bool_decide_false by done. rewrite Ha. cbn. apply lookup_insert_eq.
    + unfold matches_token. cbn. rewrite !bool_decide_true by done. cbn.
      rewrite (proj2 (Z.ltb_lt _ _)) by lia. rewrite andb_true_r.
      apply negb_true_iff. destruct Hc as [Hc|[Hc|Hc]]; rewrite (bool_decide_eq_true_2 _ Hc); [done|..];
        by rewrite ?andb_false_r.
  - split; [done|]. intros. unfold revoke_token. by rewrite Hf.
Qed.

(** A revocation made here is not marked as seen: an echo of it is taken in. *)
Lemma echo_accepted now now' n c why who ctx garbage source r m m' :
  manager_wf m → 0 <= now < 2 ^ 62 → now <= now' < now + 86400 → 1 <= revocation_expiry_days m < 49711 →
  revoke_token now n c why who ctx garbage m = (Some r, m') →
  node_is_full n m' = false → revocations m !! get_id r = None →
  (process_revocation now' r source m').1 = true.
Proof.
  intros Hm Hn Hn' Hd. unfold revoke_token. destruct (node_is_full n m); [done|].
  intros [= <- <-] Hf Hnone. unfold process_revocation. cbn [seen_revocations add_revocation_to_indexes store with_revocations].
  rewrite bool_decide_false.
  2:{ intros Hin%(wf_seen m Hm)%elem_of_dom. rewrite Hnone in Hin. by destruct Hin. }
  unfold should_accept_revocation, is_revocation_expired. cbn [revoked_at node_id revocation_expiry_days
    add_revocation_to_indexes store with_revocations].
  rewrite expired_small; [|lia|unfold in_u; lia]. rewrite (proj2 (Z.leb_gt _ _)) by lia.
  rewrite wrap_small by (unfold in_u; lia). rewrite (proj2 (Z.ltb_ge _ _)) by lia. rewrite Hf. done.
Qed.

(** A token issued in the second of its revocation, or later, stays valid. *)
Lemma same_second_survives t r : revoked_at r <= issued_at t → matches_token t r = false.
Proof. intros Hr. unfold matches_token. rewrite (proj2 (Z.ltb_ge _ _)) by done. by rewrite andb_false_r. Qed.

End Cleanup.

(** ** Examples *)

Module Sample.

Definition alice : NodeID := array_fill 32 "a"%byte.
Definition mallory : NodeID := array_fill 32 "m"%byte.

Definition token : CapabilityToken := MkCapabilityToken alice HOST_THINGS 1000 4600 [] (zeros 64).

(** Signed by nobody. *)
Definition forged (at_ : Z) : TokenRevocation :=
  MkTokenRevocation alice (capability_byte HOST_THINGS) "003"%byte at_ mallory [] (zeros 64).

Definition flood : list revocation_op :=
  (λ i, OpProcess 2000 (forged (800 + Z.of_nat i)) mallory) <$> seq 0 100.

Definition flooded : TokenRevocationManager := @run toy_crypto flood new_token_manager.

Definition revoked : TokenRevocationManager :=
  @run toy_crypto [OpProcess 2000 (forged 1500) mallory] new_token_manager.

End Sample.

Lemma stored_times m :
  forallb (λ r, (0 <=? revoked_at r) && (revoked_at r <? 2 ^ 63)) (all_revocations m) = true →
  map_Forall (λ _ e, in_u 63 (revoked_at (revocation e))) (revocations m).
Proof.
  intros Hall id e He. rewrite forallb_forall in Hall.
  assert (In (revocation e) (all_revocations m)) as Hin.
  { apply list_elem_of_In, list_elem_of_fmap. exists e. split; [done|]. apply list_elem_of_fmap.
    exists (id, e). split; [done|]. by apply elem_of_entries. }
  apply Hall in Hin. bool_to_prop. done.
Qed.

Lemma flooded_state :
  is_token_revoked Sample.token Sample.flooded = false ∧
  node_is_full Sample.alice Sample.flooded = true ∧ revocation_expiry_days Sample.flooded = 30 ∧
  bool_decide (@get_id toy_crypto (Sample.forged 2300) ∈ seen_revocations Sample.flooded) = false.
Proof. vm_compute. done. Qed.

(** One forged revocation takes a capability away; a hundred that hit nothing
    keep the issuer from revoking the token. *)
Lemma anybody_revokes_witness :
  is_token_revoked Sample.token
    (@process_revocation toy_crypto 2000 (Sample.forged 2300) Sample.mallory new_token_manager).2 = true ∧
  is_token_revoked Sample.token Sample.flooded = false ∧
  @revoke_token toy_crypto 2000 Sample.alice HOST_THINGS COMPROMISED_KEY Sample.alice [] (zeros 64)
    Sample.flooded = (None, Sample.flooded).
Proof.
  destruct flooded_state as (Hr & Hf & Hd & Hs). split; [|split; [exact Hr|]].
  - destruct (@anybody_revokes toy_crypto 2000 Sample.alice (capability_byte HOST_THINGS) "003"%byte Sample.mallory []
      (zeros 64) Sample.mallory new_token_manager) as [H _];
      [apply new_token_manager_wf|lia|cbn; lia|apply not_elem_of_empty|].
    apply H; [reflexivity..|by left|cbn; lia].
  - destruct (@anybody_revokes toy_crypto 2000 Sample.alice (capability_byte HOST_THINGS) "003"%byte Sample.mallory []
      (zeros 64) Sample.mallory Sample.flooded) as [_ H].
    + apply token_manager_run, new_token_manager_wf.
    + lia.
    + rewrite Hd. lia.
    + exact (bool_decide_eq_false_1 _ Hs).
    + destruct (H Hf) as [_ H2]. exact (H2 HOST_THINGS COMPROMISED_KEY Sample.alice [] (zeros 64)).
Defined.

Lemma cleanup_keeps_revoked_witness :
  is_token_revoked Sample.token (cleanup_expired_revocations 4000 Sample.revoked) = true.
Proof.
  assert (manager_wf (H := toy_crypto) Sample.revoked) as Hm by apply token_manager_run, new_token_manager_wf.
  destruct (@cleanup_keeps_revoked toy_crypto 4000 Sample.token Sample.revoked Hm) as [_ Hk].
  - assert (revocation_expiry_days Sample.revoked = 30) as -> by (vm_compute; reflexivity). lia.
  - apply stored_times. vm_compute. reflexivity.
  - rewrite Hk; [vm_compute; reflexivity|cbn; lia|reflexivity].
Defined.
