(* ===== verification/Json.v ===== *)
(** JSON values, as the program uses the library nlohmann::json.

    The library is not part of the program.  A value is the tagged union its
    documentation describes, with objects as maps sorted by key; the accessors
    follow the documentation, including what a failed one throws and what
    [operator\[\]] leaves undefined for a constant object without the key.
    Text is only reached through the class [JsonText]: [json_dump] and
    [json_parse] are the library's, and [JsonTextLaws] states that parsing
    inverts printing.  [toy_json] is a computable instance. *)

From Stdlib Require Import Strings.Byte.
From S2P Require Import Prelude Floats.

(** ** Values *)

Inductive json :=
  | JNull
  | JBool (b : bool)
  | JNumber (z : Z)
  | JFloat (x : float)
  | JString (s : bytes)
  | JArray (l : list json)
  | JObject (m : list (bytes * json)).

(** The entry of a sorted map. *)
Fixpoint obj_insert (k : bytes) (v : json) (m : list (bytes * json)) : list (bytes * json) :=
  match m with
  | [] => [(k, v)]
  | (k', v') :: m =>
      if bool_decide (k = k') then (k, v) :: m
      else if bytes_leb k k' then (k, v) :: (k', v') :: m
      else (k', v') :: obj_insert k v m
  end.

Definition obj_find (k : bytes) (m : list (bytes * json)) : option json :=
  (λ kv, kv.2) <$> find (λ kv, bool_decide (kv.1 = k)) m.

(** [j\["k"\] = v] on a null value or an object, in sequence. *)
Definition object_of (fields : list (bytes * json)) : json :=
  JObject (foldl (λ m kv, obj_insert kv.1 kv.2 m) [] fields).

Definition type_error : error := ERuntime "json: type_error".

(** [operator\[\]] of a constant value. *)
Definition json_at (k : bytes) (j : json) : outcome json :=
  match j with
  | JObject m => match obj_find k m with Some v => Ok v | None => Undef end
  | _ => Err type_error
  end.

(** [operator\[\]] of a value that may change: a missing entry is null. *)
Definition json_at_mut (k : bytes) (j : json) : outcome json :=
  match j with
  | JObject m => Ok (default JNull (obj_find k m))
  | JNull => Ok JNull
  | _ => Err type_error
  end.

Definition json_contains (k : bytes) (j : json) : bool :=
  match j with
  | JObject m => bool_decide (is_Some (obj_find k m))
  | _ => false
  end.

Definition is_array (j : json) : bool := match j with JArray _ => true | _ => false end.

(** What a loop over a value visits. *)
Definition json_items (j : json) : list json :=
  match j with
  | JNull => []
  | JArray l => l
  | JObject m => m.*2
  | j => [j]
  end.

Definition get_string (j : json) : outcome bytes :=
  match j with JString s => Ok s | _ => Err type_error end.

Definition get_bool (j : json) : outcome bool :=
  match j with JBool b => Ok b | _ => Err type_error end.

(** Numbers are cast; a cast of a floating number out of range is undefined. *)
Definition get_number (w : Z) (j : json) : outcome Z :=
  match j with
  | JNumber z => Ok (wrap w z)
  | JFloat x =>
      match truncate x with
      | Some z => if decide (in_u w z) then Ok z else Undef
      | None => Undef
      end
  | _ => Err type_error
  end.

Definition get_uint64 (j : json) : outcome Z := get_number 64 j.

(** Narrower types also take a boolean. *)
Definition get_uint32 (j : json) : outcome Z :=
  match j with JBool b => Ok (if b then 1 else 0) | _ => get_number 32 j end.

(** ** Text *)

(** Values that print to text that means them: numbers in the range of the
    library, no floating numbers, objects as [obj_insert] builds them. *)
Fixpoint json_plain (j : json) : Prop :=
  match j with
  | JNumber z => - 2 ^ 63 <= z < 2 ^ 64
  | JFloat _ => False
  | JArray l => foldr (λ x P, json_plain x ∧ P) True l
  | JObject m => foldr (λ kv P, json_plain kv.2 ∧ P) True m ∧ StronglySorted (λ a b, bytes_leb a b = true ∧ a ≠ b) m.*1
  | _ => True
  end.

Class JsonText := {
  (** [dump()]; [None] when a string is not UTF-8 and it throws *)
  json_dump : json → option bytes;
  (** [parse]; [None] when it throws *)
  json_parse : bytes → option json;
  (** [dump(2)] *)
  json_dump_indented : json → option bytes;
  (** [operator>>] from a stream with this text *)
  json_read : bytes → option json
}.

Class JsonTextLaws `{JsonText} := {
  parse_dump : ∀ j s, json_plain j → json_dump j = Some s → json_parse s = Some j;
  read_dump : ∀ j s, json_plain j → json_dump_indented j = Some s → json_read s = Some j
}.

(** ** Objects *)

Lemma obj_find_insert k v m k' :
  obj_find k' (obj_insert k v m) = if decide (k' = k) then Some v else obj_find k' m.
Proof.
  induction m as [|[k1 v1] m IH]; cbn [obj_insert].
  - unfold obj_find. cbn. case_bool_decide as E; cbn; [by rewrite decide_True|].
    rewrite decide_False by done. done.
  - case_bool_decide as E; [|destruct (bytes_leb k k1)].
    + subst k1. unfold obj_find. cbn. case_bool_decide as E; cbn; [by rewrite decide_True|].
      by rewrite decide_False by done.
    + unfold obj_find. cbn. case_bool_decide as E'; cbn; [by rewrite decide_True|].
      by rewrite decide_False by done.
    + unfold obj_find in *. cbn. case_bool_decide as E'; cbn; [|exact IH].
      subst k1. by rewrite decide_False by congruence.
Qed.

(** The last of several assignments to a key counts. *)
Lemma find_object_of fields k :
  obj_find k (foldl (λ m kv, obj_insert kv.1 kv.2 m) [] fields) = obj_find k (reverse fields).
Proof.
  induction fields as [|[k1 v1] fields IH] using rev_ind; [done|].
  rewrite foldl_app, reverse_snoc. cbn [foldl]. rewrite obj_find_insert. unfold obj_find at 2. cbn.
  case_bool_decide as E; cbn; [by rewrite decide_True|]. by rewrite decide_False.
Qed.

(** ** A computable instance *)

Section json_induction.
Context (P : json → Prop).
Context (Hnull : P JNull) (Hbool : ∀ b, P (JBool b)) (Hnum : ∀ z, P (JNumber z)) (Hfloat : ∀ x, P (JFloat x))
  (Hstr : ∀ s, P (JString s)) (Harr : ∀ l, Forall P l → P (JArray l))
  (Hobj : ∀ m, Forall (λ kv : bytes * json, P kv.2) m → P (JObject m)).

Fixpoint json_ind' (j : json) : P j :=
  match j with
  | JNull => Hnull
  | JBool b => Hbool b
  | JNumber z => Hnum z
  | JFloat x => Hfloat x
  | JString s => Hstr s
  | JArray l =>
      Harr l ((fix go l : Forall P l :=
        match l with [] => Forall_nil_2 _ | x :: l => Forall_cons_2 _ _ _ (json_ind' x) (go l) end) l)
  | JObject m =>
      Hobj m ((fix go m : Forall (λ kv : bytes * json, P kv.2) m :=
        match m with [] => Forall_nil_2 _ | kv :: m => Forall_cons_2 _ _ _ (json_ind' kv.2) (go m) end) m)
  end.
End json_induction.

(** A tag byte, then fields of known length; lists end with a tag of their own. *)
Definition print_text (s : bytes) : bytes := le_bytes 8 (len s) ++ s.

Fixpoint toy_print (j : json) : bytes :=
  match j with
  | JNull | JFloat _ => ["n"%byte]
  | JBool b => [if b then "t"%byte else "f"%byte]
  | JNumber z => "i"%byte :: le_bytes 9 (z + 2 ^ 63)
  | JString s => "s"%byte :: print_text s
  | JArray l => "a"%byte :: foldr (λ x r, toy_print x ++ r) ["."%byte] l
  | JObject m => "o"%byte :: foldr (λ kv r, "k"%byte :: print_text kv.1 ++ toy_print kv.2 ++ r) ["."%byte] m
  end.

Definition read_text (s : bytes) : bytes * bytes :=
  let n := Z.to_nat (le_val (take 8 s)) in (take n (drop 8 s), drop n (drop 8 s)).

Fixpoint toy_read (fuel : nat) (s : bytes) : option (json * bytes) :=
  match fuel, s with
  | S fuel, "n"%byte :: s => Some (JNull, s)
  | S fuel, "t"%byte :: s => Some (JBool true, s)
  | S fuel, "f"%byte :: s => Some (JBool false, s)
  | S fuel, "i"%byte :: s => Some (JNumber (le_val (take 9 s) - 2 ^ 63), drop 9 s)
  | S fuel, "s"%byte :: s => Some (JString (read_text s).1, (read_text s).2)
  | S fuel, "a"%byte :: s => p ← toy_items fuel s; Some (JArray p.1, p.2)
  | S fuel, "o"%byte :: s => p ← toy_fields fuel s; Some (JObject p.1, p.2)
  | _, _ => None
  end
with toy_items (fuel : nat) (s : bytes) : option (list json * bytes) :=
  match fuel, s with
  | S fuel, "."%byte :: s => Some ([], s)
  | S fuel, s => x ← toy_read fuel s; p ← toy_items fuel x.2; Some (x.1 :: p.1, p.2)
  | _, _ => None
  end
with toy_fields (fuel : nat) (s : bytes) : option (list (bytes * json) * bytes) :=
  match fuel, s with
  | S fuel, "."%byte :: s => Some ([], s)
  | S fuel, "k"%byte :: s =>
      let t := read_text s in
      x ← toy_read fuel t.2; p ← toy_fields fuel x.2; Some ((t.1, x.1) :: p.1, p.2)
  | _, _ => None
  end.

Definition toy_dump (j : json) : option bytes :=
  if decide (len (toy_print j) < 2 ^ 63) then Some (toy_print j) else None.

Definition toy_parse (s : bytes) : option json :=
  p ← toy_read (length s) s; if decide (p.2 = []) then Some p.1 else None.

Definition toy_json : JsonText := {|
  json_dump := toy_dump; json_parse := toy_parse; json_dump_indented := toy_dump; json_read := toy_parse
|}.

Lemma read_print_text s r : len s < 2 ^ 64 → read_text (print_text s ++ r) = (s, r).
Proof.
  intros Hs. unfold read_text, print_text. rewrite <- app_assoc.
  assert (take 8 (le_bytes 8 (len s) ++ s ++ r) = le_bytes 8 (len s)) as ->
    by (apply take_app_length'; by rewrite length_le_bytes).
  assert (drop 8 (le_bytes 8 (len s) ++ s ++ r) = s ++ r) as ->
    by (apply drop_app_length'; by rewrite length_le_bytes).
  rewrite le_val_bytes, wrap_small by (pose proof (len_nonneg s); unfold in_u; cbn; lia).
  unfold len. rewrite Nat2Z.id. by rewrite take_app_length, drop_app_length.
Qed.

Lemma toy_print_cons j : ∃ b s, toy_print j = b :: s ∧ b ≠ "."%byte.
Proof. destruct j as [|[]| | | | |]; eexists _, _; (split; [reflexivity|discriminate]). Qed.

Lemma ends_nonempty {A} (f : A → bytes → bytes) l :
  (∀ x r, (length r <= length (f x r))%nat) → (1 <= length (foldr f ["."%byte] l))%nat.
Proof. intros Hf. induction l as [|x l IH]; [done|]. cbn [foldr]. specialize (Hf x (foldr f ["."%byte] l)). lia. Qed.

Lemma toy_items_cons fuel b s :
  b ≠ "."%byte →
  toy_items (S fuel) (b :: s) = x ← toy_read fuel (b :: s); p ← toy_items fuel x.2; Some (x.1 :: p.1, p.2).
Proof. intros Hb. by destruct b. Qed.

Lemma toy_read_print j fuel r :
  json_plain j → len (toy_print j) < 2 ^ 63 → (length (toy_print j) <= fuel)%nat →
  toy_read fuel (toy_print j ++ r) = Some (j, r).
Proof.
  revert fuel r. induction j as [|b|z|x|s|l IH|m IH] using json_ind'; intros [|fuel] r Hp Hl Hf;
    try (cbn in Hf; lia); try done.
  - by destruct b.
  - cbn [toy_print app toy_read]. cbn in Hp. f_equal.
    rewrite take_app_length', drop_app_length' by (by rewrite length_le_bytes).
    rewrite le_val_bytes, wrap_small by (unfold in_u; cbn; lia). f_equal. f_equal. lia.
  - cbn [toy_print app toy_read]. cbn [toy_print] in Hl. unfold print_text in Hl. rewrite len_cons, len_app, len_le_bytes in Hl.
    rewrite read_print_text by lia. done.
  - cbn [toy_print app toy_read]. cbn [toy_print] in Hl, Hf. rewrite len_cons in Hl. cbn [length] in Hf.
    assert (toy_items fuel (foldr (λ x r, toy_print x ++ r) ["."%byte] l ++ r) = Some (l, r)) as ->; [|done].
    clear -IH Hp Hl Hf. cbn [json_plain] in Hp. revert fuel Hf. induction IH as [|x l Hx _ IHl]; intros [|fuel] Hf; [cbn in Hf; lia|done| |].
    { destruct (toy_print_cons x) as (b & s & Eb & _). cbn [foldr] in Hf. rewrite Eb in Hf. cbn in Hf. lia. }
    cbn [foldr] in *. destruct Hp as [Hpx Hp]. rewrite len_app in Hl. rewrite length_app in Hf.
    destruct (toy_print_cons x) as (b & s & Eb & Hb). rewrite <- app_assoc. rewrite Eb. cbn [app].
    rewrite toy_items_cons by done. change (b :: s ++ ?k) with ((b :: s) ++ k). rewrite <- Eb.
    assert (length (toy_print x) = S (length s)) as Elen by (by rewrite Eb).
    pose proof (len_nonneg (toy_print x)). pose proof (len_nonneg (foldr (λ x r, toy_print x ++ r) ["."%byte] l)).
    pose proof (ends_nonempty (λ x r, toy_print x ++ r) l ltac:(intros; cbv beta; rewrite length_app; lia)).
    rewrite Hx by (done || lia). cbn. rewrite IHl by (done || lia). done.
  - cbn [toy_print app toy_read]. cbn [toy_print] in Hl, Hf. rewrite len_cons in Hl. cbn [length] in Hf.
    set (pr := λ (kv : bytes * json) r, "k"%byte :: print_text kv.1 ++ toy_print kv.2 ++ r) in *.
    assert (toy_fields fuel (foldr pr ["."%byte] m ++ r) = Some (m, r)) as ->; [|done].
    clear -IH Hp Hl Hf. cbn [json_plain] in Hp. destruct Hp as [Hp _]. revert fuel Hf. induction IH as [|[k x] m Hx _ IHm]; intros [|fuel] Hf; try (cbn in Hf; lia); [done|].
    change (foldr pr ["."%byte] ((k, x) :: m))
      with ("k"%byte :: print_text k ++ toy_print x ++ foldr pr ["."%byte] m) in *.
    destruct Hp as [Hpx Hp]. cbn [fst snd length] in Hf, Hx, Hpx.
    rewrite len_cons, !len_app in Hl. rewrite !length_app in Hf.
    cbn [app]. rewrite <- !app_assoc. cbn [toy_fields].
    assert (len k < 2 ^ 64).
    { unfold print_text in Hl. rewrite len_app, len_le_bytes in Hl. pose proof (len_nonneg (toy_print x)).
      pose proof (len_nonneg (foldr pr ["."%byte] m)). lia. }
    rewrite read_print_text by done. cbn [fst snd].
    pose proof (len_nonneg (toy_print x)). pose proof (len_nonneg (print_text k)).
    pose proof (len_nonneg (foldr pr ["."%byte] m)).
    rewrite Hx by (done || lia). cbn. rewrite IHm by (done || lia). done.
Qed.

Lemma toy_parse_dump j s : json_plain j → toy_dump j = Some s → toy_parse s = Some j.
Proof.
  intros Hp. unfold toy_dump, toy_parse. case_decide as Hl; [|done]. intros [= <-].
  pose proof (toy_read_print j (length (toy_print j)) [] Hp Hl (le_n _)) as E.
  rewrite app_nil_r in E. rewrite E. done.
Qed.

Lemma toy_json_laws : @JsonTextLaws toy_json.
Proof. split; apply toy_parse_dump. Qed.

(** ** Plain objects *)

Definition keys_ascend : list bytes → Prop := StronglySorted (λ a b, bytes_leb a b = true ∧ a ≠ b).

Lemma insert_keys k v m k' : k' ∈ (obj_insert k v m).*1 → k' = k ∨ k' ∈ m.*1.
Proof.
  induction m as [|[k1 v1] m IH]; cbn [obj_insert]; [set_solver|].
  case_bool_decide; [subst; set_solver|]. destruct (bytes_leb k k1); [set_solver|]. set_solver.
Qed.

Lemma insert_ascends k v m : keys_ascend m.*1 → keys_ascend (obj_insert k v m).*1.
Proof.
  unfold keys_ascend. induction m as [|[k1 v1] m IH]; cbn [obj_insert]; intros Hs; [repeat constructor|].
  cbn in Hs. apply StronglySorted_inv in Hs as [Hs Hf]. rewrite list.Forall_forall in Hf.
  case_bool_decide as E; [subst; by constructor; [|apply list.Forall_forall]|].
  destruct (bytes_leb k k1) eqn:El; cbn.
  - constructor; [constructor; [done|by apply list.Forall_forall]|]. apply list.Forall_forall.
    intros x [->|Hx]%elem_of_cons; [done|]. destruct (Hf x Hx) as [Hle Hne].
    assert (bytes_leb k x = true) as Hkx by (by apply (key_leb_trans (K := bytes) k k1 x)). split; [done|].
    intros ->. destruct E. by apply (key_leb_antisym (K := bytes)).
  - constructor; [by apply IH|]. apply list.Forall_forall. intros x [->|Hx]%insert_keys; [|by apply Hf].
    split; [|congruence]. destruct (key_leb_total (K := bytes) k k1) as [H|H]; [|done].
    change (bytes_leb k k1 = true) in H. congruence.
Qed.

Lemma insert_plain k v m :
  json_plain v → json_plain (JObject m) → json_plain (JObject (obj_insert k v m)).
Proof.
  intros Hv [Hm Hs]. split; [|by apply insert_ascends]. clear Hs.
  induction m as [|[k1 v1] m IH]; cbn [obj_insert]; [done|]. destruct Hm as [H1 Hm].
  case_bool_decide; [done|]. destruct (bytes_leb k k1); [done|]. split; [done|]. by apply IH.
Qed.

Lemma object_of_plain fields : Forall (λ kv, json_plain kv.2) fields → json_plain (object_of fields).
Proof.
  unfold object_of. assert (json_plain (JObject [])) as H0 by (split; [done|constructor]).
  revert H0. generalize (@nil (bytes * json)). induction fields as [|[k v] fields IH]; intros m Hm Hf; [done|].
  apply list.Forall_cons in Hf as [Hv Hf]. cbn [foldl]. apply IH; [by apply insert_plain|done].
Qed.

Lemma array_plain l : Forall json_plain l → json_plain (JArray l).
Proof. by induction 1. Qed.

(** ** Reading what was assigned *)

Lemma at_object k fields v : obj_find k (reverse fields) = Some v → json_at k (object_of fields) = Ok v.
Proof. intros E. cbn. by rewrite find_object_of, E. Qed.

Lemma at_object_mut k fields v : obj_find k (reverse fields) = Some v → json_at_mut k (object_of fields) = Ok v.
Proof. intros E. cbn. by rewrite find_object_of, E. Qed.

Lemma contains_object k fields :
  json_contains k (object_of fields) = bool_decide (is_Some (obj_find k (reverse fields))).
Proof. cbn. by rewrite find_object_of. Qed.

Lemma get_uint64_number z : in_u 64 z → get_uint64 (JNumber z) = Ok z.
Proof. intros Hz. cbn. by rewrite wrap_small. Qed.
