(* ===== verification/Identity.v ===== *)
(** The identity of a node and its rotation: [RotationCertificate] and
    [NodeIdentity] of src/core/node/node_identity.hpp and node_identity.cpp.

    Generated key pairs, nonces and the clock are arguments, and so are the answers
    of the system: which files can be written and which directories are there after
    an attempt to make them. An identity file is a file of [KeyStore]'s file system. *)

From Stdlib Require Import Strings.Byte.
From S2P Require Import Prelude Reader Common Crypto Channel Floats Json KeyStore.

(** ** Paths *)

(** What is left of a reversed path without its last name, and without slashes at the end. *)
Fixpoint skip_name (r : bytes) : option bytes :=
  match r with
  | [] => None
  | c :: r => if decide (c = slash) then Some r else skip_name r
  end.

Fixpoint skip_slashes (r : bytes) : bytes :=
  match r with
  | [] => []
  | c :: r' => if decide (c = slash) then skip_slashes r' else r
  end.

(** [std::filesystem::path::parent_path] *)
Definition parent_path (path : bytes) : bytes :=
  match skip_name (reverse path) with
  | None => []
  | Some r => match skip_slashes r with [] => [slash] | r => reverse r end
  end.

(** The directories from the top down to [d]. *)
Definition ancestors (d : bytes) : list bytes :=
  filter (λ q, q ≠ [] ∧ list.last q ≠ Some slash)
    ((λ i, take i d) <$> filter (λ i, d !! i = Some slash) (seq 0 (length d))) ++ [d].

(** [std::filesystem::create_directories]: it throws at the first directory that is not there in
    the end; a file stands in the way. *)
Fixpoint make_directories (mkdir : bytes → bool) (ds : list bytes) (fs : FileSystem) : bool * FileSystem :=
  match ds with
  | [] => (true, fs)
  | d :: ds =>
      if decide (d ∈ dirs fs) then make_directories mkdir ds fs
      else if mkdir d && bool_decide (files fs !! d = None) then make_directories mkdir ds (create_directories d fs)
      else (false, fs)
  end.

Definition create_all_directories (mkdir : bytes → bool) (d : bytes) (fs : FileSystem) : bool * FileSystem :=
  make_directories mkdir (ancestors d) fs.

(** ** Certificates *)

Record RotationCertificate := MkRotationCertificate {
  old_public_key : PublicKey;
  new_public_key : PublicKey;
  rotation_timestamp : Z;
  old_key_signature : Signature;
  cert_reason : bytes
}.

#[export] Instance RotationCertificate_eq_dec : EqDecision RotationCertificate.
Proof. solve_decision. Defined.

Definition cert_to_bytes (c : RotationCertificate) : bytes :=
  arr (old_public_key c) ++ arr (new_public_key c) ++ le_bytes 8 (rotation_timestamp c) ++ cert_reason c.

(** What the old key signs: the new key and the time. *)
Definition rotation_message (new_key : PublicKey) (timestamp : Z) : bytes :=
  arr new_key ++ le_bytes 8 timestamp.

Definition verify_certificate `{Crypto} (c : RotationCertificate) : bool :=
  Ed25519.verify (rotation_message (new_public_key c) (rotation_timestamp c))
    (old_key_signature c) (old_public_key c).

(** ** Identities *)

Record NodeIdentity := MkNodeIdentity {
  public_key : PublicKey;
  secret_key : SecretKey;
  node_id : NodeID;
  created_timestamp : Z;
  rotation_history : list RotationCertificate
}.

#[export] Instance NodeIdentity_eq_dec : EqDecision NodeIdentity.
Proof. solve_decision. Defined.

Section Identities.
Context `{Crypto}.

Definition new_identity (pk : PublicKey) (sk : SecretKey) (timestamp : Z)
    (history : list RotationCertificate) : NodeIdentity :=
  MkNodeIdentity pk sk (blake3 (arr pk)) timestamp history.

Definition generate (drawn : option (PublicKey * SecretKey)) (now : Z) : outcome NodeIdentity :=
  kp ← Ed25519.generate_keypair drawn;
  Ok (new_identity kp.1 kp.2 now []).

Definition sign (message : bytes) (i : NodeIdentity) : outcome Signature :=
  Ed25519.sign message (secret_key i).

Definition verify (message : bytes) (signature : Signature) (i : NodeIdentity) : bool :=
  Ed25519.verify message signature (public_key i).

Definition rotate (reason : bytes) (drawn : option (PublicKey * SecretKey)) (now : Z)
    (i : NodeIdentity) : outcome NodeIdentity :=
  kp ← Ed25519.generate_keypair drawn;
  sg ← Ed25519.sign (rotation_message kp.1 now) (secret_key i);
  let cert := MkRotationCertificate (public_key i) kp.1 now sg reason in
  if verify_certificate cert then
    Ok (new_identity kp.1 kp.2 now (rotation_history i ++ [cert]))
  else Err (ERuntime "Failed to create valid rotation certificate").

(** The loop over the certificates: each one verifies and hands over to the
    next. *)
Fixpoint verify_links (history : list RotationCertificate) : bool :=
  match history with
  | [] => true
  | cert :: rest =>
      if negb (verify_certificate cert) then false
      else
        match rest with
        | [] => true
        | next_cert :: _ =>
            if decide (new_public_key cert = old_public_key next_cert) then verify_links rest else false
        end
  end.

Definition verify_rotation_chain (i : NodeIdentity) : bool :=
  match list.last (rotation_history i) with
  | None => true
  | Some last_cert =>
      if verify_links (rotation_history i)
      then bool_decide (new_public_key last_cert = public_key i)
      else false
  end.

Definition get_genesis_key (i : NodeIdentity) : PublicKey :=
  match rotation_history i with
  | [] => public_key i
  | cert :: _ => old_public_key cert
  end.

Definition add_rotation_certificate (cert : RotationCertificate) (i : NodeIdentity) : NodeIdentity :=
  MkNodeIdentity (public_key i) (secret_key i) (node_id i) (created_timestamp i)
    (rotation_history i ++ [cert]).

(** ** The file of an identity *)

Definition cert_to_json (c : RotationCertificate) : json :=
  object_of ([(str "old_public_key", JString (Ed25519.public_key_to_hex (old_public_key c)));
              (str "new_public_key", JString (Ed25519.public_key_to_hex (new_public_key c)));
              (str "rotation_timestamp", JNumber (rotation_timestamp c));
              (str "signature", JString (Ed25519.bytes_to_hex (arr (old_key_signature c))))] ++
             (if decide (cert_reason c = []) then [] else [(str "reason", JString (cert_reason c))])).

Definition identity_to_json (i : NodeIdentity) : json :=
  object_of ([(str "public_key", JString (Ed25519.public_key_to_hex (public_key i)));
              (str "secret_key", JString (Ed25519.bytes_to_hex (arr (secret_key i))));
              (str "created_timestamp", JNumber (created_timestamp i));
              (str "node_id", JString (hash_to_hex (node_id i)))] ++
             (if decide (rotation_history i = []) then []
              else [(str "rotation_history", JArray (cert_to_json <$> rotation_history i))])).

(** A fixed number of bytes from hexadecimal text, an exception of [std::stoul]
    passed on. *)
Definition hex_field (n : nat) (complaint : string) (hex : bytes) : outcome (array n) :=
  if len hex =? Z.of_nat n * 2 then
    l ← hex_pairs n hex;
    match to_array n l with Some a => Ok a | None => Undef end
  else Err (ERuntime complaint).

(** The entry of the certificate is constant: a missing member is undefined. *)
Definition cert_from_json (j : json) : outcome RotationCertificate :=
  old_pk_hex ← json_at (str "old_public_key") j ≫= get_string;
  new_pk_hex ← json_at (str "new_public_key") j ≫= get_string;
  sig_hex ← json_at (str "signature") j ≫= get_string;
  match Ed25519.public_key_from_hex old_pk_hex, Ed25519.public_key_from_hex new_pk_hex with
  | Some old_pk, Some new_pk =>
      timestamp ← json_at (str "rotation_timestamp") j ≫= get_uint64;
      reason ← (if json_contains (str "reason") j
                then json_at (str "reason") j ≫= get_string else Ok []);
      sg ← hex_field 64 "Invalid signature in rotation certificate" sig_hex;
      Ok (MkRotationCertificate old_pk new_pk timestamp sg reason)
  | _, _ => Err (ERuntime "Invalid public key in rotation certificate")
  end.

Definition mapM_outcome {A B} (f : A → outcome B) : list A → outcome (list B) :=
  foldr (λ x r, y ← f x; l ← r; Ok (y :: l)) (Ok []).

Definition history_from_json (j : json) : outcome (list RotationCertificate) :=
  if json_contains (str "rotation_history") j then
    a ← json_at_mut (str "rotation_history") j;
    if is_array a then mapM_outcome cert_from_json (json_items a) else Ok []
  else Ok [].

Definition identity_from_json (j : json) : outcome NodeIdentity :=
  pk_hex ← json_at_mut (str "public_key") j ≫= get_string;
  sk_hex ← json_at_mut (str "secret_key") j ≫= get_string;
  timestamp ← json_at_mut (str "created_timestamp") j ≫= get_uint64;
  match Ed25519.public_key_from_hex pk_hex with
  | None => Err (ERuntime "Invalid public key in identity file")
  | Some pk =>
      sk ← hex_field 64 "Invalid secret key in identity file" sk_hex;
      history ← history_from_json j;
      Ok (new_identity pk sk timestamp history)
  end.

Context `{ChannelCrypto, JsonText}.

(** The hash of the password is the key. *)
Definition password_key (password : bytes) : SessionKey := blake3 password.

(** The directories made stay when what follows throws. *)
Definition save (mkdir writable : bytes → bool) (path password : bytes) (nonce : Nonce) (i : NodeIdentity)
    (fs : FileSystem) : outcome unit * FileSystem :=
  let '(made, fs) := if decide (parent_path path = []) then (true, fs)
                     else create_all_directories mkdir (parent_path path) fs in
  if negb made then (Err (ERuntime "filesystem_error"), fs)
  else
    match json_dump (identity_to_json i) with
    | None => (Err type_error, fs)
    | Some json_data =>
        match (if decide (password = []) then Ok json_data
               else c ← ChaCha20Poly1305.encrypt json_data (password_key password) nonce;
                    Ok (arr nonce ++ c)) with
        | Ok file_data =>
            if writable path then (Ok tt, write_file path file_data fs)
            else (Err (ERuntime "Failed to open file for writing"), fs)
        | Err e => (Err e, fs)
        | Undef => (Undef, fs)
        end
    end.

Definition load (path password : bytes) (fs : FileSystem) : outcome NodeIdentity :=
  match files fs !! path with
  | None => Err (ERuntime "Failed to open identity file")
  | Some file_data =>
      json_data ←
        (if decide (password = []) then Ok file_data
         else if len file_data <? 12 then Err (ERuntime "Invalid encrypted identity file")
         else
           let nonce := from_option id (zeros 12) (to_array 12 (take 12 file_data)) in
           match ChaCha20Poly1305.decrypt (drop 12 file_data) (password_key password) nonce with
           | Some d => Ok d
           | None => Err (ERuntime "Failed to decrypt identity file (wrong password?)")
           end);
      match json_parse json_data with
      | None => Err (ERuntime "json: parse_error")
      | Some j => identity_from_json j
      end
  end.

End Identities.

(** ** Chains of rotations *)

Section Chains.
Context `{Crypto}.

(** Certificates that lead from one key to another. *)
Inductive rotates_to : PublicKey → list RotationCertificate → PublicKey → Prop :=
  | rotates_none k : rotates_to k [] k
  | rotates_by c rest k :
      verify_certificate c = true → rotates_to (new_public_key c) rest k →
      rotates_to (old_public_key c) (c :: rest) k.

Lemma rotates_first k h k' c rest : rotates_to k h k' → h = c :: rest → old_public_key c = k.
Proof. intros Hr ->. by inversion Hr. Qed.

Lemma rotates_app k h1 k1 h2 k2 : rotates_to k h1 k1 → rotates_to k1 h2 k2 → rotates_to k (h1 ++ h2) k2.
Proof. induction 1; [done|]. intros Hr. cbn. constructor; [done|auto]. Qed.

Lemma verify_links_cons c rest :
  verify_links (c :: rest) =
  verify_certificate c &&
    match rest with
    | [] => true
    | next :: _ => bool_decide (new_public_key c = old_public_key next) && verify_links rest
    end.
Proof.
  cbn [verify_links]. destruct (verify_certificate c); [|done]. cbn. destruct rest as [|next rest]; [done|].
  case_decide as E; [by rewrite bool_decide_eq_true_2|by rewrite bool_decide_eq_false_2].
Qed.

Lemma verify_links_rotates c rest k :
  verify_links (c :: rest) = true ∧ (new_public_key <$> list.last (c :: rest)) = Some k ↔
  rotates_to (old_public_key c) (c :: rest) k.
Proof.
  revert c. induction rest as [|next rest IH]; intros c; rewrite verify_links_cons, andb_true_iff.
  - cbn. split.
    + intros [[Hc _] [= <-]]. constructor; [done|constructor].
    + inversion_clear 1. by inversion_clear H2.
  - rewrite andb_true_iff, bool_decide_eq_true. specialize (IH next). cbn [list.last] in *. split.
    + intros [(Hc & E & Hl) Hk]. constructor; [done|]. rewrite E. apply IH. done.
    + inversion_clear 1 as [|? ? ? Hc Hr]. assert (old_public_key next = new_public_key c) as E by (by inversion Hr).
      rewrite <- E in Hr. apply IH in Hr as [? ?]. done.
Qed.

(** The rotation chain of an identity verifies exactly when its certificates lead, each
    signed by the key it retires, from the first key to the present one. *)
Theorem chain_exact i :
  verify_rotation_chain i = true ↔ rotates_to (get_genesis_key i) (rotation_history i) (public_key i).
Proof.
  unfold verify_rotation_chain, get_genesis_key. destruct (rotation_history i) as [|c rest] eqn:E.
  - cbn. split; [constructor|done].
  - destruct (list.last (c :: rest)) as [lc|] eqn:El; [|by apply list.last_None in El].
    rewrite <- verify_links_rotates, El. cbn [fmap option_fmap option_map]. destruct (verify_links (c :: rest)).
    + rewrite bool_decide_eq_true. split; [by intros ->|by intros [_ [= ->]]].
    + naive_solver.
Qed.

(** A key pair of the signature scheme. *)
Definition keypair (kp : PublicKey * SecretKey) : Prop := crypto_sign_sk_to_pk kp.2 = kp.1.

Record identity_wf (i : NodeIdentity) : Prop := {
  wf_keys : keypair (public_key i, secret_key i);
  wf_id : node_id i = blake3 (arr (public_key i));
  wf_chain : verify_rotation_chain i = true
}.

(** A succession of rotations: reasons, drawn pairs, times. *)
Fixpoint rotations (l : list (bytes * (PublicKey * SecretKey) * Z)) (i : NodeIdentity) : outcome NodeIdentity :=
  match l with
  | [] => Ok i
  | (reason, kp, now) :: l => i ← rotate reason (Some kp) now i; rotations l i
  end.

Context `{!SignatureLaws}.

(** A key pair the library generated. *)
Definition generated (kp : PublicKey * SecretKey) : Prop := keypair kp ∧ genuine_secret kp.2.

Lemma rotate_eq reason kp now i :
  identity_wf i → genuine_secret (secret_key i) →
  rotate reason (Some kp) now i =
  sg ← sign (rotation_message kp.1 now) i;
  Ok (new_identity kp.1 kp.2 now
        (rotation_history i ++ [MkRotationCertificate (public_key i) kp.1 now sg reason])).
Proof.
  intros Hi Hgen. unfold rotate, sign, Ed25519.sign. cbn [Ed25519.generate_keypair mbind outcome_bind].
  destruct (crypto_sign_detached (rotation_message kp.1 now) (secret_key i)) as [sg|] eqn:E; [|done].
  cbn [mbind outcome_bind]. unfold verify_certificate, Ed25519.verify. cbn [old_public_key new_public_key
    rotation_timestamp old_key_signature].
  pose proof (wf_keys i Hi) as Hk. unfold keypair in Hk. cbn in Hk. rewrite <- Hk.
  by rewrite (verify_sign _ _ _ Hgen E).
Qed.

Lemma rotate_wf reason kp now i i' :
  identity_wf i → genuine_secret (secret_key i) → generated kp →
  rotate reason (Some kp) now i = Ok i' →
  identity_wf i' ∧ genuine_secret (secret_key i') ∧ public_key i' = kp.1 ∧ get_genesis_key i' = get_genesis_key i ∧
  ∃ c, rotation_history i' = rotation_history i ++ [c].
Proof.
  intros Hi Hgen [Hkp Hkg]. rewrite rotate_eq by done. destruct (sign _ i) as [sg| |] eqn:E; [|done..].
  cbn [mbind outcome_bind]. intros [= <-]. set (c := MkRotationCertificate _ _ _ _ _).
  assert (verify_certificate c = true) as Hc.
  { unfold verify_certificate, Ed25519.verify. cbn. pose proof (wf_keys i Hi) as Hk. unfold keypair in Hk. cbn in Hk.
    rewrite <- Hk. unfold sign, Ed25519.sign in E. destruct (crypto_sign_detached _ _) eqn:Es; [|done].
    injection E as <-. by apply verify_sign. }
  assert (Hg : get_genesis_key (new_identity kp.1 kp.2 now (rotation_history i ++ [c])) = get_genesis_key i).
  { unfold get_genesis_key. cbn. by destruct (rotation_history i). }
  split; [|split; [done|split; [done|split; [done|by exists c]]]]. split; [by destruct kp|done|].
  apply chain_exact. rewrite Hg. cbn. eapply rotates_app; [apply chain_exact, Hi|].
  change (public_key i) with (old_public_key c). constructor; [done|]. constructor.
Qed.

Lemma rotations_wf l i i' :
  identity_wf i → genuine_secret (secret_key i) → Forall (λ x, generated x.1.2) l →
  rotations l i = Ok i' → identity_wf i' ∧ genuine_secret (secret_key i') ∧ get_genesis_key i' = get_genesis_key i ∧
  length (rotation_history i') = (length (rotation_history i) + length l)%nat.
Proof.
  revert i. induction l as [|[[reason kp] now] l IH]; intros i Hi Hgen Hl; cbn [rotations].
  - intros [= <-]. split; [done|]. split; [done|]. split; [done|]. cbn. lia.
  - apply list.Forall_cons in Hl as [Hkp Hl]. destruct (rotate reason (Some kp) now i) as [j| |] eqn:E; [|done..].
    cbn [mbind outcome_bind]. intros Hr. apply rotate_wf in E as (Hj & Hgj & _ & Hg & c & Hh); [|done..].
    destruct (IH j Hj Hgj Hl Hr) as (? & ? & -> & ->). split; [done|]. split; [done|]. split; [done|].
    rewrite Hh, length_app. cbn. lia.
Qed.

(** C11: after any number of rotations to generated keys from a generated identity the
    identifier is the hash of the current key, the history is an unbroken chain of
    certificates from the first key to the current one, each signed by the key before
    it, what the identity signs verifies, and it can be rotated again whenever its key
    signs. *)
Theorem rotations_keep_genesis kp0 t0 l i :
  generated kp0 → Forall (λ x, generated x.1.2) l →
  (i ← generate (Some kp0) t0; rotations l i) = Ok i →
  identity_wf i ∧ get_genesis_key i = kp0.1 ∧ length (rotation_history i) = length l ∧
  rotates_to kp0.1 (rotation_history i) (public_key i) ∧
  (∀ message sg, sign message i = Ok sg → verify message sg i = true) ∧
  (∀ reason kp now, (∃ sg, sign (rotation_message kp.1 now) i = Ok sg) →
     ∃ i', rotate reason (Some kp) now i = Ok i').
Proof.
  intros [Hk0 Hg0] Hl. cbn [generate Ed25519.generate_keypair mbind outcome_bind].
  set (i0 := new_identity kp0.1 kp0.2 t0 []). assert (identity_wf i0) as Hi0 by (split; [by destruct kp0|done..]).
  intros Hrun. destruct (rotations_wf l i0 i Hi0 Hg0 Hl Hrun) as (Hi & Hgi & Hg & Hn).
  split; [done|]. split; [done|]. split; [done|]. split; [|split].
  - change kp0.1 with (get_genesis_key i0). rewrite <- Hg. apply chain_exact, Hi.
  - intros message sg. unfold sign, Ed25519.sign, verify, Ed25519.verify.
    destruct (crypto_sign_detached message (secret_key i)) eqn:E; [|done]. intros [= <-].
    pose proof (wf_keys i Hi) as Hk. unfold keypair in Hk. cbn in Hk. rewrite <- Hk. by apply verify_sign.
  - intros reason kp now [sg Hs]. rewrite rotate_eq by done. rewrite Hs. by eexists.
Qed.

End Chains.

(** ** Saving and loading *)

Section Files.
Context `{Crypto, ChannelCrypto, JsonText}.

Definition cert_storable (c : RotationCertificate) : Prop := in_u 64 (rotation_timestamp c).

Definition storable (i : NodeIdentity) : Prop :=
  node_id i = blake3 (arr (public_key i)) ∧ in_u 64 (created_timestamp i) ∧
  Forall cert_storable (rotation_history i).

Lemma hex_field_roundtrip {n} complaint (a : array n) :
  hex_field n complaint (Ed25519.bytes_to_hex (arr a)) = Ok a.
Proof.
  unfold hex_field. rewrite Ed25519.len_hex, len_arr, Z.eqb_refl, Ed25519.hex_pairs_array. cbn.
  by rewrite to_array_arr.
Qed.

Lemma number_plain z : in_u 64 z → json_plain (JNumber z).
Proof. unfold in_u. cbn. lia. Qed.

Lemma cert_json c :
  cert_storable c → cert_from_json (cert_to_json c) = Ok c ∧ json_plain (cert_to_json c).
Proof.
  intros Hc. split.
  - unfold cert_from_json, cert_to_json. rewrite contains_object. case_decide as Er.
    + rewrite bool_decide_eq_false_2 by (by intros [? ?]).
      do 4 (erewrite at_object by reflexivity). cbn [snd mbind outcome_bind get_string].
      unfold Ed25519.public_key_from_hex, Ed25519.public_key_to_hex. rewrite !Ed25519.hex_roundtrip.
      rewrite get_uint64_number by done. cbn [mbind outcome_bind].
      rewrite hex_field_roundtrip. cbn. destruct c. cbn in Er. by subst.
    + rewrite bool_decide_eq_true_2 by done.
      do 5 (erewrite at_object by reflexivity). cbn [snd mbind outcome_bind get_string].
      unfold Ed25519.public_key_from_hex, Ed25519.public_key_to_hex. rewrite !Ed25519.hex_roundtrip.
      rewrite get_uint64_number by done. cbn [mbind outcome_bind].
      rewrite hex_field_roundtrip. cbn. by destruct c.
  - apply object_of_plain. apply Forall_app. split; [repeat constructor; unfold cert_storable, in_u in Hc; cbn; lia|].
    case_decide; repeat constructor.
Qed.

Lemma certs_json h :
  Forall cert_storable h → mapM_outcome cert_from_json (cert_to_json <$> h) = Ok h.
Proof.
  induction 1 as [|c h Hc _ IH]; [done|]. cbn [fmap list_fmap mapM_outcome foldr].
  rewrite (proj1 (cert_json c Hc)). cbn [mbind outcome_bind]. unfold mapM_outcome in IH.
  change (foldr _ (Ok []) (cert_to_json <$> h)) with (mapM_outcome cert_from_json (cert_to_json <$> h)).
  unfold mapM_outcome. by rewrite IH.
Qed.

Lemma identity_json i :
  storable i → identity_from_json (identity_to_json i) = Ok i ∧ json_plain (identity_to_json i).
Proof.
  intros (Hid & Ht & Hh). split.
  - unfold identity_from_json, identity_to_json.
    unfold history_from_json. rewrite contains_object. case_decide as Eh.
    + rewrite bool_decide_eq_false_2 by (by intros [? ?]).
      do 3 (erewrite at_object_mut by reflexivity). cbn [snd mbind outcome_bind get_string].
      unfold Ed25519.public_key_from_hex, Ed25519.public_key_to_hex. rewrite Ed25519.hex_roundtrip.
      rewrite get_uint64_number by done. cbn [mbind outcome_bind].
      rewrite hex_field_roundtrip. cbn. unfold new_identity. rewrite <- Hid. destruct i. cbn in Eh. by subst.
    + rewrite bool_decide_eq_true_2 by done.
      do 4 (erewrite at_object_mut by reflexivity). cbn [snd mbind outcome_bind get_string].
      unfold Ed25519.public_key_from_hex, Ed25519.public_key_to_hex. rewrite Ed25519.hex_roundtrip.
      rewrite get_uint64_number by done. cbn [mbind outcome_bind].
      rewrite hex_field_roundtrip. cbn [mbind outcome_bind is_array json_items].
      rewrite certs_json by done. cbn. unfold new_identity. rewrite <- Hid. by destruct i.
  - apply object_of_plain. apply Forall_app. split; [repeat constructor; unfold in_u in Ht; cbn; lia|].
    case_decide; repeat constructor. cbn [snd]. apply array_plain, Forall_fmap.
    eapply list.Forall_impl; [exact Hh|]. intros c Hc. by apply cert_json.
Qed.

(** Making the directory above a path. *)
Lemma made_directories mkdir ds fs :
  files (make_directories mkdir ds fs).2 = files fs ∧ dirs fs ⊆ dirs (make_directories mkdir ds fs).2 ∧
  (∀ d, d ∈ dirs (make_directories mkdir ds fs).2 → d ∈ dirs fs ∨ d ∈ ds) ∧
  ((make_directories mkdir ds fs).1 = true → ∀ d, d ∈ ds → d ∈ dirs (make_directories mkdir ds fs).2).
Proof.
  revert fs. induction ds as [|d ds IH]; intros fs; cbn [make_directories].
  { split_and!; try done; [by left|]. intros _ d Hd. by apply not_elem_of_nil in Hd. }
  destruct (decide (d ∈ dirs fs)) as [Hd|Hd].
  - destruct (IH fs) as (Hf & Hs & Hn & Hok). split_and!; try done.
    + intros d' [?|?]%Hn; [by left|right; by right].
    + intros Hm d' [->|Hin]%elem_of_cons; [by apply Hs|by apply Hok].
  - destruct (mkdir d && _); [|split_and!; try done; by left].
    destruct (IH (create_directories d fs)) as (Hf & Hs & Hn & Hok). cbn [create_directories files dirs] in *. split_and!; [done|set_solver|..].
    + intros d' [Hd'|?]%Hn; [|right; by right]. apply elem_of_union in Hd' as [?|?%elem_of_singleton]; [by left|right; subst; by left].
    + intros Hm d' [->|Hin]%elem_of_cons; [apply Hs; set_solver|by apply Hok].
Qed.

Lemma parent_made mkdir path fs :
  let '(made, fs') := if decide (parent_path path = []) then (true, fs)
                      else create_all_directories mkdir (parent_path path) fs in
  files fs' = files fs ∧ dirs fs ⊆ dirs fs' ∧
  (∀ d, d ∈ dirs fs' → d ∈ dirs fs ∨ d ∈ ancestors (parent_path path)) ∧
  (made = true → parent_path path = [] ∨ parent_path path ∈ dirs fs').
Proof.
  destruct (decide (parent_path path = [])) as [E|_]; [split_and!; try done; by left|].
  pose proof (made_directories mkdir (ancestors (parent_path path)) fs) as (Hf & Hs & Hn & Hok).
  unfold create_all_directories. destruct (make_directories _ _ _) as [made fs']. cbn [fst snd] in *.
  split_and!; try done. intros Hm. right. apply Hok; [done|]. unfold ancestors. apply elem_of_app. right. by apply list_elem_of_singleton.
Qed.

(** What saving does to the files and directories, whatever its result. *)
Lemma save_effect mkdir writable path password nonce i fs r fs' :
  save mkdir writable path password nonce i fs = (r, fs') →
  dirs fs ⊆ dirs fs' ∧ (∀ d, d ∈ dirs fs' → d ∈ dirs fs ∨ d ∈ ancestors (parent_path path)) ∧
  (files fs' = files fs ∨ r = Ok tt ∧ writable path = true).
Proof.
  unfold save. pose proof (parent_made mkdir path fs) as Hm. destruct (if decide _ then _ else _) as [made fs1].
  destruct Hm as (Hf & Hd & Hnew & _). destruct made; cbn [negb]; [|intros [= <- <-]; auto].
  destruct (json_dump _) as [text|]; [|intros [= <- <-]; auto].
  destruct (if decide (password = []) then _ else _) as [content| |]; [|intros [= <- <-]; auto..].
  destruct (writable path); intros [= <- <-]; auto.
Qed.

Context `{!ChannelLaws, !JsonTextLaws}.

(** Saving writes one file, from which the identity is read, under directories it makes. *)
Lemma saved_loads mkdir writable path password nonce i fs fs' :
  storable i → save mkdir writable path password nonce i fs = (Ok tt, fs') →
  writable path = true ∧ ∃ content ds, fs' = write_file path content (MkFileSystem (files fs) ds) ∧
    dirs fs ⊆ ds ∧ (∀ d, d ∈ ds → d ∈ dirs fs ∨ d ∈ ancestors (parent_path path)) ∧
    (parent_path path = [] ∨ parent_path path ∈ ds) ∧
    ∀ disk, files disk !! path = Some content → load path password disk = Ok i.
Proof.
  intros Hi. destruct (identity_json i Hi) as [Hj Hp]. unfold save.
  pose proof (parent_made mkdir path fs) as Hm. destruct (if decide _ then _ else _) as [made fs1].
  destruct Hm as (Hf & Hd & Hnew & Hok). destruct made; cbn [negb]; [|done]. specialize (Hok eq_refl).
  assert (Efs : fs1 = MkFileSystem (files fs) (dirs fs1)) by (by destruct fs1; cbn in *; subst).
  destruct (json_dump (identity_to_json i)) as [text|] eqn:Ed; [|done].
  pose proof (parse_dump _ _ Hp Ed) as Epr. unfold load. case_decide as Epw.
  - destruct (writable path); [|done]. intros [= <-].
    split; [done|]. exists text, (dirs fs1). rewrite <- Efs. do 4 (split; [done|]). intros disk ->. cbn. by rewrite Epr.
  - destruct (ChaCha20Poly1305.encrypt text (password_key password) nonce) as [c| |] eqn:Ec; cbn [mbind outcome_bind]; [|done..].
    destruct (writable path); [|done]. intros [= <-].
    split; [done|]. eexists _, (dirs fs1). rewrite <- Efs. do 4 (split; [done|]). intros disk ->.
    rewrite len_app, len_arr, (proj2 (Z.ltb_ge _ _)) by (pose proof (len_nonneg c); lia).
    rewrite take_app_length', drop_app_length' by (by rewrite length_arr). rewrite to_array_arr. cbn [from_option id].
    rewrite (ChaCha20Poly1305.decrypt_encrypt _ _ _ _ Ec). cbn [mbind outcome_bind]. by rewrite Epr.
Qed.

(** C12: saving an identity, encrypted or not, makes the directories above the path
    that are missing and nothing else; loading it with the same password then gives
    the identity back, its certificates included, and no other file is touched. A
    saving that fails changes no file. *)
Theorem identity_saved_and_loaded mkdir writable path password nonce i fs r fs' :
  storable i → save mkdir writable path password nonce i fs = (r, fs') →
  (r = Ok tt → load path password fs' = Ok i ∧ writable path = true ∧
     (parent_path path = [] ∨ parent_path path ∈ dirs fs') ∧
     ∀ other, other ≠ path → files fs' !! other = files fs !! other) ∧
  (r ≠ Ok tt → files fs' = files fs) ∧
  dirs fs ⊆ dirs fs' ∧ ∀ d, d ∈ dirs fs' → d ∈ dirs fs ∨ d ∈ ancestors (parent_path path).
Proof.
  intros Hi Hs. split; [|split].
  - intros ->. destruct (saved_loads _ _ _ _ _ _ _ _ Hi Hs) as (Hw & content & ds & -> & _ & _ & Hp & Hl).
    cbn [write_file files dirs]. split; [apply Hl, lookup_insert_eq|]. split; [done|]. split; [done|].
    intros other Ho. by rewrite lookup_insert_ne.
  - intros Hr. destruct (save_effect _ _ _ _ _ _ _ _ _ Hs) as (_ & _ & [Hf|[E _]]); [done|congruence].
  - destruct (save_effect _ _ _ _ _ _ _ _ _ Hs) as (Hd & Hn & _). done.
Qed.

End Files.

(** ** Examples *)

Module Sample.

(** The toy scheme derives the public key from the second half of the secret. *)
Definition pair_of (b : byte) : PublicKey * SecretKey := (array_fill 32 b, array_fill 64 b).

Lemma pair_ok b : @keypair toy_crypto (pair_of b).
Proof. apply arr_inj. by destruct b. Qed.

Definition plan : list (bytes * (PublicKey * SecretKey) * Z) :=
  [(str "scheduled", pair_of "b", 2000); ([], pair_of "c", 3000)]%byte.

Definition rotated : outcome NodeIdentity :=
  i ← @generate toy_crypto (Some (pair_of "a"%byte)) 1000; @rotations toy_crypto plan i.

Definition someone : NodeIdentity :=
  @new_identity toy_crypto (array_fill 32 "a"%byte) (array_fill 64 "a"%byte) 0 [].

Definition result : NodeIdentity := match rotated with Ok i => i | _ => someone end.

Definition disk : FileSystem := MkFileSystem ∅ ∅.

End Sample.

Lemma rotations_keep_genesis_witness :
  Sample.rotated = Ok Sample.result ∧ get_genesis_key Sample.result = array_fill 32 "a"%byte ∧
  length (rotation_history Sample.result) = 2%nat.
Proof.
  assert (Sample.rotated = Ok Sample.result) as E.
  { apply (ok_value Sample.rotated Sample.someone). vm_compute. reflexivity. }
  split; [exact E|].
  destruct (@rotations_keep_genesis toy_crypto toy_laws (Sample.pair_of "a"%byte) 1000 Sample.plan Sample.result)
    as (_ & Hg & Hn & _).
  - split; [apply Sample.pair_ok|exact I].
  - repeat constructor; apply Sample.pair_ok.
  - exact E.
  - split; [exact Hg|exact Hn].
Defined.

Lemma storable_check `{Crypto} i :
  bool_decide (node_id i = blake3 (arr (public_key i))) &&
  forallb (λ t, (0 <=? t) && (t <? 2 ^ 64)) (created_timestamp i :: (rotation_timestamp <$> rotation_history i)) = true →
  storable i.
Proof.
  cbn [forallb]. intros Hc. bool_to_prop. split; [done|]. split; [done|].
  match goal with Hf : forallb _ _ = true |- _ => rewrite forallb_forall in Hf; rename Hf into Hall end.
  apply list.Forall_forall. intros c Hin. assert (In (rotation_timestamp c) (rotation_timestamp <$> rotation_history i)) as Hi
    by (apply list_elem_of_In, list_elem_of_fmap; by exists c).
  apply Hall in Hi. bool_to_prop. done.
Qed.

Lemma identity_saved_and_loaded_witness :
  ∃ fs', @save toy_crypto toy_channel toy_json (λ _, true) (λ _, true) (str "home/keys/id.json") (str "secret") (zeros 12)
      Sample.result Sample.disk = (Ok tt, fs') ∧
    @load toy_crypto toy_channel toy_json (str "home/keys/id.json") (str "secret") fs' = Ok Sample.result ∧
    str "home" ∈ dirs fs' ∧ str "home/keys" ∈ dirs fs'.
Proof.
  destruct (@save toy_crypto toy_channel toy_json (λ _, true) (λ _, true) (str "home/keys/id.json") (str "secret")
    (zeros 12) Sample.result Sample.disk) as [r fs'] eqn:E.
  assert (r = Ok tt) as -> by (transitivity (fst (r, fs')); [done|rewrite <- E; vm_compute; reflexivity]).
  exists fs'. split; [reflexivity|].
  destruct (@identity_saved_and_loaded toy_crypto toy_channel toy_json toy_channel_laws toy_json_laws
    (λ _, true) (λ _, true) (str "home/keys/id.json") (str "secret") (zeros 12) Sample.result Sample.disk (Ok tt) fs')
    as (Hl & _).
  - apply storable_check. vm_compute. reflexivity.
  - exact E.
  - destruct (Hl eq_refl) as (Hload & _). split; [exact Hload|].
    change fs' with (snd (Ok tt : outcome unit, fs')). rewrite <- E.
    split; apply (bool_decide_eq_true_1 _); vm_compute; reflexivity.
Defined.
