(* ===== verification/KeyRevocation.v ===== *)
(** Revoked keys: [KeyRevocation] and [KeyRevocationBroadcaster] of
    src/security/key_revocation.hpp and key_revocation.cpp.

    A reason is kept as its byte, which [from_bytes] does not check.  The clock
    in seconds is [now]; [garbage] is what an uninitialised signature or
    identifier holds. *)

From Stdlib Require Import Strings.Byte.
From S2P Require Import Prelude Reader Common Crypto Channel Floats Json KeyStore Identity Revocation.

(** ** Revocations *)

Inductive KeyRevocationReason :=
  | SUSPECTED_COMPROMISE | CONFIRMED_COMPROMISE | SCHEDULED_ROTATION | DEVICE_LOSS
  | KEY_EXPIRATION | POLICY_VIOLATION | ADMINISTRATIVE | OWNER_REQUEST.

Definition key_reason_byte (r : KeyRevocationReason) : byte :=
  match r with
  | SUSPECTED_COMPROMISE => "000" | CONFIRMED_COMPROMISE => "001" | SCHEDULED_ROTATION => "002"
  | DEVICE_LOSS => "003" | KEY_EXPIRATION => "004" | POLICY_VIOLATION => "005"
  | ADMINISTRATIVE => "006" | OWNER_REQUEST => "007"
  end%byte.

Record KeyRevocation := MkKeyRevocation {
  revoked_key : PublicKey;
  reason : byte;
  revoked_at : Z;
  revoker : NodeID;
  replacement_key : option PublicKey;
  rotation_cert : option RotationCertificate;
  rev_signature : Signature
}.

#[export] Instance KeyRevocation_eq_dec : EqDecision KeyRevocation.
Proof. solve_decision. Defined.

(** A flag, and the part if there is one. *)
Definition optional_part {A} (f : A → bytes) (x : option A) : bytes :=
  match x with Some a => "001"%byte :: f a | None => ["000"%byte] end.

Definition cert_frame (c : RotationCertificate) : bytes :=
  le_bytes 4 (u32 (len (cert_to_bytes c))) ++ cert_to_bytes c.

Definition key_to_bytes (r : KeyRevocation) : bytes :=
  arr (revoked_key r) ++ [reason r] ++ le_bytes 8 (revoked_at r) ++ arr (revoker r) ++
  optional_part arr (replacement_key r) ++ optional_part cert_frame (rotation_cert r) ++
  arr (rev_signature r).

(** A certificate without the signature, which its format leaves out; less than
    the fixed part is ignored. *)
Definition parse_cert (garbage : Signature) (cert_data : bytes) : option RotationCertificate :=
  if len cert_data <? 72 then None
  else
    old_key ← to_array 32 (take 32 cert_data);
    new_key ← to_array 32 (take 32 (drop 32 cert_data));
    Some (MkRotationCertificate old_key new_key (le_val (sub cert_data 64 8)) garbage (drop 72 cert_data)).

Definition optional_reader {A} (r : reader (option A)) : reader (option A) :=
  flag ← raw_uint 1; if flag =? 1 then r else mret None.

Definition key_fields (garbage : Signature) : reader KeyRevocation :=
  key ← raw_array 32;
  why ← raw_uint 1;
  at_ ← raw_uint 8;
  who ← raw_array 32;
  replacement ← optional_reader (k ← read_blob 64 32; mret (Some k));
  _ ← rd_room 64 1;
  cert ← optional_reader (n ← read_scalar 64 4; d ← read_string 64 n; mret (parse_cert garbage d));
  sg ← read_blob 64 64;
  mret (MkKeyRevocation key (to_byte why) at_ who replacement cert sg).

Definition key_reader (garbage : Signature) : reader KeyRevocation := _ ← rd_min 139; key_fields garbage.

Definition key_from_bytes (garbage : Signature) (data : bytes) : option KeyRevocation :=
  to_optional (run_reader (key_reader garbage) data).

Abbreviation KeyRevocationList := (ListUpdate KeyRevocation).

Definition key_list_to_bytes : KeyRevocationList → bytes := update_to_bytes key_to_bytes.

Definition key_list_from_bytes (garbage : Signature) : bytes → option KeyRevocationList :=
  update_from_bytes (key_reader garbage).

(** ** The broadcaster *)

Record KeyRevocationBroadcaster := MkKeyRevocationBroadcaster {
  revocations : gmap PublicKey KeyRevocation;
  key_replacements : gmap PublicKey PublicKey;
  seen_revocations : gset Hash256;
  revocation_expiry_days : Z;
  max_propagation_count : Z
}.

Definition new_broadcaster : KeyRevocationBroadcaster := MkKeyRevocationBroadcaster ∅ ∅ ∅ 365 10.

Definition set_revocation_expiry_days (days : Z) (m : KeyRevocationBroadcaster) : KeyRevocationBroadcaster :=
  MkKeyRevocationBroadcaster (revocations m) (key_replacements m) (seen_revocations m) days
    (max_propagation_count m).

Definition is_key_revoked (k : PublicKey) (m : KeyRevocationBroadcaster) : bool :=
  bool_decide (is_Some (revocations m !! k)).

Definition get_revocation (k : PublicKey) (m : KeyRevocationBroadcaster) : option KeyRevocation :=
  revocations m !! k.

Definition get_replacement_key (k : PublicKey) (m : KeyRevocationBroadcaster) : option PublicKey :=
  key_replacements m !! k.

(** Stores a revocation, and the replacement if there is one. *)
Definition store (r : KeyRevocation) (seen : gset Hash256) (m : KeyRevocationBroadcaster) :
    KeyRevocationBroadcaster :=
  MkKeyRevocationBroadcaster (<[revoked_key r := r]> (revocations m))
    (match replacement_key r with
     | Some k => <[revoked_key r := k]> (key_replacements m)
     | None => key_replacements m
     end) seen (revocation_expiry_days m) (max_propagation_count m).

Definition revoke_key (now : Z) (key : PublicKey) (why : KeyRevocationReason) (who : NodeID)
    (replacement : option PublicKey) (cert : option RotationCertificate) (garbage : Signature)
    (m : KeyRevocationBroadcaster) : option KeyRevocation * KeyRevocationBroadcaster :=
  if is_key_revoked key m then (None, m)
  else
    let r := MkKeyRevocation key (key_reason_byte why) now who replacement cert garbage in
    (Some r, store r (seen_revocations m) m).

Definition is_revocation_expired (now : Z) (r : KeyRevocation) (m : KeyRevocationBroadcaster) : bool :=
  revocation_expired now (revocation_expiry_days m) (revoked_at r).

Definition all_revocations (m : KeyRevocationBroadcaster) : list KeyRevocation := (entries (revocations m)).*2.

Definition get_recent_revocations (since : Z) (max_count : nat) (m : KeyRevocationBroadcaster) :
    list KeyRevocation :=
  recent revoked_at since max_count (all_revocations m).

Definition create_revocation_list (include_all : bool) (now : Z) (garbage_id : NodeID)
    (garbage : Signature) (m : KeyRevocationBroadcaster) : KeyRevocationList :=
  MkListUpdate
    (if include_all then all_revocations m else get_recent_revocations (u64 (now - 3600)) 100 m)
    now garbage_id garbage.

Definition sign_revocation (sg : Signature) (r : KeyRevocation) : KeyRevocation :=
  MkKeyRevocation (revoked_key r) (reason r) (revoked_at r) (revoker r) (replacement_key r)
    (rotation_cert r) sg.

Section Broadcaster.
Context `{Crypto}.

Definition get_id (r : KeyRevocation) : Hash256 :=
  blake3 (arr (revoked_key r) ++ [reason r] ++ le_bytes 8 (revoked_at r)).

(** What a signature covers: not the certificate. *)
Definition signed_content (r : KeyRevocation) : bytes :=
  arr (revoked_key r) ++ [reason r] ++ le_bytes 8 (revoked_at r) ++ arr (revoker r) ++
  match replacement_key r with Some k => arr k | None => [] end.

(** The replacement itself vouches for a revocation that names one. *)
Definition verify_revocation (r : KeyRevocation) : bool :=
  Ed25519.verify (signed_content r) (rev_signature r)
    (default (revoked_key r) (replacement_key r)).

Definition should_accept_revocation (now : Z) (r : KeyRevocation) (m : KeyRevocationBroadcaster) : bool :=
  if is_revocation_expired now r m then false
  else if u64 (now + 300) <? revoked_at r then false
  else match rotation_cert r with
       | Some c => verify_certificate c
       | None => true
       end.

Definition process_revocation (now : Z) (r : KeyRevocation) (m : KeyRevocationBroadcaster) :
    bool * KeyRevocationBroadcaster :=
  let id := get_id r in
  if bool_decide (id ∈ seen_revocations m) then (false, m)
  else if negb (should_accept_revocation now r m) then (false, m)
  else if negb (verify_revocation r) then (false, m)
  else (true, store r ({[id]} ∪ seen_revocations m) m).

Definition process_revocation_list (now : Z) (u : KeyRevocationList) (m : KeyRevocationBroadcaster) :
    Z * KeyRevocationBroadcaster :=
  foldl (λ acc r,
    let p := process_revocation now r acc.2 in
    (if p.1 : bool then acc.1 + 1 else acc.1, p.2)) (0, m) (update_revocations u).

End Broadcaster.

Definition revocation_count (m : KeyRevocationBroadcaster) : Z := Z.of_nat (size (revocations m)).

Definition expired_revocation_count (now : Z) (m : KeyRevocationBroadcaster) : Z :=
  len (filter (λ r, is_revocation_expired now r m = true) (all_revocations m)).

Definition erase_key (k : PublicKey) (m : KeyRevocationBroadcaster) : KeyRevocationBroadcaster :=
  MkKeyRevocationBroadcaster (delete k (revocations m)) (delete k (key_replacements m))
    (seen_revocations m) (revocation_expiry_days m) (max_propagation_count m).

Definition cleanup_expired_revocations (now : Z) (m : KeyRevocationBroadcaster) : KeyRevocationBroadcaster :=
  let to_remove := (filter (λ kr, is_revocation_expired now kr.2 m = true) (entries (revocations m))).*1 in
  foldl (λ m k, erase_key k m) m to_remove.

Definition key_revocation_reason_to_string (r : byte) : bytes :=
  match byte_val r with
  | 0 => str "Suspected compromise"
  | 1 => str "Confirmed compromise"
  | 2 => str "Scheduled rotation"
  | 3 => str "Device loss"
  | 4 => str "Key expiration"
  | 5 => str "Policy violation"
  | 6 => str "Administrative"
  | 7 => str "Owner request"
  | _ => str "Unknown"
  end.

(** ** The format *)

(** The revocation as it arrives: its certificate has lost its signature. *)
Definition as_received (garbage : Signature) (r : KeyRevocation) : KeyRevocation :=
  MkKeyRevocation (revoked_key r) (reason r) (revoked_at r) (revoker r) (replacement_key r)
    ((λ c, MkRotationCertificate (old_public_key c) (new_public_key c) (rotation_timestamp c) garbage
             (cert_reason c)) <$> rotation_cert r)
    (rev_signature r).

Definition carries_key (r : KeyRevocation) : Prop :=
  in_u 64 (revoked_at r) ∧
  match rotation_cert r with
  | Some c => in_u 64 (rotation_timestamp c) ∧ len (cert_reason c) < 2 ^ 31
  | None => True
  end.

Lemma len_cert c : len (cert_to_bytes c) = 72 + len (cert_reason c).
Proof. unfold cert_to_bytes. autorewrite with len. lia. Qed.

Lemma parse_cert_bytes garbage c :
  in_u 64 (rotation_timestamp c) →
  parse_cert garbage (cert_to_bytes c) =
    Some (MkRotationCertificate (old_public_key c) (new_public_key c) (rotation_timestamp c) garbage (cert_reason c)).
Proof.
  intros Ht. unfold parse_cert. pose proof (len_nonneg (cert_reason c)).
  rewrite len_cert, (proj2 (Z.ltb_ge _ _)) by lia. unfold cert_to_bytes.
  rewrite (take_app_length' (arr (old_public_key c)) _ 32) by (by rewrite length_arr).
  rewrite (drop_app_length' (arr (old_public_key c)) _ 32) by (by rewrite length_arr).
  rewrite (take_app_length' (arr (new_public_key c)) _ 32) by (by rewrite length_arr).
  rewrite !to_array_arr. cbn [mbind option_bind]. f_equal. f_equal.
  - replace 64 with (len (arr (old_public_key c) ++ arr (new_public_key c))) by (rewrite len_app, !len_arr; done).
    rewrite (app_assoc (arr (old_public_key c))), sub_middle_n by (by rewrite len_le_bytes).
    rewrite le_val_bytes. by apply wrap_small.
  - rewrite (app_assoc (arr (new_public_key c))), (app_assoc (arr (old_public_key c))).
    apply drop_app_length'. by rewrite !length_app, !length_arr, length_le_bytes.
Qed.

Lemma reads_optional {A} (r : reader (option A)) (f : A → bytes) x :
  (∀ a, x = Some a → reads 64 r (Some a) (f a)) → reads 64 (optional_reader r) x (optional_part f x).
Proof.
  intros Hr. unfold optional_reader, optional_part. destruct x as [a|].
  - change ("001"%byte :: f a) with (["001"%byte] ++ f a).
    eapply reads_bind; [apply (reads_raw_byte 64 "001"%byte)|]. cbv beta. by apply Hr.
  - rewrite <- (app_nil_r ["000"%byte]). eapply reads_bind; [apply (reads_raw_byte 64 "000"%byte)|].
    cbv beta. apply reads_ret.
Qed.

Lemma len_optional {A} (f : A → bytes) x : 1 <= len (optional_part f x).
Proof. destruct x; cbn; rewrite len_cons; [pose proof (len_nonneg (f a)); lia|rewrite len_nil; lia]. Qed.

Lemma reads_key_revocation garbage r :
  carries_key r → reads 64 (key_reader garbage) (as_received garbage r) (key_to_bytes r).
Proof.
  intros [Ha Hc]. pose proof (len_optional arr (replacement_key r)). pose proof (len_optional cert_frame (rotation_cert r)).
  apply reads_min; [unfold key_to_bytes; autorewrite with len; change (len [_]) with 1; lia|].
  unfold key_fields, key_to_bytes.
  do 4 (eapply reads_bind;
    [first [apply reads_raw_array|apply reads_raw_byte|by apply reads_raw_uint]|]; cbv beta).
  eapply reads_bind.
  { apply (reads_optional _ arr). intros k _. rewrite <- (app_nil_r (arr k)).
    eapply reads_bind; [apply reads_blob|]. apply reads_ret. }
  cbv beta. apply reads_room; [rewrite len_app, len_arr; lia|]. eapply reads_bind.
  { replace (optional_part cert_frame (rotation_cert r)) with
      (optional_part (λ c, cert_frame (MkRotationCertificate (old_public_key c) (new_public_key c)
         (rotation_timestamp c) (zeros 64) (cert_reason c))) (rotation_cert (as_received garbage r)))
      by (unfold as_received; by destruct (rotation_cert r)).
    apply reads_optional. intros c' Ec'. unfold as_received in Ec'. cbn in Ec'.
    destruct (rotation_cert r) as [c|]; [|done]. injection Ec' as <-. destruct Hc as [Ht Hl].
    unfold cert_frame. cbn [old_public_key new_public_key rotation_timestamp cert_reason].
    change (cert_to_bytes (MkRotationCertificate _ _ _ _ _)) with (cert_to_bytes c).
    pose proof (len_cert c). pose proof (len_nonneg (cert_reason c)).
    rewrite wrap_small by (unfold in_u; lia).
    eapply reads_bind; [apply reads_scalar; unfold in_u; cbn; lia|]. cbv beta.
    remember (len (cert_to_bytes c)) as n eqn:Hn. rewrite <- (app_nil_r (cert_to_bytes c)).
    eapply reads_bind; [by apply reads_string|]. cbv beta. rewrite <- (parse_cert_bytes garbage c Ht). apply reads_ret. }
  cbv beta. rewrite <- (app_nil_r (arr _)). eapply reads_bind; [apply reads_blob|]. cbv beta.
  rewrite to_byte_val. apply reads_ret.
Qed.

(** A revocation arrives, but its certificate without the signature. *)
Lemma key_wire garbage r :
  carries_key r → len (key_to_bytes r) < 2 ^ 64 →
  key_from_bytes garbage (key_to_bytes r) = Some (as_received garbage r).
Proof.
  intros Hc Hl. unfold key_from_bytes. rewrite <- (app_nil_r (key_to_bytes r)).
  rewrite (reads_run _ _ _ [] (reads_key_revocation garbage r Hc)); [done|]. by rewrite app_nil_r.
Qed.

Lemma safe_optional {A} (r : reader (option A)) :
  safe_at 64 0 r (λ _, True) → safe_at 64 1 (optional_reader r) (λ _, True).
Proof.
  intros Hr. unfold optional_reader. eapply safe_bind; [apply (fixed_raw_uint 1)|cbn; lia|].
  intros flag _. apply safe_mono with 0; [cbn; lia|]. destruct (flag =? 1); [done|]. by apply safe_ret.
Qed.

Lemma safe_key_revocation garbage d : len d < 2 ^ 63 → run_reader (key_reader garbage) d ≠ Undef.
Proof.
  intros Hd. apply (safe_min_run 64 139 _ (λ _, True)); [|done]. unfold key_fields.
  eapply safe_bind; [apply fixed_raw_array|lia|]. intros key _.
  eapply safe_bind; [apply fixed_raw_uint|lia|]. intros why _.
  eapply safe_bind; [apply fixed_raw_uint|lia|]. intros at_ _.
  eapply safe_bind; [apply fixed_raw_array|lia|]. intros who _.
  apply safe_mono with 1; [cbn; lia|].
  eapply safe_then; [apply safe_optional|].
  { apply safe_blob; [lia|unfold in_u; cbn; lia|]. intros k. by apply safe_ret. }
  intros replacement _. apply safe_room; [lia|unfold in_u; cbn; lia|].
  eapply safe_then; [apply safe_optional|].
  { apply safe_scalar; [lia|unfold in_u; cbn; lia|]. intros n Hn. unfold in_u in Hn. cbn in Hn.
    apply safe_string; [lia|unfold in_u; cbn; lia|]. intros l. by apply safe_ret. }
  intros cert _. apply safe_blob; [lia|unfold in_u; cbn; lia|]. intros sg. by apply safe_ret.
Qed.

(** ** The invariant *)

Inductive key_op :=
  | OpRevoke (now : Z) (key : PublicKey) (why : KeyRevocationReason) (who : NodeID)
      (replacement : option PublicKey) (cert : option RotationCertificate) (garbage : Signature)
  | OpProcess (now : Z) (r : KeyRevocation)
  | OpProcessList (now : Z) (u : KeyRevocationList)
  | OpCleanup (now : Z).

Section Invariant.
Context `{Crypto}.

Definition step (m : KeyRevocationBroadcaster) (o : key_op) : KeyRevocationBroadcaster :=
  match o with
  | OpRevoke now key why who replacement cert garbage =>
      (revoke_key now key why who replacement cert garbage m).2
  | OpProcess now r => (process_revocation now r m).2
  | OpProcessList now u => (process_revocation_list now u m).2
  | OpCleanup now => cleanup_expired_revocations now m
  end.

Definition run (ops : list key_op) (m : KeyRevocationBroadcaster) : KeyRevocationBroadcaster := foldl step m ops.

(** Entries stand under the key they revoke, and a key has a replacement on
    record exactly while it is revoked, the one its entry names if it names one. *)
Record broadcaster_wf (m : KeyRevocationBroadcaster) : Prop := {
  wf_names : map_Forall (λ k r, revoked_key r = k) (revocations m);
  wf_replaced : dom (key_replacements m) ⊆ dom (revocations m);
  wf_replacement : ∀ k r k', revocations m !! k = Some r → replacement_key r = Some k' →
    key_replacements m !! k = Some k'
}.

Lemma store_wf r seen m : broadcaster_wf m → broadcaster_wf (store r seen m).
Proof.
  intros [H1 H2 H3]. split; cbn.
  - by apply map_Forall_insert_2.
  - rewrite dom_insert_L. destruct (replacement_key r); [rewrite dom_insert_L|]; set_solver.
  - intros k r' k' [[<- <-]|[Hne Hr]]%lookup_insert_Some Hk.
    + rewrite Hk. apply lookup_insert_eq.
    + destruct (replacement_key r); [rewrite lookup_insert_ne by done|]; by eapply H3.
Qed.

Lemma process_wf now r m : broadcaster_wf m → broadcaster_wf (process_revocation now r m).2.
Proof.
  intros Hm. unfold process_revocation. case_bool_decide; [done|].
  destruct (should_accept_revocation now r m); [|done]. destruct (verify_revocation r); [|done].
  by apply store_wf.
Qed.

Lemma erase_wf k m : broadcaster_wf m → broadcaster_wf (erase_key k m).
Proof.
  intros [H1 H2 H3]. split; cbn.
  - by apply map_Forall_delete.
  - rewrite !dom_delete_L. set_solver.
  - intros k' r k1 [Hne Hr]%lookup_delete_Some Hk. rewrite lookup_delete_ne by done. by eapply H3.
Qed.

Lemma broadcaster_step m o : broadcaster_wf m → broadcaster_wf (step m o).
Proof.
  intros Hm. destruct o; cbn [step].
  - unfold revoke_key. destruct (is_key_revoked key m); [done|]. by apply store_wf.
  - by apply process_wf.
  - unfold process_revocation_list. generalize 0. revert m Hm.
    induction (update_revocations u) as [|r l IH]; intros m Hm k; [done|]. cbn [foldl]. by apply IH, process_wf.
  - unfold cleanup_expired_revocations. generalize ((filter (λ kr, is_revocation_expired now kr.2 m = true)
      (entries (revocations m))).*1). intros ks. revert m Hm.
    induction ks as [|k ks IH]; intros m Hm; [done|]. cbn [foldl]. by apply IH, erase_wf.
Qed.

Lemma new_broadcaster_wf : broadcaster_wf new_broadcaster.
Proof. split; cbn; [apply map_Forall_empty|done|done]. Qed.

Lemma broadcaster_run ops m : broadcaster_wf m → broadcaster_wf (run ops m).
Proof. revert m. induction ops as [|o ops IH]; intros m Hm; [done|]. by apply IH, broadcaster_step. Qed.

Lemma erase_keys_lookup ks m k :
  revocations (foldl (λ m k, erase_key k m) m ks) !! k = if decide (k ∈ ks) then None else revocations m !! k.
Proof.
  revert m. induction ks as [|k' ks IH]; intros m; cbn [foldl]; [done|]. rewrite IH. cbn.
  destruct (decide (k = k')) as [->|Hne].
  - rewrite lookup_delete_eq. repeat case_decide; set_solver.
  - rewrite lookup_delete_ne by done. repeat case_decide; set_solver.
Qed.

(** Exactly the expired entries go. *)
Lemma key_cleanup now m k :
  revocations (cleanup_expired_revocations now m) !! k =
  r ← revocations m !! k; if is_revocation_expired now r m then None else Some r.
Proof.
  unfold cleanup_expired_revocations. rewrite erase_keys_lookup.
  destruct (revocations m !! k) as [r|] eqn:E; cbn; [|by case_decide].
  destruct (is_revocation_expired now r m) eqn:Ex.
  - rewrite decide_True; [done|]. apply list_elem_of_fmap. exists (k, r). split; [done|].
    apply list_elem_of_filter. split; [done|]. by apply elem_of_entries.
  - rewrite decide_False; [done|].
    intros ([? r'] & -> & [Hx He%elem_of_entries]%list_elem_of_filter)%list_elem_of_fmap. cbn in *. congruence.
Qed.

(** ** What is missing *)

Lemma process_seen now r m : get_id r ∈ seen_revocations m → process_revocation now r m = (false, m).
Proof. intros Hin. unfold process_revocation. by rewrite bool_decide_eq_true_2. Qed.

(** Whoever has a key pair of his own replaces the key of anybody: a revocation that names
    his key as the replacement is verified with that key, is accepted, makes the key of
    the victim revoked and his own its replacement, and the genuine revocation of the same
    second is then refused as already seen. *)
Theorem anybody_replaces_a_key `{!SignatureLaws} now victim why at_ who sk sg m :
  let pk := crypto_sign_sk_to_pk sk in
  let forged := MkKeyRevocation victim why at_ who (Some pk) None sg in
  genuine_secret sk → crypto_sign_detached (signed_content forged) sk = Some sg →
  timely now (revocation_expiry_days m) at_ = true → get_id forged ∉ seen_revocations m →
  let r := process_revocation now forged m in
  r.1 = true ∧ is_key_revoked victim r.2 = true ∧ get_replacement_key victim r.2 = Some pk ∧
  ∀ now' genuine, revoked_key genuine = victim → reason genuine = why → revoked_at genuine = at_ →
    process_revocation now' genuine r.2 = (false, r.2).
Proof.
  intros pk forged Hgen Hs Ht Hn. unfold timely in Ht. apply andb_prop in Ht as [H1 H2].
  apply negb_true_iff in H1, H2.
  assert (verify_revocation forged = true) as Hv by exact (verify_sign _ _ _ Hgen Hs).
  assert (should_accept_revocation now forged m = true) as Ha.
  { unfold should_accept_revocation, is_revocation_expired. cbn [revoked_at forged rotation_cert].
    by rewrite H1, H2. }
  assert (process_revocation now forged m = (true, store forged ({[get_id forged]} ∪ seen_revocations m) m)) as ->.
  { unfold process_revocation. by rewrite bool_decide_eq_false_2, Ha, Hv by done. }
  intros r. split; [done|]. split; [|split].
  - unfold is_key_revoked. apply bool_decide_eq_true_2. cbn. rewrite lookup_insert_eq. by eexists.
  - cbn. apply lookup_insert_eq.
  - intros now' genuine <- <- <-. apply process_seen. cbn. apply elem_of_union. left. by apply elem_of_singleton.
Qed.

(** A node signs a copy of its own revocation: what it stores, and sends, is not
    signed, and who receives it refuses it. *)
Theorem own_revocation_unsigned now key why who replacement cert garbage m r m' now' garbage_id garbage' :
  broadcaster_wf m → revoke_key now key why who replacement cert garbage m = (Some r, m') →
  let u := create_revocation_list true now' garbage_id garbage' m' in
  r ∈ update_revocations u ∧ rev_signature r = garbage ∧
  (∀ sg, sg ≠ garbage → sign_revocation sg r ∉ update_revocations u) ∧
  (verify_revocation r = false → ∀ now'' peer, process_revocation now'' r peer = (false, peer)).
Proof.
  intros Hm E u. unfold revoke_key in E. destruct (is_key_revoked key m); [done|].
  set (rev := MkKeyRevocation key (key_reason_byte why) now who replacement cert garbage) in E.
  injection E as Er Em. subst r m'.
  assert (Hin : ∀ x, x ∈ update_revocations u ↔ ∃ k, revocations (store rev (seen_revocations m) m) !! k = Some x).
  { intros x. cbn. unfold all_revocations. rewrite list_elem_of_fmap. split.
    - intros ([k y] & -> & He%elem_of_entries). by exists k.
    - intros [k Hk]. exists (k, x). split; [done|]. by apply elem_of_entries. }
  split; [|split; [done|split]].
  - apply Hin. exists key. cbn. apply lookup_insert_eq.
  - intros sg Hsg (k & Hk)%Hin. pose proof (wf_names _ (store_wf rev (seen_revocations m) m Hm) _ _ Hk) as Hn. cbn in Hn, Hk.
    subst k. rewrite lookup_insert_eq in Hk. injection Hk as Hk. by apply Hsg.
  - intros Hv now'' peer. unfold process_revocation. case_bool_decide; [done|].
    destruct (should_accept_revocation now'' rev peer); [|done]. by rewrite Hv.
Qed.

(** What arrives of a revocation with a certificate is refused, unless the bytes
    that happen to be where its signature should be verify. *)
Theorem certificates_do_not_travel garbage r :
  carries_key r → len (key_to_bytes r) < 2 ^ 64 →
  match rotation_cert r with
  | None => key_from_bytes garbage (key_to_bytes r) = Some r
  | Some c =>
      ∃ r' c', key_from_bytes garbage (key_to_bytes r) = Some r' ∧ rotation_cert r' = Some c' ∧
        old_key_signature c' = garbage ∧
        (verify_certificate c' = false → ∀ now m, process_revocation now r' m = (false, m))
  end.
Proof.
  intros Hc Hl. rewrite (key_wire garbage r Hc Hl). destruct (rotation_cert r) as [c|] eqn:E.
  - eexists (as_received garbage r), _. split; [done|]. split; [cbn; by rewrite E|]. split; [done|].
    intros Hv now m. unfold process_revocation. case_bool_decide; [done|]. unfold should_accept_revocation.
    destruct (is_revocation_expired _ _ _); [done|]. destruct (_ <? _); [done|]. cbn [rotation_cert as_received].
    rewrite E. cbn [fmap option_fmap option_map]. by rewrite Hv.
  - unfold as_received. rewrite E. cbn. destruct r. cbn in E. by subst.
Qed.

End Invariant.

(** ** Examples *)

Module Sample.

Definition victim : PublicKey := array_fill 32 "v"%byte.
Definition mallory_key : SecretKey := array_fill 64 "m"%byte.
Definition mallory : NodeID := array_fill 32 "i"%byte.

Definition unsigned : KeyRevocation :=
  MkKeyRevocation victim (key_reason_byte DEVICE_LOSS) 1000 mallory
    (Some (@crypto_sign_sk_to_pk toy_crypto mallory_key)) None (zeros 64).

Definition its_signature : Signature :=
  match @crypto_sign_detached toy_crypto (signed_content unsigned) mallory_key with
  | Some sg => sg
  | None => zeros 64
  end.

End Sample.

Lemma anybody_replaces_a_key_witness :
  let r := @process_revocation toy_crypto 1100 (sign_revocation Sample.its_signature Sample.unsigned) new_broadcaster in
  is_key_revoked Sample.victim r.2 = true ∧
  get_replacement_key Sample.victim r.2 = Some (@crypto_sign_sk_to_pk toy_crypto Sample.mallory_key).
Proof.
  destruct (@anybody_replaces_a_key toy_crypto toy_laws 1100 Sample.victim (key_reason_byte DEVICE_LOSS) 1000
    Sample.mallory Sample.mallory_key Sample.its_signature new_broadcaster) as (_ & H1 & H2 & _).
  - exact I.
  - reflexivity.
  - reflexivity.
  - apply not_elem_of_empty.
  - split; [exact H1|exact H2].
Defined.

Lemma own_revocation_unsigned_witness :
  ∃ r m', revoke_key 1000 Sample.victim DEVICE_LOSS Sample.mallory None None (zeros 64) new_broadcaster = (Some r, m') ∧
    r ∈ update_revocations (create_revocation_list true 1000 Sample.mallory (zeros 64) m') ∧
    rev_signature r = zeros 64.
Proof.
  eexists _, _. split; [reflexivity|].
  destruct (@own_revocation_unsigned toy_crypto 1000 Sample.victim DEVICE_LOSS Sample.mallory None None (zeros 64)
    new_broadcaster _ _ 1000 Sample.mallory (zeros 64) new_broadcaster_wf eq_refl) as (H1 & H2 & _).
  split; [exact H1|exact H2].
Defined.
