(* ===== verification/Text.v ===== *)
(** Operations of [std::string] that the gateway uses: searching, erasing and
    inserting at a position, and the classes of characters.

    Positions are [nat]; [None] is [npos].  A [char] above 127 is negative and
    outside the classes of the "C" locale. *)

From Stdlib Require Import Strings.Byte.
From S2P Require Import Prelude Common.

(** Text with [']  in place of the quotation mark. *)
Definition quoted (s : string) : bytes :=
  (λ c, if decide (c = "'"%byte) then "034"%byte else c) <$> str s.

Fixpoint starts (p s : bytes) : bool :=
  match p, s with
  | [], _ => true
  | c :: p, d :: s => bool_decide (c = d) && starts p s
  | _ :: _, [] => false
  end.

(** The first place where [p] holds of the rest. *)
Fixpoint search (p : bytes → bool) (s : bytes) : option nat :=
  if p s then Some O
  else match s with
       | [] => None
       | _ :: s => S <$> search p s
       end.

Definition search_from (p : bytes → bool) (pos : nat) (s : bytes) : option nat :=
  if (length s <? pos)%nat then None else Nat.add pos <$> search p (drop pos s).

(** [find(pat, pos)], [find(c, pos)] and [find_first_of(set, pos)] *)
Definition find (pat : bytes) (pos : nat) (s : bytes) : option nat := search_from (starts pat) pos s.

Definition head_in (set : byte → bool) (s : bytes) : bool :=
  match s with c :: _ => set c | [] => false end.

Definition find_char (c : byte) : nat → bytes → option nat := search_from (head_in (λ d, bool_decide (c = d))).

Definition find_first_of (set : bytes) : nat → bytes → option nat :=
  search_from (head_in (λ d, bool_decide (d ∈ set))).

(** [rfind(c, pos)]: the last place up to [pos]. *)
Fixpoint rfind_char (c : byte) (pos : nat) (s : bytes) : option nat :=
  if bool_decide (s !! pos = Some c) then Some pos
  else match pos with O => None | S pos => rfind_char c pos s end.

Definition erase (pos n : nat) (s : bytes) : bytes := take pos s ++ drop (pos + n) s.

Definition insert_at (pos : nat) (t s : bytes) : bytes := take pos s ++ t ++ drop pos s.

Definition in_range (a b : Z) (c : byte) : bool := (a <=? byte_val c) && (byte_val c <=? b).

Definition is_alnum (c : byte) : bool := in_range 48 57 c || in_range 65 90 c || in_range 97 122 c.

Definition to_lower (c : byte) : byte := if in_range 65 90 c then to_byte (byte_val c + 32) else c.

(** ** Numbers *)

(** The decimal digits of [strtol], accumulated until a non-digit. *)
Fixpoint dec_digits_val (acc : option Z) (s : bytes) : option Z :=
  match s with
  | c :: s' =>
      if (48 <=? byte_val c) && (byte_val c <=? 57)
      then dec_digits_val (Some (default 0 acc * 10 + (byte_val c - 48))) s'
      else acc
  | [] => acc
  end.

Definition stoi (s : bytes) : outcome Z :=
  let '(neg, s) := read_sign (skip_spaces s) in
  match dec_digits_val None s with
  | None => Err (EInvalidArgument "stoi")
  | Some v =>
      let z := if (neg : bool) then - v else v in
      if decide (in_s 32 z) then Ok z else Err (EOutOfRange "stoi")
  end.

(** ** Searching *)

Definition occurs (pat s : bytes) : Prop := ∃ p, starts pat (drop p s) = true.

Lemma search_spec p s :
  match search p s with
  | Some i => (i <= length s)%nat ∧ p (drop i s) = true ∧ ∀ j, (j < i)%nat → p (drop j s) = false
  | None => ∀ j, p (drop j s) = false
  end.
Proof.
  induction s as [|c s IH]; cbn [search].
  - destruct (p []) eqn:E.
    + split; [lia|]. split; [done|]. intros j. lia.
    + intros j. by rewrite drop_nil.
  - destruct (p (c :: s)) eqn:E.
    + split; [cbn; lia|]. split; [done|]. intros j. lia.
    + destruct (search p s) as [i|]; cbn.
      * destruct IH as (Hi & Hp & Hmin). split; [lia|]. split; [done|]. intros [|j] Hj; [done|]. apply Hmin. lia.
      * intros [|j]; [done|]. apply IH.
Qed.

Lemma search_from_spec p pos s :
  match search_from p pos s with
  | Some i => (pos <= i <= length s)%nat ∧ p (drop i s) = true ∧ ∀ j, (pos <= j < i)%nat → p (drop j s) = false
  | None => (length s < pos)%nat ∨ ∀ j, (pos <= j)%nat → p (drop j s) = false
  end.
Proof.
  unfold search_from. destruct (Nat.ltb_spec (length s) pos); [by left|].
  pose proof (search_spec p (drop pos s)) as Hs. destruct (search p (drop pos s)) as [i|]; cbn.
  - destruct Hs as (Hi & Hp & Hmin). rewrite length_drop in Hi. rewrite drop_drop in Hp.
    split; [lia|]. split; [done|]. intros j Hj. specialize (Hmin (j - pos)%nat ltac:(lia)).
    rewrite drop_drop in Hmin. by replace (pos + (j - pos))%nat with j in Hmin by lia.
  - right. intros j Hj. specialize (Hs (j - pos)%nat). rewrite drop_drop in Hs.
    by replace (pos + (j - pos))%nat with j in Hs by lia.
Qed.

Lemma starts_app p s : starts p s = true ↔ ∃ t, s = p ++ t.
Proof.
  revert s. induction p as [|c p IH]; intros [|d s]; cbn.
  - split; [by exists []|done].
  - split; [by exists (d :: s)|done].
  - split; [done|]. by intros (t & ?).
  - rewrite andb_true_iff, bool_decide_eq_true, IH. split.
    + intros (-> & t & ->). by exists t.
    + intros (t & [= -> ->]). eauto.
Qed.

Lemma find_Some pat pos s i :
  pat ≠ [] → find pat pos s = Some i →
  (pos <= i)%nat ∧ (i + length pat <= length s)%nat ∧ starts pat (drop i s) = true.
Proof.
  intros Hpat E. pose proof (search_from_spec (starts pat) pos s) as H. fold (find pat pos s) in H. rewrite E in H.
  destruct H as (Hi & Hs & _). split; [lia|]. split; [|done]. apply starts_app in Hs as [t Ht].
  apply (f_equal length) in Ht. rewrite length_drop, length_app in Ht.
  destruct pat; [done|]. cbn in *. lia.
Qed.

Lemma find_absent pat pos s : ¬ occurs pat s → find pat pos s = None.
Proof.
  intros Hno. destruct (find pat pos s) as [i|] eqn:E; [|done].
  pose proof (search_from_spec (starts pat) pos s) as H. fold (find pat pos s) in H. rewrite E in H.
  destruct H as (_ & Hs & _). destruct Hno. by exists i.
Qed.

Lemma find_at pat pos s i :
  (pos <= i)%nat → starts pat (drop i s) = true → pat ≠ [] →
  ∃ j, find pat pos s = Some j ∧ (pos <= j <= i)%nat.
Proof.
  intros Hp Hi Hpat. pose proof (search_from_spec (starts pat) pos s) as H. fold (find pat pos s) in H.
  destruct (find pat pos s) as [j|].
  - destruct H as (Hj & _ & Hmin). exists j. split; [done|]. destruct (decide (i < j)%nat); [|lia].
    rewrite (Hmin i) in Hi; [done|lia].
  - destruct H as [Hl|Hno]; [|by rewrite Hno in Hi].
    rewrite drop_ge in Hi by lia. by destruct pat.
Qed.

Lemma lookup_of_head set i s : head_in set (drop i s) = true ↔ ∃ c, s !! i = Some c ∧ set c = true.
Proof.
  revert i. induction s as [|d s IH]; intros [|i]; cbn.
  - split; [done|]. by intros (c & ? & _).
  - split; [done|]. by intros (c & ? & _).
  - split; [eauto|]. by intros (c & [= ->] & ?).
  - apply IH.
Qed.

Lemma find_char_Some c pos s i :
  find_char c pos s = Some i →
  (pos <= i < length s)%nat ∧ s !! i = Some c ∧ ∀ j, (pos <= j < i)%nat → s !! j ≠ Some c.
Proof.
  intros E. pose proof (search_from_spec (head_in (λ d, bool_decide (c = d))) pos s) as H.
  fold (find_char c pos s) in H. rewrite E in H. destruct H as (Hi & Hh & Hmin).
  apply lookup_of_head in Hh as (d & Hd & <-%bool_decide_eq_true). pose proof (lookup_lt_Some _ _ _ Hd).
  split; [lia|]. split; [done|]. intros j Hj Hc. specialize (Hmin j Hj).
  assert (head_in (λ d, bool_decide (c = d)) (drop j s) = true); [|congruence].
  apply lookup_of_head. exists c. split; [done|]. by apply bool_decide_eq_true.
Qed.

Lemma find_char_None c pos s :
  (pos <= length s)%nat → find_char c pos s = None → ∀ j, (pos <= j)%nat → s !! j ≠ Some c.
Proof.
  intros Hl E j Hj Hc. pose proof (search_from_spec (head_in (λ d, bool_decide (c = d))) pos s) as H.
  fold (find_char c pos s) in H. rewrite E in H. destruct H as [?|H]; [lia|].
  specialize (H j Hj). assert (head_in (λ d, bool_decide (c = d)) (drop j s) = true); [|congruence].
  apply lookup_of_head. exists c. split; [done|]. by apply bool_decide_eq_true.
Qed.

Lemma find_first_Some set pos s i : find_first_of set pos s = Some i → (pos <= i < length s)%nat.
Proof.
  intros E. pose proof (search_from_spec (head_in (λ d, bool_decide (d ∈ set))) pos s) as H.
  fold (find_first_of set pos s) in H. rewrite E in H. destruct H as (Hi & Hh & _).
  apply lookup_of_head in Hh as (d & Hd%lookup_lt_Some & _). lia.
Qed.

Lemma rfind_char_Some c pos s i :
  rfind_char c pos s = Some i → (i <= pos)%nat ∧ s !! i = Some c.
Proof.
  induction pos as [|pos IH]; cbn; case_bool_decide as E; try done.
  - by intros [= <-].
  - by intros [= <-].
  - intros [? ?]%IH. split; [lia|done].
Qed.

(** A pattern covers the places after it. *)
Lemma starts_lookup pat i s j c :
  starts pat (drop i s) = true → pat !! j = Some c → s !! (i + j)%nat = Some c.
Proof.
  intros [t Ht]%starts_app Hj. rewrite <- lookup_drop, Ht. by apply lookup_app_l_Some.
Qed.

(** ** Erasing and inserting *)

Lemma length_erase pos n s : (pos + n <= length s)%nat → length (erase pos n s) = (length s - n)%nat.
Proof. intros. unfold erase. rewrite length_app, length_take, length_drop. lia. Qed.

Lemma drop_erase pos n s k : (pos <= length s)%nat → (pos <= k)%nat → drop k (erase pos n s) = drop (k + n) s.
Proof.
  intros Hl Hk. unfold erase. rewrite drop_app, length_take, Nat.min_l by lia.
  rewrite drop_ge by (rewrite length_take; lia). cbn. rewrite drop_drop. f_equal. lia.
Qed.

Lemma length_insert_at pos t s : length (insert_at pos t s) = (length t + length s)%nat.
Proof. unfold insert_at. rewrite !length_app, length_take, length_drop. lia. Qed.

(** ** Reading numbers back *)

Lemma dec_digits_val_app acc s t :
  Forall (λ b, 48 <= byte_val b <= 57) s → s ≠ [] →
  dec_digits_val acc (s ++ t) =
  dec_digits_val (Some (foldl (λ v b, v * 10 + (byte_val b - 48)) (default 0 acc) s)) t.
Proof.
  intros Hs. revert acc. induction Hs as [|b s Hb Hs IH]; intros acc Hne; [done|]. cbn [app dec_digits_val foldl].
  destruct (Z.leb_spec 48 (byte_val b)); [|lia]. destruct (Z.leb_spec (byte_val b) 57); [|lia]. cbn.
  destruct s as [|c s]; [done|]. by rewrite IH.
Qed.

Lemma dec_nonempty z : dec z ≠ [].
Proof. unfold dec. cbn [dec_digits]. intros H. apply (f_equal (@length byte)) in H. rewrite length_app in H. cbn in H. lia. Qed.

(** Decimal text of a non-negative [int] is read as that [int]. *)
Lemma stoi_dec z : in_s 32 z → 0 <= z → stoi (dec z) = Ok z.
Proof.
  intros Hz H0. pose proof (dec_digits_range 20 z) as Hr. fold (dec z) in Hr. pose proof (dec_nonempty z) as Hne.
  unfold stoi. assert (read_sign (skip_spaces (dec z)) = (false, dec z)) as ->.
  { destruct (dec z) as [|c s]; [done|]. apply list.Forall_cons in Hr as [Hc _]. cbn [skip_spaces]. unfold is_space.
    repeat (case_match; bool_to_prop; try lia); cbn [read_sign]; repeat (case_match; bool_to_prop; try lia); done. }
  rewrite <- (app_nil_r (dec z)), dec_digits_val_app by done. cbn [dec_digits_val default].
  change (foldl _ 0 (dec z)) with (dec_value (dec z)). unfold dec. rewrite dec_value_digits.
  - by destruct (decide _).
  - unfold in_s in Hz. cbn in *. lia.
Qed.
