(* ===== verification/PeerMessages.v ===== *)
(** Messages between peers: [PeerAnnouncementMessage], [PeerRequestMessage],
    [PeerResponseMessage], [NATTraversalRequest] and [NATTraversalResponse] of
    src/network/peer.hpp and peer.cpp.

    Integers are big-endian.  The capabilities of an announcement travel as JSON
    text, printed and parsed by the library ([Json]); those of a response are
    not sent at all. *)

From Stdlib Require Import Strings.Byte.
From S2P Require Import Prelude Reader Common Crypto Gossip Floats Json.

(** ** Big-endian integers *)

(** The loops from the highest byte down. *)
Definition be_bytes (n : nat) (x : Z) : bytes := reverse (le_bytes n x).

(** The loops that shift and add. *)
Definition be_val (l : bytes) : Z := foldl (λ acc b, Z.lor (Z.shiftl acc 8) (byte_val b)) 0 l.

Definition raw_be (n : nat) : reader Z := l ← rd_raw (Z.of_nat n); mret (be_val l).

Definition rd_guard (b : bool) : reader () := λ d o, if b then Ok (tt, o) else Err ENullopt.

(** [if (data[offset++] != type) return std::nullopt;] *)
Definition rd_type (type : Z) : reader () := t ← raw_uint 1; rd_guard (t =? type).

(** [if (data.size() != n) return std::nullopt;] *)
Definition rd_size (n : Z) : reader () := λ d o, if len d =? n then Ok (tt, o) else Err ENullopt.

(** ** Announcements *)

Record PeerAnnouncementMessage := MkPeerAnnouncementMessage {
  an_node_id : NodeID;
  listen_address : bytes;
  an_capabilities : NodeCapabilities;
  an_timestamp : Z;
  an_signature : Signature
}.

Definition caps_to_json (c : NodeCapabilities) : json :=
  object_of [(str "can_host_things", JBool (can_host_things c));
             (str "can_route_content", JBool (can_route_content c));
             (str "can_provide_storage", JBool (can_provide_storage c))].

(** Assignments of null, or of anything but a boolean, throw. *)
Definition caps_from_json (j : json) : outcome NodeCapabilities :=
  host ← json_at_mut (str "can_host_things") j ≫= get_bool;
  route ← json_at_mut (str "can_route_content") j ≫= get_bool;
  storage ← json_at_mut (str "can_provide_storage") j ≫= get_bool;
  Ok (MkNodeCapabilities host route storage (storage_capacity_bytes default_capabilities)
        (bandwidth_capacity_mbps default_capabilities)).

Section Announcements.
Context `{JsonText}.

(** The dump of three booleans; the library throws on text that is not UTF-8,
    and there is none here. *)
Definition caps_text (c : NodeCapabilities) : outcome bytes :=
  match json_dump (caps_to_json c) with Some s => Ok s | None => Err type_error end.

Definition announcement_to_bytes (m : PeerAnnouncementMessage) : outcome bytes :=
  caps_str ← caps_text (an_capabilities m);
  Ok (["001"%byte] ++ arr (an_node_id m) ++ be_bytes 2 (u16 (len (listen_address m))) ++
      listen_address m ++ be_bytes 8 (an_timestamp m) ++ be_bytes 2 (u16 (len caps_str)) ++
      caps_str ++ arr (an_signature m)).

(** Any exception becomes [nullopt]. *)
Definition parse_caps (caps_str : bytes) : reader NodeCapabilities := λ d o,
  match json_parse caps_str with
  | None => Err ENullopt
  | Some j =>
      match caps_from_json j with
      | Ok c => Ok (c, o)
      | Err _ => Err ENullopt
      | Undef => Undef
      end
  end.

(** The time and the length of the capabilities are read unchecked. *)
Definition announcement_reader : reader PeerAnnouncementMessage :=
  _ ← rd_min 140;
  _ ← rd_type 1;
  id ← raw_array 32;
  addr_len ← raw_be 2;
  address ← read_string 64 addr_len;
  timestamp ← raw_be 8;
  caps_len ← raw_be 2;
  _ ← rd_room 64 (caps_len + 64);
  caps_str ← rd_raw caps_len;
  caps ← parse_caps caps_str;
  sg ← raw_array 64;
  mret (MkPeerAnnouncementMessage id address caps timestamp sg).

Definition announcement_from_bytes (data : bytes) : outcome PeerAnnouncementMessage :=
  run_reader announcement_reader data.

Definition verify_announcement `{Crypto} (public_key : PublicKey) (m : PeerAnnouncementMessage) : bool :=
  Ed25519.verify (arr (an_node_id m) ++ listen_address m ++ be_bytes 8 (an_timestamp m))
    (an_signature m) public_key.

End Announcements.

(** ** Requests *)

Record PeerRequestMessage := MkPeerRequestMessage {
  requester_id : NodeID;
  max_peers : Z;
  rq_timestamp : Z;
  rq_signature : Signature
}.

Definition request_to_bytes (m : PeerRequestMessage) : bytes :=
  ["002"%byte] ++ arr (requester_id m) ++ be_bytes 4 (max_peers m) ++ be_bytes 8 (rq_timestamp m) ++
  arr (rq_signature m).

Definition request_reader : reader PeerRequestMessage :=
  _ ← rd_size 109;
  _ ← rd_type 2;
  id ← raw_array 32;
  max ← raw_be 4;
  timestamp ← raw_be 8;
  sg ← raw_array 64;
  mret (MkPeerRequestMessage id max timestamp sg).

Definition request_from_bytes (data : bytes) : option PeerRequestMessage :=
  to_optional (run_reader request_reader data).

(** ** Responses *)

Record PeerEntry := MkPeerEntry {
  pe_node_id : NodeID;
  pe_address : bytes;
  pe_capabilities : NodeCapabilities;
  pe_last_seen : Z
}.

Record PeerResponseMessage := MkPeerResponseMessage {
  responder_id : NodeID;
  rs_peers : list PeerEntry;
  rs_timestamp : Z;
  rs_signature : Signature
}.

Definition entry_to_bytes (e : PeerEntry) : bytes :=
  arr (pe_node_id e) ++ be_bytes 2 (u16 (len (pe_address e))) ++ pe_address e ++ be_bytes 8 (pe_last_seen e).

Definition response_to_bytes (m : PeerResponseMessage) : bytes :=
  ["003"%byte] ++ arr (responder_id m) ++ be_bytes 2 (u16 (len (rs_peers m))) ++
  mjoin (entry_to_bytes <$> rs_peers m) ++ be_bytes 8 (rs_timestamp m) ++ arr (rs_signature m).

(** The time is read unchecked. *)
Definition entry_reader : reader PeerEntry :=
  _ ← rd_room 64 42;
  id ← raw_array 32;
  addr_len ← raw_be 2;
  address ← read_string 64 addr_len;
  last_seen ← raw_be 8;
  mret (MkPeerEntry id address default_capabilities last_seen).

Definition response_reader : reader PeerResponseMessage :=
  _ ← rd_min 107;
  _ ← rd_type 3;
  id ← raw_array 32;
  peer_count ← raw_be 2;
  peers ← rd_list (Z.to_nat peer_count) entry_reader;
  _ ← rd_room 64 72;
  timestamp ← raw_be 8;
  sg ← raw_array 64;
  mret (MkPeerResponseMessage id peers timestamp sg).

Definition response_from_bytes (data : bytes) : outcome PeerResponseMessage :=
  run_reader response_reader data.

(** ** Addresses as others see them *)

Record NATTraversalRequest := MkNATTraversalRequest {
  nr_requester_id : NodeID;
  nr_nonce : Z;
  nr_timestamp : Z
}.

Definition nat_request_to_bytes (m : NATTraversalRequest) : bytes :=
  ["004"%byte] ++ arr (nr_requester_id m) ++ be_bytes 8 (nr_nonce m) ++ be_bytes 8 (nr_timestamp m).

Definition nat_request_reader : reader NATTraversalRequest :=
  _ ← rd_size 49;
  _ ← rd_type 4;
  id ← raw_array 32;
  nonce ← raw_be 8;
  timestamp ← raw_be 8;
  mret (MkNATTraversalRequest id nonce timestamp).

Definition nat_request_from_bytes (data : bytes) : option NATTraversalRequest :=
  to_optional (run_reader nat_request_reader data).

Record NATTraversalResponse := MkNATTraversalResponse {
  public_address : bytes;
  public_port : Z;
  np_timestamp : Z
}.

Definition nat_response_to_bytes (m : NATTraversalResponse) : bytes :=
  ["005"%byte] ++ be_bytes 2 (u16 (len (public_address m))) ++ public_address m ++
  be_bytes 2 (public_port m) ++ be_bytes 8 (np_timestamp m).

Definition nat_response_reader : reader NATTraversalResponse :=
  _ ← rd_min 13;
  _ ← rd_type 5;
  addr_len ← raw_be 2;
  _ ← rd_room 64 (addr_len + 10);
  address ← rd_raw addr_len;
  port ← raw_be 2;
  timestamp ← raw_be 8;
  mret (MkNATTraversalResponse address port timestamp).

Definition nat_response_from_bytes (data : bytes) : option NATTraversalResponse :=
  to_optional (run_reader nat_response_reader data).

(** ** Reading big-endian integers *)

Lemma be_val_snoc l b : be_val (l ++ [b]) = byte_val b + 256 * be_val l.
Proof.
  unfold be_val. rewrite foldl_app. cbn. set (a := foldl _ 0 l).
  rewrite Z.lor_comm, lor_disjoint_add by (lia || apply byte_val_range). lia.
Qed.

Lemma be_val_reverse l : be_val (reverse l) = le_val l.
Proof.
  induction l as [|b l IH]; [done|]. by rewrite reverse_cons, be_val_snoc, IH, le_val_cons.
Qed.

Lemma len_be n x : len (be_bytes n x) = Z.of_nat n.
Proof. unfold be_bytes, len. by rewrite length_reverse, length_le_bytes. Qed.
#[export] Hint Rewrite len_be : len.

Lemma be_val_bytes n x : in_u (Z.of_nat n * 8) x → be_val (be_bytes n x) = x.
Proof. intros Hx. unfold be_bytes. rewrite be_val_reverse, le_val_bytes. by apply wrap_small. Qed.

Lemma be_bytes_val l n : length l = n → be_bytes n (be_val l) = l ∧ in_u (Z.of_nat n * 8) (be_val l).
Proof.
  intros Hl. assert (be_val l = le_val (reverse l)) as -> by (by rewrite <- be_val_reverse, reverse_involutive).
  assert (length (reverse l) = n) as Hr by (by rewrite length_reverse). split.
  - unfold be_bytes. rewrite le_bytes_val by done. apply reverse_involutive.
  - pose proof (le_val_range (reverse l)) as H. unfold len in H. by rewrite Hr in H.
Qed.

Lemma reads_raw_be n x : in_u (Z.of_nat n * 8) x → reads 64 (raw_be n) x (be_bytes n x).
Proof.
  intros Hx. unfold raw_be. rewrite <- (app_nil_r (be_bytes n x)).
  eapply reads_bind; [apply reads_raw_n; by rewrite len_be|]. cbv beta.
  rewrite be_val_bytes by done. apply reads_ret.
Qed.

Lemma consumes_raw_be n : consumes (raw_be n) (λ x e, e = be_bytes n x ∧ in_u (Z.of_nat n * 8) x).
Proof.
  eapply consumes_mono.
  - unfold raw_be. eapply consumes_bind; [apply consumes_raw; lia|]. intros l e _. apply consumes_ret.
  - intros x e (l & e1 & e2 & [-> Hl] & [-> ->] & ->). rewrite app_nil_r.
    destruct (be_bytes_val l n) as [-> ?]; [|done]. unfold len in Hl. lia.
Qed.

Lemma fixed_raw_be n : fixed (Z.of_nat n) (raw_be n) (in_u (Z.of_nat n * 8)).
Proof.
  split; [lia|]. intros d o Ho Hl. unfold raw_be, mbind, reader_bind.
  destruct (proj2 (fixed_raw (Z.of_nat n) ltac:(lia)) d o Ho Hl) as (l & -> & Hlen).
  eexists. split; [done|]. apply (be_bytes_val l n). unfold len in Hlen. lia.
Qed.

#[export] Hint Resolve consumes_raw_be fixed_raw_be : reader.

Lemma reads_type t : in_u 8 t → reads 64 (rd_type t) tt [to_byte t].
Proof.
  intros Ht. unfold rd_type. rewrite <- (app_nil_r [to_byte t]).
  eapply reads_bind; [apply reads_raw_byte|]. cbv beta. rewrite byte_val_to_byte, wrap_small, Z.eqb_refl by done.
  intros pre post _. cbn. by rewrite Z.add_0_r.
Qed.


(** ** Messages of fixed size *)

(** A parser of vectors of one size accepts exactly the encodings. *)
Lemma fixed_size_codec {A} n (r : reader A) (enc : A → bytes) (P : A → Prop) d m :
  (∀ m, P m → reads 64 r m (enc m)) → consumes r (λ m e, e = enc m ∧ P m) →
  (∀ m, len (enc m) = n) → n < 2 ^ 64 →
  to_optional (run_reader (_ ← rd_size n; r) d) = Some m ↔ d = enc m ∧ P m.
Proof.
  intros Hr Hc Hn Hb.
  assert (run_reader (_ ← rd_size n; r) d = if len d =? n then run_reader r d else Err ENullopt) as ->.
  { unfold run_reader, mbind, reader_bind, rd_size. by destruct (len d =? n). }
  split.
  - destruct (Z.eqb_spec (len d) n) as [Hd|]; [|done].
    destruct (run_reader r d) as [m'| |] eqn:E; [|done..]. intros [= ->].
    apply (consumes_run r _ d m Hc) in E as (e & tail & -> & -> & Hm). split; [|done].
    rewrite len_app, Hn in Hd. assert (len tail = 0) as Ht by lia.
    destruct tail; [apply app_nil_r|]. rewrite len_cons in Ht. pose proof (len_nonneg tail). lia.
  - intros [-> Hm]. rewrite Hn, Z.eqb_refl. rewrite <- (app_nil_r (enc m)).
    rewrite (reads_run r m (enc m) [] (Hr m Hm)); [done|]. by rewrite app_nil_r, Hn.
Qed.

Definition carries_request (m : PeerRequestMessage) : Prop :=
  in_u 32 (max_peers m) ∧ in_u 64 (rq_timestamp m).

Lemma consumes_type t :
  in_u 8 t → consumes (rd_type t) (λ _ e, e = [to_byte t]).
Proof.
  intros Ht. eapply consumes_mono.
  - unfold rd_type. eapply consumes_bind; [apply consumes_raw_uint|]. intros x e _.
    instantiate (1 := λ x _ e, e = [] ∧ x = t). intros d o y o' Ho. unfold rd_guard.
    destruct (Z.eqb_spec x t) as [->|]; [|done]. intros [= <- <-]. exists [], (drop (Z.to_nat o) d).
    rewrite len_nil, Z.add_0_r. done.
  - intros [] e (x & e1 & e2 & [-> Hx] & [-> ->] & ->). by rewrite app_nil_r, le_bytes_1.
Qed.

Lemma request_exact d m :
  request_from_bytes d = Some m ↔ d = request_to_bytes m ∧ carries_request m.
Proof.
  apply fixed_size_codec; [| |intros x; unfold request_to_bytes; autorewrite with len; done|done].
  - intros x [H1 H2]. unfold request_to_bytes. eapply reads_bind; [by apply (reads_type 2)|]. cbv beta.
    eapply reads_bind; [apply reads_raw_array|]. cbv beta.
    do 2 (eapply reads_bind; [by apply reads_raw_be|]; cbv beta).
    rewrite <- (app_nil_r (arr _)). eapply reads_bind; [apply reads_raw_array|]. destruct x. apply reads_ret.
  - eapply consumes_mono.
    + eapply consumes_bind; [by apply (consumes_type 2)|]. intros ? ? ?; cbv beta. raw_consumes_fields.
    + intros x e He. cbv beta in He. open_fields. unfold request_to_bytes, carries_request. cbn.
      by rewrite ?app_nil_r.
Qed.

Definition carries_nat_request (m : NATTraversalRequest) : Prop :=
  in_u 64 (nr_nonce m) ∧ in_u 64 (nr_timestamp m).

Lemma nat_request_exact d m :
  nat_request_from_bytes d = Some m ↔ d = nat_request_to_bytes m ∧ carries_nat_request m.
Proof.
  apply fixed_size_codec; [| |intros x; unfold nat_request_to_bytes; autorewrite with len; done|done].
  - intros x [H1 H2]. unfold nat_request_to_bytes. eapply reads_bind; [by apply (reads_type 4)|]. cbv beta.
    eapply reads_bind; [apply reads_raw_array|]. cbv beta.
    eapply reads_bind; [by apply reads_raw_be|]; cbv beta.
    rewrite <- (app_nil_r (be_bytes _ _)). eapply reads_bind; [by apply reads_raw_be|]. destruct x. apply reads_ret.
  - eapply consumes_mono.
    + eapply consumes_bind; [by apply (consumes_type 4)|]. intros ? ? ?; cbv beta. raw_consumes_fields.
    + intros x e He. cbv beta in He. open_fields. unfold nat_request_to_bytes, carries_nat_request. cbn.
      by rewrite ?app_nil_r.
Qed.

(** ** Messages of variable size *)

#[export] Instance NATTraversalResponse_codec : Codec NATTraversalResponse :=
  {| encode := nat_response_to_bytes; decode := nat_response_from_bytes;
     encodable m := in_u 16 (len (public_address m)) ∧ in_u 16 (public_port m) ∧ in_u 64 (np_timestamp m) |}.

Lemma reads_nat_response m : encodable m → reads 64 nat_response_reader m (nat_response_to_bytes m).
Proof.
  intros (Ha & Hp & Ht). pose proof (len_nonneg (public_address m)).
  apply reads_min; [unfold nat_response_to_bytes; autorewrite with len; change (len [_]) with 1; lia|].
  unfold nat_response_to_bytes. rewrite wrap_small by done.
  eapply reads_bind; [by apply (reads_type 5)|]. cbv beta.
  eapply reads_bind; [by apply reads_raw_be|]. cbv beta.
  apply reads_room; [autorewrite with len; lia|].
  eapply reads_bind; [by apply reads_raw_n|]. cbv beta.
  eapply reads_bind; [by apply reads_raw_be|]. cbv beta.
  rewrite <- (app_nil_r (be_bytes _ _)). eapply reads_bind; [by apply reads_raw_be|]. destruct m. apply reads_ret.
Qed.

#[export] Instance NATTraversalResponse_codec_laws : CodecLaws NATTraversalResponse.
Proof.
  apply (reader_codec_laws _ nat_response_reader); [done|apply reads_nat_response|].
  eapply consumes_mono.
  - apply consumes_min. eapply consumes_bind; [by apply (consumes_type 5)|]. intros ? ? ?; cbv beta. raw_consumes_fields.
  - intros m e He. cbv beta in He. open_fields. cbn [encode encodable public_address
      public_port np_timestamp NATTraversalResponse_codec]. unfold nat_response_to_bytes.
    cbn [public_address public_port np_timestamp]. rewrite !app_nil_r.
    rewrite wrap_small by (unfold in_u in *; cbn in *; lia). done.
Qed.

(** A message as it arrives: capacities are not sent. *)
Definition caps_received (c : NodeCapabilities) : NodeCapabilities :=
  MkNodeCapabilities (can_host_things c) (can_route_content c) (can_provide_storage c) 0 0.

Lemma caps_json c : caps_from_json (caps_to_json c) = Ok (caps_received c) ∧ json_plain (caps_to_json c).
Proof.
  split.
  - unfold caps_from_json, caps_to_json. do 3 (erewrite at_object_mut by reflexivity). by destruct c.
  - apply object_of_plain. repeat constructor.
Qed.

Section AnnouncementFormat.
Context `{JsonText, !JsonTextLaws}.

Lemma reads_announcement m e :
  announcement_to_bytes m = Ok e → len (listen_address m) < 2 ^ 16 → in_u 64 (an_timestamp m) → 140 <= len e →
  len e < 2 ^ 16 →
  reads 64 announcement_reader
    (MkPeerAnnouncementMessage (an_node_id m) (listen_address m) (caps_received (an_capabilities m))
       (an_timestamp m) (an_signature m)) e.
Proof.
  unfold announcement_to_bytes, caps_text. destruct (json_dump (caps_to_json (an_capabilities m))) as [text|] eqn:Ed; [|done].
  cbn [mbind outcome_bind]. intros Ee%Ok_inj Ha Ht Hmin Hmax.
  pose proof (len_nonneg (listen_address m)). pose proof (len_nonneg text).
  assert (len text < 2 ^ 16) as Htx.
  { rewrite <- Ee in Hmax. revert Hmax. autorewrite with len. change (len [_]) with 1. lia. }
  subst e. apply reads_min; [done|]. clear Hmin Hmax.
  rewrite !wrap_small by (unfold in_u; lia).
  eapply reads_bind; [by apply (reads_type 1)|]. cbv beta.
  eapply reads_bind; [apply reads_raw_array|]. cbv beta.
  eapply reads_bind; [apply reads_raw_be; unfold in_u; cbn; lia|]. cbv beta.
  eapply reads_bind; [by apply reads_string|]. cbv beta.
  eapply reads_bind; [by apply reads_raw_be|]. cbv beta.
  eapply reads_bind; [apply reads_raw_be; unfold in_u; cbn; lia|]. cbv beta.
  apply reads_room; [rewrite len_app, len_arr; lia|].
  eapply reads_bind; [by apply reads_raw_n|]. cbv beta.
  rewrite <- (app_nil_l (arr (an_signature m))).
  eapply (reads_bind _ _ (caps_received (an_capabilities m))).
  { destruct (caps_json (an_capabilities m)) as [Hj Hp]. intros pre post _. unfold parse_caps.
    rewrite (parse_dump _ _ Hp Ed), Hj. by rewrite len_nil, Z.add_0_r. }
  cbv beta. rewrite <- (app_nil_r (arr _)). eapply reads_bind; [apply reads_raw_array|]. apply reads_ret.
Qed.

End AnnouncementFormat.

Definition entry_received (e : PeerEntry) : PeerEntry :=
  MkPeerEntry (pe_node_id e) (pe_address e) default_capabilities (pe_last_seen e).

Definition carries_entry (e : PeerEntry) : Prop := len (pe_address e) < 2 ^ 16 ∧ in_u 64 (pe_last_seen e).

Lemma len_entry e : len (entry_to_bytes e) = 42 + len (pe_address e).
Proof. unfold entry_to_bytes. autorewrite with len. lia. Qed.

Lemma reads_entry e : carries_entry e → reads 64 entry_reader (entry_received e) (entry_to_bytes e).
Proof.
  intros [Ha Ht]. pose proof (len_nonneg (pe_address e)). unfold entry_reader.
  apply reads_room; [rewrite len_entry; lia|]. unfold entry_to_bytes.
  rewrite wrap_small by (unfold in_u; lia).
  eapply reads_bind; [apply reads_raw_array|]. cbv beta.
  eapply reads_bind; [apply reads_raw_be; unfold in_u; cbn; lia|]. cbv beta.
  eapply reads_bind; [by apply reads_string|]. cbv beta.
  rewrite <- (app_nil_r (be_bytes _ _)). eapply reads_bind; [by apply reads_raw_be|]. apply reads_ret.
Qed.

Lemma reads_entries es :
  Forall carries_entry es →
  reads 64 (rd_list (length es) entry_reader) (entry_received <$> es) (mjoin (entry_to_bytes <$> es)).
Proof.
  intros Hes. rewrite <- (length_fmap entry_received es).
  assert (mjoin (entry_to_bytes <$> es) = mjoin (entry_to_bytes <$> (entry_received <$> es))) as ->
    by (by rewrite <- list_fmap_compose).
  apply reads_list, list.Forall_fmap. eapply list.Forall_impl; [exact Hes|].
  intros e He. exact (reads_entry e He).
Qed.

Lemma reads_peer_response m :
  Forall carries_entry (rs_peers m) → len (rs_peers m) < 2 ^ 16 → in_u 64 (rs_timestamp m) →
  reads 64 response_reader
    (MkPeerResponseMessage (responder_id m) (entry_received <$> rs_peers m) (rs_timestamp m) (rs_signature m))
    (response_to_bytes m).
Proof.
  intros He Hc Ht. pose proof (len_nonneg (rs_peers m)). pose proof (len_nonneg (mjoin (entry_to_bytes <$> rs_peers m))).
  apply reads_min; [unfold response_to_bytes; autorewrite with len; change (len [_]) with 1; lia|].
  unfold response_to_bytes. rewrite wrap_small by (unfold in_u; lia).
  eapply reads_bind; [by apply (reads_type 3)|]. cbv beta.
  eapply reads_bind; [apply reads_raw_array|]. cbv beta.
  eapply reads_bind; [apply reads_raw_be; unfold in_u; cbn; lia|]. cbv beta.
  eapply reads_bind; [unfold len; rewrite Nat2Z.id; by apply reads_entries|]. cbv beta.
  apply reads_room; [rewrite len_app, len_be, len_arr; lia|].
  eapply reads_bind; [by apply reads_raw_be|]. cbv beta.
  rewrite <- (app_nil_r (arr _)). eapply reads_bind; [apply reads_raw_array|]. apply reads_ret.
Qed.

(** The messages between peers are read back from their bytes: announcements and peer
    lists up to the capabilities the format carries, requests and address translation
    requests exactly, with nothing else accepted, and the responses to the latter
    unchanged. *)
Theorem peer_messages_roundtrip `{JsonText, !JsonTextLaws} :
  (∀ m e, announcement_to_bytes m = Ok e → len (listen_address m) < 2 ^ 16 → in_u 64 (an_timestamp m) →
     140 <= len e < 2 ^ 16 →
     announcement_from_bytes e =
       Ok (MkPeerAnnouncementMessage (an_node_id m) (listen_address m) (caps_received (an_capabilities m))
             (an_timestamp m) (an_signature m))) ∧
  (∀ d m, request_from_bytes d = Some m ↔ d = request_to_bytes m ∧ carries_request m) ∧
  (∀ m, Forall carries_entry (rs_peers m) → len (rs_peers m) < 2 ^ 16 → in_u 64 (rs_timestamp m) →
     len (response_to_bytes m) < 2 ^ 64 →
     response_from_bytes (response_to_bytes m) =
       Ok (MkPeerResponseMessage (responder_id m) (entry_received <$> rs_peers m) (rs_timestamp m) (rs_signature m))) ∧
  (∀ d m, nat_request_from_bytes d = Some m ↔ d = nat_request_to_bytes m ∧ carries_nat_request m) ∧
  (∀ m, in_u 16 (len (public_address m)) → in_u 16 (public_port m) → in_u 64 (np_timestamp m) →
     nat_response_from_bytes (nat_response_to_bytes m) = Some m).
Proof.
  split; [|split; [apply request_exact|split; [|split; [apply nat_request_exact|]]]].
  - intros m e He Ha Ht [Hmin Hmax]. unfold announcement_from_bytes. rewrite <- (app_nil_r e).
    apply (reads_run _ _ _ [] (reads_announcement m e He Ha Ht Hmin Hmax)). rewrite app_nil_r. cbn. lia.
  - intros m He Hc Ht Hl. unfold response_from_bytes. rewrite <- (app_nil_r (response_to_bytes m)).
    apply (reads_run _ _ _ [] (reads_peer_response m He Hc Ht)). by rewrite app_nil_r.
  - intros m Ha Hp Ht. assert (vector_fits (nat_response_to_bytes m)) as Hf.
    { unfold vector_fits, nat_response_to_bytes. autorewrite with len. change (len [_]) with 1.
      unfold in_u in *. lia. }
    exact (decode_encode_exact (A := NATTraversalResponse) m (conj Ha (conj Hp Ht)) Hf).
Qed.

(** ** Reads beyond the end *)

Lemma raw_be_at n d o :
  0 <= o → o + Z.of_nat n <= len d → raw_be n d o = Ok (be_val (sub d o (Z.of_nat n)), o + Z.of_nat n).
Proof.
  intros. unfold raw_be, mbind, reader_bind, rd_raw. by rewrite (proj2 (Z.leb_le _ _)) by done.
Qed.

Lemma raw_be_past_end n d o : len d < o + Z.of_nat n → raw_be n d o = Undef.
Proof. intros. unfold raw_be, mbind, reader_bind. by rewrite raw_past_end. Qed.

Lemma be_val_two d o : 0 <= o → o + 2 <= len d → in_u 16 (be_val (sub d o 2)).
Proof.
  intros Ho Hl. apply (be_bytes_val (sub d o 2) 2). pose proof (len_sub d o 2 Ho ltac:(lia) Hl) as H.
  unfold len in H. lia.
Qed.

Lemma caps_from_json_defined j : caps_from_json j ≠ Undef.
Proof.
  unfold caps_from_json, json_at_mut. destruct j; try done.
  do 3 (match goal with |- context [default JNull ?o] => destruct (default JNull o) end; try done).
Qed.

(** The announcements whose address ends less than ten bytes before the end. *)
Lemma announcement_overread `{JsonText} d :
  len d < 2 ^ 63 → take 1 d = ["001"%byte] → 140 <= len d →
  announcement_from_bytes d = Undef ↔
  35 + be_val (sub d 33 2) <= len d < 45 + be_val (sub d 33 2).
Proof.
  intros Hd Ht Hmin. pose proof (be_val_two d 33 ltac:(lia) ltac:(lia)) as Ha.
  set (a := be_val (sub d 33 2)) in *. unfold in_u in Ha.
  unfold announcement_from_bytes, run_reader, announcement_reader, mbind, reader_bind, rd_min.
  rewrite (proj2 (Z.ltb_ge _ _)) by lia.
  assert (rd_type 1 d 0 = Ok (tt, 1)) as ->.
  { unfold rd_type, mbind, reader_bind. rewrite raw_uint_at by lia. unfold sub.
    change (Z.to_nat 0) with 0%nat. change (Z.to_nat (Z.of_nat 1)) with 1%nat. rewrite drop_0, Ht. reflexivity. }
  destruct (raw_array_at 32 d 1) as [id ->]; [lia..|]. change (1 + Z.of_nat 32) with 33.
  rewrite raw_be_at by lia. change (33 + Z.of_nat 2) with 35. change (Z.of_nat 2) with 2. fold a.
  unfold read_string, mbind, reader_bind, rd_room. rewrite wrap_small by (unfold in_u; lia).
  destruct (Z.ltb_spec (len d) (35 + a)); [split; [done|lia]|].
  unfold rd_raw at 1. rewrite (proj2 (Z.leb_le _ _)) by lia.
  destruct (decide (len d < 35 + a + 8)).
  { rewrite raw_be_past_end by (cbn; lia). split; [lia|done]. }
  rewrite raw_be_at by (cbn; lia). change (Z.of_nat 8) with 8.
  destruct (decide (len d < 35 + a + 8 + 2)).
  { rewrite raw_be_past_end by (cbn; lia). split; [lia|done]. }
  rewrite raw_be_at by (cbn; lia). change (Z.of_nat 2) with 2.
  pose proof (be_val_two d (35 + a + 8) ltac:(lia) ltac:(lia)) as Hc. unfold in_u in Hc.
  set (c := be_val (sub d (35 + a + 8) 2)) in *. rewrite wrap_small by (unfold in_u; lia).
  destruct (Z.ltb_spec (len d) (35 + a + 8 + 2 + (c + 64))); [split; [done|lia]|].
  unfold rd_raw. rewrite (proj2 (Z.leb_le _ _)) by lia. unfold parse_caps.
  destruct (json_parse _) as [j|]; [|split; [done|lia]].
  pose proof (caps_from_json_defined j). destruct (caps_from_json j); [|split; [done|lia]|done].
  destruct (raw_array_at 64 d (35 + a + 8 + 2 + c)) as [sg ->]; [lia..|]. split; [done|lia].
Qed.

(** The length an entry at an offset states for its address. *)
Definition address_length (d : bytes) (o : Z) : Z := be_val (sub d (o + 32) 2).

(** The entries declared one after another: [entry_at d o i o'] when the entry [i] places behind the
    one at [o] is at [o'], all those before it being complete. *)
Inductive entry_at (d : bytes) : Z → nat → Z → Prop :=
  | entry_here o : entry_at d o 0 o
  | entry_there o i o' :
      o + 42 + address_length d o <= len d → entry_at d (o + 42 + address_length d o) i o' → entry_at d o (S i) o'.

(** The address is there but not all of the eight bytes of the time behind it; what is shorter than
    42 bytes is refused before that. *)
Definition cut_entry (d : bytes) (o : Z) : Prop :=
  o + 42 <= len d ∧ o + 34 + address_length d o <= len d < o + 42 + address_length d o.

Lemma entry_cases d o :
  0 <= o <= len d → len d < 2 ^ 63 →
  match entry_reader d o with
  | Ok (_, o') => o' = o + 42 + address_length d o ∧ o <= o' <= len d
  | Err _ => len d < o + 42 ∨ len d < o + 34 + address_length d o
  | Undef => cut_entry d o
  end.
Proof.
  intros Ho Hd. unfold entry_reader, mbind, reader_bind, rd_room, cut_entry, address_length.
  rewrite wrap_small by (unfold in_u; lia). destruct (Z.ltb_spec (len d) (o + 42)); [by left|].
  pose proof (be_val_two d (o + 32) ltac:(lia) ltac:(lia)) as Ha. unfold in_u in Ha.
  destruct (raw_array_at 32 d o) as [id ->]; [lia..|]. change (Z.of_nat 32) with 32. rewrite raw_be_at by lia.
  change (Z.of_nat 2) with 2. set (a := be_val (sub d (o + 32) 2)) in *.
  unfold read_string, mbind, reader_bind, rd_room. rewrite wrap_small by (unfold in_u; lia).
  destruct (Z.ltb_spec (len d) (o + 32 + 2 + a)); [right; lia|]. unfold rd_raw. rewrite (proj2 (Z.leb_le _ _)) by lia.
  destruct (decide (len d < o + 42 + a)).
  - rewrite raw_be_past_end by (cbn; lia). split; lia.
  - rewrite raw_be_at by (cbn; lia). cbn. lia.
Qed.

Lemma entries_walk d n o :
  0 <= o <= len d → len d < 2 ^ 63 →
  match rd_list n entry_reader d o with
  | Ok (_, o') => o <= o' <= len d ∧ ∀ i o', (i < n)%nat → entry_at d o i o' → ¬ cut_entry d o'
  | Err _ => ∀ i o', (i < n)%nat → entry_at d o i o' → ¬ cut_entry d o'
  | Undef => ∃ i o', (i < n)%nat ∧ entry_at d o i o' ∧ cut_entry d o'
  end.
Proof.
  intros Ho Hd. revert o Ho. induction n as [|n IH]; intros o Ho; [cbn; split; [lia|intros; lia]|].
  change (rd_list (S n) entry_reader d o) with
    ((x ← entry_reader; l ← rd_list n entry_reader; mret (x :: l)) d o). unfold mbind at 1, reader_bind at 1.
  pose proof (entry_cases d o Ho Hd) as He. unfold cut_entry in *.
  destruct (entry_reader d o) as [[e o1]| |]; [destruct He as [-> He]|..].
  - specialize (IH (o + 42 + address_length d o) ltac:(lia)). unfold mbind, reader_bind.
    assert (Hfirst : ∀ i o', (i < S n)%nat → entry_at d o i o' →
      (∀ i o', (i < n)%nat → entry_at d (o + 42 + address_length d o) i o' →
         ¬ (o' + 42 <= len d ∧ o' + 34 + address_length d o' <= len d < o' + 42 + address_length d o')) →
      ¬ (o' + 42 <= len d ∧ o' + 34 + address_length d o' <= len d < o' + 42 + address_length d o')).
    { intros i o' Hi Hat Hrest. inversion Hat; subst; [lia|]. eapply (Hrest i0); [lia|done]. }
    destruct (rd_list n entry_reader d _) as [[l o2]| |].
    + cbn. destruct IH as [IH1 IH2]. split; [lia|]. intros i o' Hi Hat. by eapply Hfirst.
    + intros i o' Hi Hat. by eapply Hfirst.
    + destruct IH as (i & o' & Hi & Hat & Hc). exists (S i), o'. split; [lia|]. split; [|done]. constructor; [lia|done].
  - intros i o' Hi Hat. inversion Hat; subst; [lia|]. destruct He; [|lia].
    assert (0 <= address_length d o); [|lia]. unfold address_length.
    destruct (decide (o + 34 <= len d)); [apply (be_val_two d (o + 32)); lia|].
    pose proof (be_bytes_val (sub d (o + 32) 2) (length (sub d (o + 32) 2)) eq_refl) as [_ Hu]. apply Hu.
  - exists 0%nat, o. split; [lia|]. split; [constructor|done].
Qed.

Lemma response_overread d :
  len d < 2 ^ 63 → take 1 d = ["003"%byte] → 107 <= len d →
  response_from_bytes d = Undef ↔
  ∃ i o, Z.of_nat i < be_val (sub d 33 2) ∧ entry_at d 35 i o ∧ cut_entry d o.
Proof.
  intros Hd Ht Hmin. pose proof (be_val_two d 33 ltac:(lia) ltac:(lia)) as Hn. unfold in_u in Hn.
  unfold response_from_bytes, run_reader, response_reader, mbind, reader_bind, rd_min.
  rewrite (proj2 (Z.ltb_ge _ _)) by lia.
  assert (rd_type 3 d 0 = Ok (tt, 1)) as ->.
  { unfold rd_type, mbind, reader_bind. rewrite raw_uint_at by lia. unfold sub.
    change (Z.to_nat 0) with 0%nat. change (Z.to_nat (Z.of_nat 1)) with 1%nat. rewrite drop_0, Ht. reflexivity. }
  destruct (raw_array_at 32 d 1) as [id ->]; [lia..|]. change (1 + Z.of_nat 32) with 33.
  rewrite raw_be_at by lia. change (33 + Z.of_nat 2) with 35. change (Z.of_nat 2) with 2.
  pose proof (entries_walk d (Z.to_nat (be_val (sub d 33 2))) 35 ltac:(lia) Hd) as Hw.
  destruct (rd_list _ entry_reader d 35) as [[l o]| |].
  - destruct Hw as [Ho Hw]. unfold rd_room. rewrite wrap_small by (unfold in_u; lia).
    assert (¬ ∃ i o, Z.of_nat i < be_val (sub d 33 2) ∧ entry_at d 35 i o ∧ cut_entry d o) as Hno
      by (intros (i & o' & Hi & Hat & Hc); apply (Hw i o'); [lia|done..]).
    destruct (Z.ltb_spec (len d) (o + 72)); [by split|]. rewrite raw_be_at by (cbn; lia).
    destruct (raw_array_at 64 d (o + Z.of_nat 8)) as [sg ->]; [cbn; lia..|]. by split.
  - split; [done|]. intros (i & o' & Hi & Hat & Hc). destruct (Hw i o'); [lia|done..].
  - split; [intros _|done]. destruct Hw as (i & o & Hi & Hat & Hc). exists i, o. split; [lia|done].
Qed.

Lemma safe_size {A} n (r : reader A) P d :
  n < 2 ^ 63 → safe_at 64 n r P → run_reader (_ ← rd_size n; r) d ≠ Undef.
Proof.
  intros Hn Hs. assert (run_reader (_ ← rd_size n; r) d = if len d =? n then run_reader r d else Err ENullopt) as ->.
  { unfold run_reader, mbind, reader_bind, rd_size. by destruct (len d =? n). }
  destruct (Z.eqb_spec (len d) n) as [Hd|]; [|done]. apply (safe_run (W := 64) n r P); [done|lia..].
Qed.

Lemma safe_type {A} n t (k : reader A) P :
  1 <= n → safe_at 64 (n - 1) k P → safe_at 64 n (_ ← rd_type t; k) P.
Proof.
  intros Hn Hk d o Ho Hl Hd. unfold rd_type, mbind, reader_bind. rewrite raw_uint_at by (cbn; lia).
  unfold rd_guard. destruct (_ =? t); [|done]. specialize (Hk d (o + Z.of_nat 1) ltac:(lia) ltac:(lia) Hd).
  destruct (k d (o + Z.of_nat 1)) as [[x o']| |]; [|done..]. destruct Hk as [? ?]. split; [done|lia].
Qed.

Lemma request_defined d : run_reader request_reader d ≠ Undef.
Proof.
  apply (safe_size 109 _ (λ _, True)); [lia|]. apply safe_type; [lia|].
  eapply safe_bind; [apply fixed_raw_array|lia|]. intros id _.
  eapply safe_bind; [apply fixed_raw_be|lia|]. intros max _.
  eapply safe_bind; [apply fixed_raw_be|lia|]. intros ts _.
  eapply safe_bind; [apply fixed_raw_array|lia|]. intros sg _. apply safe_ret; [lia|done].
Qed.

Lemma nat_request_defined d : run_reader nat_request_reader d ≠ Undef.
Proof.
  apply (safe_size 49 _ (λ _, True)); [lia|]. apply safe_type; [lia|].
  eapply safe_bind; [apply fixed_raw_array|lia|]. intros id _.
  eapply safe_bind; [apply fixed_raw_be|lia|]. intros max _.
  eapply safe_bind; [apply fixed_raw_be|lia|]. intros ts _. apply safe_ret; [lia|done].
Qed.

Lemma nat_response_defined d : len d < 2 ^ 63 → run_reader nat_response_reader d ≠ Undef.
Proof.
  intros Hd. apply (safe_min_run 64 13 _ (λ _, True)); [|done]. apply safe_type; [lia|].
  eapply safe_bind; [apply fixed_raw_be|lia|]. intros n Hn. unfold in_u in Hn. cbn in Hn.
  apply safe_room; [lia|unfold in_u; lia|].
  eapply safe_bind; [apply fixed_raw; lia|lia|]. intros l _.
  eapply safe_bind; [apply fixed_raw_be|lia|]. intros port _.
  eapply safe_bind; [apply fixed_raw_be|lia|]. intros ts _. apply safe_ret; [lia|done].
Qed.

(** C36: of the inputs of their type and minimum size, the parser of announcements
    reads out of bounds exactly those that end within ten bytes after the address, and
    that of peer lists exactly those with a declared entry, behind complete ones, that
    has at least 42 bytes left and ends within eight bytes after its address; an entry
    with fewer bytes left is refused. The other three parsers never do. *)
Theorem peer_parsers_overread `{JsonText} :
  (∀ d, len d < 2 ^ 63 → take 1 d = ["001"%byte] → 140 <= len d →
     announcement_from_bytes d = Undef ↔ 35 + be_val (sub d 33 2) <= len d < 45 + be_val (sub d 33 2)) ∧
  (∀ d, len d < 2 ^ 63 → take 1 d = ["003"%byte] → 107 <= len d →
     response_from_bytes d = Undef ↔
     ∃ i o, Z.of_nat i < be_val (sub d 33 2) ∧ entry_at d 35 i o ∧ cut_entry d o) ∧
  (∀ d, run_reader request_reader d ≠ Undef ∧ run_reader nat_request_reader d ≠ Undef) ∧
  (∀ d, len d < 2 ^ 63 → run_reader nat_response_reader d ≠ Undef).
Proof.
  split; [intros d; apply announcement_overread|]. split; [intros d; apply response_overread|]. split.
  - intros d. split; [apply request_defined|apply nat_request_defined].
  - apply nat_response_defined.
Qed.

(** ** Messages that travel *)

Module Sample.
Definition announced : PeerAnnouncementMessage :=
  MkPeerAnnouncementMessage (array_fill 32 (to_byte 1)) (str "10.0.0.1:1") default_capabilities 1000
    (array_fill 64 (to_byte 2)).
Definition told : PeerResponseMessage :=
  MkPeerResponseMessage (array_fill 32 (to_byte 1))
    [MkPeerEntry (array_fill 32 (to_byte 3)) (str "10.0.0.3:1") default_capabilities 900] 1000 (array_fill 64 (to_byte 2)).
(** A message of 140 bytes whose address takes the last hundred of them. *)
Definition cut : bytes := ["001"%byte] ++ replicate 32 "007"%byte ++ be_bytes 2 100 ++ replicate 105 "a"%byte.
End Sample.

Lemma peer_messages_roundtrip_witness :
  (∃ e, @announcement_to_bytes toy_json Sample.announced = Ok e ∧
     @announcement_from_bytes toy_json e =
       Ok (MkPeerAnnouncementMessage (array_fill 32 (to_byte 1)) (str "10.0.0.1:1") (caps_received default_capabilities)
             1000 (array_fill 64 (to_byte 2)))) ∧
  response_from_bytes (response_to_bytes Sample.told) =
    Ok (MkPeerResponseMessage (responder_id Sample.told) (entry_received <$> rs_peers Sample.told) 1000
          (rs_signature Sample.told)).
Proof.
  destruct (@peer_messages_roundtrip toy_json toy_json_laws) as (Ha & _ & Hr & _). split.
  - destruct (is_ok_ex (@announcement_to_bytes toy_json Sample.announced)) as [e E]; [vm_compute; reflexivity|].
    exists e. split; [exact E|]. apply (Ha Sample.announced e E); [vm_compute; reflexivity|vm_compute; split; [discriminate|reflexivity]|].
    assert (len match @announcement_to_bytes toy_json Sample.announced with Ok e => e | _ => [] end = len e) as <- by (by rewrite E).
    vm_compute. split; [discriminate|reflexivity].
  - apply (Hr Sample.told); [repeat constructor; vm_compute; discriminate|vm_compute; reflexivity|
      vm_compute; split; [discriminate|reflexivity]|vm_compute; reflexivity].
Defined.

(** A list whose second entry of two ends with its address of 20 bytes. *)
Definition cut_list : bytes :=
  ["003"%byte] ++ replicate 32 "007"%byte ++ be_bytes 2 2 ++ entry_to_bytes (MkPeerEntry (zeros 32) (str "10.0.0.3:1") default_capabilities 900) ++
  replicate 32 "008"%byte ++ be_bytes 2 20 ++ replicate 20 "a"%byte.

Lemma peer_parsers_overread_witness :
  @announcement_from_bytes toy_json Sample.cut = Undef ∧ response_from_bytes cut_list = Undef.
Proof.
  destruct (@peer_parsers_overread toy_json) as (Ho & Hl & _). split.
  - apply (Ho Sample.cut); [vm_compute; reflexivity|reflexivity|vm_compute; discriminate|].
    vm_compute. split; [discriminate|reflexivity].
  - apply (Hl cut_list); [vm_compute; reflexivity|reflexivity|vm_compute; discriminate|].
    exists 1%nat, 87. split; [vm_compute; reflexivity|]. split; [|vm_compute; intuition discriminate].
    apply entry_there; [vm_compute; discriminate|]. apply entry_here.
Defined.
