(* ===== verification/PeerDiscovery.v ===== *)
(** Known peers: [PeerInfo], [PeerDiversity] and [PeerDiscovery] of
    src/network/peer.hpp and the first part of peer.cpp.

    The clock in seconds is [now], random numbers and the result of [std::sort]
    are arguments, and the database is a file of [KeyStore]'s file system, in
    JSON that the library prints and parses ([Json]). *)

From Stdlib Require Import Strings.Byte.
From S2P Require Import Prelude Reader Common Crypto Floats Gossip Json KeyStore.

(** ** Peers *)

Record PeerInfo := MkPeerInfo {
  pi_node_id : NodeID;
  pi_address : bytes;
  last_seen : Z;
  first_seen : Z;
  pi_capabilities : NodeCapabilities;
  connection_attempts : Z;
  successful_connections : Z;
  is_bootstrap : bool
}.

Definition reliability_score (i : PeerInfo) : float :=
  if connection_attempts i =? 0 then f_one
  else
    let success_rate := fdiv (float_of (successful_connections i)) (float_of (connection_attempts i)) in
    if is_bootstrap i then fadd (fmul (literal 1 2) success_rate) (literal 1 2) else success_rate.

Definition PEER_STALE_TIMEOUT : Z := 3600.

Definition peer_is_stale (now : Z) (i : PeerInfo) : bool := PEER_STALE_TIMEOUT <? u64 (now - last_seen i).

Record BootstrapNode := MkBootstrapNode {
  bn_address : bytes;
  bn_public_key : PublicKey;
  bn_description : bytes
}.

Record PeerDiversity := MkPeerDiversity {
  subnets : gset bytes;
  unique_addresses : gset bytes;
  estimated_geographic_regions : Z
}.

Definition is_diverse (d : PeerDiversity) : bool :=
  if Z.of_nat (size (subnets d)) <? 3 then false
  else if Z.of_nat (size (unique_addresses d)) <? 5 then false
  else negb (estimated_geographic_regions d <? 2).

Record PeerDiscovery := MkPeerDiscovery {
  bootstrap_nodes : list BootstrapNode;
  discovered_peers : gmap NodeID PeerInfo
}.

Definition new_discovery : PeerDiscovery := MkPeerDiscovery [] ∅.

Definition add_bootstrap_node (n : BootstrapNode) (d : PeerDiscovery) : PeerDiscovery :=
  MkPeerDiscovery (bootstrap_nodes d ++ [n]) (discovered_peers d).

Definition with_peers (ps : gmap NodeID PeerInfo) (d : PeerDiscovery) : PeerDiscovery :=
  MkPeerDiscovery (bootstrap_nodes d) ps.

(** The default constructor, the identifier set. *)
Definition new_peer (now : Z) (n : NodeID) (address : bytes) : PeerInfo :=
  MkPeerInfo n address now now default_capabilities 0 0 false.

Definition add_discovered_peer (now : Z) (n : NodeID) (address : bytes) (d : PeerDiscovery) : PeerDiscovery :=
  with_peers
    (<[n := match discovered_peers d !! n with
            | None => new_peer now n address
            | Some i => MkPeerInfo (pi_node_id i) address now (first_seen i) (pi_capabilities i)
                          (connection_attempts i) (successful_connections i) (is_bootstrap i)
            end]> (discovered_peers d)) d.

Definition update_peer_seen (now : Z) (n : NodeID) (d : PeerDiscovery) : PeerDiscovery :=
  with_peers (alter (λ i, MkPeerInfo (pi_node_id i) (pi_address i) now (first_seen i) (pi_capabilities i)
    (connection_attempts i) (successful_connections i) (is_bootstrap i)) n (discovered_peers d)) d.

Definition update_peer_capabilities (n : NodeID) (caps : NodeCapabilities) (d : PeerDiscovery) : PeerDiscovery :=
  with_peers (alter (λ i, MkPeerInfo (pi_node_id i) (pi_address i) (last_seen i) (first_seen i) caps
    (connection_attempts i) (successful_connections i) (is_bootstrap i)) n (discovered_peers d)) d.

Definition get_discovered_peers (d : PeerDiscovery) : list PeerInfo := (entries (discovered_peers d)).*2.

Definition get_peer_info (n : NodeID) (d : PeerDiscovery) : option PeerInfo := discovered_peers d !! n.

Definition peer_count (d : PeerDiscovery) : Z := Z.of_nat (size (discovered_peers d)).

(** ** Selection *)

(** The peers a selection considers, in the order of the map. *)
Definition candidates (now : Z) (exclude : gset NodeID) (d : PeerDiscovery) : list (NodeID * PeerInfo) :=
  filter (λ ni, ni.1 ∉ exclude ∧ peer_is_stale now ni.2 = false) (entries (discovered_peers d)).

Definition connect_score (i : PeerInfo) : float :=
  fadd (fmul (reliability_score i) f_one) (if is_bootstrap i then literal 1 2 else f_zero).

(** [sort] is [std::sort] by descending score. *)
Definition select_peers_to_connect (sort : list (NodeID * float) → list (NodeID * float)) (now : Z)
    (count : nat) (exclude : gset NodeID) (d : PeerDiscovery) : list NodeID :=
  let scored := (λ ni, (ni.1, connect_score ni.2)) <$> candidates now exclude d in
  (take (Nat.min count (length scored)) (sort scored)).*1.

(** [std::swap] of two elements. *)
Definition swap {A} (i j : nat) (l : list A) : list A :=
  match l !! i, l !! j with
  | Some x, Some y => <[i := y]> (<[j := x]> l)
  | _, _ => l
  end.

(** Fisher-Yates from index [i] down; [draws i] is the number drawn for it. *)
Fixpoint shuffle_from {A} (i : nat) (draws : nat → Z) (l : list A) : list A :=
  match i with
  | O => l
  | S i' => shuffle_from i' draws (swap i (Z.to_nat (draws i mod (Z.of_nat i + 1))) l)
  end.

(** The loop starts at [size() - 1].  For an empty vector that is the largest
    [size_t], whose successor, the divisor of the first draw, is zero. *)
Definition shuffle {A} (draws : nat → Z) (l : list A) : outcome (list A) :=
  match length l with
  | O => Undef
  | S last => Ok (shuffle_from last draws l)
  end.

Definition select_random_peers (draws : nat → Z) (now : Z) (count : nat) (exclude : gset NodeID)
    (d : PeerDiscovery) : outcome (list NodeID) :=
  available ← shuffle draws (candidates now exclude d).*1;
  Ok (take (Nat.min count (length available)) available).

(** ** Diversity *)

Definition colon : byte := ":"%byte.
Definition dot : byte := "."%byte.

(** The text in front of the first [:], all of it without one. *)
Fixpoint before_colon (s : bytes) : bytes :=
  match s with
  | [] => []
  | c :: s => if decide (c = colon) then [] else c :: before_colon s
  end.

(** The text in front of the last [.]. *)
Fixpoint before_last_dot (s : bytes) : option bytes :=
  match s with
  | [] => None
  | c :: s =>
      match before_last_dot s with
      | Some p => Some (c :: p)
      | None => if decide (c = dot) then Some [] else None
      end
  end.

(** The text in front of the [n]-th colon. *)
Fixpoint before_nth_colon (n : nat) (s : bytes) : option bytes :=
  match s with
  | [] => None
  | c :: s =>
      if decide (c = colon) then
        match n with
        | O | S O => Some []
        | S n => cons c <$> before_nth_colon n s
        end
      else cons c <$> before_nth_colon n s
  end.

Definition extract_subnet (address : bytes) : bytes :=
  let ip := before_colon address in
  match before_last_dot ip with
  | Some p => p ++ str ".0/24"
  | None =>
      match before_nth_colon 3 ip with
      | Some p => p ++ str "::/48"
      | None => ip
      end
  end.

Definition diversity_score (known : gset bytes) (i : PeerInfo) : float :=
  let score := if decide (extract_subnet (pi_address i) ∈ known) then fmul f_one (literal 3 10) else f_one in
  fmul score (reliability_score i).

(** The subnets of the peers selected are collected and not looked at. *)
Definition select_diverse_peers (sort : list (NodeID * float) → list (NodeID * float)) (now : Z)
    (count : nat) (exclude : gset NodeID) (current : PeerDiversity) (d : PeerDiscovery) : list NodeID :=
  (take count (sort ((λ ni, (ni.1, diversity_score (subnets current) ni.2)) <$> candidates now exclude d))).*1.

Definition note_peer (div : PeerDiversity) (i : PeerInfo) : PeerDiversity :=
  MkPeerDiversity ({[extract_subnet (pi_address i)]} ∪ subnets div) ({[pi_address i]} ∪ unique_addresses div)
    (estimated_geographic_regions div + 1).

Definition calculate_diversity (connected : list NodeID) (d : PeerDiscovery) : PeerDiversity :=
  foldl note_peer (MkPeerDiversity ∅ ∅ 0) (omap (λ n, get_peer_info n d) connected).

Definition cleanup_stale_peers (now : Z) (d : PeerDiscovery) : PeerDiscovery :=
  let to_remove :=
    (filter (λ ni, peer_is_stale now ni.2 && negb (is_bootstrap ni.2) = true) (entries (discovered_peers d))).*1 in
  with_peers (foldl (λ ps n, delete n ps) (discovered_peers d) to_remove) d.

(** ** The database *)

Section Database.
Context `{JsonText}.

Definition node_to_json (n : BootstrapNode) : json :=
  object_of [(str "address", JString (bn_address n));
             (str "public_key", JString (hash_to_hex (bn_public_key n)));
             (str "description", JString (bn_description n))].

Definition peer_to_json (ni : NodeID * PeerInfo) : json :=
  object_of [(str "node_id", JString (hash_to_hex ni.1));
             (str "address", JString (pi_address ni.2));
             (str "first_seen", JNumber (first_seen ni.2));
             (str "last_seen", JNumber (last_seen ni.2));
             (str "connection_attempts", JNumber (connection_attempts ni.2));
             (str "successful_connections", JNumber (successful_connections ni.2));
             (str "is_bootstrap", JBool (is_bootstrap ni.2))].

Definition discovery_to_json (d : PeerDiscovery) : json :=
  object_of [(str "bootstrap_nodes", JArray (node_to_json <$> bootstrap_nodes d));
             (str "discovered_peers", JArray (peer_to_json <$> entries (discovered_peers d)))].

(** [false] for a file that does not open and for an exception of the library. *)
Definition save_to_disk (writable : bytes → bool) (path : bytes) (d : PeerDiscovery) (fs : FileSystem) :
    bool * FileSystem :=
  if negb (writable path) then (false, fs)
  else match json_dump_indented (discovery_to_json d) with
       | Some text => (true, write_file path text fs)
       | None => (false, write_file path [] fs)
       end.

(** A string passed to [hex_to_hash]. *)
Definition get_hash (j : json) : outcome Hash256 := s ← get_string j; hex_to_hash s.

Definition node_from_json (j : json) : outcome BootstrapNode :=
  address ← json_at (str "address") j ≫= get_string;
  key ← json_at (str "public_key") j ≫= get_hash;
  description ← json_at (str "description") j ≫= get_string;
  Ok (MkBootstrapNode address key description).

Definition peer_from_json (j : json) : outcome PeerInfo :=
  id ← json_at (str "node_id") j ≫= get_hash;
  address ← json_at (str "address") j ≫= get_string;
  first ← json_at (str "first_seen") j ≫= get_uint64;
  seen ← json_at (str "last_seen") j ≫= get_uint64;
  attempts ← json_at (str "connection_attempts") j ≫= get_uint32;
  successes ← json_at (str "successful_connections") j ≫= get_uint32;
  bootstrap ← json_at (str "is_bootstrap") j ≫= get_bool;
  Ok (MkPeerInfo id address seen first default_capabilities attempts successes bootstrap).

(** A loop whose exception ends it, what was added before staying. *)
Fixpoint load_items {A} (read : json → outcome A) (add : A → PeerDiscovery → PeerDiscovery)
    (items : list json) (d : PeerDiscovery) : outcome (bool * PeerDiscovery) :=
  match items with
  | [] => Ok (true, d)
  | j :: items =>
      match read j with
      | Ok x => load_items read add items (add x d)
      | Err _ => Ok (false, d)
      | Undef => Undef
      end
  end.

Definition load_section {A} (key : bytes) (read : json → outcome A) (add : A → PeerDiscovery → PeerDiscovery)
    (j : json) (d : PeerDiscovery) : outcome (bool * PeerDiscovery) :=
  if json_contains key j then
    match json_at_mut key j with
    | Ok items => load_items read add (json_items items) d
    | Err _ => Ok (false, d)
    | Undef => Undef
    end
  else Ok (true, d).

Definition store_peer (i : PeerInfo) (d : PeerDiscovery) : PeerDiscovery :=
  with_peers (<[pi_node_id i := i]> (discovered_peers d)) d.

Definition load_from_disk (path : bytes) (fs : FileSystem) (d : PeerDiscovery) : outcome (bool * PeerDiscovery) :=
  match files fs !! path with
  | None => Ok (false, d)
  | Some text =>
      match json_read text with
      | None => Ok (false, d)
      | Some j =>
          r ← load_section (str "bootstrap_nodes") node_from_json add_bootstrap_node j d;
          if r.1 : bool then load_section (str "discovered_peers") peer_from_json store_peer j r.2
          else Ok (false, r.2)
      end
  end.

End Database.

(** ** Loading over what is there *)

Section Loading.
Context `{JsonText}.

(** [d] is [base] with the peers of [d0] over its own, each under its identifier. *)
Definition loaded_over (base : gmap NodeID PeerInfo) (d d0 : PeerDiscovery) : Prop :=
  discovered_peers d = discovered_peers d0 ∪ base ∧
  map_Forall (λ n i, pi_node_id i = n) (discovered_peers d0).

Lemma items_over {A} (read : json → outcome A) add base items d d0 r d' :
  (∀ x d d0, loaded_over base d d0 → loaded_over base (add x d) (add x d0)) →
  loaded_over base d d0 → load_items read add items d = Ok (r, d') →
  ∃ d0', load_items read add items d0 = Ok (r, d0') ∧ loaded_over base d' d0'.
Proof.
  intros Hadd. revert d d0. induction items as [|j items IH]; intros d d0 Hd; cbn [load_items].
  - intros [= <- <-]. by exists d0.
  - destruct (read j) as [x| |]; [|by intros [= <- <-]; exists d0|done]. by apply IH, Hadd.
Qed.

Lemma section_over {A} key (read : json → outcome A) add base j d d0 r d' :
  (∀ x d d0, loaded_over base d d0 → loaded_over base (add x d) (add x d0)) →
  loaded_over base d d0 → load_section key read add j d = Ok (r, d') →
  ∃ d0', load_section key read add j d0 = Ok (r, d0') ∧ loaded_over base d' d0'.
Proof.
  intros Hadd Hd. unfold load_section. destruct (json_contains key j); [|by intros [= <- <-]; exists d0].
  destruct (json_at_mut key j) as [items| |]; [|by intros [= <- <-]; exists d0|done].
  by apply items_over.
Qed.

Lemma store_over base i d d0 : loaded_over base d d0 → loaded_over base (store_peer i d) (store_peer i d0).
Proof.
  intros [E Hk]. split; cbn; [by rewrite E, insert_union_l|]. by apply map_Forall_insert_2.
Qed.

(** A database read into what is there leaves what it leaves of nothing, over it. *)
Lemma load_from_disk_over path fs d r d' :
  load_from_disk path fs d = Ok (r, d') →
  ∃ d0, load_from_disk path fs new_discovery = Ok (r, d0) ∧ loaded_over (discovered_peers d) d' d0.
Proof.
  assert (Hnew : loaded_over (discovered_peers d) d new_discovery).
  { split; cbn; [by rewrite (left_id_L ∅ (∪))|apply map_Forall_empty]. }
  unfold load_from_disk. destruct (files fs !! path) as [text|]; [|by intros [= <- <-]; exists new_discovery].
  destruct (json_read text) as [j|]; [|by intros [= <- <-]; exists new_discovery].
  destruct (load_section _ node_from_json _ j d) as [[r1 d1]| |] eqn:E1; [|done..].
  eapply (section_over _ _ _ (discovered_peers d)) in E1 as (d2 & -> & H2); [|by intros ? ? ? []|done].
  cbn [mbind outcome_bind fst snd]. destruct r1; [|by intros [= <- <-]; exists d2].
  by apply section_over; [apply store_over|].
Qed.

End Loading.

(** ** Candidates *)

Lemma elem_of_candidates now exclude d n :
  n ∈ (candidates now exclude d).*1 ↔
  ∃ i, discovered_peers d !! n = Some i ∧ n ∉ exclude ∧ peer_is_stale now i = false.
Proof.
  unfold candidates. rewrite list_elem_of_fmap. split.
  - intros ([n' i] & -> & [[Hx Hs] He%elem_of_entries]%list_elem_of_filter). by exists i.
  - intros (i & He & Hx & Hs). exists (n, i). split; [done|]. apply list_elem_of_filter. split; [done|].
    by apply elem_of_entries.
Qed.

Lemma NoDup_candidates now exclude d : NoDup (candidates now exclude d).*1.
Proof.
  eapply list.sublist_NoDup; [apply (NoDup_entries (discovered_peers d))|].
  apply list.fmap_sublist, sublist_filter.
Qed.

(** ** The shuffle *)

Definition transpose (i j k : nat) : nat := if decide (k = i) then j else if decide (k = j) then i else k.

Lemma swap_perm {A} i j (l : list A) : swap i j l ≡ₚ l.
Proof.
  unfold swap. destruct (l !! i) as [x|] eqn:Ei; [|done]. destruct (l !! j) as [y|] eqn:Ej; [|done].
  pose proof (lookup_lt_Some _ _ _ Ei) as Hi. pose proof (lookup_lt_Some _ _ _ Ej) as Hj.
  apply Permutation_inj. rewrite !length_insert. split; [done|]. exists (transpose i j). split.
  - intros k k'. unfold transpose. repeat case_decide; congruence.
  - intros k. unfold transpose. destruct (decide (k = i)) as [->|Hki].
    + rewrite list_lookup_insert_eq by (by rewrite length_insert). done.
    + rewrite list_lookup_insert_ne by done. destruct (decide (k = j)) as [->|Hkj].
      * by rewrite list_lookup_insert_eq.
      * by rewrite list_lookup_insert_ne.
Qed.

Lemma shuffle_from_perm {A} i draws (l : list A) : shuffle_from i draws l ≡ₚ l.
Proof. revert l. induction i as [|i IH]; intros l; cbn; [done|]. rewrite IH. apply swap_perm. Qed.

(** ** Selections *)

(** A sort that puts higher scores first. *)
Definition sorts_scores (sort : list (NodeID * float) → list (NodeID * float)) : Prop :=
  ∀ l, sort l ≡ₚ l ∧ StronglySorted (λ p q, fltb p.2 q.2 = false) (sort l).

Lemma random_selection draws now count exclude d :
  let available := (candidates now exclude d).*1 in
  (available = [] → select_random_peers draws now count exclude d = Undef) ∧
  (available ≠ [] → ∃ l, select_random_peers draws now count exclude d = Ok l ∧
     NoDup l ∧ length l = Nat.min count (length available) ∧ l ⊆ available).
Proof.
  intros available. unfold select_random_peers. fold available. split.
  - intros ->. done.
  - intros Hne. unfold shuffle. destruct (length available) as [|n] eqn:El; [by apply nil_length_inv in El|].
    cbn [mbind outcome_bind]. set (l := shuffle_from n draws available).
    assert (l ≡ₚ available) as Hp by apply shuffle_from_perm.
    eexists. split; [done|]. rewrite (Permutation_length Hp), El. split; [|split].
    + eapply list.sublist_NoDup; [|apply sublist_take]. rewrite Hp. apply NoDup_candidates.
    + rewrite length_take, (Permutation_length Hp), El. lia.
    + intros n' Hn'. rewrite <- Hp, <- (take_drop (Nat.min count (S n)) l). apply elem_of_app. by left.
Qed.

(** No more than asked for, all known, fresh and not excluded, none better left out. *)
Lemma connect_selection sort now count exclude d :
  sorts_scores sort →
  let sel := select_peers_to_connect sort now count exclude d in
  NoDup sel ∧ length sel = Nat.min count (length (candidates now exclude d)) ∧
  (∀ n, n ∈ sel → n ∈ (candidates now exclude d).*1) ∧
  (∀ n n' i i', n ∈ sel → n' ∉ sel → n' ∈ (candidates now exclude d).*1 →
     discovered_peers d !! n = Some i → discovered_peers d !! n' = Some i' →
     fltb (connect_score i) (connect_score i') = false).
Proof.
  intros Hsort. unfold select_peers_to_connect. rewrite length_fmap.
  set (scored := (λ ni : NodeID * PeerInfo, (ni.1, connect_score ni.2)) <$> candidates now exclude d).
  destruct (Hsort scored) as [Hp Hs]. set (l := sort scored) in *.
  assert (Hfst : scored.*1 = (candidates now exclude d).*1).
  { unfold scored. rewrite <- list_fmap_compose. by apply list_fmap_ext. }
  assert (Hlen : length l = length (candidates now exclude d)) by (rewrite Hp; unfold scored; by rewrite length_fmap).
  set (j := Nat.min count (length (candidates now exclude d))).
  assert (Hin : ∀ n x, (n, x) ∈ l → ∃ i, discovered_peers d !! n = Some i ∧ x = connect_score i).
  { intros n x. rewrite Hp. unfold scored. intros ([n' i] & [= -> ->] & Hc)%list_elem_of_fmap. exists i.
    split; [|done]. unfold candidates in Hc. apply list_elem_of_filter in Hc as [_ Hc]. by apply elem_of_entries in Hc. }
  cbn zeta. split; [|split; [|split]].
  - eapply list.sublist_NoDup; [|apply list.fmap_sublist, (sublist_take l j)].
    rewrite Hp, Hfst. apply NoDup_candidates.
  - rewrite length_fmap, length_take, Hlen. unfold j. lia.
  - intros n Hn. rewrite <- Hfst, <- Hp, <- (take_drop j l), fmap_app. apply elem_of_app. by left.
  - intros n n' i i' ([n1 x] & -> & Hx)%list_elem_of_fmap Hout Hc Hi Hi'. cbn in *.
    rewrite <- Hfst, <- Hp in Hc. apply list_elem_of_fmap in Hc as ([n2 y] & -> & Hy). cbn in *.
    rewrite <- (take_drop j l) in Hy. apply elem_of_app in Hy as [Hy|Hy].
    { destruct Hout. apply list_elem_of_fmap. by exists (n2, y). }
    assert (fltb x y = false) as Hf.
    { rewrite <- (take_drop j l) in Hs. by apply (StronglySorted_app_1_elem_of _ _ _ (n1, x) (n2, y) Hs). }
    destruct (Hin n1 x) as (i1 & E1 & ->).
    { rewrite <- (take_drop j l). apply elem_of_app. by left. }
    destruct (Hin n2 y) as (i2 & E2 & ->).
    { rewrite <- (take_drop j l). apply elem_of_app. by right. }
    by simplify_eq.
Qed.

(** ** Subnets *)

Lemma colon_cut s : colon ∉ before_colon s.
Proof. induction s as [|c s IH]; cbn; [set_solver|]. case_decide; set_solver. Qed.

Lemma nth_colon_none n s : colon ∉ s → before_nth_colon n s = None.
Proof.
  revert n. induction s as [|c s IH]; intros n Hs; [done|]. apply not_elem_of_cons in Hs as [Hc Hs].
  cbn. rewrite decide_False by congruence. by rewrite IH.
Qed.

(** The branch for IPv6 prefixes is never taken: nothing behind the first colon
    is left when it looks for the third. *)
Lemma subnet_cut address :
  extract_subnet address =
    match before_last_dot (before_colon address) with
    | Some p => p ++ str ".0/24"
    | None => before_colon address
    end.
Proof. unfold extract_subnet. by rewrite nth_colon_none by apply colon_cut. Qed.

Lemma before_colon_app p s : colon ∉ p → before_colon (p ++ colon :: s) = p.
Proof.
  induction p as [|c p IH]; intros Hp; cbn; [by rewrite decide_True|].
  apply not_elem_of_cons in Hp as [Hc Hp]. rewrite decide_False by congruence. by rewrite IH.
Qed.

(** Of an IPv6 address only the first group counts. *)
Lemma ipv6_subnet group rest :
  colon ∉ group → dot ∉ group → extract_subnet (group ++ colon :: rest) = group.
Proof.
  intros Hc Hd. rewrite subnet_cut, before_colon_app by done.
  assert (before_last_dot group = None) as ->; [|done]. clear Hc.
  induction group as [|c group IH]; [done|]. apply not_elem_of_cons in Hd as [Hc Hd]. cbn.
  rewrite IH by done. by rewrite decide_False by congruence.
Qed.

(** ** Diversity *)

Lemma foldl_note_count l div :
  estimated_geographic_regions (foldl note_peer div l) = estimated_geographic_regions div + len l ∧
  Z.of_nat (size (unique_addresses (foldl note_peer div l))) <= Z.of_nat (size (unique_addresses div)) + len l.
Proof.
  revert div. induction l as [|i l IH]; intros div; cbn [foldl]; [rewrite len_nil; lia|].
  destruct (IH (note_peer div i)) as [-> H]. rewrite len_cons. split; [cbn; lia|].
  assert (Z.of_nat (size (unique_addresses (note_peer div i))) <= Z.of_nat (size (unique_addresses div)) + 1); [|lia].
  cbn. pose proof (size_union_alt {[pi_address i]} (unique_addresses div)) as ->. rewrite size_singleton.
  pose proof (subseteq_size (unique_addresses div ∖ {[pi_address i]}) (unique_addresses div) ltac:(set_solver)). lia.
Qed.

(** The number of regions is the number of peers, so that asking for two of them
    adds nothing to asking for five addresses. *)
Lemma regions_add_nothing connected d :
  let div := calculate_diversity connected d in
  estimated_geographic_regions div = len (omap (λ n, get_peer_info n d) connected) ∧
  is_diverse div = (3 <=? Z.of_nat (size (subnets div))) && (5 <=? Z.of_nat (size (unique_addresses div))).
Proof.
  intros div. destruct (foldl_note_count (omap (λ n, get_peer_info n d) connected) (MkPeerDiversity ∅ ∅ 0)) as [Hr Ha].
  fold div in Hr, Ha |- *. unfold div, calculate_diversity in *. set (dv := foldl note_peer _ _) in *.
  cbn [estimated_geographic_regions unique_addresses] in Hr, Ha. rewrite size_empty in Ha.
  split; [lia|]. unfold is_diverse.
  destruct (Z.ltb_spec (Z.of_nat (size (subnets dv))) 3); [by rewrite (proj2 (Z.leb_gt _ _))|].
  rewrite (proj2 (Z.leb_le _ _)) by lia.
  destruct (Z.ltb_spec (Z.of_nat (size (unique_addresses dv))) 5); [by rewrite (proj2 (Z.leb_gt _ _))|].
  rewrite (proj2 (Z.leb_le _ _)) by lia. cbn. apply negb_true_iff, Z.ltb_ge. lia.
Qed.

(** ** The database *)

Section DatabaseLaws.
Context `{JsonText, !JsonTextLaws}.

Definition storable_peer (i : PeerInfo) : Prop :=
  in_u 64 (first_seen i) ∧ in_u 64 (last_seen i) ∧ in_u 32 (connection_attempts i) ∧
  in_u 32 (successful_connections i).

(** What a peer is after a restart: its capabilities are not saved. *)
Definition peer_saved (i : PeerInfo) : PeerInfo :=
  MkPeerInfo (pi_node_id i) (pi_address i) (last_seen i) (first_seen i) default_capabilities
    (connection_attempts i) (successful_connections i) (is_bootstrap i).

Definition database_wf (d : PeerDiscovery) : Prop :=
  map_Forall (λ n i, pi_node_id i = n ∧ storable_peer i) (discovered_peers d).

Lemma node_json n : node_from_json (node_to_json n) = Ok n ∧ json_plain (node_to_json n).
Proof.
  split; [|apply object_of_plain; repeat constructor].
  unfold node_from_json, node_to_json. do 3 (erewrite at_object by reflexivity).
  cbn [snd mbind outcome_bind get_string]. unfold get_hash. cbn [mbind outcome_bind get_string].
  rewrite (proj1 (hex_of_hash _)). cbn. by destruct n.
Qed.

Lemma get_uint32_number z : in_u 32 z → get_uint32 (JNumber z) = Ok z.
Proof. intros Hz. cbn. by rewrite wrap_small. Qed.

Lemma peer_json n i :
  pi_node_id i = n → storable_peer i →
  peer_from_json (peer_to_json (n, i)) = Ok (peer_saved i) ∧ json_plain (peer_to_json (n, i)).
Proof.
  intros Hn (H1 & H2 & H3 & H4). split.
  - unfold peer_from_json, peer_to_json. do 7 (erewrite at_object by reflexivity).
    cbn [fst snd mbind outcome_bind get_string get_bool]. unfold get_hash. cbn [mbind outcome_bind get_string].
    rewrite (proj1 (hex_of_hash _)). cbn [mbind outcome_bind].
    rewrite !get_uint64_number by done. cbn [mbind outcome_bind].
    rewrite !get_uint32_number by done. cbn. by subst n.
  - apply object_of_plain. unfold in_u in *. repeat constructor; cbn; lia.
Qed.

Lemma load_items_all {A B} (read : json → outcome A) add (f : B → json) (g : B → A) (xs : list B) d :
  (∀ x, x ∈ xs → read (f x) = Ok (g x)) →
  load_items read add (f <$> xs) d = Ok (true, foldl (λ d x, add x d) d (g <$> xs)).
Proof.
  revert d. induction xs as [|x xs IH]; intros d Hxs; [done|]. cbn [fmap list_fmap load_items foldl].
  rewrite Hxs by apply list_elem_of_here. apply IH. intros y Hy. apply Hxs. by apply list_elem_of_further.
Qed.

Lemma add_nodes ns d :
  foldl (λ d n, add_bootstrap_node n d) d ns = MkPeerDiscovery (bootstrap_nodes d ++ ns) (discovered_peers d).
Proof.
  revert d. induction ns as [|n ns IH]; intros d; cbn [foldl]; [rewrite app_nil_r; by destruct d|].
  rewrite IH. cbn. by rewrite <- app_assoc.
Qed.

Lemma store_peers_lookup (l : list PeerInfo) d n :
  NoDup (pi_node_id <$> l) →
  bootstrap_nodes (foldl (λ d i, store_peer i d) d l) = bootstrap_nodes d ∧
  discovered_peers (foldl (λ d i, store_peer i d) d l) !! n =
    match find (λ i, bool_decide (pi_node_id i = n)) l with
    | Some i => Some i
    | None => discovered_peers d !! n
    end.
Proof.
  revert d. induction l as [|i l IH]; intros d Hn; [done|]. cbn [fmap list_fmap] in Hn.
  apply list.NoDup_cons in Hn as [Hi Hn]. cbn [foldl List.find]. destruct (IH (store_peer i d) Hn) as [-> ->]. split; [done|].
  case_bool_decide as E; cbn.
  - destruct (find _ l) as [i'|] eqn:Ef; [|subst n; apply lookup_insert_eq].
    apply find_some in Ef as [Hin He]. bool_to_prop. destruct Hi. apply list_elem_of_fmap. exists i'.
    split; [congruence|]. by apply list_elem_of_In.
  - destruct (find _ l); [done|]. by apply lookup_insert_ne.
Qed.

Lemma database_plain d : database_wf d → json_plain (discovery_to_json d).
Proof.
  intros Hd. apply object_of_plain. constructor; [|constructor; [|done]]; cbn [snd]; apply array_plain, list.Forall_fmap, list.Forall_forall.
  - intros n _. apply node_json.
  - intros [n i] He%elem_of_entries. destruct (Hd n i He). by apply peer_json.
Qed.

Lemma load_dump d :
  database_wf d →
  (r ← load_section (str "bootstrap_nodes") node_from_json add_bootstrap_node (discovery_to_json d) new_discovery;
   if r.1 : bool then load_section (str "discovered_peers") peer_from_json store_peer (discovery_to_json d) r.2
   else Ok (false, r.2)) =
  Ok (true, MkPeerDiscovery (bootstrap_nodes d) (peer_saved <$> discovered_peers d)).
Proof.
  intros Hd. unfold load_section, discovery_to_json. rewrite !contains_object.
  rewrite !bool_decide_eq_true_2 by done. do 2 (erewrite at_object_mut by reflexivity). cbn [snd json_items].
  rewrite (load_items_all _ _ node_to_json id) by (intros n _; apply node_json).
  cbn [mbind outcome_bind fst snd]. rewrite list_fmap_id, add_nodes. cbn [bootstrap_nodes discovered_peers new_discovery app].
  rewrite (load_items_all _ _ peer_to_json (λ ni, peer_saved ni.2)).
  2:{ intros [n i] He%elem_of_entries. destruct (Hd n i He). by apply peer_json. }
  assert (((λ ni : NodeID * PeerInfo, peer_saved ni.2) <$> entries (discovered_peers d)) =
    peer_saved <$> (entries (discovered_peers d)).*2) as -> by (by rewrite <- list_fmap_compose).
  assert (Hnd : NoDup (pi_node_id <$> (peer_saved <$> (entries (discovered_peers d)).*2))).
  { rewrite <- !list_fmap_compose. erewrite (list_fmap_ext _ fst); [apply (NoDup_entries (discovered_peers d))|].
    intros k [n i] He%list_elem_of_lookup_2%elem_of_entries. cbn. by destruct (Hd n i He). }
  set (d0 := MkPeerDiscovery _ ∅). set (l := peer_saved <$> _) in *.
  destruct (store_peers_lookup l d0 (zeros 32) Hnd) as [Hb _].
  f_equal. f_equal. destruct (foldl (λ d i, store_peer i d) d0 l) as [b p] eqn:Ef. cbn in Hb. subst b. f_equal.
  apply map_eq. intros n. destruct (store_peers_lookup l d0 n Hnd) as [_ Hl]. rewrite Ef in Hl. cbn in Hl. rewrite Hl.
  rewrite lookup_fmap. destruct (find _ l) as [i|] eqn:E.
  - apply find_some in E as [Hin He]. bool_to_prop. apply list_elem_of_In, list_elem_of_fmap in Hin as (i0 & -> & Hin).
    apply list_elem_of_fmap in Hin as ([n0 i1] & -> & Hin%elem_of_entries). cbn in *. destruct (Hd _ _ Hin) as [Hid _].
    assert (n0 = n) as -> by congruence. by rewrite Hin.
  - rewrite lookup_empty. destruct (discovered_peers d !! n) as [i|] eqn:Ei; [|done]. exfalso.
    eapply find_none in E; [|apply list_elem_of_In, list_elem_of_fmap; exists i; split; [done|];
      apply list_elem_of_fmap; exists (n, i); split; [done|by apply elem_of_entries]].
    cbn in E. destruct (Hd n i Ei) as [Hid _]. by rewrite bool_decide_eq_true_2 in E.
Qed.

(** A database saved is loaded back, but for the capabilities. *)
Theorem database_saved_and_loaded writable path d fs fs' :
  database_wf d → save_to_disk writable path d fs = (true, fs') →
  load_from_disk path fs' new_discovery =
    Ok (true, MkPeerDiscovery (bootstrap_nodes d) (peer_saved <$> discovered_peers d)).
Proof.
  intros Hd. unfold save_to_disk. destruct (writable path); [|done]. cbn [negb].
  destruct (json_dump_indented (discovery_to_json d)) as [text|] eqn:Et; [|done]. intros [= <-].
  unfold load_from_disk. cbn [files write_file]. rewrite lookup_insert_eq.
  rewrite (read_dump _ _ (database_plain d Hd) Et). by apply load_dump.
Qed.

End DatabaseLaws.
