(* ===== verification/Peer.v ===== *)
(** The peers a node is connected to: [PeerManager] of src/network/peer.hpp and
    the middle of peer.cpp.

    The session manager it holds a reference to is the one of [Session], with
    its heap of shared sessions.  A connection keeps the raw pointer of its
    session, which only the session manager owns: to use a pointer it no longer
    lists is undefined.  The clock in seconds is [now], read once per operation;
    [draws] are the key pairs and random numbers drawn for each peer, and
    [garbage] is what an uninitialised signature holds.  The callbacks are kept
    as the sequence of calls made.  An exception, which only the cryptographic
    library and [std::stoi] throw, ends the operation. *)

From Stdlib Require Import Strings.Byte.
From S2P Require Import Prelude Reader Common Text Crypto Channel Floats Gossip Session Json KeyStore.
From S2P Require Import PeerMessages PeerDiscovery.

(** ** State *)

Record PeerConnection := MkPeerConnection {
  pc_peer_id : NodeID;
  pc_address : bytes;
  pc_session : option nat;
  connected_at : Z;
  last_activity : Z;
  pc_bytes_sent : Z;
  pc_bytes_received : Z;
  is_outbound : bool
}.

Definition idle_seconds (now : Z) (c : PeerConnection) : Z := u64 (now - last_activity c).

Definition is_idle (now : Z) (c : PeerConnection) : bool := 300 <? idle_seconds now c.

(** [std::chrono::seconds] counts in a signed type. *)
Definition idle_duration (now : Z) (c : PeerConnection) : Z := swrap 64 (idle_seconds now c).

Record ConnectionPolicy := MkConnectionPolicy {
  max_connected : Z;
  target_peers : Z;
  min_peers : Z;
  max_bootstrap_peers : Z;
  outbound_only : bool;
  connection_timeout_seconds : Z;
  idle_timeout_seconds : Z;
  reconnect_delay_seconds : Z;
  max_connection_attempts : Z;
  min_reliability_score : float;
  allow_local_peers : bool
}.

Definition default_connection_policy : ConnectionPolicy :=
  MkConnectionPolicy 50 20 5 10 true 30 300 60 5 (literal 3 10) false.

Inductive PeerCall := CallConnected (n : NodeID) | CallDisconnected (n : NodeID).

Record PeerManager := MkPeerManager {
  pm_local_node_id : NodeID;
  pm_policy : ConnectionPolicy;
  discovery : PeerDiscovery;
  active_connections : gmap NodeID PeerConnection;
  last_connection_attempt : gmap NodeID Z;
  connection_failure_count : gmap NodeID Z;
  connected_callback_set : bool;
  disconnected_callback_set : bool;
  calls : list PeerCall;
  total_connections_made : Z;
  total_connection_failures : Z
}.

Definition new_peer_manager (local : NodeID) : PeerManager :=
  MkPeerManager local default_connection_policy new_discovery ∅ ∅ ∅ false false [] 0 0.

Definition with_policy (x : ConnectionPolicy) (m : PeerManager) : PeerManager :=
  MkPeerManager (pm_local_node_id m) x (discovery m) (active_connections m) (last_connection_attempt m)
    (connection_failure_count m) (connected_callback_set m) (disconnected_callback_set m) (calls m)
    (total_connections_made m) (total_connection_failures m).
Definition with_discovery (x : PeerDiscovery) (m : PeerManager) : PeerManager :=
  MkPeerManager (pm_local_node_id m) (pm_policy m) x (active_connections m) (last_connection_attempt m)
    (connection_failure_count m) (connected_callback_set m) (disconnected_callback_set m) (calls m)
    (total_connections_made m) (total_connection_failures m).
Definition with_connections (x : gmap NodeID PeerConnection) (m : PeerManager) : PeerManager :=
  MkPeerManager (pm_local_node_id m) (pm_policy m) (discovery m) x (last_connection_attempt m)
    (connection_failure_count m) (connected_callback_set m) (disconnected_callback_set m) (calls m)
    (total_connections_made m) (total_connection_failures m).
Definition with_attempts (x : gmap NodeID Z) (m : PeerManager) : PeerManager :=
  MkPeerManager (pm_local_node_id m) (pm_policy m) (discovery m) (active_connections m) x
    (connection_failure_count m) (connected_callback_set m) (disconnected_callback_set m) (calls m)
    (total_connections_made m) (total_connection_failures m).
Definition with_failures (x : gmap NodeID Z) (m : PeerManager) : PeerManager :=
  MkPeerManager (pm_local_node_id m) (pm_policy m) (discovery m) (active_connections m)
    (last_connection_attempt m) x (connected_callback_set m) (disconnected_callback_set m) (calls m)
    (total_connections_made m) (total_connection_failures m).
Definition with_totals (made failures : Z) (m : PeerManager) : PeerManager :=
  MkPeerManager (pm_local_node_id m) (pm_policy m) (discovery m) (active_connections m)
    (last_connection_attempt m) (connection_failure_count m) (connected_callback_set m)
    (disconnected_callback_set m) (calls m) made failures.

Definition note_connected (n : NodeID) (m : PeerManager) : PeerManager :=
  MkPeerManager (pm_local_node_id m) (pm_policy m) (discovery m) (active_connections m)
    (last_connection_attempt m) (connection_failure_count m) (connected_callback_set m)
    (disconnected_callback_set m)
    (if connected_callback_set m then calls m ++ [CallConnected n] else calls m)
    (total_connections_made m) (total_connection_failures m).

Definition note_disconnected (n : NodeID) (m : PeerManager) : PeerManager :=
  MkPeerManager (pm_local_node_id m) (pm_policy m) (discovery m) (active_connections m)
    (last_connection_attempt m) (connection_failure_count m) (connected_callback_set m)
    (disconnected_callback_set m)
    (if disconnected_callback_set m then calls m ++ [CallDisconnected n] else calls m)
    (total_connections_made m) (total_connection_failures m).

(** The sessions and the manager. *)
Abbreviation network := (world * PeerManager)%type.

Definition set_policy (p : ConnectionPolicy) (m : PeerManager) : PeerManager := with_policy p m.

(** [set] is whether the callback passed is one that can be called. *)
Definition set_peer_connected_callback (set : bool) (m : PeerManager) : PeerManager :=
  MkPeerManager (pm_local_node_id m) (pm_policy m) (discovery m) (active_connections m)
    (last_connection_attempt m) (connection_failure_count m) set (disconnected_callback_set m)
    (calls m) (total_connections_made m) (total_connection_failures m).

Definition set_peer_disconnected_callback (set : bool) (m : PeerManager) : PeerManager :=
  MkPeerManager (pm_local_node_id m) (pm_policy m) (discovery m) (active_connections m)
    (last_connection_attempt m) (connection_failure_count m) (connected_callback_set m) set
    (calls m) (total_connections_made m) (total_connection_failures m).

Definition pm_add_bootstrap_node (n : BootstrapNode) (m : PeerManager) : PeerManager :=
  with_discovery (add_bootstrap_node n (discovery m)) m.

Definition pm_add_discovered_peer (now : Z) (n : NodeID) (address : bytes) (m : PeerManager) : PeerManager :=
  with_discovery (add_discovered_peer now n address (discovery m)) m.

Definition pm_update_peer_capabilities (n : NodeID) (caps : NodeCapabilities) (m : PeerManager) : PeerManager :=
  with_discovery (update_peer_capabilities n caps (discovery m)) m.

Definition is_connected (n : NodeID) (m : PeerManager) : bool := bool_decide (is_Some (active_connections m !! n)).

Definition get_connection (n : NodeID) (m : PeerManager) : option PeerConnection := active_connections m !! n.

Definition pm_get_all_connections (m : PeerManager) : list PeerConnection := (entries (active_connections m)).*2.

Definition active_connection_count (m : PeerManager) : Z := Z.of_nat (size (active_connections m)).

(** A count never recorded is no failure. *)
Definition too_many_failures (n : NodeID) (m : PeerManager) : bool :=
  match connection_failure_count m !! n with
  | Some k => max_connection_attempts (pm_policy m) <=? k
  | None => false
  end.

Definition should_connect_to_peer (n : NodeID) (m : PeerManager) : bool :=
  if bool_decide (n = pm_local_node_id m) then false
  else if too_many_failures n m then false
  else match get_peer_info n (discovery m) with
       | Some i => negb (fltb (reliability_score i) (min_reliability_score (pm_policy m)))
       | None => true
       end.

Definition can_connect_more_peers (m : PeerManager) : bool :=
  active_connection_count m <? max_connected (pm_policy m).

(** The counters of the peer are increased in a copy of its entry. *)
Definition handle_successful_connection (now : Z) (n : NodeID) (session : option nat) (m : PeerManager) :
    PeerManager :=
  let address := match get_peer_info n (discovery m) with Some i => pi_address i | None => [] end in
  let m := with_connections
    (<[n := MkPeerConnection n address session now now 0 0 true]> (active_connections m)) m in
  let m := with_totals (u64 (total_connections_made m + 1)) (total_connection_failures m) m in
  note_connected n (with_failures (<[n := 0]> (connection_failure_count m)) m).

Definition handle_failed_connection (n : NodeID) (m : PeerManager) : PeerManager :=
  let m := with_failures
    (<[n := u32 (default 0 (connection_failure_count m !! n) + 1)]> (connection_failure_count m)) m in
  with_totals (total_connections_made m) (u64 (total_connection_failures m + 1)) m.

Definition disconnect_peer (n : NodeID) (m : PeerManager) : PeerManager :=
  match active_connections m !! n with
  | None => m
  | Some _ =>
      let m := note_disconnected n m in with_connections (delete n (active_connections m)) m
  end.

(** First the identifiers are collected. *)
Definition disconnect_all (m : PeerManager) : PeerManager :=
  foldl (λ m n, disconnect_peer n m) m (entries (active_connections m)).*1.

Definition cleanup_idle_connections (now : Z) (m : PeerManager) : PeerManager :=
  let to_disconnect :=
    (filter (λ nc, is_idle now nc.2 && (idle_timeout_seconds (pm_policy m) <? idle_duration now nc.2) = true)
       (entries (active_connections m))).*1 in
  foldl (λ m n, disconnect_peer n m) m to_disconnect.

(** Peers tried before, not connected, that may be tried again; at most five. *)
Definition retry_candidates (now : Z) (m : PeerManager) : list NodeID :=
  take 5 (filter (λ na, is_connected na.1 m = false ∧
                        (u64 (now - na.2) <? reconnect_delay_seconds (pm_policy m)) = false ∧
                        too_many_failures na.1 m = false)
            (entries (last_connection_attempt m))).*1.

(** A loop over peers whose steps may fail. *)
Definition for_each {A S} (f : A → S → outcome S) (l : list A) (s : S) : outcome S :=
  foldl (λ r x, s ← r; f x s) (Ok s) l.

(** The object behind a raw pointer, as long as its owner keeps it. *)
Definition deref (a : nat) (w : world) : outcome Session :=
  if decide (a ∈ sessions w.2) then
    match w.1 !! a with Some s => Ok s | None => Undef end
  else Undef.

(** Bytes that are not all zero are taken for a signature. *)
Definition has_signature (sg : Signature) : bool := existsb (λ b, negb (byte_val b =? 0)) (arr sg).

Definition time_diff (now timestamp : Z) : Z :=
  if now <? timestamp then timestamp - now else now - timestamp.

Definition handle_peer_announcement (now : Z) (msg : PeerAnnouncementMessage) (m : PeerManager) : PeerManager :=
  if negb (has_signature (an_signature msg)) then m
  else if 300 <? time_diff now (an_timestamp msg) then m
  else if bool_decide (an_node_id msg = pm_local_node_id m) then m
  else if bool_decide (listen_address msg = []) then m
  else pm_update_peer_capabilities (an_node_id msg) (an_capabilities msg)
         (pm_add_discovered_peer now (an_node_id msg) (listen_address msg) m).

Definition take_entry (now : Z) (m : PeerManager) (e : PeerEntry) : PeerManager :=
  if bool_decide (pe_node_id e = pm_local_node_id m) then m
  else pm_update_peer_capabilities (pe_node_id e) (pe_capabilities e)
         (pm_add_discovered_peer now (pe_node_id e) (pe_address e) m).

Definition handle_peer_response (now : Z) (msg : PeerResponseMessage) (m : PeerManager) : PeerManager :=
  if negb (has_signature (rs_signature msg)) then m
  else if negb (is_connected (responder_id msg) m) then m
  else if 300 <? time_diff now (rs_timestamp msg) then m
  else foldl (take_entry now) m (rs_peers msg).

(** The text behind the first [:]. *)
Fixpoint after_colon (s : bytes) : option bytes :=
  match s with
  | [] => None
  | c :: s => if decide (c = colon) then Some s else after_colon s
  end.

Definition observed_port (address : bytes) : outcome Z :=
  match after_colon address with
  | Some text => p ← stoi text; Ok (u16 p)
  | None => Ok 0
  end.

Section Manager.
Context `{Crypto, ChannelCrypto}.

(** Connecting goes no further than the first message of the handshake; the
    address is not used. *)
Definition connect_to_peer (now : Z) (drawn : option (PublicKey * SecretKey)) (n : NodeID) (wm : network) :
    outcome network :=
  let '(w, m) := wm in
  if is_connected n m then Ok (w, m)
  else if negb (can_connect_more_peers m) then Ok (w, m)
  else if negb (should_connect_to_peer n m) then Ok (w, m)
  else
    let m := with_attempts (<[n := now]> (last_connection_attempt m)) m in
    let '(a, w) := create_outbound_session n now w in
    match w.1 !! a with
    | None => Undef
    | Some s =>
        let '(r, s') := initiate_handshake drawn now s in
        started ← r;
        Ok ((<[a := s']> w.1, w.2),
            if started : bool then handle_successful_connection now n (Some a) m
            else handle_failed_connection n m)
    end.

(** The peer is marked as a bootstrap node in a copy of its entry. *)
Definition connect_to_bootstrap (now : Z) (draws : NodeID → option (PublicKey * SecretKey)) (node : BootstrapNode)
    (wm : network) : outcome network :=
  let id : NodeID := blake3 (arr (bn_public_key node)) in
  connect_to_peer now (draws id) id (wm.1, pm_add_discovered_peer now id (bn_address node) wm.2).

Definition connect_to_bootstrap_nodes (now : Z) (draws : NodeID → option (PublicKey * SecretKey))
    (wm : network) : outcome network :=
  for_each (connect_to_bootstrap now draws)
    (take (Z.to_nat (max_bootstrap_peers (pm_policy wm.2))) (bootstrap_nodes (discovery wm.2))) wm.

(** A selected peer is looked up again before the attempt. *)
Definition connect_if_known (now : Z) (draws : NodeID → option (PublicKey * SecretKey)) (n : NodeID)
    (wm : network) : outcome network :=
  match get_peer_info n (discovery wm.2) with
  | Some _ => connect_to_peer now (draws n) n wm
  | None => Ok wm
  end.

Definition maintain_peer_connections (sort : list (NodeID * float) → list (NodeID * float)) (now : Z)
    (draws : NodeID → option (PublicKey * SecretKey)) (wm : network) : outcome network :=
  let '(w, m) := wm in
  let m := with_discovery (cleanup_stale_peers now (discovery m)) m in
  let m := cleanup_idle_connections now m in
  if active_connection_count m <? target_peers (pm_policy m) then
    let needed := Z.to_nat (target_peers (pm_policy m) - active_connection_count m) in
    let exclude := {[pm_local_node_id m]} ∪ dom (active_connections m) in
    for_each (connect_if_known now draws) (select_peers_to_connect sort now needed exclude (discovery m)) (w, m)
  else Ok (w, m).

Definition attempt_reconnections (now : Z) (draws : NodeID → option (PublicKey * SecretKey)) (wm : network) :
    outcome network :=
  for_each (connect_if_known now draws) (retry_candidates now wm.2) wm.

(** The data is encrypted; the result is not passed on. *)
Definition send_to_peer (now : Z) (random : array 4) (n : NodeID) (data : bytes) (wm : network) :
    outcome (bool * network) :=
  let '(w, m) := wm in
  match active_connections m !! n with
  | None => Ok (false, (w, m))
  | Some c =>
      match pc_session c with
      | None => Ok (false, (w, m))
      | Some a =>
          s ← deref a w;
          if negb (is_established s) then Ok (false, (w, m))
          else
            let '(r, s') := encrypt_message data random now s in
            encrypted ← r;
            let w := (<[a := s']> w.1, w.2) in
            Ok (match encrypted with
                | None => (false, (w, m))
                | Some _ =>
                    (true,
                     (w, with_connections
                           (<[n := MkPeerConnection (pc_peer_id c) (pc_address c) (pc_session c) (connected_at c)
                                     now (u64 (pc_bytes_sent c + len data)) (pc_bytes_received c) (is_outbound c)]>
                              (active_connections m)) m))
                end)
      end
  end.

Definition broadcast_to_peers (now : Z) (randoms : NodeID → array 4) (data : bytes) (wm : network) :
    outcome network :=
  for_each (λ n wm, r ← send_to_peer now (randoms n) n data wm; Ok r.2) (entries (active_connections wm.2)).*1 wm.

Definition send_to_random_peers (now : Z) (draws : nat → Z) (randoms : NodeID → array 4) (data : bytes)
    (count : nat) (wm : network) : outcome network :=
  peer_ids ← shuffle draws (entries (active_connections wm.2)).*1;
  for_each (λ n wm, r ← send_to_peer now (randoms n) n data wm; Ok r.2)
    (take (Nat.min count (length peer_ids)) peer_ids) wm.

Definition response_to (now : Z) (selected : list NodeID) (garbage : Signature) (m : PeerManager) :
    PeerResponseMessage :=
  MkPeerResponseMessage (pm_local_node_id m)
    (omap (λ n, (λ i, MkPeerEntry n (pi_address i) (pi_capabilities i) (last_seen i)) <$>
                  get_peer_info n (discovery m)) selected)
    now garbage.

Definition handle_peer_request (now : Z) (draws : nat → Z) (random : array 4) (garbage : Signature)
    (requesting_peer : NodeID) (msg : PeerRequestMessage) (wm : network) : outcome network :=
  if bool_decide (requester_id msg ≠ requesting_peer) then Ok wm
  else if 300 <? time_diff now (rq_timestamp msg) then Ok wm
  else
    let m := wm.2 in
    let exclude := {[pm_local_node_id m]} ∪ {[requesting_peer]} in
    selected ← select_random_peers draws now (Z.to_nat (Z.min (max_peers msg) 20)) exclude (discovery m);
    r ← send_to_peer now random requesting_peer (response_to_bytes (response_to now selected garbage m)) wm;
    Ok r.2.

Definition handle_nat_traversal_request (now : Z) (random : array 4) (requesting_peer : NodeID)
    (req : NATTraversalRequest) (wm : network) : outcome network :=
  match get_connection requesting_peer wm.2 with
  | None => Ok wm
  | Some c =>
      if bool_decide (nr_requester_id req ≠ requesting_peer) then Ok wm
      else
        port ← observed_port (pc_address c);
        let response := MkNATTraversalResponse (before_colon (pc_address c)) port now in
        r ← send_to_peer now random requesting_peer (nat_response_to_bytes response) wm;
        Ok r.2
  end.

End Manager.

Definition total_bytes_sent (m : PeerManager) : Z :=
  foldl (λ t c, u64 (t + pc_bytes_sent c)) 0 (pm_get_all_connections m).

Definition total_bytes_received (m : PeerManager) : Z :=
  foldl (λ t c, u64 (t + pc_bytes_received c)) 0 (pm_get_all_connections m).

Definition save_peer_database `{JsonText} (writable : bytes → bool) (path : bytes) (m : PeerManager)
    (fs : FileSystem) : bool * FileSystem :=
  save_to_disk writable path (discovery m) fs.

Definition load_peer_database `{JsonText} (path : bytes) (fs : FileSystem) (m : PeerManager) :
    outcome (bool * PeerManager) :=
  r ← load_from_disk path fs (discovery m); Ok (r.1, with_discovery r.2 m).


(** ** What happens to a manager *)

Section Operations.
Context `{Crypto, ChannelCrypto, JsonText}.

(** The public operations that change the manager; [OpLoad] finds the file system [fs],
    and [OpSessions] is whatever others do with the shared session manager in between. *)
Inductive PeerOp :=
  | OpPolicy (p : ConnectionPolicy)
  | OpOnConnected (set : bool)
  | OpOnDisconnected (set : bool)
  | OpLoad (path : bytes) (fs : FileSystem)
  | OpBootstrapNode (n : BootstrapNode)
  | OpDiscovered (now : Z) (n : NodeID) (address : bytes)
  | OpCapabilities (n : NodeID) (caps : NodeCapabilities)
  | OpConnectBootstrap (now : Z) (draws : NodeID → option (PublicKey * SecretKey))
  | OpConnect (now : Z) (drawn : option (PublicKey * SecretKey)) (n : NodeID)
  | OpDisconnect (n : NodeID)
  | OpDisconnectAll
  | OpMaintain (sort : list (NodeID * float) → list (NodeID * float)) (now : Z)
      (draws : NodeID → option (PublicKey * SecretKey))
  | OpIdle (now : Z)
  | OpReconnect (now : Z) (draws : NodeID → option (PublicKey * SecretKey))
  | OpSend (now : Z) (random : array 4) (n : NodeID) (data : bytes)
  | OpBroadcast (now : Z) (randoms : NodeID → array 4) (data : bytes)
  | OpSendRandom (now : Z) (draws : nat → Z) (randoms : NodeID → array 4) (data : bytes) (count : nat)
  | OpAnnouncement (now : Z) (msg : PeerAnnouncementMessage)
  | OpRequest (now : Z) (draws : nat → Z) (random : array 4) (garbage : Signature) (from : NodeID)
      (msg : PeerRequestMessage)
  | OpResponse (now : Z) (msg : PeerResponseMessage)
  | OpNat (now : Z) (random : array 4) (from : NodeID) (req : NATTraversalRequest)
  | OpSessions (w : world).

Definition peer_step (op : PeerOp) (wm : network) : outcome network :=
  let '(w, m) := wm in
  match op with
  | OpPolicy p => Ok (w, set_policy p m)
  | OpOnConnected set => Ok (w, set_peer_connected_callback set m)
  | OpOnDisconnected set => Ok (w, set_peer_disconnected_callback set m)
  | OpLoad path fs => r ← load_peer_database path fs m; Ok (w, r.2)
  | OpBootstrapNode n => Ok (w, pm_add_bootstrap_node n m)
  | OpDiscovered now n address => Ok (w, pm_add_discovered_peer now n address m)
  | OpCapabilities n caps => Ok (w, pm_update_peer_capabilities n caps m)
  | OpConnectBootstrap now draws => connect_to_bootstrap_nodes now draws wm
  | OpConnect now drawn n => connect_to_peer now drawn n wm
  | OpDisconnect n => Ok (w, disconnect_peer n m)
  | OpDisconnectAll => Ok (w, disconnect_all m)
  | OpMaintain sort now draws => maintain_peer_connections sort now draws wm
  | OpIdle now => Ok (w, cleanup_idle_connections now m)
  | OpReconnect now draws => attempt_reconnections now draws wm
  | OpSend now random n data => r ← send_to_peer now random n data wm; Ok r.2
  | OpBroadcast now randoms data => broadcast_to_peers now randoms data wm
  | OpSendRandom now draws randoms data count => send_to_random_peers now draws randoms data count wm
  | OpAnnouncement now msg => Ok (w, handle_peer_announcement now msg m)
  | OpRequest now draws random garbage from msg => handle_peer_request now draws random garbage from msg wm
  | OpResponse now msg => Ok (w, handle_peer_response now msg m)
  | OpNat now random from req => handle_nat_traversal_request now random from req wm
  | OpSessions w' => Ok (w', m)
  end.

Definition peer_run (ops : list PeerOp) (wm : network) : outcome network := for_each peer_step ops wm.

(** The operations that draw keys or numbers, use a session, read a port or a database;
    the others only keep records. *)
Definition may_stop (op : PeerOp) : bool :=
  match op with
  | OpLoad _ _ | OpConnectBootstrap _ _ | OpConnect _ _ _ | OpMaintain _ _ _ | OpReconnect _ _
  | OpSend _ _ _ _ | OpBroadcast _ _ _ | OpSendRandom _ _ _ _ _ | OpRequest _ _ _ _ _ _
  | OpNat _ _ _ _ => true
  | _ => false
  end.

End Operations.

(** ** Loops *)

Lemma for_each_nil {A S} (f : A → S → outcome S) s : for_each f [] s = Ok s.
Proof. done. Qed.

Lemma for_each_stop {A S} (f : A → S → outcome S) l (r : outcome S) :
  is_ok r = false → foldl (λ r x, s ← r; f x s) r l = r.
Proof. intros Hr. induction l as [|x l IH]; [done|]. cbn. by destruct r. Qed.

Lemma for_each_cons {A S} (f : A → S → outcome S) x l s :
  for_each f (x :: l) s = (s' ← f x s; for_each f l s').
Proof. unfold for_each. cbn. destruct (f x s); [done| |]; by rewrite for_each_stop. Qed.

Lemma for_each_keeps {A S} (P : S → Prop) (f : A → S → outcome S) l s s' :
  (∀ x s s', P s → f x s = Ok s' → P s') → P s → for_each f l s = Ok s' → P s'.
Proof.
  intros Hf. revert s. induction l as [|x l IH]; intros s Hs.
  - by intros [= <-].
  - rewrite for_each_cons. destruct (f x s) as [s1| |] eqn:E; [|done..]. cbn. apply IH. by eapply Hf.
Qed.

(** ** The invariant *)

(** The policies in force during a run that starts with [p], and the databases it reads. *)
Definition policies (p : ConnectionPolicy) (ops : list PeerOp) : list ConnectionPolicy :=
  p :: omap (λ op, if op is OpPolicy q then Some q else None) ops.

Definition databases (ops : list PeerOp) : list (bytes * FileSystem) :=
  omap (λ op, if op is OpLoad path fs then Some (path, fs) else None) ops.

Definition most_connections (ps : list ConnectionPolicy) : Z := foldr Z.max 0 (max_connected <$> ps).
Definition most_attempts (ps : list ConnectionPolicy) : Z :=
  foldr Z.max 1 (max_connection_attempts <$> ps).

(** The statistics of a peer. *)
Definition marks (i : PeerInfo) : Z * Z * bool :=
  (connection_attempts i, successful_connections i, is_bootstrap i).

(** [i] is what reading the database alone leaves of [n]. *)
Definition in_database `{JsonText} (db : bytes * FileSystem) (n : NodeID) (i : PeerInfo) : Prop :=
  ∃ r d, load_from_disk db.1 db.2 new_discovery = Ok (r, d) ∧ discovered_peers d !! n = Some i.

(** No database that was read has an entry for [n]. *)
Definition never_loaded `{JsonText} (dbs : list (bytes * FileSystem)) (n : NodeID) : Prop :=
  ∀ db i, db ∈ dbs → ¬ in_database db n i.

(** The statistics of a discovered peer are those of a new one or those of a database. *)
Definition known_ok `{JsonText} (dbs : list (bytes * FileSystem)) (n : NodeID) (i : PeerInfo) : Prop :=
  pi_node_id i = n ∧
  (marks i = (0, 0, false) ∨ ∃ db j, db ∈ dbs ∧ in_database db n j ∧ marks i = marks j).

Record peers_ok `{JsonText} (local : NodeID) (ps : list ConnectionPolicy)
    (dbs : list (bytes * FileSystem)) (m : PeerManager) : Prop := {
  po_local : pm_local_node_id m = local;
  po_policy : pm_policy m ∈ ps;
  po_count : active_connection_count m <= most_connections ps;
  po_self : active_connections m !! local = None;
  po_connected : map_Forall (λ n c, pc_peer_id c = n ∧ connection_failure_count m !! n = Some 0 ∧
                                    is_Some (last_connection_attempt m !! n)) (active_connections m);
  po_failures : map_Forall (λ _ k, 0 <= k <= most_attempts ps) (connection_failure_count m);
  po_known : map_Forall (known_ok dbs) (discovered_peers (discovery m))
}.

(** The limit on attempts is a [uint32_t]. *)
Definition policy_fits (p : ConnectionPolicy) : Prop := in_u 32 (max_connection_attempts p).

Lemma foldr_max_le b l x : x ∈ l → x <= foldr Z.max b l.
Proof. induction l as [|y l IH]; [by intros ?%elem_of_nil|]. intros [->|Hx]%elem_of_cons; cbn; [lia|]. specialize (IH Hx). lia. Qed.

Lemma foldr_max_base b l : b <= foldr Z.max b l.
Proof. induction l; cbn; lia. Qed.

Lemma foldr_max_lt b l c : b < c → Forall (λ x, x < c) l → foldr Z.max b l < c.
Proof. intros Hb. induction 1; cbn; lia. Qed.

Lemma most_connections_ge p ps : p ∈ ps → max_connected p <= most_connections ps.
Proof. intros Hp. apply foldr_max_le, list_elem_of_fmap. eauto. Qed.

Lemma most_attempts_ge p ps : p ∈ ps → max_connection_attempts p <= most_attempts ps.
Proof. intros Hp. apply foldr_max_le, list_elem_of_fmap. eauto. Qed.

Lemma most_attempts_fits ps : Forall policy_fits ps → 1 <= most_attempts ps < 2 ^ 32.
Proof.
  intros Hps. split; [apply foldr_max_base|]. apply foldr_max_lt; [lia|].
  apply list.Forall_fmap. eapply list.Forall_impl; [exact Hps|]. intros p []. done.
Qed.

Section Invariant.
Context `{JsonText} (local : NodeID) (ps : list ConnectionPolicy) (dbs : list (bytes * FileSystem)).
Context (Hfits : Forall policy_fits ps).

Lemma ok_discovery d m :
  peers_ok local ps dbs m → map_Forall (known_ok dbs) (discovered_peers d) → peers_ok local ps dbs (with_discovery d m).
Proof. intros [] Hd. by split. Qed.

Lemma known_add now n address d :
  map_Forall (known_ok dbs) (discovered_peers d) →
  map_Forall (known_ok dbs) (discovered_peers (add_discovered_peer now n address d)).
Proof.
  intros Hd. cbn. apply map_Forall_insert_2; [|done].
  destruct (discovered_peers d !! n) as [i|] eqn:E; [exact (Hd n i E)|]. split; [done|by left].
Qed.

Lemma known_alter f n (d : gmap NodeID PeerInfo) :
  (∀ i, known_ok dbs n i → known_ok dbs n (f i)) → map_Forall (known_ok dbs) d → map_Forall (known_ok dbs) (alter f n d).
Proof.
  intros Hf Hd n' i. rewrite lookup_alter_Some. intros [(<- & j & Hj & ->)|[_ Hi]]; [|by apply Hd].
  apply Hf, Hd, Hj.
Qed.

Lemma ok_add now n address m : peers_ok local ps dbs m → peers_ok local ps dbs (pm_add_discovered_peer now n address m).
Proof. intros W. apply ok_discovery; [done|]. apply known_add, W. Qed.

Lemma ok_caps n caps m : peers_ok local ps dbs m → peers_ok local ps dbs (pm_update_peer_capabilities n caps m).
Proof. intros W. apply ok_discovery; [done|]. apply known_alter; [done|apply W]. Qed.

Lemma known_delete ns (known : gmap NodeID PeerInfo) :
  map_Forall (known_ok dbs) known → map_Forall (known_ok dbs) (foldl (λ ps n, delete n ps) known ns).
Proof.
  revert known. induction ns as [|n ns IH]; intros known Hps; [done|]. apply IH. by apply map_Forall_delete.
Qed.

Lemma ok_disconnect n m : peers_ok local ps dbs m → peers_ok local ps dbs (disconnect_peer n m).
Proof.
  unfold disconnect_peer. intros [W1 W2 W3 W4 W5 W6 W7]. destruct (_ !! n) as [c|] eqn:E; [|done]. split; cbn; try done.
  - unfold active_connection_count in *. cbn. rewrite map_size_delete_Some by eauto. lia.
  - by rewrite lookup_delete_None, W4; right.
  - by apply map_Forall_delete.
Qed.

Lemma ok_disconnects ns m : peers_ok local ps dbs m → peers_ok local ps dbs (foldl (λ m n, disconnect_peer n m) m ns).
Proof. revert m. induction ns as [|n ns IH]; intros m W; [done|]. by apply IH, ok_disconnect. Qed.

Lemma ok_same_records m m' :
  pm_local_node_id m' = pm_local_node_id m → pm_policy m' ∈ ps →
  discovery m' = discovery m → active_connections m' = active_connections m →
  last_connection_attempt m' = last_connection_attempt m →
  connection_failure_count m' = connection_failure_count m →
  peers_ok local ps dbs m → peers_ok local ps dbs m'.
Proof.
  intros E1 E2 E3 E4 E5 E6 []. split; unfold active_connection_count in *; by rewrite ?E1, ?E3, ?E4, ?E5, ?E6.
Qed.

Lemma ok_load path fs r m m' :
  (path, fs) ∈ dbs → peers_ok local ps dbs m → load_peer_database path fs m = Ok (r, m') →
  peers_ok local ps dbs m'.
Proof.
  intros Hdb W. unfold load_peer_database. destruct (load_from_disk path fs (discovery m)) as [[r' d]| |] eqn:E; [|done..].
  intros [= <- <-]. apply load_from_disk_over in E as (d0 & E0 & Ed & Hk). apply ok_discovery; [done|]. rewrite Ed.
  apply map_Forall_union_2; [|apply W]. intros n i Hi. split; [by apply Hk|]. right.
  exists (path, fs), i. split; [done|]. split; [|done]. by exists r', d0.
Qed.

Lemma ok_success now n session m :
  peers_ok local ps dbs m → n ≠ local → is_connected n m = false → can_connect_more_peers m = true →
  is_Some (last_connection_attempt m !! n) →
  peers_ok local ps dbs (handle_successful_connection now n session m).
Proof.
  intros [W1 W2 W3 W4 W5 W6 W7] Hn Hc Hmore Hlast. apply bool_decide_eq_false in Hc.
  apply eq_None_not_Some in Hc. apply Z.ltb_lt in Hmore. unfold active_connection_count in *.
  pose proof (most_connections_ge _ ps W2). pose proof (most_attempts_fits ps Hfits).
  split; cbn; try done.
  - unfold active_connection_count. cbn. rewrite map_size_insert_None by done. lia.
  - by rewrite lookup_insert_ne.
  - apply map_Forall_insert; [done|]. split; [by rewrite lookup_insert_eq|].
    intros n' c Hc'. destruct (W5 n' c Hc') as (? & ? & ?). rewrite lookup_insert_ne by congruence. done.
  - apply map_Forall_insert_2; [lia|done].
Qed.

Lemma ok_failure n m :
  peers_ok local ps dbs m → is_connected n m = false → too_many_failures n m = false →
  peers_ok local ps dbs (handle_failed_connection n m).
Proof.
  intros [W1 W2 W3 W4 W5 W6 W7] Hc Hf. apply bool_decide_eq_false in Hc.
  apply eq_None_not_Some in Hc. split; cbn; try done.
  - intros n' c Hc'. destruct (W5 n' c Hc') as (? & ? & ?). rewrite lookup_insert_ne by congruence. done.
  - apply map_Forall_insert_2; [|done]. unfold too_many_failures in Hf.
    pose proof (most_attempts_ge _ ps W2). pose proof (most_attempts_fits ps Hfits).
    destruct (connection_failure_count m !! n) as [k|] eqn:E; cbn.
    + specialize (W6 n k E). cbv beta in W6. apply Z.leb_gt in Hf. rewrite wrap_small by (unfold in_u; lia). lia.
    + rewrite wrap_small by (unfold in_u; lia). lia.
Qed.

Lemma ok_attempt n now m : peers_ok local ps dbs m → peers_ok local ps dbs (with_attempts (<[n := now]> (last_connection_attempt m)) m).
Proof.
  intros [W1 W2 W3 W4 W5 W6 W7]. split; cbn; try done. intros n' c Hc. destruct (W5 n' c Hc) as (? & ? & Hl).
  split_and!; [done..|]. destruct (decide (n = n')) as [->|]; [by rewrite lookup_insert_eq|by rewrite lookup_insert_ne].
Qed.

Section Steps.
Context `{Crypto, ChannelCrypto}.

Lemma ok_connect now drawn n wm wm' :
  peers_ok local ps dbs wm.2 → connect_to_peer now drawn n wm = Ok wm' → peers_ok local ps dbs wm'.2.
Proof.
  destruct wm as [w m]. cbn [snd]. intros W. unfold connect_to_peer.
  destruct (is_connected n m) eqn:Hc; [by intros [= <-]|].
  destruct (can_connect_more_peers m) eqn:Hmore; [|by intros [= <-]].
  destruct (should_connect_to_peer n m) eqn:Hs; [|by intros [= <-]]. cbn [negb].
  destruct (create_outbound_session n now w) as [a w1].
  destruct (w1.1 !! a) as [s|]; [|done]. destruct (initiate_handshake drawn now s) as [r s'].
  destruct r as [started| |]; [|done..]. cbn. intros [= <-]. cbn [snd].
  unfold should_connect_to_peer in Hs. case_bool_decide as Hn; [done|].
  destruct (too_many_failures n m) eqn:Hf; [done|].
  pose proof (ok_attempt n now m W) as W'. destruct started.
  - apply ok_success; [done| |done..|by cbn; rewrite lookup_insert_eq].
    rewrite <- (po_local _ _ _ _ W). done.
  - by apply ok_failure.
Qed.

Lemma ok_connects now draws ns wm wm' :
  peers_ok local ps dbs wm.2 → for_each (connect_if_known now draws) ns wm = Ok wm' → peers_ok local ps dbs wm'.2.
Proof.
  intros W. apply (for_each_keeps (λ wm, peers_ok local ps dbs wm.2)); [|done].
  intros n wm1 wm2 W1. unfold connect_if_known. destruct (get_peer_info _ _); [by apply ok_connect|].
  by intros [= <-].
Qed.

(** Sending changes the statistics of a connection. *)
Lemma ok_send now random n data wm r :
  peers_ok local ps dbs wm.2 → send_to_peer now random n data wm = Ok r → peers_ok local ps dbs r.2.2.
Proof.
  destruct wm as [w m]. cbn [snd]. intros W. unfold send_to_peer.
  destruct (active_connections m !! n) as [c|] eqn:Ec; [|by intros [= <-]].
  destruct (pc_session c) as [a|]; [|by intros [= <-]].
  destruct (deref a w) as [s| |]; [|done..]. cbn [mbind outcome_bind].
  destruct (is_established s); [|by intros [= <-]]. cbn [negb].
  destruct (encrypt_message data random now s) as [[[e|]| |] s']; cbn; [|by intros [= <-]|done..].
  intros [= <-]. cbn [snd]. destruct W as [W1 W2 W3 W4 W5 W6 W7]. split; cbn; try done.
  - unfold active_connection_count in *. cbn. by rewrite map_size_insert_Some by eauto.
  - rewrite lookup_insert_ne; [done|]. intros ->. congruence.
  - apply map_Forall_insert_2; [|done]. exact (W5 n c Ec).
Qed.

Lemma ok_sends now randoms data ns wm wm' :
  peers_ok local ps dbs wm.2 →
  for_each (λ n wm, r ← send_to_peer now (randoms n) n data wm; Ok r.2) ns wm = Ok wm' →
  peers_ok local ps dbs wm'.2.
Proof.
  intros W. apply (for_each_keeps (λ wm, peers_ok local ps dbs wm.2)); [|done].
  intros n wm1 wm2 W1. destruct (send_to_peer _ _ _ _ wm1) as [r| |] eqn:E; [|done..]. cbn. intros [= <-].
  by apply (ok_send _ _ _ _ _ _ W1 E).
Qed.

Lemma ok_send_then now random n data wm wm' :
  peers_ok local ps dbs wm.2 → (r ← send_to_peer now random n data wm; Ok r.2) = Ok wm' → peers_ok local ps dbs wm'.2.
Proof.
  intros W. destruct (send_to_peer _ _ _ _ wm) as [r| |] eqn:E; [|done..]. cbn. intros [= <-].
  by apply (ok_send _ _ _ _ _ _ W E).
Qed.

Lemma ok_entries now es m : peers_ok local ps dbs m → peers_ok local ps dbs (foldl (take_entry now) m es).
Proof.
  revert m. induction es as [|e es IH]; intros m W; [done|]. apply IH. unfold take_entry.
  case_bool_decide; [done|]. by apply ok_caps, ok_add.
Qed.

(** The policies and databases of the operation are among those of the run. *)
Definition op_among (op : PeerOp) : Prop :=
  match op with OpPolicy p => p ∈ ps | OpLoad path fs => (path, fs) ∈ dbs | _ => True end.

Lemma ok_peer_step op wm wm' :
  op_among op → peers_ok local ps dbs wm.2 → peer_step op wm = Ok wm' → peers_ok local ps dbs wm'.2.
Proof.
  destruct wm as [w m]. cbn [snd]. intros Ha W. destruct op; cbn [peer_step op_among] in *;
    try (by intros [= <-]; first [by apply ok_add|by apply ok_caps|by apply ok_disconnect|by apply ok_disconnects|done]);
    try (by apply ok_sends); try (by apply ok_send_then).
  - intros [= <-]. by apply (ok_same_records m).
  - intros [= <-]. apply (ok_same_records m); [done|apply W|done..].
  - intros [= <-]. apply (ok_same_records m); [done|apply W|done..].
  - destruct (load_peer_database _ _ _) as [[r m']| |] eqn:E; [|done..]. intros [= <-]. by eapply ok_load.
  - intros [= <-]. by apply ok_discovery; [|apply W].
  - apply (for_each_keeps (λ wm, peers_ok local ps dbs wm.2)); [|done]. intros b wm1 wm2 W1. by apply ok_connect, ok_add.
  - by apply ok_connect.
  - unfold maintain_peer_connections. set (m1 := cleanup_idle_connections _ _).
    assert (peers_ok local ps dbs m1) as W1.
    { apply ok_disconnects, ok_discovery; [done|]. apply known_delete, W. }
    destruct (_ <? _); [by apply ok_connects|by intros [= <-]].
  - by apply ok_connects.
  - unfold send_to_random_peers. destruct (shuffle _ _) as [l| |]; [|done..]. by apply ok_sends.
  - intros [= <-]. unfold handle_peer_announcement. cbn [snd].
    repeat (match goal with |- context [if ?b then _ else _] => destruct b; [done|] end). by apply ok_caps, ok_add.
  - unfold handle_peer_request. case_bool_decide; [by intros [= <-]|]. destruct (_ <? _); [by intros [= <-]|].
    destruct (select_random_peers _ _ _ _ _) as [l| |]; [|done..]. by apply ok_send_then.
  - intros [= <-]. unfold handle_peer_response. cbn [snd].
    repeat (match goal with |- context [if ?b then _ else _] => destruct b; [done|] end). by apply ok_entries.
  - unfold handle_nat_traversal_request. destruct (get_connection _ _) as [c|]; [|by intros [= <-]].
    case_bool_decide; [by intros [= <-]|]. destruct (observed_port _) as [port| |]; [|done..]. by apply ok_send_then.
Qed.

Lemma ok_peer_run ops wm wm' :
  Forall op_among ops → peers_ok local ps dbs wm.2 → peer_run ops wm = Ok wm' →
  peers_ok local ps dbs wm'.2.
Proof.
  intros Ha. revert wm. induction Ha as [|op ops Hop _ IH]; intros wm W; [by intros [= <-]|].
  unfold peer_run. rewrite for_each_cons. destruct (peer_step op wm) as [wm1| |] eqn:E; [|done..].
  apply IH. by eapply ok_peer_step.
Qed.

End Steps.

Lemma ok_new p : p ∈ ps → peers_ok local ps dbs (set_policy p (new_peer_manager local)).
Proof.
  intros Hp. split; cbn; [done..| |done|apply map_Forall_empty|apply map_Forall_empty|apply map_Forall_empty].
  unfold active_connection_count. cbn. rewrite map_size_empty. apply foldr_max_base.
Qed.

End Invariant.

Lemma ops_among p ops : Forall (op_among (policies p ops) (databases ops)) ops.
Proof.
  apply list.Forall_forall. intros op Hin. destruct op; cbn; try done.
  - apply elem_of_cons. right. apply list_elem_of_omap. eauto.
  - apply list_elem_of_omap. eauto.
Qed.

(** Operations that only keep records never stop a run. *)
Lemma steady_step `{Crypto, ChannelCrypto, JsonText} op wm :
  may_stop op = false → is_ok (peer_step op wm) = true.
Proof. destruct wm as [w m]. by destruct op. Qed.

Lemma run_stops `{Crypto, ChannelCrypto, JsonText} ops wm :
  is_ok (peer_run ops wm) = true ∨
  ∃ before op after wm', ops = before ++ op :: after ∧ peer_run before wm = Ok wm' ∧
    is_ok (peer_step op wm') = false ∧ may_stop op = true.
Proof.
  revert wm. induction ops as [|op ops IH]; intros wm; [by left|]. unfold peer_run.
  rewrite for_each_cons. destruct (is_ok (peer_step op wm)) eqn:Es.
  - destruct (peer_step op wm) as [wm1| |] eqn:E; [|done..].
    destruct (IH wm1) as [Hr|(before & op' & after & wm' & -> & Hb & Hs & Hm)]; [by left|right].
    exists (op :: before), op', after, wm'. split_and!; [done| |done..].
    unfold peer_run. rewrite for_each_cons, E. exact Hb.
  - right. exists [], op, ops, wm. split_and!; [done..|]. destruct (may_stop op) eqn:Hm; [done|].
    by rewrite steady_step in Es.
Qed.

(** C19: whatever public operations a peer manager goes through, changes of policy and
    databases read included, its connections are never more than the largest maximum
    of the policies set so far, are kept under their own identifiers and never to
    itself, each has no failures on record, and failures are counted up to the largest
    limit on attempts only. The attempts, successes and bootstrap marks of a
    discovered peer are those of a new one unless a database brought others: a peer in
    no database has reliability one for ever, so a policy that asks for no more lets
    it be connected to exactly when it is another node that has not failed too often.
    This holds after every run that comes to its end, and a run only ends early, in an
    exception or in undefined behaviour, at an operation that draws keys or numbers,
    uses a session, reads a port or reads a database. *)
Theorem peer_manager_invariant `{Crypto, ChannelCrypto, JsonText} local p ops w :
  let ps := policies p ops in
  let dbs := databases ops in
  let start := (w, set_policy p (new_peer_manager local)) in
  Forall policy_fits ps →
  (∀ w' m, peer_run ops start = Ok (w', m) →
     peers_ok local ps dbs m ∧
     (∀ n i, never_loaded dbs n → get_peer_info n (discovery m) = Some i → reliability_score i = f_one) ∧
     (∀ n, never_loaded dbs n → fltb f_one (min_reliability_score (pm_policy m)) = false →
        should_connect_to_peer n m = true ↔ n ≠ local ∧ too_many_failures n m = false)) ∧
  (is_ok (peer_run ops start) = true ∨
   ∃ before op after wm, ops = before ++ op :: after ∧ peer_run before start = Ok wm ∧
     is_ok (peer_step op wm) = false ∧ may_stop op = true).
Proof.
  intros ps dbs start Hfits. split; [|apply run_stops]. intros w' m Hrun.
  assert (W : peers_ok local ps dbs m).
  { eapply (ok_peer_run local ps dbs Hfits ops start (w', m)); [apply ops_among| |exact Hrun].
    apply ok_new. by left. }
  assert (Hr : ∀ n i, never_loaded dbs n → get_peer_info n (discovery m) = Some i → reliability_score i = f_one).
  { intros n i Hn Hi. destruct (po_known _ _ _ _ W n i Hi) as (_ & [Ha|(db & j & Hdb & Hj & _)]).
    - injection Ha as Ha _ _. unfold reliability_score. by rewrite Ha.
    - by destruct (Hn db j). }
  split; [done|]. split; [done|]. intros n Hn Hmin. unfold should_connect_to_peer.
  rewrite (po_local _ _ _ _ W). case_bool_decide as Hl; [by split; [|intros []]|].
  destruct (too_many_failures n m); [by split; [|intros []]|].
  split; [done|]. intros _. destruct (get_peer_info n (discovery m)) as [i|] eqn:Ei; [|done].
  by rewrite (Hr n i Hn Ei), Hmin.
Qed.

(** ** Connecting again *)

Section Reconnecting.
Context `{Crypto, ChannelCrypto}.

(** A session of a peer that has left its first state. *)
Definition engaged (n : NodeID) (w : world) : Prop :=
  ∃ a s, get_session n w = Some a ∧ w.1 !! a = Some s ∧ state s ≠ DISCONNECTED.

Lemma initiate_engages drawn now s s' :
  initiate_handshake drawn now s = (Ok true, s') →
  state s' = HANDSHAKE_INIT ∧ remote_node_id s' = remote_node_id s ∧
  last_activity_timestamp s' = last_activity_timestamp s.
Proof.
  unfold initiate_handshake. destruct (decide _); [|done]. destruct (X25519.generate_keypair _); [|done..].
  by intros [= <-].
Qed.

Lemma find_update n (w : world) a s s' :
  w.1 !! a = Some s → remote_node_id s' = remote_node_id s →
  get_session n (<[a := s']> w.1, w.2) = get_session n w.
Proof.
  intros Ha Hr. unfold get_session. cbn [fst snd].
  assert (∀ b, with_peer (<[a := s']> w.1) n b = with_peer w.1 n b) as E.
  { intros b. unfold with_peer. destruct (decide (a = b)) as [<-|].
    - rewrite list_lookup_insert_eq by (by apply lookup_lt_Some in Ha). by rewrite Ha, Hr.
    - by rewrite list_lookup_insert_ne. }
  induction (sessions w.2) as [|b l IH]; [done|]. cbn. rewrite E. by destruct (with_peer w.1 n b).
Qed.

Lemma find_pushed s (w : world) :
  get_session (remote_node_id s) w = None →
  get_session (remote_node_id s) (push_session s w).2 = Some (length w.1).
Proof.
  unfold get_session. cbn [fst snd push_session with_sessions sessions].
  assert (∀ b, with_peer w.1 (remote_node_id s) b = false → b ≠ length w.1 →
     with_peer (w.1 ++ [s]) (remote_node_id s) b = false) as E.
  { intros b Hb Hne. unfold with_peer in *. destruct (decide (b < length w.1)%nat).
    - by rewrite lookup_app_l.
    - rewrite lookup_ge_None_2; [done|]. rewrite length_app. cbn. lia. }
  assert (with_peer (w.1 ++ [s]) (remote_node_id s) (length w.1) = true) as El.
  { unfold with_peer. rewrite list_lookup_middle by done. by apply bool_decide_eq_true. }
  induction (sessions w.2) as [|b l IH]; cbn; [by rewrite El|].
  destruct (with_peer w.1 (remote_node_id s) b) eqn:Eb; [done|]. intros Hl.
  destruct (decide (b = length w.1)) as [->|Hne]; [by rewrite El|]. by rewrite (E b Eb Hne), IH.
Qed.

(** What a new connection leaves. *)
Lemma connected_engages now drawn n w m w' m' :
  is_connected n m = false → connect_to_peer now drawn n (w, m) = Ok (w', m') → is_connected n m' = true →
  engaged n w' ∧ should_connect_to_peer n m = true ∧ can_connect_more_peers m = true ∧
  ∃ a, m' = handle_successful_connection now n (Some a) (with_attempts (<[n := now]> (last_connection_attempt m)) m) ∧
    get_session n w' = Some a ∧
    (get_session n w = None → ∃ s, w'.1 !! a = Some s ∧ last_activity_timestamp s = now).
Proof.
  intros Hc. unfold connect_to_peer. rewrite Hc.
  destruct (can_connect_more_peers m) eqn:Hmore; cbn [negb]; [|intros [= <- <-]; congruence].
  destruct (should_connect_to_peer n m) eqn:Hs; cbn [negb]; [|intros [= <- <-]; congruence].
  destruct (create_outbound_session n now w) as [a w1] eqn:Ecr.
  assert (get_session n w1 = Some a) as Hg.
  { unfold create_outbound_session in Ecr. destruct (get_session n w) as [b|] eqn:Eg; [by simplify_eq|].
    pose proof (find_pushed (new_session (sm_local_node_id w.2) n now) w Eg) as E.
    rewrite Ecr in E. cbn in E. rewrite E. f_equal. by injection Ecr as <- _. }
  destruct (w1.1 !! a) as [s|] eqn:Es; [|done].
  destruct (initiate_handshake drawn now s) as [r s'] eqn:Ei. destruct r as [started| |]; [|done..].
  cbn [mbind outcome_bind]. intros [= <- <-] Hc'. destruct started.
  - destruct (initiate_engages _ _ _ _ Ei) as (Est & Erem & Eact).
    assert (get_session n (<[a := s']> w1.1, w1.2) = Some a) as Hg' by (by rewrite (find_update n w1 a s s')).
    assert ((<[a := s']> w1.1) !! a = Some s') as Hl
      by (by apply list_lookup_insert_eq, (lookup_lt_Some _ _ s)).
    split; [exists a, s'; cbn; rewrite Est; done|]. split; [done|]. split; [done|].
    exists a. split; [done|]. split; [done|]. intros Hnone. exists s'. split; [done|].
    unfold create_outbound_session in Ecr. rewrite Hnone in Ecr. injection Ecr as <- <-. cbn in Es.
    rewrite list_lookup_middle in Es by done. injection Es as <-. done.
  - change (is_connected n m = true) in Hc'. congruence.
Qed.

(** A peer with an engaged session is never connected again. *)
Lemma engaged_fails now drawn n w m :
  engaged n w → is_connected n m = false → can_connect_more_peers m = true → should_connect_to_peer n m = true →
  connect_to_peer now drawn n (w, m) =
    Ok (w, handle_failed_connection n (with_attempts (<[n := now]> (last_connection_attempt m)) m)).
Proof.
  intros (a & s & Hg & Hs & Hst) Hc Hmore Hsh. unfold connect_to_peer. rewrite Hc, Hmore, Hsh. cbn [negb].
  unfold create_outbound_session. rewrite Hg, Hs. unfold initiate_handshake. rewrite decide_False by done.
  cbn [mbind outcome_bind]. rewrite list_insert_id by done. by destruct w.
Qed.

Lemma banned_stays now drawn n w m :
  is_connected n m = false → too_many_failures n m = true → connect_to_peer now drawn n (w, m) = Ok (w, m).
Proof.
  intros Hc Hb. unfold connect_to_peer. rewrite Hc. destruct (negb (can_connect_more_peers m)); [done|].
  unfold should_connect_to_peer. case_bool_decide; [done|]. by rewrite Hb.
Qed.

(** [m] after attempts at [n] at these times that all failed, the first with [k] failures
    on record. *)
Definition failed_since (n : NodeID) (k : Z) (times : list Z) (m : PeerManager) : PeerManager :=
  MkPeerManager (pm_local_node_id m) (pm_policy m) (discovery m) (active_connections m)
    (match list.last times with
     | Some t => <[n := t]> (last_connection_attempt m)
     | None => last_connection_attempt m
     end)
    (<[n := k + len times]> (connection_failure_count m))
    (connected_callback_set m) (disconnected_callback_set m) (calls m) (total_connections_made m)
    (Nat.iter (length times) (λ c, u64 (c + 1)) (total_connection_failures m)).

Lemma failed_since_nil n k m : connection_failure_count m !! n = Some k → failed_since n k [] m = m.
Proof.
  intros Hf. unfold failed_since. rewrite len_nil, Z.add_0_r, insert_id by done. by destruct m.
Qed.

Lemma failed_since_cons n k t times m :
  connection_failure_count m !! n = Some k → 0 <= k < 2 ^ 32 - 1 →
  failed_since n k (t :: times) m =
  failed_since n (k + 1) times
    (handle_failed_connection n (with_attempts (<[n := t]> (last_connection_attempt m)) m)).
Proof.
  intros Hf Hk. unfold failed_since, handle_failed_connection. cbn. rewrite Hf.
  change (default 0 (Some k)) with k. rewrite (wrap_small 32 (k + 1)) by (unfold in_u; lia).
  rewrite len_cons, insert_insert_eq. f_equal.
  - rewrite last_cons. destruct (list.last times); [by rewrite insert_insert_eq|done].
  - f_equal. lia.
  - change (Nat.iter (S (length times)) (λ c, u64 (c + 1)) (total_connection_failures m) =
      Nat.iter (length times) (λ c, u64 (c + 1)) (u64 (total_connection_failures m + 1))).
    by rewrite Nat.iter_succ_r.
Qed.

Lemma banned_each n w m tries :
  is_connected n m = false → too_many_failures n m = true →
  for_each (λ t, connect_to_peer t.1 t.2 n) tries (w, m) = Ok (w, m).
Proof.
  intros Hc Hb. induction tries as [|t tries IH]; [done|]. rewrite for_each_cons.
  by rewrite banned_stays.
Qed.

Lemma tries_fail n w k tries m :
  engaged n w → is_connected n m = false → can_connect_more_peers m = true → n ≠ pm_local_node_id m →
  (∀ i, get_peer_info n (discovery m) = Some i → fltb (reliability_score i) (min_reliability_score (pm_policy m)) = false) →
  max_connection_attempts (pm_policy m) < 2 ^ 32 → 0 <= k <= max_connection_attempts (pm_policy m) →
  connection_failure_count m !! n = Some k →
  for_each (λ t, connect_to_peer t.1 t.2 n) tries (w, m) =
    Ok (w, failed_since n k (take (Z.to_nat (max_connection_attempts (pm_policy m) - k)) tries.*1) m).
Proof.
  intros He Hc Hmore Hn Hrel Hmax. revert k m Hc Hmore Hn Hrel Hmax.
  induction tries as [|[now drawn] tries IH]; intros k m Hc Hmore Hn Hrel Hmax Hk Hf.
  - change ([].*1) with (@nil Z). by rewrite firstn_nil, failed_since_nil.
  - assert (too_many_failures n m = (max_connection_attempts (pm_policy m) <=? k)) as Hban
      by (unfold too_many_failures; by rewrite Hf).
    destruct (Z.leb_spec (max_connection_attempts (pm_policy m)) k).
    + rewrite banned_each by done.
      replace (Z.to_nat (max_connection_attempts (pm_policy m) - k)) with 0%nat by lia.
      by rewrite take_0, failed_since_nil.
    + assert (should_connect_to_peer n m = true) as Hs.
      { unfold should_connect_to_peer. rewrite bool_decide_eq_false_2, Hban by done.
        destruct (get_peer_info n (discovery m)) as [i|] eqn:Ei; [|done]. by rewrite (Hrel i eq_refl). }
      rewrite for_each_cons. cbn [fst snd].
      rewrite (engaged_fails now drawn n w m He Hc Hmore Hs). cbn [mbind outcome_bind].
      replace (Z.to_nat (max_connection_attempts (pm_policy m) - k))
        with (S (Z.to_nat (max_connection_attempts (pm_policy m) - (k + 1)))) by lia.
      rewrite fmap_cons, firstn_cons, failed_since_cons by (done || lia).
      apply (IH (k + 1) (handle_failed_connection n (with_attempts (<[n := now]> (last_connection_attempt m)) m)));
        try done; [cbn; lia|]. cbn. rewrite lookup_insert_eq, Hf.
      change (default 0 (Some k)) with k. by rewrite wrap_small by (unfold in_u; lia).
Qed.

(** C20: take a peer whose connection is closed right after it was opened. As long as
    the session manager holds the session, which no later attempt can start again,
    each further attempt at the peer fails, whatever keys are drawn, and leaves its
    trace only in the time of the last attempt, the failures of the peer and the total
    of failures, until the limit on attempts is reached and the peer is banned: from
    then on an attempt changes nothing at all, not even when the session has since
    been cleaned up. *)
Theorem lost_peers_are_banned now drawn n w m w1 m1 tries :
  let limit := max_connection_attempts (pm_policy m) in
  is_connected n m = false → 0 < limit < 2 ^ 32 →
  connect_to_peer now drawn n (w, m) = Ok (w1, m1) → is_connected n m1 = true →
  let m2 := failed_since n 0 (take (Z.to_nat limit) tries.*1) (disconnect_peer n m1) in
  for_each (λ t, connect_to_peer t.1 t.2 n) tries (w1, disconnect_peer n m1) = Ok (w1, m2) ∧
  is_connected n m2 = false ∧
  connection_failure_count m2 !! n = Some (Z.min (len tries) limit) ∧
  (too_many_failures n m2 = true ↔ limit <= len tries) ∧
  (limit <= len tries → ∀ later drawn' w2, connect_to_peer later drawn' n (w2, m2) = Ok (w2, m2)).
Proof.
  intros limit Hc Hmax Hconn Hc1.
  destruct (connected_engages now drawn n w m w1 m1 Hc Hconn Hc1) as (He & Hs & Hmore & a & -> & _).
  set (m1 := handle_successful_connection _ _ _ _) in *. set (lost := disconnect_peer n m1). intros m2.
  unfold should_connect_to_peer in Hs. case_bool_decide as Hn; [done|].
  destruct (too_many_failures n m); [done|].
  assert (active_connections lost = active_connections m) as Ha.
  { unfold lost, disconnect_peer, m1. cbn. rewrite lookup_insert_eq. cbn. rewrite delete_insert_id; [done|].
    apply bool_decide_eq_false in Hc. by apply eq_None_not_Some. }
  assert (Hsame : pm_policy lost = pm_policy m ∧ pm_local_node_id lost = pm_local_node_id m ∧
                  discovery lost = discovery m ∧ connection_failure_count lost !! n = Some 0).
  { unfold lost, disconnect_peer, m1. cbn. rewrite lookup_insert_eq. cbn. by rewrite lookup_insert_eq. }
  destruct Hsame as (Ep & El & Ed & Ef).
  pose proof (tries_fail n w1 0 tries lost) as Ht. rewrite El, Ed, Ep, Z.sub_0_r in Ht.
  assert (Hc2 : is_connected n m2 = false) by (unfold m2, is_connected; cbn; by rewrite Ha).
  assert (Hf : connection_failure_count m2 !! n = Some (Z.min (len tries) limit)).
  { unfold m2. cbn. rewrite lookup_insert_eq. f_equal. unfold len. rewrite length_take, length_fmap. lia. }
  assert (Hb : too_many_failures n m2 = true ↔ limit <= len tries).
  { unfold too_many_failures. rewrite Hf. change (pm_policy m2) with (pm_policy lost).
    rewrite Ep, Z.leb_le. fold limit. lia. }
  split_and!; [|done|done|done|].
  - apply Ht; [done| | |done| |lia|lia|done].
    + unfold is_connected. by rewrite Ha.
    + unfold can_connect_more_peers, active_connection_count. by rewrite Ha, Ep.
    + intros i Hi. rewrite Hi in Hs. by apply negb_true_iff.
  - intros Hl later drawn' w2. apply banned_stays; [done|]. by apply Hb.
Qed.

End Reconnecting.

(** ** Messages of peers *)

(** Nobody to tell about, other than this node and the peer that asks. *)
Definition knows_nobody_else (now : Z) (from : NodeID) (m : PeerManager) : Prop :=
  ∀ n i, n ≠ pm_local_node_id m → n ≠ from → get_peer_info n (discovery m) = Some i → peer_is_stale now i = true.

Lemma no_candidates now from m :
  (candidates now ({[pm_local_node_id m]} ∪ {[from]}) (discovery m)).*1 = [] ↔ knows_nobody_else now from m.
Proof.
  split.
  - intros Hnil n i Hl Hf Hi. apply not_false_is_true. intros Hs.
    assert (n ∈ (candidates now ({[pm_local_node_id m]} ∪ {[from]}) (discovery m)).*1) as Hin.
    { apply elem_of_candidates. exists i. split; [done|]. split; [set_solver|done]. }
    rewrite Hnil in Hin. by apply not_elem_of_nil in Hin.
  - intros Hno. apply elem_of_nil_inv. intros n (i & Hi & Hn & Hs)%elem_of_candidates.
    rewrite (Hno n i) in Hs; [done|set_solver|set_solver|done].
Qed.

(** A valid request for peers, from a node that is not connected, makes the process
    undefined exactly when no other peer is known: the random index is drawn below zero.
    Any other such request changes nothing. *)
Theorem peer_requests_crash `{ChannelCrypto} now draws random garbage from msg w m :
  is_connected from m = false →
  (handle_peer_request now draws random garbage from msg (w, m) = Undef ↔
     requester_id msg = from ∧ time_diff now (rq_timestamp msg) <= 300 ∧ knows_nobody_else now from m) ∧
  (handle_peer_request now draws random garbage from msg (w, m) ≠ Undef →
     handle_peer_request now draws random garbage from msg (w, m) = Ok (w, m)).
Proof.
  intros Hc. unfold handle_peer_request. cbn [snd].
  case_bool_decide as Hid; [by split; [split; [|intros [? _]]|]|].
  destruct (Z.ltb_spec 300 (time_diff now (rq_timestamp msg))); [split; [split; [done|lia]|done]|].
  rewrite <- no_candidates.
  set (exclude := {[pm_local_node_id m]} ∪ {[from]}).
  pose proof (random_selection draws now (Z.to_nat (Z.min (max_peers msg) 20)) exclude (discovery m)) as [Hnone Hsome].
  cbv zeta in Hnone, Hsome.
  destruct (decide ((candidates now exclude (discovery m)).*1 = [])) as [Hnil|Hne].
  { by rewrite (Hnone Hnil). }
  destruct (Hsome Hne) as (l & -> & _). cbn [mbind outcome_bind].
  assert (∀ data, send_to_peer now random from data (w, m) = Ok (false, (w, m))) as Hsend.
  { intros data. unfold send_to_peer. apply bool_decide_eq_false, eq_None_not_Some in Hc. by rewrite Hc. }
  rewrite Hsend. cbn [mbind outcome_bind snd]. split; [split; [done|by intros (_ & _ & ?)]|done].
Qed.

(** An announcement whose signature is merely not zero sets address and capabilities of
    any other node and marks it as just seen; one without, or too old, or without an
    address changes nothing; and no announcement touches another node. *)
Theorem announcements_unchecked now n address caps timestamp sg m :
  (has_signature sg = true ∧ time_diff now timestamp <= 300 ∧ n ≠ pm_local_node_id m ∧ address ≠ [] →
   ∃ i, get_peer_info n (discovery (handle_peer_announcement now (MkPeerAnnouncementMessage n address caps timestamp sg) m)) = Some i ∧
     pi_address i = address ∧ pi_capabilities i = caps ∧ last_seen i = now) ∧
  (¬ (has_signature sg = true ∧ time_diff now timestamp <= 300 ∧ n ≠ pm_local_node_id m ∧ address ≠ []) →
   handle_peer_announcement now (MkPeerAnnouncementMessage n address caps timestamp sg) m = m) ∧
  (∀ n', n' ≠ n →
   get_peer_info n' (discovery (handle_peer_announcement now (MkPeerAnnouncementMessage n address caps timestamp sg) m)) =
   get_peer_info n' (discovery m)).
Proof.
  unfold handle_peer_announcement. cbn.
  destruct (has_signature sg); cbn [negb]; [|by split; [intros [? _]|]].
  destruct (Z.ltb_spec 300 (time_diff now timestamp)); [split; [intros (_ & ? & _); lia|done]|].
  case_bool_decide as Hn; [by split; [intros (_ & _ & ? & _)|]|].
  case_bool_decide as Ha; [by split; [intros (_ & _ & _ & ?)|]|].
  unfold get_peer_info. cbn. split; [|split].
  - intros _. rewrite lookup_alter_eq, lookup_insert_eq. eexists. split; [done|]. by destruct (_ !! _).
  - intros Hno. by destruct Hno.
  - intros n' Hne. by rewrite lookup_alter_ne, lookup_insert_ne by done.
Qed.

(** ** Addresses with a port *)

Lemma after_before_colon host text : colon ∉ host → after_colon (host ++ colon :: text) = Some text.
Proof.
  induction host as [|c host IH]; intros Hc; cbn; [by rewrite decide_True|].
  apply not_elem_of_cons in Hc as [? ?]. rewrite decide_False by congruence. by apply IH.
Qed.

(** A peer that announced an address whose port is no number gets an exception out of
    every later request for address translation it makes. *)
Theorem announced_port_throws `{Crypto, ChannelCrypto} now drawn random from i host text e req w m w1 m1 :
  get_peer_info from (discovery m) = Some i → pi_address i = host ++ colon :: text → colon ∉ host →
  stoi text = Err e →
  is_connected from m = false → connect_to_peer now drawn from (w, m) = Ok (w1, m1) → is_connected from m1 = true →
  nr_requester_id req = from →
  ∀ later w2, handle_nat_traversal_request later random from req (w2, m1) = Err e.
Proof.
  intros Hi Haddr Hcolon Ht Hc Hconn Hc1 Hreq later w2.
  destruct (connected_engages now drawn from w m w1 m1 Hc Hconn Hc1) as (_ & _ & _ & a & -> & _).
  unfold handle_nat_traversal_request, get_connection. cbn [snd handle_successful_connection note_connected with_failures
    with_totals with_connections active_connections with_attempts discovery].
  rewrite lookup_insert_eq, bool_decide_eq_false_2 by (intros Hne; by apply Hne). cbn [pc_address].
  rewrite Hi, Haddr. unfold observed_port. rewrite after_before_colon by done. by rewrite Ht.
Qed.

(** ** Sessions that end elsewhere *)

Lemma dead_pointer `{ChannelCrypto} now random n data w m c a :
  active_connections m !! n = Some c → pc_session c = Some a → a ∉ sessions w.2 →
  send_to_peer now random n data (w, m) = Undef.
Proof. intros Hc Hs Ha. unfold send_to_peer. rewrite Hc, Hs. unfold deref. by rewrite decide_False. Qed.

(** A connection keeps the raw pointer of a session it does not own: once the session
    manager has closed the session, or cleaned it up when it timed out, sending to the
    peer is undefined. *)
Theorem sessions_dangle `{Crypto, ChannelCrypto} now drawn n w m w1 m1 :
  is_connected n m = false → connect_to_peer now drawn n (w, m) = Ok (w1, m1) → is_connected n m1 = true →
  (∀ l, manager_ok l w1 → ∀ later random data,
     send_to_peer later random n data (close_session n w1, m1) = Undef) ∧
  (get_session n w = None → ∀ clean, now + 1800 <= clean → in_u 64 now → in_u 64 clean →
     ∀ later random data, send_to_peer later random n data (cleanup_stale_sessions clean w1, m1) = Undef).
Proof.
  intros Hc Hconn Hc1.
  destruct (connected_engages now drawn n w m w1 m1 Hc Hconn Hc1) as (_ & _ & _ & a & -> & Hg & Hnew).
  assert (∀ later random data w', a ∉ sessions w'.2 →
    send_to_peer later random n data (w', handle_successful_connection now n (Some a)
      (with_attempts (<[n := now]> (last_connection_attempt m)) m)) = Undef) as Hdead.
  { intros later random data w' Ha. eapply dead_pointer; [cbn; by rewrite lookup_insert_eq|done|done]. }
  split.
  - intros l W later random data. apply Hdead. intros Hin.
    pose proof (closed_session n l w1 W) as Hnone. pose proof (manager_close n l w1 W) as W'.
    unfold close_session in *. rewrite Hg in *. cbn in *.
    apply list_elem_of_filter in Hin as [Hp _]. apply get_session_Some in Hg as [Hin Hp'].
    assert (with_peer (alter close a w1.1) n a = with_peer w1.1 n a) as E.
    { apply kept_peer; [apply kept_alter, close_ids|]. apply with_peer_true in Hp' as (s & Hs & _). eauto. }
    congruence.
  - intros Hnone clean Hclean Hnow Hcl later random data. apply Hdead. cbn.
    intros [Ht _]%list_elem_of_filter. destruct (Hnew Hnone) as (s & Hs & Hact).
    unfold timed_out in Ht. rewrite Hs in Ht. unfold has_timed_out, IDLE_TIMEOUT_SECONDS in Ht.
    apply Z.leb_gt in Ht. rewrite Hact, wrap_small in Ht by (unfold in_u in *; lia). lia.
Qed.

(** ** A node that has just started *)

Module Sample.
Definition started : PeerManager := set_policy default_connection_policy (new_peer_manager alice_id).
Definition no_sessions : world := ([], new_session_manager alice_id).
Definition told : PeerManager := pm_add_discovered_peer 1000 bob_id (str "10.0.0.2:any") started.
Definition called (m : PeerManager) : outcome network :=
  @connect_to_peer toy_crypto 1000 (Some (sample_pair 1)) bob_id (no_sessions, m).
Definition again : list (Z * option (PublicKey * SecretKey)) := replicate 5 (1100, Some (sample_pair 2)).
Definition carol_id : NodeID := array_fill 32 (to_byte 67).
(** A database that remembers one success in four attempts at [carol_id]. *)
Definition database : FileSystem :=
  (@save_to_disk toy_json (λ _, true) (str "peers.json")
     (MkPeerDiscovery []
        {[carol_id := MkPeerInfo carol_id (str "10.0.0.3:9") 900 800 default_capabilities 4 1 false]})
     (MkFileSystem ∅ ∅)).2.
(** Nobody may be connected to. *)
Definition closed_policy : ConnectionPolicy := MkConnectionPolicy 0 0 0 0 true 30 300 60 1 (literal 3 10) false.
Definition busy : list PeerOp :=
  [OpDiscovered 1000 bob_id (str "10.0.0.2:any"); OpConnect 1000 (Some (sample_pair 1)) bob_id;
   OpSend 1001 (zeros 4) bob_id (str "hello"); OpMaintain id 1100 (λ _, Some (sample_pair 2));
   OpLoad (str "peers.json") database; OpOnConnected true; OpOnDisconnected true; OpPolicy closed_policy;
   OpAnnouncement 1201 (MkPeerAnnouncementMessage bob_id (str "6.6.6.6:1") default_capabilities 1200 (array_fill 64 (to_byte 1)))].
End Sample.

Lemma connects (r : outcome network) n :
  match r with Ok wm => is_connected n wm.2 | _ => false end = true →
  ∃ w m, r = Ok (w, m) ∧ is_connected n m = true.
Proof. destruct r as [[w m]| |]; [|done..]. eauto. Qed.

(** A peer stays connected when the policy no longer allows any; a peer of the database
    is not reliable enough. *)
Lemma peer_manager_invariant_witness :
  ∃ w m, @peer_run toy_crypto toy_channel toy_json Sample.busy (Sample.no_sessions, Sample.started) = Ok (w, m) ∧
    @peers_ok toy_json alice_id [default_connection_policy; Sample.closed_policy]
      [(str "peers.json", Sample.database)] m ∧
    is_connected bob_id m = true ∧ max_connected (pm_policy m) = 0 ∧ should_connect_to_peer Sample.carol_id m = false.
Proof.
  destruct (@peer_manager_invariant toy_crypto toy_channel toy_json alice_id default_connection_policy
    Sample.busy Sample.no_sessions) as [H _].
  { apply list.Forall_cons; split; [split; [discriminate|reflexivity]|].
    apply list.Forall_cons; split; [split; [discriminate|reflexivity]|constructor]. }
  assert (Hv : match @peer_run toy_crypto toy_channel toy_json Sample.busy (Sample.no_sessions, Sample.started) with
               | Ok (_, m) => (is_connected bob_id m, max_connected (pm_policy m), should_connect_to_peer Sample.carol_id m)
               | _ => (false, 1, true)
               end = (true, 0, false)) by (vm_compute; reflexivity).
  unfold Sample.started in *.
  destruct (peer_run Sample.busy _) as [[w m]| |]; [|discriminate..].
  exists w, m. split; [reflexivity|]. split; [exact (proj1 (H w m eq_refl))|].
  injection Hv as H1 H2 H3. split; [exact H1|]. split; [exact H2|exact H3].
Defined.

Lemma lost_peers_are_banned_witness :
  ∃ w1 m1 m2, Sample.called Sample.told = Ok (w1, m1) ∧
    for_each (λ t, @connect_to_peer toy_crypto t.1 t.2 bob_id) Sample.again
      (w1, disconnect_peer bob_id m1) = Ok (w1, m2) ∧
    too_many_failures bob_id m2 = true.
Proof.
  destruct (connects (Sample.called Sample.told) bob_id) as (w1 & m1 & E & Hc); [vm_compute; reflexivity|].
  destruct (@lost_peers_are_banned toy_crypto 1000 (Some (sample_pair 1)) bob_id Sample.no_sessions
    Sample.told w1 m1 Sample.again) as (Er & _ & _ & Hb & _);
    [vm_compute; reflexivity|vm_compute; split; reflexivity|exact E|exact Hc|].
  eexists w1, m1, _. split; [exact E|]. split; [exact Er|]. apply Hb. vm_compute. discriminate.
Defined.

Lemma only_known now b address n i :
  get_peer_info n (add_discovered_peer now b address new_discovery) = Some i → n = b.
Proof.
  unfold get_peer_info. cbn. rewrite lookup_insert_Some. intros [[<- _]|[_ Hi]]; [done|].
  by apply lookup_empty_Some in Hi.
Qed.

Lemma peer_requests_crash_witness :
  @handle_peer_request toy_channel 1000 (λ _, 0) (zeros 4) (zeros 64) bob_id
    (MkPeerRequestMessage bob_id 20 1000 (zeros 64)) (Sample.no_sessions, Sample.told) = Undef.
Proof.
  apply (@peer_requests_crash toy_channel 1000 (λ _, 0) (zeros 4) (zeros 64) bob_id
    (MkPeerRequestMessage bob_id 20 1000 (zeros 64)) Sample.no_sessions Sample.told).
  - vm_compute. reflexivity.
  - split; [reflexivity|]. split; [vm_compute; discriminate|]. intros n i _ Hn Hi.
    destruct Hn. exact (only_known _ _ _ _ _ Hi).
Defined.

Lemma announced_port_throws_witness :
  ∃ w1 m1, Sample.called Sample.told = Ok (w1, m1) ∧
    @handle_nat_traversal_request toy_channel 1001 (zeros 4) bob_id (MkNATTraversalRequest bob_id 7 1001) (w1, m1) =
    Err (EInvalidArgument "stoi").
Proof.
  destruct (connects (Sample.called Sample.told) bob_id) as (w1 & m1 & E & Hc); [vm_compute; reflexivity|].
  exists w1, m1. split; [exact E|].
  apply (@announced_port_throws toy_crypto toy_channel 1000 (Some (sample_pair 1)) (zeros 4) bob_id
    (new_peer 1000 bob_id (str "10.0.0.2:any")) (str "10.0.0.2") (str "any") (EInvalidArgument "stoi")
    (MkNATTraversalRequest bob_id 7 1001) Sample.no_sessions Sample.told w1 m1);
    [by apply lookup_insert_eq|reflexivity|apply (bool_decide_unpack _); vm_compute; exact I|vm_compute; reflexivity|vm_compute; reflexivity|exact E|exact Hc|reflexivity].
Defined.

Lemma sessions_dangle_witness :
  ∃ w1 m1, Sample.called Sample.told = Ok (w1, m1) ∧
    @send_to_peer toy_channel 2801 (zeros 4) bob_id (str "hello") (cleanup_stale_sessions 2800 w1, m1) = Undef.
Proof.
  destruct (connects (Sample.called Sample.told) bob_id) as (w1 & m1 & E & Hc); [vm_compute; reflexivity|].
  exists w1, m1. split; [exact E|].
  apply (@sessions_dangle toy_crypto toy_channel 1000 (Some (sample_pair 1)) bob_id Sample.no_sessions
    Sample.told w1 m1); [vm_compute; reflexivity|exact E|exact Hc|reflexivity|lia|unfold in_u; lia|unfold in_u; lia].
Defined.

Lemma announcements_unchecked_witness :
  ∃ i, get_peer_info bob_id (discovery (handle_peer_announcement 1000
      (MkPeerAnnouncementMessage bob_id (str "6.6.6.6:1") default_capabilities 1000 (array_fill 64 (to_byte 1)))
      Sample.told)) = Some i ∧ pi_address i = str "6.6.6.6:1".
Proof.
  destruct (announcements_unchecked 1000 bob_id (str "6.6.6.6:1") default_capabilities 1000
    (array_fill 64 (to_byte 1)) Sample.told) as [(i & Hi & Ha & _) _];
    [split; [vm_compute; reflexivity|split; [vm_compute; discriminate|split; [vm_compute; discriminate|discriminate]]]|].
  exists i. split; [exact Hi|exact Ha].
Defined.
