(* ===== verification/Sanitizer.v ===== *)
(** Sanitizing HTML: [ContentRenderer::sanitize_html] of
    src/gateway/content_renderer.cpp.

    Eight passes search for a pattern and rewrite the text around it.  A pass is
    a [scan] with fuel; all but the second end within the length of the text,
    and the second goes round for ever on a frame that is never closed, which
    [sanitize_html] shows as [None]. *)

From Stdlib Require Import Strings.Byte.
From S2P Require Import Prelude Common Text.

(** ** Passes *)

(** [while ((pos = s.find(pat, pos)) != npos) {...}]: the body, at the place
    found, yields the text and the next position, or breaks. *)
Fixpoint scan (fuel : nat) (pat : bytes) (body : nat → bytes → bytes * option nat) (pos : nat) (s : bytes) :
    option bytes :=
  match find pat pos s with
  | None => Some s
  | Some p =>
      match fuel with
      | O => None
      | S fuel =>
          match body p s with
          | (s, Some pos) => scan fuel pat body pos s
          | (s, None) => Some s
          end
      end
  end.

Definition pass (pat : bytes) (body : nat → bytes → bytes * option nat) (s : bytes) : option bytes :=
  scan (S (length s)) pat body 0 s.

Definition quote : byte := "034"%byte.
Definition quotes : bytes := [quote; "'"%byte].

(** A place whose predecessor, if any, satisfies [P]. *)
Definition preceded (P : byte → bool) (p : nat) (s : bytes) : bool :=
  match p with O => true | S p => match s !! p with Some c => P c | None => false end end.

Definition script_tag (p : nat) (s : bytes) : bytes * option nat :=
  if preceded (λ c, negb (is_alnum c)) p s then
    match find (str "</script>") p s with
    | Some e => (erase p (e - p + 9) s, Some p)
    | None => (take p s, None)
    end
  else (s, Some (S p)).

Definition iframe_tag (p : nat) (s : bytes) : bytes * option nat :=
  match find (str "</iframe>") p s with
  | Some e => (erase p (e - p + 9) s, Some p)
  | None =>
      match find_char ">"%byte p s with
      | Some bracket => (erase p (bracket - p + 1) s, Some p)
      | None => (s, Some p)
      end
  end.

Definition dangerous_tags : list bytes := [str "<object"; str "<embed"; str "<applet"].

Definition dangerous_tag (p : nat) (s : bytes) : bytes * option nat :=
  match find_char ">"%byte p s with
  | Some e => (erase p (e - p + 1) s, Some p)
  | None => (s, Some (S p))
  end.

Definition event_attrs : list bytes :=
  [str "onclick"; str "ondblclick"; str "onmousedown"; str "onmouseup"; str "onmouseover"; str "onmouseout";
   str "onmousemove"; str "onmouseenter"; str "onmouseleave"; str "onkeydown"; str "onkeyup"; str "onkeypress";
   str "onload"; str "onunload"; str "onerror"; str "onabort"; str "onblur"; str "onchange"; str "onfocus";
   str "onreset"; str "onselect"; str "onsubmit"; str "onscroll"; str "onresize"; str "ondrag"; str "ondrop";
   str "oncontextmenu"; str "oninput"; str "oninvalid"; str "onsearch"].

(** The end of the quoted text that starts at the first quotation mark from [pos]. *)
Definition quoted_text (pos : nat) (s : bytes) : option (nat * nat) :=
  a ← find_first_of quotes pos s; c ← s !! a; b ← find_char c (S a) s; Some (a, b).

Definition event_attr (p : nat) (s : bytes) : bytes * option nat :=
  if negb (preceded (λ c, is_space c || bool_decide (c = "<"%byte)) p s) then (s, Some (S p))
  else
    match find_char "="%byte p s with
    | Some eq =>
        if (eq - p <? 20)%nat then
          match quoted_text eq s with
          | Some (_, e) => (erase p (e - p + 1) s, Some p)
          | None => (s, Some (S p))
          end
        else (s, Some (S p))
    | None => (s, Some (S p))
    end.

(** The quotation marks around a place; the text between them becomes empty. *)
Definition empty_value (p : nat) (s : bytes) : option bytes :=
  a ← rfind_char quote p s; b ← find_char quote p s;
  Some (insert_at a [quote; quote] (erase a (b - a + 1) s)).

Definition javascript_url (p : nat) (s : bytes) : bytes * option nat :=
  match empty_value p s with
  | Some s => (s, Some p)
  | None => (s, Some (S p))
  end.

Definition data_url (p : nat) (s : bytes) : bytes * option nat :=
  let check_start := if (20 <? p)%nat then (p - 20)%nat else O in
  let context := take (p - check_start + 10) (drop check_start s) in
  match find (str "<img") 0 context, find (str "src=") 0 context with
  | None, None => (default s (empty_value p s), Some (S p))
  | _, _ => (s, Some (S p))
  end.

Definition dangerous_css : list bytes := [str "expression"; str "behavior"; str "javascript:"; str "@import"].

Definition style_attr (p : nat) (s : bytes) : bytes * option nat :=
  match quoted_text (p + 6) s with
  | Some (a, b) =>
      let style_content := take (b - a - 1) (drop (S a) s) in
      if existsb (λ w, bool_decide (is_Some (find w 0 style_content))) dangerous_css
      then (erase p (b - p + 1) s, Some p)
      else (s, Some (S p))
  | None => (s, Some (S p))
  end.

Definition sandbox : bytes := quoted " sandbox=''".

Definition sandbox_attr (p : nat) (s : bytes) : bytes * option nat :=
  match find_char ">"%byte p s with
  | Some e =>
      let tag := take (e - p) (drop p s) in
      (match find (str "sandbox") 0 tag with None => insert_at e sandbox s | Some _ => s end, Some (S p))
  | None => (s, Some (S p))
  end.

(** One pass per pattern, in sequence. *)
Fixpoint passes (pats : list bytes) (body : nat → bytes → bytes * option nat) (s : bytes) : option bytes :=
  match pats with
  | [] => Some s
  | pat :: pats => s ← pass pat body s; passes pats body s
  end.

Definition sanitize_html (html : bytes) : option bytes :=
  s ← pass (str "<script") script_tag html;
  s ← pass (str "<iframe") iframe_tag s;
  s ← passes dangerous_tags dangerous_tag s;
  s ← passes event_attrs event_attr s;
  s ← pass (str "javascript:") javascript_url s;
  s ← pass (str "data:") data_url s;
  s ← pass (str "style=") style_attr s;
  pass (str "<iframe") sandbox_attr s.

(** ** When a pass ends *)

(** Every iteration makes [m], a measure of the text from the position on, smaller. *)
Lemma scan_ends pat body (m : nat → bytes → nat) :
  pat ≠ [] →
  (∀ pos p s, (pos <= p)%nat → (m p s <= m pos s)%nat) →
  (∀ p s s' pos, starts pat (drop p s) = true → (p + length pat <= length s)%nat →
     body p s = (s', Some pos) → (m pos s' < m p s)%nat) →
  ∀ fuel pos s, (m pos s < fuel)%nat → is_Some (scan fuel pat body pos s).
Proof.
  intros Hpat Hmono Hstep fuel. induction fuel as [|fuel IH]; intros pos s Hm; [lia|]. cbn [scan].
  destruct (find pat pos s) as [p|] eqn:E; [|by eexists]. apply find_Some in E as (Hp & Hl & Hs); [|done].
  pose proof (Hmono pos p s Hp). destruct (body p s) as [s' [pos'|]] eqn:Eb; [|by eexists].
  pose proof (Hstep p s s' pos' Hs Hl Eb). apply IH. lia.
Qed.

Definition ahead (pos : nat) (s : bytes) : nat := (length s - pos)%nat.

(** A body that moves on, or shortens what is ahead. *)
Definition advances (pat : bytes) (body : nat → bytes → bytes * option nat) : Prop :=
  pat ≠ [] ∧ ∀ p s s' pos, starts pat (drop p s) = true → (p + length pat <= length s)%nat →
    body p s = (s', Some pos) → (ahead pos s' < ahead p s)%nat.

Lemma pass_ends pat body s : advances pat body → is_Some (pass pat body s).
Proof.
  intros [Hpat Hstep]. apply (scan_ends pat body ahead Hpat); [|exact Hstep|unfold ahead; lia].
  intros pos p s' Hp. unfold ahead. lia.
Qed.

Lemma passes_end pats body s : Forall (λ pat, advances pat body) pats → is_Some (passes pats body s).
Proof.
  intros Hp. revert s. induction Hp as [|pat pats Hpat _ IH]; intros s; [by eexists|]. cbn [passes].
  destruct (pass_ends pat body s Hpat) as [s' ->]. apply IH.
Qed.

Lemma ahead_next p s : (p < length s)%nat → (ahead (S p) s < ahead p s)%nat.
Proof. unfold ahead. lia. Qed.

Lemma ahead_erase p n s : (0 < n)%nat → (p + n <= length s)%nat → (ahead p (erase p n s) < ahead p s)%nat.
Proof. intros. unfold ahead. rewrite length_erase by done. lia. Qed.

Lemma script_advances : advances (str "<script") script_tag.
Proof.
  split; [done|]. intros p s s' pos _ Hl. change (length (str "<script")) with 7%nat in Hl. unfold script_tag.
  destruct (preceded _ p s); [|intros [= <- <-]; apply ahead_next; lia].
  destruct (find (str "</script>") p s) as [e|] eqn:Ee; [|done]. intros [= <- <-].
  apply find_Some in Ee as (? & He & _); [|done]. change (length (str "</script>")) with 9%nat in He.
  apply ahead_erase; lia.
Qed.

Lemma tag_advances pat : pat ≠ [] → advances pat dangerous_tag.
Proof.
  intros Hpat. split; [done|]. intros p s s' pos _ Hl. unfold dangerous_tag.
  assert (0 < length pat)%nat by (destruct pat; [done|cbn; lia]).
  destruct (find_char _ p s) as [e|] eqn:Ee; intros [= <- <-]; [|apply ahead_next; lia].
  apply find_char_Some in Ee as (? & _). apply ahead_erase; lia.
Qed.

Lemma quoted_text_range pos s a b :
  quoted_text pos s = Some (a, b) → (pos <= a < b)%nat ∧ (b < length s)%nat.
Proof.
  unfold quoted_text. destruct (find_first_of quotes pos s) as [a'|] eqn:Ea; [|done]. cbn.
  destruct (s !! a') as [c|]; [|done]. cbn. destruct (find_char c (S a') s) as [b'|] eqn:Eb; [|done].
  intros [= <- <-]. apply find_first_Some in Ea. apply find_char_Some in Eb as (? & _). lia.
Qed.

Lemma event_advances pat : pat ≠ [] → advances pat event_attr.
Proof.
  intros Hpat. split; [done|]. intros p s s' pos _ Hl. unfold event_attr.
  assert (0 < length pat)%nat by (destruct pat; [done|cbn; lia]).
  assert (ahead (S p) s < ahead p s)%nat by (apply ahead_next; lia).
  destruct (negb _); [by intros [= <- <-]|].
  destruct (find_char _ p s) as [eq|] eqn:Ee; [|by intros [= <- <-]].
  destruct (_ <? 20)%nat; [|by intros [= <- <-]].
  destruct (quoted_text eq s) as [[a b]|] eqn:Eq; intros [= <- <-]; [|done].
  apply quoted_text_range in Eq. apply find_char_Some in Ee as (? & _). apply ahead_erase; lia.
Qed.

Lemma style_advances : advances (str "style=") style_attr.
Proof.
  split; [done|]. intros p s s' pos _ Hl. change (length (str "style=")) with 6%nat in Hl. unfold style_attr.
  assert (ahead (S p) s < ahead p s)%nat by (apply ahead_next; lia).
  destruct (quoted_text (p + 6) s) as [[a b]|] eqn:Eq; [|by intros [= <- <-]].
  apply quoted_text_range in Eq. destruct (existsb _ _); intros [= <- <-]; [|done]. apply ahead_erase; lia.
Qed.

(** A pattern without quotation marks lies strictly between the two around it. *)
Lemma empty_value_length pat p s s' :
  pat ≠ [] → quote ∉ pat → starts pat (drop p s) = true → empty_value p s = Some s' →
  (length s' + length pat <= length s)%nat.
Proof.
  intros Hpat Hq Hs. unfold empty_value.
  destruct (rfind_char quote p s) as [a|] eqn:Ea; [|done]. cbn.
  destruct (find_char quote p s) as [b|] eqn:Eb; [|done]. cbn. intros [= <-].
  apply rfind_char_Some in Ea as [Ha Ha']. apply find_char_Some in Eb as (Hb & Hb' & _).
  assert (Hin : ∀ j, (p <= j < p + length pat)%nat → s !! j ≠ Some quote).
  { intros j Hj Hc. destruct (lookup_lt_is_Some_2 pat (j - p)) as [c Hlc]; [lia|].
    pose proof (starts_lookup pat p s (j - p) c Hs Hlc) as E. replace (p + (j - p))%nat with j in E by lia.
    apply Hq, list_elem_of_lookup. exists (j - p)%nat. congruence. }
  assert (0 < length pat)%nat by (destruct pat; [done|cbn; lia]).
  assert (a ≠ p) by (intros ->; by apply (Hin p); [lia|]).
  assert (p + length pat <= b)%nat.
  { destruct (decide (p + length pat <= b)%nat); [done|]. by destruct (Hin b); [lia|]. }
  rewrite length_insert_at, length_erase by lia. cbn. lia.
Qed.

Lemma javascript_advances : advances (str "javascript:") javascript_url.
Proof.
  split; [done|]. intros p s s' pos Hs Hl. change (length (str "javascript:")) with 11%nat in Hl. unfold javascript_url.
  destruct (empty_value p s) as [t|] eqn:E; intros [= <- <-]; [|apply ahead_next; lia].
  apply (empty_value_length (str "javascript:")) in E;
    [|done|by apply (bool_decide_unpack _); vm_compute|done]. unfold ahead. cbn in E. lia.
Qed.

Lemma data_advances : advances (str "data:") data_url.
Proof.
  split; [done|]. intros p s s' pos Hs Hl. change (length (str "data:")) with 5%nat in Hl. unfold data_url.
  assert (ahead (S p) s < ahead p s)%nat by (apply ahead_next; lia).
  destruct (find _ 0 _); [by intros [= <- <-]|]. destruct (find _ 0 _); [by intros [= <- <-]|].
  intros [= <- <-]. destruct (empty_value p s) as [t|] eqn:E; [|done]. cbn [default].
  apply (empty_value_length (str "data:")) in E;
    [|done|by apply (bool_decide_unpack _); vm_compute|done]. unfold ahead in *. cbn in *. lia.
Qed.

(** The number of [<] from a position on; the text inserted has none. *)
Definition tags_ahead (pos : nat) (s : bytes) : nat := length (filter (λ c, c = "<"%byte) (drop pos s)).

Lemma tags_ahead_drop k pos s : (tags_ahead (pos + k) s <= tags_ahead pos s)%nat.
Proof.
  unfold tags_ahead. rewrite <- drop_drop. rewrite <- (take_drop k (drop pos s)) at 2.
  rewrite list.filter_app, length_app. lia.
Qed.

Lemma sandbox_ends s : is_Some (pass (str "<iframe") sandbox_attr s).
Proof.
  apply (scan_ends _ _ tags_ahead); [done| | |].
  - intros pos p s' Hp. replace p with (pos + (p - pos))%nat by lia. apply tags_ahead_drop.
  - intros p s0 s' pos Hs Hl. change (length (str "<iframe")) with 7%nat in Hl.
    assert (s0 !! p = Some "<"%byte) as Hlt.
    { rewrite <- (Nat.add_0_r p). by apply (starts_lookup (str "<iframe") p s0 0). }
    assert (Hstep : (tags_ahead (S p) s0 < tags_ahead p s0)%nat).
    { unfold tags_ahead. rewrite (drop_S _ _ _ Hlt), filter_cons_True by done. cbn. lia. }
    unfold sandbox_attr. destruct (find_char _ p s0) as [e|] eqn:Ee; intros [= <- <-]; [|done].
    destruct (find _ 0 _); [done|].
    apply find_char_Some in Ee as (He & He' & _).
    assert (e ≠ p) by congruence.
    enough (tags_ahead (S p) (insert_at e sandbox s0) = tags_ahead (S p) s0) as -> by done.
    unfold tags_ahead, insert_at. rewrite drop_app, length_take, Nat.min_l by lia.
    replace (S p - e)%nat with O by lia. rewrite drop_0.
    rewrite !list.filter_app. assert (filter (λ c, c = "<"%byte) sandbox = []) as -> by done. cbn [app].
    rewrite <- list.filter_app. rewrite skipn_firstn_comm.
    replace (drop e s0) with (drop (e - S p) (drop (S p) s0)) by (rewrite drop_drop; f_equal; lia).
    by rewrite take_drop.
  - unfold tags_ahead. rewrite drop_0. pose proof (length_filter (λ c, c = "<"%byte) s). lia.
Qed.

(** ** Frames that are never closed *)

Definition frame : bytes := str "<iframe".

(** A frame without a [>] behind it. *)
Definition unclosed_from (pos : nat) (s : bytes) : Prop :=
  ∃ p, (pos <= p)%nat ∧ starts frame (drop p s) = true ∧ ">"%byte ∉ drop p s.

Definition unclosed (s : bytes) : Prop := unclosed_from 0 s.

(** What an iteration erases: the frame, up to a [>]. *)
Lemma iframe_cases p s :
  (p <= length s)%nat →
  (∃ n, iframe_tag p s = (erase p n s, Some p) ∧ (0 < n)%nat ∧ (p + n <= length s)%nat ∧
        s !! (p + n - 1)%nat = Some ">"%byte) ∨
  (iframe_tag p s = (s, Some p) ∧ ">"%byte ∉ drop p s).
Proof.
  intros Hp. unfold iframe_tag. destruct (find (str "</iframe>") p s) as [e|] eqn:Ee.
  - left. exists (e - p + 9)%nat. split; [done|]. apply find_Some in Ee as (? & Hl & Hs); [|done].
    change (length (str "</iframe>")) with 9%nat in Hl. split; [lia|]. split; [lia|].
    replace (p + (e - p + 9) - 1)%nat with (e + 8)%nat by lia. by apply (starts_lookup (str "</iframe>") e s 8).
  - destruct (find_char _ p s) as [b|] eqn:Eb.
    + left. exists (b - p + 1)%nat. split; [done|]. apply find_char_Some in Eb as (? & Hb & _).
      split; [lia|]. split; [lia|]. by replace (p + (b - p + 1) - 1)%nat with b by lia.
    + right. split; [done|]. intros [j Hj]%list_elem_of_lookup. rewrite lookup_drop in Hj.
      by apply (find_char_None _ p s Hp Eb (p + j)); [lia|].
Qed.

Lemma close_in_drop p j s : s !! j = Some ">"%byte → (p <= j)%nat → ">"%byte ∈ drop p s.
Proof.
  intros Hj Hp. apply list_elem_of_lookup. exists (j - p)%nat. rewrite lookup_drop.
  by replace (p + (j - p))%nat with j by lia.
Qed.

Lemma iframe_hangs fuel pos s : unclosed_from pos s → scan fuel frame iframe_tag pos s = None.
Proof.
  revert pos s. induction fuel as [|fuel IH]; intros pos s (p & Hp & Hs & Hno); cbn [scan];
    destruct (find_at frame pos s p Hp Hs) as (q & -> & Hq); [done..|].
  assert (p < length s)%nat as Hlt.
  { destruct (decide (p < length s)%nat); [done|]. rewrite drop_ge in Hs by lia. done. }
  destruct (iframe_cases q s) as [(n & -> & Hn & Hl & Hc)|[-> _]]; [lia| |].
  - assert (q + n <= p)%nat.
    { destruct (decide (q + n <= p)%nat); [done|]. destruct Hno. eapply close_in_drop; [exact Hc|]. lia. }
    apply IH. exists (p - n)%nat. rewrite drop_erase by lia. replace (p - n + n)%nat with p by lia.
    split; [lia|done].
  - apply IH. exists p. split; [lia|done].
Qed.

Lemma iframe_ends fuel pos s :
  (ahead pos s < fuel)%nat → ¬ unclosed_from pos s → is_Some (scan fuel frame iframe_tag pos s).
Proof.
  revert pos s. induction fuel as [|fuel IH]; intros pos s Hf Hok; [lia|]. cbn [scan].
  destruct (find frame pos s) as [p|] eqn:E; [|by eexists].
  apply find_Some in E as (Hp & Hl & Hs); [|done]. change (length frame) with 7%nat in Hl.
  destruct (iframe_cases p s) as [(n & -> & Hn & Hpn & _)|[_ Hno]]; [lia| |].
  - apply IH.
    + pose proof (ahead_erase p n s Hn Hpn). unfold ahead in *. lia.
    + intros (q & Hq & Hsq & Hnq). rewrite drop_erase in Hsq, Hnq by lia.
      destruct Hok. exists (q + n)%nat. split; [lia|done].
  - destruct Hok. by exists p.
Qed.

Lemma iframe_pass s : pass frame iframe_tag s = None ↔ unclosed s.
Proof.
  split; [|apply iframe_hangs]. intros E. destruct (decide (Exists (λ p, starts frame (drop p s) = true ∧ ">"%byte ∉ drop p s) (seq 0 (length s)))) as [Hex|Hno].
  - apply list.Exists_exists in Hex as (p & _ & Hs & Hn). exists p. split; [lia|done].
  - assert (is_Some (pass frame iframe_tag s)) as [r Hr]; [|congruence].
    apply iframe_ends; [unfold ahead; lia|]. intros (p & _ & Hs & Hn). apply Hno, list.Exists_exists. exists p.
    split; [|done]. apply elem_of_seq. destruct (decide (p < length s)%nat); [lia|].
    rewrite drop_ge in Hs by lia. done.
Qed.

Lemma tags_end s : is_Some (passes dangerous_tags dangerous_tag s).
Proof. apply passes_end. unfold dangerous_tags. repeat constructor; apply tag_advances; done. Qed.

Lemma events_end s : is_Some (passes event_attrs event_attr s).
Proof. apply passes_end. unfold event_attrs. repeat (constructor; [apply event_advances; done|]). constructor. Qed.

(** C27: the removal of scripts ends on every input, and the sanitizer as a whole ends
    exactly when, after that, no opening iframe tag is left without its end; on such a
    tag the loop makes no progress, however long it runs. *)
Theorem sanitizer_hangs_exactly html :
  ∃ s, pass (str "<script") script_tag html = Some s ∧
    (sanitize_html html = None ↔ unclosed s) ∧
    (unclosed s → ∀ fuel, scan fuel frame iframe_tag 0 s = None) ∧
    (¬ occurs (str "<script") html → s = html).
Proof.
  destruct (pass_ends _ _ html script_advances) as [s Es]. exists s. split; [done|]. split; [|split].
  - unfold sanitize_html. rewrite Es. cbn [mbind option_bind]. rewrite <- iframe_pass. unfold frame.
    destruct (pass (str "<iframe") iframe_tag s) as [s1|]; [|done]. cbn [mbind option_bind].
    destruct (tags_end s1) as [s2 ->]. cbn [mbind option_bind].
    destruct (events_end s2) as [s3 ->]. cbn [mbind option_bind].
    destruct (pass_ends _ _ s3 javascript_advances) as [s4 ->]. cbn [mbind option_bind].
    destruct (pass_ends _ _ s4 data_advances) as [s5 ->]. cbn [mbind option_bind].
    destruct (pass_ends _ _ s5 style_advances) as [s6 ->]. cbn [mbind option_bind].
    destruct (sandbox_ends s6) as [s7 ->]. done.
  - intros Hu fuel. by apply iframe_hangs.
  - intros Hno. unfold pass in Es. cbn [scan] in Es. rewrite find_absent in Es by done. by injection Es.
Qed.

(** ** Scripts that stay *)

Definition other_patterns : list bytes :=
  [frame] ++ dangerous_tags ++ event_attrs ++ [str "javascript:"; str "data:"; str "style="].

Lemma pass_absent pat body s : ¬ occurs pat s → pass pat body s = Some s.
Proof. intros Hno. unfold pass. cbn [scan]. by rewrite find_absent. Qed.

Lemma passes_absent pats body s : (∀ pat, pat ∈ pats → ¬ occurs pat s) → passes pats body s = Some s.
Proof.
  induction pats as [|pat pats IH]; intros Hno; [done|]. cbn [passes]. rewrite pass_absent by (apply Hno; by left).
  apply IH. intros q Hq. apply Hno. by right.
Qed.

(** Every script is glued to a letter or digit. *)
Definition glued (s : bytes) : Prop :=
  ∀ p, starts (str "<script") (drop p s) = true → preceded (λ c, negb (is_alnum c)) p s = false.

Lemma glued_stays fuel pos s : (ahead pos s < fuel)%nat → glued s → scan fuel (str "<script") script_tag pos s = Some s.
Proof.
  intros Hf Hg. revert pos Hf. induction fuel as [|fuel IH]; intros pos Hf; [lia|]. cbn [scan].
  destruct (find (str "<script") pos s) as [p|] eqn:E; [|done].
  apply find_Some in E as (Hp & Hl & Hs); [|done]. change (length (str "<script")) with 7%nat in Hl.
  unfold script_tag. rewrite (Hg p Hs). apply IH. unfold ahead in *. lia.
Qed.

(** A page is returned unchanged, scripts and all, when every opening script tag directly
    follows a letter or a digit and no other forbidden pattern occurs. *)
Theorem scripts_survive html :
  glued html → (∀ pat, pat ∈ other_patterns → ¬ occurs pat html) → sanitize_html html = Some html.
Proof.
  intros Hg Hno. unfold sanitize_html.
  assert (pass (str "<script") script_tag html = Some html) as ->
    by (apply glued_stays; [unfold ahead; lia|done]).
  cbn [mbind option_bind]. unfold other_patterns in Hno. setoid_rewrite elem_of_app in Hno.
  setoid_rewrite elem_of_app in Hno. setoid_rewrite elem_of_app in Hno.
  rewrite (pass_absent frame) by (apply Hno; left; apply list_elem_of_here). cbn [mbind option_bind].
  rewrite passes_absent by (intros pat Hp; apply Hno; by right; left). cbn [mbind option_bind].
  rewrite passes_absent by (intros pat Hp; apply Hno; by right; right; left). cbn [mbind option_bind].
  rewrite pass_absent by (apply Hno; do 3 right; apply list_elem_of_here). cbn [mbind option_bind].
  rewrite pass_absent by (apply Hno; do 3 right; apply list_elem_of_further, list_elem_of_here).
  cbn [mbind option_bind].
  rewrite pass_absent by (apply Hno; do 3 right; do 2 apply list_elem_of_further; apply list_elem_of_here).
  cbn [mbind option_bind]. apply pass_absent, Hno. left. apply list_elem_of_here.
Qed.

(** ** Some pages *)

(** A boolean form of the hypotheses, for texts at hand. *)
Definition absentb (pat s : bytes) : bool := bool_decide (search (starts pat) s = None).

Lemma absent_true pat s : absentb pat s = true → ¬ occurs pat s.
Proof.
  intros E%bool_decide_eq_true [p Hp]. pose proof (search_spec (starts pat) s) as H. rewrite E in H.
  by rewrite H in Hp.
Qed.

Definition gluedb (s : bytes) : bool :=
  forallb (λ p, negb (starts (str "<script") (drop p s)) || negb (preceded (λ c, negb (is_alnum c)) p s))
    (seq 0 (length s)).

Lemma glued_true s : gluedb s = true → glued s.
Proof.
  intros E p Hp. unfold gluedb in E. rewrite forallb_forall in E.
  assert (p < length s)%nat as Hl.
  { destruct (decide (p < length s)%nat); [done|]. rewrite drop_ge in Hp by lia. done. }
  specialize (E p). rewrite Hp in E. cbn in E. apply negb_true_iff, E, in_seq. lia.
Qed.

(** A word, then a script; and a script in capitals. *)
Definition loud_page : bytes := str "hello<script>steal()</script><SCRIPT>steal()</SCRIPT>".

Definition nested_page : bytes := str "<p><<script></script>script>steal()</script></p>".

Definition stuck_page : bytes := str "<p>see <iframe src=x".

Lemma scripts_survive_witness : sanitize_html loud_page = Some loud_page.
Proof.
  apply scripts_survive; [apply glued_true; vm_compute; reflexivity|].
  intros pat Hp. apply absent_true. revert pat Hp. apply list.Forall_forall.
  assert (forallb (λ pat, absentb pat loud_page) other_patterns = true) as E by (vm_compute; reflexivity).
  rewrite forallb_forall in E. apply list.Forall_forall. intros pat Hp. by apply E, list_elem_of_In.
Defined.

Lemma sanitizer_hangs_exactly_witness :
  sanitize_html stuck_page = None ∧ ∀ fuel, scan fuel frame iframe_tag 0 stuck_page = None.
Proof.
  destruct (sanitizer_hangs_exactly stuck_page) as (s & _ & Hn & Hf & Hs).
  assert (s = stuck_page) as -> by (apply Hs, absent_true; vm_compute; reflexivity).
  assert (unclosed stuck_page) as Hu.
  { exists 7%nat. split; [lia|]. split; [vm_compute; reflexivity|apply (bool_decide_unpack _); vm_compute; exact I]. }
  split; [by apply Hn|by apply Hf].
Defined.

(** Removing the inner script completes the outer one. *)
Example nested_scripts : sanitize_html nested_page = Some (str "<p><script>steal()</script></p>").
Proof. vm_compute. reflexivity. Qed.
