(* ===== verification/Renderer.v ===== *)
(** Serving content: [ContentRenderer] and [ContentHttpResponse] of
    include/cashew/gateway/content_renderer.hpp and
    src/gateway/content_renderer.cpp.

    The clock is read once per operation, as [now], in its ticks (nanoseconds);
    [order] lists the cache in the order its hash table is iterated.  The fetch
    callback is a function of the hash; an exception of it is an [Err].  A call
    that never returns ([Sanitizer]) makes its caller [Undef].  Members of the
    configuration that nothing reads are left out. *)

From Stdlib Require Import Strings.Byte.
From S2P Require Import Prelude Common Crypto Floats Doubles Integrity Text Sanitizer.

Inductive ContentType :=
  | HTML | JAVASCRIPT | CSS | IMAGE_PNG | IMAGE_JPEG | IMAGE_GIF | IMAGE_WEBP | VIDEO_MP4 | VIDEO_WEBM
  | AUDIO_MP3 | AUDIO_OGG | JSON | TEXT | BINARY | UNKNOWN.

#[export] Instance ContentType_eq_dec : EqDecision ContentType.
Proof. solve_decision. Defined.

Record ContentMetadata := MkContentMetadata {
  md_content_hash : Hash256;
  md_type : ContentType;
  size_bytes : Z;
  mime_type : bytes;
  last_modified : Z;
  is_cacheable : bool;
  md_filename : option bytes
}.

Record CacheEntry := MkCacheEntry {
  ce_metadata : ContentMetadata;
  ce_data : bytes;
  cached_at : Z;
  last_accessed : Z;
  access_count : Z
}.

Record ContentChunk := MkContentChunk {
  chunk_offset : Z;
  chunk_length : Z;
  chunk_data : bytes;
  is_final : bool
}.

Record ContentRendererConfig := MkContentRendererConfig {
  max_cache_size_bytes : Z;
  max_cached_items : Z;
  cache_ttl : Z;
  chunk_size : Z;
  enable_range_requests : bool;
  cfg_sanitize_html : bool
}.

Definition default_renderer_config : ContentRendererConfig :=
  MkContentRendererConfig (100 * 1024 * 1024) 1000 3600 (64 * 1024) true true.

Record CacheStatistics := MkCacheStatistics {
  total_items : Z;
  total_bytes : Z;
  hit_count : Z;
  miss_count : Z;
  hit_ratio : float;
  eviction_count : Z
}.

Record RenderResult := MkRenderResult {
  rr_metadata : ContentMetadata;
  rr_data : bytes;
  is_partial : bool;
  range_start : Z;
  range_end : Z
}.

Record ContentRenderer := MkContentRenderer {
  renderer_config : ContentRendererConfig;
  fetch_callback : option (Hash256 → outcome (option bytes));
  cache : gmap Hash256 CacheEntry;
  cache_stats : CacheStatistics
}.

Definition new_renderer (c : ContentRendererConfig) : ContentRenderer :=
  MkContentRenderer c None ∅ (MkCacheStatistics 0 0 0 0 f_zero 0).

Definition set_fetch_callback (f : Hash256 → outcome (option bytes)) (r : ContentRenderer) : ContentRenderer :=
  MkContentRenderer (renderer_config r) (Some f) (cache r) (cache_stats r).

Definition with_cache (c : gmap Hash256 CacheEntry) (r : ContentRenderer) : ContentRenderer :=
  MkContentRenderer (renderer_config r) (fetch_callback r) c (cache_stats r).

Definition note_hit (r : ContentRenderer) : ContentRenderer :=
  let s := cache_stats r in
  MkContentRenderer (renderer_config r) (fetch_callback r) (cache r)
    (MkCacheStatistics (total_items s) (total_bytes s) (u64 (hit_count s + 1)) (miss_count s) (hit_ratio s)
       (eviction_count s)).

Definition note_miss (r : ContentRenderer) : ContentRenderer :=
  let s := cache_stats r in
  MkContentRenderer (renderer_config r) (fetch_callback r) (cache r)
    (MkCacheStatistics (total_items s) (total_bytes s) (hit_count s) (u64 (miss_count s + 1)) (hit_ratio s)
       (eviction_count s)).

Definition note_eviction (r : ContentRenderer) : ContentRenderer :=
  let s := cache_stats r in
  MkContentRenderer (renderer_config r) (fetch_callback r) (cache r)
    (MkCacheStatistics (total_items s) (total_bytes s) (hit_count s) (miss_count s) (hit_ratio s)
       (u64 (eviction_count s + 1))).

(** ** Types *)

Definition PNG_MAGIC : bytes := to_byte <$> [137; 80; 78; 71].
Definition JPEG_MAGIC : bytes := to_byte <$> [255; 216; 255].
Definition GIF_MAGIC : bytes := to_byte <$> [71; 73; 70].
Definition WEBP_MAGIC : bytes := to_byte <$> [82; 73; 70; 70].

Definition has_extension (filename ext : bytes) : bool :=
  (len ext <=? len filename) && bool_decide (drop (length filename - length ext) filename = ext).

(** The first extension the name has. *)
Definition extension_types : list (list bytes * ContentType) :=
  [([str ".html"; str ".htm"], HTML); ([str ".js"], JAVASCRIPT); ([str ".css"], CSS); ([str ".json"], JSON);
   ([str ".txt"], TEXT); ([str ".mp4"], VIDEO_MP4); ([str ".webm"], VIDEO_WEBM); ([str ".mp3"], AUDIO_MP3);
   ([str ".ogg"], AUDIO_OGG)].

Definition type_of_name (fname : bytes) : option ContentType :=
  snd <$> List.find (λ et, existsb (has_extension fname) et.1) extension_types.

Definition is_text_byte (c : byte) : bool :=
  (32 <=? byte_val c) || (byte_val c =? 10) || (byte_val c =? 13) || (byte_val c =? 9).

Definition looks_like_text (data : bytes) : bool :=
  (0 <? len data) && (len data <? 1024) && forallb is_text_byte data.

Definition detect_content_type (data : bytes) (filename : option bytes) : ContentType :=
  if starts PNG_MAGIC data then IMAGE_PNG
  else if starts JPEG_MAGIC data then IMAGE_JPEG
  else if starts GIF_MAGIC data then IMAGE_GIF
  else if starts WEBP_MAGIC data then IMAGE_WEBP
  else match filename ≫= type_of_name with
       | Some t => t
       | None => if looks_like_text data then TEXT else BINARY
       end.

Definition get_mime_type (t : ContentType) : bytes :=
  str match t with
      | HTML => "text/html; charset=utf-8"
      | JAVASCRIPT => "application/javascript; charset=utf-8"
      | CSS => "text/css; charset=utf-8"
      | IMAGE_PNG => "image/png"
      | IMAGE_JPEG => "image/jpeg"
      | IMAGE_GIF => "image/gif"
      | IMAGE_WEBP => "image/webp"
      | VIDEO_MP4 => "video/mp4"
      | VIDEO_WEBM => "video/webm"
      | AUDIO_MP3 => "audio/mpeg"
      | AUDIO_OGG => "audio/ogg"
      | JSON => "application/json; charset=utf-8"
      | TEXT => "text/plain; charset=utf-8"
      | BINARY | UNKNOWN => "application/octet-stream"
      end%string.

(** The name of the content is not passed on. *)
Definition extract_metadata (now : Z) (h : Hash256) (data : bytes) : ContentMetadata :=
  let t := detect_content_type data None in
  MkContentMetadata h t (len data) (get_mime_type t) now true None.

(** ** The cache *)

Section Cache.
Context (order : gmap Hash256 CacheEntry → list (Hash256 * CacheEntry)).

(** The first of those that were accessed longest ago. *)
Definition older (best x : Hash256 * CacheEntry) : Hash256 * CacheEntry :=
  if last_accessed x.2 <? last_accessed best.2 then x else best.

Definition evict_lru (r : ContentRenderer) : ContentRenderer :=
  match order (cache r) with
  | [] => r
  | (first :: _) as entries =>
      let lru := foldl older first entries in note_eviction (with_cache (delete lru.1 (cache r)) r)
  end.

Definition cached_bytes (r : ContentRenderer) : Z :=
  foldl (λ total e, u64 (total + len (ce_data e.2))) 0 (order (cache r)).

(** One entry makes room, whatever the size of the data. *)
Definition add_to_cache (now : Z) (h : Hash256) (data : bytes) (r : ContentRenderer) : ContentRenderer :=
  let c := renderer_config r in
  let r :=
    if (max_cache_size_bytes c <? u64 (cached_bytes r + len data)) ||
       (max_cached_items c <=? Z.of_nat (size (cache r)))
    then evict_lru r else r in
  with_cache (<[h := MkCacheEntry (extract_metadata now h data) data now now 0]> (cache r)) r.

Definition get_from_cache (now : Z) (h : Hash256) (r : ContentRenderer) : option CacheEntry * ContentRenderer :=
  match cache r !! h with
  | None => (None, r)
  | Some e =>
      let e := MkCacheEntry (ce_metadata e) (ce_data e) (cached_at e) now (u64 (access_count e + 1)) in
      (Some e, with_cache (<[h := e]> (cache r)) r)
  end.

Definition is_cached (h : Hash256) (r : ContentRenderer) : bool := bool_decide (is_Some (cache r !! h)).

Definition invalidate_cache (h : option Hash256) (r : ContentRenderer) : ContentRenderer :=
  with_cache (match h with Some h => delete h (cache r) | None => ∅ end) r.

(** Whole seconds of a difference of ticks. *)
Definition tick_seconds (ticks : Z) : Z := Z.quot ticks 1000000000.

Definition cleanup_expired (now : Z) (r : ContentRenderer) : ContentRenderer :=
  with_cache (filter (λ e, (cache_ttl (renderer_config r) <? tick_seconds (now - cached_at e.2)) = false) (cache r)) r.

Definition get_cache_stats (r : ContentRenderer) : CacheStatistics :=
  let s := cache_stats r in
  let total_requests := u64 (hit_count s + miss_count s) in
  MkCacheStatistics (Z.of_nat (size (cache r))) (cached_bytes r) (hit_count s) (miss_count s)
    (if 0 <? total_requests then ddiv (double_of (hit_count s)) (double_of total_requests) else hit_ratio s)
    (eviction_count s).

(** ** Rendering *)

Definition fetch_from_network (h : Hash256) (r : ContentRenderer) : outcome (option bytes) :=
  match fetch_callback r with
  | None => Ok None
  | Some fetch => match fetch h with Err _ => Ok None | res => res end
  end.

Section Rendering.
Context `{Crypto}.

(** The data, from the cache or from the network, verified only in the second case. *)
Definition obtain (now : Z) (h : Hash256) (r : ContentRenderer) : outcome (option bytes * ContentRenderer) :=
  match get_from_cache now h r with
  | (Some e, r) => Ok (Some (ce_data e), note_hit r)
  | (None, r) =>
      fetched ← fetch_from_network h r;
      Ok (match fetched with
          | None => (None, note_miss r)
          | Some data =>
              if is_valid (verify_content data h)
              then (Some data, note_miss (add_to_cache now h data r))
              else (None, note_miss r)
          end)
  end.

Definition clean (c : ContentRendererConfig) (t : ContentType) (data : bytes) : outcome bytes :=
  if cfg_sanitize_html c && bool_decide (t = HTML) then
    match sanitize_html data with Some d => Ok d | None => Undef end
  else Ok data.

Definition render_content (now : Z) (h : Hash256) (range : option (Z * Z)) (r : ContentRenderer) :
    outcome (option RenderResult * ContentRenderer) :=
  got ← obtain now h r;
  let '(found, r) := got in
  match found with
  | None => Ok (None, r)
  | Some data =>
      let metadata := extract_metadata now h data in
      let c := renderer_config r in
      match (if enable_range_requests c then range else None) with
      | Some (first, last) =>
          if (len data <=? first) || (len data <=? last) || (last <? first) then Ok (None, r)
          else
            d ← clean c (md_type metadata) (sub data first (last + 1 - first));
            Ok (Some (MkRenderResult metadata d true first last), r)
      | None =>
          d ← clean c (md_type metadata) data;
          Ok (Some (MkRenderResult metadata d false 0 0), r)
      end
  end.

(** The loop over [offset]; a chunk size of zero never advances. *)
Fixpoint stream_from (fuel : nat) (chunk_size : Z) (data : bytes) (offset : Z) : option (list ContentChunk) :=
  if offset <? len data then
    match fuel with
    | O => None
    | S fuel =>
        let n := Z.min chunk_size (len data - offset) in
        rest ← stream_from fuel chunk_size data (offset + n);
        Some (MkContentChunk offset n (sub data offset n) (len data <=? offset + n) :: rest)
    end
  else Some [].

(** The chunks passed to the callback; [None] when the loop never ends.  The
    number of chunks is computed afterwards, for the log. *)
Definition stream_content (now : Z) (h : Hash256) (r : ContentRenderer) :
    outcome (bool * option (list ContentChunk) * ContentRenderer) :=
  got ← render_content now h None r;
  let '(result, r) := got in
  match result with
  | None => Ok (false, Some [], r)
  | Some result =>
      let n := chunk_size (renderer_config r) in
      let chunks := stream_from (length (rr_data result)) n (rr_data result) 0 in
      if bool_decide (is_Some chunks) && (n =? 0) then Undef else Ok (true, chunks, r)
  end.

(** What is fetched here is not verified. *)
Definition prefetch (now : Z) (h : Hash256) (r : ContentRenderer) : outcome (bool * ContentRenderer) :=
  if is_cached h r then Ok (true, r)
  else
    fetched ← fetch_from_network h r;
    Ok (match fetched with
        | None => (false, r)
        | Some data => (true, add_to_cache now h data r)
        end).

End Rendering.
End Cache.

(** ** Responses *)

Record ContentHttpResponse := MkContentHttpResponse {
  status_code : Z;
  chr_headers : gmap bytes bytes;
  chr_body : bytes
}.

Definition etag (h : Hash256) : bytes := [quote] ++ hash_to_hex h ++ [quote].

Definition from_render_result (include_content_length : bool) (result : RenderResult) : ContentHttpResponse :=
  let m := rr_metadata result in
  let headers : gmap bytes bytes := {[str "Content-Type" := mime_type m]} in
  let headers := if include_content_length then <[str "Content-Length" := dec (len (rr_data result))]> headers else headers in
  MkContentHttpResponse 200
    (if is_cacheable m
     then <[str "ETag" := etag (md_content_hash m)]> (<[str "Cache-Control" := str "public, max-age=3600"]> headers)
     else <[str "Cache-Control" := str "no-cache, no-store, must-revalidate"]> headers)
    (rr_data result).

Definition content_not_found : ContentHttpResponse :=
  let body := quoted "{'error': 'Content not found'}" in
  MkContentHttpResponse 404
    (<[str "Content-Length" := dec (len body)]> {[str "Content-Type" := str "application/json"]}) body.

Definition partial_content (result : RenderResult) (total_size : Z) : ContentHttpResponse :=
  MkContentHttpResponse 206
    (<[str "Accept-Ranges" := str "bytes"]>
      (<[str "Content-Range" := str "bytes " ++ dec (range_start result) ++ str "-" ++ dec (range_end result) ++
                                str "/" ++ dec total_size]>
        (<[str "Content-Length" := dec (len (rr_data result))]>
          {[str "Content-Type" := mime_type (rr_metadata result)]})))
    (rr_data result).

Definition range_not_satisfiable (total_size : Z) : ContentHttpResponse :=
  MkContentHttpResponse 416 {[str "Content-Range" := str "bytes */" ++ dec total_size]} [].

(** ** What a renderer goes through *)

Inductive renderer_op :=
  | OpSetCallback (f : Hash256 → outcome (option bytes))
  | OpRender (now : Z) (h : Hash256) (range : option (Z * Z))
  | OpStream (now : Z) (h : Hash256)
  | OpPrefetch (now : Z) (h : Hash256)
  | OpInvalidate (h : option Hash256)
  | OpCleanup (now : Z).

Definition is_prefetch (op : renderer_op) : bool := match op with OpPrefetch _ _ => true | _ => false end.

(** The order lists the entries of the cache, each once. *)
Definition lists_cache (order : gmap Hash256 CacheEntry → list (Hash256 * CacheEntry)) : Prop :=
  ∀ m, order m ≡ₚ map_to_list m.

Section Runs.
Context `{Crypto} (order : gmap Hash256 CacheEntry → list (Hash256 * CacheEntry)).

Definition renderer_step (op : renderer_op) (r : ContentRenderer) : outcome ContentRenderer :=
  match op with
  | OpSetCallback f => Ok (set_fetch_callback f r)
  | OpRender now h range => res ← render_content order now h range r; Ok res.2
  | OpStream now h => res ← stream_content order now h r; Ok res.2
  | OpPrefetch now h => res ← prefetch order now h r; Ok res.2
  | OpInvalidate h => Ok (invalidate_cache h r)
  | OpCleanup now => Ok (cleanup_expired now r)
  end.

Definition renderer_run (ops : list renderer_op) (r : ContentRenderer) : outcome ContentRenderer :=
  foldl (λ res op, r ← res; renderer_step op r) (Ok r) ops.

(** What an entry says of its data; [P] is what is known of the data itself. *)
Definition entry_ok (P : Hash256 → bytes → Prop) (h : Hash256) (e : CacheEntry) : Prop :=
  (∃ now, ce_metadata e = extract_metadata now h (ce_data e)) ∧ P h (ce_data e).

Record renderer_ok (c : ContentRendererConfig) (P : Hash256 → bytes → Prop) (r : ContentRenderer) : Prop := {
  ro_config : renderer_config r = c;
  ro_size : Z.of_nat (size (cache r)) <= Z.max 1 (max_cached_items c);
  ro_entries : map_Forall (entry_ok P) (cache r)
}.

Definition authentic (h : Hash256) (data : bytes) : Prop := blake3 data = h.

Context (c : ContentRendererConfig) (P : Hash256 → bytes → Prop).
Context (Horder : lists_cache order) (Hauth : ∀ h d, authentic h d → P h d).

Lemma lru_listed l first : foldl older first l ∈ first :: l.
Proof.
  revert first. induction l as [|x l IH]; intros first; cbn [foldl]; [by left|].
  unfold older at 2. destruct (_ <? _).
  - right. apply IH.
  - destruct (proj1 (elem_of_cons _ _ _) (IH first)) as [E|E]; [rewrite E; by left|by right; right].
Qed.

(** Making room removes an entry, if there is one. *)
Lemma evicted r :
  cache (evict_lru order r) = ∅ ∧ cache r = ∅ ∨
  ∃ h e, cache r !! h = Some e ∧ cache (evict_lru order r) = delete h (cache r).
Proof.
  unfold evict_lru. pose proof (Horder (cache r)) as Hp. destruct (order (cache r)) as [|first l] eqn:El.
  - left. symmetry in Hp. apply Permutation_nil_r in Hp. by apply map_to_list_empty_iff in Hp.
  - right. cbv zeta. destruct (foldl older first (first :: l)) as [h e] eqn:Ex. exists h, e. split; [|done].
    apply elem_of_map_to_list. rewrite <- Hp. rewrite <- Ex. cbn [foldl].
    assert (older first first = first) as -> by (unfold older; by destruct (_ <? _)). apply lru_listed.
Qed.

Lemma evict_config r : renderer_config (evict_lru order r) = renderer_config r.
Proof. unfold evict_lru. by destruct (order (cache r)). Qed.

Lemma cached_ok now h data r : renderer_ok c P r → P h data → renderer_ok c P (add_to_cache order now h data r).
Proof.
  intros [W1 W2 W3] Hd. unfold add_to_cache.
  set (r1 := if _ || _ then evict_lru order r else r).
  assert (renderer_config r1 = c ∧ map_Forall (entry_ok P) (cache r1) ∧
          Z.of_nat (size (<[h := MkCacheEntry (extract_metadata now h data) data now now 0]> (cache r1)))
            <= Z.max 1 (max_cached_items c)) as (E1 & E2 & E3).
  { assert (Hins : ∀ m : gmap Hash256 CacheEntry, ∀ e, (size (<[h := e]> m) <= S (size m))%nat).
    { intros m e. destruct (m !! h) eqn:E; [rewrite map_size_insert_Some by eauto; lia|by rewrite map_size_insert_None]. }
    unfold r1. rewrite W1. match goal with |- context [if ?b then _ else _] => destruct b eqn:Eb end.
    - split; [by rewrite evict_config|].
      destruct (evicted r) as [[-> _]|(h' & e & He & ->)].
      + split; [apply map_Forall_empty|]. specialize (Hins ∅ (MkCacheEntry (extract_metadata now h data) data now now 0)).
        rewrite map_size_empty in Hins. lia.
      + split; [by apply map_Forall_delete|]. specialize (Hins (delete h' (cache r)) (MkCacheEntry (extract_metadata now h data) data now now 0)).
        rewrite map_size_delete_Some in Hins by eauto. assert (size (cache r) ≠ 0%nat); [|lia].
        intros E0%map_size_empty_iff. by rewrite E0 in He.
    - split; [done|]. split; [done|]. apply orb_false_iff in Eb as [_ Eb%Z.leb_gt].
      specialize (Hins (cache r) (MkCacheEntry (extract_metadata now h data) data now now 0)). lia. }
  split; [done|done|]. apply map_Forall_insert_2; [|done]. split; [by eexists|done].
Qed.

Lemma ok_stats f r :
  (∀ r, renderer_config (f r) = renderer_config r ∧ cache (f r) = cache r) → renderer_ok c P r → renderer_ok c P (f r).
Proof. intros Hf [W1 W2 W3]. destruct (Hf r) as [E1 E2]. split; by rewrite ?E1, ?E2. Qed.

Lemma ok_get now h r :
  renderer_ok c P r →
  renderer_ok c P (get_from_cache now h r).2 ∧
  match (get_from_cache now h r).1 with
  | Some e => P h (ce_data e)
  | None => (get_from_cache now h r).2 = r
  end.
Proof.
  intros W. unfold get_from_cache. destruct (cache r !! h) as [e|] eqn:E; [|done].
  destruct W as [W1 W2 W3]. destruct (W3 h e E) as [Hm Hd]. split; [|done]. split; cbn; [done| |].
  - by rewrite map_size_insert_Some by eauto.
  - by apply map_Forall_insert_2.
Qed.

Lemma ok_obtain now h r res :
  renderer_ok c P r → obtain order now h r = Ok res →
  renderer_ok c P res.2 ∧ ∀ d, res.1 = Some d → P h d.
Proof.
  intros W. unfold obtain. pose proof (ok_get now h r W) as [W' Hg].
  destruct (get_from_cache now h r) as [[e|] r']; cbn in *.
  - intros [= <-]. split; [by apply ok_stats|]. by intros d [= <-].
  - subst r'. destruct (fetch_from_network h r) as [[data|]| |]; [| |done..]; cbn; intros [= <-].
    + case_bool_decide as Ev; cbn; [|split; [by apply ok_stats|done]].
      split; [|by intros d [= <-]; apply Hauth].
      apply ok_stats; [done|]. apply cached_ok; [done|]. by apply Hauth.
    + split; [by apply ok_stats|done].
Qed.

Lemma ok_render now h range r res :
  renderer_ok c P r → render_content order now h range r = Ok res → renderer_ok c P res.2.
Proof.
  intros W. unfold render_content. destruct (obtain order now h r) as [got| |] eqn:Eg; [|done..].
  pose proof (ok_obtain now h r got W Eg) as [W' _]. cbn. destruct got as [[data|] r']; [|by intros [= <-]].
  cbn in W'. destruct (if enable_range_requests (renderer_config r') then range else None) as [[first last]|].
  - match goal with |- context [if ?b then _ else _] => destruct b end; [by intros [= <-]|].
    destruct (clean _ _ _); [|done..]. by intros [= <-].
  - destruct (clean _ _ _); [|done..]. by intros [= <-].
Qed.

Lemma ok_renderer_step op r r' :
  (is_prefetch op = true → ∀ h d, P h d) → renderer_ok c P r → renderer_step op r = Ok r' → renderer_ok c P r'.
Proof.
  intros Hpre W. destruct op; cbn [renderer_step].
  - intros [= <-]. by destruct W.
  - destruct (render_content _ _ _ _ _) as [res| |] eqn:E; [|done..]. intros [= <-]. by eapply ok_render.
  - unfold stream_content. destruct (render_content _ _ _ _ _) as [res| |] eqn:E; [|done..]. cbn.
    pose proof (ok_render _ _ _ _ _ W E). destruct res as [[x|] r1]; cbn; [|by intros [= <-]].
    match goal with |- context [if ?b then _ else _] => destruct b end; [done|]. by intros [= <-].
  - unfold prefetch. destruct (is_cached _ _); [by intros [= <-]|].
    destruct (fetch_from_network _ _) as [[data|]| |]; [| |done..]; cbn; intros [= <-]; [|done].
    apply cached_ok; [done|]. by apply Hpre.
  - intros [= <-]. destruct W as [W1 W2 W3]. split; cbn; [done| |].
    + destruct h as [h|]; [|rewrite map_size_empty; lia].
      pose proof (map_subseteq_size (delete h (cache r)) (cache r) (delete_subseteq _ _)). lia.
    + destruct h; [by apply map_Forall_delete|apply map_Forall_empty].
  - intros [= <-]. destruct W as [W1 W2 W3]. split; cbn; [done| |].
    + pose proof (map_subseteq_size _ (cache r) (map_filter_subseteq
        (λ e, (cache_ttl (renderer_config r) <? tick_seconds (now - cached_at e.2)) = false) (cache r))). lia.
    + intros h e [He _]%map_lookup_filter_Some. by apply W3.
Qed.

Lemma ok_renderer_run ops r r' :
  (∀ op, op ∈ ops → is_prefetch op = true → ∀ h d, P h d) →
  renderer_ok c P r → renderer_run ops r = Ok r' → renderer_ok c P r'.
Proof.
  unfold renderer_run. revert r. induction ops as [|op ops IH]; intros r Hpre W; cbn; [by intros [= <-]|].
  destruct (renderer_step op r) as [r1| |] eqn:E.
  - apply IH; [intros op' Hop; apply Hpre; by right|]. eapply ok_renderer_step; [|exact W|exact E]. apply Hpre. by left.
  - clear. induction ops; [done|]. by intros E%IHops.
  - clear. induction ops; [done|]. by intros E%IHops.
Qed.

Lemma ok_new_renderer : renderer_ok c P (new_renderer c).
Proof. split; cbn; [done|rewrite map_size_empty; lia|apply map_Forall_empty]. Qed.

End Runs.

(** The type is never HTML, so nothing is sanitized. *)
Lemma never_html data : detect_content_type data None ≠ HTML.
Proof.
  unfold detect_content_type. cbn.
  repeat (match goal with |- context [if ?b then _ else _] => destruct b end; try done).
Qed.

Lemma never_cleaned c now h data d : clean c (md_type (extract_metadata now h data)) d = Ok d.
Proof.
  unfold clean. rewrite bool_decide_eq_false_2 by apply never_html. by rewrite andb_false_r.
Qed.

(** What rendering does with the data it has. *)
Lemma render_of `{Crypto} order now h range r data r' :
  obtain order now h r = Ok (Some data, r') →
  render_content order now h range r =
    Ok (match (if enable_range_requests (renderer_config r') then range else None) with
        | Some (first, last) =>
            if (len data <=? first) || (len data <=? last) || (last <? first) then None
            else Some (MkRenderResult (extract_metadata now h data) (sub data first (last + 1 - first)) true first last)
        | None => Some (MkRenderResult (extract_metadata now h data) data false 0 0)
        end, r').
Proof.
  intros E. unfold render_content. rewrite E. cbn [mbind outcome_bind].
  destruct (if enable_range_requests (renderer_config r') then range else None) as [[first last]|].
  - match goal with |- context [if ?b then _ else _] => destruct b end; [done|]. by rewrite never_cleaned.
  - by rewrite never_cleaned.
Qed.

(** C25: as long as nothing is prefetched, whatever a renderer served before and
    whatever order its cache is listed in, its cache stays within the limit of items,
    and what it returns for a hash is content with that hash or the asked part of it;
    content that the network delivers intact is served, and anything else is refused
    and leaves the cache alone. *)
Theorem rendered_content_authentic `{Crypto} order c ops r now h range :
  lists_cache order → Forall (λ op, is_prefetch op = false) ops →
  renderer_run order ops (new_renderer c) = Ok r →
  Z.of_nat (size (cache r)) <= Z.max 1 (max_cached_items c) ∧
  (∀ res r', render_content order now h range r = Ok (Some res, r') →
     ∃ data, blake3 data = h ∧ rr_metadata res = extract_metadata now h data ∧
       (is_partial res = false ∧ rr_data res = data ∨
        is_partial res = true ∧ range = Some (range_start res, range_end res) ∧
        range_start res <= range_end res < len data ∧
        rr_data res = sub data (range_start res) (range_end res + 1 - range_start res))) ∧
  (∀ data, blake3 data = h → fetch_from_network h r = Ok (Some data) →
     ∃ res r', render_content order now h None r = Ok (Some res, r') ∧ is_partial res = false) ∧
  (cache r !! h = None → (∀ data, fetch_from_network h r = Ok (Some data) → blake3 data ≠ h) →
     fetch_from_network h r ≠ Undef → ∃ r', render_content order now h range r = Ok (None, r') ∧ cache r' = cache r).
Proof.
  intros Horder Hops Hrun.
  assert (W : renderer_ok c authentic r).
  { eapply ok_renderer_run; [exact Horder|done| |by apply ok_new_renderer|exact Hrun].
    intros op Hop Hp. rewrite list.Forall_forall in Hops. rewrite (Hops op Hop) in Hp. done. }
  split; [apply W|]. split; [|split].
  - intros res r' E. destruct (obtain order now h r) as [[[data|] r1]| |] eqn:Eo;
      [|unfold render_content in E; rewrite Eo in E; done..].
    rewrite (render_of _ _ _ _ _ _ _ Eo) in E. exists data.
    destruct (ok_obtain order c authentic Horder ltac:(done) now h r _ W Eo) as [_ Hd].
    split; [by apply Hd|]. injection E as E _.
    destruct (enable_range_requests (renderer_config r1)); [destruct range as [[first last]|]|];
      [|by injection E as <-; split; [|left]..].
    match type of E with (if ?b then _ else _) = _ => destruct b eqn:Eb end; [done|]. injection E as <-.
    apply orb_false_iff in Eb as [[Eb1 Eb2]%orb_false_iff Eb3]. split; [done|]. right. cbn.
    split; [done|]. split; [done|]. split; [lia|done].
  - intros data Hd Hf. assert (∃ data r1, obtain order now h r = Ok (Some data, r1)) as (data' & r1 & Eo).
    { unfold obtain. destruct (get_from_cache now h r) as [[e|] r1] eqn:Eg; [by eexists _, _|].
      unfold get_from_cache in Eg. destruct (cache r !! h); [done|]. injection Eg as <-. rewrite Hf. cbn.
      rewrite bool_decide_eq_true_2 by done. by eexists _, _. }
    rewrite (render_of _ _ _ _ _ _ _ Eo). destruct (enable_range_requests _); by eexists _, _.
  - intros Hnone Hbad Hdef. unfold render_content, obtain, get_from_cache. rewrite Hnone.
    destruct (fetch_from_network h r) as [[data|]|e|] eqn:Ef; [| | |done].
    + cbn. rewrite bool_decide_eq_false_2 by (by apply Hbad). by eexists.
    + by eexists.
    + exfalso. unfold fetch_from_network in Ef. destruct (fetch_callback r) as [f|]; [|done]. by destruct (f h).
Qed.

(** Whatever the network answers to a prefetch is put into the cache unverified and is
    then served as the content of the hash. *)
Theorem prefetch_poisons `{Crypto} order c f now now' h evil :
  f h = Ok (Some evil) →
  ∃ r r', prefetch order now h (set_fetch_callback f (new_renderer c)) = Ok (true, r) ∧
    render_content order now' h None r =
      Ok (Some (MkRenderResult (extract_metadata now' h evil) evil false 0 0), r').
Proof.
  intros Hf. set (r0 := set_fetch_callback f (new_renderer c)).
  exists (add_to_cache order now h evil r0). set (r := add_to_cache order now h evil r0).
  assert (obtain order now' h r = Ok (Some evil, note_hit (get_from_cache now' h r).2)) as Eo.
  { unfold obtain, get_from_cache, r, add_to_cache. cbn. by rewrite lookup_insert_eq. }
  eexists. split.
  - unfold prefetch, is_cached, fetch_from_network. cbn. by rewrite Hf.
  - rewrite (render_of _ _ _ _ _ _ _ Eo). by destruct (enable_range_requests _).
Qed.

(** ** Streams *)

Lemma stream_exact n data fuel offset :
  0 < n → 0 <= offset <= len data → (Z.to_nat (len data - offset) <= fuel)%nat →
  ∃ cs, stream_from fuel n data offset = Some cs ∧
    mjoin (chunk_data <$> cs) = drop (Z.to_nat offset) data ∧
    Forall (λ c, 0 < chunk_length c <= n ∧ chunk_length c = len (chunk_data c)) cs ∧
    (cs ≠ [] → ∃ cs' c, cs = cs' ++ [c] ∧ is_final c = true ∧ Forall (λ c, is_final c = false) cs').
Proof.
  intros Hn. revert offset. induction fuel as [|fuel IH]; intros offset Ho Hf; cbn [stream_from];
    destruct (Z.ltb_spec offset (len data)).
  - lia.
  - exists []. split; [done|]. split; [|done]. cbn. rewrite drop_ge; [done|]. unfold len in *. lia.
  - set (k := Z.min n (len data - offset)). destruct (IH (offset + k)) as (cs & -> & Hd & Hall & Hlast); [lia..|].
    eexists. split; [done|]. split; [|split].
    + change (sub data offset k ++ mjoin (chunk_data <$> cs) = drop (Z.to_nat offset) data). rewrite Hd. unfold sub. replace (Z.to_nat (offset + k)) with (Z.to_nat offset + Z.to_nat k)%nat by lia.
      rewrite <- drop_drop. apply take_drop.
    + constructor; [|done]. cbn. rewrite len_sub by lia. lia.
    + intros _. destruct (Z.leb_spec (len data) (offset + k)).
      * exists [], (MkContentChunk offset k (sub data offset k) true).
        assert (cs = []) as ->; [|done]. destruct cs as [|c cs]; [done|]. exfalso.
        apply list.Forall_cons in Hall as [[Hc1 Hc2] _].
        rewrite (drop_ge data) in Hd by (unfold len in *; lia).
        change (chunk_data c ++ mjoin (chunk_data <$> cs) = []) in Hd.
        apply app_nil in Hd as [Hd _]. rewrite Hd, len_nil in Hc2. lia.
      * destruct cs as [|c cs]; [exfalso|].
        { change ([] = drop (Z.to_nat (offset + k)) data) in Hd. apply (f_equal length) in Hd.
          rewrite length_drop in Hd. unfold len in *. cbn [length] in Hd. lia. }
        destruct (Hlast ltac:(done)) as (cs' & c' & -> & Hc & Hcs).
        exists (MkContentChunk offset k (sub data offset k) false :: cs'), c'. split; [done|]. split; [done|]. by constructor.
  - exists []. split; [done|]. split; [|done]. cbn. rewrite drop_ge; [done|]. unfold len in *. lia.
Qed.

(** With chunks of a positive size a stream ends and is the rendered data in order;
    with a size of zero it never ends unless the data are empty. *)
Theorem streams_in_order `{Crypto} order now h r res r' :
  render_content order now h None r = Ok (Some res, r') →
  (0 < chunk_size (renderer_config r') →
   ∃ cs, stream_content order now h r = Ok (true, Some cs, r') ∧ mjoin (chunk_data <$> cs) = rr_data res ∧
     (cs ≠ [] → ∃ cs' c, cs = cs' ++ [c] ∧ is_final c = true ∧ Forall (λ c, is_final c = false) cs')) ∧
  (chunk_size (renderer_config r') = 0 → rr_data res ≠ [] →
   stream_content order now h r = Ok (true, None, r') ∧ ∀ fuel, stream_from fuel 0 (rr_data res) 0 = None).
Proof.
  intros E. unfold stream_content. rewrite E. cbn [mbind outcome_bind]. split.
  - intros Hn. destruct (stream_exact (chunk_size (renderer_config r')) (rr_data res) (length (rr_data res)) 0)
      as (cs & -> & Hd & _ & Hl); [done|pose proof (len_nonneg (rr_data res)); lia|unfold len; lia|].
    rewrite (proj2 (Z.eqb_neq _ _)), andb_false_r by lia. exists cs. by rewrite drop_0 in Hd.
  - intros Hz Hne. assert (∀ fuel, stream_from fuel 0 (rr_data res) 0 = None) as Hnone.
    { assert (0 < len (rr_data res)) as Hl by (destruct (rr_data res); [done|]; rewrite len_cons; pose proof (len_nonneg l); lia).
      induction fuel as [|fuel IH]; cbn [stream_from]; rewrite (proj2 (Z.ltb_lt _ _)) by done; [done|].
      rewrite Z.min_l by lia. by rewrite Z.add_0_r, IH. }
    rewrite Hz, Hnone. done.
Qed.

(** ** One page *)

Module Sample.
Definition page : bytes := str "<script>steal()</script>".
Definition name : Hash256 := @blake3 toy_crypto page.
Definition serve : Hash256 → outcome (option bytes) := λ h, Ok (if decide (h = name) then Some page else None).
Definition visits : list renderer_op := [OpSetCallback serve; OpRender 5 name None; OpRender 6 (zeros 32) None].
Definition listing (m : gmap Hash256 CacheEntry) : list (Hash256 * CacheEntry) := map_to_list m.
End Sample.

Lemma renders (m : outcome ContentRenderer) (f : ContentRenderer → outcome (option RenderResult * ContentRenderer)) d r :
  match (r ← m; f r) with Ok (Some res, _) => bool_decide (rr_data res = d) | _ => false end = true → m = Ok r →
  ∃ res r', f r = Ok (Some res, r') ∧ rr_data res = d.
Proof.
  intros Hb ->. cbn in Hb. destruct (f r) as [[[res|] r']| |]; [|done..]. exists res, r'. split; [done|].
  by apply bool_decide_eq_true in Hb.
Qed.

Lemma rendered_content_authentic_witness :
  ∃ r res r', @renderer_run toy_crypto Sample.listing Sample.visits (new_renderer default_renderer_config) = Ok r ∧
    @render_content Sample.listing toy_crypto 9 Sample.name (Some (1, 6)) r = Ok (Some res, r') ∧
    rr_data res = sub Sample.page 1 6 ∧ Z.of_nat (size (cache r)) <= 1000.
Proof.
  destruct (is_ok_ex (@renderer_run toy_crypto Sample.listing Sample.visits (new_renderer default_renderer_config)))
    as [r E]; [vm_compute; reflexivity|].
  destruct (@rendered_content_authentic toy_crypto Sample.listing default_renderer_config Sample.visits r 9 Sample.name
    (Some (1, 6))) as (Hsize & Hres & _ & _);
    [intros m; reflexivity|repeat constructor|exact E|].
  destruct (renders (@renderer_run toy_crypto Sample.listing Sample.visits (new_renderer default_renderer_config))
    (@render_content Sample.listing toy_crypto 9 Sample.name (Some (1, 6))) (sub Sample.page 1 6) r)
    as (res & r' & Er & Hd); [vm_compute; reflexivity|exact E|].
  destruct (Hres res r' Er) as (data & _).
  exists r, res, r'. split; [exact E|]. split; [exact Er|]. split; [exact Hd|]. exact Hsize.
Defined.

Lemma prefetch_poisons_witness :
  ∃ r r', prefetch Sample.listing 5 (zeros 32)
      (set_fetch_callback (λ _, Ok (Some Sample.page)) (new_renderer default_renderer_config)) = Ok (true, r) ∧
    @render_content Sample.listing toy_crypto 6 (zeros 32) None r =
      Ok (Some (MkRenderResult (extract_metadata 6 (zeros 32) Sample.page) Sample.page false 0 0), r').
Proof.
  exact (@prefetch_poisons toy_crypto Sample.listing default_renderer_config (λ _, Ok (Some Sample.page)) 5 6 (zeros 32)
    Sample.page eq_refl).
Defined.
