(* ===== verification/Websocket.v ===== *)
(** WebSocket connections: [WsConnection] and [WebSocketHandler] of
    include/cashew/gateway/websocket_handler.hpp and
    src/gateway/websocket_handler.cpp.

    Connections are shared objects: they live in a heap, and the handler and its
    subscriptions hold addresses.  A subscription is a weak pointer: it is
    expired when neither the handler nor a caller, as [held] tells, owns the
    object.  The clock is [now], in its ticks.  The message handler is code of
    the application, the argument [on_message] of [handle_frame]; frames and their transport are outside. *)

From Stdlib Require Import Strings.Byte.
From S2P Require Import Prelude Common Text.

Inductive WsMessageType := WS_TEXT | WS_BINARY | PING | PONG | CLOSE.

Record WsFrame := MkWsFrame { frame_type : WsMessageType; payload : bytes; frame_is_final : bool }.

Inductive WsConnectionState := WS_CONNECTING | WS_OPEN | WS_CLOSING | WS_CLOSED.

#[export] Instance WsConnectionState_eq_dec : EqDecision WsConnectionState.
Proof. solve_decision. Defined.

Record WsConnection := MkWsConnection {
  connection_id : bytes;
  ws_state : WsConnectionState;
  ws_last_activity : Z
}.

Inductive WsEventType :=
  | NETWORK_UPDATE | THING_UPDATE | LEDGER_EVENT | PEER_STATUS | REPUTATION_CHANGE | GOSSIP_MESSAGE.

#[export] Instance WsEventType_eq_dec : EqDecision WsEventType.
Proof. solve_decision. Defined.

Definition event_index (e : WsEventType) : nat :=
  match e with
  | NETWORK_UPDATE => 0 | THING_UPDATE => 1 | LEDGER_EVENT => 2 | PEER_STATUS => 3 | REPUTATION_CHANGE => 4
  | GOSSIP_MESSAGE => 5
  end.

Definition all_events : list WsEventType :=
  [NETWORK_UPDATE; THING_UPDATE; LEDGER_EVENT; PEER_STATUS; REPUTATION_CHANGE; GOSSIP_MESSAGE].

#[export] Instance WsEventType_countable : Countable WsEventType.
Proof.
  refine (inj_countable event_index (λ i, all_events !! i) _). by intros [].
Defined.

(** ** A connection *)

Definition new_ws_connection (now : Z) (id : bytes) : WsConnection := MkWsConnection id WS_CONNECTING now.

Definition ws_with_state (s : WsConnectionState) (c : WsConnection) : WsConnection :=
  MkWsConnection (connection_id c) s (ws_last_activity c).

Definition ws_touch (now : Z) (c : WsConnection) : WsConnection :=
  MkWsConnection (connection_id c) (ws_state c) now.

Definition is_alive (c : WsConnection) : bool := bool_decide (ws_state c = WS_OPEN).

(** [send_text], [send_binary], [send_ping] and [send_pong]: the frame itself is
    left to the code around. *)
Definition ws_send (now : Z) (c : WsConnection) : WsConnection := if is_alive c then ws_touch now c else c.

Definition ws_close (c : WsConnection) : WsConnection :=
  if bool_decide (ws_state c = WS_CLOSED) then c else ws_with_state WS_CLOSED (ws_with_state WS_CLOSING c).

Definition time_since_activity (now : Z) (c : WsConnection) : Z := Z.quot (now - ws_last_activity c) 1000000000.

(** ** The handler *)

Record WsHandlerConfig := MkWsHandlerConfig {
  ping_interval : Z;
  ws_timeout : Z;
  max_connections : Z;
  max_message_size : Z;
  max_subscriptions_per_client : Z
}.

Definition default_ws_config : WsHandlerConfig := MkWsHandlerConfig 30 300 1000 (1024 * 1024) 50.

Record WsStatistics := MkWsStatistics {
  active_connections : Z;
  total_messages_sent : Z;
  total_messages_received : Z;
  total_bytes_sent : Z;
  total_bytes_received : Z;
  subscription_count : Z
}.

Record WebSocketHandler := MkWebSocketHandler {
  ws_config : WsHandlerConfig;
  running : bool;
  objects : list WsConnection;
  connections : gmap bytes nat;
  subscriptions : gmap WsEventType (list nat);
  ws_stats : WsStatistics
}.

Definition new_handler (c : WsHandlerConfig) : WebSocketHandler :=
  MkWebSocketHandler c false [] ∅ ∅ (MkWsStatistics 0 0 0 0 0 0).

Definition with_objects (x : list WsConnection) (h : WebSocketHandler) : WebSocketHandler :=
  MkWebSocketHandler (ws_config h) (running h) x (connections h) (subscriptions h) (ws_stats h).
Definition with_ws_connections (x : gmap bytes nat) (h : WebSocketHandler) : WebSocketHandler :=
  MkWebSocketHandler (ws_config h) (running h) (objects h) x (subscriptions h) (ws_stats h).
Definition with_subscriptions (x : gmap WsEventType (list nat)) (h : WebSocketHandler) : WebSocketHandler :=
  MkWebSocketHandler (ws_config h) (running h) (objects h) (connections h) x (ws_stats h).
Definition with_ws_stats (x : WsStatistics) (h : WebSocketHandler) : WebSocketHandler :=
  MkWebSocketHandler (ws_config h) (running h) (objects h) (connections h) (subscriptions h) x.
Definition with_running (x : bool) (h : WebSocketHandler) : WebSocketHandler :=
  MkWebSocketHandler (ws_config h) x (objects h) (connections h) (subscriptions h) (ws_stats h).

Definition on_object (f : WsConnection → WsConnection) (a : nat) (h : WebSocketHandler) : WebSocketHandler :=
  with_objects (alter f a (objects h)) h.

Definition alive_at (a : nat) (h : WebSocketHandler) : bool :=
  match objects h !! a with Some c => is_alive c | None => false end.

Definition id_at (a : nat) (h : WebSocketHandler) : option bytes := connection_id <$> objects h !! a.

(** [lock()] of a weak pointer: the handler or somebody else owns the object. *)
Definition owned (held : nat → bool) (h : WebSocketHandler) (a : nat) : bool :=
  held a || bool_decide (a ∈ (map_to_list (connections h)).*2).

Definition ws_start (h : WebSocketHandler) : WebSocketHandler := with_running true h.

Definition ws_stop (h : WebSocketHandler) : WebSocketHandler :=
  if running h then
    let h := with_running false h in
    with_ws_connections ∅ (foldl (λ h a, on_object ws_close a h) h (map_to_list (connections h)).*2)
  else h.

Definition count_active (s : WsStatistics) : WsStatistics :=
  MkWsStatistics (u64 (active_connections s + 1)) (total_messages_sent s) (total_messages_received s)
    (total_bytes_sent s) (total_bytes_received s) (subscription_count s).

Definition accept_connection (now : Z) (id : bytes) (h : WebSocketHandler) : option nat * WebSocketHandler :=
  if max_connections (ws_config h) <=? Z.of_nat (size (connections h)) then (None, h)
  else
    let a := length (objects h) in
    let h := with_objects (objects h ++ [new_ws_connection now id]) h in
    let h := with_ws_connections (<[id := a]> (connections h)) h in
    (Some a, with_ws_stats (count_active (ws_stats h)) h).

Definition count_received (n : Z) (s : WsStatistics) : WsStatistics :=
  MkWsStatistics (active_connections s) (total_messages_sent s) (u64 (total_messages_received s + 1))
    (total_bytes_sent s) (u64 (total_bytes_received s + n)) (subscription_count s).

Definition handle_control_frame (now : Z) (a : nat) (f : WsFrame) (h : WebSocketHandler) : WebSocketHandler :=
  match frame_type f with
  | PING => on_object (ws_send now) a h
  | CLOSE =>
      let h := on_object ws_close a h in
      match id_at a h with
      | Some id => with_ws_connections (delete id (connections h)) h
      | None => h
      end
  | _ => h
  end.

Definition is_control (t : WsMessageType) : bool := match t with PING | PONG | CLOSE => true | _ => false end.

(** What the message handler does on an exception is its own affair. *)
Definition handle_frame (on_message : option (nat → WsFrame → WebSocketHandler → WebSocketHandler)) (now : Z)
    (conn : option nat) (f : WsFrame) (h : WebSocketHandler) : WebSocketHandler :=
  match conn with
  | None => h
  | Some a =>
      if negb (alive_at a h) then h
      else
        let h := on_object (ws_touch now) a h in
        let h := with_ws_stats (count_received (len (payload f)) (ws_stats h)) h in
        if is_control (frame_type f) then handle_control_frame now a f h
        else if max_message_size (ws_config h) <? len (payload f) then on_object ws_close a h
        else match on_message with Some g => g a f h | None => h end
  end.

Definition count_sent (n bytes_each : Z) (s : WsStatistics) : WsStatistics :=
  MkWsStatistics (active_connections s) (u64 (total_messages_sent s + n)) (total_messages_received s)
    (u64 (total_bytes_sent s + u64 (bytes_each * n))) (total_bytes_received s) (subscription_count s).

(** Every connection is counted, the open ones are sent to. *)
Definition broadcast_text (now : Z) (message : bytes) (h : WebSocketHandler) : WebSocketHandler :=
  let h := foldl (λ h a, on_object (ws_send now) a h) h (map_to_list (connections h)).*2 in
  with_ws_stats (count_sent (Z.of_nat (size (connections h))) (len message) (ws_stats h)) h.

Definition event_type_to_string (e : WsEventType) : bytes :=
  str match e with
      | NETWORK_UPDATE => "network_update"
      | THING_UPDATE => "thing_update"
      | LEDGER_EVENT => "ledger_event"
      | PEER_STATUS => "peer_status"
      | REPUTATION_CHANGE => "reputation_change"
      | GOSSIP_MESSAGE => "gossip_message"
      end%string.

(** The comparisons in turn; other text throws. *)
Definition parse_event_type (s : bytes) : outcome WsEventType :=
  match List.find (λ e, bool_decide (s = event_type_to_string e)) all_events with
  | Some e => Ok e
  | None => Err (EInvalidArgument "Unknown event type")
  end.

Definition event_message (e : WsEventType) (event_data : bytes) : bytes :=
  quoted "{'type':'" ++ event_type_to_string e ++ quoted "','data':" ++ event_data ++ str "}".

(** Subscribers that are gone or not open are dropped on the way. *)
Definition broadcast_event (held : nat → bool) (now : Z) (e : WsEventType) (event_data : bytes)
    (h : WebSocketHandler) : WebSocketHandler :=
  match subscriptions h !! e with
  | None => h
  | Some subs =>
      let kept := filter (λ a, owned held h a && alive_at a h = true) subs in
      let h := foldl (λ h a, on_object (ws_send now) a h) h kept in
      let h := with_subscriptions (<[e := kept]> (subscriptions h)) h in
      with_ws_stats (count_sent (len kept) (len (event_message e event_data)) (ws_stats h)) h
  end.

(** A subscriber that is alive as an object and has this identifier. *)
Definition subscribed_as (held : nat → bool) (h : WebSocketHandler) (id : option bytes) (a : nat) : bool :=
  owned held h a && bool_decide (id_at a h = id).

Definition count_subscriptions (d : Z) (s : WsStatistics) : WsStatistics :=
  MkWsStatistics (active_connections s) (total_messages_sent s) (total_messages_received s)
    (total_bytes_sent s) (total_bytes_received s) (u64 (subscription_count s + d)).

Definition subscriptions_of (held : nat → bool) (h : WebSocketHandler) (id : option bytes) : Z :=
  len (filter (λ a, subscribed_as held h id a = true) (mjoin (map_to_list (subscriptions h)).*2)).

(** Looking the event up creates its entry. *)
Definition subscribe (held : nat → bool) (conn : option nat) (e : WsEventType) (h : WebSocketHandler) :
    WebSocketHandler :=
  match conn with
  | None => h
  | Some a =>
      let subs := default [] (subscriptions h !! e) in
      let h := with_subscriptions (<[e := subs]> (subscriptions h)) h in
      if existsb (subscribed_as held h (id_at a h)) subs then h
      else if max_subscriptions_per_client (ws_config h) <=? subscriptions_of held h (id_at a h) then h
      else
        with_ws_stats (count_subscriptions 1 (ws_stats h))
          (with_subscriptions (<[e := subs ++ [a]]> (subscriptions h)) h)
  end.

(** Expired subscribers are dropped up to the one found; [true] when there was one. *)
Fixpoint remove_subscriber (held : nat → bool) (h : WebSocketHandler) (id : option bytes) (subs : list nat) :
    list nat * bool :=
  match subs with
  | [] => ([], false)
  | a :: subs =>
      if owned held h a then
        if bool_decide (id_at a h = id) then (subs, true)
        else let '(rest, found) := remove_subscriber held h id subs in (a :: rest, found)
      else remove_subscriber held h id subs
  end.

Definition unsubscribe (held : nat → bool) (conn : option nat) (e : WsEventType) (h : WebSocketHandler) :
    WebSocketHandler :=
  match conn, subscriptions h !! e with
  | Some a, Some subs =>
      let '(rest, found) := remove_subscriber held h (id_at a h) subs in
      let h := with_subscriptions (<[e := rest]> (subscriptions h)) h in
      if found : bool then with_ws_stats (count_subscriptions (-1) (ws_stats h)) h else h
  | _, _ => h
  end.

Definition ws_get_statistics (h : WebSocketHandler) : WsStatistics :=
  let s := ws_stats h in
  MkWsStatistics (Z.of_nat (size (connections h))) (total_messages_sent s) (total_messages_received s)
    (total_bytes_sent s) (total_bytes_received s) (subscription_count s).

(** What the keepalive does with one connection. *)
Definition keep_alive (now : Z) (h : WebSocketHandler) (entry : bytes * nat) : WebSocketHandler :=
  let '(id, a) := entry in
  match objects h !! a with
  | None => h
  | Some c =>
      if negb (is_alive c) then with_ws_connections (delete id (connections h)) h
      else
        let idle_time := time_since_activity now c in
        if ws_timeout (ws_config h) <? idle_time
        then with_ws_connections (delete id (connections h)) (on_object ws_close a h)
        else if ping_interval (ws_config h) <? idle_time then on_object (ws_send now) a h
        else h
  end.

Definition cleanup_connections (held : nat → bool) (h : WebSocketHandler) : WebSocketHandler :=
  with_subscriptions (filter (λ a, owned held h a = true) <$> subscriptions h) h.

(** One round of the keepalive thread. *)
Definition keepalive_round (held : nat → bool) (now : Z) (h : WebSocketHandler) : WebSocketHandler :=
  if running h then cleanup_connections held (foldl (keep_alive now) h (map_to_list (connections h))) else h.

(** ** No connection ever opens *)

Inductive ws_op :=
  | WsStart | WsStop
  | WsAccept (now : Z) (id : bytes)
  | WsFrameIn (on_message : option (nat → WsFrame → WebSocketHandler → WebSocketHandler)) (now : Z)
      (conn : option nat) (f : WsFrame)
  | WsBroadcastText (now : Z) (message : bytes)
  | WsBroadcastEvent (held : nat → bool) (now : Z) (e : WsEventType) (event_data : bytes)
  | WsSubscribe (held : nat → bool) (conn : option nat) (e : WsEventType)
  | WsUnsubscribe (held : nat → bool) (conn : option nat) (e : WsEventType)
  | WsKeepalive (held : nat → bool) (now : Z)
  | WsClose (a : nat)
  | WsSend (now : Z) (a : nat).

Definition ws_step (op : ws_op) (h : WebSocketHandler) : WebSocketHandler :=
  match op with
  | WsStart => ws_start h
  | WsStop => ws_stop h
  | WsAccept now id => (accept_connection now id h).2
  | WsFrameIn g now conn f => handle_frame g now conn f h
  | WsBroadcastText now m => broadcast_text now m h
  | WsBroadcastEvent held now e d => broadcast_event held now e d h
  | WsSubscribe held conn e => subscribe held conn e h
  | WsUnsubscribe held conn e => unsubscribe held conn e h
  | WsKeepalive held now => keepalive_round held now h
  | WsClose a => on_object ws_close a h
  | WsSend now a => on_object (ws_send now) a h
  end.

Definition ws_run (ops : list ws_op) (h : WebSocketHandler) : WebSocketHandler :=
  foldl (λ h op, ws_step op h) h ops.

Definition never_open (c : WsConnection) : Prop := ws_state c = WS_CONNECTING ∨ ws_state c = WS_CLOSED.

Record handler_ok (c : WsHandlerConfig) (h : WebSocketHandler) : Prop := {
  ho_config : ws_config h = c;
  ho_objects : Forall never_open (objects h);
  ho_count : Z.of_nat (size (connections h)) <= max_connections c;
  ho_valid : map_Forall (λ _ a, is_Some (objects h !! a)) (connections h);
  ho_silent : total_messages_received (ws_stats h) = 0 ∧ total_bytes_received (ws_stats h) = 0
}.

Lemma send_closed now c : never_open c → ws_send now c = c.
Proof. intros Hc. unfold ws_send, is_alive. rewrite bool_decide_eq_false_2; [done|]. by destruct Hc as [->| ->]. Qed.

Lemma close_closed c : never_open (ws_close c).
Proof. unfold ws_close. case_bool_decide; [by right|]. by right. Qed.

Lemma nobody_alive c h a : handler_ok c h → alive_at a h = false.
Proof.
  intros W. unfold alive_at. destruct (objects h !! a) as [x|] eqn:E; [|done].
  pose proof (proj1 (Forall_lookup _ _) (ho_objects _ _ W) a x E) as [Hx|Hx];
    unfold is_alive; rewrite Hx; done.
Qed.

(** Sending to what is not open changes nothing. *)
Lemma send_nothing c h now a : handler_ok c h → on_object (ws_send now) a h = h.
Proof.
  intros W. unfold on_object. assert (alter (ws_send now) a (objects h) = objects h) as ->; [|by destruct h].
  apply list_eq. intros b. rewrite list_lookup_alter. case_decide as E; [subst b|done].
  destruct (objects h !! a) as [x|] eqn:Ex; [|done]. cbn. f_equal.
  apply send_closed, (proj1 (Forall_lookup _ _) (ho_objects _ _ W) a x Ex).
Qed.

Lemma send_nothings c h now l : handler_ok c h → foldl (λ h a, on_object (ws_send now) a h) h l = h.
Proof. intros W. induction l as [|a l IH]; [done|]. cbn. by rewrite (send_nothing c). Qed.

Lemma ok_close_at c h a : handler_ok c h → handler_ok c (on_object ws_close a h).
Proof.
  intros [W1 W2 W3 W4 W5]. split; cbn; try done.
  - apply Forall_alter; [done|]. intros x _ _. apply close_closed.
  - intros id b Hb. rewrite list_lookup_alter. case_decide; [|by apply (W4 id b)].
    subst b. apply fmap_is_Some. by apply (W4 id a).
Qed.

Lemma ok_fewer c h x : handler_ok c h → x ⊆ connections h → handler_ok c (with_ws_connections x h).
Proof.
  intros [W1 W2 W3 W4 W5] Hx. split; cbn; try done.
  - pose proof (map_subseteq_size _ _ Hx). lia.
  - intros id a Ha. apply (W4 id a). by eapply lookup_weaken.
Qed.

Lemma ok_subscriptions c h x : handler_ok c h → handler_ok c (with_subscriptions x h).
Proof. by intros []. Qed.

Lemma ok_ws_stats c h s :
  handler_ok c h → total_messages_received s = 0 ∧ total_bytes_received s = 0 → handler_ok c (with_ws_stats s h).
Proof. by intros [] ?. Qed.

(** The keepalive thread drops every connection it finds. *)
Lemma keep_alive_drops c h now id a :
  handler_ok c h → is_Some (objects h !! a) →
  keep_alive now h (id, a) = with_ws_connections (delete id (connections h)) h.
Proof.
  intros W [x Hx]. unfold keep_alive. rewrite Hx.
  pose proof (nobody_alive c h a W) as Hn. unfold alive_at in Hn. rewrite Hx in Hn. by rewrite Hn.
Qed.

Lemma keep_all_drops c now l h :
  handler_ok c h → (∀ id a, (id, a) ∈ l → is_Some (objects h !! a)) →
  foldl (keep_alive now) h l =
    with_ws_connections (foldl (λ m e, delete e.1 m) (connections h) l) h.
Proof.
  revert h. induction l as [|[id a] l IH]; intros h W Hl; [by destruct h|]. cbn [foldl].
  rewrite (keep_alive_drops c) by (done || (apply (Hl id a); by left)).
  rewrite IH; [done|by apply ok_fewer; [|apply delete_subseteq]|]. intros id' a' Hin. apply (Hl id' a'). by right.
Qed.

Lemma delete_all (m : gmap bytes nat) : foldl (λ m e, delete e.1 m) m (map_to_list m) = ∅.
Proof.
  assert (H : ∀ (l : list (bytes * nat)) (m : gmap bytes nat) k, foldl (λ m e, delete e.1 m) m l !! k =
    if decide (k ∈ l.*1) then None else m !! k).
  { induction l as [|[k' a] l IH]; intros m' k; cbn [foldl fmap list_fmap]; [done|]. rewrite IH. cbn [fst].
    destruct (decide (k ∈ l.*1)); [by rewrite decide_True by (by right)|]. destruct (decide (k' = k)) as [->|Hne].
    - rewrite lookup_delete_eq, decide_True; [done|by left].
    - rewrite lookup_delete_ne by done. rewrite decide_False; [done|]. intros [?|?]%elem_of_cons; congruence. }
  apply map_eq. intros k. rewrite H, lookup_empty. case_decide as E; [done|].
  apply eq_None_not_Some. intros [a Ha]. apply E, list_elem_of_fmap. exists (k, a). split; [done|].
  by apply elem_of_map_to_list.
Qed.

Lemma ok_closes c l h : handler_ok c h → handler_ok c (foldl (λ h a, on_object ws_close a h) h l).
Proof. revert h. induction l as [|a l IH]; intros h W; [done|]. by apply IH, ok_close_at. Qed.

Lemma ok_ws_step c op h : handler_ok c h → handler_ok c (ws_step op h).
Proof.
  intros W. destruct op; cbn [ws_step].
  - by destruct W.
  - unfold ws_stop. destruct (running h); [|done]. apply ok_fewer; [|apply map_empty_subseteq].
    apply ok_closes. by destruct W.
  - unfold accept_connection. rewrite (ho_config _ _ W). destruct (Z.leb_spec (max_connections c) (Z.of_nat (size (connections h)))); [done|].
    destruct W as [W1 W2 W3 W4 W5]. split; cbn; try done.
    + apply Forall_app. split; [done|]. constructor; [by left|done].
    + destruct (connections h !! id) eqn:E; [rewrite map_size_insert_Some by eauto; lia|rewrite map_size_insert_None by done; lia].
    + apply map_Forall_insert_2; [rewrite list_lookup_middle by done; eauto|].
      intros id' a Ha. destruct (W4 id' a Ha) as [x Hx]. rewrite (lookup_app_l_Some _ _ _ _ Hx). eauto.
  - unfold handle_frame. destruct conn as [a|]; [|done]. by rewrite (nobody_alive c h a W).
  - unfold broadcast_text. rewrite (send_nothings c) by done. apply ok_ws_stats; [done|apply W].
  - unfold broadcast_event. destruct (subscriptions h !! e); [|done]. rewrite (send_nothings c) by done.
    apply ok_ws_stats; [by apply ok_subscriptions|apply W].
  - unfold subscribe. destruct conn as [a|]; [|done].
    repeat (match goal with |- handler_ok _ (if ?b then _ else _) => destruct b; [by apply ok_subscriptions|] end).
    apply ok_ws_stats; [by do 2 apply ok_subscriptions|apply W].
  - unfold unsubscribe. destruct conn as [a|]; [|done]. destruct (subscriptions h !! e); [|done].
    destruct (remove_subscriber _ _ _ _) as [rest []]; [apply ok_ws_stats; [|apply W]|]; by apply ok_subscriptions.
  - unfold keepalive_round. destruct (running h); [|done]. apply ok_subscriptions.
    rewrite (keep_all_drops c) by (try done; intros id a Hin%elem_of_map_to_list; by apply (ho_valid _ _ W id a)).
    apply ok_fewer; [done|]. rewrite delete_all. apply map_empty_subseteq.
  - by apply ok_close_at.
  - by rewrite (send_nothing c).
Qed.

Lemma ok_ws_run c ops h : handler_ok c h → handler_ok c (ws_run ops h).
Proof. revert h. induction ops as [|op ops IH]; intros h W; [done|]. by apply IH, ok_ws_step. Qed.

Lemma ok_new_handler c : 0 <= max_connections c → handler_ok c (new_handler c).
Proof. intros Hc. split; cbn; [done|constructor|by rewrite map_size_empty|apply map_Forall_empty|done]. Qed.

(** No connection ever becomes open, whatever is asked of the handler: none is alive, no
    frame has an effect, a broadcast sends nothing and only forgets the subscribers of its
    event, and the first round of the keep-alive thread drops all connections. *)
Theorem websockets_inert c ops :
  0 <= max_connections c →
  let h := ws_run ops (new_handler c) in
  Z.of_nat (size (connections h)) <= max_connections c ∧
  (∀ a, alive_at a h = false) ∧
  (∀ g now conn f, handle_frame g now conn f h = h) ∧
  (∀ held now e d, objects (broadcast_event held now e d h) = objects h ∧
     default [] (subscriptions (broadcast_event held now e d h) !! e) = []) ∧
  (∀ held now, running h = true → connections (keepalive_round held now h) = ∅).
Proof.
  intros Hc h. assert (W : handler_ok c h) by (by apply ok_ws_run, ok_new_handler). clearbody h.
  split; [apply W|]. split; [intros a; by eapply nobody_alive|]. split; [|split].
  - intros g now [a|] f; [|done]. cbn. by rewrite (nobody_alive c h a W).
  - intros held now e d. unfold broadcast_event. destruct (subscriptions h !! e) as [subs|] eqn:E; [|by rewrite E].
    rewrite (send_nothings c) by done. split; [done|]. cbn. rewrite lookup_insert_eq. cbn.
    apply elem_of_nil_inv. intros a [Ha _]%list_elem_of_filter. rewrite (nobody_alive c h a W), andb_false_r in Ha. done.
  - intros held now Hr. unfold keepalive_round. rewrite Hr. cbn.
    rewrite (keep_all_drops c) by (try done; intros id a Hin%elem_of_map_to_list; by apply (ho_valid _ _ W id a)).
    cbn. apply delete_all.
Qed.

Lemma websockets_inert_witness :
  let h := ws_run [WsStart; WsAccept 1 (str "one"); WsSubscribe (λ _, true) (Some 0%nat) LEDGER_EVENT]
             (new_handler default_ws_config) in
  connections h = {[str "one" := 0%nat]} ∧
  handle_frame None 2 (Some 0%nat) (MkWsFrame PING [] true) h = h.
Proof.
  intros h. split; [vm_compute; reflexivity|].
  refine (proj1 (proj2 (proj2 (websockets_inert default_ws_config
    [WsStart; WsAccept 1 (str "one"); WsSubscribe (λ _, true) (Some 0%nat) LEDGER_EVENT] _))) None 2 (Some 0%nat) _).
  vm_compute. discriminate.
Defined.
