(* ===== verification/Gateway.v ===== *)
(** The gateway: [GatewayServer] of include/cashew/gateway/gateway_server.hpp
    and src/gateway/gateway_server.cpp.

    An operation takes an [Environment]: the clock (in its ticks), what is drawn
    and printed, and the file system, whose paths are text or, once canonical,
    lists of components below the root.  The mutexes a thread holds are part of
    the state: to lock a [std::mutex] twice is undefined.  The HTTP library, the
    threads and the logging are outside; requests arrive one at a time, since
    [handle_request] holds the mutex of the statistics to its end. *)

From Stdlib Require Import Strings.Byte.
From S2P Require Import Prelude Common Crypto Floats Network Registry Storage Integrity Text Sanitizer Renderer.

(** ** Requests and responses *)

Inductive HttpMethod := GET | POST | PUT | DELETE | OPTIONS | HEAD.

#[export] Instance HttpMethod_eq_dec : EqDecision HttpMethod.
Proof. solve_decision. Defined.

Definition method_index (m : HttpMethod) : nat :=
  match m with GET => 0 | POST => 1 | PUT => 2 | DELETE => 3 | OPTIONS => 4 | HEAD => 5 end.

#[export] Instance HttpMethod_countable : Countable HttpMethod.
Proof.
  refine (inj_countable method_index (λ i, [GET; POST; PUT; DELETE; OPTIONS; HEAD] !! i) _). by intros [].
Defined.

Inductive HttpStatus :=
  | OK | CREATED | NO_CONTENT | BAD_REQUEST | UNAUTHORIZED | FORBIDDEN | NOT_FOUND | METHOD_NOT_ALLOWED
  | CONFLICT | INTERNAL_ERROR | NOT_IMPLEMENTED | SERVICE_UNAVAILABLE.

Record HttpRequest := MkHttpRequest {
  req_method : HttpMethod;
  req_path : bytes;
  req_headers : gmap bytes bytes;
  query_params : gmap bytes bytes;
  req_body : bytes;
  client_ip : bytes
}.

Record HttpResponse := MkHttpResponse {
  res_status : HttpStatus;
  res_headers : gmap bytes bytes;
  res_body : bytes
}.

Definition new_response : HttpResponse :=
  MkHttpResponse OK
    (<[str "Server" := str "Cashew-Gateway/1.0"]> {[str "Content-Type" := str "application/json"]}) [].

Definition with_status (x : HttpStatus) (r : HttpResponse) : HttpResponse :=
  MkHttpResponse x (res_headers r) (res_body r).

Definition set_header (k v : bytes) (r : HttpResponse) : HttpResponse :=
  MkHttpResponse (res_status r) (<[k := v]> (res_headers r)) (res_body r).

Definition set_binary_body (data mime : bytes) (r : HttpResponse) : HttpResponse :=
  set_header (str "Content-Type") mime (MkHttpResponse (res_status r) (res_headers r) data).

Definition set_json_body (text : bytes) (r : HttpResponse) : HttpResponse :=
  set_binary_body text (str "application/json; charset=utf-8") r.

Definition set_html_body (text : bytes) (r : HttpResponse) : HttpResponse :=
  set_binary_body text (str "text/html; charset=utf-8") r.

(** A response with this status and message. *)
Definition error_response (st : HttpStatus) (message : string) : HttpResponse :=
  set_json_body (quoted "{'error': '" ++ str message ++ quoted "'}") (with_status st new_response).

(** ** Sessions, limits and routes *)

Record GatewaySession := MkGatewaySession {
  session_id : bytes;
  user_key : option PublicKey;
  gs_created_at : Z;
  gs_last_activity : Z;
  is_anonymous : bool;
  can_read : bool;
  can_post : bool;
  can_vote : bool;
  can_host : bool
}.

Record GatewayConfig := MkGatewayConfig {
  session_timeout : Z;
  max_sessions : Z;
  max_requests_per_minute : Z;
  max_requests_per_hour : Z;
  enable_cors : bool;
  cors_origin : bytes;
  web_root : bytes;
  enable_directory_listing : bool
}.

Definition default_gateway_config : GatewayConfig :=
  MkGatewayConfig 3600 10000 60 1000 true (str "*") (str "./web") false.

Record ClientRateInfo := MkClientRateInfo {
  last_request : Z;
  requests_this_minute : Z;
  requests_this_hour : Z
}.

(** The handlers the server registers for itself. *)
Inductive Handler :=
  | HandleRoot | HandleHealth | HandleStatus | HandleNetworks | HandleNetworkDetail | HandleThingContent
  | HandleAuthenticate | HandleStaticFile.

Inductive Mutex := StatsMutex | SessionsMutex | RateLimitMutex.

#[export] Instance Mutex_eq_dec : EqDecision Mutex.
Proof. solve_decision. Defined.

Record GatewayStatistics := MkGatewayStatistics {
  total_requests : Z;
  active_sessions : Z;
  anonymous_sessions : Z;
  authenticated_sessions : Z;
  gw_bytes_sent : Z;
  gw_bytes_received : Z;
  started_at : Z
}.

Record GatewayServer := MkGatewayServer {
  gw_config : GatewayConfig;
  handlers : gmap (HttpMethod * bytes) Handler;
  gw_sessions : gmap bytes GatewaySession;
  client_rates : gmap bytes ClientRateInfo;
  gw_stats : GatewayStatistics;
  network_registry : option NetworkRegistry;
  gw_storage : option Storage;
  content_renderer : option ContentRenderer;
  renderer_wired : bool;
  held_mutexes : list Mutex
}.

Definition with_handlers (x : gmap (HttpMethod * bytes) Handler) (s : GatewayServer) : GatewayServer :=
  MkGatewayServer (gw_config s) x (gw_sessions s) (client_rates s) (gw_stats s) (network_registry s)
    (gw_storage s) (content_renderer s) (renderer_wired s) (held_mutexes s).
Definition with_gw_sessions (x : gmap bytes GatewaySession) (s : GatewayServer) : GatewayServer :=
  MkGatewayServer (gw_config s) (handlers s) x (client_rates s) (gw_stats s) (network_registry s)
    (gw_storage s) (content_renderer s) (renderer_wired s) (held_mutexes s).
Definition with_rates (x : gmap bytes ClientRateInfo) (s : GatewayServer) : GatewayServer :=
  MkGatewayServer (gw_config s) (handlers s) (gw_sessions s) x (gw_stats s) (network_registry s)
    (gw_storage s) (content_renderer s) (renderer_wired s) (held_mutexes s).
Definition with_gw_stats (x : GatewayStatistics) (s : GatewayServer) : GatewayServer :=
  MkGatewayServer (gw_config s) (handlers s) (gw_sessions s) (client_rates s) x (network_registry s)
    (gw_storage s) (content_renderer s) (renderer_wired s) (held_mutexes s).
Definition with_registry (x : option NetworkRegistry) (s : GatewayServer) : GatewayServer :=
  MkGatewayServer (gw_config s) (handlers s) (gw_sessions s) (client_rates s) (gw_stats s) x
    (gw_storage s) (content_renderer s) (renderer_wired s) (held_mutexes s).
Definition with_storage (x : option Storage) (s : GatewayServer) : GatewayServer :=
  MkGatewayServer (gw_config s) (handlers s) (gw_sessions s) (client_rates s) (gw_stats s) (network_registry s)
    x (content_renderer s) (renderer_wired s) (held_mutexes s).
Definition with_renderer (x : option ContentRenderer) (wired : bool) (s : GatewayServer) : GatewayServer :=
  MkGatewayServer (gw_config s) (handlers s) (gw_sessions s) (client_rates s) (gw_stats s) (network_registry s)
    (gw_storage s) x wired (held_mutexes s).
Definition with_mutexes (x : list Mutex) (s : GatewayServer) : GatewayServer :=
  MkGatewayServer (gw_config s) (handlers s) (gw_sessions s) (client_rates s) (gw_stats s) (network_registry s)
    (gw_storage s) (content_renderer s) (renderer_wired s) x.

(** A block under a [std::lock_guard]. *)
Definition guarded {A} (m : Mutex) (body : GatewayServer → outcome (A * GatewayServer)) (s : GatewayServer) :
    outcome (A * GatewayServer) :=
  if decide (m ∈ held_mutexes s) then Undef
  else
    r ← body (with_mutexes (m :: held_mutexes s) s);
    Ok (r.1, with_mutexes (held_mutexes s) r.2).

(** ** The outside *)

Inductive file_contents := CannotOpen | InvalidSize | ShortRead | Contents (data : bytes).

Record Environment := MkEnvironment {
  clock : Z;
  session_random : bytes;
  current_path : option bytes;
  weakly_canonical : bytes → option (list bytes);
  path_exists : bytes → bool;
  is_directory : bytes → bool;
  is_regular_file : bytes → bool;
  file_at : bytes → file_contents;
  directory_entries : bytes → list bytes;
  content_opened : ContentHash → bool;
  metadata_opened : bytes → bool;
  cache_order : gmap Hash256 CacheEntry → list (Hash256 * CacheEntry);
  route_order : gmap (HttpMethod * bytes) Handler → list ((HttpMethod * bytes) * Handler);
  print_float : float → bytes
}.

Definition seconds_between (later earlier : Z) : Z := Z.quot (later - earlier) 1000000000.

(** ** Paths *)

Definition path_text (p : list bytes) : bytes := mjoin ((λ c, str "/" ++ c) <$> p).

Fixpoint joined (p : list bytes) : bytes :=
  match p with
  | [] => []
  | [c] => c
  | c :: p => c ++ str "/" ++ joined p
  end.

(** [operator/] of two paths. *)
Definition path_join (a b : bytes) : bytes :=
  if starts (str "/") b then b
  else match list.last a with
       | None => b
       | Some c => if bool_decide (c = "/"%byte) then a ++ b else a ++ str "/" ++ b
       end.

(** The text behind the last [/]. *)
Definition path_filename (p : bytes) : bytes :=
  match rfind_char "/"%byte (length p) p with Some i => drop (S i) p | None => p end.

(** From the last dot on, unless it is the first character. *)
Definition path_extension (name : bytes) : bytes :=
  if bool_decide (name = str "..") then []
  else match rfind_char "."%byte (length name) name with
       | Some (S i) => drop (S i) name
       | _ => []
       end.

Fixpoint lexically_relative (p base : list bytes) : list bytes :=
  match p, base with
  | [], [] => [str "."]
  | c :: p', d :: base' =>
      if decide (c = d) then lexically_relative p' base' else replicate (length base) (str "..") ++ p
  | p, base => replicate (length base) (str "..") ++ p
  end.

Definition to_lower_ascii (s : bytes) : bytes := to_lower <$> s.

Definition mime_types : list (list bytes * bytes) :=
  [([str ".html"; str ".htm"], str "text/html; charset=utf-8"); ([str ".css"], str "text/css; charset=utf-8");
   ([str ".js"], str "application/javascript; charset=utf-8");
   ([str ".json"], str "application/json; charset=utf-8"); ([str ".txt"], str "text/plain; charset=utf-8");
   ([str ".svg"], str "image/svg+xml"); ([str ".png"], str "image/png");
   ([str ".jpg"; str ".jpeg"], str "image/jpeg"); ([str ".gif"], str "image/gif"); ([str ".webp"], str "image/webp");
   ([str ".ico"], str "image/x-icon"); ([str ".wasm"], str "application/wasm")].

Definition mime_from_path (name : bytes) : bytes :=
  let ext := to_lower_ascii (path_extension name) in
  match List.find (λ em, bool_decide (ext ∈ em.1)) mime_types with
  | Some em => em.2
  | None => str "application/octet-stream"
  end.

Definition web_root_candidates (env : Environment) (configured : bytes) : list bytes :=
  let cwd := default [] (current_path env) in
  [configured; path_join cwd configured] ++
  (if bool_decide (path_filename configured = str "test-site") then [] else [path_join cwd (str "test-site")]) ++
  match current_path env with
  | Some cwd => [path_join cwd (str "../test-site"); path_join cwd (str "../../test-site");
                 path_join cwd (str "../../../test-site")]
  | None => []
  end.

Fixpoint first_directory (env : Environment) (candidates : list bytes) : option (list bytes) :=
  match candidates with
  | [] => None
  | candidate :: candidates =>
      match weakly_canonical env candidate with
      | Some p => if path_exists env (path_text p) && is_directory env (path_text p) then Some p
                  else first_directory env candidates
      | None => first_directory env candidates
      end
  end.

Definition resolve_web_root (env : Environment) (configured : bytes) : option (list bytes) :=
  first_directory env (web_root_candidates env configured).

(** ** Routing *)

Definition path_matches_pattern (path pattern : bytes) : bool :=
  if bool_decide (pattern = str "*") || bool_decide (pattern = str "/*") then true
  else if bool_decide (find_char "*"%byte 0 pattern = None) then bool_decide (path = pattern)
  else if bool_decide (list.last pattern = Some "*"%byte) then starts (take (length pattern - 1) pattern) path
  else bool_decide (path = pattern).

Definition register_handler (m : HttpMethod) (pattern : bytes) (h : Handler) (s : GatewayServer) : GatewayServer :=
  with_handlers (<[(m, pattern) := h]> (handlers s)) s.

Definition register_default_handlers (s : GatewayServer) : GatewayServer :=
  let s := register_handler GET (str "/") HandleRoot s in
  let s := register_handler GET (str "/health") HandleHealth s in
  let s := register_handler GET (str "/api/status") HandleStatus s in
  let s := register_handler GET (str "/api/networks") HandleNetworks s in
  let s := register_handler GET (str "/api/networks/*") HandleNetworkDetail s in
  let s := register_handler GET (str "/api/thing/*") HandleThingContent s in
  let s := register_handler POST (str "/api/auth") HandleAuthenticate s in
  register_handler GET (str "/static/*") HandleStaticFile s.

Definition new_gateway (env : Environment) (c : GatewayConfig) : GatewayServer :=
  register_default_handlers
    (MkGatewayServer c ∅ ∅ ∅ (MkGatewayStatistics 0 0 0 0 0 0 (clock env)) None None None false []).

Definition set_storage (st : Storage) (s : GatewayServer) : GatewayServer := with_storage (Some st) s.

(** The renderer fetches from the storage of the server, if there is one by now. *)
Definition set_content_renderer (r : ContentRenderer) (s : GatewayServer) : GatewayServer :=
  with_renderer (Some r) (match gw_storage s with Some _ => true | None => false end) s.

Definition set_network_registry (r : NetworkRegistry) (s : GatewayServer) : GatewayServer :=
  with_registry (Some r) s.

Definition find_handler (env : Environment) (m : HttpMethod) (path : bytes) (s : GatewayServer) : option Handler :=
  match handlers s !! (m, path) with
  | Some h => Some h
  | None =>
      snd <$> List.find (λ e, bool_decide (e.1.1 = m) && path_matches_pattern path e.1.2) (route_order env (handlers s))
  end.

(** ** Sessions *)

Definition session_expired (env : Environment) (s : GatewayServer) (x : GatewaySession) : bool :=
  session_timeout (gw_config s) <? seconds_between (clock env) (gs_last_activity x).

Definition cleanup_sessions (env : Environment) (s : GatewayServer) : outcome (() * GatewayServer) :=
  guarded SessionsMutex
    (λ s, Ok (tt, with_gw_sessions (filter (λ e, session_expired env s e.2 = false) (gw_sessions s)) s)) s.

Definition validate_session (env : Environment) (id : bytes) (s : GatewayServer) : outcome (bool * GatewayServer) :=
  guarded SessionsMutex
    (λ s, Ok (match gw_sessions s !! id with
              | None => (false, s)
              | Some x => if session_expired env s x then (false, with_gw_sessions (delete id (gw_sessions s)) s)
                          else (true, s)
              end)) s.

Definition touch_session (now : Z) (x : GatewaySession) : GatewaySession :=
  MkGatewaySession (session_id x) (user_key x) (gs_created_at x) now (is_anonymous x) (can_read x) (can_post x)
    (can_vote x) (can_host x).

Definition anonymous_session (now : Z) (id : bytes) : GatewaySession :=
  MkGatewaySession id None now now true true false false false.

(** The identifier in the [Cookie] header. *)
Definition cookie_session (req : HttpRequest) : option bytes :=
  cookie ← req_headers req !! str "Cookie";
  pos ← find (str "cashew_session=") 0 cookie;
  let start := (pos + 15)%nat in
  Some (match find_char ";"%byte start cookie with
        | Some e => take (e - start) (drop start cookie)
        | None => drop start cookie
        end).

Section Sessions.
Context `{Crypto}.

Definition generate_session_id (env : Environment) : bytes :=
  mjoin (hex_byte <$> take 16 (arr (blake3 (session_random env)))).

(** The identifier of the session the request belongs to. *)
Definition get_or_create_session (env : Environment) (req : HttpRequest) (s : GatewayServer) :
    outcome (bytes * GatewayServer) :=
  guarded SessionsMutex
    (λ s,
      match (id ← cookie_session req; x ← gw_sessions s !! id; Some (id, x)) with
      | Some (id, x) => Ok (id, with_gw_sessions (<[id := touch_session (clock env) x]> (gw_sessions s)) s)
      | None =>
          r ← (if max_sessions (gw_config s) <=? Z.of_nat (size (gw_sessions s))
               then cleanup_sessions env s else Ok (tt, s));
          let s := r.2 in
          let id := generate_session_id env in
          Ok (id, with_gw_sessions
                    (match gw_sessions s !! id with
                     | Some _ => gw_sessions s
                     | None => <[id := anonymous_session (clock env) id]> (gw_sessions s)
                     end) s)
      end) s.

End Sessions.

(** ** Rate limiting *)

(** The default entry was last used at the epoch. *)
Definition check_rate_limit (env : Environment) (ip : bytes) (s : GatewayServer) : outcome (bool * GatewayServer) :=
  guarded RateLimitMutex
    (λ s,
      let info := default (MkClientRateInfo 0 0 0) (client_rates s !! ip) in
      let elapsed := seconds_between (clock env) (last_request info) in
      let minute := u64 ((if 60 <=? elapsed then 0 else requests_this_minute info) + 1) in
      let hour := u64 ((if 3600 <=? elapsed then 0 else requests_this_hour info) + 1) in
      Ok ((minute <=? max_requests_per_minute (gw_config s)) && (hour <=? max_requests_per_hour (gw_config s)),
          with_rates (<[ip := MkClientRateInfo (clock env) minute hour]> (client_rates s)) s)) s.

Definition apply_cors_headers (s : GatewayServer) (r : HttpResponse) : HttpResponse :=
  if enable_cors (gw_config s) then
    set_header (str "Access-Control-Max-Age") (str "86400")
      (set_header (str "Access-Control-Allow-Headers") (str "Content-Type, Authorization")
        (set_header (str "Access-Control-Allow-Methods") (str "GET, POST, PUT, DELETE, OPTIONS")
          (set_header (str "Access-Control-Allow-Origin") (cors_origin (gw_config s)) r)))
  else r.

(** ** Statistics *)

Definition get_statistics (s : GatewayServer) : outcome (GatewayStatistics * GatewayServer) :=
  guarded StatsMutex
    (guarded SessionsMutex
      (λ s,
        let st := gw_stats s in
        let anonymous := filter (λ e, is_anonymous e.2 = true) (gw_sessions s) in
        Ok (MkGatewayStatistics (total_requests st) (Z.of_nat (size (gw_sessions s)))
              (anonymous_sessions st + Z.of_nat (size anonymous))
              (authenticated_sessions st + (Z.of_nat (size (gw_sessions s)) - Z.of_nat (size anonymous)))
              (gw_bytes_sent st) (gw_bytes_received st) (started_at st), s))) s.

Definition count_request (n : Z) (st : GatewayStatistics) : GatewayStatistics :=
  MkGatewayStatistics (u64 (total_requests st + 1)) (active_sessions st) (anonymous_sessions st)
    (authenticated_sessions st) (gw_bytes_sent st) (u64 (gw_bytes_received st + n)) (started_at st).

Definition count_gw_sent (n : Z) (st : GatewayStatistics) : GatewayStatistics :=
  MkGatewayStatistics (total_requests st) (active_sessions st) (anonymous_sessions st)
    (authenticated_sessions st) (u64 (gw_bytes_sent st + n)) (gw_bytes_received st) (started_at st).

(** ** Handlers *)

Definition handle_health : HttpResponse :=
  set_json_body (quoted "{'status': 'healthy', 'service': 'cashew-gateway'}") new_response.

Definition handle_status (s : GatewayServer) : outcome (HttpResponse * GatewayServer) :=
  r ← get_statistics s;
  let st := r.1 in
  Ok (set_json_body
        (quoted "{'service': 'cashew-gateway','total_requests': " ++ dec (total_requests st) ++
         quoted ",'active_sessions': " ++ dec (active_sessions st) ++
         quoted ",'anonymous_sessions': " ++ dec (anonymous_sessions st) ++
         quoted ",'authenticated_sessions': " ++ dec (authenticated_sessions st) ++
         quoted ",'bytes_sent': " ++ dec (gw_bytes_sent st) ++
         quoted ",'bytes_received': " ++ dec (gw_bytes_received st) ++ str "}") new_response, r.2).

Definition bool_text (b : bool) : bytes := if b then str "true" else str "false".

(** The elements of an array, with commas between. *)
Fixpoint listed (l : list bytes) : bytes :=
  match l with
  | [] => []
  | [x] => x
  | x :: l => x ++ str "," ++ listed l
  end.

Definition health_text (h : NetworkHealth) : bytes :=
  match h with
  | CRITICAL => quoted "'critical'"
  | DEGRADED => quoted "'degraded'"
  | HEALTHY => quoted "'healthy'"
  | OPTIMAL => quoted "'optimal'"
  end.

(** The clock in seconds, as the network component reads it. *)
Definition clock_seconds (env : Environment) : Z := Z.quot (clock env) 1000000000.

Definition network_summary (env : Environment) (n : Network) : bytes :=
  let now := clock_seconds env in
  quoted "{'id': '" ++ hash_to_hex (network_id n) ++
  quoted "','thing_hash': '" ++ hash_to_hex (thing_hash n) ++
  quoted "','member_count': " ++ dec (member_count n) ++
  quoted ",'replica_count': " ++ dec (active_replica_count now n) ++
  quoted ",'is_healthy': " ++ bool_text (is_healthy now n) ++
  quoted ",'health': " ++ health_text (get_health now n) ++ str "}".

Definition handle_networks (env : Environment) (s : GatewayServer) : HttpResponse :=
  match network_registry s with
  | None => error_response INTERNAL_ERROR "Network registry not available"
  | Some reg =>
      let networks := get_all_networks reg in
      set_json_body
        (quoted "{'networks': [" ++ listed (network_summary env <$> networks) ++
         quoted "],'total_count': " ++ dec (len networks) ++
         quoted ",'healthy_count': " ++ dec (healthy_network_count (clock_seconds env) reg) ++ str "}") new_response
  end.

(** Another value of the enumeration writes nothing. *)
Definition role_text (r : MemberRole) : bytes :=
  if r =? FOUNDER then quoted "'founder'"
  else if r =? FULL then quoted "'full'"
  else if r =? PENDING_MEMBER then quoted "'pending'"
  else if r =? OBSERVER then quoted "'observer'"
  else [].

Definition member_text (env : Environment) (m : NetworkMember) : bytes :=
  quoted "{'node_id': '" ++ hash_to_hex (node_id m) ++ quoted "','role': " ++ role_text (role m) ++
  quoted ",'has_replica': " ++ bool_text (has_complete_replica m) ++
  quoted ",'reliability': " ++ print_float env (of_bits (reliability_score m)) ++ str "}".

Definition network_text (env : Environment) (id_str : bytes) (n : Network) : bytes :=
  let now := clock_seconds env in
  let q := quorum n in
  quoted "{'id': '" ++ id_str ++
  quoted "','thing_hash': '" ++ hash_to_hex (thing_hash n) ++
  quoted "','is_healthy': " ++ bool_text (is_healthy now n) ++
  quoted ",'member_count': " ++ dec (member_count n) ++
  quoted ",'replica_count': " ++ dec (active_replica_count now n) ++
  quoted ",'quorum': {'min_replicas': " ++ dec (min_replicas q) ++
  quoted ",'target_replicas': " ++ dec (target_replicas q) ++
  quoted ",'max_replicas': " ++ dec (max_replicas q) ++
  quoted "},'members': [" ++ listed (member_text env <$> members n) ++ str "]}".

(** Thirty-two pairs of digits; [None] when [std::stoi] throws. *)
Definition hash_of_path (s : bytes) : option Hash256 := l ← to_optional (hex_pairs 32 s); to_array 32 l.

Definition handle_network_detail (env : Environment) (req : HttpRequest) (s : GatewayServer) : HttpResponse :=
  match network_registry s with
  | None => error_response INTERNAL_ERROR "Network registry not available"
  | Some reg =>
      if len (req_path req) <=? 14 then error_response BAD_REQUEST "Missing network ID"
      else
        let id_str := drop 14 (req_path req) in
        if negb (len id_str =? 64) then error_response BAD_REQUEST "Invalid network ID format"
        else match hash_of_path id_str with
             | None => error_response BAD_REQUEST "Invalid network ID encoding"
             | Some id =>
                 match get_network id reg with
                 | None => error_response NOT_FOUND "Network not found"
                 | Some n => set_json_body (network_text env id_str n) new_response
                 end
             end
  end.

(** The text of a field: from its key on, behind blanks and quotation marks, up
    to a quotation mark or comma; empty without the key. *)
Fixpoint drop_while (p : byte → bool) (s : bytes) : bytes :=
  match s with c :: s' => if p c then drop_while p s' else s | [] => [] end.

Fixpoint take_while (p : byte → bool) (s : bytes) : bytes :=
  match s with c :: s' => if p c then c :: take_while p s' else [] | [] => [] end.

Definition find_field (body field : bytes) : bytes :=
  let key := [quote] ++ field ++ [quote] ++ str ":" in
  match find key 0 body with
  | None => []
  | Some pos =>
      take_while (λ c, bool_decide (c ≠ quote ∧ c ≠ ","%byte))
        (drop_while (λ c, bool_decide (c = " "%byte ∨ c = quote)) (drop (pos + length key) body))
  end.

Definition set_session (id : bytes) (x : GatewaySession) (s : GatewayServer) : GatewayServer :=
  with_gw_sessions (<[id := x]> (gw_sessions s)) s.

Definition authenticated (key : PublicKey) (x : GatewaySession) : GatewaySession :=
  MkGatewaySession (session_id x) (Some key) (gs_created_at x) (gs_last_activity x) false (can_read x) true true
    (can_host x).

Definition auth_text (x : GatewaySession) : bytes :=
  quoted "{'authenticated': true,'session_id': '" ++ session_id x ++
  quoted "','capabilities': {'can_read': true,'can_post': true,'can_vote': true,'can_host': " ++
  bool_text (can_host x) ++ str "}}".

(** A request of the root for the index file. *)
Definition index_request : HttpRequest := MkHttpRequest GET (str "/static/index.html") ∅ ∅ [] [].

Definition without_static (path : bytes) : bytes := if starts (str "/static/") path then drop 8 path else path.

Definition requested_file (path : bytes) : bytes :=
  let relative := without_static path in
  let relative := if bool_decide (relative = [] ∨ relative = str "/") then str "index.html" else relative in
  drop_while (λ c, bool_decide (c = "/"%byte)) relative.

Definition executable_extensions : list bytes := [str ".pl"; str ".cgi"; str ".pm"].

Definition directory_listing (relative : bytes) (names : list bytes) : bytes :=
  quoted "<!DOCTYPE html><html><head><meta charset='utf-8'><title>Index of /static/" ++ relative ++
  str "</title></head><body>" ++ str "<h1>Index of /static/" ++ relative ++ str "</h1><ul>" ++
  mjoin ((λ n, str "<li>" ++ n ++ str "</li>") <$> names) ++ str "</ul></body></html>".

(** Reading and sending one file. *)
Definition send_file (env : Environment) (resolved : list bytes) : HttpResponse :=
  let path := path_text resolved in
  if negb (path_exists env path && is_regular_file env path) then error_response NOT_FOUND "File not found"
  else match file_at env path with
       | CannotOpen => error_response INTERNAL_ERROR "Failed to open file"
       | InvalidSize => error_response INTERNAL_ERROR "Invalid file size"
       | ShortRead => error_response INTERNAL_ERROR "Failed to read file"
       | Contents data =>
           set_header (str "Cache-Control") (str "public, max-age=300")
             (set_header (str "Content-Length") (dec (len data))
               (set_binary_body data (mime_from_path (default [] (list.last resolved))) new_response))
       end.

Definition handle_static_file (env : Environment) (req : HttpRequest) (s : GatewayServer) : HttpResponse :=
  match resolve_web_root env (web_root (gw_config s)) with
  | None => error_response INTERNAL_ERROR "Invalid web root configuration"
  | Some root =>
      let relative := requested_file (req_path req) in
      match weakly_canonical env (path_join (path_text root) relative) with
      | None => error_response NOT_FOUND "File not found"
      | Some resolved =>
          let relative_to_root := joined (lexically_relative resolved root) in
          if bool_decide (relative_to_root = []) || starts (str "..") relative_to_root
          then error_response FORBIDDEN "Path outside web root"
          else if bool_decide (is_Some (find (str "/cgi-bin/") 0 (to_lower_ascii relative_to_root))) ||
                  bool_decide (to_lower_ascii (path_extension (default [] (list.last resolved))) ∈ executable_extensions)
          then error_response FORBIDDEN "Executable scripts are not served by static gateway"
          else if is_directory env (path_text resolved) then
            if negb (enable_directory_listing (gw_config s)) then
              let index_path := resolved ++ [str "index.html"] in
              if path_exists env (path_text index_path) && is_regular_file env (path_text index_path)
              then send_file env index_path
              else error_response NOT_FOUND "Directory listing disabled"
            else set_html_body (directory_listing relative (directory_entries env (path_text resolved))) new_response
          else send_file env resolved
      end
  end.

(** The page the server has of its own; [welcome] is its text. *)
Definition handle_root (welcome : bytes) (env : Environment) (s : GatewayServer) : HttpResponse :=
  let root := match resolve_web_root env (web_root (gw_config s)) with
              | Some p => path_text p | None => web_root (gw_config s) end in
  let index_path := path_join root (str "index.html") in
  if path_exists env index_path && is_regular_file env index_path
  then handle_static_file env index_request s
  else set_html_body welcome new_response.

(** The callback of the renderer reads the storage of the moment. *)
Definition stored_content (env : Environment) (s : GatewayServer) (h : Hash256) : outcome (option bytes) :=
  match gw_storage s with
  | None => Undef
  | Some st => Ok (get_content h (content_opened env h) st)
  end.

Definition stored_mime (env : Environment) (hash_str : bytes) (s : GatewayServer) : option bytes :=
  st ← gw_storage s; get_metadata (str "mime_" ++ hash_str) (metadata_opened env (str "mime_" ++ hash_str)) st.

Section Handlers.
Context `{Crypto}.

Definition content_response (env : Environment) (hash_str : bytes) (result : RenderResult) (s : GatewayServer) :
    HttpResponse :=
  let mime :=
    match stored_mime env hash_str s with
    | Some m => if bool_decide (m = []) then mime_type (rr_metadata result) else m
    | None => mime_type (rr_metadata result)
    end in
  let res := MkHttpResponse OK (res_headers new_response) (rr_data result) in
  let res := set_header (str "Content-Length") (dec (len (rr_data result))) (set_header (str "Content-Type") mime res) in
  if is_cacheable (rr_metadata result)
  then set_header (str "ETag") ([quote] ++ hash_str ++ [quote])
         (set_header (str "Cache-Control") (str "public, max-age=3600") res)
  else set_header (str "Cache-Control") (str "no-cache, no-store, must-revalidate") res.

Definition handle_thing_content (env : Environment) (req : HttpRequest) (id : bytes) (s : GatewayServer) :
    outcome (HttpResponse * GatewayServer) :=
  match gw_sessions s !! id with
  | None => Undef
  | Some session =>
      if negb (can_read session) then Ok (error_response FORBIDDEN "Read access denied", s)
      else if len (req_path req) <=? 11 then Ok (error_response BAD_REQUEST "Missing content hash", s)
      else
        let hash_str := drop 11 (req_path req) in
        if negb (len hash_str =? 64)
        then Ok (error_response BAD_REQUEST "Invalid hash format (expected 64 hex characters)", s)
        else match hash_of_path hash_str with
             | None => Ok (error_response BAD_REQUEST "Invalid hash encoding", s)
             | Some h =>
                 match content_renderer s with
                 | None => Ok (error_response INTERNAL_ERROR "Content renderer not available", s)
                 | Some r =>
                     let r := if renderer_wired s then set_fetch_callback (stored_content env s) r else r in
                     got ← render_content (cache_order env) (clock env) h None r;
                     let s := with_renderer (Some got.2) (renderer_wired s) s in
                     Ok (match got.1 with
                         | None => (error_response NOT_FOUND "Content not found", s)
                         | Some result =>
                             if negb (is_valid (verify_content (rr_data result) h))
                             then (error_response INTERNAL_ERROR "Content integrity verification failed", s)
                             else (content_response env hash_str result s, s)
                         end)
                 end
             end
  end.

Definition handle_authenticate (req : HttpRequest) (id : bytes) (s : GatewayServer) :
    outcome (HttpResponse * GatewayServer) :=
  if bool_decide (req_body req = []) then Ok (error_response BAD_REQUEST "Empty request body", s)
  else
    let public_key_hex := find_field (req_body req) (str "public_key") in
    let message := find_field (req_body req) (str "message") in
    let signature_hex := find_field (req_body req) (str "signature") in
    if bool_decide (public_key_hex = [] ∨ message = [] ∨ signature_hex = [])
    then Ok (error_response BAD_REQUEST "Missing required fields (public_key, message, signature)", s)
    else match Ed25519.public_key_from_hex public_key_hex with
         | None => Ok (error_response BAD_REQUEST "Invalid public key format", s)
         | Some key =>
             match Ed25519.signature_from_hex signature_hex with
             | None => Ok (error_response BAD_REQUEST "Invalid signature format", s)
             | Some sg =>
                 if negb (Ed25519.verify message sg key)
                 then Ok (error_response UNAUTHORIZED "Invalid signature", s)
                 else match gw_sessions s !! id with
                      | None => Undef
                      | Some session =>
                          let session := authenticated key session in
                          Ok (set_json_body (auth_text session) new_response, set_session id session s)
                      end
             end
         end.

Definition run_handler (welcome : bytes) (env : Environment) (h : Handler) (req : HttpRequest) (id : bytes)
    (s : GatewayServer) : outcome (HttpResponse * GatewayServer) :=
  match h with
  | HandleRoot => Ok (handle_root welcome env s, s)
  | HandleHealth => Ok (handle_health, s)
  | HandleStatus => handle_status s
  | HandleNetworks => Ok (handle_networks env s, s)
  | HandleNetworkDetail => Ok (handle_network_detail env req s, s)
  | HandleThingContent => handle_thing_content env req id s
  | HandleAuthenticate => handle_authenticate req id s
  | HandleStaticFile => Ok (handle_static_file env req s, s)
  end.

(** A path without a handler is looked for among the files. *)
Definition static_request (req : HttpRequest) : HttpRequest :=
  let path := req_path req in
  let path := if starts (str "/static/") path then path
              else if starts (str "/") path then str "/static" ++ path else str "/static/" ++ path in
  MkHttpRequest (req_method req) path (req_headers req) (query_params req) (req_body req) (client_ip req).

Definition respond (r : HttpResponse) (s : GatewayServer) : HttpResponse * GatewayServer :=
  let r := apply_cors_headers s r in (r, with_gw_stats (count_gw_sent (len (res_body r)) (gw_stats s)) s).

(** An exception of a handler is caught; those of the server throw none. *)
Definition handle_request (welcome : bytes) (env : Environment) (req : HttpRequest) (s : GatewayServer) :
    outcome (HttpResponse * GatewayServer) :=
  guarded StatsMutex
    (λ s,
      let s := with_gw_stats (count_request (len (req_body req)) (gw_stats s)) s in
      allowed ← check_rate_limit env (client_ip req) s;
      let s := allowed.2 in
      if negb allowed.1
      then Ok (apply_cors_headers s (error_response SERVICE_UNAVAILABLE "Rate limit exceeded"), s)
      else
        session ← get_or_create_session env req s;
        let '(id, s) := session in
        match find_handler env (req_method req) (req_path req) s with
        | None =>
            if bool_decide (req_method req = GET) && negb (starts (str "/api/") (req_path req))
            then Ok (respond (handle_static_file env (static_request req) s) s)
            else Ok (apply_cors_headers s (error_response NOT_FOUND "Not found"), s)
        | Some h =>
            match run_handler welcome env h req id s with
            | Ok (r, s) => Ok (respond r s)
            | Err _ => Ok (apply_cors_headers s (error_response INTERNAL_ERROR "Internal server error"), s)
            | Undef => Undef
            end
        end) s.

End Handlers.

(** ** Mutexes *)

Lemma guarded_Ok {A} m (body : GatewayServer → outcome (A * GatewayServer)) s r :
  guarded m body s = Ok r ↔
  m ∉ held_mutexes s ∧ ∃ r', body (with_mutexes (m :: held_mutexes s) s) = Ok r' ∧
    r = (r'.1, with_mutexes (held_mutexes s) r'.2).
Proof.
  unfold guarded. destruct (decide (m ∈ held_mutexes s)); [split; [done|by intros [? _]]|].
  destruct (body _) as [r'| |]; cbn; split; try done; try by intros (_ & ? & ? & _).
  - intros [= <-]. eauto.
  - by intros (_ & ? & [= <-] & ->).
Qed.

Lemma guarded_free {A} m (body : GatewayServer → outcome (A * GatewayServer)) s :
  m ∉ held_mutexes s →
  guarded m body s = (r ← body (with_mutexes (m :: held_mutexes s) s); Ok (r.1, with_mutexes (held_mutexes s) r.2)).
Proof. intros Hm. unfold guarded. by rewrite decide_False. Qed.

Lemma guarded_held {A} m (body : GatewayServer → outcome (A * GatewayServer)) s :
  m ∈ held_mutexes s → guarded m body s = Undef.
Proof. intros Hm. unfold guarded. by rewrite decide_True. Qed.

(** The server between two requests, and while it handles one. *)
Definition in_request (s : GatewayServer) : GatewayServer := with_mutexes [StatsMutex] s.

(** ** The limit on requests *)

Definition rate_entry (s : GatewayServer) (ip : bytes) : ClientRateInfo := default (MkClientRateInfo 0 0 0) (client_rates s !! ip).

Definition minute_count (now : Z) (i : ClientRateInfo) : Z :=
  u64 ((if 60 <=? seconds_between now (last_request i) then 0 else requests_this_minute i) + 1).
Definition hour_count (now : Z) (i : ClientRateInfo) : Z :=
  u64 ((if 3600 <=? seconds_between now (last_request i) then 0 else requests_this_hour i) + 1).

(** Whether the request is within the limits. *)
Definition rate_allows (now : Z) (ip : bytes) (s : GatewayServer) : bool :=
  (minute_count now (rate_entry s ip) <=? max_requests_per_minute (gw_config s)) &&
  (hour_count now (rate_entry s ip) <=? max_requests_per_hour (gw_config s)).

Definition rate_noted (now : Z) (ip : bytes) (s : GatewayServer) : GatewayServer :=
  with_rates (<[ip := MkClientRateInfo now (minute_count now (rate_entry s ip)) (hour_count now (rate_entry s ip))]>
    (client_rates s)) s.

Lemma check_rate_eq env ip s :
  RateLimitMutex ∉ held_mutexes s →
  check_rate_limit env ip s = Ok (rate_allows (clock env) ip s, rate_noted (clock env) ip s).
Proof. intros Hm. unfold check_rate_limit. rewrite guarded_free by done. by destruct s. Qed.

(** The answers to requests of one client at the given times. *)
Fixpoint rate_answers (ip : bytes) (times : list Z) (s : GatewayServer) : list bool :=
  match times with
  | [] => []
  | now :: times => rate_allows now ip s :: rate_answers ip times (rate_noted now ip s)
  end.

(** Each time less than a minute after the one before. *)
Fixpoint busy (before : Z) (times : list Z) : Prop :=
  match times with
  | [] => True
  | now :: times => seconds_between now before < 60 ∧ busy now times
  end.

Lemma busy_answers ip times s k :
  0 <= k → k + len times < 2 ^ 64 →
  requests_this_minute (rate_entry s ip) = k → requests_this_hour (rate_entry s ip) = k →
  busy (last_request (rate_entry s ip)) times →
  rate_answers ip times s =
    (λ i, (k + i <=? max_requests_per_minute (gw_config s)) && (k + i <=? max_requests_per_hour (gw_config s))) <$>
      (Z.of_nat <$> seq 1 (length times)).
Proof.
  revert s k. induction times as [|now times IH]; intros s k Hk Hb Hm Hh Hbusy; [done|].
  destruct Hbusy as [Hgap Hbusy]. rewrite len_cons in Hb. cbn [rate_answers length seq fmap list_fmap].
  pose proof (len_nonneg times).
  assert (minute_count now (rate_entry s ip) = k + 1 ∧ hour_count now (rate_entry s ip) = k + 1) as [Em Eh].
  { unfold minute_count, hour_count. rewrite Hm, Hh, !(proj2 (Z.leb_gt _ _)) by lia.
    rewrite wrap_small by (unfold in_u; lia). done. }
  f_equal.
  - unfold rate_allows. by rewrite Em, Eh.
  - rewrite (IH (rate_noted now ip s) (k + 1)).
    + rewrite <- (fmap_S_seq 1). rewrite <- !list_fmap_compose. apply list_fmap_ext. intros i x _.
      cbn. by replace (k + 1 + Z.of_nat x) with (k + Z.of_nat (S x)) by lia.
    + lia.
    + lia.
    + unfold rate_entry, rate_noted. cbn. by rewrite lookup_insert_eq.
    + unfold rate_entry, rate_noted. cbn. by rewrite lookup_insert_eq.
    + unfold rate_entry, rate_noted. cbn. by rewrite lookup_insert_eq.
Qed.

(** For a client that never pauses for a minute the counters are never reset: exactly the
    first requests up to the limit of a minute, and of an hour, are let through, and none
    after them. *)
Theorem rate_limit_locks_out ip first times s :
  client_rates s !! ip = None → 3600 * 1000000000 <= first → busy first times → len times < 2 ^ 64 - 1 →
  rate_answers ip (first :: times) s =
    (λ i, (i <=? max_requests_per_minute (gw_config s)) && (i <=? max_requests_per_hour (gw_config s))) <$>
      (Z.of_nat <$> seq 1 (S (length times))).
Proof.
  intros Hnone Hfirst Hbusy Hlen. cbn [rate_answers length seq fmap list_fmap]. pose proof (len_nonneg times).
  assert (rate_entry s ip = MkClientRateInfo 0 0 0) as E by (unfold rate_entry; by rewrite Hnone).
  assert (3600 <= seconds_between first 0) as Hs.
  { unfold seconds_between. rewrite Z.sub_0_r. apply Z.quot_le_lower_bound; lia. }
  assert (minute_count first (rate_entry s ip) = 1 ∧ hour_count first (rate_entry s ip) = 1) as [Em Eh].
  { unfold minute_count, hour_count. rewrite E. cbn [last_request requests_this_minute requests_this_hour].
    by rewrite !(proj2 (Z.leb_le _ _)) by lia. }
  f_equal.
  - unfold rate_allows. by rewrite Em, Eh.
  - rewrite (busy_answers ip times (rate_noted first ip s) 1); [| |lia|..].
    + rewrite <- (fmap_S_seq 1). rewrite <- !list_fmap_compose. apply list_fmap_ext. intros i x _. cbn.
      by replace (1 + Z.of_nat x) with (Z.of_nat (S x)) by lia.
    + lia.
    + unfold rate_entry at 1, rate_noted. cbn. by rewrite lookup_insert_eq.
    + unfold rate_entry at 1, rate_noted. cbn. by rewrite lookup_insert_eq.
    + unfold rate_entry at 1, rate_noted. cbn. by rewrite lookup_insert_eq.
Qed.

(** ** What becomes of a request *)

Section Requests.
Context `{Crypto}.

(** The session a request brings with it. *)
Definition known_session (req : HttpRequest) (s : GatewayServer) : option (bytes * GatewaySession) :=
  id ← cookie_session req; x ← gw_sessions s !! id; Some (id, x).

Definition too_many_sessions (s : GatewayServer) : Prop := max_sessions (gw_config s) <= Z.of_nat (size (gw_sessions s)).

Lemma session_full env req s :
  known_session req s = None → too_many_sessions s → get_or_create_session env req s = Undef.
Proof.
  intros Hk Hfull. unfold get_or_create_session, guarded at 1. destruct (decide _); [done|].
  change (gw_sessions (with_mutexes (SessionsMutex :: held_mutexes s) s)) with (gw_sessions s).
  fold (known_session req s). rewrite Hk.
  change (gw_config (with_mutexes (SessionsMutex :: held_mutexes s) s)) with (gw_config s).
  rewrite (proj2 (Z.leb_le _ _)) by done. unfold cleanup_sessions. by rewrite guarded_held by (by left).
Qed.

(** Below the limit the session is the one brought, or a new one. *)
Definition session_taken (env : Environment) (req : HttpRequest) (s : GatewayServer) : bytes * GatewayServer :=
  match known_session req s with
  | Some (id, x) => (id, with_gw_sessions (<[id := touch_session (clock env) x]> (gw_sessions s)) s)
  | None =>
      let id := generate_session_id env in
      (id, with_gw_sessions
             (match gw_sessions s !! id with
              | Some _ => gw_sessions s
              | None => <[id := anonymous_session (clock env) id]> (gw_sessions s)
              end) s)
  end.

Lemma session_eq env req s :
  SessionsMutex ∉ held_mutexes s → (known_session req s = None → ¬ too_many_sessions s) →
  get_or_create_session env req s = Ok (session_taken env req s).
Proof.
  intros Hm Hroom. unfold get_or_create_session, session_taken. rewrite guarded_free by done.
  change (gw_sessions (with_mutexes (SessionsMutex :: held_mutexes s) s)) with (gw_sessions s).
  fold (known_session req s). destruct (known_session req s) as [[id x]|]; [by destruct s|].
  change (gw_config (with_mutexes (SessionsMutex :: held_mutexes s) s)) with (gw_config s).
  rewrite (proj2 (Z.leb_gt _ _)) by (specialize (Hroom eq_refl); unfold too_many_sessions in Hroom; lia).
  by destruct s.
Qed.

Lemma status_held s : StatsMutex ∈ held_mutexes s → handle_status s = Undef.
Proof. intros Hm. unfold handle_status, get_statistics. by rewrite guarded_held. Qed.

Definition refusal (s : GatewayServer) (r : HttpResponse) : Prop :=
  r = apply_cors_headers s (error_response SERVICE_UNAVAILABLE "Rate limit exceeded").

(** C28: a request over the rate limit is refused and changes no session; one within
    it never returns when it asks for the status page, and neither does one without a
    session when the gateway holds as many sessions as it may: both lock a mutex the
    thread already holds. *)
Theorem gateway_deadlocks welcome env req s :
  held_mutexes s = [] →
  (rate_allows (clock env) (client_ip req) s = false →
   ∃ r s', handle_request welcome env req s = Ok (r, s') ∧ refusal s r ∧ gw_sessions s' = gw_sessions s) ∧
  (rate_allows (clock env) (client_ip req) s = true →
   (req_method req = GET → req_path req = str "/api/status" → handlers s !! (GET, str "/api/status") = Some HandleStatus →
    handle_request welcome env req s = Undef) ∧
   (known_session req s = None → too_many_sessions s → handle_request welcome env req s = Undef)).
Proof.
  intros Hfree.
  set (s1 := with_gw_stats (count_request (len (req_body req)) (gw_stats s)) (in_request s)).
  assert (E : handle_request welcome env req s =
    (r ← (if negb (rate_allows (clock env) (client_ip req) s)
          then Ok (apply_cors_headers s (error_response SERVICE_UNAVAILABLE "Rate limit exceeded"), rate_noted (clock env) (client_ip req) s1)
          else
            session ← get_or_create_session env req (rate_noted (clock env) (client_ip req) s1);
            let '(id, s) := session in
            match find_handler env (req_method req) (req_path req) s with
            | None =>
                if bool_decide (req_method req = GET) && negb (starts (str "/api/") (req_path req))
                then Ok (respond (handle_static_file env (static_request req) s) s)
                else Ok (apply_cors_headers s (error_response NOT_FOUND "Not found"), s)
            | Some h =>
                match run_handler welcome env h req id s with
                | Ok (r, s) => Ok (respond r s)
                | Err _ => Ok (apply_cors_headers s (error_response INTERNAL_ERROR "Internal server error"), s)
                | Undef => Undef
                end
            end);
     Ok (r.1, with_mutexes [] r.2))).
  { unfold handle_request. rewrite guarded_free by (rewrite Hfree; apply not_elem_of_nil). rewrite Hfree.
    change (with_mutexes [StatsMutex] s) with (in_request s). fold s1.
    rewrite check_rate_eq by (cbn; by apply (bool_decide_unpack _)). cbn [mbind outcome_bind fst snd].
    done. }
  rewrite E. split.
  - intros ->. cbn [negb mbind outcome_bind fst snd]. eexists _, _. split; [done|]. done.
  - intros ->. cbn [negb]. set (s2 := rate_noted (clock env) (client_ip req) s1). split.
    + intros Hget Hpath Hreg.
      destruct (decide (known_session req s2 = None ∧ too_many_sessions s2)) as [[Hk Hf]|Hok].
      { by rewrite session_full. }
      rewrite session_eq; [|by apply (bool_decide_unpack _)|tauto]. cbn [mbind outcome_bind].
      destruct (session_taken env req s2) as [id s3] eqn:E3.
      assert (handlers s3 = handlers s ∧ held_mutexes s3 = [StatsMutex]) as [Eh Em].
      { unfold session_taken in E3. destruct (known_session req s2) as [[id' x]|]; by injection E3 as _ <-. }
      unfold find_handler. rewrite Hget, Hpath, Eh, Hreg. cbn [run_handler].
      rewrite status_held; [done|]. rewrite Em. by left.
    + intros Hk Hf. by rewrite session_full.
Qed.

(** ** Sessions of a server *)

Definition session_ok (id : bytes) (x : GatewaySession) : Prop :=
  session_id x = id ∧ can_read x = true ∧ can_host x = false ∧ can_post x = negb (is_anonymous x) ∧
  can_vote x = negb (is_anonymous x) ∧ (is_anonymous x = false ↔ is_Some (user_key x)).

Record sessions_ok (s : GatewayServer) : Prop := {
  so_sessions : map_Forall session_ok (gw_sessions s);
  so_count : Z.of_nat (size (gw_sessions s)) <= max_sessions (gw_config s)
}.

(** A handler leaves the sessions alone or authenticates the one it was given. *)
Definition upgraded (id : bytes) (s s' : GatewayServer) : Prop :=
  gw_config s' = gw_config s ∧
  (gw_sessions s' = gw_sessions s ∨
   ∃ x key, gw_sessions s !! id = Some x ∧ gw_sessions s' = <[id := authenticated key x]> (gw_sessions s)).

Lemma upgraded_refl id s : upgraded id s s.
Proof. split; [done|by left]. Qed.

Lemma content_upgrades env req id s r s' : handle_thing_content env req id s = Ok (r, s') → upgraded id s s'.
Proof.
  unfold handle_thing_content. destruct (gw_sessions s !! id) as [x|]; [|done].
  repeat (match goal with
          | |- (if ?b then _ else _) = _ → _ => destruct b; [intros [= _ <-]; apply upgraded_refl|]
          | |- match ?o with Some _ => _ | None => _ end = _ → _ => destruct o; [|intros [= _ <-]; apply upgraded_refl]
          end).
  destruct (render_content _ _ _ _ _) as [got| |]; [|done..]. cbn [mbind outcome_bind].
  destruct got.1; [|intros [= _ <-]; by split; [|left]]. match goal with |- context [if ?b then _ else _] => destruct b end;
    intros [= _ <-]; by split; [|left].
Qed.

Lemma authenticate_upgrades req id s r s' : handle_authenticate req id s = Ok (r, s') → upgraded id s s'.
Proof.
  unfold handle_authenticate. cbv zeta.
  repeat (match goal with
          | |- (if ?b then _ else _) = _ → _ => destruct b; [intros [= _ <-]; apply upgraded_refl|]
          | |- match ?o with Some _ => _ | None => _ end = _ → _ =>
              first [destruct o eqn:?; [|done]; intros [= _ <-]; split; [done|right; by eauto]
                    |destruct o; [|intros [= _ <-]; apply upgraded_refl]]
          end).
Qed.

Lemma handler_upgrades welcome env h req id s r s' :
  run_handler welcome env h req id s = Ok (r, s') → upgraded id s s'.
Proof.
  destruct h; cbn [run_handler]; try (intros [= _ <-]; apply upgraded_refl).
  - unfold handle_status. destruct (get_statistics s) as [st| |] eqn:E; [|done..]. cbn [mbind outcome_bind].
    intros [_ <-]%Ok_inj%pair_equal_spec. unfold get_statistics in E. apply guarded_Ok in E as (_ & r1 & E & ->).
    apply guarded_Ok in E as (_ & r2 & <-%Ok_inj & ->). by split; [|left].
  - apply content_upgrades.
  - apply authenticate_upgrades.
Qed.

Lemma upgraded_ok id s s' :
  upgraded id s s' → sessions_ok s →
  sessions_ok s' ∧ dom (gw_sessions s') = dom (gw_sessions s) ∧ size (gw_sessions s') = size (gw_sessions s).
Proof.
  intros [Hc [E|(x & key & Hx & E)]] [W1 W2].
  - rewrite E. split; [|done]. split; by rewrite E, ?Hc.
  - assert (size (gw_sessions s') = size (gw_sessions s)) as Es by (rewrite E; by apply map_size_insert_Some).
    split; [|split; [rewrite E; apply dom_insert_lookup_L; eauto|done]]. split.
    + rewrite E. apply map_Forall_insert_2; [|done]. destruct (W1 id x Hx) as (? & ? & ? & _ & _ & _). by split_and!.
    + by rewrite Es, Hc.
Qed.

Lemma taken_ok env req s :
  sessions_ok s → (known_session req s = None → ¬ too_many_sessions s) →
  let s' := (session_taken env req s).2 in
  sessions_ok s' ∧ dom (gw_sessions s) ⊆ dom (gw_sessions s') ∧
  (known_session req s = None → gw_sessions s !! generate_session_id env = None →
   size (gw_sessions s') = S (size (gw_sessions s))).
Proof.
  intros [W1 W2] Hroom. unfold session_taken. destruct (known_session req s) as [[id x]|] eqn:Ek.
  - assert (gw_sessions s !! id = Some x) as Hx.
    { unfold known_session in Ek. destruct (cookie_session req) as [id'|]; [|done]. cbn in Ek.
      destruct (gw_sessions s !! id') as [x'|] eqn:Ex; [|done]. cbn in Ek. by simplify_eq. }
    cbn. split; [|split; [set_solver|done]]. split; cbn.
    + apply map_Forall_insert_2; [|done]. destruct (W1 id x Hx) as (? & ? & ? & ? & ? & ?). by split_and!.
    + by rewrite map_size_insert_Some by eauto.
  - cbn. set (id := generate_session_id env). destruct (gw_sessions s !! id) as [x|] eqn:Ex; [by split|].
    split; [|split; [set_solver|intros _ _; by apply map_size_insert_None]]. split; cbn.
    + apply map_Forall_insert_2; [|done]. unfold session_ok. cbn. split_and!; try done.
    + rewrite map_size_insert_None by done. specialize (Hroom eq_refl). unfold too_many_sessions in Hroom. lia.
Qed.

(** A request that returns keeps the sessions well formed and removes none; one from a
    client without a session adds exactly one, since no client is ever told the identifier
    of its session. *)
Theorem gateway_sessions_sound welcome env req s r s' :
  sessions_ok s → handle_request welcome env req s = Ok (r, s') →
  sessions_ok s' ∧ dom (gw_sessions s) ⊆ dom (gw_sessions s') ∧
  (rate_allows (clock env) (client_ip req) s = true → known_session req s = None →
   gw_sessions s !! generate_session_id env = None →
   size (gw_sessions s') = S (size (gw_sessions s)) ∧ Z.of_nat (size (gw_sessions s)) < max_sessions (gw_config s)).
Proof.
  intros W E. unfold handle_request in E. apply guarded_Ok in E as (_ & [r1 s1] & E & [= -> ->]). cbn [snd].
  change (gw_sessions (with_mutexes (held_mutexes s) s1)) with (gw_sessions s1).
  assert (sessions_ok (with_mutexes (held_mutexes s) s1) ↔ sessions_ok s1) as -> by (by split; intros []).
  set (s0 := with_gw_stats _ _) in E.
  destruct (check_rate_limit env (client_ip req) s0) as [[ok s2]| |] eqn:Er; [|done..]. cbn [mbind outcome_bind fst snd] in E.
  pose proof Er as Er'. unfold check_rate_limit in Er'. apply guarded_Ok in Er' as (Hm & _ & _ & _).
  rewrite check_rate_eq in Er by done. injection Er as <- <-.
  change (rate_allows (clock env) (client_ip req) s0) with (rate_allows (clock env) (client_ip req) s) in E.
  set (s2 := rate_noted (clock env) (client_ip req) s0) in E.
  assert (sessions_ok s2) as W2 by (destruct W; by split).
  change (known_session req s) with (known_session req s2). change (gw_sessions s) with (gw_sessions s2).
  change (gw_config s) with (gw_config s2).
  destruct (rate_allows (clock env) (client_ip req) s); cbn [negb] in E; [|by injection E as _ <-].
  destruct (get_or_create_session env req s2) as [t| |] eqn:Et; [|done..]. cbn [mbind outcome_bind] in E.
  assert (known_session req s2 = None → ¬ too_many_sessions s2) as Hroom.
  { intros Hk Hf. by rewrite session_full in Et. }
  assert (SessionsMutex ∉ held_mutexes s2) as Hm2.
  { unfold get_or_create_session in Et. by apply guarded_Ok in Et as [? _]. }
  rewrite session_eq in Et by done. injection Et as <-.
  destruct (taken_ok env req s2 W2 Hroom) as (W3 & Hdom & Hnew). cbv zeta in *.
  destruct (session_taken env req s2) as [id s3]. cbn [snd] in W3, Hdom, Hnew.
  assert (Hend : upgraded id s3 s1).
  { destruct (find_handler _ _ _ s3) as [h|].
    - destruct (run_handler welcome env h req id s3) as [[r4 s4]| |] eqn:Eh; [| |done].
      + injection E as _ <-. apply (handler_upgrades _ _ _ _ _ _ _ _ Eh).
      + injection E as _ <-. apply upgraded_refl.
    - match type of E with (if ?b then _ else _) = _ => destruct b end; injection E as _ <-; by split; [|left]. }
  destruct (upgraded_ok id s3 s1 Hend W3) as (W4 & Ed & Es). split; [done|]. split; [by rewrite Ed|].
  intros _ Hk Hfresh. rewrite Es. split; [by apply Hnew|]. specialize (Hroom Hk). unfold too_many_sessions in Hroom. lia.
Qed.

End Requests.

(** ** Files *)

(** A path relative to the root leads up, or the root is above it. *)
Lemma relative_below p base :
  starts (str "..") (joined (lexically_relative p base)) = false → ∃ rest, p = base ++ rest.
Proof.
  assert (Hup : ∀ l r, l ≠ [] → starts (str "..") (joined (replicate (length (l : list bytes)) (str "..") ++ r)) = true).
  { intros [|x l] r Hl; [done|]. cbn [length replicate app].
    destruct (replicate (length l) (str "..") ++ r); [done|]. apply starts_app. eexists. reflexivity. }
  revert base. induction p as [|c p IH]; intros [|d base] Hs.
  - by exists [].
  - cbn [lexically_relative] in Hs. by rewrite Hup in Hs.
  - by exists (c :: p).
  - cbn [lexically_relative] in Hs. destruct (decide (c = d)) as [->|]; [|by rewrite Hup in Hs].
    destruct (IH base Hs) as [rest ->]. by exists rest.
Qed.

Lemma sent_file env p :
  res_status (send_file env p) = OK → ∃ data, file_at env (path_text p) = Contents data ∧ res_body (send_file env p) = data.
Proof.
  unfold send_file. destruct (negb _); [done|]. destruct (file_at env (path_text p)) as [| | |data]; [done..|]. by exists data.
Qed.

(** C26: with directory listings off, whatever path is asked for, a static file is
    served only if it is a regular file under the resolved web root without an
    executable extension, and then with exactly its contents. *)
Theorem static_files_inside env req s :
  enable_directory_listing (gw_config s) = false →
  res_status (handle_static_file env req s) = OK →
  ∃ root rest data, resolve_web_root env (web_root (gw_config s)) = Some root ∧
    file_at env (path_text (root ++ rest)) = Contents data ∧
    is_regular_file env (path_text (root ++ rest)) = true ∧
    to_lower_ascii (path_extension (default [] (list.last (root ++ rest)))) ∉ executable_extensions ∧
    res_body (handle_static_file env req s) = data.
Proof.
  intros Hlist. unfold handle_static_file.
  destruct (resolve_web_root env (web_root (gw_config s))) as [root|] eqn:Er; [|done].
  destruct (weakly_canonical env _) as [resolved|]; [|done]. rewrite Hlist.
  destruct (starts (str "..") (joined (lexically_relative resolved root))) eqn:Eup; [by rewrite orb_true_r|].
  destruct (relative_below _ _ Eup) as [rest ->]. clear Eup.
  match goal with |- context [if ?b then error_response FORBIDDEN _ else _] => destruct b; [done|] end.
  match goal with |- context [if ?b then error_response FORBIDDEN _ else _] => destruct b eqn:Eext; [done|] end.
  apply orb_false_iff in Eext as [_ Eext%bool_decide_eq_false].
  assert (Hfile : ∀ p, res_status (send_file env p) = OK → is_regular_file env (path_text p) = true).
  { intros p. unfold send_file. destruct (path_exists env (path_text p)); [|done]. by destruct (is_regular_file env (path_text p)). }
  destruct (is_directory env (path_text (root ++ rest))).
  - cbn [negb]. destruct (_ && _); [|done]. rewrite <- app_assoc. intros Hs.
    destruct (sent_file _ _ Hs) as (data & Hd & Hb). exists root, (rest ++ [str "index.html"]), data.
    split; [done|]. split; [done|]. split; [by apply Hfile|]. split; [|done].
    rewrite app_assoc, last_snoc. by apply (bool_decide_unpack _); vm_compute.
  - intros Hs. destruct (sent_file _ _ Hs) as (data & Hd & Hb). exists root, rest, data.
    split; [done|]. split; [done|]. split; [by apply Hfile|]. done.
Qed.

(** The check for CGI directories misses one directly below the root. *)
Example cgi_bin_served : find (str "/cgi-bin/") 0 (joined [str "cgi-bin"; str "run.sh"]) = None.
Proof. vm_compute. reflexivity. Qed.

(** ** Content *)

(** A thing served under a hash has that hash. *)
Theorem served_content_authentic `{Crypto} env req id s r s' :
  handle_thing_content env req id s = Ok (r, s') → res_status r = OK →
  hash_of_path (drop 11 (req_path req)) = Some (blake3 (res_body r)).
Proof.
  unfold handle_thing_content. destruct (gw_sessions s !! id) as [x|]; [|done].
  do 3 (match goal with |- (if ?b then _ else _) = _ → _ => destruct b; [by intros [<- _]%Ok_inj%pair_equal_spec|] end).
  destruct (hash_of_path (drop 11 (req_path req))) as [h|]; [|by intros [<- _]%Ok_inj%pair_equal_spec].
  destruct (content_renderer s) as [rr|]; [|by intros [<- _]%Ok_inj%pair_equal_spec].
  destruct (render_content _ _ _ _ _) as [got| |]; [|done..]. cbn [mbind outcome_bind].
  destruct got.1 as [result|]; [|by intros [<- _]%Ok_inj%pair_equal_spec].
  destruct (is_valid (verify_content (rr_data result) h)) eqn:Ev; [|by intros [<- _]%Ok_inj%pair_equal_spec].
  cbn [negb]. intros [<- _]%Ok_inj%pair_equal_spec _. cbn in Ev. apply bool_decide_eq_true in Ev.
  unfold content_response. rewrite <- Ev. by destruct (is_cacheable _).
Qed.

(** ** Authentication *)

(** The body names a key and carries a signature of its message under it; the
    message is whatever the body says. *)
Definition proves `{Crypto} (body : bytes) (key : PublicKey) : Prop :=
  let message := find_field body (str "message") in
  body ≠ [] ∧ message ≠ [] ∧ find_field body (str "public_key") ≠ [] ∧ find_field body (str "signature") ≠ [] ∧
  Ed25519.public_key_from_hex (find_field body (str "public_key")) = Some key ∧
  ∃ sg, Ed25519.signature_from_hex (find_field body (str "signature")) = Some sg ∧ Ed25519.verify message sg key = true.

(** Any body that once authenticated a key authenticates it again in every session, since
    nothing in what is signed names the session or the time; any other body is refused and
    changes nothing. *)
Theorem authentication_replays `{Crypto} req id s x :
  gw_sessions s !! id = Some x →
  (∀ key, proves (req_body req) key →
     ∃ r, handle_authenticate req id s = Ok (r, set_session id (authenticated key x) s) ∧ res_status r = OK) ∧
  ((∀ key, ¬ proves (req_body req) key) → ∃ r, handle_authenticate req id s = Ok (r, s) ∧ res_status r ≠ OK).
Proof.
  intros Hx. unfold handle_authenticate. split.
  - intros key (Hb & Hm & Hk & Hsg & Ek & sg & Es & Hv). rewrite bool_decide_eq_false_2 by done. cbv zeta.
    rewrite bool_decide_eq_false_2 by tauto. rewrite Ek, Es, Hv, Hx. cbn [negb]. eexists. split; [reflexivity|done].
  - intros Hno. case_bool_decide as Hb; [by eexists|]. cbv zeta. case_bool_decide as Hf; [by eexists|].
    destruct (Ed25519.public_key_from_hex _) as [key|] eqn:Ek; [|by eexists].
    destruct (Ed25519.signature_from_hex _) as [sg|] eqn:Es; [|by eexists].
    destruct (Ed25519.verify _ sg key) eqn:Ev; [|by eexists]. destruct (Hno key). unfold proves. cbv zeta.
    split_and!; try tauto. by exists sg.
Qed.

(** ** A small site *)

Module Sample.
Definition site : bytes := str "/srv/web".
Definition index : bytes := str "/srv/web/index.html".
Definition env : Environment := {|
  clock := 5000 * 1000000000;
  session_random := str "random";
  current_path := Some (str "/srv");
  weakly_canonical p :=
    if bool_decide (p = str "./web" ∨ p = site) then Some [str "srv"; str "web"]
    else if bool_decide (p = index) then Some [str "srv"; str "web"; str "index.html"] else None;
  path_exists p := bool_decide (p = site ∨ p = index);
  is_directory p := bool_decide (p = site);
  is_regular_file p := bool_decide (p = index);
  file_at p := if bool_decide (p = index) then Contents (str "hello") else CannotOpen;
  directory_entries _ := [];
  content_opened _ := true;
  metadata_opened _ := true;
  cache_order m := map_to_list m;
  route_order m := map_to_list m;
  print_float _ := []
|}.
Definition asks (m : HttpMethod) (path body : bytes) : HttpRequest := MkHttpRequest m path ∅ ∅ body (str "10.0.0.9").
Definition up : GatewayServer := new_gateway env default_gateway_config.
Definition secret : SecretKey := array_fill 64 (to_byte 7).
Definition key : PublicKey := toy_public secret.
Definition message : bytes := str "let me in".
Definition login : bytes :=
  quoted "{'public_key': '" ++ Ed25519.public_key_to_hex key ++ quoted "', 'message': '" ++ message ++
  quoted "', 'signature': '" ++ Ed25519.signature_to_hex (toy_sign message key) ++ quoted "'}".
Definition visitor : GatewaySession := anonymous_session 7 (str "s1").
Definition visited : GatewayServer := set_session (str "s1") visitor up.
Definition page : bytes := str "the page".
Definition name : Hash256 := @blake3 toy_crypto page.
Definition serving : GatewayServer :=
  set_content_renderer (new_renderer default_renderer_config)
    (set_storage (put_content name page Written new_storage).2 visited).
End Sample.

Lemma gateway_deadlocks_witness :
  @handle_request toy_crypto [] Sample.env (Sample.asks GET (str "/api/status") []) Sample.up = Undef.
Proof.
  destruct (@gateway_deadlocks toy_crypto [] Sample.env (Sample.asks GET (str "/api/status") []) Sample.up eq_refl)
    as [_ Hd]. refine (proj1 (Hd _) _ _ _); vm_compute; reflexivity.
Defined.

Lemma rate_limit_locks_out_witness :
  rate_answers (str "10.0.0.9") [4000 * 1000000000; 4059 * 1000000000; 4118 * 1000000000] Sample.up =
    [true; true; true].
Proof.
  etransitivity;
    [apply (rate_limit_locks_out (str "10.0.0.9") (4000 * 1000000000) [4059 * 1000000000; 4118 * 1000000000] Sample.up)|].
  - reflexivity.
  - vm_compute. discriminate.
  - split; [vm_compute; reflexivity|]. split; [vm_compute; reflexivity|exact I].
  - vm_compute. reflexivity.
  - vm_compute. reflexivity.
Defined.

Lemma gateway_sessions_sound_witness :
  ∃ r s, @handle_request toy_crypto [] Sample.env (Sample.asks GET (str "/health") []) Sample.up = Ok (r, s) ∧
    size (gw_sessions s) = 1%nat.
Proof.
  destruct (is_ok_ex (@handle_request toy_crypto [] Sample.env (Sample.asks GET (str "/health") []) Sample.up))
    as [[r s] E]; [vm_compute; reflexivity|].
  exists r, s. split; [exact E|].
  destruct (@gateway_sessions_sound toy_crypto [] Sample.env (Sample.asks GET (str "/health") []) Sample.up r s)
    as (_ & _ & Hn); [split; [apply map_Forall_empty|vm_compute; discriminate]|exact E|].
  destruct Hn as [Hs _]; [vm_compute; reflexivity..|]. rewrite Hs. vm_compute. reflexivity.
Defined.

Lemma static_files_inside_witness :
  ∃ root rest data, resolve_web_root Sample.env (str "./web") = Some root ∧
    file_at Sample.env (path_text (root ++ rest)) = Contents data ∧
    res_body (handle_static_file Sample.env (Sample.asks GET (str "/static//") []) Sample.up) = data.
Proof.
  destruct (static_files_inside Sample.env (Sample.asks GET (str "/static//") []) Sample.up)
    as (root & rest & data & Hr & Hd & _ & _ & Hb); [reflexivity|vm_compute; reflexivity|].
  exists root, rest, data. split; [exact Hr|]. split; [exact Hd|exact Hb].
Defined.

Lemma served_content_authentic_witness :
  ∃ r s, @handle_thing_content toy_crypto Sample.env
      (Sample.asks GET (str "/api/thing/" ++ hash_to_hex Sample.name) []) (str "s1") Sample.serving = Ok (r, s) ∧
    hash_of_path (hash_to_hex Sample.name) = Some (@blake3 toy_crypto (res_body r)).
Proof.
  destruct (is_ok_ex (@handle_thing_content toy_crypto Sample.env
    (Sample.asks GET (str "/api/thing/" ++ hash_to_hex Sample.name) []) (str "s1") Sample.serving)) as [[r s] E];
    [vm_compute; reflexivity|].
  exists r, s. split; [exact E|].
  apply (@served_content_authentic toy_crypto Sample.env
    (Sample.asks GET (str "/api/thing/" ++ hash_to_hex Sample.name) []) (str "s1") Sample.serving r s E).
  assert (match @handle_thing_content toy_crypto Sample.env
    (Sample.asks GET (str "/api/thing/" ++ hash_to_hex Sample.name) []) (str "s1") Sample.serving with
    | Ok (r, _) => res_status r | _ => NOT_FOUND end = OK) as Hs by (vm_compute; reflexivity).
  rewrite E in Hs. exact Hs.
Defined.

Lemma authentication_replays_witness :
  ∃ r, @handle_authenticate toy_crypto (Sample.asks POST (str "/api/auth") Sample.login) (str "s1") Sample.visited =
      Ok (r, set_session (str "s1") (authenticated Sample.key Sample.visitor) Sample.visited) ∧
    res_status r = OK.
Proof.
  apply (@authentication_replays toy_crypto (Sample.asks POST (str "/api/auth") Sample.login) (str "s1")
    Sample.visited Sample.visitor); [vm_compute; reflexivity|].
  split; [discriminate|]. split; [vm_compute; discriminate|]. split; [vm_compute; discriminate|].
  split; [vm_compute; discriminate|]. split; [apply (bool_decide_unpack _); vm_compute; exact I|].
  exists (toy_sign Sample.message Sample.key).
  split; [apply (bool_decide_unpack _); vm_compute; exact I|vm_compute; reflexivity].
Defined.
