(* ===== verification/Connection.v ===== *)
(** Connections: [SocketAddress], [BandwidthLimiter], [TCPConnection] and
    [ConnectionManager] of src/network/connection.hpp and connection.cpp, and the
    manager of network/activity_monitor.cpp that watches them.

    The operating system is an argument of the operations that call it: whether
    a socket is created, what the name resolves to, which address accepts, and
    what [send] and [recv] return, one answer per call.  The monotonic clock in
    nanoseconds is [now].  Connections are shared, so the manager keeps handles
    into a heap; the bandwidth limiter is one object for all of them.  A callback
    carries the peer it was installed for, and the calls made are returned. *)

From Stdlib Require Import Strings.Byte.
From S2P Require Import Prelude Common Text PoStake Activity.

(** ** Addresses *)

Inductive AddressFamily := IPv4 | IPv6 | ANY.

#[export] Instance family_eq_dec : EqDecision AddressFamily.
Proof. solve_decision. Defined.

Record SocketAddress := MkSocketAddress { host : bytes; port : Z; family : AddressFamily }.

#[export] Instance address_eq_dec : EqDecision SocketAddress.
Proof. solve_decision. Defined.

Definition no_address : SocketAddress := MkSocketAddress [] 0 ANY.

Definition to_string (a : SocketAddress) : bytes :=
  if decide (family a = IPv6) then str "[" ++ host a ++ str "]:" ++ dec (port a)
  else host a ++ str ":" ++ dec (port a).

(** [static_cast<uint16_t>(std::stoi(text))] *)
Definition read_port (text : bytes) : outcome Z := p ← stoi text; Ok (u16 p).

(** [addr[0]] of an empty string is the terminating zero. *)
Definition from_string (addr : bytes) : outcome SocketAddress :=
  if decide (head addr = Some "["%byte) then
    match find_char "]"%byte 0 addr with
    | None => Err ENullopt
    | Some close =>
        if decide (addr !! (close + 1)%nat = Some ":"%byte) then
          p ← read_port (drop (close + 2) addr);
          Ok (MkSocketAddress (take (close - 1) (drop 1 addr)) p IPv6)
        else Err ENullopt
    end
  else
    match rfind_char ":"%byte (length addr) addr with
    | None => Err ENullopt
    | Some colon =>
        let h := take colon addr in
        p ← read_port (drop (colon + 1) addr);
        Ok (MkSocketAddress h p (if decide (":"%byte ∈ h) then IPv6 else IPv4))
    end.

Definition is_ipv4 (a : SocketAddress) : bool :=
  bool_decide (family a = IPv4) || (bool_decide (family a = ANY) && bool_decide (":"%byte ∉ host a)).

Definition is_ipv6 (a : SocketAddress) : bool :=
  bool_decide (family a = IPv6) || (bool_decide (family a = ANY) && bool_decide (":"%byte ∈ host a)).

(** ** Limiting bandwidth *)

Record BandwidthLimiter := MkBandwidthLimiter {
  bytes_per_second : Z;
  tx_tokens : Z;
  rx_tokens : Z;
  last_update : Z
}.

Definition new_limiter (now limit : Z) : BandwidthLimiter := MkBandwidthLimiter limit limit limit now.

(** [duration_cast] truncates to whole milliseconds, but the clock reading that
    is kept has the rest. *)
Definition refill_tokens (now : Z) (l : BandwidthLimiter) : BandwidthLimiter :=
  let elapsed := Z.quot (now - last_update l) 1000000 in
  if 0 <? elapsed then
    let add := u64 (bytes_per_second l * u64 elapsed) / 1000 in
    MkBandwidthLimiter (bytes_per_second l) (Z.min (u64 (tx_tokens l + add)) (bytes_per_second l))
      (Z.min (u64 (rx_tokens l + add)) (bytes_per_second l)) now
  else l.

Definition can_send (n now : Z) (l : BandwidthLimiter) : bool * BandwidthLimiter :=
  let l := refill_tokens now l in (n <=? tx_tokens l, l).

Definition can_receive (n now : Z) (l : BandwidthLimiter) : bool * BandwidthLimiter :=
  let l := refill_tokens now l in (n <=? rx_tokens l, l).

Definition record_sent (n now : Z) (l : BandwidthLimiter) : BandwidthLimiter :=
  let l := refill_tokens now l in
  MkBandwidthLimiter (bytes_per_second l) (if n <=? tx_tokens l then tx_tokens l - n else 0) (rx_tokens l)
    (last_update l).

Definition record_received (n now : Z) (l : BandwidthLimiter) : BandwidthLimiter :=
  let l := refill_tokens now l in
  MkBandwidthLimiter (bytes_per_second l) (tx_tokens l) (if n <=? rx_tokens l then rx_tokens l - n else 0)
    (last_update l).

Definition get_bytes_sent_per_second (l : BandwidthLimiter) : Z := u64 (bytes_per_second l - tx_tokens l).

Definition get_bytes_received_per_second (l : BandwidthLimiter) : Z := u64 (bytes_per_second l - rx_tokens l).

Definition set_limit (n : Z) (l : BandwidthLimiter) : BandwidthLimiter :=
  MkBandwidthLimiter n (tx_tokens l) (rx_tokens l) (last_update l).

Inductive limiter_op :=
  | CanSend (n : Z)
  | CanReceive (n : Z)
  | RecordSent (n : Z)
  | RecordReceived (n : Z)
  | SetLimit (n : Z).

Definition limiter_step (now : Z) (op : limiter_op) (l : BandwidthLimiter) : bool * BandwidthLimiter :=
  match op with
  | CanSend n => can_send n now l
  | CanReceive n => can_receive n now l
  | RecordSent n => (true, record_sent n now l)
  | RecordReceived n => (true, record_received n now l)
  | SetLimit n => (true, set_limit n l)
  end.

Fixpoint limiter_run (ops : list (Z * limiter_op)) (l : BandwidthLimiter) : list bool * BandwidthLimiter :=
  match ops with
  | [] => ([], l)
  | (now, op) :: ops =>
      let '(b, l) := limiter_step now op l in
      let '(bs, l) := limiter_run ops l in (b :: bs, l)
  end.

(** ** TCP connections *)

Inductive ConnectionState := DISCONNECTED | CONNECTING | CONNECTED | DISCONNECTING | CONN_ERROR.

#[export] Instance connection_state_eq_dec : EqDecision ConnectionState.
Proof. solve_decision. Defined.

(** Each callback, when set, reports to the peer it was installed for. *)
Record Callbacks := MkCallbacks {
  data_callback : option NodeID;
  error_callback : option NodeID;
  connected_callback : option NodeID;
  disconnected_callback : option NodeID
}.

Inductive Called :=
  | OnData (peer : NodeID) (data : bytes)
  | OnError (peer : NodeID) (what : bytes)
  | OnConnected (peer : NodeID)
  | OnDisconnected (peer : NodeID).

Definition on_error (what : string) (k : Callbacks) : list Called :=
  match error_callback k with Some p => [OnError p (str what)] | None => [] end.

Definition on_connected (k : Callbacks) : list Called :=
  match connected_callback k with Some p => [OnConnected p] | None => [] end.

Definition on_disconnected (k : Callbacks) : list Called :=
  match disconnected_callback k with Some p => [OnDisconnected p] | None => [] end.

(** [socket_open] is [socket_fd_ != INVALID_SOCKET]; [limited] tells whether a
    bandwidth limiter was set. *)
Record TCPConnection := MkTCPConnection {
  socket_open : bool;
  state : ConnectionState;
  local_addr : SocketAddress;
  remote_addr : SocketAddress;
  bytes_sent : Z;
  bytes_received : Z;
  tcp_connected_at : Z;
  limited : bool;
  callbacks : Callbacks
}.

Definition new_connection : TCPConnection :=
  MkTCPConnection false DISCONNECTED no_address no_address 0 0 0 false (MkCallbacks None None None None).

Definition with_socket (o : bool) (s : ConnectionState) (c : TCPConnection) : TCPConnection :=
  MkTCPConnection o s (local_addr c) (remote_addr c) (bytes_sent c) (bytes_received c) (tcp_connected_at c)
    (limited c) (callbacks c).
Definition with_remote (a : SocketAddress) (c : TCPConnection) : TCPConnection :=
  MkTCPConnection (socket_open c) (state c) (local_addr c) a (bytes_sent c) (bytes_received c)
    (tcp_connected_at c) (limited c) (callbacks c).
Definition with_local (a : SocketAddress) (t : Z) (c : TCPConnection) : TCPConnection :=
  MkTCPConnection (socket_open c) (state c) a (remote_addr c) (bytes_sent c) (bytes_received c) t (limited c)
    (callbacks c).
Definition with_counts (sent received : Z) (c : TCPConnection) : TCPConnection :=
  MkTCPConnection (socket_open c) (state c) (local_addr c) (remote_addr c) sent received (tcp_connected_at c)
    (limited c) (callbacks c).
Definition set_bandwidth_limiter (b : bool) (c : TCPConnection) : TCPConnection :=
  MkTCPConnection (socket_open c) (state c) (local_addr c) (remote_addr c) (bytes_sent c) (bytes_received c)
    (tcp_connected_at c) b (callbacks c).
Definition with_callbacks (k : Callbacks) (c : TCPConnection) : TCPConnection :=
  MkTCPConnection (socket_open c) (state c) (local_addr c) (remote_addr c) (bytes_sent c) (bytes_received c)
    (tcp_connected_at c) (limited c) k.

(** What the system answers while a connection is made: is there a socket, the
    addresses the name resolves to, each with whether it accepts, and the
    numeric host and service of the local end, when [getsockname] knows it. *)
Record Dial := MkDial {
  socket_created : bool;
  resolved : option (list bool);
  local_name : option (bytes * bytes)
}.

Definition is_connected (c : TCPConnection) : bool := bool_decide (state c = CONNECTED).

Definition connect (addr : SocketAddress) (d : Dial) (now : Z) (c : TCPConnection) :
    outcome (bool * TCPConnection * list Called) :=
  if decide (state c = DISCONNECTED) then
    let c := with_remote addr c in
    let fam := if is_ipv6 addr then IPv6 else IPv4 in
    if socket_created d then
      match resolved d with
      | None => Ok (false, with_socket false CONN_ERROR c, [])
      | Some tries =>
          if existsb id tries then
            let c := with_local (local_addr c) now (with_socket true CONNECTED c) in
            c ← match local_name d with
                | None => Ok c
                | Some (h, service) => p ← read_port service; Ok (with_local (MkSocketAddress h p fam) now c)
                end;
            Ok (true, c, on_connected (callbacks c))
          else Ok (false, with_socket false CONN_ERROR c, [])
      end
    else Ok (false, with_socket false CONN_ERROR c, [])
  else Ok (false, c, []).

Definition disconnect (c : TCPConnection) : TCPConnection * list Called :=
  if decide (state c = DISCONNECTED) then (c, [])
  else (with_socket false DISCONNECTED c, on_disconnected (callbacks c)).

(** What one call of [::send] returns: the bytes taken, or an error. *)
Inductive send_answer := Accepted (n : Z) | SendBlocked | SendFailed.

(** The loop over [::send]; [None] while it still waits. *)
Fixpoint send_loop (size total : Z) (answers : list send_answer) : option bool * Z :=
  if total <? size then
    match answers with
    | [] => (None, total)
    | Accepted n :: answers => send_loop size (u64 (total + n)) answers
    | SendBlocked :: answers => send_loop size total answers
    | SendFailed :: _ => (Some false, total)
    end
  else (Some true, total).

(** What [send] does: its result, the bytes handed to the system, the
    connection, the limiter and the callbacks.  The clock is read again when the
    bytes are recorded. *)
Definition send (data : bytes) (answers : list send_answer) (now later : Z) (c : TCPConnection)
    (l : BandwidthLimiter) : option bool * bytes * TCPConnection * BandwidthLimiter * list Called :=
  if is_connected c then
    let '(allowed, l) := if limited c then can_send (len data) now l else (true, l) in
    if allowed : bool then
      let '(result, total) := send_loop (len data) 0 answers in
      let wire := take (Z.to_nat total) data in
      match result with
      | Some true =>
          (Some true, wire, with_counts (u64 (bytes_sent c + len data)) (bytes_received c) c,
            if limited c then record_sent (len data) later l else l, [])
      | Some false => (Some false, wire, c, l, on_error "Send failed" (callbacks c))
      | None => (None, wire, c, l, [])
      end
    else (Some false, [], c, l, [])
  else (Some false, [], c, l, []).

(** What [::recv] returns; no bytes when the other end has closed. *)
Inductive recv_answer := Received (d : bytes) | RecvBlocked | RecvFailed.

Definition receive (max_bytes : Z) (answer : recv_answer) (now later : Z) (c : TCPConnection)
    (l : BandwidthLimiter) : option bytes * TCPConnection * BandwidthLimiter * list Called :=
  if is_connected c then
    let '(allowed, l) := if limited c then can_receive max_bytes now l else (true, l) in
    if allowed : bool then
      match answer with
      | RecvBlocked => (None, c, l, [])
      | RecvFailed => (None, c, l, on_error "Receive failed" (callbacks c))
      | Received [] => (None, c, l, [])
      | Received d =>
          (Some d, with_counts (bytes_sent c) (u64 (bytes_received c + len d)) c,
            if limited c then record_received (len d) later l else l, [])
      end
    else (None, c, l, [])
  else (None, c, l, []).

Definition connection_duration (now : Z) (c : TCPConnection) : Z :=
  if decide (state c = CONNECTED) then Z.quot (now - tcp_connected_at c) 1000000000 else 0.

(** ** The manager *)

Record ConnectionManager := MkConnectionManager {
  heap : list TCPConnection;
  connections : gmap bytes nat;
  global_limiter : BandwidthLimiter
}.

Definition new_connection_manager (now : Z) : ConnectionManager :=
  MkConnectionManager [] ∅ (new_limiter now 10485760).

Definition generate_connection_id (a : SocketAddress) : bytes := to_string a.

(** A connection that could not be made is destroyed. *)
Definition create_connection (addr : SocketAddress) (d : Dial) (now : Z) (m : ConnectionManager) :
    outcome (option nat * ConnectionManager) :=
  let id := generate_connection_id addr in
  match connections m !! id with
  | Some h => Ok (Some h, m)
  | None =>
      '(b, c, _) ← connect addr d now (set_bandwidth_limiter true new_connection);
      if (b : bool) then
        Ok (Some (length (heap m)),
            MkConnectionManager (heap m ++ [c]) (<[id := length (heap m)]> (connections m)) (global_limiter m))
      else Ok (None, m)
  end.

Definition update_connection (h : nat) (f : TCPConnection → TCPConnection * list Called) (m : ConnectionManager) :
    ConnectionManager * list Called :=
  match heap m !! h with
  | Some c => let '(c, k) := f c in
              (MkConnectionManager (<[h := c]> (heap m)) (connections m) (global_limiter m), k)
  | None => (m, [])
  end.

Definition close_connection (id : bytes) (m : ConnectionManager) : ConnectionManager * list Called :=
  match connections m !! id with
  | Some h =>
      let '(m, k) := update_connection h disconnect m in
      (MkConnectionManager (heap m) (delete id (connections m)) (global_limiter m), k)
  | None => (m, [])
  end.

Definition close_all_connections (m : ConnectionManager) : ConnectionManager * list Called :=
  let '(m, k) := foldl (λ '(m, k) '(_, h), let '(m, k') := update_connection h disconnect m in (m, k ++ k'))
                   (m, []) (entries (connections m)) in
  (MkConnectionManager (heap m) ∅ (global_limiter m), k).

Definition get_connection (id : bytes) (m : ConnectionManager) : option nat := connections m !! id.

Definition has_connection (id : bytes) (m : ConnectionManager) : bool := bool_decide (is_Some (connections m !! id)).

Definition active_connection_count (m : ConnectionManager) : Z := Z.of_nat (size (connections m)).

Definition get_active_connections (m : ConnectionManager) : list bytes := (entries (connections m)).*1.

Definition set_global_bandwidth_limit (n : Z) (m : ConnectionManager) : ConnectionManager :=
  MkConnectionManager (heap m) (connections m) (set_limit n (global_limiter m)).

Definition get_global_bandwidth_limit (m : ConnectionManager) : Z := bytes_per_second (global_limiter m).

Definition dead (m : ConnectionManager) (h : nat) : bool :=
  match heap m !! h with Some c => negb (is_connected c) | None => true end.

Definition cleanup_dead_connections (m : ConnectionManager) : ConnectionManager :=
  let to_remove := (filter (λ p, dead m p.2 = true) (entries (connections m))).*1 in
  MkConnectionManager (heap m) (foldl (λ t id, delete id t) (connections m) to_remove) (global_limiter m).

Definition watch (peer : NodeID) (c : TCPConnection) : TCPConnection :=
  with_callbacks (MkCallbacks (Some peer) (error_callback (callbacks c)) (Some peer) (Some peer)) c.

(** [MonitoredConnectionManager::create_monitored_connection]: the callbacks are
    set on the connection that is handed out. *)
Definition create_monitored_connection (addr : SocketAddress) (peer : NodeID) (d : Dial) (now : Z)
    (m : ConnectionManager) : outcome (option nat * ConnectionManager) :=
  '(r, m) ← create_connection addr d now m;
  match r with
  | None => Ok (None, m)
  | Some h =>
      Ok (Some h, (update_connection h (λ c, (watch peer c, [])) m).1)
  end.

(** What the callbacks tell the monitor. *)
Definition report_call (now : Z) (k : Called) : ActivityMonitor → ActivityMonitor :=
  match k with
  | OnData p d => on_bytes_received p (len d)
  | OnConnected p => on_peer_connected p now
  | OnDisconnected p => on_peer_disconnected p now
  | OnError _ _ => id
  end.

(** *** Everything that can happen to a manager and the connections it gave out *)

Inductive manager_op :=
  | Create (addr : SocketAddress) (d : Dial)
  | CreateMonitored (addr : SocketAddress) (peer : NodeID) (d : Dial)
  | Close (id : bytes)
  | CloseAll
  | SetGlobalLimit (n : Z)
  | Cleanup
  | Redial (h : nat) (addr : SocketAddress) (d : Dial)
  | Disconnect (h : nat)
  | Send (h : nat) (data : bytes) (answers : list send_answer) (later : Z)
  | Receive (h : nat) (max_bytes : Z) (answer : recv_answer) (later : Z).

(** An operation on the connection behind a handle, with the shared limiter. *)
Definition use_connection (h : nat)
    (f : TCPConnection → BandwidthLimiter → TCPConnection * BandwidthLimiter * list Called) (m : ConnectionManager) :
    ConnectionManager * list Called :=
  match heap m !! h with
  | Some c => let '(c, l, k) := f c (global_limiter m) in
              (MkConnectionManager (<[h := c]> (heap m)) (connections m) l, k)
  | None => (m, [])
  end.

(** The exception of [std::stoi] leaves the connection connected. *)
Definition redial (a : SocketAddress) (d : Dial) (now : Z) (c : TCPConnection) : TCPConnection * list Called :=
  match connect a d now c with
  | Ok (_, c, k) => (c, k)
  | _ => (with_local (local_addr c) now (with_socket true CONNECTED (with_remote a c)), [])
  end.

(** An exception ends the operation; a new connection is then destroyed. *)
Definition manager_step (now : Z) (op : manager_op) (m : ConnectionManager) : ConnectionManager * list Called :=
  match op with
  | Create a d => match create_connection a d now m with Ok (_, m') => (m', []) | _ => (m, []) end
  | CreateMonitored a p d => match create_monitored_connection a p d now m with Ok (_, m') => (m', []) | _ => (m, []) end
  | Close id => close_connection id m
  | CloseAll => close_all_connections m
  | SetGlobalLimit n => (set_global_bandwidth_limit n m, [])
  | Cleanup => (cleanup_dead_connections m, [])
  | Redial h a d =>
      update_connection h (redial a d now) m
  | Disconnect h => update_connection h disconnect m
  | Send h data answers later =>
      use_connection h (λ c l, let '(_, _, c, l, k) := send data answers now later c l in (c, l, k)) m
  | Receive h n answer later =>
      use_connection h (λ c l, let '(_, c, l, k) := receive n answer now later c l in (c, l, k)) m
  end.

Fixpoint manager_run (ops : list (Z * manager_op)) (m : ConnectionManager) : ConnectionManager * list Called :=
  match ops with
  | [] => (m, [])
  | (now, op) :: ops =>
      let '(m, k) := manager_step now op m in
      let '(m, k') := manager_run ops m in (m, k ++ k')
  end.

(** ** Addresses are read back *)

Definition resolved_family (a : SocketAddress) : AddressFamily :=
  if decide (family a = IPv6 ∨ ":"%byte ∈ host a) then IPv6 else IPv4.

Lemma read_port_dec p : in_u 16 p → read_port (dec p) = Ok p.
Proof.
  intros Hp. unfold read_port. rewrite stoi_dec; cbn.
  - by rewrite wrap_small.
  - unfold in_s, in_u in *. lia.
  - unfold in_u in *. lia.
Qed.

Lemma colon_not_digit p : ":"%byte ∉ dec p.
Proof.
  intros Hc. pose proof (dec_digits_range 20 p) as Hr. rewrite list.Forall_forall in Hr.
  specialize (Hr _ Hc). change (byte_val ":"%byte) with 58 in Hr. lia.
Qed.

Lemma rfind_char_last (c : byte) (l r : bytes) pos :
  c ∉ r → (length l <= pos <= length l + S (length r))%nat → rfind_char c pos (l ++ c :: r) = Some (length l).
Proof.
  intros Hc. induction pos as [|pos IH]; intros Hp; cbn.
  - destruct l; [|cbn in Hp; lia]. cbn. by rewrite bool_decide_true.
  - case_bool_decide as E.
    + apply lookup_app_Some in E as [E|[Hl E]].
      * apply lookup_lt_Some in E. lia.
      * destruct (S pos - length l)%nat as [|k] eqn:Ek; [f_equal; lia|]. cbn in E.
        destruct Hc. by apply list_elem_of_lookup_2 in E.
    + destruct (decide (length l = S pos)) as [El|]; [|apply IH; lia].
      destruct E. by rewrite <- El, list_lookup_middle.
Qed.

Lemma find_char_first (c : byte) (l r : bytes) : c ∉ l → find_char c 0 (l ++ c :: r) = Some (length l).
Proof.
  intros Hc. destruct (find_char _ _ _) as [i|] eqn:E.
  - apply find_char_Some in E as (_ & Hi & Hmin). f_equal. destruct (lt_eq_lt_dec i (length l)) as [[Hl|?]|Hl]; [|done|].
    + rewrite lookup_app_l in Hi by done. destruct Hc. by apply list_elem_of_lookup_2 in Hi.
    + destruct (Hmin (length l)); [lia|]. by apply list_lookup_middle.
  - destruct (find_char_None _ _ _ (Nat.le_0_l _) E (length l) (Nat.le_0_l _)). by apply list_lookup_middle.
Qed.

Lemma drop_past (l r : bytes) (x : byte) n : n = (length l + 1)%nat → drop n (l ++ x :: r) = r.
Proof. intros ->. rewrite cons_middle, app_assoc. apply drop_app_length'. rewrite length_app. cbn. lia. Qed.

Lemma bracketed_roundtrip h p :
  in_u 16 p → "]"%byte ∉ h →
  from_string (str "[" ++ h ++ str "]:" ++ dec p) = Ok (MkSocketAddress h p IPv6).
Proof.
  intros Hp Hh. unfold from_string. rewrite decide_True by done.
  change (str "[" ++ _) with (("["%byte :: h) ++ "]"%byte :: ":"%byte :: dec p).
  rewrite find_char_first by (rewrite not_elem_of_cons; done). cbn [length].
  assert (E : ("["%byte :: h) ++ "]"%byte :: ":"%byte :: dec p = (("["%byte :: h) ++ ["]"%byte]) ++ ":"%byte :: dec p)
    by (by rewrite <- app_assoc).
  assert (El : length (("["%byte :: h) ++ ["]"%byte]) = (S (length h) + 1)%nat) by (rewrite length_app; cbn; lia).
  rewrite decide_True by (rewrite E; by apply list_lookup_middle).
  rewrite E, (drop_past _ _ _ (S (length h) + 2)) by lia. rewrite read_port_dec by done. cbn. do 2 f_equal.
  rewrite Nat.sub_0_r, <- app_assoc. apply take_app_length.
Qed.

Lemma plain_roundtrip h p :
  in_u 16 p → head h ≠ Some "["%byte →
  from_string (h ++ str ":" ++ dec p) = Ok (MkSocketAddress h p (if decide (":"%byte ∈ h) then IPv6 else IPv4)).
Proof.
  intros Hp Hh. unfold from_string. change (str ":" ++ _) with (":"%byte :: dec p).
  rewrite decide_False by (destruct h; done).
  rewrite rfind_char_last by (apply colon_not_digit || (rewrite length_app; cbn; lia)).
  rewrite take_app_length, drop_past by done. by rewrite read_port_dec.
Qed.

(** The text of an address is read back as the address with its family made definite, for
    every port, unless the host of a bracketed address contains a closing bracket or that
    of another one begins with an opening one. *)
Theorem address_roundtrip a :
  in_u 16 (port a) →
  (if decide (family a = IPv6) then "]"%byte ∉ host a else head (host a) ≠ Some "["%byte) →
  from_string (to_string a) = Ok (MkSocketAddress (host a) (port a) (resolved_family a)).
Proof.
  intros Hp Hh. unfold to_string, resolved_family. destruct (decide (family a = IPv6)) as [Ef|Ef].
  - rewrite decide_True by (by left). by apply bracketed_roundtrip.
  - rewrite plain_roundtrip by done. do 2 f_equal. repeat destruct (decide _); try done; tauto.
Qed.

Definition v6_address : SocketAddress := MkSocketAddress (str "fe80::1") 8443 IPv6.

Lemma address_roundtrip_witness :
  to_string v6_address = str "[fe80::1]:8443" ∧ from_string (str "[fe80::1]:8443") = Ok v6_address ∧
  from_string (str "host:65617x") = Ok (MkSocketAddress (str "host") 81 IPv4) ∧
  from_string (str "host:http") = Err (EInvalidArgument "stoi").
Proof.
  split; [done|]. split; [|by vm_compute].
  pose proof (address_roundtrip v6_address) as H. apply H.
  - done.
  - apply (bool_decide_unpack _). vm_compute. exact I.
Defined.

(** ** The limiter *)

Section Limiter.
(** The limit, and the time the limiter was made. *)
Context (k t0 : Z) (Hk : 0 <= k < 2 ^ 63).

(** The accounts of a limiter from which [sent] bytes have been taken: what is
    left and what was taken is covered by one second's worth and what has come in
    since, in billionths of a byte. *)
Definition solvent (sent now : Z) (l : BandwidthLimiter) : Prop :=
  bytes_per_second l = k ∧ (0 <= tx_tokens l <= k ∧ rx_tokens l <= k) ∧ t0 <= last_update l <= now ∧
  (tx_tokens l + sent) * 1000000000 <= k * (1000000000 + (last_update l - t0)).

(** So early that no product of the limiter wraps. *)
Definition early (now : Z) : Prop := k * (now - t0) < 2 ^ 63 * 1000000.

Lemma new_limiter_solvent : solvent 0 t0 (new_limiter t0 k).
Proof. unfold solvent. cbn. lia. Qed.

Lemma refill_tokens_exact sent lo now l :
  lo <= now → early now → solvent sent lo l →
  let e := Z.quot (now - last_update l) 1000000 in
  0 < e → e * 1000000 <= now - last_update l ∧
    tx_tokens (refill_tokens now l) = Z.min (tx_tokens l + k * e / 1000) k.
Proof.
  intros Hn He (Hb & Htx & Hl & _) e Hpos.
  assert (H1 : e * 1000000 <= now - last_update l) by (unfold e; Z.to_euclidean_division_equations; lia).
  split; [done|]. unfold early in He. assert (k * e * 1000000 < 2 ^ 63 * 1000000) by nia.
  assert (0 <= k * e) by nia. unfold refill_tokens. cbn zeta. fold e. destruct (Z.ltb_spec 0 e); [|lia]. cbn.
  destruct (decide (k = 0)) as [->|].
  - rewrite Hb, !Z.mul_0_l. assert (tx_tokens l = 0) as -> by lia. done.
  - rewrite Hb, (wrap_small 64 e), (wrap_small 64 (k * e)), wrap_small; unfold in_u;
      [done|Z.to_euclidean_division_equations; lia|lia|nia].
Qed.

Lemma refill_solvent sent lo now l :
  lo <= now → early now → solvent sent lo l →
  solvent sent now (refill_tokens now l) ∧ tx_tokens l <= tx_tokens (refill_tokens now l).
Proof.
  intros Hn He Hs. pose proof (refill_tokens_exact _ _ _ _ Hn He Hs) as Hx. cbn zeta in Hx.
  destruct Hs as (Hb & Htx & Hl & Hs).
  destruct (Z.ltb_spec 0 (Z.quot (now - last_update l) 1000000)) as [Hpos|Hpos].
  - destruct (Hx Hpos) as [H1 Ht]. rewrite Ht. set (e := Z.quot _ _) in *.
    assert (0 <= k * e / 1000 ∧ k * e / 1000 * 1000 <= k * e)
      by (assert (0 <= k * e) by nia; Z.to_euclidean_division_equations; lia).
    split; [|lia]. unfold solvent. rewrite Ht. unfold refill_tokens. fold e.
    cbn zeta. destruct (Z.ltb_spec 0 e); [|lia]. cbn. repeat split; try lia. nia.
  - unfold refill_tokens. cbn zeta. destruct (Z.ltb_spec 0 (Z.quot (now - last_update l) 1000000)); [lia|].
    unfold solvent. repeat split; done || lia.
Qed.

(** An allowed transfer is deducted in full, also when the clock moved between
    the question and the record. *)
Lemma transfer_solvent sent lo now later n l :
  lo <= now → now <= later → early later → 0 <= n → solvent sent lo l →
  (can_send n now l).1 = true → solvent (sent + n) later (record_sent n later (can_send n now l).2).
Proof.
  intros Hn Hl He H0 Hs Ha. unfold can_send in *. cbn in *. bool_to_prop.
  assert (early now) as He' by (unfold early in *; nia).
  destruct (refill_solvent _ _ _ _ Hn He' Hs) as [Hs1 _].
  destruct (refill_solvent _ _ _ _ Hl He Hs1) as [Hs2 Hm].
  unfold record_sent. cbn zeta. destruct (Z.leb_spec n (tx_tokens (refill_tokens later (refill_tokens now l)))); [|lia].
  destruct Hs2 as (? & ? & ? & ?). unfold solvent. cbn. repeat split; lia.
Qed.

Lemma received_solvent sent lo now n l :
  lo <= now → early now → 0 <= n → solvent sent lo l → solvent sent now (record_received n now l).
Proof.
  intros Hn He H0 Hs. destruct (proj1 (refill_solvent _ _ _ _ Hn He Hs)) as (? & ? & ? & ?).
  unfold record_received, solvent. cbn. repeat split; try lia. case_match; lia.
Qed.

Lemma solvent_later sent lo now l : lo <= now → solvent sent lo l → solvent sent now l.
Proof. intros ? (? & ? & ? & ?). unfold solvent. repeat split; done || lia. Qed.

Lemma early_before a b : a <= b → early b → early a.
Proof. unfold early. nia. Qed.
End Limiter.


(** ** What the operations keep *)

Lemma connect_keeps a d now c b c' k :
  connect a d now c = Ok (b, c', k) →
  bytes_sent c' = bytes_sent c ∧ limited c' = limited c ∧ callbacks c' = callbacks c ∧
  (b = true → state c = DISCONNECTED ∧ state c' = CONNECTED ∧ socket_open c' = true ∧ remote_addr c' = a ∧
              k = on_connected (callbacks c)) ∧
  (b = false → k = [] ∧ (c' = c ∧ state c ≠ DISCONNECTED ∨ state c' = CONN_ERROR ∧ socket_open c' = false)).
Proof.
  unfold connect. intros E. case_decide; [|by simplify_eq; cbn; naive_solver].
  destruct (socket_created d); [|by simplify_eq; cbn; naive_solver].
  destruct (resolved d) as [tries|]; [|by simplify_eq; cbn; naive_solver].
  destruct (existsb id tries); [|by simplify_eq; cbn; naive_solver].
  destruct (local_name d) as [[h service]|]; cbn in E; [destruct (read_port service); cbn in E|]; simplify_eq; cbn; naive_solver.
Qed.

Lemma disconnect_keeps c :
  let '(c', k) := disconnect c in
  bytes_sent c' = bytes_sent c ∧ limited c' = limited c ∧ remote_addr c' = remote_addr c ∧
  callbacks c' = callbacks c ∧ state c' = DISCONNECTED ∧ (socket_open c' = false ∨ c' = c) ∧
  k = (if decide (state c = DISCONNECTED) then [] else on_disconnected (callbacks c)).
Proof. unfold disconnect. case_decide; cbn; auto 10. Qed.

(** Sending and receiving change the counters only. *)
Lemma send_keeps data answers now later c l :
  let '(_, _, c', _, k) := send data answers now later c l in
  (c' = c ∨ ∃ s, 0 <= s ∧ c' = with_counts s (bytes_received c) c) ∧ (k = [] ∨ k = on_error "Send failed" (callbacks c)).
Proof.
  unfold send. destruct (is_connected c); [|by auto].
  destruct (if limited c then _ else _) as [[] l']; [|by auto].
  destruct (send_loop _ _ _) as [[[]|] total]; [|by auto..].
  split; [|by left]. right. eexists. split; [|done]. apply wrap_range. lia.
Qed.

Lemma receive_keeps n answer now later c l :
  let '(_, c', _, k) := receive n answer now later c l in
  (c' = c ∨ ∃ r, c' = with_counts (bytes_sent c) r c) ∧ (k = [] ∨ k = on_error "Receive failed" (callbacks c)).
Proof.
  unfold receive. destruct (is_connected c); [|by auto].
  destruct (if limited c then _ else _) as [[] l']; [|by auto].
  destruct answer as [[|b d]| |]; by eauto.
Qed.

(** A property of connections that the operations keep. *)
Section Heap.
Context (P : TCPConnection → Prop) (now : Z) (op : manager_op).
Context (Hnew : ∀ a d c k, connect a d now (set_bandwidth_limiter true new_connection) = Ok (true, c, k) → P c).
Context (Hwatch : ∀ p c, P c → P (watch p c)).
Context (Hdisconnect : ∀ c, P c → P (disconnect c).1).
Context (Hredial : ∀ h a d c, op = Redial h a d → P c → P (redial a d now c).1).
Context (Hsent : ∀ s c, 0 <= s → P c → P (with_counts s (bytes_received c) c)).
Context (Hreceived : ∀ r c, P c → P (with_counts (bytes_sent c) r c)).

Lemma update_forall h f m :
  (∀ c, P c → P (f c).1) → Forall P (heap m) → Forall P (heap (update_connection h f m).1).
Proof.
  intros Hf Hm. unfold update_connection. destruct (heap m !! h) as [c|] eqn:E; [|done].
  pose proof (Hf c (Forall_lookup_1 _ _ _ _ Hm E)). destruct (f c). cbn. by apply Forall_insert.
Qed.

Lemma use_forall h f m :
  (∀ c l, P c → P (f c l).1.1) → Forall P (heap m) → Forall P (heap (use_connection h f m).1).
Proof.
  intros Hf Hm. unfold use_connection. destruct (heap m !! h) as [c|] eqn:E; [|done].
  pose proof (Hf c (global_limiter m) (Forall_lookup_1 _ _ _ _ Hm E)). destruct (f c _) as [[]]. cbn.
  by apply Forall_insert.
Qed.

Lemma create_forall a d r m m' :
  create_connection a d now m = Ok (r, m') → Forall P (heap m) → Forall P (heap m').
Proof.
  unfold create_connection. intros E Hm. destruct (connections m !! _); [by simplify_eq|].
  destruct (connect _ _ _ _) as [[[[] c] k]| |] eqn:Ec; cbn in E; simplify_eq; [|done].
  cbn. apply Forall_app. split; [done|]. constructor; [|done]. by eapply Hnew.
Qed.

Lemma close_all_forall l m k :
  Forall P (heap m) →
  Forall P (heap (foldl (λ '(m, k) '((_, h) : bytes * nat),
    let '(m, k') := update_connection h disconnect m in (m, k ++ k')) (m, k) l).1).
Proof.
  revert m k. induction l as [|[id h] l IH]; intros m k Hm; [done|]. cbn [foldl].
  pose proof (update_forall h disconnect m Hdisconnect Hm). destruct (update_connection h disconnect m). by apply IH.
Qed.

Lemma step_forall m : Forall P (heap m) → Forall P (heap (manager_step now op m).1).
Proof.
  intros Hm. destruct op as [a d|a p d|id| |n| |h a d|h|h data answers later|h n answer later]; cbn [manager_step].
  - destruct (create_connection a d now m) as [[r m']| |] eqn:E; [|done..]. by eapply create_forall.
  - unfold create_monitored_connection.
    destruct (create_connection a d now m) as [[[h|] m']| |] eqn:E; cbn; try done.
    + apply (update_forall h (λ c, (watch p c, []))); [intros; by apply Hwatch|]. by eapply create_forall.
    + by eapply create_forall.
  - unfold close_connection. destruct (connections m !! id); [|done].
    pose proof (update_forall n disconnect m Hdisconnect Hm). by destruct (update_connection n disconnect m).
  - unfold close_all_connections. pose proof (close_all_forall (entries (connections m)) m [] Hm).
    by destruct (foldl _ _ _).
  - done.
  - done.
  - apply update_forall; [|done]. intros c. by apply (Hredial h).
  - by apply update_forall.
  - apply use_forall; [|done]. intros c l Hc. pose proof (send_keeps data answers now later c l).
    destruct (send _ _ _ _ _ _) as [[[[]]]]. destruct H as [[->|(s & Hs & ->)] _]; [done|by apply Hsent].
  - apply use_forall; [|done]. intros c l Hc. pose proof (receive_keeps n answer now later c l).
    destruct (receive _ _ _ _ _ _) as [[[]]]. destruct H as [[->|[r ->]] _]; [done|by apply Hreceived].
Qed.
End Heap.

(** A property of managers that every step keeps holds after every run. *)
Lemma run_keeps (Q : manager_op → Prop) (I : ConnectionManager → Prop) :
  (∀ now op m, Q op → I m → I (manager_step now op m).1) →
  ∀ ops m, Forall (λ p, Q p.2) ops → I m → I (manager_run ops m).1.
Proof.
  intros Hstep. induction ops as [|[now op] ops IH]; intros m Hq Hm; [done|]. cbn [manager_run].
  apply list.Forall_cons in Hq as [Hq Hqs]. specialize (Hstep now op m Hq Hm).
  destruct (manager_step now op m) as [m1 k]. specialize (IH m1 Hqs Hstep). by destruct (manager_run ops m1).
Qed.

(** ** The manager's invariant *)

(** At rest a connection is down, up or failed, and holds a socket exactly when
    it is up. *)
Definition settled (c : TCPConnection) : Prop :=
  limited c = true ∧ socket_open c = is_connected c ∧ (state c = DISCONNECTED ∨ state c = CONNECTED ∨ state c = CONN_ERROR).

Lemma settled_connect a d now c b c' k :
  connect a d now c = Ok (b, c', k) → settled c → settled c'.
Proof.
  intros E (Hl & Hs & Hc). apply connect_keeps in E as (_ & El & _ & Ht & Hf). unfold settled, is_connected in *.
  destruct b.
  - destruct (Ht eq_refl) as (_ & -> & -> & _). by rewrite El, Hl, bool_decide_true by done; auto.
  - destruct (Hf eq_refl) as (_ & [[-> _]|[-> ->]]); [done|]. rewrite El. auto.
Qed.

Lemma settled_redial a d now c : settled c → settled (redial a d now c).1.
Proof.
  intros Hc. unfold redial. destruct (connect a d now c) as [[[b c'] k]| |] eqn:E.
  - by eapply settled_connect.
  - destruct Hc as (Hl & _). unfold settled. cbn. auto.
  - destruct Hc as (Hl & _). unfold settled. cbn. auto.
Qed.

Lemma settled_new a d now c k :
  connect a d now (set_bandwidth_limiter true new_connection) = Ok (true, c, k) → settled c.
Proof. intros E. apply (settled_connect _ _ _ _ _ _ _ E). unfold settled. cbn. auto. Qed.

Lemma settled_disconnect c : settled c → settled (disconnect c).1.
Proof. unfold disconnect. case_decide; [done|]. unfold settled. cbn. intuition. Qed.

(** The handles registered are distinct and point into the heap. *)
Definition registered (m : ConnectionManager) : Prop :=
  (∀ id h, connections m !! id = Some h → (h < length (heap m))%nat) ∧
  (∀ id id' h, connections m !! id = Some h → connections m !! id' = Some h → id = id').

(** A connection is registered under its remote address. *)
Definition addressed (m : ConnectionManager) : Prop :=
  ∀ id h c, connections m !! id = Some h → heap m !! h = Some c → generate_connection_id (remote_addr c) = id.

Definition no_redial (op : manager_op) : Prop := match op with Redial _ _ _ => False | _ => True end.

Lemma registered_subset m m' :
  connections m' ⊆ connections m → length (heap m) = length (heap m') → registered m → registered m'.
Proof.
  intros Hs Hl [H1 H2]. split.
  - intros id h E. rewrite <- Hl. apply (H1 id). by eapply lookup_weaken.
  - intros id id' h E E'. eapply H2; by eapply lookup_weaken.
Qed.

Lemma update_shape h f m :
  connections (update_connection h f m).1 = connections m ∧
  global_limiter (update_connection h f m).1 = global_limiter m ∧
  length (heap (update_connection h f m).1) = length (heap m).
Proof.
  unfold update_connection. destruct (heap m !! h); [|done]. destruct (f _). cbn. by rewrite length_insert.
Qed.

Lemma use_shape h f m :
  connections (use_connection h f m).1 = connections m ∧ length (heap (use_connection h f m).1) = length (heap m).
Proof.
  unfold use_connection. destruct (heap m !! h); [|done]. destruct (f _ _) as [[]]. cbn. by rewrite length_insert.
Qed.

Lemma close_all_shape l m k :
  let m' := (foldl (λ '(m, k) '((_, h) : bytes * nat),
    let '(m, k') := update_connection h disconnect m in (m, k ++ k')) (m, k) l).1 in
  global_limiter m' = global_limiter m ∧ length (heap m') = length (heap m).
Proof.
  revert m k. induction l as [|[id h] l IH]; intros m k; [done|]. cbn [foldl].
  pose proof (update_shape h disconnect m) as (_ & El & Eh). destruct (update_connection h disconnect m) as [m1 k1].
  cbn in *. destruct (IH m1 (k ++ k1)) as [-> ->]. done.
Qed.

Lemma foldl_delete_subset (l : list bytes) (t : gmap bytes nat) : foldl (λ t id, delete id t) t l ⊆ t.
Proof.
  revert t. induction l as [|id l IH]; intros t; [done|]. cbn. etrans; [apply IH|]. apply delete_subseteq.
Qed.

Lemma create_registered a d now m r m' :
  create_connection a d now m = Ok (r, m') → registered m → registered m'.
Proof.
  unfold create_connection. intros E Hm. destruct (connections m !! _) eqn:Eid; [by simplify_eq|].
  destruct (connect _ _ _ _) as [[[[] c] k]| |]; cbn in E; simplify_eq; [|done]. destruct Hm as [H1 H2]. split; cbn.
  - intros id h. rewrite length_app. cbn. intros [[<- <-]|[_ E%H1]]%lookup_insert_Some; lia.
  - intros id id' h. intros [[<- <-]|[Hn E]]%lookup_insert_Some [[<- E']|[Hn' E']]%lookup_insert_Some; try done.
    + apply H1 in E'. lia.
    + subst. apply H1 in E. lia.
    + by eapply H2.
Qed.

Lemma step_registered now op m : registered m → registered (manager_step now op m).1.
Proof.
  intros Hm. destruct op as [a d|a p d|id| |n| |h a d|h|h data answers later|h n answer later]; cbn [manager_step].
  - destruct (create_connection a d now m) as [[r m']| |] eqn:E; [|done..]. by eapply create_registered.
  - unfold create_monitored_connection.
    destruct (create_connection a d now m) as [[[h|] m']| |] eqn:E; cbn; try done.
    + destruct (update_shape h (λ c, (watch p c, [])) m') as (Ec & _ & El).
      apply (registered_subset m'); [by rewrite Ec|done|]. by eapply create_registered.
    + by eapply create_registered.
  - unfold close_connection. destruct (connections m !! id) as [h|]; [|done].
    destruct (update_shape h disconnect m) as (Ec & _ & El). destruct (update_connection h disconnect m) as [m' k].
    cbn in *. apply (registered_subset m); cbn; [rewrite Ec; apply delete_subseteq|done|done].
  - unfold close_all_connections. destruct (close_all_shape (entries (connections m)) m []) as [_ El].
    destruct (foldl _ _ _) as [m' k]. apply (registered_subset m); cbn; [apply map_empty_subseteq|done|done].
  - done.
  - apply (registered_subset m); cbn; [apply foldl_delete_subset|done|done].
  - destruct (update_shape h (redial a d now) m) as (Ec & _ & El). by apply (registered_subset m); [rewrite Ec| |].
  - destruct (update_shape h disconnect m) as (Ec & _ & El). by apply (registered_subset m); [rewrite Ec| |].
  - match goal with |- registered (use_connection ?h ?f m).1 => destruct (use_shape h f m) as (Ec & El) end.
    by apply (registered_subset m); [rewrite Ec| |].
  - match goal with |- registered (use_connection ?h ?f m).1 => destruct (use_shape h f m) as (Ec & El) end.
    by apply (registered_subset m); [rewrite Ec| |].
Qed.

Section Fields.
Context {B : Type} (g : TCPConnection → B).

Lemma update_fmap h f m :
  (∀ c, g (f c).1 = g c) → g <$> heap (update_connection h f m).1 = g <$> heap m.
Proof.
  intros Hf. unfold update_connection. destruct (heap m !! h) as [c|] eqn:E; [|done].
  specialize (Hf c). destruct (f c) as [c' k]. cbn in *. rewrite list_fmap_insert, Hf. apply list_insert_id.
  by rewrite list_lookup_fmap, E.
Qed.

Lemma use_fmap h f m :
  (∀ c l, g (f c l).1.1 = g c) → g <$> heap (use_connection h f m).1 = g <$> heap m.
Proof.
  intros Hf. unfold use_connection. destruct (heap m !! h) as [c|] eqn:E; [|done].
  specialize (Hf c (global_limiter m)). destruct (f c _) as [[c' l'] k]. cbn in *. rewrite list_fmap_insert, Hf.
  apply list_insert_id. by rewrite list_lookup_fmap, E.
Qed.

Lemma close_all_fmap l m k :
  (∀ c, g (disconnect c).1 = g c) →
  g <$> heap (foldl (λ '(m, k) '((_, h) : bytes * nat),
    let '(m, k') := update_connection h disconnect m in (m, k ++ k')) (m, k) l).1 = g <$> heap m.
Proof.
  intros Hg. revert m k. induction l as [|[id h] l IH]; intros m k; [done|]. cbn [foldl].
  pose proof (update_fmap h disconnect m Hg) as E. destruct (update_connection h disconnect m). by rewrite IH.
Qed.
End Fields.

Lemma addressed_shape m m' :
  connections m' ⊆ connections m → remote_addr <$> heap m' = remote_addr <$> heap m → addressed m → addressed m'.
Proof.
  intros Hs Hr Hm id h c E Ec. apply (f_equal (lookup h)) in Hr. rewrite !list_lookup_fmap, Ec in Hr.
  destruct (heap m !! h) as [c0|] eqn:E0; [|done]. cbn in Hr. injection Hr as ->. eapply Hm; [|done].
  by eapply lookup_weaken.
Qed.

Lemma create_addressed a d now m r m' :
  create_connection a d now m = Ok (r, m') → registered m → addressed m → addressed m'.
Proof.
  unfold create_connection. intros E [Hr _] Hm. destruct (connections m !! _) eqn:Eid; [by simplify_eq|].
  destruct (connect _ _ _ _) as [[[[] c] k]| |] eqn:Ec; cbn in E; simplify_eq; [|done].
  apply connect_keeps in Ec as (_ & _ & _ & Ht & _). destruct (Ht eq_refl) as (_ & _ & _ & Ha & _).
  intros id h c' Eh Ec'. cbn in Eh, Ec'. apply lookup_insert_Some in Eh as [[<- <-]|[_ Eh]].
  - rewrite list_lookup_middle in Ec' by done. by simplify_eq.
  - rewrite lookup_app_l in Ec' by (by eapply Hr). by eapply Hm.
Qed.

Lemma disconnect_remote c : remote_addr (disconnect c).1 = remote_addr c.
Proof. pose proof (disconnect_keeps c) as H. destruct (disconnect c). cbn. tauto. Qed.

Lemma step_addressed now op m :
  no_redial op → registered m → addressed m → addressed (manager_step now op m).1.
Proof.
  intros Hop Hr Hm. destruct op as [a d|a p d|id| |n| |h a d|h|h data answers later|h n answer later]; cbn [manager_step].
  - destruct (create_connection a d now m) as [[r m']| |] eqn:E; [|done..]. by eapply create_addressed.
  - unfold create_monitored_connection.
    destruct (create_connection a d now m) as [[[h|] m']| |] eqn:E; cbn; try done.
    + destruct (update_shape h (λ c, (watch p c, [])) m') as (Ec & _ & _).
      apply (addressed_shape m'); [by rewrite Ec|by apply update_fmap|]. by eapply create_addressed.
    + by eapply create_addressed.
  - unfold close_connection. destruct (connections m !! id) as [h|]; [|done].
    destruct (update_shape h disconnect m) as (Ec & _ & _).
    pose proof (update_fmap remote_addr h disconnect m disconnect_remote) as Ef.
    destruct (update_connection h disconnect m) as [m' k]. cbn in *.
    apply (addressed_shape m); cbn; [rewrite Ec; apply delete_subseteq|done|done].
  - unfold close_all_connections.
    pose proof (close_all_fmap remote_addr (entries (connections m)) m [] disconnect_remote) as Ef.
    destruct (foldl _ _ _) as [m' k]. apply (addressed_shape m); cbn; [apply map_empty_subseteq|done|done].
  - done.
  - apply (addressed_shape m); cbn; [apply foldl_delete_subset|done|done].
  - done.
  - destruct (update_shape h disconnect m) as (Ec & _ & _).
    apply (addressed_shape m); [by rewrite Ec|apply update_fmap, disconnect_remote|done].
  - match goal with |- addressed (use_connection ?h ?f m).1 => destruct (use_shape h f m) as (Ec & _) end.
    apply (addressed_shape m); [by rewrite Ec| |done]. apply use_fmap. intros c l.
    pose proof (send_keeps data answers now later c l) as H. destruct (send _ _ _ _ _ _) as [[[[]]]].
    by destruct H as [[->|(s & _ & ->)] _].
  - match goal with |- addressed (use_connection ?h ?f m).1 => destruct (use_shape h f m) as (Ec & _) end.
    apply (addressed_shape m); [by rewrite Ec| |done]. apply use_fmap. intros c l.
    pose proof (receive_keeps n answer now later c l) as H. destruct (receive _ _ _ _ _ _) as [[[]]].
    by destruct H as [[->|[r ->]] _].
Qed.

(** Whatever is asked of a manager and of the connections it gave out, every connection at
    rest is down, up or failed and holds a socket exactly when it is up; the registered
    handles are distinct and alive; and as long as nobody dials a connection again to
    another place, each is registered under its remote address. *)
Theorem connection_manager_invariant ops t0 :
  let m := (manager_run ops (new_connection_manager t0)).1 in
  Forall settled (heap m) ∧ registered m ∧ (Forall (λ p, no_redial p.2) ops → addressed m).
Proof.
  cbn zeta. split; [|split].
  - apply (run_keeps (λ _, True) (λ m, Forall settled (heap m))); [|by apply list.Forall_forall|constructor].
    intros now op m _ Hm. apply step_forall; try done.
    + intros a d c k. apply settled_new.
    + apply settled_disconnect.
    + intros h a d c _. apply settled_redial.
  - apply (run_keeps (λ _, True) registered); [|by apply list.Forall_forall|].
    + intros now op m _. apply step_registered.
    + split; intros *; cbn; by rewrite lookup_empty.
  - intros Hops. apply (run_keeps no_redial (λ m, registered m ∧ addressed m)); [|done|].
    + intros now op m Hop [Hr Hm]. split; [by apply step_registered|by apply step_addressed].
    + split; [split; intros *|intros id h c]; cbn; by rewrite lookup_empty.
Qed.

(** ** The limit on what is counted *)

Definition sum_sent (hs : list TCPConnection) : Z := foldr Z.add 0 (bytes_sent <$> hs).

#[local] Arguments sum_sent : simpl never.

Lemma sum_sent_same hs hs' : bytes_sent <$> hs' = bytes_sent <$> hs → sum_sent hs' = sum_sent hs.
Proof. unfold sum_sent. by intros ->. Qed.

Lemma sum_sent_snoc hs c : sum_sent (hs ++ [c]) = sum_sent hs + bytes_sent c.
Proof. unfold sum_sent. induction hs as [|x hs IH]; cbn in *; lia. Qed.

Lemma sum_sent_insert hs h c c' :
  hs !! h = Some c → sum_sent (<[h := c']> hs) = sum_sent hs - bytes_sent c + bytes_sent c'.
Proof.
  unfold sum_sent. revert h. induction hs as [|x hs IH]; intros [|h] E; simplify_eq/=; [lia|].
  rewrite IH by done. lia.
Qed.

(** When an operation ends. *)
Definition op_end (now : Z) (op : manager_op) : Z :=
  match op with Send _ _ _ later | Receive _ _ _ later => later | _ => now end.

Fixpoint clocked (lo hi : Z) (ops : list (Z * manager_op)) : Prop :=
  match ops with
  | [] => lo <= hi
  | (now, op) :: ops => lo <= now ∧ now <= op_end now op ∧ clocked (op_end now op) hi ops
  end.

Lemma clocked_le lo hi ops : clocked lo hi ops → lo <= hi.
Proof. revert lo. induction ops as [|[now op] ops IH]; cbn; intros lo; [done|]. intros (? & ? & ?%IH). lia. Qed.

Definition keeps_limit (op : manager_op) : Prop := match op with SetGlobalLimit _ => False | _ => True end.

Definition books (k t0 now : Z) (m : ConnectionManager) : Prop :=
  Forall (λ c, limited c = true ∧ 0 <= bytes_sent c) (heap m) ∧
  ∃ sent, sum_sent (heap m) <= sent ∧ solvent k t0 sent now (global_limiter m).

Lemma books_same k t0 lo now m m' :
  lo <= now → bytes_sent <$> heap m' = bytes_sent <$> heap m → global_limiter m' = global_limiter m →
  Forall (λ c, limited c = true ∧ 0 <= bytes_sent c) (heap m') → books k t0 lo m → books k t0 now m'.
Proof.
  intros Hn Hs El Hf (_ & sent & Hle & Hb). split; [done|]. exists sent. rewrite (sum_sent_same _ _ Hs), El.
  split; [done|]. by eapply solvent_later.
Qed.

Lemma connect_books a d now c b c' k :
  connect a d now c = Ok (b, c', k) → limited c = true ∧ 0 <= bytes_sent c → limited c' = true ∧ 0 <= bytes_sent c'.
Proof. intros (-> & -> & _)%connect_keeps. done. Qed.

Lemma redial_keeps a d now c :
  bytes_sent (redial a d now c).1 = bytes_sent c ∧ limited (redial a d now c).1 = limited c ∧
  callbacks (redial a d now c).1 = callbacks c.
Proof.
  unfold redial. destruct (connect a d now c) as [[[b c'] k]| |] eqn:E; [|done..].
  apply connect_keeps in E. cbn. tauto.
Qed.

Lemma disconnect_books c : bytes_sent (disconnect c).1 = bytes_sent c ∧ limited (disconnect c).1 = limited c.
Proof. pose proof (disconnect_keeps c) as H. destruct (disconnect c). cbn. tauto. Qed.

Lemma step_counters now op m :
  Forall (λ c, limited c = true ∧ 0 <= bytes_sent c) (heap m) →
  Forall (λ c, limited c = true ∧ 0 <= bytes_sent c) (heap (manager_step now op m).1).
Proof.
  apply step_forall.
  - intros a d c k E. by apply (connect_books _ _ _ _ _ _ _ E).
  - done.
  - intros c. by destruct (disconnect_books c) as [-> ->].
  - intros _ a d c _. by destruct (redial_keeps a d now c) as (-> & -> & _).
  - intros s c Hs [? _]. done.
  - intros r c [? ?]. done.
Qed.

(** Creating adds a connection with nothing sent. *)
Lemma create_sum a d now m r m' :
  create_connection a d now m = Ok (r, m') →
  sum_sent (heap m') = sum_sent (heap m) ∧ global_limiter m' = global_limiter m.
Proof.
  unfold create_connection. intros E. destruct (connections m !! _); [by simplify_eq|].
  destruct (connect _ _ _ _) as [[[[] c] k]| |] eqn:Ec; cbn in E; simplify_eq; [|done].
  apply connect_keeps in Ec as (Eb & _). cbn [heap global_limiter]. rewrite sum_sent_snoc, Eb. cbn. split; [lia|done].
Qed.

(** The operations that leave counters and limiter alone. *)
Lemma step_quiet now op m :
  keeps_limit op → match op with Send _ _ _ _ | Receive _ _ _ _ => False | _ => True end →
  sum_sent (heap (manager_step now op m).1) = sum_sent (heap m) ∧
  global_limiter (manager_step now op m).1 = global_limiter m.
Proof.
  intros Hk Hop. pose proof (λ c, proj1 (disconnect_books c)) as Hd.
  destruct op as [a d|a p d|id| |n| |h a d|h|h data answers later|h n answer later]; try done; cbn [manager_step].
  - destruct (create_connection a d now m) as [[r m']| |] eqn:E; [|done..]. by eapply create_sum.
  - unfold create_monitored_connection.
    destruct (create_connection a d now m) as [[[h|] m']| |] eqn:E; cbn; try done; [|by eapply create_sum].
    apply create_sum in E as [<- <-].
    by split; [apply sum_sent_same, update_fmap|destruct (update_shape h (λ c, (watch p c, [])) m') as (_ & El & _)].
  - unfold close_connection. destruct (connections m !! id) as [h|]; [|done].
    destruct (update_shape h disconnect m) as (_ & El & _).
    pose proof (update_fmap bytes_sent h disconnect m Hd) as Ef.
    destruct (update_connection h disconnect m). split; [by apply sum_sent_same|done].
  - unfold close_all_connections. destruct (close_all_shape (entries (connections m)) m []) as [El _].
    pose proof (close_all_fmap bytes_sent (entries (connections m)) m [] Hd) as Ef.
    destruct (foldl _ _ _) as [m' k]. split; [by apply sum_sent_same|done].
  - destruct (update_shape h (redial a d now) m) as (_ & El & _). split; [|done].
    apply sum_sent_same, update_fmap. intros c. by destruct (redial_keeps a d now c) as (-> & _).
  - destruct (update_shape h disconnect m) as (_ & El & _). split; [|done]. by apply sum_sent_same, update_fmap.
Qed.

Lemma wrap_le w z : 0 <= w → 0 <= z → wrap w z <= z.
Proof. intros. apply Z.mod_le; [done|]. by apply pow2_pos. Qed.

(** A message is counted when it was sent whole, and paid for. *)
Lemma send_books k t0 sent lo now later data answers c l :
  0 <= k < 2 ^ 63 → lo <= now → now <= later → early k t0 later → limited c = true → 0 <= bytes_sent c →
  solvent k t0 sent lo l →
  let '(_, _, c', l', _) := send data answers now later c l in
  ∃ n, 0 <= n ∧ bytes_sent c' <= bytes_sent c + n ∧ solvent k t0 (sent + n) later l'.
Proof.
  intros Hk Hn Hl He Hlim Hb Hs. unfold send. rewrite Hlim.
  assert (Hidle : ∃ n, 0 <= n ∧ bytes_sent c <= bytes_sent c + n ∧ solvent k t0 (sent + n) later l).
  { exists 0. rewrite !Z.add_0_r. split; [lia|]. split; [lia|]. apply (solvent_later _ _ _ lo); [lia|done]. }
  assert (Hasked : ∃ n, 0 <= n ∧ bytes_sent c <= bytes_sent c + n ∧
                        solvent k t0 (sent + n) later (refill_tokens now l)).
  { exists 0. rewrite !Z.add_0_r. split; [lia|]. split; [lia|]. apply (solvent_later _ _ _ now); [done|].
    apply (refill_solvent k t0 Hk sent lo); [done|by eapply early_before|done]. }
  destruct (is_connected c); [|done].
  pose proof (transfer_solvent k t0 Hk sent lo now later (len data) l Hn Hl He (len_nonneg data) Hs) as Ht.
  unfold can_send in *. cbn in *. destruct (len data <=? _); [|done]. specialize (Ht eq_refl).
  destruct (send_loop _ _ _) as [[[]|] total]; [|done..].
  exists (len data). split; [apply len_nonneg|]. split; [|done]. apply wrap_le; [lia|].
  pose proof (len_nonneg data). lia.
Qed.

Lemma receive_books k t0 sent lo now later n answer c l :
  0 <= k < 2 ^ 63 → lo <= now → now <= later → early k t0 later → limited c = true →
  solvent k t0 sent lo l →
  let '(_, c', l', _) := receive n answer now later c l in
  bytes_sent c' = bytes_sent c ∧ solvent k t0 sent later l'.
Proof.
  intros Hk Hn Hl He Hlim Hs. unfold receive. rewrite Hlim.
  assert (Hidle : solvent k t0 sent later l) by (apply (solvent_later _ _ _ lo); [lia|done]).
  assert (Hr : solvent k t0 sent now (refill_tokens now l))
    by (apply (refill_solvent k t0 Hk sent lo); [done|by eapply early_before|done]).
  assert (Hasked : solvent k t0 sent later (refill_tokens now l)) by (by apply (solvent_later _ _ _ now)).
  destruct (is_connected c); [|done]. unfold can_receive. cbn. destruct (n <=? _); [|done].
  destruct answer as [[|b d]| |]; [done| |done..]. split; [done|]. by apply (received_solvent k t0 Hk _ now); [done..|apply len_nonneg|].
Qed.

Lemma step_books k t0 lo now op m :
  0 <= k < 2 ^ 63 → lo <= now → now <= op_end now op → early k t0 (op_end now op) → keeps_limit op →
  books k t0 lo m → books k t0 (op_end now op) (manager_step now op m).1.
Proof.
  intros Hk Hn Hl He Hop [Hf (sent & Hle & Hs)]. split; [by apply step_counters|].
  assert (Hquiet : match op with Send _ _ _ _ | Receive _ _ _ _ => False | _ => True end →
    ∃ sent', sum_sent (heap (manager_step now op m).1) <= sent' ∧
             solvent k t0 sent' (op_end now op) (global_limiter (manager_step now op m).1)).
  { intros Hq. destruct (step_quiet now op m Hop Hq) as [-> ->]. exists sent. split; [done|].
    apply (solvent_later _ _ _ lo); [lia|done]. }
  destruct op as [| | | | | | | |h data answers later|h n answer later]; try by apply Hquiet.
  - cbn [manager_step op_end] in *. unfold use_connection. destruct (heap m !! h) as [c|] eqn:E.
    + destruct (Forall_lookup_1 _ _ _ _ Hf E) as [Hlim Hb].
      pose proof (send_books k t0 sent lo now later data answers c _ Hk Hn Hl He Hlim Hb Hs) as H.
      destruct (send _ _ _ _ _ _) as [[[[]]]]. destruct H as (x & Hx & Hc & H). exists (sent + x). cbn.
      rewrite (sum_sent_insert _ _ c) by done. split; [lia|done].
    + exists sent. split; [done|]. apply (solvent_later _ _ _ lo); [lia|done].
  - cbn [manager_step op_end] in *. unfold use_connection. destruct (heap m !! h) as [c|] eqn:E.
    + destruct (Forall_lookup_1 _ _ _ _ Hf E) as [Hlim Hb].
      pose proof (receive_books k t0 sent lo now later n answer c _ Hk Hn Hl He Hlim Hs) as H.
      destruct (receive _ _ _ _ _ _) as [[[]]]. destruct H as (Hc & H). exists sent. cbn.
      rewrite (sum_sent_insert _ _ c) by done. split; [lia|done].
    + exists sent. split; [done|]. apply (solvent_later _ _ _ lo); [lia|done].
Qed.

Lemma run_books k t0 lo hi ops m :
  0 <= k < 2 ^ 63 → early k t0 hi → clocked lo hi ops → Forall (λ p, keeps_limit p.2) ops →
  books k t0 lo m → books k t0 hi (manager_run ops m).1.
Proof.
  intros Hk He. revert lo m. induction ops as [|[now op] ops IH]; intros lo m Hc Ho Hm.
  - destruct Hm as (Hf & sent & Hle & Hs). split; [done|]. exists sent. split; [done|]. by apply (solvent_later _ _ _ lo).
  - cbn in Hc. destruct Hc as (Hn & Hl & Hc). apply list.Forall_cons in Ho as [Hop Ho]. cbn [manager_run].
    assert (early k t0 (op_end now op)) as He'.
    { eapply early_before; [done| |done]. by eapply clocked_le. }
    pose proof (step_books k t0 lo now op m Hk Hn Hl He' Hop Hm) as Hs.
    destruct (manager_step now op m) as [m1 k1]. cbn [fst] in Hs. specialize (IH _ _ Hc Ho Hs).
    destruct (manager_run ops m1). exact IH.
Qed.

(** C21: whatever is asked of a connection manager with its initial limit and of all
    the connections it gave out, one request after the other, the bytes they count as
    sent are together at most what the limit allows: ten mebibytes and as many again
    for each second since the start, with the clock in nanoseconds and for eighteen
    years. *)
Theorem bandwidth_bound ops t0 hi :
  clocked t0 hi ops → Forall (λ p, keeps_limit p.2) ops → hi - t0 <= 2 ^ 59 →
  let m := (manager_run ops (new_connection_manager t0)).1 in
  sum_sent (heap m) * 1000000000 <= 10485760 * (1000000000 + (hi - t0)).
Proof.
  intros Hc Ho Hhi. cbn zeta.
  destruct (run_books 10485760 t0 t0 hi ops (new_connection_manager t0)) as (_ & sent & Hle & Hb & Ht & Hl & Hs);
    [lia|unfold early; lia|done|done| |].
  - split; [constructor|]. exists 0. split; [done|]. apply (new_limiter_solvent 10485760 t0). lia.
  - nia.
Qed.

Definition here : SocketAddress := MkSocketAddress (str "10.0.0.2") 8470 IPv4.
Definition answered : Dial := MkDial true (Some [false; true]) (Some (str "10.0.0.1", str "40000")).

(** The first send is counted when it is complete; of the second two bytes go
    out before it fails, uncounted. *)
Definition two_sends : list (Z * manager_op) :=
  [(0, Create here answered);
   (1000, Send 0 (replicate 6 "x"%byte) [Accepted 4; SendBlocked; Accepted 2] 2000);
   (2000, Send 0 (replicate 3 "y"%byte) [Accepted 2; SendFailed] 3000)].

Lemma bandwidth_bound_witness :
  sum_sent (heap (manager_run two_sends (new_connection_manager 0)).1) = 6 ∧
  sum_sent (heap (manager_run two_sends (new_connection_manager 0)).1) * 1000000000
    <= 10485760 * (1000000000 + (3000 - 0)).
Proof.
  split; [by vm_compute|]. apply (bandwidth_bound two_sends 0 3000).
  - cbn. lia.
  - repeat constructor.
  - lia.
Defined.

Lemma refill_early now l : Z.quot (now - last_update l) 1000000 <= 0 → refill_tokens now l = l.
Proof. intros He. unfold refill_tokens. cbn zeta. destruct (Z.ltb_spec 0 (Z.quot (now - last_update l) 1000000)); [lia|done]. Qed.

Lemma refill_idle now l : refill_tokens now (refill_tokens now l) = refill_tokens now l.
Proof.
  apply refill_early. unfold refill_tokens. cbn zeta.
  destruct (Z.ltb_spec 0 (Z.quot (now - last_update l) 1000000)); [|done]. cbn. by rewrite Z.sub_diag.
Qed.

(** What the limit does not cover.  Asking and recording are separate calls, so any number of
    senders that ask at the same moment may each send all there is; and bytes of a send that
    fails half way are on the wire but neither counted nor charged, and the connection
    stays up, so the next message follows the fragment. *)
Lemma limit_escaped :
  (∀ n limit now, limiter_run (replicate n (now, CanSend limit)) (new_limiter now limit) =
                  (replicate n true, new_limiter now limit)) ∧
  (∀ c l data j now later, state c = CONNECTED → limited c = true → 0 <= j < len data → len data < 2 ^ 64 →
     len data <= tx_tokens (refill_tokens now l) →
     send data [Accepted j; SendFailed] now later c (refill_tokens now l) =
     (Some false, take (Z.to_nat j) data, c, refill_tokens now l, on_error "Send failed" (callbacks c))).
Proof.
  split.
  - intros n limit now.
    assert (can_send limit now (new_limiter now limit) = (true, new_limiter now limit)) as E.
    { unfold can_send, refill_tokens. cbn. rewrite Z.sub_diag. cbn. by rewrite Z.leb_refl. }
    induction n as [|n IH]; [done|]. cbn [replicate limiter_run limiter_step]. by rewrite E, IH.
  - intros c l data j now later Hc Hl Hj Hlen Ht. unfold send, is_connected. rewrite Hl, bool_decide_true by done.
    unfold can_send. cbn zeta. rewrite refill_idle. destruct (Z.leb_spec (len data) (tx_tokens (refill_tokens now l))); [|lia].
    cbn [send_loop]. destruct (Z.ltb_spec 0 (len data)); [|lia]. rewrite wrap_small by (unfold in_u; lia).
    rewrite Z.add_0_l. by destruct (Z.ltb_spec j (len data)); [|lia].
Qed.


(** Clock readings less than a millisecond apart. *)
Fixpoint polled (last : Z) (times : list Z) : Prop :=
  match times with
  | [] => True
  | t :: times => last <= t < last + 1000000 ∧ polled t times
  end.

Lemma polling_starves n limit rx times last prev :
  0 <= limit < 1000 → 0 < n → last <= prev < last + 1000000 → polled prev times →
  (limiter_run ((λ t, (t, CanSend n)) <$> times) (MkBandwidthLimiter limit 0 rx last)).1 = replicate (length times) false.
Proof.
  intros Hl Hn. revert rx last prev. induction times as [|t times IH]; intros rx last prev Hp Ht; [done|].
  cbn in Ht. destruct Ht as [Ht Hts]. cbn [fmap list_fmap limiter_run limiter_step length replicate]. unfold can_send.
  assert (∃ rx' last', refill_tokens t (MkBandwidthLimiter limit 0 rx last) = MkBandwidthLimiter limit 0 rx' last' ∧
                       last' <= t < last' + 1000000) as (rx' & last' & -> & Ht').
  { unfold refill_tokens. cbn. destruct (Z.ltb_spec 0 (Z.quot (t - last) 1000000)) as [He|He].
    - assert (Z.quot (t - last) 1000000 = 1) as -> by (Z.to_euclidean_division_equations; lia).
      rewrite (wrap_small 64 1), Z.mul_1_r, (wrap_small 64 limit), Z.div_small by (unfold in_u; lia).
      change (u64 (0 + 0)) with 0. rewrite Z.min_l by lia.
      eexists _, _. split; [done|lia].
    - eexists _, _. split; [done|]. Z.to_euclidean_division_equations; lia. }
  cbn. destruct (Z.leb_spec n 0); [lia|]. specialize (IH rx' last' t Ht' Hts). cbn in IH.
  destruct (limiter_run _ _). cbn in *. by rewrite IH.
Qed.

(** A limiter can refuse for good. Whatever happened to a manager with its initial limit,
    a message of more than ten mebibytes is refused and so is a receive with a larger
    buffer, even when a single byte waits; and a limit below a thousand bytes, once used
    up, is not refilled while it is asked at intervals of less than a millisecond: each
    question throws the fractions away. *)
Theorem limiter_starves :
  (∀ ops t0 hi now later data answers n answer c,
     clocked t0 hi ops → Forall (λ p, keeps_limit p.2) ops → hi <= now → now - t0 <= 2 ^ 59 →
     let l := global_limiter (manager_run ops (new_connection_manager t0)).1 in
     limited c = true → is_connected c = true →
     (10485760 < len data → (send data answers now later c l).1.1.1 = (Some false, [])) ∧
     (10485760 < n → (receive n answer now later c l).1.1.1 = None)) ∧
  (∀ n limit rx times last,
     0 <= limit < 1000 → 0 < n → polled last times →
     (limiter_run ((λ t, (t, CanSend n)) <$> times) (MkBandwidthLimiter limit 0 rx last)).1 =
     replicate (length times) false).
Proof.
  split.
  - intros ops t0 hi now later data answers n answer c Hc Ho Hhi Hnow l Hl Hup.
    assert (early 10485760 t0 now) as He by (unfold early; lia).
    assert (early 10485760 t0 hi) as He' by (unfold early in *; lia).
    destruct (run_books 10485760 t0 t0 hi ops (new_connection_manager t0)) as (_ & sent & _ & Hs); try done.
    { split; [constructor|]. exists 0. split; [done|]. apply (new_limiter_solvent 10485760 t0). lia. }
    fold l in Hs. destruct (refill_solvent 10485760 t0 ltac:(lia) sent hi now l Hhi He Hs) as [(Hb & Htx & _) _].
    unfold send, receive, can_send, can_receive. rewrite Hup, Hl. split.
    + intros Hd. by destruct (Z.leb_spec (len data) (tx_tokens (refill_tokens now l))); [lia|].
    + intros Hd. by destruct (Z.leb_spec n (rx_tokens (refill_tokens now l))); [lia|].
  - intros n limit rx times last Hlim Hn Hp. apply (polling_starves n limit rx times last last); [done|done| |done]. lia.
Qed.

Lemma limiter_starves_witness :
  (limiter_run ((λ t, (t, CanSend 1)) <$> [999999; 1999998; 2999997]) (MkBandwidthLimiter 999 0 0 0)).1 =
  [false; false; false].
Proof. apply (proj2 limiter_starves 1 999 0 [999999; 1999998; 2999997] 0); cbn; lia. Defined.

(** ** Connections that ended *)

(** What other parties do while nobody closes: nothing is hung up, closed or dialled again. *)
Definition hands_off (op : manager_op) : Prop :=
  match op with Close _ | CloseAll | Disconnect _ | Redial _ _ _ => False | _ => True end.

Definition up_at (id : bytes) (h : nat) (m : ConnectionManager) : Prop :=
  connections m !! id = Some h ∧ ∃ c, heap m !! h = Some c ∧ state c = CONNECTED.

Lemma update_other h h' f m :
  h ≠ h' → heap (update_connection h f m).1 !! h' = heap m !! h'.
Proof.
  intros Hn. unfold update_connection. destruct (heap m !! h); [|done]. destruct (f _). cbn.
  by rewrite list_lookup_insert_ne.
Qed.

Lemma use_other h h' f m :
  h ≠ h' → heap (use_connection h f m).1 !! h' = heap m !! h'.
Proof.
  intros Hn. unfold use_connection. destruct (heap m !! h); [|done]. destruct (f _ _) as [[]]. cbn.
  by rewrite list_lookup_insert_ne.
Qed.

Lemma update_up h f id h' m :
  (∀ c, state c = CONNECTED → state (f c).1 = CONNECTED) → up_at id h' m → up_at id h' (update_connection h f m).1.
Proof.
  intros Hf (E & c & Ec & Hc). split; [by rewrite (proj1 (update_shape h f m))|].
  destruct (decide (h = h')) as [->|]; [|exists c; by rewrite update_other].
  unfold update_connection. rewrite Ec. specialize (Hf c Hc). destruct (f c) as [c' k]. exists c'. cbn.
  split; [|done]. apply list_lookup_insert_eq. by eapply lookup_lt_Some.
Qed.

Lemma use_up h f id h' m :
  (∀ c l, state c = CONNECTED → state (f c l).1.1 = CONNECTED) → up_at id h' m → up_at id h' (use_connection h f m).1.
Proof.
  intros Hf (E & c & Ec & Hc). split; [by rewrite (proj1 (use_shape h f m))|].
  destruct (decide (h = h')) as [->|]; [|exists c; by rewrite use_other].
  unfold use_connection. rewrite Ec. specialize (Hf c (global_limiter m) Hc). destruct (f c _) as [[c' l] k]. exists c'. cbn.
  split; [|done]. apply list_lookup_insert_eq. by eapply lookup_lt_Some.
Qed.

Lemma create_up a d now m r m' id h :
  create_connection a d now m = Ok (r, m') → up_at id h m → up_at id h m'.
Proof.
  unfold create_connection. intros E (Eh & c & Ec & Hc). destruct (connections m !! generate_connection_id a) eqn:Eid.
  { simplify_eq. split; [done|eauto]. }
  destruct (connect _ _ _ _) as [[[[] c1] k]| |]; cbn in E; simplify_eq; [|split; [done|eauto]].
  split; cbn.
  - rewrite lookup_insert_ne; [done|]. congruence.
  - exists c. split; [|done]. by apply lookup_app_l_Some.
Qed.

Lemma foldl_delete_other (l : list bytes) (t : gmap bytes nat) id :
  id ∉ l → foldl (λ t id, delete id t) t l !! id = t !! id.
Proof.
  revert t. induction l as [|i l IH]; intros t Hl; [done|]. cbn. rewrite not_elem_of_cons in Hl.
  rewrite IH by tauto. apply lookup_delete_ne. naive_solver.
Qed.

Lemma step_up now op m id h : hands_off op → up_at id h m → up_at id h (manager_step now op m).1.
Proof.
  intros Hop Hm. destruct op as [a d|a p d|i| |n| |x a d|x|x data answers later|x n answer later]; try done;
    cbn [manager_step].
  - destruct (create_connection a d now m) as [[r m']| |] eqn:E; [|done..]. by eapply create_up.
  - unfold create_monitored_connection.
    destruct (create_connection a d now m) as [[[x|] m']| |] eqn:E; cbn; try done; [|by eapply create_up].
    apply (update_up x (λ c, (watch p c, []))); [done|]. by eapply create_up.
  - destruct Hm as (E & c & Ec & Hc). split; [|eauto]. cbn. rewrite foldl_delete_other; [done|].
    intros ([i x] & -> & Hx)%list_elem_of_fmap. apply list_elem_of_filter in Hx as [Hd Hx]. cbn in *.
    apply elem_of_entries in Hx. rewrite E in Hx. injection Hx as ->. unfold dead, is_connected in Hd.
    rewrite Ec, bool_decide_true in Hd by done. done.
  - apply use_up; [|done]. intros c l Hc. pose proof (send_keeps data answers now later c l) as H.
    destruct (send _ _ _ _ _ _) as [[[[]]]]. by destruct H as [[->|(s & _ & ->)] _].
  - apply use_up; [|done]. intros c l Hc. pose proof (receive_keeps n answer now later c l) as H.
    destruct (receive _ _ _ _ _ _) as [[[]]]. by destruct H as [[->|[s ->]] _].
Qed.

(** The end of a connection is never noticed. Whatever the system reports to later sends
    and receives, errors and the closing of the other end included, and however often dead
    connections are cleaned up, an established connection stays registered and connected,
    and is what a request for a connection to its address gets: nobody dials again until
    somebody closes it. *)
Theorem closed_peers_stay ops m id h c :
  connections m !! id = Some h → heap m !! h = Some c → state c = CONNECTED →
  Forall (λ p, hands_off p.2) ops →
  let m' := (manager_run ops m).1 in
  ∃ c', heap m' !! h = Some c' ∧ is_connected c' = true ∧ has_connection id m' = true ∧
    ∀ a d now, generate_connection_id a = id → create_connection a d now m' = Ok (Some h, m').
Proof.
  intros E Ec Hc Hops m'.
  assert (up_at id h m') as (E' & c' & Ec' & Hc').
  { apply (run_keeps hands_off (up_at id h)); [|done|split; [done|eauto]].
    intros now op m0 Hop. by apply step_up. }
  exists c'. split; [done|]. split; [unfold is_connected; by apply bool_decide_true|]. split.
  - unfold has_connection. rewrite E'. by apply bool_decide_true.
  - intros a d now Ha. unfold create_connection. by rewrite Ha, E'.
Qed.

Definition up : ConnectionManager := (manager_step 0 (Create here answered) (new_connection_manager 0)).1.

Lemma closed_peers_stay_witness :
  let ops := [(10, Receive 0 100 (Received []) 10); (20, Send 0 (str "hi") [SendFailed] 20); (30, Cleanup)] in
  let m := (manager_run ops up).1 in
  ∃ c, heap m !! 0%nat = Some c ∧ is_connected c = true ∧ has_connection (to_string here) m = true ∧
    ∀ a d now, generate_connection_id a = to_string here → create_connection a d now m = Ok (Some 0%nat, m).
Proof.
  intros ops. destruct (heap up !! 0%nat) as [c|] eqn:E; [|done].
  apply (closed_peers_stay ops up (to_string here) 0 c); [by vm_compute|done| |repeat constructor].
  vm_compute in E. injection E as <-. done.
Defined.

(** ** Watched connections *)

(** The calls an operation can make. *)
Definition expected (op : manager_op) (k : Called) : Prop :=
  match k with
  | OnData _ _ => False
  | OnConnected _ => ¬ no_redial op
  | OnError _ _ | OnDisconnected _ => True
  end.

Lemma disconnect_calls op c : Forall (expected op) (disconnect c).2.
Proof.
  pose proof (disconnect_keeps c) as H. destruct (disconnect c). destruct H as (_ & _ & _ & _ & _ & _ & ->). cbn.
  unfold on_disconnected. repeat case_match; by repeat constructor.
Qed.

Lemma update_calls op h f m :
  (∀ c, Forall (expected op) (f c).2) → Forall (expected op) (update_connection h f m).2.
Proof.
  intros Hf. unfold update_connection. destruct (heap m !! h) as [c|]; [|constructor].
  specialize (Hf c). by destruct (f c).
Qed.

Lemma use_calls op h f m :
  (∀ c l, Forall (expected op) (f c l).2) → Forall (expected op) (use_connection h f m).2.
Proof.
  intros Hf. unfold use_connection. destruct (heap m !! h) as [c|]; [|constructor].
  specialize (Hf c (global_limiter m)). by destruct (f c _) as [[]].
Qed.

Lemma close_all_calls op l m k :
  Forall (expected op) k →
  Forall (expected op) (foldl (λ '(m, k) '((_, h) : bytes * nat),
    let '(m, k') := update_connection h disconnect m in (m, k ++ k')) (m, k) l).2.
Proof.
  revert m k. induction l as [|[id h] l IH]; intros m k Hk; [done|]. cbn [foldl].
  pose proof (update_calls op h disconnect m (disconnect_calls op)). destruct (update_connection h disconnect m).
  apply IH. by apply Forall_app.
Qed.

Lemma on_error_calls op w k : Forall (expected op) (on_error w k).
Proof. unfold on_error. case_match; by repeat constructor. Qed.

Lemma redial_calls h a d now c : Forall (expected (Redial h a d)) (redial a d now c).2.
Proof.
  unfold redial. destruct (connect a d now c) as [[[[] c'] k]| |] eqn:E; cbn; try constructor;
    apply connect_keeps in E as (_ & _ & _ & Ht & Hf).
  - destruct (Ht eq_refl) as (_ & _ & _ & _ & ->). unfold on_connected.
    case_match; [|constructor]. constructor; [cbn; tauto|constructor].
  - destruct (Hf eq_refl) as [-> _]. constructor.
Qed.

Lemma step_calls now op m : Forall (expected op) (manager_step now op m).2.
Proof.
  destruct op as [a d|a p d|id| |n| |h a d|h|h data answers later|h n answer later]; cbn [manager_step];
    try by (repeat case_match; constructor).
  - unfold close_connection. destruct (connections m !! id) as [h|]; [|constructor].
    pose proof (update_calls (Close id) h disconnect m (disconnect_calls _)).
    by destruct (update_connection h disconnect m).
  - unfold close_all_connections. pose proof (close_all_calls CloseAll (entries (connections m)) m [] ltac:(constructor)).
    by destruct (foldl _ _ _).
  - apply update_calls, redial_calls.
  - apply update_calls, disconnect_calls.
  - apply use_calls. intros c l. pose proof (send_keeps data answers now later c l) as H.
    destruct (send _ _ _ _ _ _) as [[[[]]]]. destruct H as [_ [->| ->]]; [constructor|apply on_error_calls].
  - apply use_calls. intros c l. pose proof (receive_keeps n answer now later c l) as H.
    destruct (receive _ _ _ _ _ _) as [[[]]]. destruct H as [_ [->| ->]]; [constructor|apply on_error_calls].
Qed.

(** What a monitor makes of the calls. *)
Definition monitor_calls (now : Z) (ks : list Called) (a : ActivityMonitor) : ActivityMonitor :=
  foldl (λ a k, report_call now k a) a ks.

Definition only_disconnects (now : Z) (ks : list Called) (a : ActivityMonitor) : ActivityMonitor :=
  foldl (λ a k, match k with OnDisconnected p => on_peer_disconnected p now a | _ => a end) a ks.

(** The manager that watches connections misses what it watches for. Its callbacks are set
    when the connection is already up, and nothing ever calls the one for data: whatever
    is done, unless a connection is dialled again by hand, the activity monitor hears of
    disconnections only, neither of a peer that connects nor of a byte received. *)
Theorem monitored_connections_silent ops m now a :
  Forall (λ p, no_redial p.2) ops →
  let ks := (manager_run ops m).2 in
  monitor_calls now ks a = only_disconnects now ks a.
Proof.
  intros Hops ks. assert (Forall (expected Cleanup) ks) as Hks.
  { unfold ks. clear ks. revert m. induction ops as [|[t op] ops IH]; intros m; [constructor|].
    apply list.Forall_cons in Hops as [Hop Hops]. cbn [manager_run]. pose proof (step_calls t op m) as Hs.
    destruct (manager_step t op m) as [m1 k]. specialize (IH Hops m1). destruct (manager_run ops m1) as [m2 k'].
    apply Forall_app. split; [|done]. eapply list.Forall_impl; [exact Hs|]. intros [] ?; cbn in *; tauto. }
  clearbody ks. revert a. induction Hks as [|k ks Hk Hks IH]; intros a; [done|].
  unfold monitor_calls, only_disconnects in *. cbn [foldl]. rewrite IH. f_equal. destruct k; cbn in *; tauto.
Qed.

Definition watched : list (Z * manager_op) :=
  [(0, CreateMonitored here (array_fill 32 "007"%byte) answered);
   (10, Receive 0 100 (Received (str "hello")) 10); (20, Send 0 (str "hi") [Accepted 2] 20); (30, Close (to_string here))].

Lemma monitored_connections_silent_witness :
  (manager_run watched (new_connection_manager 0)).2 = [OnDisconnected (array_fill 32 "007"%byte)] ∧
  ∀ a, monitor_calls 40 (manager_run watched (new_connection_manager 0)).2 a =
       only_disconnects 40 (manager_run watched (new_connection_manager 0)).2 a.
Proof.
  split; [by vm_compute|].
  intros a. apply (monitored_connections_silent watched). repeat constructor.
Defined.
