(* ===== verification/Human.v ===== *)
(** Pseudonyms of people: [HumanIdentity] and [HumanIdentityManager] of
    src/identity/human_identity.hpp and human_identity.cpp.

    The clock in seconds is [now].  An identity is a value that the manager
    copies in and out, so what is changed on a copy is not seen by the manager
    until it is registered again.  [garbage] is the content of a member the code
    leaves uninitialised.  A [std::multimap] keeps the edges of one key in the
    order of insertion and is only read one key at a time, so it is the list of
    its entries. *)

From Stdlib Require Import Strings.Byte.
From S2P Require Import Prelude Reader Common Crypto Floats TrustGraph Reputation.

Abbreviation HumanID := Hash256.

(** ** Identities *)

Record Attestation := MkAttestation {
  attester_id : HumanID;
  att_signature : Signature;
  att_timestamp : Z;
  claim : bytes;
  att_expires_at : Z
}.

Record HumanIdentity := MkHumanIdentity {
  human_id : HumanID;
  human_public_key : PublicKey;
  human_created_at : Z;
  display_name : option bytes;
  associated_nodes : gset NodeID;
  human_reputation : option ReputationScore;
  attestations : list Attestation
}.

Definition with_display_name (x : option bytes) (h : HumanIdentity) : HumanIdentity :=
  MkHumanIdentity (human_id h) (human_public_key h) (human_created_at h) x (associated_nodes h)
    (human_reputation h) (attestations h).
Definition with_nodes (x : gset NodeID) (h : HumanIdentity) : HumanIdentity :=
  MkHumanIdentity (human_id h) (human_public_key h) (human_created_at h) (display_name h) x
    (human_reputation h) (attestations h).
Definition with_reputation (x : option ReputationScore) (h : HumanIdentity) : HumanIdentity :=
  MkHumanIdentity (human_id h) (human_public_key h) (human_created_at h) (display_name h) (associated_nodes h)
    x (attestations h).
Definition with_attestations (x : list Attestation) (h : HumanIdentity) : HumanIdentity :=
  MkHumanIdentity (human_id h) (human_public_key h) (human_created_at h) (display_name h) (associated_nodes h)
    (human_reputation h) x.

Definition set_display_name (name : bytes) (h : HumanIdentity) : HumanIdentity :=
  with_display_name (Some (if 256 <? len name then take 256 name else name)) h.

Definition associate_node (n : NodeID) (h : HumanIdentity) : HumanIdentity :=
  with_nodes ({[n]} ∪ associated_nodes h) h.

Definition disassociate_node (n : NodeID) (h : HumanIdentity) : HumanIdentity :=
  with_nodes (associated_nodes h ∖ {[n]}) h.

Definition get_associated_nodes (h : HumanIdentity) : list NodeID := set_elements (associated_nodes h).

Definition is_associated_with (n : NodeID) (h : HumanIdentity) : bool := bool_decide (n ∈ associated_nodes h).

Definition link_reputation (s : ReputationScore) : HumanIdentity → HumanIdentity := with_reputation (Some s).

Definition is_valid (a : Attestation) : bool :=
  if decide (att_timestamp a = 0) then false
  else if decide (claim a = []) then false
  else if att_expires_at a <=? att_timestamp a then false
  else true.

Definition is_expired (now : Z) (a : Attestation) : bool := att_expires_at a <? now.

Definition add_attestation (now : Z) (a : Attestation) (h : HumanIdentity) : HumanIdentity :=
  if is_valid a then
    if is_expired now a then h else with_attestations (attestations h ++ [a]) h
  else h.

Definition attestation_count (h : HumanIdentity) : Z := len (attestations h).

(** *** Serialization *)

Definition to_bytes (h : HumanIdentity) : bytes :=
  le_bytes 8 (human_created_at h) ++ arr (human_public_key h) ++ arr (human_id h) ++
  match display_name h with
  | Some name => le_bytes 4 (u32 (len name)) ++ name
  | None => replicate 4 "000"%byte
  end.

(** The length takes the bytes there are; the name is skipped if it does not
    fit. *)
Definition name_reader (W : Z) : reader (option bytes) := λ d o,
  if o <? len d then
    let name_len := le_val (sub d o 4) in
    if (0 <? name_len) && (wrap W (o + 4 + name_len) <=? len d) then
      (name ← rd_raw name_len; mret (Some name)) d (o + 4)
    else Ok (None, o + 4)
  else Ok (None, o).

Definition human_reader (W : Z) : reader HumanIdentity :=
  _ ← rd_min 72;
  created ← raw_uint 8;
  key ← raw_array 32;
  id ← raw_array 32;
  name ← name_reader W;
  mret (MkHumanIdentity id key created name ∅ None []).

(** [W] is the width of [size_t]. *)
Definition from_bytes (W : Z) (data : bytes) : outcome HumanIdentity := run_reader (human_reader W) data.

(** *** Keys and continuity *)

Record ContinuityProof := MkContinuityProof {
  challenge : Hash256;
  proof_signature : Signature;
  proof_timestamp : Z;
  proof_node : NodeID
}.

Section Keys.
Context `{Crypto}.

(** The secret key drawn is dropped. *)
Definition create_new (drawn : option (PublicKey * SecretKey)) (now : Z) : outcome HumanIdentity :=
  kp ← Ed25519.generate_keypair drawn;
  Ok (MkHumanIdentity (blake3 (arr kp.1)) kp.1 now None ∅ None []).

Definition continuity_message (c : Hash256) (timestamp : Z) : bytes := arr c ++ le_bytes 8 timestamp.

Definition create_continuity_proof (c : Hash256) (sk : SecretKey) (now : Z) (garbage : NodeID) :
    outcome ContinuityProof :=
  sg ← Ed25519.sign (continuity_message c now) sk;
  Ok (MkContinuityProof c sg now garbage).

Definition verify_proof (p : ContinuityProof) (expected_key : PublicKey) : bool :=
  Ed25519.verify (continuity_message (challenge p) (proof_timestamp p)) (proof_signature p) expected_key.

Definition verify_continuity (p : ContinuityProof) (h : HumanIdentity) : bool :=
  Ed25519.verify (continuity_message (challenge p) (proof_timestamp p)) (proof_signature p) (human_public_key h).

Definition sign_message (message : bytes) (sk : SecretKey) (h : HumanIdentity) : outcome Signature :=
  Ed25519.sign message sk.

Definition verify_signature (message : bytes) (sg : Signature) (h : HumanIdentity) : bool :=
  Ed25519.verify message sg (human_public_key h).
End Keys.

(** ** The manager *)

Record ImpersonationAlert := MkImpersonationAlert {
  claimed_id : HumanID;
  suspicious_node : NodeID;
  alert_reason : bytes;
  detected_at : Z
}.

Record TrustEdge := MkTrustEdge { edge_from : HumanID; edge_to : HumanID; edge_weight : float; edge_created_at : Z }.

Record HumanIdentityManager := MkHumanIdentityManager {
  identities : gmap HumanID HumanIdentity;
  node_to_human : gmap NodeID HumanID;
  human_trust : list (HumanID * TrustEdge);
  alerts : list ImpersonationAlert
}.

Definition new_manager : HumanIdentityManager := MkHumanIdentityManager ∅ ∅ [] [].

Definition register_identity (h : HumanIdentity) (m : HumanIdentityManager) : HumanIdentityManager :=
  MkHumanIdentityManager (<[human_id h := h]> (identities m))
    (foldl (λ t n, <[n := human_id h]> t) (node_to_human m) (get_associated_nodes h)) (human_trust m) (alerts m).

Definition unregister_identity (id : HumanID) (m : HumanIdentityManager) : HumanIdentityManager :=
  match identities m !! id with
  | None => m
  | Some h =>
      MkHumanIdentityManager (delete id (identities m))
        (foldl (λ t n, delete n t) (node_to_human m) (get_associated_nodes h)) (human_trust m) (alerts m)
  end.

Definition get_identity (id : HumanID) (m : HumanIdentityManager) : option HumanIdentity := identities m !! id.

Definition get_identity_by_node (n : NodeID) (m : HumanIdentityManager) : option HumanIdentity :=
  match node_to_human m !! n with
  | None => None
  | Some id => get_identity id m
  end.

Definition manager_add_attestation (now : Z) (target : HumanID) (a : Attestation) (m : HumanIdentityManager) :
    bool * HumanIdentityManager :=
  match identities m !! target with
  | None => (false, m)
  | Some h =>
      (true, MkHumanIdentityManager (<[target := add_attestation now a h]> (identities m)) (node_to_human m)
               (human_trust m) (alerts m))
  end.

Definition get_attestations_for (id : HumanID) (m : HumanIdentityManager) : list Attestation :=
  match identities m !! id with None => [] | Some h => attestations h end.

Definition raise_alert (a : ImpersonationAlert) (m : HumanIdentityManager) : HumanIdentityManager :=
  MkHumanIdentityManager (identities m) (node_to_human m) (human_trust m) (alerts m ++ [a]).

Definition detect_impersonation `{Crypto} (now : Z) (id : HumanID) (n : NodeID) (p : ContinuityProof)
    (m : HumanIdentityManager) : option ImpersonationAlert * HumanIdentityManager :=
  match get_identity id m with
  | None =>
      let a := MkImpersonationAlert id n (str "Unknown identity claimed") now in (Some a, raise_alert a m)
  | Some h =>
      if verify_continuity p h then (None, m)
      else let a := MkImpersonationAlert id n (str "Failed continuity verification") now in
           (Some a, raise_alert a m)
  end.

Definition add_trust_edge (now : Z) (from to : HumanID) (weight : float) (m : HumanIdentityManager) :
    HumanIdentityManager :=
  let w := if fltb weight f_zero then f_zero else if fltb f_one weight then f_one else weight in
  MkHumanIdentityManager (identities m) (node_to_human m)
    (human_trust m ++ [(from, MkTrustEdge from to w now)]) (alerts m).

Definition get_trust_edges (id : HumanID) (m : HumanIdentityManager) : list TrustEdge :=
  (filter (λ e, e.1 = id) (human_trust m)).*2.

Definition identity_count (m : HumanIdentityManager) : Z := Z.of_nat (size (identities m)).

Definition total_attestations (m : HumanIdentityManager) : Z :=
  foldl (λ c '(_, h), u64 (c + attestation_count h)) 0 (entries (identities m)).

Definition verify_attestation_chain (now : Z) (id : HumanID) (m : HumanIdentityManager) : bool :=
  match get_identity id m with
  | None => false
  | Some h =>
      if attestation_count h =? 0 then false
      else forallb (λ a, is_valid a && negb (is_expired now a)) (attestations h)
  end.

Inductive human_op :=
  | CreateIdentity (drawn : option (PublicKey * SecretKey))
  | Register (h : HumanIdentity)
  | Unregister (id : HumanID)
  | Attest (target : HumanID) (a : Attestation)
  | Detect (id : HumanID) (n : NodeID) (p : ContinuityProof)
  | Trust (from to : HumanID) (weight : float).

Definition create_identity `{Crypto} (drawn : option (PublicKey * SecretKey)) (now : Z) (m : HumanIdentityManager) :
    outcome (HumanIdentity * HumanIdentityManager) :=
  h ← create_new drawn now;
  Ok (h, register_identity h m).

Definition human_step `{Crypto} (now : Z) (op : human_op) (m : HumanIdentityManager) : HumanIdentityManager :=
  match op with
  | CreateIdentity drawn => match create_identity drawn now m with Ok (_, m') => m' | _ => m end
  | Register h => register_identity h m
  | Unregister id => unregister_identity id m
  | Attest t a => (manager_add_attestation now t a m).2
  | Detect id n p => (detect_impersonation now id n p m).2
  | Trust f t w => add_trust_edge now f t w m
  end.

Definition human_run `{Crypto} (ops : list (Z * human_op)) (m : HumanIdentityManager) : HumanIdentityManager :=
  foldl (λ m '(now, op), human_step now op m) m ops.

(** ** What is stored of an identity *)

Definition stored (h : HumanIdentity) : HumanIdentity :=
  MkHumanIdentity (human_id h) (human_public_key h) (human_created_at h)
    (if decide (display_name h = Some []) then None else display_name h) ∅ None [].

Definition storable (h : HumanIdentity) : Prop :=
  in_u 64 (human_created_at h) ∧ match display_name h with Some name => len name < 2 ^ 32 | None => True end.

Lemma le_val_cut (l : bytes) n : 0 <= n → 0 <= le_val (sub l n 4) < 2 ^ 32.
Proof.
  intros Hn. pose proof (le_val_range (sub l n 4)) as Hr. unfold in_u in Hr.
  assert (len (sub l n 4) <= 4) by (unfold sub, len; rewrite length_take; lia).
  split; [lia|]. destruct Hr as [_ Hr]. eapply Z.lt_le_trans; [exact Hr|]. apply Z.pow_le_mono_r; lia.
Qed.

Definition name_bytes (name : option bytes) : bytes :=
  match name with Some name => le_bytes 4 (u32 (len name)) ++ name | None => replicate 4 "000"%byte end.

Lemma name_reads name pre post :
  len (pre ++ name_bytes name ++ post) < 2 ^ 63 →
  match name with Some name => len name < 2 ^ 32 | None => True end →
  (λ r, match r with Ok (x, _) => Some x | _ => None end)
    (name_reader 64 (pre ++ name_bytes name ++ post) (len pre)) =
  Some (if decide (name = Some []) then None else name).
Proof.
  intros Hl Hn. unfold name_reader. pose proof (len_nonneg post). pose proof (len_nonneg pre).
  set (d := pre ++ name_bytes name ++ post) in *.
  assert (∃ e r, name_bytes name = e ++ r ∧ len e = 4 ∧ le_val e = match name with Some n => len n | None => 0 end ∧
                 r = default [] name) as (e & r & Ee & He & Hv & Er).
  { destruct name as [name|].
    - exists (le_bytes 4 (u32 (len name))), name. rewrite le_val_bytes, wrap_idemp. split; [done|].
      split; [apply len_le_bytes|]. split; [|done]. apply wrap_small. pose proof (len_nonneg name). unfold in_u. lia.
    - by exists (replicate 4 "000"%byte), []. }
  assert (Ed : d = pre ++ e ++ r ++ post) by (unfold d; by rewrite Ee, <- app_assoc).
  assert (Hd : len d = len pre + 4 + len r + len post) by (rewrite Ed, !len_app; lia).
  destruct (Z.ltb_spec (len pre) (len d)); [|pose proof (len_nonneg r); lia].
  assert (sub d (len pre) 4 = e) as -> by (rewrite Ed; by apply sub_middle_n). rewrite Hv.
  assert (rd_raw (len r) d (len pre + 4) = Ok (r, len pre + 4 + len r)) as Hr.
  { unfold rd_raw. destruct (Z.leb_spec (len pre + 4 + len r) (len d)); [|lia]. do 2 f_equal.
    rewrite Ed, app_assoc. replace (len pre + 4) with (len (pre ++ e)) by (rewrite len_app; lia). apply sub_middle. }
  destruct name as [[|b name]|]; cbn in Er; subst r.
  - done.
  - rewrite wrap_small by (unfold in_u; pose proof (len_nonneg (b :: name)); lia).
    destruct (Z.ltb_spec 0 (len (b :: name))) as [|Hlt]; [|rewrite len_cons in Hlt; pose proof (len_nonneg name); lia].
    destruct (Z.leb_spec (len pre + 4 + len (b :: name)) (len d)); [|lia]. cbn [andb].
    unfold mbind, reader_bind. rewrite Hr. done.
  - done.
Qed.

Lemma name_reader_total d o :
  0 <= o → len d < 2 ^ 63 → o <= len d → is_ok (name_reader 64 d o) = true.
Proof.
  intros Ho Hl Hod. unfold name_reader. destruct (Z.ltb_spec o (len d)); [|done].
  pose proof (le_val_cut d o Ho). rewrite wrap_small by (unfold in_u; lia).
  destruct (_ && _) eqn:E; [|done]. bool_to_prop. unfold mbind, reader_bind, rd_raw.
  by destruct (Z.leb_spec (o + 4 + le_val (sub d o 4)) (len d)); [|lia].
Qed.

(** The fields before the name. *)
Lemma human_reader_at W d :
  72 <= len d →
  ∃ created key id,
    from_bytes W d = match name_reader W d 72 with
                     | Ok (name, _) => Ok (MkHumanIdentity id key created name ∅ None [])
                     | Err e => Err e
                     | Undef => Undef
                     end.
Proof.
  intros Hl. destruct (raw_array_at 32 d 8) as [key Ek]; [lia..|].
  destruct (raw_array_at 32 d 40) as [id Ei]; [lia..|].
  eexists _, key, id. unfold from_bytes, run_reader, human_reader, mbind, reader_bind, rd_min.
  destruct (Z.ltb_spec (len d) 72); [lia|]. rewrite raw_uint_at by lia.
  change (0 + Z.of_nat 8) with 8. rewrite Ek. change (8 + Z.of_nat 32) with 40. rewrite Ei.
  change (40 + Z.of_nat 32) with 72. by destruct (name_reader W d 72) as [[]| |].
Qed.

Lemma human_reader_fields W h tail :
  in_u 64 (human_created_at h) → len (to_bytes h ++ tail) < 2 ^ W →
  from_bytes W (to_bytes h ++ tail) =
  match name_reader W (to_bytes h ++ tail) 72 with
  | Ok (name, _) => Ok (MkHumanIdentity (human_id h) (human_public_key h) (human_created_at h) name ∅ None [])
  | Err e => Err e
  | Undef => Undef
  end.
Proof.
  intros Hc Hl. set (d := to_bytes h ++ tail) in *.
  set (p := le_bytes 8 (human_created_at h)). set (k := arr (human_public_key h)). set (i := arr (human_id h)).
  assert (Ed : ∃ r, d = p ++ k ++ i ++ r) by (eexists; unfold d, to_bytes; rewrite <- !app_assoc; done).
  destruct Ed as [r Ed]. assert (Hp : len p = 8) by exact (len_le_bytes 8 _). assert (Hk : len k = 32) by exact (len_arr (human_public_key h)).
  assert (Hi : len i = 32) by exact (len_arr (human_id h)).
  unfold from_bytes, run_reader, human_reader, mbind, reader_bind, rd_min. fold d.
  assert (len d = 72 + len r) as Hd by (rewrite Ed, !len_app; lia). pose proof (len_nonneg r).
  destruct (Z.ltb_spec (len d) 72); [lia|].
  pose proof (reads_raw_uint (W := W) 8 (human_created_at h) Hc [] (k ++ i ++ r)) as H1.
  pose proof (reads_raw_array (W := W) (human_public_key h) p (i ++ r)) as H2.
  pose proof (reads_raw_array (W := W) (human_id h) (p ++ k) r) as H3.
  fold p in H1. fold k in H2. fold i in H3. cbn [app] in H1. rewrite <- Ed in H1. rewrite <- Ed in H2.
  rewrite <- !app_assoc, <- Ed in H3. rewrite len_nil in H1. rewrite H1 by done. rewrite Hp.
  change (0 + 8) with 8. rewrite Hp in H2. rewrite H2 by done. rewrite len_app, Hp, Hk in H3. rewrite Hk.
  rewrite H3 by done. rewrite Hi. change (8 + 32 + 32) with 72. by destruct (name_reader W d 72) as [[]| |].
Qed.

Lemma human_roundtrip h tail :
  storable h → len (to_bytes h ++ tail) < 2 ^ 63 → from_bytes 64 (to_bytes h ++ tail) = Ok (stored h).
Proof.
  intros [Hc Hn] Hl. rewrite human_reader_fields by (done || lia).
  set (pre := le_bytes 8 (human_created_at h) ++ arr (human_public_key h) ++ arr (human_id h)).
  assert (to_bytes h ++ tail = pre ++ name_bytes (display_name h) ++ tail) as E.
  { unfold to_bytes, pre, name_bytes. by rewrite <- !app_assoc. }
  assert (len pre = 72) as Hp by (unfold pre; by rewrite !len_app, len_le_bytes, !len_arr).
  rewrite E in *. pose proof (name_reads (display_name h) pre tail Hl Hn) as Hr. rewrite Hp in Hr.
  destruct (name_reader _ _ _) as [[name o]| |]; cbn in Hr; [|done..]. by injection Hr as ->.
Qed.

(** An identity is read back from its bytes, whatever follows them, but without its nodes,
    reputation and attestations, and with an empty name as no name. With 64-bit sizes the
    parser accepts exactly the inputs of at least 72 bytes and never leaves them; with
    32-bit sizes a declared name length can wrap around the check. *)
Theorem human_codec :
  (∀ h tail, storable h → len (to_bytes h ++ tail) < 2 ^ 63 → from_bytes 64 (to_bytes h ++ tail) = Ok (stored h)) ∧
  (∀ d, len d < 2 ^ 63 → from_bytes 64 d ≠ Undef ∧ (is_ok (from_bytes 64 d) = true ↔ 72 <= len d)) ∧
  from_bytes 32 (replicate 72 "000"%byte ++ replicate 4 "255"%byte) = Undef.
Proof.
  split; [|split].
  - exact human_roundtrip.
  - intros d Hl. destruct (Z.leb_spec 72 (len d)) as [Hd|Hd].
    + destruct (human_reader_at 64 d Hd) as (c & k & i & ->).
      pose proof (name_reader_total d 72 ltac:(lia) Hl Hd) as Ht. by destruct (name_reader 64 d 72) as [[]| |].
    + unfold from_bytes, run_reader, human_reader, mbind, reader_bind, rd_min.
      destruct (Z.ltb_spec (len d) 72); [|lia]. split; [done|]. split; [done|lia].
  - by vm_compute.
Qed.

Definition person : HumanIdentity :=
  MkHumanIdentity (array_fill 32 "001"%byte) (array_fill 32 "002"%byte) 1700000000 (Some (str "Ada"))
    {[array_fill 32 "003"%byte]} None [].

Lemma human_codec_witness :
  from_bytes 64 (to_bytes person ++ str "more") = Ok (stored person) ∧ stored person ≠ person ∧
  is_ok (from_bytes 64 (replicate 71 "000"%byte)) = false.
Proof.
  destruct human_codec as (Hrt & Htotal & _). split; [|split].
  - apply Hrt; [|by vm_compute]. split; [by vm_compute|by vm_compute].
  - intros E%(f_equal associated_nodes). apply (f_equal size) in E. by vm_compute in E.
  - apply not_true_is_false. intros E%(proj2 (Htotal (replicate 71 "000"%byte) eq_refl)). by vm_compute in E.
Defined.

(** ** Continuity *)

Section Continuity.
Context `{SignatureLaws}.

Lemma created_proof_verifies c sk now g p h :
  genuine_secret sk → create_continuity_proof c sk now g = Ok p →
  human_public_key h = crypto_sign_sk_to_pk sk →
  verify_continuity p h = true ∧ proof_node p = g.
Proof.
  intros Hgen. unfold create_continuity_proof, Ed25519.sign.
  destruct (crypto_sign_detached _ _) as [sg|] eqn:E; [|done]. intros [= <-] Hk. unfold verify_continuity, Ed25519.verify. cbn. rewrite Hk. split; [|done]. by apply verify_sign.
Qed.

(** A proof of continuity proves little. One that the owner ever made for some challenge
    is accepted from every node and at every later time, whatever challenge was meant:
    nothing compares the challenge, the time or the node, and the node in it is left
    uninitialised; while the secret key of a new identity does not survive its creation,
    so nobody can make one for it. *)
Theorem continuity_replays :
  (∀ c sk now g p m id h,
     genuine_secret sk → create_continuity_proof c sk now g = Ok p → identities m !! id = Some h →
     human_public_key h = crypto_sign_sk_to_pk sk →
     proof_node p = g ∧ ∀ now' n, detect_impersonation now' id n p m = (None, m)) ∧
  (∀ pk sk sk' now m, create_identity (Some (pk, sk)) now m = create_identity (Some (pk, sk')) now m).
Proof.
  split; [|done]. intros c sk now g p m id h Hgen Ep Ei Hk.
  destruct (created_proof_verifies _ _ _ _ _ _ Hgen Ep Hk) as [Hv Hg]. split; [done|].
  intros now' n. unfold detect_impersonation, get_identity. by rewrite Ei, Hv.
Qed.
End Continuity.

(** ** Nodes of people *)

Lemma foldl_insert_lookup (l : list NodeID) (id : HumanID) (t : gmap NodeID HumanID) n :
  foldl (λ t n, <[n := id]> t) t l !! n = if decide (n ∈ l) then Some id else t !! n.
Proof.
  revert t. induction l as [|x l IH]; intros t; cbn; [by rewrite decide_False by set_solver|].
  rewrite IH. destruct (decide (n ∈ l)); [by rewrite decide_True by set_solver|].
  destruct (decide (n = x)) as [->|].
  - by rewrite lookup_insert_eq, decide_True by set_solver.
  - by rewrite lookup_insert_ne, decide_False by set_solver.
Qed.

Lemma erase_nodes_lookup (l : list NodeID) (t : gmap NodeID HumanID) n :
  foldl (λ t n, delete n t) t l !! n = if decide (n ∈ l) then None else t !! n.
Proof.
  revert t. induction l as [|x l IH]; intros t; cbn; [by rewrite decide_False by set_solver|].
  rewrite IH. destruct (decide (n ∈ l)); [by rewrite decide_True by set_solver|].
  destruct (decide (n = x)) as [->|].
  - by rewrite lookup_delete_eq, decide_True by set_solver.
  - by rewrite lookup_delete_ne, decide_False by set_solver.
Qed.

Lemma register_node h m n :
  node_to_human (register_identity h m) !! n =
  if decide (n ∈ associated_nodes h) then Some (human_id h) else node_to_human m !! n.
Proof.
  cbn. rewrite foldl_insert_lookup. unfold get_associated_nodes. by do 2 destruct (decide _) as [?%elem_of_set_elements|?];
    try done; destruct n0; rewrite elem_of_set_elements in *.
Qed.

Lemma unregister_node id m n :
  node_to_human (unregister_identity id m) !! n =
  match identities m !! id with
  | Some h => if decide (n ∈ associated_nodes h) then None else node_to_human m !! n
  | None => node_to_human m !! n
  end.
Proof.
  unfold unregister_identity. destruct (identities m !! id) as [h|]; [|done]. cbn. rewrite erase_nodes_lookup.
  unfold get_associated_nodes. by do 2 destruct (decide _) as [?%elem_of_set_elements|?]; try done; destruct n0;
    rewrite elem_of_set_elements in *.
Qed.

Lemma register_by_node h m n :
  n ∈ associated_nodes h → get_identity_by_node n (register_identity h m) = Some h.
Proof.
  intros Hn. unfold get_identity_by_node. rewrite register_node, decide_True by done.
  unfold get_identity. cbn. apply lookup_insert_eq.
Qed.

(** A node is found for the identity registered last with it. But the lookup is not
    maintained: registering an identity again without one of its nodes leaves that node
    with it, and unregistering one takes the nodes it lists away from whoever registered
    them since. *)
Theorem node_lookup h h' m n :
  n ∈ associated_nodes h →
  (get_identity_by_node n (register_identity h m) = Some h ∧
   (n ∉ associated_nodes h' → human_id h' ≠ human_id h →
      get_identity_by_node n (register_identity h' (register_identity h m)) = Some h)) ∧
  get_identity_by_node n (register_identity (disassociate_node n h) (register_identity h m)) =
    Some (disassociate_node n h) ∧
  (n ∈ associated_nodes h' → human_id h' ≠ human_id h →
     let m' := register_identity h' (register_identity h m) in
     get_identity_by_node n m' = Some h' ∧
     get_identity_by_node n (unregister_identity (human_id h) m') = None ∧
     get_identity (human_id h') (unregister_identity (human_id h) m') = Some h').
Proof.
  intros Hn. split; [split|split].
  - by apply register_by_node.
  - intros Hn' Hid. unfold get_identity_by_node. rewrite register_node, decide_False by done.
    rewrite register_node, decide_True by done. unfold get_identity. cbn.
    by rewrite lookup_insert_ne, lookup_insert_eq by done.
  - unfold get_identity_by_node. rewrite register_node, decide_False by (cbn; set_solver).
    rewrite register_node, decide_True by done. unfold get_identity. cbn. by rewrite lookup_insert_eq.
  - intros Hn' Hid m'. split; [by apply register_by_node|].
    assert (identities m' !! human_id h = Some h) as Hh.
    { cbn. by rewrite lookup_insert_ne, lookup_insert_eq by done. }
    split.
    + unfold get_identity_by_node. rewrite unregister_node, Hh, decide_True by done. done.
    + unfold get_identity, unregister_identity. rewrite Hh. cbn. by rewrite lookup_delete_ne, lookup_insert_eq by done.
Qed.

(** C33: whoever can have a human identity registered can take any other over: bytes
    with the identifier of the victim and another key are accepted, for nothing
    compares identifier and key; once registered, the proofs of the intruder pass and
    all others are reported, the attestations of the victim are gone, and every node
    the intruder lists is found to be the victim. *)
Theorem identity_takeover `{SignatureLaws} m id sk created name nodes :
  genuine_secret sk → in_u 64 created → match name with Some n => len n < 2 ^ 32 | None => True end →
  let forged := MkHumanIdentity id (crypto_sign_sk_to_pk sk) created name nodes None [] in
  let m' := register_identity forged m in
  from_bytes 64 (to_bytes forged) = Ok (stored forged) ∧
  (∀ c now g p, create_continuity_proof c sk now g = Ok p →
     ∀ now' n, detect_impersonation now' id n p m' = (None, m')) ∧
  (∀ p now' n, verify_proof p (crypto_sign_sk_to_pk sk) = false →
     ∃ a, detect_impersonation now' id n p m' = (Some a, raise_alert a m') ∧ claimed_id a = id) ∧
  get_attestations_for id m' = [] ∧ (∀ n, n ∈ nodes → get_identity_by_node n m' = Some forged).
Proof.
  intros Hgen Hc Hn forged m'. assert (identities m' !! id = Some forged) as Hi by apply lookup_insert_eq.
  split; [|split; [|split; [|split]]].
  - pose proof (human_roundtrip forged [] (conj Hc Hn)) as Hrt. rewrite app_nil_r in Hrt. apply Hrt.
    change (to_bytes forged) with (le_bytes 8 created ++ arr (crypto_sign_sk_to_pk sk) ++ arr id ++ name_bytes name).
    rewrite !len_app, len_le_bytes, !len_arr.
    assert (len (name_bytes name) < 2 ^ 33); [|lia].
    destruct name as [n|]; cbn [name_bytes]; [|done]. rewrite len_app, len_le_bytes. lia.
  - intros c now g p Ep now' n. destruct (created_proof_verifies _ _ _ _ _ forged Hgen Ep eq_refl) as [Hv _].
    unfold detect_impersonation, get_identity. by rewrite Hi, Hv.
  - intros p now' n Hv. eexists. unfold detect_impersonation, get_identity. rewrite Hi.
    change (verify_continuity p forged) with (verify_proof p (crypto_sign_sk_to_pk sk)). rewrite Hv. done.
  - unfold get_attestations_for. by rewrite Hi.
  - intros n Hnode. by apply register_by_node.
Qed.

(** ** The manager's invariant *)

Definition weight_ok (w : float) : Prop := fltb w f_zero = false ∧ fltb f_one w = false.

Definition attested (h : HumanIdentity) : Prop := Forall (λ a, is_valid a = true) (attestations h).

Definition humans_ok (m : HumanIdentityManager) : Prop :=
  (∀ id h, identities m !! id = Some h → human_id h = id ∧ attested h) ∧
  Forall (λ e, e.1 = edge_from e.2 ∧ weight_ok (edge_weight e.2)) (human_trust m).

Definition registers_attested (op : human_op) : Prop := match op with Register h => attested h | _ => True end.

Lemma clamped_weight_ok w : weight_ok (if fltb w f_zero then f_zero else if fltb f_one w then f_one else w).
Proof. unfold weight_ok. destruct (fltb w f_zero) eqn:E; [done|]. by destruct (fltb f_one w) eqn:E1. Qed.

Lemma add_attestation_attested now a h : attested h → attested (add_attestation now a h).
Proof.
  unfold add_attestation. intros Hh. destruct (is_valid a) eqn:E; [|done]. destruct (is_expired now a); [done|].
  apply Forall_app. split; [done|]. by repeat constructor.
Qed.

Lemma add_attestation_id now a h : human_id (add_attestation now a h) = human_id h.
Proof. unfold add_attestation. by repeat case_match. Qed.

Lemma register_ok h m : attested h → humans_ok m → humans_ok (register_identity h m).
Proof.
  intros Hh [Hi Ht]. split; [|done]. intros id h'. cbn.
  intros [[<- <-]|[_ E]]%lookup_insert_Some; [done|by apply Hi].
Qed.

Lemma human_step_ok `{Crypto} now op m : registers_attested op → humans_ok m → humans_ok (human_step now op m).
Proof.
  intros Hop Hm. pose proof Hm as [Hi Ht]. destruct op as [drawn|h|id|t a|id n p|f t w]; cbn [human_step].
  - unfold create_identity, create_new. destruct (Ed25519.generate_keypair drawn) as [kp| |]; [|done..].
    apply register_ok; [constructor|done].
  - by apply register_ok.
  - unfold unregister_identity. destruct (identities m !! id); [|done]. split; [|done].
    intros id' h'. cbn. intros [_ E]%lookup_delete_Some. by apply Hi.
  - unfold manager_add_attestation. destruct (identities m !! t) as [h|] eqn:E; [|done]. split; [|done].
    intros id' h'. cbn. destruct (Hi _ _ E) as [Hid Ha]. intros [[<- <-]|[_ E']]%lookup_insert_Some; [|by apply Hi].
    split; [by rewrite add_attestation_id|by apply add_attestation_attested].
  - unfold detect_impersonation. destruct (get_identity id m) as [h|]; [|done].
    by destruct (verify_continuity p h).
  - split; [done|]. cbn. apply Forall_app. split; [done|]. constructor; [|constructor]. split; [done|].
    apply clamped_weight_ok.
Qed.

(** Whatever is asked of a manager of identities, each is filed under its own identifier
    and has no attestation without a time, a claim and a life span, if those registered
    had none; every trust edge is filed under its source with a weight that is neither
    below zero nor above one. An alert is returned exactly when it is recorded, and none
    is ever lost. *)
Theorem human_manager_invariant `{Crypto} ops :
  Forall (λ p, registers_attested p.2) ops →
  let m := human_run ops new_manager in
  humans_ok m ∧
  ∀ now op, alerts (human_step now op m) =
    alerts m ++ match op with Detect id n p => option_list (detect_impersonation now id n p m).1 | _ => [] end.
Proof.
  intros Hops m. split.
  - unfold m. clear m. assert (humans_ok new_manager) as Hm.
    { split; [|constructor]. intros id h. cbn. by rewrite lookup_empty. }
    revert Hm. generalize new_manager. induction Hops as [|[now op] ops Hop Hops IH]; intros m Hm; [done|].
    cbn. apply IH. by apply human_step_ok.
  - intros now op. destruct op as [drawn|h|id|t a|id n p|f t w]; cbn [human_step]; rewrite ?app_nil_r; try done.
    + unfold create_identity, create_new. by destruct (Ed25519.generate_keypair drawn).
    + unfold unregister_identity. by destruct (identities m !! id).
    + unfold manager_add_attestation. by destruct (identities m !! t).
    + unfold detect_impersonation. destruct (get_identity id m) as [h|]; [|done].
      destruct (verify_continuity p h); cbn; [by rewrite app_nil_r|done].
Qed.

(** ** Concrete runs *)

Definition toy_secret (b : byte) : SecretKey := array_fill 64 b.
Definition toy_person (b : byte) : HumanIdentity :=
  MkHumanIdentity (array_fill 32 b) (@crypto_sign_sk_to_pk toy_crypto (toy_secret b)) 1700000000 (Some (str "Ada"))
    {[array_fill 32 "003"%byte]} None [].

Definition people : HumanIdentityManager := register_identity (toy_person "001") new_manager.

Lemma continuity_replays_witness :
  ∃ p, @create_continuity_proof toy_crypto (array_fill 32 "009"%byte) (toy_secret "001") 50 (zeros 32) = Ok p ∧
    ∀ now n, @detect_impersonation toy_crypto now (array_fill 32 "001"%byte) n p people = (None, people).
Proof.
  destruct (is_ok_ex (@create_continuity_proof toy_crypto (array_fill 32 "009"%byte) (toy_secret "001") 50 (zeros 32)))
    as [p Hp]; [by vm_compute|].
  exists p. split; [exact Hp|].
  apply (proj1 (@continuity_replays toy_crypto toy_laws) _ _ _ _ _ people (array_fill 32 "001"%byte) (toy_person "001") I Hp).
  - apply lookup_insert_eq.
  - done.
Defined.

Lemma node_lookup_witness :
  let m := register_identity (toy_person "002") (register_identity (toy_person "001") new_manager) in
  get_identity_by_node (array_fill 32 "003"%byte) m = Some (toy_person "002") ∧
  get_identity_by_node (array_fill 32 "003"%byte) (unregister_identity (array_fill 32 "001"%byte) m) = None.
Proof.
  intros m.
  pose proof (node_lookup (toy_person "001") (toy_person "002") new_manager (array_fill 32 "003"%byte)
    (proj2 (elem_of_singleton (C := gset NodeID) _ _) eq_refl)) as (_ & _ & Hn).
  destruct Hn as (H1 & H2 & _).
  - exact (proj2 (elem_of_singleton (C := gset NodeID) _ _) eq_refl).
  - apply (bool_decide_unpack _). by vm_compute.
  - by split.
Defined.

Lemma identity_takeover_witness :
  ∃ p, @create_continuity_proof toy_crypto (array_fill 32 "009"%byte) (toy_secret "066") 50 (zeros 32) = Ok p ∧
    ∀ now n, (@detect_impersonation toy_crypto now (array_fill 32 "001"%byte) n p people).1 ≠ None ∧
      let m := register_identity (MkHumanIdentity (array_fill 32 "001"%byte)
                 (@crypto_sign_sk_to_pk toy_crypto (toy_secret "066")) 7 None ∅ None []) people in
      @detect_impersonation toy_crypto now (array_fill 32 "001"%byte) n p m = (None, m).
Proof.
  destruct (is_ok_ex (@create_continuity_proof toy_crypto (array_fill 32 "009"%byte) (toy_secret "066") 50 (zeros 32)))
    as [p Hp]; [by vm_compute|].
  exists p. split; [exact Hp|]. intros now n. split.
  - assert (@verify_continuity toy_crypto p (toy_person "001") = false) as Hv.
    { vm_compute in Hp. injection Hp as <-. by vm_compute. }
    assert (get_identity (array_fill 32 "001"%byte) people = Some (toy_person "001")) as Hi by apply lookup_insert_eq.
    unfold detect_impersonation. by rewrite Hi, Hv.
  - intros m. apply (proj1 (proj2 (@identity_takeover toy_crypto toy_laws people (array_fill 32 "001"%byte) (toy_secret "066") 7 None ∅
      I ltac:(by vm_compute) I)) _ _ _ _ Hp).
Defined.

Lemma human_manager_invariant_witness :
  let ops := [(5, Register (toy_person "001"));
              (6, Attest (array_fill 32 "001"%byte) (MkAttestation (zeros 32) (zeros 64) 5 (str "knows") 100));
              (7, Trust (zeros 32) (array_fill 32 "001"%byte) (float_of 3))] in
  let m := @human_run toy_crypto ops new_manager in
  humans_ok m ∧ len (get_attestations_for (array_fill 32 "001"%byte) m) = 1 ∧
  (edge_weight <$> get_trust_edges (zeros 32) m) = [f_one].
Proof.
  intros ops m. split; [|by vm_compute].
  apply (@human_manager_invariant toy_crypto ops). repeat constructor.
Defined.
