(* ===== verification/Runner.v ===== *)
(** The engine that runs decay checks: [DecayRunner] of
    src/core/decay/decay_runner.hpp and decay_runner.cpp, over [Decay].

    The worker thread is the sequence of its polls: one step is a round of its
    inner loop, with the readings of the monotonic clock in nanoseconds
    ([steady]) and of the wall clock in seconds ([now]); a check takes no time.
    [stop] returns when the worker has ended.  The calls of the callback are kept
    in order; what it throws is caught after everything else is done. *)

From S2P Require Import Prelude Reader Common Crypto Key Event Ledger State Decay.

Record RunnerStats := MkRunnerStats {
  total_checks : Z;
  last_check_timestamp : Z;
  keys_decayed_total : Z;
  things_decayed_total : Z;
  uptime_seconds : Z
}.

Record DecayRunner := MkDecayRunner {
  scheduler : DecayScheduler;
  running : bool;
  trigger : bool;
  decay_callback : bool;
  callback_calls : list (list KeyDecayEvent * list ThingDecayEvent);
  runner_stats : RunnerStats;
  start_time : Z;
  worker : option (Z * Z)
}.

(** [start_time_] is the epoch of the clock until the runner is started; a
    worker has an interval and the time it waits since. *)
Definition new_runner (s : DecayScheduler) : DecayRunner :=
  MkDecayRunner s false false false [] (MkRunnerStats 0 0 0 0 0) 0 None.

Definition start (interval now steady : Z) (r : DecayRunner) : DecayRunner :=
  if running r then r
  else MkDecayRunner (scheduler r) true (trigger r) (decay_callback r) (callback_calls r) (runner_stats r) now
         (Some (interval, steady)).

Definition stop (r : DecayRunner) : DecayRunner :=
  if running r then
    MkDecayRunner (scheduler r) false (trigger r) (decay_callback r) (callback_calls r) (runner_stats r) (start_time r) None
  else r.

Definition set_decay_callback (b : bool) (r : DecayRunner) : DecayRunner :=
  MkDecayRunner (scheduler r) (running r) (trigger r) b (callback_calls r) (runner_stats r) (start_time r) (worker r).

Definition with_trigger (b : bool) (r : DecayRunner) : DecayRunner :=
  MkDecayRunner (scheduler r) (running r) b (decay_callback r) (callback_calls r) (runner_stats r) (start_time r) (worker r).

Definition with_worker (w : option (Z * Z)) (r : DecayRunner) : DecayRunner :=
  MkDecayRunner (scheduler r) (running r) (trigger r) (decay_callback r) (callback_calls r) (runner_stats r) (start_time r) w.

Definition trigger_check (r : DecayRunner) : DecayRunner := if running r then with_trigger true r else r.

Definition count_check (now : Z) (keys : list KeyDecayEvent) (things : list ThingDecayEvent) (x : RunnerStats) :
    RunnerStats :=
  MkRunnerStats (u64 (total_checks x + 1)) now (u32 (keys_decayed_total x + u32 (len keys)))
    (u32 (things_decayed_total x + u32 (len things))) (uptime_seconds x).

Definition perform_decay_check (now : Z) (st : StateManager) (r : DecayRunner) : outcome DecayRunner :=
  '(keys, s) ← check_key_decay (now / 600) now st (scheduler r);
  '(things, s) ← check_thing_decay now st s;
  let s := foldl (λ s e, apply_key_decay e s) s keys in
  let s := foldl (λ s e, apply_thing_decay e s) s things in
  let calls := if decay_callback r && (negb (bool_decide (keys = [])) || negb (bool_decide (things = [])))
               then [(keys, things)] else [] in
  Ok (MkDecayRunner s (running r) (trigger r) (decay_callback r) (callback_calls r ++ calls)
        (count_check now keys things (runner_stats r)) (start_time r) (worker r)).

(** One round of the worker: it sleeps for a second, or checks and waits anew. *)
Definition worker_round (steady now : Z) (st : StateManager) (r : DecayRunner) : outcome DecayRunner :=
  match worker r with
  | None => Ok r
  | Some (interval, wait_start) =>
      if running r then
        if trigger r || (interval <=? Z.quot (steady - wait_start) 1000000000) then
          r ← perform_decay_check now st (with_trigger false r);
          Ok (with_worker (Some (interval, steady)) r)
        else Ok r
      else Ok (with_worker None r)
  end.

Definition get_stats (now : Z) (r : DecayRunner) : RunnerStats :=
  let x := runner_stats r in
  if running r then
    MkRunnerStats (total_checks x) (last_check_timestamp x) (keys_decayed_total x) (things_decayed_total x)
      (u64 (now - start_time r))
  else x.

Inductive runner_op :=
  | Start (interval : Z)
  | Stop
  | SetCallback (b : bool)
  | Trigger
  | Round (st : StateManager).

Definition runner_step (steady now : Z) (op : runner_op) (r : DecayRunner) : outcome DecayRunner :=
  match op with
  | Start interval => Ok (start interval now steady r)
  | Stop => Ok (stop r)
  | SetCallback b => Ok (set_decay_callback b r)
  | Trigger => Ok (trigger_check r)
  | Round st => worker_round steady now st r
  end.

(** An operation with the two clock readings at its time. *)
Fixpoint runner_run (ops : list (Z * (Z * runner_op))) (r : DecayRunner) : outcome DecayRunner :=
  match ops with
  | [] => Ok r
  | (steady, (now, op)) :: ops => r ← runner_step steady now op r; runner_run ops r
  end.

(** ** What a check finds *)

(** A pass tracks the nodes it looks at, and leaves the others alone. *)
Lemma check_nodes_tracks epoch now st l s r s' :
  Forall (λ p, node_id p.2 = Some p.1) l → NoDup l.*1 →
  check_nodes epoch now st l.*2 s = Ok (r, s') →
  ∀ n, node_activities s' !! n =
       if decide (n ∈ l.*1) then node_activities (track_node n now st s) !! n else node_activities s !! n.
Proof.
  revert s r s'. induction l as [|[n node] l IH]; intros s r s' Hid Hnd E n'; cbn in *.
  { injection E as <- <-. done. }
  apply list.Forall_cons in Hid as [Hn Hid]. cbn in Hn. apply list.NoDup_cons in Hnd as [Hni Hnd].
  rewrite Hn in E. destruct (check_nodes epoch now st l.*2 (track_node n now st s)) as [[r1 s1]| |] eqn:E1; cbn in E; [|done..].
  injection E as <- <-. rewrite (IH _ _ _ Hid Hnd E1 n'). destruct (decide (n' = n)) as [->|Hne].
  - rewrite decide_False by done. by rewrite decide_True by (left).
  - destruct (decide (n' ∈ l.*1)).
    + rewrite decide_True by (by right). by apply track_node_ext, track_node_other.
    + rewrite decide_False by (rewrite not_elem_of_cons; done). by apply track_node_other.
Qed.

Lemma check_things_tracks now st l s r s' :
  Forall (λ p, content_hash p.2 = Some p.1) l → NoDup l.*1 →
  check_things now st l.*2 s = Ok (r, s') →
  ∀ c, thing_activities s' !! c =
       if decide (c ∈ l.*1) then thing_activities (track_thing c st s) !! c else thing_activities s !! c.
Proof.
  revert s r s'. induction l as [|[c t] l IH]; intros s r s' Hid Hnd E c'; cbn in *.
  { injection E as <- <-. done. }
  apply list.Forall_cons in Hid as [Hn Hid]. cbn in Hn. apply list.NoDup_cons in Hnd as [Hni Hnd].
  rewrite Hn in E. destruct (check_things now st l.*2 (track_thing c st s)) as [[r1 s1]| |] eqn:E1; cbn in E; [|done..].
  injection E as <- <-. rewrite (IH _ _ _ Hid Hnd E1 c'). destruct (decide (c' = c)) as [->|Hne].
  - rewrite decide_False by done. by rewrite decide_True by (left).
  - destruct (decide (c' ∈ l.*1)).
    + rewrite decide_True by (by right). by apply track_thing_ext, track_thing_other.
    + rewrite decide_False by (rewrite not_elem_of_cons; done). by apply track_thing_other.
Qed.

Lemma track_node_twice n now st s : track_node n now st (track_node n now st s) = track_node n now st s.
Proof.
  assert (is_Some (node_activities (track_node n now st s) !! n)) as [a Ha].
  { unfold track_node. destruct (node_activities s !! n) as [a|] eqn:E; [by exists a|]. cbn. rewrite lookup_insert_eq. eauto. }
  unfold track_node at 1. by rewrite Ha.
Qed.

Lemma track_thing_twice c st s : track_thing c st (track_thing c st s) = track_thing c st s.
Proof.
  assert (is_Some (thing_activities (track_thing c st s) !! c)) as [a Ha].
  { unfold track_thing. destruct (thing_activities s !! c) as [a|] eqn:E; [by exists a|]. cbn. rewrite lookup_insert_eq. eauto. }
  unfold track_thing at 1. by rewrite Ha.
Qed.

Section Checks.
Context (es : list LedgerEvent) (st : StateManager) (Hst : apply_events es empty_state = Ok st).

Definition condemned_keys (now : Z) (s : DecayScheduler) : list KeyDecayEvent :=
  mjoin (found_keys (now / 600) now st s <$> active_entries st).

Definition condemned_things (now : Z) (s : DecayScheduler) : list ThingDecayEvent :=
  mjoin (found_thing now st s <$> available_entries st).

(** The records on which the decisions of a check depend, after it. *)
Record checked (now : Z) (s s' : DecayScheduler) : Prop := {
  ck_policies : key_policies s' = key_policies s;
  ck_policy : thing_policy s' = thing_policy s;
  ck_nodes : ∀ n, node_activities s' !! n = (if decide (n ∈ (active_entries st).*1)
               then node_activities (track_node n now st s) !! n else node_activities s !! n);
  ck_things : ∀ c, thing_activities s' !! c = (if decide (c ∈ (available_entries st).*1)
               then thing_activities (track_thing c st s) !! c else thing_activities s !! c);
  ck_by_epoch : key_decay_by_epoch s' = (if decide (condemned_keys now s = []) then key_decay_by_epoch s
               else <[now / 600 := condemned_keys now s]> (key_decay_by_epoch s));
  ck_history : thing_decay_history s' = thing_decay_history s ++ condemned_things now s
}.

Lemma apply_things_same ts s :
  key_policies (foldl (λ s e, apply_thing_decay e s) s ts) = key_policies s ∧
  thing_policy (foldl (λ s e, apply_thing_decay e s) s ts) = thing_policy s ∧
  node_activities (foldl (λ s e, apply_thing_decay e s) s ts) = node_activities s ∧
  thing_activities (foldl (λ s e, apply_thing_decay e s) s ts) = thing_activities s.
Proof. revert s. induction ts as [|t ts IH]; intros s; [done|]. apply (IH (apply_thing_decay t s)). Qed.

Lemma condemned_things_ext now s s' :
  thing_policy s' = thing_policy s → thing_activities s' = thing_activities s →
  condemned_things now s' = condemned_things now s.
Proof.
  intros Hp Ha. unfold condemned_things. f_equal. apply list_fmap_ext. intros i [c t] _.
  unfold found_thing. cbn. by rewrite (thing_verdict_ext now st s s' c) by (done || by rewrite Ha).
Qed.

(** One check: what it counts, reports and leaves behind. *)
Lemma perform_check now r :
  ∃ s', perform_decay_check now st r =
      Ok (MkDecayRunner s' (running r) (trigger r) (decay_callback r)
            (callback_calls r ++
             if decay_callback r && (negb (bool_decide (condemned_keys now (scheduler r) = [])) ||
                                     negb (bool_decide (condemned_things now (scheduler r) = [])))
             then [(condemned_keys now (scheduler r), condemned_things now (scheduler r))] else [])
            (count_check now (condemned_keys now (scheduler r)) (condemned_things now (scheduler r)) (runner_stats r))
            (start_time r) (worker r)) ∧
    checked now (scheduler r) s'.
Proof using Hst.
  set (s := scheduler r).
  destruct (check_key_decay_spec es st Hst (now / 600) now s) as (s1 & E1 & P1 & P2 & P3 & P4 & P5).
  destruct (check_thing_decay_spec es st Hst now s1) as (s2 & E2 & Q1 & Q2 & Q3 & Q4 & Q5).
  fold (condemned_keys now s) in E1, P5. fold (condemned_things now s1) in E2.
  assert (condemned_things now s1 = condemned_things now s) as Ec by (by apply condemned_things_ext).
  unfold perform_decay_check. fold s. rewrite E1. cbn [mbind outcome_bind]. rewrite E2. cbn [mbind outcome_bind].
  rewrite fold_apply_key_decay, Ec. eexists. split; [reflexivity|].
  destruct (apply_things_same (condemned_things now s) s2) as (A1 & A2 & A3 & A4).
  destruct (fold_apply_thing_decay (condemned_things now s) s2) as [B1 B2].
  destruct (active_entries_ids es st Hst) as [Hid Hnd].
  destruct (available_entries_ids es st Hst) as [Hid' Hnd'].
  split.
  - by rewrite A1, Q1.
  - by rewrite A2, Q2.
  - intros n. rewrite A3, Q3. unfold check_key_decay, get_all_active_nodes in E1. rewrite filter_snd in E1.
    fold (active_entries st) in E1.
    destruct (check_nodes (now / 600) now st (active_entries st).*2 s) as [[ks s0]| |] eqn:E0; cbn in E1; [|done..].
    rewrite <- (check_nodes_tracks _ _ _ _ _ _ _ Hid Hnd E0 n). injection E1 as _ <-. by case_bool_decide.
  - intros c. rewrite A4. unfold check_thing_decay, get_all_available_things in E2. rewrite filter_snd in E2.
    fold (available_entries st) in E2. rewrite (check_things_tracks _ _ _ _ _ _ Hid' Hnd' E2 c).
    destruct (decide (c ∈ (available_entries st).*1)); [|by rewrite P3]. apply track_thing_ext. by rewrite P3.
  - by rewrite B2, Q4.
  - by rewrite B1, Q5, P4.
Qed.

(** A second check at the same time condemns the same. *)
Lemma condemned_again now s s' :
  checked now s s' → condemned_keys now s' = condemned_keys now s ∧ condemned_things now s' = condemned_things now s.
Proof using.
  intros []. unfold condemned_keys, condemned_things. split; f_equal; apply list_fmap_ext; intros i.
  - intros [n node] Hi. assert (n ∈ (active_entries st).*1) as Hn.
    { apply list_elem_of_fmap. exists (n, node). split; [done|]. by eapply list_elem_of_lookup_2. }
    unfold found_keys. apply omap_ext. intros [type b]. cbn. destruct (b =? 0); [done|]. f_equal.
    unfold key_verdict, get_key_policy. rewrite ck_policies0. apply should_decay_key_ext.
    rewrite <- (track_node_twice n now st s). apply track_node_ext. rewrite ck_nodes0. by rewrite decide_True.
  - intros [c t] Hi. assert (c ∈ (available_entries st).*1) as Hc.
    { apply list_elem_of_fmap. exists (c, t). split; [done|]. by eapply list_elem_of_lookup_2. }
    unfold found_thing, thing_verdict. cbn. rewrite ck_policy0.
    rewrite (should_decay_thing_ext c _ now st _ (track_thing c st s)); [done|].
    rewrite <- (track_thing_twice c st s). apply track_thing_ext. rewrite ck_things0. by rewrite decide_True.
Qed.
End Checks.

(** A node on record stays as it is. *)
Lemma kept_nodes st now s s' :
  (∀ n, node_activities s' !! n = (if decide (n ∈ (active_entries st).*1)
     then node_activities (track_node n now st s) !! n else node_activities s !! n)) →
  ∀ n a, node_activities s !! n = Some a → node_activities s' !! n = Some a.
Proof. intros Hn n a Ha. rewrite Hn. case_decide; [|done]. unfold track_node. by rewrite Ha. Qed.

(** ** Properties *)

(** A check files what it condemns and counts it, but the state view it looks at is not changed by
    it: a second check at the same time condemns and counts the same keys and things again, while
    the scheduler has the keys of the epoch once.  And unlike an epoch pass of the scheduler, no check
    clears the actions of an epoch: a node that has acted often enough once has done so for ever. *)
Theorem checks_recount es st now r r1 r2 :
  apply_events es empty_state = Ok st →
  perform_decay_check now st r = Ok r1 → perform_decay_check now st r1 = Ok r2 →
  let keys := condemned_keys st now (scheduler r) in
  let things := condemned_things st now (scheduler r) in
  runner_stats r1 = count_check now keys things (runner_stats r) ∧
  runner_stats r2 = count_check now keys things (count_check now keys things (runner_stats r)) ∧
  (keys ≠ [] → key_decay_by_epoch (scheduler r2) !! (now / 600) = Some keys) ∧
  thing_decay_history (scheduler r2) = thing_decay_history (scheduler r) ++ things ++ things ∧
  ∀ n a, node_activities (scheduler r) !! n = Some a → node_activities (scheduler r2) !! n = Some a.
Proof.
  intros Hst E1 E2 keys things.
  destruct (perform_check es st Hst now r) as (s1 & E1' & C1). rewrite E1 in E1'. apply Ok_inj in E1' as ->.
  destruct (condemned_again st now _ _ C1) as [Ek Et].
  match type of E2 with perform_decay_check _ _ ?r1 = _ => destruct (perform_check es st Hst now r1) as (s2 & E2' & C2) end.
  rewrite E2 in E2'. apply Ok_inj in E2' as ->. cbn [scheduler runner_stats] in *. rewrite Ek, Et in *. fold keys things in C2 |- *.
  split; [done|]. split; [done|]. destruct C1 as [_ _ N1 _ _ H1]. destruct C2 as [_ _ N2 _ B2 H2].
  split; [|split].
  - intros Hk. rewrite Ek in B2. fold keys in B2. rewrite decide_False in B2 by done. rewrite B2. apply lookup_insert_eq.
  - rewrite H2, Et, H1. fold things. by rewrite app_assoc.
  - intros n a Ha. by apply (kept_nodes _ _ _ _ N2), (kept_nodes _ _ _ _ N1).
Qed.

(** ** The pace of the worker *)

(** Rounds of the worker with nothing triggered in between. *)
Definition rounds (readings : list (Z * (Z * StateManager))) : list (Z * (Z * runner_op)) :=
  (λ p, (p.1, (p.2.1, Round p.2.2))) <$> readings.

Definition waiting_since (r : DecayRunner) : option (Z * Z) := if running r then worker r else None.

Lemma perform_keeps now st r r' :
  perform_decay_check now st r = Ok r' →
  running r' = running r ∧ trigger r' = trigger r ∧ worker r' = worker r ∧
  total_checks (runner_stats r') = u64 (total_checks (runner_stats r) + 1).
Proof.
  unfold perform_decay_check. destruct (check_key_decay _ _ _ _) as [[ks s]| |]; cbn; [|done..].
  destruct (check_thing_decay _ _ _) as [[ts s']| |]; cbn; [|done..]. by intros [= <-].
Qed.

(** Left alone, the worker checks at most once per interval, and it checks as soon as it polls after
    the interval has passed: what it has not checked for yet is less than an interval, as of its last
    poll. *)
Theorem checks_are_paced interval readings r r' lo hi wait :
  0 < interval → running r = true → trigger r = false → worker r = Some (interval, wait) →
  wait <= lo → lo - wait < interval * 1000000000 → ascending lo hi readings →
  total_checks (runner_stats r) + len readings < 2 ^ 64 → 0 <= total_checks (runner_stats r) →
  runner_run (rounds readings) r = Ok r' →
  let last := default lo (list.last readings.*1) in
  let checks := total_checks (runner_stats r') - total_checks (runner_stats r) in
  0 <= checks <= len readings ∧ checks * (interval * 1000000000) <= last - wait ∧
  ∃ wait', worker r' = Some (interval, wait') ∧ running r' = true ∧ trigger r' = false ∧
    wait <= wait' <= last ∧ last - wait' < interval * 1000000000.
Proof.
  intros Hi. revert r lo wait. induction readings as [|[steady [now st]] readings IH];
    intros r lo wait Hrun Htr Hw Hlo Hnear Hasc Hfit Hpos E last checks; cbn in E, Hasc.
  - injection E as <-. unfold last, checks. cbn [list.last default fmap list_fmap from_option]. rewrite Z.sub_diag.
    split; [split; [lia|apply len_nonneg]|]. unfold id. split; [lia|]. exists wait. repeat split; done || lia.
  - rewrite len_cons in *. pose proof (len_nonneg readings). destruct Hasc as [Hls Hasc].
    unfold worker_round in E. rewrite Hw, Hrun, Htr in E. cbn [orb] in E.
    assert (last = default steady (list.last readings.*1)) as ->.
    { unfold last. cbn [fmap list_fmap fst]. rewrite last_cons. by destruct (list.last _). }
    destruct (Z.leb_spec interval (Z.quot (steady - wait) 1000000000)) as [Hq|Hq].
    + destruct (perform_decay_check now st (with_trigger false r)) as [r1| |] eqn:Ep; cbn in E; [|done..].
      apply perform_keeps in Ep as (H1 & H2 & H3 & H4). cbn in H1, H2, H3, H4. rewrite wrap_small in H4 by (unfold in_u; lia).
      set (r2 := with_worker (Some (interval, steady)) r1) in *.
      destruct (IH r2 steady steady) as (A1 & A2 & A3); try done; cbn; try congruence; try lia.
      change (total_checks (runner_stats r2)) with (total_checks (runner_stats r1)) in *.
      assert (interval * 1000000000 <= steady - wait) by (Z.to_euclidean_division_equations; lia).
      unfold checks. split; [lia|]. split; [nia|]. destruct A3 as (w' & ? & ? & ? & ? & ?). exists w'. repeat split; try done; lia.
    + cbn in E. assert (steady - wait < interval * 1000000000) by (Z.to_euclidean_division_equations; lia).
      destruct (IH r steady wait) as (A1 & A2 & A3); try done; try lia. unfold checks.
      split; [lia|]. split; [lia|]. exact A3.
Qed.

(** Two checks triggered within a second: the keys condemned are counted twice, and filed once. *)
Example two_checks :
  let run := runner_run [(0, (1700000000, Start 600)); (1000000000, (1700000001, Trigger));
                         (2000000000, (1700000001, Round sample_state)); (3000000000, (1700000001, Trigger));
                         (3000000000, (1700000001, Round sample_state)); (4000000000, (1700000001, Round sample_state))]
               (new_runner new_scheduler) in
  match run with
  | Ok r => total_checks (runner_stats r) = 2 ∧
            keys_decayed_total (runner_stats r) = 2 * get_total_keys_decayed (1700000001 / 600) (scheduler r) ∧
            0 < keys_decayed_total (runner_stats r)
  | _ => False
  end.
Proof. vm_compute. done. Qed.
