(* ===== verification/Stun.v ===== *)
(** Finding the public address: [STUNMessage] and [NATTraversal] of
    src/network/nat_traversal.hpp and nat_traversal.cpp.

    What a query exchanges with a server is an argument: whether there is a
    socket, whether the name resolves, whether the request leaves, and the
    datagram that arrives, together with the transaction identifier drawn and
    the two clocks when it is over.
    [inet_ntop] is written out for IPv4 and a parameter for IPv6.  The monotonic
    clock in nanoseconds is [steady]. *)

From Stdlib Require Import Strings.Byte.
From S2P Require Import Prelude Reader Common Text PeerMessages Activity Connection.

(** ** Messages *)

Definition BINDING_REQUEST : Z := 1.
Definition BINDING_RESPONSE : Z := 257.
Definition BINDING_ERROR : Z := 273.
Definition ATTR_MAPPED_ADDRESS : Z := 1.
Definition ATTR_XOR_MAPPED_ADDRESS : Z := 32.
Definition MAGIC_COOKIE : Z := 554869826.

Record STUNMessage := MkSTUNMessage {
  message_type : Z;
  message_length : Z;
  magic_cookie : Z;
  transaction_id : array 12;
  attributes : bytes
}.

(** The length written is that of the attributes. *)
Definition stun_to_bytes (m : STUNMessage) : bytes :=
  be_bytes 2 (message_type m) ++ be_bytes 2 (u16 (len (attributes m))) ++ be_bytes 4 (magic_cookie m) ++
  arr (transaction_id m) ++ attributes m.

Definition stun_from_bytes (data : bytes) : option STUNMessage :=
  if len data <? 20 then None
  else
    let cookie := be_val (sub data 4 4) in
    if decide (cookie = MAGIC_COOKIE) then
      tid ← to_array 12 (sub data 8 12);
      Some (MkSTUNMessage (be_val (sub data 0 2)) (be_val (sub data 2 2)) cookie tid (drop 20 data))
    else None.

(** [inet_ntop(AF_INET, ...)] *)
Definition ntop4 (addr : Z) : bytes :=
  dec (Z.land (Z.shiftr addr 24) 255) ++ str "." ++ dec (Z.land (Z.shiftr addr 16) 255) ++ str "." ++
  dec (Z.land (Z.shiftr addr 8) 255) ++ str "." ++ dec (Z.land addr 255).

(** The mask of an IPv6 address: the cookie, then the transaction identifier. *)
Definition xor_bytes (l k : bytes) : bytes := zip_with (λ a b, to_byte (Z.lxor (byte_val a) (byte_val b))) l k.

(** Where the next attribute begins. *)
Definition next_attribute (offset attr_length : Z) : Z :=
  let offset := offset + (4 + attr_length) in
  if Z.rem attr_length 4 =? 0 then offset else offset + (4 - Z.rem attr_length 4).

Section Address.
(** [inet_ntop(AF_INET6, ...)] of the sixteen bytes. *)
Context (ntop6 : bytes → bytes).

(** What one attribute gives: the address, the end of the search, or nothing. *)
Inductive found := Address (a : SocketAddress) | GiveUp | Continue.

(** The sixteen bytes of an IPv6 address are read whatever the length of the
    attribute, of which eight bytes are checked. *)
Definition read_attribute (m : STUNMessage) (offset attr_type attr_length : Z) : outcome found :=
  if (attr_type =? ATTR_XOR_MAPPED_ADDRESS) || (attr_type =? ATTR_MAPPED_ADDRESS) then
    if attr_length <? 8 then Ok GiveUp
    else
      let at_ n o := sub (attributes m) (offset + 4 + o) n in
      let xored := attr_type =? ATTR_XOR_MAPPED_ADDRESS in
      let family := be_val (at_ 1 1) in
      let port := be_val (at_ 2 2) in
      let port := if xored then u16 (Z.lxor port (Z.shiftr (magic_cookie m) 16)) else port in
      if family =? 1 then
        let addr := be_val (at_ 4 4) in
        let addr := if xored then Z.lxor addr (magic_cookie m) else addr in
        Ok (Address (MkSocketAddress (ntop4 addr) port ANY))
      else if family =? 2 then
        if offset + 24 <=? len (attributes m) then
          let addr := at_ 16 4 in
          let addr := if xored then xor_bytes addr (be_bytes 4 (magic_cookie m) ++ arr (transaction_id m)) else addr in
          Ok (Address (MkSocketAddress (ntop6 addr) port ANY))
        else Undef
      else Ok Continue
  else Ok Continue.

(** The loop over the attributes; each takes at least four bytes. *)
Fixpoint attribute_loop (fuel : nat) (m : STUNMessage) (offset : Z) : outcome (option SocketAddress) :=
  match fuel with
  | O => Undef
  | S fuel =>
      if offset + 4 <=? len (attributes m) then
        let attr_type := be_val (sub (attributes m) offset 2) in
        let attr_length := be_val (sub (attributes m) (offset + 2) 2) in
        if len (attributes m) <? offset + 4 + attr_length then Ok None
        else
          r ← read_attribute m offset attr_type attr_length;
          match r with
          | Address a => Ok (Some a)
          | GiveUp => Ok None
          | Continue => attribute_loop fuel m (next_attribute offset attr_length)
          end
      else Ok None
  end.

Definition get_mapped_address (m : STUNMessage) : outcome (option SocketAddress) :=
  attribute_loop (S (length (attributes m))) m 0.

(** ** Queries *)

Inductive NATType := OPEN_INTERNET | FULL_CONE | RESTRICTED_CONE | PORT_RESTRICTED | SYMMETRIC | UNKNOWN.

Record PublicAddress := MkPublicAddress { ip : bytes; pa_port : Z; nat_type : NATType; discovered_at : Z }.

Definition is_valid (a : PublicAddress) : bool := negb (bool_decide (ip a = [])) && negb (pa_port a =? 0).

Definition public_to_string (a : PublicAddress) : bytes := ip a ++ str ":" ++ dec (pa_port a).

Record STUNServer := MkSTUNServer { server_host : bytes; server_port : Z }.

Definition to_socket_address (s : STUNServer) : SocketAddress := MkSocketAddress (server_host s) (server_port s) ANY.

Definition DEFAULT_STUN_SERVERS : list STUNServer :=
  (λ h, MkSTUNServer (str h) 19302) <$>
    ["stun.l.google.com"; "stun1.l.google.com"; "stun2.l.google.com"; "stun3.l.google.com"; "stun4.l.google.com"].

Record Exchange := MkExchange {
  socket_made : bool;
  name_resolved : bool;
  request_sent : bool;
  answer : option bytes;
  drawn_id : array 12;
  steady_after : Z;
  now_after : Z
}.

Definition create_binding_request (id : array 12) : STUNMessage :=
  MkSTUNMessage BINDING_REQUEST 0 MAGIC_COOKIE id [].

(** The buffer holds 1024 bytes. *)
Definition query_stun_server (x : Exchange) : outcome (option PublicAddress) :=
  if negb (socket_made x) || negb (name_resolved x) || negb (request_sent x) then Ok None
  else
    match answer x with
    | None => Ok None
    | Some data =>
        match stun_from_bytes (take 1024 data) with
        | None => Ok None
        | Some response =>
            if decide (transaction_id response = transaction_id (create_binding_request (drawn_id x))) then
              if message_type response =? BINDING_RESPONSE then
                mapped ← get_mapped_address response;
                Ok (match mapped with
                    | Some a => Some (MkPublicAddress (host a) (port a) UNKNOWN (u64 (now_after x)))
                    | None => None
                    end)
              else Ok None
            else Ok None
        end
    end.

Record NATTraversal := MkNATTraversal {
  stun_servers : list STUNServer;
  cached_address : option PublicAddress;
  cache_time : Z;
  timeout : Z
}.

Definition new_nat_traversal : NATTraversal := MkNATTraversal DEFAULT_STUN_SERVERS None 0 3000.

Definition add_stun_server (s : STUNServer) (t : NATTraversal) : NATTraversal :=
  MkNATTraversal (stun_servers t ++ [s]) (cached_address t) (cache_time t) (timeout t).

Definition clear_stun_servers (t : NATTraversal) : NATTraversal :=
  MkNATTraversal [] (cached_address t) (cache_time t) (timeout t).

Definition set_timeout (ms : Z) (t : NATTraversal) : NATTraversal :=
  MkNATTraversal (stun_servers t) (cached_address t) (cache_time t) ms.

Definition CACHE_VALIDITY_SECONDS : Z := 300.

Definition is_cache_valid (steady : Z) (t : NATTraversal) : bool :=
  match cached_address t with
  | None => false
  | Some _ => u64 (Z.quot (steady - cache_time t) 1000000000) <? CACHE_VALIDITY_SECONDS
  end.

Definition get_cached_address (steady : Z) (t : NATTraversal) : option PublicAddress :=
  if is_cache_valid steady t then cached_address t else None.

Definition clear_cache (t : NATTraversal) : NATTraversal :=
  MkNATTraversal (stun_servers t) None (cache_time t) (timeout t).

(** The servers in order, with what each exchanges. *)
Fixpoint try_servers (xs : list Exchange) (t : NATTraversal) :
    outcome (option PublicAddress * NATTraversal) :=
  match xs with
  | [] => Ok (None, t)
  | x :: xs =>
      r ← query_stun_server x;
      match r with
      | Some a => Ok (Some a, MkNATTraversal (stun_servers t) (Some a) (steady_after x) (timeout t))
      | None => try_servers xs t
      end
  end.

(** [exchange] is what a server would exchange when it is asked now. *)
Definition discover_public_address (exchange : STUNServer → Exchange) (steady : Z) (t : NATTraversal) :
    outcome (option PublicAddress * NATTraversal) :=
  if is_cache_valid steady t then Ok (cached_address t, t)
  else try_servers (exchange <$> stun_servers t) t.

Definition detect_nat_type (exchange : STUNServer → Exchange) (steady : Z) (t : NATTraversal) :
    outcome (NATType * NATTraversal) :=
  '(a, t) ← discover_public_address exchange steady t;
  Ok (match a with Some _ => FULL_CONE | None => UNKNOWN end, t).
End Address.

(** ** Parts of byte strings *)

Lemma sub_shift (pre l : bytes) k n : 0 <= k → sub (pre ++ l) (len pre + k) n = sub l k n.
Proof.
  intros Hk. unfold sub, len. rewrite Z2Nat.inj_add, Nat2Z.id by lia. rewrite <- drop_drop. by rewrite drop_app_length.
Qed.

Lemma sub_head (l r : bytes) n : len l = n → sub (l ++ r) 0 n = l.
Proof. intros <-. apply (sub_middle [] l r). Qed.

Lemma sub_skip (l r : bytes) k n m : len l = m → m <= k → sub (l ++ r) k n = sub r (k - m) n.
Proof. intros Hl Hk. replace k with (len l + (k - m)) at 1 by lia. apply sub_shift. lia. Qed.

(** ** Messages are read back *)

Definition as_received (m : STUNMessage) : STUNMessage :=
  MkSTUNMessage (message_type m) (u16 (len (attributes m))) (magic_cookie m) (transaction_id m) (attributes m).

(** A message with the cookie is read back with the length it states; conversely exactly the byte
    strings of at least twenty bytes with the cookie are read, and the length they state is not
    compared with what follows. *)
Theorem stun_codec :
  (∀ m, in_u 16 (message_type m) → magic_cookie m = MAGIC_COOKIE → stun_from_bytes (stun_to_bytes m) = Some (as_received m)) ∧
  (∀ d m, stun_from_bytes d = Some m ↔
     d = be_bytes 2 (message_type m) ++ be_bytes 2 (message_length m) ++ be_bytes 4 MAGIC_COOKIE ++
         arr (transaction_id m) ++ attributes m ∧
     in_u 16 (message_type m) ∧ in_u 16 (message_length m) ∧ magic_cookie m = MAGIC_COOKIE).
Proof.
  assert (Hread : ∀ t n (id : array 12) a, in_u 16 t → in_u 16 n →
    stun_from_bytes (be_bytes 2 t ++ be_bytes 2 n ++ be_bytes 4 MAGIC_COOKIE ++ arr id ++ a) =
    Some (MkSTUNMessage t n MAGIC_COOKIE id a)).
  { intros t n id a Ht Hn. unfold stun_from_bytes.
    destruct (Z.ltb_spec (len (be_bytes 2 t ++ be_bytes 2 n ++ be_bytes 4 MAGIC_COOKIE ++ arr id ++ a)) 20) as [Hl|_].
    { rewrite !len_app, !len_be, len_arr in Hl. pose proof (len_nonneg a). lia. }
    rewrite (sub_head (be_bytes 2 t)) by apply len_be.
    rewrite !(sub_skip (be_bytes 2 t) _ _ _ 2) by (exact (len_be 2 t) || lia).
    rewrite (sub_head (be_bytes 2 n)) by apply len_be.
    rewrite !(sub_skip (be_bytes 2 n) _ _ _ 2) by (exact (len_be 2 n) || lia).
    rewrite (sub_head (be_bytes 4 MAGIC_COOKIE)) by apply len_be.
    rewrite !(sub_skip (be_bytes 4 MAGIC_COOKIE) _ _ _ 4) by (exact (len_be 4 _) || lia).
    rewrite (sub_head (arr id)) by exact (len_arr id).
    rewrite !be_val_bytes by done. rewrite decide_True by done. rewrite to_array_arr. cbn [mbind option_bind].
    do 2 f_equal. rewrite !app_assoc. apply drop_app_length'.
    pose proof (len_be 2 t). pose proof (len_be 2 n). pose proof (len_be 4 MAGIC_COOKIE). pose proof (length_arr id).
    unfold len in *. rewrite !length_app. lia. }
  split.
  - intros m Ht Hc. unfold stun_to_bytes. rewrite Hc, Hread; [unfold as_received; by rewrite Hc|done|by apply wrap_range].
  - intros d m. split; [|destruct m as [t n c id a]; cbn; intros (-> & Ht & Hn & ->); by apply Hread].
    unfold stun_from_bytes. destruct (Z.ltb_spec (len d) 20) as [|Hl]; [done|].
    destruct (decide _) as [Hc|]; [|done]. destruct (to_array 12 _) as [id|] eqn:Ei; [|done]. intros [= <-]. cbn [message_type message_length attributes transaction_id magic_cookie].
    apply to_array_Some in Ei.
    assert (Hs : ∀ o n, 0 <= o → 0 <= n → o + n <= 20 → drop (Z.to_nat o) d = sub d o n ++ drop (Z.to_nat (o + n)) d)
      by (intros; by apply drop_sub).
    assert (Hb : ∀ o (n : nat), 0 <= o → o + Z.of_nat n <= 20 →
      be_bytes n (be_val (sub d o (Z.of_nat n))) = sub d o (Z.of_nat n) ∧ in_u (Z.of_nat n * 8) (be_val (sub d o (Z.of_nat n)))).
    { intros o n Ho Hn. apply be_bytes_val. pose proof (len_sub d o (Z.of_nat n)). unfold len in *. lia. }
    destruct (Hb 0 2%nat) as [E1 U1]; [lia..|]. destruct (Hb 2 2%nat) as [E2 U2]; [lia..|].
    destruct (Hb 4 4%nat) as [E3 _]; [lia..|]. change (Z.of_nat 2) with 2 in *. change (Z.of_nat 4) with 4 in *.
    split; [|done]. rewrite E1, E2, <- Hc, E3, Ei.
    pose proof (Hs 0 2 ltac:(lia) ltac:(lia) ltac:(lia)) as D0. pose proof (Hs 2 2 ltac:(lia) ltac:(lia) ltac:(lia)) as D1.
    pose proof (Hs 4 4 ltac:(lia) ltac:(lia) ltac:(lia)) as D2. pose proof (Hs 8 12 ltac:(lia) ltac:(lia) ltac:(lia)) as D3.
    change d with (drop (Z.to_nat 0) d) at 1. rewrite D0. change (0 + 2) with 2. rewrite D1. change (2 + 2) with 4.
    rewrite D2. change (4 + 4) with 8. rewrite D3. done.
Qed.

(** ** The search for the address *)

Definition type_at (m : STUNMessage) (o : Z) : Z := be_val (sub (attributes m) o 2).
Definition length_at (m : STUNMessage) (o : Z) : Z := be_val (sub (attributes m) (o + 2) 2).

(** There is an attribute at [o], and all of it. *)
Definition whole (m : STUNMessage) (o : Z) : Prop :=
  o + 4 <= len (attributes m) ∧ o + 4 + length_at m o <= len (attributes m).

Definition is_address (t : Z) : Prop := t = ATTR_XOR_MAPPED_ADDRESS ∨ t = ATTR_MAPPED_ADDRESS.

(** An IPv6 address the attributes end before the sixteen bytes of. *)
Definition cut_off (m : STUNMessage) (o : Z) : Prop :=
  is_address (type_at m o) ∧ 8 <= length_at m o ∧ be_val (sub (attributes m) (o + 4 + 1) 1) = 2 ∧
  len (attributes m) < o + 24.

Lemma length_at_range m o : 0 <= o → o + 4 <= len (attributes m) → 0 <= length_at m o.
Proof.
  intros Ho Hl. pose proof (len_sub (attributes m) (o + 2) 2 ltac:(lia) ltac:(lia) ltac:(lia)) as Hs.
  apply (be_bytes_val (sub (attributes m) (o + 2) 2) 2). unfold len in Hs. lia.
Qed.

Lemma next_attribute_past o n : 0 <= n → o + 4 + n <= next_attribute o n.
Proof. intros Hn. unfold next_attribute. case_match; [lia|]. pose proof (Z.rem_bound_pos n 4). lia. Qed.

Section Search.
Context (ntop6 : bytes → bytes) (m : STUNMessage).

Lemma read_attribute_cases o t n :
  match read_attribute ntop6 m o t n with
  | Undef => is_address t ∧ 8 <= n ∧ be_val (sub (attributes m) (o + 4 + 1) 1) = 2 ∧ len (attributes m) < o + 24
  | Err _ => False
  | Ok _ => ¬ (is_address t ∧ 8 <= n ∧ be_val (sub (attributes m) (o + 4 + 1) 1) = 2 ∧ len (attributes m) < o + 24)
  end.
Proof.
  unfold read_attribute, is_address.
  destruct (Z.eqb_spec t ATTR_XOR_MAPPED_ADDRESS), (Z.eqb_spec t ATTR_MAPPED_ADDRESS); cbn [orb]; try (intros ?; tauto);
    (destruct (Z.ltb_spec n 8); [intros ?; lia|]);
    (destruct (Z.eqb_spec (be_val (sub (attributes m) (o + 4 + 1) 1)) 1); [intros ?; lia|]);
    (destruct (Z.eqb_spec (be_val (sub (attributes m) (o + 4 + 1) 1)) 2); [|intros ?; lia]);
    (destruct (Z.leb_spec (o + 24) (len (attributes m))); [intros ?; lia|]); auto.
Qed.

(** The attributes the search walks over. *)
Inductive reaches (o : Z) : Z → Prop :=
  | reaches_here : reaches o o
  | reaches_next o' : reaches o o' → whole m o' → read_attribute ntop6 m o' (type_at m o') (length_at m o') = Ok Continue →
      reaches o (next_attribute o' (length_at m o')).

Lemma loop_step f o :
  0 <= o →
  attribute_loop ntop6 (S f) m o =
    if decide (whole m o) then
      match read_attribute ntop6 m o (type_at m o) (length_at m o) with
      | Ok (Address a) => Ok (Some a)
      | Ok GiveUp => Ok None
      | Ok Continue => attribute_loop ntop6 f m (next_attribute o (length_at m o))
      | Err e => Err e
      | Undef => Undef
      end
    else Ok None.
Proof.
  intros Ho. cbn [attribute_loop]. fold (type_at m o) (length_at m o). unfold whole.
  destruct (Z.leb_spec (o + 4) (len (attributes m))) as [Hl|]; [|by rewrite decide_False by lia].
  destruct (Z.ltb_spec (len (attributes m)) (o + 4 + length_at m o)); [by rewrite decide_False by lia|].
  rewrite decide_True by lia. by destruct (read_attribute _ _ _ _ _) as [[a| |]|e|].
Qed.

(** Enough fuel is enough. *)
Lemma loop_fuel f f' o :
  0 <= o → len (attributes m) - o <= Z.of_nat f → len (attributes m) - o <= Z.of_nat f' →
  attribute_loop ntop6 (S f) m o = attribute_loop ntop6 (S f') m o.
Proof.
  revert f' o. induction f as [|f IH]; intros f' o Ho Hf Hf'; rewrite !(loop_step _ o) by done;
    (destruct (decide (whole m o)) as [Hw|]; [|done]); pose proof (length_at_range m o Ho ltac:(apply Hw)).
  - destruct Hw. lia.
  - destruct (read_attribute _ _ _ _ _) as [[a| |]|e|]; try done. pose proof (next_attribute_past o (length_at m o) ltac:(done)).
    destruct Hw. destruct f' as [|f']; [lia|]. apply IH; lia.
Qed.

Definition search (o : Z) : outcome (option SocketAddress) := attribute_loop ntop6 (S (length (attributes m))) m o.

(** One attribute of the search. *)
Lemma search_step o :
  0 <= o →
  search o =
    if decide (whole m o) then
      match read_attribute ntop6 m o (type_at m o) (length_at m o) with
      | Ok (Address a) => Ok (Some a)
      | Ok GiveUp => Ok None
      | Ok Continue => search (next_attribute o (length_at m o))
      | Err e => Err e
      | Undef => Undef
      end
    else Ok None.
Proof.
  intros Ho. unfold search. rewrite loop_step by done. destruct (decide (whole m o)) as [Hw|]; [|done].
  destruct (read_attribute _ _ _ _ _) as [[a| |]|e|]; try done.
  pose proof (length_at_range m o Ho ltac:(apply Hw)). pose proof (next_attribute_past o (length_at m o) ltac:(done)).
  destruct Hw as [Hw1 Hw2]. destruct (length (attributes m)) as [|k] eqn:Ek; [unfold len in *; lia|].
  apply loop_fuel; unfold len in *; lia.
Qed.

Lemma search_reaches o o' : 0 <= o → reaches o o' → 0 <= o' ∧ search o = search o'.
Proof.
  intros Ho. induction 1 as [|o' Hr [IH0 IH] Hw Hc]; [done|]. split.
  - pose proof (length_at_range m o' IH0 ltac:(apply Hw)). pose proof (next_attribute_past o' (length_at m o') ltac:(done)). lia.
  - rewrite IH, search_step by done. by rewrite decide_True, Hc.
Qed.

(** The search leaves the attributes exactly when it comes to an address that is cut off. *)
Lemma search_undefined o : 0 <= o → search o = Undef ↔ ∃ o', reaches o o' ∧ whole m o' ∧ cut_off m o'.
Proof.
  intros Ho. split.
  - remember (Z.to_nat (len (attributes m) - o)) as n eqn:En. revert o Ho En.
    induction (lt_wf n) as [n _ IH]. intros o Ho ->. rewrite search_step by done.
    destruct (decide (whole m o)) as [Hw|]; [|done].
    pose proof (length_at_range m o Ho ltac:(apply Hw)). pose proof (next_attribute_past o (length_at m o) ltac:(done)).
    pose proof (read_attribute_cases o (type_at m o) (length_at m o)) as Hr.
    destruct (read_attribute ntop6 m o (type_at m o) (length_at m o)) as [[]| |] eqn:Er; try done.
    + intros Hs. edestruct (IH (Z.to_nat (len (attributes m) - next_attribute o (length_at m o)))) as (o' & Hr' & Hw' & Hc');
        [destruct Hw; lia| |reflexivity|exact Hs|]; [lia|].
      exists o'. split; [|done]. clear -Hr' Hw Er. induction Hr'; [|by econstructor]. eapply reaches_next; [apply reaches_here|done..].
    + intros _. exists o. split; [constructor|]. done.
  - intros (o' & Hr & Hw & Hc). destruct (search_reaches _ _ Ho Hr) as [Ho' ->].
    rewrite search_step by done. rewrite decide_True by done.
    pose proof (read_attribute_cases o' (type_at m o') (length_at m o')) as H.
    destruct (read_attribute _ _ _ _ _) as [f| |]; [|done|done]. destruct H. exact Hc.
Qed.

(** The search for the mapped address ends on every message, and it reads outside the attributes
    exactly when it comes to an IPv6 address of which eight bytes are there and not sixteen. *)
Theorem mapped_address_overread :
  get_mapped_address ntop6 m = Undef ↔ ∃ o, reaches 0 o ∧ whole m o ∧ cut_off m o.
Proof. apply (search_undefined 0). done. Qed.
End Search.

(** ** The address a server sent *)

Definition encode_attribute (t : Z) (value : bytes) : bytes :=
  be_bytes 2 t ++ be_bytes 2 (len value) ++ value ++
  replicate (Z.to_nat (if Z.rem (len value) 4 =? 0 then 0 else 4 - Z.rem (len value) 4)) "000"%byte.

Definition skipped (a : Z * bytes) : Prop := in_u 16 a.1 ∧ ¬ is_address a.1 ∧ len a.2 < 2 ^ 16.

Lemma len_encode t v : len (encode_attribute t v) = next_attribute 0 (len v).
Proof.
  unfold encode_attribute, next_attribute. rewrite !len_app, !len_be. pose proof (len_nonneg v).
  pose proof (Z.rem_bound_pos (len v) 4). unfold len at 2. rewrite length_replicate. case_match; lia.
Qed.

Lemma next_attribute_shift o n : next_attribute o n = o + next_attribute 0 n.
Proof. unfold next_attribute. case_match; lia. Qed.

(** The header of an attribute in the middle. *)
Lemma header_at m pre t v rest :
  attributes m = pre ++ encode_attribute t v ++ rest → in_u 16 t → len v < 2 ^ 16 →
  type_at m (len pre) = t ∧ length_at m (len pre) = len v ∧ whole m (len pre) ∧
  ∀ k n, 0 <= k → 0 <= n → k + n <= len v → sub (attributes m) (len pre + 4 + k) n = sub v k n.
Proof.
  intros E Ht Hv. pose proof (len_nonneg v). pose proof (len_nonneg rest).
  assert (Hty : type_at m (len pre) = t).
  { unfold type_at. rewrite E. unfold encode_attribute. rewrite <- app_assoc.
    rewrite <- (Z.add_0_r (len pre)), sub_shift by lia. rewrite sub_head by apply len_be. by apply be_val_bytes. }
  assert (Hln : length_at m (len pre) = len v).
  { unfold length_at. rewrite E. unfold encode_attribute. rewrite sub_shift by lia. rewrite <- !app_assoc.
    rewrite (sub_skip _ _ _ _ 2) by (exact (len_be 2 t) || lia). change (2 - 2) with 0.
    rewrite sub_head by apply len_be. apply be_val_bytes. unfold in_u. lia. }
  split; [done|]. split; [done|]. split.
  - unfold whole. rewrite Hln, E, !len_app, len_encode. pose proof (next_attribute_past 0 (len v) ltac:(done)). lia.
  - intros k n Hk Hn Hkn. rewrite E. unfold encode_attribute. rewrite <- Z.add_assoc, sub_shift by lia. rewrite <- !app_assoc.
    rewrite (sub_skip _ _ _ _ 2) by (exact (len_be 2 t) || lia). rewrite (sub_skip _ _ _ _ 2) by (exact (len_be 2 _) || lia).
    replace (4 + k - 2 - 2) with k by lia. unfold sub, len in *. rewrite drop_app_le by lia.
    rewrite take_app_le by (rewrite length_drop; lia). done.
Qed.

Lemma lxor_range w a b : 0 <= w → in_u w a → in_u w b → in_u w (Z.lxor a b).
Proof.
  unfold in_u. intros Hw Ha Hb. assert (0 <= Z.lxor a b) by (apply Z.lxor_nonneg; lia). split; [done|].
  destruct (Z.eq_dec (Z.lxor a b) 0) as [->|Hne]; [lia|]. apply Z.log2_lt_pow2; [lia|].
  eapply Z.le_lt_trans; [apply Z.log2_lxor; lia|].
  assert (∀ x, 0 <= x < 2 ^ w → x = 0 ∨ Z.log2 x < w) as Hlog.
  { intros x Hx. destruct (Z.eq_dec x 0); [by left|]. right. apply Z.log2_lt_pow2; lia. }
  assert (0 < w). { destruct (Z.eq_dec w 0) as [->|]; [|lia]. destruct Hne. by replace a with 0 by lia; replace b with 0 by lia. }
  destruct (Hlog a Ha) as [->|], (Hlog b Hb) as [->|]; cbn; lia.
Qed.

Lemma lxor_undo a k : Z.lxor (Z.lxor a k) k = a.
Proof. by rewrite Z.lxor_assoc, Z.lxor_nilpotent, Z.lxor_0_r. Qed.

Lemma xor_bytes_undo (l k : bytes) : (length l <= length k)%nat → xor_bytes (xor_bytes l k) k = l.
Proof.
  revert k. induction l as [|a l IH]; intros [|b k] Hl; try done; [cbn in Hl; lia|].
  unfold xor_bytes in *. cbn [zip_with]. f_equal; [|apply IH; cbn in Hl; lia].
  rewrite byte_val_to_byte, (wrap_small 8) by (apply lxor_range; [done|apply byte_val_range..]).
  by rewrite lxor_undo, to_byte_val.
Qed.

Lemma len_xor_bytes (l k : bytes) : len l <= len k → len (xor_bytes l k) = len l.
Proof. intros Hl. unfold len, xor_bytes in *. rewrite length_zip_with. lia. Qed.

(** An address as a server writes it: of a family, under the mask or plain. *)
Inductive written := V4 (addr : Z) | V6 (addr : array 16).

Definition mask (id : array 12) : bytes := be_bytes 4 MAGIC_COOKIE ++ arr id.

Definition value (id : array 12) (xored : bool) (a : written) (p : Z) : bytes :=
  match a with
  | V4 addr => ["000"%byte; "001"%byte] ++ be_bytes 2 p ++ be_bytes 4 (if xored then Z.lxor addr MAGIC_COOKIE else addr)
  | V6 addr => ["000"%byte; "002"%byte] ++ be_bytes 2 p ++ (if xored then xor_bytes (arr addr) (mask id) else arr addr)
  end.

Definition under (xored : bool) (p : Z) : Z := if xored then Z.lxor p (Z.shiftr MAGIC_COOKIE 16) else p.

Definition write_address (id : array 12) (xored : bool) (a : written) (p : Z) : bytes :=
  encode_attribute (if xored then ATTR_XOR_MAPPED_ADDRESS else ATTR_MAPPED_ADDRESS) (value id xored a (under xored p)).

Definition written_ok (a : written) : Prop := match a with V4 addr => in_u 32 addr | V6 _ => True end.

Lemma len_masked (id : array 12) (addr : array 16) (xored : bool) : len (if xored then xor_bytes (arr addr) (mask id) else arr addr) = 16.
Proof.
  destruct xored; [|exact (len_arr addr)]. rewrite len_xor_bytes; rewrite len_arr; [done|].
  unfold mask. by rewrite len_app, len_be, len_arr.
Qed.

Lemma len_value id xored a q : len (value id xored a q) = match a with V4 _ => 8 | V6 _ => 20 end.
Proof. destruct a; unfold value; rewrite !len_app, len_be; [by rewrite len_be|by rewrite len_masked]. Qed.

(** The parts of the value the search reads. *)
Lemma value_parts id xored a q :
  in_u 16 q → written_ok a →
  let v := value id xored a q in
  be_val (sub v 2 2) = q ∧
  match a with
  | V4 addr => be_val (sub v 1 1) = 1 ∧ (if xored then Z.lxor (be_val (sub v 4 4)) MAGIC_COOKIE else be_val (sub v 4 4)) = addr
  | V6 addr => be_val (sub v 1 1) = 2 ∧ (if xored then xor_bytes (sub v 4 16) (mask id) else sub v 4 16) = arr addr
  end.
Proof.
  intros Hq Ha v.
  assert (Hskip : ∀ f w n, sub (["000"%byte; f] ++ be_bytes 2 q ++ w) 4 n = sub w 0 n).
  { intros f w n. rewrite (sub_skip _ _ _ _ 2) by done. by rewrite (sub_skip _ _ _ _ 2) by (exact (len_be 2 q) || lia). }
  assert (Hport : ∀ f w, be_val (sub (["000"%byte; f] ++ be_bytes 2 q ++ w) 2 2) = q).
  { intros f w. rewrite (sub_skip _ _ _ _ 2) by done. rewrite sub_head by apply len_be. by apply be_val_bytes. }
  destruct a as [addr|addr]; subst v; unfold value; rewrite Hport, Hskip; (split; [done|]); (split; [done|]).
  - rewrite <- (app_nil_r (be_bytes 4 _)), sub_head by apply len_be.
    rewrite be_val_bytes by (destruct xored; [by apply lxor_range|done]). destruct xored; [apply lxor_undo|done].
  - rewrite <- (app_nil_r (if xored then xor_bytes (arr addr) (mask id) else arr addr)), sub_head by apply len_masked.
    destruct xored; [|done]. apply xor_bytes_undo. unfold mask. rewrite length_app, !length_arr.
    pose proof (len_be 4 MAGIC_COOKIE). unfold len in *. lia.
Qed.

Section Recovered.
Context (ntop6 : bytes → bytes).

Definition printed (a : written) : bytes := match a with V4 addr => ntop4 addr | V6 addr => ntop6 (arr addr) end.

Lemma search_skips m pre l rest :
  attributes m = pre ++ concat ((λ a, encode_attribute a.1 a.2) <$> l) ++ rest → Forall skipped l →
  search ntop6 m (len pre) = search ntop6 m (len (pre ++ concat ((λ a, encode_attribute a.1 a.2) <$> l))).
Proof.
  intros E Hl. revert pre E. induction Hl as [|[t v] l (Ht & Hn & Hv) Hl IH]; intros pre E; [by rewrite app_nil_r|].
  cbn [fmap list_fmap concat fst snd] in *. rewrite <- app_assoc in E.
  destruct (header_at m pre t v _ E Ht Hv) as (E1 & E2 & Hw & _). rewrite search_step by apply len_nonneg.
  rewrite decide_True, E1, E2 by done. unfold read_attribute.
  destruct (Z.eqb_spec t ATTR_XOR_MAPPED_ADDRESS); [by destruct Hn; left|].
  destruct (Z.eqb_spec t ATTR_MAPPED_ADDRESS); [by destruct Hn; right|]. cbn [orb].
  rewrite next_attribute_shift, <- (len_encode t), <- len_app, (app_assoc pre). apply IH. by rewrite E, <- app_assoc.
Qed.

Lemma read_value m pre t v rest :
  attributes m = pre ++ encode_attribute t v ++ rest → in_u 16 t → len v < 2 ^ 16 → 8 <= len v → is_address t →
  search ntop6 m (len pre) =
    match read_attribute ntop6 m (len pre) t (len v) with
    | Ok (Address a) => Ok (Some a)
    | Ok GiveUp => Ok None
    | Ok Continue => search ntop6 m (next_attribute (len pre) (len v))
    | Err e => Err e
    | Undef => Undef
    end.
Proof.
  intros E Ht Hv H8 Ha. destruct (header_at m pre t v _ E Ht Hv) as (E1 & E2 & Hw & _).
  rewrite search_step by apply len_nonneg. by rewrite decide_True, E1, E2 by done.
Qed.

(** Where an attribute is an address, the parts of its value give the result. *)
Lemma read_found m (pre : bytes) t (v : bytes) (xored : bool) a p :
  magic_cookie m = MAGIC_COOKIE →
  (t = ATTR_XOR_MAPPED_ADDRESS ∧ xored = true ∨ t = ATTR_MAPPED_ADDRESS ∧ xored = false) →
  len v = match a with V4 _ => 8 | V6 _ => 20 end → len pre + 4 + len v <= len (attributes m) →
  (∀ k n, 0 <= k → 0 <= n → k + n <= len v → sub (attributes m) (len pre + 4 + k) n = sub v k n) →
  (if xored then u16 (Z.lxor (be_val (sub v 2 2)) (Z.shiftr MAGIC_COOKIE 16)) else be_val (sub v 2 2)) = p →
  match a with
  | V4 addr => be_val (sub v 1 1) = 1 ∧ (if xored then Z.lxor (be_val (sub v 4 4)) MAGIC_COOKIE else be_val (sub v 4 4)) = addr
  | V6 addr => be_val (sub v 1 1) = 2 ∧ (if xored then xor_bytes (sub v 4 16) (mask (transaction_id m)) else sub v 4 16) = arr addr
  end →
  read_attribute ntop6 m (len pre) t (len v) = Ok (Address (MkSocketAddress (printed a) p ANY)).
Proof.
  intros Hc Ht Hv Hw Hs Hp Ha. unfold read_attribute. rewrite Hc.
  assert ((t =? ATTR_XOR_MAPPED_ADDRESS) = xored) as -> by (destruct Ht as [[-> ->]|[-> ->]]; done).
  assert (xored || (t =? ATTR_MAPPED_ADDRESS) = true) as -> by (destruct Ht as [[-> ->]|[-> ->]]; done).
  destruct (Z.ltb_spec (len v) 8) as [|_]; [destruct a; lia|].
  rewrite !(Hs 1 1), !(Hs 2 2) by (destruct a; lia). rewrite Hp.
  destruct a as [addr|addr]; destruct Ha as [-> Ha]; cbn [Z.eqb Pos.eqb].
  - rewrite (Hs 4 4) by lia. by rewrite Ha.
  - destruct (Z.leb_spec (len pre + 24) (len (attributes m))) as [_|]; [|lia].
    rewrite (Hs 4 16) by lia. unfold mask in Ha. by rewrite Ha.
Qed.

(** The mapped address of a message with the cookie, after any attributes of other types, is the one
    the server wrote, plain or under the mask, of either family; attributes that follow do not matter. *)
Theorem mapped_address_recovered m l xored a p rest :
  magic_cookie m = MAGIC_COOKIE → Forall skipped l → written_ok a → in_u 16 p →
  attributes m = concat ((λ a, encode_attribute a.1 a.2) <$> l) ++ write_address (transaction_id m) xored a p ++ rest →
  get_mapped_address ntop6 m = Ok (Some (MkSocketAddress (printed a) p ANY)).
Proof.
  intros Hc Hl Ha Hp E. change (get_mapped_address ntop6 m) with (search ntop6 m (len (@nil byte))).
  rewrite (search_skips m [] l _ E Hl). cbn [app]. set (pre := concat _) in *. unfold write_address in E.
  assert (Hq : in_u 16 (under xored p)) by (destruct xored; [by apply lxor_range|done]).
  assert (Hqp : (if xored then u16 (Z.lxor (under xored p) (Z.shiftr MAGIC_COOKIE 16)) else under xored p) = p).
  { destruct xored; [|done]. unfold under. rewrite lxor_undo. by apply wrap_small. }
  set (t := if xored then _ else _) in E.
  assert (Ht : t = ATTR_XOR_MAPPED_ADDRESS ∧ xored = true ∨ t = ATTR_MAPPED_ADDRESS ∧ xored = false) by (destruct xored; auto).
  assert (Ht16 : in_u 16 t) by (destruct xored; done).
  pose proof (value_parts (transaction_id m) xored a _ Hq Ha) as [Ep Ea]. pose proof (len_value (transaction_id m) xored a (under xored p)) as Hv.
  set (v := value (transaction_id m) xored a (under xored p)) in *.
  destruct (header_at m pre t v rest E Ht16 ltac:(rewrite Hv; by destruct a)) as (_ & _ & [_ Hw] & Hs).
  rewrite (read_value m pre t v rest E Ht16) by (try (rewrite Hv; by destruct a); unfold is_address; tauto).
  destruct (header_at m pre t v rest E Ht16 ltac:(rewrite Hv; by destruct a)) as (_ & Hlv & _).
  rewrite Hlv, Hv in Hw.
  assert (Hr : read_attribute ntop6 m (len pre) t (len v) = Ok (Address (MkSocketAddress (printed a) p ANY))); [|by rewrite Hr].
  apply read_found with (xored := xored); try done; [by rewrite Hv|by rewrite Ep].
Qed.
End Recovered.

(** ** Discovery *)

Section Discovery.
Context (ntop6 : bytes → bytes).

(** An address comes only from a datagram that repeats the identifier drawn for this request, as a
    response, whose first 1024 bytes hold an address. *)
Lemma query_answered x a :
  query_stun_server ntop6 x = Ok (Some a) ↔
  socket_made x = true ∧ name_resolved x = true ∧ request_sent x = true ∧
  ∃ data m s, answer x = Some data ∧ stun_from_bytes (take 1024 data) = Some m ∧ transaction_id m = drawn_id x ∧
    message_type m = BINDING_RESPONSE ∧ get_mapped_address ntop6 m = Ok (Some s) ∧
    a = MkPublicAddress (host s) (port s) UNKNOWN (u64 (now_after x)).
Proof.
  unfold query_stun_server. destruct (socket_made x), (name_resolved x), (request_sent x); cbn [negb orb];
    try (split; [done|intros (? & ? & ? & _); done]).
  destruct (answer x) as [data|]; [|split; [done|by intros (_ & _ & _ & ? & ? & ? & [=] & _)]].
  destruct (stun_from_bytes (take 1024 data)) as [m|] eqn:Em; [|split; [done|]].
  2:{ intros (_ & _ & _ & ? & ? & ? & [= <-] & E & _). by rewrite Em in E. }
  split.
  - case_decide as Hd; [|done]. destruct (Z.eqb_spec (message_type m) BINDING_RESPONSE) as [Ht|]; [|done].
    destruct (get_mapped_address ntop6 m) as [[s|]| |] eqn:Es; cbn [mbind outcome_bind]; try done. intros [= <-]. eauto 12.
  - intros (_ & _ & _ & ? & m' & s & [= <-] & E & Hd & Ht & Es & ->). rewrite Em in E. injection E as <-.
    rewrite decide_True by done. rewrite Ht, Es. done.
Qed.

Lemma try_servers_found xs t a t' :
  try_servers ntop6 xs t = Ok (Some a, t') ↔
  ∃ pre x post, xs = pre ++ x :: post ∧ Forall (λ y, query_stun_server ntop6 y = Ok None) pre ∧
    query_stun_server ntop6 x = Ok (Some a) ∧ t' = MkNATTraversal (stun_servers t) (Some a) (steady_after x) (timeout t).
Proof.
  induction xs as [|x xs IH]; cbn [try_servers].
  { split; [done|]. by intros ([|] & ? & ? & ? & _). }
  destruct (query_stun_server ntop6 x) as [[b|]| |] eqn:Ex; cbn [mbind outcome_bind].
  - split.
    + intros [= -> <-]. by exists [], x, xs.
    + intros ([|y pre] & z & post & [= -> ->] & Hp & Hz & ->); [by rewrite Ex in Hz; injection Hz as ->|].
      apply list.Forall_cons in Hp as [Hp _]. by rewrite Ex in Hp.
  - rewrite IH. split.
    + intros (pre & y & post & -> & Hp & Hy). exists (x :: pre), y, post. split; [done|]. by split; [constructor|].
    + intros ([|y pre] & z & post & [= -> ->] & Hp & Hz & ->); [by rewrite Ex in Hz|].
      apply list.Forall_cons in Hp as [_ Hp]. by exists pre, z, post.
  - split; [done|]. intros ([|y pre] & z & post & [= -> ->] & Hp & Hz & ->); [by rewrite Ex in Hz|].
    apply list.Forall_cons in Hp as [Hp _]. by rewrite Ex in Hp.
  - split; [done|]. intros ([|y pre] & z & post & [= -> ->] & Hp & Hz & ->); [by rewrite Ex in Hz|].
    apply list.Forall_cons in Hp as [Hp _]. by rewrite Ex in Hp.
Qed.

Lemma try_servers_none xs t t' :
  try_servers ntop6 xs t = Ok (None, t') ↔ t' = t ∧ Forall (λ y, query_stun_server ntop6 y = Ok None) xs.
Proof.
  induction xs as [|x xs IH]; cbn [try_servers].
  { split; [by intros [= ->]|]. by intros [-> _]. }
  rewrite list.Forall_cons.
  destruct (query_stun_server ntop6 x) as [[b|]| |] eqn:Ex; cbn [mbind outcome_bind]; try (split; [done|intros (_ & ? & _); congruence]).
  rewrite IH. tauto.
Qed.

(** The seconds an address is kept: from the reply it was read from. *)
Lemma cache_valid_until t a steady :
  cached_address t = Some a → 0 <= steady - cache_time t → steady - cache_time t < 2 ^ 63 →
  is_cache_valid steady t = bool_decide (steady < cache_time t + 300 * 1000000000).
Proof.
  intros Ha H0 H1. unfold is_cache_valid. rewrite Ha.
  assert (0 <= Z.quot (steady - cache_time t) 1000000000 <= steady - cache_time t).
  { split; [by apply Z.quot_pos|]. apply Z.quot_le_upper_bound; lia. }
  rewrite wrap_small by (unfold in_u; lia). rewrite Z.quot_div_nonneg in * by lia.
  unfold CACHE_VALIDITY_SECONDS. pose proof (Z.div_mod (steady - cache_time t) 1000000000 ltac:(lia)).
  pose proof (Z.mod_pos_bound (steady - cache_time t) 1000000000 ltac:(lia)).
  case_bool_decide; [apply Z.ltb_lt|apply Z.ltb_ge]; lia.
Qed.

(** Discovery asks the servers in order, skips those without an address and stops at the first
    with one, which it keeps: for the next five minutes the same address is given and no server is
    asked, and from then on they are asked again.  When none has one, nothing changes. *)
Theorem discovery exchange steady t :
  (∀ a, cached_address t = Some a → 0 <= steady - cache_time t < 300 * 1000000000 →
     discover_public_address ntop6 exchange steady t = Ok (Some a, t)) ∧
  (is_cache_valid steady t = false →
     (∀ a t', discover_public_address ntop6 exchange steady t = Ok (Some a, t') ↔
        ∃ pre s post, stun_servers t = pre ++ s :: post ∧
          Forall (λ s, query_stun_server ntop6 (exchange s) = Ok None) pre ∧
          query_stun_server ntop6 (exchange s) = Ok (Some a) ∧
          t' = MkNATTraversal (stun_servers t) (Some a) (steady_after (exchange s)) (timeout t)) ∧
     (∀ t', discover_public_address ntop6 exchange steady t = Ok (None, t') ↔
        t' = t ∧ Forall (λ s, query_stun_server ntop6 (exchange s) = Ok None) (stun_servers t))).
Proof.
  split.
  - intros a Ha [H0 H1]. unfold discover_public_address.
    rewrite (cache_valid_until t a), bool_decide_eq_true_2 by (done || lia). by rewrite Ha.
  - intros Hi. unfold discover_public_address. rewrite Hi. split.
    + intros a t'. rewrite try_servers_found. split.
      * intros (pre & x & post & E & Hp & Hx & ->). apply fmap_app_inv in E as (pre' & r & -> & E & Es).
        symmetry in E. apply fmap_cons_inv in E as (s & post' & -> & -> & ->). rewrite list.Forall_fmap in Hp. by exists pre', s, post'.
      * intros (pre & s & post & -> & Hp & Hs & ->). exists (exchange <$> pre), (exchange s), (exchange <$> post).
        rewrite fmap_app, list.Forall_fmap. done.
    + intros t'. by rewrite try_servers_none, list.Forall_fmap.
Qed.

(** A cached address is given for five minutes. *)
Corollary cache_keeps exchange steady t a t' :
  discover_public_address ntop6 exchange steady t = Ok (Some a, t') → is_cache_valid steady t = false →
  ∀ later, 0 <= later - cache_time t' < 2 ^ 63 →
    get_cached_address later t' = if bool_decide (later < cache_time t' + 300 * 1000000000) then Some a else None.
Proof.
  intros Hd Hi later Hl. apply (proj2 (discovery exchange steady t)) in Hd as (pre & s & post & _ & _ & _ & ->); [|done].
  unfold get_cached_address. rewrite (cache_valid_until _ a) by (done || lia). done.
Qed.
End Discovery.

(** A response of 198.51.100.7:4660 behind a five-byte attribute, and one that claims an IPv6
    address in eight bytes. *)
Example address_found :
  let m := MkSTUNMessage BINDING_RESPONSE 0 MAGIC_COOKIE (zeros 12)
             (encode_attribute 32802 (str "hello") ++ write_address (zeros 12) true (V4 (((198 * 256 + 51) * 256 + 100) * 256 + 7)) 4660) in
  get_mapped_address id m = Ok (Some (MkSocketAddress (str "198.51.100.7") 4660 ANY)).
Proof. vm_compute. reflexivity. Qed.

Example cut_address_overread :
  let m := MkSTUNMessage BINDING_RESPONSE 0 MAGIC_COOKIE (zeros 12)
             (encode_attribute ATTR_XOR_MAPPED_ADDRESS (["000"; "002"] ++ replicate 6 "000")%byte) in
  get_mapped_address id m = Undef.
Proof. vm_compute. reflexivity. Qed.
