(* ===== verification/TimeUtils.v ===== *)
(** Times, epochs and the window limiter: include/cashew/time_utils.hpp and
    src/utils/time_utils.cpp.

    A [TimePoint] counts the nanoseconds of the system clock; each reading of
    the clock is an argument, so an operation that reads it twice takes two. *)

From S2P Require Import Prelude.

(** ** Timestamps *)

Definition NS : Z := 1000000000.

Definition timestamp_seconds (now : Z) : Z := u64 (Z.quot now NS).
Definition timestamp_milliseconds (now : Z) : Z := u64 (Z.quot now 1000000).
Definition timestamp_microseconds (now : Z) : Z := u64 (Z.quot now 1000).
Definition to_timestamp (tp : Z) : Z := u64 (Z.quot tp NS).

(** The seconds become nanoseconds in a signed 64-bit integer. *)
Definition from_timestamp (timestamp : Z) : outcome Z :=
  let tp := i64 timestamp * NS in
  if (- 2 ^ 63 <=? tp) && (tp <? 2 ^ 63) then Ok tp else Undef.

(** ** [EpochManager] *)

Module EpochManager.

Definition EPOCH_DURATION_SECONDS : Z := 600.

(** The duration is a 32-bit integer; dividing by zero is undefined. *)
Definition epoch_for_timestamp (epoch_duration timestamp : Z) : outcome Z :=
  if epoch_duration =? 0 then Undef else Ok (timestamp / epoch_duration).

Definition epoch_start_time (epoch_duration epoch : Z) : Z := u64 (epoch * epoch_duration).

Definition epoch_end_time (epoch_duration epoch : Z) : Z := u64 (u64 (epoch + 1) * epoch_duration).

Definition current_epoch (epoch_duration now : Z) : outcome Z :=
  epoch_for_timestamp epoch_duration (timestamp_seconds now).

Definition is_in_epoch (epoch_duration epoch now : Z) : outcome bool :=
  e ← current_epoch epoch_duration now; Ok (e =? epoch).

(** The clock is read once for the epoch and again for the time in it. *)
Definition time_remaining_in_epoch (epoch_duration now now' : Z) : outcome Z :=
  current ← current_epoch epoch_duration now;
  let end_ := epoch_end_time epoch_duration current in
  let now_ts := timestamp_seconds now' in
  Ok (if now_ts <? end_ then u64 (end_ - now_ts) else 0).

Definition time_elapsed_in_epoch (epoch_duration now now' : Z) : outcome Z :=
  current ← current_epoch epoch_duration now;
  let start := epoch_start_time epoch_duration current in
  let now_ts := timestamp_seconds now' in
  Ok (if start <=? now_ts then u64 (now_ts - start) else 0).

End EpochManager.

(** ** [Timer] and [Timeout] *)

Definition elapsed_milliseconds (start now : Z) : Z := u64 (Z.quot (now - start) 1000000).
Definition elapsed_microseconds (start now : Z) : Z := u64 (Z.quot (now - start) 1000).

Definition expired (timeout_seconds start now : Z) : bool := timeout_seconds * NS <=? now - start.

(** ** [RateLimiter] *)

Module RateLimiter.

Record RateLimiter := MkRateLimiter {
  max_operations : Z;
  window : Z;
  timestamps : list Z
}.

Definition new (max_operations window_seconds : Z) : RateLimiter :=
  MkRateLimiter max_operations (window_seconds * NS) [].

Definition cleanup_old_timestamps (now : Z) (r : RateLimiter) : RateLimiter :=
  MkRateLimiter (max_operations r) (window r) (filter (λ tp, now - window r <= tp) (timestamps r)).

(** [now] is read for the cleanup, [now'] for the new entry. *)
Definition allow (now now' : Z) (r : RateLimiter) : bool * RateLimiter :=
  let r := cleanup_old_timestamps now r in
  if len (timestamps r) <? max_operations r then
    (true, MkRateLimiter (max_operations r) (window r) (timestamps r ++ [now']))
  else (false, r).

Definition reset (r : RateLimiter) : RateLimiter := MkRateLimiter (max_operations r) (window r) [].

Definition count (r : RateLimiter) : Z := len (timestamps r).

End RateLimiter.

(** ** Epochs partition time *)

Import EpochManager.

Section Epochs.
Context (d : Z) (Hd : 0 < d < 2 ^ 32).

Lemma epoch_div ts e :
  0 <= ts → (e + 1) * d < 2 ^ 64 → 0 <= e →
  epoch_for_timestamp d ts = Ok e ↔ epoch_start_time d e <= ts < epoch_end_time d e.
Proof.
  intros Hts He He0. unfold epoch_for_timestamp, epoch_start_time, epoch_end_time.
  rewrite (wrap_small 64 (e + 1)) by (unfold in_u; nia). rewrite !wrap_small by (unfold in_u; nia).
  destruct (Z.eqb_spec d 0); [lia|]. pose proof (Z.div_mod ts d ltac:(lia)). pose proof (Z.mod_pos_bound ts d ltac:(lia)).
  split; [intros [= <-]; nia|]. intros Hin. f_equal. symmetry. apply (Z.div_unique ts d e (ts - d * e)); nia.
Qed.

(** Each second is in exactly one epoch, the one computed for it, as long as the epoch ends below
    [2^64]; the times elapsed and remaining are then its distances to the two ends and add up to
    the duration. *)
Theorem epochs_partition now :
  let ts := timestamp_seconds now in
  (ts / d + 1) * d < 2 ^ 64 →
  ∃ e elapsed remaining,
    current_epoch d now = Ok e ∧ time_elapsed_in_epoch d now now = Ok elapsed ∧ time_remaining_in_epoch d now now = Ok remaining ∧
    ts = epoch_start_time d e + elapsed ∧ ts + remaining = epoch_end_time d e ∧ elapsed + remaining = d ∧ 0 < remaining ∧
    (∀ e', 0 <= e' → (e' + 1) * d < 2 ^ 64 → epoch_start_time d e' <= ts < epoch_end_time d e' → e' = e).
Proof.
  intros ts Hb. assert (Hts : in_u 64 ts) by (apply wrap_range; lia). assert (0 <= ts / d) by (apply Z.div_pos; unfold in_u in *; lia).
  assert (Hc : current_epoch d now = Ok (ts / d)).
  { unfold current_epoch, epoch_for_timestamp. by destruct (Z.eqb_spec d 0); [lia|]. }
  pose proof (proj1 (epoch_div ts (ts / d) ltac:(apply Hts) Hb ltac:(done)) Hc) as Hin.
  exists (ts / d), (ts - epoch_start_time d (ts / d)), (epoch_end_time d (ts / d) - ts).
  unfold time_elapsed_in_epoch, time_remaining_in_epoch. rewrite Hc. cbn [mbind outcome_bind]. fold ts.
  assert (0 <= epoch_start_time d (ts / d)) by (apply (wrap_range 64); lia).
  assert (epoch_end_time d (ts / d) < 2 ^ 64) by (apply (wrap_range 64); lia).
  destruct (Z.leb_spec (epoch_start_time d (ts / d)) ts); [|lia]. destruct (Z.ltb_spec ts (epoch_end_time d (ts / d))); [|lia].
  rewrite !wrap_small by (unfold in_u in *; lia). split_and!; try done; try lia.
  - unfold epoch_start_time, epoch_end_time. rewrite (wrap_small 64 (ts / d + 1)) by (unfold in_u; nia).
    rewrite !wrap_small by (unfold in_u; nia). lia.
  - intros e' He' Hb' Hin'. apply epoch_div in Hin'; [|apply Hts|done|done]. unfold current_epoch in Hc. fold ts in Hc. congruence.
Qed.
End Epochs.

(** A time is recovered from its whole seconds up to the year 2262, beyond which the nanoseconds
    overflow. *)
Theorem timestamps_recovered ts :
  in_u 63 ts →
  (ts <= 9223372036 → ∃ tp, from_timestamp ts = Ok tp ∧ to_timestamp tp = ts) ∧ (9223372036 < ts → from_timestamp ts = Undef).
Proof.
  intros Hts. unfold from_timestamp, to_timestamp, NS. rewrite swrap_small by (unfold in_u, in_s in *; lia). split.
  - intros Hle. exists (ts * 1000000000). unfold in_u in *.
    destruct (Z.leb_spec (- 2 ^ 63) (ts * 1000000000)); [|lia]. destruct (Z.ltb_spec (ts * 1000000000) (2 ^ 63)); [|lia].
    split; [done|]. rewrite Z.quot_mul by lia. apply wrap_small. unfold in_u; lia.
  - intros Hgt. destruct (Z.ltb_spec (ts * 1000000000) (2 ^ 63)); [lia|]. by rewrite andb_false_r.
Qed.

(** ** The window limiter *)

Import RateLimiter.

(** The limiter after some calls with the times of the operations it allowed and of its last call. *)
Inductive limited (ops seconds : Z) : RateLimiter → list Z → Z → Prop :=
  | limited_new now : limited ops seconds (new ops seconds) [] now
  | limited_call r log last now now' :
      limited ops seconds r log last → last <= now → now <= now' →
      limited ops seconds (allow now now' r).2 (if (allow now now' r).1 then log ++ [now'] else log) now'.

Definition within (from to : Z) (log : list Z) : list Z := filter (λ t, from <= t <= to) log.

(** What the limiter keeps is what it allowed since some time before its last call. *)
Definition keeps (ops seconds : Z) (r : RateLimiter) (log : list Z) (last : Z) : Prop :=
  max_operations r = ops ∧ window r = seconds * NS ∧ Forall (λ t, t <= last) log ∧
  ∃ from, from <= last ∧ timestamps r = filter (λ t, from - seconds * NS <= t) log.

Section Limiter.
Context (ops seconds : Z) (Hs : 0 <= seconds).

Lemma span_nonneg : 0 <= seconds * NS.
Proof. unfold NS. lia. Qed.

Lemma filter_filter_le a b (l : list Z) : a <= b → filter (λ t, b <= t) (filter (λ t, a <= t) l) = filter (λ t, b <= t) l.
Proof. intros Hab. rewrite list_filter_filter. apply list_filter_iff. intros x. lia. Qed.

Lemma keeps_invariant r log last : limited ops seconds r log last → keeps ops seconds r log last.
Proof.
  induction 1 as [now|r log last now now' _ (Ho & Hw & Hl & from & Hf & Ht) H1 H2].
  { split_and!; try done. by exists now. }
  assert (Hlog : Forall (λ t, t <= now') log) by (eapply list.Forall_impl; [exact Hl|cbn; lia]).
  assert (Hk : filter (λ tp, now - window r <= tp) (timestamps r) = filter (λ t, now - seconds * NS <= t) log).
  { rewrite Ht, Hw. apply filter_filter_le. lia. }
  unfold allow, cleanup_old_timestamps. cbn [timestamps max_operations window]. rewrite Hk. case_match; cbn [fst snd].
  - split_and!; try done. { apply Forall_app. split; [done|]. by repeat constructor. }
    exists now. split; [done|]. cbn [timestamps]. rewrite list.filter_app, filter_cons_True; [by rewrite filter_nil|]. pose proof span_nonneg. cbn. lia.
  - split_and!; try done. by exists now.
Qed.

(** Whether a call is allowed is decided by the operations allowed in the window before it: those of
    the last [seconds] seconds, fewer than the maximum. *)
Theorem limiter_decides r log last now now' :
  limited ops seconds r log last → last <= now →
  (allow now now' r).1 = (len (within (now - seconds * NS) now log) <? ops).
Proof.
  intros Hr Hle. destruct (keeps_invariant r log last Hr) as (Ho & Hw & Hl & from & Hf & Ht).
  unfold allow, cleanup_old_timestamps. cbn [timestamps max_operations]. rewrite Ht, Hw, Ho, filter_filter_le by lia.
  unfold within. replace (filter (λ t, now - seconds * NS <= t <= now) log) with (filter (λ t, now - seconds * NS <= t) log); [by case_match|].
  clear -Hl Hle. induction Hl as [|t log Ht Hl IH]; [done|]. cbn in Ht. rewrite !filter_cons, IH.
  destruct (decide (now - seconds * NS <= t)), (decide (now - seconds * NS <= t <= now)); (done || lia).
Qed.

(** In no window of that many seconds, wherever it begins, are more operations allowed than the
    maximum, while the clock does not go back and the limiter is not reset. *)
Theorem limiter_bounds r log last from :
  0 <= ops → limited ops seconds r log last → len (within from (from + seconds * NS) log) <= ops.
Proof.
  intros H0 Hr. induction Hr as [now|r log last now now' Hr IH H1 H2]; [done|].
  pose proof (limiter_decides r log last now now' Hr H1) as Hd. destruct (allow now now' r).1; [|done].
  destruct (keeps_invariant r log last Hr) as (_ & _ & Hl & _). unfold within in *. rewrite list.filter_app, len_app.
  rewrite filter_cons, filter_nil. destruct (decide (from <= now' <= from + seconds * NS)) as [Hin|Hout]; [|change (len []) with 0; lia].
  symmetry in Hd. apply Z.ltb_lt in Hd. change (len [now']) with 1.
  enough (len (filter (λ t, from <= t <= from + seconds * NS) log) <= len (filter (λ t, now - seconds * NS <= t <= now) log)) by lia.
  clear -Hl Hin H1 H2. induction Hl as [|t log Ht Hl IH]; [done|]. cbn in Ht. rewrite !filter_cons.
  destruct (decide (from <= t <= from + seconds * NS)), (decide (now - seconds * NS <= t <= now)); rewrite ?len_cons; lia.
Qed.
End Limiter.

(** Two operations a second: the third waits until the first is more than a second old. *)
Example two_a_second :
  let r := new 2 1 in
  let r := (allow 0 5 r).2 in
  let r := (allow 10 15 r).2 in
  (allow (NS + 5) (NS + 5) r).1 = false ∧ (allow (NS + 6) (NS + 6) r).1 = true ∧
  limited 2 1 r [5; 15] 15.
Proof.
  split; [done|]. split; [done|].
  exact (limited_call 2 1 _ [5] 5 10 15 (limited_call 2 1 _ [] 0 0 5 (limited_new 2 1 0) ltac:(done) ltac:(done)) ltac:(done) ltac:(done)).
Defined.
