(* ===== verification/HardwareKeys.v ===== *)
(** Key storage behind one interface: src/security/hardware_key_storage.hpp
    and hardware_key_storage.cpp.

    [HardwareKeyStorage] is the interface as a type of objects: the software
    store or the TPM store, with the virtual methods dispatched on them.
    Whether the TPM device files exist is an argument; the key pair a generation
    draws is one too.  The [std::map] of the software store is a finite map. *)

From Stdlib Require Import Strings.Byte.
From S2P Require Import Prelude Common Crypto.

(** ** Handles and capabilities *)

Inductive HardwareKeyType := NONE | TPM_2_0 | SECURE_ENCLAVE | WINDOWS_NGC | YUBIKEY | GENERIC_PKCS11.

#[export] Instance HardwareKeyType_dec : EqDecision HardwareKeyType.
Proof. solve_decision. Defined.

Record HardwareKeyCapabilities := MkCapabilities {
  can_generate_keys : bool;
  can_sign : bool;
  can_encrypt : bool;
  can_export_public_key : bool;
  can_export_private_key : bool;
  requires_pin : bool;
  supports_key_attestation : bool;
  max_key_size_bits : Z
}.

Definition no_capabilities : HardwareKeyCapabilities := MkCapabilities false false false false false false false 0.

Record HardwareKeyHandle := MkHandle {
  type : HardwareKeyType;
  device_identifier : bytes;
  key_identifier : bytes;
  attestation_certificate : bytes
}.

Definition is_valid (h : HardwareKeyHandle) : bool :=
  negb (bool_decide (type h = NONE)) && negb (bool_decide (key_identifier h = [])).

Definition hardware_key_type_to_string (t : HardwareKeyType) : bytes :=
  str match t with
      | NONE => "Software"
      | TPM_2_0 => "TPM 2.0"
      | SECURE_ENCLAVE => "Secure Enclave"
      | WINDOWS_NGC => "Windows NGC"
      | YUBIKEY => "YubiKey"
      | GENERIC_PKCS11 => "PKCS#11"
      end.

(** ** [SoftwareKeyStorage] *)

Module Software.

Record KeyEntry := MkKeyEntry { label : bytes; public_key : PublicKey; secret_key : SecretKey }.

Record SoftwareKeyStorage := MkSoftwareKeyStorage { keys : gmap bytes KeyEntry; initialized : bool }.

Definition new : SoftwareKeyStorage := MkSoftwareKeyStorage ∅ false.

Definition get_capabilities : HardwareKeyCapabilities := MkCapabilities true true true true true false false 256.

Definition initialize (s : SoftwareKeyStorage) : bool * SoftwareKeyStorage := (true, MkSoftwareKeyStorage (keys s) true).

Definition key_id (key_label : bytes) : bytes := str "sw_" ++ key_label.

Definition handle_of (id : bytes) : HardwareKeyHandle := MkHandle NONE (str "software") id [].

Definition store (key_label : bytes) (pk : PublicKey) (sk : SecretKey) (s : SoftwareKeyStorage) : SoftwareKeyStorage :=
  MkSoftwareKeyStorage (<[key_id key_label := MkKeyEntry key_label pk sk]> (keys s)) (initialized s).

Section ops.
Context `{Crypto}.

Definition generate_key (key_label : bytes) (drawn : option (PublicKey * SecretKey)) (s : SoftwareKeyStorage) :
    outcome (option HardwareKeyHandle * SoftwareKeyStorage) :=
  if negb (initialized s) then Ok (None, s)
  else
    kp ← Ed25519.generate_keypair drawn;
    Ok (Some (handle_of (key_id key_label)), store key_label kp.1 kp.2 s).

Definition import_key (sk : SecretKey) (key_label : bytes) (s : SoftwareKeyStorage) :
    option HardwareKeyHandle * SoftwareKeyStorage :=
  if negb (initialized s) then (None, s)
  else (Some (handle_of (key_id key_label)), store key_label (Ed25519.secret_to_public sk) sk s).

Definition get_public_key (h : HardwareKeyHandle) (s : SoftwareKeyStorage) : option PublicKey :=
  public_key <$> keys s !! key_identifier h.

Definition sign (h : HardwareKeyHandle) (data : bytes) (s : SoftwareKeyStorage) : outcome (option Signature) :=
  match keys s !! key_identifier h with
  | None => Ok None
  | Some e => sg ← Ed25519.sign data (secret_key e); Ok (Some sg)
  end.
End ops.

Definition delete_key (h : HardwareKeyHandle) (s : SoftwareKeyStorage) : bool * SoftwareKeyStorage :=
  match keys s !! key_identifier h with
  | None => (false, s)
  | Some _ => (true, MkSoftwareKeyStorage (delete (key_identifier h) (keys s)) (initialized s))
  end.

Definition get_attestation (h : HardwareKeyHandle) : option bytes := None.

Definition list_keys (s : SoftwareKeyStorage) : list HardwareKeyHandle := (λ e, handle_of e.1) <$> entries (keys s).

Definition verify_attestation (attestation : bytes) : bool := false.

End Software.

(** ** [TPMKeyStorage] *)

Module Tpm.

Record TPMKeyStorage := MkTPMKeyStorage { tpm_available : bool; tpm_initialized : bool }.

(** [device] tells whether one of the device files exists. *)
Definition new (device : bool) : TPMKeyStorage := MkTPMKeyStorage device false.

Definition get_capabilities (t : TPMKeyStorage) : HardwareKeyCapabilities :=
  if tpm_available t then MkCapabilities true true true true false true true 2048 else no_capabilities.

Definition initialize (t : TPMKeyStorage) : bool * TPMKeyStorage :=
  if negb (tpm_available t) then (false, t) else (false, MkTPMKeyStorage (tpm_available t) false).

(** Every other operation is still to be connected. *)
Definition generate_key (key_label : bytes) (t : TPMKeyStorage) : option HardwareKeyHandle :=
  if negb (tpm_initialized t) then None else None.
Definition import_key (sk : SecretKey) (key_label : bytes) : option HardwareKeyHandle := None.
Definition get_public_key (h : HardwareKeyHandle) : option PublicKey := None.
Definition sign (h : HardwareKeyHandle) (data : bytes) : option Signature := None.
Definition delete_key (h : HardwareKeyHandle) : bool := false.
Definition list_keys : list HardwareKeyHandle := [].

End Tpm.

(** ** The interface *)

Inductive HardwareKeyStorage := SoftwareStore (s : Software.SoftwareKeyStorage) | TpmStore (t : Tpm.TPMKeyStorage).

Definition is_available (k : HardwareKeyStorage) : bool :=
  match k with SoftwareStore _ => true | TpmStore t => Tpm.tpm_available t end.

(** Calls of the virtual methods, and what they return. *)
Inductive call :=
  | Initialize
  | GenerateKey (key_label : bytes) (drawn : option (PublicKey * SecretKey))
  | ImportKey (sk : SecretKey) (key_label : bytes)
  | GetPublicKey (h : HardwareKeyHandle)
  | Sign (h : HardwareKeyHandle) (data : bytes)
  | DeleteKey (h : HardwareKeyHandle)
  | ListKeys.

Inductive reply :=
  | Done (b : bool)
  | Handle (h : option HardwareKeyHandle)
  | Public (pk : option PublicKey)
  | Signed (sg : option Signature)
  | Handles (l : list HardwareKeyHandle).

Section Dispatch.
Context `{Crypto}.

Definition call_software (c : call) (s : Software.SoftwareKeyStorage) : outcome (reply * Software.SoftwareKeyStorage) :=
  match c with
  | Initialize => let '(b, s) := Software.initialize s in Ok (Done b, s)
  | GenerateKey l d => '(h, s) ← Software.generate_key l d s; Ok (Handle h, s)
  | ImportKey sk l => let '(h, s) := Software.import_key sk l s in Ok (Handle h, s)
  | GetPublicKey h => Ok (Public (Software.get_public_key h s), s)
  | Sign h d => sg ← Software.sign h d s; Ok (Signed sg, s)
  | DeleteKey h => let '(b, s) := Software.delete_key h s in Ok (Done b, s)
  | ListKeys => Ok (Handles (Software.list_keys s), s)
  end.

Definition call_tpm (c : call) (t : Tpm.TPMKeyStorage) : reply * Tpm.TPMKeyStorage :=
  match c with
  | Initialize => let '(b, t) := Tpm.initialize t in (Done b, t)
  | GenerateKey l _ => (Handle (Tpm.generate_key l t), t)
  | ImportKey sk l => (Handle (Tpm.import_key sk l), t)
  | GetPublicKey h => (Public (Tpm.get_public_key h), t)
  | Sign h d => (Signed (Tpm.sign h d), t)
  | DeleteKey h => (Done (Tpm.delete_key h), t)
  | ListKeys => (Handles Tpm.list_keys, t)
  end.

Definition dispatch (c : call) (k : HardwareKeyStorage) : outcome (reply * HardwareKeyStorage) :=
  match k with
  | SoftwareStore s => '(r, s) ← call_software c s; Ok (r, SoftwareStore s)
  | TpmStore t => let '(r, t) := call_tpm c t in Ok (r, TpmStore t)
  end.

Fixpoint run (cs : list call) (k : HardwareKeyStorage) : outcome (list reply * HardwareKeyStorage) :=
  match cs with
  | [] => Ok ([], k)
  | c :: cs => '(r, k) ← dispatch c k; '(l, k) ← run cs k; Ok (r :: l, k)
  end.
End Dispatch.

(** ** [HardwareKeyStorageFactory] *)

Definition create (device : bool) (t : HardwareKeyType) : option HardwareKeyStorage :=
  match t with
  | NONE => Some (SoftwareStore Software.new)
  | TPM_2_0 => Some (TpmStore (Tpm.new device))
  | _ => None
  end.

Definition detect_available_hardware (device : bool) : list HardwareKeyType :=
  [NONE] ++ (if device then [TPM_2_0] else []).

(** The device files are looked for at the detection and again by the store. *)
Definition create_best_available (detected device : bool) : HardwareKeyStorage :=
  if bool_decide (TPM_2_0 ∈ detect_available_hardware detected) then
    match create device TPM_2_0 with
    | Some storage => if is_available storage then storage else SoftwareStore Software.new
    | None => SoftwareStore Software.new
    end
  else SoftwareStore Software.new.

(** ** Stored keys *)

Lemma key_id_inj l l' : Software.key_id l = Software.key_id l' → l = l'.
Proof. apply app_inv_head. Qed.

Section Keys.
Context `{!Crypto}.

(** What a store was given last under each label. *)
Inductive stored : Software.SoftwareKeyStorage → gmap bytes (PublicKey * SecretKey) → Prop :=
  | stored_new : stored Software.new ∅
  | stored_initialize s g : stored s g → stored (Software.initialize s).2 g
  | stored_generate s g l kp h s' :
      stored s g → Software.generate_key l (Some kp) s = Ok (Some h, s') → stored s' (<[l := kp]> g)
  | stored_import s g sk l h s' :
      stored s g → Software.import_key sk l s = (Some h, s') → stored s' (<[l := (Ed25519.secret_to_public sk, sk)]> g)
  | stored_delete s g l :
      stored s g → stored (Software.delete_key (Software.handle_of (Software.key_id l)) s).2 (delete l g).

(** The map holds one entry per label, under the prefixed identifier. *)
Definition holds (s : Software.SoftwareKeyStorage) (g : gmap bytes (PublicKey * SecretKey)) : Prop :=
  ∀ id e, Software.keys s !! id = Some e ↔
    ∃ l kp, id = Software.key_id l ∧ g !! l = Some kp ∧ e = Software.MkKeyEntry l kp.1 kp.2.

Lemma holds_store s g l kp : holds s g → holds (Software.store l kp.1 kp.2 s) (<[l := kp]> g).
Proof.
  intros Hh id e. unfold Software.store. cbn [Software.keys]. destruct (decide (id = Software.key_id l)) as [->|Hne].
  - rewrite lookup_insert_eq. split; [intros [= <-]; exists l, kp; by rewrite lookup_insert_eq|].
    intros (l' & kp' & <-%key_id_inj & Hl & ->). rewrite lookup_insert_eq in Hl. by injection Hl as ->.
  - rewrite lookup_insert_ne by done. rewrite (Hh id e). split; intros (l' & kp' & -> & Hl & ->); exists l', kp'; split; try done.
    + by rewrite lookup_insert_ne by (intros <-; done).
    + rewrite lookup_insert_ne in Hl by (intros <-; done). done.
Qed.

Lemma stored_holds s g : stored s g → holds s g.
Proof.
  induction 1 as [|s g _ IH|s g l kp h s' _ IH Hg|s g sk l h s' _ IH Hi|s g l _ IH]; [|exact IH|..].
  - intros id e. by setoid_rewrite lookup_empty; naive_solver.
  - unfold Software.generate_key in Hg. destruct (Software.initialized s); [|done]. injection Hg as _ <-. by apply holds_store.
  - unfold Software.import_key in Hi. destruct (Software.initialized s); [|done]. injection Hi as _ <-. by apply (holds_store _ _ _ (_, sk)).
  - assert (Hd : holds (Software.MkSoftwareKeyStorage (delete (Software.key_id l) (Software.keys s)) (Software.initialized s)) (delete l g)).
    { intros id e. cbn [Software.keys]. rewrite lookup_delete_Some, (IH id e). split.
      - intros (Hne & l' & kp & -> & Hl & ->). exists l', kp. rewrite lookup_delete_Some. split_and!; try done. congruence.
      - intros (l' & kp & -> & [Hne Hl]%lookup_delete_Some & ->). split; [by intros ?%key_id_inj|]. by exists l', kp. }
    unfold Software.delete_key. cbn [key_identifier Software.handle_of].
    destruct (Software.keys s !! Software.key_id l) as [e|] eqn:El; [exact Hd|].
    assert (delete (Software.key_id l) (Software.keys s) = Software.keys s) as Hk by (by apply delete_id).
    rewrite Hk in Hd. by destruct s.
Qed.

(** A handle answers for the pair last stored under its label and for no other: the public key it
    gives is that of the pair, and it signs exactly while the pair is there; the keys listed are
    those of the labels. *)
Theorem keys_answer s g l :
  stored s g →
  let h := Software.handle_of (Software.key_id l) in
  Software.get_public_key h s = fst <$> g !! l ∧
  (∀ data, Software.sign h data s =
     match g !! l with Some kp => sg ← Ed25519.sign data kp.2; Ok (Some sg) | None => Ok None end) ∧
  (h ∈ Software.list_keys s ↔ is_Some (g !! l)).
Proof.
  intros Hs h. pose proof (stored_holds s g Hs) as Hh. subst h.
  assert (Hl : Software.keys s !! Software.key_id l = (λ kp, Software.MkKeyEntry l kp.1 kp.2) <$> g !! l).
  { destruct (g !! l) as [kp|] eqn:Eg; cbn [fmap option_fmap option_map]; [apply Hh; by exists l, kp|].
    apply eq_None_not_Some. intros [e (l' & kp & <-%key_id_inj & Eg' & _)%Hh]. congruence. }
  split; [|split].
  - unfold Software.get_public_key. cbn [key_identifier Software.handle_of]. rewrite Hl. by destruct (g !! l).
  - intros data. unfold Software.sign. cbn [key_identifier Software.handle_of]. rewrite Hl. by destruct (g !! l).
  - unfold Software.list_keys. rewrite list_elem_of_fmap. split.
    + intros ([id e] & [= <-] & Hin%elem_of_entries). rewrite Hl in Hin. by destruct (g !! l).
    + intros [kp Eg]. exists (Software.key_id l, Software.MkKeyEntry l kp.1 kp.2). split; [done|].
      apply elem_of_entries. by rewrite Hl, Eg.
Qed.

(** What an imported genuine key signs verifies under the public key its handle gives. *)
Theorem imported_key_signs `{!SignatureLaws} s g sk l h s' data sg :
  genuine_secret sk → stored s g → Software.import_key sk l s = (Some h, s') → Software.sign h data s' = Ok (Some sg) →
  ∃ pk, Software.get_public_key h s' = Some pk ∧ Ed25519.verify data sg pk = true.
Proof.
  intros Hgen Hs Hi Hg. pose proof (stored_import s g sk l h s' Hs Hi) as Hs'.
  assert (h = Software.handle_of (Software.key_id l)) as ->.
  { unfold Software.import_key in Hi. destruct (Software.initialized s); [|done]. by injection Hi as <- _. }
  destruct (keys_answer s' _ l Hs') as (Hp & Hsg & _). rewrite Hsg, lookup_insert_eq in Hg. rewrite Hp, lookup_insert_eq.
  exists (Ed25519.secret_to_public sk). split; [done|]. unfold Ed25519.sign in Hg. cbn [snd] in Hg.
  destruct (crypto_sign_detached data sk) as [sg'|] eqn:E; [|done]. injection Hg as <-. by apply verify_sign.
Qed.
End Keys.

(** No handle the software store gives is valid by [HardwareKeyHandle::is_valid]. *)
Theorem software_handles_invalid `{!Crypto} s l sk h :
  h ∈ Software.list_keys s ∨ (Software.import_key sk l s).1 = Some h → is_valid h = false.
Proof.
  intros [Hin|Hi].
  - apply list_elem_of_fmap in Hin as (e & -> & _). done.
  - unfold Software.import_key in Hi. destruct (Software.initialized s); [|done]. by injection Hi as <-.
Qed.

(** ** The best store *)

Definition refuses (r : reply) : Prop := r = Done false ∨ r = Handle None ∨ r = Public None ∨ r = Signed None ∨ r = Handles [].

Section Best.
Context `{!Crypto}.

Lemma tpm_refuses device cs :
  ∃ l, run cs (TpmStore (Tpm.new device)) = Ok (l, TpmStore (Tpm.new device)) ∧ Forall refuses l.
Proof.
  induction cs as [|c cs (l & IH & Hl)]; [by exists []|].
  assert (∃ r, dispatch c (TpmStore (Tpm.new device)) = Ok (r, TpmStore (Tpm.new device)) ∧ refuses r) as (r & Hd & Hr).
  { unfold refuses. destruct c; cbn; try (eexists; split; [done|tauto]). destruct device; (eexists; split; [done|tauto]). }
  exists (r :: l). cbn [run]. rewrite Hd. cbn [mbind outcome_bind]. rewrite IH. split; [done|by constructor].
Qed.

(** The store chosen as the best keeps no key at all on a machine with a TPM device: it is the TPM
    store, which is available and refuses every call, the initialisation first.  Without a device the
    software store is chosen, and initialised it imports every key. *)
Theorem best_store detected device :
  (detected = true → device = true →
     is_available (create_best_available detected device) = true ∧
     ∀ cs, ∃ l, run cs (create_best_available detected device) = Ok (l, create_best_available detected device) ∧ Forall refuses l) ∧
  ((detected = false ∨ device = false) → create_best_available detected device = SoftwareStore Software.new ∧
     ∀ sk l, let h := Software.handle_of (Software.key_id l) in
       ∃ s, run [Initialize; ImportKey sk l; GetPublicKey h] (create_best_available detected device) =
         Ok ([Done true; Handle (Some h); Public (Some (Ed25519.secret_to_public sk))], SoftwareStore s)).
Proof.
  assert (Hin : TPM_2_0 ∈ detect_available_hardware detected ↔ detected = true).
  { destruct detected; cbn; set_solver. }
  split.
  - intros -> ->. assert (create_best_available true true = TpmStore (Tpm.new true)) as ->.
    { unfold create_best_available. by rewrite bool_decide_eq_true_2 by (by apply Hin). }
    split; [done|]. apply tpm_refuses.
  - intros Hno. assert (create_best_available detected device = SoftwareStore Software.new) as ->.
    { unfold create_best_available. case_bool_decide as Hd; [|done]. destruct Hno as [->| ->]; [by apply Hin in Hd|done]. }
    split; [done|]. intros sk l h. eexists. cbn [run]. unfold dispatch at 1. cbn. unfold Software.get_public_key.
    cbn [key_identifier Software.handle_of Software.keys Software.store h]. by rewrite lookup_insert_eq.
Qed.
End Best.

(** A label stored again: the key before it is gone. *)
Example label_overwritten :
  let C := toy_crypto in
  let a : SecretKey := array_fill 64 "001"%byte in
  let b : SecretKey := array_fill 64 "002"%byte in
  let s := (Software.initialize Software.new).2 in
  let s := (Software.import_key a (str "node") s).2 in
  let r := Software.import_key b (str "node") s in
  (h ← r.1; Software.get_public_key h r.2) = Some (Ed25519.secret_to_public b).
Proof. vm_compute. reflexivity. Qed.
