(* ===== verification/Node.v ===== *)
(** Configuration and the node: [Config] of src/utils/config.hpp and config.cpp,
    [Node] of src/core/node/node.hpp and node.cpp.

    A configuration is a JSON value.  The key pair drawn, the nonce and the
    clock are arguments, and so is which paths can be written and which directories
    made; the files are those of [KeyStore]'s file system.  [run] is left by the call of [shutdown]
    of another thread; its rounds are not counted here. *)

From Stdlib Require Import Strings.Byte.
From S2P Require Import Prelude Reader Common Crypto Channel Floats Json KeyStore Identity.

(** ** [Config] *)

Module Config.

Definition Config : Type := json.

Definition new : Config := JNull.

Section Text.
Context `{JsonText}.

Definition load_from_file (path : bytes) (fs : FileSystem) : outcome Config :=
  match files fs !! path with
  | None => Err (ERuntime "Failed to open config file")
  | Some content => match json_read content with Some j => Ok j | None => Err (ERuntime "Failed to parse config file") end
  end.

Definition load_from_json (text : bytes) : outcome Config :=
  match json_parse text with Some j => Ok j | None => Err (ERuntime "Failed to parse JSON") end.

(** The file is opened, and so emptied, before the value is written out. *)
Definition save_to_file (writable : bytes → bool) (path : bytes) (c : Config) (fs : FileSystem) : outcome unit * FileSystem :=
  if writable path then
    match json_dump_indented c with
    | Some text => (Ok (), write_file path text fs)
    | None => (Err type_error, write_file path [] fs)
    end
  else (Err (ERuntime "Failed to open file for writing"), fs).
End Text.

(** [get<T>], with the conversion of the JSON library; what it throws is no value. *)
Definition get {T} (convert : json → outcome T) (key : bytes) (c : Config) : option T :=
  if json_contains key c then to_optional (v ← json_at key c; convert v) else None.

Definition get_or {T} (convert : json → outcome T) (key : bytes) (d : T) (c : Config) : T := default d (get convert key c).

(** [data_\[key\] = value] of a null value or an object. *)
Definition set (key : bytes) (v : json) (c : Config) : outcome Config :=
  match c with
  | JNull => Ok (JObject (obj_insert key v []))
  | JObject m => Ok (JObject (obj_insert key v m))
  | _ => Err type_error
  end.

Definition has (key : bytes) (c : Config) : bool := json_contains key c.

End Config.

(** ** [Node] *)

Record Node := MkNode { config : Config.Config; identity : option NodeIdentity; running : bool }.

Definition new_node (c : Config.Config) : Node := MkNode c None false.

Section ops.
Context `{Crypto, ChannelCrypto, JsonText}.

Definition identity_path (n : Node) : bytes :=
  Config.get_or get_string (str "identity_file") (str "cashew_identity.dat") (config n).

Definition identity_password (n : Node) : bytes := Config.get_or get_string (str "identity_password") [] (config n).

Definition exists_path (path : bytes) (fs : FileSystem) : bool :=
  bool_decide (is_Some (files fs !! path)) || bool_decide (path ∈ dirs fs).

(** The identity generated is set before it is saved: when the saving throws it stays. *)
Definition initialize (mkdir writable : bytes → bool) (drawn : option (PublicKey * SecretKey)) (nonce : Nonce) (now : Z)
    (n : Node) (fs : FileSystem) : outcome unit * Node * FileSystem :=
  if exists_path (identity_path n) fs then
    match load (identity_path n) (identity_password n) fs with
    | Ok i => (Ok (), MkNode (config n) (Some i) (running n), fs)
    | Err e => (Err e, n, fs)
    | Undef => (Undef, n, fs)
    end
  else
    match generate drawn now with
    | Ok i =>
        let n := MkNode (config n) (Some i) (running n) in
        let '(r, fs) := save mkdir writable (identity_path n) (identity_password n) nonce i fs in (r, n, fs)
    | Err e => (Err e, n, fs)
    | Undef => (Undef, n, fs)
    end.

Definition start (n : Node) : Node := MkNode (config n) (identity n) true.

Definition shutdown (n : Node) : Node := MkNode (config n) None false.

Definition get_node_id (n : Node) : outcome NodeID :=
  match identity n with
  | Some i => Ok (node_id i)
  | None => Err (ERuntime "Node not initialized")
  end.
End ops.

(** ** Configurations are read back *)


Theorem config_saved_and_loaded `{JsonTextLaws} writable path c fs fs' :
  json_plain c → Config.save_to_file writable path c fs = (Ok (), fs') → Config.load_from_file path fs' = Ok c.
Proof.
  intros Hc. unfold Config.save_to_file. destruct (writable path); [|done].
  destruct (json_dump_indented c) as [text|] eqn:Ed; [|done]. intros [= <-].
  unfold Config.load_from_file. cbn [files write_file]. rewrite lookup_insert_eq. by rewrite (read_dump _ _ Hc Ed).
Qed.

(** A value set is the value got, and the others stay. *)
Theorem config_get_set {T} (convert : json → outcome T) key v c c' key' :
  Config.set key v c = Ok c' →
  Config.get convert key' c' = if decide (key' = key) then to_optional (convert v) else Config.get convert key' c.
Proof.
  intros Hs. assert (∃ m, c' = JObject (obj_insert key v m) ∧ ∀ k, Config.get convert k c = Config.get convert k (JObject m)) as (m & -> & Hm).
  { destruct c as [| | | | | |m]; try discriminate Hs; injection Hs as <-; [by exists []|by exists m]. }
  rewrite Hm. unfold Config.get, json_contains, json_at. rewrite obj_find_insert.
  destruct (decide (key' = key)); [by rewrite bool_decide_eq_true_2 by done|done].
Qed.

(** ** The identity of a node *)

Section Restart.
Context `{SignatureLaws, ChannelLaws, JsonTextLaws}.

(** A node that generated its identity finds the same one at its next start, however often and with
    whatever it would draw, and no start after the first changes a file. *)
Theorem node_keeps_identity mkdir writable drawn nonce now n fs n1 fs1 :
  in_u 64 now → exists_path (identity_path n) fs = false →
  initialize mkdir writable drawn nonce now n fs = (Ok (), n1, fs1) →
  ∀ mkdir' writable' drawn' nonce' now' n', config n' = config n →
    ∃ n2, initialize mkdir' writable' drawn' nonce' now' n' fs1 = (Ok (), n2, fs1) ∧
      identity n2 = identity n1 ∧ get_node_id n2 = get_node_id n1.
Proof.
  intros Hnow Hex. unfold initialize at 1. rewrite Hex. unfold generate, Ed25519.generate_keypair.
  destruct drawn as [[pk sk]|]; [|done]. cbn [mbind outcome_bind fst snd]. set (i := new_identity pk sk now []).
  change (identity_path (MkNode (config n) (Some i) (running n))) with (identity_path n).
  change (identity_password (MkNode (config n) (Some i) (running n))) with (identity_password n).
  destruct (save _ _ _ _ _ _ _) as [r fs'] eqn:Es. intros [= -> <- <-] mkdir' writable' drawn' nonce' now' n' Hc.
  assert (Hi : storable i) by (split_and!; try done; by constructor).
  destruct (saved_loads _ _ _ _ _ _ _ _ Hi Es) as (_ & content & ds & -> & _ & _ & _ & Hl).
  assert (identity_path n' = identity_path n) as Hp by (unfold identity_path; by rewrite Hc).
  assert (identity_password n' = identity_password n) as Hpw by (unfold identity_password; by rewrite Hc).
  exists (MkNode (config n') (Some i) (running n')). split; [|done]. unfold initialize, exists_path. rewrite Hp, Hpw.
  cbn [files write_file dirs]. rewrite lookup_insert_eq. rewrite bool_decide_eq_true_2 by done. cbn [orb].
  rewrite Hl by apply lookup_insert_eq. done.
Qed.

(** An identity that cannot be saved is kept all the same, by a node whose initialisation failed. *)
Theorem unsaved_identity mkdir writable kp nonce now n fs :
  writable (identity_path n) = false → exists_path (identity_path n) fs = false →
  ∃ r n1 fs1, initialize mkdir writable (Some kp) nonce now n fs = (r, n1, fs1) ∧ files fs1 = files fs ∧ r ≠ Ok () ∧
    get_node_id n1 = Ok (blake3 (arr kp.1)) ∧ get_node_id (shutdown n1) = Err (ERuntime "Node not initialized").
Proof.
  intros Hw Hex. unfold initialize. rewrite Hex. cbn [generate Ed25519.generate_keypair mbind outcome_bind].
  change (identity_path (MkNode _ _ _)) with (identity_path n).
  destruct (save _ _ _ _ _ _ _) as [r fs1] eqn:Es. eexists _, _, _. split; [done|].
  destruct (save_effect _ _ _ _ _ _ _ _ _ Es) as (_ & _ & [Hf|[_ Hwr]]); [|congruence]. split; [done|]. split; [|done].
  intros ->. revert Es. unfold save. destruct (if decide _ then _ else _) as [[|] fs2]; cbn [negb]; [|done].
  destruct (json_dump _); [|done]. rewrite Hw. by destruct (if decide _ then _ else _).
Qed.
End Restart.
